(* ===== verification/_CoqProject ===== *)
-Q . S2P
Prelude.v
OrdMap.v
Errors.v
Bytes.v
Reader.v
Value.v
ValueFacts.v
Encoding.v
EncodingFacts.v
Limits.v
Operations.v
Program.v
Flow.v
OperationsFacts.v
ProgramFacts.v
Access.v
AccessFacts.v
Analysis.v
Catalogue.v
CatalogueFacts.v
Storage.v
Platform.v
Page.v
PageFacts.v
NodeFacts.v
FileFacts.v
StoredFacts.v
Metadata.v
MetadataFacts.v
Wal.v
WalFacts.v
LogFacts.v
LogChains.v
LogValidation.v
Tree.v
TreeFacts.v
TreeReads.v
TreeSplits.v
TreeWrites.v
TreeEdits.v
Mvcc.v
Checkpoint.v
CheckpointFacts.v
Store.v
Directory.v
Log.v
Publication.v
LogAppend.v
LogRecovery.v
LogSurvival.v
LogExtension.v
StoreFacts.v
PublicationFacts.v
History.v
Disk.v
Lifecycle.v
MvccFacts.v
Overlay.v
Outcome.v
OutcomeFacts.v
Administration.v
OverlayFacts.v
Runtime.v
RuntimeFacts.v
AnalysisFacts.v
Snapshots.v
Installation.v
Frame.v
Execution.v
World.v
Retained.v
Command.v
Engine.v
Samples.v
Physical.v
Durable.v
Serial.v
Programs.v
StateReads.v
Codecs.v
