(* ===== verification/Prelude.v ===== *)
(** * blop-db: a verified model

    blop-db is an embedded database whose transactions are small programs.  A
    program is verified when it is admitted; its run is a pure function of the
    database snapshot it names; its outcome is one record, installed whole
    under the next sequence number.  The database is versioned state, a
    catalogue, limit policies and outcomes, kept in five copy-on-write B+
    trees of an append-only page file, under a manifest that names the roots
    of the last checkpoint.

    ** Conventions

    The definitions translate [src/src] function by function, under the names
    of the source; a method is named after its type.  [Result] has a third
    constructor, [Panic], for what would unwind (a failed [expect], an index
    out of range, an overflow where the source computes unchecked), so that
    freedom from panics is a statement.  Integers are [Z]; the widths of the
    source appear as range checks, wrapping or [arith_u64].  Bytes are
    [list byte].  Iterators are streams of results, a [BTreeMap] is a sorted
    association list (OrdMap.v).  The state a function mutates is threaded
    through it, including the state it leaves when it fails.  SHA-256 and
    CRC-32C are parameters: a function argument or the classes [Sha256] and
    [Checksum] of Bytes.v, of which only the range of the result is assumed.

    ** The files

    Foundations: this file, OrdMap (ordered maps), Errors (the error enums of
    [storage/mod.rs] and [vm/mod.rs]), Bytes and Reader (byte slices and the
    readers of [vm/outcome.rs]).

    Values and codecs: Value ([vm/value.rs]), Encoding ([storage/encoding.rs]:
    schemas, order-preserving keys), Limits ([limits.rs] and the policy of
    [storage/metadata.rs]), Catalogue and Administration ([vm/database.rs]),
    Outcome ([vm/outcome.rs]), Access ([vm/access.rs]), with their [..Facts].
    Codecs.v states the round trips, the key order and the size bounds.

    Programs: Program ([vm/program.rs]: reader and verifier), Operations
    ([vm/operations.rs]), Analysis ([vm/access_analysis.rs]), Runtime
    ([vm/runtime.rs]); Flow is the dataflow argument the verifier and the
    analysis share.  Programs.v states that the verifier is sound, that a step
    preserves the typing of the machine, what the operators return, what the
    analysis predicts and what an admitted manifest covers.

    Logical storage: Storage (the interface a pinned view and its store offer,
    as the classes [Storage] and [PhysicalStore], and their contracts
    [Represents] and [StoreLaws], with an in-memory instance), Mvcc
    ([storage/mvcc.rs]), Overlay (the reads of [vm/database.rs] through a
    transaction's own writes).  StateReads.v states that snapshot reads show
    the newest version at or before the sequence and that overlay reads are a
    merge.

    Physical storage: Platform ([storage/platform.rs]: positional writes
    against any sequence of answers of the operating system), Page
    ([storage/page.rs]: headers, slotted nodes, overflow chains, the
    append-only file), Tree ([storage/tree.rs]: reads, lazy scans,
    copy-on-write edits, the validator), Metadata ([storage/metadata.rs]:
    genesis, manifest, CURRENT), Checkpoint ([storage/checkpoint.rs]:
    validation and its reuse), Store ([storage/store.rs]: views, batches,
    checkpoint preparation, the rules of a publication).  PageFacts, NodeFacts,
    FileFacts and StoredFacts treat the images of pages and what writing keeps;
    TreeFacts defines [tree_holds] (a root holds a sorted map) and TreeReads,
    TreeSplits, TreeWrites and TreeEdits prove each operation
    against it; CheckpointFacts and StoreFacts lift this to root sets, so that
    [Store] is an instance of [StoreLaws].  Physical.v states the results.

    The log: Wal ([storage/wal.rs] and the record envelopes of
    [storage/metadata.rs]: segment headers, commit groups, the reader of a
    committed prefix), LogValidation ([storage/log_validation.rs]), Directory
    (the files by name and the answers to creations, renames and flushes), Log
    ([storage/store/wal.rs]: appends, and the recovery of the tail).  WalFacts,
    LogFacts and LogChains show that a committed prefix has one form and is a
    digest chain; LogAppend, LogRecovery and LogSurvival that an append
    extends it or leaves it and that recovery finds it again; LogExtension
    that an owner's kept proof is as good as the walk.

    The store and its files: Publication ([storage/store.rs]: creation,
    opening, the files of a publication, handover of the page file).
    PublicationFacts shows that a publication selects the old manifest or the
    new one; History states the invariant of the acknowledged history and that
    appends, publications and openings keep it; Disk shows what the flushes of
    appends, recovery and publications put out of reach of a crash; Lifecycle
    joins them with what the trees hold ([sound]), over every sequence of
    calls, failures, crashes and restarts.  Durable.v states the results.

    Transactions: Execution ([vm/mod.rs]: preparation, interpretation,
    execution of records), Installation (installing an outcome), Snapshots (historical
    reads), World (well-typed databases), Frame (runs depend on
    their read scopes).  Serial.v states the refinement of serial execution,
    the invariant of reachable databases, termination, isolation by scopes and
    the outcome of administrative records.  Being proved against [StoreLaws],
    these hold of the page store as of the store in memory.

    The engine: Retained ([vm/history.rs]: what recovery demands of a
    checkpoint), Command ([database/record.rs]: the commands of log records,
    their bodies, preparation and execution), Engine ([database/engine.rs]:
    commit, publication and recovery).  [commit] checks a command against the
    newest snapshot, appends its record to the log, runs it in memory, and
    publishes the new roots; [recover] validates the checkpoint an opened
    store selects and runs the records of the log above it.  [engine_sound]
    joins the invariant of the files (Lifecycle) with the one of the database
    (World).  Durable.v states that a commit is the append followed by the
    reference execution, that an acknowledged commit is in what every later
    opening recovers, that recovery is the serial replay of the log, that two
    replays of a log agree, and that an accepted checkpoint is well typed.

    Samples holds the concrete database of the witnesses; Physical and Durable
    have a page store and a directory of their own.

    ** Fuel

    [decode_type] and the value decoders recurse on 17, one more than the
    nesting a descriptor may have; the catalogue walk has 65536 steps, the
    longest descriptor; a run has as many steps as its program has
    instructions, and is proved to need no more.  Tree descents have
    [TREE_FUEL] = 256 levels, one per value of the level byte, and a seek 256
    descents; a scan is drained by doubling, 2561 times, which exceeds the
    1024^256 entries a tree of that height can hold; an overflow chain has one
    page per started payload.  A log reader takes at least one byte of its
    prefix a turn, recovery at least one block of its file; the loops that
    look for a free generation or segment ID pass an existing file a turn.  No
    theorem says only what happens if fuel
    suffices: the reads of a held tree are proved to answer.

    ** The file and its failures

    A [File] is its contents, how many of its first bytes are flushed, and the
    answers to its next writes: a prefix written, an interruption, a refusal.
    A write or a cut leaves flushed what is below its offset; only a
    [sync_file] that succeeds flushes the rest.  [runs m f Q] says that an operation
    keeps the file well formed and every earlier page as it was, never panics,
    satisfies [Q] when it succeeds, and fails only because the file was
    poisoned, a write was refused, or page numbers ran out.  A [Directory] is
    its files by name with the answers to its next creations, removals, renames
    and flushes, and, for each name, the files it had before the changes that
    no successful [sync_directory] followed; a call that is refused changes
    nothing.

    A crash is the relation [crash] between what a process leaves ([closed])
    and what the next one finds.  It knows nothing of manifests: a file keeps
    its flushed first bytes and may have anything, or nothing, after them; a
    name that was not flushed may have any of its earlier files, or none.  That
    the committed prefixes of the logs, the files that select the checkpoint
    and its pages are among what is kept is derived from the flushes:
    [append_files] flushes a segment, and the directory for a new one, before
    the manifest lists its bytes; [publish_files] flushes the pages, the
    segments, the manifest and its name before CURRENT is replaced; and
    [recover_tail] flushes what it found.  [disk] says so of every file that a
    crash may leave as CURRENT: after a publication whose last flush failed
    these are two, and [open_sound] recovers from either.  Every call may fail
    at any of its writes, so a crash within a call is a crash after a call that
    failed there.

    What is assumed of the operating system beside this: a flush that fails
    loses nothing, and one that succeeds later flushes what was written before;
    a rename replaces the destination at once; a file system that is used
    again has decided which CURRENT it has; and an opening that fails is not
    followed by another on what it left.

    ** Not modelled

    The decoded-node cache ([storage/page/cache.rs]) is left out: readers are
    those of [uncached()].  The lock of a directory and the identity of
    handles are answers given to the model.  History collection, page-file
    copies and backups ([storage/maintenance.rs], [storage/backup.rs]) are not
    modelled.  Of [database/], the engine's commit and recovery are modelled as
    one caller drives them; the scheduler and what it calls (queues, worker
    threads, group commit, budgets, cancellation), cursors and snapshots,
    feeds and the exchange formats, maintenance and replicas are not: they
    need a concurrent semantics.  [vm/resources.rs], the run-time half of the
    [tx!] macro ([bind.rs]) and the procedural macro are not modelled.  The
    theorem on commits does not exclude a panic of the checks of a
    publication after the record was appended. *)
From stdpp Require Export base list option numbers strings.
From stdpp Require Export gmap.
From Stdlib Require Export ZArith Lia Bool.
From Stdlib Require Export Strings.Byte.

Declare Scope blop_scope.
Delimit Scope blop_scope with blop.
#[global] Open Scope blop_scope.
#[global] Open Scope Z_scope.

(** ** Results

    [Ok] and [Err] are the two constructors of [std::result::Result]; [Panic]
    is the third thing a Rust call can do (an [expect], an [unreachable!], an
    out-of-range index, an overflow of checked arithmetic). *)
Inductive Result (E A : Type) : Type :=
| Ok (a : A)
| Err (e : E)
| Panic.
Arguments Ok {E A} a.
Arguments Err {E A} e.
Arguments Panic {E A}.

Definition bindR {E A B} (m : Result E A) (k : A -> Result E B) : Result E B :=
  match m with
  | Ok a => k a
  | Err e => Err e
  | Panic => Panic
  end.

Definition map_err {E F A} (f : E -> F) (m : Result E A) : Result F A :=
  match m with
  | Ok a => Ok a
  | Err e => Err (f e)
  | Panic => Panic
  end.

Notation "'let*' p ':=' m 'in' k" := (bindR m (fun p => k))
  (at level 10, p strict pattern, m at level 100, k at level 200)
  : blop_scope.

(** [option::ok_or]. *)
Definition ok_or {E A} (e : E) (o : option A) : Result E A :=
  match o with Some a => Ok a | None => Err e end.

(** [option::expect], [Vec] indexing: [None] is a panic. *)
Definition expect {E A} (o : option A) : Result E A :=
  match o with Some a => Ok a | None => Panic end.

Definition is_ok {E A} (m : Result E A) : bool :=
  match m with Ok _ => true | _ => false end.

Definition no_panic {E A} (m : Result E A) : Prop := m <> Panic.

(** [iter.map(f).collect::<Result<Vec<_>>>()]. *)
Section mapR.
Context {E A B : Type} (f : A -> Result E B).
Fixpoint mapR (l : list A) : Result E (list B) :=
  match l with
  | [] => Ok []
  | x :: l => let* y := f x in let* ys := mapR l in Ok (y :: ys)
  end.
End mapR.

Section foldR.
Context {E A S : Type} (f : S -> A -> Result E S).
Fixpoint foldR (s : S) (l : list A) : Result E S :=
  match l with
  | [] => Ok s
  | x :: l => let* s' := f s x in foldR s' l
  end.
End foldR.

(** ** Inversion of results *)
Lemma bindR_ok {E A B} (m : Result E A) (k : A -> Result E B) b :
  bindR m k = Ok b <-> exists a, m = Ok a /\ k a = Ok b.
Proof. destruct m; naive_solver. Qed.

Lemma ok_inj {E A} (a b : A) : Ok (E:=E) a = Ok b -> a = b.
Proof. by intros [= ->]. Qed.

Lemma ok_or_ok {E A} (e : E) (o : option A) a : ok_or e o = Ok a <-> o = Some a.
Proof. destruct o; naive_solver. Qed.

Lemma expect_ok {E A} (o : option A) a : expect (E:=E) o = Ok a <-> o = Some a.
Proof. destruct o; naive_solver. Qed.

Lemma map_err_ok {E F A} (f : E -> F) (m : Result E A) a :
  map_err f m = Ok a <-> m = Ok a.
Proof. destruct m; naive_solver. Qed.

Lemma bindR_no_panic {E A B} (m : Result E A) (k : A -> Result E B) :
  no_panic m -> (forall a, m = Ok a -> no_panic (k a)) -> no_panic (bindR m k).
Proof. unfold no_panic. destruct m; naive_solver. Qed.

Lemma mapR_Forall2 {E A B} (f : A -> Result E B) l l' :
  mapR f l = Ok l' <-> Forall2 (fun x y => f x = Ok y) l l'.
Proof.
  revert l'. induction l as [|x l IH]; intros l'; simpl.
  - split; [intros [= <-]; constructor | intros H; inversion H; done].
  - rewrite bindR_ok. setoid_rewrite bindR_ok. split.
    + intros (y & Hy & ys & Hys & [= <-]). constructor; [done|]. by apply IH.
    + intros H. inversion H as [|? y ? ys Hy Hys]; subst.
      exists y. split; [done|]. exists ys. split; [by apply IH | done].
Qed.

Lemma mapR_length {E A B} (f : A -> Result E B) l l' :
  mapR f l = Ok l' -> length l' = length l.
Proof. intros H%mapR_Forall2. symmetry. by eapply Forall2_length. Qed.

Lemma mapR_no_panic {E A B} (f : A -> Result E B) l :
  Forall (fun x => no_panic (f x)) l -> no_panic (mapR f l).
Proof.
  induction 1 as [|x l Hx Hl IH]; simpl; [done|].
  apply bindR_no_panic; [done|]. intros y _. apply bindR_no_panic; [done|]. done.
Qed.

Lemma foldR_no_panic {E A B} (f : B -> A -> Result E B) l : forall b, (forall b a, no_panic (f b a)) -> no_panic (foldR f b l).
Proof. induction l as [|a l IH]; intros b Hf; simpl; [done|]. apply bindR_no_panic; [done|]. intros b' _. by apply IH. Qed.

(** Break a successful run of [let*] code into its steps. *)
Ltac inv_ok :=
  repeat match goal with
  | H : Ok _ = Ok _ |- _ => injection H as H; subst
  | H : Err _ = Ok _ |- _ => discriminate H
  | H : Panic = Ok _ |- _ => discriminate H
  | H : bindR _ _ = Ok _ |- _ =>
      let a := fresh "a" in let Ha := fresh "Ha" in
      apply bindR_ok in H as (a & Ha & H); cbv beta iota in H
  | H : ok_or _ _ = Ok _ |- _ => apply ok_or_ok in H
  | H : expect _ = Ok _ |- _ => apply expect_ok in H
  | H : map_err _ _ = Ok _ |- _ => apply map_err_ok in H
  | H : context [match ?p with pair _ _ => _ end] |- _ => destruct p
  | H : (if ?b then _ else _) = Ok _ |- _ => destruct b eqn:?; try discriminate H
  end.

(** ** Machine integers *)
Definition u16_max : Z := 65535.
Definition u32_max : Z := 4294967295.
Definition u64_max : Z := 18446744073709551615.
Definition i64_min : Z := -9223372036854775808.
Definition i64_max : Z := 9223372036854775807.
(** [usize] is 64 bits wide on the platforms considered. *)
Definition usize_max : Z := u64_max.

Definition in_u64 (z : Z) : bool := (0 <=? z) && (z <=? u64_max).
Definition in_i64 (z : Z) : bool := (i64_min <=? z) && (z <=? i64_max).
Definition in_u32 (z : Z) : bool := (0 <=? z) && (z <=? u32_max).

(** [checked_*] arithmetic: the exact result when it is representable. *)
Definition checked_u64 (z : Z) : option Z := if in_u64 z then Some z else None.
Definition checked_i64 (z : Z) : option Z := if in_i64 z then Some z else None.
(** Plain [+], [-], [*] on [u64]/[usize]: overflow is a panic. *)
Definition arith_u64 {E} (z : Z) : Result E Z := expect (checked_u64 z).
Definition saturating_u64 (z : Z) : Z := Z.min z u64_max.

(** Wrap-around to the width, for shifts and complements. *)
Definition wrap_u64 (z : Z) : Z := z mod 2 ^ 64.
Definition wrap_i64 (z : Z) : Z := (z + 2 ^ 63) mod 2 ^ 64 - 2 ^ 63.
(** Bitwise complement [!x] of a [u64]. *)
Definition not_u64 (z : Z) : Z := u64_max - z.

Lemma in_u64_spec z : in_u64 z = true <-> 0 <= z <= u64_max.
Proof. unfold in_u64. rewrite andb_true_iff, !Z.leb_le. done. Qed.
Lemma in_i64_spec z : in_i64 z = true <-> i64_min <= z <= i64_max.
Proof. unfold in_i64. rewrite andb_true_iff, !Z.leb_le. done. Qed.
Lemma in_u32_spec z : in_u32 z = true <-> 0 <= z <= u32_max.
Proof. unfold in_u32. rewrite andb_true_iff, !Z.leb_le. done. Qed.

Lemma checked_u64_Some z r : checked_u64 z = Some r <-> r = z /\ 0 <= z <= u64_max.
Proof. unfold checked_u64. rewrite <-in_u64_spec. destruct (in_u64 z); naive_solver. Qed.
Lemma checked_i64_Some z r : checked_i64 z = Some r <-> r = z /\ i64_min <= z <= i64_max.
Proof. unfold checked_i64. rewrite <-in_i64_spec. destruct (in_i64 z); naive_solver. Qed.

Lemma arith_u64_ok {E} z : 0 <= z <= u64_max -> arith_u64 (E:=E) z = Ok z.
Proof. intros H%in_u64_spec. unfold arith_u64, checked_u64. by rewrite H. Qed.
Lemma arith_u64_inv {E} z r : arith_u64 (E:=E) z = Ok r -> r = z /\ 0 <= z <= u64_max.
Proof. unfold arith_u64. rewrite expect_ok. apply checked_u64_Some. Qed.

(** ** Bytes *)
Abbreviation bytes := (list byte).

#[export] Instance byte_eq_dec : EqDecision byte := Byte.byte_eq_dec.
#[export] Program Instance byte_countable : Countable byte :=
  inj_countable Byte.to_N Byte.of_N _.
Next Obligation. intros b. apply Byte.of_to_N. Qed.

Definition byte_Z (b : byte) : Z := Z.of_N (Byte.to_N b).
Definition Z_byte (z : Z) : byte :=
  match Byte.of_N (Z.to_N (z mod 256)) with Some b => b | None => x00 end.

(** [Vec::len] as an integer. *)
Definition len {A} (l : list A) : Z := Z.of_nat (length l).

Fixpoint le_bytes (n : nat) (z : Z) : bytes :=
  match n with
  | O => []
  | S n => Z_byte z :: le_bytes n (z / 256)
  end.

Fixpoint from_le (bs : bytes) : Z :=
  match bs with
  | [] => 0
  | b :: bs => byte_Z b + 256 * from_le bs
  end.

Definition be_bytes (n : nat) (z : Z) : bytes := reverse (le_bytes n z).
Definition from_be (bs : bytes) : Z := from_le (reverse bs).

Lemma byte_Z_range b : 0 <= byte_Z b < 256.
Proof. unfold byte_Z. pose proof (Byte.to_N_bounded b). lia. Qed.

Lemma Z_byte_Z b : Z_byte (byte_Z b) = b.
Proof.
  unfold Z_byte. rewrite Z.mod_small by apply byte_Z_range.
  unfold byte_Z. by rewrite N2Z.id, Byte.of_to_N.
Qed.

Lemma byte_Z_byte z : byte_Z (Z_byte z) = z mod 256.
Proof.
  unfold Z_byte. pose proof (Z.mod_pos_bound z 256 ltac:(lia)).
  destruct (Byte.of_N _) as [b|] eqn:Hb.
  - apply Byte.to_of_N in Hb. unfold byte_Z. rewrite Hb, Z2N.id; lia.
  - apply Byte.of_N_None_iff in Hb. lia.
Qed.

Lemma byte_Z_inj a b : byte_Z a = byte_Z b -> a = b.
Proof. intros H. by rewrite <-(Z_byte_Z a), H, Z_byte_Z. Qed.

Lemma length_le_bytes n z : length (le_bytes n z) = n.
Proof. revert z. induction n; simpl; auto. Qed.

Lemma length_be_bytes n z : length (be_bytes n z) = n.
Proof. unfold be_bytes. by rewrite length_reverse, length_le_bytes. Qed.

Lemma from_le_range bs : 0 <= from_le bs < 256 ^ len bs.
Proof.
  unfold len. induction bs as [|b bs IH]; simpl; [lia|].
  pose proof (byte_Z_range b).
  replace (256 ^ Z.of_nat (S (length bs))) with (256 * 256 ^ Z.of_nat (length bs)); [lia|].
  rewrite Nat2Z.inj_succ, Z.pow_succ_r; lia.
Qed.

Lemma from_le_bytes n z : from_le (le_bytes n z) = z mod 256 ^ Z.of_nat n.
Proof.
  revert z. induction n as [|n IH]; intros z; simpl.
  - by rewrite Z.mod_1_r.
  - rewrite IH, byte_Z_byte, Nat2Z.inj_succ, Z.pow_succ_r by lia.
    rewrite Z.rem_mul_r by lia. lia.
Qed.

Lemma from_le_bytes_small n z :
  0 <= z < 256 ^ Z.of_nat n -> from_le (le_bytes n z) = z.
Proof. intros. rewrite from_le_bytes. by apply Z.mod_small. Qed.

Lemma le_bytes_from_le n bs : length bs = n -> le_bytes n (from_le bs) = bs.
Proof.
  intros <-. induction bs as [|b bs IH]; simpl; [done|].
  pose proof (byte_Z_range b). f_equal.
  - rewrite <-(Z_byte_Z b) at 2. unfold Z_byte.
    rewrite Z.mul_comm, Z_mod_plus_full. done.
  - rewrite Z.mul_comm, Z.div_add by lia.
    rewrite Z.div_small by done. done.
Qed.

Lemma from_be_bytes_small n z :
  0 <= z < 256 ^ Z.of_nat n -> from_be (be_bytes n z) = z.
Proof. intros. unfold from_be, be_bytes. rewrite reverse_involutive. by apply from_le_bytes_small. Qed.

Lemma be_bytes_from_be n bs : length bs = n -> be_bytes n (from_be bs) = bs.
Proof.
  intros H. unfold be_bytes, from_be.
  rewrite le_bytes_from_le by by rewrite length_reverse. apply reverse_involutive.
Qed.

Lemma from_be_range bs : 0 <= from_be bs < 256 ^ len bs.
Proof. unfold from_be. pose proof (from_le_range (reverse bs)) as H. unfold len in *. by rewrite length_reverse in H. Qed.

Lemma len_app {A} (l k : list A) : len (l ++ k) = len l + len k.
Proof. unfold len. rewrite length_app. lia. Qed.
Lemma len_cons {A} (x : A) l : len (x :: l) = 1 + len l.
Proof. unfold len. simpl. lia. Qed.
Lemma len_nil {A} : len (@nil A) = 0.
Proof. done. Qed.
Lemma len_nonneg {A} (l : list A) : 0 <= len l.
Proof. unfold len. lia. Qed.
Lemma len_le_bytes n z : len (le_bytes n z) = Z.of_nat n.
Proof. unfold len. by rewrite length_le_bytes. Qed.
Lemma len_be_bytes n z : len (be_bytes n z) = Z.of_nat n.
Proof. unfold len. by rewrite length_be_bytes. Qed.

Create HintDb blop discriminated.
#[export] Hint Rewrite @len_app @len_cons @len_nil len_le_bytes len_be_bytes : blop.
#[export] Hint Resolve @len_nonneg byte_Z_range : blop.

(** ** Total orders

    Rust's [Ord]: a three-way comparison together with the laws its
    documentation requires. *)
Class Cmp (A : Type) := cmp : A -> A -> comparison.
Class CmpLaws (A : Type) `{Cmp A} := {
  cmp_eq : forall a b : A, cmp a b = Eq <-> a = b;
  cmp_antisym : forall a b : A, cmp b a = CompOpp (cmp a b);
  cmp_trans : forall a b c : A, cmp a b = Lt -> cmp b c = Lt -> cmp a c = Lt }.
#[export] Hint Mode Cmp ! : typeclass_instances.

Definition cmp_lt {A} `{Cmp A} (a b : A) : bool :=
  match cmp a b with Lt => true | _ => false end.
Definition cmp_le {A} `{Cmp A} (a b : A) : bool :=
  match cmp a b with Gt => false | _ => true end.

Section CmpFacts.
Context `{CmpLaws A}.
Lemma cmp_refl (a : A) : cmp a a = Eq.
Proof. by apply cmp_eq. Qed.
Lemma cmp_gt_lt (a b : A) : cmp a b = Gt <-> cmp b a = Lt.
Proof. rewrite (cmp_antisym a b). destruct (cmp a b); simpl; naive_solver. Qed.
Lemma cmp_irrefl (a : A) : cmp a a <> Lt.
Proof. by rewrite cmp_refl. Qed.
Lemma cmp_lt_true (a b : A) : cmp_lt a b = true <-> cmp a b = Lt.
Proof. unfold cmp_lt. destruct (cmp a b); naive_solver. Qed.
Lemma cmp_le_true (a b : A) : cmp_le a b = true <-> cmp a b = Lt \/ a = b.
Proof. unfold cmp_le. rewrite <-cmp_eq. destruct (cmp a b); naive_solver. Qed.
Lemma cmp_le_lt (a b : A) : cmp_le a b = negb (cmp_lt b a).
Proof. unfold cmp_le, cmp_lt. rewrite (cmp_antisym a b). by destruct (cmp a b). Qed.
Lemma cmp_lt_ne (a b : A) : cmp a b = Lt -> a <> b.
Proof. intros Hl ->. by apply cmp_irrefl in Hl. Qed.
Lemma cmp_asym (a b : A) : cmp a b = Lt -> cmp b a <> Lt.
Proof. intros Hl. rewrite (cmp_antisym a b), Hl. done. Qed.
Lemma cmp_le_lt_trans (a b c : A) : cmp_le a b = true -> cmp b c = Lt -> cmp a c = Lt.
Proof. rewrite cmp_le_true. intros [?| ->]; [by eapply cmp_trans | done]. Qed.
Lemma cmp_lt_le_trans (a b c : A) : cmp a b = Lt -> cmp_le b c = true -> cmp a c = Lt.
Proof. rewrite cmp_le_true. intros ? [?| <-]; [by eapply cmp_trans | done]. Qed.
End CmpFacts.

#[export] Instance Z_cmp : Cmp Z := Z.compare.
#[export] Instance Z_cmp_laws : CmpLaws Z.
Proof.
  split; unfold cmp, Z_cmp; intros.
  - apply Z.compare_eq_iff.
  - apply Z.compare_antisym.
  - rewrite Z.compare_lt_iff in *. lia.
Qed.

#[export] Instance byte_cmp : Cmp byte := fun a b => Z.compare (byte_Z a) (byte_Z b).
#[export] Instance byte_cmp_laws : CmpLaws byte.
Proof.
  split; unfold cmp, byte_cmp; intros.
  - rewrite Z.compare_eq_iff. split; [apply byte_Z_inj | by intros ->].
  - apply Z.compare_antisym.
  - rewrite Z.compare_lt_iff in *. lia.
Qed.

(** Lexicographic orders of pairs and of slices. *)
Definition lex (c d : comparison) : comparison :=
  match c with Eq => d | _ => c end.

#[export] Instance pair_cmp {A B} `{Cmp A, Cmp B} : Cmp (A * B) :=
  fun p q => lex (cmp p.1 q.1) (cmp p.2 q.2).

Section list_cmp_by.
Context {A : Type} (c : A -> A -> comparison).
Fixpoint list_cmp_by (l k : list A) : comparison :=
  match l, k with
  | [], [] => Eq
  | [], _ :: _ => Lt
  | _ :: _, [] => Gt
  | x :: l, y :: k => lex (c x y) (list_cmp_by l k)
  end.
End list_cmp_by.
#[export] Instance list_cmp {A} `{Cmp A} : Cmp (list A) := list_cmp_by cmp.

Lemma lex_eq c d : lex c d = Eq <-> c = Eq /\ d = Eq.
Proof. destruct c; naive_solver. Qed.
Lemma lex_lt c d : lex c d = Lt <-> c = Lt \/ (c = Eq /\ d = Lt).
Proof. destruct c; naive_solver. Qed.
Lemma lex_opp c d : CompOpp (lex c d) = lex (CompOpp c) (CompOpp d).
Proof. by destruct c. Qed.

#[export] Instance pair_cmp_laws `{CmpLaws A, CmpLaws B} : CmpLaws (A * B).
Proof.
  split; unfold cmp, pair_cmp.
  - intros [a1 a2] [b1 b2]; simpl. rewrite lex_eq, !cmp_eq. naive_solver.
  - intros [a1 a2] [b1 b2]; simpl. by rewrite lex_opp, (cmp_antisym a1), (cmp_antisym a2).
  - intros [a1 a2] [b1 b2] [c1 c2]; simpl. rewrite !lex_lt, !cmp_eq.
    intros [?|[-> ?]] [?|[-> ?]]; eauto using cmp_trans.
Qed.

#[export] Instance list_cmp_laws `{CmpLaws A} : CmpLaws (list A).
Proof.
  split; unfold cmp, list_cmp.
  - induction a as [|x l IH]; intros [|y k]; simpl; try naive_solver.
    rewrite lex_eq, IH, cmp_eq. naive_solver.
  - induction a as [|x l IH]; intros [|y k]; simpl; try done.
    by rewrite lex_opp, (cmp_antisym x), IH.
  - induction a as [|x l IH]; intros [|y k] [|z m]; simpl; try done.
    rewrite !lex_lt, !cmp_eq.
    intros [?|[-> ?]] [?|[-> ?]]; eauto using cmp_trans.
Qed.

Lemma cmp_app_same `{CmpLaws A} (p l k : list A) : cmp (p ++ l) (p ++ k) = cmp l k.
Proof.
  induction p as [|x p IH]; [done|]. unfold cmp, list_cmp in *. simpl.
  by rewrite cmp_refl, IH.
Qed.

(** Slices of equal length that differ decide the comparison of their extensions. *)
Lemma cmp_app_eq_len `{CmpLaws A} (l l' m m' : list A) :
  length l = length l' -> cmp (l ++ m) (l' ++ m') = lex (cmp l l') (cmp m m').
Proof.
  revert l'. induction l as [|x l IH]; intros [|y l']; simpl; try lia; [done|].
  intros Hl. specialize (IH l' ltac:(lia)). unfold cmp, list_cmp in *. simpl.
  rewrite IH. by destruct (cmp x y).
Qed.

(** Big-endian integers compare as byte strings. *)
Lemma cmp_be_bytes n a b :
  0 <= a < 256 ^ Z.of_nat n -> 0 <= b < 256 ^ Z.of_nat n ->
  cmp (be_bytes n a) (be_bytes n b) = cmp a b.
Proof.
  revert a b. induction n as [|n IH]; intros a b Ha Hb.
  - simpl in *. by replace b with a by lia; rewrite !cmp_refl.
  - unfold be_bytes. simpl. rewrite !reverse_cons.
    rewrite Nat2Z.inj_succ, Z.pow_succ_r in Ha, Hb by lia.
    rewrite cmp_app_eq_len by by rewrite !length_reverse, !length_le_bytes.
    change (lex (cmp (be_bytes n (a / 256)) (be_bytes n (b / 256)))
              (cmp [Z_byte a] [Z_byte b]) = cmp a b).
    rewrite IH by (split; [apply Z.div_pos|apply Z.div_lt_upper_bound]; lia).
    unfold cmp at 2, list_cmp, cmp, byte_cmp, Z_cmp; simpl. rewrite !byte_Z_byte.
    pose proof (Z.div_mod a 256 ltac:(lia)). pose proof (Z.div_mod b 256 ltac:(lia)).
    pose proof (Z.mod_pos_bound a 256 ltac:(lia)). pose proof (Z.mod_pos_bound b 256 ltac:(lia)).
    destruct (Z.compare_spec (a / 256) (b / 256)), (Z.compare_spec (a mod 256) (b mod 256)),
      (Z.compare_spec a b); simpl; try lia; done.
Qed.
#[global] Opaque le_bytes from_le be_bytes from_be.
#[global] Arguments len : simpl never.
#[global] Arguments Z.pow : simpl never.
#[global] Arguments Z.mul : simpl never.
#[global] Arguments Z.add : simpl never.

(** Case analysis on a tag byte whose unlisted values are rejected. *)
Ltac case_byte b H := destruct b; try discriminate H.

(** Turn boolean arithmetic hypotheses into propositions. *)
Ltac bsimp :=
  repeat match goal with
  | H : context [Z.gtb _ _] |- _ => rewrite Z.gtb_ltb in H
  | H : context [Z.geb _ _] |- _ => rewrite Z.geb_leb in H
  end;
  repeat match goal with
  | H : _ && _ = true |- _ => apply andb_true_iff in H as [? ?]
  | H : _ || _ = false |- _ => apply orb_false_iff in H as [? ?]
  | H : negb _ = false |- _ => apply negb_false_iff in H
  | H : negb _ = true |- _ => apply negb_true_iff in H
  | H : (_ <=? _) = true |- _ => apply Z.leb_le in H
  | H : (_ <=? _) = false |- _ => apply Z.leb_gt in H
  | H : (_ <? _) = true |- _ => apply Z.ltb_lt in H
  | H : (_ <? _) = false |- _ => apply Z.ltb_ge in H
  | H : (_ =? _) = true |- _ => apply Z.eqb_eq in H
  | H : (_ =? _) = false |- _ => apply Z.eqb_neq in H
  | H : in_u32 _ = true |- _ => apply in_u32_spec in H
  | H : in_u64 _ = true |- _ => apply in_u64_spec in H
  | H : in_i64 _ = true |- _ => apply in_i64_spec in H
  end;
  unfold u16_max, u32_max, u64_max, i64_min, i64_max, usize_max in *.
Ltac blia := bsimp; lia.

Lemma gtb_false a b : a <= b -> (a >? b) = false.
Proof. intros. rewrite Z.gtb_ltb. apply Z.ltb_ge. lia. Qed.
Lemma gtb_true a b : b < a -> (a >? b) = true.
Proof. intros. rewrite Z.gtb_ltb. apply Z.ltb_lt. lia. Qed.

Lemma forallb_Forall {A} (f : A -> bool) l :
  forallb f l = true <-> Forall (fun x => f x = true) l.
Proof.
  rewrite forallb_forall, Forall_forall. split; intros H x Hx; apply H; by apply list_elem_of_In.
Qed.

(** Name the pieces of one [let*] step. *)
Tactic Notation "step_ok" hyp(H) "as" simple_intropattern(p) "eqn" ident(Hp) :=
  apply bindR_ok in H as (p & Hp & H); cbv beta iota in H.

(** Split every conjunction of booleans in the context. *)
Ltac destruct_andb :=
  repeat match goal with
  | H : _ && _ = true |- _ => apply andb_true_iff in H as [? ?]
  end.

Lemma Forall_conj {A} (P Q : A -> Prop) l :
  Forall P l -> Forall Q l -> Forall (fun x => P x /\ Q x) l.
Proof. induction 1; intros H2; inversion H2; subst; auto. Qed.

Lemma Forall2_conj_l {A B} (R : A -> B -> Prop) (P : A -> Prop) l k :
  Forall2 R l k -> Forall P l -> Forall2 (fun x y => R x y /\ P x) l k.
Proof. induction 1; intros HP; inversion HP; subst; auto. Qed.

Lemma app_len_inj {A} (a b c d : list A) : a ++ b = c ++ d -> len a = len c -> a = c /\ b = d.
Proof. intros E Hl. apply app_inj_1; [unfold len in Hl; lia|done]. Qed.
Lemma drop_len_app {A} (a b : list A) : drop (Z.to_nat (len a)) (a ++ b) = b.
Proof. unfold len. by rewrite Nat2Z.id, drop_app_length. Qed.
Lemma take_len_app {A} (a b : list A) : take (Z.to_nat (len a)) (a ++ b) = a.
Proof. unfold len. by rewrite Nat2Z.id, take_app_length. Qed.

Lemma lookup_map {A B} (f : A -> B) l i : map f l !! i = f <$> (l !! i).
Proof. apply list_lookup_fmap. Qed.

Definition sum_Z (l : list Z) : Z := foldr Z.add 0 l.

Lemma sum_Z_app a b : sum_Z (a ++ b) = sum_Z a + sum_Z b.
Proof. induction a as [|x a IH]; simpl; [lia|]. rewrite IH. lia. Qed.
Lemma sum_Z_nonneg l : Forall (fun z => 0 <= z) l -> 0 <= sum_Z l.
Proof. induction 1; simpl; lia. Qed.

(** ** Absence of panics, step by step *)
Create HintDb no_panic discriminated.
Lemma ok_no_panic {E A} (a : A) : no_panic (E:=E) (Ok a).
Proof. done. Qed.
Lemma err_no_panic {E A} (e : E) : no_panic (A:=A) (Err e).
Proof. done. Qed.
Lemma ok_or_no_panic {E A} (e : E) (o : option A) : no_panic (ok_or e o).
Proof. by destruct o. Qed.
Lemma map_err_no_panic {E F A} (f : E -> F) (m : Result E A) : no_panic m -> no_panic (map_err f m).
Proof. unfold no_panic. destruct m; naive_solver. Qed.
#[export] Hint Resolve ok_no_panic err_no_panic ok_or_no_panic map_err_no_panic : no_panic.

Ltac solve_no_panic :=
  repeat (match goal with
  | |- no_panic (bindR _ _) => apply bindR_no_panic; [|intros ? ?]
  | |- no_panic (if ?b then _ else _) => destruct b
  | |- no_panic (match ?x with _ => _ end) => destruct x
  end); auto with no_panic.

(** Pass a guard [if b then Err .. else ..] of a successful run. *)
Ltac step_guard H E :=
  match type of H with
  | (if ?b then _ else _) = Ok _ => destruct b eqn:E; [discriminate H|]
  end.
Tactic Notation "step_if" hyp(H) "eqn" ident(E) := step_guard H E.
Tactic Notation "step_if" hyp(H) := let E := fresh "Hif" in step_guard H E.
