(* ===== verification/OrdMap.v ===== *)
(** * Ordered maps and key ranges

    [std::collections::BTreeMap] as a strictly sorted association list
    ([bt_get], [bt_insert], iteration in key order) and [std::ops::Bound]
    ranges over any key type with a lawful comparison.  The components use it
    for the transaction overlay, the access manifest and the storage trees. *)
From S2P Require Import Prelude.
From Stdlib Require Import Sorted.

Inductive Bound (A : Type) : Type :=
| Included (a : A)
| Excluded (a : A)
| Unbounded.
Arguments Included {A} a.
Arguments Excluded {A} a.
Arguments Unbounded {A}.

Definition bound_map {A B} (f : A -> B) (b : Bound A) : Bound B :=
  match b with
  | Included a => Included (f a)
  | Excluded a => Excluded (f a)
  | Unbounded => Unbounded
  end.

Definition above {A} `{Cmp A} (lower : Bound A) (k : A) : bool :=
  match lower with
  | Included a => cmp_le a k
  | Excluded a => cmp_lt a k
  | Unbounded => true
  end.

Definition below {A} `{Cmp A} (upper : Bound A) (k : A) : bool :=
  match upper with
  | Included a => cmp_le k a
  | Excluded a => cmp_lt k a
  | Unbounded => true
  end.

Definition in_range {A} `{Cmp A} (lower upper : Bound A) (k : A) : bool :=
  above lower k && below upper k.

Section BTreeMap.
Context {K V : Type} `{CmpLaws K}.
Implicit Types (m : list (K * V)) (k : K) (v : V).

Fixpoint bt_get (k : K) (m : list (K * V)) : option V :=
  match m with
  | [] => None
  | (k', v) :: m =>
      match cmp k k' with
      | Lt => None
      | Eq => Some v
      | Gt => bt_get k m
      end
  end.

Fixpoint bt_insert (k : K) (v : V) (m : list (K * V)) : list (K * V) :=
  match m with
  | [] => [(k, v)]
  | (k', v') :: m' =>
      match cmp k k' with
      | Lt => (k, v) :: m
      | Eq => (k, v) :: m'
      | Gt => (k', v') :: bt_insert k v m'
      end
  end.

(** [BTreeMap::remove] *)
Fixpoint bt_remove (k : K) (m : list (K * V)) : list (K * V) :=
  match m with
  | [] => []
  | (k', v') :: m' =>
      match cmp k k' with
      | Lt => m
      | Eq => m'
      | Gt => (k', v') :: bt_remove k m'
      end
  end.

(** [BTreeMap::range]: the entries of the range, in key order. *)
Definition bt_range (lower upper : Bound K) (m : list (K * V)) : list (K * V) :=
  List.filter (fun e => in_range lower upper e.1) m.

Definition key_lt (a b : K * V) : Prop := cmp a.1 b.1 = Lt.
Abbreviation bt_sorted := (StronglySorted key_lt).

Lemma bt_get_lt k m : Forall (fun e => cmp k e.1 = Lt) m -> bt_get k m = None.
Proof. destruct 1 as [|[k' v'] m Hk]; simpl in *; [done|]. by rewrite Hk. Qed.

Lemma bt_sorted_get_head k v m : bt_sorted ((k, v) :: m) -> bt_get k m = None.
Proof.
  intros Hs. apply bt_get_lt. apply StronglySorted_inv in Hs as [_ Hf].
  exact Hf.
Qed.

Lemma bt_get_insert k k' v m :
  bt_sorted m ->
  bt_get k (bt_insert k' v m) = match cmp k k' with Eq => Some v | _ => bt_get k m end.
Proof.
  induction m as [|[a w] m IH]; intros Hs; simpl; [done|].
  apply StronglySorted_inv in Hs as [Hs Hf]. specialize (IH Hs).
  destruct (cmp k' a) eqn:Ha; simpl.
  - apply cmp_eq in Ha as ->. by destruct (cmp k a).
  - destruct (cmp k k') eqn:Hk; try done.
    by rewrite (cmp_trans _ _ _ Hk Ha).
  - rewrite IH. destruct (cmp k a) eqn:Hka; try done.
    + apply cmp_eq in Hka as ->. rewrite (cmp_antisym k' a), Ha. done.
    + apply cmp_gt_lt in Ha. by rewrite (cmp_trans _ _ _ Hka Ha).
Qed.

Lemma bt_get_insert_eq k v m : bt_sorted m -> bt_get k (bt_insert k v m) = Some v.
Proof. intros Hs. by rewrite bt_get_insert, cmp_refl. Qed.

Lemma bt_get_insert_ne k k' v m :
  bt_sorted m -> k <> k' -> bt_get k (bt_insert k' v m) = bt_get k m.
Proof.
  intros Hs Hne. rewrite bt_get_insert by done.
  destruct (cmp k k') eqn:E; try done. by apply cmp_eq in E.
Qed.

Lemma elem_of_bt_insert k v m e :
  e ∈ bt_insert k v m -> e = (k, v) \/ e ∈ m.
Proof.
  induction m as [|[a w] m IH]; simpl.
  - intros ->%list_elem_of_singleton; auto.
  - destruct (cmp k a); rewrite !elem_of_cons; naive_solver.
Qed.

Lemma bt_sorted_insert k v m : bt_sorted m -> bt_sorted (bt_insert k v m).
Proof.
  induction m as [|[a w] m IH]; intros Hs; simpl; [by repeat constructor|].
  pose proof Hs as Hs0. apply StronglySorted_inv in Hs as [Hs Hf].
  destruct (cmp k a) eqn:Ha.
  - apply cmp_eq in Ha as ->. by constructor.
  - constructor; [done|]. constructor; [exact Ha|].
    eapply List.Forall_impl; [|exact Hf]. intros [b z] Hb. by eapply cmp_trans.
  - constructor; [by apply IH|]. apply List.Forall_forall. intros e He.
    apply list_elem_of_In, elem_of_bt_insert in He as [->|He].
    + by apply cmp_gt_lt.
    + rewrite List.Forall_forall in Hf. apply Hf. by apply list_elem_of_In.
Qed.

Lemma elem_of_bt_remove k m e : e ∈ bt_remove k m -> e ∈ m.
Proof.
  induction m as [|[a w] m IH]; simpl; [done|]. destruct (cmp k a); [by right|done|].
  rewrite !elem_of_cons. naive_solver.
Qed.
Lemma bt_sorted_remove k m : bt_sorted m -> bt_sorted (bt_remove k m).
Proof.
  induction m as [|[a w] m IH]; intros Hs; simpl; [done|]. pose proof Hs as Hs0.
  apply StronglySorted_inv in Hs as [Hs Hf]. destruct (cmp k a); [done|done|]. constructor; [by apply IH|].
  rewrite List.Forall_forall in *. intros e He%list_elem_of_In%elem_of_bt_remove. by apply Hf, list_elem_of_In.
Qed.

Lemma bt_get_elem k v m : bt_get k m = Some v -> (k, v) ∈ m.
Proof.
  induction m as [|[a w] m IH]; simpl; [done|]. rewrite elem_of_cons.
  destruct (cmp k a) eqn:E; intros; simplify_eq.
  - apply cmp_eq in E as ->. by left.
  - right. by apply IH.
Qed.

Lemma bt_elem_get k v m : bt_sorted m -> (k, v) ∈ m -> bt_get k m = Some v.
Proof.
  induction m as [|[a w] m IH]; intros Hs He; simpl.
  - by apply not_elem_of_nil in He.
  - apply StronglySorted_inv in Hs as [Hs Hf].
    apply elem_of_cons in He as [[= -> ->]|He]; [by rewrite cmp_refl|].
    rewrite List.Forall_forall in Hf.
    assert (cmp a k = Lt) as Hlt by (apply (Hf (k, v)), list_elem_of_In; done).
    apply cmp_gt_lt in Hlt. rewrite Hlt. by apply IH.
Qed.

Lemma bt_get_None k m :
  bt_sorted m -> bt_get k m = None <-> (forall v, (k, v) ∉ m).
Proof.
  intros Hs. split.
  - intros Hn v He. by rewrite (bt_elem_get _ _ _ Hs He) in Hn.
  - intros Hn. destruct (bt_get k m) as [v|] eqn:E; [|done].
    by apply bt_get_elem, Hn in E.
Qed.

Lemma elem_of_remove k m e : bt_sorted m -> e ∈ bt_remove k m <-> e ∈ m /\ e.1 <> k.
Proof.
  intros Hs. induction m as [|[a w] m IH]; simpl; [by split; [intros ?%elem_of_nil|intros [?%elem_of_nil _]]|].
  pose proof Hs as [Hs' Hf]%StronglySorted_inv. rewrite List.Forall_forall in Hf.
  destruct (cmp k a) eqn:E; rewrite ?elem_of_cons.
  - apply cmp_eq in E as ->. split; [|by intros [[->|?] Hne]]. intros Hin. split; [by right|]. intros <-.
    apply list_elem_of_In, Hf in Hin. by apply cmp_irrefl in Hin.
  - split; [|by intros [? _]]. intros Hin. split; [done|]. intros <-. destruct Hin as [->|Hin]; [by apply cmp_irrefl in E|].
    apply list_elem_of_In, Hf in Hin. by apply cmp_asym in E.
  - rewrite IH by done. split; [intros [->|[? ?]]|intros [[->|?] ?]]; [|by split; [right|]|by left|by right].
    split; [by left|]. intros <-. by rewrite cmp_refl in E.
Qed.

Lemma bt_get_remove k m : bt_sorted m -> bt_get k (bt_remove k m) = None.
Proof. intros Hs. apply bt_get_None; [by apply bt_sorted_remove|]. intros v [_ Hne]%elem_of_remove; done. Qed.

Lemma bt_get_remove_ne k k' m : bt_sorted m -> k <> k' -> bt_get k (bt_remove k' m) = bt_get k m.
Proof.
  intros Hs Hne. pose proof (bt_sorted_remove k' m Hs) as Hr. destruct (bt_get k m) as [v|] eqn:E.
  - apply bt_elem_get; [done|]. apply elem_of_remove; [done|]. split; [by apply bt_get_elem|done].
  - apply bt_get_None; [done|]. intros v [Hin _]%elem_of_remove; [|done]. apply (bt_elem_get _ _ _ Hs) in Hin. congruence.
Qed.

Lemma bt_length_insert k v m :
  bt_sorted m ->
  length (bt_insert k v m) = (length m + match bt_get k m with Some _ => 0 | None => 1 end)%nat.
Proof.
  induction m as [|[a w] m IH]; intros Hs; simpl; [done|].
  apply StronglySorted_inv in Hs as [Hs Hf].
  destruct (cmp k a) eqn:E; simpl.
  - lia.
  - lia.
  - rewrite IH by done. done.
Qed.

(** A sum over the entries follows an insertion by replacing one summand. *)
Lemma bt_sum_insert (f : K * V -> Z) k v m :
  bt_sorted m ->
  foldr (fun e acc => f e + acc) 0 (bt_insert k v m) =
    foldr (fun e acc => f e + acc) 0 m
    - match bt_get k m with Some w => f (k, w) | None => 0 end + f (k, v).
Proof.
  induction m as [|[a w] m IH]; intros Hs; simpl; [lia|].
  apply StronglySorted_inv in Hs as [Hs Hf].
  destruct (cmp k a) eqn:E; simpl.
  - apply cmp_eq in E as ->. lia.
  - lia.
  - rewrite IH by done. destruct (bt_get k m); lia.
Qed.

Lemma bt_sorted_filter (f : K * V -> bool) m : bt_sorted m -> bt_sorted (List.filter f m).
Proof.
  induction m as [|e m IH]; intros Hs; simpl; [done|].
  apply StronglySorted_inv in Hs as [Hs Hf]. destruct (f e); [|by apply IH].
  constructor; [by apply IH|]. apply List.Forall_forall. intros x Hx.
  apply List.filter_In in Hx as [Hx _]. rewrite List.Forall_forall in Hf. by apply Hf.
Qed.

Lemma bt_sorted_ext m1 m2 :
  bt_sorted m1 -> bt_sorted m2 -> (forall e, e ∈ m1 <-> e ∈ m2) -> m1 = m2.
Proof.
  revert m2. induction m1 as [|[k v] m1 IH]; intros [|[k' v'] m2] H1 H2 He; [done|..].
  - pose proof (proj2 (He (k', v')) ltac:(by left)) as []%elem_of_nil.
  - pose proof (proj1 (He (k, v)) ltac:(by left)) as []%elem_of_nil.
  - apply StronglySorted_inv in H1 as [H1 F1], H2 as [H2 F2].
    rewrite List.Forall_forall in F1, F2.
    assert ((k, v) = (k', v')) as Heq.
    { pose proof (proj1 (He (k, v)) ltac:(by left)) as [?|Hin]%elem_of_cons; [done|].
      pose proof (proj2 (He (k', v')) ltac:(by left)) as [?|Hin']%elem_of_cons; [done|].
      apply list_elem_of_In in Hin, Hin'. apply F2 in Hin. apply F1 in Hin'.
      unfold key_lt in *; simpl in *. by apply cmp_asym in Hin. }
    injection Heq as <- <-. f_equal. apply IH; [done..|]. intros e. split; intros Hin.
    + pose proof (proj1 (He e) ltac:(by right)) as [->|?]%elem_of_cons; [|done].
      apply list_elem_of_In, F1 in Hin. by apply cmp_irrefl in Hin.
    + pose proof (proj2 (He e) ltac:(by right)) as [->|?]%elem_of_cons; [|done].
      apply list_elem_of_In, F2 in Hin. by apply cmp_irrefl in Hin.
Qed.

Lemma bt_sorted_app m1 m2 :
  bt_sorted m1 -> bt_sorted m2 -> (forall e1 e2, e1 ∈ m1 -> e2 ∈ m2 -> cmp e1.1 e2.1 = Lt) ->
  bt_sorted (m1 ++ m2).
Proof.
  induction 1 as [|e m1 Hs IH Hf]; intros H2 Hlt; simpl; [done|]. constructor.
  - apply IH; [done|]. intros e1 e2 He1 He2. apply Hlt; [by right|done].
  - rewrite List.Forall_forall in Hf. apply List.Forall_forall. intros x [Hx|Hx]%in_app_or; [by apply Hf|].
    apply Hlt; [by left|by apply list_elem_of_In].
Qed.

Lemma elem_of_bt_range lower upper m e :
  e ∈ bt_range lower upper m <-> e ∈ m /\ in_range lower upper e.1 = true.
Proof. unfold bt_range. by rewrite !list_elem_of_In, List.filter_In. Qed.

Lemma above_mono (lower : Bound K) a b : above lower a = true -> cmp a b = Lt -> above lower b = true.
Proof.
  destruct lower; simpl; [| |done]; intros Ha Hab.
  - apply cmp_le_true. left. by eapply cmp_le_lt_trans.
  - apply cmp_lt_true in Ha. apply cmp_lt_true. by eapply cmp_trans.
Qed.
Lemma below_mono (upper : Bound K) a b : below upper b = true -> cmp a b = Lt -> below upper a = true.
Proof.
  destruct upper; simpl; [| |done]; intros Hb Hab.
  - apply cmp_le_true. left. by eapply cmp_lt_le_trans.
  - apply cmp_lt_true in Hb. apply cmp_lt_true. by eapply cmp_trans.
Qed.

(** Looking up inside a range. *)
Lemma bt_get_range lower upper m k :
  bt_sorted m -> in_range lower upper k = true -> bt_get k (bt_range lower upper m) = bt_get k m.
Proof.
  intros Hs Hk. destruct (bt_get k m) as [v|] eqn:E.
  - apply bt_elem_get; [by apply bt_sorted_filter|]. apply elem_of_bt_range. split; [|done].
    by apply bt_get_elem.
  - apply bt_get_None; [by apply bt_sorted_filter|]. intros v [He _]%elem_of_bt_range.
    by rewrite (bt_elem_get _ _ _ Hs He) in E.
Qed.

(** *** Operations in the middle of a sorted list *)
Abbreviation keys_before k := (Forall (fun e : K * V => cmp e.1 k = Lt)).
Abbreviation keys_after k := (Forall (fun e : K * V => cmp k e.1 = Lt)).

Lemma bt_get_after k m : keys_after k m -> bt_get k m = None.
Proof. apply bt_get_lt. Qed.
Lemma bt_get_around k low m high : keys_before k low -> keys_after k high -> bt_get k (low ++ m ++ high) = bt_get k m.
Proof.
  intros Hl Hh. induction Hl as [|[a w] low Ha _ IH]; simpl in *; [|by apply cmp_gt_lt in Ha; rewrite Ha].
  induction m as [|[a w] m IH]; simpl; [by apply bt_get_after|]. by destruct (cmp k a).
Qed.
Lemma bt_insert_around k v low m high :
  keys_before k low -> keys_after k high -> bt_insert k v (low ++ m ++ high) = low ++ bt_insert k v m ++ high.
Proof.
  intros Hl Hh. induction Hl as [|[a w] low Ha _ IH]; simpl in *; [|apply cmp_gt_lt in Ha; by rewrite Ha, IH].
  induction m as [|[a w] m IH]; simpl.
  - destruct Hh as [|[a w] high Ha Hh]; simpl in *; [done|]. by rewrite Ha.
  - destruct (cmp k a); simpl; [done..|]. by rewrite IH.
Qed.
Lemma bt_remove_around k low m high :
  keys_before k low -> keys_after k high -> bt_remove k (low ++ m ++ high) = low ++ bt_remove k m ++ high.
Proof.
  intros Hl Hh. induction Hl as [|[a w] low Ha _ IH]; simpl in *; [|apply cmp_gt_lt in Ha; by rewrite Ha, IH].
  induction m as [|[a w] m IH]; simpl.
  - destruct Hh as [|[a w] high Ha Hh]; simpl in *; [done|]. by rewrite Ha.
  - destruct (cmp k a); simpl; [done..|]. by rewrite IH.
Qed.
Lemma bt_remove_absent k m : bt_get k m = None -> bt_remove k m = m.
Proof.
  induction m as [|[a w] m IH]; simpl; [done|]. destruct (cmp k a); [done..|]. intros. by rewrite IH.
Qed.

Lemma bt_sorted_cut m1 m2 :
  bt_sorted (m1 ++ m2) -> bt_sorted m1 /\ bt_sorted m2 /\ (forall e1 e2, e1 ∈ m1 -> e2 ∈ m2 -> cmp e1.1 e2.1 = Lt).
Proof.
  induction m1 as [|e m1 IH]; simpl; intros Hs.
  - split; [constructor|]. split; [done|]. intros e1 e2 He. by apply not_elem_of_nil in He.
  - apply StronglySorted_inv in Hs as [Hs Hf]. destruct (IH Hs) as (H1 & H2 & H3).
    rewrite List.Forall_forall in Hf. split.
    + constructor; [done|]. apply List.Forall_forall. intros x Hx. apply Hf, in_or_app. by left.
    + split; [done|]. intros e1 e2 He1 He2. apply elem_of_cons in He1 as [->|He1]; [|by apply H3].
      apply Hf, in_or_app. right. by apply list_elem_of_In.
Qed.
End BTreeMap.
Abbreviation bt_sorted := (StronglySorted key_lt).
Abbreviation keys_before k := (Forall (fun e => cmp e.1 k = Lt)).
Abbreviation keys_after k := (Forall (fun e => cmp k e.1 = Lt)).

#[export] Hint Resolve bt_sorted_insert bt_sorted_filter : blop.
