(* ===== verification/Errors.v ===== *)
(** * Error types and byte-stream primitives

    The error enums of [src/src/storage/mod.rs] and [src/src/vm/mod.rs] with
    their conversions, and the standard-library byte operations the codecs
    share: splitting a slice and UTF-8 validation. *)
From S2P Require Import Prelude.

Inductive StorageError : Type :=
| Io
| Corrupt (reason : string)
| InvalidInput (reason : string)
| StorageUnsupported (format : string) (version : Z)
| Locked
| AttachRequired
| NeedsRecovery
| Exhausted.

Inductive Error : Type :=
| Error_Invalid (reason : string)
| Error_Unsupported (format : string) (version : Z)
| Error_Storage (error : StorageError).

(** [database::input_error] *)
Definition input_error (error : StorageError) : Error :=
  match error with
  | InvalidInput reason => Error_Invalid reason
  | StorageUnsupported format version => Error_Unsupported format version
  | error => Error_Storage error
  end.

(** [database::persisted] *)
Definition persisted (error : Error) : Error :=
  match error with
  | Error_Invalid reason | Error_Storage (InvalidInput reason) => Error_Storage (Corrupt reason)
  | error => error
  end.

(** [mvcc::corrupt_input] *)
Definition corrupt_input (error : StorageError) : StorageError :=
  match error with
  | InvalidInput reason => Corrupt reason
  | error => error
  end.

(** [split_at_checked]: the first [n] bytes and the rest. *)
Definition split_at {A} (n : Z) (l : list A) : option (list A * list A) :=
  if n <=? len l then Some (take (Z.to_nat n) l, drop (Z.to_nat n) l) else None.

(** [std::str::from_utf8(..).is_ok()], after the table of well-formed byte
    sequences in the Unicode standard. *)
Definition byte_in (lo hi : Z) (b : byte) : bool :=
  (lo <=? byte_Z b) && (byte_Z b <=? hi).
Definition utf8_cont : byte -> bool := byte_in 0x80 0xBF.

Fixpoint utf8_valid (bs : bytes) : bool :=
  match bs with
  | [] => true
  | b0 :: r0 =>
      if byte_in 0 0x7F b0 then utf8_valid r0
      else
        match r0 with
        | [] => false
        | b1 :: r1 =>
            if byte_in 0xC2 0xDF b0 then utf8_cont b1 && utf8_valid r1
            else
              match r1 with
              | [] => false
              | b2 :: r2 =>
                  if (byte_in 0xE0 0xE0 b0 && byte_in 0xA0 0xBF b1)
                     || (byte_in 0xE1 0xEC b0 && utf8_cont b1)
                     || (byte_in 0xED 0xED b0 && byte_in 0x80 0x9F b1)
                     || (byte_in 0xEE 0xEF b0 && utf8_cont b1)
                  then utf8_cont b2 && utf8_valid r2
                  else
                    match r2 with
                    | [] => false
                    | b3 :: r3 =>
                        ((byte_in 0xF0 0xF0 b0 && byte_in 0x90 0xBF b1)
                         || (byte_in 0xF1 0xF3 b0 && utf8_cont b1)
                         || (byte_in 0xF4 0xF4 b0 && byte_in 0x80 0x8F b1))
                        && utf8_cont b2 && utf8_cont b3 && utf8_valid r3
                    end
              end
        end
  end.

Lemma split_at_Some {A} n (l a b : list A) :
  0 <= n -> split_at n l = Some (a, b) <-> l = a ++ b /\ len a = n.
Proof.
  intros Hn. unfold split_at, len. split.
  - destruct (Z.leb_spec n (Z.of_nat (length l))); [|done]. intros [= <- <-].
    rewrite take_drop, length_take. split; [done|]. lia.
  - intros [-> <-]. rewrite length_app, Nat2Z.id.
    destruct (Z.leb_spec (Z.of_nat (length a)) (Z.of_nat (length a + length b))); [|lia].
    by rewrite take_app_length, drop_app_length.
Qed.

Lemma split_at_app {A} (a b : list A) n : n = len a -> split_at n (a ++ b) = Some (a, b).
Proof. intros ->. apply split_at_Some; [apply len_nonneg | done]. Qed.

Lemma utf8_valid_app a b : utf8_valid a = true -> utf8_valid b = true -> utf8_valid (a ++ b) = true.
Proof.
  intros Ha Hb. remember (length a) as n eqn:Hn.
  assert (length a <= n)%nat as Hle by lia. clear Hn. revert a Ha Hle.
  induction n as [|n IH]; intros [|b0 a0] Ha Hle; try done; [simpl in Hle; lia|].
  simpl in Hle, Ha |- *. destruct (byte_in 0 0x7F b0); [apply IH; [done|lia]|].
  destruct a0 as [|b1 a1]; [done|]. simpl in Hle |- *.
  destruct (byte_in 0xC2 0xDF b0).
  { apply andb_true_iff in Ha as [-> Ha]. apply IH; [done|lia]. }
  destruct a1 as [|b2 a2]; [done|]. simpl in Hle |- *.
  destruct (_ || _) eqn:E.
  { apply andb_true_iff in Ha as [-> Ha]. apply IH; [done|lia]. }
  destruct a2 as [|b3 a3]; [done|]. simpl in Hle |- *.
  apply andb_true_iff in Ha as [Ha0 Ha]. rewrite Ha0. apply IH; [done|lia].
Qed.
