(* ===== verification/Bytes.v ===== *)
(** * Byte slices

    Indexing, reading little-endian integers from, and copying into a slice at
    an offset, as [std] does it: an access outside the slice panics.  A buffer
    is described field by field as a concatenation; [uint_at_skip],
    [slice_at_skip] and [copy_at_skip] walk an access to its field. *)
From S2P Require Import Prelude Errors.

(** [&encoded[from..to]]: an out-of-range slice panics. *)
Definition slice_at {E} (data : bytes) (from to : Z) : Result E bytes :=
  if (0 <=? from) && (from <=? to) && (to <=? len data)
  then Ok (take (Z.to_nat (to - from)) (drop (Z.to_nat from) data)) else Panic.

(** [u16_at], [u64_at] through [array_at]: the field must lie inside. *)
Definition array_at {E} (data : bytes) (n offset : Z) : Result E bytes :=
  if offset + n <=? len data
  then Ok (take (Z.to_nat n) (drop (Z.to_nat offset) data)) else Panic.
Definition uint_at {E} (data : bytes) (n offset : Z) : Result E Z :=
  let* field := array_at data n offset in Ok (from_le field).

(** [data[offset..offset + field.len()].copy_from_slice(field)] *)
Definition copy_at {E} (data : bytes) (offset : Z) (field : bytes) : Result E bytes :=
  if (0 <=? offset) && (offset + len field <=? len data)
  then Ok (take (Z.to_nat offset) data ++ field ++ drop (Z.to_nat (offset + len field)) data) else Panic.

(** [[0; n]] *)
Definition zeros (n : Z) : bytes := repeat x00 (Z.to_nat n).

(** [iter().any(|b| b != 0)] *)
Definition any_nonzero (data : bytes) : bool := existsb (fun b => negb (byte_Z b =? 0)) data.

(** The [crc32c] crate. *)
Class Checksum := {
  crc32c : bytes -> Z;
  crc32c_range data : 0 <= crc32c data <= u32_max }.

(** The [sha2] crate's [Sha256::digest]. *)
Class Sha256 := {
  sha256 : bytes -> bytes;
  sha256_len data : len (sha256 data) = 32 }.

(** ** Buffers of zeros *)
Lemma len_zeros n : 0 <= n -> len (zeros n) = n.
Proof. intros. unfold len, zeros. rewrite repeat_length. lia. Qed.

Lemma zeros_add a b : 0 <= a -> 0 <= b -> zeros (a + b) = zeros a ++ zeros b.
Proof. intros. unfold zeros. rewrite Z2Nat.inj_add by lia. apply repeat_app. Qed.

Lemma zeros_split a n : 0 <= a <= n -> zeros n = zeros a ++ zeros (n - a).
Proof. intros. rewrite <-zeros_add by lia. f_equal. lia. Qed.

Lemma le_bytes_zero n : le_bytes n 0 = zeros (Z.of_nat n).
Proof.
  unfold zeros. rewrite Nat2Z.id. induction n as [|n IH]; [done|].
  change (le_bytes (S n) 0) with (Z_byte 0 :: le_bytes n (0 / 256)).
  by rewrite Zdiv_0_l, IH.
Qed.

Lemma any_nonzero_zeros n : any_nonzero (zeros n) = false.
Proof. unfold any_nonzero, zeros. induction (Z.to_nat n); simpl; auto. Qed.

Lemma any_nonzero_app a b : any_nonzero (a ++ b) = any_nonzero a || any_nonzero b.
Proof. apply existsb_app. Qed.

Lemma any_nonzero_inv data : any_nonzero data = false -> data = zeros (len data).
Proof.
  unfold zeros, len. rewrite Nat2Z.id. induction data as [|b data IH]; simpl; [done|].
  intros [Hb Hd]%orb_false_iff. rewrite <-IH by done. f_equal.
  apply negb_false_iff, Z.eqb_eq in Hb. by apply byte_Z_inj.
Qed.

(** ** Accesses to a concatenation of fields *)
Lemma slice_at_app {E} (a b c : bytes) from to :
  from = len a -> to = len a + len b -> slice_at (E:=E) (a ++ b ++ c) from to = Ok b.
Proof.
  intros -> ->. unfold slice_at. autorewrite with blop.
  pose proof (len_nonneg a). pose proof (len_nonneg b). pose proof (len_nonneg c).
  rewrite !(proj2 (Z.leb_le _ _)) by lia. simpl. rewrite drop_len_app.
  replace (len a + len b - len a) with (len b) by lia. by rewrite take_len_app.
Qed.

Lemma slice_at_cut {E} (data a : bytes) from to :
  slice_at (E:=E) data from to = Ok a ->
  exists l r, data = l ++ a ++ r /\ len l = from /\ len a = to - from.
Proof.
  unfold slice_at. destruct (_ && _) eqn:Hb; [|done]. intros [= <-]. bsimp.
  exists (take (Z.to_nat from) data), (drop (Z.to_nat (to - from)) (drop (Z.to_nat from) data)).
  rewrite !take_drop. unfold len in *. rewrite !length_take, length_drop. split; [done|lia].
Qed.

Lemma slice_at_no_panic {E} data from to :
  0 <= from <= to -> to <= len data -> no_panic (slice_at (E:=E) data from to).
Proof. intros. unfold slice_at. by rewrite !(proj2 (Z.leb_le _ _)) by lia. Qed.

Lemma uint_at_app {E} pre n z post offset width :
  offset = len pre -> width = Z.of_nat n -> 0 <= z < 256 ^ width ->
  uint_at (E:=E) (pre ++ le_bytes n z ++ post) width offset = Ok z.
Proof.
  intros -> -> Hz. unfold uint_at, array_at.
  rewrite (proj2 (Z.leb_le _ _)) by (pose proof (len_nonneg post); autorewrite with blop; lia).
  simpl. rewrite drop_len_app, take_app_le, take_ge by (rewrite length_le_bytes; lia).
  by rewrite from_le_bytes_small.
Qed.

Lemma uint_at_inv {E} (n : nat) data offset z :
  uint_at (E:=E) data (Z.of_nat n) offset = Ok z -> 0 <= offset ->
  take n (drop (Z.to_nat offset) data) = le_bytes n z.
Proof.
  unfold uint_at, array_at. destruct (Z.leb_spec (offset + Z.of_nat n) (len data)); [|done].
  intros [= <-] Ho. rewrite Nat2Z.id, le_bytes_from_le; [done|].
  rewrite length_take, length_drop. unfold len in *. lia.
Qed.

Lemma uint_at_no_panic {E} data width offset :
  offset + width <= len data -> no_panic (uint_at (E:=E) data width offset).
Proof. intros Hl. unfold uint_at, array_at. by rewrite (proj2 (Z.leb_le _ _)). Qed.

Lemma uint_at_range {E} data width offset z :
  uint_at (E:=E) data width offset = Ok z -> 0 <= width -> 0 <= z < 256 ^ width.
Proof.
  unfold uint_at, array_at. destruct (_ <=? _); [|done]. intros [= <-] Hw.
  set (field := take _ _). pose proof (from_le_range field) as Hr. split; [lia|].
  apply Z.lt_le_trans with (256 ^ len field); [lia|]. apply Z.pow_le_mono_r; [lia|].
  unfold field, len. rewrite length_take. lia.
Qed.

Lemma drop_skip (a b : bytes) o : len a <= o -> drop (Z.to_nat o) (a ++ b) = drop (Z.to_nat (o - len a)) b.
Proof.
  intros. replace o with (len a + (o - len a)) at 1 by lia.
  rewrite Z2Nat.inj_add by (pose proof (len_nonneg a); lia). by rewrite <-drop_drop, drop_len_app.
Qed.

Lemma take_skip (a b : bytes) o : len a <= o -> take (Z.to_nat o) (a ++ b) = a ++ take (Z.to_nat (o - len a)) b.
Proof.
  intros. replace o with (len a + (o - len a)) at 1 by lia.
  rewrite Z2Nat.inj_add by (pose proof (len_nonneg a); lia). unfold len at 1. rewrite Nat2Z.id. apply take_app_add.
Qed.

Lemma leb_shift n a b : (n + a <=? n + b) = (a <=? b).
Proof. destruct (Z.leb_spec a b); [apply Z.leb_le|apply Z.leb_gt]; lia. Qed.

Lemma uint_at_skip {E} (a b : bytes) width offset :
  len a <= offset -> uint_at (E:=E) (a ++ b) width offset = uint_at b width (offset - len a).
Proof.
  intros. unfold uint_at, array_at. rewrite drop_skip by done. rewrite len_app.
  replace (offset + width) with (len a + (offset - len a + width)) by lia. by rewrite leb_shift.
Qed.

Lemma slice_at_skip {E} (a b : bytes) from to :
  len a <= from -> slice_at (E:=E) (a ++ b) from to = slice_at b (from - len a) (to - len a).
Proof.
  intros. unfold slice_at. rewrite drop_skip by done. rewrite len_app.
  replace (to - len a - (from - len a)) with (to - from) by lia.
  pose proof (len_nonneg a). rewrite (proj2 (Z.leb_le 0 from)), (proj2 (Z.leb_le 0 (from - len a))) by lia.
  replace (from <=? to) with (from - len a <=? to - len a)
    by (rewrite <-(leb_shift (len a)); f_equal; lia).
  replace (to <=? len a + len b) with (to - len a <=? len b)
    by (rewrite <-(leb_shift (len a)); f_equal; lia).
  done.
Qed.

Lemma uint_at_here {E} (n : nat) z (rest : bytes) width offset :
  offset = 0 -> width = Z.of_nat n -> 0 <= z < 256 ^ width ->
  uint_at (E:=E) (le_bytes n z ++ rest) width offset = Ok z.
Proof. intros -> -> Hz. by apply (uint_at_app []). Qed.

Lemma uint_at_zeros {E} (n : nat) (rest : bytes) width offset :
  offset = 0 -> width = Z.of_nat n -> uint_at (E:=E) (zeros width ++ rest) width offset = Ok 0.
Proof. intros -> ->. rewrite <-le_bytes_zero. apply uint_at_here; [done..|]. split; [done|]. apply Z.pow_pos_nonneg; lia. Qed.

Lemma slice_at_here {E} (a b : bytes) from to : from = 0 -> to = len a -> slice_at (E:=E) (a ++ b) from to = Ok a.
Proof. intros -> ->. apply (slice_at_app [] a b); autorewrite with blop; lia. Qed.

Lemma copy_at_skip {E} (a b field : bytes) offset :
  len a <= offset ->
  copy_at (E:=E) (a ++ b) offset field = let* b := copy_at b (offset - len a) field in Ok (a ++ b).
Proof.
  intros Ho. unfold copy_at. pose proof (len_nonneg a). pose proof (len_nonneg field).
  rewrite (proj2 (Z.leb_le 0 offset)), (proj2 (Z.leb_le 0 (offset - len a))) by lia. rewrite len_app.
  replace (offset + len field) with (len a + (offset - len a + len field)) by lia. rewrite leb_shift.
  simpl. destruct (_ <=? _); [|done]. simpl. rewrite drop_skip by lia. f_equal.
  replace (len a + (offset - len a + len field) - len a) with (offset - len a + len field) by lia.
  rewrite take_skip by done. by rewrite <-app_assoc.
Qed.

Lemma copy_at_here {E} (a b field : bytes) offset :
  offset = 0 -> len field = len a -> copy_at (E:=E) (a ++ b) offset field = Ok (field ++ b).
Proof.
  intros -> Hl. unfold copy_at. rewrite Z.add_0_l, Hl, len_app.
  rewrite (proj2 (Z.leb_le (len a) _)) by (pose proof (len_nonneg b); lia). simpl.
  by rewrite drop_len_app.
Qed.

Lemma copy_at_len {E} data offset field data' :
  copy_at (E:=E) data offset field = Ok data' -> len data' = len data.
Proof.
  unfold copy_at. destruct (_ && _) eqn:Hb; [|done]. intros [= <-]. bsimp.
  autorewrite with blop. unfold len in *. rewrite length_take, length_drop. lia.
Qed.

Lemma copy_at_no_panic {E} data offset field :
  0 <= offset -> offset + len field <= len data -> no_panic (copy_at (E:=E) data offset field).
Proof. intros. unfold copy_at. by rewrite !(proj2 (Z.leb_le _ _)) by lia. Qed.

Lemma split_len (n : Z) (data : bytes) :
  0 <= n <= len data -> exists a b, data = a ++ b /\ len a = n.
Proof.
  intros. exists (take (Z.to_nat n) data), (drop (Z.to_nat n) data). rewrite take_drop. split; [done|].
  unfold len in *. rewrite length_take. lia.
Qed.

Lemma field_bytes (f : bytes) (n : nat) : len f = Z.of_nat n -> f = le_bytes n (from_le f).
Proof. intros Hl. symmetry. apply le_bytes_from_le. unfold len in Hl. lia. Qed.

Lemma uint_at_field {E} (f rest : bytes) width offset :
  offset = 0 -> len f = width -> uint_at (E:=E) (f ++ rest) width offset = Ok (from_le f).
Proof.
  intros -> <-. unfold uint_at, array_at. rewrite len_app, (proj2 (Z.leb_le _ _)) by (pose proof (len_nonneg rest); lia).
  change (Z.to_nat 0) with 0%nat. by rewrite drop_0, take_len_app.
Qed.

(** ** Arrays of words and of records *)
Lemma len_words vs : len (concat (map (le_bytes 8) vs)) = 8 * len vs.
Proof. induction vs; simpl; autorewrite with blop; lia. Qed.

(** The words of an array, read one by one. *)
Lemma words_at {E} vs : forall pre post base k,
  Forall (fun v => 0 <= v < 256 ^ 8) vs -> len pre = base + Z.of_nat k * 8 ->
  mapR (fun index => uint_at (E:=E) (pre ++ concat (map (le_bytes 8) vs) ++ post) 8 (base + Z.of_nat index * 8))
    (seq k (length vs)) = Ok vs.
Proof.
  induction vs as [|v vs IH]; intros pre post base k Hv Hk; [done|]. inversion Hv; subst. simpl.
  rewrite <-app_assoc, (uint_at_app pre 8 v) by done. simpl.
  rewrite app_assoc, (IH (pre ++ le_bytes 8 v) post base (S k)); [done..|].
  autorewrite with blop. lia.
Qed.

Lemma words_at_inv {E} n : forall (pre data post : bytes) vs base k,
  mapR (fun index => uint_at (E:=E) (pre ++ data ++ post) 8 (base + Z.of_nat index * 8)) (seq k n) = Ok vs ->
  len pre = base + Z.of_nat k * 8 -> len data = 8 * Z.of_nat n ->
  concat (map (le_bytes 8) vs) = data /\ Forall (fun v => 0 <= v) vs.
Proof.
  induction n as [|n IH]; intros pre data post vs base k H Hp Hd; simpl in H.
  - inv_ok. destruct data; [done|]. autorewrite with blop in Hd. pose proof (len_nonneg data). lia.
  - step_ok H as v eqn Hv. step_ok H as vs' eqn Hvs. inv_ok.
    destruct (split_len 8 data) as (w & rest & -> & Hw); [lia|]. rewrite len_app, Hw in Hd.
    rewrite <-app_assoc, <-Hp, uint_at_skip, Z.sub_diag, uint_at_field in Hv by (done || lia). injection Hv as <-.
    rewrite <-app_assoc, app_assoc in Hvs. apply IH in Hvs as [Hc HF]; [|autorewrite with blop; lia|lia].
    simpl. rewrite Hc, le_bytes_from_le by (unfold len in Hw; lia). split; [done|]. constructor; [apply from_le_range|done].
Qed.

(** Resolve an access to a buffer whose fields have known lengths. *)
Ltac field_len := autorewrite with blop; try rewrite !len_zeros by lia; lia.
Ltac field_skip :=
  repeat first
    [ rewrite uint_at_skip by field_len | rewrite slice_at_skip by field_len
    | rewrite copy_at_skip by field_len ].

(** Cut the next [n] bytes off the buffer whose length [Hl] states. *)
Ltac cut_field Hl n f rest L :=
  match type of Hl with
  | len ?data = _ =>
      destruct (split_len n data) as (f & rest & -> & L); [lia|];
      rewrite len_app, L in Hl; apply (proj1 (Z.add_move_l _ _ _)) in Hl
  end.

(** Compute a successful read of a buffer of cut fields. *)
Ltac raw_read H :=
  repeat first [rewrite uint_at_skip in H by field_len | rewrite slice_at_skip in H by field_len];
  first [rewrite uint_at_field in H by field_len | rewrite slice_at_here in H by field_len];
  injection H as H.

(** The buffer [data] laid out field by field gives the field at an offset. *)
Ltac read_field Hdata :=
  rewrite Hdata; field_skip; first [rewrite uint_at_here by (done || field_len) | rewrite slice_at_here by field_len]; reflexivity.

Ltac take_field Hdata :=
  match goal with
  | |- bindR ?read _ = _ =>
      let R := fresh "R" in eassert (read = Ok _) as R by read_field Hdata; rewrite R; cbn [bindR]; clear R
  end.

(** The fields of a buffer of cut fields. *)
Ltac take_raw H :=
  match type of H with
  | bindR _ _ = _ =>
      let a := fresh "a" in let Ha := fresh "Ha" in
      apply bindR_ok in H as (a & Ha & H); raw_read Ha; subst a; cbv beta iota in H
  end.
