(* ===== verification/Reader.v ===== *)
(** * Length-prefixed fields over a byte stream

    The [take], [read_blob] and [blob] helpers that the catalogue, the
    manifest and the outcome codecs each define over their own error text:
    parameterised here by that text, with the lemmas their round trips
    share. *)
From S2P Require Import Prelude Errors.

Section Reader.
Context (truncated : string).

Definition take_bytes (input : bytes) (length : Z) : Result Error (bytes * bytes) :=
  ok_or (Error_Invalid truncated) (split_at length input).

(** [T::from_le_bytes(take(&mut input, n)?.try_into().unwrap())] *)
Definition take_le (input : bytes) (n : Z) : Result Error (Z * bytes) :=
  let* (data, input) := take_bytes input n in
  Ok (from_le data, input).

(** [take(&mut input, 1)?[0]] *)
Definition take_byte (input : bytes) : Result Error (byte * bytes) :=
  let* (data, input) := take_bytes input 1 in
  let* tag := expect (head data) in
  Ok (tag, input).

Definition take_blob (input : bytes) : Result Error (bytes * bytes) :=
  let* (length, input) := take_le input 4 in
  take_bytes input length.

Lemma take_bytes_app a rest n : n = len a -> take_bytes (a ++ rest) n = Ok (a, rest).
Proof. intros ->. unfold take_bytes. by rewrite split_at_app. Qed.

Lemma take_bytes_inv input n a rest :
  0 <= n -> take_bytes input n = Ok (a, rest) -> input = a ++ rest /\ len a = n.
Proof. intros Hn H. apply ok_or_ok in H. by apply split_at_Some in H. Qed.

Lemma take_le_app n z rest k :
  k = Z.of_nat n -> 0 <= z < 256 ^ k -> take_le (le_bytes n z ++ rest) k = Ok (z, rest).
Proof.
  intros -> Hz. unfold take_le. rewrite take_bytes_app by by rewrite len_le_bytes.
  simpl. by rewrite from_le_bytes_small.
Qed.

Lemma take_le_inv input n k z rest :
  k = Z.of_nat n -> take_le input k = Ok (z, rest) -> input = le_bytes n z ++ rest /\ 0 <= z < 256 ^ k.
Proof.
  intros -> H. unfold take_le in H. step_ok H as [data input'] eqn Ha. inv_ok.
  apply take_bytes_inv in Ha as [-> Hlen]; [|lia]. rewrite le_bytes_from_le by (unfold len in Hlen; lia).
  split; [done|]. rewrite <-Hlen. apply from_le_range.
Qed.

Lemma take_byte_cons b rest : take_byte (b :: rest) = Ok (b, rest).
Proof. unfold take_byte. change (b :: rest) with ([b] ++ rest). by rewrite take_bytes_app. Qed.

Lemma take_byte_inv input b rest : take_byte input = Ok (b, rest) -> input = b :: rest.
Proof.
  unfold take_byte. intros H. step_ok H as [data input'] eqn Ha. inv_ok.
  apply take_bytes_inv in Ha as [-> Hlen]; [|done].
  unfold len in Hlen. destruct data as [|b' [|]]; simpl in *; try lia. by simplify_eq.
Qed.

(** The field that [blob] appends. *)
Definition blob_bytes (data : bytes) : bytes := le_bytes 4 (len data) ++ data.

Lemma take_blob_app data rest :
  len data <= u32_max -> take_blob (blob_bytes data ++ rest) = Ok (data, rest).
Proof.
  intros Hl. unfold take_blob, blob_bytes. rewrite <-app_assoc, take_le_app; [|done|].
  - cbn [bindR]. by rewrite take_bytes_app.
  - pose proof (len_nonneg data). unfold u32_max in Hl. lia.
Qed.

Lemma take_blob_inv input data rest :
  take_blob input = Ok (data, rest) -> input = blob_bytes data ++ rest /\ len data <= u32_max.
Proof.
  unfold take_blob. intros H. step_ok H as [length input'] eqn Hl.
  apply (take_le_inv _ 4) in Hl as [-> Hz]; [|done]. apply take_bytes_inv in H as [-> <-]; [|lia].
  unfold blob_bytes, u32_max. rewrite <-app_assoc. split; [done|]. lia.
Qed.

Lemma take_bytes_no_panic input n : no_panic (take_bytes input n).
Proof. unfold take_bytes. by destruct (split_at _ _). Qed.

Lemma take_le_no_panic input n : no_panic (take_le input n).
Proof. apply bindR_no_panic; [apply take_bytes_no_panic|]. by intros []. Qed.

Lemma take_byte_no_panic input : no_panic (take_byte input).
Proof.
  apply bindR_no_panic; [apply take_bytes_no_panic|]. intros [data rest] H.
  apply take_bytes_inv in H as [_ H]; [|done]. destruct data; done.
Qed.

Lemma take_blob_no_panic input : no_panic (take_blob input).
Proof. apply bindR_no_panic; [apply take_le_no_panic|]. intros []. intros. apply take_bytes_no_panic. Qed.
End Reader.

#[export] Hint Resolve take_bytes_no_panic take_le_no_panic take_byte_no_panic take_blob_no_panic : no_panic.

Lemma len_blob_bytes data : len (blob_bytes data) = 4 + len data.
Proof. unfold blob_bytes. by autorewrite with blop. Qed.
#[export] Hint Rewrite len_blob_bytes : blop.

(** [blob]: append a field, or refuse one longer than a [u32] can say. *)
Definition put_blob (too_long : string) (output data : bytes) : Result Error bytes :=
  if len data >? u32_max then Err (Error_Invalid too_long) else Ok (output ++ blob_bytes data).

Lemma put_blob_ok too_long output data bytes :
  put_blob too_long output data = Ok bytes <-> len data <= u32_max /\ bytes = output ++ blob_bytes data.
Proof. unfold put_blob. destruct (Z.gtb_spec (len data) u32_max); naive_solver lia. Qed.

Lemma put_blob_eq too_long output data :
  len data <= u32_max -> put_blob too_long output data = Ok (output ++ blob_bytes data).
Proof. intros. by apply put_blob_ok. Qed.

Lemma put_blob_no_panic too_long output data : no_panic (put_blob too_long output data).
Proof. unfold put_blob. by destruct (_ >? _). Qed.
#[export] Hint Resolve put_blob_no_panic : no_panic.

(** [database::valid_id] *)
Definition valid_id (id : Z) : Result Error unit :=
  if (id =? 0) || (id =? u64_max) then Err (Error_Invalid "reserved table ID or record sequence")
  else Ok tt.

Lemma valid_id_ok id u : valid_id id = Ok u <-> id <> 0 /\ id <> u64_max.
Proof.
  unfold valid_id. destruct u, (Z.eqb_spec id 0), (Z.eqb_spec id u64_max); simpl; naive_solver.
Qed.
Lemma valid_id_no_panic id : no_panic (valid_id id).
Proof. unfold valid_id. by destruct (_ || _). Qed.
#[export] Hint Resolve valid_id_no_panic : no_panic.
