(* ===== verification/Value.v ===== *)
(** * ISA 1 types and values ([src/src/vm/value.rs])

    [Ty] and [Value] are the source's enums.  [decode]/[descriptor] are the
    type-descriptor codec, [encode]/[decode_value] the schema value codec,
    [accepts] and [same_shape] the two typing judgements, [value_cmp] the
    derived [Ord]. *)
From S2P Require Import Prelude Errors.

Definition MAX_DESCRIPTOR_BYTES : Z := 65536.
Definition MAX_VALUE_BYTES : Z := 16 * 1024 * 1024.
Definition MAX_ROWS : Z := 65535.

Inductive Ty : Type :=
| Type_Unit
| Type_Boolean
| Type_I64
| Type_U64
| Type_Bytes (bound : Z)
| Type_String (bound : Z)
| Type_Tuple (fields : list Ty)
| Type_Rows (max_rows : Z) (key : Ty) (value : Ty).

Inductive Value : Type :=
| Value_Unit
| Value_Boolean (b : bool)
| Value_I64 (z : Z)
| Value_U64 (z : Z)
| Value_Bytes (data : bytes)
| Value_String (text : bytes)
| Value_Tuple (fields : list Value)
| Value_Rows (rows : list (Value * Value)).

(** [iter().zip(..).all(..)] *)
Section zip_all.
Context {A B : Type} (f : A -> B -> bool).
Fixpoint zip_all (l : list A) (k : list B) : bool :=
  match l, k with
  | x :: l, y :: k => f x y && zip_all l k
  | _, _ => true
  end.
End zip_all.

(** *** Derived [Ord] of [Value] *)
Definition value_discriminant (v : Value) : Z :=
  match v with
  | Value_Unit => 0
  | Value_Boolean _ => 1
  | Value_I64 _ => 2
  | Value_U64 _ => 3
  | Value_Bytes _ => 4
  | Value_String _ => 5
  | Value_Tuple _ => 6
  | Value_Rows _ => 7
  end.

Definition bool_compare (a b : bool) : comparison :=
  match a, b with
  | false, true => Lt
  | true, false => Gt
  | _, _ => Eq
  end.

Fixpoint value_cmp (a b : Value) {struct a} : comparison :=
  match a, b with
  | Value_Boolean x, Value_Boolean y => bool_compare x y
  | Value_I64 x, Value_I64 y => Z.compare x y
  | Value_U64 x, Value_U64 y => Z.compare x y
  | Value_Bytes x, Value_Bytes y => cmp x y
  | Value_String x, Value_String y => cmp x y
  | Value_Tuple x, Value_Tuple y => list_cmp_by value_cmp x y
  | Value_Rows x, Value_Rows y =>
      list_cmp_by (fun p q => lex (value_cmp p.1 q.1) (value_cmp p.2 q.2)) x y
  | a, b => Z.compare (value_discriminant a) (value_discriminant b)
  end.
#[export] Instance Value_cmp : Cmp Value := value_cmp.

(** *** Shapes *)
Fixpoint same_shape (self other : Ty) {struct self} : bool :=
  match self, other with
  | Type_Unit, Type_Unit
  | Type_Boolean, Type_Boolean
  | Type_I64, Type_I64
  | Type_U64, Type_U64
  | Type_Bytes _, Type_Bytes _
  | Type_String _, Type_String _ => true
  | Type_Tuple fields, Type_Tuple fields' =>
      Nat.eqb (length fields) (length fields') && zip_all same_shape fields fields'
  | Type_Rows _ a b, Type_Rows _ c d => same_shape a c && same_shape b d
  | _, _ => false
  end.

(** [rows.windows(2).all(|pair| pair[0].0 < pair[1].0)] *)
Fixpoint increasing_rows (rows : list (Value * Value)) : bool :=
  match rows with
  | r0 :: ((r1 :: _) as rest) => cmp_lt r0.1 r1.1 && increasing_rows rest
  | _ => true
  end.

Fixpoint accepts (self : Ty) (value : Value) {struct self} : bool :=
  match self, value with
  | Type_Unit, Value_Unit
  | Type_Boolean, Value_Boolean _
  | Type_I64, Value_I64 _
  | Type_U64, Value_U64 _ => true
  | Type_Bytes bound, Value_Bytes data => len data <=? bound
  | Type_String bound, Value_String text => len text <=? bound
  | Type_Tuple types, Value_Tuple values =>
      Nat.eqb (length types) (length values) && zip_all accepts types values
  | Type_Rows max_rows key value, Value_Rows rows =>
      (len rows <=? max_rows) && (len rows <=? MAX_ROWS)
      && forallb (fun kv => accepts key kv.1 && accepts value kv.2) rows
      && increasing_rows rows
  | _, _ => false
  end.

(** *** Sizes *)

Fixpoint max_value_bytes (self : Ty) : Z :=
  match self with
  | Type_Unit => 0
  | Type_Boolean => 1
  | Type_I64 | Type_U64 => 8
  | Type_Bytes bound | Type_String bound => 4 + bound
  | Type_Tuple fields => sum_Z (map max_value_bytes fields)
  | Type_Rows max_rows key value =>
      4 + max_rows * (max_value_bytes key + max_value_bytes value)
  end.

Fixpoint min_value_bytes (ty : Ty) : Z :=
  match ty with
  | Type_Unit => 0
  | Type_Boolean => 1
  | Type_I64 | Type_U64 => 8
  | Type_Bytes _ | Type_String _ | Type_Rows _ _ _ => 4
  | Type_Tuple fields => sum_Z (map min_value_bytes fields)
  end.

Fixpoint encoded_len (self : Value) : Z :=
  match self with
  | Value_Unit => 0
  | Value_Boolean _ => 1
  | Value_I64 _ | Value_U64 _ => 8
  | Value_Bytes data => 4 + len data
  | Value_String text => 4 + len text
  | Value_Tuple fields => sum_Z (map encoded_len fields)
  | Value_Rows rows =>
      4 + sum_Z (map (fun kv => encoded_len kv.1 + encoded_len kv.2) rows)
  end.

(** *** Type descriptors *)
Definition value_take (input : bytes) (length : Z) : Result Error (bytes * bytes) :=
  ok_or (Error_Invalid "truncated type descriptor or value") (split_at length input).

(** [T::from_le_bytes(take(input, n)?.try_into().unwrap())] *)
Definition value_take_le (input : bytes) (n : Z) : Result Error (Z * bytes) :=
  let* (data, input) := value_take input n in
  Ok (from_le data, input).

(** [take(input, 1)?[0]] *)
Definition value_take_byte (input : bytes) : Result Error (byte * bytes) :=
  let* (data, input) := value_take input 1 in
  let* tag := expect (head data) in
  Ok (tag, input).

(** [usize::checked_add(..).filter(|&size| size <= MAX_VALUE_BYTES)] *)
Definition bounded_add (size field_size : Z) : option Z :=
  match checked_u64 (size + field_size) with
  | Some size => if size <=? MAX_VALUE_BYTES then Some size else None
  | None => None
  end.

Section decode_fields.
Context (decode_field : bytes -> Result Error ((Ty * Z) * bytes)).
Fixpoint decode_fields (count : nat) (size : Z) (input : bytes)
    : Result Error (list Ty * Z * bytes) :=
  match count with
  | O => Ok ([], size, input)
  | S count =>
      let* ((field, field_size), input) := decode_field input in
      let* size := ok_or (Error_Invalid "type value size exceeds 16 MiB")
                     (bounded_add size field_size) in
      let* ((fields, size), input) := decode_fields count size input in
      Ok (field :: fields, size, input)
  end.
End decode_fields.

(** [fuel] bounds the recursion; the source's own [depth > 16] guard stops it
    first, see [decode_type_no_panic]. *)
Fixpoint decode_type (fuel : nat) (input : bytes) (depth : Z)
    : Result Error ((Ty * Z) * bytes) :=
  if depth >? 16 then Err (Error_Invalid "type nesting exceeds depth 16") else
  match fuel with
  | O => Panic
  | S fuel =>
    let* (tag, input) := value_take_byte input in
    let* ((ty, max_bytes), input) :=
      match tag with
      | x00 => Ok (Type_Unit, 0, input)
      | x01 => Ok (Type_Boolean, 1, input)
      | x02 => Ok (Type_I64, 8, input)
      | x03 => Ok (Type_U64, 8, input)
      | x04 | x05 =>
          let* (bound, input) := value_take_le input 4 in
          let* size := ok_or (Error_Invalid "type value size overflow")
                         (checked_u64 (bound + 4)) in
          let ty := if byte_eq_dec tag x04 then Type_Bytes bound else Type_String bound in
          Ok (ty, size, input)
      | x06 =>
          let* (count, input) := value_take_le input 2 in
          if count >? 256 then Err (Error_Invalid "tuple exceeds 256 fields") else
          if count >? len input then Err (Error_Invalid "truncated tuple descriptor") else
          let* ((fields, size), input) :=
            decode_fields (fun input => decode_type fuel input (depth + 1))
              (Z.to_nat count) 0 input in
          Ok (Type_Tuple fields, size, input)
      | x20 =>
          if negb (depth =? 1) then Err (Error_Invalid "Rows is only allowed at the top level") else
          let* (max_rows, input) := value_take_le input 4 in
          if max_rows >? MAX_ROWS then Err (Error_Invalid "Rows exceeds 65,535 rows") else
          let* ((key, key_size), input) := decode_type fuel input (depth + 1) in
          let* ((value, value_size), input) := decode_type fuel input (depth + 1) in
          let* size := ok_or (Error_Invalid "Rows value size overflow")
            (size ← checked_u64 (key_size + value_size);
             size ← checked_u64 (size * max_rows);
             checked_u64 (size + 4)) in
          Ok (Type_Rows max_rows key value, size, input)
      | _ => Err (Error_Invalid "unknown type tag")
      end in
    if max_bytes >? MAX_VALUE_BYTES then Err (Error_Invalid "type value size exceeds 16 MiB") else
    Ok (ty, max_bytes, input)
  end.

(** [Type::decode] *)
Definition decode (data : bytes) : Result Error Ty :=
  if len data >? MAX_DESCRIPTOR_BYTES then
    Err (Error_Invalid "type descriptor exceeds 65,536 bytes") else
  let* (version, input) := value_take_le data 2 in
  if negb (version =? 1) then Err (Error_Unsupported "schema" version) else
  let* ((ty, _), input) := decode_type 17 input 1 in
  match input with
  | [] => Ok ty
  | _ => Err (Error_Invalid "trailing type descriptor bytes")
  end.

Section encode_type.
Context {E : Type}.
Fixpoint encode_type (ty : Ty) : Result E bytes :=
  match ty with
  | Type_Unit => Ok [x00]
  | Type_Boolean => Ok [x01]
  | Type_I64 => Ok [x02]
  | Type_U64 => Ok [x03]
  | Type_Bytes bound => Ok (x04 :: le_bytes 4 bound)
  | Type_String bound => Ok (x05 :: le_bytes 4 bound)
  | Type_Tuple fields =>
      if len fields >? u16_max then Panic else
      let* parts := mapR encode_type fields in
      Ok (x06 :: le_bytes 2 (len fields) ++ concat parts)
  | Type_Rows max_rows key value =>
      let* key := encode_type key in
      let* value := encode_type value in
      Ok (x20 :: le_bytes 4 max_rows ++ key ++ value)
  end.

(** [Type::descriptor] *)
Definition descriptor (self : Ty) : Result E bytes :=
  let* body := encode_type self in
  Ok (le_bytes 2 1 ++ body).

(** *** Schema-encoded values *)
Definition encode_data (data : bytes) : Result E bytes :=
  if len data >? u32_max then Panic else Ok (le_bytes 4 (len data) ++ data).

Fixpoint encode_value (value : Value) : Result E bytes :=
  match value with
  | Value_Unit => Ok []
  | Value_Boolean b => Ok [if b then x01 else x00]
  | Value_I64 z => Ok (le_bytes 8 z)
  | Value_U64 z => Ok (le_bytes 8 z)
  | Value_Bytes data | Value_String data => encode_data data
  | Value_Tuple fields =>
      let* parts := mapR encode_value fields in
      Ok (concat parts)
  | Value_Rows rows =>
      if len rows >? u32_max then Panic else
      let* parts :=
        mapR (fun kv => let* key := encode_value kv.1 in
                        let* value := encode_value kv.2 in
                        Ok (key ++ value)) rows in
      Ok (le_bytes 4 (len rows) ++ concat parts)
  end.

(** [Value::encode] *)
Definition encode (self : Value) : Result E bytes := encode_value self.
End encode_type.

(** [i64::from_le_bytes] *)
Definition i64_from_le (data : bytes) : Z := wrap_i64 (from_le data).

Section decode_all.
Context {A : Type}.
(** The loop [for field in fields { values.push(decode(field, input)?) }]. *)
Fixpoint decode_all (decoders : list (bytes -> Result Error (A * bytes))) (input : bytes)
    : Result Error (list A * bytes) :=
  match decoders with
  | [] => Ok ([], input)
  | decode :: decoders =>
      let* (value, input) := decode input in
      let* (values, input) := decode_all decoders input in
      Ok (value :: values, input)
  end.
End decode_all.

Section decode_rows.
Context (decode_key decode_val : bytes -> Result Error (Value * bytes)).
Fixpoint decode_rows (count : nat) (last : option Value) (input : bytes)
    : Result Error (list (Value * Value) * bytes) :=
  match count with
  | O => Ok ([], input)
  | S count =>
      let* (k, input) := decode_key input in
      if match last with Some previous => cmp_le k previous | None => false end
      then Err (Error_Invalid "Rows keys are not strictly increasing") else
      let* (v, input) := decode_val input in
      let* (rows, input) := decode_rows count (Some k) input in
      Ok ((k, v) :: rows, input)
  end.
End decode_rows.

Fixpoint decode_value_node (ty : Ty) (input : bytes) {struct ty}
    : Result Error (Value * bytes) :=
  if min_value_bytes ty >? len input then Err (Error_Invalid "truncated value") else
  match ty with
  | Type_Unit => Ok (Value_Unit, input)
  | Type_Boolean =>
      let* (b, input) := value_take_byte input in
      match b with
      | x00 => Ok (Value_Boolean false, input)
      | x01 => Ok (Value_Boolean true, input)
      | _ => Err (Error_Invalid "noncanonical Boolean")
      end
  | Type_I64 =>
      let* (data, input) := value_take input 8 in Ok (Value_I64 (i64_from_le data), input)
  | Type_U64 =>
      let* (data, input) := value_take input 8 in Ok (Value_U64 (from_le data), input)
  | Type_Bytes bound =>
      let* (length, input) := value_take_le input 4 in
      if length >? bound then Err (Error_Invalid "value exceeds byte bound") else
      let* (data, input) := value_take input length in
      Ok (Value_Bytes data, input)
  | Type_String bound =>
      let* (length, input) := value_take_le input 4 in
      if length >? bound then Err (Error_Invalid "value exceeds byte bound") else
      let* (data, input) := value_take input length in
      if utf8_valid data then Ok (Value_String data, input)
      else Err (Error_Invalid "invalid UTF-8")
  | Type_Tuple fields =>
      let* (values, input) := decode_all (map decode_value_node fields) input in
      Ok (Value_Tuple values, input)
  | Type_Rows max_rows key value =>
      let* (count, input) := value_take_le input 4 in
      if (count >? max_rows) || (count >? MAX_ROWS)
      then Err (Error_Invalid "value exceeds row bound") else
      let* minimum := ok_or (Error_Invalid "Rows value size overflow")
        (size ← checked_u64 (min_value_bytes key + min_value_bytes value);
         checked_u64 (size * count)) in
      if minimum >? len input then Err (Error_Invalid "truncated Rows value") else
      let* (rows, input) :=
        decode_rows (decode_value_node key) (decode_value_node value)
          (Z.to_nat count) None input in
      Ok (Value_Rows rows, input)
  end.

Definition decode_value (ty : Ty) (data : bytes) : Result Error Value :=
  if (len data >? MAX_VALUE_BYTES) || (len data >? max_value_bytes ty) then
    Err (Error_Invalid "encoded value exceeds type bounds") else
  let* (value, input) := decode_value_node ty data in
  match input with
  | [] => Ok value
  | _ => Err (Error_Invalid "trailing value bytes")
  end.

(** ** Well-formedness: what the Rust types and [Type::decode] guarantee *)

(** The machine-integer and UTF-8 invariants of the Rust type [Value]. *)
Fixpoint value_wf (v : Value) : bool :=
  match v with
  | Value_Unit | Value_Boolean _ | Value_Bytes _ => true
  | Value_I64 z => in_i64 z
  | Value_U64 z => in_u64 z
  | Value_String text => utf8_valid text
  | Value_Tuple fields => forallb value_wf fields
  | Value_Rows rows => forallb (fun kv => value_wf kv.1 && value_wf kv.2) rows
  end.

(** A type whose descriptor [decode_type] accepts at nesting depth [depth]. *)
Fixpoint valid_type (depth : Z) (ty : Ty) {struct ty} : bool :=
  (depth <=? 16) && (max_value_bytes ty <=? MAX_VALUE_BYTES) &&
  match ty with
  | Type_Unit | Type_Boolean | Type_I64 | Type_U64 => true
  | Type_Bytes bound | Type_String bound => in_u32 bound
  | Type_Tuple fields => (len fields <=? 256) && forallb (valid_type (depth + 1)) fields
  | Type_Rows max_rows key value =>
      (depth =? 1) && (0 <=? max_rows) && (max_rows <=? MAX_ROWS)
      && valid_type (depth + 1) key && valid_type (depth + 1) value
  end.
