(* ===== verification/ValueFacts.v ===== *)
(** * Facts about types and values

    The order laws, the descriptor and value codecs as inverse pairs, size
    bounds and the shape/typing relation of [Value.v]. *)
From S2P Require Import Prelude Errors Value.

Section Ty_ind.
Context (P : Ty -> Prop).
Context (HUnit : P Type_Unit) (HBool : P Type_Boolean)
  (HI64 : P Type_I64) (HU64 : P Type_U64)
  (HBytes : forall bound, P (Type_Bytes bound))
  (HString : forall bound, P (Type_String bound))
  (HTuple : forall fields, Forall P fields -> P (Type_Tuple fields))
  (HRows : forall max_rows key value, P key -> P value -> P (Type_Rows max_rows key value)).
Fixpoint Ty_ind' (ty : Ty) : P ty :=
  match ty with
  | Type_Unit => HUnit
  | Type_Boolean => HBool
  | Type_I64 => HI64
  | Type_U64 => HU64
  | Type_Bytes bound => HBytes bound
  | Type_String bound => HString bound
  | Type_Tuple fields =>
      HTuple fields ((fix go fs : Forall P fs :=
        match fs with
        | [] => List.Forall_nil P
        | f :: fs => @List.Forall_cons _ P f fs (Ty_ind' f) (go fs)
        end) fields)
  | Type_Rows max_rows key value => HRows max_rows key value (Ty_ind' key) (Ty_ind' value)
  end.
End Ty_ind.

Section Value_ind.
Context (P : Value -> Prop).
Context (HUnit : P Value_Unit) (HBool : forall b, P (Value_Boolean b))
  (HI64 : forall z, P (Value_I64 z)) (HU64 : forall z, P (Value_U64 z))
  (HBytes : forall data, P (Value_Bytes data))
  (HString : forall text, P (Value_String text))
  (HTuple : forall fields, Forall P fields -> P (Value_Tuple fields))
  (HRows : forall rows, Forall (fun kv => P kv.1 /\ P kv.2) rows -> P (Value_Rows rows)).
Fixpoint Value_ind' (v : Value) : P v :=
  match v with
  | Value_Unit => HUnit
  | Value_Boolean b => HBool b
  | Value_I64 z => HI64 z
  | Value_U64 z => HU64 z
  | Value_Bytes data => HBytes data
  | Value_String text => HString text
  | Value_Tuple fields =>
      HTuple fields ((fix go fs : Forall P fs :=
        match fs with
        | [] => List.Forall_nil P
        | f :: fs => @List.Forall_cons _ P f fs (Value_ind' f) (go fs)
        end) fields)
  | Value_Rows rows =>
      HRows rows ((fix go rs : Forall (fun kv => P kv.1 /\ P kv.2) rs :=
        match rs with
        | [] => List.Forall_nil _
        | kv :: rs => @List.Forall_cons _ (fun kv => P kv.1 /\ P kv.2) kv rs (conj (Value_ind' kv.1) (Value_ind' kv.2)) (go rs)
        end) rows)
  end.
End Value_ind.

(** ** The derived order *)
Section list_cmp_by_facts.
Context {A : Type} (c : A -> A -> comparison).

Lemma list_cmp_by_eq l :
  Forall (fun x => forall y, c x y = Eq <-> x = y) l ->
  forall k, list_cmp_by c l k = Eq <-> l = k.
Proof.
  induction 1 as [|x l Hx Hl IH]; intros [|y k]; simpl; try naive_solver.
  rewrite lex_eq, Hx, IH. naive_solver.
Qed.

Lemma list_cmp_by_antisym l :
  Forall (fun x => forall y, c y x = CompOpp (c x y)) l ->
  forall k, list_cmp_by c k l = CompOpp (list_cmp_by c l k).
Proof.
  induction 1 as [|x l Hx Hl IH]; intros [|y k]; simpl; try done.
  by rewrite lex_opp, Hx, IH.
Qed.

Lemma list_cmp_by_trans l :
  (forall x y, c x y = Eq <-> x = y) ->
  Forall (fun x => forall y z, c x y = Lt -> c y z = Lt -> c x z = Lt) l ->
  forall k m, list_cmp_by c l k = Lt -> list_cmp_by c k m = Lt -> list_cmp_by c l m = Lt.
Proof.
  intros Heq. induction 1 as [|x l Hx Hl IH]; intros [|y k] [|z m]; simpl; try done.
  rewrite !lex_lt, !Heq. intros [?|[-> ?]] [?|[-> ?]]; eauto.
Qed.
End list_cmp_by_facts.

Lemma bool_compare_eq a b : bool_compare a b = Eq <-> a = b.
Proof. destruct a, b; simpl; naive_solver. Qed.

Lemma value_cmp_eq a b : value_cmp a b = Eq <-> a = b.
Proof.
  revert b. induction a as [| | | | | |fields IH|rows IH] using Value_ind';
    intros w; destruct w; simpl; try (split; [done || discriminate | done || discriminate]).
  - rewrite bool_compare_eq. naive_solver.
  - rewrite Z.compare_eq_iff. naive_solver.
  - rewrite Z.compare_eq_iff. naive_solver.
  - rewrite cmp_eq. naive_solver.
  - rewrite cmp_eq. naive_solver.
  - rewrite list_cmp_by_eq by done. naive_solver.
  - rewrite list_cmp_by_eq; [naive_solver|].
    eapply Forall_impl; [exact IH|]. intros [k v] [Hk Hv] [k' v']; simpl in *.
    rewrite lex_eq, Hk, Hv. naive_solver.
Qed.

Lemma value_cmp_antisym a b : value_cmp b a = CompOpp (value_cmp a b).
Proof.
  revert b. induction a as [| | | | | |fields IH|rows IH] using Value_ind'; intros y; destruct y; simpl; try done.
  - by destruct b, b0.
  - apply Z.compare_antisym.
  - apply Z.compare_antisym.
  - apply (cmp_antisym (A:=bytes)).
  - apply (cmp_antisym (A:=bytes)).
  - by apply list_cmp_by_antisym.
  - apply list_cmp_by_antisym. eapply Forall_impl; [exact IH|].
    intros [k v] [Hk Hv] [k' v']; simpl in *. by rewrite lex_opp, Hk, Hv.
Qed.

Lemma value_cmp_trans a b c : value_cmp a b = Lt -> value_cmp b c = Lt -> value_cmp a c = Lt.
Proof.
  revert b c. induction a as [|x|x|x|x|x|fields IH|rows IH] using Value_ind';
    intros y z; destruct y as [|y|y|y|y|y|y|y], z as [|z|z|z|z|z|z|z]; simpl; try done.
  - by destruct x, y, z.
  - rewrite !Z.compare_lt_iff. lia.
  - rewrite !Z.compare_lt_iff. lia.
  - apply (cmp_trans (A:=bytes)).
  - apply (cmp_trans (A:=bytes)).
  - apply list_cmp_by_trans; [apply value_cmp_eq | done].
  - apply list_cmp_by_trans.
    + intros [k v] [k' v']. rewrite lex_eq, !value_cmp_eq. simpl. naive_solver.
    + eapply Forall_impl; [exact IH|]. intros [k v] [Hk Hv] [k' v'] [k'' v'']; simpl in *.
      rewrite !lex_lt, !value_cmp_eq. intros [?|[-> ?]] [?|[-> ?]]; eauto.
Qed.

#[export] Instance Value_cmp_laws : CmpLaws Value.
Proof. split; [apply value_cmp_eq | apply value_cmp_antisym | apply value_cmp_trans]. Qed.

(** Equality of values is decided by the derived comparison. *)
#[export] Instance Value_eq_dec : EqDecision Value.
Proof.
  intros a b. destruct (value_cmp a b) eqn:E.
  - left. by apply value_cmp_eq.
  - right. intros ->. by rewrite (proj2 (value_cmp_eq b b) eq_refl) in E.
  - right. intros ->. by rewrite (proj2 (value_cmp_eq b b) eq_refl) in E.
Defined.

(** ** Reading from the front of a byte string *)
#[global] Arguments value_take : simpl never.
#[global] Arguments value_take_le : simpl never.
#[global] Arguments value_take_byte : simpl never.
#[global] Arguments split_at : simpl never.
#[global] Arguments checked_u64 : simpl never.
#[global] Arguments bounded_add : simpl never.

Lemma value_take_app a rest n : n = len a -> value_take (a ++ rest) n = Ok (a, rest).
Proof. intros ->. unfold value_take. by rewrite split_at_app. Qed.

Lemma value_take_inv input n a rest :
  0 <= n -> value_take input n = Ok (a, rest) -> input = a ++ rest /\ len a = n.
Proof. intros Hn H. apply ok_or_ok in H. by apply split_at_Some in H. Qed.

Lemma value_take_le_app n z rest k :
  k = Z.of_nat n -> 0 <= z < 256 ^ k -> value_take_le (le_bytes n z ++ rest) k = Ok (z, rest).
Proof.
  intros -> Hz. unfold value_take_le. rewrite value_take_app by by rewrite len_le_bytes.
  simpl. by rewrite from_le_bytes_small.
Qed.

Lemma value_take_le_inv input k z rest :
  0 <= k -> value_take_le input k = Ok (z, rest) ->
  input = le_bytes (Z.to_nat k) z ++ rest /\ 0 <= z < 256 ^ k.
Proof.
  intros Hk H. unfold value_take_le in H. step_ok H as [data input'] eqn Ha. inv_ok.
  apply value_take_inv in Ha as [-> Hlen]; [|done].
  rewrite le_bytes_from_le by (unfold len in Hlen; lia).
  split; [done|]. rewrite <-Hlen. apply from_le_range.
Qed.

Lemma value_take_byte_inv input b rest :
  value_take_byte input = Ok (b, rest) -> input = b :: rest.
Proof.
  unfold value_take_byte. intros H. step_ok H as [data input'] eqn Ha. inv_ok.
  apply value_take_inv in Ha as [-> Hlen]; [|done].
  unfold len in Hlen. destruct data as [|b' [|]]; simpl in *; try lia. by simplify_eq.
Qed.

Lemma value_take_byte_cons b rest : value_take_byte (b :: rest) = Ok (b, rest).
Proof.
  unfold value_take_byte. change (b :: rest) with ([b] ++ rest).
  by rewrite value_take_app.
Qed.

Lemma value_take_no_panic input n : no_panic (value_take input n).
Proof. unfold value_take. by destruct (split_at _ _). Qed.

Lemma value_take_le_no_panic input n : no_panic (value_take_le input n).
Proof. apply bindR_no_panic; [apply value_take_no_panic|]. by intros []. Qed.

Lemma value_take_byte_no_panic input : no_panic (value_take_byte input).
Proof.
  apply bindR_no_panic; [apply value_take_no_panic|]. intros [data rest] H.
  apply value_take_inv in H as [_ H]; [|done]. destruct data; done.
Qed.

(** ** Sizes *)

Lemma valid_type_max ty depth :
  valid_type depth ty = true -> max_value_bytes ty <= MAX_VALUE_BYTES.
Proof. destruct ty; simpl; intros H; blia. Qed.

Lemma valid_type_depth ty depth : valid_type depth ty = true -> depth <= 16.
Proof. destruct ty; simpl; intros H; blia. Qed.

Lemma max_value_bytes_nonneg ty : forall depth,
  valid_type depth ty = true -> 0 <= max_value_bytes ty.
Proof.
  induction ty as [| | | |bound|bound|fields IH|m k v IHk IHv] using Ty_ind';
    intros depth H; simpl in *; try blia.
  - apply sum_Z_nonneg, Forall_fmap. destruct_andb. rename select (forallb _ _ = true) into Hf.
    apply forallb_Forall in Hf.
    eapply Forall_impl; [exact (Forall_conj _ _ _ IH Hf)|].
    intros f [Hfield Hv]. by eapply Hfield.
  - destruct_andb.
    pose proof (IHk _ ltac:(eassumption)). pose proof (IHv _ ltac:(eassumption)). bsimp. nia.
Qed.

(** ** The type-descriptor codec *)
Lemma bounded_add_Some size field total :
  0 <= size -> 0 <= field ->
  bounded_add size field = Some total <-> total = size + field /\ total <= MAX_VALUE_BYTES.
Proof.
  intros. unfold bounded_add. destruct (checked_u64 (size + field)) as [s|] eqn:E.
  - apply checked_u64_Some in E as [-> _]. destruct (Z.leb_spec (size + field) MAX_VALUE_BYTES).
    + split; [by intros [= <-] | by intros [-> _]].
    + split; [done | lia].
  - split; [done|]. intros [-> Hm]. unfold checked_u64 in E.
    destruct (in_u64 (size + field)) eqn:Hu; [done|].
    unfold in_u64 in Hu. unfold MAX_VALUE_BYTES in Hm. destruct (Z.leb_spec 0 (size + field)); [|lia].
    simpl in Hu. blia.
Qed.

Lemma encode_type_nonempty {E} ty bs : encode_type (E:=E) ty = Ok bs -> 1 <= len bs.
Proof.
  intros H. destruct ty; simpl in H; inv_ok; rewrite ?len_cons;
    try match goal with |- context [len ?l] => pose proof (len_nonneg l) end; try lia; done.
Qed.

Lemma len_concat_ge {A} (parts : list (list A)) :
  Forall (fun p => 1 <= len p) parts -> len parts <= len (concat parts).
Proof. induction 1; simpl; autorewrite with blop; lia. Qed.

Lemma decode_fields_encoded dec fields parts rest : forall size,
  Forall2 (fun f p => forall rest, dec (p ++ rest) = Ok (f, max_value_bytes f, rest)) fields parts ->
  Forall (fun f => 0 <= max_value_bytes f) fields ->
  0 <= size -> size + sum_Z (map max_value_bytes fields) <= MAX_VALUE_BYTES ->
  decode_fields dec (length fields) size (concat parts ++ rest) =
    Ok (fields, size + sum_Z (map max_value_bytes fields), rest).
Proof.
  intros size H2. revert size. induction H2 as [|f p fields parts Hf H2 IH]; intros size Hpos Hs Hm; simpl.
  - by rewrite Z.add_0_r.
  - apply Forall_cons in Hpos as [Hp0 Hpos]. simpl in Hm.
    assert (0 <= sum_Z (map max_value_bytes fields)) by by apply sum_Z_nonneg, Forall_fmap.
    rewrite <-app_assoc, Hf. simpl.
    rewrite (proj2 (bounded_add_Some size (max_value_bytes f) _ ltac:(lia) ltac:(lia)))
      by (split; [reflexivity | lia]). simpl.
    rewrite IH by (done || lia). simpl. do 3 f_equal. lia.
Qed.

Lemma decode_fields_inv dec count (Q : Ty -> Z -> bytes -> Prop) :
  (forall input f s rest, dec input = Ok (f, s, rest) ->
     0 <= s /\ exists p, input = p ++ rest /\ Q f s p) ->
  forall size input fields size' rest,
  0 <= size -> decode_fields dec count size input = Ok (fields, size', rest) ->
  length fields = count /\ size <= size' /\ (size <= MAX_VALUE_BYTES -> size' <= MAX_VALUE_BYTES) /\
  exists parts sizes, input = concat parts ++ rest /\ size' = size + sum_Z sizes /\
    Forall2 (fun f sp => Q f sp.1 sp.2) fields (zip sizes parts) /\
    length sizes = length fields /\ length parts = length fields.
Proof.
  intros Hdec. induction count as [|count IH]; intros size input fields size' rest Hs H; simpl in H.
  - inv_ok. split; [done|]. split; [done|]. split; [done|].
    exists [], []. simpl. rewrite Z.add_0_r. by repeat split.
  - step_ok H as [[f fs] in1] eqn Hf. step_ok H as size1 eqn Hadd.
    step_ok H as [[fields1 size2] in2] eqn Hrec. inv_ok.
    apply Hdec in Hf as (Hfs & p & -> & HQ).
    apply bounded_add_Some in Hadd as [-> Hm]; [|lia..].
    apply IH in Hrec as (Hlen & Hle & Hmax & parts & sizes & -> & Hsize & H2 & Hl1 & Hl2); [|lia].
    simpl. split; [lia|]. split; [lia|]. split; [auto|].
    exists (p :: parts), (fs :: sizes). simpl. rewrite app_assoc. split; [done|].
    split; [lia|]. split; [by constructor|]. lia.
Qed.

Lemma encode_type_ok {E} ty depth :
  valid_type depth ty = true -> exists bs, encode_type (E:=E) ty = Ok bs.
Proof.
  revert depth. induction ty as [| | | |bound|bound|fields IH|m k v IHk IHv] using Ty_ind';
    intros depth H; simpl in *; try (by eexists).
  - destruct_andb. rewrite gtb_false by blia.
    rename select (forallb _ _ = true) into Hf. apply forallb_Forall in Hf.
    assert (exists parts, mapR (encode_type (E:=E)) fields = Ok parts) as [parts ->]; [|by eexists].
    clear -IH Hf. induction IH as [|f fields Hfield IH IH2]; [by eexists|].
    inversion Hf as [|?? Hv Hf']; subst. destruct (Hfield _ Hv) as [p Hp]. destruct (IH2 Hf') as [ps Hps].
    exists (p :: ps). simpl. by rewrite Hp, Hps.
  - destruct_andb. destruct (IHk _ ltac:(eassumption)) as [kb ->].
    destruct (IHv _ ltac:(eassumption)) as [vb ->]. by eexists.
Qed.

Lemma decode_type_encode ty : forall depth fuel bs rest,
  valid_type depth ty = true -> 1 <= depth -> 17 <= Z.of_nat fuel + depth ->
  encode_type (E:=Error) ty = Ok bs ->
  decode_type fuel (bs ++ rest) depth = Ok (ty, max_value_bytes ty, rest).
Proof.
  induction ty as [| | | |bound|bound|fields IH|m k v IHk IHv] using Ty_ind';
    intros depth fuel bs rest Hv Hd Hfuel Henc;
    pose proof (valid_type_depth _ _ Hv); pose proof (valid_type_max _ _ Hv) as Hmax;
    destruct fuel as [|fuel]; try lia; simpl in Hv, Henc;
    cbn [decode_type]; rewrite gtb_false by lia.
  1-4: inv_ok; by rewrite <-app_comm_cons, value_take_byte_cons.
  1-2: inv_ok; rewrite <-app_comm_cons, value_take_byte_cons; simpl;
    rewrite value_take_le_app by (done || blia); simpl;
    rewrite (proj2 (checked_u64_Some (bound + 4) _)) by (split; [done | blia]); simpl in *;
    rewrite gtb_false by lia; simpl; by rewrite Z.add_comm.
  - destruct_andb. rewrite gtb_false in Henc by blia.
    step_ok Henc as parts eqn Hparts. injection Henc as <-.
    apply mapR_Forall2 in Hparts. rename select (forallb _ _ = true) into Hf.
    apply forallb_Forall in Hf.
    rewrite <-app_comm_cons, value_take_byte_cons; simpl. rewrite <-app_assoc.
    rewrite value_take_le_app by (done || (split; [apply len_nonneg | blia])); simpl.
    rewrite gtb_false by blia. rewrite gtb_false; cycle 1.
    { rewrite len_app. pose proof (len_nonneg rest).
      assert (len parts <= len (concat parts)) as Hc.
      { apply len_concat_ge. clear -Hparts. induction Hparts; constructor; [|done].
        by eapply encode_type_nonempty. }
      unfold len in Hc at 1. rewrite <-(Forall2_length _ _ _ Hparts) in Hc. unfold len at 1. lia. }
    unfold len at 1. rewrite Nat2Z.id, decode_fields_encoded with (size := 0); simpl in *; try lia.
    + by rewrite Z.add_0_l, gtb_false by lia.
    + clear -Hparts IH Hf Hd Hfuel. induction Hparts as [|f p fields parts Hp Hparts IHp]; constructor.
      * inversion IH; inversion Hf; subst. intros rest'. eauto with lia.
      * inversion IH; inversion Hf; subst. by apply IHp.
    + eapply Forall_impl; [exact Hf|]. intros f. apply max_value_bytes_nonneg.
  - destruct_andb. step_ok Henc as kb eqn Hk. step_ok Henc as vb eqn Hvb. injection Henc as <-.
    rewrite <-app_comm_cons, value_take_byte_cons; simpl.
    rename select ((depth =? 1) = true) into Hd1. rewrite Hd1. simpl. rewrite <-!app_assoc.
    rewrite value_take_le_app by (done || (unfold MAX_ROWS in *; blia)); simpl.
    rewrite gtb_false by blia. rewrite (IHk (depth + 1)) by (done || lia). simpl.
    rewrite (IHv (depth + 1)) by (done || lia). simpl.
    pose proof (max_value_bytes_nonneg k _ ltac:(eassumption)).
    pose proof (max_value_bytes_nonneg v _ ltac:(eassumption)).
    simpl in Hmax. unfold MAX_VALUE_BYTES, MAX_ROWS in *.
    rename select ((0 <=? m) = true) into Hm0. apply Z.leb_le in Hm0.
    pose proof (valid_type_max k _ ltac:(eassumption)). pose proof (valid_type_max v _ ltac:(eassumption)).
    unfold MAX_VALUE_BYTES in *.
    rewrite (proj2 (checked_u64_Some (max_value_bytes k + max_value_bytes v) _)) by (split; [done | blia]). simpl.
    rewrite (proj2 (checked_u64_Some (_ * m) _)) by (split; [done | unfold u64_max; nia]). simpl.
    rewrite (proj2 (checked_u64_Some (_ + 4) _)) by (split; [done | unfold u64_max; nia]). simpl.
    rewrite gtb_false by nia. do 3 f_equal. lia.
Qed.

(** What a successful [decode_type] says about the bytes it consumed. *)
Definition encodes (depth : Z) (ty : Ty) (size : Z) (used : bytes) : Prop :=
  encode_type (E:=Error) ty = Ok used /\ valid_type depth ty = true /\ size = max_value_bytes ty.

Lemma decode_fields_encodes fuel depth count input fields size rest :
  (forall input ty size rest, decode_type fuel input (depth + 1) = Ok (ty, size, rest) ->
     exists used, input = used ++ rest /\ encodes (depth + 1) ty size used) ->
  decode_fields (fun input => decode_type fuel input (depth + 1)) count 0 input
    = Ok (fields, size, rest) ->
  exists parts, input = concat parts ++ rest /\ length fields = count /\
    mapR (encode_type (E:=Error)) fields = Ok parts /\
    forallb (valid_type (depth + 1)) fields = true /\
    size = sum_Z (map max_value_bytes fields) /\ size <= MAX_VALUE_BYTES.
Proof.
  intros IH H. apply (decode_fields_inv _ _ (encodes (depth + 1))) in H; [|..]; [| |lia].
  - destruct H as (Hlen & Hle & Hmax & parts & sizes & -> & -> & H2 & Hl1 & Hl2).
    exists parts. split; [done|]. split; [done|].
    assert (mapR (encode_type (E:=Error)) fields = Ok parts /\
      forallb (valid_type (depth + 1)) fields = true /\ sizes = map max_value_bytes fields) as (Hp & Hv & ->).
    { clear -H2 Hl1 Hl2. revert parts sizes H2 Hl1 Hl2.
      induction fields as [|f fields IH]; intros [|p parts] [|s sizes] H2 Hl1 Hl2; simpl in *; try lia; [done|].
      inversion H2 as [|???? (He & Hv & Hs) H2']; subst; simpl in *.
      destruct (IH parts sizes H2' ltac:(lia) ltac:(lia)) as (-> & -> & ->).
      by rewrite He, Hv, Hs. }
    split; [done|]. split; [done|]. split; [lia|]. apply Hmax. done.
  - intros input' f s rest' Hd. apply IH in Hd as (used & -> & He & Hv & ->).
    split; [by eapply max_value_bytes_nonneg|]. by exists used.
Qed.

Lemma checked_rows_size k v m size :
  (size ← checked_u64 (k + v); size ← checked_u64 (size * m); checked_u64 (size + 4)) = Some size ->
  size = 4 + m * (k + v).
Proof.
  intros H. apply bind_Some in H as (s1 & H1 & H). apply bind_Some in H as (s2 & H2 & H).
  apply checked_u64_Some in H1 as [-> _], H2 as [-> _], H as [-> _]. lia.
Qed.

Lemma decode_type_inv fuel : forall depth input ty size rest,
  1 <= depth -> decode_type fuel input depth = Ok (ty, size, rest) ->
  exists used, input = used ++ rest /\ encodes depth ty size used.
Proof.
  unfold encodes. induction fuel as [|fuel IH]; intros depth input ty size rest Hd H;
    cbn [decode_type] in H; destruct (depth >? 16) eqn:E16; try done.
  step_ok H as [tag in1] eqn Htag. apply value_take_byte_inv in Htag as ->.
  step_ok H as [[ty' max] in2] eqn Hty.
  destruct (max >? MAX_VALUE_BYTES) eqn:Emax; [done|]. inv_ok.
  assert ((depth <=? 16) = true) as Hdepth by blia.
  assert ((size <=? MAX_VALUE_BYTES) = true) as Hsize by (unfold MAX_VALUE_BYTES in *; blia).
  clear E16 Emax. case_byte tag Hty; cbn [byte_eq_dec Byte.byte_eq_dec] in Hty.
  1-4: simplify_eq; eexists [_]; simpl in *; by rewrite Hdepth.
  1-2: step_ok Hty as [bound in3] eqn Hb; step_ok Hty as s eqn Hs; inv_ok;
    apply value_take_le_inv in Hb as [-> Hb]; [|done];
    apply checked_u64_Some in Hs as [-> _]; simpl in *;
    eexists (_ :: le_bytes 4 bound); rewrite Z.add_comm in Hsize; rewrite Hdepth, Hsize; simpl;
    rewrite (proj2 (in_u32_spec bound)) by (unfold u32_max; lia); repeat split; lia.
  - step_ok Hty as [count in3] eqn Hc. apply value_take_le_inv in Hc as [-> Hc]; [|done].
    destruct (count >? 256) eqn:E256; [done|]. destruct (count >? len in3); [done|].
    step_ok Hty as [[fields s] in4] eqn Hf. inv_ok.
    apply decode_fields_encodes in Hf as (parts & -> & Hlen & Hp & Hv & -> & _); [|intros; apply IH; [lia|done]].
    assert (len fields = count) as Hcount by (unfold len; rewrite Hlen; lia).
    exists (x06 :: le_bytes 2 count ++ concat parts). simpl. rewrite <-app_assoc. split; [done|].
    rewrite gtb_false, Hp, Hcount, Hdepth, Hsize, Hv by (rewrite Hcount; blia). simpl.
    by rewrite (proj2 (Z.leb_le count 256)) by blia.
  - destruct (depth =? 1) eqn:E1; simpl in Hty; [|done].
    step_ok Hty as [m in3] eqn Hm. apply value_take_le_inv in Hm as [-> Hm]; [|done].
    destruct (m >? MAX_ROWS) eqn:EM; [done|].
    step_ok Hty as [[k ks] in4] eqn Hk. step_ok Hty as [[v vs] in5] eqn Hv.
    step_ok Hty as s eqn Hs. inv_ok. apply checked_rows_size in Hs as ->.
    apply IH in Hk as (kb & -> & Hke & Hkv & ->); [|lia].
    apply IH in Hv as (vb & -> & Hve & Hvv & ->); [|lia].
    exists (x20 :: le_bytes 4 m ++ kb ++ vb). simpl. rewrite <-!app_assoc, Hke, Hve. simpl.
    rewrite Hdepth, Hsize, E1, Hkv, Hvv. split; [done|].
    rewrite (proj2 (Z.leb_le 0 m)), (proj2 (Z.leb_le m MAX_ROWS)) by blia. by repeat split.
Qed.

Lemma decode_fields_no_panic dec count : forall size input,
  (forall input, no_panic (dec input)) -> no_panic (decode_fields dec count size input).
Proof.
  induction count as [|count IH]; intros size input Hdec; simpl; [done|].
  apply bindR_no_panic; [apply Hdec|]. intros [[f s] in1] _.
  apply bindR_no_panic; [by destruct (bounded_add _ _)|]. intros size1 _.
  apply bindR_no_panic; [by apply IH|]. by intros [[]] _.
Qed.

(** The fuel of [decode] outlasts the source's depth guard. *)
Lemma decode_type_no_panic fuel : forall input depth,
  17 <= Z.of_nat fuel + depth -> no_panic (decode_type fuel input depth).
Proof.
  induction fuel as [|fuel IH]; intros input depth Hf; cbn [decode_type];
    destruct (Z.gtb_spec depth 16); try done; [lia|].
  apply bindR_no_panic; [apply value_take_byte_no_panic|]. intros [tag in1] _.
  apply bindR_no_panic; [|by intros [[ty max] in2] _; destruct (_ >? _)].
  destruct tag; try done.
  1-2: apply bindR_no_panic; [apply value_take_le_no_panic|]; intros [bound in2] _;
    apply bindR_no_panic; [by destruct (checked_u64 _)|done].
  - apply bindR_no_panic; [apply value_take_le_no_panic|]. intros [count in2] _.
    destruct (_ >? _); [done|]. destruct (_ >? _); [done|].
    apply bindR_no_panic; [|by intros [[]] _].
    apply decode_fields_no_panic. intros input'. apply IH. lia.
  - destruct (negb _); [done|].
    apply bindR_no_panic; [apply value_take_le_no_panic|]. intros [m in2] _.
    destruct (_ >? _); [done|].
    apply bindR_no_panic; [apply IH; lia|]. intros [[k ks] in3] _.
    apply bindR_no_panic; [apply IH; lia|]. intros [[v vs] in4] _.
    apply bindR_no_panic; [by destruct (_ ≫= _)|done].
Qed.

#[global] Opaque decode_type.

Lemma decode_no_panic data : no_panic (decode data).
Proof.
  unfold decode. destruct (_ >? _); [done|].
  apply bindR_no_panic; [apply value_take_le_no_panic|]. intros [v in1] _. destruct (negb _); [done|].
  apply bindR_no_panic; [by apply decode_type_no_panic|]. intros [[ty s] []] _; done.
Qed.

(** [Type::decode] inverts [Type::descriptor] and accepts nothing else. *)
Lemma decode_descriptor_iff data ty :
  decode data = Ok ty <->
  descriptor (E:=Error) ty = Ok data /\ valid_type 1 ty = true /\ len data <= MAX_DESCRIPTOR_BYTES.
Proof.
  unfold decode, descriptor. split.
  - destruct (len data >? MAX_DESCRIPTOR_BYTES) eqn:Elen; [done|]. intros H.
    step_ok H as [version in1] eqn Hver. apply value_take_le_inv in Hver as [-> _]; [|done].
    destruct (version =? 1) eqn:E1; simpl in H; [|done]. apply Z.eqb_eq in E1 as ->.
    step_ok H as [[ty' size] in2] eqn Hty. destruct in2; inv_ok.
    apply decode_type_inv in Hty as (used & -> & He & Hv & _); [|done].
    rewrite He. simpl. rewrite app_nil_r in *. split; [done|]. split; [done|].
    unfold MAX_DESCRIPTOR_BYTES in *. blia.
  - intros (H & Hv & Hlen). step_ok H as body eqn Hb. inv_ok.
    rewrite gtb_false by done. rewrite value_take_le_app by done. simpl.
    rewrite <-(app_nil_r body), (decode_type_encode ty 1) by done. done.
Qed.

Lemma decode_valid data ty : decode data = Ok ty -> valid_type 1 ty = true.
Proof. rewrite decode_descriptor_iff. naive_solver. Qed.

(** Types have decidable equality. *)
Fixpoint ty_eqb (a b : Ty) : bool :=
  match a, b with
  | Type_Unit, Type_Unit | Type_Boolean, Type_Boolean | Type_I64, Type_I64 | Type_U64, Type_U64 => true
  | Type_Bytes n, Type_Bytes m | Type_String n, Type_String m => n =? m
  | Type_Tuple fs, Type_Tuple gs =>
      (fix go fs gs :=
         match fs, gs with
         | [], [] => true
         | f :: fs, g :: gs => ty_eqb f g && go fs gs
         | _, _ => false
         end) fs gs
  | Type_Rows m k v, Type_Rows m' k' v' => (m =? m') && ty_eqb k k' && ty_eqb v v'
  | _, _ => false
  end.

Lemma ty_eqb_eq a b : ty_eqb a b = true <-> a = b.
Proof.
  revert b. induction a as [| | | |n|n|fields IH|m k v IHk IHv] using Ty_ind';
    intros b; destruct b as [| | | |n'|n'|fields'|m' k' v']; simpl; try naive_solver.
  1-2: rewrite Z.eqb_eq; naive_solver.
  - assert (forall gs, (fix go fs gs := match fs, gs with [], [] => true
      | f :: fs, g :: gs => ty_eqb f g && go fs gs | _, _ => false end) fields gs = true <-> fields = gs) as ->;
      [|naive_solver].
    induction IH as [|f fs Hf _ IH]; intros [|g gs]; try naive_solver.
    rewrite andb_true_iff, Hf, IH. naive_solver.
  - rewrite !andb_true_iff, Z.eqb_eq, IHk, IHv. naive_solver.
Qed.

#[export] Instance Ty_eq_dec : EqDecision Ty.
Proof. intros a b. destruct (ty_eqb a b) eqn:E; [left|right]; rewrite <-ty_eqb_eq; congruence. Defined.

(** ** The value codec *)
Lemma len_concat {A} (parts : list (list A)) : len (concat parts) = sum_Z (map len parts).
Proof. induction parts; simpl; autorewrite with blop; lia. Qed.

Lemma sum_Z_ext {A} (f g : A -> Z) l :
  Forall (fun x => f x = g x) l -> sum_Z (map f l) = sum_Z (map g l).
Proof. induction 1; simpl; lia. Qed.

Lemma mapR_len_concat {E A} (f : A -> Result E bytes) (g : A -> Z) l parts :
  Forall (fun x => forall bs, f x = Ok bs -> len bs = g x) l ->
  mapR f l = Ok parts -> len (concat parts) = sum_Z (map g l).
Proof.
  intros Hf H%mapR_Forall2. rewrite len_concat.
  induction H as [|x p l parts Hx H IH]; simpl; [done|].
  inversion Hf; subst. rewrite IH by done. f_equal. eauto.
Qed.

(** [Value::encoded_len] is the length of the encoding. *)
Lemma encode_value_len {E} v bs : encode_value (E:=E) v = Ok bs -> len bs = encoded_len v.
Proof.
  revert bs. induction v as [| | | | | |fields IH|rows IH] using Value_ind'; intros bs H; simpl in *;
    unfold encode_data in *; inv_ok; autorewrite with blop; try done; try lia.
  - by eapply mapR_len_concat.
  - f_equal. eapply mapR_len_concat; [|done]. eapply Forall_impl; [exact IH|].
    intros [k v] [Hk Hv] bs Hb; simpl in *. inv_ok. autorewrite with blop. f_equal; auto.
Qed.

Lemma encoded_len_nonneg v : 0 <= encoded_len v.
Proof.
  induction v as [| | | | | |fields IH|rows IH] using Value_ind'; simpl;
    try match goal with |- context [len ?l] => pose proof (len_nonneg l) end; try lia.
  - by apply sum_Z_nonneg, Forall_fmap.
  - enough (0 <= sum_Z (map (fun kv => encoded_len kv.1 + encoded_len kv.2) rows)) by lia.
    apply sum_Z_nonneg, Forall_fmap. eapply Forall_impl; [exact IH|]. simpl. intros ? []. lia.
Qed.

Lemma zip_all_Forall2 {A B} (f : A -> B -> bool) l k :
  Nat.eqb (length l) (length k) && zip_all f l k = true <-> Forall2 (fun x y => f x y = true) l k.
Proof.
  revert k. induction l as [|x l IH]; intros [|y k]; simpl.
  - split; [constructor | done].
  - split; [done | intros H; inversion H].
  - split; [done | intros H; inversion H].
  - rewrite Forall2_cons, <-IH. destruct (f x y); simpl; [|rewrite andb_false_r]; naive_solver.
Qed.

Lemma sum_map_le {A} (f g : A -> Z) l :
  Forall (fun x => f x <= g x) l -> sum_Z (map f l) <= sum_Z (map g l).
Proof. induction 1; simpl; lia. Qed.

Lemma sum_const_le {A} (f : A -> Z) c l :
  Forall (fun x => f x <= c) l -> sum_Z (map f l) <= len l * c.
Proof. induction 1; autorewrite with blop; simpl; lia. Qed.

Lemma sum_const_ge {A} (f : A -> Z) c l :
  Forall (fun x => c <= f x) l -> len l * c <= sum_Z (map f l).
Proof. induction 1; autorewrite with blop; simpl; lia. Qed.

(** Accepted values encode, within the type's static size bounds. *)
Lemma accepts_tuple fields v :
  accepts (Type_Tuple fields) v = true <->
  exists values, v = Value_Tuple values /\ Forall2 (fun f x => accepts f x = true) fields values.
Proof.
  destruct v; simpl; try (split; [done | intros (? & ? & ?); done]).
  rewrite zip_all_Forall2. naive_solver.
Qed.

Lemma accepts_rows m k w v :
  accepts (Type_Rows m k w) v = true <->
  exists rows, v = Value_Rows rows /\ len rows <= m /\ len rows <= MAX_ROWS /\
    Forall (fun kv => accepts k kv.1 = true /\ accepts w kv.2 = true) rows /\
    increasing_rows rows = true.
Proof.
  destruct v; simpl; try (split; [done | intros (? & ? & ?); done]).
  rewrite !andb_true_iff, !Z.leb_le, forallb_Forall. split.
  - intros [[[? ?] Hf] ?]. eexists. split; [done|]. repeat split; try done.
    eapply Forall_impl; [exact Hf|]. intros kv. by rewrite andb_true_iff.
  - intros (rows' & [= <-] & ? & ? & Hf & ?). repeat split; try done.
    eapply Forall_impl; [exact Hf|]. intros kv. by rewrite andb_true_iff.
Qed.

Lemma mapR_total {E A B} (f : A -> Result E B) l :
  Forall (fun x => exists y, f x = Ok y) l -> exists ys, mapR f l = Ok ys.
Proof.
  induction 1 as [|x l [y Hy] Hl [ys Hys]]; [by eexists|]. exists (y :: ys). simpl. by rewrite Hy, Hys.
Qed.

Lemma encode_value_ok {E} ty : forall depth v,
  valid_type depth ty = true -> accepts ty v = true ->
  exists bs, encode_value (E:=E) v = Ok bs.
Proof.
  induction ty as [| | | |bound|bound|fields IH|m k w IHk IHw] using Ty_ind';
    intros depth v Hv Ha.
  1-4: destruct v; simpl in Ha; try done; by eexists.
  1-2: destruct v; simpl in Ha; try done; simpl in *; unfold encode_data; destruct_andb;
    rewrite gtb_false by blia; by eexists.
  - apply accepts_tuple in Ha as (values & -> & Ha). simpl in *. destruct_andb.
    rename select (forallb _ _ = true) into Hf. apply forallb_Forall in Hf.
    edestruct (mapR_total (encode_value (E:=E)) values) as [parts ->]; [|by eexists].
    clear -IH Hf Ha. induction Ha; constructor; inversion IH; inversion Hf; subst; eauto.
  - apply accepts_rows in Ha as (rows & -> & Hm & Hmax & Ha & _). simpl in *. destruct_andb.
    unfold MAX_ROWS in *. rewrite gtb_false by blia.
    edestruct (mapR_total (fun kv : Value * Value => let* key := encode_value (E:=E) kv.1 in
      let* value := encode_value kv.2 in Ok (key ++ value)) rows) as [parts ->]; [|by eexists].
    eapply Forall_impl; [exact Ha|]. intros [x y] [Hx Hy]; simpl in *.
    edestruct IHk as [kb ->]; [done..|]. edestruct IHw as [wb ->]; [done..|]. by eexists.
Qed.

Lemma min_value_bytes_le ty : forall v,
  accepts ty v = true -> min_value_bytes ty <= encoded_len v.
Proof.
  induction ty as [| | | |bound|bound|fields IH|m k w IHk IHw] using Ty_ind'; intros v Ha.
  1-6: destruct v; simpl in *; try done;
    try match goal with |- context [len ?l] => pose proof (len_nonneg l) end; lia.
  - apply accepts_tuple in Ha as (values & -> & Ha). simpl.
    clear -IH Ha. induction Ha as [|f x fields values Hx Ha IHa]; simpl; [done|].
    inversion IH as [|?? Hf IH']; subst. specialize (Hf _ Hx). specialize (IHa IH'). lia.
  - apply accepts_rows in Ha as (rows & -> & _). simpl.
    enough (0 <= sum_Z (map (fun kv => encoded_len kv.1 + encoded_len kv.2) rows)) by lia.
    apply sum_Z_nonneg, Forall_fmap, Forall_true. intros kv. simpl.
    pose proof (encoded_len_nonneg kv.1). pose proof (encoded_len_nonneg kv.2). lia.
Qed.

(** [Type::max_value_bytes] bounds every accepted value. *)
Lemma encoded_len_le ty : forall depth v,
  valid_type depth ty = true -> accepts ty v = true -> encoded_len v <= max_value_bytes ty.
Proof.
  induction ty as [| | | |bound|bound|fields IH|m k w IHk IHw] using Ty_ind'; intros depth v Hv Ha.
  1-6: destruct v; simpl in *; try done; blia.
  - apply accepts_tuple in Ha as (values & -> & Ha). simpl in *. destruct_andb.
    rename select (forallb _ _ = true) into Hf. apply forallb_Forall in Hf.
    clear -IH Ha Hf. induction Ha as [|f x fields values Hx Ha IHa]; simpl; [done|].
    inversion IH as [|?? Hfield IH']; inversion Hf as [|?? Hvf Hf']; subst.
    specialize (Hfield _ _ Hvf Hx). specialize (IHa IH' Hf'). lia.
  - apply accepts_rows in Ha as (rows & -> & Hm & Hmax & Ha & _). simpl in *. destruct_andb.
    assert (sum_Z (map (fun kv => encoded_len kv.1 + encoded_len kv.2) rows)
            <= len rows * (max_value_bytes k + max_value_bytes w)).
    { apply sum_const_le. eapply Forall_impl; [exact Ha|]. intros kv [Hk Hw].
      specialize (IHk _ _ ltac:(eassumption) Hk). specialize (IHw _ _ ltac:(eassumption) Hw). lia. }
    pose proof (max_value_bytes_nonneg k _ ltac:(eassumption)).
    pose proof (max_value_bytes_nonneg w _ ltac:(eassumption)).
    pose proof (len_nonneg rows). nia.
Qed.

Lemma i64_from_le_bytes z : in_i64 z = true -> i64_from_le (le_bytes 8 z) = z.
Proof.
  intros Hz. unfold i64_from_le, wrap_i64. rewrite from_le_bytes.
  change (256 ^ Z.of_nat 8) with (2 ^ 64). rewrite Z.add_mod_idemp_l by done.
  rewrite Z.mod_small; [lia|]. change (2 ^ 63) with 9223372036854775808.
  change (2 ^ 64) with 18446744073709551616. blia.
Qed.

Lemma le_bytes_mod n z : le_bytes n z = le_bytes n (z mod 256 ^ Z.of_nat n).
Proof.
  rewrite <-(le_bytes_from_le n (le_bytes n z)) by apply length_le_bytes.
  by rewrite from_le_bytes.
Qed.

Lemma i64_from_le_inv data :
  len data = 8 -> in_i64 (i64_from_le data) = true /\ le_bytes 8 (i64_from_le data) = data.
Proof.
  intros Hlen. pose proof (from_le_range data) as Hr. rewrite Hlen in Hr.
  unfold i64_from_le, wrap_i64. change (256 ^ 8) with 18446744073709551616 in Hr.
  change (2 ^ 63) with 9223372036854775808. change (2 ^ 64) with 18446744073709551616.
  pose proof (Z.mod_pos_bound (from_le data + 9223372036854775808) 18446744073709551616 ltac:(lia)).
  split; [apply in_i64_spec; unfold i64_min, i64_max; lia|].
  rewrite le_bytes_mod. change (256 ^ Z.of_nat 8) with 18446744073709551616.
  rewrite Zminus_mod_idemp_l. replace (_ + _ - _) with (from_le data) by lia.
  rewrite Z.mod_small by done. apply le_bytes_from_le. unfold len in Hlen. lia.
Qed.

(** [decode_node] reads exactly the bytes [encode_value] wrote for [v]. *)
Definition reads (decode_node : bytes -> Result Error (Value * bytes)) (v : Value) (bs : bytes) : Prop :=
  forall rest, decode_node (bs ++ rest) = Ok (v, rest).

Lemma decode_all_reads decoders values parts rest :
  Forall2 (fun d vp => reads d vp.1 vp.2) decoders (zip values parts) ->
  length decoders = length values -> length values = length parts ->
  decode_all decoders (concat parts ++ rest) = Ok (values, rest).
Proof.
  revert values parts. induction decoders as [|d decoders IH];
    intros [|v values] [|p parts] H Hl1 Hl2; simpl in *; try lia; [done|].
  apply Forall2_cons in H as [Hd H]. rewrite <-app_assoc, Hd. simpl. by rewrite (IH values parts) by (done || lia).
Qed.

(** The last decoded key is below the next one. *)
Definition follows (last : option Value) (rows : list (Value * Value)) : bool :=
  match last, rows with
  | Some previous, row :: _ => cmp_lt previous row.1
  | _, _ => true
  end.

Lemma increasing_rows_cons k v rows :
  increasing_rows ((k, v) :: rows) = follows (Some k) rows && increasing_rows rows.
Proof. by destruct rows. Qed.

Lemma decode_rows_reads dk dw rows rest : forall parts last,
  Forall2 (fun kv p => exists pk pw, p = pk ++ pw /\ reads dk kv.1 pk /\ reads dw kv.2 pw) rows parts ->
  follows last rows && increasing_rows rows = true ->
  decode_rows dk dw (length rows) last (concat parts ++ rest) = Ok (rows, rest).
Proof.
  induction rows as [|[k v] rows IH]; intros parts last H Hinc; inversion H as [|? p ? parts' Hp H']; subst; [done|].
  destruct Hp as (pk & pw & -> & Hk & Hw). apply andb_true_iff in Hinc as [Hfol Hinc].
  rewrite increasing_rows_cons in Hinc. cbn [concat decode_rows length]. rewrite <-!app_assoc, Hk. simpl.
  assert (match last with Some previous => cmp_le k previous | None => false end = false) as ->.
  { destruct last as [p|]; [|done]. simpl in Hfol. by rewrite cmp_le_lt, Hfol. }
  rewrite Hw. simpl. by rewrite (IH parts').
Qed.

Lemma decode_rows_inv dk dw count (Q : Value -> Value -> bytes -> Prop) :
  (forall input k v r1 r2, dk input = Ok (k, r1) -> dw r1 = Ok (v, r2) ->
     exists p, input = p ++ r2 /\ Q k v p) ->
  forall last input rows rest,
  decode_rows dk dw count last input = Ok (rows, rest) ->
  exists parts, input = concat parts ++ rest /\ length rows = count /\
    Forall2 (fun kv p => Q kv.1 kv.2 p) rows parts /\ follows last rows && increasing_rows rows = true.
Proof.
  intros HQ. induction count as [|count IH]; intros last input rows rest H; simpl in H.
  - inv_ok. exists []. repeat split; [constructor|]. by destruct last.
  - step_ok H as [k in1] eqn Hk. destruct (match last with Some _ => _ | None => _ end) eqn:Hlast; [done|].
    step_ok H as [v in2] eqn Hw. step_ok H as [rows' in3] eqn Hrec. inv_ok.
    destruct (HQ _ _ _ _ _ Hk Hw) as (p & -> & Hp).
    apply IH in Hrec as (parts & -> & <- & H2 & Hinc).
    exists (p :: parts). simpl. rewrite app_assoc. split; [done|]. split; [done|].
    split; [by constructor|]. rewrite <-(increasing_rows_cons k v rows') in Hinc. simpl in Hinc.
    rewrite Hinc, andb_true_r. destruct last as [q|]; simpl; [|done].
    rewrite cmp_le_lt in Hlast. by apply negb_false_iff in Hlast.
Qed.

Lemma node_guard ty v bs rest :
  accepts ty v = true -> encode_value (E:=Error) v = Ok bs ->
  (min_value_bytes ty >? len (bs ++ rest)) = false.
Proof.
  intros Ha He. apply gtb_false. apply min_value_bytes_le in Ha. apply encode_value_len in He.
  pose proof (len_nonneg rest). autorewrite with blop. lia.
Qed.

Lemma decode_data_reads {B} (k : bytes -> bytes -> Result Error B) data bound rest :
  len data <= bound -> bound <= u32_max ->
  (let* (length, input) := value_take_le (le_bytes 4 (len data) ++ data ++ rest) 4 in
   if length >? bound then Err (Error_Invalid "value exceeds byte bound") else
   let* (data, input) := value_take input length in k data input) = k data rest.
Proof.
  intros Hb Hu. pose proof (len_nonneg data). rewrite value_take_le_app by (done || blia). simpl.
  rewrite gtb_false by done. by rewrite value_take_app.
Qed.

Lemma min_value_bytes_bounds ty : forall depth,
  valid_type depth ty = true -> 0 <= min_value_bytes ty <= max_value_bytes ty.
Proof.
  induction ty as [| | | |bound|bound|fields IH|m k w IHk IHw] using Ty_ind';
    intros depth Hv; simpl in *; try lia; try blia.
  - destruct_andb. rename select (forallb _ _ = true) into Hf. apply forallb_Forall in Hf.
    split; [apply sum_Z_nonneg, Forall_fmap | apply sum_map_le];
      (eapply Forall_impl; [exact (Forall_conj _ _ _ IH Hf)|]); intros f [Hfield Hvf]; simpl;
      by apply (Hfield (depth + 1)).
  - destruct_andb. specialize (IHk _ ltac:(eassumption)). specialize (IHw _ ltac:(eassumption)).
    bsimp. nia.
Qed.

(** The up-front length check of the Rows decoder passes on an encoding. *)
Lemma rows_minimum k w rows parts rest depth :
  valid_type depth k = true -> valid_type depth w = true -> len rows <= MAX_ROWS ->
  Forall (fun kv => accepts k kv.1 = true /\ accepts w kv.2 = true) rows ->
  mapR (fun kv => let* key := encode_value (E:=Error) kv.1 in
                  let* value := encode_value kv.2 in Ok (key ++ value)) rows = Ok parts ->
  exists minimum,
    (size ← checked_u64 (min_value_bytes k + min_value_bytes w); checked_u64 (size * len rows)) = Some minimum /\
    (minimum >? len (concat parts ++ rest)) = false.
Proof.
  intros Hk Hw Hmax Ha Hp.
  apply min_value_bytes_bounds in Hk as Bk. apply min_value_bytes_bounds in Hw as Bw.
  apply valid_type_max in Hk, Hw. unfold MAX_VALUE_BYTES, MAX_ROWS in *. pose proof (len_nonneg rows).
  eexists. split.
  - rewrite (proj2 (checked_u64_Some (min_value_bytes k + min_value_bytes w) _)) by (split; [done | blia]).
    simpl. apply checked_u64_Some. split; [done|]. unfold u64_max. nia.
  - apply gtb_false. rewrite len_app. pose proof (len_nonneg rest).
    erewrite mapR_len_concat with (g := fun kv => encoded_len kv.1 + encoded_len kv.2); [| |done].
    + enough (len rows * (min_value_bytes k + min_value_bytes w) <=
        sum_Z (map (fun kv => encoded_len kv.1 + encoded_len kv.2) rows)) by lia.
      apply sum_const_ge. eapply Forall_impl; [exact Ha|]. intros kv [Hx Hy].
      apply min_value_bytes_le in Hx, Hy. lia.
    + apply Forall_true. intros kv bs Hb. inv_ok. autorewrite with blop.
      f_equal; by apply (encode_value_len (E:=Error)).
Qed.

Lemma decode_value_node_reads ty : forall depth v bs,
  valid_type depth ty = true -> accepts ty v = true -> value_wf v = true ->
  encode_value (E:=Error) v = Ok bs -> reads (decode_value_node ty) v bs.
Proof.
  induction ty as [| | | |bound|bound|fields IH|m k w IHk IHw] using Ty_ind';
    intros depth v bs Hv Ha Hwf He rest; pose proof (node_guard _ _ _ rest Ha He) as Hguard.
  1-4: destruct v; simpl in Ha, Hwf, He; try done; cbn [decode_value_node]; rewrite Hguard; inv_ok.
  - done.
  - destruct b; simpl; by rewrite value_take_byte_cons.
  - rewrite value_take_app by done. simpl. by rewrite i64_from_le_bytes.
  - rewrite value_take_app by done. simpl. rewrite from_le_bytes_small; [done|].
    change (256 ^ Z.of_nat 8) with 18446744073709551616. blia.
  - destruct v; simpl in Ha, Hv, He; try done. cbn [decode_value_node]; rewrite Hguard.
    unfold encode_data in He. inv_ok. rewrite <-app_assoc.
    apply (decode_data_reads (fun data input => Ok (Value_Bytes data, input))); blia.
  - destruct v; simpl in Ha, Hv, He, Hwf; try done. cbn [decode_value_node]; rewrite Hguard.
    unfold encode_data in He. inv_ok. rewrite <-app_assoc.
    rewrite (decode_data_reads (fun data input => if utf8_valid data then Ok (Value_String data, input)
      else Err (Error_Invalid "invalid UTF-8"))) by blia. by rewrite Hwf.
  - apply accepts_tuple in Ha as (values & -> & Ha). cbn [decode_value_node]; rewrite Hguard.
    simpl in He, Hwf, Hv. step_ok He as parts eqn Hparts. inv_ok. apply mapR_Forall2 in Hparts.
    destruct_andb. rename select (forallb (valid_type _) _ = true) into Hf.
    apply forallb_Forall in Hf, Hwf. rewrite (decode_all_reads _ values parts); [done|..].
    + apply Forall2_fmap_l. clear -IH Ha Hf Hwf Hparts. revert parts Hparts.
      induction Ha as [|f x fields values Hx Ha IHa]; intros parts Hparts;
        inversion Hparts; subst; constructor; inversion IH; inversion Hf; inversion Hwf; subst; eauto.
    + rewrite length_map. by apply Forall2_length in Ha.
    + by apply Forall2_length in Hparts.
  - apply accepts_rows in Ha as (rows & -> & Hm & Hmax & Ha & Hinc). cbn [decode_value_node]; rewrite Hguard.
    simpl in He, Hwf, Hv. destruct (len rows >? u32_max) eqn:Elen; [done|].
    step_ok He as parts eqn Hparts. inv_ok. rewrite <-app_assoc.
    pose proof (len_nonneg rows) as Hpos. rewrite value_take_le_app by (done || blia). simpl.
    rewrite !gtb_false by done. simpl. destruct_andb.
    destruct (rows_minimum k w rows parts rest (depth + 1)) as (minimum & -> & Hmin); [done..|].
    simpl. rewrite Hmin. unfold len. rewrite Nat2Z.id, decode_rows_reads; [done| |done].
    apply mapR_Forall2 in Hparts. apply forallb_Forall in Hwf.
    eapply Forall2_impl; [exact (Forall2_conj_l _ _ _ _ Hparts (Forall_conj _ _ _ Ha Hwf))|].
    simpl. intros [x y] p (Hp & [Hx Hy] & Hxy). simpl in *. apply andb_true_iff in Hxy as [Hwx Hwy].
    step_ok Hp as px eqn Hpx. step_ok Hp as py eqn Hpy. inv_ok. exists px, py. eauto.
Qed.

(** The value [v] of type [ty] was decoded from the bytes [used]. *)
Definition decodes (ty : Ty) (v : Value) (used : bytes) : Prop :=
  encode_value (E:=Error) v = Ok used /\ accepts ty v = true /\ value_wf v = true.

Lemma decode_all_inv fields : forall input values rest,
  Forall (fun f => forall input v rest, decode_value_node f input = Ok (v, rest) ->
    exists used, input = used ++ rest /\ decodes f v used) fields ->
  decode_all (map decode_value_node fields) input = Ok (values, rest) ->
  exists used, input = used ++ rest /\ decodes (Type_Tuple fields) (Value_Tuple values) used.
Proof.
  intros input values rest HF H.
  enough (exists parts, input = concat parts ++ rest /\ mapR (encode_value (E:=Error)) values = Ok parts /\
    Forall2 (fun f x => accepts f x = true) fields values /\ forallb value_wf values = true)
    as (parts & -> & Hp & Ha & Hwf).
  { exists (concat parts). split; [done|]. unfold decodes. simpl. rewrite Hp, Hwf.
    split; [done|]. split; [|done]. by apply zip_all_Forall2. }
  revert input values rest H. induction HF as [|f fields Hf HF IH]; intros input values rest H; simpl in H.
  - inv_ok. by exists [].
  - step_ok H as [v in1] eqn Hv. step_ok H as [vs in2] eqn Hvs. inv_ok.
    apply Hf in Hv as (used & -> & He & Ha & Hwf).
    apply IH in Hvs as (parts & -> & Hp & Has & Hwfs).
    exists (used :: parts). simpl. rewrite <-app_assoc, He, Hwf. simpl. rewrite Hp. by repeat split; [constructor|].
Qed.

Lemma decode_data_inv {B} (k : bytes -> bytes -> Result Error B) input bound b :
  (let* (length, input) := value_take_le input 4 in
   if length >? bound then Err (Error_Invalid "value exceeds byte bound") else
   let* (data, input) := value_take input length in k data input) = Ok b ->
  exists data rest, input = (le_bytes 4 (len data) ++ data) ++ rest /\ k data rest = Ok b /\
    len data <= bound /\ len data <= u32_max.
Proof.
  intros H. step_ok H as [length in1] eqn Hl. apply value_take_le_inv in Hl as [-> Hl]; [|done].
  destruct (length >? bound) eqn:Eb; [done|].
  step_ok H as [data in2] eqn Hd. apply value_take_inv in Hd as [-> <-]; [|lia].
  exists data, in2. rewrite <-app_assoc. split; [done|]. split; [done|].
  split; [blia|]. unfold u32_max. change (256 ^ 4) with 4294967296 in Hl. lia.
Qed.

Lemma decode_rows_decodes k w m count input rows rest :
  (forall input v rest, decode_value_node k input = Ok (v, rest) ->
    exists used, input = used ++ rest /\ decodes k v used) ->
  (forall input v rest, decode_value_node w input = Ok (v, rest) ->
    exists used, input = used ++ rest /\ decodes w v used) ->
  0 <= count -> count <= m -> count <= MAX_ROWS ->
  decode_rows (decode_value_node k) (decode_value_node w) (Z.to_nat count) None input = Ok (rows, rest) ->
  exists used, input = used ++ rest /\ len rows = count /\
    decodes (Type_Rows m k w) (Value_Rows rows) (le_bytes 4 count ++ used).
Proof.
  intros Hk Hw H0 Hm Hmax H.
  apply (decode_rows_inv _ _ _ (fun x y p => exists px py, p = px ++ py /\ decodes k x px /\ decodes w y py)) in H.
  - destruct H as (parts & -> & Hlen & H2 & Hinc). exists (concat parts).
    assert (len rows = count) as Hc by (unfold len; rewrite Hlen; lia). split; [done|]. split; [done|].
    split; [|split].
    + simpl. rewrite gtb_false by (unfold u32_max, MAX_ROWS in *; lia). rewrite Hc.
      erewrite (proj2 (mapR_Forall2 _ _ _)); [done|].
      eapply Forall2_impl; [exact H2|]. intros [x y] p (px & py & -> & [Hx _] & [Hy _]); simpl in *.
      by rewrite Hx, Hy.
    + apply accepts_rows. exists rows. rewrite Hc. repeat split; try done.
      clear -H2. induction H2 as [|kv p rows parts (px & py & _ & Hx & Hy)]; constructor; [|done].
      split; [apply Hx | apply Hy].
    + simpl. apply forallb_Forall.
      clear -H2. induction H2 as [|kv p rows parts (px & py & _ & (_ & _ & Hx) & (_ & _ & Hy))]; constructor; [|done].
      by rewrite Hx, Hy.
  - intros input' x y r1 r2 Hx Hy. apply Hk in Hx as (px & -> & Hx). apply Hw in Hy as (py & -> & Hy).
    exists (px ++ py). rewrite app_assoc. split; [done|]. by exists px, py.
Qed.

Lemma decode_value_node_inv ty : forall input v rest,
  decode_value_node ty input = Ok (v, rest) ->
  exists used, input = used ++ rest /\ decodes ty v used.
Proof.
  induction ty as [| | | |bound|bound|fields IH|m k w IHk IHw] using Ty_ind';
    intros input v rest H; cbn [decode_value_node] in H; destruct (_ >? len input); try done.
  - inv_ok. by exists [].
  - step_ok H as [b in1] eqn Hb. apply value_take_byte_inv in Hb as ->.
    case_byte b H; inv_ok; by eexists [_].
  - step_ok H as [data in1] eqn Hd. apply value_take_inv in Hd as [-> Hlen]; [|done]. inv_ok.
    apply i64_from_le_inv in Hlen as [Hwf He]. exists data. split; [done|]. unfold decodes. simpl. by rewrite He, Hwf.
  - step_ok H as [data in1] eqn Hd. apply value_take_inv in Hd as [-> Hlen]; [|done]. inv_ok.
    exists data. split; [done|]. unfold decodes. simpl.
    rewrite le_bytes_from_le by (unfold len in Hlen; lia). split; [done|]. split; [done|].
    apply in_u64_spec. pose proof (from_le_range data) as Hr. rewrite Hlen in Hr.
    change (256 ^ 8) with 18446744073709551616 in Hr. unfold u64_max. lia.
  - apply decode_data_inv in H as (data & in1 & -> & H & Hb & Hu). inv_ok.
    eexists. split; [done|]. unfold decodes. simpl. unfold encode_data.
    rewrite gtb_false by done. split; [done|]. split; [by apply Z.leb_le | done].
  - apply (decode_data_inv (fun data input => if utf8_valid data then Ok (Value_String data, input)
      else Err (Error_Invalid "invalid UTF-8"))) in H as (data & in1 & -> & H & Hb & Hu).
    destruct (utf8_valid data) eqn:Eu; inv_ok.
    eexists. split; [done|]. unfold decodes. simpl. unfold encode_data.
    rewrite gtb_false, Eu by done. split; [done|]. split; [by apply Z.leb_le | done].
  - step_ok H as [values in1] eqn Hv. inv_ok. by apply decode_all_inv.
  - step_ok H as [count in1] eqn Hc. apply value_take_le_inv in Hc as [-> Hc]; [|done].
    destruct (_ || _) eqn:Ebound; [done|]. apply orb_false_iff in Ebound as [Em Emax].
    step_ok H as minimum eqn Hmin. destruct (minimum >? len in1); [done|].
    step_ok H as [rows in2] eqn Hr. inv_ok.
    apply (decode_rows_decodes k w m count) in Hr as (used & -> & _ & Hd); try done; try blia.
    eexists. split; [by rewrite app_assoc | done].
Qed.

(** [decode_value] inverts [Value::encode] on well-formed accepted values and accepts nothing else. *)
Lemma decode_value_iff ty depth data v :
  valid_type depth ty = true ->
  decode_value ty data = Ok v <->
  encode (E:=Error) v = Ok data /\ accepts ty v = true /\ value_wf v = true.
Proof.
  intros Hv. unfold decode_value, encode. split.
  - destruct (_ || _); [done|]. intros H. step_ok H as [v' in1] eqn Hd. destruct in1; inv_ok.
    apply decode_value_node_inv in Hd as (used & -> & Hd). rewrite app_nil_r. done.
  - intros (He & Ha & Hwf). pose proof (encoded_len_le _ _ _ Hv Ha).
    pose proof (valid_type_max _ _ Hv). pose proof (encode_value_len _ _ He).
    rewrite !gtb_false by lia. simpl.
    pose proof (decode_value_node_reads _ _ _ _ Hv Ha Hwf He []) as Hr.
    rewrite app_nil_r in Hr. by rewrite Hr.
Qed.

Lemma decode_value_node_no_panic ty : forall input, no_panic (decode_value_node ty input).
Proof.
  induction ty as [| | | |bound|bound|fields IH|m k w IHk IHw] using Ty_ind';
    intros input; cbn [decode_value_node]; destruct (_ >? len input); try done.
  - apply bindR_no_panic; [apply value_take_byte_no_panic|]. by intros [[] ?] _.
  - apply bindR_no_panic; [apply value_take_no_panic | by intros []].
  - apply bindR_no_panic; [apply value_take_no_panic | by intros []].
  - apply bindR_no_panic; [apply value_take_le_no_panic|]. intros [l in1] _. destruct (_ >? _); [done|].
    apply bindR_no_panic; [apply value_take_no_panic | by intros []].
  - apply bindR_no_panic; [apply value_take_le_no_panic|]. intros [l in1] _. destruct (_ >? _); [done|].
    apply bindR_no_panic; [apply value_take_no_panic|]. intros [data in2] _. by destruct (utf8_valid _).
  - apply bindR_no_panic; [|by intros []]. revert input.
    induction IH as [|f fields Hf IH IH2]; intros input; simpl; [done|].
    apply bindR_no_panic; [apply Hf|]. intros [v in1] _.
    apply bindR_no_panic; [apply IH2 | by intros []].
  - apply bindR_no_panic; [apply value_take_le_no_panic|]. intros [c in1] _. destruct (_ || _); [done|].
    apply bindR_no_panic; [by destruct (_ ≫= _)|]. intros minimum _. destruct (_ >? _); [done|].
    apply bindR_no_panic; [|by intros []].
    generalize (@None Value), (Z.to_nat c), in1. clear -IHk IHw. intros last n. revert last.
    induction n as [|n IH]; intros last in1; simpl; [done|].
    apply bindR_no_panic; [apply IHk|]. intros [x in2] _. destruct (match last with Some _ => _ | None => _ end); [done|].
    apply bindR_no_panic; [apply IHw|]. intros [y in3] _.
    apply bindR_no_panic; [apply IH | by intros []].
Qed.

Lemma decode_value_no_panic ty data : no_panic (decode_value ty data).
Proof.
  unfold decode_value. destruct (_ || _); [done|].
  apply bindR_no_panic; [apply decode_value_node_no_panic|]. by intros [v []] _.
Qed.

(** ** The encoders succeed alike at every error type *)
Lemma mapR_any {E F A B} (f : A -> Result E B) (g : A -> Result F B) l ys :
  Forall (fun x => forall y, f x = Ok y -> g x = Ok y) l -> mapR f l = Ok ys -> mapR g l = Ok ys.
Proof.
  intros Hl H%mapR_Forall2. apply mapR_Forall2.
  induction H; inversion Hl; subst; constructor; auto.
Qed.

Lemma encode_type_any {E F} ty data : encode_type (E:=E) ty = Ok data -> encode_type (E:=F) ty = Ok data.
Proof.
  revert data. induction ty as [| | | | | |fields IH|m k w IHk IHw] using Ty_ind'; intros data H; simpl in *;
    try (by injection H as <-).
  - step_if H. step_ok H as parts eqn Hp. injection H as <-. by erewrite mapR_any.
  - step_ok H as kb eqn Hk. step_ok H as wb eqn Hw. injection H as <-.
    by rewrite (IHk _ Hk), (IHw _ Hw).
Qed.

Lemma descriptor_any {E F} ty data : descriptor (E:=E) ty = Ok data -> descriptor (E:=F) ty = Ok data.
Proof. unfold descriptor. intros H. step_ok H as body eqn Hb. injection H as <-. by rewrite (encode_type_any _ _ Hb). Qed.

Lemma encode_value_any {E F} v data : encode_value (E:=E) v = Ok data -> encode_value (E:=F) v = Ok data.
Proof.
  revert data. induction v as [| | | |d|d|fields IH|rows IH] using Value_ind'; intros data H; simpl in *;
    try (by injection H as <-).
  1-2: unfold encode_data in *; step_if H; by injection H as <-.
  - step_ok H as parts eqn Hp. injection H as <-. by erewrite mapR_any.
  - step_if H. step_ok H as parts eqn Hp. injection H as <-. erewrite mapR_any; [done| |exact Hp].
    eapply Forall_impl; [exact IH|]. intros [k w] [IHk IHw] y Hy. simpl in *.
    step_ok Hy as kb eqn Hk. step_ok Hy as wb eqn Hw. injection Hy as <-.
    by rewrite (IHk _ Hk), (IHw _ Hw).
Qed.

Lemma encode_any {E F} v data : encode (E:=E) v = Ok data -> encode (E:=F) v = Ok data.
Proof. apply encode_value_any. Qed.
