(* ===== verification/Encoding.v ===== *)
(** * Storage schemas and ordered keys ([src/src/storage/encoding.rs])

    [Schema] is the storage layer's own view of a type descriptor;
    [encode_key] turns a schema-encoded value into bytes whose unsigned
    lexicographic order is the order of the values, [decode_key] turns it
    back, and [escape_into]/[unescape] are the framing of byte strings. *)
From S2P Require Import Prelude Errors Value.

Definition MAX_KEY_BYTES : Z := 1024.

Inductive TypeNode : Type :=
| Node_Unit
| Node_Boolean
| Node_I64
| Node_U64
| Node_Bytes (bound : Z)
| Node_String (bound : Z)
| Node_Tuple (fields : list TypeNode).

Record Schema : Type := {
  schema_descriptor_bytes : bytes;
  schema_node : TypeNode;
  schema_max_value_bytes : Z;
  schema_max_key_bytes : Z }.

Definition schema_take (input : bytes) (length : Z) : Result StorageError (bytes * bytes) :=
  ok_or (InvalidInput "truncated schema, value, or key") (split_at length input).

Definition schema_take_le (input : bytes) (n : Z) : Result StorageError (Z * bytes) :=
  let* (data, input) := schema_take input n in
  Ok (from_le data, input).

Definition schema_take_byte (input : bytes) : Result StorageError (byte * bytes) :=
  let* (data, input) := schema_take input 1 in
  let* tag := expect (head data) in
  Ok (tag, input).

Section decode_node_fields.
Context (decode_field : bytes -> Result StorageError ((TypeNode * Z * Z) * bytes)).
Fixpoint decode_node_fields (count : nat) (value_bytes key_bytes : Z) (input : bytes)
    : Result StorageError ((list TypeNode * Z * Z) * bytes) :=
  match count with
  | O => Ok ([], value_bytes, key_bytes, input)
  | S count =>
      let* ((field, value_size, key_size), input) := decode_field input in
      let* value_bytes := ok_or (InvalidInput "schema value size exceeds 16 MiB")
                            (bounded_add value_bytes value_size) in
      let* key_bytes := ok_or (InvalidInput "schema key size overflow")
                          (checked_u64 (key_bytes + key_size)) in
      let* ((fields, value_bytes, key_bytes), input) :=
        decode_node_fields count value_bytes key_bytes input in
      Ok (field :: fields, value_bytes, key_bytes, input)
  end.
End decode_node_fields.

(** The node with its maximum value and key sizes; [fuel] as in [decode_type]. *)
Fixpoint decode_node (fuel : nat) (input : bytes) (depth : Z)
    : Result StorageError ((TypeNode * Z * Z) * bytes) :=
  if depth >? 16 then Err (InvalidInput "schema nesting exceeds depth 16") else
  match fuel with
  | O => Panic
  | S fuel =>
    let* (tag, input) := schema_take_byte input in
    let* ((node, value_bytes, key_bytes), input) :=
      match tag with
      | x00 => Ok (Node_Unit, 0, 0, input)
      | x01 => Ok (Node_Boolean, 1, 1, input)
      | x02 => Ok (Node_I64, 8, 8, input)
      | x03 => Ok (Node_U64, 8, 8, input)
      | x04 | x05 =>
          let* (bound, input) := schema_take_le input 4 in
          let* value_bytes := ok_or (InvalidInput "schema value size overflow")
                                (checked_u64 (bound + 4)) in
          let* key_bytes := ok_or (InvalidInput "schema key size overflow")
            (size ← checked_u64 (bound * 2); checked_u64 (size + 2)) in
          let node := if byte_eq_dec tag x04 then Node_Bytes bound else Node_String bound in
          Ok (node, value_bytes, key_bytes, input)
      | x06 =>
          let* (count, input) := schema_take_le input 2 in
          if count >? 256 then Err (InvalidInput "tuple exceeds 256 fields") else
          if count >? len input then Err (InvalidInput "truncated tuple descriptor") else
          let* ((fields, value_bytes, key_bytes), input) :=
            decode_node_fields (fun input => decode_node fuel input (depth + 1))
              (Z.to_nat count) 0 0 input in
          Ok (Node_Tuple fields, value_bytes, key_bytes, input)
      | x20 => Err (InvalidInput "Rows is not a storage schema type")
      | _ => Err (InvalidInput "unknown schema type tag")
      end in
    if value_bytes >? MAX_VALUE_BYTES
    then Err (InvalidInput "schema value size exceeds 16 MiB") else
    Ok (node, value_bytes, key_bytes, input)
  end.

(** [Schema::decode] *)
Definition Schema_decode (data : bytes) : Result StorageError Schema :=
  if len data >? MAX_DESCRIPTOR_BYTES then
    Err (InvalidInput "schema descriptor exceeds 65,536 bytes") else
  let* (version, input) := schema_take_le data 2 in
  if negb (version =? 1) then Err (StorageUnsupported "schema" version) else
  let* ((node, max_value_bytes, max_key_bytes), input) := decode_node 17 input 1 in
  match input with
  | [] => Ok {| schema_descriptor_bytes := data; schema_node := node;
                schema_max_value_bytes := max_value_bytes;
                schema_max_key_bytes := max_key_bytes |}
  | _ => Err (InvalidInput "trailing schema descriptor bytes")
  end.

(** *** Escaped byte strings *)

(** The bytes [escape_into] appends: [00] becomes [00 ff], the end is [00 00]. *)
Fixpoint escape (data : bytes) : bytes :=
  match data with
  | [] => [x00; x00]
  | b :: data => b :: (if byte_eq_dec b x00 then [xff] else []) ++ escape data
  end.
Definition escape_into (data encoded : bytes) : bytes := encoded ++ escape data.

(** The [loop] of [unescape] with its remaining input. *)
Fixpoint unescape_loop (input : bytes) : Result StorageError (bytes * bytes) :=
  match input with
  | [] => Err (InvalidInput "truncated schema, value, or key")
  | x00 :: input =>
      match input with
      | [] => Err (InvalidInput "truncated schema, value, or key")
      | x00 :: input => Ok ([], input)
      | xff :: input =>
          let* (data, input) := unescape_loop input in Ok (x00 :: data, input)
      | _ => Err (InvalidInput "invalid key escape")
      end
  | b :: input => let* (data, input) := unescape_loop input in Ok (b :: data, input)
  end.

(** The decoded bytes and how many encoded bytes they took. *)
Definition unescape (encoded : bytes) : Result StorageError (bytes * Z) :=
  let* (data, input) := unescape_loop encoded in
  Ok (data, len encoded - len input).

(** *** Reading values *)
Definition push (key : option bytes) (data : bytes) : option bytes :=
  match key with Some key => Some (key ++ data) | None => None end.

Section read_fields.
Context {N S : Type} (read : N -> bytes -> S -> Result StorageError (bytes * S)).
Fixpoint read_fields (fields : list N) (input : bytes) (out : S)
    : Result StorageError (bytes * S) :=
  match fields with
  | [] => Ok (input, out)
  | field :: fields =>
      let* (input, out) := read field input out in
      read_fields fields input out
  end.
End read_fields.

Fixpoint read_value (node : TypeNode) (input : bytes) (key : option bytes) {struct node}
    : Result StorageError (bytes * option bytes) :=
  match node with
  | Node_Unit => Ok (input, key)
  | Node_Boolean =>
      let* (b, input) := schema_take_byte input in
      if byte_Z b >? 1 then Err (InvalidInput "invalid Boolean value") else
      Ok (input, push key [b])
  | Node_I64 =>
      let* (number, input) := schema_take_le input 8 in
      Ok (input, push key (be_bytes 8 (Z.lxor number (Z.shiftl 1 63))))
  | Node_U64 =>
      let* (number, input) := schema_take_le input 8 in
      Ok (input, push key (be_bytes 8 number))
  | Node_Bytes bound =>
      let* (length, input) := schema_take_le input 4 in
      if length >? bound then Err (InvalidInput "byte length exceeds schema bound") else
      let* (data, input) := schema_take input length in
      Ok (input, match key with Some key => Some (escape_into data key) | None => None end)
  | Node_String bound =>
      let* (length, input) := schema_take_le input 4 in
      if length >? bound then Err (InvalidInput "byte length exceeds schema bound") else
      let* (data, input) := schema_take input length in
      if negb (utf8_valid data) then Err (InvalidInput "invalid UTF-8 string") else
      Ok (input, match key with Some key => Some (escape_into data key) | None => None end)
  | Node_Tuple fields => read_fields read_value fields input key
  end.

Definition validate_value (schema : Schema) (value : bytes) : Result StorageError unit :=
  if len value >? schema_max_value_bytes schema
  then Err (InvalidInput "value exceeds schema maximum size") else
  let* (input, _) := read_value (schema_node schema) value None in
  match input with
  | [] => Ok tt
  | _ => Err (InvalidInput "trailing value bytes")
  end.

Definition encode_key (schema : Schema) (value : bytes) : Result StorageError bytes :=
  if schema_max_key_bytes schema >? MAX_KEY_BYTES
  then Err (InvalidInput "schema key size exceeds 1,024 bytes") else
  if len value >? schema_max_value_bytes schema
  then Err (InvalidInput "value exceeds schema maximum size") else
  let* (input, key) := read_value (schema_node schema) value (Some []) in
  match input with
  | [] => expect key
  | _ => Err (InvalidInput "trailing value bytes")
  end.

(** *** Reading keys *)
Fixpoint read_key (node : TypeNode) (input value : bytes) {struct node}
    : Result StorageError (bytes * bytes) :=
  match node with
  | Node_Unit => Ok (input, value)
  | Node_Boolean =>
      let* (b, input) := schema_take_byte input in
      if byte_Z b >? 1 then Err (InvalidInput "invalid Boolean key") else
      Ok (input, value ++ [b])
  | Node_I64 =>
      let* (data, input) := schema_take input 8 in
      Ok (input, value ++ le_bytes 8 (Z.lxor (from_be data) (Z.shiftl 1 63)))
  | Node_U64 =>
      let* (data, input) := schema_take input 8 in
      Ok (input, value ++ le_bytes 8 (from_be data))
  | Node_Bytes bound =>
      let* (data, consumed) := unescape input in
      if len data >? bound then Err (InvalidInput "byte length exceeds schema bound") else
      Ok (drop (Z.to_nat consumed) input, value ++ le_bytes 4 (len data) ++ data)
  | Node_String bound =>
      let* (data, consumed) := unescape input in
      if len data >? bound then Err (InvalidInput "byte length exceeds schema bound") else
      if negb (utf8_valid data) then Err (InvalidInput "invalid UTF-8 string") else
      Ok (drop (Z.to_nat consumed) input, value ++ le_bytes 4 (len data) ++ data)
  | Node_Tuple fields => read_fields read_key fields input value
  end.

Definition decode_key (schema : Schema) (key : bytes) : Result StorageError bytes :=
  if schema_max_key_bytes schema >? MAX_KEY_BYTES
  then Err (InvalidInput "schema key size exceeds 1,024 bytes") else
  if len key >? schema_max_key_bytes schema
  then Err (InvalidInput "key exceeds schema maximum size") else
  let* (input, value) := read_key (schema_node schema) key [] in
  match input with
  | [] => Ok value
  | _ => Err (InvalidInput "trailing key bytes")
  end.

(** ** Specification

    The node and key size of a type, and the key of a value. *)
Fixpoint node_of (ty : Ty) : option TypeNode :=
  match ty with
  | Type_Unit => Some Node_Unit
  | Type_Boolean => Some Node_Boolean
  | Type_I64 => Some Node_I64
  | Type_U64 => Some Node_U64
  | Type_Bytes bound => Some (Node_Bytes bound)
  | Type_String bound => Some (Node_String bound)
  | Type_Tuple fields => Node_Tuple <$> mapM node_of fields
  | Type_Rows _ _ _ => None
  end.

Fixpoint max_key_bytes (ty : Ty) : Z :=
  match ty with
  | Type_Unit => 0
  | Type_Boolean => 1
  | Type_I64 | Type_U64 => 8
  | Type_Bytes bound | Type_String bound => 2 * bound + 2
  | Type_Tuple fields => sum_Z (map max_key_bytes fields)
  | Type_Rows _ _ _ => 0
  end.

Fixpoint key_of (v : Value) : bytes :=
  match v with
  | Value_Unit => []
  | Value_Boolean b => [if b then x01 else x00]
  | Value_I64 z => be_bytes 8 (z + 2 ^ 63)
  | Value_U64 z => be_bytes 8 z
  | Value_Bytes data | Value_String data => escape data
  | Value_Tuple fields => concat (map key_of fields)
  | Value_Rows _ => []
  end.
