(* ===== verification/EncodingFacts.v ===== *)
(** * Facts about schemas and ordered keys

    [Schema_decode] agrees with [Type::decode] on storage types, the key codec
    is a bijection between canonical keys and values, and byte order of keys
    is the order of values. *)
From S2P Require Import Prelude Errors Value ValueFacts Encoding.

#[global] Arguments schema_take : simpl never.
#[global] Arguments schema_take_le : simpl never.
#[global] Arguments schema_take_byte : simpl never.
#[global] Arguments Z.shiftl : simpl never.
#[global] Arguments Z.lxor : simpl never.

(** ** Escaping *)
Lemma unescape_loop_escape data rest : unescape_loop (escape data ++ rest) = Ok (data, rest).
Proof.
  induction data as [|b data IH]; [done|]. simpl. destruct (byte_eq_dec b x00) as [->|Hb]; simpl.
  - by rewrite IH.
  - rewrite IH. by destruct b.
Qed.

Lemma unescape_loop_inv n : forall input data rest,
  (length input <= n)%nat -> unescape_loop input = Ok (data, rest) -> input = escape data ++ rest.
Proof.
  induction n as [|n IH]; intros [|b input] data rest Hn H; simpl in *; try lia; try done.
  destruct (byte_eq_dec b x00) as [->|Hb].
  - destruct input as [|c input]; [done|]. simpl in Hn. case_byte c H; inv_ok; [done|].
    apply IH in Ha as ->; [done|lia].
  - assert ((let* (data, input) := unescape_loop input in Ok (b :: data, input)) = Ok (data, rest)) as H'.
    { by destruct b. }
    clear H. step_ok H' as [data' in1] eqn Hd. inv_ok. apply IH in Hd as ->; [|lia].
    simpl. by destruct (byte_eq_dec b x00).
Qed.

Lemma unescape_loop_no_panic n : forall input, (length input <= n)%nat -> no_panic (unescape_loop input).
Proof.
  assert (forall b m, no_panic m -> no_panic (E:=StorageError) (let* (data, input) := m in Ok (b :: data, input) : Result _ (bytes * bytes))) as Hcons.
  { intros b m Hm. apply bindR_no_panic; [done|by intros [] _]. }
  induction n as [|n IH]; intros [|b input] Hn; simpl in Hn; try lia; try done.
  destruct (byte_eq_dec b x00) as [->|Hb].
  - destruct input as [|c input]; [done|]. simpl in Hn. assert (no_panic (unescape_loop input)) as Hi by (apply IH; lia).
    pose proof (Hcons x00 _ Hi) as Hc. by destruct c.
  - assert (no_panic (unescape_loop input)) as Hi by (apply IH; lia). pose proof (Hcons b _ Hi) as Hc. by destruct b.
Qed.
Lemma unescape_no_panic encoded : no_panic (unescape encoded).
Proof. unfold unescape. apply bindR_no_panic; [by eapply unescape_loop_no_panic|by intros [] _]. Qed.

Lemma unescape_escape data rest : unescape (escape data ++ rest) = Ok (data, len (escape data)).
Proof. unfold unescape. rewrite unescape_loop_escape. simpl. do 2 f_equal. autorewrite with blop. lia. Qed.

Lemma unescape_inv encoded data consumed :
  unescape encoded = Ok (data, consumed) ->
  exists rest, encoded = escape data ++ rest /\ consumed = len (escape data).
Proof.
  unfold unescape. intros H. step_ok H as [d rest] eqn Hd. inv_ok.
  apply (unescape_loop_inv _ _ _ _ (le_n _)) in Hd as ->. exists rest. split; [done|].
  autorewrite with blop. lia.
Qed.

Lemma len_escape data : len data + 2 <= len (escape data) <= 2 * len data + 2.
Proof.
  induction data as [|b data IH]; [done|]. simpl. destruct (byte_eq_dec b x00); simpl;
    autorewrite with blop; lia.
Qed.

Lemma cmp_cons {A} `{Cmp A} (x y : A) l k : cmp (x :: l) (y :: k) = lex (cmp x y) (cmp l k).
Proof. done. Qed.

Lemma cmp_x00 b : b <> x00 -> cmp x00 b = Lt.
Proof. intros Hb. destruct b; done. Qed.

(** Escaped frames compare like the strings they frame, whatever follows. *)
Lemma cmp_escape a : forall b r1 r2,
  cmp (escape a ++ r1) (escape b ++ r2) = lex (cmp a b) (cmp r1 r2).
Proof.
  induction a as [|x a IH]; intros [|y b] r1 r2.
  - simpl. by rewrite !cmp_cons, !cmp_refl.
  - simpl. rewrite cmp_cons. destruct (byte_eq_dec y x00) as [->|Hy].
    + by rewrite cmp_refl.
    + by rewrite cmp_x00.
  - simpl. rewrite cmp_cons. destruct (byte_eq_dec x x00) as [->|Hx].
    + by rewrite cmp_refl.
    + rewrite (cmp_antisym x00 x), cmp_x00 by done. done.
  - simpl. rewrite !cmp_cons. destruct (cmp x y) eqn:E; simpl; try done.
    apply cmp_eq in E as ->. rewrite <-!app_assoc, cmp_app_same. apply IH.
Qed.

(** ** Flipping the sign bit *)
Lemma lxor_sign n : 0 <= n < 2 ^ 64 -> Z.lxor n (Z.shiftl 1 63) = (n + 2 ^ 63) mod 2 ^ 64.
Proof.
  intros Hn. rewrite Z.shiftl_1_l.
  assert (forall m, 0 <= m < 2 ^ 63 -> Z.lxor m (2 ^ 63) = m + 2 ^ 63) as Hlow.
  { intros m Hm. symmetry. apply Z.add_nocarry_lxor. apply Z.bits_inj'. intros i Hi.
    rewrite Z.land_spec, Z.pow2_bits_eqb, Z.bits_0 by lia.
    destruct (Z.eqb_spec 63 i) as [<-|]; [|by rewrite andb_false_r].
    rewrite Z.bits_above_log2; [done|lia|]. destruct (Z.eq_dec m 0) as [->|]; [done|].
    apply Z.log2_lt_pow2; lia. }
  assert (2 ^ 64 = 2 ^ 63 + 2 ^ 63) as H64 by done.
  destruct (Z.lt_ge_cases n (2 ^ 63)).
  - rewrite Hlow, Z.mod_small by lia. done.
  - replace n with (Z.lxor (n - 2 ^ 63) (2 ^ 63)) at 1 by (rewrite Hlow by lia; lia).
    rewrite Z.lxor_assoc, Z.lxor_nilpotent, Z.lxor_0_r.
    replace (n + 2 ^ 63) with (n - 2 ^ 63 + 1 * 2 ^ 64) by lia.
    rewrite Z.mod_add, Z.mod_small by lia. done.
Qed.

Lemma i64_key_bits z :
  in_i64 z = true -> Z.lxor (from_le (le_bytes 8 z)) (Z.shiftl 1 63) = z + 2 ^ 63.
Proof.
  intros Hz. rewrite from_le_bytes. change (256 ^ Z.of_nat 8) with (2 ^ 64).
  rewrite lxor_sign by (apply Z.mod_pos_bound; done). rewrite Zplus_mod_idemp_l.
  apply Z.mod_small. change (2 ^ 63) with 9223372036854775808. change (2 ^ 64) with 18446744073709551616. blia.
Qed.

Lemma i64_value_bits z :
  in_i64 z = true -> le_bytes 8 (Z.lxor (from_be (be_bytes 8 (z + 2 ^ 63))) (Z.shiftl 1 63)) = le_bytes 8 z.
Proof.
  intros Hz. assert (0 <= z + 2 ^ 63 < 2 ^ 64).
  { change (2 ^ 63) with 9223372036854775808. change (2 ^ 64) with 18446744073709551616. blia. }
  rewrite from_be_bytes_small by done. rewrite lxor_sign by done.
  rewrite (le_bytes_mod 8 z). change (256 ^ Z.of_nat 8) with (2 ^ 64).
  f_equal. replace (z + 2 ^ 63 + 2 ^ 63) with (z + 1 * 2 ^ 64) by lia. apply Z.mod_add. done.
Qed.

(** ** Reading primitives *)
Lemma schema_take_app a rest n : n = len a -> schema_take (a ++ rest) n = Ok (a, rest).
Proof. intros ->. unfold schema_take. by rewrite split_at_app. Qed.

Lemma schema_take_inv input n a rest :
  0 <= n -> schema_take input n = Ok (a, rest) -> input = a ++ rest /\ len a = n.
Proof. intros Hn H. apply ok_or_ok in H. by apply split_at_Some in H. Qed.

Lemma schema_take_le_app n z rest k :
  k = Z.of_nat n -> 0 <= z < 256 ^ k -> schema_take_le (le_bytes n z ++ rest) k = Ok (z, rest).
Proof.
  intros -> Hz. unfold schema_take_le. rewrite schema_take_app by by rewrite len_le_bytes.
  simpl. by rewrite from_le_bytes_small.
Qed.

Lemma schema_take_le_inv input k z rest :
  0 <= k -> schema_take_le input k = Ok (z, rest) ->
  input = le_bytes (Z.to_nat k) z ++ rest /\ 0 <= z < 256 ^ k.
Proof.
  intros Hk H. unfold schema_take_le in H. step_ok H as [data input'] eqn Ha. inv_ok.
  apply schema_take_inv in Ha as [-> Hlen]; [|done].
  rewrite le_bytes_from_le by (unfold len in Hlen; lia).
  split; [done|]. rewrite <-Hlen. apply from_le_range.
Qed.

Lemma schema_take_byte_inv input b rest :
  schema_take_byte input = Ok (b, rest) -> input = b :: rest.
Proof.
  unfold schema_take_byte. intros H. step_ok H as [data input'] eqn Ha. inv_ok.
  apply schema_take_inv in Ha as [-> Hlen]; [|done].
  unfold len in Hlen. destruct data as [|b' [|]]; simpl in *; try lia. by simplify_eq.
Qed.

Lemma schema_take_byte_cons b rest : schema_take_byte (b :: rest) = Ok (b, rest).
Proof.
  unfold schema_take_byte. change (b :: rest) with ([b] ++ rest). by rewrite schema_take_app.
Qed.

(** ** [Schema_decode] and [Type::decode] *)
Lemma max_key_bytes_bounds ty : forall depth,
  valid_type depth ty = true -> 0 <= max_key_bytes ty <= 2 * max_value_bytes ty.
Proof.
  induction ty as [| | | |bound|bound|fields IH|m k w IHk IHw] using Ty_ind';
    intros depth Hv; simpl in *; try lia; try blia.
  - destruct_andb. rename select (forallb _ _ = true) into Hf. apply forallb_Forall in Hf.
    clear -IH Hf. induction IH as [|f fields Hfield IH IH2]; simpl; [lia|].
    inversion Hf as [|?? Hvf Hf']; subst. specialize (Hfield _ Hvf). specialize (IH2 Hf'). lia.
  - destruct_andb. pose proof (max_value_bytes_nonneg k _ ltac:(eassumption)).
    pose proof (max_value_bytes_nonneg w _ ltac:(eassumption)). bsimp. nia.
Qed.

Lemma mapM_node_of_cons f fields nodes :
  mapM node_of (f :: fields) = Some nodes <->
  exists n ns, node_of f = Some n /\ mapM node_of fields = Some ns /\ nodes = n :: ns.
Proof.
  change (mapM node_of (f :: fields)) with
    (n ← node_of f; ns ← mapM node_of fields; Some (n :: ns)).
  split.
  - intros H. apply bind_Some in H as (n & Hn & H). apply bind_Some in H as (ns & Hns & [= <-]).
    by exists n, ns.
  - intros (n & ns & -> & -> & ->). done.
Qed.

Definition node_reads fuel depth (f : Ty) (n : TypeNode) (p : bytes) : Prop :=
  forall rest, decode_node fuel (p ++ rest) depth = Ok (n, max_value_bytes f, max_key_bytes f, rest).

Lemma decode_node_fields_encoded fuel depth fields rest : forall nodes parts vb kb,
  mapM node_of fields = Some nodes -> length parts = length fields ->
  Forall2 (fun f np => node_reads fuel (depth + 1) f np.1 np.2) fields (zip nodes parts) ->
  Forall (fun f => 0 <= max_value_bytes f /\ 0 <= max_key_bytes f) fields ->
  0 <= vb -> 0 <= kb -> vb + sum_Z (map max_value_bytes fields) <= MAX_VALUE_BYTES ->
  kb + sum_Z (map max_key_bytes fields) <= u64_max ->
  decode_node_fields (fun input => decode_node fuel input (depth + 1)) (length fields) vb kb (concat parts ++ rest) =
    Ok (nodes, vb + sum_Z (map max_value_bytes fields), kb + sum_Z (map max_key_bytes fields), rest).
Proof.
  induction fields as [|f fields IH]; intros nodes parts vb kb Hn Hl H2 Hpos Hvb Hkb Hvm Hkm.
  - injection Hn as <-. destruct parts; [|done]. simpl. by rewrite !Z.add_0_r.
  - apply mapM_node_of_cons in Hn as (n & ns & Hn & Hns & ->). destruct parts as [|p parts]; [done|].
    apply Forall_cons in Hpos as [[Hp1 Hp2] Hpos]. simpl in H2, Hl, Hvm, Hkm |- *.
    apply Forall2_cons in H2 as [Hf H2]. simpl in Hf. rewrite <-app_assoc, Hf. simpl.
    assert (0 <= sum_Z (map max_value_bytes fields)).
    { apply sum_Z_nonneg, Forall_fmap. eapply Forall_impl; [exact Hpos|]. by intros ? []. }
    assert (0 <= sum_Z (map max_key_bytes fields)).
    { apply sum_Z_nonneg, Forall_fmap. eapply Forall_impl; [exact Hpos|]. by intros ? []. }
    rewrite (proj2 (bounded_add_Some vb (max_value_bytes f) _ ltac:(lia) ltac:(lia)))
      by (split; [reflexivity | lia]). simpl.
    rewrite (proj2 (checked_u64_Some (kb + max_key_bytes f) _)) by (split; [done | lia]). simpl.
    rewrite (IH ns parts) by (done || lia). simpl. do 3 f_equal; [f_equal|]; lia.
Qed.

Lemma decode_node_encode ty : forall depth fuel bs node,
  valid_type depth ty = true -> 1 <= depth -> 17 <= Z.of_nat fuel + depth ->
  encode_type (E:=Error) ty = Ok bs -> node_of ty = Some node ->
  node_reads fuel depth ty node bs.
Proof.
  induction ty as [| | | |bound|bound|fields IH|m k w IHk IHw] using Ty_ind';
    intros depth fuel bs node Hv Hd Hfuel Henc Hnode rest;
    pose proof (valid_type_depth _ _ Hv); pose proof (valid_type_max _ _ Hv) as Hmax;
    pose proof (max_key_bytes_bounds _ _ Hv) as Hkey;
    destruct fuel as [|fuel]; try lia; simpl in Hv, Henc, Hnode;
    cbn [decode_node]; rewrite gtb_false by lia.
  1-4: inv_ok; simplify_eq; by rewrite <-app_comm_cons, schema_take_byte_cons.
  1-2: inv_ok; simplify_eq; rewrite <-app_comm_cons, schema_take_byte_cons; simpl;
    rewrite schema_take_le_app by (done || blia); simpl; simpl in Hmax;
    rewrite (proj2 (checked_u64_Some (bound + 4) _)) by (split; [done | blia]); simpl;
    rewrite (proj2 (checked_u64_Some (bound * 2) _)) by (split; [done | blia]); simpl;
    rewrite (proj2 (checked_u64_Some (_ + 2) _)) by (split; [done | blia]); simpl;
    rewrite gtb_false by lia; simpl; do 3 f_equal; [f_equal|]; lia.
  - destruct (mapM node_of fields) as [nodes|] eqn:Hn; simplify_eq/=. destruct_andb.
    rewrite gtb_false in Henc by blia. step_ok Henc as parts eqn Hparts. injection Henc as <-.
    rename select (forallb _ _ = true) into Hf. apply forallb_Forall in Hf.
    pose proof (mapR_length _ _ _ Hparts) as Hlp. apply mapR_Forall2 in Hparts.
    rewrite <-app_comm_cons, schema_take_byte_cons; simpl. rewrite <-app_assoc.
    rewrite schema_take_le_app by (done || (split; [apply len_nonneg | blia])); simpl.
    rewrite gtb_false by blia. rewrite gtb_false; cycle 1.
    { rewrite len_app. pose proof (len_nonneg rest).
      assert (len parts <= len (concat parts)) as Hc.
      { apply len_concat_ge. clear -Hparts. induction Hparts; constructor; [|done].
        by eapply encode_type_nonempty. }
      unfold len in Hc at 1. rewrite Hlp in Hc. unfold len at 1. lia. }
    unfold len at 1. rewrite Nat2Z.id, (decode_node_fields_encoded _ _ _ _ nodes parts); simpl in *; try done.
    + rewrite gtb_false by lia. done.
    + clear -Hparts IH Hf Hd Hfuel Hn. revert parts nodes Hparts Hn.
      induction IH as [|f fields Hfield IH IH2]; intros parts nodes Hparts Hn;
        inversion Hparts as [|? p ? parts' Hp Hparts']; inversion Hf; subst.
      * injection Hn as <-. constructor.
      * apply mapM_node_of_cons in Hn as (n & ns & Hn & Hns & ->). constructor.
        -- intros rest'. apply Hfield; (done || lia).
        -- by apply IH2.
    + eapply Forall_impl; [exact Hf|]. intros f Hvf. simpl in Hvf. split.
      * by eapply max_value_bytes_nonneg.
      * by eapply max_key_bytes_bounds.
    + unfold MAX_VALUE_BYTES, u64_max in *. lia.
  - done.
Qed.

(** [node] was read from the descriptor [used] of the storage type [ty]. *)
Definition describes (depth : Z) (ty : Ty) (node : TypeNode) (vb kb : Z) (used : bytes) : Prop :=
  encodes depth ty vb used /\ node_of ty = Some node /\ kb = max_key_bytes ty.

Lemma decode_node_fields_inv fuel depth count : forall input nodes vb kb vb' kb' rest,
  (forall input node vb kb rest, decode_node fuel input (depth + 1) = Ok (node, vb, kb, rest) ->
     exists ty used, input = used ++ rest /\ describes (depth + 1) ty node vb kb used) ->
  0 <= vb -> vb <= MAX_VALUE_BYTES ->
  decode_node_fields (fun input => decode_node fuel input (depth + 1)) count vb kb input
    = Ok (nodes, vb', kb', rest) ->
  exists fields parts, input = concat parts ++ rest /\ length fields = count /\
    mapR (encode_type (E:=Error)) fields = Ok parts /\ mapM node_of fields = Some nodes /\
    forallb (valid_type (depth + 1)) fields = true /\
    vb' = vb + sum_Z (map max_value_bytes fields) /\ kb' = kb + sum_Z (map max_key_bytes fields) /\
    vb' <= MAX_VALUE_BYTES.
Proof.
  induction count as [|count IHc]; intros input nodes vb kb vb' kb' rest IH H0 Hm H; simpl in H.
  - inv_ok. exists [], []. simpl. rewrite !Z.add_0_r. by repeat split.
  - step_ok H as [[[n v] k] in1] eqn Hf. step_ok H as vb1 eqn Hvb. step_ok H as kb1 eqn Hkb.
    step_ok H as [[[ns v'] k'] in2] eqn Hrec. inv_ok.
    apply IH in Hf as (f & used & -> & (He & Hv & ->) & Hn & ->).
    apply bounded_add_Some in Hvb as [-> Hm1]; [|lia|by eapply max_value_bytes_nonneg].
    apply checked_u64_Some in Hkb as [-> _]. pose proof (max_value_bytes_nonneg _ _ Hv).
    apply IHc in Hrec as (fields & parts & -> & <- & Hp & Hns & Hvs & -> & -> & Hm2); [|done|lia..].
    exists (f :: fields), (used :: parts). rewrite mapM_node_of_cons. simpl.
    rewrite <-app_assoc, He, Hv, Hvs. simpl. rewrite Hp.
    split; [done|]. split; [done|]. split; [done|]. split; [by exists n, ns|]. split; [done|].
    split; [lia|]. split; lia.
Qed.

Lemma decode_node_inv fuel : forall depth input node vb kb rest,
  1 <= depth -> decode_node fuel input depth = Ok (node, vb, kb, rest) ->
  exists ty used, input = used ++ rest /\ describes depth ty node vb kb used.
Proof.
  unfold describes, encodes. induction fuel as [|fuel IH]; intros depth input node vb kb rest Hd H;
    cbn [decode_node] in H; destruct (depth >? 16) eqn:E16; try done.
  step_ok H as [tag in1] eqn Htag. apply schema_take_byte_inv in Htag as ->.
  step_ok H as [[[n v] k] in2] eqn Hty.
  destruct (v >? MAX_VALUE_BYTES) eqn:Emax; [done|]. inv_ok.
  assert ((depth <=? 16) = true) as Hdepth by blia.
  assert ((vb <=? MAX_VALUE_BYTES) = true) as Hsize by (unfold MAX_VALUE_BYTES in *; blia).
  clear E16 Emax. case_byte tag Hty; cbn [byte_eq_dec Byte.byte_eq_dec] in Hty.
  - simplify_eq. exists Type_Unit, [x00]. simpl. by rewrite Hdepth.
  - simplify_eq. exists Type_Boolean, [x01]. simpl. by rewrite Hdepth.
  - simplify_eq. exists Type_I64, [x02]. simpl. by rewrite Hdepth.
  - simplify_eq. exists Type_U64, [x03]. simpl. by rewrite Hdepth.
  - step_ok Hty as [bound in3] eqn Hb. step_ok Hty as s eqn Hs. step_ok Hty as s' eqn Hs'. inv_ok.
    apply schema_take_le_inv in Hb as [-> Hb]; [|done].
    apply bind_Some in Hs' as (s1 & Hs1 & Hs'). apply checked_u64_Some in Hs as [-> _], Hs1 as [-> _], Hs' as [-> _].
    exists (Type_Bytes bound), (x04 :: le_bytes 4 bound). simpl in *. rewrite Z.add_comm in Hsize.
    rewrite Hdepth, Hsize, (proj2 (in_u32_spec bound)) by (unfold u32_max; lia).
    do 3 (split; [repeat split; lia || done|]). lia.
  - step_ok Hty as [bound in3] eqn Hb. step_ok Hty as s eqn Hs. step_ok Hty as s' eqn Hs'. inv_ok.
    apply schema_take_le_inv in Hb as [-> Hb]; [|done].
    apply bind_Some in Hs' as (s1 & Hs1 & Hs'). apply checked_u64_Some in Hs as [-> _], Hs1 as [-> _], Hs' as [-> _].
    exists (Type_String bound), (x05 :: le_bytes 4 bound). simpl in *. rewrite Z.add_comm in Hsize.
    rewrite Hdepth, Hsize, (proj2 (in_u32_spec bound)) by (unfold u32_max; lia).
    do 3 (split; [repeat split; lia || done|]). lia.
  - step_ok Hty as [count in3] eqn Hc. apply schema_take_le_inv in Hc as [-> Hc]; [|done].
    destruct (count >? 256) eqn:E256; [done|]. destruct (count >? len in3); [done|].
    step_ok Hty as [[[ns v'] k'] in4] eqn Hf. inv_ok.
    apply decode_node_fields_inv in Hf as (fields & parts & -> & Hlen & Hp & Hn & Hv & -> & -> & Hmax);
      [|intros; apply IH; [lia|done]|done|done].
    rewrite !Z.add_0_l in *. assert (len fields = count) as Hcount by (unfold len; rewrite Hlen; lia).
    exists (Type_Tuple fields), (x06 :: le_bytes 2 count ++ concat parts). simpl. rewrite <-app_assoc. split; [done|].
    rewrite gtb_false, Hp, Hcount, Hdepth, Hsize, Hv, Hn by (rewrite Hcount; blia). simpl.
    by rewrite (proj2 (Z.leb_le count 256)) by blia.
Qed.

Lemma schema_take_no_panic input n : no_panic (schema_take input n).
Proof. unfold schema_take. by destruct (split_at _ _). Qed.
Lemma schema_take_le_no_panic input n : no_panic (schema_take_le input n).
Proof. apply bindR_no_panic; [apply schema_take_no_panic|]. by intros []. Qed.
Lemma schema_take_byte_no_panic input : no_panic (schema_take_byte input).
Proof.
  apply bindR_no_panic; [apply schema_take_no_panic|]. intros [data rest] H.
  apply schema_take_inv in H as [_ H]; [|done]. destruct data; done.
Qed.

Lemma decode_node_fields_no_panic dec count : forall vb kb input,
  (forall input, no_panic (dec input)) -> no_panic (decode_node_fields dec count vb kb input).
Proof.
  induction count as [|count IH]; intros vb kb input Hdec; simpl; [done|].
  apply bindR_no_panic; [apply Hdec|]. intros [[[f v] k] in1] _.
  apply bindR_no_panic; [by destruct (bounded_add _ _)|]. intros vb' _.
  apply bindR_no_panic; [by destruct (checked_u64 _)|]. intros kb' _.
  apply bindR_no_panic; [by apply IH|]. by intros [[[]]] _.
Qed.

Lemma decode_node_no_panic fuel : forall input depth,
  17 <= Z.of_nat fuel + depth -> no_panic (decode_node fuel input depth).
Proof.
  induction fuel as [|fuel IH]; intros input depth Hf; cbn [decode_node];
    destruct (Z.gtb_spec depth 16); try done; [lia|].
  apply bindR_no_panic; [apply schema_take_byte_no_panic|]. intros [tag in1] _.
  apply bindR_no_panic; [|by intros [[[n v] k] in2] _; destruct (_ >? _)].
  destruct tag; try done.
  1-2: apply bindR_no_panic; [apply schema_take_le_no_panic|]; intros [bound in2] _;
    apply bindR_no_panic; [by destruct (checked_u64 _)|]; intros vb _;
    apply bindR_no_panic; [by destruct (_ ≫= _)|done].
  apply bindR_no_panic; [apply schema_take_le_no_panic|]. intros [count in2] _.
  destruct (_ >? _); [done|]. destruct (_ >? _); [done|].
  apply bindR_no_panic; [|by intros [[[]]] _].
  apply decode_node_fields_no_panic. intros input'. apply IH. lia.
Qed.
#[global] Opaque decode_node.

Lemma Schema_decode_no_panic data : no_panic (Schema_decode data).
Proof.
  unfold Schema_decode. destruct (_ >? _); [done|].
  apply bindR_no_panic; [apply schema_take_le_no_panic|]. intros [v in1] _. destruct (negb _); [done|].
  apply bindR_no_panic; [by apply decode_node_no_panic|]. intros [[[n vb] kb] []] _; done.
Qed.

(** The schema of a storage type. *)
Definition schema_for (ty : Ty) (node : TypeNode) (data : bytes) : Schema :=
  {| schema_descriptor_bytes := data; schema_node := node;
     schema_max_value_bytes := max_value_bytes ty; schema_max_key_bytes := max_key_bytes ty |}.

(** The storage and VM decoders of descriptors agree: [Schema_decode] accepts
    the descriptors of the types without Rows, and computes their bounds. *)
Lemma Schema_decode_iff data schema :
  Schema_decode data = Ok schema <->
  exists ty node, decode data = Ok ty /\ node_of ty = Some node /\ schema = schema_for ty node data.
Proof.
  setoid_rewrite decode_descriptor_iff. unfold Schema_decode, descriptor. split.
  - destruct (len data >? MAX_DESCRIPTOR_BYTES) eqn:Elen; [done|]. intros H.
    step_ok H as [version in1] eqn Hver. apply schema_take_le_inv in Hver as [-> _]; [|done].
    destruct (version =? 1) eqn:E1; cbn [negb] in H; [|done]. apply Z.eqb_eq in E1 as ->.
    step_ok H as [[[n v] k] in2] eqn Hn. destruct in2; [|done]. inv_ok.
    apply decode_node_inv in Hn as (ty & used & -> & (He & Hv & ->) & Hn & ->); [|done].
    exists ty, n. rewrite He. simpl. rewrite app_nil_r in *.
    repeat split; try done. unfold MAX_DESCRIPTOR_BYTES in *. blia.
  - intros (ty & node & (H & Hv & Hlen) & Hn & ->). step_ok H as body eqn Hb. inv_ok.
    rewrite gtb_false by done. rewrite schema_take_le_app by done. simpl.
    pose proof (decode_node_encode ty 1 17 body node Hv ltac:(done) ltac:(done) Hb Hn []) as Hd.
    rewrite app_nil_r in Hd. by rewrite Hd.
Qed.

(** ** Values to keys and back *)
Section NodeOfTuple.
Context {S : Type} (read : TypeNode -> bytes -> S -> Result StorageError (bytes * S)).

(** Fold a per-field reading over a tuple's fields. *)
Lemma read_fields_reads (put : S -> Value -> S) fields rest :
  forall nodes values parts out,
  mapM node_of fields = Some nodes -> length values = length fields -> length parts = length values ->
  Forall2 (fun f nvp => forall node, node_of f = Some node ->
    forall rest out, read node (nvp.2 ++ rest) out = Ok (rest, put out nvp.1)) fields (zip values parts) ->
  read_fields read nodes (concat parts ++ rest) out = Ok (rest, foldl put out values).
Proof.
  induction fields as [|f fields IH]; intros nodes values parts out Hn Hl1 Hl2 H.
  - injection Hn as <-. destruct values; [|done]. by destruct parts.
  - apply mapM_node_of_cons in Hn as (n & ns & Hn & Hns & ->).
    destruct values as [|v values]; [done|]. destruct parts as [|p parts]; [done|].
    simpl in H. apply Forall2_cons in H as [Hf H]. simpl. rewrite <-app_assoc, (Hf _ Hn). simpl.
    apply IH; simpl in *; (done || lia).
Qed.
End NodeOfTuple.

(** What [read_value] and [read_key] append for one value. *)
Definition put_key (key : option bytes) (v : Value) : option bytes := push key (key_of v).
Definition put_value (out : bytes) (v : Value) : bytes :=
  out ++ match encode_value (E:=Error) v with Ok bs => bs | _ => [] end.

Lemma foldl_put_key values : forall key,
  foldl put_key key values = push key (concat (map key_of values)).
Proof.
  induction values as [|v values IH]; intros [key|]; simpl; rewrite ?app_nil_r; try done.
  all: rewrite IH; simpl; by rewrite ?app_assoc.
Qed.

Lemma foldl_put_value values : forall parts out,
  mapR (encode_value (E:=Error)) values = Ok parts -> foldl put_value out values = out ++ concat parts.
Proof.
  induction values as [|v values IH]; intros parts out H; simpl in H.
  - inv_ok. by rewrite app_nil_r.
  - step_ok H as p eqn Hp. step_ok H as ps eqn Hps. inv_ok. simpl.
    rewrite (IH ps) by done. unfold put_value. by rewrite Hp, app_assoc.
Qed.

Lemma data_guard (data : bytes) bound : (len data <=? bound) = true -> (len data >? bound) = false.
Proof. intros H. by apply gtb_false, Z.leb_le. Qed.

Lemma read_value_reads ty : forall depth node v bs,
  valid_type depth ty = true -> node_of ty = Some node -> accepts ty v = true -> value_wf v = true ->
  encode_value (E:=Error) v = Ok bs ->
  forall rest key, read_value node (bs ++ rest) key = Ok (rest, put_key key v).
Proof.
  induction ty as [| | | |bound|bound|fields IH|m k w IHk IHw] using Ty_ind';
    intros depth node v bs Hv Hn Ha Hwf He rest key.
  1-6: destruct v; simpl in Ha, Hv, Hn, Hwf, He; try done; simplify_eq; cbn [read_value];
    unfold encode_data in *; inv_ok; unfold put_key; simpl.
  - by destruct key; simpl; rewrite ?app_nil_r.
  - by destruct b; rewrite schema_take_byte_cons.
  - unfold schema_take_le. rewrite schema_take_app by done. simpl. by rewrite i64_key_bits.
  - rewrite schema_take_le_app; [done|done|]. change (256 ^ 8) with 18446744073709551616. blia.
  - rewrite <-app_assoc, schema_take_le_app by (done || (split; [apply len_nonneg | blia])). simpl.
    rewrite data_guard by done. rewrite schema_take_app by done. simpl. by destruct key.
  - rewrite <-app_assoc, schema_take_le_app by (done || (split; [apply len_nonneg | blia])). simpl.
    rewrite data_guard by done. rewrite schema_take_app by done. simpl. rewrite Hwf. by destruct key.
  - apply accepts_tuple in Ha as (values & -> & Ha). simpl in Hn, Hv, Hwf, He.
    destruct (mapM node_of fields) as [nodes|] eqn:Hns; simplify_eq/=.
    step_ok He as parts eqn Hparts. inv_ok. destruct_andb.
    rename select (forallb (valid_type _) _ = true) into Hf. apply forallb_Forall in Hf, Hwf.
    rewrite (read_fields_reads _ put_key fields _ nodes values parts); [|done|..].
    + unfold put_key. by rewrite foldl_put_key.
    + symmetry. by eapply Forall2_length.
    + by eapply mapR_length.
    + apply mapR_Forall2 in Hparts. clear -IH Ha Hf Hwf Hparts. revert parts Hparts.
      induction Ha as [|f x fields values Hx Ha IHa]; intros parts Hparts;
        inversion Hparts; subst; constructor; inversion IH; inversion Hf; inversion Hwf; subst; eauto.
  - done.
Qed.

Lemma read_key_reads ty : forall depth node v,
  valid_type depth ty = true -> node_of ty = Some node -> accepts ty v = true -> value_wf v = true ->
  forall rest out, read_key node (key_of v ++ rest) out = Ok (rest, put_value out v).
Proof.
  induction ty as [| | | |bound|bound|fields IH|m k w IHk IHw] using Ty_ind';
    intros depth node v Hv Hn Ha Hwf rest out.
  1-6: destruct v; simpl in Ha, Hv, Hn, Hwf; try done; simplify_eq; cbn [read_key key_of];
    unfold put_value; simpl; unfold encode_data; rewrite ?gtb_false by blia.
  - by rewrite app_nil_r.
  - by destruct b; rewrite schema_take_byte_cons.
  - rewrite schema_take_app by done. simpl. by rewrite i64_value_bits.
  - rewrite schema_take_app by done. simpl. rewrite from_be_bytes_small; [done|].
    change (256 ^ Z.of_nat 8) with 18446744073709551616. blia.
  - rewrite unescape_escape. simpl. rewrite data_guard by done. unfold len at 1.
    by rewrite Nat2Z.id, drop_app_length.
  - rewrite unescape_escape. simpl. rewrite data_guard, Hwf by done. simpl. unfold len at 1.
    by rewrite Nat2Z.id, drop_app_length.
  - apply accepts_tuple in Ha as (values & -> & Ha). simpl in Hn, Hv, Hwf.
    destruct (encode_value_ok (E:=Error) (Type_Tuple fields) depth (Value_Tuple values)) as [bs He];
      [done|by apply zip_all_Forall2|]. unfold put_value. rewrite He. simpl in He.
    destruct (mapM node_of fields) as [nodes|] eqn:Hns; simplify_eq/=.
    step_ok He as parts eqn Hparts. inv_ok. destruct_andb.
    rename select (forallb (valid_type _) _ = true) into Hf. apply forallb_Forall in Hf, Hwf.
    rewrite (read_fields_reads _ put_value fields _ nodes values (map key_of values)); [|done|..].
    + by rewrite (foldl_put_value _ parts).
    + symmetry. by eapply Forall2_length.
    + by rewrite length_map.
    + clear -IH Ha Hf Hwf. induction Ha as [|f x fields values Hx Ha IHa]; simpl;
        constructor; inversion IH; inversion Hf; inversion Hwf; subst; eauto.
  - done.
Qed.

(** ** Order *)

(** Keys of values of one storage type compare like the values, whatever
    follows them: no key is a proper prefix of another. *)
Lemma cmp_key_of ty : forall depth v1 v2 r1 r2,
  valid_type depth ty = true -> is_Some (node_of ty) -> accepts ty v1 = true -> accepts ty v2 = true ->
  value_wf v1 = true -> value_wf v2 = true ->
  cmp (key_of v1 ++ r1) (key_of v2 ++ r2) = lex (value_cmp v1 v2) (cmp r1 r2).
Proof.
  induction ty as [| | | |bound|bound|fields IH|m k w IHk IHw] using Ty_ind';
    intros depth v1 v2 r1 r2 Hv Hn Ha1 Ha2 Hw1 Hw2.
  1-6: destruct v1, v2; simpl in *; try done.
  - rewrite cmp_cons. by destruct b, b0.
  - rewrite cmp_app_eq_len by by rewrite !length_be_bytes. rewrite cmp_be_bytes.
    + unfold cmp at 1, Z_cmp. rewrite !(Z.add_comm _ (2 ^ 63)). by rewrite Zcompare_plus_compat.
    + change (256 ^ Z.of_nat 8) with 18446744073709551616. change (2 ^ 63) with 9223372036854775808. blia.
    + change (256 ^ Z.of_nat 8) with 18446744073709551616. change (2 ^ 63) with 9223372036854775808. blia.
  - rewrite cmp_app_eq_len by by rewrite !length_be_bytes. rewrite cmp_be_bytes; [done|..];
      change (256 ^ Z.of_nat 8) with 18446744073709551616; blia.
  - apply cmp_escape.
  - apply cmp_escape.
  - apply accepts_tuple in Ha1 as (vs1 & -> & Ha1), Ha2 as (vs2 & -> & Ha2). simpl in *.
    destruct (mapM node_of fields) as [nodes|] eqn:Hns; [|by destruct Hn]. destruct_andb.
    rename select (forallb (valid_type _) _ = true) into Hf. apply forallb_Forall in Hf, Hw1, Hw2.
    clear -IH Ha1 Ha2 Hw1 Hw2 Hf Hns. revert nodes vs2 Ha2 Hw2 Hns.
    induction Ha1 as [|f x fields vs1 Hx Ha1 IHa]; intros nodes vs2 Ha2 Hw2 Hns;
      inversion Ha2 as [|? y ? vs2' Hy Ha2']; subst; [done|].
    apply mapM_node_of_cons in Hns as (n & ns & Hn & Hns & ->).
    inversion IH as [|?? Hfield IH']; inversion Hf as [|?? Hvf Hf'];
      inversion Hw1 as [|?? Hwx Hw1']; inversion Hw2 as [|?? Hwy Hw2']; subst.
    simpl. rewrite <-!app_assoc, (Hfield (depth + 1)) by done.
    rewrite (IHa IH' Hf' Hw1' ns) by done. by destruct (value_cmp x y).
  - by destruct Hn.
Qed.

Lemma len_key_of ty : forall depth v,
  valid_type depth ty = true -> accepts ty v = true -> len (key_of v) <= max_key_bytes ty.
Proof.
  induction ty as [| | | |bound|bound|fields IH|m k w IHk IHw] using Ty_ind'; intros depth v Hv Ha.
  1-4: destruct v; simpl in *; try done; autorewrite with blop; lia.
  1-2: destruct v; simpl in *; try done;
    match goal with |- context [escape ?d] => pose proof (len_escape d) end; blia.
  - apply accepts_tuple in Ha as (values & -> & Ha). simpl in *. destruct_andb.
    rename select (forallb _ _ = true) into Hf. apply forallb_Forall in Hf.
    clear -IH Ha Hf. induction Ha as [|f x fields values Hx Ha IHa]; simpl; [done|].
    inversion IH as [|?? Hfield IH']; inversion Hf as [|?? Hvf Hf']; subst.
    specialize (Hfield _ _ Hvf Hx). specialize (IHa IH' Hf'). autorewrite with blop. lia.
  - apply accepts_rows in Ha as (rows & -> & _). simpl. done.
Qed.

(** Inversion of a field loop, given inversion of each field. *)
Section ReadFieldsInv.
Context {S : Type} (read : TypeNode -> bytes -> S -> Result StorageError (bytes * S)).
Context (used_by : Value -> bytes -> Prop) (put : S -> Value -> S).

Lemma read_fields_inv fields rest : forall nodes input out out',
  mapM node_of fields = Some nodes ->
  Forall (fun f => forall node input out rest out', node_of f = Some node ->
    read node input out = Ok (rest, out') ->
    exists v used, input = used ++ rest /\ used_by v used /\ out' = put out v /\
      accepts f v = true /\ value_wf v = true) fields ->
  read_fields read nodes input out = Ok (rest, out') ->
  exists values useds, input = concat useds ++ rest /\ Forall2 used_by values useds /\
    out' = foldl put out values /\ Forall2 (fun f v => accepts f v = true) fields values /\
    forallb value_wf values = true.
Proof.
  induction fields as [|f fields IH]; intros nodes input out out' Hn HF H.
  - injection Hn as <-. simpl in H. inv_ok. exists [], []. by repeat split; constructor.
  - apply mapM_node_of_cons in Hn as (n & ns & Hn & Hns & ->). simpl in H.
    step_ok H as [in1 out1] eqn Hf. inversion HF as [|?? Hfield HF']; subst.
    apply Hfield in Hf as (v & used & -> & Hu & -> & Ha & Hw); [|done].
    apply (IH _ _ _ _ Hns HF') in H as (values & useds & -> & Hus & -> & Has & Hws).
    exists (v :: values), (used :: useds). simpl. rewrite <-app_assoc, Hw.
    split; [done|]. split; [by constructor|]. split; [done|]. split; [by constructor | done].
Qed.
End ReadFieldsInv.

Lemma mapR_encode_parts values parts :
  Forall2 (fun v p => encode_value (E:=Error) v = Ok p) values parts ->
  encode_value (E:=Error) (Value_Tuple values) = Ok (concat parts).
Proof. intros H%mapR_Forall2. simpl. by rewrite H. Qed.

Lemma bool_byte b : (byte_Z b >? 1) = false -> b = x00 \/ b = x01.
Proof. intros H. case_byte b H; auto. Qed.

Lemma read_value_inv ty : forall node input key rest key',
  node_of ty = Some node -> read_value node input key = Ok (rest, key') ->
  exists v used, input = used ++ rest /\ encode_value (E:=Error) v = Ok used /\
    key' = put_key key v /\ accepts ty v = true /\ value_wf v = true.
Proof.
  induction ty as [| | | |bound|bound|fields IH|m k w IHk IHw] using Ty_ind';
    intros node input key rest key' Hn H; simpl in Hn; simplify_eq; cbn [read_value] in H.
  - inv_ok. exists Value_Unit, []. repeat split; try done. destruct key'; simpl; by rewrite ?app_nil_r.
  - step_ok H as [b in1] eqn Hb. apply schema_take_byte_inv in Hb as ->.
    destruct (byte_Z b >? 1) eqn:E; inv_ok. apply bool_byte in E as [-> | ->].
    + by exists (Value_Boolean false), [x00].
    + by exists (Value_Boolean true), [x01].
  - step_ok H as [number in1] eqn Hd. inv_ok. apply schema_take_le_inv in Hd as [-> Hr]; [|done].
    destruct (i64_from_le_inv (le_bytes 8 number)) as [Hwf He]; [done|].
    exists (Value_I64 (i64_from_le (le_bytes 8 number))), (le_bytes 8 number). simpl. rewrite He, Hwf.
    repeat split; try done. unfold put_key. simpl. rewrite <-(i64_key_bits _ Hwf), He.
    rewrite from_le_bytes_small; [done|]. exact Hr.
  - step_ok H as [number in1] eqn Hd. inv_ok. apply schema_take_le_inv in Hd as [-> Hr]; [|done].
    exists (Value_U64 number), (le_bytes 8 number). repeat split; try done. simpl.
    apply in_u64_spec. change (256 ^ 8) with 18446744073709551616 in Hr. unfold u64_max. lia.
  - step_ok H as [l in1] eqn Hl. apply schema_take_le_inv in Hl as [-> Hl]; [|done].
    destruct (l >? bound) eqn:E; [done|]. step_ok H as [data in2] eqn Hd. inv_ok.
    apply schema_take_inv in Hd as [-> <-]; [|lia]. change (256 ^ 4) with 4294967296 in Hl.
    exists (Value_Bytes data), (le_bytes 4 (len data) ++ data). simpl. unfold encode_data.
    rewrite <-app_assoc, gtb_false by (unfold u32_max; lia). repeat split; try done. apply Z.leb_le. blia.
  - step_ok H as [l in1] eqn Hl. apply schema_take_le_inv in Hl as [-> Hl]; [|done].
    destruct (l >? bound) eqn:E; [done|]. step_ok H as [data in2] eqn Hd.
    destruct (utf8_valid data) eqn:Eu; simpl in H; inv_ok.
    apply schema_take_inv in Hd as [-> <-]; [|lia]. change (256 ^ 4) with 4294967296 in Hl.
    exists (Value_String data), (le_bytes 4 (len data) ++ data). simpl. unfold encode_data.
    rewrite <-app_assoc, gtb_false by (unfold u32_max; lia). repeat split; try done. apply Z.leb_le. blia.
  - destruct (mapM node_of fields) as [nodes|] eqn:Hns; simplify_eq/=.
    apply (read_fields_inv _ (fun v p => encode_value (E:=Error) v = Ok p) put_key fields) in H
      as (values & parts & -> & Hu & -> & Ha & Hw); [|done|].
    + exists (Value_Tuple values), (concat parts). split; [done|]. split; [by apply mapR_encode_parts|].
      rewrite foldl_put_key. split; [done|]. split; [by apply zip_all_Forall2 | done].
    + eapply Forall_impl; [exact IH|]. intros f Hf n in1 out r out' Hn Hr. by eapply Hf.
Qed.

Lemma read_key_inv ty : forall depth node input out rest out',
  valid_type depth ty = true -> node_of ty = Some node -> read_key node input out = Ok (rest, out') ->
  exists v, input = key_of v ++ rest /\ out' = put_value out v /\ accepts ty v = true /\ value_wf v = true.
Proof.
  induction ty as [| | | |bound|bound|fields IH|m k w IHk IHw] using Ty_ind';
    intros depth node input out rest out' Hv Hn H; simpl in Hn; simplify_eq; cbn [read_key] in H;
    pose proof Hv as Hv0; simpl in Hv.
  - inv_ok. exists Value_Unit. unfold put_value. simpl. by rewrite app_nil_r.
  - step_ok H as [b in1] eqn Hb. apply schema_take_byte_inv in Hb as ->.
    destruct (byte_Z b >? 1) eqn:E; inv_ok. apply bool_byte in E as [-> | ->].
    + by exists (Value_Boolean false).
    + by exists (Value_Boolean true).
  - step_ok H as [data in1] eqn Hd. inv_ok. apply schema_take_inv in Hd as [-> Hlen]; [|done].
    pose proof (from_be_range data) as Hr. rewrite Hlen in Hr. change (256 ^ 8) with (2 ^ 64) in Hr.
    assert (in_i64 (from_be data - 2 ^ 63) = true) as Hwf.
    { apply in_i64_spec. unfold i64_min, i64_max. change (2 ^ 63) with 9223372036854775808.
      change (2 ^ 64) with 18446744073709551616 in Hr. lia. }
    exists (Value_I64 (from_be data - 2 ^ 63)). unfold put_value. simpl.
    pose proof (i64_value_bits _ Hwf) as Hb. rewrite Z.sub_add in Hb |- *.
    rewrite be_bytes_from_be in Hb |- * by (unfold len in Hlen; lia). by rewrite Hb.
  - step_ok H as [data in1] eqn Hd. inv_ok. apply schema_take_inv in Hd as [-> Hlen]; [|done].
    pose proof (from_be_range data) as Hr. rewrite Hlen in Hr.
    exists (Value_U64 (from_be data)). simpl. rewrite be_bytes_from_be by (unfold len in Hlen; lia).
    repeat split; try done. apply in_u64_spec. unfold u64_max.
    change (256 ^ 8) with 18446744073709551616 in Hr. lia.
  - step_ok H as [data consumed] eqn Hd. destruct (len data >? bound) eqn:E; [done|]. inv_ok.
    apply unescape_inv in Hd as (in1 & -> & ->).
    exists (Value_Bytes data). unfold put_value. simpl. unfold encode_data.
    rewrite drop_len_app, gtb_false by blia.
    repeat split; try done. apply Z.leb_le. blia.
  - step_ok H as [data consumed] eqn Hd. destruct (len data >? bound) eqn:E; [done|].
    destruct (utf8_valid data) eqn:Eu; simpl in H; inv_ok.
    apply unescape_inv in Hd as (in1 & -> & ->).
    exists (Value_String data). unfold put_value. simpl. unfold encode_data.
    rewrite drop_len_app, gtb_false by blia.
    repeat split; try done. apply Z.leb_le. blia.
  - pose proof (fun v => encode_value_ok (E:=Error) (Type_Tuple fields) depth v Hv0) as Henc. clear Hv0.
    destruct (mapM node_of fields) as [nodes|] eqn:Hns; simplify_eq/=. destruct_andb.
    rename select (forallb (valid_type _) _ = true) into Hf. apply forallb_Forall in Hf.
    apply (read_fields_inv _ (fun v p => p = key_of v) put_value fields) in H
      as (values & parts & -> & Hu & -> & Ha & Hw); [|done|].
    + assert (parts = map key_of values) as -> by (clear -Hu; induction Hu; simpl; congruence).
      exists (Value_Tuple values). split; [done|].
      assert (accepts (Type_Tuple fields) (Value_Tuple values) = true) as Hacc by by apply zip_all_Forall2.
      split; [|done]. destruct (Henc (Value_Tuple values) Hacc) as [bs He].
      unfold put_value. rewrite He. simpl in He. step_ok He as parts eqn Hparts. inv_ok.
      by apply foldl_put_value.
    + eapply Forall_impl; [exact (Forall_conj _ _ _ IH Hf)|].
      intros f [Hfield Hvf] n in1 o r o' Hn Hr. eapply Hfield in Hr as (v & -> & -> & ? & ?); [|done..].
      by exists v, (key_of v).
Qed.

(** ** The key codec of a table's key schema *)
Section KeyCodec.
Context (ty : Ty) (node : TypeNode) (data : bytes).
Context (Hty : valid_type 1 ty = true) (Hnode : node_of ty = Some node)
  (Hkey : max_key_bytes ty <= MAX_KEY_BYTES).

Lemma encode_key_iff value key :
  encode_key (schema_for ty node data) value = Ok key <->
  exists v, encode (E:=Error) v = Ok value /\ accepts ty v = true /\ value_wf v = true /\ key = key_of v.
Proof.
  unfold encode_key, encode. cbn [schema_max_key_bytes schema_max_value_bytes schema_node schema_for].
  rewrite gtb_false by done. split.
  - destruct (len value >? max_value_bytes ty); [done|]. intros H.
    step_ok H as [in1 key'] eqn Hr. destruct in1; inv_ok.
    eapply read_value_inv in Hr as (v & used & -> & He & -> & Ha & Hw); [|done].
    rewrite app_nil_r. exists v. by simplify_eq/=.
  - intros (v & He & Ha & Hw & ->).
    pose proof (encode_value_len _ _ He). pose proof (encoded_len_le _ _ _ Hty Ha).
    rewrite gtb_false by lia. rewrite <-(app_nil_r value).
    by rewrite (read_value_reads ty 1 node v value).
Qed.

Lemma decode_key_iff key value :
  decode_key (schema_for ty node data) key = Ok value <->
  exists v, encode (E:=Error) v = Ok value /\ accepts ty v = true /\ value_wf v = true /\ key = key_of v.
Proof.
  unfold decode_key, encode. cbn [schema_max_key_bytes schema_max_value_bytes schema_node schema_for].
  rewrite gtb_false by done. split.
  - destruct (len key >? max_key_bytes ty); [done|]. intros H.
    step_ok H as [in1 value'] eqn Hr. destruct in1; inv_ok.
    eapply read_key_inv in Hr as (v & -> & -> & Ha & Hw); [|done..]. rewrite app_nil_r. exists v.
    destruct (encode_value_ok (E:=Error) ty 1 v Hty Ha) as [bs He]. unfold put_value. by rewrite He.
  - intros (v & He & Ha & Hw & ->). pose proof (len_key_of _ _ _ Hty Ha).
    rewrite gtb_false by lia. rewrite <-(app_nil_r (key_of v)).
    rewrite (read_key_reads ty 1 node v) by done. unfold put_value. by rewrite He.
Qed.

Lemma validate_value_iff value :
  validate_value (schema_for ty node data) value = Ok tt <-> exists v, decode_value ty value = Ok v.
Proof.
  setoid_rewrite (decode_value_iff ty 1 value); [|done].
  unfold validate_value, encode. cbn [schema_max_value_bytes schema_node schema_for]. split.
  - destruct (len value >? max_value_bytes ty); [done|]. intros H.
    step_ok H as [in1 key'] eqn Hr. destruct in1; inv_ok.
    eapply read_value_inv in Hr as (v & used & -> & He & -> & Ha & Hw); [|done].
    rewrite app_nil_r. by exists v.
  - intros (v & He & Ha & Hw).
    pose proof (encode_value_len _ _ He). pose proof (encoded_len_le _ _ _ Hty Ha).
    rewrite gtb_false by lia. rewrite <-(app_nil_r value).
    by rewrite (read_value_reads ty 1 node v value).
Qed.

Lemma key_of_inj v1 v2 :
  accepts ty v1 = true -> accepts ty v2 = true -> value_wf v1 = true -> value_wf v2 = true ->
  key_of v1 = key_of v2 -> v1 = v2.
Proof.
  intros Ha1 Ha2 Hw1 Hw2 He. apply value_cmp_eq.
  pose proof (cmp_key_of ty 1 v1 v2 [] [] Hty (mk_is_Some _ _ Hnode) Ha1 Ha2 Hw1 Hw2) as H.
  rewrite He, cmp_refl in H. by destruct (value_cmp v1 v2).
Qed.
End KeyCodec.

Lemma encode_inj ty v1 v2 data :
  valid_type 1 ty = true -> accepts ty v1 = true -> accepts ty v2 = true ->
  value_wf v1 = true -> value_wf v2 = true ->
  encode (E:=Error) v1 = Ok data -> encode (E:=Error) v2 = Ok data -> v1 = v2.
Proof.
  intros Hty Ha1 Ha2 Hw1 Hw2 He1 He2.
  assert (decode_value ty data = Ok v1) as H1 by by apply (decode_value_iff ty 1).
  assert (decode_value ty data = Ok v2) as H2 by by apply (decode_value_iff ty 1).
  congruence.
Qed.

(** A schema with an encoded or decoded key is within the key ceiling. *)
Lemma encode_key_ceiling schema value key :
  encode_key schema value = Ok key -> schema_max_key_bytes schema <= MAX_KEY_BYTES.
Proof. unfold encode_key. destruct (_ >? MAX_KEY_BYTES) eqn:E; [done|]. intros _. blia. Qed.
Lemma decode_key_ceiling schema key value :
  decode_key schema key = Ok value -> schema_max_key_bytes schema <= MAX_KEY_BYTES.
Proof. unfold decode_key. destruct (_ >? MAX_KEY_BYTES) eqn:E; [done|]. intros _. blia. Qed.

Lemma encode_key_spec data ty schema value key :
  decode data = Ok ty -> Schema_decode data = Ok schema -> encode_key schema value = Ok key ->
  exists v, decode_value ty value = Ok v /\ key = key_of v.
Proof.
  intros Hd Hs Hk. pose proof (encode_key_ceiling _ _ _ Hk) as Hc. pose proof (decode_valid _ _ Hd) as Hty.
  apply Schema_decode_iff in Hs as (ty' & node & Hd' & Hn & ->).
  rewrite Hd in Hd'. injection Hd' as <-.
  apply encode_key_iff in Hk as (v & He & Ha & Hw & ->); [|done..].
  exists v. split; [by apply (decode_value_iff _ 1) | done].
Qed.

Lemma key_codec_iff data schema value key :
  Schema_decode data = Ok schema ->
  (encode_key schema value = Ok key <-> decode_key schema key = Ok value) /\
  (encode_key schema value = Ok key -> len key <= schema_max_key_bytes schema <= MAX_KEY_BYTES).
Proof.
  intros (ty & node & Hd%decode_valid & Hn & ->)%Schema_decode_iff. split; [split|]; intros H.
  - pose proof (encode_key_ceiling _ _ _ H). apply decode_key_iff; [done..|]. by apply (encode_key_iff ty node data).
  - pose proof (decode_key_ceiling _ _ _ H). apply encode_key_iff; [done..|]. by apply (decode_key_iff ty node data).
  - pose proof (encode_key_ceiling _ _ _ H) as Hc. split; [|done].
    apply encode_key_iff in H as (v & He & Ha & Hw & ->); [|done..]. by eapply len_key_of.
Qed.

Lemma keys_ordered data ty schema b1 b2 v1 v2 k1 k2 :
  decode data = Ok ty -> Schema_decode data = Ok schema ->
  decode_value ty b1 = Ok v1 -> decode_value ty b2 = Ok v2 ->
  encode_key schema b1 = Ok k1 -> encode_key schema b2 = Ok k2 ->
  forall r1 r2, cmp (k1 ++ r1) (k2 ++ r2) = lex (value_cmp v1 v2) (cmp r1 r2).
Proof.
  intros Hd Hs Hv1 Hv2 Hk1 Hk2 r1 r2. pose proof (decode_valid _ _ Hd) as Hty.
  destruct (encode_key_spec _ _ _ _ _ Hd Hs Hk1) as (w1 & Hw1 & ->).
  rewrite Hv1 in Hw1. injection Hw1 as <-.
  destruct (encode_key_spec _ _ _ _ _ Hd Hs Hk2) as (w2 & Hw2 & ->).
  rewrite Hv2 in Hw2. injection Hw2 as <-.
  apply Schema_decode_iff in Hs as (ty' & node & Hd' & Hn & ->).
  rewrite Hd in Hd'. injection Hd' as <-.
  rewrite (decode_value_iff _ 1) in Hv1, Hv2 by done.
  apply (cmp_key_of ty 1); naive_solver.
Qed.

(** ** Reading values and keys does not panic *)
Lemma TypeNode_ind' (P : TypeNode -> Prop) :
  (forall node, (forall fields, node <> Node_Tuple fields) -> P node) ->
  (forall fields, Forall P fields -> P (Node_Tuple fields)) -> forall node, P node.
Proof.
  intros Hleaf Htuple. fix IH 1. intros node. destruct node; try (apply Hleaf; congruence). apply Htuple.
  induction fields; constructor; [apply IH|done].
Qed.

#[export] Hint Resolve schema_take_no_panic schema_take_le_no_panic schema_take_byte_no_panic unescape_no_panic : no_panic.

Lemma read_value_total node : forall input key,
  no_panic (read_value node input key) /\
  forall rest key', read_value node input key = Ok (rest, key') -> is_Some key -> is_Some key'.
Proof.
  induction node as [node Hleaf|fields IH] using TypeNode_ind'; intros input key; cbn [read_value].
  - split; [destruct node; cbn [read_value]; solve_no_panic; by destruct (Hleaf fields)|].
    intros rest key' H [k ->]. destruct node; cbn [read_value push] in H; inv_ok; try (by eexists). by destruct (Hleaf fields).
  - revert input key. induction IH as [|f fields Hf _ IHf]; intros input key; cbn [read_fields].
    { split; [done|]. by intros rest key' [= <- <-]. }
    destruct (Hf input key) as [Hn Hk]. destruct (read_value f input key) as [[in1 key1]| |]; cbn [bindR]; [|done|done].
    destruct (IHf in1 key1) as [Hn' Hk']. split; [done|]. intros rest key' H Hs. eapply Hk'; [exact H|]. by eapply Hk.
Qed.

Lemma encode_key_no_panic schema value : no_panic (encode_key schema value).
Proof.
  unfold encode_key. destruct (_ >? _); [done|]. destruct (_ >? _); [done|].
  destruct (read_value_total (schema_node schema) value (Some [])) as [Hn Hk].
  destruct (read_value _ _ _) as [[rest key]| |]; cbn [bindR]; [|done|done]. destruct rest; [|done].
  destruct (Hk [] key eq_refl ltac:(done)) as [k ->]. done.
Qed.

Lemma read_key_no_panic node : forall input value, no_panic (read_key node input value).
Proof.
  induction node as [node Hleaf|fields IH] using TypeNode_ind'; intros input value; cbn [read_key].
  - destruct node; cbn [read_key]; solve_no_panic. by destruct (Hleaf fields).
  - revert input value. induction IH as [|f fields Hf _ IHf]; intros input value; cbn [read_fields]; [done|].
    apply bindR_no_panic; [apply Hf|]. intros [? ?] _. apply IHf.
Qed.

Lemma decode_key_no_panic schema key : no_panic (decode_key schema key).
Proof.
  unfold decode_key. destruct (_ >? _); [done|]. destruct (_ >? _); [done|].
  apply bindR_no_panic; [apply read_key_no_panic|]. intros [[] ?] _; [|done]. solve_no_panic.
Qed.
#[export] Hint Resolve encode_key_no_panic decode_key_no_panic : no_panic.
