(* ===== verification/Limits.v ===== *)
(** * Resource limits ([src/src/limits.rs], [LimitPolicy] of
      [src/src/storage/metadata.rs])

    The seventeen named limits, the validated policy they convert to, and the
    policy's 140-byte encoding. *)
From S2P Require Import Prelude Errors Bytes.

Definition POLICY_LENGTH : Z := 140.

Definition LIMIT_CEILINGS : list Z :=
  [ 16 * 1024 * 1024;
    65535;
    65535;
    65535;
    16 * 1024 * 1024;
    65535;
    16384;
    65535;
    65535;
    1024;
    16 * 1024 * 1024;
    64 * 1024 * 1024;
    65535;
    64 * 1024 * 1024;
    65535;
    64 * 1024 * 1024;
    16 * 1024 * 1024 ].

(** [LimitPolicy([u64; 17])]. *)
Record LimitPolicy : Type := { values : list Z }.

(** [values()[i]], an index into an array of seventeen. *)
Definition limit (policy : LimitPolicy) (i : nat) : Z := nth i (values policy) 0.

Fixpoint any_above (values ceilings : list Z) : bool :=
  match values, ceilings with
  | value :: values, ceiling :: ceilings => (value >? ceiling) || any_above values ceilings
  | _, _ => false
  end.

Definition validate_limits (values : list Z) : Result string unit :=
  if any_above values LIMIT_CEILINGS
  then Err "limit policy exceeds a hard ceiling"%string
  else Ok tt.

(** [LimitPolicy::new] *)
Definition LimitPolicy_new (values : list Z) : Result StorageError LimitPolicy :=
  let* _ := map_err InvalidInput (validate_limits values) in
  Ok {| values := values |}.

(** [LimitPolicy::encode] *)
Definition LimitPolicy_encode (policy : LimitPolicy) : bytes :=
  le_bytes 2 1 ++ le_bytes 2 0 ++ concat (map (le_bytes 8) (values policy)).

Definition check_version (version : Z) (format : string) : Result StorageError unit :=
  if negb (version =? 1) then Err (StorageUnsupported format version) else Ok tt.

(** [LimitPolicy::decode] *)
Definition LimitPolicy_decode (data : bytes) : Result StorageError LimitPolicy :=
  if negb (len data =? POLICY_LENGTH) then Err (Corrupt "invalid limit policy length") else
  let* version := uint_at data 2 0 in
  let* _ := check_version version "limit policy" in
  let* reserved := uint_at data 2 2 in
  if negb (reserved =? 0) then Err (Corrupt "nonzero limit policy reserved field") else
  let* values := mapR (fun index => uint_at data 8 (4 + Z.of_nat index * 8)) (seq 0 17) in
  let* _ := map_err Corrupt (validate_limits values) in
  Ok {| values := values |}.

Record Limits : Type := {
  program_bytes : Z;
  instructions : Z;
  registers : Z;
  arguments : Z;
  argument_bytes : Z;
  tables : Z;
  manifest_scopes : Z;
  point_accesses : Z;
  distinct_keys : Z;
  key_bytes : Z;
  value_bytes : Z;
  register_bytes : Z;
  range_rows : Z;
  range_bytes : Z;
  writes : Z;
  overlay_bytes : Z;
  result_bytes : Z }.

(** [Default for Limits] *)
Definition Limits_default : Limits :=
  {| program_bytes := 16 * 1024 * 1024;
     instructions := 65535;
     registers := 65535;
     arguments := 65535;
     argument_bytes := 16 * 1024 * 1024;
     tables := 65535;
     manifest_scopes := 16384;
     point_accesses := 65535;
     distinct_keys := 65535;
     key_bytes := 1024;
     value_bytes := 16 * 1024 * 1024;
     register_bytes := 64 * 1024 * 1024;
     range_rows := 65535;
     range_bytes := 64 * 1024 * 1024;
     writes := 65535;
     overlay_bytes := 64 * 1024 * 1024;
     result_bytes := 16 * 1024 * 1024 |}.

Definition limit_values (limits : Limits) : list Z :=
  [ program_bytes limits;
    instructions limits;
    registers limits;
    arguments limits;
    argument_bytes limits;
    tables limits;
    manifest_scopes limits;
    point_accesses limits;
    distinct_keys limits;
    key_bytes limits;
    value_bytes limits;
    register_bytes limits;
    range_rows limits;
    range_bytes limits;
    writes limits;
    overlay_bytes limits;
    result_bytes limits ].

(** [TryFrom<Limits> for LimitPolicy] *)
Definition Limits_try_from (limits : Limits) : Result StorageError LimitPolicy :=
  LimitPolicy_new (limit_values limits).

(** [From<&LimitPolicy> for Limits] *)
Definition Limits_from (policy : LimitPolicy) : Limits :=
  let values := limit policy in
  {| program_bytes := values 0%nat;
     instructions := values 1%nat;
     registers := values 2%nat;
     arguments := values 3%nat;
     argument_bytes := values 4%nat;
     tables := values 5%nat;
     manifest_scopes := values 6%nat;
     point_accesses := values 7%nat;
     distinct_keys := values 8%nat;
     key_bytes := values 9%nat;
     value_bytes := values 10%nat;
     register_bytes := values 11%nat;
     range_rows := values 12%nat;
     range_bytes := values 13%nat;
     writes := values 14%nat;
     overlay_bytes := values 15%nat;
     result_bytes := values 16%nat |}.

(** ** Invariant of a policy: seventeen limits below their ceilings *)
Definition policy_wf (policy : LimitPolicy) : Prop :=
  length (values policy) = 17%nat /\
  Forall2 (fun value ceiling => 0 <= value <= ceiling) (values policy) LIMIT_CEILINGS.

Lemma limit_le policy i :
  policy_wf policy -> 0 <= limit policy i <= nth i LIMIT_CEILINGS 0.
Proof.
  intros [_ H]. unfold limit. revert i. induction H as [|v c vs cs Hv H IH]; intros [|i]; simpl; try lia; auto.
Qed.

(** Every limit is at most 64 MiB. *)
Lemma limit_small policy i : policy_wf policy -> 0 <= limit policy i <= 67108864.
Proof.
  intros H. pose proof (limit_le policy i H) as Hl. split; [lia|].
  assert (nth i LIMIT_CEILINGS 0 <= 67108864); [|lia].
  do 17 (destruct i as [|i]; [vm_compute; discriminate|]). by destruct i.
Qed.

Lemma any_above_false vs cs :
  length vs = length cs -> any_above vs cs = false <-> Forall2 (fun v c => v <= c) vs cs.
Proof.
  revert cs. induction vs as [|v vs IH]; intros [|c cs] Hl; simpl in *; try lia; [by split|].
  rewrite orb_false_iff, Forall2_cons, IH by lia. rewrite Z.gtb_ltb, Z.ltb_ge. done.
Qed.

Lemma policy_wf_iff policy :
  policy_wf policy <->
  length (values policy) = 17%nat /\ Forall (fun v => 0 <= v) (values policy) /\
  any_above (values policy) LIMIT_CEILINGS = false.
Proof.
  unfold policy_wf. split; intros [Hl H]; (split; [done|]).
  - rewrite any_above_false by done. clear Hl. split; induction H; constructor; auto; lia.
  - destruct H as [H0 H]. rewrite any_above_false in H by done. clear Hl.
    induction H; inversion H0; subst; constructor; auto.
Qed.

(** ** The policy codec *)
Lemma policy_wf_u64 policy : policy_wf policy -> Forall (fun v => 0 <= v < 256 ^ 8) (values policy).
Proof.
  intros Hwf. apply Forall_lookup. intros i v Hv. pose proof (limit_small policy i Hwf) as Hl.
  unfold limit in Hl. apply (nth_lookup_Some _ _ 0) in Hv. rewrite Hv in Hl.
  change (256 ^ 8) with 18446744073709551616. lia.
Qed.

Lemma length_len {A} (l : list A) n : len l = Z.of_nat n -> length l = n.
Proof. unfold len. lia. Qed.

Lemma LimitPolicy_decode_iff data policy :
  LimitPolicy_decode data = Ok policy <-> LimitPolicy_encode policy = data /\ policy_wf policy.
Proof.
  unfold LimitPolicy_decode. split.
  - destruct (len data =? POLICY_LENGTH) eqn:Elen; [|done]. cbn [negb]. apply Z.eqb_eq in Elen.
    intros H. step_ok H as version eqn Hver. unfold check_version in H.
    destruct (version =? 1) eqn:E1; [|done]. cbn [negb bindR] in H. step_ok H as reserved eqn Hres.
    destruct (reserved =? 0) eqn:E0; [|done]. cbn [negb] in H. step_ok H as vs eqn Hvs.
    step_ok H as u eqn Hval. injection H as <-. apply Z.eqb_eq in E1 as ->. apply Z.eqb_eq in E0 as ->.
    rewrite <-(take_drop 4 data) in Hvs. unfold POLICY_LENGTH, len in Elen.
    pose proof (mapR_length _ _ _ Hvs) as Hl. rewrite length_seq in Hl.
    rewrite <-(app_nil_r (drop 4 data)) in Hvs. apply words_at_inv in Hvs as [Hc Hpos].
    2: { unfold len. rewrite length_take. lia. }
    2: { unfold len. rewrite length_drop. lia. }
    unfold validate_limits in Hval. destruct (any_above _ _) eqn:Ea; [done|]. split.
    + unfold LimitPolicy_encode. cbn [values]. rewrite Hc.
      apply (uint_at_inv 2) in Hver as <-; [|done]. apply (uint_at_inv 2) in Hres as <-; [|done].
      rewrite app_assoc. change (Z.to_nat 0) with 0%nat. change (Z.to_nat 2) with 2%nat.
      by rewrite drop_0, take_take_drop, take_drop.
    + apply policy_wf_iff. by simpl.
  - intros [<- Hwf]. pose proof Hwf as (Hl17 & Hpos & Ha)%policy_wf_iff.
    unfold LimitPolicy_encode at 1. autorewrite with blop. rewrite len_words.
    replace (len (values policy)) with 17 by (unfold len; lia).
    replace (negb _) with false by done. cbv iota. unfold LimitPolicy_encode.
    pose proof (fun post => uint_at_app (E:=StorageError) [] 2 1 post 0 2 eq_refl eq_refl) as Hv.
    cbn [app] in Hv. rewrite Hv by done. unfold check_version. cbn [bindR negb Z.eqb Pos.eqb].
    rewrite (uint_at_app (le_bytes 2 1) 2 0) by done. cbn [bindR negb Z.eqb Pos.eqb].
    rewrite app_assoc. pose proof (words_at (E:=StorageError) (values policy)
      (le_bytes 2 1 ++ le_bytes 2 0) [] 4 0 (policy_wf_u64 _ Hwf) eq_refl) as Hm. rewrite app_nil_r in Hm.
    rewrite Hl17 in Hm. rewrite Hm. unfold validate_limits. cbn [bindR]. rewrite Ha. simpl. by destruct policy.
Qed.

Lemma Limits_try_from_ok limits policy :
  Limits_try_from limits = Ok policy <->
  policy = {| values := limit_values limits |} /\ any_above (limit_values limits) LIMIT_CEILINGS = false.
Proof.
  unfold Limits_try_from, LimitPolicy_new, validate_limits. destruct (any_above _ _); simpl; naive_solver.
Qed.

Lemma Limits_from_values policy : length (values policy) = 17%nat -> limit_values (Limits_from policy) = values policy.
Proof.
  destruct policy as [vs]; simpl. intros H. do 17 (destruct vs as [|? vs]; [done|]). by destruct vs.
Qed.

Lemma LimitPolicy_decode_no_panic data : no_panic (LimitPolicy_decode data).
Proof.
  unfold LimitPolicy_decode. destruct (len data =? POLICY_LENGTH) eqn:El; [|done]. apply Z.eqb_eq in El. cbn [negb].
  unfold POLICY_LENGTH in El. apply bindR_no_panic; [apply uint_at_no_panic; lia|]. intros version _.
  apply bindR_no_panic; [unfold check_version; by destruct (negb _)|]. intros _ _.
  apply bindR_no_panic; [apply uint_at_no_panic; lia|]. intros reserved _. destruct (negb _); [done|].
  apply bindR_no_panic; [apply mapR_no_panic, Forall_forall|].
  - intros i Hi%list_elem_of_In%in_seq. apply uint_at_no_panic. lia.
  - intros vs _. unfold validate_limits. by destruct (any_above _ _).
Qed.
