(* ===== verification/Operations.v ===== *)
(** * Value operations ([src/src/vm/operations.rs])

    The pure transforms of [BinaryOp], [UnaryOp] and [slice].  [Panic] marks
    the source's [unreachable!] arms, which the program verifier excludes.
    SHA-256 comes from the [sha2] crate and is a parameter. *)
From S2P Require Import Prelude Errors Value ValueFacts.

(** [AbortReason] of [src/src/vm/mod.rs]. *)
Inductive AbortReason : Type :=
| MissingKey
| KeyExists
| RequireFailed
| ExplicitAbort
| IntegerOverflow
| BoundExceeded
| ResourceLimit
| DivisionByZero
| InvalidShift
| IndexOutOfBounds
| InvalidUtf8
| NameInUse
| TableNotLive.
#[export] Instance AbortReason_eq_dec : EqDecision AbortReason.
Proof. solve_decision. Defined.

(** [BinaryOp] and [UnaryOp] of [src/src/vm/program.rs]. *)
Inductive BinaryOp : Type :=
| Add | Sub | Mul | Div | Rem
| EqOp | LtOp | LeOp | GtOp | GeOp
| BoolAnd | BoolOr | BoolXor
| BitAnd | BitOr | BitXor
| Shl | Shr
| RowsKey | RowsValue
| Concat.
#[export] Instance BinaryOp_eq_dec : EqDecision BinaryOp.
Proof. solve_decision. Defined.

Inductive UnaryOp : Type :=
| Neg | ToI64 | ToU64 | BoolNot | BitNot
| RowsLen | ByteLen | Utf8Bytes | ParseUtf8 | Sha256.
#[export] Instance UnaryOp_eq_dec : EqDecision UnaryOp.
Proof. solve_decision. Defined.

(** [rows.get(index)] for a [u64] index. *)
Definition get_row {A} (rows : list A) (index : Z) : option A :=
  if index <? len rows then rows !! Z.to_nat index else None.

(** [i64::checked_rem]: [MIN % -1] overflows. *)
Definition checked_rem_i64 (a b : Z) : option Z :=
  if (a =? i64_min) && (b =? -1) then None else Some (Z.rem a b).

Definition binary_i64 (op : BinaryOp) (a b : Z) : Result AbortReason (option Z) :=
  if match op with Div | Rem => true | _ => false end && (b =? 0) then Err DivisionByZero else
  match op with
  | Add => Ok (checked_i64 (a + b))
  | Sub => Ok (checked_i64 (a - b))
  | Mul => Ok (checked_i64 (a * b))
  | Div => Ok (checked_i64 (Z.quot a b))
  | Rem => Ok (checked_rem_i64 a b)
  | BitAnd => Ok (Some (Z.land a b))
  | BitOr => Ok (Some (Z.lor a b))
  | BitXor => Ok (Some (Z.lxor a b))
  | _ => Panic
  end.

Definition binary_u64 (op : BinaryOp) (a b : Z) : Result AbortReason (option Z) :=
  if match op with Div | Rem => true | _ => false end && (b =? 0) then Err DivisionByZero else
  match op with
  | Add => Ok (checked_u64 (a + b))
  | Sub => Ok (checked_u64 (a - b))
  | Mul => Ok (checked_u64 (a * b))
  | Div => Ok (checked_u64 (Z.quot a b))
  | Rem => Ok (checked_u64 (Z.rem a b))
  | BitAnd => Ok (Some (Z.land a b))
  | BitOr => Ok (Some (Z.lor a b))
  | BitXor => Ok (Some (Z.lxor a b))
  | _ => Panic
  end.

Definition binary_bool (op : BinaryOp) (a b : bool) : Result AbortReason bool :=
  match op with
  | BoolAnd => Ok (a && b)
  | BoolOr => Ok (a || b)
  | BoolXor => Ok (xorb a b)
  | _ => Panic
  end.

Definition binary (op : BinaryOp) (left_ right_ : Value) (destination : Ty)
    : Result AbortReason Value :=
  match op with
  | EqOp => Ok (Value_Boolean (bool_decide (left_ = right_)))
  | LtOp => Ok (Value_Boolean (cmp_lt left_ right_))
  | LeOp => Ok (Value_Boolean (cmp_le left_ right_))
  | GtOp => Ok (Value_Boolean (cmp_lt right_ left_))
  | GeOp => Ok (Value_Boolean (cmp_le right_ left_))
  | RowsKey | RowsValue =>
      match left_, right_ with
      | Value_Rows rows, Value_U64 index =>
          let* row := ok_or IndexOutOfBounds (get_row rows index) in
          Ok (if decide (op = RowsKey) then row.1 else row.2)
      | _, _ => Panic
      end
  | Shl | Shr =>
      match right_ with
      | Value_U64 count =>
          if count >=? 64 then Err InvalidShift else
          match left_ with
          | Value_I64 number =>
              Ok (Value_I64 (if decide (op = Shl) then wrap_i64 (Z.shiftl number count)
                             else Z.shiftr number count))
          | Value_U64 number =>
              Ok (Value_U64 (if decide (op = Shl) then wrap_u64 (Z.shiftl number count)
                             else Z.shiftr number count))
          | _ => Panic
          end
      | _ => Panic
      end
  | _ =>
      match left_, right_ with
      | Value_I64 a, Value_I64 b =>
          let* result := binary_i64 op a b in
          let* number := ok_or IntegerOverflow result in
          Ok (Value_I64 number)
      | Value_U64 a, Value_U64 b =>
          let* result := binary_u64 op a b in
          let* number := ok_or IntegerOverflow result in
          Ok (Value_U64 number)
      | Value_Boolean a, Value_Boolean b =>
          let* result := binary_bool op a b in
          Ok (Value_Boolean result)
      | Value_Bytes a, Value_Bytes b =>
          match op, destination with
          | Concat, Type_Bytes bound =>
              if len a + len b >? bound then Err BoundExceeded else Ok (Value_Bytes (a ++ b))
          | _, _ => Panic
          end
      | Value_String a, Value_String b =>
          match op, destination with
          | Concat, Type_String bound =>
              if len a + len b >? bound then Err BoundExceeded else Ok (Value_String (a ++ b))
          | _, _ => Panic
          end
      | _, _ => Panic
      end
  end.

Definition slice (source start length : Value) : Result AbortReason Value :=
  match source, start, length with
  | Value_Bytes data, Value_U64 start, Value_U64 length =>
      if (start >? len data) || (length >? len data - start) then Err IndexOutOfBounds else
      Ok (Value_Bytes (take (Z.to_nat length) (drop (Z.to_nat start) data)))
  | _, _, _ => Panic
  end.

Section Unary.
Context (sha256 : bytes -> bytes).

Definition unary (op : UnaryOp) (source : Value) : Result AbortReason Value :=
  match op, source with
  | Neg, Value_I64 number =>
      let* number := ok_or IntegerOverflow (checked_i64 (- number)) in Ok (Value_I64 number)
  | ToI64, Value_U64 number =>
      let* number := ok_or IntegerOverflow (checked_i64 number) in Ok (Value_I64 number)
  | ToU64, Value_I64 number =>
      let* number := ok_or IntegerOverflow (checked_u64 number) in Ok (Value_U64 number)
  | BoolNot, Value_Boolean value => Ok (Value_Boolean (negb value))
  | BitNot, Value_I64 value => Ok (Value_I64 (Z.lnot value))
  | BitNot, Value_U64 value => Ok (Value_U64 (not_u64 value))
  | RowsLen, Value_Rows rows => Ok (Value_U64 (len rows))
  | ByteLen, Value_Bytes data => Ok (Value_U64 (len data))
  | ByteLen, Value_String text => Ok (Value_U64 (len text))
  | Utf8Bytes, Value_String text => Ok (Value_Bytes text)
  | ParseUtf8, Value_Bytes data =>
      if utf8_valid data then Ok (Value_String data) else Err InvalidUtf8
  | Sha256, Value_Bytes data => Ok (Value_Bytes (sha256 data))
  | _, _ => Panic
  end.
End Unary.
