(* ===== verification/Program.v ===== *)
(** * ISA 1 programs: reader and verifier ([src/src/vm/program.rs])

    [read_instructions] and [decode_program] turn bytes into typed
    instructions; [verify] checks operand shapes, definite initialization and
    forward control flow over both sides of every branch. *)
From S2P Require Import Prelude Errors Value ValueFacts Limits Operations.

(** [Table] of [src/src/vm/mod.rs]. *)
Record Table : Type := { table_id : Z; table_key : Ty; table_value : Ty }.

Inductive Instruction : Type :=
| Const (dst constant : nat)
| Arg (dst argument : nat)
| Move (dst src : nat)
| Binary (op : BinaryOp) (dst left_ right_ : nat)
| Unary (op : UnaryOp) (dst src : nat)
| Load (dst table key : nat)
| Exists (dst table key : nat)
| Insert (table key value : nat)
| Store (table key value : nat)
| Delete (table key : nat)
| Scan (dst table : nat) (lower upper : option nat) (flags : byte) (row_limit byte_limit : Z)
| Slice (dst src start length : nat)
| Tuple (dst : nat) (fields : list nat)
| Field (dst src field : nat)
| Jump (target : nat)
| JumpIfFalse (condition target : nat)
| Require_ (condition : nat) (user_code : Z)
| Abort_ (user_code : Z)
| Return (src : nat).

Record Program : Type := {
  result_type : Ty;
  prog_tables : list Table;
  prog_arguments : list Value;
  register_types : list Ty;
  constants : list Value;
  prog_instructions : list Instruction }.

Record Header : Type := {
  header_registers : Z;
  header_arguments : Z;
  header_tables : Z;
  header_constants : Z;
  header_instructions : Z }.

Definition MAX_PROGRAM_BYTES : Z := 16 * 1024 * 1024.

(** ** [Reader] *)
Definition reader_take (reader : bytes) (length : Z) : Result Error (bytes * bytes) :=
  ok_or (Error_Invalid "truncated program or arguments") (split_at length reader).
Definition reader_uint (n : Z) (reader : bytes) : Result Error (Z * bytes) :=
  let* (data, reader) := reader_take reader n in Ok (from_le data, reader).
Definition reader_u8 (reader : bytes) : Result Error (byte * bytes) :=
  let* (data, reader) := reader_take reader 1 in
  let* b := expect (head data) in Ok (b, reader).
(** [Reader::u16] widens to [usize]. *)
Definition reader_u16 : bytes -> Result Error (Z * bytes) := reader_uint 2.
Definition reader_u32 : bytes -> Result Error (Z * bytes) := reader_uint 4.
Definition reader_u64 : bytes -> Result Error (Z * bytes) := reader_uint 8.
Definition reader_index (reader : bytes) : Result Error (nat * bytes) :=
  let* (n, reader) := reader_u16 reader in Ok (Z.to_nat n, reader).
Definition reader_target (reader : bytes) : Result Error (nat * bytes) :=
  let* (n, reader) := reader_u32 reader in Ok (Z.to_nat n, reader).
Definition reader_blob (reader : bytes) : Result Error (bytes * bytes) :=
  let* (length, reader) := reader_u32 reader in reader_take reader length.
Definition reader_finish (reader : bytes) : Result Error unit :=
  match reader with
  | [] => Ok tt
  | _ => Err (Error_Invalid "trailing program or argument bytes")
  end.

(** [b"BLOPVM01"] *)
Definition program_magic : bytes := [x42; x4c; x4f; x50; x56; x4d; x30; x31].

Definition header (data : bytes) : Result Error (Header * bytes) :=
  if len data >? MAX_PROGRAM_BYTES then Err (Error_Invalid "program_bytes exceeds hard ceiling") else
  let* (magic, reader) := reader_take data 8 in
  if negb (bool_decide (magic = program_magic)) then Err (Error_Invalid "invalid program magic") else
  let* (version, reader) := reader_u16 reader in
  if negb (version =? 1) then Err (Error_Unsupported "ISA" version) else
  let* (flags, reader) := reader_u16 reader in
  if negb (flags =? 0) then Err (Error_Invalid "nonzero program flags") else
  let* (total, reader) := reader_u32 reader in
  if negb (total =? len data) then Err (Error_Invalid "invalid total program length") else
  let* (registers, reader) := reader_u16 reader in
  let* (arguments, reader) := reader_u16 reader in
  let* (tables, reader) := reader_u16 reader in
  let* (constants, reader) := reader_u16 reader in
  let* (instructions, reader) := reader_u32 reader in
  if negb ((1 <=? instructions) && (instructions <=? 65535)) then
    Err (Error_Invalid "instruction count must be from 1 through 65535") else
  let* (reserved, reader) := reader_u32 reader in
  if negb (reserved =? 0) then Err (Error_Invalid "nonzero program reserved field") else
  Ok ({| header_registers := registers; header_arguments := arguments; header_tables := tables;
         header_constants := constants; header_instructions := instructions |}, reader).

(** [for _ in 0..count { .. reader .. }] *)
Section read_many.
Context {A : Type} (read : bytes -> Result Error (A * bytes)).
Fixpoint read_many (count : nat) (reader : bytes) : Result Error (list A * bytes) :=
  match count with
  | O => Ok ([], reader)
  | S count =>
      let* (x, reader) := read reader in
      let* (xs, reader) := read_many count reader in
      Ok (x :: xs, reader)
  end.
End read_many.

Fixpoint read_table_ids (count : nat) (last : option Z) (reader : bytes) : Result Error (list Z) :=
  match count with
  | O => Ok []
  | S count =>
      let* (id, reader) := reader_u64 reader in
      if (id =? 0) || (id =? u64_max)
         || match last with Some last => last >=? id | None => false end
      then Err (Error_Invalid "table IDs must be valid and strictly increasing") else
      let* ids := read_table_ids count (Some id) reader in
      Ok (id :: ids)
  end.

Definition read_tables (reader : bytes) (count : Z) : Result Error (list Z * bytes) :=
  let* length := ok_or (Error_Invalid "table array length overflow") (checked_u64 (count * 8)) in
  let* (array, reader) := reader_take reader length in
  let* ids := read_table_ids (Z.to_nat count) None array in
  Ok (ids, reader).

Definition table_ids (program_bytes : bytes) : Result Error (list Z) :=
  let* (header, reader) := header program_bytes in
  let* (descriptor, reader) := reader_blob reader in
  let* _ := decode descriptor in
  let* (ids, _) := read_tables reader (header_tables header) in
  Ok ids.

(** ** Instructions *)
Definition binary_opcode (opcode : byte) : option BinaryOp :=
  match opcode with
  | x10 => Some Add
  | x11 => Some Sub
  | x12 => Some Mul
  | x13 => Some Div
  | x14 => Some Rem
  | x20 => Some EqOp
  | x21 => Some LtOp
  | x22 => Some LeOp
  | x23 => Some GtOp
  | x24 => Some GeOp
  | x28 => Some BoolAnd
  | x29 => Some BoolOr
  | x2a => Some BoolXor
  | x30 => Some BitAnd
  | x31 => Some BitOr
  | x32 => Some BitXor
  | x34 => Some Shl
  | x35 => Some Shr
  | x4a => Some RowsKey
  | x4b => Some RowsValue
  | x51 => Some Concat
  | _ => None
  end.

Definition unary_opcode (opcode : byte) : option UnaryOp :=
  match opcode with
  | x15 => Some Neg
  | x16 => Some ToI64
  | x17 => Some ToU64
  | x2b => Some BoolNot
  | x33 => Some BitNot
  | x49 => Some RowsLen
  | x50 => Some ByteLen
  | x53 => Some Utf8Bytes
  | x54 => Some ParseUtf8
  | x55 => Some Sha256
  | _ => None
  end.

Definition read_scan (operands : bytes) : Result Error (Instruction * bytes) :=
  let* (dst, operands) := reader_index operands in
  let* (table, operands) := reader_index operands in
  let* (lower, operands) := reader_u16 operands in
  let* (upper, operands) := reader_u16 operands in
  let lower := if negb (lower =? 0xffff) then Some (Z.to_nat lower) else None in
  let upper := if negb (upper =? 0xffff) then Some (Z.to_nat upper) else None in
  let* (flags, operands) := reader_u8 operands in
  if byte_Z flags >? 3 then Err (Error_Invalid "invalid scan flags or reserved field") else
  let* (reserved, operands) := reader_u8 operands in
  if negb (bool_decide (reserved = x00)) then Err (Error_Invalid "invalid scan flags or reserved field") else
  if (negb (bool_decide (is_Some lower)) && Z.testbit (byte_Z flags) 0)
     || (negb (bool_decide (is_Some upper)) && Z.testbit (byte_Z flags) 1) then
    Err (Error_Invalid "absent scan endpoint cannot be inclusive") else
  let* (row_limit, operands) := reader_u32 operands in
  let* (byte_limit, operands) := reader_u64 operands in
  Ok (Scan dst table lower upper flags row_limit byte_limit, operands).

(** The operands of one instruction, and what is left of them. *)
Definition read_operands (opcode : byte) (operands : bytes) : Result Error (Instruction * bytes) :=
  match binary_opcode opcode, unary_opcode opcode, opcode with
  | Some op, _, _ =>
      let* (dst, operands) := reader_index operands in
      let* (left_, operands) := reader_index operands in
      let* (right_, operands) := reader_index operands in
      Ok (Binary op dst left_ right_, operands)
  | None, Some op, _ =>
      let* (dst, operands) := reader_index operands in
      let* (src, operands) := reader_index operands in
      Ok (Unary op dst src, operands)
  | None, None, x01 =>
      let* (dst, operands) := reader_index operands in
      let* (constant, operands) := reader_index operands in
      Ok (Const dst constant, operands)
  | None, None, x02 =>
      let* (dst, operands) := reader_index operands in
      let* (argument, operands) := reader_index operands in
      Ok (Arg dst argument, operands)
  | None, None, x03 =>
      let* (dst, operands) := reader_index operands in
      let* (src, operands) := reader_index operands in
      Ok (Move dst src, operands)
  | None, None, x40 =>
      let* (dst, operands) := reader_index operands in
      let* (table, operands) := reader_index operands in
      let* (key, operands) := reader_index operands in
      Ok (Load dst table key, operands)
  | None, None, x41 =>
      let* (dst, operands) := reader_index operands in
      let* (table, operands) := reader_index operands in
      let* (key, operands) := reader_index operands in
      Ok (Exists dst table key, operands)
  | None, None, x42 =>
      let* (table, operands) := reader_index operands in
      let* (key, operands) := reader_index operands in
      let* (value, operands) := reader_index operands in
      Ok (Insert table key value, operands)
  | None, None, x43 =>
      let* (table, operands) := reader_index operands in
      let* (key, operands) := reader_index operands in
      let* (value, operands) := reader_index operands in
      Ok (Store table key value, operands)
  | None, None, x44 =>
      let* (table, operands) := reader_index operands in
      let* (key, operands) := reader_index operands in
      Ok (Delete table key, operands)
  | None, None, x48 => read_scan operands
  | None, None, x52 =>
      let* (dst, operands) := reader_index operands in
      let* (src, operands) := reader_index operands in
      let* (start, operands) := reader_index operands in
      let* (length, operands) := reader_index operands in
      Ok (Slice dst src start length, operands)
  | None, None, x58 =>
      let* (dst, operands) := reader_index operands in
      let* (count, operands) := reader_u16 operands in
      if count >? 256 then Err (Error_Invalid "TUPLE exceeds 256 fields") else
      let* (fields, operands) := read_many reader_index (Z.to_nat count) operands in
      Ok (Tuple dst fields, operands)
  | None, None, x59 =>
      let* (dst, operands) := reader_index operands in
      let* (src, operands) := reader_index operands in
      let* (field, operands) := reader_index operands in
      Ok (Field dst src field, operands)
  | None, None, x60 =>
      let* (target, operands) := reader_target operands in
      Ok (Jump target, operands)
  | None, None, x61 =>
      let* (condition, operands) := reader_index operands in
      let* (target, operands) := reader_target operands in
      Ok (JumpIfFalse condition target, operands)
  | None, None, x62 =>
      let* (condition, operands) := reader_index operands in
      let* (user_code, operands) := reader_u32 operands in
      Ok (Require_ condition user_code, operands)
  | None, None, x63 =>
      let* (user_code, operands) := reader_u32 operands in
      Ok (Abort_ user_code, operands)
  | None, None, x64 =>
      let* (src, operands) := reader_index operands in
      Ok (Return src, operands)
  | None, None, _ => Err (Error_Invalid "unknown ISA 1 opcode")
  end.

Definition read_instruction (reader : bytes) : Result Error (Instruction * bytes) :=
  let* (opcode, reader) := reader_u8 reader in
  let* (flags, reader) := reader_u8 reader in
  if negb (bool_decide (flags = x00)) then Err (Error_Invalid "nonzero instruction flags") else
  let* (length, reader) := reader_u16 reader in
  let* (operands, reader) := reader_take reader length in
  let* (instruction, operands) := read_operands opcode operands in
  match operands with
  | [] => Ok (instruction, reader)
  | _ => Err (Error_Invalid "incorrect instruction operand length")
  end.

Definition read_instructions (reader : bytes) (count : Z) : Result Error (list Instruction * bytes) :=
  read_many read_instruction (Z.to_nat count) reader.

(** ** The verifier *)
Definition check_shape (a b : Ty) : Result Error unit :=
  if negb (same_shape a b) then Err (Error_Invalid "instruction type shape mismatch") else Ok tt.

Definition is_integer (ty : Ty) : bool :=
  match ty with Type_I64 | Type_U64 => true | _ => false end.
Definition is_rows (ty : Ty) : bool :=
  match ty with Type_Rows _ _ _ => true | _ => false end.
Definition is_text (ty : Ty) : bool :=
  match ty with Type_Bytes _ | Type_String _ => true | _ => false end.

Definition integer (ty : Ty) : Result Error unit :=
  if negb (is_integer ty) then Err (Error_Invalid "instruction requires an integer") else Ok tt.

(** The register bitset: 64 registers to a [u64] word. *)
Definition bit_mask (index : nat) : Z := Z.shiftl 1 (Z.of_nat (index mod 64)).
Definition bit_get (initialized : list Z) (index : nat) : Result Error bool :=
  let* word := expect (initialized !! (index / 64)%nat) in
  Ok (negb (Z.land word (bit_mask index) =? 0)).
Definition bit_set (initialized : list Z) (index : nat) : Result Error (list Z) :=
  let* word := expect (initialized !! (index / 64)%nat) in
  Ok (<[(index / 64)%nat := Z.lor word (bit_mask index)]> initialized).

Definition check_binary (op : BinaryOp) (destination left_ right_ : Ty) : Result Error unit :=
  match op with
  | Add | Sub | Mul | Div | Rem | BitAnd | BitOr | BitXor =>
      let* _ := integer destination in
      let* _ := check_shape destination left_ in
      check_shape destination right_
  | EqOp | LtOp | LeOp | GtOp | GeOp =>
      let* _ := check_shape destination Type_Boolean in
      let* _ := check_shape left_ right_ in
      if is_rows left_ then Err (Error_Invalid "Rows cannot be compared") else Ok tt
  | BoolAnd | BoolOr | BoolXor =>
      let* _ := check_shape destination Type_Boolean in
      let* _ := check_shape left_ Type_Boolean in
      check_shape right_ Type_Boolean
  | Shl | Shr =>
      let* _ := integer destination in
      let* _ := check_shape destination left_ in
      check_shape right_ Type_U64
  | RowsKey | RowsValue =>
      match left_ with
      | Type_Rows _ key value =>
          let* _ := check_shape right_ Type_U64 in
          if decide (op = RowsKey) then check_shape destination key
          else check_shape destination value
      | _ => Err (Error_Invalid "Rows instruction requires a Rows source")
      end
  | Concat =>
      if negb (is_text destination) then Err (Error_Invalid "CONCAT requires Bytes or String") else
      let* _ := check_shape destination left_ in
      check_shape destination right_
  end.

Definition check_unary (op : UnaryOp) (destination source : Ty) : Result Error unit :=
  match op with
  | Neg =>
      let* _ := check_shape destination Type_I64 in check_shape source Type_I64
  | ToI64 =>
      let* _ := check_shape destination Type_I64 in check_shape source Type_U64
  | ToU64 =>
      let* _ := check_shape destination Type_U64 in check_shape source Type_I64
  | BoolNot =>
      let* _ := check_shape destination Type_Boolean in check_shape source Type_Boolean
  | BitNot =>
      let* _ := integer destination in check_shape destination source
  | RowsLen =>
      let* _ := check_shape destination Type_U64 in
      if negb (is_rows source) then Err (Error_Invalid "Rows instruction requires a Rows source") else Ok tt
  | ByteLen =>
      let* _ := check_shape destination Type_U64 in
      if negb (is_text source) then Err (Error_Invalid "BYTE_LEN requires Bytes or String") else Ok tt
  | Utf8Bytes =>
      let* _ := check_shape destination (Type_Bytes 0) in check_shape source (Type_String 0)
  | ParseUtf8 =>
      let* _ := check_shape destination (Type_String 0) in check_shape source (Type_Bytes 0)
  | Sha256 =>
      let* _ := check_shape destination (Type_Bytes 0) in check_shape source (Type_Bytes 0)
  end.

Section Verify.
Context (program : Program) (argument_types constant_types : list Ty) (claims : LimitPolicy).

Definition register (index : nat) : Result Error Ty :=
  ok_or (Error_Invalid "register index out of bounds") (register_types program !! index).

Definition source (initialized : list Z) (index : nat) : Result Error Ty :=
  let* ty := register index in
  let* set := bit_get initialized index in
  if negb set then Err (Error_Invalid "source register is not definitely initialized") else Ok ty.

Definition table (index : nat) : Result Error Table :=
  ok_or (Error_Invalid "table index out of bounds") (prog_tables program !! index).

(** [for (ty, field) in types.iter().zip(fields) { same_shape(ty, source(field)?)? }] *)
Fixpoint check_fields (initialized : list Z) (types : list Ty) (fields : list nat) : Result Error unit :=
  match types, fields with
  | ty :: types, field :: fields =>
      let* source := source initialized field in
      let* _ := check_shape ty source in
      check_fields initialized types fields
  | _, _ => Ok tt
  end.

Definition check_endpoint (initialized : list Z) (key : Ty) (endpoint : option nat) : Result Error unit :=
  match endpoint with
  | Some endpoint => let* source := source initialized endpoint in check_shape source key
  | None => Ok tt
  end.

(** The destination register, when the instruction has one. *)
Definition verify_instruction (instruction : Instruction) (initialized : list Z)
    : Result Error (option nat) :=
  match instruction with
  | Const dst constant =>
      let* ty := ok_or (Error_Invalid "constant index out of bounds") (constant_types !! constant) in
      let* destination := register dst in
      let* _ := check_shape destination ty in
      Ok (Some dst)
  | Arg dst argument =>
      let* ty := ok_or (Error_Invalid "argument index out of bounds") (argument_types !! argument) in
      let* destination := register dst in
      let* _ := check_shape destination ty in
      Ok (Some dst)
  | Move dst src =>
      let* destination := register dst in
      let* source := source initialized src in
      let* _ := check_shape destination source in
      Ok (Some dst)
  | Binary op dst left_ right_ =>
      let* destination := register dst in
      let* left_ := source initialized left_ in
      let* right_ := source initialized right_ in
      let* _ := check_binary op destination left_ right_ in
      Ok (Some dst)
  | Unary op dst src =>
      let* destination := register dst in
      let* source := source initialized src in
      let* _ := check_unary op destination source in
      Ok (Some dst)
  | Load dst index key =>
      let* table := table index in
      let* source := source initialized key in
      let* _ := check_shape source (table_key table) in
      let* destination := register dst in
      let* _ := check_shape destination (table_value table) in
      Ok (Some dst)
  | Exists dst index key =>
      let* source := source initialized key in
      let* table := table index in
      let* _ := check_shape source (table_key table) in
      let* destination := register dst in
      let* _ := check_shape destination Type_Boolean in
      Ok (Some dst)
  | Insert index key value | Store index key value =>
      let* table := table index in
      let* key := source initialized key in
      let* _ := check_shape (table_key table) key in
      let* value := source initialized value in
      let* _ := check_shape (table_value table) value in
      Ok None
  | Delete index key =>
      let* table := table index in
      let* key := source initialized key in
      let* _ := check_shape (table_key table) key in
      Ok None
  | Scan dst index lower upper _ row_limit byte_limit =>
      if row_limit >? limit claims 12 then Err (Error_Invalid "scan range_rows exceeds claim") else
      if byte_limit >? limit claims 13 then Err (Error_Invalid "scan range_bytes exceeds claim") else
      let* table := table index in
      let* destination := register dst in
      match destination with
      | Type_Rows _ key value =>
          let* _ := check_shape key (table_key table) in
          let* _ := check_shape value (table_value table) in
          let* _ := check_endpoint initialized (table_key table) lower in
          let* _ := check_endpoint initialized (table_key table) upper in
          Ok (Some dst)
      | _ => Err (Error_Invalid "scan destination must be Rows")
      end
  | Slice dst src start length =>
      let* destination := register dst in
      let* _ := check_shape destination (Type_Bytes 0) in
      let* src := source initialized src in
      let* _ := check_shape src (Type_Bytes 0) in
      let* start := source initialized start in
      let* _ := check_shape start Type_U64 in
      let* length := source initialized length in
      let* _ := check_shape length Type_U64 in
      Ok (Some dst)
  | Tuple dst fields =>
      let* destination := register dst in
      match destination with
      | Type_Tuple types =>
          if negb (Nat.eqb (length types) (length fields)) then
            Err (Error_Invalid "TUPLE arity does not match destination") else
          let* _ := check_fields initialized types fields in
          Ok (Some dst)
      | _ => Err (Error_Invalid "TUPLE destination must be a tuple")
      end
  | Field dst src field =>
      let* source := source initialized src in
      match source with
      | Type_Tuple fields =>
          let* ty := ok_or (Error_Invalid "FIELD index out of bounds") (fields !! field) in
          let* destination := register dst in
          let* _ := check_shape destination ty in
          Ok (Some dst)
      | _ => Err (Error_Invalid "FIELD source must be a tuple")
      end
  | Jump _ | Abort_ _ => Ok None
  | JumpIfFalse condition _ | Require_ condition _ =>
      let* condition := source initialized condition in
      let* _ := check_shape Type_Boolean condition in
      Ok None
  | Return src =>
      let* source := source initialized src in
      let* _ := check_shape (result_type program) source in
      Ok None
  end.

(** [*destination &= incoming] word by word. *)
Fixpoint intersect (destination incoming : list Z) : list Z :=
  match destination, incoming with
  | d :: destination, i :: incoming => Z.land d i :: intersect destination incoming
  | destination, _ => destination
  end.

(** The state in which control reaches [index]. *)
Definition merge (fallthrough : option (list Z)) (incoming : option (option (list Z)))
    : Result Error (list Z) :=
  match fallthrough, incoming with
  | _, None => Panic
  | Some current, Some (Some incoming) => Ok (intersect current incoming)
  | Some current, Some None | None, Some (Some current) => Ok current
  | None, Some None => Err (Error_Invalid "unreachable instruction")
  end.

Definition add_pending (pending : list (option (list Z))) (target : nat) (initialized : list Z)
    : list (option (list Z)) :=
  match pending !! target with
  | Some (Some incoming) => <[target := Some (intersect incoming initialized)]> pending
  | _ => <[target := Some initialized]> pending
  end.

Definition check_target (index target : nat) : Result Error unit :=
  if Nat.leb target index || Nat.leb (length (prog_instructions program)) target then
    Err (Error_Invalid "branch target must be forward and within the program")
  else Ok tt.

(** The loop over the instructions from [index] on. *)
Fixpoint verify_loop (index : nat) (instructions : list Instruction)
    (pending : list (option (list Z))) (fallthrough : option (list Z))
    : Result Error (option (list Z)) :=
  match instructions with
  | [] => Ok fallthrough
  | instruction :: instructions =>
      let* initialized := merge fallthrough (pending !! index) in
      let pending := <[index := None]> pending in
      let* destination := verify_instruction instruction initialized in
      let* initialized :=
        match destination with
        | Some destination => bit_set initialized destination
        | None => Ok initialized
        end in
      match instruction with
      | Jump target =>
          let* _ := check_target index target in
          verify_loop (S index) instructions (add_pending pending target initialized) None
      | JumpIfFalse _ target =>
          let* _ := check_target index target in
          verify_loop (S index) instructions (add_pending pending target initialized)
            (Some initialized)
      | Abort_ _ | Return _ => verify_loop (S index) instructions pending None
      | _ => verify_loop (S index) instructions pending (Some initialized)
      end
  end.

(** [n.div_ceil(64)] *)
Definition word_count (n : nat) : nat := (n / 64 + if Nat.eqb (n mod 64) 0 then 0 else 1)%nat.

Definition verify : Result Error unit :=
  let pending := repeat None (length (prog_instructions program)) in
  let fallthrough := Some (repeat 0 (word_count (length (register_types program)))) in
  let* last := verify_loop 0 (prog_instructions program) pending fallthrough in
  match last with
  | Some _ => Err (Error_Invalid "control flow falls off the instruction array")
  | None => Ok tt
  end.
End Verify.

(** ** Complete programs *)
Definition check_claims (checks : list (Z * Z * string)) : Result Error unit :=
  foldR (fun _ '(usage, limit, reason) =>
    if usage >? limit then Err (Error_Invalid reason) else Ok tt) tt checks.

Definition read_argument_type (reader : bytes) : Result Error (Ty * bytes) :=
  let* (descriptor, reader) := reader_blob reader in
  let* ty := decode descriptor in
  if is_rows ty then Err (Error_Invalid "Rows cannot be an argument") else
  Ok (ty, reader).

Definition read_register_type (reader : bytes) : Result Error (Ty * bytes) :=
  let* (descriptor, reader) := reader_blob reader in
  let* ty := decode descriptor in
  Ok (ty, reader).

Definition read_constant (claims : LimitPolicy) (reader : bytes) : Result Error ((Ty * Value) * bytes) :=
  let* (descriptor, reader) := reader_blob reader in
  let* ty := decode descriptor in
  if is_rows ty then Err (Error_Invalid "Rows cannot be a constant") else
  let* (data, reader) := reader_blob reader in
  if len data >? limit claims 10 then Err (Error_Invalid "constant value_bytes exceeds claim") else
  let* value := decode_value ty data in
  Ok ((ty, value), reader).

Fixpoint read_arguments (claims : LimitPolicy) (types : list Ty) (reader : bytes)
    : Result Error (list Value * bytes) :=
  match types with
  | [] => Ok ([], reader)
  | ty :: types =>
      let* (data, reader) := reader_blob reader in
      if len data >? limit claims 10 then Err (Error_Invalid "argument value_bytes exceeds claim") else
      let* value := decode_value ty data in
      let* (values, reader) := read_arguments claims types reader in
      Ok (value :: values, reader)
  end.

Definition decode_program (program_bytes argument_bytes : bytes) (tables : list Table)
    (claims : LimitPolicy) : Result Error Program :=
  let* (header, reader) := header program_bytes in
  let* _ := check_claims
    [ (len program_bytes, limit claims 0, "program_bytes exceeds claim"%string);
      (header_instructions header, limit claims 1, "instructions exceeds claim"%string);
      (header_registers header, limit claims 2, "registers exceeds claim"%string);
      (header_arguments header, limit claims 3, "arguments exceeds claim"%string);
      (len argument_bytes, limit claims 4, "argument_bytes exceeds claim"%string);
      (header_tables header, limit claims 5, "tables exceeds claim"%string) ] in
  let* (descriptor, reader) := reader_blob reader in
  let* result_type := decode descriptor in
  let* (ids, reader) := read_tables reader (header_tables header) in
  if negb (bool_decide (ids = map table_id tables)) then
    Err (Error_Invalid "resolved tables do not match program table IDs") else
  let* (argument_types, reader) :=
    read_many read_argument_type (Z.to_nat (header_arguments header)) reader in
  let* (register_types, reader) :=
    read_many read_register_type (Z.to_nat (header_registers header)) reader in
  let* (typed_constants, reader) :=
    read_many (read_constant claims) (Z.to_nat (header_constants header)) reader in
  let* (instructions, reader) := read_instructions reader (header_instructions header) in
  let* _ := reader_finish reader in
  let reader := argument_bytes in
  let* (count, reader) := reader_u32 reader in
  if negb (count =? header_arguments header) then
    Err (Error_Invalid "supplied argument count does not match program") else
  let* (arguments, reader) := read_arguments claims argument_types reader in
  let* _ := reader_finish reader in
  let program :=
    {| result_type := result_type; prog_tables := tables; prog_arguments := arguments;
       register_types := register_types; constants := map snd typed_constants;
       prog_instructions := instructions |} in
  let* _ := verify program argument_types (map fst typed_constants) claims in
  Ok program.
