(* ===== verification/Flow.v ===== *)
(** * Forward dataflow over a forward-branching program

    The program verifier and the access analysis run the same loop: visit the
    instructions in order, merge the state falling through with the states
    pending at the index, transfer, and propagate to the successors.
    [flow_loop] is that loop over an abstract state; [flow_sound] says what a
    completed run establishes about every instruction and edge. *)
From S2P Require Import Prelude.

Inductive Edge : Type :=
| Edge_jump (target : nat)
| Edge_branch (target : nat)
| Edge_stop
| Edge_next.

Definition edge_target (e : Edge) : option nat :=
  match e with Edge_jump t | Edge_branch t => Some t | _ => None end.
Definition edge_falls (e : Edge) : bool :=
  match e with Edge_branch _ | Edge_next => true | _ => false end.

Section Flow.
Context {Ex St Out Ins : Type}.
Context (join : St -> St -> St) (unreachable : Result Ex St).
Context (transfer : nat -> Ins -> St -> Result Ex (St * Out)).
Context (check : nat -> nat -> Result Ex unit) (edge : Ins -> Edge).

Definition flow_merge (fallthrough : option St) (incoming : option (option St)) : Result Ex St :=
  match fallthrough, incoming with
  | _, None => Panic
  | Some current, Some (Some incoming) => Ok (join current incoming)
  | Some current, Some None | None, Some (Some current) => Ok current
  | None, Some None => unreachable
  end.

Definition flow_pend (pending : list (option St)) (target : nat) (s : St) : list (option St) :=
  match pending !! target with
  | Some (Some incoming) => <[target := Some (join incoming s)]> pending
  | _ => <[target := Some s]> pending
  end.

Fixpoint flow_loop (index : nat) (instructions : list Ins) (pending : list (option St))
    (fallthrough : option St) : Result Ex (list Out * option St) :=
  match instructions with
  | [] => Ok ([], fallthrough)
  | instruction :: instructions =>
      let* s := flow_merge fallthrough (pending !! index) in
      let pending := <[index := None]> pending in
      let* (s, o) := transfer index instruction s in
      let* _ := match edge_target (edge instruction) with
                | Some target => check index target
                | None => Ok tt
                end in
      let pending :=
        match edge_target (edge instruction) with
        | Some target => flow_pend pending target s
        | None => pending
        end in
      let* (os, last) := flow_loop (S index) instructions pending
        (if edge_falls (edge instruction) then Some s else None) in
      Ok (o :: os, last)
  end.

(** [inv] holds of every state, [le a b]: the state [a] promises no more
    than [b]. *)
Context (inv : St -> Prop) (le : St -> St -> Prop).
Context (le_refl : forall a, le a a).
Context (le_trans : forall a b c, le a b -> le b c -> le a c).
Context (join_inv : forall a b, inv a -> inv b -> inv (join a b)).
Context (join_l : forall a b, inv a -> inv b -> le (join a b) a).
Context (join_r : forall a b, inv a -> inv b -> le (join a b) b).
Context (unreachable_err : forall s, unreachable <> Ok s).
Context (transfer_inv : forall i x s s' o, transfer i x s = Ok (s', o) -> inv s -> inv s').

Definition pending_inv (pending : list (option St)) : Prop :=
  forall t s, pending !! t = Some (Some s) -> inv s.

(** What a run establishes at one instruction: a state [a] on entry, from
    which the transfer succeeds and which every successor's entry state
    refines. *)
Definition flow_at (ats : list St) (os : list Out) (last : option St) (index k : nat) (x : Ins) : Prop :=
  exists a o s, ats !! k = Some a /\ os !! k = Some o /\ inv a /\
    transfer (index + k) x a = Ok (s, o) /\
    (forall t, edge_target (edge x) = Some t ->
       check (index + k) t = Ok tt /\
       ((index + k < t)%nat -> (t - index < length ats)%nat ->
        exists a', ats !! (t - index)%nat = Some a' /\ le a' s)) /\
    (edge_falls (edge x) = true ->
       if decide (S k = length ats) then last <> None
       else exists a', ats !! S k = Some a' /\ le a' s).

Lemma flow_merge_le fallthrough incoming s :
  flow_merge fallthrough incoming = Ok s ->
  (forall c, fallthrough = Some c -> inv c) -> (forall p, incoming = Some (Some p) -> inv p) ->
  inv s /\ (forall c, fallthrough = Some c -> le s c) /\
  (forall p, incoming = Some (Some p) -> le s p).
Proof.
  unfold flow_merge. intros H Hf Hi.
  destruct fallthrough as [c|], incoming as [[p|]|]; simplify_eq/=;
    try (by apply unreachable_err in H);
    naive_solver.
Qed.

Lemma flow_pend_inv pending target s :
  pending_inv pending -> inv s -> pending_inv (flow_pend pending target s).
Proof.
  intros Hp Hs t s' H. unfold flow_pend in H.
  destruct (pending !! target) as [[p|]|] eqn:Ht0;
    apply list_lookup_insert_Some in H as [(<- & [= <-] & _)|[_ H]]; eauto.
Qed.

Lemma flow_pend_new pending target s :
  pending_inv pending -> inv s -> (target < length pending)%nat ->
  exists p, flow_pend pending target s !! target = Some (Some p) /\ le p s.
Proof.
  intros Hp Hs Ht. unfold flow_pend.
  destruct (pending !! target) as [[q|]|] eqn:Ht0;
    (eexists; split; [by apply list_lookup_insert_eq | eauto]).
Qed.

Lemma flow_pend_keep pending target s t p :
  pending_inv pending -> inv s -> pending !! t = Some (Some p) ->
  exists p', flow_pend pending target s !! t = Some (Some p') /\ le p' p.
Proof.
  intros Hp Hs Hl. unfold flow_pend. destruct (decide (t = target)) as [->|Hne].
  - rewrite Hl. exists (join p s). split; [|by eauto].
    apply list_lookup_insert_eq. by eapply lookup_lt_Some.
  - exists p. split; [|done]. destruct (pending !! target) as [[q|]|]; by rewrite list_lookup_insert_ne.
Qed.

Lemma length_flow_pend pending target s : length (flow_pend pending target s) = length pending.
Proof. unfold flow_pend. destruct (pending !! target) as [[]|]; apply length_insert. Qed.

Theorem flow_loop_sound instructions : forall index pending fallthrough os last,
  flow_loop index instructions pending fallthrough = Ok (os, last) ->
  length pending = (index + length instructions)%nat -> pending_inv pending ->
  (forall c, fallthrough = Some c -> inv c) ->
  exists ats, length ats = length instructions /\
    (forall k x, instructions !! k = Some x -> flow_at ats os last index k x) /\
    (forall c, fallthrough = Some c ->
       match ats with a :: _ => le a c | [] => last = Some c end) /\
    (forall k p, (k < length instructions)%nat -> pending !! (index + k)%nat = Some (Some p) ->
       exists a, ats !! k = Some a /\ le a p).
Proof.
  induction instructions as [|x instructions IH]; intros index pending fallthrough os last H Hlen Hp Hf;
    simpl in H.
  - inv_ok. exists []. split; [done|]. split; [done|]. split; [by intros|]. simpl. lia.
  - step_ok H as s eqn Hmerge. step_ok H as [s' o] eqn Htr. step_ok H as u eqn Hcheck.
    step_ok H as [os' last'] eqn Hrec. inv_ok.
    apply flow_merge_le in Hmerge as (Hs & Hsf & Hsp); [|done|by eauto].
    pose proof (transfer_inv _ _ _ _ _ Htr Hs) as Hs'.
    set (pend0 := <[index := None]> pending) in *.
    assert (pending_inv pend0) as Hp0.
    { intros t p Ht. apply list_lookup_insert_Some in Ht as [(_ & ? & _)|[_ Ht]]; [done|eauto]. }
    assert (length pend0 = (S index + length instructions)%nat) as Hl0
      by (unfold pend0; rewrite length_insert; simpl in Hlen; lia).
    set (pend := match edge_target (edge x) with
                 | Some target => flow_pend pend0 target s' | None => pend0 end) in *.
    assert (length pend = (S index + length instructions)%nat) as Hl.
    { unfold pend. by destruct (edge_target (edge x)); rewrite ?length_flow_pend. }
    assert (pending_inv pend) as Hpi.
    { unfold pend. destruct (edge_target (edge x)); [by apply flow_pend_inv | done]. }
    assert (forall k p, (k < length instructions)%nat -> pending !! (S index + k)%nat = Some (Some p) ->
      exists p', pend !! (S index + k)%nat = Some (Some p') /\ le p' p) as Hkeep.
    { intros k p Hk Hlk.
      assert (pend0 !! (S index + k)%nat = Some (Some p)) as Hlk0
        by (unfold pend0; rewrite list_lookup_insert_ne by lia; done).
      unfold pend. destruct (edge_target (edge x)) as [t|]; [|by exists p].
      by apply flow_pend_keep. }
    apply IH in Hrec as (ats & Hla & Hat & Hfall & Hpend); [|done|done|]; cycle 1.
    { destruct (edge_falls (edge x)); naive_solver. }
    exists (s :: ats). simpl. split; [by rewrite Hla|]. split; [|split].
    + intros [|k] y Hy; simpl in Hy.
      * simplify_eq. exists s, o, s'. rewrite Nat.add_0_r.
        do 4 (split; [done|]). split.
        -- intros t Ht. unfold pend in Hpend. rewrite Ht in Hcheck, Hpend.
           split; [by destruct u|]. intros Hlt Hin. simpl in Hin.
           destruct (flow_pend_new pend0 t s') as (p & Hpt & Hle); [done..|lia|].
           destruct (Hpend (t - S index)%nat p) as (a & Ha & Hap); [lia| |].
           { by replace (S index + (t - S index))%nat with t by lia. }
           exists a. split; [|by eauto]. by replace (t - index)%nat with (S (t - S index)) by lia.
        -- intros He. rewrite He in Hfall. specialize (Hfall _ eq_refl).
           destruct ats as [|a ats]; simpl; [by subst|]. by exists a.
      * apply Hat in Hy as (a & o' & s'' & Ha & Ho & Hi & Htra & Ht & He).
        exists a, o', s''. simpl. rewrite <-Nat.add_succ_comm. do 4 (split; [done|]). split.
        -- intros t Het. destruct (Ht t Het) as [Hc Hin]. split; [done|]. intros Hlt Hin'.
           destruct Hin as (a' & Ha' & Hle); [lia..|]. exists a'. split; [|done].
           by replace (t - index)%nat with (S (t - S index)) by lia.
        -- intros Hef. specialize (He Hef). repeat case_decide; try lia; done.
    + intros c Hc. by apply Hsf.
    + intros [|k] p Hk Hlk; simpl.
      * rewrite Nat.add_0_r in Hlk. exists s. split; [done|]. by apply Hsp.
      * destruct (Hkeep k p) as (p' & Hp' & Hle); [lia|by rewrite Nat.add_succ_comm|].
        destruct (Hpend k p') as (a & Ha & Hap); [lia|done|]. exists a. eauto.
Qed.
(** A loop whose transfer does not panic on the invariant does not panic. *)
Lemma flow_loop_no_panic instructions : forall index pending fallthrough,
  (forall i x s, inv s -> no_panic (transfer i x s)) -> (forall i t, no_panic (check i t)) ->
  no_panic unreachable ->
  length pending = (index + length instructions)%nat -> pending_inv pending ->
  (forall c, fallthrough = Some c -> inv c) ->
  no_panic (flow_loop index instructions pending fallthrough).
Proof.
  intros index pending fallthrough Ht Hc Hu. revert index pending fallthrough.
  induction instructions as [|x instructions IH]; intros index pending fallthrough Hlen Hp Hf; simpl; [done|].
  apply bindR_no_panic.
  { destruct (lookup_lt_is_Some_2 pending index) as [p Hl]; [simpl in Hlen; lia|]. rewrite Hl.
    unfold flow_merge. by destruct fallthrough, p. }
  intros s [Hs _]%flow_merge_le; [|done|by eauto]. apply bindR_no_panic; [by apply Ht|].
  intros [s' o] Hs'%transfer_inv; [|done].
  assert (pending_inv (<[index := None]> pending)) as Hp0.
  { intros t p [(_ & ? & _)|[_ Hl]]%list_lookup_insert_Some; [done|eauto]. }
  apply bindR_no_panic; [by destruct (edge_target (edge x))|]. intros _ _.
  apply bindR_no_panic; [|by intros [] _]. apply IH.
  - destruct (edge_target (edge x)); rewrite ?length_flow_pend, length_insert; simpl in Hlen; lia.
  - destruct (edge_target (edge x)); [by apply flow_pend_inv | done].
  - destruct (edge_falls (edge x)); naive_solver.
Qed.
End Flow.
