(* ===== verification/OperationsFacts.v ===== *)
(** * Type soundness of the value operations

    Operands of the shapes the verifier checked never reach an
    [unreachable!], and a result is well formed and has the destination's
    shape. *)
From S2P Require Import Prelude Errors Value ValueFacts Limits Operations Program.

(** ** Ranges of the integer operators *)
Lemma in_i64_shiftr z : in_i64 z = true <-> Z.shiftr z 63 = 0 \/ Z.shiftr z 63 = -1.
Proof.
  rewrite in_i64_spec, Z.shiftr_div_pow2 by lia. unfold i64_min, i64_max.
  change (2 ^ 63) with 9223372036854775808. pose proof (Z.div_mod z 9223372036854775808).
  pose proof (Z.mod_pos_bound z 9223372036854775808). lia.
Qed.

Lemma in_u64_shiftr z : in_u64 z = true <-> Z.shiftr z 64 = 0.
Proof.
  rewrite in_u64_spec, Z.shiftr_div_pow2 by lia. unfold u64_max.
  change (2 ^ 64) with 18446744073709551616. pose proof (Z.div_mod z 18446744073709551616).
  pose proof (Z.mod_pos_bound z 18446744073709551616). lia.
Qed.

Lemma bits_i64 a b :
  in_i64 a = true -> in_i64 b = true ->
  in_i64 (Z.land a b) = true /\ in_i64 (Z.lor a b) = true /\ in_i64 (Z.lxor a b) = true.
Proof.
  rewrite !in_i64_shiftr, Z.shiftr_land, Z.shiftr_lor, Z.shiftr_lxor.
  intros [->| ->] [->| ->]; vm_compute; auto 6.
Qed.

Lemma bits_u64 a b :
  in_u64 a = true -> in_u64 b = true ->
  in_u64 (Z.land a b) = true /\ in_u64 (Z.lor a b) = true /\ in_u64 (Z.lxor a b) = true.
Proof.
  rewrite !in_u64_shiftr, Z.shiftr_land, Z.shiftr_lor, Z.shiftr_lxor.
  intros -> ->; vm_compute; auto.
Qed.

Lemma wrap_i64_range z : in_i64 (wrap_i64 z) = true.
Proof.
  apply in_i64_spec. unfold wrap_i64. pose proof (Z.mod_pos_bound (z + 2 ^ 63) (2 ^ 64)).
  unfold i64_min, i64_max. change (2 ^ 63) with 9223372036854775808 in *.
  change (2 ^ 64) with 18446744073709551616 in *. lia.
Qed.

Lemma wrap_u64_range z : in_u64 (wrap_u64 z) = true.
Proof.
  apply in_u64_spec. unfold wrap_u64. pose proof (Z.mod_pos_bound z (2 ^ 64)).
  unfold u64_max. change (2 ^ 64) with 18446744073709551616 in *. lia.
Qed.

Lemma shiftr_i64 a c : 0 <= c -> in_i64 a = true -> in_i64 (Z.shiftr a c) = true.
Proof.
  intros Hc. rewrite !in_i64_spec, Z.shiftr_div_pow2 by done. unfold i64_min, i64_max.
  assert (0 < 2 ^ c) by (apply Z.pow_pos_nonneg; lia). intros Ha.
  split; [apply Z.div_le_lower_bound; nia | apply Z.div_le_upper_bound; nia].
Qed.

Lemma shiftr_u64 a c : 0 <= c -> in_u64 a = true -> in_u64 (Z.shiftr a c) = true.
Proof.
  intros Hc. rewrite !in_u64_spec, Z.shiftr_div_pow2 by done. unfold u64_max.
  assert (0 < 2 ^ c) by (apply Z.pow_pos_nonneg; lia). intros Ha.
  split; [apply Z.div_pos; lia | apply Z.div_le_upper_bound; nia].
Qed.

Lemma rem_i64 a b : b <> 0 -> in_i64 a = true -> in_i64 (Z.rem a b) = true.
Proof.
  rewrite !in_i64_spec. unfold i64_min, i64_max. intros Hb Ha.
  pose proof (Z.quot_rem a b Hb). destruct (Z_le_gt_dec 0 a).
  - pose proof (Z.rem_nonneg a b Hb ltac:(lia)). pose proof (Z.rem_le a b). 
    assert (Z.rem a b <= a); [|lia]. rewrite <-Z.rem_abs_r by done. apply Z.rem_le; lia.
  - pose proof (Z.rem_nonpos a b Hb ltac:(lia)).
    assert (- Z.rem a b <= - a); [|lia]. rewrite <-Z.rem_opp_l, <-Z.rem_abs_r by done.
    apply Z.rem_le; lia.
Qed.

(** ** Shapes *)

(** [v] has the shape of [ty], with whatever bounds. *)
Definition shaped (ty : Ty) (v : Value) : Prop :=
  exists ty', same_shape ty ty' = true /\ accepts ty' v = true.

Lemma check_shape_ok a b u : check_shape a b = Ok u <-> same_shape a b = true.
Proof. unfold check_shape. destruct (same_shape a b); simpl; destruct u; naive_solver. Qed.
Lemma integer_ok ty u : integer ty = Ok u <-> ty = Type_I64 \/ ty = Type_U64.
Proof. unfold integer. destruct u, ty; simpl; naive_solver. Qed.

Lemma same_shape_refl ty : same_shape ty ty = true.
Proof.
  induction ty as [| | | | | |fields IH|m k w IHk IHw] using Ty_ind'; simpl; try done.
  - rewrite Nat.eqb_refl. simpl. induction IH as [|f fs Hf _ IH]; simpl; [done|]. by rewrite Hf.
  - by rewrite IHk, IHw.
Qed.

Lemma accepts_shaped ty v : accepts ty v = true -> shaped ty v.
Proof. intros H. exists ty. split; [apply same_shape_refl | done]. Qed.
Lemma shaped_by ty ty' v : same_shape ty ty' = true -> accepts ty' v = true -> shaped ty v.
Proof. by exists ty'. Qed.

Lemma shaped_bytes bound data : shaped (Type_Bytes bound) (Value_Bytes data).
Proof. exists (Type_Bytes (len data)). split; [done|]. apply Z.leb_refl. Qed.
Lemma shaped_string bound text : shaped (Type_String bound) (Value_String text).
Proof. exists (Type_String (len text)). split; [done|]. apply Z.leb_refl. Qed.

(** What a successful check says about the shape of a type. *)
Ltac shape_inv :=
  repeat match goal with
  | H : check_shape _ _ = Ok _ |- _ => apply check_shape_ok in H
  | H : integer _ = Ok _ |- _ => apply integer_ok in H as [->| ->]
  | H : same_shape Type_I64 ?t = true |- _ => destruct t; try discriminate H; clear H
  | H : same_shape Type_U64 ?t = true |- _ => destruct t; try discriminate H; clear H
  | H : same_shape Type_Boolean ?t = true |- _ => destruct t; try discriminate H; clear H
  | H : same_shape ?t Type_I64 = true |- _ => destruct t; try discriminate H; clear H
  | H : same_shape ?t Type_U64 = true |- _ => destruct t; try discriminate H; clear H
  | H : same_shape ?t Type_Boolean = true |- _ => destruct t; try discriminate H; clear H
  | H : same_shape ?t (Type_Bytes _) = true |- _ => destruct t; try discriminate H; clear H
  | H : same_shape ?t (Type_String _) = true |- _ => destruct t; try discriminate H; clear H
  | H : same_shape (Type_Bytes _) ?t = true |- _ => destruct t; try discriminate H; clear H
  | H : same_shape (Type_String _) ?t = true |- _ => destruct t; try discriminate H; clear H
  end.
(** The value accepted by a scalar type. *)
Ltac value_inv :=
  repeat match goal with
  | H : accepts Type_I64 ?v = true |- _ => destruct v; try discriminate H; clear H
  | H : accepts Type_U64 ?v = true |- _ => destruct v; try discriminate H; clear H
  | H : accepts Type_Boolean ?v = true |- _ => destruct v; try discriminate H; clear H
  | H : accepts (Type_Bytes _) (?v : Value) = true |- _ => is_var v; destruct v; try discriminate H
  | H : accepts (Type_String _) (?v : Value) = true |- _ => is_var v; destruct v; try discriminate H
  end.

(** The outcome of an operation on operands of checked shapes. *)
Definition sound_result (destination : Ty) (m : Result AbortReason Value) : Prop :=
  match m with
  | Ok v => value_wf v = true /\ shaped destination v
  | Err _ => True
  | Panic => False
  end.

Lemma sound_scalar destination v :
  value_wf v = true -> accepts destination v = true -> sound_result destination (Ok v).
Proof. split; [done | by apply accepts_shaped]. Qed.

Lemma sound_i64 z : sound_result Type_I64 (let* n := ok_or IntegerOverflow (checked_i64 z) in Ok (Value_I64 n)).
Proof.
  destruct (checked_i64 z) eqn:E; [|done]. apply sound_scalar; [|done].
  apply checked_i64_Some in E as [-> E]. by apply in_i64_spec.
Qed.
Lemma sound_u64 z : sound_result Type_U64 (let* n := ok_or IntegerOverflow (checked_u64 z) in Ok (Value_U64 n)).
Proof.
  destruct (checked_u64 z) eqn:E; [|done]. apply sound_scalar; [|done].
  apply checked_u64_Some in E as [-> E]. by apply in_u64_spec.
Qed.

Definition arithmetic (op : BinaryOp) : bool :=
  match op with Add | Sub | Mul | Div | Rem | BitAnd | BitOr | BitXor => true | _ => false end.

Lemma sound_binary_i64 op a b :
  arithmetic op = true -> in_i64 a = true -> in_i64 b = true ->
  sound_result Type_I64
    (let* r := binary_i64 op a b in let* n := ok_or IntegerOverflow r in Ok (Value_I64 n)).
Proof.
  intros Hop Ha Hb. destruct (bits_i64 a b Ha Hb) as (? & ? & ?). unfold binary_i64.
  destruct op; try discriminate Hop; simpl; try apply sound_i64; try (split; [done | by apply accepts_shaped]).
  - destruct (b =? 0); [done|]. apply sound_i64.
  - destruct (Z.eqb_spec b 0); [done|]. unfold checked_rem_i64. destruct (_ && _); [done|].
    apply sound_scalar; [by apply rem_i64 | done].
Qed.

Lemma sound_binary_u64 op a b :
  arithmetic op = true -> in_u64 a = true -> in_u64 b = true ->
  sound_result Type_U64
    (let* r := binary_u64 op a b in let* n := ok_or IntegerOverflow r in Ok (Value_U64 n)).
Proof.
  intros Hop Ha Hb. destruct (bits_u64 a b Ha Hb) as (? & ? & ?). unfold binary_u64.
  destruct op; try discriminate Hop; simpl; try apply sound_u64; try (split; [done | by apply accepts_shaped]).
  all: destruct (Z.eqb_spec b 0); [done|]; apply sound_u64.
Qed.

Lemma get_row_sound op m k w destination a b :
  check_binary op destination (Type_Rows m k w) Type_U64 = Ok tt ->
  accepts (Type_Rows m k w) a = true -> accepts Type_U64 b = true -> value_wf a = true ->
  op = RowsKey \/ op = RowsValue ->
  sound_result destination (binary op a b destination).
Proof.
  intros Hc Ha Hb Hw Hop. value_inv. apply accepts_rows in Ha as (rows & -> & _ & _ & Hf & _).
  simpl in Hw. apply forallb_Forall in Hw.
  assert (forall kv, get_row rows z = Some kv ->
    (value_wf kv.1 = true /\ value_wf kv.2 = true) /\ accepts k kv.1 = true /\ accepts w kv.2 = true) as Hrow.
  { unfold get_row. intros kv. destruct (z <? len rows); [|done]. intros E%list_elem_of_lookup_2.
    rewrite Forall_forall in Hf, Hw. split; [|by apply Hf]. apply Hw in E. by apply andb_true_iff in E. }
  destruct Hop as [->| ->]; simpl in Hc |- *; inv_ok; shape_inv;
    (destruct (get_row rows z) as [kv|]; [|done]); destruct (Hrow kv eq_refl) as [[? ?] [? ?]];
    (split; [done | by eapply shaped_by]).
Qed.

(** ** The operators *)
Lemma binary_sound op destination left_ right_ a b :
  check_binary op destination left_ right_ = Ok tt ->
  accepts left_ a = true -> accepts right_ b = true ->
  value_wf a = true -> value_wf b = true ->
  sound_result destination (binary op a b destination).
Proof.
  intros Hc Ha Hb Hwa Hwb. destruct (decide (op = RowsKey \/ op = RowsValue)) as [Hop|Hop].
  { destruct left_, right_; destruct Hop as [->| ->]; try discriminate Hc;
      eapply get_row_sound; eauto. }
  destruct op; try naive_solver; clear Hop; simpl in Hc; inv_ok; shape_inv; value_inv;
    cbn [binary]; simpl in Hwa, Hwb;
    try (by apply sound_binary_i64 || apply sound_binary_u64);
    try (by apply sound_scalar).
  1-4: destruct (_ >=? _); [done|]; apply sound_scalar; [|done]; simpl;
    (apply wrap_i64_range || apply wrap_u64_range || apply shiftr_i64 || apply shiftr_u64); done || blia.
  - destruct destination; try done; shape_inv; value_inv.
    all: simpl in Hwa, Hwb; destruct (_ >? _) eqn:E; [done|]; apply sound_scalar; simpl;
      [by try apply utf8_valid_app | autorewrite with blop; by apply Z.leb_le; blia].
Qed.

Section Unary.
Context (sha256 : bytes -> bytes).

Lemma unary_sound op destination source v :
  check_unary op destination source = Ok tt -> valid_type 1 source = true ->
  accepts source v = true -> value_wf v = true ->
  sound_result destination (unary sha256 op v).
Proof.
  intros Hc Hv Ha Hw. destruct op; simpl in Hc; inv_ok; shape_inv; value_inv;
    cbn [unary]; simpl in Hw; try apply sound_i64; try apply sound_u64.
  - by apply sound_scalar.
  - apply sound_scalar; [|done]. simpl. unfold Z.lnot. rewrite in_i64_spec. blia.
  - apply sound_scalar; [|done]. simpl. unfold not_u64. rewrite in_u64_spec. blia.
  - destruct source; try done. apply accepts_rows in Ha as (rows & -> & _ & Hl & _).
    apply sound_scalar; [|done]. simpl. rewrite in_u64_spec. pose proof (len_nonneg rows).
    unfold MAX_ROWS in Hl. blia.
  - destruct source; try done; value_inv; simpl in Ha, Hv; apply sound_scalar; try done;
      simpl; rewrite in_u64_spec; [pose proof (len_nonneg data) | pose proof (len_nonneg text)]; blia.
  - split; [done | apply shaped_bytes].
  - destruct (utf8_valid data) eqn:Hu; [|done]. split; [done | apply shaped_string].
  - split; [done | apply shaped_bytes].
Qed.
End Unary.

Lemma slice_sound destination s l t a b c :
  accepts s a = true -> accepts l b = true -> accepts t c = true ->
  same_shape destination (Type_Bytes 0) = true ->
  same_shape s (Type_Bytes 0) = true -> same_shape l Type_U64 = true -> same_shape t Type_U64 = true ->
  sound_result destination (slice a b c).
Proof.
  intros Ha Hb Hc Hd Hs Hl Ht. shape_inv. value_inv. cbn [slice].
  destruct (_ || _); [done|]. split; [done | apply shaped_bytes].
Qed.
