(* ===== verification/ProgramFacts.v ===== *)
(** * What the program reader and verifier establish

    [verify_sound]: at every instruction of a verified program there is a set
    of initialized registers for which the instruction type-checks, whose
    targets stay forward and inside the program, and which every successor's
    set is contained in. *)
From Stdlib Require Import Sorting.Sorted.
From S2P Require Import Prelude Errors Value ValueFacts Limits Operations Program Flow OperationsFacts.

(** ** Register bitsets *)
Lemma land_shiftl_1 w n : 0 <= n -> negb (Z.land w (Z.shiftl 1 n) =? 0) = Z.testbit w n.
Proof.
  intros Hn. assert (forall m, 0 <= m -> Z.testbit (Z.land w (Z.shiftl 1 n)) m = Z.testbit w m && (m =? n)) as Hbits.
  { intros m Hm. rewrite Z.land_spec. f_equal. rewrite Z.shiftl_1_l. rewrite Z.pow2_bits_eqb by done.
    apply Z.eqb_sym. }
  destruct (Z.testbit w n) eqn:Hw.
  - apply negb_true_iff, Z.eqb_neq. intros H0. specialize (Hbits n Hn).
    rewrite H0, Z.testbit_0_l, Hw, Z.eqb_refl in Hbits. done.
  - apply negb_false_iff, Z.eqb_eq. apply Z.bits_inj'. intros m Hm. rewrite Hbits, Z.testbit_0_l by done.
    destruct (Z.eqb_spec m n) as [->|]; [by rewrite Hw | apply andb_false_r].
Qed.

Lemma bit_mask_shift index : bit_mask index = Z.shiftl 1 (Z.of_nat (index mod 64)).
Proof. done. Qed.

(** [i] is in the bitset [s]. *)
Definition has_bit (s : list Z) (i : nat) : Prop :=
  exists w, s !! (i / 64)%nat = Some w /\ Z.testbit w (Z.of_nat (i mod 64)) = true.

Lemma bit_get_ok s i b :
  bit_get s i = Ok b <-> exists w, s !! (i / 64)%nat = Some w /\ b = Z.testbit w (Z.of_nat (i mod 64)).
Proof.
  unfold bit_get. destruct (s !! (i / 64)%nat) as [w|]; simpl; [|naive_solver].
  unfold bit_mask. rewrite land_shiftl_1 by lia. naive_solver.
Qed.

Lemma has_bit_get s i : has_bit s i <-> bit_get s i = Ok true.
Proof. rewrite bit_get_ok. unfold has_bit. naive_solver. Qed.

Lemma bit_set_has s i s' j : bit_set s i = Ok s' -> has_bit s' j -> j = i \/ has_bit s j.
Proof.
  unfold bit_set. intros H (w & Hw & Hb). step_ok H as u eqn Hu. apply expect_ok in Hu. inv_ok.
  apply list_lookup_insert_Some in Hw as [(Hij & <- & _)|[_ Hw]]; [|right; by exists w].
  rewrite Z.lor_spec, orb_true_iff in Hb. destruct Hb as [Hb|Hb].
  - right. exists u. by rewrite <-Hij.
  - left. unfold bit_mask in Hb. rewrite Z.shiftl_1_l, Z.pow2_bits_eqb in Hb by lia.
    apply Z.eqb_eq, Nat2Z.inj in Hb.
    pose proof (Nat.div_mod_eq i 64). pose proof (Nat.div_mod_eq j 64). change ((i / 64)%nat = (j / 64)%nat) in Hij. lia.
Qed.

Lemma bit_set_length s i s' : bit_set s i = Ok s' -> length s' = length s.
Proof. unfold bit_set. intros H. inv_ok. apply length_insert. Qed.

Lemma intersect_lookup a b k :
  intersect a b !! k = match a !! k, b !! k with
                       | Some x, Some y => Some (Z.land x y)
                       | x, _ => x
                       end.
Proof.
  revert b k. induction a as [|x a IH]; intros [|y b] [|k]; simpl; try done.
  by destruct (a !! k).
Qed.

Lemma length_intersect a b : length (intersect a b) = length a.
Proof. revert b. induction a as [|x a IH]; intros [|y b]; simpl; auto. Qed.

Lemma has_bit_intersect a b i :
  length a = length b -> has_bit (intersect a b) i <-> has_bit a i /\ has_bit b i.
Proof.
  intros Hl. unfold has_bit. rewrite intersect_lookup.
  destruct (a !! (i / 64)%nat) as [x|] eqn:Ea, (b !! (i / 64)%nat) as [y|] eqn:Eb.
  - split.
    + intros (w & [= <-] & Hb). rewrite Z.land_spec, andb_true_iff in Hb. naive_solver.
    + intros [(w & [= <-] & Hx) (w' & [= <-] & Hy)]. exists (Z.land x y). by rewrite Z.land_spec, Hx, Hy.
  - apply lookup_lt_Some in Ea. apply lookup_ge_None in Eb. lia.
  - naive_solver.
  - naive_solver.
Qed.

Lemma has_bit_zeros n i : ~ has_bit (repeat 0 n) i.
Proof.
  intros (w & Hw & Hb). apply list_elem_of_lookup_2, list_elem_of_In, repeat_spec in Hw as ->.
  by rewrite Z.testbit_0_l in Hb.
Qed.

Lemma word_index n i : (i < n)%nat -> (i / 64 < word_count n)%nat.
Proof.
  intros Hi. unfold word_count. pose proof (Nat.div_mod_eq n 64). pose proof (Nat.div_mod_eq i 64).
  pose proof (Nat.mod_upper_bound n 64). pose proof (Nat.mod_upper_bound i 64).
  destruct (Nat.eqb_spec (n mod 64) 0); nia.
Qed.

(** ** Soundness of the verifier *)
Definition instruction_edge (x : Instruction) : Edge :=
  match x with
  | Jump target => Edge_jump target
  | JumpIfFalse _ target => Edge_branch target
  | Abort_ _ | Return _ => Edge_stop
  | _ => Edge_next
  end.

Section Verify.
Context (program : Program) (argument_types constant_types : list Ty) (claims : LimitPolicy).
Notation verify_instruction := (verify_instruction program argument_types constant_types claims).

(** The bitset after an instruction. *)
Definition verify_transfer (index : nat) (x : Instruction) (initialized : list Z)
    : Result Error (list Z * unit) :=
  let* destination := verify_instruction x initialized in
  let* initialized :=
    match destination with
    | Some destination => bit_set initialized destination
    | None => Ok initialized
    end in
  Ok (initialized, tt).

Definition verify_flow :=
  flow_loop intersect (Err (Error_Invalid "unreachable instruction")) verify_transfer
    (check_target program) instruction_edge.

Lemma outputs_dropped {E A B} (m : Result E (list A * B)) o :
  (let* (_, last) := m in Ok last) = (let* (_, last) := (let* (os, last) := m in Ok (o :: os, last)) in Ok last).
Proof. by destruct m as [[]| |]. Qed.

(** [verify_loop] is the dataflow loop of [Flow]. *)
Lemma verify_loop_flow instructions : forall index pending fallthrough,
  verify_loop program argument_types constant_types claims index instructions pending fallthrough =
  (let* (_, last) := verify_flow index instructions pending fallthrough in Ok last).
Proof.
  induction instructions as [|x instructions IH]; intros index pending fallthrough; simpl; [done|].
  change (flow_merge intersect (Err (Error_Invalid "unreachable instruction")) fallthrough (pending !! index))
    with (merge fallthrough (pending !! index)).
  destruct (merge _ _) as [s| |]; simpl; try done. unfold verify_transfer at 1.
  destruct (verify_instruction x s) as [d| |]; simpl; try done.
  destruct (match d with Some d => _ | None => _ end) as [s'| |]; simpl; try done.
  destruct x; simpl; try (destruct (check_target _ _ _); simpl; try done); rewrite IH; unfold verify_flow;
    apply outputs_dropped.
Qed.

(** A bitset with a word for every register. *)
Definition bits_wf (s : list Z) : Prop := length s = word_count (length (register_types program)).
Definition bits_le (a b : list Z) : Prop := forall i, has_bit a i -> has_bit b i.

Lemma verify_transfer_wf i x s s' o : verify_transfer i x s = Ok (s', o) -> bits_wf s -> bits_wf s'.
Proof.
  unfold verify_transfer. intros H Hs. step_ok H as d eqn Hd. step_ok H as s1 eqn Hs1. inv_ok.
  destruct d; inv_ok; [|done]. apply bit_set_length in Hs1. unfold bits_wf. by rewrite Hs1.
Qed.

Lemma join_le a b : bits_wf a -> bits_wf b ->
  bits_wf (intersect a b) /\ bits_le (intersect a b) a /\ bits_le (intersect a b) b.
Proof.
  unfold bits_wf, bits_le. intros Ha Hb. rewrite length_intersect.
  split; [done|]. split; intros i; rewrite has_bit_intersect by congruence; naive_solver.
Qed.

(** What the verifier established at the instruction [x] at [k], with the sets
    [ats] of definitely initialized registers. *)
Definition verified_at (ats : list (list Z)) (k : nat) (x : Instruction) : Prop :=
  exists a d s, ats !! k = Some a /\ bits_wf a /\ verify_instruction x a = Ok d /\
    (forall i, has_bit s i -> Some i = d \/ has_bit a i) /\
    (forall t, edge_target (instruction_edge x) = Some t -> (k < t < length ats)%nat /\
       exists a', ats !! t = Some a' /\ bits_le a' s) /\
    (edge_falls (instruction_edge x) = true -> exists a', ats !! S k = Some a' /\ bits_le a' s).

Theorem verify_sound :
  verify program argument_types constant_types claims = Ok tt ->
  exists ats, length ats = length (prog_instructions program) /\
    (exists a, ats !! 0%nat = Some a /\ forall i, ~ has_bit a i) /\
    forall k x, prog_instructions program !! k = Some x -> verified_at ats k x.
Proof.
  unfold verify. intros H. step_ok H as last eqn Hl. destruct last; [done|]. clear H.
  rewrite verify_loop_flow in Hl. step_ok Hl as [os last] eqn Hf. inv_ok.
  apply (flow_loop_sound _ _ _ _ _ bits_wf bits_le (fun a i H => H)
    (fun a b c Hab Hbc i H => Hbc i (Hab i H))
    (fun a b Ha Hb => proj1 (join_le a b Ha Hb)) (fun a b Ha Hb => proj1 (proj2 (join_le a b Ha Hb)))
    (fun a b Ha Hb => proj2 (proj2 (join_le a b Ha Hb)))) in Hf as (ats & Hlen & Hat & Hfirst & _);
    [|done|apply verify_transfer_wf|by rewrite repeat_length| |by intros c [= <-]; apply repeat_length].
  2: { intros t s Hts. by apply list_elem_of_lookup_2, list_elem_of_In, repeat_spec in Hts. }
  specialize (Hfirst _ eq_refl). exists ats. split; [done|]. split.
  - destruct ats as [|a ats]; [done|]. exists a. split; [done|]. intros i Hi%Hfirst. by apply has_bit_zeros in Hi.
  - intros k x Hx. apply Hat in Hx as (a & o & s & Ha & _ & Hwf & Htr & Ht & Hfall).
    unfold verify_transfer in Htr. step_ok Htr as d eqn Hd. step_ok Htr as s1 eqn Hs1. inv_ok.
    exists a, d, s. split; [done|]. split; [done|]. split; [done|]. split; [|split].
    + intros i Hi. destruct d as [d|]; inv_ok; [|by right].
      eapply bit_set_has in Hi as [->|]; eauto.
    + intros t Het. destruct (Ht t Het) as [Hc Ha']. unfold check_target in Hc.
      destruct (_ || _) eqn:Hb; [done|]. apply orb_false_iff in Hb as [H1%Nat.leb_gt H2%Nat.leb_gt].
      simpl in H1. split; [lia|]. destruct Ha' as (a' & ? & ?); [lia..|].
      exists a'. by replace (t - 0)%nat with t in * by lia.
    + intros He. specialize (Hfall He). case_decide; [done|]. done.
Qed.
End Verify.

(** ** The reader and the verifier do not panic *)
Lemma reader_take_no_panic reader n : no_panic (reader_take reader n).
Proof. apply ok_or_no_panic. Qed.
#[export] Hint Resolve reader_take_no_panic : no_panic.
Lemma reader_uint_no_panic n reader : no_panic (reader_uint n reader).
Proof. unfold reader_uint. solve_no_panic. Qed.
Lemma reader_u8_no_panic reader : no_panic (reader_u8 reader).
Proof.
  apply bindR_no_panic; [apply reader_take_no_panic|]. intros [data rest] H.
  apply ok_or_ok, split_at_Some in H as [_ H]; [|done]. by destruct data.
Qed.
#[export] Hint Resolve reader_uint_no_panic reader_u8_no_panic : no_panic.
Lemma reader_u16_no_panic reader : no_panic (reader_u16 reader).
Proof. apply reader_uint_no_panic. Qed.
Lemma reader_u32_no_panic reader : no_panic (reader_u32 reader).
Proof. apply reader_uint_no_panic. Qed.
Lemma reader_u64_no_panic reader : no_panic (reader_u64 reader).
Proof. apply reader_uint_no_panic. Qed.
#[export] Hint Resolve reader_u16_no_panic reader_u32_no_panic reader_u64_no_panic : no_panic.
Lemma reader_index_no_panic reader : no_panic (reader_index reader).
Proof. unfold reader_index. solve_no_panic. Qed.
Lemma reader_target_no_panic reader : no_panic (reader_target reader).
Proof. unfold reader_target. solve_no_panic. Qed.
Lemma reader_blob_no_panic reader : no_panic (reader_blob reader).
Proof. unfold reader_blob. solve_no_panic. Qed.
#[export] Hint Resolve reader_index_no_panic reader_target_no_panic reader_blob_no_panic
  decode_no_panic decode_value_no_panic : no_panic.

Lemma header_no_panic data : no_panic (header data).
Proof. unfold header. solve_no_panic. Qed.

Lemma read_many_no_panic {A} (read : bytes -> Result Error (A * bytes)) count : forall reader,
  (forall reader, no_panic (read reader)) -> no_panic (read_many read count reader).
Proof. induction count as [|count IH]; intros reader Hr; simpl; solve_no_panic. Qed.
#[export] Hint Resolve header_no_panic read_many_no_panic : no_panic.

Lemma read_table_ids_no_panic count : forall last reader, no_panic (read_table_ids count last reader).
Proof. induction count as [|count IH]; intros last reader; simpl; solve_no_panic. Qed.
#[export] Hint Resolve read_table_ids_no_panic : no_panic.
Lemma read_tables_no_panic reader count : no_panic (read_tables reader count).
Proof. unfold read_tables. solve_no_panic. Qed.
#[export] Hint Resolve read_tables_no_panic : no_panic.

Lemma read_scan_no_panic operands : no_panic (read_scan operands).
Proof. unfold read_scan. solve_no_panic. Qed.
#[export] Hint Resolve read_scan_no_panic : no_panic.
Lemma read_operands_no_panic opcode operands : no_panic (read_operands opcode operands).
Proof.
  unfold read_operands. destruct (binary_opcode opcode); [solve_no_panic|].
  destruct (unary_opcode opcode); [solve_no_panic|]. destruct opcode; solve_no_panic.
Qed.
#[export] Hint Resolve read_operands_no_panic : no_panic.
Lemma read_instruction_no_panic reader : no_panic (read_instruction reader).
Proof. unfold read_instruction. solve_no_panic. Qed.
#[export] Hint Resolve read_instruction_no_panic : no_panic.
Lemma read_instructions_no_panic reader count : no_panic (read_instructions reader count).
Proof. unfold read_instructions. solve_no_panic. Qed.
#[export] Hint Resolve read_instructions_no_panic : no_panic.

Lemma read_argument_type_no_panic reader : no_panic (read_argument_type reader).
Proof. unfold read_argument_type. solve_no_panic. Qed.
Lemma read_register_type_no_panic reader : no_panic (read_register_type reader).
Proof. unfold read_register_type. solve_no_panic. Qed.
Lemma read_constant_no_panic claims reader : no_panic (read_constant claims reader).
Proof. unfold read_constant. solve_no_panic. Qed.
Lemma read_arguments_no_panic claims types : forall reader, no_panic (read_arguments claims types reader).
Proof. induction types as [|ty types IH]; intros reader; simpl; solve_no_panic. Qed.
#[export] Hint Resolve read_argument_type_no_panic read_register_type_no_panic
  read_constant_no_panic read_arguments_no_panic : no_panic.

Lemma check_shape_no_panic a b : no_panic (check_shape a b).
Proof. unfold check_shape. solve_no_panic. Qed.
Lemma integer_no_panic ty : no_panic (integer ty).
Proof. unfold integer. solve_no_panic. Qed.
#[export] Hint Resolve check_shape_no_panic integer_no_panic : no_panic.
Lemma check_binary_no_panic op d l r : no_panic (check_binary op d l r).
Proof. unfold check_binary. destruct op, l; solve_no_panic. Qed.
Lemma check_unary_no_panic op d s : no_panic (check_unary op d s).
Proof. unfold check_unary. destruct op; solve_no_panic. Qed.
#[export] Hint Resolve check_binary_no_panic check_unary_no_panic : no_panic.

Section VerifyTotal.
Context (program : Program) (argument_types constant_types : list Ty) (claims : LimitPolicy).

Lemma register_ok index ty : register program index = Ok ty <-> register_types program !! index = Some ty.
Proof. apply ok_or_ok. Qed.

Lemma word_present s index ty :
  bits_wf program s -> register program index = Ok ty -> is_Some (s !! (index / 64)%nat).
Proof.
  intros Hs Hr%register_ok%lookup_lt_Some. apply lookup_lt_is_Some. rewrite Hs. by apply word_index.
Qed.

Lemma source_no_panic s index : bits_wf program s -> no_panic (source program s index).
Proof.
  intros Hs. unfold source. apply bindR_no_panic; [apply ok_or_no_panic|]. intros ty Hr.
  destruct (word_present s index ty Hs Hr) as [w Hw]. unfold bit_get. rewrite Hw. simpl. solve_no_panic.
Qed.

Lemma source_ok s index ty :
  source program s index = Ok ty <-> register_types program !! index = Some ty /\ has_bit s index.
Proof.
  unfold source. rewrite bindR_ok, has_bit_get. setoid_rewrite register_ok. split.
  - intros (ty' & Hr & H). step_ok H as b eqn Hb. destruct b; simpl in H; [|done]. by inv_ok.
  - intros [Hr Hb]. exists ty. rewrite Hb. done.
Qed.

Lemma register_no_panic index : no_panic (register program index).
Proof. apply ok_or_no_panic. Qed.
Lemma table_no_panic index : no_panic (table program index).
Proof. apply ok_or_no_panic. Qed.
#[local] Hint Resolve source_no_panic register_no_panic table_no_panic : no_panic.

Lemma check_fields_no_panic s types : forall fields,
  bits_wf program s -> no_panic (check_fields program s types fields).
Proof. induction types as [|ty types IH]; intros [|f fields] Hs; simpl; solve_no_panic. Qed.
Lemma check_endpoint_no_panic s key endpoint :
  bits_wf program s -> no_panic (check_endpoint program s key endpoint).
Proof. intros Hs. unfold check_endpoint. solve_no_panic. Qed.
#[local] Hint Resolve check_fields_no_panic check_endpoint_no_panic : no_panic.

Lemma verify_instruction_no_panic x s :
  bits_wf program s -> no_panic (verify_instruction program argument_types constant_types claims x s).
Proof. intros Hs. destruct x; simpl; solve_no_panic. Qed.

(** A destination is a declared register. *)
Lemma verify_instruction_destination x s dst :
  verify_instruction program argument_types constant_types claims x s = Ok (Some dst) ->
  is_Some (register_types program !! dst).
Proof.
  destruct x; simpl; intros H; inv_ok; try done;
    repeat match goal with
    | H : Some _ = Some _ |- _ => injection H as <-
    | H : (match ?t with _ => _ end) = Ok _ |- _ => destruct t; try discriminate H; inv_ok
    | H : register _ _ = Ok _ |- _ => apply register_ok in H
    end; eauto.
Qed.

Lemma verify_transfer_no_panic i x s :
  bits_wf program s -> no_panic (verify_transfer program argument_types constant_types claims i x s).
Proof.
  intros Hs. unfold verify_transfer. apply bindR_no_panic; [by apply verify_instruction_no_panic|].
  intros [dst|] Hd; apply bindR_no_panic; try done. apply verify_instruction_destination in Hd as [ty Hd].
  apply register_ok in Hd. destruct (word_present s dst ty Hs Hd) as [w Hw].
  unfold bit_set. by rewrite Hw.
Qed.

Lemma verify_no_panic : no_panic (verify program argument_types constant_types claims).
Proof.
  unfold verify. apply bindR_no_panic; [|intros []; done]. rewrite verify_loop_flow.
  apply bindR_no_panic; [|by intros []].
  apply (flow_loop_no_panic _ _ _ _ _ (bits_wf program) bits_le (fun a i H => H)
    (fun a b Ha Hb => proj1 (join_le program a b Ha Hb)) (fun a b Ha Hb => proj1 (proj2 (join_le program a b Ha Hb)))
    (fun a b Ha Hb => proj2 (proj2 (join_le program a b Ha Hb)))).
  - done.
  - apply verify_transfer_wf.
  - intros i x s. apply verify_transfer_no_panic.
  - intros i t. unfold check_target. solve_no_panic.
  - done.
  - by rewrite repeat_length.
  - intros t s Hts. by apply list_elem_of_lookup_2, list_elem_of_In, repeat_spec in Hts.
  - intros c [= <-]. apply repeat_length.
Qed.
End VerifyTotal.

#[export] Hint Resolve verify_no_panic : no_panic.
Lemma reader_finish_no_panic reader : no_panic (reader_finish reader).
Proof. by destruct reader. Qed.
Lemma check_claims_no_panic checks : no_panic (check_claims checks).
Proof.
  unfold check_claims. induction checks as [|[[usage limit] reason] checks IH]; simpl; [done|].
  by destruct (usage >? limit).
Qed.
#[export] Hint Resolve reader_finish_no_panic check_claims_no_panic : no_panic.

Lemma decode_program_total program arguments tables claims :
  no_panic (decode_program program arguments tables claims).
Proof. unfold decode_program. solve_no_panic. Qed.

(** ** What a decoded program satisfies *)

(** The user code of an abort is a [u32]. *)
Definition user_code_ok (x : Instruction) : Prop :=
  match x with Require_ _ user_code | Abort_ user_code => 0 <= user_code <= u32_max | _ => True end.

(** The static facts the interpreter relies on. *)
Record admitted (program : Program) (argument_types constant_types : list Ty)
    (tables : list Table) (claims : LimitPolicy) : Prop := {
  admitted_verified : verify program argument_types constant_types claims = Ok tt;
  admitted_result : valid_type 1 (result_type program) = true;
  admitted_registers : Forall (fun ty => valid_type 1 ty = true) (register_types program);
  admitted_arguments :
    Forall2 (fun ty v => accepts ty v = true /\ value_wf v = true) argument_types (prog_arguments program);
  admitted_constants :
    Forall2 (fun ty v => accepts ty v = true /\ value_wf v = true) constant_types (constants program);
  admitted_tables : prog_tables program = tables;
  admitted_size : 0 < len (prog_instructions program) <= limit claims 1 /\
    len (register_types program) <= limit claims 2;
  admitted_table_ids : Forall (fun id => 0 < id < u64_max) (map table_id tables) /\
    StronglySorted Z.lt (map table_id tables);
  admitted_codes : Forall user_code_ok (prog_instructions program) }.

Lemma read_many_Forall {A} (P : A -> Prop) read count : forall reader xs rest,
  (forall reader x rest, read reader = Ok (x, rest) -> P x) ->
  read_many read count reader = Ok (xs, rest) -> Forall P xs /\ length xs = count.
Proof.
  intros reader xs rest Hr. revert reader xs rest.
  induction count as [|count IH]; intros reader xs rest H; simpl in H.
  { by injection H as <- <-. }
  step_ok H as [x r1] eqn Hx. step_ok H as [xs' r2] eqn Hxs. injection H as <- <-.
  apply IH in Hxs as [? ?]. split; [constructor; [by eapply Hr | done] | simpl; lia].
Qed.

Lemma read_many_length {A} (read : bytes -> Result Error (A * bytes)) count reader xs rest :
  read_many read count reader = Ok (xs, rest) -> length xs = count.
Proof. intros H. by eapply (read_many_Forall (fun _ => True)) in H as [_ H]. Qed.

Lemma read_type_valid reader ty rest :
  read_argument_type reader = Ok (ty, rest) \/ read_register_type reader = Ok (ty, rest) ->
  valid_type 1 ty = true.
Proof.
  unfold read_argument_type, read_register_type.
  intros [H|H]; step_ok H as [d r] eqn Hd; step_ok H as t eqn Ht; inv_ok; by eapply decode_valid.
Qed.

Lemma decoded_value ty data v :
  valid_type 1 ty = true -> decode_value ty data = Ok v -> accepts ty v = true /\ value_wf v = true.
Proof. intros Hv H%(decode_value_iff ty 1); naive_solver. Qed.

Lemma read_constant_accepted claims reader ty v rest :
  read_constant claims reader = Ok ((ty, v), rest) -> accepts ty v = true /\ value_wf v = true.
Proof.
  unfold read_constant. intros H. step_ok H as [d r] eqn Hd. step_ok H as t eqn Ht.
  destruct (is_rows t); [done|]. step_ok H as [data r2] eqn Hdata. destruct (_ >? _); [done|].
  step_ok H as w eqn Hw. injection H as <- <- <-. eapply decoded_value; [by eapply decode_valid | done].
Qed.

Lemma read_arguments_accepted claims types : forall reader vs rest,
  Forall (fun ty => valid_type 1 ty = true) types ->
  read_arguments claims types reader = Ok (vs, rest) ->
  Forall2 (fun ty v => accepts ty v = true /\ value_wf v = true) types vs.
Proof.
  induction types as [|ty types IH]; intros reader vs rest Hty H; simpl in H.
  { by injection H as <- <-. }
  step_ok H as [data r] eqn Hd. destruct (_ >? _); [done|]. step_ok H as v eqn Hv.
  step_ok H as [vs' r2] eqn Hvs. injection H as <- <-. inversion Hty; subst.
  constructor; [by eapply decoded_value | by eapply IH].
Qed.

Lemma check_claims_ok checks u :
  check_claims checks = Ok u -> Forall (fun '(usage, limit, _) => usage <= limit) checks.
Proof.
  unfold check_claims. revert u. induction checks as [|[[usage limit] reason] checks IH]; intros u H; simpl in H;
    [done|]. destruct (usage >? limit) eqn:E; [done|]. constructor; [blia|by eapply IH].
Qed.

Lemma reader_uint_range n reader z rest : reader_uint n reader = Ok (z, rest) -> 0 <= z.
Proof. unfold reader_uint. intros H. step_ok H as [d r] eqn Hd. injection H as <- <-. apply from_le_range. Qed.

Lemma header_counts data h reader :
  header data = Ok (h, reader) ->
  0 <= header_registers h /\ 0 <= header_arguments h /\ 0 <= header_tables h /\
  0 <= header_constants h /\ 1 <= header_instructions h <= 65535.
Proof.
  unfold header, reader_u16, reader_u32. intros H. step_if H.
  step_ok H as [m r1] eqn H1. step_if H. step_ok H as [v r2] eqn H2.
  step_if H. step_ok H as [f r3] eqn H3. step_if H.
  step_ok H as [t r4] eqn H4. step_if H. step_ok H as [a r5] eqn H5.
  step_ok H as [b r6] eqn H6. step_ok H as [c r7] eqn H7. step_ok H as [d r8] eqn H8.
  step_ok H as [e r9] eqn H9. step_if H eqn E.
  step_ok H as [g r10] eqn H10. step_if H. injection H as <- <-.
  apply reader_uint_range in H5, H6, H7, H8. simpl. blia.
Qed.

Lemma reader_uint_bound n reader z rest :
  0 <= n -> reader_uint n reader = Ok (z, rest) -> 0 <= z < 256 ^ n.
Proof.
  unfold reader_uint. intros Hn H. step_ok H as [d r] eqn Hd. injection H as <- <-.
  apply ok_or_ok, split_at_Some in Hd as [_ <-]; [|done]. apply from_le_range.
Qed.

Lemma read_table_ids_spec count : forall last reader ids,
  read_table_ids count last reader = Ok ids ->
  Forall (fun id => 0 < id < u64_max) ids /\ StronglySorted Z.lt ids /\
  forall l, last = Some l -> Forall (Z.lt l) ids.
Proof.
  induction count as [|count IH]; intros last reader ids H; cbn [read_table_ids] in H.
  { injection H as <-. split; [done|]. split; [constructor|done]. }
  step_ok H as [id r] eqn Hid. apply reader_uint_bound in Hid; [|done].
  step_if H. step_ok H as ids' eqn Hids. injection H as <-. bsimp.
  apply IH in Hids as (HF & HS & Hl). specialize (Hl _ eq_refl).
  change (256 ^ 8) with 18446744073709551616 in Hid. split; [|split].
  - constructor; [unfold u64_max; lia | done].
  - by constructor.
  - intros l ->. bsimp. constructor; [done|]. eapply Forall_impl; [exact Hl|]. intros x Hx. simpl in *. lia.
Qed.

Lemma read_tables_spec reader count ids rest :
  read_tables reader count = Ok (ids, rest) ->
  Forall (fun id => 0 < id < u64_max) ids /\ StronglySorted Z.lt ids.
Proof.
  unfold read_tables. intros H. step_ok H as n eqn Hn. step_ok H as [d r] eqn Hd.
  step_ok H as i eqn Hi. injection H as <- <-. apply read_table_ids_spec in Hi. naive_solver.
Qed.

Lemma read_operands_code opcode operands x rest : read_operands opcode operands = Ok (x, rest) -> user_code_ok x.
Proof.
  unfold read_operands, read_scan, reader_u32. intros H. destruct (binary_opcode opcode); [by inv_ok|].
  destruct (unary_opcode opcode); [by inv_ok|].
  destruct opcode; try discriminate H; inv_ok; simpl; try done;
    match goal with H : reader_uint 4 _ = Ok _ |- _ => apply reader_uint_bound in H; [unfold u32_max; lia|done] end.
Qed.

Lemma read_instruction_code reader x rest : read_instruction reader = Ok (x, rest) -> user_code_ok x.
Proof.
  unfold read_instruction. intros H. step_ok H as [o r] eqn Ho. step_ok H as [f r2] eqn Hf. step_if H eqn E.
  step_ok H as [l r3] eqn Hl. step_ok H as [os r4] eqn Hos. step_ok H as [y left] eqn Hx. destruct left; [|done].
  injection H as <- <-. by eapply read_operands_code.
Qed.

Theorem decode_program_admitted bytes arguments tables claims program :
  decode_program bytes arguments tables claims = Ok program ->
  exists argument_types constant_types, admitted program argument_types constant_types tables claims.
Proof.
  unfold decode_program. intros H. step_ok H as [h r0] eqn Hh.
  step_ok H as u eqn Hclaims. step_ok H as [d r1] eqn Hd. step_ok H as result eqn Hres.
  step_ok H as [ids r2] eqn Hids. step_if H eqn Eids.
  step_ok H as [at_ r3] eqn Hat. step_ok H as [rt r4] eqn Hrt. step_ok H as [tc r5] eqn Htc.
  step_ok H as [instrs r6] eqn His. step_ok H as v eqn Hfin. step_ok H as [count r7] eqn Hcount.
  step_if H. step_ok H as [args r8] eqn Hargs. step_ok H as w eqn Hfin2.
  step_ok H as [] eqn Hverify. injection H as <-.
  apply header_counts in Hh as (H1 & H2 & H3 & H4 & H5). apply check_claims_ok in Hclaims.
  eapply (read_many_Forall (fun ty => valid_type 1 ty = true)) in Hat as [Hat _];
    [|intros; eapply read_type_valid; eauto].
  eapply (read_many_Forall (fun ty => valid_type 1 ty = true)) in Hrt as [Hrt Lrt];
    [|intros; eapply read_type_valid; eauto].
  eapply (read_many_Forall (fun tv => accepts tv.1 tv.2 = true /\ value_wf tv.2 = true)) in Htc as [Htc _];
    [|intros ? [] ? Hc; by eapply read_constant_accepted].
  eapply (read_many_Forall user_code_ok) in His as [Hcodes His]; [|intros; by eapply read_instruction_code].
  exists at_, (map fst tc). split; simpl; try done.
  - by eapply decode_valid.
  - by eapply read_arguments_accepted.
  - clear -Htc. induction Htc; simpl; constructor; auto.
  - repeat (match goal with H : Forall _ (_ :: _) |- _ => apply Forall_cons_1 in H as [? H] end).
    unfold len. lia.
  - apply negb_false_iff, bool_decide_eq_true in Eids. rewrite <-Eids. by eapply read_tables_spec.
Qed.

(** Turn a successful check of an instruction into facts. *)
Ltac inv_verify :=
  inv_ok;
  repeat match goal with
  | H : source _ _ _ = Ok _ |- _ => apply source_ok in H as [? ?]
  | H : register _ _ = Ok _ |- _ => apply register_ok in H
  | H : table _ _ = Ok _ |- _ => apply ok_or_ok in H
  | H : check_shape _ _ = Ok _ |- _ => apply check_shape_ok in H
  | u : unit |- _ => destruct u
  end.
