(* ===== verification/Access.v ===== *)
(** * Access manifests ([src/src/vm/access.rs])

    Scopes and modes, normalisation of declarations, the manifest codec, and
    the admission check of a manifest against the accesses a program needs. *)
From S2P Require Import Prelude OrdMap Errors Reader Value Encoding Limits Program.

Inductive Scope : Type :=
| Scope_Table (table : Z)
| Scope_Key (table : Z) (key : bytes).

Definition scope_table (scope : Scope) : Z :=
  match scope with Scope_Table table | Scope_Key table _ => table end.

(** A position in the canonical order: table, kind, key. *)
Abbreviation OrderKey := (Z * (Z * bytes))%type.
Definition order_key (scope : Scope) : OrderKey :=
  match scope with
  | Scope_Table table => (table, (0, []))
  | Scope_Key table key => (table, (1, key))
  end.

Inductive AccessMode : Type := Read | Write | ReadWrite.
#[export] Instance AccessMode_eq_dec : EqDecision AccessMode.
Proof. solve_decision. Defined.

(** [mode as u8] *)
Definition mode_bits (mode : AccessMode) : Z :=
  match mode with Read => 1 | Write => 2 | ReadWrite => 3 end.

(** [fn mode] *)
Definition access_mode (bits : Z) : Result Error AccessMode :=
  match bits with
  | 1 => Ok Read
  | 2 => Ok Write
  | 3 => Ok ReadWrite
  | _ => Err (Error_Invalid "invalid access mode")
  end.

Record AccessManifest : Type := { entries : list (Scope * AccessMode) }.

(** The first loop of [AccessManifest::new]: modes of equal scopes are joined. *)
Definition combine_entry (combined : list (OrderKey * Z)) (entry : Scope * AccessMode)
    : Result Error (list (OrderKey * Z)) :=
  let '(scope, mode) := entry in
  let '(table, (kind, key)) := order_key scope in
  if (table =? 0) || (table =? u64_max) || (len key >? 1024)
  then Err (Error_Invalid "invalid access scope table or key length") else
  let bits := match bt_get (order_key scope) combined with Some bits => bits | None => 0 end in
  Ok (bt_insert (order_key scope) (Z.lor bits (mode_bits mode)) combined).

(** The second loop: a table scope suppresses its modes in the points after it. *)
Fixpoint normalize (table_modes : Z * Z) (combined : list (OrderKey * Z))
    : Result Error (list (Scope * AccessMode)) :=
  match combined with
  | [] => Ok []
  | ((table, (kind, key)), bits) :: combined =>
      let table_modes := if negb (table_modes.1 =? table) then (table, 0) else table_modes in
      let '(scope, bits, table_modes) :=
        if kind =? 0 then (Scope_Table table, bits, (table_modes.1, bits))
        else (Scope_Key table key, Z.ldiff bits table_modes.2, table_modes) in
      if bits =? 0 then normalize table_modes combined else
      let* mode := access_mode bits in
      let* rest := normalize table_modes combined in
      Ok ((scope, mode) :: rest)
  end.

(** [AccessManifest::new] *)
Definition AccessManifest_new (declared : list (Scope * AccessMode)) : Result Error AccessManifest :=
  let* combined := foldR combine_entry [] declared in
  let* entries := normalize (0, 0) combined in
  Ok {| entries := entries |}.

Definition manifest_len (self : AccessManifest) : Z := len (entries self).

Definition reads (self : AccessManifest) : list Scope :=
  omap (fun e => if negb (Z.land (mode_bits e.2) 1 =? 0) then Some e.1 else None) (entries self).
Definition writes (self : AccessManifest) : list Scope :=
  omap (fun e => if negb (Z.land (mode_bits e.2) 2 =? 0) then Some e.1 else None) (entries self).

Definition check_count (self : AccessManifest) (limit : Z) : Result Error unit :=
  if manifest_len self >? Z.min limit 16384 then Err (Error_Invalid "manifest_scopes exceeds claim") else Ok tt.

(** ** The codec *)
Definition encode_entry (entry : Scope * AccessMode) : bytes :=
  let '(scope, mode) := entry in
  let '(table, (kind, key)) := order_key scope in
  le_bytes 8 table ++ [Z_byte kind; Z_byte (mode_bits mode); x00; x00] ++ le_bytes 4 (len key) ++ key.

(** [AccessManifest::encode] *)
Definition AccessManifest_encode (self : AccessManifest) : Result Error bytes :=
  let* _ := check_count self 16384 in
  Ok (le_bytes 4 (manifest_len self) ++ concat (map encode_entry (entries self))).

Abbreviation manifest_take := (take_bytes "truncated access manifest").
Abbreviation manifest_le := (take_le "truncated access manifest").

Definition decode_scope (table : Z) (kind : byte) (key : bytes) : Result Error Scope :=
  match kind with
  | x00 => if bool_decide (key = []) then Ok (Scope_Table table)
           else Err (Error_Invalid "invalid access scope kind or table key")
  | x01 => Ok (Scope_Key table key)
  | _ => Err (Error_Invalid "invalid access scope kind or table key")
  end.

(** One entry's fields, before it is compared with its predecessor. *)
Definition decode_entry (input : bytes) : Result Error (Scope * AccessMode * bytes) :=
  let* (table, input) := manifest_le input 8 in
  let* (fields, input) := manifest_take input 4 in
  let* kind := expect (fields !! 0%nat) in
  let* bits := expect (fields !! 1%nat) in
  let* mode := access_mode (byte_Z bits) in
  if (table =? 0) || (table =? u64_max) || negb (bool_decide (drop 2 fields = [x00; x00]))
  then Err (Error_Invalid "invalid access scope fields") else
  let* (length, input) := manifest_le input 4 in
  if length >? 1024 then Err (Error_Invalid "manifest key exceeds 1024 bytes") else
  let* (key, input) := manifest_take input length in
  let* scope := decode_scope table kind key in
  Ok (scope, mode, input).

(** The loop of [AccessManifest::decode]; [previous] is [entries.last()]. *)
Fixpoint decode_entries (count : nat) (previous : option Scope) (table_modes : Z * Z) (input : bytes)
    : Result Error (list (Scope * AccessMode) * bytes) :=
  match count with
  | O => Ok ([], input)
  | S count =>
      let* (scope, mode, input) := decode_entry input in
      if match previous with
         | Some previous => cmp_le (order_key scope) (order_key previous)
         | None => false
         end
      then Err (Error_Invalid "manifest scopes are not strictly ordered") else
      let table := scope_table scope in
      let table_modes := if negb (table_modes.1 =? table) then (table, 0) else table_modes in
      let* table_modes :=
        match scope with
        | Scope_Table _ => Ok (table_modes.1, mode_bits mode)
        | Scope_Key _ _ =>
            if negb (Z.land table_modes.2 (mode_bits mode) =? 0)
            then Err (Error_Invalid "manifest point mode is suppressed by table")
            else Ok table_modes
        end in
      let* (entries, input) := decode_entries count (Some scope) table_modes input in
      Ok ((scope, mode) :: entries, input)
  end.

(** [AccessManifest::decode] *)
Definition AccessManifest_decode (data : bytes) : Result Error AccessManifest :=
  let* (count, input) := manifest_le data 4 in
  if (count >? 16384) || (count >? len input / 16) then Err (Error_Invalid "invalid manifest entry count") else
  let* (entries, input) := decode_entries (Z.to_nat count) None (0, 0) input in
  match input with
  | [] => Ok {| entries := entries |}
  | _ => Err (Error_Invalid "trailing access manifest bytes")
  end.

(** ** Intersection and coverage *)
Definition overlap (left_ right_ : Scope) : bool :=
  if negb (scope_table left_ =? scope_table right_) then false else
  match left_, right_ with
  | Scope_Key _ a, Scope_Key _ b => bool_decide (a = b)
  | _, _ => true
  end.

(** [tables.binary_search_by_key(&id, |table| table.id)]: the tables of a
    program have strictly increasing IDs. *)
Definition find_table (tables : list Table) (id : Z) : option Table :=
  List.find (fun table => table_id table =? id) tables.

(** The first loop of [validate]. [schemas] caches a pure result per table. *)
Fixpoint declare (tables : list Table) (manifest : list (Scope * AccessMode))
    (declarations : list (OrderKey * Z)) : Result Error (list (OrderKey * Z)) :=
  match manifest with
  | [] => Ok declarations
  | (scope, mode) :: manifest =>
      let* table := ok_or (Error_Invalid "manifest table is not in program table array")
                      (find_table tables (scope_table scope)) in
      let* _ :=
        match scope with
        | Scope_Key _ key =>
            let* data := descriptor (table_key table) in
            let* schema := map_err Error_Storage (Schema_decode data) in
            let* _ := map_err (fun _ => Error_Invalid "manifest key is not canonical under historical schema")
                        (decode_key schema key) in
            Ok tt
        | Scope_Table _ => Ok tt
        end in
      declare tables manifest (bt_insert (order_key scope) (mode_bits mode) declarations)
  end.

Definition declared_mode (declarations : list (OrderKey * Z)) (key : OrderKey) : Z :=
  match bt_get key declarations with Some bits => bits | None => 0 end.

Definition cover_entry (declarations : list (OrderKey * Z)) (_ : unit) (entry : Scope * AccessMode)
    : Result Error unit :=
  let '(scope, required_mode) := entry in
  let table_mode := declared_mode declarations (scope_table scope, (0, [])) in
  let point_mode := declared_mode declarations (order_key scope) in
  if negb (Z.land (Z.lor table_mode point_mode) (mode_bits required_mode) =? mode_bits required_mode)
  then Err (Error_Invalid "manifest does not cover program accesses") else Ok tt.

(** [access::validate] *)
Definition validate (manifest required : AccessManifest) (tables : list Table) (claims : LimitPolicy)
    : Result Error unit :=
  let* _ := check_count manifest (limit claims 6) in
  let* declarations := declare tables (entries manifest) [] in
  foldR (cover_entry declarations) tt (entries required).
