(* ===== verification/AccessFacts.v ===== *)
(** * What a manifest grants

    Normalisation preserves the accesses declared, admission implies
    coverage, and the codec is a bijection onto the normal forms. *)
From S2P Require Import Prelude OrdMap Errors Reader Value Encoding EncodingFacts Limits Program Access.
From Stdlib Require Import Sorted.

(** ** Grants *)

(** The address of a row lies in a scope. *)
Definition in_scope (table : Z) (key : bytes) (scope : Scope) : Prop :=
  scope = Scope_Table table \/ scope = Scope_Key table key.

(** Bit 0 of a mode is reading, bit 1 writing. *)
Definition has_mode (mode : AccessMode) (bit : Z) : Prop := Z.testbit (mode_bits mode) bit = true.

Definition granted (es : list (Scope * AccessMode)) (table : Z) (key : bytes) (bit : Z) : Prop :=
  exists scope mode, (scope, mode) ∈ es /\ in_scope table key scope /\ has_mode mode bit.

Lemma granted_cons scope mode es table key bit :
  granted ((scope, mode) :: es) table key bit <->
  (in_scope table key scope /\ has_mode mode bit) \/ granted es table key bit.
Proof. unfold granted. setoid_rewrite elem_of_cons. naive_solver. Qed.

Lemma granted_nil table key bit : ~ granted [] table key bit.
Proof. intros (? & ? & []%elem_of_nil & _). Qed.

Lemma mode_bits_range mode : 1 <= mode_bits mode <= 3.
Proof. destruct mode; simpl; lia. Qed.

Lemma access_mode_ok bits mode : access_mode bits = Ok mode <-> bits = mode_bits mode.
Proof.
  split; [|intros ->; by destruct mode].
  intros H. destruct bits as [|[[| |]|[| |]|]|]; simpl in H; try discriminate H; by injection H as <-.
Qed.

Lemma order_key_inj a b : order_key a = order_key b -> a = b.
Proof. destruct a, b; simpl; intros; by simplify_eq. Qed.

(** *** The joined declarations *)
Definition scope_valid (scope : Scope) : Prop :=
  scope_table scope <> 0 /\ scope_table scope <> u64_max /\
  match scope with Scope_Key _ key => len key <= 1024 | Scope_Table _ => True end.

(** Every joined entry is the key of a scope, with a mode. *)
Definition combined_entry (e : OrderKey * Z) : Prop :=
  exists scope mode, e.1 = order_key scope /\ scope_valid scope /\ e.2 = mode_bits mode.

Record combined_ok (declared : list (Scope * AccessMode)) (combined : list (OrderKey * Z)) : Prop := {
  combined_sorted : bt_sorted combined;
  combined_entries : Forall combined_entry combined;
  combined_modes scope bit :
    Z.testbit (declared_mode combined (order_key scope)) bit = true <->
    exists mode, (scope, mode) ∈ declared /\ has_mode mode bit }.

Lemma lor_mode a b : exists mode, Z.lor (mode_bits a) (mode_bits b) = mode_bits mode.
Proof. destruct a, b; (by exists Read) || (by exists Write) || by exists ReadWrite. Qed.

Lemma scope_valid_ok scope :
  (let '(table, (_, key)) := order_key scope in
   (table =? 0) || (table =? u64_max) || (len key >? 1024)) = false -> scope_valid scope.
Proof.
  unfold scope_valid. destruct scope as [t|t k]; simpl; intros H;
    apply orb_false_iff in H as [H H3]; apply orb_false_iff in H as [H1 H2]; repeat split; blia.
Qed.

Lemma combine_entry_ok declared combined scope mode combined' :
  combined_ok declared combined -> combine_entry combined (scope, mode) = Ok combined' ->
  combined_ok (declared ++ [(scope, mode)]) combined'.
Proof.
  intros [Hs He Hm] H. unfold combine_entry in H.
  pose proof (scope_valid_ok scope) as Hv. destruct (order_key scope) as [table [kind key]] eqn:Ek.
  step_if H eqn E. specialize (Hv eq_refl). injection H as <-. rewrite <-Ek.
  assert (exists m, Z.lor match bt_get (order_key scope) combined with Some bits => bits | None => 0 end (mode_bits mode)
    = mode_bits m) as [m Hmode].
  { destruct (bt_get _ combined) as [bits|] eqn:Eg; [|by exists mode]. apply bt_get_elem in Eg.
    rewrite Forall_forall in He. destruct (He _ Eg) as (s & m & _ & _ & Hb). simpl in Hb. subst. apply lor_mode. }
  split; [by apply bt_sorted_insert| |].
  - apply Forall_forall. intros e [->|He']%elem_of_bt_insert; [by exists scope, m|].
    rewrite Forall_forall in He. by apply He.
  - intros scope' bit. unfold declared_mode. rewrite bt_get_insert by done.
    setoid_rewrite elem_of_app. setoid_rewrite list_elem_of_singleton.
    destruct (cmp (order_key scope') (order_key scope)) eqn:Ec.
    + apply cmp_eq, order_key_inj in Ec as ->. rewrite Z.lor_spec, orb_true_iff.
      specialize (Hm scope bit). unfold declared_mode in Hm. rewrite Hm. unfold has_mode. naive_solver.
    + specialize (Hm scope' bit). unfold declared_mode in Hm. rewrite Hm.
      apply cmp_lt_ne in Ec. naive_solver.
    + specialize (Hm scope' bit). unfold declared_mode in Hm. rewrite Hm.
      apply cmp_gt_lt, cmp_lt_ne in Ec. naive_solver.
Qed.

Lemma combine_ok declared : forall before combined combined',
  combined_ok before combined -> foldR combine_entry combined declared = Ok combined' ->
  combined_ok (before ++ declared) combined'.
Proof.
  induction declared as [|[scope mode] declared IH]; intros before combined combined' Hc H; simpl in H.
  { injection H as <-. by rewrite app_nil_r. }
  step_ok H as c eqn Hcomb. eapply combine_entry_ok in Hcomb; [|done].
  eapply IH in H; [|done]. by rewrite <-app_assoc in H.
Qed.

Lemma combined_nil : combined_ok [] [].
Proof.
  split; [constructor|constructor|]. intros scope bit. unfold declared_mode. simpl. rewrite Z.testbit_0_l.
  split; [done|]. intros (? & []%elem_of_nil & _).
Qed.

(** *** Normalisation *)
Definition combined_grants (combined : list (OrderKey * Z)) (table : Z) (key : bytes) (bit : Z) : Prop :=
  exists e, e ∈ combined /\ (e.1 = (table, (0, [])) \/ e.1 = (table, (1, key))) /\ Z.testbit e.2 bit = true.

Lemma combined_grants_cons e combined table key bit :
  combined_grants (e :: combined) table key bit <->
  ((e.1 = (table, (0, [])) \/ e.1 = (table, (1, key))) /\ Z.testbit e.2 bit = true) \/
  combined_grants combined table key bit.
Proof. unfold combined_grants. setoid_rewrite elem_of_cons. naive_solver. Qed.

Definition suppressed (table_modes : Z * Z) (table bit : Z) : Prop :=
  table_modes.1 = table /\ Z.testbit table_modes.2 bit = true.

Lemma normalize_grants combined : forall table_modes es table key bit,
  0 <= bit -> Forall combined_entry combined -> normalize table_modes combined = Ok es ->
  granted es table key bit \/ suppressed table_modes table bit <->
  combined_grants combined table key bit \/ suppressed table_modes table bit.
Proof.
  induction combined as [|[ok bits] combined IH]; intros [mt mb] es table key bit Hbit Hc H.
  { simpl in H. injection H as <-. unfold combined_grants. pose proof (granted_nil table key bit).
    setoid_rewrite elem_of_nil. naive_solver. }
  apply Forall_cons_1 in Hc as [(scope & mode & He & _ & Hb) Hc]. simpl in He, Hb. subst ok bits.
  rewrite combined_grants_cons. cbn [fst snd]. destruct scope as [t|t k]; cbn [normalize order_key] in H.
  - assert (mode_bits mode =? 0 = false) as Hz by by destruct mode.
    change (0 =? 0) with true in H. cbv iota in H. rewrite Hz in H.
    step_ok H as mode' eqn Hm. apply access_mode_ok in Hm. step_ok H as rest eqn Hr. injection H as <-.
    apply (IH _ _ table key bit Hbit Hc) in Hr. rewrite granted_cons. unfold in_scope, has_mode. rewrite <-Hm.
    assert (suppressed ((if negb ((mt, mb).1 =? t) then (t, 0) else (mt, mb)).1, mode_bits mode) table bit <->
      t = table /\ Z.testbit (mode_bits mode) bit = true) as Hsup.
    { unfold suppressed. simpl. destruct (Z.eqb_spec mt t); simpl; naive_solver. }
    assert ((Scope_Table t = Scope_Table table \/ Scope_Table t = Scope_Key table key) <-> t = table) as ->
      by (split; [by intros [[= <-]|]|by intros ->; left]).
    assert (((t, (0, [])) = (table, (0, [])) \/ (t, (0, @nil byte)) = (table, (1, key))) <-> t = table) as ->
      by (split; [by intros [[= <-]|]|by intros ->; left]).
    rewrite Hsup in Hr. tauto.
  - change (1 =? 0) with false in H. cbv iota in H.
    set (tm := if negb ((mt, mb).1 =? t) then (t, 0) else (mt, mb)) in *.
    assert (tm.1 = t /\ (suppressed tm table bit -> suppressed (mt, mb) table bit) /\
      (suppressed (mt, mb) t bit <-> Z.testbit tm.2 bit = true)) as (Htm & Hsub & Hsup).
    { unfold tm, suppressed. simpl. destruct (Z.eqb_spec mt t) as [->|]; simpl; rewrite ?Z.testbit_0_l; naive_solver. }
    assert (granted es table key bit <->
      (Scope_Key t k = Scope_Key table key /\ Z.testbit (Z.ldiff (mode_bits mode) tm.2) bit = true) \/
      exists rest, normalize tm combined = Ok rest /\ granted rest table key bit) as ->.
    { destruct (Z.ldiff (mode_bits mode) tm.2 =? 0) eqn:Ez.
      - apply Z.eqb_eq in Ez. rewrite Ez, Z.testbit_0_l. rewrite H. naive_solver.
      - step_ok H as mode' eqn Hm. apply access_mode_ok in Hm. step_ok H as rest eqn Hr. injection H as <-.
        rewrite granted_cons, Hr. unfold in_scope, has_mode. rewrite <-Hm. naive_solver. }
    assert (exists rest, normalize tm combined = Ok rest) as [rest Hr].
    { destruct (_ =? 0); [by exists es|]. step_ok H as mode' eqn Hm. step_ok H as rest eqn Hr. by exists rest. }
    rewrite Z.ldiff_spec, andb_true_iff, negb_true_iff. pose proof (IH tm rest table key bit Hbit Hc Hr) as IHr.
    assert ((exists rest, normalize tm combined = Ok rest /\ granted rest table key bit) <->
      granted rest table key bit) as ->.
    { rewrite Hr. split; [by intros (r & [= <-] & Hg)|by exists rest]. }
    assert (Scope_Key t k = Scope_Key table key <-> (t = table /\ k = key)) as ->
      by (split; [by intros [= <- <-]|by intros [-> ->]]).
    assert (((t, (1, k)) = (table, (0, [])) \/ (t, (1, k)) = (table, (1, key))) <-> (t = table /\ k = key)) as ->
      by (split; [by intros [|[= <- <-]]|intros [-> ->]; by right]).
    destruct (decide (t = table)) as [<-|Hne]; [|unfold suppressed in Hsub, IHr |- *; rewrite Htm in IHr; tauto].
    destruct (Z.testbit tm.2 bit) eqn:Et; [tauto|].
    assert (~ suppressed tm t bit) by (unfold suppressed; rewrite Et; by intros []). 
    assert (~ suppressed (mt, mb) t bit) by (rewrite Hsup; done). tauto.
Qed.

Lemma combined_ok_grants declared combined table key bit :
  combined_ok declared combined ->
  combined_grants combined table key bit <-> granted declared table key bit.
Proof.
  intros [Hs _ Hm]. unfold combined_grants, granted, in_scope.
  assert (forall scope, (exists e, e ∈ combined /\ e.1 = order_key scope /\ Z.testbit e.2 bit = true) <->
    exists mode, (scope, mode) ∈ declared /\ has_mode mode bit) as Hscope.
  { intros scope. rewrite <-Hm. unfold declared_mode. split.
    - intros ([k b] & He & Hk & Hb). simpl in Hk, Hb. subst k. by rewrite (bt_elem_get _ _ _ Hs He).
    - destruct (bt_get (order_key scope) combined) as [b|] eqn:E; [|by rewrite Z.testbit_0_l].
      intros Hb. apply bt_get_elem in E. by exists (order_key scope, b). }
  pose proof (Hscope (Scope_Table table)) as Ht. pose proof (Hscope (Scope_Key table key)) as Hk. simpl in Ht, Hk.
  clear Hscope Hm Hs. naive_solver.
Qed.

(** [AccessManifest::new] grants exactly what is declared. *)
Lemma new_grants declared m table key bit :
  0 <= bit -> AccessManifest_new declared = Ok m ->
  granted (entries m) table key bit <-> granted declared table key bit.
Proof.
  unfold AccessManifest_new. intros Hb H. step_ok H as combined eqn Hc. step_ok H as es eqn Hn. injection H as <-. simpl.
  apply (combine_ok declared [] [] combined combined_nil) in Hc. simpl in Hc.
  apply (normalize_grants _ _ _ table key bit Hb (combined_entries _ _ Hc)) in Hn.
  rewrite <-(combined_ok_grants _ _ _ _ _ Hc).
  assert (~ suppressed (0, 0) table bit) as Hs by (unfold suppressed; simpl; rewrite Z.testbit_0_l; by intros []).
  tauto.
Qed.

(** ** Normal forms *)

(** A decoded or normalised list, from a state of the loop on. *)
Fixpoint normal_from (previous : option Scope) (table_modes : Z * Z) (es : list (Scope * AccessMode)) : Prop :=
  match es with
  | [] => True
  | (scope, mode) :: es =>
      let table_modes := if negb (table_modes.1 =? scope_table scope) then (scope_table scope, 0) else table_modes in
      scope_valid scope /\
      match previous with Some p => cmp (order_key p) (order_key scope) = Lt | None => True end /\
      match scope with
      | Scope_Table _ => normal_from (Some scope) (table_modes.1, mode_bits mode) es
      | Scope_Key _ _ => Z.land table_modes.2 (mode_bits mode) = 0 /\ normal_from (Some scope) table_modes es
      end
  end.

Abbreviation entry_lt := (fun a b : Scope * AccessMode => cmp (order_key a.1) (order_key b.1) = Lt).

Lemma normal_from_sorted es : forall previous table_modes,
  normal_from previous table_modes es ->
  Forall (fun e => scope_valid e.1) es /\ StronglySorted entry_lt es /\
  forall p, previous = Some p -> Forall (fun e => cmp (order_key p) (order_key e.1) = Lt) es.
Proof.
  induction es as [|[scope mode] es IH]; intros previous tm H; simpl in H; [repeat constructor|].
  destruct H as (Hv & Hp & Hn).
  assert (exists tm', normal_from (Some scope) tm' es) as [tm' Hn'] by (destruct scope; naive_solver).
  apply IH in Hn' as (Hvs & Hs & Hf). specialize (Hf scope eq_refl).
  split; [by constructor|]. split; [by constructor|]. intros p ->. constructor; [done|].
  eapply Forall_impl; [exact Hf|]. intros e He. by eapply cmp_trans.
Qed.

Abbreviation normal := (normal_from None (0, 0)).

Lemma land_ldiff a b : Z.land b (Z.ldiff a b) = 0.
Proof. apply Z.bits_inj'. intros n Hn. rewrite Z.land_spec, Z.ldiff_spec, Z.bits_0. by destruct (Z.testbit a n), (Z.testbit b n). Qed.

Lemma normalize_normal combined : forall previous table_modes es,
  bt_sorted combined -> Forall combined_entry combined ->
  (forall p, previous = Some p -> Forall (fun e => cmp (order_key p) e.1 = Lt) combined) ->
  normalize table_modes combined = Ok es -> normal_from previous table_modes es.
Proof.
  induction combined as [|[ok bits] combined IH]; intros previous [mt mb] es Hs Hc Hp H.
  { simpl in H. by injection H as <-. }
  apply StronglySorted_inv in Hs as [Hs Hlt].
  apply Forall_cons_1 in Hc as [(scope & mode & He & Hv & Hb) Hc]. simpl in He, Hb. subst ok bits.
  assert (match previous with Some p => cmp (order_key p) (order_key scope) = Lt | None => True end) as Hprev.
  { destruct previous as [p|]; [|done]. specialize (Hp _ eq_refl). by apply Forall_cons_1 in Hp as [Hp _]. }
  assert (forall q, Some scope = Some q -> Forall (fun e => cmp (order_key q) e.1 = Lt) combined) as Hnext
    by (intros q [= <-]; exact Hlt).
  destruct scope as [t|t k]; cbn [normalize order_key] in H.
  - assert (mode_bits mode =? 0 = false) as Hz by by destruct mode.
    change (0 =? 0) with true in H. cbv iota in H. rewrite Hz in H.
    step_ok H as mode' eqn Hm. apply access_mode_ok in Hm. step_ok H as rest eqn Hr. injection H as <-.
    simpl. split; [done|]. split; [done|]. rewrite <-Hm. by eapply IH.
  - change (1 =? 0) with false in H. cbv iota in H.
    set (tm := if negb ((mt, mb).1 =? t) then (t, 0) else (mt, mb)) in *.
    destruct (Z.ldiff (mode_bits mode) tm.2 =? 0) eqn:Ez.
    + assert (tm = (mt, mb)) as Etm.
      { unfold tm in Ez |- *. simpl in *. destruct (mt =? t); simpl in *; [done|]. by destruct mode. }
      rewrite Etm in H. eapply IH; [done|done| |exact H]. intros p ->. specialize (Hp _ eq_refl).
      by apply Forall_cons_1 in Hp as [_ Hp].
    + step_ok H as mode' eqn Hm. apply access_mode_ok in Hm. step_ok H as rest eqn Hr. injection H as <-.
      simpl. fold tm. split; [done|]. split; [done|]. rewrite <-Hm. split; [apply land_ldiff|]. by eapply IH.
Qed.

Lemma new_normal declared m : AccessManifest_new declared = Ok m -> normal (entries m).
Proof.
  unfold AccessManifest_new. intros H. step_ok H as combined eqn Hc. step_ok H as es eqn Hn. injection H as <-.
  apply (combine_ok declared [] [] combined combined_nil) in Hc as []. by eapply normalize_normal.
Qed.

(** ** The codec *)
Lemma decode_scope_iff table kind key scope :
  decode_scope table kind key = Ok scope <->
  kind = Z_byte (order_key scope).2.1 /\ table = scope_table scope /\ key = (order_key scope).2.2.
Proof.
  split.
  - unfold decode_scope. intros H. destruct kind; try discriminate H.
    + destruct (bool_decide_reflect (key = [])) as [->|]; [|done]. by injection H as <-.
    + by injection H as <-.
  - intros (-> & -> & ->). by destruct scope.
Qed.

(** What one encoded entry can hold. *)
Definition entry_fits (e : Scope * AccessMode) : Prop :=
  0 <= scope_table e.1 <= u64_max /\ scope_valid e.1.

Lemma entry_key_len scope : scope_valid scope -> len (order_key scope).2.2 <= 1024.
Proof. destruct scope; simpl; [done|]. by intros (_ & _ & ?). Qed.

Lemma encode_entry_eq scope mode :
  encode_entry (scope, mode) =
  le_bytes 8 (scope_table scope) ++ [Z_byte (order_key scope).2.1; Z_byte (mode_bits mode); x00; x00] ++
  le_bytes 4 (len (order_key scope).2.2) ++ (order_key scope).2.2.
Proof. by destruct scope. Qed.

Lemma decode_entry_inv input scope mode rest :
  decode_entry input = Ok (scope, mode, rest) ->
  input = encode_entry (scope, mode) ++ rest /\ entry_fits (scope, mode).
Proof.
  unfold decode_entry. intros H. step_ok H as [table in1] eqn Ht. step_ok H as [fields in2] eqn Hf.
  step_ok H as kind eqn Hk. step_ok H as bits eqn Hb. step_ok H as m eqn Hm. step_if H eqn E.
  step_ok H as [length in3] eqn Hl. step_if H eqn El. step_ok H as [key in4] eqn Hkey.
  step_ok H as s eqn Hs. injection H as -> -> ->. rewrite encode_entry_eq.
  apply (take_le_inv _ _ 8) in Ht as [-> Ht]; [|done]. apply take_bytes_inv in Hf as [-> Hf]; [|done].
  apply (take_le_inv _ _ 4) in Hl as [-> Hl]; [|done]. apply take_bytes_inv in Hkey as [-> <-]; [|lia].
  apply expect_ok in Hk, Hb. apply access_mode_ok in Hm. apply decode_scope_iff in Hs as (-> & -> & ->).
  apply orb_false_iff in E as [E E3]. apply orb_false_iff in E as [E1 E2].
  apply negb_false_iff, bool_decide_eq_true in E3.
  destruct fields as [|b0 [|b1 fields]]; try discriminate Hk; try discriminate Hb. simpl in *. injection Hk as ->.
  injection Hb as ->. assert (fields = [x00; x00]) as -> by exact E3. rewrite <-Hm, Z_byte_Z, <-!app_assoc. simpl. rewrite <-!app_assoc.
  split; [done|]. unfold entry_fits, scope_valid. simpl. change (256 ^ 8) with 18446744073709551616 in Ht.
  split; [unfold u64_max; lia|]. split; [blia|]. split; [blia|]. destruct scope; simpl in *; [done|blia].
Qed.

Lemma decode_entry_eq scope mode rest :
  entry_fits (scope, mode) -> decode_entry (encode_entry (scope, mode) ++ rest) = Ok (scope, mode, rest).
Proof.
  intros [Ht Hv]. cbn [fst] in Ht, Hv. pose proof (entry_key_len _ Hv) as Hk. destruct Hv as (H0 & H1 & _).
  rewrite encode_entry_eq. unfold decode_entry. rewrite <-!app_assoc.
  rewrite take_le_app; [|done|change (256 ^ 8) with (u64_max + 1); lia]. cbn [bindR].
  rewrite take_bytes_app by done. cbn [bindR expect lookup list_lookup].
  rewrite (proj2 (access_mode_ok (byte_Z (Z_byte (mode_bits mode))) mode)) by by destruct mode. cbn [bindR].
  rewrite !(proj2 (Z.eqb_neq _ _)) by done. cbn [orb drop]. rewrite bool_decide_true by done. cbn [negb].
  pose proof (len_nonneg (order_key scope).2.2).
  rewrite take_le_app; [|done|change (256 ^ 4) with 4294967296; lia]. cbn [bindR]. rewrite gtb_false by done.
  rewrite take_bytes_app by done. cbn [bindR].
  by rewrite (proj2 (decode_scope_iff _ _ _ scope)) by done.
Qed.

Lemma decode_entries_inv count : forall previous tm input es rest,
  decode_entries count previous tm input = Ok (es, rest) ->
  length es = count /\ input = concat (map encode_entry es) ++ rest /\ Forall entry_fits es /\
  normal_from previous tm es.
Proof.
  induction count as [|count IH]; intros previous tm input es rest H; simpl in H.
  { injection H as <- <-. by repeat constructor. }
  step_ok H as [[scope mode] in1] eqn He. step_if H eqn Eo. step_ok H as tm' eqn Htm.
  step_ok H as [es' in2] eqn Hes. injection H as <- <-.
  apply decode_entry_inv in He as (-> & Hf). apply IH in Hes as (<- & -> & Hfs & Hn). pose proof Hf as [_ Hv].
  cbn [map concat length normal_from]. rewrite <-app_assoc. split; [done|]. split; [done|]. split; [by constructor|].
  split; [done|]. split.
  - destruct previous; [|done]. rewrite cmp_le_lt in Eo. by apply cmp_lt_true, negb_false_iff.
  - destruct scope; [by injection Htm as <-|]. step_if Htm eqn Ez. injection Htm as <-.
    apply negb_false_iff, Z.eqb_eq in Ez. done.
Qed.

Lemma decode_entries_eq es : forall previous tm rest,
  Forall entry_fits es -> normal_from previous tm es ->
  decode_entries (length es) previous tm (concat (map encode_entry es) ++ rest) = Ok (es, rest).
Proof.
  induction es as [|[scope mode] es IH]; intros previous tm rest Hf Hn; [done|].
  apply Forall_cons_1 in Hf as [Hf Hfs]. cbn [map concat length normal_from decode_entries] in *.
  destruct Hn as (_ & Hp & Hn). rewrite <-app_assoc, decode_entry_eq by done. cbn [bindR].
  assert (match previous with Some p => cmp_le (order_key scope) (order_key p) | None => false end = false) as ->.
  { destruct previous; [|done]. rewrite cmp_le_lt. by apply negb_false_iff, cmp_lt_true. }
  destruct scope as [t|t k]; cbn [bindR].
  - by rewrite IH.
  - destruct Hn as [Hz Hn]. rewrite Hz. cbn [negb Z.eqb bindR]. by rewrite IH.
Qed.

Lemma check_count_ok m limit u : check_count m limit = Ok u <-> manifest_len m <= limit /\ manifest_len m <= 16384.
Proof. unfold check_count. destruct u. destruct (Z.gtb_spec (manifest_len m) (Z.min limit 16384)); naive_solver lia. Qed.

Lemma encode_entry_min e : 16 <= len (encode_entry e).
Proof.
  destruct e as [s m]. rewrite encode_entry_eq. autorewrite with blop. pose proof (len_nonneg (order_key s).2.2). lia.
Qed.
Lemma encode_entries_min es : 16 * len es <= len (concat (map encode_entry es)).
Proof.
  induction es as [|e es IH]; cbn [map concat]; autorewrite with blop; [done|]. pose proof (encode_entry_min e). lia.
Qed.

Lemma manifest_codec_iff data m :
  AccessManifest_decode data = Ok m <->
  AccessManifest_encode m = Ok data /\ Forall entry_fits (entries m) /\ normal (entries m).
Proof.
  unfold AccessManifest_decode, AccessManifest_encode. split.
  - intros H. step_ok H as [count in1] eqn Hc. step_if H eqn E. step_ok H as [es in2] eqn Hes. destruct in2; [|done].
    injection H as <-. apply (take_le_inv _ _ 4) in Hc as [-> Hc]; [|done].
    apply decode_entries_inv in Hes as (Hl & -> & Hf & Hn). apply orb_false_iff in E as [E _].
    assert (len es = count) as El by (unfold len; lia).
    rewrite (proj2 (check_count_ok _ 16384 tt)) by (unfold manifest_len; simpl; rewrite El; blia). cbn [bindR].
    unfold manifest_len. simpl. rewrite El, app_nil_r. done.
  - intros (H & Hf & Hn). step_ok H as [] eqn Hc. injection H as <-. apply check_count_ok in Hc as [Hc _].
    unfold manifest_len in *. pose proof (len_nonneg (entries m)).
    rewrite take_le_app; [|done|change (256 ^ 4) with 4294967296; lia]. cbn [bindR]. rewrite gtb_false by done.
    pose proof (encode_entries_min (entries m)). rewrite gtb_false by (apply Z.div_le_lower_bound; lia). cbn [orb].
    unfold len. rewrite Nat2Z.id, <-(app_nil_r (concat _)), decode_entries_eq by done. cbn [bindR]. by destruct m.
Qed.

(** ** Admission *)
Lemma declare_modes tables manifest : forall declarations declarations',
  bt_sorted declarations -> declare tables manifest declarations = Ok declarations' ->
  bt_sorted declarations' /\
  forall k bits, bt_get k declarations' = Some bits ->
    bt_get k declarations = Some bits \/ exists scope mode, (scope, mode) ∈ manifest /\ order_key scope = k /\ mode_bits mode = bits.
Proof.
  induction manifest as [|[scope mode] manifest IH]; intros ds ds' Hs H; simpl in H.
  { injection H as <-. split; [done|by left]. }
  step_ok H as table eqn Ht. step_ok H as [] eqn Hk. apply IH in H as [Hs' Hd]; [|by apply bt_sorted_insert].
  split; [done|]. intros k bits Hg. apply Hd in Hg as [Hg|(s & m & Hin & <- & <-)].
  - rewrite bt_get_insert in Hg by done. destruct (cmp k (order_key scope)) eqn:Ec; try by left.
    injection Hg as <-. apply cmp_eq in Ec as ->. right. exists scope, mode. by rewrite elem_of_cons; auto.
  - right. exists s, m. rewrite elem_of_cons. auto.
Qed.

Lemma declared_bit tables manifest declarations scope bit :
  declare tables manifest [] = Ok declarations ->
  Z.testbit (declared_mode declarations (order_key scope)) bit = true ->
  exists mode, (scope, mode) ∈ manifest /\ has_mode mode bit.
Proof.
  intros H Hb. apply declare_modes in H as [_ Hd]; [|constructor]. unfold declared_mode in Hb.
  destruct (bt_get (order_key scope) declarations) as [bits|] eqn:E; [|by rewrite Z.testbit_0_l in Hb].
  apply Hd in E as [|(s & m & Hin & Hk & <-)]; [done|]. apply order_key_inj in Hk as ->. by exists m.
Qed.

Lemma cover_ok declarations required u :
  foldR (cover_entry declarations) tt required = Ok u ->
  Forall (fun e => Z.land (Z.lor (declared_mode declarations (scope_table e.1, (0, [])))
    (declared_mode declarations (order_key e.1))) (mode_bits e.2) = mode_bits e.2) required.
Proof.
  induction required as [|[scope mode] required IH]; intros H; simpl in H; [constructor|].
  step_ok H as [] eqn Hc. unfold cover_entry in Hc. step_if Hc eqn E. apply negb_false_iff, Z.eqb_eq in E.
  constructor; [done|by apply IH].
Qed.

(** An admitted manifest grants every access the program requires. *)
Lemma validate_grants manifest required tables claims u table key bit :
  validate manifest required tables claims = Ok u ->
  granted (entries required) table key bit -> granted (entries manifest) table key bit.
Proof.
  unfold validate. intros H (scope & mode & Hin & Hs & Hm). step_ok H as [] eqn Hc. step_ok H as ds eqn Hd.
  apply cover_ok in H. rewrite Forall_forall in H. specialize (H _ Hin). simpl in H.
  assert (Z.testbit (Z.lor (declared_mode ds (scope_table scope, (0, []))) (declared_mode ds (order_key scope))) bit = true) as Hb.
  { unfold has_mode in Hm. rewrite <-H, Z.land_spec, andb_true_iff in Hm. tauto. }
  rewrite Z.lor_spec, orb_true_iff in Hb. destruct Hb as [Hb|Hb].
  - change (scope_table scope, (0, [])) with (order_key (Scope_Table (scope_table scope))) in Hb.
    eapply declared_bit in Hb as (m & Hin' & Hm'); [|done]. exists (Scope_Table (scope_table scope)), m.
    split; [done|]. split; [|done]. destruct Hs as [->| ->]; by left.
  - eapply declared_bit in Hb as (m & Hin' & Hm'); [|done]. by exists scope, m.
Qed.
