(* ===== verification/Analysis.v ===== *)
(** * The access analysis ([src/src/vm/access_analysis.rs])

    Known register values are propagated along the forward control flow, and
    each instruction that touches a table contributes a point scope when its
    key is known and canonical, and the whole table otherwise. *)
From stdpp Require Import gmap.
From S2P Require Import Prelude OrdMap Errors Value ValueFacts Encoding Limits Operations Program Access.

(** [BTreeMap<usize, Rc<Cow<Value>>>]: missing registers are unknown. *)
Abbreviation Known := (gmap nat Value).

(** [current.retain(|register, value| incoming.get(register) == Some(value))] *)
Definition join (current incoming : Known) : Known :=
  filter (fun entry => incoming !! entry.1 = Some entry.2) current.

(** [e?] in a function that returns an option. *)
Notation "'let?' x ':=' o 'in' k" := (match o with Some x => k | None => Ok None end)
  (at level 200, x binder, k at level 200).

(** [.ok()?] *)
Definition known_ok (m : Result AbortReason Value) : Result Error (option Value) :=
  match m with Ok value => Ok (Some value) | Err _ => Ok None | Panic => Panic end.

(** Whether every zipped field is known and accepted. *)
Fixpoint fields_accepted (known : Known) (fields : list nat) (types : list Ty) : bool :=
  match fields, types with
  | field :: fields, ty :: types =>
      match known !! field with
      | Some value => accepts ty value && fields_accepted known fields types
      | None => false
      end
  | _, _ => true
  end.

Section Analysis.
Context (sha256 : bytes -> bytes) (program : Program).

(** [evaluate] *)
Definition known_value (instruction : Instruction) (known : Known) : Result Error (option Value) :=
  match instruction with
  | Const _ constant => let* value := expect (constants program !! constant) in Ok (Some value)
  | Arg _ argument => let* value := expect (prog_arguments program !! argument) in Ok (Some value)
  | Move _ src => Ok (known !! src)
  | Binary op dst left_ right_ =>
      let? left_ := known !! left_ in
      let? right_ := known !! right_ in
      let* ty := expect (register_types program !! dst) in
      known_ok (binary op left_ right_ ty)
  | Unary op _ src =>
      let? src := known !! src in
      known_ok (unary sha256 op src)
  | Slice _ src start length =>
      let? src := known !! src in
      let? start := known !! start in
      let? length := known !! length in
      known_ok (slice src start length)
  | Tuple dst fields =>
      let* ty := expect (register_types program !! dst) in
      match ty with
      | Type_Tuple types =>
          if negb (fields_accepted known fields types) then Ok None else
          let* values := mapR (fun field => expect (known !! field)) fields in
          Ok (Some (Value_Tuple values))
      | _ => Panic
      end
  | Field _ src field =>
      let? src := known !! src in
      match src with
      | Value_Tuple fields => let* value := expect (fields !! field) in Ok (Some value)
      | _ => Panic
      end
  | _ => Ok None
  end.

(** The table register and key register of an access, and its mode. *)
Definition accessed (instruction : Instruction) : option (nat * option nat * AccessMode) :=
  match instruction with
  | Load _ table key | Exists _ table key => Some (table, Some key, Read)
  | Insert table key _ => Some (table, Some key, ReadWrite)
  | Store table key _ | Delete table key => Some (table, Some key, Write)
  | Scan _ table _ _ _ _ _ => Some (table, None, Read)
  | _ => None
  end.

(** [encoding::encode_key(..).ok()] of a known key. *)
Definition known_key (schema : Schema) (value : Value) : Result Error (option bytes) :=
  let* data := encode value in
  match encode_key schema data with
  | Ok key => Ok (Some key)
  | Err _ => Ok None
  | Panic => Panic
  end.

Definition access_entry (schemas : list Schema) (known : Known) (instruction : Instruction)
    : Result Error (option (Scope * AccessMode)) :=
  match accessed instruction with
  | None => Ok None
  | Some (index, register, mode) =>
      let* table := expect (prog_tables program !! index) in
      let* key :=
        let? register := register in
        let? value := known !! register in
        let* schema := expect (schemas !! index) in
        known_key schema value in
      Ok (Some (match key with
                | Some key => Scope_Key (table_id table) key
                | None => Scope_Table (table_id table)
                end, mode))
  end.

Definition destination (instruction : Instruction) : option nat :=
  match instruction with
  | Const dst _ | Arg dst _ | Move dst _ | Binary _ dst _ _ | Unary _ dst _ | Slice dst _ _ _
  | Tuple dst _ | Field dst _ _ | Load dst _ _ | Exists dst _ _ | Scan dst _ _ _ _ _ _ => Some dst
  | _ => None
  end.

(** The known values after an instruction. *)
Definition update_known (instruction : Instruction) (known : Known) : Result Error Known :=
  match destination instruction with
  | None => Ok known
  | Some dst =>
      let* value := known_value instruction known in
      match value with
      | None => Ok (delete dst known)
      | Some value =>
          let* ty := expect (register_types program !! dst) in
          Ok (if accepts ty value then <[dst := value]> known else delete dst known)
      end
  end.

(** The state in which control reaches an instruction. *)
Definition known_merge (fallthrough : option Known) (incoming : option (option Known)) : Result Error Known :=
  match fallthrough, incoming with
  | _, None => Panic
  | Some current, Some (Some incoming) => Ok (join current incoming)
  | Some current, Some None | None, Some (Some current) => Ok current
  | None, Some None => Panic
  end.

(** [pending[*target]]: joined with what is pending there already. *)
Definition known_pend (pending : list (option Known)) (target : nat) (known : Known)
    : Result Error (list (option Known)) :=
  match pending !! target with
  | Some (Some incoming) => Ok (<[target := Some (join incoming known)]> pending)
  | Some None => Ok (<[target := Some known]> pending)
  | None => Panic
  end.

(** The loop of [derive] over the instructions from [index] on. *)
Fixpoint derive_loop (schemas : list Schema) (index : nat) (instructions : list Instruction)
    (pending : list (option Known)) (fallthrough : option Known)
    : Result Error (list (Scope * AccessMode)) :=
  match instructions with
  | [] => Ok []
  | instruction :: instructions =>
      let* known := known_merge fallthrough (pending !! index) in
      let pending := <[index := None]> pending in
      let* entry := access_entry schemas known instruction in
      let* known := update_known instruction known in
      let* (pending, fallthrough) :=
        match instruction with
        | Jump target =>
            let* pending := known_pend pending target known in Ok (pending, None)
        | JumpIfFalse _ target =>
            let* pending := known_pend pending target known in Ok (pending, Some known)
        | Return _ | Abort_ _ => Ok (pending, None)
        | _ => Ok (pending, Some known)
        end in
      let* entries := derive_loop schemas (S index) instructions pending fallthrough in
      Ok (match entry with Some entry => entry :: entries | None => entries end)
  end.

Definition table_schemas : Result Error (list Schema) :=
  mapR (fun table => let* data := descriptor (table_key table) in
                     map_err Error_Storage (Schema_decode data)) (prog_tables program).

Definition derive : Result Error AccessManifest :=
  let* schemas := table_schemas in
  let pending := repeat None (length (prog_instructions program)) in
  let* entries := derive_loop schemas 0 (prog_instructions program) pending (Some ∅) in
  AccessManifest_new entries.
End Analysis.
