(* ===== verification/Catalogue.v ===== *)
(** * Catalogue entries ([src/src/vm/database.rs])

    Table names, the bounded walk that guards a public type before its
    descriptor is encoded, catalogue keys and catalogue values. *)
From S2P Require Import Prelude Errors Reader Value Encoding Program.

Inductive CatalogueOperation : Type :=
| Create (name : bytes) (key value : Ty)
| Rename (table : Z) (name : bytes)
| Drop_ (table : Z).

Record CatalogueVersion : Type := { live : bool; name : bytes; version_table : Table }.

Definition valid_name (name : bytes) : Result Error unit :=
  if bool_decide (name = []) || (len name >? 255) || existsb (fun b => bool_decide (b = x00)) name
  then Err (Error_Invalid "table name must contain 1 through 255 UTF-8 bytes without NUL")
  else Ok tt.

Abbreviation catalogue_take := (take_bytes "truncated catalogue value").
Abbreviation catalogue_le := (take_le "truncated catalogue value").
Abbreviation catalogue_byte := (take_byte "truncated catalogue value").
Abbreviation catalogue_blob := (take_blob "truncated catalogue value").

Definition table_schema (data : bytes) (key : bool) : Result Error Schema :=
  let* schema := map_err input_error (Schema_decode data) in
  if key && (schema_max_key_bytes schema >? 1024)
  then Err (Error_Invalid "table key schema exceeds 1,024 canonical bytes")
  else Ok schema.

(** ** The structural bound of a public type

    [while let Some((ty, depth)) = pending.pop() { .. }]: the worklist is a
    stack, its top the head of the list.  [walk_fuel] steps suffice because
    every step adds a byte to a size that may not exceed 65,536. *)
Section Walk.
Context (too_deep too_long : string) (rows : Ty -> Z -> Ty -> Ty -> Result Error (Z * list (Ty * Z))).

(** The bytes a node adds to the descriptor, and the nodes below it in the
    order they are pushed. *)
Definition walk_node (ty : Ty) (depth : Z) : Result Error (Z * list (Ty * Z)) :=
  match ty with
  | Type_Unit | Type_Boolean | Type_I64 | Type_U64 => Ok (1, [])
  | Type_Bytes _ | Type_String _ => Ok (5, [])
  | Type_Tuple fields =>
      if len fields >? 256 then Err (Error_Invalid "tuple exceeds 256 fields") else
      Ok (3, map (fun field => (field, depth + 1)) fields)
  | Type_Rows _ key value => rows ty depth key value
  end.

Fixpoint walk (fuel : nat) (pending : list (Ty * Z)) (size : Z) : Result Error unit :=
  match pending with
  | [] => Ok tt
  | (ty, depth) :: pending =>
      match fuel with
      | O => Panic
      | S fuel =>
          if depth >? 16 then Err (Error_Invalid too_deep) else
          let* (added, pushed) := walk_node ty depth in
          if size + added >? 65536 then Err (Error_Invalid too_long) else
          walk fuel (rev pushed ++ pending) (size + added)
      end
  end.
End Walk.

Definition walk_fuel : nat := Z.to_nat 65536.

Definition no_rows (_ : Ty) (_ : Z) (_ _ : Ty) : Result Error (Z * list (Ty * Z)) :=
  Err (Error_Invalid "Rows is not a storage schema type").

Definition schema_descriptor (ty : Ty) (key : bool) : Result Error bytes :=
  let* _ := walk "schema nesting exceeds depth 16" "schema descriptor exceeds 65,536 bytes" no_rows
              walk_fuel [(ty, 1)] 2 in
  let* descriptor := descriptor ty in
  let* _ := table_schema descriptor key in
  Ok descriptor.

(** ** Keys and values of the catalogue tree *)
Definition catalogue_key (id sequence : Z) : bytes := be_bytes 8 id ++ be_bytes 8 (not_u64 sequence).

Definition decode_catalogue_key (data : bytes) : Result Error (Z * Z) :=
  if negb (len data =? 16) then Err (Error_Storage (Corrupt "invalid catalogue key length")) else
  let id := from_be (take 8 data) in
  let sequence := not_u64 (from_be (drop 8 data)) in
  let* _ := map_err persisted (valid_id id) in
  let* _ := map_err persisted (valid_id sequence) in
  if sequence <? id then Err (Error_Storage (Corrupt "catalogue version predates creation")) else
  Ok (id, sequence).

Definition catalogue_state (tag : byte) : Result Error bool :=
  match tag with
  | x01 => Ok true
  | x02 => Ok false
  | _ => Err (Error_Invalid "invalid catalogue state")
  end.

Definition decode_catalogue (id : Z) (data : bytes) : Result Error CatalogueVersion :=
  let* _ := valid_id id in
  let* (version, input) := catalogue_le data 2 in
  if negb (version =? 1) then Err (Error_Unsupported "catalogue" version) else
  let* (tag, input) := catalogue_byte input in
  let* live := catalogue_state tag in
  let* (reserved, input) := catalogue_take input 1 in
  if negb (bool_decide (reserved = [x00])) then Err (Error_Invalid "nonzero catalogue reserved field") else
  let* (name, input) := catalogue_blob input in
  if negb (utf8_valid name) then Err (Error_Invalid "invalid UTF-8 table name") else
  let* _ := valid_name name in
  let* (key, input) := catalogue_blob input in
  let* _ := table_schema key true in
  let* key := decode key in
  let* (value, input) := catalogue_blob input in
  let* _ := table_schema value false in
  let* value := decode value in
  match input with
  | [] => Ok {| live := live; name := name;
                version_table := {| table_id := id; table_key := key; table_value := value |} |}
  | _ => Err (Error_Invalid "trailing catalogue bytes")
  end.

Definition encode_catalogue (version : CatalogueVersion) : Result Error bytes :=
  let table := version_table version in
  let* _ := valid_id (table_id table) in
  let* _ := valid_name (name version) in
  let* key := schema_descriptor (table_key table) true in
  let* value := schema_descriptor (table_value table) false in
  let data := [x01; x00; if live version then x01 else x02; x00] in
  let* data := put_blob "blob exceeds u32" data (name version) in
  let* data := put_blob "blob exceeds u32" data key in
  put_blob "blob exceeds u32" data value.
