(* ===== verification/CatalogueFacts.v ===== *)
(** * The catalogue codecs

    The guard before [Type::descriptor] is exactly what that encoder needs,
    and the key and value codecs of the catalogue tree are bijections onto
    their canonical forms. *)
From S2P Require Import Prelude Errors Reader Value ValueFacts Encoding EncodingFacts Program Catalogue.

(** ** The worklist *)
Abbreviation encodes_to := (fun (p : Ty * Z) part => encode_type (E:=Error) p.1 = Ok part).
Definition encodable (p : Ty * Z) : Prop := exists part, encode_type (E:=Error) p.1 = Ok part.

Lemma Forall_rev_iff {A} (P : A -> Prop) l : Forall P (rev l) <-> Forall P l.
Proof. split; intros H%List.Forall_rev; [by rewrite rev_involutive in H|done]. Qed.

Section Walk.
Context (too_deep too_long : string) (rows : Ty -> Z -> Ty -> Ty -> Result Error (Z * list (Ty * Z))).

(** What the treatment of [Rows] must satisfy: it is refused, or costs its
    header and pushes both components. *)
Definition rows_walked : Prop := forall ty depth key value,
  match rows ty depth key value with
  | Ok (added, pushed) => added = 5 /\ pushed = [(key, depth + 1); (value, depth + 1)]
  | Err _ => True
  | Panic => False
  end.
Context (Hrows : rows_walked).

Lemma walk_node_cases ty depth :
  match walk_node rows ty depth with
  | Ok (added, pushed) => 1 <= added /\ (Forall encodable pushed -> encodable (ty, depth))
  | Err _ => True
  | Panic => False
  end.
Proof.
  destruct ty as [| | | |b|b|fields|m k v]; simpl; try (split; [done|intros _; by eexists]).
  - destruct (len fields >? 256) eqn:El; [done|]. split; [done|]. rewrite Forall_map. intros Hf.
    destruct (mapR_total (encode_type (E:=Error)) fields) as [parts Hp].
    { eapply Forall_impl; [exact Hf|]. by intros f [p Hp]; exists p. }
    eexists. unfold encodable. simpl. rewrite gtb_false by (unfold u16_max; blia). by rewrite Hp.
  - pose proof (Hrows (Type_Rows m k v) depth k v) as Hr. destruct (rows _ _ _ _) as [[a p]| |]; [|done..].
    destruct Hr as [-> ->]. split; [done|].
    intros [[pk Hk] [[pv Hv] _]%Forall_cons_1]%Forall_cons_1. simpl in *.
    eexists. unfold encodable. simpl. by rewrite Hk, Hv.
Qed.

(** The fuel is enough, and what passes can be encoded. *)
Lemma walk_sound fuel : forall pending size,
  65536 - size < Z.of_nat fuel -> size <= 65536 ->
  match walk too_deep too_long rows fuel pending size with
  | Ok _ => Forall encodable pending
  | Err _ => True
  | Panic => False
  end.
Proof.
  induction fuel as [|fuel IH]; intros [|[ty depth] pending] size Hf Hs; simpl; try done; [lia|].
  destruct (depth >? 16); [done|]. pose proof (walk_node_cases ty depth) as Hn.
  destruct (walk_node rows ty depth) as [[added pushed]| |]; simpl; [|done..].
  destruct Hn as [Ha Hn]. destruct (size + added >? 65536) eqn:E; [done|].
  specialize (IH (rev pushed ++ pending) (size + added)).
  destruct (walk _ _ _ _ _ _); [|done|apply IH; blia].
  assert (Forall encodable (rev pushed ++ pending)) as [Hp Hr]%Forall_app by (apply IH; blia).
  constructor; [by apply Hn, Forall_rev_iff|done].
Qed.

(** A valid type passes: the walk counts the bytes of its descriptor. *)
Definition walks (p : Ty * Z) : Prop :=
  valid_type p.2 p.1 = true /\
  forall m key value, p.1 = Type_Rows m key value -> forall depth,
    rows p.1 depth key value = Ok (5, [(key, depth + 1); (value, depth + 1)]).

Lemma valid_below ty depth : valid_type depth ty = true -> depth <> 1 -> walks (ty, depth).
Proof. intros Hv Hd. split; [done|]. simpl. intros m k v ->. simpl in Hv. blia. Qed.

Lemma walk_node_accepts ty depth part :
  1 <= depth -> walks (ty, depth) -> encode_type (E:=Error) ty = Ok part ->
  exists added pushed parts, walk_node rows ty depth = Ok (added, pushed) /\ 1 <= added /\
    Forall walks pushed /\ Forall (fun p => 1 <= p.2) pushed /\
    Forall2 encodes_to pushed parts /\ len part = added + len (concat parts).
Proof.
  intros Hd [Hv Hr] Hp. destruct ty as [| | | |b|b|fields|m k v]; simpl in *; inv_ok.
  1-6: eexists _, [], []; repeat split; try constructor; by autorewrite with blop.
  - destruct_andb. rewrite gtb_false by blia. match goal with Hp : mapR _ _ = Ok _ |- _ => apply mapR_Forall2 in Hp as Hparts end.
    eexists 3, _, _. split; [done|].
    split; [done|]. rewrite !Forall_map.
    split; [|split; [|split]].
    + match goal with Hf : forallb _ _ = true |- _ => apply forallb_Forall in Hf; eapply Forall_impl; [exact Hf|] end.
      intros f Hf. apply valid_below; [done|lia].
    + apply Forall_true. simpl. lia.
    + by apply Forall2_fmap_l.
    + autorewrite with blop. lia.
  - destruct_andb. eexists 5, _, [_; _]. rewrite (Hr _ _ _ eq_refl). split; [done|]. split; [done|].
    split; [|split; [|split]].
    + repeat constructor; apply valid_below; done || lia.
    + repeat constructor; simpl; lia.
    + by repeat constructor.
    + cbn [concat]. rewrite app_nil_r. autorewrite with blop. lia.
Qed.

Lemma Forall2_rev {A B} (R : A -> B -> Prop) l k : Forall2 R l k -> Forall2 R (rev l) (rev k).
Proof. induction 1; simpl; [constructor|]. apply Forall2_app; [done|]. by repeat constructor. Qed.

Lemma len_concat_rev (parts : list bytes) : len (concat (rev parts)) = len (concat parts).
Proof. induction parts as [|p parts IH]; simpl; [done|]. rewrite concat_app. autorewrite with blop. simpl.
  rewrite app_nil_r, IH. lia. Qed.

Lemma walk_accepts fuel : forall pending parts size,
  Forall walks pending -> Forall (fun p => 1 <= p.2) pending -> Forall2 encodes_to pending parts ->
  size + len (concat parts) <= 65536 -> len (concat parts) <= Z.of_nat fuel ->
  walk too_deep too_long rows fuel pending size = Ok tt.
Proof.
  induction fuel as [|fuel IH]; intros pending parts size Hw Hd He Hs Hf;
    destruct He as [|[ty depth] part pending parts Hp He]; simpl; try done;
    apply Forall_cons_1 in Hw as [[Hv Hr] Hw]; apply Forall_cons_1 in Hd as [Hd1 Hd]; simpl in *;
    pose proof (encode_type_nonempty _ _ Hp); autorewrite with blop in *;
    pose proof (len_nonneg (concat parts)); [lia|].
  rewrite gtb_false by by apply valid_type_depth in Hv.
  destruct (walk_node_accepts ty depth part) as (added & pushed & parts' & -> & Ha & Hwp & Hdp & Hep & Hl); try done.
  cbn [bindR]. pose proof (len_nonneg (concat parts')). rewrite gtb_false by lia.
  apply (IH _ (rev parts' ++ parts)).
  - apply Forall_app. by rewrite Forall_rev_iff.
  - apply Forall_app. by rewrite Forall_rev_iff.
  - apply Forall2_app; [by apply Forall2_rev|done].
  - rewrite concat_app. autorewrite with blop. rewrite len_concat_rev. lia.
  - rewrite concat_app. autorewrite with blop. rewrite len_concat_rev. lia.
Qed.
End Walk.

(** ** Table schemas *)
Lemma no_rows_walked : rows_walked no_rows.
Proof. done. Qed.

(** A type that passes the walk has a descriptor. *)
Lemma walked_no_panic {B} too_deep too_long rows ty (k : bytes -> Result Error B) :
  rows_walked rows -> (forall data, no_panic (k data)) ->
  no_panic (let* _ := walk too_deep too_long rows walk_fuel [(ty, 1)] 2 in let* data := descriptor ty in k data).
Proof.
  intros Hr Hk. pose proof (walk_sound too_deep too_long rows Hr walk_fuel [(ty, 1)] 2) as Hw.
  destruct (walk _ _ _ _ _ _); simpl; [|done|exfalso; apply Hw; [unfold walk_fuel|]; lia].
  destruct (proj1 (Forall_cons_1 _ _ _ (Hw ltac:(unfold walk_fuel; lia) ltac:(lia)))) as [part Hp].
  unfold descriptor. simpl in Hp. rewrite (encode_type_any _ _ Hp). simpl. apply Hk.
Qed.

Lemma schema_descriptor_no_panic ty key : no_panic (schema_descriptor ty key).
Proof.
  apply walked_no_panic; [apply no_rows_walked|]. intros data. unfold table_schema. solve_no_panic.
  apply map_err_no_panic, Schema_decode_no_panic.
Qed.

(** What a stored table schema guarantees. *)
Definition storable (ty : Ty) (key : bool) : Prop :=
  valid_type 1 ty = true /\ is_Some (node_of ty) /\ (key = true -> max_key_bytes ty <= MAX_KEY_BYTES).

Lemma table_schema_iff data key schema :
  table_schema data key = Ok schema <->
  exists ty node, decode data = Ok ty /\ node_of ty = Some node /\ schema = schema_for ty node data /\
    storable ty key.
Proof.
  unfold table_schema. split.
  - intros H. step_ok H as s eqn Hs. step_if H eqn Hk. injection H as <-.
    apply map_err_ok, Schema_decode_iff in Hs as (ty & node & Hd & Hn & ->). exists ty, node.
    repeat split; try done; [by eapply decode_valid|]. intros ->. simpl in Hk. unfold MAX_KEY_BYTES. blia.
  - intros (ty & node & Hd & Hn & -> & _ & _ & Hk).
    rewrite (proj2 (Schema_decode_iff data (schema_for ty node data))) by eauto. cbn [map_err bindR].
    destruct key; simpl; [|done]. rewrite gtb_false; [done|]. by apply Hk.
Qed.

Lemma schema_descriptor_iff ty key data :
  valid_type 1 ty = true ->
  schema_descriptor ty key = Ok data <->
  descriptor (E:=Error) ty = Ok data /\ len data <= MAX_DESCRIPTOR_BYTES /\ storable ty key.
Proof.
  intros Hv. unfold schema_descriptor. split.
  - intros H. step_ok H as u eqn Hw. step_ok H as d eqn Hd. step_ok H as schema eqn Hs. injection H as ->.
    apply table_schema_iff in Hs as (ty' & node & Hd' & _ & _ & Hs).
    apply decode_descriptor_iff in Hd' as Hd''. destruct Hd'' as (Hdesc & Hv' & Hl).
    assert (ty' = ty) as ->; [|done].
    pose proof (proj2 (decode_descriptor_iff data ty) (conj Hd (conj Hv Hl))) as Hdec. congruence.
  - intros (Hd & Hl & Hs). pose proof Hs as (_ & [node Hn] & _).
    pose proof Hd as Hd'. unfold descriptor in Hd'. step_ok Hd' as part eqn Hp. injection Hd' as Hd'.
    rewrite (walk_accepts _ _ no_rows walk_fuel [(ty, 1)] [part]); try (by repeat constructor).
    + cbn [bindR]. rewrite Hd. cbn [bindR].
      rewrite (proj2 (table_schema_iff data key (schema_for ty node data))); [done|].
      exists ty, node. repeat split; try done; try apply Hs. by apply decode_descriptor_iff.
    + constructor; [|done]. split; [done|]. simpl. intros m k v -> . done.
    + subst data. cbn [concat]. rewrite app_nil_r. autorewrite with blop in Hl. unfold MAX_DESCRIPTOR_BYTES in Hl. lia.
    + subst data. cbn [concat]. rewrite app_nil_r. autorewrite with blop in Hl. unfold MAX_DESCRIPTOR_BYTES, walk_fuel in *. lia.
Qed.

(** ** Catalogue keys *)
Lemma decode_catalogue_key_iff data id sequence :
  decode_catalogue_key data = Ok (id, sequence) <->
  data = catalogue_key id sequence /\ 0 < id <= sequence /\ sequence < u64_max.
Proof.
  unfold decode_catalogue_key, catalogue_key. split.
  - intros H. step_if H eqn El. step_ok H as u eqn Hi. step_ok H as u' eqn Hs. step_if H eqn Eo.
    injection H as <- <-. apply map_err_ok, valid_id_ok in Hi as [Hi1 Hi2]. apply map_err_ok, valid_id_ok in Hs as [Hs1 Hs2].
    apply negb_false_iff, Z.eqb_eq in El. unfold len in El.
    assert (length (take 8 data) = 8%nat) as L1 by (rewrite length_take; lia).
    assert (length (drop 8 data) = 8%nat) as L2 by (rewrite length_drop; lia).
    pose proof (from_be_range (take 8 data)) as R1. pose proof (from_be_range (drop 8 data)) as R2.
    unfold len in R1, R2. rewrite L1 in R1. rewrite L2 in R2. change (256 ^ Z.of_nat 8) with (u64_max + 1) in *.
    unfold not_u64 in *. replace (u64_max - (u64_max - from_be (drop 8 data))) with (from_be (drop 8 data)) by lia.
    rewrite !be_bytes_from_be by done. rewrite take_drop. split; [done|]. blia.
  - intros (-> & Hi & Hs). unfold len. rewrite length_app, !length_be_bytes. cbn [Nat.add].
    change (negb (Z.of_nat 16 =? 16)) with false. cbv iota.
    rewrite take_app_length', drop_app_length' by by rewrite length_be_bytes.
    assert (0 <= not_u64 sequence < 256 ^ Z.of_nat 8) by (unfold not_u64, u64_max in *; lia).
    rewrite !from_be_bytes_small by (done || (unfold u64_max in *; lia)).
    replace (not_u64 (not_u64 sequence)) with sequence by (unfold not_u64; lia).
    rewrite !(proj2 (valid_id_ok _ tt)) by lia. simpl. by rewrite (proj2 (Z.ltb_ge _ _)) by lia.
Qed.

(** ** Catalogue values *)
Definition version_wf (v : CatalogueVersion) : Prop :=
  utf8_valid (name v) = true /\ valid_type 1 (table_key (version_table v)) = true /\
  valid_type 1 (table_value (version_table v)) = true.

Lemma valid_name_ok data u : valid_name data = Ok u -> 1 <= len data <= 255.
Proof.
  unfold valid_name. intros H. step_if H eqn E. apply orb_false_iff in E as [E _]. apply orb_false_iff in E as [E1 E2].
  apply bool_decide_eq_false in E1. destruct data; [done|]. autorewrite with blop in *. pose proof (len_nonneg data). blia.
Qed.

Lemma encode_catalogue_inv v data :
  encode_catalogue v = Ok data ->
  exists k w, data = [x01; x00; if live v then x01 else x02; x00] ++ blob_bytes (name v) ++ blob_bytes k ++ blob_bytes w /\
    valid_id (table_id (version_table v)) = Ok tt /\ valid_name (name v) = Ok tt /\
    schema_descriptor (table_key (version_table v)) true = Ok k /\
    schema_descriptor (table_value (version_table v)) false = Ok w.
Proof.
  unfold encode_catalogue. intros H. step_ok H as [] eqn Hi. step_ok H as [] eqn Hn.
  step_ok H as k eqn Hk. step_ok H as w eqn Hw. step_ok H as d1 eqn H1. step_ok H as d2 eqn H2.
  apply put_blob_ok in H1 as [_ ->]. apply put_blob_ok in H2 as [_ ->]. apply put_blob_ok in H as [_ ->].
  exists k, w. by rewrite <-!app_assoc.
Qed.

Lemma decode_catalogue_inv id data v :
  decode_catalogue id data = Ok v ->
  encode_catalogue v = Ok data /\ table_id (version_table v) = id /\ version_wf v.
Proof.
  unfold decode_catalogue. intros H. step_ok H as [] eqn Hi. step_ok H as [version in1] eqn Hver.
  step_if H eqn Ev. step_ok H as [tag in2] eqn Htag. step_ok H as live eqn Hlive.
  step_ok H as [reserved in3] eqn Hres. step_if H eqn Er. step_ok H as [name in4] eqn Hname.
  step_if H eqn Eu. step_ok H as [] eqn Hn. step_ok H as [kd in5] eqn Hkd. step_ok H as ks eqn Hks.
  step_ok H as kt eqn Hkt. step_ok H as [wd in6] eqn Hwd. step_ok H as ws eqn Hws. step_ok H as wt eqn Hwt.
  destruct in6; [|done]. injection H as <-. simpl.
  apply (take_le_inv _ _ 2) in Hver as [-> _]; [|done]. apply take_byte_inv in Htag as ->.
  apply take_bytes_inv in Hres as [-> _]; [|done]. apply take_blob_inv in Hname as [-> Ln].
  apply take_blob_inv in Hkd as [-> Lk]. apply take_blob_inv in Hwd as [-> Lw].
  apply negb_false_iff in Ev, Er, Eu. apply Z.eqb_eq in Ev as ->. apply bool_decide_eq_true in Er as ->.
  apply table_schema_iff in Hks as (kt' & kn & Hk1 & _ & _ & Hk2).
  apply table_schema_iff in Hws as (wt' & wn & Hw1 & _ & _ & Hw2).
  rewrite Hkt in Hk1. injection Hk1 as <-. rewrite Hwt in Hw1. injection Hw1 as <-.
  apply decode_descriptor_iff in Hkt as (Dk & Vk & Lkd). apply decode_descriptor_iff in Hwt as (Dw & Vw & Lwd).
  assert (tag = if live then x01 else x02) as ->. { unfold catalogue_state in Hlive. by destruct tag; inv_ok. }
  split; [|by split]. unfold encode_catalogue. simpl.
  rewrite Hi, Hn. cbn [bindR]. rewrite (proj2 (schema_descriptor_iff kt true kd Vk)) by done.
  rewrite (proj2 (schema_descriptor_iff wt false wd Vw)) by done. cbn [bindR].
  repeat (rewrite put_blob_eq by done; cbn [bindR]). cbn [bindR]. rewrite app_nil_r.
  rewrite <-!app_assoc. by destruct live.
Qed.

Lemma decode_catalogue_encode v data :
  version_wf v -> encode_catalogue v = Ok data -> decode_catalogue (table_id (version_table v)) data = Ok v.
Proof.
  destruct v as [live name [id kt wt]]. intros (Hu & Vk & Vw) H. simpl in *.
  apply encode_catalogue_inv in H as (k & w & -> & Hi & Hn & Hk & Hw). simpl in *.
  apply schema_descriptor_iff in Hk as (Dk & Lk & Sk); [|done]. apply schema_descriptor_iff in Hw as (Dw & Lw & Sw); [|done].
  pose proof (valid_name_ok _ _ Hn) as Ln. unfold MAX_DESCRIPTOR_BYTES in *.
  assert (decode k = Ok kt) as Ek by by apply decode_descriptor_iff.
  assert (decode w = Ok wt) as Ew by by apply decode_descriptor_iff.
  destruct (proj1 (proj2 Sk)) as [kn Hkn]. destruct (proj1 (proj2 Sw)) as [wn Hwn].
  unfold decode_catalogue. rewrite Hi. cbn [bindR].
  match goal with |- context [take_le _ ?d 2] => change d with
    (le_bytes 2 1 ++ (if live then x01 else x02) :: [x00] ++ blob_bytes name ++ blob_bytes k ++ blob_bytes w) end.
  rewrite take_le_app by done. cbn [bindR negb Z.eqb Pos.eqb]. rewrite take_byte_cons. cbn [bindR].
  assert (catalogue_state (if live then x01 else x02) = Ok live) as -> by by destruct live. cbn [bindR].
  rewrite take_bytes_app by done. cbn [bindR]. rewrite bool_decide_true by done. cbn [negb].
  rewrite take_blob_app by (unfold u32_max; lia). cbn [bindR]. rewrite Hu, Hn. cbn [bindR negb].
  rewrite take_blob_app by (unfold u32_max; lia). cbn [bindR].
  rewrite (proj2 (table_schema_iff k true (schema_for kt kn k))) by (exists kt, kn; done).
  cbn [bindR]. rewrite Ek. cbn [bindR]. rewrite <-(app_nil_r (blob_bytes w)), take_blob_app by (unfold u32_max; lia).
  cbn [bindR]. rewrite (proj2 (table_schema_iff w false (schema_for wt wn w))) by (exists wt, wn; done).
  cbn [bindR]. by rewrite Ew.
Qed.

Lemma decode_catalogue_iff id data v :
  decode_catalogue id data = Ok v <->
  encode_catalogue v = Ok data /\ table_id (version_table v) = id /\ version_wf v.
Proof. split; [apply decode_catalogue_inv|]. intros (H & <- & Hw). by apply decode_catalogue_encode. Qed.

(** ** Totality *)
Lemma table_schema_no_panic data key : no_panic (table_schema data key).
Proof.
  unfold table_schema. apply bindR_no_panic; [apply map_err_no_panic, Schema_decode_no_panic|].
  intros s _. by destruct (_ && _).
Qed.
Lemma valid_name_no_panic data : no_panic (valid_name data).
Proof. unfold valid_name. by destruct (_ || _). Qed.
Lemma catalogue_state_no_panic tag : no_panic (catalogue_state tag).
Proof. by destruct tag. Qed.
#[export] Hint Resolve table_schema_no_panic valid_name_no_panic catalogue_state_no_panic
  schema_descriptor_no_panic decode_no_panic : no_panic.

Lemma decode_catalogue_no_panic id data : no_panic (decode_catalogue id data).
Proof. unfold decode_catalogue. solve_no_panic. Qed.
Lemma encode_catalogue_no_panic v : no_panic (encode_catalogue v).
Proof. unfold encode_catalogue. solve_no_panic. Qed.
Lemma decode_catalogue_key_no_panic data : no_panic (decode_catalogue_key data).
Proof. unfold decode_catalogue_key. solve_no_panic. Qed.
#[export] Hint Resolve decode_catalogue_no_panic encode_catalogue_no_panic decode_catalogue_key_no_panic : no_panic.
