(* ===== verification/Storage.v ===== *)
(** * The physical storage interface ([src/src/storage/mod.rs], [store.rs])

    What the MVCC layer and the interpreter ask of a pinned [View]: point
    reads, a first-at-or-above seek and an ordered lazy scan of five trees of
    byte strings.  [Storage] is the interface, [Represents] its contract over
    the logical contents of the trees, and [MemoryView] an implementation by
    sorted lists. *)
From S2P Require Import Prelude OrdMap Errors.

Inductive TreeId : Type :=
| State
| Catalogue
| Policy
| Outcomes
| Cursors.
#[export] Instance TreeId_eq_dec : EqDecision TreeId.
Proof. solve_decision. Defined.

(** [page::MAX_KEY] *)
Definition MAX_KEY : Z := 2066.

Abbreviation Entry := (bytes * bytes)%type.

(** The items a lazy iterator yields; an error is its last item. *)
Abbreviation Stream E A := (list (Result E A)).

(** [storage::get], [tree::seek] with [PageReader::value_bytes], and
    [storage::scan] on a pinned view. *)
Class Storage (View Cell : Type) := {
  storage_get : View -> TreeId -> bytes -> Result StorageError (option bytes);
  tree_seek : View -> TreeId -> bytes -> Result StorageError (option (bytes * Cell));
  value_bytes : View -> TreeId -> Cell -> Result StorageError bytes;
  storage_scan : View -> TreeId -> Bound bytes -> Bound bytes ->
    Result StorageError (Stream StorageError Entry) }.
#[export] Hint Mode Storage ! - : typeclass_instances.

(** ** The contract *)
Abbreviation Contents := (TreeId -> list Entry).

Definition bound_ok (b : Bound bytes) : bool :=
  match b with
  | Included k | Excluded k => len k <=? MAX_KEY
  | Unbounded => true
  end.

Record Represents `{Storage View Cell} (view : View) (contents : Contents) : Prop := {
  contents_sorted tree : bt_sorted (contents tree);
  get_contents tree key :
    len key <= MAX_KEY -> storage_get view tree key = Ok (bt_get key (contents tree));
  seek_contents tree key :
    len key <= MAX_KEY ->
    match List.find (fun e => cmp_le key e.1) (contents tree) with
    | None => tree_seek view tree key = Ok None
    | Some (found, value) =>
        exists cell, tree_seek view tree key = Ok (Some (found, cell)) /\
          value_bytes view tree cell = Ok value
    end;
  scan_contents tree lower upper :
    bound_ok lower = true -> bound_ok upper = true ->
    storage_scan view tree lower upper = Ok (map Ok (bt_range lower upper (contents tree))) }.

(** ** Trees in memory *)
Definition check_key (key : bytes) : Result StorageError unit :=
  if len key >? MAX_KEY then Err (InvalidInput "key exceeds 2066 bytes") else Ok tt.
Definition check_bound (b : Bound bytes) : Result StorageError unit :=
  match b with Included k | Excluded k => check_key k | Unbounded => Ok tt end.

#[export] Instance memory_storage : Storage Contents bytes := {
  storage_get view tree key := let* _ := check_key key in Ok (bt_get key (view tree));
  tree_seek view tree key :=
    let* _ := check_key key in Ok (List.find (fun e => cmp_le key e.1) (view tree));
  value_bytes _ _ cell := Ok cell;
  storage_scan view tree lower upper :=
    let* _ := check_bound lower in
    let* _ := check_bound upper in
    Ok (map Ok (bt_range lower upper (view tree))) }.

Lemma check_key_ok key : len key <= MAX_KEY -> check_key key = Ok tt.
Proof. intros H. unfold check_key. by rewrite gtb_false. Qed.
Lemma check_bound_ok b : bound_ok b = true -> check_bound b = Ok tt.
Proof. destruct b; simpl; try done; intros H; apply check_key_ok; blia. Qed.

(** The in-memory trees satisfy the contract. *)
Lemma memory_represents (contents : Contents) :
  (forall tree, bt_sorted (contents tree)) -> Represents contents contents.
Proof.
  intros Hs. split; [done| | |]; simpl; intros.
  - by rewrite check_key_ok.
  - rewrite check_key_ok by done. destruct (List.find _ _) as [[k v]|]; [|done]. by exists v.
  - by rewrite !check_bound_ok.
Qed.

(** ** Batches of mutations *)

(** [page::MAX_VALUE] *)
Definition MAX_VALUE : Z := 128 * 1024 * 1024.

Record Mutation : Type := { mutation_tree : TreeId; mutation_key : bytes; mutation_value : option bytes }.

Definition mutation_ok (change : Mutation) : bool :=
  (len (mutation_key change) <=? MAX_KEY) &&
  match mutation_value change with Some value => len value <=? MAX_VALUE | None => true end.

(** The contents after one physical edit, and after a batch. *)
Definition mutate_one (contents : Contents) (change : Mutation) : Contents := fun tree =>
  if decide (tree = mutation_tree change) then
    match mutation_value change with
    | Some value => bt_insert (mutation_key change) value (contents tree)
    | None => bt_remove (mutation_key change) (contents tree)
    end
  else contents tree.
Definition mutate (changes : list Mutation) (contents : Contents) : Contents := foldl mutate_one contents changes.

(** A store hands out views of its latest roots and installs batches
    ([store::view], [manifest().checkpoint_sequence], [store::apply]). *)
Class PhysicalStore (S View Cell : Type) `{Storage View Cell} := {
  store_view : S -> View;
  checkpoint_sequence : S -> Z;
  store_apply : S -> list Mutation -> S * Result StorageError unit }.
#[export] Hint Mode PhysicalStore ! - - - : typeclass_instances.

(** What it promises: a batch within the format's ceilings is installed
    completely, or fails and leaves the contents unchanged. *)
Class StoreLaws (S View Cell : Type) `{PhysicalStore S View Cell} := {
  holds : S -> Contents -> Prop;
  holds_view s contents : holds s contents -> Represents (store_view s) contents;
  holds_apply s contents changes :
    holds s contents -> forallb mutation_ok changes = true ->
    match store_apply s changes with
    | (s', Ok _) => holds s' (mutate changes contents) /\ checkpoint_sequence s' = checkpoint_sequence s
    | (s', Err _) => holds s' contents /\ checkpoint_sequence s' = checkpoint_sequence s
    | (_, Panic) => False
    end }.

(** The store in memory. *)
Record MemoryStore : Type := { memory_contents : Contents; memory_checkpoint : Z }.

#[export] Instance memory_store : PhysicalStore MemoryStore Contents bytes := {
  store_view := memory_contents;
  checkpoint_sequence := memory_checkpoint;
  store_apply s changes :=
    if forallb mutation_ok changes
    then ({| memory_contents := mutate changes (memory_contents s);
             memory_checkpoint := memory_checkpoint s |}, Ok tt)
    else (s, Err (InvalidInput "physical key or value exceeds its format ceiling")) }.

Lemma mutate_sorted changes : forall contents,
  (forall tree, bt_sorted (contents tree)) -> forall tree, bt_sorted (mutate changes contents tree).
Proof.
  induction changes as [|[t k v] changes IH]; intros contents Hs; simpl; [done|]. apply IH. intros tree.
  unfold mutate_one. simpl. destruct (decide _); [|done].
  destruct v; [by apply bt_sorted_insert|by apply bt_sorted_remove].
Qed.

#[export, program] Instance memory_store_laws : StoreLaws MemoryStore Contents bytes := {
  holds s contents := memory_contents s = contents /\ forall tree, bt_sorted (contents tree) }.
Next Obligation. intros s contents [<- Hs]. by apply memory_represents. Qed.
Next Obligation.
  intros s contents changes [<- Hs] Hok. simpl. rewrite Hok. split; [|done]. split; [done|]. by apply mutate_sorted.
Qed.
