(* ===== verification/Platform.v ===== *)
(** * Positional file I/O ([src/src/storage/platform.rs])

    A file is its contents, how much of them is flushed, and the answers the
    operating system will give to the next writes: each [write_at] may write a
    prefix, be interrupted, or be refused.  Beyond the listed answers every
    write succeeds in full.  Reads return what was written; a read that starts
    or ends past the end of the file fails with [UnexpectedEof].

    A crash keeps what is flushed: [unflushed] is [None] when nothing was
    written since the last flush that succeeded, or the number of first bytes
    that no write since then touched.  Only [sync_file] makes it [None]. *)
From S2P Require Import Prelude Errors Bytes.

Inductive Response : Type :=
| Wrote (count : Z)
| Interrupted
| Refused.

Record File : Type := { contents : bytes; responses : list Response; unflushed : option Z }.

(** How many of the first bytes are flushed. *)
Definition stable (file : File) : Z :=
  match unflushed file with None => len (contents file) | Some n => Z.min n (len (contents file)) end.

(** What a write at [offset], or a cut there, leaves flushed. *)
Definition touched (file : File) (offset : Z) : option Z := Some (Z.min offset (stable file)).

(** [check_range] *)
Definition check_range (offset length : Z) : Result StorageError unit :=
  if offset + length >? i64_max then Err Io else Ok tt.

(** The contents after [field] was written at [offset]; a gap reads as zeros,
    and writing nothing does not extend the file. *)
Definition overwrite (data : bytes) (offset : Z) (field : bytes) : bytes :=
  match field with
  | [] => data
  | _ =>
      let data := data ++ zeros (offset - len data) in
      take (Z.to_nat offset) data ++ field ++ drop (Z.to_nat (offset + len field)) data
  end.

(** [read_exact_at]: [None] is [UnexpectedEof]. *)
Definition read_exact_at (data : bytes) (offset length : Z) : Result StorageError (option bytes) :=
  let* _ := check_range offset length in
  if offset + length <=? len data
  then Ok (Some (take (Z.to_nat length) (drop (Z.to_nat offset) data))) else Ok None.

(** The [while !bytes.is_empty()] loop of [write_all_at]. *)
Fixpoint write_loop (responses : list Response) (below : option Z) (data bytes : bytes) (offset : Z) {struct responses}
    : File * Result StorageError unit :=
  match bytes with
  | [] => ({| contents := data; responses := responses; unflushed := below |}, Ok tt)
  | _ =>
      match responses with
      | [] => ({| contents := overwrite data offset bytes; responses := []; unflushed := below |}, Ok tt)
      | Wrote count :: responses =>
          let count := Z.min (Z.max 0 count) (len bytes) in
          if count =? 0 then ({| contents := data; responses := responses; unflushed := below |}, Err Io)
          else write_loop responses below (overwrite data offset (take (Z.to_nat count) bytes))
                 (drop (Z.to_nat count) bytes) (offset + count)
      | Interrupted :: responses => write_loop responses below data bytes offset
      | Refused :: responses => ({| contents := data; responses := responses; unflushed := below |}, Err Io)
      end
  end.

Definition write_all_at (file : File) (bytes : bytes) (offset : Z) : File * Result StorageError unit :=
  match check_range offset (len bytes) with
  | Ok _ => write_loop (responses file) (touched file offset) (contents file) bytes offset
  | Err error => (file, Err error)
  | Panic => (file, Panic)
  end.

(** The answer to an operation that is not a positional write. *)
Definition answer (file : File) : File * Result StorageError unit :=
  match responses file with
  | Refused :: responses => ({| contents := contents file; responses := responses; unflushed := unflushed file |}, Err Io)
  | _ :: responses => ({| contents := contents file; responses := responses; unflushed := unflushed file |}, Ok tt)
  | [] => (file, Ok tt)
  end.

(** [sync_file] *)
Definition sync_file (file : File) : File * Result StorageError unit :=
  let '(file, result) := answer file in
  match result with
  | Ok _ => ({| contents := contents file; responses := responses file; unflushed := None |}, Ok tt)
  | result => (file, result)
  end.

(** [File::set_len] *)
Definition set_len (file : File) (length : Z) : File * Result StorageError unit :=
  let '(file, result) := answer file in
  match result with
  | Ok _ =>
      ({| contents := take (Z.to_nat length) (contents file) ++ zeros (length - len (contents file));
          responses := responses file; unflushed := touched file length |}, Ok tt)
  | result => (file, result)
  end.

(** What a crash may leave of a file: all of it when everything was flushed,
    otherwise the bytes below what was written since, with anything after. *)
Definition survives (file file' : File) : Prop :=
  match unflushed file with
  | None => contents file' = contents file /\ unflushed file' = None
  | Some _ => take (Z.to_nat (stable file)) (contents file') = take (Z.to_nat (stable file)) (contents file) /\ stable file <= stable file'
  end.

(** ** What writes preserve *)
Lemma overwrite_here data offset field :
  0 <= offset -> field <> [] ->
  take (Z.to_nat (len field)) (drop (Z.to_nat offset) (overwrite data offset field)) = field /\
  offset + len field <= len (overwrite data offset field).
Proof.
  intros Ho Hf. destruct field as [|b field]; [done|]. unfold overwrite. set (field' := b :: field).
  set (pad := data ++ _).
  assert (len (take (Z.to_nat offset) pad) = offset) as Hl.
  { unfold pad, len, zeros. rewrite length_take, length_app, repeat_length. lia. }
  split.
  - rewrite <-Hl at 1. by rewrite drop_len_app, take_len_app.
  - rewrite !len_app, Hl. pose proof (len_nonneg (drop (Z.to_nat (offset + len field')) pad)). lia.
Qed.

(** The first [n] bytes are the same: so a write leaves what is below its offset. *)
Definition keeps (n : Z) (data data' : bytes) : Prop := take (Z.to_nat n) data' = take (Z.to_nat n) data.

Lemma keeps_refl n data : keeps n data data.
Proof. done. Qed.
Lemma keeps_trans n a b c : keeps n a b -> keeps n b c -> keeps n a c.
Proof. unfold keeps. congruence. Qed.
Lemma keeps_le n m a b : m <= n -> keeps n a b -> keeps m a b.
Proof.
  unfold keeps. intros Hm Ht.
  replace (Z.to_nat m) with (min (Z.to_nat m) (Z.to_nat n)) by lia. by rewrite <-!take_take, Ht.
Qed.
Lemma keeps_len n a b : keeps n a b -> n <= len a -> n <= len b.
Proof.
  intros Ht%(f_equal length) Hn. rewrite !length_take in Ht. unfold len in *. lia.
Qed.

Lemma overwrite_keeps data offset field n :
  n <= offset -> n <= len data -> keeps n data (overwrite data offset field).
Proof.
  intros Hn Hl. destruct field as [|b field]; [apply keeps_refl|]. unfold overwrite, keeps. set (field' := b :: field).
  set (pad := data ++ _).
  assert (Z.max (len data) offset <= len pad) as Hp.
  { unfold pad. rewrite len_app. unfold zeros, len at 3. rewrite repeat_length. lia. }
  rewrite take_app_le by (rewrite length_take; unfold len in *; lia).
  rewrite take_take. replace (min _ _) with (Z.to_nat n) by lia.
  unfold pad. rewrite take_app_le by (unfold len in *; lia). done.
Qed.

Lemma write_loop_keeps responses below : forall data bytes offset n,
  n <= offset -> n <= len data ->
  keeps n data (contents (fst (write_loop responses below data bytes offset))).
Proof.
  induction responses as [|r rs IH]; intros data [|b bytes] offset n Hn Hl; cbn [write_loop];
    try apply keeps_refl; [by apply overwrite_keeps|].
  destruct r; [|by apply IH|apply keeps_refl].
  destruct (_ =? 0) eqn:Hc; [apply keeps_refl|].
  eapply keeps_trans; [apply (overwrite_keeps _ offset); done|].
  pose proof (len_nonneg (b :: bytes)). apply IH; [blia|]. eapply keeps_len; [by apply overwrite_keeps|done].
Qed.

Lemma write_all_at_keeps file bytes offset n :
  n <= offset -> n <= len (contents file) ->
  keeps n (contents file) (contents (fst (write_all_at file bytes offset))).
Proof.
  intros. unfold write_all_at. destruct (check_range _ _); [|apply keeps_refl..].
  by apply write_loop_keeps.
Qed.

(** Two adjacent writes are one. *)
Lemma overwrite_nonempty data offset field :
  field <> [] ->
  overwrite data offset field =
  take (Z.to_nat offset) (data ++ zeros (offset - len data)) ++ field ++
  drop (Z.to_nat (offset + len field)) (data ++ zeros (offset - len data)).
Proof. by destruct field. Qed.

Lemma overwrite_app data offset a b :
  0 <= offset -> a <> [] -> overwrite (overwrite data offset a) (offset + len a) b = overwrite data offset (a ++ b).
Proof.
  intros Ho Ha. destruct (decide (b = [])) as [->|Hb]; [by rewrite app_nil_r|].
  rewrite (overwrite_nonempty _ _ b), (overwrite_nonempty _ _ a), (overwrite_nonempty _ _ (a ++ b))
    by (done || by destruct a).
  set (pad := data ++ _). set (front := take (Z.to_nat offset) pad).
  assert (len front = offset) as Hf.
  { unfold front, pad, len, zeros. rewrite length_take, length_app, repeat_length. lia. }
  pose proof (len_nonneg a). pose proof (len_nonneg b). set (rest := drop _ pad).
  replace (zeros _) with (@nil byte).
  2: { unfold zeros. replace (Z.to_nat _) with 0%nat; [done|]. rewrite !len_app, Hf. pose proof (len_nonneg rest). lia. }
  rewrite app_nil_r, take_skip, drop_skip, Hf by lia.
  replace (offset + len a - offset) with (len a) by lia. rewrite take_len_app.
  rewrite drop_skip by lia. unfold rest. rewrite drop_drop, len_app, <-!app_assoc.
  do 4 f_equal. lia.
Qed.

(** A completed write has written everything, in however many pieces. *)
Lemma write_loop_ok responses below : forall data bytes offset file u,
  0 <= offset -> write_loop responses below data bytes offset = (file, Ok u) ->
  contents file = overwrite data offset bytes.
Proof.
  induction responses as [|r rs IH]; intros data [|b bytes] offset file u Ho H; cbn [write_loop] in H;
    [by simplify_eq..|].
  destruct r as [count| |]; [|by eapply IH|done].
  destruct (_ =? 0) eqn:Hc; [done|]. set (all := b :: bytes) in *. set (n := Z.min _ _) in *.
  assert (0 < n <= len all) as Hn by (unfold n in *; pose proof (len_nonneg all); blia).
  apply IH in H; [|lia]. rewrite H.
  assert (len (take (Z.to_nat n) all) = n) as Hl by (unfold len in *; rewrite length_take; lia).
  replace (offset + n) with (offset + len (take (Z.to_nat n) all)) by lia.
  rewrite overwrite_app, take_drop; [done..|].
  intros E. rewrite E in Hl. unfold len in Hl. simpl in Hl. lia.
Qed.

Lemma write_all_at_ok file bytes offset file' u :
  0 <= offset -> write_all_at file bytes offset = (file', Ok u) ->
  contents file' = overwrite (contents file) offset bytes.
Proof.
  intros Ho. unfold write_all_at. destruct (check_range _ _); [|done..]. by apply write_loop_ok.
Qed.

Lemma write_loop_result responses below : forall data bytes offset,
  snd (write_loop responses below data bytes offset) = Ok tt \/ snd (write_loop responses below data bytes offset) = Err Io.
Proof.
  induction responses as [|r rs IH]; intros data [|b bytes] offset; cbn [write_loop]; auto.
  destruct r; auto. destruct (_ =? 0); auto.
Qed.
Lemma write_all_at_result file bytes offset :
  snd (write_all_at file bytes offset) = Ok tt \/ snd (write_all_at file bytes offset) = Err Io.
Proof.
  unfold write_all_at, check_range. destruct (_ >? _); auto. apply write_loop_result.
Qed.

(** Reads below the end do not see what is written above. *)
Lemma read_exact_at_keeps data data' offset length n :
  keeps n data data' -> n <= len data -> 0 <= offset -> 0 <= length -> offset + length <= n ->
  read_exact_at data' offset length = read_exact_at data offset length.
Proof.
  intros Ht Hn Ho Hlen He. pose proof (keeps_len _ _ _ Ht Hn). unfold keeps in Ht. unfold read_exact_at. destruct (check_range _ _); [|done..]. simpl.
  rewrite !(proj2 (Z.leb_le _ _)) by lia. do 2 f_equal.
  apply (f_equal (fun l => take (Z.to_nat length) (drop (Z.to_nat offset) l))) in Ht.
  rewrite !take_drop_commute, !take_take in Ht. rewrite !take_drop_commute.
  by replace (min (Z.to_nat offset + Z.to_nat length) (Z.to_nat n))
    with (Z.to_nat offset + Z.to_nat length)%nat in Ht by lia.
Qed.

Lemma read_exact_at_len data offset length page :
  read_exact_at data offset length = Ok (Some page) -> 0 <= offset -> 0 <= length -> len page = length.
Proof.
  unfold read_exact_at. destruct (check_range _ _); [|done..]. simpl.
  destruct (Z.leb_spec (offset + length) (len data)); [|done]. intros [= <-] Ho Hl.
  unfold len in *. rewrite length_take, length_drop. lia.
Qed.

(** ** What stays flushed *)
Lemma stable_le file : stable file <= len (contents file).
Proof. unfold stable. destruct (unflushed file); lia. Qed.

Lemma write_loop_unflushed responses below : forall data bytes offset,
  unflushed (write_loop responses below data bytes offset).1 = below.
Proof.
  induction responses as [|r rs IH]; intros data [|b bytes] offset; cbn [write_loop]; try done.
  destruct r; [|by apply IH|done]. destruct (_ =? 0); [done|]. apply IH.
Qed.

(** A write leaves flushed what is below its offset. *)
Lemma write_all_at_stable file bytes offset n :
  n <= offset -> n <= stable file -> n <= stable (write_all_at file bytes offset).1.
Proof.
  intros Ho Hs. pose proof (stable_le file) as Hl. pose proof (write_all_at_keeps file bytes offset n Ho ltac:(lia)) as Hk.
  apply keeps_len in Hk; [|lia]. unfold stable at 1. unfold write_all_at in *. destruct (check_range _ _); cbn [fst] in *; [|exact Hs..].
  rewrite write_loop_unflushed. cbn. lia.
Qed.

Lemma answer_unflushed file : unflushed (answer file).1 = unflushed file.
Proof. unfold answer. by destruct (responses file) as [|[]]. Qed.

Lemma answer_contents file : contents (answer file).1 = contents file.
Proof. unfold answer. by destruct (responses file) as [|[]]. Qed.

Lemma answer_no_panic file : (answer file).2 <> Panic.
Proof. unfold answer. by destruct (responses file) as [|[]]. Qed.

Lemma sync_contents file : contents (sync_file file).1 = contents file.
Proof. unfold sync_file. pose proof (answer_contents file) as Hc. destruct (answer file) as [f [[]| |]]; exact Hc. Qed.

Lemma sync_no_panic file : (sync_file file).2 <> Panic.
Proof. unfold sync_file. pose proof (answer_no_panic file) as Hn. by destruct (answer file) as [f [[]| |]]. Qed.

(** A flush that succeeds flushes everything; one that fails loses nothing. *)
Lemma sync_flushes file : (sync_file file).2 = Ok tt -> unflushed (sync_file file).1 = None.
Proof. unfold sync_file. by destruct (answer file) as [f [[]| |]]. Qed.

Lemma sync_unflushed file : unflushed (sync_file file).1 = None \/ unflushed (sync_file file).1 = unflushed file.
Proof. unfold sync_file. pose proof (answer_unflushed file) as Hu. destruct (answer file) as [f [[]| |]]; [by left|by right..]. Qed.

Lemma sync_stable file : stable file <= stable (sync_file file).1.
Proof.
  unfold stable. rewrite sync_contents. destruct (sync_unflushed file) as [-> | ->]; [|lia]. destruct (unflushed file); lia.
Qed.

Lemma set_len_stable file length n :
  n <= length -> n <= stable file -> n <= stable (set_len file length).1.
Proof.
  intros Hn Hs. unfold set_len. pose proof (answer_contents file) as Hc. pose proof (answer_unflushed file) as Hu.
  assert (stable (answer file).1 = stable file) as E by (unfold stable; by rewrite Hc, Hu).
  destruct (answer file) as [f [[]| |]]; cbn [fst] in *; [|lia..]. pose proof (stable_le file). unfold stable at 1. cbn [unflushed touched contents]. rewrite E, Hc.
  unfold len, zeros in *. rewrite length_app, length_take, repeat_length. lia.
Qed.

Lemma survives_stable file file' : survives file file' -> stable file <= stable file'.
Proof.
  unfold survives. destruct (unflushed file) eqn:E; [tauto|]. intros [Hc Hu]. unfold stable. rewrite E, Hu, Hc. lia.
Qed.

Lemma survives_keeps file file' n : survives file file' -> n <= stable file -> keeps n (contents file) (contents file').
Proof.
  intros Hs Hn. unfold survives in Hs. destruct (unflushed file); [|destruct Hs as [-> _]; apply keeps_refl].
  destruct Hs as [Hs _]. by apply (keeps_le (stable file)).
Qed.

Lemma survives_refl file : survives file file.
Proof. unfold survives. destruct (unflushed file) eqn:E; [|done]. split; [done|lia]. Qed.

(** A crash may drop whatever was not flushed. *)
Lemma survives_cut file below rest :
  unflushed file = Some below ->
  survives file {| contents := take (Z.to_nat (stable file)) (contents file); responses := rest; unflushed := None |}.
Proof.
  intros E. pose proof (stable_le file) as Hs. unfold survives. rewrite E. cbn. rewrite take_take, Nat.min_id. split; [done|].
  change (stable file <= len (take (Z.to_nat (stable file)) (contents file))). unfold len in *. rewrite length_take. lia.
Qed.
