(* ===== verification/Page.v ===== *)
(** * Pages and the page file ([src/src/storage/page.rs])

    Version 1 pages: the 64-byte header with its CRC, the slotted encoding of
    tree nodes, overflow chains for large values, and the append-only page
    file.  A [PageReader] is a pinned prefix of a file that keeps growing: its
    [reader_file] is the shared file as it is when the reader is used.
    Operations on a [PageFile] thread it through and keep the state reached
    when they fail.  The decoded-node cache is not part of a reader here:
    these are the reads of [uncached()]. *)
From S2P Require Import Prelude OrdMap Errors Bytes Storage Platform.

Definition PAGE_SIZE : Z := 16384.
Definition HEADER_SIZE : Z := 64.
Definition PAYLOAD_SIZE : Z := PAGE_SIZE - HEADER_SIZE.
Definition INLINE_LIMIT : Z := 1024.
Definition MAX_PAGES : Z := 281474976710656.

Inductive Value : Type :=
| Inline (data : bytes)
| Overflow (length head : Z).

Record LeafCell : Type := { cell_key : bytes; cell_value : Value }.

Inductive Node : Type :=
| Leaf (cells : list LeafCell)
| Internal (level : Z) (keys : list bytes) (children : list Z).

(** [Node::level] *)
Definition node_level (self : Node) : Z :=
  match self with Leaf _ => 0 | Internal level _ _ => level end.

Record PageReader : Type := { reader_file : bytes; reader_count : Z }.

Record PageFile : Type := { file : File; page_count : Z; next_page : Z; poisoned : bool }.

(** [PageFile::reader] *)
Definition reader (self : PageFile) : PageReader :=
  {| reader_file := contents (file self); reader_count := page_count self |}.

(** A reader captured earlier, used when its file is [self]'s. *)
Definition pinned (reader : PageReader) (self : PageFile) : PageReader :=
  {| reader_file := contents (file self); reader_count := reader_count reader |}.

(** ** Operations that may write the file *)
Definition FileM (A : Type) : Type := PageFile -> PageFile * Result StorageError A.
Definition liftM {A} (m : Result StorageError A) : FileM A := fun file => (file, m).
Definition bindM {A B} (m : FileM A) (k : A -> FileM B) : FileM B := fun file =>
  match m file with
  | (file, Ok a) => k a file
  | (file, Err error) => (file, Err error)
  | (file, Panic) => (file, Panic)
  end.
Definition current : FileM PageFile := fun file => (file, Ok file).
Notation "'do*' p ':=' m 'in' k" := (bindM m (fun p => k))
  (at level 10, p strict pattern, m at level 100, k at level 200) : blop_scope.
Definition okM {A} (a : A) : FileM A := liftM (Ok a).
Definition errM {A} (error : StorageError) : FileM A := liftM (Err error).

(** ** Page images *)
Definition tree_u32 (tree : TreeId) : Z :=
  match tree with State => 1 | Catalogue => 2 | Policy => 3 | Outcomes => 4 | Cursors => 5 end.

Definition page_magic : bytes := String.list_byte_of_string "BLP1".
Definition file_magic : bytes := String.list_byte_of_string "BLOPST01".

Definition valid_ref (id count : Z) : bool := negb (id =? 0) && (id <? count).

(** [bytes[i] = b] *)
Definition set_byte (data : bytes) (i b : Z) : Result StorageError bytes := copy_at data i (le_bytes 1 b).

Definition header (kind level tree : Z) : Result StorageError bytes :=
  let page := zeros PAGE_SIZE in
  let* page := copy_at page 0 page_magic in
  let* page := copy_at page 4 (le_bytes 2 1) in
  let* page := set_byte page 6 kind in
  let* page := set_byte page 7 level in
  let* page := copy_at page 16 (le_bytes 4 tree) in
  let* page := copy_at page 24 (le_bytes 2 HEADER_SIZE) in
  copy_at page 26 (le_bytes 2 PAGE_SIZE).

Section Pages.
Context `{Checksum}.

Definition checksum (page : bytes) : Result StorageError bytes :=
  let* page := copy_at page 60 (zeros 4) in
  copy_at page 60 (le_bytes 4 (crc32c page)).

(** The kind-specific part of [validate_header]. *)
Definition validate_kind (page : bytes) (id count cells lower upper link payload : Z) : Result StorageError unit :=
  let* kind := uint_at page 1 6 in
  let* level := uint_at page 1 7 in
  if (kind =? 0) && (id =? 0) then
    let* magic := slice_at page 64 72 in
    let* tail := slice_at page 96 PAGE_SIZE in
    if negb (level =? 0) || negb (cells =? 0) || negb (lower =? 64) || negb (upper =? PAGE_SIZE)
       || negb (link =? 0) || negb (payload =? 32) || negb (bool_decide (magic = file_magic))
       || any_nonzero tail
    then Err (Corrupt "invalid file header") else Ok tt
  else if ((kind =? 1) || (kind =? 2)) && negb (id =? 0) then
    if (cells =? 0) || negb (lower =? 64 + 4 * cells) || (lower >? upper) || (upper >? PAGE_SIZE)
       || negb (payload =? 0)
    then Err (Corrupt "invalid node boundaries") else
    let* unused := slice_at page lower upper in
    if any_nonzero unused then Err (Corrupt "invalid node boundaries") else
    if kind =? 1 then
      if negb (level =? 0) || negb (link =? 0) then Err (Corrupt "invalid leaf header") else Ok tt
    else
      if (level =? 0) || negb (valid_ref link count) then Err (Corrupt "invalid internal header") else Ok tt
  else if (kind =? 3) && negb (id =? 0) then
    if negb (level =? 0) || negb (cells =? 0) || negb (lower =? 64) || negb (upper =? PAGE_SIZE)
       || negb ((1 <=? payload) && (payload <=? PAYLOAD_SIZE))
       || (negb (link =? 0) && negb (valid_ref link count))
    then Err (Corrupt "invalid overflow header") else
    let* unused := slice_at page (64 + payload) PAGE_SIZE in
    if any_nonzero unused then Err (Corrupt "invalid overflow header") else Ok tt
  else Err (Corrupt "invalid page kind").

(** The CRC field is zeroed for the computation and then restored. *)
Definition validate_header (page : bytes) (id : Z) (tree : option TreeId) (count : Z) : Result StorageError unit :=
  let* crc := uint_at page 4 60 in
  let* zeroed := copy_at page 60 (zeros 4) in
  let* magic := slice_at page 0 4 in
  if negb (bool_decide (magic = page_magic)) || negb (crc32c zeroed =? crc)
  then Err (Corrupt "page magic or checksum mismatch") else
  let* version := uint_at page 2 4 in
  if negb (version =? 1) then Err (StorageUnsupported "page" version) else
  let* found_id := uint_at page 8 8 in
  let* found_tree := uint_at page 4 16 in
  if negb (found_id =? id) || negb (found_tree =? match tree with Some tree => tree_u32 tree | None => 0 end)
  then Err (Corrupt "page identity or tree mismatch") else
  let* reserved1 := slice_at page 22 24 in
  let* reserved2 := slice_at page 28 32 in
  let* reserved3 := slice_at page 44 60 in
  if any_nonzero reserved1 || any_nonzero reserved2 || any_nonzero reserved3
  then Err (Corrupt "nonzero reserved page bytes") else
  let* cells := uint_at page 2 20 in
  let* lower := uint_at page 2 24 in
  let* upper := uint_at page 2 26 in
  let* link := uint_at page 8 32 in
  let* payload := uint_at page 4 40 in
  validate_kind page id count cells lower upper link payload.
End Pages.

(** ** Nodes *)
Definition leaf_size (cell : LeafCell) : Z :=
  4 + 16 + len (cell_key cell) + match cell_value cell with Inline data => len data | Overflow _ _ => 0 end.

(** The kind, the number of slots, and the size of a node that can be encoded. *)
Definition node_shape (node : Node) : Result StorageError (Z * nat * Z) :=
  match node with
  | Leaf cells => Ok (1, length cells, HEADER_SIZE + sum_Z (map leaf_size cells))
  | Internal level keys children =>
      if (level =? 0) || negb (Nat.eqb (length children) (length keys + 1)) || existsb (Z.eqb 0) children
      then Err (InvalidInput "invalid internal node")
      else Ok (2, length keys, HEADER_SIZE + sum_Z (map (fun key => 16 + len key) keys))
  end.

Definition node_cell (node : Node) (index : nat) : Result StorageError (bytes * Z) :=
  match node with
  | Leaf cells =>
      let* cell := expect (cells !! index) in
      Ok (cell_key cell, leaf_size cell - 4)
  | Internal _ keys _ =>
      let* key := expect (keys !! index) in
      Ok (key, 12 + len key)
  end.

(** [cell[offset..].copy_from_slice(field)]: the lengths must agree. *)
Definition copy_tail (data : bytes) (offset : Z) (field : bytes) : Result StorageError bytes :=
  if offset + len field =? len data then copy_at data offset field else Panic.

(** The edits to [cell], the zeroed slice of the page. *)
Definition fill_cell (node : Node) (index : nat) (key cell : bytes) : Result StorageError bytes :=
  let* cell := copy_at cell 0 (le_bytes 2 (len key)) in
  match node with
  | Leaf cells =>
      let* cell := copy_at cell 16 key in
      let* source := expect (cells !! index) in
      match cell_value source with
      | Inline value =>
          let* cell := copy_at cell 4 (le_bytes 4 (len value)) in
          copy_tail cell (16 + len key) value
      | Overflow length head =>
          let* cell := set_byte cell 2 1 in
          let* cell := copy_at cell 4 (le_bytes 4 length) in
          copy_at cell 8 (le_bytes 8 head)
      end
  | Internal _ _ children =>
      let* child := expect (children !! S index) in
      let* cell := copy_at cell 4 (le_bytes 8 child) in
      copy_tail cell 12 key
  end.

(** One turn of the loop over the slots; the state is the page and [end]. *)
Definition encode_slot (node : Node) (state : bytes * Z) (index : nat) : Result StorageError (bytes * Z) :=
  let '(page, finish) := state in
  let* (key, length) := node_cell node index in
  if len key >? MAX_KEY then Err (InvalidInput "key exceeds 2066 bytes") else
  let* start := arith_u64 (finish - length) in
  let* page := copy_at page (64 + 4 * Z.of_nat index) (le_bytes 2 start) in
  let* page := copy_at page (66 + 4 * Z.of_nat index) (le_bytes 2 length) in
  let* cell := slice_at page start finish in
  let* cell := fill_cell node index key cell in
  let* page := copy_at page start cell in
  Ok (page, start).

Definition encode_node (tree : TreeId) (node : Node) : Result StorageError bytes :=
  let* (kind, count, size) := node_shape node in
  if Nat.eqb count 0 || (size >? PAGE_SIZE) then Err (InvalidInput "node does not fit a page") else
  let* page := header kind (node_level node) (tree_u32 tree) in
  let* page := copy_at page 20 (le_bytes 2 (Z.of_nat count)) in
  let* page := copy_at page 24 (le_bytes 2 (64 + 4 * Z.of_nat count)) in
  let* (page, finish) := foldR (encode_slot node) (page, PAGE_SIZE) (seq 0 count) in
  let* page :=
    match node with
    | Internal _ _ children =>
        let* child := expect (head children) in
        copy_at page 32 (le_bytes 8 child)
    | Leaf _ => Ok page
    end in
  copy_at page 26 (le_bytes 2 finish).

(** What the decoding loop has read: [end], the keys, cells and children. *)
Record Decoded : Type := {
  decoded_end : Z; decoded_keys : list bytes; decoded_cells : list LeafCell; decoded_children : list Z }.

Definition decode_leaf_cell (cell key : bytes) (length count : Z) : Result StorageError LeafCell :=
  let* value_len := uint_at cell 4 4 in
  let* head := uint_at cell 8 8 in
  let* flags := uint_at cell 1 3 in
  if negb (flags =? 0) || (value_len >? MAX_VALUE) then Err (Corrupt "invalid leaf value header") else
  let* tag := uint_at cell 1 2 in
  if (tag =? 0) && (value_len <=? INLINE_LIMIT) && (head =? 0) && (length =? 16 + len key + value_len)
  then
    let* data := slice_at cell (16 + len key) (len cell) in
    Ok {| cell_key := key; cell_value := Inline data |}
  else if (tag =? 1) && (value_len >? INLINE_LIMIT) && valid_ref head count && (length =? 16 + len key)
  then Ok {| cell_key := key; cell_value := Overflow value_len head |}
  else Err (Corrupt "invalid leaf value storage").

Definition decode_child (cell key : bytes) (length count : Z) : Result StorageError Z :=
  let* child := uint_at cell 8 4 in
  let* reserved := uint_at cell 2 2 in
  if negb (reserved =? 0) || negb (length =? 12 + len key) || negb (valid_ref child count)
  then Err (Corrupt "invalid internal cell") else Ok child.

Definition decode_slot (page : bytes) (count : Z) (leaf : bool) (upper : Z) (state : Decoded) (index : nat)
    : Result StorageError Decoded :=
  let* offset := uint_at page 2 (64 + 4 * Z.of_nat index) in
  let* length := uint_at page 2 (66 + 4 * Z.of_nat index) in
  let fixed := if leaf then 16 else 12 in
  if (offset <? upper) || negb (offset + length =? decoded_end state) || (length <? fixed)
  then Err (Corrupt "noncanonical node slots") else
  let* cell := slice_at page offset (decoded_end state) in
  let* key_len := uint_at cell 2 0 in
  if (key_len >? MAX_KEY) || (fixed + key_len >? length) then Err (Corrupt "invalid cell key length") else
  let* key := slice_at cell fixed (fixed + key_len) in
  if match last (decoded_keys state) with Some previous => cmp_le key previous | None => false end
  then Err (Corrupt "node keys are not strictly ordered") else
  let* (cells, children) :=
    if leaf then
      let* cell := decode_leaf_cell cell key length count in
      Ok (decoded_cells state ++ [cell], decoded_children state)
    else
      let* child := decode_child cell key length count in
      Ok (decoded_cells state, decoded_children state ++ [child]) in
  Ok {| decoded_end := offset; decoded_keys := decoded_keys state ++ [key];
        decoded_cells := cells; decoded_children := children |}.

Definition decode_node (page : bytes) (page_count : Z) : Result StorageError Node :=
  let* kind := uint_at page 1 6 in
  if negb ((kind =? 1) || (kind =? 2)) then Err (Corrupt "tree reference is not a node") else
  let leaf := kind =? 1 in
  let* count := uint_at page 2 20 in
  let* upper := uint_at page 2 26 in
  let* first := uint_at page 8 32 in
  let* state := foldR (decode_slot page page_count leaf upper)
    {| decoded_end := PAGE_SIZE; decoded_keys := []; decoded_cells := []; decoded_children := [first] |}
    (seq 0 (Z.to_nat count)) in
  if negb (decoded_end state =? upper) then Err (Corrupt "cell packing does not meet upper boundary") else
  if leaf then Ok (Leaf (decoded_cells state))
  else
    let* level := uint_at page 1 7 in
    Ok (Internal level (decoded_keys state) (decoded_children state)).

(** ** Reading pages *)
Section Reader.
Context `{Checksum}.

(** [PageReader::read] *)
Definition read (self : PageReader) (id : Z) (tree : option TreeId) : Result StorageError bytes :=
  if (id >=? reader_count self) || negb (Bool.eqb (id =? 0) (bool_decide (tree = None)))
  then Err (Corrupt "page reference outside tree prefix") else
  let* offset := arith_u64 (id * PAGE_SIZE) in
  let* page := read_exact_at (reader_file self) offset PAGE_SIZE in
  match page with
  | None => Err (Corrupt "truncated page")
  | Some page =>
      let* _ := validate_header page id tree (reader_count self) in
      Ok page
  end.

(** [PageReader::node] without a cache *)
Definition read_node (self : PageReader) (tree : TreeId) (id : Z) : Result StorageError Node :=
  let* page := read self id (Some tree) in
  decode_node page (reader_count self).

(** [PageReader::shared_node] without a cache *)
Definition shared_node (self : PageReader) (tree : TreeId) (id : Z) : Result StorageError Node :=
  if negb (valid_ref id (reader_count self)) then Err (Corrupt "page reference outside tree prefix") else
  let* page := read self id (Some tree) in
  decode_node page (reader_count self).

(** The [while remaining != 0] loop of [walk_overflow]: the pages it owns and
    the bytes it has output. *)
Fixpoint walk_loop (fuel : nat) (self : PageReader) (tree : TreeId) (id remaining : Z)
    (owned : gset Z) (output : bytes) : Result StorageError (gset Z * bytes) :=
  if remaining =? 0 then Ok (owned, output) else
  match fuel with
  | O => Panic
  | S fuel =>
      if bool_decide (id ∈ owned) then Err (Corrupt "repeated page ownership") else
      let owned := {[id]} ∪ owned in
      let* page := read self id (Some tree) in
      let length := Z.min remaining PAYLOAD_SIZE in
      let* kind := uint_at page 1 6 in
      let* payload := uint_at page 4 40 in
      if negb (kind =? 3) || negb (payload =? length)
      then Err (Corrupt "incorrect overflow payload length or kind") else
      let* data := slice_at page 64 (64 + length) in
      let* id := uint_at page 8 32 in
      let remaining := remaining - length in
      if negb (Bool.eqb (id =? 0) (remaining =? 0)) then Err (Corrupt "incorrect overflow chain length") else
      walk_loop fuel self tree id remaining owned (output ++ data)
  end.

(** A chain has one page per started payload. *)
Definition chain_fuel (length : Z) : nat := Z.to_nat (length / PAYLOAD_SIZE + 1).

Definition walk_overflow (self : PageReader) (tree : TreeId) (id remaining : Z) (owned : gset Z)
    : Result StorageError (gset Z * bytes) :=
  if negb ((INLINE_LIMIT + 1 <=? remaining) && (remaining <=? MAX_VALUE))
  then Err (Corrupt "invalid overflow value length")
  else walk_loop (chain_fuel remaining) self tree id remaining owned [].

(** [PageReader::value], [PageReader::value_bytes] *)
Definition read_value (self : PageReader) (tree : TreeId) (value : Value) : Result StorageError bytes :=
  match value with
  | Inline data => Ok data
  | Overflow length head =>
      let* (_, output) := walk_overflow self tree head length ∅ in
      Ok output
  end.

Definition validate_value (self : PageReader) (tree : TreeId) (value : Value) (owned : gset Z)
    : Result StorageError (gset Z) :=
  match value with
  | Inline _ => Ok owned
  | Overflow length head =>
      let* (owned, _) := walk_overflow self tree head length owned in
      Ok owned
  end.

(** ** Writing pages *)

(** [PageFile::create]: page zero of an empty file. *)
Definition create (file : File) (database_id : bytes) (file_id : Z) : File * Result StorageError PageFile :=
  if negb (len (contents file) =? 0) then (file, Err (InvalidInput "page file is not empty")) else
  let image :=
    let* page := header 0 0 0 in
    let* page := copy_at page 40 (le_bytes 4 32) in
    let* page := copy_at page 64 file_magic in
    let* page := copy_at page 72 database_id in
    let* page := copy_at page 88 (le_bytes 8 file_id) in
    checksum page in
  match image with
  | Ok page =>
      let '(file, result) := write_all_at file page 0 in
      (file, let* _ := result in Ok {| file := file; page_count := 1; next_page := 1; poisoned := false |})
  | Err error => (file, Err error)
  | Panic => (file, Panic)
  end.

(** [PageFile::open]: [next_page] skips a partial page at the end. *)
Definition open (file : File) (database_id : bytes) (file_id page_count : Z) : Result StorageError PageFile :=
  if negb ((1 <=? page_count) && (page_count <=? MAX_PAGES)) then Err (Corrupt "invalid page count") else
  let length := len (contents file) in
  if length <? page_count * PAGE_SIZE then Err (Corrupt "truncated page file") else
  let* page := read {| reader_file := contents file; reader_count := page_count |} 0 None in
  let* found := slice_at page 72 88 in
  let* found_file := uint_at page 8 88 in
  if negb (bool_decide (found = database_id)) || negb (found_file =? file_id)
  then Err (Corrupt "page file identity mismatch") else
  Ok {| file := file; page_count := page_count;
        next_page := (length + PAGE_SIZE - 1) / PAGE_SIZE; poisoned := false |}.

Definition sync : FileM unit := fun self =>
  if poisoned self then (self, Err NeedsRecovery) else
  let '(f, result) := sync_file (file self) in
  ({| file := f; page_count := page_count self; next_page := next_page self; poisoned := poisoned self |}, result).

Definition truncate_tail : FileM unit := fun self =>
  if poisoned self then (self, Err NeedsRecovery) else
  match arith_u64 (page_count self * PAGE_SIZE) with
  | Ok length =>
      let '(f, result) := set_len (file self) length in
      match result with
      | Ok _ => ({| file := f; page_count := page_count self; next_page := page_count self;
                    poisoned := poisoned self |}, Ok tt)
      | result => ({| file := f; page_count := page_count self; next_page := next_page self;
                      poisoned := true |}, result)
      end
  | Err error => (self, Err error)
  | Panic => (self, Panic)
  end.

(** [PageFile::append]: the page number is reserved before the write, so an
    uncertain write is never retried at it. *)
Definition append (page : bytes) : FileM Z := fun self =>
  if poisoned self then (self, Err NeedsRecovery) else
  if next_page self >=? MAX_PAGES then (self, Err Exhausted) else
  let id := next_page self in
  let reserved := {| file := file self; page_count := page_count self;
                     next_page := next_page self + 1; poisoned := poisoned self |} in
  let image :=
    let* page := copy_at page 8 (le_bytes 8 id) in
    let* page := checksum page in
    let* offset := arith_u64 (id * PAGE_SIZE) in
    Ok (page, offset) in
  match image with
  | Ok (page, offset) =>
      let '(f, result) := write_all_at (file self) page offset in
      match result with
      | Ok _ => ({| file := f; page_count := next_page reserved; next_page := next_page reserved;
                    poisoned := poisoned self |}, Ok id)
      | Err error => ({| file := f; page_count := page_count self; next_page := next_page reserved;
                         poisoned := true |}, Err error)
      | Panic => ({| file := f; page_count := page_count self; next_page := next_page reserved;
                     poisoned := poisoned self |}, Panic)
      end
  | Err error => (reserved, Err error)
  | Panic => (reserved, Panic)
  end.

Definition append_node (tree : TreeId) (node : Node) : FileM Z :=
  do* page := liftM (encode_node tree node) in
  append page.

(** [slice::chunks] *)
Fixpoint chunks_loop (fuel : nat) (size : Z) (data : bytes) : list bytes :=
  match fuel with
  | O => []
  | S fuel =>
      match data with
      | [] => []
      | _ => take (Z.to_nat size) data :: chunks_loop fuel size (drop (Z.to_nat size) data)
      end
  end.
Definition chunks (size : Z) (data : bytes) : list bytes := chunks_loop (Z.to_nat (len data / size + 1)) size data.

Definition overflow_page (tree : TreeId) (head : Z) (chunk : bytes) : Result StorageError bytes :=
  let* page := header 3 0 (tree_u32 tree) in
  let* page := copy_at page 32 (le_bytes 8 head) in
  let* page := copy_at page 40 (le_bytes 4 (len chunk)) in
  copy_at page 64 chunk.

(** [for chunk in chunks.rev()]: the recursion writes the last chunk first. *)
Fixpoint store_chunks (tree : TreeId) (chunks : list bytes) : FileM Z :=
  match chunks with
  | [] => okM 0
  | chunk :: chunks =>
      do* head := store_chunks tree chunks in
      do* page := liftM (overflow_page tree head chunk) in
      append page
  end.

Definition store_value (tree : TreeId) (value : bytes) : FileM Value :=
  if len value >? MAX_VALUE then errM (InvalidInput "value exceeds 128 MiB") else
  if len value <=? INLINE_LIMIT then okM (Inline value) else
  do* head := store_chunks tree (chunks PAYLOAD_SIZE value) in
  okM (Overflow (len value) head).
End Reader.
