(* ===== verification/PageFacts.v ===== *)
(** * Page images

    The 64-byte header and the body of a page as the concatenation of their
    fields, what the accesses of the code do to it, and the conditions under
    which [validate_header] accepts it. *)
From S2P Require Import Prelude OrdMap Errors Bytes Storage Platform Page.

(** ** The header by fields *)
Record Header : Type := {
  h_kind : Z; h_level : Z; h_id : Z; h_tree : Z; h_cells : Z; h_lower : Z; h_upper : Z;
  h_link : Z; h_payload : Z; h_crc : Z }.

Definition header_bytes (h : Header) : bytes :=
  page_magic ++ le_bytes 2 1 ++ le_bytes 1 (h_kind h) ++ le_bytes 1 (h_level h) ++ le_bytes 8 (h_id h)
  ++ le_bytes 4 (h_tree h) ++ le_bytes 2 (h_cells h) ++ zeros 2 ++ le_bytes 2 (h_lower h)
  ++ le_bytes 2 (h_upper h) ++ zeros 4 ++ le_bytes 8 (h_link h) ++ le_bytes 4 (h_payload h)
  ++ zeros 16 ++ le_bytes 4 (h_crc h).

Definition page_image (h : Header) (body : bytes) : bytes := header_bytes h ++ body.

Definition blank (kind level tree : Z) : Header :=
  {| h_kind := kind; h_level := level; h_id := 0; h_tree := tree; h_cells := 0; h_lower := HEADER_SIZE;
     h_upper := PAGE_SIZE; h_link := 0; h_payload := 0; h_crc := 0 |}.

Lemma len_page_magic : len page_magic = 4.
Proof. done. Qed.
Lemma len_file_magic : len file_magic = 8.
Proof. done. Qed.
Lemma len_zeros_1 : len (zeros 1) = 1.
Proof. done. Qed.
Lemma len_zeros_8 : len (zeros 8) = 8.
Proof. done. Qed.
Lemma len_zeros_2 : len (zeros 2) = 2.
Proof. done. Qed.
Lemma len_zeros_4 : len (zeros 4) = 4.
Proof. done. Qed.
Lemma len_zeros_16 : len (zeros 16) = 16.
Proof. done. Qed.
#[export] Hint Rewrite len_page_magic len_file_magic len_zeros_1 len_zeros_8 len_zeros_2 len_zeros_4 len_zeros_16 : blop.
#[global] Opaque page_magic file_magic zeros.
#[global] Arguments PAGE_SIZE : simpl never.
#[global] Arguments PAYLOAD_SIZE : simpl never.

Lemma len_header h : len (header_bytes h) = 64.
Proof. unfold header_bytes. autorewrite with blop. lia. Qed.
#[export] Hint Rewrite len_header : blop.

Lemma len_page_image h body : len (page_image h body) = 64 + len body.
Proof. unfold page_image. by autorewrite with blop. Qed.

(** *** Setting a field *)
Ltac image_field :=
  intros; unfold page_image, header_bytes, set_byte; cbn [h_kind h_level h_id h_tree h_cells h_lower h_upper h_link h_payload h_crc];
  rewrite <-!app_assoc; field_skip;
  rewrite copy_at_here by (autorewrite with blop; lia); reflexivity.

Lemma header_image kind level tree :
  header kind level tree = Ok (page_image (blank kind level tree) (zeros PAYLOAD_SIZE)).
Proof.
  unfold header, set_byte.
  rewrite (zeros_split 4 PAGE_SIZE), (zeros_split 2 (PAGE_SIZE - 4)), (zeros_split 1 (PAGE_SIZE - 4 - 2)),
    (zeros_split 1 (PAGE_SIZE - 4 - 2 - 1)), (zeros_split 8 (PAGE_SIZE - 4 - 2 - 1 - 1)),
    (zeros_split 4 (PAGE_SIZE - 4 - 2 - 1 - 1 - 8)), (zeros_split 4 (PAGE_SIZE - 4 - 2 - 1 - 1 - 8 - 4)),
    (zeros_split 2 (PAGE_SIZE - 4 - 2 - 1 - 1 - 8 - 4 - 4)),
    (zeros_split 2 (PAGE_SIZE - 4 - 2 - 1 - 1 - 8 - 4 - 4 - 2)),
    (zeros_split 36 (PAGE_SIZE - 4 - 2 - 1 - 1 - 8 - 4 - 4 - 2 - 2)) by (unfold PAGE_SIZE; lia).
  set (body := zeros (PAGE_SIZE - 4 - 2 - 1 - 1 - 8 - 4 - 4 - 2 - 2 - 36)).
  repeat (field_skip; rewrite copy_at_here by field_len; cbn [bindR]).
  unfold page_image, header_bytes, blank. cbn [h_kind h_level h_id h_tree h_cells h_lower h_upper h_link h_payload h_crc].
  rewrite !le_bytes_zero, <-!app_assoc.
  rewrite (zeros_split 2 4), (zeros_split 4 36), (zeros_split 8 (36 - 4)), (zeros_split 4 (36 - 4 - 8)),
    (zeros_split 16 (36 - 4 - 8 - 4)) by lia. rewrite <-!app_assoc. done.
Qed.

Definition with_id (x : Z) (h : Header) : Header :=
  {| h_kind := h_kind h; h_level := h_level h; h_id := x; h_tree := h_tree h; h_cells := h_cells h;
     h_lower := h_lower h; h_upper := h_upper h; h_link := h_link h; h_payload := h_payload h; h_crc := h_crc h |}.
Definition with_cells (x : Z) (h : Header) : Header :=
  {| h_kind := h_kind h; h_level := h_level h; h_id := h_id h; h_tree := h_tree h; h_cells := x;
     h_lower := h_lower h; h_upper := h_upper h; h_link := h_link h; h_payload := h_payload h; h_crc := h_crc h |}.
Definition with_lower (x : Z) (h : Header) : Header :=
  {| h_kind := h_kind h; h_level := h_level h; h_id := h_id h; h_tree := h_tree h; h_cells := h_cells h;
     h_lower := x; h_upper := h_upper h; h_link := h_link h; h_payload := h_payload h; h_crc := h_crc h |}.
Definition with_upper (x : Z) (h : Header) : Header :=
  {| h_kind := h_kind h; h_level := h_level h; h_id := h_id h; h_tree := h_tree h; h_cells := h_cells h;
     h_lower := h_lower h; h_upper := x; h_link := h_link h; h_payload := h_payload h; h_crc := h_crc h |}.
Definition with_link (x : Z) (h : Header) : Header :=
  {| h_kind := h_kind h; h_level := h_level h; h_id := h_id h; h_tree := h_tree h; h_cells := h_cells h;
     h_lower := h_lower h; h_upper := h_upper h; h_link := x; h_payload := h_payload h; h_crc := h_crc h |}.
Definition with_payload (x : Z) (h : Header) : Header :=
  {| h_kind := h_kind h; h_level := h_level h; h_id := h_id h; h_tree := h_tree h; h_cells := h_cells h;
     h_lower := h_lower h; h_upper := h_upper h; h_link := h_link h; h_payload := x; h_crc := h_crc h |}.
Definition with_crc (x : Z) (h : Header) : Header :=
  {| h_kind := h_kind h; h_level := h_level h; h_id := h_id h; h_tree := h_tree h; h_cells := h_cells h;
     h_lower := h_lower h; h_upper := h_upper h; h_link := h_link h; h_payload := h_payload h; h_crc := x |}.

Lemma set_id h body x : copy_at (E:=StorageError) (page_image h body) 8 (le_bytes 8 x) = Ok (page_image (with_id x h) body).
Proof. image_field. Qed.
Lemma set_cells h body x : copy_at (E:=StorageError) (page_image h body) 20 (le_bytes 2 x) = Ok (page_image (with_cells x h) body).
Proof. image_field. Qed.
Lemma set_lower h body x : copy_at (E:=StorageError) (page_image h body) 24 (le_bytes 2 x) = Ok (page_image (with_lower x h) body).
Proof. image_field. Qed.
Lemma set_upper h body x : copy_at (E:=StorageError) (page_image h body) 26 (le_bytes 2 x) = Ok (page_image (with_upper x h) body).
Proof. image_field. Qed.
Lemma set_link h body x : copy_at (E:=StorageError) (page_image h body) 32 (le_bytes 8 x) = Ok (page_image (with_link x h) body).
Proof. image_field. Qed.
Lemma set_payload h body x : copy_at (E:=StorageError) (page_image h body) 40 (le_bytes 4 x) = Ok (page_image (with_payload x h) body).
Proof. image_field. Qed.
Lemma set_crc h body x : copy_at (E:=StorageError) (page_image h body) 60 (le_bytes 4 x) = Ok (page_image (with_crc x h) body).
Proof. image_field. Qed.
Lemma clear_crc h body : copy_at (E:=StorageError) (page_image h body) 60 (zeros 4) = Ok (page_image (with_crc 0 h) body).
Proof. change (zeros 4) with (zeros (Z.of_nat 4)). rewrite <-le_bytes_zero. apply set_crc. Qed.

(** *** Reading a field *)
Record header_ok (h : Header) : Prop := {
  ok_kind : 0 <= h_kind h < 256 ^ 1;
  ok_level : 0 <= h_level h < 256 ^ 1;
  ok_id : 0 <= h_id h < 256 ^ 8;
  ok_tree : 0 <= h_tree h < 256 ^ 4;
  ok_cells : 0 <= h_cells h < 256 ^ 2;
  ok_lower : 0 <= h_lower h < 256 ^ 2;
  ok_upper : 0 <= h_upper h < 256 ^ 2;
  ok_link : 0 <= h_link h < 256 ^ 8;
  ok_payload : 0 <= h_payload h < 256 ^ 4;
  ok_crc : 0 <= h_crc h < 256 ^ 4 }.

Ltac image_read :=
  intros; unfold page_image, header_bytes; rewrite <-!app_assoc; field_skip;
  match goal with
  | |- uint_at (le_bytes ?n ?z ++ ?rest) _ _ = _ =>
      apply (uint_at_app [] n z rest); [autorewrite with blop; lia|done|by auto using ok_kind, ok_level, ok_id, ok_tree, ok_cells, ok_lower, ok_upper, ok_link, ok_payload, ok_crc]
  | |- slice_at _ _ _ = _ => apply slice_at_here; autorewrite with blop; lia
  end.

Lemma get_kind h body : header_ok h -> uint_at (E:=StorageError) (page_image h body) 1 6 = Ok (h_kind h).
Proof. image_read. Qed.
Lemma get_level h body : header_ok h -> uint_at (E:=StorageError) (page_image h body) 1 7 = Ok (h_level h).
Proof. image_read. Qed.
Lemma get_id h body : header_ok h -> uint_at (E:=StorageError) (page_image h body) 8 8 = Ok (h_id h).
Proof. image_read. Qed.
Lemma get_tree h body : header_ok h -> uint_at (E:=StorageError) (page_image h body) 4 16 = Ok (h_tree h).
Proof. image_read. Qed.
Lemma get_cells h body : header_ok h -> uint_at (E:=StorageError) (page_image h body) 2 20 = Ok (h_cells h).
Proof. image_read. Qed.
Lemma get_lower h body : header_ok h -> uint_at (E:=StorageError) (page_image h body) 2 24 = Ok (h_lower h).
Proof. image_read. Qed.
Lemma get_upper h body : header_ok h -> uint_at (E:=StorageError) (page_image h body) 2 26 = Ok (h_upper h).
Proof. image_read. Qed.
Lemma get_link h body : header_ok h -> uint_at (E:=StorageError) (page_image h body) 8 32 = Ok (h_link h).
Proof. image_read. Qed.
Lemma get_payload h body : header_ok h -> uint_at (E:=StorageError) (page_image h body) 4 40 = Ok (h_payload h).
Proof. image_read. Qed.
Lemma get_crc h body : header_ok h -> uint_at (E:=StorageError) (page_image h body) 4 60 = Ok (h_crc h).
Proof. image_read. Qed.
Lemma get_version h body : uint_at (E:=StorageError) (page_image h body) 2 4 = Ok 1.
Proof. image_read. Qed.
Lemma get_magic h body : slice_at (E:=StorageError) (page_image h body) 0 4 = Ok page_magic.
Proof. image_read. Qed.
Lemma get_reserved1 h body : slice_at (E:=StorageError) (page_image h body) 22 24 = Ok (zeros 2).
Proof. image_read. Qed.
Lemma get_reserved2 h body : slice_at (E:=StorageError) (page_image h body) 28 32 = Ok (zeros 4).
Proof. image_read. Qed.
Lemma get_reserved3 h body : slice_at (E:=StorageError) (page_image h body) 44 60 = Ok (zeros 16).
Proof. image_read. Qed.

(** *** Accesses to the body *)
Lemma slice_body {E} h body from to :
  64 <= from -> slice_at (E:=E) (page_image h body) from to = slice_at body (from - 64) (to - 64).
Proof. intros. unfold page_image. by rewrite slice_at_skip, len_header by (autorewrite with blop; lia). Qed.
Lemma uint_body {E} h body width offset :
  64 <= offset -> uint_at (E:=E) (page_image h body) width offset = uint_at body width (offset - 64).
Proof. intros. unfold page_image. by rewrite uint_at_skip, len_header by (autorewrite with blop; lia). Qed.
Lemma copy_body {E} h body offset field :
  64 <= offset ->
  copy_at (E:=E) (page_image h body) offset field =
  let* body := copy_at body (offset - 64) field in Ok (page_image h body).
Proof. intros. unfold page_image. by rewrite copy_at_skip, len_header by (autorewrite with blop; lia). Qed.

(** ** Sealed pages *)
Section Sealed.
Context `{Checksum}.

Definition seal (h : Header) (body : bytes) : bytes :=
  page_image (with_crc (crc32c (page_image (with_crc 0 h) body)) h) body.

Lemma checksum_image h body : checksum (page_image h body) = Ok (seal h body).
Proof.
  unfold checksum. rewrite clear_crc. cbn [bindR]. rewrite set_crc. by destruct h.
Qed.

Lemma crc_ok data : 0 <= crc32c data < 256 ^ 4.
Proof. pose proof (crc32c_range data). unfold u32_max in *. lia. Qed.

Lemma sealed_ok h body : header_ok h -> header_ok (with_crc (crc32c (page_image (with_crc 0 h) body)) h).
Proof. intros []. split; try done. apply crc_ok. Qed.

Definition tree_code (tree : option TreeId) : Z := match tree with Some tree => tree_u32 tree | None => 0 end.

(** A sealed page passes to the checks of its kind. *)
Lemma validate_sealed h body id tree count :
  header_ok h -> h_id h = id -> h_tree h = tree_code tree ->
  validate_header (seal h body) id tree count =
  validate_kind (seal h body) id count (h_cells h) (h_lower h) (h_upper h) (h_link h) (h_payload h).
Proof.
  intros Hok Hid Htree. pose proof (sealed_ok h body Hok) as Hs. unfold validate_header, seal.
  rewrite get_crc by done. cbn [bindR]. rewrite clear_crc, get_magic. cbn [bindR].
  rewrite bool_decide_true by done.
  replace (with_crc 0 (with_crc _ h)) with (with_crc 0 h) by (by destruct h).
  change (h_crc (with_crc ?c _)) with c. rewrite Z.eqb_refl. cbn [negb orb].
  rewrite get_version. cbn [bindR negb Z.eqb Pos.eqb].
  rewrite get_id, get_tree by done. cbn [bindR].
  change (h_id (with_crc _ _)) with (h_id h). change (h_tree (with_crc _ _)) with (h_tree h).
  rewrite Hid, Htree, !Z.eqb_refl. cbn [negb orb].
  rewrite get_reserved1, get_reserved2, get_reserved3. cbn [bindR]. rewrite !any_nonzero_zeros. cbn [orb].
  by rewrite get_cells, get_lower, get_upper, get_link, get_payload by done.
Qed.

(** *** Every accepted page is sealed *)
(** The raw fields of any page. *)
Lemma page_fields page :
  len page = PAGE_SIZE ->
  exists magic version r1 r2 r3 h body,
    page = magic ++ version ++ le_bytes 1 (h_kind h) ++ le_bytes 1 (h_level h) ++ le_bytes 8 (h_id h)
      ++ le_bytes 4 (h_tree h) ++ le_bytes 2 (h_cells h) ++ r1 ++ le_bytes 2 (h_lower h)
      ++ le_bytes 2 (h_upper h) ++ r2 ++ le_bytes 8 (h_link h) ++ le_bytes 4 (h_payload h)
      ++ r3 ++ le_bytes 4 (h_crc h) ++ body /\
    len magic = 4 /\ len version = 2 /\ len r1 = 2 /\ len r2 = 4 /\ len r3 = 16 /\
    header_ok h /\ len body = PAYLOAD_SIZE.
Proof.
  intros Hl. assert (PAGE_SIZE = 16384) as HP by done. cut_field Hl 4 magic p1 L0. cut_field Hl 2 version p2 L1. cut_field Hl 1 kind p3 L2. cut_field Hl 1 level p4 L3.
  cut_field Hl 8 number p5 L4. cut_field Hl 4 tree p6 L5. cut_field Hl 2 cells p7 L6. cut_field Hl 2 r1 p8 L7. cut_field Hl 2 lower p9 L8.
  cut_field Hl 2 upper p10 L9. cut_field Hl 4 r2 p11 L10. cut_field Hl 8 link p12 L11. cut_field Hl 4 payload p13 L12.
  cut_field Hl 16 r3 p14 L13. cut_field Hl 4 crc body L14.
  exists magic, version, r1, r2, r3,
    {| h_kind := from_le kind; h_level := from_le level; h_id := from_le number; h_tree := from_le tree;
       h_cells := from_le cells; h_lower := from_le lower; h_upper := from_le upper; h_link := from_le link;
       h_payload := from_le payload; h_crc := from_le crc |}, body.
  cbn [h_kind h_level h_id h_tree h_cells h_lower h_upper h_link h_payload h_crc].
  rewrite <-!field_bytes by lia. split; [done|]. repeat (split; [done|]). split.
  - split; cbn; match goal with |- 0 <= from_le ?f < _ => pose proof (from_le_range f) as Hr end;
      rewrite ?L2, ?L3, ?L4, ?L5, ?L6, ?L8, ?L9, ?L11, ?L12, ?L14 in Hr; exact Hr.
  - unfold PAYLOAD_SIZE, PAGE_SIZE, HEADER_SIZE in *. lia.
Qed.

Lemma validate_header_inv page id tree count u :
  validate_header page id tree count = Ok u -> len page = PAGE_SIZE ->
  exists h body,
    page = seal h body /\ header_ok h /\ h_id h = id /\ h_tree h = tree_code tree /\ len body = PAYLOAD_SIZE /\
    validate_kind page id count (h_cells h) (h_lower h) (h_upper h) (h_link h) (h_payload h) = Ok u.
Proof.
  intros Hv Hl. destruct (page_fields page Hl) as
    (magic & version & r1 & r2 & r3 & h & body & Hp & L0 & L1 & L7 & L10 & L13 & Hok & Lb).
  unfold validate_header in Hv. step_ok Hv as crc eqn Hcrc. step_ok Hv as zeroed eqn Hz. step_ok Hv as m eqn Hm.
  step_if Hv eqn Hc1. step_ok Hv as v eqn Hver. step_if Hv eqn Hc2. step_ok Hv as i eqn Hi. step_ok Hv as t eqn Ht.
  step_if Hv eqn Hc3. step_ok Hv as x1 eqn Hx1. step_ok Hv as x2 eqn Hx2. step_ok Hv as x3 eqn Hx3.
  step_if Hv eqn Hc4. apply orb_false_iff in Hc1 as [Hc1 Hc1']. apply orb_false_iff in Hc3 as [Hc3 Hc3'].
  apply orb_false_iff in Hc4 as [Hc4 Hc4'']. apply orb_false_iff in Hc4 as [Hc4 Hc4'].
  apply negb_false_iff, bool_decide_eq_true in Hc1. bsimp. subst m v i t.
  assert (page = page_image h body) as ->.
  { rewrite Hp in Hm, Hver, Hx1, Hx2, Hx3. raw_read Hm. raw_read Hver. raw_read Hx1. raw_read Hx2. raw_read Hx3.
    subst x1 x2 x3. apply any_nonzero_inv in Hc4, Hc4', Hc4''. rewrite L7 in Hc4. rewrite L10 in Hc4'. rewrite L13 in Hc4''.
    apply (field_bytes _ 2) in L1. rewrite Hver in L1. subst magic version r1 r2 r3.
    rewrite Hp. unfold page_image, header_bytes. by rewrite <-!app_assoc. }
  clear Hp. rewrite clear_crc in Hz. injection Hz as <-. rewrite get_crc in Hcrc by done. injection Hcrc as <-.
  rewrite get_id in Hi by done. rewrite get_tree in Ht by done. injection Hi as Hi. injection Ht as Ht.
  rewrite get_cells, get_lower, get_upper, get_link, get_payload in Hv by done. cbn [bindR] in Hv.
  exists h, body. split; [|done]. unfold seal. rewrite Hc1'. by destruct h.
Qed.
End Sealed.
