(* ===== verification/NodeFacts.v ===== *)
(** * The node codec

    A node and its page image determine each other: [encode_node] writes the
    slots from the front and the cells from the back, and [decode_node]
    accepts exactly that layout. *)
From stdpp Require Import sorting.
From S2P Require Import Prelude OrdMap Errors Bytes Storage Platform Page PageFacts.

(** ** The image of a node *)
Definition leaf_image (c : LeafCell) : bytes :=
  match cell_value c with
  | Inline data =>
      le_bytes 2 (len (cell_key c)) ++ le_bytes 1 0 ++ zeros 1 ++ le_bytes 4 (len data) ++ zeros 8
      ++ cell_key c ++ data
  | Overflow length head =>
      le_bytes 2 (len (cell_key c)) ++ le_bytes 1 1 ++ zeros 1 ++ le_bytes 4 length ++ le_bytes 8 head
      ++ cell_key c
  end.
Definition child_image (key : bytes) (child : Z) : bytes :=
  le_bytes 2 (len key) ++ zeros 2 ++ le_bytes 8 child ++ key.

Definition images (node : Node) : list bytes :=
  match node with
  | Leaf cells => map leaf_image cells
  | Internal _ keys children => zip_with child_image keys (tail children)
  end.

Fixpoint slot_table (finish : Z) (imgs : list bytes) : bytes :=
  match imgs with
  | [] => []
  | img :: imgs => le_bytes 2 (finish - len img) ++ le_bytes 2 (len img) ++ slot_table (finish - len img) imgs
  end.

Definition cells_len (imgs : list bytes) : Z := sum_Z (map len imgs).
Definition slots_len (imgs : list bytes) : Z := sum_Z (map (fun img => 4 + len img) imgs).

Definition node_body (imgs : list bytes) : bytes :=
  slot_table PAGE_SIZE imgs ++ zeros (PAYLOAD_SIZE - slots_len imgs) ++ concat (reverse imgs).

Definition node_header (tree : TreeId) (node : Node) : Header :=
  with_upper (PAGE_SIZE - cells_len (images node))
    (with_link (match node with Leaf _ => 0 | Internal _ _ children => hd 0 children end)
      (with_lower (64 + 4 * len (images node))
        (with_cells (len (images node))
          (blank (match node with Leaf _ => 1 | Internal _ _ _ => 2 end) (node_level node) (tree_u32 tree))))).

(** ** Well-formed nodes *)
Definition node_keys (node : Node) : list bytes :=
  match node with Leaf cells => map cell_key cells | Internal _ keys _ => keys end.

Abbreviation increasing := (StronglySorted (fun a b : bytes => cmp a b = Lt)).

Definition cell_wf (count : Z) (c : LeafCell) : Prop :=
  match cell_value c with
  | Inline data => len data <= INLINE_LIMIT
  | Overflow length head => INLINE_LIMIT < length <= MAX_VALUE /\ 0 < head < count
  end.

(** What [encode_node] needs of a node, and [decode_node] establishes. *)
Record node_wf (count : Z) (node : Node) : Prop := {
  wf_nonempty : node_keys node <> [];
  wf_increasing : increasing (node_keys node);
  wf_key_len : Forall (fun key => len key <= MAX_KEY) (node_keys node);
  wf_fits : HEADER_SIZE + slots_len (images node) <= PAGE_SIZE;
  wf_kind :
    match node with
    | Leaf cells => Forall (cell_wf count) cells
    | Internal level keys children =>
        1 <= level <= 255 /\ length children = S (length keys) /\ Forall (fun id => 0 < id < count) children
    end }.

Lemma len_leaf_image c : len (leaf_image c) = leaf_size c - 4.
Proof.
  unfold leaf_image, leaf_size. destruct (cell_value c); autorewrite with blop; rewrite ?len_zeros by lia; lia.
Qed.
Lemma len_child_image key child : len (child_image key child) = 12 + len key.
Proof. unfold child_image. autorewrite with blop. lia. Qed.

Lemma cells_len_app a b : cells_len (a ++ b) = cells_len a + cells_len b.
Proof. unfold cells_len. by rewrite map_app, sum_Z_app. Qed.
Lemma slots_len_eq imgs : slots_len imgs = 4 * len imgs + cells_len imgs.
Proof.
  unfold slots_len, cells_len. induction imgs as [|img imgs IH]; [done|]. rewrite len_cons. simpl. rewrite IH. lia.
Qed.
Lemma cells_len_nonneg imgs : 0 <= cells_len imgs.
Proof. unfold cells_len. induction imgs as [|img imgs IH]; simpl; [lia|]. pose proof (len_nonneg img). lia. Qed.
Lemma len_concat_reverse imgs : len (concat (reverse imgs)) = cells_len imgs.
Proof.
  induction imgs as [|img imgs IH]; [done|]. rewrite reverse_cons, concat_app, len_app, IH.
  unfold cells_len. simpl. rewrite app_nil_r. lia.
Qed.

Lemma len_slot_table imgs : forall finish, len (slot_table finish imgs) = 4 * len imgs.
Proof. induction imgs as [|img imgs IH]; intros; [done|]. simpl. autorewrite with blop. rewrite IH. lia. Qed.

Lemma slot_table_snoc imgs : forall finish img,
  slot_table finish (imgs ++ [img]) =
  slot_table finish imgs ++ le_bytes 2 (finish - cells_len imgs - len img) ++ le_bytes 2 (len img).
Proof.
  induction imgs as [|i imgs IH]; intros; simpl.
  - unfold cells_len. simpl. rewrite Z.sub_0_r, app_nil_r. done.
  - rewrite IH, <-!app_assoc. do 4 f_equal. unfold cells_len. simpl. do 2 f_equal. lia.
Qed.

Lemma images_length node count : node_wf count node -> length (images node) = length (node_keys node).
Proof.
  intros [_ _ _ _ Hk]. destruct node as [cells|level keys children]; simpl; [by rewrite !length_map|].
  destruct Hk as (_ & Hl & _). rewrite length_zip_with. destruct children; simpl in *; lia.
Qed.

(** ** Encoding *)
Lemma copy_tail_here (a field : bytes) offset : offset = 0 -> len field = len a -> copy_tail a offset field = Ok field.
Proof.
  intros -> Hl. unfold copy_tail. rewrite Z.add_0_l, Hl, Z.eqb_refl.
  pose proof (copy_at_here (E:=StorageError) a [] field 0 eq_refl Hl) as Hc. by rewrite !app_nil_r in Hc.
Qed.
Lemma copy_tail_skip (a b field : bytes) offset :
  len a <= offset -> copy_tail (a ++ b) offset field = let* b := copy_tail b (offset - len a) field in Ok (a ++ b).
Proof.
  intros Ho. unfold copy_tail. rewrite len_app.
  replace (offset + len field =? len a + len b) with (offset - len a + len field =? len b)
    by (destruct (Z.eqb_spec (offset - len a + len field) (len b)), (Z.eqb_spec (offset + len field) (len a + len b)); lia).
  destruct (_ =? _); [|done]. by apply copy_at_skip.
Qed.

Ltac fields_zero :=
  repeat match goal with
  | |- context [len ?l] => lazymatch goal with H : 0 <= len l |- _ => fail | _ => pose proof (len_nonneg l) end
  end.

Lemma fill_leaf_cell cells index c :
  cells !! index = Some c -> fill_cell (Leaf cells) index (cell_key c) (zeros (leaf_size c - 4)) = Ok (leaf_image c).
Proof.
  intros Hc. pose proof (len_nonneg (cell_key c)). unfold fill_cell, leaf_size, leaf_image, set_byte.
  rewrite Hc. cbn [expect bindR]. destruct (cell_value c) as [data|length head].
  - pose proof (len_nonneg data). set (n := 4 + 16 + len (cell_key c) + len data - 4).
    rewrite (zeros_split 2 n), (zeros_split 1 (n - 2)), (zeros_split 1 (n - 2 - 1)), (zeros_split 4 (n - 2 - 1 - 1)),
      (zeros_split 8 (n - 2 - 1 - 1 - 4)), (zeros_split (len (cell_key c)) (n - 2 - 1 - 1 - 4 - 8)) by lia.
    repeat (field_skip; rewrite copy_at_here by field_len; cbn [bindR]).
    repeat rewrite copy_tail_skip by field_len. rewrite copy_tail_here by field_len.
    cbn [bindR]. by rewrite le_bytes_zero.
  - set (n := 4 + 16 + len (cell_key c) + 0 - 4).
    rewrite (zeros_split 2 n), (zeros_split 1 (n - 2)), (zeros_split 1 (n - 2 - 1)), (zeros_split 4 (n - 2 - 1 - 1)),
      (zeros_split 8 (n - 2 - 1 - 1 - 4)), (zeros_split (len (cell_key c)) (n - 2 - 1 - 1 - 4 - 8)) by lia.
    replace (zeros (n - 2 - 1 - 1 - 4 - 8 - len (cell_key c))) with (@nil byte)
      by (unfold n; replace (_ - _) with 0 by lia; done).
    repeat (field_skip; rewrite copy_at_here by field_len; cbn [bindR]).
    by rewrite app_nil_r.
Qed.

Lemma fill_child_cell level keys children index key child :
  children !! S index = Some child ->
  fill_cell (Internal level keys children) index key (zeros (12 + len key)) = Ok (child_image key child).
Proof.
  intros Hc. pose proof (len_nonneg key). unfold fill_cell, child_image. rewrite Hc. cbn [expect bindR].
  set (n := 12 + len key).
  rewrite (zeros_split 2 n), (zeros_split 2 (n - 2)), (zeros_split 8 (n - 2 - 2)) by lia.
  repeat (field_skip; rewrite copy_at_here by field_len; cbn [bindR]).
  repeat rewrite copy_tail_skip by field_len. rewrite copy_tail_here by field_len. done.
Qed.

Lemma node_cell_image count node index img key :
  node_wf count node -> images node !! index = Some img -> node_keys node !! index = Some key ->
  node_cell node index = Ok (key, len img) /\ fill_cell node index key (zeros (len img)) = Ok img.
Proof.
  intros [_ _ _ _ Hk] Hi Hkey. destruct node as [cells|level keys children]; simpl in *.
  - rewrite lookup_map in Hi, Hkey. destruct (cells !! index) as [c|] eqn:Hc; [|done]. simplify_eq/=.
    rewrite len_leaf_image. split; [done|]. by apply fill_leaf_cell.
  - destruct Hk as (_ & Hl & _). destruct children as [|child children]; [done|]. simpl in Hi.
    apply lookup_zip_with_Some in Hi as (key' & child' & -> & Hkey' & Hchild). simplify_eq.
    rewrite len_child_image, Hkey'. split; [done|]. by apply fill_child_cell.
Qed.

(** One turn of the loop: a slot and a cell are cut from the two ends of the gap. *)
Lemma encode_slot_image count node index img key h table gap tail :
  node_wf count node -> images node !! index = Some img -> node_keys node !! index = Some key ->
  len table = 4 * Z.of_nat index -> 4 + len img <= gap -> 64 + len table + gap + len tail = PAGE_SIZE ->
  encode_slot node (page_image h (table ++ zeros gap ++ tail), PAGE_SIZE - len tail) index =
  Ok (page_image h ((table ++ le_bytes 2 (PAGE_SIZE - len tail - len img) ++ le_bytes 2 (len img))
        ++ zeros (gap - 4 - len img) ++ (img ++ tail)), PAGE_SIZE - len tail - len img).
Proof.
  intros Hwf Hi Hkey Ht Hg Hp. destruct (node_cell_image _ _ _ _ _ Hwf Hi Hkey) as [Hcell Hfill].
  assert (len key <= MAX_KEY) as Hmax by (eapply Forall_lookup in Hkey; [|apply Hwf]; done).
  pose proof (len_nonneg table). pose proof (len_nonneg tail). pose proof (len_nonneg img).
  unfold encode_slot. rewrite Hcell. cbn [bindR]. rewrite gtb_false by done.
  rewrite arith_u64_ok by (unfold u64_max, PAGE_SIZE in *; lia). cbn [bindR].
  rewrite (zeros_split 2 gap), (zeros_split 2 (gap - 2)), (zeros_split (gap - 4 - len img) (gap - 2 - 2)) by lia.
  replace (gap - 2 - 2 - (gap - 4 - len img)) with (len img) by lia. rewrite <-!app_assoc.
  set (start := PAGE_SIZE - len tail - len img).
  rewrite copy_body, copy_at_skip, copy_at_here by (try field_len; autorewrite with blop; lia). cbn [bindR].
  rewrite copy_body by lia. do 2 rewrite copy_at_skip by field_len. rewrite copy_at_here by field_len. cbn [bindR].
  rewrite slice_body by (unfold start; lia). do 4 rewrite slice_at_skip by field_len.
  rewrite slice_at_here by field_len. cbn [bindR]. rewrite Hfill. cbn [bindR].
  rewrite copy_body by (unfold start; lia). do 4 rewrite copy_at_skip by field_len.
  rewrite copy_at_here by field_len. cbn [bindR]. done.
Qed.

Lemma encode_slots count node h : forall rest done,
  node_wf count node -> images node = done ++ rest ->
  foldR (encode_slot node)
    (page_image h (slot_table PAGE_SIZE done ++ zeros (PAYLOAD_SIZE - slots_len done) ++ concat (reverse done)),
     PAGE_SIZE - cells_len done) (seq (length done) (length rest)) =
  Ok (page_image h (node_body (images node)), PAGE_SIZE - cells_len (images node)).
Proof.
  induction rest as [|img rest IH]; intros done Hwf Himg; cbn [length seq foldR].
  - rewrite app_nil_r in Himg. by subst.
  - assert (images node !! length done = Some img) as Hi by (rewrite Himg; by apply list_lookup_middle).
    destruct (node_keys node !! length done) as [key|] eqn:Hkey.
    2: { apply lookup_ge_None in Hkey. apply lookup_lt_Some in Hi. rewrite (images_length _ _ Hwf) in Hi. lia. }
    pose proof (wf_fits _ _ Hwf) as Hfit. rewrite slots_len_eq, Himg, len_app, cells_len_app, len_cons in Hfit.
    assert (cells_len (img :: rest) = len img + cells_len rest) as Hc by done. rewrite Hc in Hfit.
    pose proof (cells_len_nonneg rest). pose proof (len_nonneg rest).
    replace (PAGE_SIZE - cells_len done) with (PAGE_SIZE - len (concat (reverse done))) by (by rewrite len_concat_reverse).
    rewrite (encode_slot_image count node (length done) img key); cycle 1.
    1-3: done. { by rewrite len_slot_table. }
    1-2: rewrite ?len_slot_table, ?len_concat_reverse, slots_len_eq; unfold PAYLOAD_SIZE, HEADER_SIZE in *; lia.
    cbn [bindR]. specialize (IH (done ++ [img]) Hwf). rewrite length_app, Nat.add_1_r in IH.
    rewrite <-IH by by rewrite <-app_assoc. rewrite slot_table_snoc, reverse_app, !cells_len_app, len_concat_reverse.
    rewrite !slots_len_eq, cells_len_app, len_app, len_cons, len_nil. change (cells_len [img]) with (len img + 0).
    replace (PAYLOAD_SIZE - (4 * len done + cells_len done) - 4 - len img)
      with (PAYLOAD_SIZE - (4 * (len done + (1 + 0)) + (cells_len done + (len img + 0)))) by lia.
    by replace (PAGE_SIZE - (cells_len done + (len img + 0))) with (PAGE_SIZE - cells_len done - len img) by lia.
Qed.

Lemma sum_leaf_sizes cells : sum_Z (map leaf_size cells) = slots_len (map leaf_image cells).
Proof.
  unfold slots_len. rewrite map_map. f_equal. apply map_ext. intros c. rewrite len_leaf_image. lia.
Qed.
Lemma sum_key_sizes keys children :
  length children = length keys ->
  sum_Z (map (fun key => 16 + len key) keys) = slots_len (zip_with child_image keys children).
Proof.
  revert children. induction keys as [|key keys IH]; intros [|child children] Hl; simpl in *; try lia; [done|].
  unfold slots_len in *. simpl. rewrite len_child_image, <-IH by lia. lia.
Qed.

Lemma node_shape_image count node :
  node_wf count node ->
  node_shape node =
  Ok (match node with Leaf _ => 1 | Internal _ _ _ => 2 end, length (images node), HEADER_SIZE + slots_len (images node)).
Proof.
  intros Hwf. pose proof (images_length _ _ Hwf) as Hl. destruct Hwf as [_ _ _ _ Hk].
  unfold node_shape. destruct node as [cells|level keys children]; simpl in *.
  - by rewrite sum_leaf_sizes, length_map.
  - destruct Hk as (Hlevel & Hc & Href). rewrite (proj2 (Z.eqb_neq level 0)) by lia.
    rewrite (proj2 (Nat.eqb_eq _ _)) by lia. replace (existsb (Z.eqb 0) children) with false.
    2: { symmetry. apply not_true_is_false. intros (x & Hx & Hz)%existsb_exists. apply Z.eqb_eq in Hz as <-.
         rewrite Forall_forall in Href. apply list_elem_of_In in Hx. apply Href in Hx. lia. }
    simpl. rewrite (sum_key_sizes keys (tail children)) by (destruct children; simpl in *; lia). by rewrite Hl.
Qed.

Lemma encode_node_image count tree node :
  node_wf count node ->
  encode_node tree node = Ok (page_image (node_header tree node) (node_body (images node))).
Proof.
  intros Hwf. unfold encode_node. rewrite (node_shape_image _ _ Hwf). cbn [bindR].
  pose proof (images_length _ _ Hwf) as Hl. pose proof (wf_nonempty _ _ Hwf) as Hne.
  rewrite (proj2 (Nat.eqb_neq _ 0)) by (rewrite Hl; by destruct (node_keys node)).
  rewrite gtb_false by apply Hwf. cbn [orb]. rewrite header_image. cbn [bindR].
  rewrite set_cells. cbn [bindR]. rewrite set_lower. cbn [bindR].
  pose proof (encode_slots count node) as Hs. specialize (Hs
    (with_lower (64 + 4 * Z.of_nat (length (images node)))
       (with_cells (Z.of_nat (length (images node)))
          (blank (match node with Leaf _ => 1 | Internal _ _ _ => 2 end) (node_level node) (tree_u32 tree))))
    (images node) [] Hwf eq_refl).
  change (concat (reverse [])) with (@nil byte) in Hs. change (slot_table PAGE_SIZE []) with (@nil byte) in Hs.
  change (PAYLOAD_SIZE - slots_len []) with (PAYLOAD_SIZE - 0) in Hs.
  change (PAGE_SIZE - cells_len []) with (PAGE_SIZE - 0) in Hs. rewrite !Z.sub_0_r, app_nil_r in Hs.
  cbn [app length] in Hs. rewrite Hs. cbn [bindR]. destruct node as [cells|level keys children]; cbn [bindR].
  - by rewrite set_upper.
  - pose proof (wf_kind _ _ Hwf) as (_ & Hc & _). destruct children as [|child children]; [done|].
    cbn [head expect bindR]. rewrite set_link. cbn [bindR]. by rewrite set_upper.
Qed.

(** ** Decoding *)
Lemma slot_table_app a : forall finish b,
  slot_table finish (a ++ b) = slot_table finish a ++ slot_table (finish - cells_len a) b.
Proof.
  induction a as [|img a IH]; intros; simpl.
  - unfold cells_len. simpl. by rewrite Z.sub_0_r.
  - rewrite IH, <-!app_assoc. do 4 f_equal. unfold cells_len. simpl. lia.
Qed.

Lemma node_header_ok tree count node : node_wf count node -> count <= MAX_PAGES -> header_ok (node_header tree node).
Proof.
  intros Hwf Hc. pose proof (wf_fits _ _ Hwf) as Hf. rewrite slots_len_eq in Hf.
  pose proof (cells_len_nonneg (images node)). pose proof (len_nonneg (images node)).
  pose proof (wf_kind _ _ Hwf) as Hk. unfold HEADER_SIZE, PAGE_SIZE, MAX_PAGES in *.
  split; cbn [node_header with_upper with_link with_lower with_cells blank h_kind h_level h_id h_tree h_cells h_lower h_upper h_link h_payload h_crc];
    change (256 ^ 1) with 256; change (256 ^ 2) with 65536; change (256 ^ 4) with 4294967296;
    change (256 ^ 8) with 18446744073709551616; unfold HEADER_SIZE, PAGE_SIZE; try lia.
  - destruct node; lia.
  - destruct node; simpl; lia.
  - destruct tree; simpl; lia.
  - destruct node as [|level keys children]; [lia|]. destruct Hk as (_ & _ & Href).
    destruct Href; simpl; lia.
Qed.

Lemma len_node_body count node : node_wf count node -> len (node_body (images node)) = PAYLOAD_SIZE.
Proof.
  intros Hwf. pose proof (wf_fits _ _ Hwf) as Hf. rewrite slots_len_eq in Hf.
  unfold node_body. rewrite !len_app, len_slot_table, len_concat_reverse, slots_len_eq, len_zeros;
    unfold PAYLOAD_SIZE in *; lia.
Qed.

(** What the decoder reads for slot [length done]. *)
Lemma read_slot {E} done img rest :
  HEADER_SIZE + slots_len (done ++ img :: rest) <= PAGE_SIZE ->
  let offset := PAGE_SIZE - cells_len done - len img in
  let body := node_body (done ++ img :: rest) in
  uint_at (E:=E) body 2 (4 * len done) = Ok offset /\
  uint_at (E:=E) body 2 (2 + 4 * len done) = Ok (len img) /\
  slice_at (E:=E) body (offset - 64) (offset + len img - 64) = Ok img.
Proof.
  intros Hf offset body. rewrite slots_len_eq, len_app, len_cons, cells_len_app in Hf.
  change (cells_len (img :: rest)) with (len img + cells_len rest) in Hf.
  pose proof (cells_len_nonneg done). pose proof (cells_len_nonneg rest).
  pose proof (len_nonneg done). pose proof (len_nonneg rest). pose proof (len_nonneg img).
  assert (body = slot_table PAGE_SIZE done ++ le_bytes 2 offset ++ le_bytes 2 (len img)
    ++ slot_table offset rest ++ zeros (PAYLOAD_SIZE - slots_len (done ++ img :: rest))
    ++ concat (reverse rest) ++ img ++ concat (reverse done)) as ->.
  { unfold body, node_body. rewrite slot_table_app, reverse_app, reverse_cons, !concat_app. cbn [slot_table concat].
    by rewrite app_nil_r, <-!app_assoc. }
  set (gap := zeros _). assert (len gap = PAYLOAD_SIZE - slots_len (done ++ img :: rest)) as Hg.
  { unfold gap. apply len_zeros. rewrite slots_len_eq, len_app, len_cons, cells_len_app.
    change (cells_len (img :: rest)) with (len img + cells_len rest). unfold PAYLOAD_SIZE. lia. }
  rewrite slots_len_eq, len_app, len_cons, cells_len_app in Hg.
  change (cells_len (img :: rest)) with (len img + cells_len rest) in Hg.
  unfold HEADER_SIZE, PAYLOAD_SIZE, HEADER_SIZE in *. unfold offset, PAGE_SIZE in *. split; [|split].
  - apply uint_at_app; [by rewrite len_slot_table|done|]. change (256 ^ 2) with 65536. lia.
  - rewrite app_assoc. apply uint_at_app; [rewrite len_app, len_slot_table, len_le_bytes; lia|done|].
    change (256 ^ 2) with 65536. lia.
  - rewrite (app_assoc _ gap), (app_assoc _ (concat (reverse rest))), !app_assoc, <-(app_assoc _ img).
    apply slice_at_app; repeat rewrite len_app; rewrite !len_slot_table, !len_le_bytes, Hg, len_concat_reverse; lia.
Qed.

Definition state_after (node : Node) (k : nat) : Decoded :=
  {| decoded_end := PAGE_SIZE - cells_len (take k (images node));
     decoded_keys := take k (node_keys node);
     decoded_cells := match node with Leaf cells => take k cells | Internal _ _ _ => [] end;
     decoded_children := match node with Leaf _ => [0] | Internal _ _ children => take (S k) children end |}.

Definition is_leaf (node : Node) : bool := match node with Leaf _ => true | Internal _ _ _ => false end.

Lemma decode_leaf_image {E} count c :
  cell_wf count c -> count <= MAX_PAGES -> len (cell_key c) <= MAX_KEY ->
  uint_at (E:=E) (leaf_image c) 2 0 = Ok (len (cell_key c)) /\
  slice_at (E:=E) (leaf_image c) 16 (16 + len (cell_key c)) = Ok (cell_key c) /\
  decode_leaf_cell (leaf_image c) (cell_key c) (len (leaf_image c)) count = Ok c.
Proof.
  intros Hwf Hcount Hk. pose proof (len_nonneg (cell_key c)). unfold MAX_KEY, MAX_PAGES in *.
  assert (uint_at (E:=E) (leaf_image c) 2 0 = Ok (len (cell_key c))) as H2.
  { unfold leaf_image. destruct (cell_value c); apply (uint_at_app []); try done;
      change (256 ^ 2) with 65536; lia. }
  split; [done|]. clear H2. rewrite len_leaf_image. unfold leaf_image, leaf_size, cell_wf in *.
  destruct c as [key [data|length head]]; cbn [cell_key cell_value] in *.
  - pose proof (len_nonneg data). unfold INLINE_LIMIT in Hwf. split.
    { field_skip. apply slice_at_here; autorewrite with blop; lia. }
    unfold decode_leaf_cell. field_skip.
    rewrite (uint_at_here 4) by (try field_len; try done; change (256 ^ 4) with 4294967296; lia). cbn [bindR].
    field_skip. rewrite (uint_at_zeros 8) by field_len. cbn [bindR]. field_skip.
    rewrite (uint_at_zeros 1) by field_len. cbn [bindR].
    rewrite gtb_false by (unfold MAX_VALUE; lia). cbn [negb Z.eqb orb].
    field_skip. rewrite (uint_at_here 1) by (done || field_len). cbn [bindR Z.eqb andb].
    rewrite (proj2 (Z.leb_le _ _)) by (unfold INLINE_LIMIT; lia).
    rewrite (proj2 (Z.eqb_eq _ _)) by lia. cbn [andb].
    field_skip. rewrite <-(app_nil_r data) at 1. rewrite slice_at_here by (autorewrite with blop; lia). done.
  - destruct Hwf as [Hlen Hhead]. unfold INLINE_LIMIT, MAX_VALUE in Hlen. split.
    { field_skip. rewrite <-(app_nil_r key) at 1. apply slice_at_here; autorewrite with blop; lia. }
    unfold decode_leaf_cell. field_skip.
    rewrite (uint_at_here 4) by (try field_len; try done; change (256 ^ 4) with 4294967296; lia). cbn [bindR].
    field_skip. rewrite (uint_at_here 8) by (try field_len; try done; change (256 ^ 8) with 18446744073709551616; lia).
    cbn [bindR]. field_skip. rewrite (uint_at_zeros 1) by field_len. cbn [bindR].
    rewrite gtb_false by (unfold MAX_VALUE; lia). cbn [negb Z.eqb orb].
    field_skip. rewrite (uint_at_here 1) by (done || field_len). cbn [bindR Z.eqb Pos.eqb andb].
    rewrite gtb_true by (unfold INLINE_LIMIT; lia). cbn [andb].
    unfold valid_ref. rewrite (proj2 (Z.eqb_neq head 0)), (proj2 (Z.ltb_lt head count)) by lia.
    rewrite (proj2 (Z.eqb_eq _ _)) by lia. done.
Qed.

Lemma decode_child_image {E} count key child :
  0 < child < count -> count <= MAX_PAGES -> len key <= MAX_KEY ->
  uint_at (E:=E) (child_image key child) 2 0 = Ok (len key) /\
  slice_at (E:=E) (child_image key child) 12 (12 + len key) = Ok key /\
  decode_child (child_image key child) key (len (child_image key child)) count = Ok child.
Proof.
  intros Hc Hcount Hk. pose proof (len_nonneg key). unfold MAX_KEY, MAX_PAGES in *. rewrite len_child_image.
  unfold child_image. split; [|split].
  - apply (uint_at_app []); [done..|]. change (256 ^ 2) with 65536. lia.
  - field_skip. rewrite <-(app_nil_r key) at 1. apply slice_at_here; autorewrite with blop; lia.
  - unfold decode_child. field_skip.
    rewrite (uint_at_here 8) by (try field_len; try done; change (256 ^ 8) with 18446744073709551616; lia).
    cbn [bindR]. field_skip. rewrite (uint_at_zeros 2) by field_len. cbn [bindR].
    rewrite !Z.eqb_refl. unfold valid_ref.
    rewrite (proj2 (Z.eqb_neq child 0)), (proj2 (Z.ltb_lt child count)) by lia. done.
Qed.

Lemma increasing_before (keys : list bytes) k key :
  increasing keys -> keys !! k = Some key ->
  match last (take k keys) with Some previous => cmp_le key previous | None => false end = false.
Proof.
  intros Hs Hk. destruct (last _) as [p|] eqn:Hp; [|done]. apply last_Some_elem_of in Hp.
  rewrite <-(take_drop_middle _ _ _ Hk) in Hs. rewrite cmp_le_lt. apply negb_false_iff, cmp_lt_true.
  apply (StronglySorted_app_1_elem_of _ _ _ _ _ Hs); [done|]. apply list_elem_of_here.
Qed.

Lemma node_image_lookup count node k :
  node_wf count node -> (k < length (images node))%nat ->
  exists img, images node !! k = Some img /\
  match node with
  | Leaf cells => exists c, cells !! k = Some c /\ img = leaf_image c /\ cell_wf count c
  | Internal _ keys children => exists key child, keys !! k = Some key /\ children !! S k = Some child /\
      img = child_image key child /\ 0 < child < count
  end.
Proof.
  intros [_ _ _ _ Hk] Hlt. apply lookup_lt_is_Some_2 in Hlt as [img Hi]. exists img. split; [done|].
  destruct node as [cells|level keys children]; simpl in Hi.
  - rewrite lookup_map in Hi. destruct (cells !! k) as [c|] eqn:Hc; [|done]. simplify_eq/=.
    exists c. split; [done|]. split; [done|]. by eapply Forall_lookup in Hc.
  - apply lookup_zip_with_Some in Hi as (key & child & -> & Hkey & Hchild). exists key, child.
    rewrite lookup_tail in Hchild. destruct Hk as (_ & _ & Hr). eapply Forall_lookup in Hr; [|done]. done.
Qed.

Lemma decode_slot_image h node count k :
  node_wf count node -> count <= MAX_PAGES -> (k < length (images node))%nat ->
  decode_slot (page_image h (node_body (images node))) count (is_leaf node)
    (PAGE_SIZE - cells_len (images node)) (state_after node k) k = Ok (state_after node (S k)).
Proof.
  intros Hwf Hcount Hk. destruct (node_image_lookup _ _ _ Hwf Hk) as (img & Hi & Hnode).
  pose proof (take_drop_middle _ _ _ Hi) as Hsplit. set (done_ := take k (images node)) in *.
  set (rest := drop (S k) (images node)) in *.
  assert (len done_ = Z.of_nat k) as Hlen by (unfold done_, len; rewrite length_take; lia).
  pose proof (wf_fits _ _ Hwf) as Hf. rewrite <-Hsplit in Hf.
  destruct (read_slot (E:=StorageError) _ _ _ Hf) as (R1 & R2 & R3). rewrite Hsplit in R1, R2, R3.
  assert (cells_len (images node) = cells_len done_ + (len img + cells_len rest)) as Hc
    by (rewrite <-Hsplit, cells_len_app; done).
  pose proof (cells_len_nonneg rest). rewrite slots_len_eq, cells_len_app, len_app, len_cons in Hf.
  change (cells_len (img :: rest)) with (len img + cells_len rest) in Hf.
  pose proof (len_nonneg rest). pose proof (cells_len_nonneg done_). unfold HEADER_SIZE in Hf.
  unfold decode_slot. rewrite uint_body by lia.
  replace (64 + 4 * Z.of_nat k - 64) with (4 * len done_) by lia. rewrite R1. cbn [bindR].
  rewrite uint_body by lia. replace (66 + 4 * Z.of_nat k - 64) with (2 + 4 * len done_) by lia. rewrite R2. cbn [bindR].
  assert ((if is_leaf node then 16 else 12) <= len img) as Hfix.
  { destruct node; [destruct Hnode as (c & _ & -> & _)|destruct Hnode as (key & child & _ & _ & -> & _)]; simpl.
    - rewrite len_leaf_image. unfold leaf_size. pose proof (len_nonneg (cell_key c)).
      destruct (cell_value c); [pose proof (len_nonneg data)|]; lia.
    - rewrite len_child_image. pose proof (len_nonneg key). lia. }
  rewrite (proj2 (Z.ltb_ge (_ - _ - _) _)) by lia. rewrite (proj2 (Z.ltb_ge (len img) _)) by done.
  cbn [decoded_end state_after]. fold done_. rewrite (proj2 (Z.eqb_eq _ _)) by lia. cbn [negb orb].
  rewrite slice_body by lia.
  replace (PAGE_SIZE - cells_len done_ - 64) with (PAGE_SIZE - cells_len done_ - len img + len img - 64) by lia.
  rewrite R3. cbn [bindR]. clear R1 R2 R3.
  assert (PAGE_SIZE - cells_len done_ - len img = PAGE_SIZE - cells_len (take (S k) (images node))) as Hend.
  { rewrite (take_S_r _ _ _ Hi), cells_len_app. unfold cells_len at 3. simpl. unfold done_. lia. }
  pose proof (wf_key_len _ _ Hwf) as Hmax. pose proof (wf_increasing _ _ Hwf) as Hinc.
  unfold state_after. destruct node as [cells|level keys children]; cbn [is_leaf node_keys] in *.
  - destruct Hnode as (c & Hcell & -> & Hcw).
    assert (map cell_key cells !! k = Some (cell_key c)) as Hkey by (by rewrite lookup_map, Hcell).
    assert (len (cell_key c) <= MAX_KEY) as Hck by (by eapply Forall_lookup in Hmax).
    destruct (decode_leaf_image (E:=StorageError) count c Hcw Hcount Hck) as (D1 & D2 & D3).
    rewrite D1. cbn [bindR]. rewrite gtb_false by done.
    rewrite gtb_false by (rewrite len_leaf_image; unfold leaf_size; destruct (cell_value c);
      [pose proof (len_nonneg data)|]; lia). cbn [orb].
    rewrite D2. cbn [bindR decoded_keys]. rewrite (increasing_before _ _ _ Hinc Hkey), D3. cbn [bindR].
    by rewrite Hend, (take_S_r _ _ _ Hkey), (take_S_r _ _ _ Hcell).
  - destruct Hnode as (key & child & Hkey & Hchild & -> & Href).
    assert (len key <= MAX_KEY) as Hck by (by eapply Forall_lookup in Hmax).
    destruct (decode_child_image (E:=StorageError) count key child Href Hcount Hck) as (D1 & D2 & D3).
    rewrite D1. cbn [bindR]. rewrite gtb_false by done.
    rewrite gtb_false by (rewrite len_child_image; lia). cbn [orb].
    rewrite D2. cbn [bindR decoded_keys]. rewrite (increasing_before _ _ _ Hinc Hkey), D3. cbn [bindR].
    by rewrite Hend, (take_S_r _ _ _ Hkey), (take_S_r _ _ _ Hchild).
Qed.

Lemma decode_slots h node count n : forall k,
  node_wf count node -> count <= MAX_PAGES -> (k + n = length (images node))%nat ->
  foldR (decode_slot (page_image h (node_body (images node))) count (is_leaf node)
    (PAGE_SIZE - cells_len (images node))) (state_after node k) (seq k n) =
  Ok (state_after node (length (images node))).
Proof.
  induction n as [|n IH]; intros k Hwf Hc Hk; cbn [seq foldR].
  - by replace (length (images node)) with k by lia.
  - rewrite decode_slot_image by (done || lia). cbn [bindR]. apply IH; [done..|lia].
Qed.

(** The header of the page that holds a node. *)
Definition placed (tree : TreeId) (id crc : Z) (node : Node) : Header := with_crc crc (with_id id (node_header tree node)).

Lemma placed_ok tree id crc count node :
  node_wf count node -> count <= MAX_PAGES -> 0 <= id < 2 ^ 64 -> 0 <= crc < 2 ^ 32 -> header_ok (placed tree id crc node).
Proof. intros Hwf Hc Hid Hcrc. by destruct (node_header_ok tree _ _ Hwf Hc). Qed.

Lemma decode_node_image tree id crc count node :
  node_wf count node -> count <= MAX_PAGES -> 0 <= id < 2 ^ 64 -> 0 <= crc < 2 ^ 32 ->
  decode_node (page_image (placed tree id crc node) (node_body (images node))) count = Ok node.
Proof.
  intros Hwf Hc Hid Hcrc. pose proof (placed_ok tree id crc _ _ Hwf Hc Hid Hcrc) as Hok.
  pose proof (images_length _ _ Hwf) as Hlen. unfold decode_node.
  rewrite get_kind by done. cbn [bindR].
  assert (h_kind (placed tree id crc node) = if is_leaf node then 1 else 2) as -> by (by destruct node).
  replace (negb _) with false by (by destruct node).
  replace ((if is_leaf node then 1 else 2) =? 1) with (is_leaf node) by (by destruct node).
  rewrite get_cells, get_upper, get_link by done. cbn [bindR].
  change (h_cells (placed tree id crc node)) with (len (images node)).
  change (h_upper (placed tree id crc node)) with (PAGE_SIZE - cells_len (images node)).
  unfold len. rewrite Nat2Z.id.
  replace {| decoded_end := PAGE_SIZE |} with (state_after node 0).
  2: { unfold state_after. rewrite !take_0. change (cells_len []) with 0. rewrite Z.sub_0_r.
       destruct node as [|level keys children]; [done|]. pose proof (wf_kind _ _ Hwf) as (_ & Hl & _).
       by destruct children. }
  rewrite decode_slots by done. cbn [bindR]. unfold state_after at 1. cbn [decoded_end].
  rewrite take_ge by lia. rewrite Z.eqb_refl. cbn [negb].
  destruct node as [cells|level keys children]; cbn [is_leaf decoded_cells decoded_keys decoded_children state_after node_keys] in *.
  - rewrite take_ge; [done|]. rewrite length_map in Hlen. lia.
  - rewrite get_level by done. cbn [bindR]. pose proof (wf_kind _ _ Hwf) as (_ & Hl & _).
    by rewrite !take_ge by lia.
Qed.

(** ** Only images decode *)
Lemma increasing_snoc (keys : list bytes) key :
  increasing keys -> match last keys with Some previous => cmp_le key previous | None => false end = false ->
  increasing (keys ++ [key]).
Proof.
  intros Hs Hl. apply StronglySorted_app_2; [|done|repeat constructor].
  intros x1 x2 H1 ->%list_elem_of_singleton. destruct (last keys) as [p|] eqn:Hp; [|by apply last_None in Hp as ->; apply elem_of_nil in H1].
  rewrite cmp_le_lt in Hl. apply negb_false_iff, cmp_lt_true in Hl.
  apply last_Some in Hp as [keys' ->]. apply elem_of_app in H1 as [H1| ->%list_elem_of_singleton]; [|done].
  apply cmp_trans with p; [|done]. apply (StronglySorted_app_1_elem_of _ _ _ _ _ Hs); [done|]. by apply list_elem_of_singleton.
Qed.

Lemma decode_leaf_inv cell key count c :
  decode_leaf_cell cell key (len cell) count = Ok c -> 16 <= len cell ->
  uint_at (E:=StorageError) cell 2 0 = Ok (len key) -> slice_at (E:=StorageError) cell 16 (16 + len key) = Ok key ->
  cell = leaf_image c /\ cell_key c = key /\ cell_wf count c.
Proof.
  intros H Hl Hk Hs. pose proof (len_nonneg key). remember (len cell) as n eqn:Hn. symmetry in Hn. pose proof Hn as Hlen.
  cut_field Hlen 2 f p1 L1. cut_field Hlen 1 t p2 L2. cut_field Hlen 1 z p3 L3. cut_field Hlen 4 v p4 L4.
  cut_field Hlen 8 h8 p5 L5.
  raw_read Hk. pose proof (field_bytes _ 2 L1) as F1. rewrite Hk in F1.
  apply slice_at_cut in Hs as (l & r & E & Ll & _). rewrite !app_assoc in E. rewrite <-(app_assoc _ key) in E.
  apply app_len_inj in E as [_ ->]; [|rewrite !len_app, L1, L2, L3, L4, L5; lia].
  rewrite len_app in Hlen. pose proof (len_nonneg r).
  unfold decode_leaf_cell in H. step_ok H as vl eqn Hv. raw_read Hv. step_ok H as h eqn Hh. raw_read Hh.
  step_ok H as fl eqn Hf. raw_read Hf. step_if H eqn Hc. step_ok H as tag eqn Ht. raw_read Ht. subst vl h fl tag. bsimp.
  pose proof (field_bytes _ 4 L4) as F4. pose proof (field_bytes _ 8 L5) as F5.
  pose proof (field_bytes _ 1 L3) as F3. pose proof (field_bytes _ 1 L2) as F2.
  match goal with E : from_le z = 0 |- _ => rewrite E, le_bytes_zero in F3 end.
  destruct (_ && _) eqn:Hin in H.
  - step_ok H as data eqn Hd. injection H as <-. bsimp. unfold leaf_image, cell_wf. cbn [cell_key cell_value].
    assert (len r = from_le v) as Hr by lia. repeat rewrite slice_at_skip in Hd by field_len.
    rewrite <-(app_nil_r r), slice_at_here in Hd by (rewrite ?app_nil_r, ?len_app; field_len). injection Hd as <-.
    rewrite Hr. split; [|done]. rewrite <-F4, <-F1. repeat f_equal; [congruence|done|].
    rewrite F5. match goal with E : from_le h8 = 0 |- _ => rewrite E end. apply le_bytes_zero.
  - destruct (_ && _) eqn:Hov in H; [|done]. injection H as <-. unfold valid_ref in Hov. bsimp.
    unfold leaf_image, cell_wf. cbn [cell_key cell_value].
    assert (r = []) as -> by (destruct r; [done|]; rewrite len_cons in *; pose proof (len_nonneg r); lia).
    pose proof (from_le_range h8). split; [|split; [done|split; lia]].
    rewrite <-F4, <-F5, app_nil_r, <-F1. repeat f_equal; [congruence|done].
Qed.

Lemma decode_child_inv cell key count child :
  decode_child cell key (len cell) count = Ok child -> 12 <= len cell ->
  uint_at (E:=StorageError) cell 2 0 = Ok (len key) -> slice_at (E:=StorageError) cell 12 (12 + len key) = Ok key ->
  cell = child_image key child /\ 0 < child < count.
Proof.
  intros H Hl Hk Hs. pose proof (len_nonneg key). remember (len cell) as n eqn:Hn. symmetry in Hn. pose proof Hn as Hlen.
  cut_field Hlen 2 f p1 L1. cut_field Hlen 2 z p2 L2. cut_field Hlen 8 c p3 L3.
  raw_read Hk. pose proof (field_bytes _ 2 L1) as F1. rewrite Hk in F1.
  apply slice_at_cut in Hs as (l & r & E & Ll & _). rewrite !app_assoc in E. rewrite <-(app_assoc _ key) in E.
  apply app_len_inj in E as [_ ->]; [|rewrite !len_app, L1, L2, L3; lia].
  rewrite len_app in Hlen. unfold decode_child in H. step_ok H as found eqn Hc. raw_read Hc.
  step_ok H as reserved eqn Hz. raw_read Hz. step_if H eqn Hb. injection H as <-. subst found reserved.
  unfold valid_ref in Hb. bsimp. pose proof (field_bytes _ 8 L3) as F3. pose proof (field_bytes _ 2 L2) as F2.
  match goal with E : from_le z = 0 |- _ => rewrite E, le_bytes_zero in F2 end.
  assert (r = []) as -> by (destruct r; [done|]; rewrite len_cons in *; pose proof (len_nonneg r); lia).
  pose proof (from_le_range c). split; [|lia].
  unfold child_image. rewrite <-F3, app_nil_r, <-F1. repeat f_equal. done.
Qed.

(** What has been read when slots [0..k) have been. *)
Record slots_read (h : Header) (body : bytes) (count : Z) (leaf : bool) (first : Z) (k : nat) (s : Decoded)
    (imgs : list bytes) (mid : bytes) : Prop := {
  read_k : length imgs = k;
  read_end : decoded_end s = PAGE_SIZE - cells_len imgs;
  read_body : body = slot_table PAGE_SIZE imgs ++ mid ++ concat (reverse imgs);
  read_increasing : increasing (decoded_keys s);
  read_key_len : Forall (fun key => len key <= MAX_KEY) (decoded_keys s);
  read_cells :
    if leaf then imgs = map leaf_image (decoded_cells s) /\ decoded_keys s = map cell_key (decoded_cells s) /\
      Forall (cell_wf count) (decoded_cells s) /\ decoded_children s = [first]
    else exists refs, decoded_children s = first :: refs /\ imgs = zip_with child_image (decoded_keys s) refs /\
      length refs = length (decoded_keys s) /\ Forall (fun id => 0 < id < count) refs }.

(** A slot that lies in the middle part takes its two ends. *)
Lemma take_slot (mid : bytes) (finish offset length : Z) (k : nat) (table tail cell : bytes) :
  len table = 4 * Z.of_nat k -> 64 + len table + len mid + len tail = PAGE_SIZE -> finish = PAGE_SIZE - len tail ->
  uint_at (E:=StorageError) (table ++ mid ++ tail) 2 (4 * Z.of_nat k) = Ok offset ->
  uint_at (E:=StorageError) (table ++ mid ++ tail) 2 (2 + 4 * Z.of_nat k) = Ok length ->
  slice_at (E:=StorageError) (table ++ mid ++ tail) (offset - 64) (finish - 64) = Ok cell ->
  offset + length = finish -> 64 + 4 * (Z.of_nat k + 1) <= offset -> 0 <= length ->
  exists mid', mid = le_bytes 2 (finish - len cell) ++ le_bytes 2 (len cell) ++ mid' ++ cell /\ len cell = length.
Proof.
  intros Ht Hp Hf Ho Hlen Hc Hsum Hlow Hpos. pose proof (len_nonneg tail).
  rewrite uint_at_skip in Ho by lia. rewrite uint_at_skip in Hlen by lia.
  remember (len mid) as n eqn:Hn. symmetry in Hn.
  cut_field Hn 2 s1 q1 L1. cut_field Hn 2 s2 q2 L2. cut_field Hn (offset - 64 - 4 * (Z.of_nat k + 1)) mid' c L3.
  rewrite <-!app_assoc in Ho, Hlen, Hc. rewrite uint_at_field in Ho by lia.
  rewrite uint_at_skip, uint_at_field in Hlen by lia. injection Ho as Ho. injection Hlen as Hlen.
  do 4 rewrite slice_at_skip in Hc by lia. rewrite slice_at_here in Hc by lia. injection Hc as ->.
  exists mid'. split; [|lia]. replace (len cell) with length by lia. replace (finish - length) with offset by lia.
  rewrite <-Ho, <-Hlen, <-!field_bytes by done. done.
Qed.

Lemma zip_with_snoc (keys : list bytes) (refs : list Z) key child :
  length refs = length keys ->
  zip_with child_image (keys ++ [key]) (refs ++ [child]) = zip_with child_image keys refs ++ [child_image key child].
Proof. intros. by rewrite zip_with_app. Qed.

Lemma decode_slot_inv h body count leaf first upper k s s' imgs mid :
  decode_slot (page_image h body) count leaf upper s k = Ok s' ->
  slots_read h body count leaf first k s imgs mid -> len body = PAYLOAD_SIZE -> 64 + 4 * (Z.of_nat k + 1) <= upper ->
  exists imgs' mid', slots_read h body count leaf first (S k) s' imgs' mid' /\ upper <= decoded_end s'.
Proof.
  intros H [Hk Hend Hbody Hinc Hmax Hcells] Hlen Hup. unfold decode_slot in H.
  assert (len (slot_table PAGE_SIZE imgs) = 4 * Z.of_nat k) as Ht by (rewrite len_slot_table; unfold len; lia).
  step_ok H as offset eqn Ho. step_ok H as length_ eqn Hl. step_if H eqn Hc. bsimp. step_ok H as cell eqn Hcell.
  rewrite uint_body in Ho, Hl by lia. rewrite slice_body in Hcell by lia.
  replace (64 + 4 * Z.of_nat k - 64) with (4 * Z.of_nat k) in Ho by lia.
  replace (66 + 4 * Z.of_nat k - 64) with (2 + 4 * Z.of_nat k) in Hl by lia.
  pose proof (uint_at_range _ _ _ _ Hl ltac:(lia)) as Hlpos.
  rewrite Hbody in Hlen, Ho, Hl, Hcell. rewrite !len_app in Hlen.
  unfold PAYLOAD_SIZE, HEADER_SIZE in Hlen.
  destruct (take_slot mid (decoded_end s) offset length_ k (slot_table PAGE_SIZE imgs) (concat (reverse imgs)) cell Ht)
    as (mid' & -> & Hlc); rewrite ?len_concat_reverse in *; (done || lia || idtac).
  step_ok H as key_len eqn Hkl. step_if H eqn Hkb. step_ok H as key eqn Hkey. step_if H eqn Hlast.
  apply orb_false_iff in Hkb as [Hkb1 Hkb2]. bsimp. subst length_.
  assert (len key = key_len) as <-.
  { apply slice_at_cut in Hkey as (l & r & _ & _ & E). lia. }
  assert (forall img, img = cell ->
    length (imgs ++ [img]) = S k /\ offset = PAGE_SIZE - cells_len (imgs ++ [img]) /\
    body = slot_table PAGE_SIZE (imgs ++ [img]) ++ mid' ++ concat (reverse (imgs ++ [img]))) as Himg.
  { intros img ->. rewrite length_app, cells_len_app, slot_table_snoc, reverse_app. change (cells_len [cell]) with (len cell + 0).
    split; [simpl; lia|]. split; [lia|]. rewrite Hbody, Hend. by rewrite <-!app_assoc. }
  step_ok H as p eqn Hp. destruct p as [cells children]. injection H as <-. cbn [decoded_end].
  destruct leaf.
  - step_ok Hp as c eqn Hc2. injection Hp as <- <-. destruct Hcells as (E1 & E2 & E3 & E4).
    destruct (decode_leaf_inv _ _ _ _ Hc2) as (I1 & I2 & I3); [lia|done..|].
    destruct (Himg (leaf_image c) (eq_sym I1)) as (J1 & J2 & J3).
    exists (imgs ++ [leaf_image c]), mid'. split; [|done]. split; cbn [decoded_end decoded_keys decoded_cells decoded_children]; try done.
    + by apply increasing_snoc.
    + apply Forall_app. split; [done|]. by repeat constructor.
    + rewrite !map_app, E1, E2, Forall_app. simpl. rewrite I2. by repeat (split || constructor).
  - step_ok Hp as child eqn Hc2. injection Hp as <- <-. destruct Hcells as (refs & E1 & E2 & E3 & E4).
    destruct (decode_child_inv _ _ _ _ Hc2) as (I1 & I2); [lia|done..|].
    destruct (Himg (child_image key child) (eq_sym I1)) as (J1 & J2 & J3).
    exists (imgs ++ [child_image key child]), mid'. split; [|done].
    split; cbn [decoded_end decoded_keys decoded_cells decoded_children]; try done.
    + by apply increasing_snoc.
    + apply Forall_app. split; [done|]. by repeat constructor.
    + exists (refs ++ [child]). rewrite E1, E2, zip_with_snoc, !length_app, Forall_app by done. simpl.
      repeat (split || constructor); (done || lia).
Qed.

Lemma decode_slots_inv h body count leaf first upper n : forall k s s' imgs mid,
  foldR (decode_slot (page_image h body) count leaf upper) s (seq k n) = Ok s' ->
  slots_read h body count leaf first k s imgs mid -> len body = PAYLOAD_SIZE -> 64 + 4 * (Z.of_nat k + Z.of_nat n) <= upper ->
  exists imgs' mid', slots_read h body count leaf first (k + n) s' imgs' mid'.
Proof.
  induction n as [|n IH]; intros k s s' imgs mid H Hs Hl Hu; cbn [seq foldR] in H.
  - inv_ok. rewrite Nat.add_0_r. eauto.
  - step_ok H as s1 eqn Hs1. destruct (decode_slot_inv _ _ _ _ _ _ _ _ _ _ _ Hs1 Hs Hl) as (imgs1 & mid1 & Hr & _); [lia|].
    rewrite Nat.add_succ_r, <-Nat.add_succ_l. eapply IH; [exact H|exact Hr|done|lia].
Qed.

(** The part of [validate_kind] for node pages. *)
Lemma validate_node_inv h body id count u :
  header_ok h -> id <> 0 ->
  validate_kind (page_image h body) id count (h_cells h) (h_lower h) (h_upper h) (h_link h) (h_payload h) = Ok u ->
  h_kind h = 1 \/ h_kind h = 2 ->
  h_cells h <> 0 /\ h_lower h = 64 + 4 * h_cells h /\ h_lower h <= h_upper h <= PAGE_SIZE /\ h_payload h = 0 /\
  slice_at (E:=StorageError) body (h_lower h - 64) (h_upper h - 64) = Ok (zeros (h_upper h - h_lower h)) /\
  (h_kind h = 1 -> h_level h = 0 /\ h_link h = 0) /\ (h_kind h = 2 -> h_level h <> 0 /\ 0 < h_link h < count).
Proof.
  intros Hok Hid H Hk. unfold validate_kind in H. rewrite get_kind, get_level in H by done. cbn [bindR] in H.
  assert ((h_kind h =? 0) = false) as Hk0 by lia. rewrite Hk0 in H. cbn [andb] in H.
  assert (((h_kind h =? 1) || (h_kind h =? 2)) = true) as Hk12 by lia. rewrite Hk12 in H.
  rewrite (proj2 (Z.eqb_neq id 0)) in H by done. cbn [andb negb] in H.
  step_if H eqn Hb. apply orb_false_iff in Hb as [Hb Hpay]. apply orb_false_iff in Hb as [Hb Hup].
  apply orb_false_iff in Hb as [Hb Hlu]. apply orb_false_iff in Hb as [Hcells Hlow]. bsimp.
  step_ok H as unused eqn Hu. step_if H eqn Hz. rewrite slice_body in Hu by (pose proof (ok_cells _ Hok); lia).
  assert (unused = zeros (h_upper h - h_lower h)) as ->.
  { apply any_nonzero_inv in Hz. rewrite Hz. apply slice_at_cut in Hu as (l & r & _ & _ & El). f_equal. lia. }
  pose proof (ok_link _ Hok) as [? _]. unfold valid_ref in H.
  repeat (split; [done || lia|]). split; intros E; rewrite E in H; simpl in H; step_if H eqn Hf; bsimp; lia.
Qed.

Lemma decode_image_inv h body id count node u :
  header_ok h -> id <> 0 -> len body = PAYLOAD_SIZE ->
  validate_kind (page_image h body) id count (h_cells h) (h_lower h) (h_upper h) (h_link h) (h_payload h) = Ok u ->
  decode_node (page_image h body) count = Ok node ->
  node_wf count node /\ body = node_body (images node) /\
  h = {| h_kind := if is_leaf node then 1 else 2; h_level := node_level node; h_id := h_id h; h_tree := h_tree h;
         h_cells := len (images node); h_lower := 64 + 4 * len (images node);
         h_upper := PAGE_SIZE - cells_len (images node);
         h_link := match node with Leaf _ => 0 | Internal _ _ children => hd 0 children end;
         h_payload := 0; h_crc := h_crc h |}.
Proof.
  intros Hok Hid Hlen Hv H. unfold decode_node in H. rewrite get_kind in H by done. cbn [bindR] in H.
  step_if H eqn Hkind. apply negb_false_iff, orb_true_iff in Hkind. rewrite !Z.eqb_eq in Hkind.
  destruct (validate_node_inv _ _ _ _ _ Hok Hid Hv Hkind) as (Hcells & Hlow & Hup & Hpay & Hgap & Hleaf & Hint).
  rewrite get_cells, get_upper, get_link in H by done. cbn [bindR] in H. step_ok H as s eqn Hs. step_if H eqn Hend.
  apply negb_false_iff, Z.eqb_eq in Hend. pose proof (ok_cells _ Hok) as [Hc0 _].
  destruct (decode_slots_inv h body count (h_kind h =? 1) (h_link h) (h_upper h) _ _ _ _ [] body Hs)
    as (imgs & mid & [Rk Re Rb Ri Rm Rc]); [|done|lia|].
  { split; try done; try constructor. - by rewrite app_nil_r. - destruct (_ =? _); [done|]. by exists []. }
  assert (len imgs = h_cells h) as Hn by (unfold len; lia).
  assert (mid = zeros (PAYLOAD_SIZE - slots_len imgs)) as Hmid.
  { rewrite Rb, slice_at_skip in Hgap by (rewrite len_slot_table; lia). rewrite len_slot_table in Hgap.
    rewrite Rb, !len_app, len_slot_table, len_concat_reverse in Hlen. rewrite slots_len_eq.
    unfold PAYLOAD_SIZE, HEADER_SIZE in *. rewrite slice_at_here in Hgap by lia. injection Hgap as ->. f_equal. lia. }
  rewrite Hend in Re. subst mid. fold (node_body imgs) in Rb.
  assert (HEADER_SIZE + slots_len imgs <= PAGE_SIZE) as Hfit by (rewrite slots_len_eq; unfold HEADER_SIZE; lia).
  assert (decoded_keys s <> []) as Hne.
  { intros E. destruct (h_kind h =? 1); [destruct Rc as (-> & E2 & _)|destruct Rc as (refs & _ & -> & _)];
      rewrite ?E in *; [destruct (decoded_cells s); [|done]|]; simpl in Hn; rewrite len_nil in Hn; lia. }
  destruct (Z.eqb_spec (h_kind h) 1) as [E1|E1].
  - injection H as <-. destruct Rc as (-> & R2 & R3 & R4). destruct (Hleaf E1) as [L1 L2].
    split; [split; cbn [node_keys images]; rewrite <-?R2; try done|]. split; [done|].
    destruct h as [f0 f1 f2 f3 f4 f5 f6 f7 f8 f9]; cbn [h_kind h_level h_id h_tree h_cells h_lower h_upper h_link h_payload h_crc] in *. cbn [is_leaf node_level images]. f_equal; lia.
  - step_ok H as level eqn Hl. rewrite get_level in Hl by done. injection Hl as <-. injection H as <-.
    destruct Rc as (refs & R1 & -> & R3 & R4). destruct (Hint ltac:(tauto)) as [L1 L2].
    pose proof (ok_level _ Hok) as Hlev. change (256 ^ 1) with 256 in Hlev. rewrite R1.
    split; [split; cbn [node_keys images tail]; try done|].
    { split; [lia|]. simpl. split; [lia|]. by constructor. }
    split; [done|]. destruct h as [f0 f1 f2 f3 f4 f5 f6 f7 f8 f9]; cbn [h_kind h_level h_id h_tree h_cells h_lower h_upper h_link h_payload h_crc] in *. cbn [is_leaf node_level images tail hd]. f_equal; lia.
Qed.
