(* ===== verification/FileFacts.v ===== *)
(** * The append-only page file

    What a reader sees is never changed by later writes ([reader_le]), an
    appended page is read back, and every operation that may write keeps the
    file well formed whether it succeeds or fails ([runs]). *)
From S2P Require Import Prelude OrdMap Errors Bytes Storage Platform Page PageFacts NodeFacts.

#[global] Opaque MAX_PAGES.
Lemma max_pages_value : MAX_PAGES = 281474976710656.
Proof. done. Qed.
Lemma page_size_value : PAGE_SIZE = 16384.
Proof. done. Qed.

Definition reader_wf (r : PageReader) : Prop :=
  1 <= reader_count r <= MAX_PAGES /\ reader_count r * PAGE_SIZE <= len (reader_file r).

(** [r'] is a later reader of the same file. *)
Definition reader_le (r r' : PageReader) : Prop :=
  reader_count r <= reader_count r' /\ keeps (reader_count r * PAGE_SIZE) (reader_file r) (reader_file r').

Lemma reader_le_refl r : reader_le r r.
Proof. split; [lia|apply keeps_refl]. Qed.
Lemma reader_le_trans a b c : reader_wf a -> reader_le a b -> reader_le b c -> reader_le a c.
Proof.
  intros [_ Hw] [H1 H2] [H3 H4]. split; [lia|]. eapply keeps_trans; [exact H2|].
  eapply keeps_le; [|exact H4]. rewrite page_size_value. lia.
Qed.

Section Files.
Context `{Checksum}.

(** ** Reads through later readers *)
Lemma validate_kind_mono page id count count' cells lower upper link payload u :
  validate_kind page id count cells lower upper link payload = Ok u -> count <= count' ->
  validate_kind page id count' cells lower upper link payload = Ok u.
Proof.
  intros Hv Hc. assert (valid_ref link count = true -> valid_ref link count' = true) as Hr.
  { unfold valid_ref. rewrite !andb_true_iff, !Z.ltb_lt. lia. }
  unfold validate_kind in *.
  set (m64 := slice_at page 64 72) in *. set (m96 := slice_at page 96 PAGE_SIZE) in *.
  set (gap := slice_at page lower upper) in *. set (rest := slice_at page (64 + payload) PAGE_SIZE) in *.
  set (k := uint_at page 1 6) in *. set (l := uint_at page 1 7) in *.
  clearbody m64 m96 gap rest k l. destruct k as [kind| |]; [|done..]. destruct l as [level| |]; [|done..].
  cbn [bindR] in *. destruct (valid_ref link count) eqn:Eref; [rewrite Hr by done; exact Hv|].
  destruct (valid_ref link count') eqn:Eref'; [|exact Hv].
  destruct ((kind =? 0) && (id =? 0)); [exact Hv|].
  destruct (((kind =? 1) || (kind =? 2)) && negb (id =? 0)).
  - destruct (_ || _); [done|]. destruct gap as [unused| |]; [|done..]. cbn [bindR] in *.
    destruct (any_nonzero unused); [done|]. destruct (kind =? 1); [done|]. by destruct (level =? 0).
  - destruct (_ && _); [|done]. cbn [negb] in *. rewrite andb_true_r in Hv. rewrite andb_false_r.
    destruct (_ || _) eqn:E in Hv; [done|]. apply orb_false_iff in E as [E _]. rewrite E. exact Hv.
Qed.

Lemma read_pinned r data id tree :
  reader_wf r -> 0 <= id -> keeps (reader_count r * PAGE_SIZE) (reader_file r) data ->
  read {| reader_file := data; reader_count := reader_count r |} id tree = read r id tree.
Proof.
  intros [Hc Hl] Hid Hk. unfold read. cbn [reader_count reader_file].
  destruct (Z.geb_spec id (reader_count r)) as [|Hlt]; cbn [orb]; [reflexivity|].
  destruct (negb _); [reflexivity|].
  destruct (arith_u64 _) as [offset| |] eqn:Ho; cbn [bindR]; [|reflexivity..]. apply arith_u64_inv in Ho as [-> _].
  by rewrite (read_exact_at_keeps _ _ _ _ _ Hk) by (rewrite ?page_size_value in *; lia).
Qed.

Lemma read_le r r' id tree page :
  reader_wf r -> reader_le r r' -> 0 <= id -> read r id tree = Ok page -> read r' id tree = Ok page.
Proof.
  intros Hwf [Hle Hk] Hid Hr. rewrite <-(read_pinned r (reader_file r')) in Hr by done.
  unfold read in *. cbn [reader_count reader_file] in *. step_if Hr eqn Hb. apply orb_false_iff in Hb as [Hb1 Hb2].
  replace (id >=? reader_count r') with false by (symmetry; rewrite Z.geb_leb in *; blia). rewrite Hb2. cbn [orb].
  step_ok Hr as offset eqn Ho. step_ok Hr as found eqn Hf. rewrite Ho. cbn [bindR]. rewrite Hf. cbn [bindR].
  destruct found as [page'|]; [|done]. step_ok Hr as u eqn Hv. inv_ok.
  apply read_exact_at_len in Hf; [|apply arith_u64_inv in Ho; lia|rewrite page_size_value; lia].
  destruct (validate_header_inv _ _ _ _ _ Hv Hf) as (h & body & -> & Hok & Hid' & Ht & _ & Hkind).
  rewrite validate_sealed by done. by rewrite (validate_kind_mono _ _ _ _ _ _ _ _ _ _ Hkind Hle).
Qed.

Lemma node_wf_mono count count' node : node_wf count node -> count <= count' -> node_wf count' node.
Proof.
  intros [H1 H2 H3 H4 H5] Hc. split; try done. destruct node as [cells|level keys children].
  - eapply Forall_impl; [exact H5|]. intros c. unfold cell_wf. destruct (cell_value c); lia.
  - destruct H5 as (? & ? & H5). repeat (split; [done|]). eapply Forall_impl; [exact H5|]. simpl. lia.
Qed.

(** ** The pages that hold nodes *)
Definition node_page (tree : TreeId) (id : Z) (node : Node) : bytes :=
  seal (with_id id (node_header tree node)) (node_body (images node)).

Lemma node_page_image tree id node :
  exists crc, 0 <= crc < 2 ^ 32 /\ node_page tree id node = page_image (placed tree id crc node) (node_body (images node)).
Proof. eexists. split; [apply crc_ok|]. done. Qed.

Lemma tree_u32_inj a b : tree_u32 a = tree_u32 b -> a = b.
Proof. by destruct a, b. Qed.

Lemma seal_crc h body crc : seal (with_crc crc h) body = seal h body.
Proof. done. Qed.

Lemma header_of_node h crc tree id node :
  with_crc crc h =
    {| h_kind := if is_leaf node then 1 else 2; h_level := node_level node; h_id := h_id h; h_tree := h_tree h;
       h_cells := len (images node); h_lower := 64 + 4 * len (images node);
       h_upper := PAGE_SIZE - cells_len (images node);
       h_link := match node with Leaf _ => 0 | Internal _ _ children => hd 0 children end;
       h_payload := 0; h_crc := crc |} ->
  h_id h = id -> h_tree h = tree_u32 tree -> h = with_crc (h_crc h) (with_id id (node_header tree node)).
Proof.
  destruct h as [f0 f1 f2 f3 f4 f5 f6 f7 f8 f9]. unfold with_crc at 1.
  cbn [h_kind h_level h_id h_tree h_cells h_lower h_upper h_link h_payload h_crc].
  intros [= -> -> -> -> -> -> ->] -> ->. by destruct node.
Qed.

Lemma read_node_inv r tree id node :
  reader_wf r -> 0 <= id -> read_node r tree id = Ok node ->
  0 < id < reader_count r /\ node_wf (reader_count r) node /\
  read_exact_at (reader_file r) (id * PAGE_SIZE) PAGE_SIZE = Ok (Some (node_page tree id node)).
Proof.
  intros Hwf Hid Hr. unfold read_node, read in Hr. step_ok Hr as page eqn Hp. step_if Hp eqn Hb.
  apply orb_false_iff in Hb as [Hb1 Hb2]. rewrite bool_decide_false in Hb2 by done.
  step_ok Hp as offset eqn Ho. apply arith_u64_inv in Ho as [-> Ho]. step_ok Hp as found eqn Hf.
  destruct found as [page'|]; [|done]. step_ok Hp as u eqn Hv. inv_ok.
  assert (id <> 0) as Hid0 by (destruct (Z.eqb_spec id 0); done).
  assert (len page = PAGE_SIZE) as Hlen by (eapply read_exact_at_len; [exact Hf|lia|rewrite page_size_value; lia]).
  destruct (validate_header_inv _ _ _ _ _ Hv Hlen) as (h & body & -> & Hok & Hid' & Ht & Hlb & Hkind).
  pose proof (sealed_ok h body Hok) as Hs. unfold seal in Hkind, Hr.
  destruct (decode_image_inv (with_crc (crc32c (page_image (with_crc 0 h) body)) h) body id _ node u Hs Hid0 Hlb Hkind Hr)
    as (Hnode & Hbody & Hh).
  split; [rewrite Z.geb_leb in Hb1; blia|]. split; [done|]. rewrite Hf. do 2 f_equal. unfold node_page. rewrite <-Hbody.
  pose proof (header_of_node h _ tree id node Hh Hid' Ht) as Hh'.
  by rewrite Hh', seal_crc.
Qed.

Lemma read_node_le r r' tree id node :
  reader_wf r -> reader_wf r' -> reader_le r r' -> 0 <= id -> read_node r tree id = Ok node -> read_node r' tree id = Ok node.
Proof.
  intros Hwf Hwf' Hle Hid Hr. destruct (read_node_inv _ _ _ _ Hwf Hid Hr) as (Hb & Hn & Hp).
  unfold read_node in *. step_ok Hr as page eqn Hpage. rewrite (read_le _ _ _ _ _ Hwf Hle Hid Hpage). cbn [bindR].
  assert (page = node_page tree id node) as ->.
  { unfold read in Hpage. step_if Hpage. step_ok Hpage as offset eqn Ho. apply arith_u64_inv in Ho as [-> _].
    rewrite Hp in Hpage. cbn [bindR] in Hpage. step_ok Hpage as u eqn Hu. by injection Hpage as <-. }
  destruct (node_page_image tree id node) as (crc & Hcrc & ->). destruct Hle as [Hle _]. destruct Hwf' as [Hc _].
  rewrite max_pages_value in Hc. apply decode_node_image; [by eapply node_wf_mono|rewrite max_pages_value; lia|lia|done].
Qed.

(** ** Writing *)
Definition file_wf (f : PageFile) : Prop := reader_wf (reader f) /\ page_count f <= next_page f <= MAX_PAGES.

(** [f'] is [f] after some writes. *)
Record file_le (f f' : PageFile) : Prop := {
  le_reader : reader_le (reader f) (reader f');
  le_next : next_page f <= next_page f';
  le_stable : forall n, n <= page_count f * PAGE_SIZE -> n <= stable (file f) -> n <= stable (file f');
  le_responses : responses (file f) = [] -> responses (file f') = [] }.

(** Why an operation may fail: the file was poisoned by an earlier failure, a
    write failed, or page numbers (or levels) ran out. *)
Definition failed (f : PageFile) (error : StorageError) : Prop :=
  (error = NeedsRecovery /\ poisoned f = true) \/ (error = Io /\ responses (file f) <> []) \/ error = Exhausted.

(** [m] keeps the file well formed and old pages as they were; a result
    satisfies [Q], a failure has a cause, and there is no panic. *)
Definition runs {A} (m : FileM A) (f : PageFile) (Q : PageFile -> A -> Prop) : Prop :=
  match m f with
  | (f', result) =>
      file_wf f' /\ file_le f f' /\
      match result with
      | Ok a => poisoned f' = poisoned f /\ Q f' a
      | Err error => failed f error
      | Panic => False
      end
  end.

Lemma file_le_refl f : file_le f f.
Proof. split; [apply reader_le_refl|lia|done..]. Qed.
Lemma file_le_trans a b c : file_wf a -> file_le a b -> file_le b c -> file_le a c.
Proof.
  intros [Hw _] [H1 H2 HS H3] [H4 H5 HS' H6]. split; [by eapply reader_le_trans|lia| |auto].
  intros n Hn Hs. destruct H1 as [H1 _]. cbn in H1. apply HS'; [rewrite page_size_value in *; lia|by apply HS].
Qed.

Lemma runs_ok {A} (a : A) f (Q : PageFile -> A -> Prop) : file_wf f -> Q f a -> runs (okM a) f Q.
Proof. intros. split; [done|]. split; [apply file_le_refl|done]. Qed.

Lemma runs_err {A} error f (Q : PageFile -> A -> Prop) : file_wf f -> failed f error -> runs (errM error) f Q.
Proof. intros. split; [done|]. split; [apply file_le_refl|done]. Qed.

Lemma runs_bind {A B} (m : FileM A) (k : A -> FileM B) f Q :
  file_wf f -> runs m f (fun f' a => file_wf f' -> file_le f f' -> runs (k a) f' Q) -> runs (bindM m k) f Q.
Proof.
  intros Hwf Hm. unfold runs, bindM in *. destruct (m f) as [f1 [a|error|]] eqn:E; destruct Hm as (Hw & Hle & Hr); [|done..].
  destruct Hr as [Hp Hk]. specialize (Hk Hw Hle). destruct (k a f1) as [f2 result].
  destruct Hk as (Hw2 & Hle2 & Hr2). split; [done|]. split; [by eapply file_le_trans|].
  destruct result as [b|error|]; [|unfold failed in *|done].
  - rewrite Hp in Hr2. done.
  - destruct Hr2 as [[-> Hpo]|[[-> Hio]| ->]]; [left; rewrite <-Hp; done| |by right; right].
    right; left. split; [done|]. intros Hn. apply Hio. by apply Hle.
Qed.

Lemma runs_mono {A} (m : FileM A) f (Q Q' : PageFile -> A -> Prop) :
  runs m f Q -> (forall f' a, file_wf f' -> file_le f f' -> Q f' a -> Q' f' a) -> runs m f Q'.
Proof.
  unfold runs. destruct (m f) as [f' [a|error|]]; intros (Hw & Hle & Hr) HQ; repeat (split; [done|]); [|done..].
  destruct Hr as [Hp Hq]. split; [done|]. by apply HQ.
Qed.

Lemma runs_lift {A} (r : Result StorageError A) a f (Q : PageFile -> A -> Prop) :
  r = Ok a -> file_wf f -> Q f a -> runs (liftM r) f Q.
Proof. intros ->. apply runs_ok. Qed.

(** *** Appending a page *)
Lemma overwrite_page data offset page :
  0 <= offset -> page <> [] -> offset + len page <= i64_max ->
  read_exact_at (overwrite data offset page) offset (len page) = Ok (Some page).
Proof.
  intros Ho Hp Hr. destruct (overwrite_here data offset page Ho Hp) as [H1 H2].
  unfold read_exact_at, check_range. rewrite gtb_false by done. cbn [bindR].
  rewrite (proj2 (Z.leb_le _ _)) by done. by rewrite H1.
Qed.

Lemma write_responses rs below : forall data bytes offset,
  rs = [] -> responses (fst (write_loop rs below data bytes offset)) = [].
Proof. by intros data [|b bytes] offset ->. Qed.
Lemma write_all_at_quiet file bytes offset :
  offset + len bytes <= i64_max -> responses file = [] ->
  responses (fst (write_all_at file bytes offset)) = [] /\ snd (write_all_at file bytes offset) = Ok tt.
Proof.
  intros Hr Hq. unfold write_all_at, check_range. rewrite gtb_false by done. rewrite Hq. by destruct bytes.
Qed.

Lemma len_seal h body : len (seal h body) = 64 + len body.
Proof. unfold seal. apply len_page_image. Qed.

Lemma runs_append h body f (Q : PageFile -> Z -> Prop) :
  file_wf f -> len body = PAYLOAD_SIZE ->
  (forall f', file_wf f' -> file_le f f' -> page_count f' = next_page f + 1 ->
     read_exact_at (contents (file f')) (next_page f * PAGE_SIZE) PAGE_SIZE = Ok (Some (seal (with_id (next_page f) h) body)) ->
     Q f' (next_page f)) ->
  runs (append (page_image h body)) f Q.
Proof.
  intros Hwf Hb HQ. pose proof Hwf as [[[Hc1 Hc2] Hlen] [Hn1 Hn2]]. cbn [reader reader_count reader_file] in *.
  pose proof max_pages_value as HM. pose proof page_size_value as HP. unfold runs, append.
  destruct (poisoned f) eqn:Hpo; [split; [done|split; [apply file_le_refl|by left]]|].
  destruct (Z.geb_spec (next_page f) MAX_PAGES) as [Hx|Hx]; [split; [done|split; [apply file_le_refl|by right; right]]|].
  rewrite set_id. cbn [bindR]. rewrite checksum_image. cbn [bindR]. set (page := seal _ _).
  rewrite arith_u64_ok by (rewrite page_size_value; unfold u64_max; lia). cbn [bindR].
  assert (len page = PAGE_SIZE) as Hp by (unfold page; rewrite len_seal, Hb; done).
  set (offset := next_page f * PAGE_SIZE).
  assert (offset + len page <= i64_max) as Hrange.
  { unfold offset. rewrite Hp. unfold i64_max. lia. }
  assert (page_count f * PAGE_SIZE <= offset) as Hoff by (unfold offset; lia).
  pose proof (write_all_at_keeps (file f) page offset (page_count f * PAGE_SIZE) Hoff Hlen) as Hkeep.
  pose proof (write_all_at_quiet (file f) page offset Hrange) as Hquiet.
  assert (forall n, n <= page_count f * PAGE_SIZE -> n <= stable (file f) -> n <= stable (write_all_at (file f) page offset).1) as Hstable
    by (intros n Hn Hs; apply write_all_at_stable; lia).
  destruct (write_all_at_result (file f) page offset) as [Hres|Hres];
    destruct (write_all_at (file f) page offset) as [f1 result] eqn:Hw; cbn [fst snd] in *; subst result.
  - pose proof (write_all_at_ok (file f) page offset f1 tt ltac:(unfold offset; lia) Hw) as Hcont.
    assert (page <> []) as Hne by (intros E; rewrite E, len_nil in Hp; lia).
    destruct (overwrite_here (contents (file f)) offset page) as [_ Hlong]; [unfold offset; lia|done|].
    rewrite <-Hcont, Hp in Hlong.
    set (f' := {| file := f1; page_count := _; next_page := _; poisoned := _ |}).
    assert (file_wf f') as Hwf'.
    { unfold f', file_wf, reader_wf, offset in *. cbn. lia. }
    assert (file_le f f') as Hle.
    { split; cbn; [|lia|exact Hstable|tauto]. split; cbn; [lia|]. exact Hkeep. }
    split; [done|]. split; [done|]. split; [done|]. apply HQ; [done..|].
    cbn. rewrite Hcont. fold offset page. rewrite <-Hp. apply overwrite_page; [|done..].
    unfold offset. lia.
  - split; [|split].
    + pose proof (keeps_len _ _ _ Hkeep Hlen). unfold file_wf, reader_wf. cbn. lia.
    + split; cbn; [|lia|exact Hstable|tauto]. split; cbn; [lia|]. exact Hkeep.
    + right; left. split; [done|]. intros E. by apply Hquiet in E as [_ E].
Qed.
End Files.
