(* ===== verification/StoredFacts.v ===== *)
(** * Stored nodes and values

    What [append_node] and [store_value] write is what [read_node] and
    [read_value] read, from the reader of the new file and of every later one. *)
From S2P Require Import Prelude OrdMap Errors Bytes Storage Platform Page PageFacts NodeFacts FileFacts.

Section Stored.
Context `{Checksum}.

(** ** Nodes *)
Lemma validate_kind_node tree id crc count node :
  node_wf count node -> count <= MAX_PAGES -> 0 < id < 2 ^ 64 -> 0 <= crc < 2 ^ 32 ->
  validate_kind (page_image (placed tree id crc node) (node_body (images node))) id count
    (len (images node)) (64 + 4 * len (images node)) (PAGE_SIZE - cells_len (images node))
    (match node with Leaf _ => 0 | Internal _ _ children => hd 0 children end) 0 = Ok tt.
Proof.
  intros Hwf Hc Hid Hcrc. pose proof (placed_ok tree id crc _ _ Hwf Hc ltac:(lia) Hcrc) as Hok.
  pose proof (wf_fits _ _ Hwf) as Hfit. rewrite slots_len_eq in Hfit. unfold HEADER_SIZE in Hfit.
  pose proof (cells_len_nonneg (images node)). pose proof (len_nonneg (images node)).
  assert (len (images node) <> 0) as Hne.
  { unfold len. rewrite (images_length _ _ Hwf). pose proof (wf_nonempty _ _ Hwf). by destruct (node_keys node). }
  unfold validate_kind. rewrite get_kind, get_level by done. cbn [bindR].
  assert (h_kind (placed tree id crc node) = if is_leaf node then 1 else 2) as -> by (by destruct node).
  rewrite (proj2 (Z.eqb_neq id 0)), andb_false_r by lia.
  replace (_ || _) with true by (by destruct node). cbn [andb negb].
  rewrite (proj2 (Z.eqb_neq _ 0)) by done. rewrite Z.eqb_refl, !gtb_false by lia. cbn [orb negb Z.eqb].
  rewrite slice_body by lia. unfold node_body. rewrite slice_at_skip by (rewrite len_slot_table; lia).
  rewrite len_slot_table, slice_at_here; [|lia|].
  2: { rewrite len_zeros; rewrite slots_len_eq; unfold PAYLOAD_SIZE, HEADER_SIZE; lia. }
  cbn [bindR]. rewrite any_nonzero_zeros. destruct node as [cells|level keys children]; cbn [is_leaf Z.eqb Pos.eqb].
  - done.
  - pose proof (wf_kind _ _ Hwf) as (Hlevel & _ & Href).
    change (h_level _) with level. rewrite (proj2 (Z.eqb_neq level 0)) by lia. unfold valid_ref.
    destruct Href as [|child children Hch]; [by destruct (wf_kind _ _ Hwf) as (_ & ? & _)|]. cbn [hd orb].
    rewrite (proj2 (Z.eqb_neq child 0)), (proj2 (Z.ltb_lt child count)) by lia. done.
Qed.

(** Reading a sealed page is the check of its kind. *)
Lemma read_sealed r tree id h body :
  reader_wf r -> 0 < id < reader_count r -> header_ok (with_id id h) -> h_tree h = tree_u32 tree ->
  read_exact_at (reader_file r) (id * PAGE_SIZE) PAGE_SIZE = Ok (Some (seal (with_id id h) body)) ->
  read r id (Some tree) =
  let* _ := validate_kind (seal (with_id id h) body) id (reader_count r) (h_cells h) (h_lower h) (h_upper h)
    (h_link h) (h_payload h) in Ok (seal (with_id id h) body).
Proof.
  intros [[Hc1 Hc2] Hl] Hid Hok Ht Hp. pose proof max_pages_value. pose proof page_size_value.
  unfold read. replace (id >=? reader_count r) with false by (symmetry; rewrite Z.geb_leb; apply Z.leb_gt; lia).
  rewrite (proj2 (Z.eqb_neq id 0)), bool_decide_false by (done || lia). cbn [orb negb Bool.eqb].
  rewrite arith_u64_ok by (unfold u64_max; lia). cbn [bindR]. rewrite Hp. cbn [bindR].
  by rewrite validate_sealed by done.
Qed.

Lemma read_node_page r tree id node :
  reader_wf r -> 0 < id < reader_count r -> node_wf (reader_count r) node ->
  read_exact_at (reader_file r) (id * PAGE_SIZE) PAGE_SIZE = Ok (Some (node_page tree id node)) ->
  read_node r tree id = Ok node.
Proof.
  intros Hr Hid Hwf Hp. pose proof Hr as [[Hc1 Hc2] Hl]. pose proof max_pages_value. pose proof page_size_value.
  pose proof (node_header_ok tree _ _ Hwf Hc2) as Hok.
  assert (header_ok (with_id id (node_header tree node))) as Hok' by (by destruct Hok; split; try done; cbn; lia).
  unfold read_node. rewrite (read_sealed _ _ _ _ _ Hr Hid Hok') by done. unfold node_page, seal. set (crc := crc32c _).
  assert (0 <= crc < 2 ^ 32) as Hcrc by apply crc_ok.
  change (with_crc crc (with_id id (node_header tree node))) with (placed tree id crc node).
  change (h_cells (node_header _ _)) with (len (images node)). change (h_lower (node_header _ _)) with (64 + 4 * len (images node)).
  change (h_upper (node_header _ _)) with (PAGE_SIZE - cells_len (images node)). change (h_payload (node_header _ _)) with 0.
  change (h_link (node_header _ _)) with (match node with Leaf _ => 0 | Internal _ _ children => hd 0 children end).
  rewrite validate_kind_node by (done || lia). cbn [bindR]. apply decode_node_image; (done || lia).
Qed.

(** Reading through the file, for the tree. *)
Lemma runs_append_node tree node f (Q : PageFile -> Z -> Prop) :
  file_wf f -> node_wf (page_count f) node ->
  (forall f' id, file_wf f' -> file_le f f' -> page_count f <= id < page_count f' ->
     read_node (reader f') tree id = Ok node -> Q f' id) ->
  runs (append_node tree node) f Q.
Proof.
  intros Hwf Hn HQ. unfold append_node. apply runs_bind; [done|].
  eapply runs_lift; [by eapply encode_node_image|done|]. intros _ _.
  apply runs_append; [done|by eapply len_node_body|]. intros f' Hwf' Hle Hcount Hpage.
  destruct Hwf as [[[Hc _] _] [Hnext _]]. cbn [reader reader_count] in Hc.
  apply HQ; [done|done|lia|]. apply read_node_page; cbn [reader reader_count reader_file]; [apply Hwf'|lia| |done].
  eapply node_wf_mono; [done|]. lia.
Qed.

(** A shared read checks the reference once more. *)
Lemma shared_node_read r tree id : shared_node r tree id = read_node r tree id.
Proof.
  unfold shared_node, read_node, read, valid_ref. rewrite bool_decide_false by done.
  rewrite Z.geb_leb, Z.ltb_antisym. destruct (id =? 0); cbn [negb andb orb Bool.eqb]; [by rewrite orb_true_r|].
  rewrite orb_false_r. by destruct (reader_count r <=? id).
Qed.

(** ** Overflow chains *)
Definition chunk_header (tree : TreeId) (link : Z) (chunk : bytes) : Header :=
  with_payload (len chunk) (with_link link (blank 3 0 (tree_u32 tree))).
Definition chunk_body (chunk : bytes) : bytes := chunk ++ zeros (PAYLOAD_SIZE - len chunk).

Lemma len_chunk_body chunk : len chunk <= PAYLOAD_SIZE -> len (chunk_body chunk) = PAYLOAD_SIZE.
Proof. intros. unfold chunk_body. rewrite len_app, len_zeros; lia. Qed.

Lemma overflow_page_image tree link chunk :
  len chunk <= PAYLOAD_SIZE ->
  overflow_page tree link chunk = Ok (page_image (chunk_header tree link chunk) (chunk_body chunk)).
Proof.
  intros Hl. pose proof (len_nonneg chunk). unfold overflow_page. rewrite header_image. cbn [bindR].
  rewrite set_link. cbn [bindR]. rewrite set_payload. cbn [bindR]. rewrite copy_body by lia.
  rewrite (zeros_split (len chunk) PAYLOAD_SIZE) by lia.
  rewrite copy_at_here by (rewrite ?len_zeros; lia). done.
Qed.

Definition chunk_page (tree : TreeId) (id link : Z) (chunk : bytes) : bytes :=
  seal (with_id id (chunk_header tree link chunk)) (chunk_body chunk).

Lemma chunk_header_ok tree id link chunk :
  0 <= id < 2 ^ 64 -> 0 <= link < 2 ^ 64 -> len chunk <= PAYLOAD_SIZE -> header_ok (with_id id (chunk_header tree link chunk)).
Proof.
  intros Hid Hlink Hl. pose proof (len_nonneg chunk). unfold PAYLOAD_SIZE, PAGE_SIZE, HEADER_SIZE in Hl.
  split; cbn; change (256 ^ 1) with 256; change (256 ^ 2) with 65536; change (256 ^ 4) with 4294967296;
    change (256 ^ 8) with 18446744073709551616; unfold HEADER_SIZE, PAGE_SIZE; try lia. destruct tree; simpl; lia.
Qed.

Lemma read_chunk_page r tree id link chunk :
  reader_wf r -> 0 < id < reader_count r -> 0 <= link < reader_count r -> 1 <= len chunk <= PAYLOAD_SIZE ->
  read_exact_at (reader_file r) (id * PAGE_SIZE) PAGE_SIZE = Ok (Some (chunk_page tree id link chunk)) ->
  read r id (Some tree) = Ok (chunk_page tree id link chunk).
Proof.
  intros Hr Hid Hlink Hchunk Hp. pose proof Hr as [[Hc1 Hc2] Hl]. pose proof max_pages_value. pose proof page_size_value.
  assert (header_ok (with_id id (chunk_header tree link chunk))) as Hok by (apply chunk_header_ok; lia).
  rewrite (read_sealed _ _ _ _ _ Hr Hid Hok) by done.
  unfold validate_kind, seal. set (crc := crc32c _).
  assert (header_ok (with_crc crc (with_id id (chunk_header tree link chunk)))) as Hok' by by apply sealed_ok.
  rewrite get_kind, get_level by done. cbn [bindR].
  change (h_kind _) with 3. change (h_level _) with 0. cbn [Z.eqb Pos.eqb orb andb].
  rewrite (proj2 (Z.eqb_neq id 0)) by lia. cbn [negb].
  change (h_cells _) with 0. change (h_lower _) with 64. change (h_upper _) with PAGE_SIZE.
  change (h_link _) with link. change (h_payload _) with (len chunk). rewrite !Z.eqb_refl. cbn [negb orb].
  rewrite !(proj2 (Z.leb_le _ _)) by lia. cbn [negb andb orb].
  replace (negb (link =? 0) && negb (valid_ref link (reader_count r))) with false.
  2: { unfold valid_ref. destruct (Z.eqb_spec link 0); [done|]. cbn [negb andb]. by rewrite (proj2 (Z.ltb_lt _ _)) by lia. }
  rewrite slice_body by lia. unfold chunk_body. rewrite slice_at_skip by lia.
  rewrite <-(app_nil_r (zeros _)), slice_at_here; [|lia|].
  2: { rewrite len_zeros; unfold PAYLOAD_SIZE, HEADER_SIZE in *; lia. }
  cbn [bindR]. by rewrite any_nonzero_zeros, app_nil_r.
Qed.

(** A chain of pages holding the chunks; every page was written before the
    one that links to it. *)
Fixpoint chain (r : PageReader) (tree : TreeId) (id : Z) (chunks : list bytes) : Prop :=
  match chunks with
  | [] => id = 0
  | chunk :: chunks => exists link,
      0 <= link < id /\ id < reader_count r /\ 1 <= len chunk <= PAYLOAD_SIZE /\
      read_exact_at (reader_file r) (id * PAGE_SIZE) PAGE_SIZE = Ok (Some (chunk_page tree id link chunk)) /\
      chain r tree link chunks
  end.

(** All chunks but the last have the full size. *)
Fixpoint packed_by (size : Z) (chunks : list bytes) : Prop :=
  match chunks with
  | [] => True
  | [chunk] => 1 <= len chunk <= size
  | chunk :: chunks => len chunk = size /\ packed_by size chunks
  end.
Abbreviation packed := (packed_by PAYLOAD_SIZE).

Lemma read_exact_le r r' id page :
  reader_wf r -> reader_le r r' -> 0 <= id < reader_count r ->
  read_exact_at (reader_file r) (id * PAGE_SIZE) PAGE_SIZE = Ok (Some page) ->
  read_exact_at (reader_file r') (id * PAGE_SIZE) PAGE_SIZE = Ok (Some page).
Proof.
  intros [_ Hl] [_ Hk] Hid Hp. pose proof page_size_value. rewrite <-Hp. apply (read_exact_at_keeps _ _ _ _ _ Hk Hl); lia.
Qed.

Lemma chain_le r r' tree chunks : forall id,
  reader_wf r -> reader_le r r' -> chain r tree id chunks -> chain r' tree id chunks.
Proof.
  induction chunks as [|chunk chunks IH]; intros id Hwf Hle; [done|]. intros (link & Hl & Hid & Hc & Hp & Hrest).
  exists link. pose proof Hle as [Hcount _]. split; [done|]. split; [lia|]. split; [done|].
  split; [eapply read_exact_le; eauto; lia|]. by apply IH.
Qed.

Lemma packed_step chunk chunks :
  packed (chunk :: chunks) ->
  1 <= len chunk <= PAYLOAD_SIZE /\ packed chunks /\ Z.min (len (concat (chunk :: chunks))) PAYLOAD_SIZE = len chunk /\
  len (concat (chunk :: chunks)) - len chunk = len (concat chunks) /\ (len (concat chunks) = 0 <-> chunks = []).
Proof.
  assert (PAYLOAD_SIZE = 16320) as HP by done. simpl. rewrite len_app. intros Hp.
  destruct chunks as [|c2 chunks].
  - simpl. rewrite len_nil. repeat split; try done; lia.
  - destruct Hp as [Hl Hp]. simpl. rewrite len_app. pose proof (len_nonneg (concat chunks)).
    assert (1 <= len c2) as H2. { simpl in Hp. destruct chunks; [lia|destruct Hp as [-> _]; lia]. }
    repeat split; try done; lia.
Qed.

(** The walk over a chain outputs its chunks. *)
Lemma walk_loop_chain r tree chunks : forall fuel id owned output,
  reader_wf r -> chain r tree id chunks -> packed chunks -> (length chunks <= fuel)%nat ->
  (forall x, x ∈ owned -> id < x) ->
  exists owned', walk_loop fuel r tree id (len (concat chunks)) owned output = Ok (owned', output ++ concat chunks).
Proof.
  induction chunks as [|chunk chunks IH]; intros fuel id owned output Hwf Hch Hpk Hf Ho.
  - exists owned. simpl. rewrite app_nil_r. by destruct fuel.
  - destruct Hch as (link & Hl & Hid & Hc & Hp & Hrest). destruct (packed_step _ _ Hpk) as (_ & Hpk' & Hmin & Hsub & Hnil).
    destruct fuel as [|fuel]; [simpl in Hf; lia|]. cbn [walk_loop].
    rewrite (proj2 (Z.eqb_neq _ 0)) by (pose proof (len_nonneg (concat chunks)); lia).
    rewrite bool_decide_false by (intros Hin%Ho; lia).
    rewrite (read_chunk_page _ _ _ link chunk Hwf) by (done || lia). cbn [bindR]. rewrite Hmin, Hsub.
    unfold chunk_page, seal. set (crc := crc32c _).
    destruct Hwf as [[Hw1 Hw2] Hw3]. pose proof max_pages_value.
    assert (header_ok (with_crc crc (with_id id (chunk_header tree link chunk)))) as Hok
      by (apply sealed_ok, chunk_header_ok; lia).
    rewrite get_kind, get_payload by done. cbn [bindR]. change (h_kind _) with 3. change (h_payload _) with (len chunk).
    rewrite !Z.eqb_refl. cbn [negb orb]. rewrite slice_body by lia. unfold chunk_body at 1.
    rewrite slice_at_here by lia. cbn [bindR]. rewrite get_link by done. cbn [bindR]. change (h_link _) with link.
    replace (Bool.eqb (link =? 0) (len (concat chunks) =? 0)) with true.
    2: { symmetry. apply eqb_true_iff. destruct chunks as [|c2 chunks].
         - simpl in Hrest. subst link. done.
         - destruct Hrest as (l2 & ? & _). rewrite !(proj2 (Z.eqb_neq _ _)); [done| |lia]. rewrite Hnil. done. }
    cbn [negb]. destruct (IH fuel link ({[id]} ∪ owned) (output ++ chunk)) as [owned' Hw]; [done..|simpl in Hf; lia| |].
    { intros x [->%elem_of_singleton|Hx%Ho]%elem_of_union; lia. }
    exists owned'. rewrite Hw. simpl. by rewrite <-app_assoc.
Qed.

(** *** Splitting a value *)
Lemma chunks_loop_spec size fuel : forall data,
  0 < size -> len data <= Z.of_nat fuel * size ->
  concat (chunks_loop fuel size data) = data /\ packed_by size (chunks_loop fuel size data) /\
  (length (chunks_loop fuel size data) <= fuel)%nat.
Proof.
  induction fuel as [|fuel IH]; intros data Hsize Hl.
  { destruct data as [|b data]; [by repeat split|]. rewrite len_cons in Hl. pose proof (len_nonneg data). lia. }
  destruct data as [|b data]; [repeat split; simpl; lia|]. cbn [chunks_loop]. set (all := b :: data) in *.
  set (first := take (Z.to_nat size) all). set (rest := drop (Z.to_nat size) all).
  assert (first ++ rest = all) as Hall by apply take_drop.
  assert (len first = Z.min size (len all)) as Hfirst.
  { unfold first, len. rewrite length_take. lia. }
  assert (len rest = len all - len first) as Hrest by (rewrite <-Hall, len_app; lia).
  assert (1 <= len all) as Hpos by (unfold all; rewrite len_cons; pose proof (len_nonneg data); lia).
  destruct (IH rest Hsize) as (C & P & L); [nia|]. split; [simpl; by rewrite C|]. split; [|simpl; lia].
  destruct fuel as [|fuel']; [simpl; lia|]. destruct rest as [|b2 rest'] eqn:Er; [simpl; lia|].
  cbn [chunks_loop] in P |- *. simpl. split; [|exact P].
  rewrite len_cons in Hrest. pose proof (len_nonneg rest'). lia.
Qed.

Lemma chunks_spec data :
  concat (chunks PAYLOAD_SIZE data) = data /\ packed (chunks PAYLOAD_SIZE data) /\
  (length (chunks PAYLOAD_SIZE data) <= chain_fuel (len data))%nat.
Proof.
  assert (PAYLOAD_SIZE = 16320) as HP by done. pose proof (len_nonneg data). unfold chunks, chain_fuel. apply chunks_loop_spec; [lia|].
  rewrite Z2Nat.id by (rewrite HP; apply Z.add_nonneg_nonneg; [apply Z.div_pos; lia|lia]).
  rewrite HP. pose proof (Z.mod_pos_bound (len data) 16320). pose proof (Z.div_mod (len data) 16320). lia.
Qed.

(** *** Storing a value *)
Lemma runs_store_chunks tree chunks : forall f Q,
  file_wf f -> packed chunks ->
  (forall f' id, file_wf f' -> file_le f f' -> chain (reader f') tree id chunks -> id < page_count f' -> Q f' id) ->
  runs (store_chunks tree chunks) f Q.
Proof.
  induction chunks as [|chunk chunks IH]; intros f Q Hwf Hpk HQ; cbn [store_chunks].
  - apply runs_ok; [done|]. apply HQ; [done|apply file_le_refl|done|].
    destruct Hwf as [[[Hc _] _] _]. cbn in Hc. lia.
  - destruct (packed_step _ _ Hpk) as (Hlen & Hpk' & _). apply runs_bind; [done|]. apply IH; [done..|].
    intros f1 link Hwf1 Hle1 Hch Hlink _ _. apply runs_bind; [done|].
    eapply runs_lift; [apply overflow_page_image; lia|done|]. intros _ _.
    apply runs_append; [done|apply len_chunk_body; lia|]. intros f2 Hwf2 Hle2 Hcount Hpage.
    destruct Hwf1 as [Hwf1 [Hn1 Hn2]]. apply HQ; [done|by eapply file_le_trans| |lia].
    exists link. assert (0 <= link) by (destruct chunks; [simpl in Hch; lia|destruct Hch as (? & ? & _); lia]).
    cbn [reader reader_count reader_file]. split; [lia|]. split; [lia|]. split; [done|]. split; [done|].
    eapply chain_le; [exact Hwf1|apply Hle2|done].
Qed.

Lemma runs_store_value tree value f (Q : PageFile -> Value -> Prop) :
  file_wf f -> len value <= MAX_VALUE ->
  (forall f' v, file_wf f' -> file_le f f' -> read_value (reader f') tree v = Ok value ->
     cell_wf (page_count f') {| cell_key := []; cell_value := v |} -> Q f' v) ->
  runs (store_value tree value) f Q.
Proof.
  intros Hwf Hlen HQ. unfold store_value. rewrite gtb_false by done.
  destruct (Z.leb_spec (len value) INLINE_LIMIT) as [Hin|Hover].
  - apply runs_ok; [done|]. by apply HQ; [|apply file_le_refl| |].
  - destruct (chunks_spec value) as (Hcat & Hpk & Hfuel). apply runs_bind; [done|].
    apply runs_store_chunks; [done..|]. intros f1 head Hwf1 Hle1 Hch Hhead _ _. apply runs_ok; [done|].
    assert (0 < head) as Hpos.
    { destruct (chunks PAYLOAD_SIZE value) as [|c cs]; [|by destruct Hch as (? & ? & _); lia].
      simpl in Hcat. subst value. rewrite len_nil in Hover. unfold INLINE_LIMIT in Hover. lia. }
    apply HQ; [done|done| |by split; [split|]]. unfold read_value, walk_overflow.
    rewrite !(proj2 (Z.leb_le _ _)) by lia. cbn [andb negb]. rewrite <-Hcat at 2.
    destruct (walk_loop_chain (reader f1) tree _ (chain_fuel (len value)) head ∅ [] (proj1 Hwf1) Hch Hpk Hfuel)
      as [owned' Hw]; [set_solver|]. rewrite Hw. cbn [bindR app]. by rewrite Hcat.
Qed.

(** ** Reads by a pinned reader and by later readers *)
Lemma walk_loop_le r r' tree fuel : forall id remaining owned output result,
  reader_wf r -> reader_le r r' -> 0 <= id ->
  walk_loop fuel r tree id remaining owned output = Ok result -> walk_loop fuel r' tree id remaining owned output = Ok result.
Proof.
  induction fuel as [|fuel IH]; intros id remaining owned output result Hwf Hle Hid Hw; cbn [walk_loop] in *;
    destruct (remaining =? 0); [done|done|done|].
  destruct (bool_decide _); [done|]. step_ok Hw as page eqn Hp. rewrite (read_le _ _ _ _ _ Hwf Hle Hid Hp). cbn [bindR].
  step_ok Hw as kind eqn Hk. rewrite Hk. cbn [bindR]. step_ok Hw as payload eqn Hpay. rewrite Hpay. cbn [bindR].
  destruct (_ || _); [done|]. step_ok Hw as data eqn Hd. rewrite Hd. cbn [bindR]. step_ok Hw as next eqn Hn. rewrite Hn. cbn [bindR].
  destruct (negb _); [done|]. apply IH; try done. apply uint_at_range in Hn; lia.
Qed.

Lemma read_value_le r r' tree v data :
  reader_wf r -> reader_le r r' -> (match v with Inline _ => True | Overflow _ head => 0 <= head end) ->
  read_value r tree v = Ok data -> read_value r' tree v = Ok data.
Proof.
  intros Hwf Hle Hv. destruct v as [d|length head]; simpl; [done|]. unfold walk_overflow. destruct (negb _); [done|].
  intros Hr. step_ok Hr as p eqn Hp. rewrite (walk_loop_le _ _ _ _ _ _ _ _ _ Hwf Hle Hv Hp). done.
Qed.
End Stored.
