(* ===== verification/Metadata.v ===== *)
(** * Genesis, manifest and CURRENT ([src/src/storage/metadata.rs])

    The metadata records that select a checkpoint, with the validation both
    their encoders and decoders apply.  Every file starts with a magic, a
    version and its length, and ends with a CRC.  Log segments themselves are
    read by the WAL, which is not modelled. *)
From S2P Require Import Prelude Errors Bytes Limits.

Definition GENESIS_LENGTH : Z := 180.
Definition MANIFEST_BASE_LENGTH : Z := 272.
Definition MAX_MANIFEST_LENGTH : Z := 16 * 1024 * 1024.
Definition DESCRIPTOR_LENGTH : Z := 96.
Definition SEGMENT_HEADER_LENGTH : Z := 96.
Definition MAX_RECORD_LENGTH : Z := 64 * 1024 * 1024.

(** [wal::BLOCK_BYTES], [wal::GROUP_OVERHEAD], [wal::MAX_GROUP_RECORDS] *)
Definition BLOCK_BYTES : Z := 4096.
Definition GROUP_OVERHEAD : Z := 112 + 56.
Definition MAX_GROUP_RECORDS : Z := 64.

Record Genesis : Type := { genesis_database_id : bytes; initial_policy : LimitPolicy }.

Record SegmentDescriptor : Type := {
  segment_id : Z; first_sequence : Z; last_sequence : Z; committed_bytes : Z;
  predecessor_digest : bytes; last_digest : bytes }.
#[export] Instance SegmentDescriptor_eq_dec : EqDecision SegmentDescriptor.
Proof. solve_decision. Defined.

Record Manifest : Type := {
  database_id : bytes; genesis_digest : bytes; cursor_namespace : bytes;
  generation : Z; page_file_id : Z; manifest_page_count : Z;
  manifest_checkpoint_sequence : Z; checkpoint_digest : bytes;
  durable_sequence : Z; durable_digest : bytes;
  history_floor : Z; log_floor : Z; next_cursor_id : Z; next_segment_id : Z; next_page_file_id : Z;
  manifest_roots : list Z; segments : list SegmentDescriptor }.

Record Current : Type := { current_generation : Z; current_digest : bytes }.

Definition valid_id (id : Z) : bool := negb (id =? 0) && negb (id =? u64_max).

Definition metadata_prefix (magic : bytes) (length : Z) : bytes :=
  magic ++ le_bytes 2 1 ++ le_bytes 2 0 ++ le_bytes 4 length.

Definition genesis_magic : bytes := String.list_byte_of_string "BLOPGN01".
Definition manifest_magic : bytes := String.list_byte_of_string "BLOPMF01".
Definition current_magic : bytes := String.list_byte_of_string "BLOPCU01".

(** [u128::div_ceil] *)
Definition div_ceil (a b : Z) : Z := (a + b - 1) / b.

Definition validate_descriptor (segment : SegmentDescriptor) : Result string unit :=
  if negb (valid_id (segment_id segment)) then Err "invalid segment ID"%string else
  if negb (valid_id (first_sequence segment)) || negb (valid_id (last_sequence segment))
     || (first_sequence segment >? last_sequence segment)
  then Err "invalid segment sequence range"%string else
  let* records := arith_u64 (last_sequence segment - first_sequence segment + 1) in
  let groups := div_ceil records MAX_GROUP_RECORDS in
  let minimum := div_ceil (records * 72 + groups * GROUP_OVERHEAD) BLOCK_BYTES * BLOCK_BYTES in
  let maximum := records * div_ceil (MAX_RECORD_LENGTH + GROUP_OVERHEAD) BLOCK_BYTES * BLOCK_BYTES in
  if negb (committed_bytes segment mod BLOCK_BYTES =? 0)
     || negb ((BLOCK_BYTES + minimum <=? committed_bytes segment)
              && (committed_bytes segment <=? BLOCK_BYTES + maximum))
  then Err "segment prefix length cannot contain its record range"%string else Ok tt.

Definition append_descriptor (segment : SegmentDescriptor) : bytes :=
  le_bytes 8 (segment_id segment) ++ le_bytes 8 (first_sequence segment) ++ le_bytes 8 (last_sequence segment)
  ++ le_bytes 8 (committed_bytes segment) ++ predecessor_digest segment ++ last_digest segment.

Definition SegmentDescriptor_encode (self : SegmentDescriptor) : Result StorageError bytes :=
  let* _ := map_err InvalidInput (validate_descriptor self) in
  Ok (append_descriptor self).

Definition SegmentDescriptor_decode (data : bytes) : Result StorageError SegmentDescriptor :=
  if negb (len data =? DESCRIPTOR_LENGTH) then Err (Corrupt "invalid segment descriptor length") else
  let* segment_id := uint_at data 8 0 in
  let* first := uint_at data 8 8 in
  let* last := uint_at data 8 16 in
  let* committed := uint_at data 8 24 in
  let* predecessor := slice_at data 32 64 in
  let* digest := slice_at data 64 96 in
  let descriptor := {| segment_id := segment_id; first_sequence := first; last_sequence := last;
                       committed_bytes := committed; predecessor_digest := predecessor; last_digest := digest |} in
  let* _ := map_err Corrupt (validate_descriptor descriptor) in
  Ok descriptor.

(** ** The manifest *)

(** No later root repeats an earlier one. *)
Fixpoint shared_root (before roots : list Z) : bool :=
  match roots with
  | [] => false
  | root :: roots => (negb (root =? 0) && existsb (Z.eqb root) before) || shared_root (before ++ [root]) roots
  end.

(** One turn of the loop over the segments: the next sequence, the last ID and
    the digest the segment must extend. *)
Definition validate_link (manifest : Manifest) (state : Z * Z * option bytes) (segment : SegmentDescriptor)
    : Result string (Z * Z * option bytes) :=
  let '(next_sequence, previous_id, predecessor) := state in
  let* _ := validate_descriptor segment in
  if (segment_id segment <=? previous_id) || (next_segment_id manifest <=? segment_id segment)
  then Err "segment IDs are not increasing below the next ID"%string else
  if negb (first_sequence segment =? next_sequence) then Err "segment sequence gap or overlap"%string else
  if match predecessor with
     | Some digest => negb (bool_decide (digest = predecessor_digest segment)) | None => false end
  then Err "segment predecessor digest mismatch"%string else
  let* following := arith_u64 (manifest_checkpoint_sequence manifest + 1) in
  if ((first_sequence segment =? following)
        && negb (bool_decide (predecessor_digest segment = checkpoint_digest manifest)))
     || ((last_sequence segment =? manifest_checkpoint_sequence manifest)
        && negb (bool_decide (last_digest segment = checkpoint_digest manifest)))
  then Err "segment checkpoint digest mismatch"%string else
  let* next := arith_u64 (last_sequence segment + 1) in
  Ok (next, segment_id segment, Some (last_digest segment)).

Definition validate_links (manifest : Manifest) : Result string unit :=
  let* durable := arith_u64 (durable_sequence manifest + 1) in
  if bool_decide (segments manifest = []) then
    if negb (durable_sequence manifest =? manifest_checkpoint_sequence manifest)
       || negb (log_floor manifest =? durable)
    then Err "empty log does not match manifest frontiers"%string else Ok tt
  else
    let* following := arith_u64 (manifest_checkpoint_sequence manifest + 1) in
    let predecessor :=
      if log_floor manifest =? 1 then Some (genesis_digest manifest)
      else if log_floor manifest =? following then Some (checkpoint_digest manifest) else None in
    let* (next_sequence, _, predecessor) :=
      foldR (validate_link manifest) (log_floor manifest, 0, predecessor) (segments manifest) in
    if negb (next_sequence =? durable) || negb (bool_decide (predecessor = Some (durable_digest manifest)))
    then Err "segments do not end at the durable frontier"%string else Ok tt.

Definition validate_manifest (manifest : Manifest) : Result string unit :=
  if len (segments manifest) >? (MAX_MANIFEST_LENGTH - MANIFEST_BASE_LENGTH) / DESCRIPTOR_LENGTH
  then Err "manifest exceeds the hard size ceiling"%string else
  if bool_decide (database_id manifest = zeros 16) || bool_decide (cursor_namespace manifest = zeros 16)
  then Err "zero database ID or cursor namespace"%string else
  if negb (valid_id (generation manifest)) || negb (valid_id (page_file_id manifest))
  then Err "invalid manifest generation or page file ID"%string else
  if (next_cursor_id manifest =? 0) || (next_segment_id manifest =? 0)
     || (next_page_file_id manifest <=? page_file_id manifest)
  then Err "invalid next ID"%string else
  if (manifest_page_count manifest =? 0) || (manifest_page_count manifest >? Z.shiftl 1 48)
  then Err "invalid page count"%string else
  let* policy_root := expect (manifest_roots manifest !! 2%nat) in
  if (policy_root =? 0) || existsb (fun root => manifest_page_count manifest <=? root) (manifest_roots manifest)
  then Err "invalid tree root"%string else
  if shared_root [] (manifest_roots manifest) then Err "different system trees share a root"%string else
  if (durable_sequence manifest =? u64_max)
     || (history_floor manifest >? manifest_checkpoint_sequence manifest)
     || (manifest_checkpoint_sequence manifest >? durable_sequence manifest)
  then Err "invalid manifest sequence frontiers"%string else
  let* following := arith_u64 (manifest_checkpoint_sequence manifest + 1) in
  if (log_floor manifest =? 0) || (log_floor manifest >? following) then Err "invalid log floor"%string else
  if ((manifest_checkpoint_sequence manifest =? 0)
        && negb (bool_decide (checkpoint_digest manifest = genesis_digest manifest)))
     || ((durable_sequence manifest =? 0) && negb (bool_decide (durable_digest manifest = genesis_digest manifest)))
     || ((manifest_checkpoint_sequence manifest =? durable_sequence manifest)
        && negb (bool_decide (checkpoint_digest manifest = durable_digest manifest)))
  then Err "inconsistent frontier digests"%string else
  validate_links manifest.

(** [as_chunks::<N>]: the whole chunks. *)
Definition as_chunks (n : Z) (data : bytes) : list bytes :=
  map (fun i => take (Z.to_nat n) (drop (i * Z.to_nat n) data)) (seq 0 (Z.to_nat (len data / n))).

Section Codecs.
Context `{Checksum}.

Definition append_crc (data : bytes) : bytes := data ++ le_bytes 4 (crc32c data).

Definition check_metadata (data magic : bytes) (format : string) (minimum maximum : Z) : Result StorageError unit :=
  if negb ((minimum <=? len data) && (len data <=? maximum)) then Err (Corrupt "invalid metadata length") else
  let* body := slice_at data 0 (len data - 4) in
  let* crc := uint_at data 4 (len data - 4) in
  if negb (crc32c body =? crc) then Err (Corrupt "metadata CRC mismatch") else
  let* found := slice_at data 0 8 in
  if negb (bool_decide (found = magic)) then Err (Corrupt "invalid metadata magic") else
  let* version := uint_at data 2 8 in
  let* _ := check_version version format in
  let* flags := uint_at data 2 10 in
  if negb (flags =? 0) then Err (Corrupt "nonzero metadata flags") else
  let* length := uint_at data 4 12 in
  if negb (length =? len data) then Err (Corrupt "metadata length mismatch") else Ok tt.

Definition Genesis_encode (self : Genesis) : Result StorageError bytes :=
  if bool_decide (genesis_database_id self = zeros 16) then Err (InvalidInput "zero database ID") else
  Ok (append_crc (metadata_prefix genesis_magic GENESIS_LENGTH ++ genesis_database_id self
                  ++ le_bytes 4 POLICY_LENGTH ++ LimitPolicy_encode (initial_policy self))).

Definition Genesis_decode (data : bytes) : Result StorageError Genesis :=
  let* _ := check_metadata data genesis_magic "genesis" GENESIS_LENGTH GENESIS_LENGTH in
  let* length := uint_at data 4 32 in
  if negb (length =? POLICY_LENGTH) then Err (Corrupt "invalid genesis policy blob length") else
  let* database_id := slice_at data 16 32 in
  if bool_decide (database_id = zeros 16) then Err (Corrupt "zero database ID") else
  let* policy := slice_at data 36 176 in
  let* policy := LimitPolicy_decode policy in
  Ok {| genesis_database_id := database_id; initial_policy := policy |}.

(** The bytes of [Manifest::encode] between the prefix and the CRC. *)
Definition manifest_fields (self : Manifest) : bytes :=
  database_id self ++ genesis_digest self ++ cursor_namespace self
  ++ le_bytes 8 (generation self) ++ le_bytes 8 (page_file_id self) ++ le_bytes 8 (manifest_page_count self)
  ++ le_bytes 8 (manifest_checkpoint_sequence self) ++ checkpoint_digest self
  ++ le_bytes 8 (durable_sequence self) ++ durable_digest self
  ++ le_bytes 8 (history_floor self) ++ le_bytes 8 (log_floor self) ++ le_bytes 8 (next_cursor_id self)
  ++ le_bytes 8 (next_segment_id self) ++ le_bytes 8 (next_page_file_id self)
  ++ concat (map (le_bytes 8) (manifest_roots self))
  ++ le_bytes 4 (len (segments self)) ++ concat (map append_descriptor (segments self)).

Definition Manifest_encode (self : Manifest) : Result StorageError bytes :=
  let* _ := map_err InvalidInput (validate_manifest self) in
  let length := MANIFEST_BASE_LENGTH + len (segments self) * DESCRIPTOR_LENGTH in
  Ok (append_crc (metadata_prefix manifest_magic length ++ manifest_fields self)).

Definition Manifest_decode (data : bytes) : Result StorageError Manifest :=
  let* _ := check_metadata data manifest_magic "manifest" MANIFEST_BASE_LENGTH MAX_MANIFEST_LENGTH in
  let* count := uint_at data 4 264 in
  if negb (count * DESCRIPTOR_LENGTH + MANIFEST_BASE_LENGTH =? len data)
  then Err (Corrupt "invalid manifest segment vector length") else
  let* vector := slice_at data 268 (len data - 4) in
  let* segments := mapR SegmentDescriptor_decode (as_chunks DESCRIPTOR_LENGTH vector) in
  let* database_id := slice_at data 16 32 in
  let* genesis_digest := slice_at data 32 64 in
  let* cursor_namespace := slice_at data 64 80 in
  let* generation := uint_at data 8 80 in
  let* page_file_id := uint_at data 8 88 in
  let* page_count := uint_at data 8 96 in
  let* checkpoint_sequence := uint_at data 8 104 in
  let* checkpoint_digest := slice_at data 112 144 in
  let* durable_sequence := uint_at data 8 144 in
  let* durable_digest := slice_at data 152 184 in
  let* history_floor := uint_at data 8 184 in
  let* log_floor := uint_at data 8 192 in
  let* next_cursor_id := uint_at data 8 200 in
  let* next_segment_id := uint_at data 8 208 in
  let* next_page_file_id := uint_at data 8 216 in
  let* roots := mapR (fun index => uint_at data 8 (224 + Z.of_nat index * 8)) (seq 0 5) in
  let manifest :=
    {| database_id := database_id; genesis_digest := genesis_digest; cursor_namespace := cursor_namespace;
       generation := generation; page_file_id := page_file_id; manifest_page_count := page_count;
       manifest_checkpoint_sequence := checkpoint_sequence; checkpoint_digest := checkpoint_digest;
       durable_sequence := durable_sequence; durable_digest := durable_digest;
       history_floor := history_floor; log_floor := log_floor; next_cursor_id := next_cursor_id;
       next_segment_id := next_segment_id; next_page_file_id := next_page_file_id;
       manifest_roots := roots; segments := segments |} in
  let* _ := map_err Corrupt (validate_manifest manifest) in
  Ok manifest.

Definition Current_encode (self : Current) : Result StorageError bytes :=
  if negb (valid_id (current_generation self)) then Err (InvalidInput "invalid current manifest generation") else
  let data := zeros 64 in
  let* data := copy_at data 0 current_magic in
  let* data := copy_at data 8 (le_bytes 2 1) in
  let* data := copy_at data 12 (le_bytes 4 64) in
  let* data := copy_at data 16 (le_bytes 8 (current_generation self)) in
  let* data := copy_at data 24 (current_digest self) in
  let* body := slice_at data 0 60 in
  copy_at data 60 (le_bytes 4 (crc32c body)).

Definition Current_decode (data : bytes) : Result StorageError Current :=
  let* _ := check_metadata data current_magic "current" 64 64 in
  let* reserved := uint_at data 4 56 in
  if negb (reserved =? 0) then Err (Corrupt "nonzero current reserved field") else
  let* generation := uint_at data 8 16 in
  if negb (valid_id generation) then Err (Corrupt "invalid current manifest generation") else
  let* digest := slice_at data 24 56 in
  Ok {| current_generation := generation; current_digest := digest |}.
End Codecs.
