(* ===== verification/MetadataFacts.v ===== *)
(** * The metadata codecs

    Genesis, manifest and CURRENT files determine their records and are
    determined by them: decoding accepts exactly the bytes encoding produces. *)
From S2P Require Import Prelude Errors Bytes Limits Metadata.

(** ** Chunks *)
Lemma as_chunks_cons n (a rest : bytes) : 0 < n -> len a = n -> as_chunks n (a ++ rest) = a :: as_chunks n rest.
Proof.
  intros Hn Ha. unfold as_chunks. rewrite len_app, Ha.
  replace (n + len rest) with (1 * n + len rest) by lia. rewrite Z.div_add_l by lia.
  pose proof (Z.div_pos (len rest) n (len_nonneg _) Hn). rewrite Z2Nat.inj_add by lia. change (seq 0 (Z.to_nat 1 + Z.to_nat (len rest / n))) with (0%nat :: seq 1 (Z.to_nat (len rest / n))). cbn [map].
  rewrite Nat.mul_0_l, drop_0, <-Ha, take_len_app. f_equal. rewrite <-seq_shift, map_map. apply map_ext. intros i.
  rewrite Nat.mul_succ_l, Nat.add_comm. rewrite <-drop_drop. by rewrite drop_len_app.
Qed.

Lemma as_chunks_nil n : as_chunks n [] = [].
Proof. unfold as_chunks. by rewrite Zdiv_0_l. Qed.

Lemma as_chunks_concat n ls : 0 < n -> Forall (fun l => len l = n) ls -> as_chunks n (concat ls) = ls.
Proof.
  intros Hn. induction 1 as [|l ls Hl _ IH]; [apply as_chunks_nil|]. simpl. by rewrite as_chunks_cons, IH.
Qed.

Lemma concat_as_chunks n k : forall data, 0 < n -> len data = Z.of_nat k * n ->
  concat (as_chunks n data) = data /\ Forall (fun l => len l = n) (as_chunks n data).
Proof.
  induction k as [|k IH]; intros data Hn Hl.
  - destruct data; [|rewrite len_cons in Hl; pose proof (len_nonneg data); lia]. by rewrite as_chunks_nil.
  - destruct (split_len n data) as (a & rest & -> & Ha); [lia|]. rewrite len_app in Hl. rewrite as_chunks_cons by done.
    destruct (IH rest) as [E F]; [done|lia|]. simpl. rewrite E. split; [done|by constructor].
Qed.

Section MetadataFacts.
Context `{Checksum}.

(** ** Prefix and checksum *)
Lemma crc_u32 data : 0 <= crc32c data < 256 ^ 4.
Proof. pose proof (crc32c_range data). unfold u32_max in *. change (256 ^ 4) with 4294967296. lia. Qed.

Lemma check_metadata_iff data magic format lo hi :
  len magic = 8 -> 20 <= lo -> hi < 256 ^ 4 ->
  check_metadata data magic format lo hi = Ok tt <->
  lo <= len data <= hi /\ exists body, data = append_crc (metadata_prefix magic (len data) ++ body).
Proof.
  intros Hm Hlo Hhi. unfold check_metadata. split.
  - intros Hc. step_if Hc eqn Hlen. apply negb_false_iff, andb_true_iff in Hlen as [L1%Z.leb_le L2%Z.leb_le].
    split; [done|]. destruct (split_len (len data - 4) data) as (main & crc & Hdata & Hmain); [lia|].
    assert (len crc = 4) as Hcrc by (rewrite Hdata, len_app in Hmain; lia).
    set (n := len data) in *. clearbody n. subst data. rewrite <-Hmain in Hc.
    step_ok Hc as body eqn Hb. rewrite slice_at_here in Hb by done. injection Hb as <-.
    step_ok Hc as found eqn Hf. rewrite <-(app_nil_r crc) in Hf. raw_read Hf.
    step_if Hc eqn Hsum. apply negb_false_iff, Z.eqb_eq in Hsum. rewrite <-Hf in Hsum.
    assert (crc = le_bytes 4 (crc32c main)) as -> by (rewrite Hsum; by apply field_bytes).
    cut_field Hmain 8 m rest Hl8. cut_field Hmain 2 v rest2 Hv. cut_field Hmain 2 fl rest3 Hfl. cut_field Hmain 4 ln body Hln.
    rewrite <-!app_assoc in Hc. step_ok Hc as got eqn Hgot. rewrite slice_at_here in Hgot by lia. injection Hgot as <-.
    step_if Hc eqn Hmagic. apply negb_false_iff, bool_decide_eq_true_1 in Hmagic as ->.
    step_ok Hc as version eqn Hver. raw_read Hver. step_ok Hc as u eqn Hchk. unfold check_version in Hchk.
    step_if Hchk eqn Hv1. apply negb_false_iff, Z.eqb_eq in Hv1.
    step_ok Hc as flags eqn Hflags. raw_read Hflags. step_if Hc eqn Hf0. apply negb_false_iff, Z.eqb_eq in Hf0.
    step_ok Hc as length eqn Hlength. raw_read Hlength. step_if Hc eqn Hl0. apply negb_false_iff, Z.eqb_eq in Hl0.
    exists body. unfold append_crc, metadata_prefix.
    rewrite (field_bytes v 2), (field_bytes fl 2), (field_bytes ln 4) by done.
    rewrite Hver, Hv1, Hflags, Hf0, Hlength, Hl0. by rewrite <-!app_assoc.
  - intros ([L1 L2] & body & Hdata). set (n := len data) in *.
    set (main := metadata_prefix magic n ++ body) in *.
    assert (len main = n - 4) as Hmain.
    { unfold n. rewrite Hdata. unfold append_crc. autorewrite with blop. lia. }
    rewrite !(proj2 (Z.leb_le _ _)) by done. cbn [andb negb]. clearbody n. subst data. unfold append_crc. rewrite <-Hmain.
    rewrite slice_at_here by done. cbn [bindR]. rewrite <-(app_nil_r (le_bytes 4 _)), uint_at_app by (done || apply crc_u32). cbn [bindR].
    rewrite Z.eqb_refl. cbn [negb]. unfold main, metadata_prefix. rewrite <-!app_assoc, slice_at_here by done.
    cbn [bindR]. rewrite bool_decide_true by done. cbn [negb]. field_skip. rewrite uint_at_here by (rewrite ?Hm; done). cbn [bindR].
    unfold check_version. cbn [Z.eqb Pos.eqb negb bindR]. field_skip. rewrite uint_at_here by (autorewrite with blop; rewrite ?Hm; done).
    cbn [Z.eqb negb bindR]. field_skip. rewrite uint_at_here; [|autorewrite with blop; lia|done|lia].
    cbn [bindR]. rewrite Z.eqb_refl. done.
Qed.

(** ** Segment descriptors *)
Definition is_u64 (z : Z) : Prop := 0 <= z < 256 ^ 8.

Record descriptor_typed (s : SegmentDescriptor) : Prop := {
  typed_segment_id : is_u64 (segment_id s);
  typed_first : is_u64 (first_sequence s);
  typed_last : is_u64 (last_sequence s);
  typed_committed : is_u64 (committed_bytes s);
  typed_predecessor : len (predecessor_digest s) = 32;
  typed_last_digest : len (last_digest s) = 32 }.

Lemma len_descriptor s : descriptor_typed s -> len (append_descriptor s) = 96.
Proof. intros []. unfold append_descriptor. autorewrite with blop. lia. Qed.

Lemma from_le_u64 f : len f = 8 -> is_u64 (from_le f).
Proof. intros Hf. pose proof (from_le_range f) as Hr. rewrite Hf in Hr. exact Hr. Qed.

Lemma descriptor_decode_iff data s :
  SegmentDescriptor_decode data = Ok s <-> append_descriptor s = data /\ descriptor_typed s /\ validate_descriptor s = Ok tt.
Proof.
  unfold SegmentDescriptor_decode. split.
  - intros Hd. step_if Hd eqn Hlen. apply negb_false_iff, Z.eqb_eq in Hlen. unfold DESCRIPTOR_LENGTH in Hlen.
    cut_field Hlen 8 a p1 L1. cut_field Hlen 8 b p2 L2. cut_field Hlen 8 c p3 L3. cut_field Hlen 8 d p4 L4. cut_field Hlen 32 e f L5.
    step_ok Hd as sid eqn H1. raw_read H1. step_ok Hd as first eqn H2. raw_read H2. step_ok Hd as final eqn H3. raw_read H3.
    step_ok Hd as committed eqn H4. raw_read H4. step_ok Hd as pre eqn H5. raw_read H5.
    step_ok Hd as dig eqn H6. rewrite <-(app_nil_r f) in H6. raw_read H6. subst.
    step_ok Hd as u eqn Hv. apply map_err_ok in Hv. destruct u. injection Hd as <-. split; [|split; [|done]].
    + unfold append_descriptor. cbn. rewrite <-!field_bytes by done. done.
    + split; cbn; try (apply from_le_u64; done); done || lia.
  - intros (<- & Ht & Hv). rewrite len_descriptor by done. cbn [negb Z.eqb Pos.eqb DESCRIPTOR_LENGTH].
    destruct Ht as [T1 T2 T3 T4 T5 T6]. unfold is_u64 in *. unfold append_descriptor.
    rewrite uint_at_here by done. cbn [bindR]. field_skip. rewrite uint_at_here by done. cbn [bindR]. field_skip.
    rewrite uint_at_here by done. cbn [bindR]. field_skip. rewrite uint_at_here by done. cbn [bindR]. field_skip.
    rewrite slice_at_here by field_len. cbn [bindR]. field_skip. rewrite <-(app_nil_r (last_digest s)), slice_at_here by field_len.
    cbn [bindR]. destruct s. cbn in *. by rewrite Hv.
Qed.

(** ** Genesis *)
Lemma genesis_decode_iff data g :
  Genesis_decode data = Ok g <->
  Genesis_encode g = Ok data /\ len (genesis_database_id g) = 16 /\ policy_wf (initial_policy g).
Proof.
  unfold Genesis_decode, Genesis_encode. split.
  - intros Hd. step_ok Hd as u eqn Hc. destruct u. apply check_metadata_iff in Hc as ([L1 L2] & body & Hdata); [|done..].
    assert (len data = GENESIS_LENGTH) as Hlen by lia. rewrite Hlen in Hdata. subst data.
    unfold append_crc, metadata_prefix in Hlen. autorewrite with blop in Hlen. unfold GENESIS_LENGTH in Hlen.
    change (len genesis_magic) with 8 in Hlen. assert (len body = 160) as Hb by lia. clear Hlen L1 L2.
    unfold append_crc, metadata_prefix in Hd. set (crc := le_bytes 4 (crc32c _)) in Hd.
    assert (len crc = 4) as Hcrc by apply len_le_bytes. assert (len genesis_magic = 8) as Hm by done.
    cut_field Hb 16 db p1 D1. cut_field Hb 4 ln pol D2. rewrite <-!app_assoc in Hd.
    step_ok Hd as length eqn H1. raw_read H1. step_if Hd eqn Hl. apply negb_false_iff, Z.eqb_eq in Hl.
    step_ok Hd as found eqn H2. raw_read H2. step_if Hd eqn Hz. step_ok Hd as policy eqn H3. raw_read H3.
    step_ok Hd as parsed eqn H4. subst found policy. injection Hd as <-. cbn. rewrite Hz.
    apply LimitPolicy_decode_iff in H4 as [<- Hwf]. split; [|done]. do 2 f_equal.
    rewrite (field_bytes ln 4), H1, Hl by done. unfold metadata_prefix. by rewrite <-!app_assoc.
  - intros (He & Hdb & Hwf). step_if He eqn Hz. apply ok_inj in He as <-.
    assert (len (LimitPolicy_encode (initial_policy g)) = 140) as Hpol.
    { unfold LimitPolicy_encode. autorewrite with blop. rewrite len_words. destruct Hwf as [Hl _]. unfold len. rewrite Hl. done. }
    set (fields := genesis_database_id g ++ _).
    assert (len fields = 160) as Hf by (unfold fields; autorewrite with blop; lia).
    set (data := append_crc _).
    assert (len data = GENESIS_LENGTH) as Hlen.
    { unfold data, append_crc, metadata_prefix. autorewrite with blop. rewrite Hf. done. }
    rewrite (proj2 (check_metadata_iff data genesis_magic "genesis" GENESIS_LENGTH GENESIS_LENGTH eq_refl ltac:(done) ltac:(done))); cbn [bindR].
    2: { split; [rewrite Hlen; done|]. exists fields. by rewrite Hlen. }
    unfold data, append_crc, metadata_prefix. set (crc := le_bytes 4 (crc32c _)). unfold fields. rewrite <-!app_assoc.
    assert (len genesis_magic = 8) as Hm by done. field_skip. rewrite uint_at_here by (done || field_len). cbn [bindR].
    rewrite Z.eqb_refl. cbn [negb]. field_skip. rewrite slice_at_here by field_len. cbn [bindR]. rewrite Hz.
    field_skip. rewrite slice_at_here by field_len. cbn [bindR].
    rewrite (proj2 (LimitPolicy_decode_iff _ _) (conj eq_refl Hwf)). cbn [bindR]. by destruct g.
Qed.

(** ** Manifests *)
Record manifest_typed (m : Manifest) : Prop := {
  typed_database : len (database_id m) = 16;
  typed_genesis : len (genesis_digest m) = 32;
  typed_namespace : len (cursor_namespace m) = 16;
  typed_generation : is_u64 (generation m);
  typed_page_file : is_u64 (page_file_id m);
  typed_page_count : is_u64 (manifest_page_count m);
  typed_checkpoint : is_u64 (manifest_checkpoint_sequence m);
  typed_checkpoint_digest : len (checkpoint_digest m) = 32;
  typed_durable : is_u64 (durable_sequence m);
  typed_durable_digest : len (durable_digest m) = 32;
  typed_history : is_u64 (history_floor m);
  typed_log : is_u64 (log_floor m);
  typed_cursor : is_u64 (next_cursor_id m);
  typed_next_segment : is_u64 (next_segment_id m);
  typed_next_page_file : is_u64 (next_page_file_id m);
  typed_roots : length (manifest_roots m) = 5%nat;
  typed_root : Forall is_u64 (manifest_roots m);
  typed_segments : Forall descriptor_typed (segments m) }.

Lemma len_segments segs : Forall descriptor_typed segs -> len (concat (map append_descriptor segs)) = 96 * len segs.
Proof. induction 1 as [|s segs Hs _ IH]; [done|]. simpl. rewrite len_app, IH, len_descriptor, len_cons by done. lia. Qed.

(** The segment vector and its bytes. *)
Lemma segments_decode vector segs k :
  len vector = Z.of_nat k * 96 ->
  mapR SegmentDescriptor_decode (as_chunks DESCRIPTOR_LENGTH vector) = Ok segs ->
  concat (map append_descriptor segs) = vector /\ Forall descriptor_typed segs /\ len segs = Z.of_nat k.
Proof.
  intros Hl Hm. destruct (concat_as_chunks 96 k vector ltac:(lia) Hl) as [Hcat _]. rewrite <-Hcat. clear Hcat.
  assert (concat (map append_descriptor segs) = concat (as_chunks DESCRIPTOR_LENGTH vector) /\ Forall descriptor_typed segs) as [Hc Ht].
  { apply mapR_Forall2 in Hm. induction Hm as [|c s cs segs Hs _ [IH1 IH2]]; [by split|].
    apply descriptor_decode_iff in Hs as (<- & Ht & _). simpl. by rewrite IH1; split; [|constructor]. }
  split; [done|]. split; [done|]. apply len_segments in Ht as Hlen. rewrite Hc in Hlen.
  destruct (concat_as_chunks 96 k vector ltac:(lia) Hl) as [E _]. unfold DESCRIPTOR_LENGTH in Hlen. rewrite E in Hlen. lia.
Qed.

Lemma segments_encode segs :
  Forall descriptor_typed segs -> Forall (fun s => validate_descriptor s = Ok tt) segs ->
  mapR SegmentDescriptor_decode (as_chunks DESCRIPTOR_LENGTH (concat (map append_descriptor segs))) = Ok segs.
Proof.
  intros Ht Hv. rewrite as_chunks_concat; [|done|].
  - induction Ht as [|s segs Hs _ IH]; [done|]. apply Forall_cons_1 in Hv as [Hv0 Hv]. simpl.
    rewrite (proj2 (descriptor_decode_iff _ s)) by done. cbn [bindR]. by rewrite IH.
  - apply Forall_map. eapply Forall_impl; [exact Ht|]. intros s. apply len_descriptor.
Qed.

Lemma links_valid m state segs state' :
  foldR (validate_link m) state segs = Ok state' -> Forall (fun s => validate_descriptor s = Ok tt) segs.
Proof.
  revert state. induction segs as [|s segs IH]; intros [[next prev] pre] Hf; [constructor|]. cbn [foldR] in Hf.
  step_ok Hf as st eqn Hs. constructor; [|by eapply IH]. unfold validate_link in Hs. step_ok Hs as u eqn Hu. by destruct u.
Qed.

Lemma validate_manifest_inv m :
  validate_manifest m = Ok tt ->
  len (segments m) <= 174759 /\ Forall (fun s => validate_descriptor s = Ok tt) (segments m).
Proof.
  unfold validate_manifest. intros Hv. step_if Hv eqn Hmax. split.
  { rewrite Z.gtb_ltb in Hmax. apply Z.ltb_ge in Hmax.
    change ((MAX_MANIFEST_LENGTH - MANIFEST_BASE_LENGTH) / DESCRIPTOR_LENGTH) with 174759 in Hmax. exact Hmax. }
  clear Hmax. do 4 step_if Hv. step_ok Hv as policy eqn Hp. do 3 step_if Hv. step_ok Hv as following eqn Hf. do 2 step_if Hv.
  unfold validate_links in Hv. step_ok Hv as durable eqn Hd. destruct (bool_decide_reflect (segments m = [])) as [->|]; [constructor|].
  step_ok Hv as next eqn Hn. step_ok Hv as st eqn Hs. by eapply links_valid.
Qed.

Lemma check_encoded magic format lo hi n body :
  len magic = 8 -> 20 <= lo -> hi < 256 ^ 4 -> len body = n - 20 -> lo <= n <= hi ->
  check_metadata (append_crc (metadata_prefix magic n ++ body)) magic format lo hi = Ok tt.
Proof.
  intros Hm Hlo Hhi Hb Hn.
  assert (len (append_crc (metadata_prefix magic n ++ body)) = n) as Hl.
  { unfold append_crc, metadata_prefix. autorewrite with blop. lia. }
  apply check_metadata_iff; [done..|]. rewrite Hl. split; [done|]. by exists body.
Qed.

Lemma len_manifest_fields m : manifest_typed m -> len (manifest_fields m) = 252 + 96 * len (segments m).
Proof.
  intros T. unfold manifest_fields. autorewrite with blop. rewrite len_words, len_segments by apply T.
  rewrite (typed_database _ T), (typed_genesis _ T), (typed_namespace _ T), (typed_checkpoint_digest _ T), (typed_durable_digest _ T).
  unfold len at 1. rewrite (typed_roots _ T). lia.
Qed.

Lemma read_roots m data :
  manifest_typed m -> slice_at (E:=StorageError) data 224 264 = Ok (concat (map (le_bytes 8) (manifest_roots m))) ->
  mapR (fun index => uint_at (E:=StorageError) data 8 (224 + Z.of_nat index * 8)) (seq 0 5) = Ok (manifest_roots m).
Proof.
  intros T (pre & post & -> & Hpre & _)%slice_at_cut. pose proof (words_at (E:=StorageError) (manifest_roots m) pre post 224 0 (typed_root _ T) Hpre) as Hw.
  by rewrite (typed_roots _ T) in Hw.
Qed.

Lemma manifest_decode_encode m data : manifest_typed m -> Manifest_encode m = Ok data -> Manifest_decode data = Ok m.
Proof.
  intros T He. unfold Manifest_encode in He. step_ok He as u eqn Hv. destruct u. apply map_err_ok in Hv. apply ok_inj in He.
  destruct (validate_manifest_inv _ Hv) as [Hmax Hsegs]. pose proof (len_nonneg (segments m)) as Hpos.
  pose proof (len_manifest_fields _ T) as Hfl. set (n := MANIFEST_BASE_LENGTH + len (segments m) * DESCRIPTOR_LENGTH) in He.
  assert (n = 272 + len (segments m) * 96) as En by done.
  assert (check_metadata data manifest_magic "manifest" MANIFEST_BASE_LENGTH MAX_MANIFEST_LENGTH = Ok tt) as Hcheck.
  { rewrite <-He. apply check_encoded; [done..|lia|]. unfold MANIFEST_BASE_LENGTH, MAX_MANIFEST_LENGTH. lia. }
  set (crc := le_bytes 4 (crc32c (metadata_prefix manifest_magic n ++ manifest_fields m))).
  assert (len crc = 4) as Hcrc by apply len_le_bytes. assert (len manifest_magic = 8) as Hmagic by done.
  assert (data = metadata_prefix manifest_magic n ++ manifest_fields m ++ crc) as Hdata by (rewrite <-He; unfold append_crc; by rewrite <-app_assoc).
  assert (len data = n) as Hn by (rewrite Hdata; unfold metadata_prefix; autorewrite with blop; lia).
  pose proof T as [T1 T2 T3 T4 T5 T6 T7 T8 T9 T10 T11 T12 T13 T14 T15 T16 T17 T18]. unfold is_u64 in *.
  pose proof (len_words (manifest_roots m)) as Hroots. unfold len at 2 in Hroots. rewrite T16 in Hroots.
  pose proof (len_segments _ T18) as Hvec. clear He. clearbody crc n. unfold metadata_prefix, manifest_fields in Hdata. rewrite <-!app_assoc in Hdata.
  unfold Manifest_decode. rewrite Hcheck. cbn [bindR].
  take_field Hdata.
  rewrite Hn, (proj2 (Z.eqb_eq _ n)) by (rewrite En; unfold DESCRIPTOR_LENGTH, MANIFEST_BASE_LENGTH; lia). cbn [negb].
  take_field Hdata. rewrite segments_encode by done. cbn [bindR]. do 15 take_field Hdata.
  rewrite (read_roots m) by (done || read_field Hdata).
  cbn [bindR]. destruct m; cbn in *. by rewrite Hv.
Qed.

Lemma typed_words data words roots :
  mapR (fun index => uint_at (E:=StorageError) data 8 (224 + Z.of_nat index * 8)) (seq 0 5) = Ok roots ->
  slice_at (E:=StorageError) data 224 264 = Ok words ->
  concat (map (le_bytes 8) roots) = words /\ Forall is_u64 roots /\ length roots = 5%nat.
Proof.
  intros Hm (pre & post & -> & Hpre & Hw)%slice_at_cut. apply mapR_length in Hm as Hl. rewrite length_seq in Hl.
  assert (Forall is_u64 roots) as Hr.
  { apply mapR_Forall2 in Hm. apply Forall_lookup. intros i v Hv. destruct (Forall2_lookup_r _ _ _ _ _ Hm Hv) as (j & _ & Hj).
    by apply uint_at_range in Hj. }
  by apply words_at_inv in Hm as [Hc _].
Qed.

Lemma manifest_encode_decode m data : Manifest_decode data = Ok m -> manifest_typed m /\ Manifest_encode m = Ok data.
Proof.
  unfold Manifest_decode. intros Hd. step_ok Hd as u eqn Hc. destruct u.
  apply check_metadata_iff in Hc as ([L1 L2] & body & Hdata); [|done..]. set (n := len data) in *.
  assert (len body = n - 20) as Hb.
  { unfold n. rewrite Hdata. unfold append_crc, metadata_prefix. autorewrite with blop. change (len manifest_magic) with 8. lia. }
  unfold append_crc, metadata_prefix in Hdata. set (crc := le_bytes 4 (crc32c _)) in Hdata.
  assert (len crc = 4) as Hcrc by apply len_le_bytes. assert (len manifest_magic = 8) as Hm by done.
  assert (crc = le_bytes 4 (crc32c (metadata_prefix manifest_magic n ++ body))) as Ecrc by done. clearbody crc n.
  unfold MANIFEST_BASE_LENGTH, MAX_MANIFEST_LENGTH in L1, L2.
  cut_field Hb 16 db p1 D1. cut_field Hb 32 gd p2 D2. cut_field Hb 16 cn p3 D3. cut_field Hb 8 g p4 D4. cut_field Hb 8 pf p5 D5.
  cut_field Hb 8 pc p6 D6. cut_field Hb 8 cs p7 D7. cut_field Hb 32 cd p8 D8. cut_field Hb 8 ds p9 D9. cut_field Hb 32 dd p10 D10.
  cut_field Hb 8 hf p11 D11. cut_field Hb 8 lf p12 D12. cut_field Hb 8 nc p13 D13. cut_field Hb 8 ns p14 D14. cut_field Hb 8 np p15 D15.
  cut_field Hb 40 ro p16 D16. cut_field Hb 4 ct vector D17. rewrite <-!app_assoc in Hdata. subst data. take_raw Hd.
  step_if Hd eqn Hlen. apply negb_false_iff, Z.eqb_eq in Hlen. unfold DESCRIPTOR_LENGTH, MANIFEST_BASE_LENGTH in Hlen.
  take_raw Hd. step_ok Hd as segs eqn Hsegs. pose proof (from_le_range ct) as Hct.
  destruct (segments_decode vector segs (Z.to_nat (from_le ct))) as (Hvec & Hst & Hsl); [lia|done|]. clear Hsegs.
  do 15 take_raw Hd. step_ok Hd as roots eqn Hroots. apply typed_words with (words := ro) in Hroots as (Hro & Hrt & Hrl);
    [|field_skip; by rewrite slice_at_here by field_len].
  step_ok Hd as u eqn Hv. destruct u. apply map_err_ok in Hv. apply ok_inj in Hd as <-. split.
  - split; cbn; try done; by apply from_le_u64.
  - unfold Manifest_encode. rewrite Hv. cbn [map_err bindR]. unfold append_crc, MANIFEST_BASE_LENGTH, DESCRIPTOR_LENGTH, manifest_fields.
    cbn [database_id genesis_digest cursor_namespace generation page_file_id manifest_page_count manifest_checkpoint_sequence
      checkpoint_digest durable_sequence durable_digest history_floor log_floor next_cursor_id next_segment_id next_page_file_id
      manifest_roots segments].
    rewrite <-!field_bytes, Hro, Hvec by done.
    replace (272 + len segs * 96) with n by lia.
    replace (le_bytes 4 (len segs)) with ct by (rewrite Hsl, Z2Nat.id by lia; by apply field_bytes).
    rewrite <-Ecrc. unfold metadata_prefix. by rewrite <-!app_assoc.
Qed.

(** ** CURRENT *)
Definition current_body (c : Current) : bytes := le_bytes 8 (current_generation c) ++ current_digest c ++ zeros 4.

Lemma current_encode_image c :
  len (current_digest c) = 32 ->
  Current_encode c =
  if negb (valid_id (current_generation c)) then Err (InvalidInput "invalid current manifest generation")
  else Ok (append_crc (metadata_prefix current_magic 64 ++ current_body c)).
Proof.
  intros Hl. unfold Current_encode. destruct (negb _); [done|].
  change (zeros 64) with (zeros 8 ++ zeros 2 ++ zeros 2 ++ zeros 4 ++ zeros 8 ++ zeros 32 ++ zeros 4 ++ zeros 4).
  rewrite copy_at_here by done. cbn [bindR]. assert (len current_magic = 8) as Hm by done.
  field_skip. rewrite copy_at_here by field_len. cbn [bindR]. field_skip. rewrite copy_at_here by field_len. cbn [bindR].
  field_skip. rewrite copy_at_here by field_len. cbn [bindR]. field_skip. rewrite copy_at_here by field_len. cbn [bindR].
  set (data := current_magic ++ _). set (body := metadata_prefix current_magic 64 ++ current_body c).
  assert (data = body ++ zeros 4) as Hdata.
  { unfold data, body, metadata_prefix, current_body. rewrite (le_bytes_zero 2), <-!app_assoc. done. }
  assert (len body = 60) as Hb by (unfold body, metadata_prefix, current_body; autorewrite with blop; rewrite Hl; done).
  rewrite Hdata, slice_at_here by lia. cbn [bindR]. rewrite copy_at_skip, Hb by lia. rewrite <-(app_nil_r (zeros 4)).
  rewrite copy_at_here by (rewrite ?len_le_bytes; done). cbn [bindR]. by rewrite app_nil_r.
Qed.

Definition current_typed (c : Current) : Prop := is_u64 (current_generation c) /\ len (current_digest c) = 32.

Lemma current_decode_iff data c :
  Current_decode data = Ok c <-> Current_encode c = Ok data /\ current_typed c.
Proof.
  unfold Current_decode. split.
  - intros Hd. step_ok Hd as u eqn Hc. destruct u. apply check_metadata_iff in Hc as ([L1 L2] & body & Hdata); [|done..].
    assert (len data = 64) as Hlen by lia. rewrite Hlen in Hdata. clear L1 L2. subst data.
    unfold append_crc, metadata_prefix in Hlen, Hd. autorewrite with blop in Hlen. change (len current_magic) with 8 in Hlen.
    assert (len body = 44) as Hb by lia. clear Hlen. set (crc := le_bytes 4 (crc32c _)) in Hd.
    assert (len crc = 4) as Hcrc by apply len_le_bytes. assert (len current_magic = 8) as Hm by done.
    cut_field Hb 8 g p1 D1. cut_field Hb 32 d z D2. rewrite <-!app_assoc in Hd. clearbody crc.
    step_ok Hd as reserved eqn H1. raw_read H1. step_if Hd eqn Hz. apply negb_false_iff, Z.eqb_eq in Hz. take_raw Hd.
    step_if Hd eqn Hv. take_raw Hd. apply ok_inj in Hd as <-. split; [|by split; [apply from_le_u64|]].
    rewrite current_encode_image by done. cbn [current_generation current_digest]. rewrite Hv. do 3 f_equal. unfold current_body. cbn.
    assert (z = zeros 4) as -> by (rewrite (field_bytes z 4), H1, Hz by lia; apply le_bytes_zero). by rewrite <-field_bytes.
  - intros [He [Hg Hl]]. rewrite current_encode_image in He by done. destruct (negb (valid_id _)) eqn:Hv; [done|]. apply ok_inj in He.
    assert (len (current_body c) = 44) as Hb by (unfold current_body; autorewrite with blop; rewrite Hl; done).
    rewrite <-He at 1. rewrite check_encoded by (done || lia). cbn [bindR]. unfold append_crc, metadata_prefix, current_body in He.
    set (crc := le_bytes 4 (crc32c _)) in He. assert (len crc = 4) as Hcrc by apply len_le_bytes.
    assert (len current_magic = 8) as Hm by done. clearbody crc. rewrite <-!app_assoc in He. symmetry in He.
    assert (uint_at (E:=StorageError) data 4 56 = Ok 0) as R.
    { rewrite He. field_skip. by rewrite (uint_at_zeros 4) by field_len. }
    unfold is_u64 in Hg. rewrite R. cbn [bindR Z.eqb negb]. take_field He. rewrite Hv. take_field He. by destruct c.
Qed.
End MetadataFacts.
