(* ===== verification/Wal.v ===== *)
(** * Commit groups and the record reader ([src/src/storage/wal.rs])

    Version 1 segments: the segment header, the framing of commit groups, the
    validation of canonical records ([src/src/storage/metadata.rs]) and the
    reader that walks a committed prefix.  A reader's state is the bytes it has
    yet to read; reads return what the file holds.  Running digests are the
    bytes they have absorbed: [crc32c_append] continues a checksum and
    [Sha256::update] a hash over the concatenation. *)
From S2P Require Import Prelude Errors Bytes Limits Metadata.

Definition SEGMENT_BYTES : Z := SEGMENT_HEADER_LENGTH.
Definition HEADER_BYTES : Z := 112.
Definition TRAILER_BYTES : Z := 56.
Definition MAX_RECORD_BYTES : Z := 64 * 1024 * 1024.

Definition group_bytes (bytes : Z) : Result StorageError Z :=
  let padded := div_ceil bytes BLOCK_BYTES * BLOCK_BYTES in
  if padded >? u64_max then Err (Corrupt "WAL padded length overflow") else Ok padded.

(** [metadata::read_committed]: the bytes read and the rest. *)
Definition read_committed (input : bytes) (n : Z) : Result StorageError (bytes * bytes) :=
  ok_or (Corrupt "truncated committed log prefix") (split_at n input).

Definition read_padding (input : bytes) (length : Z) : Result StorageError bytes :=
  if length >? BLOCK_BYTES then Err (Corrupt "invalid WAL padding length") else
  let* (padding, input) := read_committed input length in
  if any_nonzero padding then Err (Corrupt "nonzero WAL padding") else Ok input.

Record GroupHeader : Type := {
  group_length : Z; group_first : Z; group_count : Z; group_predecessor : bytes; group_digest : bytes }.

Definition valid_group (header : GroupHeader) : bool :=
  (1 <=? group_count header) && (group_count header <=? MAX_GROUP_RECORDS)
  && negb (group_first header =? 0)
  && (group_first header + group_count header <=? u64_max)
  && (GROUP_OVERHEAD + group_count header * 72 <=? group_length header)
  && (group_length header <=? GROUP_OVERHEAD + group_count header * MAX_RECORD_BYTES).

Definition group_magic : bytes := String.list_byte_of_string "BLOPWG01".
Definition trailer_magic : bytes := String.list_byte_of_string "BLOPGE01".
Definition segment_magic : bytes := String.list_byte_of_string "BLOPLG01".
Definition record_magic : bytes := String.list_byte_of_string "BLR1".

Section Wal.
Context `{Checksum} `{Sha256}.

Definition segment_crc_valid (header : bytes) : Result StorageError bool :=
  let* prefix := slice_at header 0 92 in
  let* crc := uint_at header 4 92 in
  Ok (crc32c (prefix ++ zeros 4) =? crc).

Definition GroupHeader_encode (self : GroupHeader) : Result StorageError bytes :=
  if negb (valid_group self) then Err (InvalidInput "invalid WAL group bounds") else
  let data := zeros HEADER_BYTES in
  let* data := copy_at data 0 group_magic in
  let* data := copy_at data 8 (le_bytes 2 1) in
  let* data := copy_at data 12 (le_bytes 4 HEADER_BYTES) in
  let* data := copy_at data 16 (le_bytes 8 (group_length self)) in
  let* data := copy_at data 24 (le_bytes 8 (group_first self)) in
  let* data := copy_at data 32 (le_bytes 4 (group_count self)) in
  let* data := copy_at data 40 (group_predecessor self) in
  let* data := copy_at data 72 (group_digest self) in
  let* prefix := slice_at data 0 108 in
  copy_at data 108 (le_bytes 4 (crc32c prefix)).

Definition GroupHeader_decode (data : bytes) : Result StorageError GroupHeader :=
  let* prefix := slice_at data 0 108 in
  let* crc := uint_at data 4 108 in
  if negb (crc32c prefix =? crc) then Err (Corrupt "WAL group header CRC mismatch") else
  let* magic := slice_at data 0 8 in
  if negb (bool_decide (magic = group_magic)) then Err (Corrupt "invalid WAL group magic") else
  let* version := uint_at data 2 8 in
  if negb (version =? 1) then Err (StorageUnsupported "WAL group" version) else
  let* flags := slice_at data 10 12 in
  let* length := uint_at data 4 12 in
  let* reserved := slice_at data 36 40 in
  let* unused := slice_at data 104 108 in
  if negb (bool_decide (flags = zeros 2)) || negb (length =? HEADER_BYTES)
     || negb (bool_decide (reserved = zeros 4)) || negb (bool_decide (unused = zeros 4))
  then Err (Corrupt "invalid WAL group header fields") else
  let* bytes := uint_at data 8 16 in
  let* first := uint_at data 8 24 in
  let* count := uint_at data 4 32 in
  let* predecessor := slice_at data 40 72 in
  let* digest := slice_at data 72 104 in
  let header := {| group_length := bytes; group_first := first; group_count := count;
                   group_predecessor := predecessor; group_digest := digest |} in
  if negb (valid_group header) then Err (Corrupt "invalid WAL group bounds") else Ok header.

Definition trailer (length : Z) (digest : bytes) : Result StorageError bytes :=
  let data := zeros TRAILER_BYTES in
  let* data := copy_at data 0 trailer_magic in
  let* data := copy_at data 8 (le_bytes 8 length) in
  let* data := copy_at data 16 digest in
  let* prefix := slice_at data 0 52 in
  copy_at data 52 (le_bytes 4 (crc32c prefix)).

Definition segment_header (database : bytes) (segment : SegmentDescriptor) : Result StorageError bytes :=
  let data := zeros BLOCK_BYTES in
  let* data := copy_at data 0 segment_magic in
  let* data := copy_at data 8 (le_bytes 2 1) in
  let* data := copy_at data 10 (le_bytes 2 96) in
  let* data := copy_at data 16 database in
  let* data := copy_at data 32 (le_bytes 8 (segment_id segment)) in
  let* data := copy_at data 40 (le_bytes 8 (first_sequence segment)) in
  let* data := copy_at data 48 (predecessor_digest segment) in
  let* prefix := slice_at data 0 SEGMENT_BYTES in
  copy_at data 92 (le_bytes 4 (crc32c prefix)).

(** [metadata::validate_segment_header] *)
Definition validate_segment_header (header database : bytes) (segment : SegmentDescriptor) : Result StorageError unit :=
  let* valid := segment_crc_valid header in
  if negb valid then Err (Corrupt "log segment header CRC mismatch") else
  let* magic := slice_at header 0 8 in
  if negb (bool_decide (magic = segment_magic)) then Err (Corrupt "invalid log segment magic") else
  let* version := uint_at header 2 8 in
  let* _ := check_version version "log segment" in
  let* length := uint_at header 2 10 in
  let* flags := uint_at header 4 12 in
  let* reserved := slice_at header 80 92 in
  if negb (length =? 96) || negb (flags =? 0) || negb (bool_decide (reserved = zeros 12))
  then Err (Corrupt "invalid log segment header fields") else
  let* found := slice_at header 16 32 in
  let* id := uint_at header 8 32 in
  let* first := uint_at header 8 40 in
  let* predecessor := slice_at header 48 80 in
  if negb (bool_decide (found = database)) || negb (id =? segment_id segment)
     || negb (first =? first_sequence segment) || negb (bool_decide (predecessor = predecessor_digest segment))
  then Err (Corrupt "log segment header disagrees with manifest") else Ok tt.

(** The [while unread != 0] loop of [validate_record]: the rest of the input
    and the bytes absorbed. *)
Fixpoint read_body (fuel : nat) (input : bytes) (unread : Z) (absorbed : bytes) : Result StorageError (bytes * bytes) :=
  if unread =? 0 then Ok (input, absorbed) else
  match fuel with
  | O => Panic
  | S fuel =>
      let count := Z.min unread 8192 in
      let* (chunk, input) := read_committed input count in
      read_body fuel input (unread - count) (absorbed ++ chunk)
  end.

(** [metadata::validate_record]: the length and the digest. *)
Definition validate_record (input : bytes) (remaining sequence : Z) (predecessor : bytes)
    : Result StorageError (Z * bytes) :=
  if remaining <? 72 then Err (Corrupt "record crosses committed log prefix") else
  let* (header, input) := read_committed input 64 in
  let* length := uint_at header 4 8 in
  let* body_length := uint_at header 4 12 in
  if negb (length =? 72 + body_length) || (length >? MAX_RECORD_LENGTH) || (length >? remaining)
  then Err (Corrupt "invalid log record length") else
  let* (input, absorbed) := read_body (Z.to_nat (body_length / 8192 + 1)) input body_length header in
  let* (trailer, _) := read_committed input 8 in
  let* crc := uint_at trailer 4 0 in
  if negb (crc32c absorbed =? crc) then Err (Corrupt "log record CRC mismatch") else
  let* repeated := uint_at trailer 4 4 in
  if negb (repeated =? length) then Err (Corrupt "log record repeated length mismatch") else
  let* magic := slice_at header 0 4 in
  let* header_length := uint_at header 2 4 in
  if negb (bool_decide (magic = record_magic)) || negb (header_length =? 64)
  then Err (Corrupt "invalid log record header") else
  let* version := uint_at header 2 6 in
  let* _ := check_version version "log record" in
  let* kind := uint_at header 1 24 in
  let* flags := slice_at header 25 28 in
  let* reserved := slice_at header 60 64 in
  if negb ((1 <=? kind) && (kind <=? 3)) || negb (bool_decide (flags = zeros 3)) || negb (bool_decide (reserved = zeros 4))
  then Err (Corrupt "invalid log record kind, flags, or reserved fields") else
  if (kind =? 3) && negb (body_length =? POLICY_LENGTH) then Err (Corrupt "invalid SetLimits body length") else
  let* found := uint_at header 8 16 in
  let* link := slice_at header 28 60 in
  if negb (found =? sequence) || negb (bool_decide (link = predecessor))
  then Err (Corrupt "log record sequence or predecessor mismatch") else
  Ok (length, sha256 (absorbed ++ trailer)).

(** ** Reading a committed prefix *)
Record LogRecord : Type := { record_sequence : Z; record_digest : bytes; record_bytes : bytes }.

Record Group : Type := { group_header : GroupHeader; group_remaining : Z; group_records : Z; group_hash : bytes }.

(** [Records]: [log_input] is what its reader has yet to return. *)
Record Records : Type := {
  log_input : bytes; log_remaining : Z; log_sequence : Z; log_predecessor : bytes;
  log_last : Z; log_last_digest : bytes; log_group : option Group; log_done : bool }.

(** [read_canonical] *)
Definition read_canonical (input : bytes) (remaining sequence : Z) (predecessor : bytes)
    : Result StorageError (LogRecord * bytes) :=
  if remaining <? 72 then Err (Corrupt "record crosses committed log prefix") else
  let* (header, input) := read_committed input 64 in
  let* length := uint_at header 4 8 in
  if negb ((72 <=? length) && (length <=? MAX_RECORD_BYTES)) || (length >? remaining)
  then Err (Corrupt "invalid log record length") else
  let* (body, input) := read_committed input (length - 64) in
  let data := header ++ body in
  let* (_, digest) := validate_record data length sequence predecessor in
  Ok ({| record_sequence := sequence; record_digest := digest; record_bytes := data |}, input).

(** [Records::suffix] *)
Definition Records_suffix (file database : bytes) (segment : SegmentDescriptor) (offset first : Z) (predecessor : bytes)
    : Result StorageError Records :=
  let* _ := map_err Corrupt (validate_descriptor segment) in
  let* (header, input) := read_committed file 96 in
  let* _ := validate_segment_header header database segment in
  let* _ := read_padding input (BLOCK_BYTES - SEGMENT_BYTES) in
  if (offset <? BLOCK_BYTES) || (offset >? committed_bytes segment)
     || (first <? first_sequence segment) || (first >? last_sequence segment)
     || negb (offset mod BLOCK_BYTES =? 0)
  then Err (Corrupt "invalid log reader prefix") else
  let remaining := committed_bytes segment - offset in
  Ok {| log_input := take (Z.to_nat remaining) (drop (Z.to_nat offset) file); log_remaining := remaining;
        log_sequence := first; log_predecessor := predecessor; log_last := last_sequence segment;
        log_last_digest := last_digest segment; log_group := None; log_done := false |}.

(** [Records::new] *)
Definition Records_new (file database : bytes) (segment : SegmentDescriptor) : Result StorageError Records :=
  Records_suffix file database segment BLOCK_BYTES (first_sequence segment) (predecessor_digest segment).

(** The [if records.group.is_none()] block of [next_record]. *)
Definition open_group (records : Records) : Result StorageError (Records * Group) :=
  if log_remaining records <? GROUP_OVERHEAD then Err (Corrupt "truncated committed WAL group") else
  let* (data, input) := read_committed (log_input records) HEADER_BYTES in
  let* header := GroupHeader_decode data in
  let* padded := group_bytes (group_length header) in
  let* last := arith_u64 (group_first header + group_count header - 1) in
  if (padded >? log_remaining records) || negb (group_first header =? log_sequence records)
     || negb (bool_decide (group_predecessor header = log_predecessor records)) || (last >? log_last records)
  then Err (Corrupt "WAL group does not match committed prefix") else
  let* remaining := arith_u64 (log_remaining records - HEADER_BYTES) in
  let* unread := arith_u64 (group_length header - GROUP_OVERHEAD) in
  Ok ({| log_input := input; log_remaining := remaining; log_sequence := log_sequence records;
         log_predecessor := log_predecessor records; log_last := log_last records;
         log_last_digest := log_last_digest records; log_group := None; log_done := log_done records |},
      {| group_header := header; group_remaining := unread; group_records := group_count header; group_hash := data |}).

(** The [if group.records == 0] block of [next_record]: the rest of the input
    and of the prefix. *)
Definition close_group (group : Group) (digest input : bytes) (remaining : Z) : Result StorageError (bytes * Z) :=
  let header := group_header group in
  if negb (group_remaining group =? 0) || negb (bool_decide (digest = group_digest header))
  then Err (Corrupt "WAL group endpoint mismatch") else
  let* (data, input) := read_committed input TRAILER_BYTES in
  let* expected := trailer (group_length header) (sha256 (group_hash group)) in
  if negb (bool_decide (data = expected)) then Err (Corrupt "WAL group trailer or digest mismatch") else
  let* remaining := arith_u64 (remaining - TRAILER_BYTES) in
  let* padded := group_bytes (group_length header) in
  let* padding := arith_u64 (padded - group_length header) in
  let* input := read_padding input padding in
  let* remaining := arith_u64 (remaining - padding) in
  Ok (input, remaining).

Definition next_record (records : Records) : Result StorageError (LogRecord * Records) :=
  let* (records, group) :=
    match log_group records with Some group => Ok (records, group) | None => open_group records end in
  let* (record, input) :=
    read_canonical (log_input records) (group_remaining group) (log_sequence records) (log_predecessor records) in
  let length := len (record_bytes record) in
  let* remaining := arith_u64 (log_remaining records - length) in
  let* sequence := arith_u64 (log_sequence records + 1) in
  let* unread := arith_u64 (group_remaining group - length) in
  let* count := arith_u64 (group_records group - 1) in
  let group := {| group_header := group_header group; group_remaining := unread; group_records := count;
                  group_hash := group_hash group ++ record_bytes record |} in
  let* (input, remaining, open) :=
    if count =? 0 then
      let* (input, remaining) := close_group group (record_digest record) input remaining in
      Ok (input, remaining, None)
    else Ok (input, remaining, Some group) in
  let records := {| log_input := input; log_remaining := remaining; log_sequence := sequence;
                    log_predecessor := record_digest record; log_last := log_last records;
                    log_last_digest := log_last_digest records; log_group := open; log_done := log_done records |} in
  let* _ :=
    if sequence >? log_last records then
      if negb (remaining =? 0) || (match open with Some _ => true | None => false end)
      then Err (Corrupt "excess bytes inside committed log prefix") else
      if negb (bool_decide (record_digest record = log_last_digest records))
      then Err (Corrupt "log final digest mismatch") else Ok tt
    else Ok tt in
  Ok (record, records).

Definition finish_records (records : Records) : Records :=
  {| log_input := log_input records; log_remaining := log_remaining records; log_sequence := log_sequence records;
     log_predecessor := log_predecessor records; log_last := log_last records;
     log_last_digest := log_last_digest records; log_group := log_group records; log_done := true |}.

(** [Records::next] *)
Definition records_item (records : Records) : Records * option (Result StorageError LogRecord) :=
  if log_done records then (records, None) else
  match next_record records with
  | Ok (record, records) =>
      (if log_sequence records >? log_last records then finish_records records else records, Some (Ok record))
  | Err error => (finish_records records, Some (Err error))
  | Panic => (records, Some Panic)
  end.

(** [for record in records { f(record?)?; }] *)
Fixpoint for_records {S} (f : S -> LogRecord -> Result StorageError S) (fuel : nat) (state : S) (records : Records)
    : Result StorageError S :=
  match records_item records with
  | (_, None) => Ok state
  | (records, Some item) =>
      let* record := item in
      let* state := f state record in
      match fuel with
      | O => Panic
      | Datatypes.S fuel => for_records f fuel state records
      end
  end.

(** A record takes at least 72 bytes of the prefix. *)
Definition records_fuel (records : Records) : nat := Z.to_nat (log_remaining records / 72 + 1).

(** Every record of a segment, in order. *)
Definition segment_records (file database : bytes) (segment : SegmentDescriptor) : Result StorageError (list LogRecord) :=
  let* records := Records_new file database segment in
  for_records (fun state record => Ok (state ++ [record])) (records_fuel records) [] records.

(** [wal::validate_segment] *)
Definition validate_segment (file : bytes) (manifest : Manifest) (segment : SegmentDescriptor) : Result StorageError unit :=
  let* records := Records_new file (database_id manifest) segment in
  for_records (fun _ record =>
    if (record_sequence record =? manifest_checkpoint_sequence manifest)
       && negb (bool_decide (record_digest record = checkpoint_digest manifest))
    then Err (Corrupt "log checkpoint digest mismatch") else Ok tt) (records_fuel records) tt records.

(** [metadata::validate_logs] over the contents of the log files, by segment ID *)
Definition validate_logs (files : Z -> option bytes) (manifest : Manifest) : Result StorageError unit :=
  let* _ := map_err Corrupt (validate_manifest manifest) in
  foldR (fun _ segment =>
    let* file := ok_or (Corrupt "missing authoritative log segment") (files (segment_id segment)) in
    validate_segment file manifest segment) tt (segments manifest).
End Wal.
