(* ===== verification/WalFacts.v ===== *)
(** * What the log reader accepts

    The images of segment headers, group headers, trailers and records: each
    check accepts exactly its image. *)
From S2P Require Import Prelude Errors Bytes Limits Metadata MetadataFacts Wal.

(** ** Reads of a prefix *)
Lemma read_committed_ok input n a rest :
  0 <= n -> read_committed input n = Ok (a, rest) <-> input = a ++ rest /\ len a = n.
Proof. intros Hn. unfold read_committed. rewrite ok_or_ok. by apply split_at_Some. Qed.

Lemma read_committed_no_panic input n : no_panic (read_committed input n).
Proof. apply ok_or_no_panic. Qed.

Lemma read_padding_ok input n rest : 0 <= n -> read_padding input n = Ok rest <-> n <= BLOCK_BYTES /\ input = zeros n ++ rest.
Proof.
  intros Hn. unfold read_padding. destruct (Z.gtb_spec n BLOCK_BYTES); [split; [done|lia]|]. split.
  - intros Hp. step_ok Hp as [a tl] eqn Ha. apply read_committed_ok in Ha as [-> Hl]; [|done]. cbn [fst snd] in Hp.
    step_if Hp eqn Hz. apply ok_inj in Hp as <-. split; [done|]. by rewrite (any_nonzero_inv a), Hl by done.
  - intros [_ ->]. rewrite (proj2 (read_committed_ok _ n (zeros n) rest Hn)); [cbn [bindR]|by rewrite len_zeros].
    by rewrite any_nonzero_zeros.
Qed.

Lemma div_ceil_block n : 0 <= n -> n <= div_ceil n BLOCK_BYTES * BLOCK_BYTES < n + BLOCK_BYTES.
Proof. intros. unfold div_ceil, BLOCK_BYTES. pose proof (Z.div_mod (n + 4096 - 1) 4096 ltac:(lia)). pose proof (Z.mod_pos_bound (n + 4096 - 1) 4096). lia. Qed.

(** [checked_next_multiple_of], when it does not overflow. *)
Definition padded (n : Z) : Z := div_ceil n BLOCK_BYTES * BLOCK_BYTES.

Lemma group_bytes_ok n p : group_bytes n = Ok p <-> p = padded n /\ padded n <= u64_max.
Proof.
  unfold group_bytes. fold (padded n). destruct (Z.gtb_spec (padded n) u64_max).
  - split; [done|lia].
  - split; [by intros [= <-]|by intros [-> _]].
Qed.

Section Images.
Context `{Checksum} `{Sha256}.

Definition group_header_body (h : GroupHeader) : bytes :=
  group_magic ++ le_bytes 2 1 ++ zeros 2 ++ le_bytes 4 HEADER_BYTES ++ le_bytes 8 (group_length h)
  ++ le_bytes 8 (group_first h) ++ le_bytes 4 (group_count h) ++ zeros 4 ++ group_predecessor h ++ group_digest h ++ zeros 4.
Definition header_image (h : GroupHeader) : bytes := append_crc (group_header_body h).

Record group_typed (h : GroupHeader) : Prop := {
  typed_group_length : is_u64 (group_length h);
  typed_group_first : is_u64 (group_first h);
  typed_group_count : 0 <= group_count h < 256 ^ 4;
  typed_group_predecessor : len (group_predecessor h) = 32;
  typed_group_digest : len (group_digest h) = 32 }.

Lemma len_header_body h : group_typed h -> len (group_header_body h) = 108.
Proof. intros []. unfold group_header_body. change (len group_magic) with 8. assert (len group_magic = 8) by done. field_len. Qed.

Lemma len_append_crc data : len (append_crc data) = len data + 4.
Proof. unfold append_crc. autorewrite with blop. lia. Qed.

Lemma len_header_image h : group_typed h -> len (header_image h) = 112.
Proof. intros. unfold header_image. rewrite len_append_crc, len_header_body by done. done. Qed.

Lemma group_encode_image h :
  group_typed h ->
  GroupHeader_encode h = if negb (valid_group h) then Err (InvalidInput "invalid WAL group bounds") else Ok (header_image h).
Proof.
  intros T. unfold GroupHeader_encode. destruct (negb _); [done|]. pose proof (len_header_body _ T) as Hb. destruct T as [T1 T2 T3 T4 T5].
  change (zeros HEADER_BYTES) with
    (zeros 8 ++ zeros 2 ++ zeros 2 ++ zeros 4 ++ zeros 8 ++ zeros 8 ++ zeros 4 ++ zeros 4 ++ zeros 32 ++ zeros 32 ++ zeros 4 ++ zeros 4).
  rewrite copy_at_here by done. cbn [bindR]. assert (len group_magic = 8) as Hm by done.
  do 7 (field_skip; rewrite copy_at_here by field_len; cbn [bindR]).
  set (data := group_magic ++ _).
  assert (data = group_header_body h ++ zeros 4) as Hdata by (unfold data, group_header_body; by rewrite <-!app_assoc).
  rewrite Hdata, slice_at_here by lia. cbn [bindR]. rewrite copy_at_skip, Hb by lia. rewrite <-(app_nil_r (zeros 4)).
  rewrite copy_at_here by (rewrite ?len_le_bytes; done). cbn [bindR]. by rewrite app_nil_r.
Qed.

Lemma group_decode_iff data h :
  len data = HEADER_BYTES ->
  GroupHeader_decode data = Ok h <-> data = header_image h /\ group_typed h /\ valid_group h = true.
Proof.
  intros Hl. unfold GroupHeader_decode. assert (len group_magic = 8) as Hm by done. split.
  - intros Hd. destruct (split_len 108 data) as (main & crc & -> & Hmain); [rewrite Hl; done|]. rewrite len_app, Hmain in Hl.
    assert (len crc = 4) as Hcrc by (unfold HEADER_BYTES in Hl; lia). clear Hl.
    step_ok Hd as body eqn Hb. rewrite slice_at_here in Hb by done. apply ok_inj in Hb as <-.
    step_ok Hd as sum eqn Hs. rewrite <-(app_nil_r crc) in Hs. raw_read Hs. step_if Hd eqn Hsum.
    apply negb_false_iff, Z.eqb_eq in Hsum. rewrite <-Hs in Hsum.
    assert (crc = le_bytes 4 (crc32c main)) as Ecrc by (rewrite Hsum; by apply field_bytes). clear Hs Hsum sum.
    cut_field Hmain 8 mg p1 D1. cut_field Hmain 2 v p2 D2. cut_field Hmain 2 fl p3 D3. cut_field Hmain 4 ln p4 D4.
    cut_field Hmain 8 by0 p5 D5. cut_field Hmain 8 fi p6 D6. cut_field Hmain 4 ct p7 D7. cut_field Hmain 4 re p8 D8.
    cut_field Hmain 32 pr p9 D9. cut_field Hmain 32 dg z D10. rewrite <-!app_assoc in Hd.
    take_raw Hd. step_if Hd eqn E1. apply negb_false_iff, bool_decide_eq_true_1 in E1 as ->.
    take_raw Hd. step_if Hd eqn E2. apply negb_false_iff, Z.eqb_eq in E2. do 4 take_raw Hd.
    step_if Hd eqn E3. apply orb_false_iff in E3 as [E3 E6]. apply orb_false_iff in E3 as [E3 E5]. apply orb_false_iff in E3 as [E3 E4].
    apply negb_false_iff, bool_decide_eq_true_1 in E3 as ->. apply negb_false_iff, Z.eqb_eq in E4.
    apply negb_false_iff, bool_decide_eq_true_1 in E5 as ->. apply negb_false_iff, bool_decide_eq_true_1 in E6 as ->.
    do 5 take_raw Hd. step_if Hd eqn E7. apply negb_false_iff in E7. apply ok_inj in Hd as <-. split; [|split; [|done]].
    + unfold header_image, append_crc, group_header_body. cbn. rewrite <-E2, <-E4, <-!field_bytes by done. rewrite <-!app_assoc, Ecrc. done.
    + pose proof (from_le_range ct) as Hct. rewrite D7 in Hct. split; cbn; try done; by apply from_le_u64.
  - intros (-> & T & Hv). pose proof (len_header_body _ T) as Hb. unfold header_image, append_crc.
    rewrite slice_at_here by lia. cbn [bindR]. rewrite uint_at_skip, Hb by lia. rewrite <-(app_nil_r (le_bytes 4 _)).
    rewrite uint_at_here by (done || apply crc_u32). cbn [bindR]. rewrite Z.eqb_refl. cbn [negb].
    set (crc := le_bytes 4 _). destruct T as [T1 T2 T3 T4 T5]. unfold is_u64 in *.
    remember ((group_header_body h ++ crc ++ [])) as data eqn:Hdata. unfold group_header_body in Hdata. rewrite <-!app_assoc in Hdata.
    take_field Hdata. rewrite bool_decide_true by done. cbn [negb]. take_field Hdata. cbn [Z.eqb Pos.eqb negb].
    take_field Hdata. take_field Hdata. take_field Hdata. take_field Hdata. rewrite !bool_decide_true by done.
    change (HEADER_BYTES =? HEADER_BYTES) with true. cbn [negb orb]. do 5 take_field Hdata. destruct h; cbn in *. by rewrite Hv.
Qed.

(** ** Trailers *)
Definition trailer_image (length : Z) (digest : bytes) : bytes :=
  append_crc (trailer_magic ++ le_bytes 8 length ++ digest ++ zeros 4).

Lemma trailer_body length digest : len digest = 32 -> len (trailer_magic ++ le_bytes 8 length ++ digest ++ zeros 4) = 52.
Proof. intros. assert (len trailer_magic = 8) as Hm by done. field_len. Qed.

Lemma len_trailer_image length digest : len digest = 32 -> len (trailer_image length digest) = TRAILER_BYTES.
Proof. intros. unfold trailer_image. rewrite len_append_crc, trailer_body by done. done. Qed.

Lemma trailer_eq length digest : len digest = 32 -> trailer length digest = Ok (trailer_image length digest).
Proof.
  intros Hd. unfold trailer. pose proof (trailer_body length digest Hd) as Hb. assert (len trailer_magic = 8) as Hm by done.
  change (zeros TRAILER_BYTES) with (zeros 8 ++ zeros 8 ++ zeros 32 ++ zeros 4 ++ zeros 4).
  rewrite copy_at_here by done. cbn [bindR]. do 2 (field_skip; rewrite copy_at_here by field_len; cbn [bindR]).
  unfold trailer_image. set (body := _ ++ _ ++ digest ++ zeros 4) in *.
  replace (trailer_magic ++ _) with (body ++ zeros 4) by (unfold body; by rewrite <-!app_assoc).
  rewrite slice_at_here by lia. cbn [bindR]. rewrite copy_at_skip, Hb by lia. rewrite <-(app_nil_r (zeros 4)).
  rewrite copy_at_here by (rewrite ?len_le_bytes; done). cbn [bindR]. by rewrite app_nil_r.
Qed.

(** ** Segment headers *)
Definition segment_body (database : bytes) (s : SegmentDescriptor) : bytes :=
  segment_magic ++ le_bytes 2 1 ++ le_bytes 2 96 ++ zeros 4 ++ database ++ le_bytes 8 (segment_id s)
  ++ le_bytes 8 (first_sequence s) ++ predecessor_digest s ++ zeros 12.

(** The header bytes proper: the checksum covers its own place as zeros. *)
Definition segment_image (database : bytes) (s : SegmentDescriptor) : bytes :=
  segment_body database s ++ le_bytes 4 (crc32c (segment_body database s ++ zeros 4)).

Lemma len_segment_body database s : len database = 16 -> len (predecessor_digest s) = 32 -> len (segment_body database s) = 92.
Proof. intros. unfold segment_body. assert (len segment_magic = 8) as Hm by done. field_len. Qed.

Lemma len_segment_image database s :
  len database = 16 -> len (predecessor_digest s) = 32 -> len (segment_image database s) = SEGMENT_BYTES.
Proof. intros. unfold segment_image. rewrite len_app, len_segment_body, len_le_bytes by done. done. Qed.

Lemma segment_header_eq database s :
  len database = 16 -> len (predecessor_digest s) = 32 ->
  segment_header database s = Ok (segment_image database s ++ zeros (BLOCK_BYTES - SEGMENT_BYTES)).
Proof.
  intros Hd Hp. unfold segment_header. pose proof (len_segment_body _ _ Hd Hp) as Hb. assert (len segment_magic = 8) as Hm by done.
  replace (zeros BLOCK_BYTES) with (zeros 8 ++ zeros 2 ++ zeros 2 ++ zeros 4 ++ zeros 16 ++ zeros 8 ++ zeros 8 ++ zeros 32
    ++ zeros 12 ++ zeros 4 ++ zeros (BLOCK_BYTES - SEGMENT_BYTES)).
  2: { rewrite <-!zeros_add by done. done. }
  set (tail := zeros (BLOCK_BYTES - SEGMENT_BYTES)). clearbody tail.
  rewrite copy_at_here by done. cbn [bindR]. do 6 (field_skip; rewrite copy_at_here by field_len; cbn [bindR]).
  unfold segment_image. set (body := segment_body database s) in *.
  replace (segment_magic ++ _) with (body ++ zeros 4 ++ tail) by (unfold body, segment_body; by rewrite <-!app_assoc).
  rewrite app_assoc, slice_at_here; [|done|rewrite len_app, Hb, len_zeros; done]. cbn [bindR]. rewrite <-app_assoc, copy_at_skip, Hb by lia.
  rewrite copy_at_here by (rewrite ?len_le_bytes; done). cbn [bindR]. by rewrite <-app_assoc.
Qed.

Lemma validate_segment_header_iff header database s :
  len header = 96 -> len database = 16 -> descriptor_typed s ->
  validate_segment_header header database s = Ok tt <-> header = segment_image database s.
Proof.
  intros Hl Hdb T. unfold validate_segment_header, segment_crc_valid. assert (len segment_magic = 8) as Hm by done. split.
  - intros Hd. destruct (split_len 92 header) as (main & crc & -> & Hmain); [lia|]. rewrite len_app, Hmain in Hl.
    assert (len crc = 4) as Hcrc by lia. clear Hl. step_ok Hd as valid eqn Hv. step_ok Hv as body eqn Hb.
    rewrite slice_at_here in Hb by done. apply ok_inj in Hb as <-.
    step_ok Hv as sum eqn Hs. rewrite <-(app_nil_r crc) in Hs. raw_read Hs. apply ok_inj in Hv as <-. step_if Hd eqn Hsum.
    apply negb_false_iff, Z.eqb_eq in Hsum. rewrite <-Hs in Hsum.
    assert (crc = le_bytes 4 (crc32c (main ++ zeros 4))) as Ecrc by (rewrite Hsum; by apply field_bytes). clear Hs Hsum sum.
    cut_field Hmain 8 mg p1 D1. cut_field Hmain 2 v p2 D2. cut_field Hmain 2 ln p3 D3. cut_field Hmain 4 fl p4 D4.
    cut_field Hmain 16 db p5 D5. cut_field Hmain 8 si p6 D6. cut_field Hmain 8 fi p7 D7. cut_field Hmain 32 pr re D8.
    rewrite <-!app_assoc in Hd. take_raw Hd. step_if Hd eqn E1. apply negb_false_iff, bool_decide_eq_true_1 in E1 as ->.
    take_raw Hd. step_ok Hd as u eqn Hchk. unfold check_version in Hchk. step_if Hchk eqn E2. apply negb_false_iff, Z.eqb_eq in E2.
    do 3 take_raw Hd. step_if Hd eqn E3. apply orb_false_iff in E3 as [E3 E5]. apply orb_false_iff in E3 as [E3 E4].
    apply negb_false_iff, Z.eqb_eq in E3, E4. apply negb_false_iff, bool_decide_eq_true_1 in E5 as ->. do 4 take_raw Hd.
    destruct (_ || _) eqn:E6 in Hd; [done|]. apply orb_false_iff in E6 as [E6 E9]. apply orb_false_iff in E6 as [E6 E8].
    apply orb_false_iff in E6 as [E6 E7]. apply negb_false_iff, bool_decide_eq_true_1 in E6, E9. apply negb_false_iff, Z.eqb_eq in E7, E8.
    subst db pr. unfold segment_image. rewrite Ecrc. unfold segment_body. rewrite <-E7, <-E8.
    replace (zeros 4) with fl by (rewrite (field_bytes fl 4), E4 by done; apply le_bytes_zero).
    replace (le_bytes 2 1) with v by (rewrite <-E2; by apply field_bytes).
    replace (le_bytes 2 96) with ln by (rewrite <-E3; by apply field_bytes).
    rewrite <-!field_bytes by done. by rewrite <-!app_assoc.
  - intros ->. destruct T as [T1 T2 T3 T4 T5 T6]. pose proof (len_segment_body database s Hdb T5) as Hb. unfold segment_image, is_u64 in *.
    rewrite slice_at_here by lia. cbn [bindR]. rewrite uint_at_skip, Hb by lia. rewrite <-(app_nil_r (le_bytes 4 _)).
    rewrite uint_at_here by (done || apply crc_u32). cbn [bindR]. rewrite Z.eqb_refl. cbn [negb].
    set (crc := le_bytes 4 _). remember (segment_body database s ++ crc ++ []) as data eqn:Hdata. unfold segment_body in Hdata.
    rewrite <-!app_assoc in Hdata. take_field Hdata. rewrite bool_decide_true by done. cbn [negb]. take_field Hdata.
    unfold check_version. cbn [Z.eqb Pos.eqb negb bindR]. take_field Hdata.
    assert (uint_at (E:=StorageError) data 4 12 = Ok 0) as R by (rewrite Hdata; field_skip; by rewrite (uint_at_zeros 4) by field_len).
    rewrite R. cbn [bindR]. take_field Hdata. rewrite bool_decide_true by done. cbn [Z.eqb Pos.eqb negb orb].
    do 4 take_field Hdata. by rewrite !Z.eqb_refl, !bool_decide_true by done.
Qed.

(** ** Records *)
Lemma read_body_ok fuel : forall input n acc rest acc',
  0 <= n <= Z.of_nat fuel * 8192 ->
  read_body fuel input n acc = Ok (rest, acc') <-> exists chunk, input = chunk ++ rest /\ len chunk = n /\ acc' = acc ++ chunk.
Proof.
  induction fuel as [|fuel IH]; intros input n acc rest acc' Hn; cbn [read_body].
  - assert (n = 0) as -> by lia. cbn [Z.eqb]. split.
    + intros [= -> ->]. exists []. by rewrite app_nil_r.
    + intros ([|b chunk] & -> & Hl & ->); [by rewrite app_nil_r|]. rewrite len_cons in Hl. pose proof (len_nonneg chunk). lia.
  - destruct (Z.eqb_spec n 0) as [->|Hne].
    + split; [intros [= -> ->]; exists []; by rewrite app_nil_r|].
      intros ([|b chunk] & -> & Hl & ->); [by rewrite app_nil_r|]. rewrite len_cons in Hl. pose proof (len_nonneg chunk). lia.
    + split.
      * intros Hr. step_ok Hr as [a tl] eqn Ha. apply read_committed_ok in Ha as [-> Hl]; [|lia]. cbn [fst snd] in Hr.
        apply IH in Hr as (chunk & -> & Hc & ->); [|lia]. exists (a ++ chunk). rewrite <-!app_assoc, len_app. split; [done|split; [lia|done]].
      * intros (chunk & -> & Hl & ->). destruct (split_len (Z.min n 8192) chunk) as (a & b & -> & Ha); [lia|].
        rewrite <-app_assoc. rewrite (proj2 (read_committed_ok _ (Z.min n 8192) a (b ++ rest) ltac:(lia))) by done. cbn [bindR].
        rewrite len_app in Hl. apply IH; [lia|]. exists b. rewrite <-app_assoc. split; [done|split; [lia|done]].
Qed.

Lemma read_body_no_panic fuel : forall input n acc, 0 <= n <= Z.of_nat fuel * 8192 -> no_panic (read_body fuel input n acc).
Proof.
  induction fuel as [|fuel IH]; intros input n acc Hn; cbn [read_body]; destruct (Z.eqb_spec n 0); [apply ok_no_panic|lia|apply ok_no_panic|].
  apply bindR_no_panic; [apply read_committed_no_panic|]. intros [a rest] _. apply IH. lia.
Qed.

Definition record_head (sequence kind : Z) (link : bytes) (size : Z) : bytes :=
  record_magic ++ le_bytes 2 64 ++ le_bytes 2 1 ++ le_bytes 4 (72 + size) ++ le_bytes 4 size ++ le_bytes 8 sequence
  ++ le_bytes 1 kind ++ zeros 3 ++ link ++ zeros 4.

(** A canonical record. *)
Definition record_image (sequence kind : Z) (link body : bytes) : bytes :=
  append_crc (record_head sequence kind link (len body) ++ body) ++ le_bytes 4 (72 + len body).

Definition record_body_ok (kind : Z) (body : bytes) : Prop :=
  1 <= kind <= 3 /\ 72 + len body <= MAX_RECORD_LENGTH /\ (kind = 3 -> len body = POLICY_LENGTH).

Lemma len_record_head sequence kind link size : len link = 32 -> len (record_head sequence kind link size) = 64.
Proof. intros. unfold record_head. assert (len record_magic = 4) as Hm by done. field_len. Qed.

Lemma len_record_image sequence kind link body : len link = 32 -> len (record_image sequence kind link body) = 72 + len body.
Proof.
  intros Hl. unfold record_image. rewrite len_app, len_append_crc, len_app, len_record_head, len_le_bytes by done. lia.
Qed.

Lemma from_le_1 f : len f = 1 -> 0 <= from_le f < 256.
Proof. intros Hf. pose proof (from_le_range f) as Hr. rewrite Hf in Hr. exact Hr. Qed.

Lemma body_fuel n : 0 <= n -> 0 <= n <= Z.of_nat (Z.to_nat (n / 8192 + 1)) * 8192.
Proof.
  intros Hn. pose proof (Z.div_pos n 8192 Hn ltac:(lia)). rewrite Z2Nat.id by lia.
  pose proof (Z.div_mod n 8192 ltac:(lia)). pose proof (Z.mod_pos_bound n 8192). lia.
Qed.

Lemma validate_record_inv input remaining sequence predecessor n digest :
  is_u64 sequence -> len predecessor = 32 ->
  validate_record input remaining sequence predecessor = Ok (n, digest) ->
  exists kind body rest, input = record_image sequence kind predecessor body ++ rest /\ n = 72 + len body /\ n <= remaining
    /\ record_body_ok kind body /\ digest = sha256 (record_image sequence kind predecessor body).
Proof.
  intros Hseq Hpre Hv. unfold validate_record in Hv. step_if Hv eqn Hrem. step_ok Hv as [head input1] eqn Hhead.
  apply read_committed_ok in Hhead as [-> Hhl]; [|done]. cbn [fst snd] in Hv. assert (len record_magic = 4) as Hm by done.
  cut_field Hhl 4 mg p1 D1. cut_field Hhl 2 hl p2 D2. cut_field Hhl 2 v p3 D3. cut_field Hhl 4 ln p4 D4. cut_field Hhl 4 bl p5 D5.
  cut_field Hhl 8 sq p6 D6. cut_field Hhl 1 kd p7 D7. cut_field Hhl 3 fl p8 D8. cut_field Hhl 32 lk re D9.
  set (head := mg ++ _) in Hv |- *. assert (head = mg ++ hl ++ v ++ ln ++ bl ++ sq ++ kd ++ fl ++ lk ++ re ++ []) as Ehead by (by rewrite app_nil_r).
  rewrite Ehead in Hv. do 2 take_raw Hv. rewrite <-Ehead in Hv.
  step_if Hv eqn E1. apply orb_false_iff in E1 as [E1 E3]. apply orb_false_iff in E1 as [E1 E2]. apply negb_false_iff, Z.eqb_eq in E1.
  rewrite Z.gtb_ltb in E2, E3. apply Z.ltb_ge in E2, E3. pose proof (from_le_range bl) as [Hbl _].
  step_ok Hv as [input2 absorbed] eqn Hbody.
  apply read_body_ok in Hbody as (body & -> & Hbody & ->); [|by apply body_fuel].
  step_ok Hv as [tr rest] eqn Htr. apply read_committed_ok in Htr as [-> Htl]; [|done]. cut_field Htl 4 crc rp D10.
  step_ok Hv as sum eqn Hs. raw_read Hs. step_if Hv eqn E4. apply negb_false_iff, Z.eqb_eq in E4. rewrite <-Hs in E4.
  assert (crc = le_bytes 4 (crc32c (head ++ body))) as Ecrc by (rewrite E4; by apply field_bytes). clear Hs E4 sum.
  step_ok Hv as rep eqn Hr. rewrite <-(app_nil_r rp) in Hr. raw_read Hr. step_if Hv eqn E5. apply negb_false_iff, Z.eqb_eq in E5. rewrite <-Hr in E5. clear Hr rep.
  rewrite Ehead in Hv. do 2 take_raw Hv. rewrite <-Ehead in Hv. step_if Hv eqn E6. apply orb_false_iff in E6 as [E6 E7].
  apply negb_false_iff, bool_decide_eq_true_1 in E6. apply negb_false_iff, Z.eqb_eq in E7.
  rewrite Ehead in Hv. take_raw Hv. step_ok Hv as u eqn Hchk. unfold check_version in Hchk. step_if Hchk eqn E8. apply negb_false_iff, Z.eqb_eq in E8.
  do 3 take_raw Hv. rewrite <-Ehead in Hv. step_if Hv eqn E9. apply orb_false_iff in E9 as [E9 E11]. apply orb_false_iff in E9 as [E9 E10].
  apply negb_false_iff, andb_true_iff in E9 as [K1%Z.leb_le K2%Z.leb_le]. apply negb_false_iff, bool_decide_eq_true_1 in E10, E11.
  step_if Hv eqn E12. rewrite Ehead in Hv. do 2 take_raw Hv. rewrite <-Ehead in Hv. step_if Hv eqn E13. apply orb_false_iff in E13 as [E13 E14].
  apply negb_false_iff, Z.eqb_eq in E13. apply negb_false_iff, bool_decide_eq_true_1 in E14. injection Hv as <- <-.
  assert (record_image sequence (from_le kd) predecessor body = head ++ body ++ crc ++ rp) as Himg.
  { unfold record_image, append_crc, record_head. rewrite Hbody, <-E1, <-E14.
    replace (le_bytes 2 64) with hl by (rewrite <-E7; by apply field_bytes).
    replace (le_bytes 2 1) with v by (rewrite <-E8; by apply field_bytes).
    replace (le_bytes 4 (from_le ln)) with ln by (by apply field_bytes).
    rewrite <-E13, <-!field_bytes, <-E6, <-E10, <-E11 by done. rewrite app_nil_r in Ehead. rewrite <-Ehead, <-Ecrc.
    replace rp with ln by (rewrite (field_bytes ln 4), (field_bytes rp 4), E5 by done; done). by rewrite <-!app_assoc. }
  exists (from_le kd), body, rest. rewrite Himg, <-!app_assoc. split; [done|]. split; [lia|]. split; [lia|]. split; [|done].
  split; [done|]. split; [lia|]. intros Hk. rewrite Hk in E12. cbn [Z.eqb Pos.eqb andb] in E12. apply negb_false_iff, Z.eqb_eq in E12. lia.
Qed.

Lemma validate_record_image remaining sequence kind predecessor body rest :
  is_u64 sequence -> len predecessor = 32 -> record_body_ok kind body -> 72 + len body <= remaining ->
  validate_record (record_image sequence kind predecessor body ++ rest) remaining sequence predecessor
  = Ok (72 + len body, sha256 (record_image sequence kind predecessor body)).
Proof.
  intros Hseq Hpre ([K1 K2] & Hmax & Hpol) Hrem. pose proof (len_nonneg body) as Hpos. unfold validate_record.
  rewrite (proj2 (Z.ltb_ge _ _)) by lia. unfold record_image at 1, append_crc. set (head := record_head _ _ _ _).
  assert (len head = 64) as Hhl by by apply len_record_head. rewrite <-!app_assoc.
  rewrite (proj2 (read_committed_ok _ 64 head _ ltac:(done))) by done. cbn [bindR].
  assert (head = head) as Ehead by done. unfold head in Ehead at 2. unfold record_head in Ehead.
  assert (len record_magic = 4) as Hm by done. unfold MAX_RECORD_LENGTH, is_u64 in *. change (256 ^ 8) with 18446744073709551616 in *.
  assert (0 <= 72 + len body < 256 ^ 4) by (change (256 ^ 4) with 4294967296; lia). assert (0 <= len body < 256 ^ 4) by lia.
  assert (0 <= kind < 256 ^ 1) by (change (256 ^ 1) with 256; lia). assert (0 <= sequence < 256 ^ 8) by done.
  remember head as data eqn:Edata. do 2 take_field Ehead.
  rewrite Z.eqb_refl, !gtb_false by lia. cbn [negb orb].
  match goal with |- bindR ?r _ = _ => replace r with (Ok (E:=StorageError) (le_bytes 4 (crc32c (data ++ body)) ++ le_bytes 4 (72 + len body) ++ rest, data ++ body)) end.
  2: { symmetry. apply read_body_ok; [by apply body_fuel|]. by exists body. }
  cbn [bindR]. rewrite app_assoc. rewrite (proj2 (read_committed_ok _ 8 (le_bytes 4 _ ++ le_bytes 4 _) rest ltac:(done))) by (split; [done|by autorewrite with blop]).
  cbn [bindR]. rewrite uint_at_here by (done || apply crc_u32). cbn [bindR]. rewrite Z.eqb_refl. cbn [negb].
  rewrite uint_at_skip by field_len. rewrite len_le_bytes, <-(app_nil_r (le_bytes 4 (72 + _))), uint_at_here by done. cbn [bindR]. rewrite Z.eqb_refl. cbn [negb].
  do 2 take_field Ehead. rewrite bool_decide_true by done. cbn [Z.eqb Pos.eqb negb orb]. take_field Ehead.
  unfold check_version. cbn [Z.eqb Pos.eqb negb bindR]. take_field Ehead. take_field Ehead. 
  assert (slice_at (E:=StorageError) data 60 64 = Ok (zeros 4)) as R.
  { rewrite Ehead, <-(app_nil_r (zeros 4)). field_skip. rewrite slice_at_here by field_len. by rewrite app_nil_r. }
  rewrite R. cbn [bindR]. rewrite !bool_decide_true by done. rewrite !(proj2 (Z.leb_le _ _)) by lia. cbn [andb negb orb].
  replace ((kind =? 3) && negb (len body =? POLICY_LENGTH)) with false.
  2: { destruct (Z.eqb_spec kind 3); [|done]. by rewrite (proj2 (Z.eqb_eq _ _)) by auto. }
  do 2 take_field Ehead. rewrite Z.eqb_refl, bool_decide_true by done. cbn [negb orb]. do 2 f_equal.
  rewrite app_nil_r. unfold record_image, append_crc. fold head. by rewrite Edata, <-!app_assoc.
Qed.

(** ** Absence of panics *)
Ltac solve_reads :=
  solve_no_panic;
  match goal with
  | |- no_panic (slice_at _ _ _) => apply slice_at_no_panic; lia
  | |- no_panic (uint_at _ _ _) => apply uint_at_no_panic; lia
  | _ => idtac
  end.

Lemma check_version_no_panic version format : no_panic (check_version version format).
Proof. unfold check_version. solve_no_panic. Qed.

Lemma group_decode_no_panic data : len data = HEADER_BYTES -> no_panic (GroupHeader_decode data).
Proof. unfold HEADER_BYTES. intros Hl. unfold GroupHeader_decode. solve_reads. Qed.

Lemma validate_segment_header_no_panic header database s : len header = 96 -> no_panic (validate_segment_header header database s).
Proof. intros Hl. unfold validate_segment_header, segment_crc_valid. solve_reads. apply check_version_no_panic. Qed.

Lemma validate_record_no_panic input remaining sequence predecessor : no_panic (validate_record input remaining sequence predecessor).
Proof.
  unfold validate_record. destruct (_ <? _); [done|]. apply bindR_no_panic; [apply read_committed_no_panic|].
  intros [header rest] [_ Hl]%read_committed_ok; [|done]. apply bindR_no_panic; [apply uint_at_no_panic; lia|]. intros length _.
  apply bindR_no_panic; [apply uint_at_no_panic; lia|]. intros size Hsize. apply uint_at_range in Hsize as [Hsize _]; [|done].
  destruct (_ || _); [done|]. apply bindR_no_panic; [by apply read_body_no_panic, body_fuel|]. intros [input2 absorbed] _.
  apply bindR_no_panic; [apply read_committed_no_panic|]. intros [trailer rest2] [_ Ht]%read_committed_ok; [|done].
  solve_reads. apply check_version_no_panic.
Qed.
End Images.
