(* ===== verification/LogFacts.v ===== *)
(** * Walking a committed prefix

    The reader accepts exactly the images of commit groups whose records form
    one hash chain from the segment's first sequence and predecessor to its last
    sequence and digest; it returns those records in order, and never more. *)
From S2P Require Import Prelude Errors Bytes Limits Metadata MetadataFacts Wal WalFacts.

Section LogFacts.
Context `{Checksum} `{Sha256}.

(** ** Canonical records *)
Definition canonical (sequence : Z) (predecessor record : bytes) : Prop :=
  exists kind body, record = record_image sequence kind predecessor body /\ record_body_ok kind body.

Lemma canonical_len s p r : len p = 32 -> canonical s p r -> 72 <= len r <= MAX_RECORD_BYTES.
Proof.
  intros Hp (kind & body & -> & _ & Hmax & _). pose proof (len_nonneg body). rewrite len_record_image by done.
  unfold MAX_RECORD_LENGTH, MAX_RECORD_BYTES in *. lia.
Qed.

Lemma record_image_length s kind p body rest :
  len p = 32 -> record_body_ok kind body ->
  uint_at (E:=StorageError) (record_image s kind p body ++ rest) 4 8 = Ok (72 + len body).
Proof.
  intros Hp (_ & Hmax & _). pose proof (len_nonneg body). unfold record_image, append_crc, record_head. rewrite <-!app_assoc.
  assert (len record_magic = 4) as Hm by done. field_skip. rewrite uint_at_here; [done|field_len|done|].
  unfold MAX_RECORD_LENGTH in Hmax. change (256 ^ 4) with 4294967296. lia.
Qed.

Lemma read_canonical_iff input remaining s p record rest :
  is_u64 s -> len p = 32 ->
  read_canonical input remaining s p = Ok (record, rest) <->
  exists r, input = r ++ rest /\ canonical s p r /\ len r <= remaining
    /\ record = {| record_sequence := s; record_digest := sha256 r; record_bytes := r |}.
Proof.
  intros Hs Hp. unfold read_canonical. split.
  - intros Hr. step_if Hr eqn Hrem. step_ok Hr as [head input1] eqn Hh. apply read_committed_ok in Hh as [-> Hhl]; [|done]. cbn [fst snd] in Hr.
    step_ok Hr as length eqn Hlen. step_if Hr eqn Hb. step_ok Hr as [body input2] eqn Hbody.
    assert (72 <= length <= MAX_RECORD_BYTES /\ length <= remaining) as [Hlo Hhi] by (unfold MAX_RECORD_BYTES in *; blia).
    apply read_committed_ok in Hbody as [-> Hbl]; [|lia]. cbn [fst snd] in Hr. step_ok Hr as [n digest] eqn Hv. apply ok_inj in Hr.
    injection Hr as <- <-. apply validate_record_inv in Hv as (kind & text & tail & Hd & Hn & Hle & Hok & ->); [|done..].
    assert (uint_at (E:=StorageError) (head ++ body) 4 8 = Ok length) as Hfield.
    { rewrite <-Hlen. unfold uint_at, array_at. rewrite len_app, !(proj2 (Z.leb_le _ _)) by lia.
      rewrite drop_app_le, take_app_le by (rewrite ?length_drop; unfold len in Hhl; lia). done. }
    rewrite Hd, record_image_length in Hfield by done. injection Hfield as Hfield.
    assert (tail = []) as ->.
    { assert (len (head ++ body) = len (record_image s kind p text ++ tail)) as Hl by (by rewrite Hd). rewrite !len_app, len_record_image in Hl by done.
      destruct tail; [done|]. rewrite len_cons in Hl. pose proof (len_nonneg tail). lia. }
    rewrite app_nil_r in Hd. exists (record_image s kind p text). rewrite Hd. rewrite <-Hd at 1. rewrite <-app_assoc. split; [done|].
    split; [by exists kind, text|]. split; [rewrite len_record_image by done; lia|done].
  - intros (r & -> & (kind & body & -> & Hok) & Hle & ->). set (r := record_image s kind p body) in *.
    pose proof (len_record_image s kind p body Hp) as Hl. fold r in Hl. pose proof (len_nonneg body). pose proof Hok as (_ & Hmax & _).
    assert (72 + len body <= remaining) as Hsize by lia.
    rewrite (proj2 (Z.ltb_ge _ _)) by lia. pose proof (record_image_length s kind p body [] Hp Hok) as Hfield. fold r in Hfield. rewrite app_nil_r in Hfield.
    destruct (split_len 64 r) as (head & tail & Er & Hhl); [lia|]. rewrite Er in Hl, Hfield. rewrite len_app in Hl. rewrite Er, <-app_assoc.
    rewrite (proj2 (read_committed_ok _ 64 head _ ltac:(done))) by done. cbn [bindR].
    assert (uint_at (E:=StorageError) head 4 8 = Ok (72 + len body)) as ->.
    { rewrite <-Hfield. unfold uint_at, array_at. rewrite len_app, !(proj2 (Z.leb_le _ _)) by lia.
      rewrite drop_app_le, take_app_le by (rewrite ?length_drop; unfold len in Hhl; lia). done. }
    cbn [bindR]. unfold MAX_RECORD_LENGTH, MAX_RECORD_BYTES in *. rewrite !(proj2 (Z.leb_le _ _)), gtb_false by lia. cbn [andb negb orb].
    rewrite (proj2 (read_committed_ok _ (72 + len body - 64) tail rest ltac:(lia))) by (split; [done|lia]). cbn [bindR].
    rewrite <-Er. rewrite <-(app_nil_r r) at 1. unfold r. rewrite validate_record_image by (done || lia). done.
Qed.

Lemma read_canonical_no_panic input remaining s p : no_panic (read_canonical input remaining s p).
Proof.
  unfold read_canonical. destruct (_ <? _); [done|]. apply bindR_no_panic; [apply read_committed_no_panic|].
  intros [head rest] [_ Hl]%read_committed_ok; [|done]. apply bindR_no_panic; [apply uint_at_no_panic; lia|]. intros length _.
  destruct (_ || _); [done|]. apply bindR_no_panic; [apply read_committed_no_panic|]. intros [body tail] _.
  apply bindR_no_panic; [apply validate_record_no_panic|]. by intros [n digest] _.
Qed.

(** ** Groups *)
Lemma padded_bounds n : 0 <= n -> n <= padded n < n + BLOCK_BYTES.
Proof. apply div_ceil_block. Qed.

Lemma padded_mod n : padded n mod BLOCK_BYTES = 0.
Proof. apply Z_mod_mult. Qed.

(** Records [rs] follow each other from [s] and [p], and end with the digest [d]. *)
Fixpoint records_chain (s : Z) (p : bytes) (rs : list bytes) (d : bytes) : Prop :=
  match rs with
  | [] => d = p
  | r :: rs => canonical s p r /\ records_chain (s + 1) (sha256 r) rs d
  end.

(** The trailer and the padding of a group whose header and records are [prefix]. *)
Definition group_end (length : Z) (prefix : bytes) : bytes :=
  trailer_image length (sha256 prefix) ++ zeros (padded length - length).

Definition group_image (group : GroupHeader * list bytes) : bytes :=
  let '(header, records) := group in
  header_image header ++ concat records ++ group_end (group_length header) (header_image header ++ concat records).

Record group_ok (s : Z) (p : bytes) (group : GroupHeader * list bytes) : Prop := {
  ok_typed : group_typed (fst group);
  ok_valid : valid_group (fst group) = true;
  ok_first : group_first (fst group) = s;
  ok_predecessor : group_predecessor (fst group) = p;
  ok_count : group_count (fst group) = len (snd group);
  ok_length : group_length (fst group) = GROUP_OVERHEAD + len (concat (snd group));
  ok_records : records_chain s p (snd group) (group_digest (fst group)) }.

(** Groups that continue each other from [s], [p] to [s'], [p']. *)
Fixpoint groups_chain (s : Z) (p : bytes) (groups : list (GroupHeader * list bytes)) (s' : Z) (p' : bytes) : Prop :=
  match groups with
  | [] => s' = s /\ p' = p
  | group :: groups => group_ok s p group /\ groups_chain (s + len (snd group)) (group_digest (fst group)) groups s' p'
  end.

Lemma valid_group_inv h :
  valid_group h = true ->
  1 <= group_count h <= MAX_GROUP_RECORDS /\ group_first h <> 0 /\ group_first h + group_count h <= u64_max
  /\ GROUP_OVERHEAD + group_count h * 72 <= group_length h <= GROUP_OVERHEAD + group_count h * MAX_RECORD_BYTES.
Proof. unfold valid_group. intros Hv. bsimp. lia. Qed.

Lemma valid_padded h : valid_group h = true -> 168 + 72 <= group_length h <= padded (group_length h) /\ padded (group_length h) < 2 ^ 33.
Proof.
  intros (Hc & _ & _ & Hl)%valid_group_inv. unfold GROUP_OVERHEAD, MAX_RECORD_BYTES, MAX_GROUP_RECORDS in *.
  pose proof (padded_bounds (group_length h) ltac:(lia)). unfold BLOCK_BYTES in *. change (2 ^ 33) with 8589934592. lia.
Qed.

Lemma len_group_end length prefix : 0 <= length -> len (group_end length prefix) = TRAILER_BYTES + (padded length - length).
Proof.
  intros Hl. pose proof (padded_bounds _ Hl). unfold group_end. rewrite len_app, len_trailer_image, len_zeros by (apply sha256_len || lia). done.
Qed.

Lemma len_group_image s p g : group_ok s p g -> len (group_image g) = padded (group_length (fst g)).
Proof.
  destruct g as [h rs]. intros [T V _ _ _ L _]. cbn [fst snd] in *. unfold group_image. apply valid_padded in V as [V _].
  rewrite !len_app, len_group_end, len_header_image by (done || lia). unfold GROUP_OVERHEAD, TRAILER_BYTES in *. lia.
Qed.

Lemma groups_chain_end s p gs s' p' : groups_chain s p gs s' p' -> s' = s + len (concat (map snd gs)).
Proof.
  revert s p. induction gs as [|g gs IH]; intros s p; [intros [-> _]; cbn; rewrite len_nil; lia|].
  intros [_ Hc%IH]. cbn [map concat]. rewrite len_app. lia.
Qed.

Lemma group_ok_count s p g : group_ok s p g -> 1 <= len (snd g).
Proof. intros [_ V _ _ C _ _]. apply valid_group_inv in V. lia. Qed.

Lemma groups_chain_done s p gs p' : groups_chain s p gs s p' -> gs = [] /\ p' = p.
Proof.
  intros Hc. destruct gs as [|g gs]; [by destruct Hc|]. apply groups_chain_end in Hc as He. destruct Hc as [Hg%group_ok_count _].
  cbn [map concat] in He. rewrite len_app in He. pose proof (len_nonneg (concat (map snd gs))). lia.
Qed.

(** ** The reader *)
Definition advance (R : Records) (r input : bytes) (remaining : Z) (group : option Group) : Records :=
  {| log_input := input; log_remaining := remaining; log_sequence := log_sequence R + 1; log_predecessor := sha256 r;
     log_last := log_last R; log_last_digest := log_last_digest R; log_group := group; log_done := log_done R |}.

Definition read_from (R : Records) (r : bytes) : LogRecord :=
  {| record_sequence := log_sequence R; record_digest := sha256 r; record_bytes := r |}.

Definition enter (R : Records) (h : GroupHeader) (rest : bytes) : Records :=
  {| log_input := rest; log_remaining := log_remaining R - HEADER_BYTES; log_sequence := log_sequence R;
     log_predecessor := log_predecessor R; log_last := log_last R; log_last_digest := log_last_digest R;
     log_group := None; log_done := log_done R |}.

Definition entered (h : GroupHeader) : Group :=
  {| group_header := h; group_remaining := group_length h - GROUP_OVERHEAD; group_records := group_count h; group_hash := header_image h |}.

Lemma open_group_iff R R' G :
  log_remaining R <= u64_max ->
  open_group R = Ok (R', G) <->
  exists h rest, log_input R = header_image h ++ rest /\ group_typed h /\ valid_group h = true
    /\ padded (group_length h) <= log_remaining R /\ group_first h = log_sequence R /\ group_predecessor h = log_predecessor R
    /\ group_first h + group_count h - 1 <= log_last R /\ R' = enter R h rest /\ G = entered h.
Proof.
  intros Hmax. unfold open_group. split.
  - intros Ho. step_if Ho eqn Hsmall. step_ok Ho as [data rest] eqn Hd. apply read_committed_ok in Hd as [Hin Hl]; [|done]. cbn [fst snd] in Ho.
    step_ok Ho as h eqn Hh. apply group_decode_iff in Hh as (-> & T & V); [|done]. step_ok Ho as pad eqn Hpad.
    apply group_bytes_ok in Hpad as [-> _]. step_ok Ho as last eqn Hlast. apply arith_u64_inv in Hlast as [-> _]. step_if Ho eqn Hm.
    apply orb_false_iff in Hm as [Hm M4]. apply orb_false_iff in Hm as [Hm M3]. apply orb_false_iff in Hm as [M1 M2].
    apply negb_false_iff, bool_decide_eq_true_1 in M3. step_ok Ho as rem eqn Hr. apply arith_u64_inv in Hr as [-> _].
    step_ok Ho as unread eqn Hu. apply arith_u64_inv in Hu as [-> _]. apply ok_inj in Ho. injection Ho as <- <-. exists h, rest. bsimp.
    do 8 (split; [done|]). done.
  - intros (h & rest & -> & T & V & Hp & Hf & Hpre & Hlast & -> & ->). pose proof (valid_padded _ V) as [Hpad Hbig].
    pose proof (valid_group_inv _ V) as (Hc & Hne & Hfc & Hlen). pose proof (typed_group_first _ T) as [Hf0 _].
    unfold u64_max, GROUP_OVERHEAD, MAX_GROUP_RECORDS in *. change (2 ^ 33) with 8589934592 in Hbig.
    rewrite (proj2 (Z.ltb_ge _ _)) by lia. rewrite (proj2 (read_committed_ok _ HEADER_BYTES (header_image h) rest ltac:(done))) by (split; [done|by apply len_header_image]).
    cbn [bindR]. rewrite (proj2 (group_decode_iff _ h (len_header_image _ T))) by done. cbn [bindR].
    rewrite (proj2 (group_bytes_ok _ _)) by (split; [done|unfold u64_max; lia]). cbn [bindR].
    rewrite arith_u64_ok by (unfold u64_max; lia). cbn [bindR]. rewrite !gtb_false, Hf, Hpre, Z.eqb_refl, bool_decide_true by (done || lia). cbn [negb orb].
    unfold HEADER_BYTES. rewrite !arith_u64_ok by (unfold u64_max; lia). done.
Qed.

Lemma close_group_iff G digest input remaining input' remaining' :
  valid_group (group_header G) = true ->
  let length := group_length (group_header G) in
  TRAILER_BYTES + (padded length - length) <= remaining <= u64_max ->
  close_group G digest input remaining = Ok (input', remaining') <->
  group_remaining G = 0 /\ digest = group_digest (group_header G) /\ input = group_end length (group_hash G) ++ input'
  /\ remaining' = remaining - (TRAILER_BYTES + (padded length - length)).
Proof.
  intros V length Hrem. pose proof (valid_padded _ V) as [Hpad Hbig]. fold length in Hpad, Hbig. change (2 ^ 33) with 8589934592 in Hbig.
  unfold close_group. fold length. pose proof (padded_bounds length ltac:(lia)) as Hblock. unfold TRAILER_BYTES, u64_max in Hrem.
  destruct (Z.eqb_spec (group_remaining G) 0) as [->|Hne]; cbn [negb orb]; [|split; [done|by intros (? & _)]].
  case_bool_decide as Hd; cbn [negb]; [|split; [done|by intros (_ & ? & _)]]. rewrite trailer_eq by apply sha256_len. unfold group_end. split.
  - intros Hc. step_ok Hc as [data rest] eqn Hr. apply read_committed_ok in Hr as [-> Hl]; [|done]. cbn [fst snd bindR] in Hc.
    step_if Hc eqn E. apply negb_false_iff, bool_decide_eq_true_1 in E as ->. step_ok Hc as r1 eqn H1. apply arith_u64_inv in H1 as [-> _].
    step_ok Hc as pad eqn Hp. apply group_bytes_ok in Hp as [-> _]. step_ok Hc as d eqn H2. apply arith_u64_inv in H2 as [-> _].
    step_ok Hc as rest2 eqn Hz. apply read_padding_ok in Hz as [_ ->]; [|lia]. step_ok Hc as r2 eqn H3. apply arith_u64_inv in H3 as [-> _].
    apply ok_inj in Hc. injection Hc as <- <-. rewrite <-app_assoc. unfold TRAILER_BYTES. do 3 (split; [done|]). lia.
  - intros (_ & _ & -> & ->). rewrite <-app_assoc.
    rewrite (proj2 (read_committed_ok _ TRAILER_BYTES (trailer_image _ _) _ ltac:(done))) by (split; [done|apply len_trailer_image, sha256_len]).
    cbn [bindR]. rewrite bool_decide_true by done. cbn [negb]. unfold TRAILER_BYTES. rewrite arith_u64_ok by (unfold u64_max; lia). cbn [bindR].
    rewrite (proj2 (group_bytes_ok _ _)) by (split; [done|unfold u64_max; lia]). cbn [bindR]. rewrite arith_u64_ok by (unfold u64_max; lia). cbn [bindR].
    rewrite (proj2 (read_padding_ok _ (padded length - length) input' ltac:(lia))) by (split; [lia|done]). cbn [bindR]. rewrite arith_u64_ok by (unfold u64_max; lia).
    cbn [bindR]. do 2 f_equal. lia.
Qed.

(** *** One record *)
Definition group_tail (G : Group) : Z := TRAILER_BYTES + (padded (group_length (group_header G)) - group_length (group_header G)).

Definition consume (G : Group) (r : bytes) : Group :=
  {| group_header := group_header G; group_remaining := group_remaining G - len r; group_records := group_records G - 1;
     group_hash := group_hash G ++ r |}.

(** The reader is between two groups, or inside [G]. *)
Record reading (R : Records) : Prop := {
  reading_input : len (log_input R) <= log_remaining R;
  reading_max : log_remaining R <= u64_max;
  reading_sequence : 0 <= log_sequence R <= log_last R;
  reading_last : log_last R < u64_max;
  reading_predecessor : len (log_predecessor R) = 32;
  reading_group : forall G, log_group R = Some G ->
    valid_group (group_header G) = true /\ 1 <= group_records G /\ 0 <= group_remaining G
    /\ group_remaining G + group_tail G <= log_remaining R /\ log_sequence R + group_records G - 1 <= log_last R }.

Definition inside (R : Records) (G : Group) : Records :=
  {| log_input := log_input R; log_remaining := log_remaining R; log_sequence := log_sequence R;
     log_predecessor := log_predecessor R; log_last := log_last R; log_last_digest := log_last_digest R;
     log_group := Some G; log_done := log_done R |}.

Lemma next_record_open R : log_group R = None -> next_record R = let* (R', G) := open_group R in next_record (inside R' G).
Proof. intros Hg. unfold next_record at 1. rewrite Hg. destruct (open_group R) as [[R' G]| |]; reflexivity. Qed.

Lemma reading_u64 R : reading R -> is_u64 (log_sequence R).
Proof. intros [_ _ Hs Hl _ _]. unfold is_u64, u64_max in *. change (256 ^ 8) with 18446744073709551616. lia. Qed.

Lemma reading_entered R h rest :
  reading R -> log_input R = header_image h ++ rest -> group_typed h -> valid_group h = true ->
  padded (group_length h) <= log_remaining R -> group_first h = log_sequence R -> group_first h + group_count h - 1 <= log_last R ->
  reading (inside (enter R h rest) (entered h)).
Proof.
  intros [H1 H2 H3 H4 H5 H6] Hin T V Hp Hf Hlast. pose proof (valid_group_inv _ V) as (Hc & _ & _ & Hlen).
  pose proof (valid_padded _ V) as [Hpad _]. unfold GROUP_OVERHEAD, HEADER_BYTES, MAX_GROUP_RECORDS in *.
  rewrite Hin, len_app, len_header_image in H1 by done. split; cbn; unfold HEADER_BYTES; try lia.
  intros G [= <-]. cbn. unfold group_tail, GROUP_OVERHEAD. cbn. unfold TRAILER_BYTES. split; [done|]. lia.
Qed.

Lemma next_inside_ok R G r rest :
  reading R -> log_group R = Some G -> group_records G <> 1 ->
  log_input R = r ++ rest -> canonical (log_sequence R) (log_predecessor R) r -> len r <= group_remaining G ->
  next_record R = Ok (read_from R r, advance R r rest (log_remaining R - len r) (Some (consume G r))).
Proof.
  intros HR HG Hn Hin Hcan Hle. pose proof (reading_u64 _ HR) as Hs. destruct HR as [H1 H2 H3 H4 H5 H6]. destruct (H6 _ HG) as (V & K1 & K2 & K3 & K4).
  pose proof (canonical_len _ _ _ H5 Hcan) as Hlen. pose proof (valid_padded _ V) as [Hpad _].
  unfold group_tail, TRAILER_BYTES in K3. unfold next_record. rewrite HG. cbn [bindR].
  rewrite (proj2 (read_canonical_iff _ _ _ _ (read_from R r) rest Hs H5)) by (by exists r). cbn [bindR read_from record_bytes record_digest].
  unfold u64_max in *. repeat (rewrite arith_u64_ok by (unfold u64_max; lia); cbn [bindR]).
  rewrite (proj2 (Z.eqb_neq _ 0)) by lia. cbn [bindR].
  cbn [log_last]. rewrite gtb_false by lia. done.
Qed.

(** The frontier the reader checks once it is past the last sequence. *)
Definition ends (R : Records) : Prop :=
  log_last R < log_sequence R -> log_remaining R = 0 /\ log_predecessor R = log_last_digest R.

Lemma next_inside_last R G r input :
  reading R -> log_group R = Some G -> group_records G = 1 -> group_remaining G = len r ->
  log_input R = r ++ group_end (group_length (group_header G)) (group_hash G ++ r) ++ input ->
  canonical (log_sequence R) (log_predecessor R) r -> sha256 r = group_digest (group_header G) ->
  let R' := advance R r input (log_remaining R - len r - group_tail G) None in
  ends R' -> next_record R = Ok (read_from R r, R').
Proof.
  intros HR HG Hn Hrem Hin Hcan Hd R' Hend. pose proof (reading_u64 _ HR) as Hs. destruct HR as [H1 H2 H3 H4 H5 H6]. destruct (H6 _ HG) as (V & K1 & K2 & K3 & K4).
  pose proof (canonical_len _ _ _ H5 Hcan) as Hlen. pose proof (valid_padded _ V) as [Hpad _].
  unfold next_record. rewrite HG. cbn [bindR].
  rewrite (proj2 (read_canonical_iff _ _ _ _ (read_from R r) _ Hs H5)) by (exists r; split; [exact Hin|split; [done|split; [lia|done]]]).
  cbn [bindR read_from record_bytes record_digest]. pose proof K3 as K3'. unfold group_tail, TRAILER_BYTES, u64_max in *.
  repeat (rewrite arith_u64_ok by (unfold u64_max; lia); cbn [bindR]). rewrite Hn. change (1 - 1 =? 0) with true. cbv iota.
  match goal with |- context [close_group ?g ?d ?i ?m] =>
    rewrite (proj2 (close_group_iff g d i m input (m - group_tail G) V ltac:(cbn; unfold group_tail, TRAILER_BYTES, u64_max in *; lia))) end.
  2: { cbn. split; [lia|]. done. }
  cbn [bindR log_last log_last_digest]. change (log_remaining R - len r - group_tail G) with (log_remaining R').
  unfold ends in Hend. cbn [R' advance log_last log_sequence log_predecessor log_last_digest] in Hend.
  destruct (Z.gtb_spec (log_sequence R + 1) (log_last R)) as [Hgt|]; [|done].
  destruct (Hend ltac:(lia)) as [E1 E2]. by rewrite (proj2 (Z.eqb_eq _ 0) E1), (bool_decide_true _ E2).
Qed.

Lemma next_inside_inv R G record R' :
  reading R -> log_group R = Some G -> next_record R = Ok (record, R') ->
  exists r rest, log_input R = r ++ rest /\ canonical (log_sequence R) (log_predecessor R) r /\ len r <= group_remaining G
    /\ record = read_from R r
    /\ ((group_records G <> 1 /\ R' = advance R r rest (log_remaining R - len r) (Some (consume G r)))
        \/ (group_records G = 1 /\ group_remaining G = len r /\ sha256 r = group_digest (group_header G)
            /\ exists input, rest = group_end (group_length (group_header G)) (group_hash G ++ r) ++ input
            /\ R' = advance R r input (log_remaining R - len r - group_tail G) None /\ ends R')).
Proof.
  intros HR HG Hn. pose proof (reading_u64 _ HR) as Hs. destruct HR as [H1 H2 H3 H4 H5 H6]. destruct (H6 _ HG) as (V & K1 & K2 & K3 & K4).
  unfold next_record in Hn. rewrite HG in Hn. cbn [bindR] in Hn. step_ok Hn as [rec rest] eqn Hr.
  apply read_canonical_iff in Hr as (r & Hin & Hcan & Hle & ->); [|done..]. cbn [fst snd record_bytes record_digest record_sequence] in Hn.
  pose proof (canonical_len _ _ _ H5 Hcan) as Hlen. pose proof (valid_padded _ V) as [Hpad _].
  exists r, rest. split; [done|]. split; [done|]. split; [done|].
  step_ok Hn as rem eqn E1. apply arith_u64_inv in E1 as [-> _]. step_ok Hn as seq eqn E2. apply arith_u64_inv in E2 as [-> _].
  step_ok Hn as unread eqn E3. apply arith_u64_inv in E3 as [-> _]. step_ok Hn as count eqn E4. apply arith_u64_inv in E4 as [-> _].
  destruct (Z.eqb_spec (group_records G - 1) 0) as [Hone|Hone].
  - step_ok Hn as [[input remaining] open] eqn Hc. step_ok Hc as [i m] eqn Hclose. apply ok_inj in Hc. injection Hc as <- <- <-.
    apply close_group_iff in Hclose as (C1 & C2 & C3 & C4); [|done|cbn; unfold group_tail in *; unfold u64_max in *; lia].
    cbn in C1, C2, C3, C4. step_ok Hn as u eqn Hchk. apply ok_inj in Hn. injection Hn as <- <-. split; [done|]. right.
    split; [lia|]. split; [lia|]. split; [done|]. exists i. split; [done|]. subst m. split; [done|]. intros Hgt. cbn in Hgt |- *.
    cbn [log_last log_last_digest] in Hchk. rewrite gtb_true in Hchk by lia. step_if Hchk eqn E5. step_if Hchk eqn E6.
    apply orb_false_iff in E5 as [E5 _]. apply negb_false_iff, Z.eqb_eq in E5. by apply negb_false_iff, bool_decide_eq_true_1 in E6.
  - cbn [bindR] in Hn. step_ok Hn as u eqn Hchk. apply ok_inj in Hn. injection Hn as <- <-. split; [done|]. left. split; [lia|done].
Qed.

(** *** What is left to read *)
Ltac cbn_log :=
  cbn [inside enter entered advance consume log_input log_remaining log_sequence log_predecessor log_last log_last_digest log_group
    group_header group_remaining group_records group_hash fst snd] in *.

Definition log_left (R : Records) (rs : list bytes) : Prop :=
  len (log_input R) = log_remaining R
  /\ match log_group R with
     | None => exists gs, rs = concat (map snd gs) /\ log_input R = concat (map group_image gs)
         /\ groups_chain (log_sequence R) (log_predecessor R) gs (log_last R + 1) (log_last_digest R)
     | Some G => exists hs gs, rs = hs ++ concat (map snd gs) /\ len hs = group_records G /\ len (concat hs) = group_remaining G
         /\ records_chain (log_sequence R) (log_predecessor R) hs (group_digest (group_header G))
         /\ log_input R = concat hs ++ group_end (group_length (group_header G)) (group_hash G ++ concat hs) ++ concat (map group_image gs)
         /\ groups_chain (log_sequence R + len hs) (group_digest (group_header G)) gs (log_last R + 1) (log_last_digest R)
     end.

Lemma left_enter R h rest rs :
  log_group R = None -> log_input R = header_image h ++ rest -> group_typed h -> valid_group h = true ->
  group_first h = log_sequence R -> group_predecessor h = log_predecessor R ->
  log_left (inside (enter R h rest) (entered h)) rs -> log_left R rs.
Proof.
  intros HG Hin T V Hf Hp [Hl (hs & gs & -> & Hc & Hlen & Hch & Hin' & Hgs)]. cbn_log. unfold log_left.
  rewrite HG. split; [rewrite Hin, len_app, len_header_image by done; unfold HEADER_BYTES in Hl; lia|].
  exists ((h, hs) :: gs). cbn [map concat snd]. split; [done|]. split; [rewrite Hin, Hin'; cbn [group_image]; by rewrite <-!app_assoc|].
  split; [|exact Hgs]. split; cbn_log; done || lia.
Qed.

Lemma left_open R rs :
  reading R -> log_group R = None -> log_left R rs ->
  exists h rest, log_input R = header_image h ++ rest /\ group_typed h /\ valid_group h = true
    /\ padded (group_length h) <= log_remaining R /\ group_first h = log_sequence R /\ group_predecessor h = log_predecessor R
    /\ group_first h + group_count h - 1 <= log_last R /\ log_left (inside (enter R h rest) (entered h)) rs.
Proof.
  intros HR HG [Hl Hleft]. rewrite HG in Hleft. destruct Hleft as (gs & -> & Hin & Hgs). pose proof (reading_sequence _ HR) as Hseq.
  destruct gs as [|[h hs] gs]; [destruct Hgs; lia|]. cbn [map concat] in Hin. destruct Hgs as [Hok Hgs].
  pose proof (len_group_image _ _ _ Hok) as Hlen. apply groups_chain_end in Hgs as Hend. destruct Hok as [T V Hf Hp Hc Hlg Hch]. cbn_log.
  exists h, (concat hs ++ group_end (group_length h) (header_image h ++ concat hs) ++ concat (map group_image gs)).
  rewrite Hin. cbn [group_image]. rewrite <-!app_assoc. split; [done|]. split; [done|]. split; [done|].
  pose proof (len_nonneg (concat (map group_image gs))). pose proof (len_nonneg (concat (map snd gs))).
  split; [rewrite <-Hl, Hin, len_app; lia|]. split; [done|]. split; [done|]. split; [lia|]. split.
  - cbn_log. rewrite Hin in Hl. cbn [group_image] in Hl. rewrite <-!app_assoc, len_app, len_header_image in Hl by done. unfold HEADER_BYTES. lia.
  - cbn_log. exists hs, gs. unfold GROUP_OVERHEAD in *. split; [done|]. split; [lia|]. split; [lia|]. done.
Qed.

Lemma left_inside R G r rest rs :
  log_group R = Some G -> log_input R = r ++ rest -> canonical (log_sequence R) (log_predecessor R) r ->
  log_left (advance R r rest (log_remaining R - len r) (Some (consume G r))) rs -> log_left R (r :: rs).
Proof.
  intros HG Hin Hcan [Hl (hs & gs & -> & Hc & Hlen & Hch & Hin' & Hgs)]. cbn_log. unfold log_left.
  rewrite HG. split; [rewrite Hin, len_app; lia|]. exists (r :: hs), gs. split; [done|]. cbn [concat]. rewrite len_cons, len_app.
  split; [lia|]. split; [lia|]. split; [done|]. split; [rewrite Hin, Hin'; by rewrite <-!app_assoc|].
  by rewrite Z.add_assoc.
Qed.

Lemma left_last R G r input rs :
  valid_group (group_header G) = true -> log_group R = Some G -> group_records G = 1 -> group_remaining G = len r ->
  log_input R = r ++ group_end (group_length (group_header G)) (group_hash G ++ r) ++ input ->
  canonical (log_sequence R) (log_predecessor R) r -> sha256 r = group_digest (group_header G) ->
  log_left (advance R r input (log_remaining R - len r - group_tail G) None) rs -> log_left R (r :: rs).
Proof.
  intros V HG Hone Hrem Hin Hcan Hd [Hl (gs & -> & Hin' & Hgs)]. cbn_log. unfold log_left.
  pose proof (valid_padded _ V) as [Hpad _]. rewrite HG. split.
  - rewrite Hin, !len_app, len_group_end by lia. unfold group_tail in Hl. lia.
  - exists [r], gs. cbn [concat records_chain app]. rewrite app_nil_r. change (len [r]) with 1. split; [done|]. split; [done|]. split; [done|].
    split; [done|]. split; [by rewrite Hin, Hin'|]. by rewrite <-Hd.
Qed.

Lemma reading_continue R G r rest :
  reading R -> log_group R = Some G -> group_records G <> 1 -> log_input R = r ++ rest -> len r <= group_remaining G ->
  reading (advance R r rest (log_remaining R - len r) (Some (consume G r))).
Proof.
  intros [H1 H2 H3 H4 H5 H6] HG Hn Hin Hle. destruct (H6 _ HG) as (V & K1 & K2 & K3 & K4). pose proof (len_nonneg r).
  rewrite Hin, len_app in H1. split; cbn_log; try lia; [apply sha256_len|]. intros G' [= <-]. unfold group_tail in *. cbn_log. split; [done|]. lia.
Qed.

Lemma reading_close R G r input :
  reading R -> log_group R = Some G -> log_sequence R + 1 <= log_last R ->
  log_input R = r ++ group_end (group_length (group_header G)) (group_hash G ++ r) ++ input -> len r = group_remaining G ->
  reading (advance R r input (log_remaining R - len r - group_tail G) None).
Proof.
  intros [H1 H2 H3 H4 H5 H6] HG Hn Hin Hle. destruct (H6 _ HG) as (V & K1 & K2 & K3 & K4). pose proof (len_nonneg r).
  pose proof (valid_padded _ V) as [Hpad _]. rewrite Hin, !len_app, len_group_end in H1 by lia. pose proof (len_nonneg input).
  unfold group_tail, TRAILER_BYTES in *. split; cbn_log; try lia; [apply sha256_len|done].
Qed.

(** A step keeps the invariant and takes one record off what is left. *)
Definition stepped (R : Records) (record : LogRecord) (R' : Records) : Prop :=
  log_sequence R' = log_sequence R + 1 /\ log_last R' = log_last R /\ log_done R' = log_done R /\ log_remaining R' + 72 <= log_remaining R
  /\ (log_sequence R' <= log_last R' -> reading R') /\ (log_last R' < log_sequence R' -> log_group R' = None /\ log_left R' [])
  /\ exists r, record = read_from R r /\ forall rs, log_left R' rs -> log_left R (r :: rs).

Lemma inside_sound R G record R' :
  reading R -> log_group R = Some G -> next_record R = Ok (record, R') -> stepped R record R'.
Proof.
  intros HR HG Hn. apply (next_inside_inv _ _ _ _ HR HG) in Hn as (r & rest & Hin & Hcan & Hle & -> & Hcase).
  pose proof (canonical_len _ _ _ (reading_predecessor _ HR) Hcan) as Hlen. destruct (reading_group _ HR _ HG) as (V & K1 & K2 & K3 & K4).
  pose proof (valid_padded _ V) as [Hpad _]. pose proof (reading_input _ HR) as Hil.
  destruct Hcase as [[Hne ->]|(Hone & Hrem & Hd & input & -> & -> & Hend)]; unfold stepped; cbn_log;
    (split; [done|]); (split; [done|]); (split; [done|]).
  - split; [lia|]. split; [intros _; by apply reading_continue|]. split; [lia|].
    exists r. split; [done|]. intros rs. by apply left_inside.
  - split; [unfold group_tail, TRAILER_BYTES in *; lia|]. split; [intros; by apply reading_close|]. split.
    + intros Hgt. destruct (Hend Hgt) as [E1 E2]. cbn_log. split; [done|]. split; cbn_log.
      * rewrite E1. rewrite Hin, !len_app, len_group_end in Hil by lia. pose proof (len_nonneg input). unfold group_tail in *. lia.
      * exists []. split; [done|]. split; [|split; [pose proof (reading_sequence _ HR); lia|done]].
        rewrite Hin, !len_app, len_group_end in Hil by lia. destruct input; [done|]. rewrite len_cons in Hil. pose proof (len_nonneg input).
        unfold group_tail in *. lia.
    + exists r. split; [done|]. intros rs. by apply left_last.
Qed.

Lemma next_sound R record R' : reading R -> next_record R = Ok (record, R') -> stepped R record R'.
Proof.
  intros HR Hn. destruct (log_group R) as [G|] eqn:HG; [by eapply inside_sound|].
  rewrite next_record_open in Hn by done. step_ok Hn as [R1 G] eqn Ho. cbn [fst snd] in Hn.
  apply open_group_iff in Ho as (h & rest & Hin & T & V & Hp & Hf & Hpre & Hlast & -> & ->); [|apply HR].
  pose proof (reading_entered _ _ _ HR Hin T V Hp Hf Hlast) as HR'.
  destruct (inside_sound _ (entered h) _ _ HR' eq_refl Hn) as (E1 & E2 & E3 & E4 & E5 & E6 & r & -> & Hleft).
  cbn_log. unfold stepped. unfold HEADER_BYTES in E4. do 3 (split; [done|]). split; [lia|]. do 2 (split; [done|]). exists r. split; [done|].
  intros rs Hrs. by eapply left_enter; [..|apply Hleft].
Qed.

Lemma stepped_remaining R record R' : stepped R record R' -> 0 <= log_remaining R'.
Proof.
  intros (_ & _ & _ & _ & Hr & Hl & _). pose proof (len_nonneg (log_input R')). destruct (Z_lt_le_dec (log_last R') (log_sequence R')) as [Hgt|Hle].
  - destruct (Hl Hgt) as [_ [E _]]. lia.
  - pose proof (reading_input _ (Hr Hle)). lia.
Qed.

(** Past the last sequence nothing is left. *)
Lemma left_finished R rs : log_group R = None -> log_sequence R = log_last R + 1 -> log_left R rs -> rs = [].
Proof.
  intros HG Hs [_ Hleft]. rewrite HG in Hleft. destruct Hleft as (gs & -> & _ & Hgs). rewrite Hs in Hgs. by apply groups_chain_done in Hgs as [-> _].
Qed.

Lemma inside_complete R G rs :
  reading R -> log_group R = Some G -> log_left R rs ->
  exists r tail R', rs = r :: tail /\ next_record R = Ok (read_from R r, R') /\ log_left R' tail.
Proof.
  intros HR HG [Hl Hleft]. rewrite HG in Hleft. destruct Hleft as (hs & gs & -> & Hc & Hlen & Hch & Hin & Hgs).
  destruct (reading_group _ HR _ HG) as (V & K1 & K2 & K3 & K4). pose proof (valid_padded _ V) as [Hpad _].
  destruct hs as [|r hs]; [rewrite len_nil in Hc; lia|]. destruct Hch as [Hcan Hch]. cbn [concat] in *. rewrite len_cons, len_app in *.
  pose proof (len_nonneg hs) as Hpos. pose proof (len_nonneg (concat hs)). destruct (decide (group_records G = 1)) as [Hone|Hone].
  - assert (hs = []) as -> by (destruct hs; [done|]; rewrite len_cons in Hc; pose proof (len_nonneg hs); lia). cbn [concat app] in *.
    rewrite app_nil_r in Hin. cbn [records_chain] in Hch. rewrite (len_nil (A:=byte)) in Hlen. rewrite len_nil in Hgs. exists r, (concat (map snd gs)). eexists. split; [done|]. split.
    + eapply next_inside_last; try done; [lia|]. intros Hgt. cbn_log. pose proof (reading_sequence _ HR).
      replace (log_sequence R + (1 + 0)) with (log_last R + 1) in Hgs by lia. apply groups_chain_done in Hgs as [-> ->].
      rewrite <-Hl, Hin, !len_app, len_group_end by lia. cbn [map concat]. rewrite len_nil. unfold group_tail. split; [lia|done].
    + split; cbn_log; [|exists gs; rewrite <-Hch; split; [done|]; split; [done|]; by rewrite Z.add_0_r in Hgs].
      rewrite <-Hl, Hin, !len_app, len_group_end by lia. unfold group_tail. lia.
  - exists r, (hs ++ concat (map snd gs)). eexists. split; [done|]. rewrite <-app_assoc in Hin. split.
    + eapply next_inside_ok; try done. lia.
    + split; cbn_log; [rewrite Hin, len_app in Hl; lia|]. exists hs, gs. split; [done|]. split; [lia|]. split; [lia|]. split; [done|].
      split; [by rewrite <-app_assoc|]. by rewrite <-Z.add_assoc.
Qed.

Lemma next_complete R rs :
  reading R -> log_left R rs -> exists r tail R', rs = r :: tail /\ next_record R = Ok (read_from R r, R') /\ log_left R' tail.
Proof.
  intros HR Hleft. destruct (log_group R) as [G|] eqn:HG; [by eapply inside_complete|].
  destruct (left_open _ _ HR HG Hleft) as (h & rest & Hin & T & V & Hp & Hf & Hpre & Hlast & Hleft').
  pose proof (reading_entered _ _ _ HR Hin T V Hp Hf Hlast) as HR'.
  destruct (inside_complete _ (entered h) _ HR' eq_refl Hleft') as (r & tail & R' & -> & Hn & Hl). exists r, tail, R'. split; [done|]. split; [|done].
  rewrite next_record_open by done. rewrite (proj2 (open_group_iff R (enter R h rest) (entered h) (reading_max _ HR))); [exact Hn|].
  by exists h, rest.
Qed.

(** ** The loop over the records *)
Fixpoint records_of (s : Z) (rs : list bytes) : list LogRecord :=
  match rs with
  | [] => []
  | r :: rs => {| record_sequence := s; record_digest := sha256 r; record_bytes := r |} :: records_of (s + 1) rs
  end.

Lemma records_item_ok R record R' :
  log_done R = false -> next_record R = Ok (record, R') ->
  records_item R = (if log_sequence R' >? log_last R' then finish_records R' else R', Some (Ok record)).
Proof. intros Hd Hn. unfold records_item. by rewrite Hd, Hn. Qed.

Lemma for_records_done {S} (f : S -> LogRecord -> Result StorageError S) fuel state R :
  for_records f fuel state (finish_records R) = Ok state.
Proof. by destruct fuel. Qed.

Lemma for_records_iff {S} (f : S -> LogRecord -> Result StorageError S) fuel : forall state R state',
  reading R -> log_done R = false -> log_remaining R < 72 * (Z.of_nat fuel + 1) ->
  for_records f fuel state R = Ok state' <->
  exists rs, log_left R rs /\ foldR f state (records_of (log_sequence R) rs) = Ok state'.
Proof.
  induction fuel as [|fuel IH]; intros state R state' HR Hd Hfuel.
  - split.
    + cbn [for_records]. unfold records_item. rewrite Hd. destruct (next_record R) as [[record R']| |] eqn:Hn; [|done..]. intros _. exfalso.
      apply next_sound in Hn as Hst; [|done]. pose proof (stepped_remaining _ _ _ Hst). destruct Hst as (_ & _ & _ & Hrem & _). lia.
    + intros (rs & Hleft & _). exfalso. destruct (next_complete _ _ HR Hleft) as (r & tail & R' & -> & Hn & Hleft').
      apply next_sound in Hn as Hst; [|done]. pose proof (stepped_remaining _ _ _ Hst). destruct Hst as (_ & _ & _ & Hrem & _). lia.
  - assert (forall r R', next_record R = Ok (read_from R r, R') -> (forall rs, log_left R' rs -> log_left R (r :: rs)) ->
      for_records f (Datatypes.S fuel) state R = Ok state' <->
      exists rs, log_left R' rs /\ foldR f state (read_from R r :: records_of (log_sequence R + 1) rs) = Ok state') as Hstep.
    { intros r R' Hn Hleft. pose proof (next_sound _ _ _ HR Hn) as (E1 & E2 & E3 & E4 & E5 & E6 & _).
      cbn [for_records]. rewrite (records_item_ok _ _ _ Hd Hn). cbn [bindR foldR]. destruct (f state (read_from R r)) as [st| |]; cbn [bindR].
      2,3: split; [done|by intros (? & _ & ?)].
      destruct (Z.gtb_spec (log_sequence R') (log_last R')) as [Hgt|Hle].
      - rewrite for_records_done. destruct (E6 Hgt) as [HG' Hl0]. split; [intros Hst; exists []; by split|].
        intros (rs & Hl & Hf). pose proof (reading_sequence _ HR). apply left_finished in Hl; [|done|lia]. by subst rs.
      - rewrite <-E1. apply IH; [by apply E5; lia|congruence|lia]. }
    split.
    + intros Hf. pose proof Hf as Hf'. cbn [for_records] in Hf'. unfold records_item in Hf'. rewrite Hd in Hf'.
      destruct (next_record R) as [[record R']| |] eqn:Hn; [|done..]. clear Hf'.
      pose proof (next_sound _ _ _ HR Hn) as (_ & _ & _ & _ & _ & _ & r & -> & Hleft).
      apply (Hstep r R' eq_refl Hleft) in Hf as (rs & Hl & Hf). exists (r :: rs). by split; [apply Hleft|].
    + intros (rs & Hleft & Hf). destruct (next_complete _ _ HR Hleft) as (r & tail & R' & -> & Hn & Hleft').
      pose proof (next_sound _ _ _ HR Hn) as (_ & _ & _ & _ & _ & _ & r' & E & Hl). assert (r' = r) as -> by (injection E; done).
      apply (Hstep r R' Hn Hl). by exists tail.
Qed.

(** ** Absence of panics *)
Lemma open_group_no_panic R : log_remaining R <= u64_max -> no_panic (open_group R).
Proof.
  intros Hmax. unfold open_group. destruct (_ <? _); [done|]. apply bindR_no_panic; [apply read_committed_no_panic|].
  intros [data rest] [_ Hl]%read_committed_ok; [|done]. apply bindR_no_panic; [by apply group_decode_no_panic|].
  intros h (-> & T & V)%group_decode_iff; [|done]. pose proof (valid_padded _ V) as [Hp Hbig]. change (2 ^ 33) with 8589934592 in Hbig.
  pose proof (valid_group_inv _ V) as (Hc & Hne & Hfc & _). pose proof (typed_group_first _ T) as [Hf0 _]. unfold MAX_GROUP_RECORDS in *.
  rewrite (proj2 (group_bytes_ok _ _)) by (split; [done|unfold u64_max; lia]). cbn [bindR]. rewrite arith_u64_ok by lia. cbn [bindR].
  destruct (_ || _) eqn:E; [done|]. apply orb_false_iff in E as [E _]. apply orb_false_iff in E as [E _]. apply orb_false_iff in E as [E _].
  rewrite Z.gtb_ltb in E. apply Z.ltb_ge in E. unfold HEADER_BYTES, GROUP_OVERHEAD, u64_max in *.
  repeat (rewrite arith_u64_ok by (unfold u64_max; lia); cbn [bindR]). done.
Qed.

Lemma close_group_no_panic G digest input remaining :
  valid_group (group_header G) = true -> group_tail G <= remaining <= u64_max -> no_panic (close_group G digest input remaining).
Proof.
  intros V Hrem. pose proof (valid_padded _ V) as [Hp Hbig]. change (2 ^ 33) with 8589934592 in Hbig. unfold group_tail, TRAILER_BYTES, u64_max in *.
  unfold close_group. destruct (_ || _); [done|]. apply bindR_no_panic; [apply read_committed_no_panic|]. intros [data rest] _.
  rewrite trailer_eq by apply sha256_len. cbn [bindR]. destruct (negb _); [done|]. unfold TRAILER_BYTES.
  rewrite arith_u64_ok by (unfold u64_max; lia). cbn [bindR]. rewrite (proj2 (group_bytes_ok _ _)) by (split; [done|unfold u64_max; lia]). cbn [bindR].
  rewrite arith_u64_ok by (unfold u64_max; lia). cbn [bindR]. apply bindR_no_panic; [|intros ? _; by rewrite arith_u64_ok by (unfold u64_max; lia)].
  unfold read_padding. destruct (_ >? _); [done|]. apply bindR_no_panic; [apply read_committed_no_panic|]. intros [? ?] _. by destruct (any_nonzero _).
Qed.

Lemma inside_no_panic R G : reading R -> log_group R = Some G -> no_panic (next_record R).
Proof.
  intros HR HG. pose proof (reading_u64 _ HR) as Hs. destruct HR as [H1 H2 H3 H4 H5 H6]. destruct (H6 _ HG) as (V & K1 & K2 & K3 & K4).
  pose proof (valid_padded _ V) as [Hpad _]. unfold next_record. rewrite HG. cbn [bindR]. apply bindR_no_panic; [apply read_canonical_no_panic|].
  intros [rec rest] (r & _ & Hcan & Hle & ->)%read_canonical_iff; [|done..]. cbn [record_bytes record_digest].
  pose proof (canonical_len _ _ _ H5 Hcan) as Hlen. unfold group_tail, TRAILER_BYTES, u64_max in *.
  repeat (rewrite arith_u64_ok by (unfold u64_max; lia); cbn [bindR]). apply bindR_no_panic.
  - destruct (_ =? _); [|done]. apply bindR_no_panic; [|by intros [? ?] _]. apply close_group_no_panic; [done|].
    unfold group_tail, TRAILER_BYTES, u64_max. cbn_log. lia.
  - intros [[input remaining] open] _. apply bindR_no_panic; [|done]. destruct (_ >? _); [|done]. destruct (_ || _); [done|]. by destruct (negb _).
Qed.

Lemma next_no_panic R : reading R -> no_panic (next_record R).
Proof.
  intros HR. destruct (log_group R) as [G|] eqn:HG; [by eapply inside_no_panic|]. rewrite next_record_open by done.
  apply bindR_no_panic; [by apply open_group_no_panic, HR|].
  intros [R1 G] (h & rest & Hin & T & V & Hp & Hf & _ & Hlast & -> & ->)%open_group_iff; [|apply HR].
  eapply inside_no_panic; [by eapply reading_entered|done].
Qed.

Lemma for_records_no_panic {S} (f : S -> LogRecord -> Result StorageError S) fuel : (forall state record, no_panic (f state record)) ->
  forall state R, reading R -> log_done R = false -> log_remaining R < 72 * (Z.of_nat fuel + 1) -> no_panic (for_records f fuel state R).
Proof.
  intros Hf. induction fuel as [|fuel IH]; intros state R HR Hd Hfuel; pose proof (next_no_panic _ HR) as Hnp;
    cbn [for_records]; unfold records_item; rewrite Hd; destruct (next_record R) as [[record R']| |] eqn:Hn; try done.
  - exfalso. apply next_sound in Hn as Hst; [|done]. pose proof (stepped_remaining _ _ _ Hst). destruct Hst as (_ & _ & _ & Hrem & _). lia.
  - apply next_sound in Hn as (E1 & E2 & E3 & E4 & E5 & _); [|done].
    cbn [bindR]. apply bindR_no_panic; [apply Hf|]. intros st _. destruct (Z.gtb_spec (log_sequence R') (log_last R')) as [Hgt|Hle].
    + by rewrite for_records_done.
    + apply IH; [by apply E5; lia|congruence|lia].
Qed.
End LogFacts.
