(* ===== verification/LogChains.v ===== *)
(** * Segments and the log of a manifest

    A segment is accepted exactly when it is its header followed by the images
    of chained groups; the segments of an accepted manifest form one chain. *)
From S2P Require Import Prelude Errors Bytes Limits Metadata MetadataFacts Wal WalFacts LogFacts.

Section LogChains.
Context `{Checksum} `{Sha256}.

(** ** One segment *)

(** [rs] are the records of the segment [s] stored in [file]. *)
Definition segment_holds (file database : bytes) (s : SegmentDescriptor) (rs : list bytes) : Prop :=
  exists gs rest, file = segment_image database s ++ zeros (BLOCK_BYTES - SEGMENT_BYTES) ++ concat (map group_image gs) ++ rest
    /\ BLOCK_BYTES + len (concat (map group_image gs)) = committed_bytes s
    /\ groups_chain (first_sequence s) (predecessor_digest s) gs (last_sequence s + 1) (last_digest s)
    /\ rs = concat (map snd gs).

Lemma validate_descriptor_inv s :
  descriptor_typed s -> validate_descriptor s = Ok tt ->
  1 <= first_sequence s <= last_sequence s /\ last_sequence s < u64_max /\ BLOCK_BYTES <= committed_bytes s <= u64_max
  /\ committed_bytes s mod BLOCK_BYTES = 0.
Proof.
  intros T Hv. unfold validate_descriptor in Hv. step_if Hv eqn E1. step_if Hv eqn E2. step_ok Hv as records eqn Hr.
  apply arith_u64_inv in Hr as [-> Hr]. step_if Hv eqn E3. apply orb_false_iff in E2 as [E2 E5]. apply orb_false_iff in E2 as [E2 E4].
  unfold valid_id in *. apply orb_false_iff in E3 as [E3 E6]. apply negb_false_iff, andb_true_iff in E6 as [E6 _].
  pose proof (typed_committed _ T) as Hc. pose proof (typed_first _ T). pose proof (typed_last _ T). unfold is_u64 in *. change (256 ^ 8) with 18446744073709551616 in *.
  apply negb_false_iff, Z.eqb_eq in E3. apply Z.leb_le in E6.
  assert (0 <= div_ceil (last_sequence s - first_sequence s + 1) MAX_GROUP_RECORDS) as Hd by (apply Z.div_pos; unfold MAX_GROUP_RECORDS; blia).
  set (groups := div_ceil _ MAX_GROUP_RECORDS) in *. clearbody groups. assert (0 <= (last_sequence s - first_sequence s + 1) * 72 + groups * GROUP_OVERHEAD) as Hb by (unfold GROUP_OVERHEAD; lia).
  pose proof (div_ceil_block _ Hb) as Hblock. blia.
Qed.

(** The reader at an offset of a segment's file. *)
Definition reader_at (s : SegmentDescriptor) (offset first : Z) (predecessor input : bytes) : Records :=
  {| log_input := input; log_remaining := committed_bytes s - offset; log_sequence := first;
     log_predecessor := predecessor; log_last := last_sequence s; log_last_digest := last_digest s;
     log_group := None; log_done := false |}.

(** The reader at the first group. *)
Definition reader_of (s : SegmentDescriptor) (groups : bytes) : Records :=
  reader_at s BLOCK_BYTES (first_sequence s) (predecessor_digest s) groups.

Definition segment_opens (file database : bytes) (s : SegmentDescriptor) (input : bytes) : Prop :=
  validate_descriptor s = Ok tt
  /\ file = segment_image database s ++ zeros (BLOCK_BYTES - SEGMENT_BYTES) ++ input.

Lemma skip_block (image input : bytes) :
  len image = SEGMENT_BYTES -> drop (Z.to_nat BLOCK_BYTES) (image ++ zeros (BLOCK_BYTES - SEGMENT_BYTES) ++ input) = input.
Proof.
  intros Hl. rewrite app_assoc. set (header := image ++ zeros _). assert (len header = BLOCK_BYTES) as <-; [|apply drop_len_app].
  unfold header. by rewrite len_app, Hl, len_zeros.
Qed.

Lemma Records_suffix_iff file database s offset first predecessor R :
  descriptor_typed s -> len database = 16 ->
  Records_suffix file database s offset first predecessor = Ok R <->
  (exists input, segment_opens file database s input) /\ BLOCK_BYTES <= offset <= committed_bytes s
  /\ first_sequence s <= first <= last_sequence s /\ offset mod BLOCK_BYTES = 0
  /\ R = reader_at s offset first predecessor (take (Z.to_nat (committed_bytes s - offset)) (drop (Z.to_nat offset) file)).
Proof.
  intros T Hdb. pose proof (typed_predecessor _ T) as Hpre. pose proof (len_segment_image database s Hdb Hpre) as Himg.
  unfold Records_suffix, segment_opens. split.
  - intros Hn. step_ok Hn as u eqn Hv. apply map_err_ok in Hv. destruct u.
    step_ok Hn as [header input] eqn Hh. apply read_committed_ok in Hh as [-> Hl]; [|done]. cbn [fst snd] in Hn. step_ok Hn as u eqn Hval. destruct u.
    apply validate_segment_header_iff in Hval as ->; [|done..]. step_ok Hn as tail eqn Hpad. apply read_padding_ok in Hpad as [_ ->]; [|done].
    step_if Hn eqn E. apply ok_inj in Hn as <-. split; [by exists tail|]. bsimp. do 3 (split; [lia|]). done.
  - intros ([input [Hv ->]] & Ho & Hf & Hm & ->). rewrite Hv. cbn [map_err bindR].
    rewrite (proj2 (read_committed_ok _ 96 (segment_image database s) _ ltac:(done))) by done. cbn [bindR].
    rewrite (proj2 (validate_segment_header_iff _ _ _ Himg Hdb T)) by done. cbn [bindR].
    rewrite (proj2 (read_padding_ok _ (BLOCK_BYTES - SEGMENT_BYTES) input ltac:(done))) by done. cbn [bindR].
    rewrite !(proj2 (Z.ltb_ge _ _)), !gtb_false, Hm by lia. done.
Qed.

Lemma Records_new_iff file database s R :
  descriptor_typed s -> len database = 16 ->
  Records_new file database s = Ok R <->
  exists input, segment_opens file database s input /\ R = reader_of s (take (Z.to_nat (committed_bytes s - BLOCK_BYTES)) input).
Proof.
  intros T Hdb. pose proof (len_segment_image database s Hdb (typed_predecessor _ T)) as Himg. unfold Records_new. rewrite Records_suffix_iff by done. split.
  - intros ([input Ho] & _ & _ & _ & ->). exists input. split; [done|]. destruct Ho as [_ ->]. unfold reader_of. f_equal. f_equal. by apply skip_block.
  - intros (input & Ho & ->). destruct Ho as [Hv Hfile]. pose proof (validate_descriptor_inv _ T Hv) as (Hs & _ & Hc & Hm).
    split; [by exists input|]. do 2 (split; [lia|]). split; [done|]. unfold reader_of. do 2 f_equal. rewrite Hfile. symmetry. by apply skip_block.
Qed.

Lemma reading_new s input :
  descriptor_typed s -> validate_descriptor s = Ok tt ->
  reading (reader_of s (take (Z.to_nat (committed_bytes s - BLOCK_BYTES)) input)).
Proof.
  intros T Hv. pose proof (validate_descriptor_inv _ T Hv) as (Hs & Hmax & Hc & Hm). split; cbn [reader_of reader_at log_input log_remaining log_sequence
    log_last log_predecessor log_group]; try lia.
  - unfold len. rewrite length_take. lia.
  - unfold BLOCK_BYTES. lia.
  - apply T.
  - done.
Qed.

Lemma records_fuel_enough R : 0 <= log_remaining R -> log_remaining R < 72 * (Z.of_nat (records_fuel R) + 1).
Proof.
  intros Hr. unfold records_fuel. pose proof (Z.div_pos (log_remaining R) 72 Hr ltac:(lia)). rewrite Z2Nat.id by lia.
  pose proof (Z.div_mod (log_remaining R) 72 ltac:(lia)). pose proof (Z.mod_pos_bound (log_remaining R) 72). lia.
Qed.

(** Any loop over the records of a segment is the loop over the records it holds. *)
Lemma for_segment {S} (f : S -> LogRecord -> Result StorageError S) file database s state state' :
  descriptor_typed s -> len database = 16 ->
  (let* records := Records_new file database s in for_records f (records_fuel records) state records) = Ok state' <->
  validate_descriptor s = Ok tt /\ exists rs, segment_holds file database s rs
    /\ foldR f state (records_of (first_sequence s) rs) = Ok state'.
Proof.
  intros T Hdb. split.
  - intros Hf. step_ok Hf as R eqn HR. apply Records_new_iff in HR as (input & [Hv Hfile] & ->); [|done..].
    pose proof (validate_descriptor_inv _ T Hv) as (Hs & _ & Hc & _).
    apply for_records_iff in Hf as (rs & [Hl (gs & -> & Hin & Hgs)] & Hf); [|by apply reading_new|done|apply records_fuel_enough; cbn; lia].
    cbn [reader_of reader_at log_input log_remaining log_sequence log_predecessor log_last log_last_digest] in Hl, Hin, Hgs, Hf.
    split; [done|]. exists (concat (map snd gs)). split; [|done]. exists gs, (drop (Z.to_nat (committed_bytes s - BLOCK_BYTES)) input).
    rewrite <-Hin, take_drop. split; [done|]. split; [lia|]. done.
  - intros (Hv & rs & (gs & rest & -> & Hc & Hgs & ->) & Hf). set (image := concat (map group_image gs)) in *. pose proof (len_nonneg image) as Hpos.
    assert (take (Z.to_nat (committed_bytes s - BLOCK_BYTES)) (image ++ rest) = image) as Htake.
    { replace (committed_bytes s - BLOCK_BYTES) with (len image) by lia. apply take_len_app. }
    rewrite (proj2 (Records_new_iff _ database s (reader_of s image) T Hdb)) by (exists (image ++ rest); split; [by split|by rewrite Htake]). cbn [bindR].
    pose proof (reading_new s (image ++ rest) T Hv) as HR. rewrite Htake in HR.
    apply for_records_iff; [done|done|apply records_fuel_enough; cbn; lia|]. exists (concat (map snd gs)). split; [|done].
    split; [cbn; lia|]. cbn. by exists gs.
Qed.

Lemma for_segment_no_panic {S} (f : S -> LogRecord -> Result StorageError S) file database s state :
  (forall state record, no_panic (f state record)) -> descriptor_typed s -> len database = 16 -> no_panic (validate_descriptor s) ->
  no_panic (let* records := Records_new file database s in for_records f (records_fuel records) state records).
Proof.
  intros Hf T Hdb Hnp. apply bindR_no_panic.
  - unfold Records_new, Records_suffix. apply bindR_no_panic; [by apply map_err_no_panic|]. intros u _.
    apply bindR_no_panic; [apply read_committed_no_panic|]. intros [header rest] [_ Hl]%read_committed_ok; [|done].
    apply bindR_no_panic; [by apply validate_segment_header_no_panic|]. intros _ _. apply bindR_no_panic; [|intros ? _; by destruct (_ || _)].
    unfold read_padding. destruct (_ >? _); [done|]. apply bindR_no_panic; [apply read_committed_no_panic|]. intros [? ?] _. by destruct (any_nonzero _).
  - intros R (input & [Hv _] & ->)%Records_new_iff; [|done..]. pose proof (validate_descriptor_inv _ T Hv) as (Hs & _ & Hc & _).
    apply for_records_no_panic; [done|by apply reading_new|done|apply records_fuel_enough; cbn; lia].
Qed.

Lemma fold_append (l : list LogRecord) : forall acc,
  foldR (fun state record => Ok (E:=StorageError) (state ++ [record])) acc l = Ok (acc ++ l).
Proof. induction l as [|r l IH]; intros acc; cbn [foldR bindR]; [by rewrite app_nil_r|]. by rewrite IH, <-app_assoc. Qed.

Lemma segment_records_iff file database s records :
  descriptor_typed s -> len database = 16 ->
  segment_records file database s = Ok records <->
  validate_descriptor s = Ok tt /\ exists rs, segment_holds file database s rs /\ records = records_of (first_sequence s) rs.
Proof.
  intros T Hdb. unfold segment_records. rewrite (for_segment _ file database s [] records) by done. setoid_rewrite fold_append. cbn [app].
  split; intros [Hv (rs & Hh & Hr)]; (split; [done|]); exists rs; (split; [done|]); [by apply ok_inj in Hr|by subst].
Qed.

(** The record at the checkpoint has the checkpoint's digest. *)
Definition agrees (m : Manifest) (record : LogRecord) : Prop :=
  record_sequence record = manifest_checkpoint_sequence m -> record_digest record = checkpoint_digest m.

Lemma fold_agrees m l :
  foldR (fun _ record =>
    if (record_sequence record =? manifest_checkpoint_sequence m) && negb (bool_decide (record_digest record = checkpoint_digest m))
    then Err (Corrupt "log checkpoint digest mismatch") else Ok tt) tt l = Ok tt <-> Forall (agrees m) l.
Proof.
  induction l as [|r l IH]; cbn [foldR]; [by split|]. rewrite Forall_cons, <-IH. unfold agrees at 1.
  destruct (Z.eqb_spec (record_sequence r) (manifest_checkpoint_sequence m)); cbn [andb].
  - case_bool_decide; cbn [negb bindR]; naive_solver.
  - cbn [bindR]. naive_solver.
Qed.

Lemma validate_segment_iff file m s :
  descriptor_typed s -> len (database_id m) = 16 ->
  validate_segment file m s = Ok tt <->
  validate_descriptor s = Ok tt /\ exists rs, segment_holds file (database_id m) s rs
    /\ Forall (agrees m) (records_of (first_sequence s) rs).
Proof.
  intros T Hdb. unfold validate_segment. rewrite (for_segment _ file (database_id m) s tt tt) by done. by setoid_rewrite fold_agrees.
Qed.

(** ** The log of a manifest *)
Definition log_holds (files : Z -> option bytes) (m : Manifest) (s : SegmentDescriptor) (rs : list bytes) : Prop :=
  exists file, files (segment_id s) = Some file /\ segment_holds file (database_id m) s rs
    /\ Forall (agrees m) (records_of (first_sequence s) rs).

(** [rs] are the records of the log of [m], in order. *)
Definition log_of (files : Z -> option bytes) (m : Manifest) (rs : list bytes) : Prop :=
  exists rss, Forall2 (log_holds files m) (segments m) rss /\ rs = concat rss.

Lemma fold_validate files m segs :
  Forall descriptor_typed segs -> len (database_id m) = 16 ->
  foldR (fun _ segment =>
    let* file := ok_or (Corrupt "missing authoritative log segment") (files (segment_id segment)) in
    validate_segment file m segment) tt segs = Ok tt <->
  Forall (fun s => validate_descriptor s = Ok tt /\ exists rs, log_holds files m s rs) segs.
Proof.
  intros Ht Hdb. induction Ht as [|s segs Hs _ IH]; cbn [foldR]; [by split|]. rewrite Forall_cons, <-IH. unfold log_holds at 1. split.
  - intros Hf. step_ok Hf as u eqn Hu. destruct u. split; [|done]. step_ok Hu as file eqn Hfile. apply ok_or_ok in Hfile.
    apply validate_segment_iff in Hu as [Hv (rs & Hh & Ha)]; [|done..]. split; [done|]. by exists rs, file.
  - intros [[Hv (rs & file & Hfile & Hh & Ha)] Hrest]. rewrite Hfile. cbn [ok_or bindR].
    rewrite (proj2 (validate_segment_iff file m s Hs Hdb)) by (split; [done|]; by exists rs). done.
Qed.

Lemma validate_logs_iff files m :
  manifest_typed m ->
  validate_logs files m = Ok tt <->
  validate_manifest m = Ok tt /\ Forall (fun s => exists rs, log_holds files m s rs) (segments m).
Proof.
  intros T. unfold validate_logs. split.
  - intros Hv. step_ok Hv as u eqn Hm. apply map_err_ok in Hm. destruct u. split; [done|].
    apply fold_validate in Hv; [|apply T..]. eapply Forall_impl; [exact Hv|]. by intros s [_ ?].
  - intros [Hm Hs]. rewrite Hm. cbn [map_err bindR]. apply fold_validate; [apply T..|].
    apply validate_manifest_inv in Hm as [_ Hd]. apply Forall_conj; done.
Qed.

(** Consecutive segments continue the chain. *)
Fixpoint segments_chain (s : Z) (p : bytes) (segs : list SegmentDescriptor) (s' : Z) (p' : bytes) : Prop :=
  match segs with
  | [] => s' = s /\ p' = p
  | segment :: segs =>
      first_sequence segment = s /\ predecessor_digest segment = p
      /\ segments_chain (last_sequence segment + 1) (last_digest segment) segs s' p'
  end.

Lemma links_chain m segs : forall s last_id p s' id' p',
  foldR (validate_link m) (s, last_id, Some p) segs = Ok (s', id', p') -> exists d, p' = Some d /\ segments_chain s p segs s' d.
Proof.
  induction segs as [|x segs IH]; intros s last_id p s' id' p' Hf; cbn [foldR] in Hf.
  - apply ok_inj in Hf. injection Hf as <- <- <-. by exists p.
  - step_ok Hf as [[s1 id1] p1] eqn Hx. unfold validate_link in Hx. step_ok Hx as u eqn Hu. step_if Hx. step_if Hx eqn E1. step_if Hx eqn E2.
    step_ok Hx as following eqn Hfo. step_if Hx. step_ok Hx as next eqn Hn. apply arith_u64_inv in Hn as [-> _]. apply ok_inj in Hx. injection Hx as <- <- <-.
    apply IH in Hf as (d & -> & Hc). exists d. split; [done|]. apply negb_false_iff, Z.eqb_eq in E1. apply negb_false_iff, bool_decide_eq_true_1 in E2. done.
Qed.

Lemma links_start m segs s p s' id' p' :
  segs <> [] -> foldR (validate_link m) (s, 0, p) segs = Ok (s', id', p') ->
  exists q d, p' = Some d /\ (forall x, p = Some x -> x = q) /\ segments_chain s q segs s' d.
Proof.
  destruct segs as [|x segs]; [done|]. intros _ Hf. cbn [foldR] in Hf.
  step_ok Hf as [[s1 id1] p1] eqn Hx. unfold validate_link in Hx. step_ok Hx as u eqn Hu. step_if Hx. step_if Hx eqn E1. step_if Hx eqn E2.
  step_ok Hx as following eqn Hfo. step_if Hx. step_ok Hx as next eqn Hn. apply arith_u64_inv in Hn as [-> _]. apply ok_inj in Hx. injection Hx as <- <- <-.
  apply links_chain in Hf as (d & -> & Hc). exists (predecessor_digest x), d. apply negb_false_iff, Z.eqb_eq in E1. split; [done|]. split; [|done].
  intros q ->. by apply negb_false_iff, bool_decide_eq_true_1 in E2.
Qed.

Lemma records_chain_app a : forall s p b d d',
  records_chain s p a d -> records_chain (s + len a) d b d' -> records_chain s p (a ++ b) d'.
Proof.
  induction a as [|r a IH]; intros s p b d d' Ha Hb; cbn [records_chain app] in *.
  - subst d. by rewrite len_nil, Z.add_0_r in Hb.
  - destruct Ha as [Hr Ha]. split; [done|]. eapply IH; [exact Ha|]. rewrite len_cons in Hb. by rewrite Z.add_assoc in Hb.
Qed.

Lemma groups_records gs : forall s p s' p', groups_chain s p gs s' p' -> records_chain s p (concat (map snd gs)) p'.
Proof.
  induction gs as [|g gs IH]; intros s p s' p'; [by intros [_ ->]|]. intros [Hg Hgs%IH]. cbn [map concat].
  eapply records_chain_app; [apply (ok_records _ _ _ Hg)|exact Hgs].
Qed.

Lemma records_of_app s a b : records_of s (a ++ b) = records_of s a ++ records_of (s + len a) b.
Proof.
  revert s. induction a as [|r a IH]; intros s; cbn [records_of app].
  - by rewrite len_nil, Z.add_0_r.
  - rewrite IH, len_cons. by rewrite Z.add_assoc.
Qed.

Lemma segment_chain file database s rs :
  segment_holds file database s rs ->
  records_chain (first_sequence s) (predecessor_digest s) rs (last_digest s) /\ last_sequence s + 1 = first_sequence s + len rs.
Proof.
  intros (gs & rest & _ & _ & Hgs & ->). split; [by eapply groups_records|by eapply groups_chain_end].
Qed.

(** The records of chained segments are one chain. *)
Lemma segments_records files m segs : forall s p s' p',
  segments_chain s p segs s' p' -> Forall (fun s => exists rs, log_holds files m s rs) segs ->
  exists rss, Forall2 (log_holds files m) segs rss /\ records_chain s p (concat rss) p' /\ s' = s + len (concat rss)
    /\ Forall (agrees m) (records_of s (concat rss)).
Proof.
  induction segs as [|x segs IH]; intros s p s' p' Hc Hs; cbn [segments_chain] in Hc.
  - destruct Hc as [-> ->]. exists []. split; [constructor|]. split; [done|]. split; [cbn; rewrite len_nil; lia|constructor].
  - destruct Hc as (<- & <- & Hc). apply Forall_cons_1 in Hs as [[rs Hrs] Hs]. destruct (IH _ _ _ _ Hc Hs) as (rss & H2 & Hch & -> & Ha).
    exists (rs :: rss). cbn [concat]. split; [by constructor|]. destruct Hrs as (file & _ & Hh & Hag). apply segment_chain in Hh as [Hch0 He].
    rewrite He in *. split; [by eapply records_chain_app|]. rewrite len_app. split; [lia|]. rewrite records_of_app. by apply Forall_app.
Qed.

Lemma manifest_chain m :
  validate_manifest m = Ok tt -> segments m <> [] ->
  exists p, segments_chain (log_floor m) p (segments m) (durable_sequence m + 1) (durable_digest m)
    /\ (log_floor m = 1 -> p = genesis_digest m)
    /\ (log_floor m <> 1 -> log_floor m = manifest_checkpoint_sequence m + 1 -> p = checkpoint_digest m).
Proof.
  intros Hv Hne. unfold validate_manifest in Hv. step_if Hv. do 4 step_if Hv. step_ok Hv as policy eqn Hp. do 3 step_if Hv.
  step_ok Hv as following eqn Hf. do 2 step_if Hv. unfold validate_links in Hv. step_ok Hv as durable eqn Hd. apply arith_u64_inv in Hd as [-> _].
  rewrite bool_decide_false in Hv by done. step_ok Hv as next eqn Hn. apply arith_u64_inv in Hn as [-> _].
  step_ok Hv as [[s' id'] p'] eqn Hs. cbn [fst snd] in Hv. apply links_start in Hs as (q & d & -> & Hq & Hc); [|done].
  step_if Hv eqn E. apply orb_false_iff in E as [E1 E2]. apply negb_false_iff, Z.eqb_eq in E1 as ->.
  apply negb_false_iff, bool_decide_eq_true_1 in E2. injection E2 as ->. exists q. split; [done|]. split.
  - intros E. rewrite E in Hq. cbn [Z.eqb Pos.eqb] in Hq. symmetry. by apply Hq.
  - intros E1 E2. rewrite (proj2 (Z.eqb_neq _ 1)), (proj2 (Z.eqb_eq _ _)) in Hq by done. symmetry. by apply Hq.
Qed.

(** The log of an accepted manifest is one chain of canonical records from its
    floor to its durable frontier. *)
Lemma logs_chain files m :
  manifest_typed m -> validate_logs files m = Ok tt -> segments m <> [] ->
  exists p rss, Forall2 (log_holds files m) (segments m) rss /\ records_chain (log_floor m) p (concat rss) (durable_digest m)
    /\ log_floor m + len (concat rss) = durable_sequence m + 1
    /\ (log_floor m = 1 -> p = genesis_digest m)
    /\ (log_floor m <> 1 -> log_floor m = manifest_checkpoint_sequence m + 1 -> p = checkpoint_digest m)
    /\ Forall (agrees m) (records_of (log_floor m) (concat rss)).
Proof.
  intros T [Hm Hs]%validate_logs_iff Hne; [|done]. destruct (manifest_chain _ Hm Hne) as (p & Hc & Hg & Hk).
  destruct (segments_records _ _ _ _ _ _ _ Hc Hs) as (rss & H2 & Hch & He & Ha). exists p, rss. by repeat split.
Qed.

Lemma validate_descriptor_no_panic s : descriptor_typed s -> no_panic (validate_descriptor s).
Proof.
  intros T. unfold validate_descriptor. destruct (negb _); [done|]. destruct (_ || _) eqn:E; [done|].
  apply orb_false_iff in E as [E E2]. apply orb_false_iff in E as [E1 E3]. unfold valid_id in *.
  pose proof (typed_first _ T). pose proof (typed_last _ T). unfold is_u64 in *. change (256 ^ 8) with 18446744073709551616 in *.
  apply negb_false_iff, andb_true_iff in E1 as [E1 E4]. rewrite arith_u64_ok by blia. cbn [bindR]. by destruct (_ || _).
Qed.

Lemma segment_records_no_panic file database s :
  descriptor_typed s -> len database = 16 -> no_panic (segment_records file database s).
Proof. intros T Hdb. apply for_segment_no_panic; [done..|]. by apply validate_descriptor_no_panic. Qed.

Lemma validate_segment_no_panic file m s :
  descriptor_typed s -> len (database_id m) = 16 -> no_panic (validate_segment file m s).
Proof.
  intros T Hdb. apply for_segment_no_panic; [|done..|by apply validate_descriptor_no_panic]. intros _ record. by destruct (_ && _).
Qed.
End LogChains.
