(* ===== verification/LogValidation.v ===== *)
(** * Reuse of log validation ([src/src/storage/log_validation.rs])

    A live owner's proof that a manifest's log is valid, with the digests of the
    records above the checkpoint; extending it reads only the new suffix. *)
From stdpp Require Import list.
From S2P Require Import Prelude Errors Bytes Limits Metadata Wal.

Definition MAX_PENDING_ANCHORS : Z := 4096.

#[export] Instance Manifest_eq_dec : EqDecision Manifest.
Proof. solve_decision. Defined.

Record LogValidation : Type := { proof_manifest : Manifest; proof_pending : list bytes }.

(** [committed] *)
Definition committed (proof : LogValidation) (previous next : Manifest) (digests : list bytes)
    : Result StorageError (option LogValidation) :=
  if negb (bool_decide (proof_manifest proof = previous)) then Ok None else
  let* count := arith_u64 (durable_sequence next - manifest_checkpoint_sequence next) in
  if count >? MAX_PENDING_ANCHORS then Ok None else
  Ok (Some {| proof_manifest := next; proof_pending := proof_pending proof ++ digests |}).

(** [LogValidation::at_checkpoint] *)
Definition at_checkpoint (manifest : Manifest) : Result StorageError (option LogValidation) :=
  if negb (manifest_checkpoint_sequence manifest =? durable_sequence manifest) then Ok None else
  match validate_manifest manifest with
  | Ok _ => Ok (Some {| proof_manifest := manifest; proof_pending := [] |})
  | Err _ => Ok None
  | Panic => Panic
  end.

Section LogValidation.
Context `{Checksum} `{Sha256}.

Definition validate_segment_extension (file : bytes) (manifest : Manifest) (segment : SegmentDescriptor)
    (offset first : Z) (predecessor : bytes) (pending : list bytes) : Result StorageError (list bytes) :=
  let* records := Records_suffix file (database_id manifest) segment offset first predecessor in
  for_records (fun pending record =>
    if (record_sequence record =? manifest_checkpoint_sequence manifest)
       && negb (bool_decide (record_digest record = checkpoint_digest manifest))
    then Err (Corrupt "log checkpoint digest mismatch") else
    Ok (if record_sequence record >? manifest_checkpoint_sequence manifest
        then pending ++ [record_digest record] else pending)) (records_fuel records) pending records.

(** One turn of the loop over the segments from the last shared one. *)
Definition extend_segment (files : Z -> option bytes) (previous next : Manifest)
    (state : Z * bytes * list bytes) (entry : nat * SegmentDescriptor) : Result StorageError (Z * bytes * list bytes) :=
  let '(sequence, predecessor, pending) := state in
  let '(index, segment) := entry in
  let old := segments previous !! index in
  if bool_decide (old = Some segment) then Ok state else
  let* offset :=
    match old with
    | Some old => Ok (committed_bytes old)
    | None =>
        if negb (first_sequence segment =? sequence) || negb (bool_decide (predecessor_digest segment = predecessor))
        then Err (Corrupt "new segment does not extend the durable anchor") else Ok BLOCK_BYTES
    end in
  let* file := ok_or (Corrupt "missing authoritative log segment") (files (segment_id segment)) in
  let* pending := validate_segment_extension file next segment offset sequence predecessor pending in
  let* sequence := arith_u64 (last_sequence segment + 1) in
  Ok (sequence, last_digest segment, pending).

(** The checks of [validate_extension] that make it fall back to full
    validation: the identities and frontiers, then the segment vectors. *)
Definition extends_publication (proof : LogValidation) (previous next : Manifest) : bool :=
  bool_decide (proof_manifest proof = previous)
  && bool_decide (checked_u64 (generation previous + 1) = Some (generation next))
  && bool_decide (database_id next = database_id previous)
  && bool_decide (genesis_digest next = genesis_digest previous)
  && bool_decide (cursor_namespace next = cursor_namespace previous)
  && (page_file_id next =? page_file_id previous)
  && (next_page_file_id next =? next_page_file_id previous)
  && negb (manifest_checkpoint_sequence next <? manifest_checkpoint_sequence previous)
  && negb (durable_sequence next <? durable_sequence previous)
  && negb (history_floor next <? history_floor previous)
  && (log_floor next =? log_floor previous)
  && negb (next_cursor_id next <? next_cursor_id previous)
  && negb (next_segment_id next <? next_segment_id previous).

Definition extends_segments (previous next : Manifest) : Result StorageError bool :=
  let old_count := length (segments previous) in
  if (length (segments next) <? old_count)%nat || (old_count + 1 <? length (segments next))%nat then Ok false else
  let prefix_count := (old_count - 1)%nat in
  if negb (bool_decide (take prefix_count (segments next) = take prefix_count (segments previous))) then Ok false else
  let* tail :=
    match last (segments previous) with
    | Some old =>
        let* tail := expect (segments next !! (old_count - 1)%nat) in
        Ok (bool_decide (tail = old)
            || negb (negb (segment_id tail =? segment_id old)
                     || negb (first_sequence tail =? first_sequence old)
                     || negb (bool_decide (predecessor_digest tail = predecessor_digest old))
                     || (last_sequence tail <=? last_sequence old)
                     || (committed_bytes tail <=? committed_bytes old)))
    | None => Ok true
    end in
  if negb tail then Ok false else
  Ok (match segments next !! old_count with
      | Some segment => negb (segment_id segment <? next_segment_id previous)
      | None => true
      end).

(** The anchor at the candidate's checkpoint. *)
Definition checkpoint_anchor (proof : LogValidation) (previous next : Manifest) : Result StorageError unit :=
  if manifest_checkpoint_sequence next <=? durable_sequence previous then
    let* digest :=
      if manifest_checkpoint_sequence next =? manifest_checkpoint_sequence previous then Ok (checkpoint_digest previous)
      else
        let* index := arith_u64 (manifest_checkpoint_sequence next - manifest_checkpoint_sequence previous - 1) in
        expect (proof_pending proof !! Z.to_nat index) in
    if negb (bool_decide (checkpoint_digest next = digest)) then Err (Corrupt "log checkpoint digest mismatch") else Ok tt
  else Ok tt.

Definition validate_extension (files : Z -> option bytes) (previous next : Manifest) (proof : LogValidation)
    : Result StorageError (option LogValidation) :=
  let* _ := map_err Corrupt (validate_manifest next) in
  if negb (extends_publication proof previous next) then Ok None else
  if (durable_sequence next =? durable_sequence previous)
     && negb (bool_decide (durable_digest next = durable_digest previous))
  then Err (Corrupt "publication changes the durable anchor") else
  let* _ := checkpoint_anchor proof previous next in
  let* extends := extends_segments previous next in
  if negb extends then Ok None else
  let* pending_count := arith_u64 (durable_sequence next - manifest_checkpoint_sequence next) in
  if pending_count >? MAX_PENDING_ANCHORS then Ok None else
  let* pruned :=
    arith_u64 (Z.min (manifest_checkpoint_sequence next) (durable_sequence previous) - manifest_checkpoint_sequence previous) in
  let* kept := expect (if pruned <=? len (proof_pending proof) then Some (drop (Z.to_nat pruned) (proof_pending proof)) else None) in
  let* sequence := arith_u64 (durable_sequence previous + 1) in
  let prefix_count := (length (segments previous) - 1)%nat in
  let* (sequence, predecessor, pending) :=
    foldR (extend_segment files previous next) (sequence, durable_digest previous, kept)
      (drop prefix_count (imap pair (segments next))) in
  let* durable := arith_u64 (durable_sequence next + 1) in
  if negb (sequence =? durable) || negb (bool_decide (predecessor = durable_digest next))
  then Err (Corrupt "log extension does not reach the durable frontier") else
  Ok (Some {| proof_manifest := next; proof_pending := pending |}).
End LogValidation.
