(* ===== verification/Tree.v ===== *)
(** * Copy-on-write B+ trees ([src/src/storage/tree.rs])

    Point reads, seeks, the scan iterator, edits and the structural validator
    over immutable roots of a page file.  A node's level is a byte and a
    child's level is one less than its parent's, so a descent visits at most
    [TREE_FUEL] nodes; running out of fuel would be a [Panic], which
    [TreeReads] and [TreeEdits] exclude. *)
From S2P Require Import Prelude OrdMap Errors Bytes Storage Platform Page.

Definition TREE_FUEL : nat := 256.

(** [slice::partition_point] of a slice that is partitioned. *)
Fixpoint partition_point {A} (p : A -> bool) (l : list A) : nat :=
  match l with
  | [] => O
  | x :: l => if p x then S (partition_point p l) else O
  end.

(** [slice::binary_search_by] over cells in key order: the index of the key,
    or where it would be inserted. *)
Definition search (key : bytes) (cells : list LeafCell) : nat + nat :=
  let index := partition_point (fun cell => cmp_lt (cell_key cell) key) cells in
  match cells !! index with
  | Some cell => if bool_decide (cell_key cell = key) then inl index else inr index
  | None => inr index
  end.

Definition route (keys : list bytes) (key : bytes) : nat :=
  partition_point (fun separator => cmp_le separator key) keys.

Section Trees.
Context `{Checksum}.

Definition expect_level (expected : option Z) (node : Node) : Result StorageError Node :=
  if match expected with Some expected => negb (node_level node =? expected) | None => false end
  then Err (Corrupt "child level does not decrease by one") else Ok node.

Definition load (reader : PageReader) (tree : TreeId) (id : Z) (expected : option Z) : Result StorageError Node :=
  let* node := read_node reader tree id in
  expect_level expected node.
Definition load_shared (reader : PageReader) (tree : TreeId) (id : Z) (expected : option Z) : Result StorageError Node :=
  let* node := shared_node reader tree id in
  expect_level expected node.

(** ** Point reads *)
Fixpoint get_loop (fuel : nat) (reader : PageReader) (tree : TreeId) (id : Z) (expected : option Z) (key : bytes)
    : Result StorageError (option bytes) :=
  match fuel with
  | O => Panic
  | S fuel =>
      let* node := load_shared reader tree id expected in
      match node with
      | Leaf cells =>
          match search key cells with
          | inl index =>
              let* cell := expect (cells !! index) in
              let* value := read_value reader tree (cell_value cell) in
              Ok (Some value)
          | inr _ => Ok None
          end
      | Internal level keys children =>
          let* id := expect (children !! route keys key) in
          let* below := arith_u64 (level - 1) in
          get_loop fuel reader tree id (Some below) key
      end
  end.

(** [tree::get] *)
Definition get (reader : PageReader) (tree : TreeId) (root : Z) (key : bytes) : Result StorageError (option bytes) :=
  let* _ := check_key key in
  if root =? 0 then Ok None else get_loop TREE_FUEL reader tree root None key.

(** The loop of [seek] with the nearest right subtree. *)
Fixpoint seek_loop (fuel : nat) (reader : PageReader) (tree : TreeId) (id : Z) (expected : option Z)
    (successor : option (Z * Z)) (key : bytes) : Result StorageError (option LeafCell) :=
  match fuel with
  | O => Panic
  | S fuel =>
      let* node := load_shared reader tree id expected in
      match node with
      | Leaf cells =>
          let index := partition_point (fun cell => cmp_lt (cell_key cell) key) cells in
          match cells !! index with
          | Some cell => Ok (Some cell)
          | None =>
              match successor with
              | None => Ok None
              | Some (next, level) => seek_loop fuel reader tree next (Some level) None key
              end
          end
      | Internal level keys children =>
          let index := route keys key in
          let* below := arith_u64 (level - 1) in
          let successor :=
            match children !! S index with Some next => Some (next, below) | None => successor end in
          let* id := expect (children !! index) in
          seek_loop fuel reader tree id (Some below) successor key
      end
  end.

(** A successor is below the node that named it, so the descents of one seek
    start at decreasing levels. *)
Definition SEEK_FUEL : nat := TREE_FUEL * TREE_FUEL.

(** [tree::seek]: the located cell. *)
Definition seek (reader : PageReader) (tree : TreeId) (root : Z) (key : bytes) : Result StorageError (option LeafCell) :=
  let* _ := check_key key in
  if root =? 0 then Ok None else seek_loop SEEK_FUEL reader tree root None None key.

(** ** Scans *)
Record Frame : Type := { frame_level : Z; frame_children : list Z; frame_next : nat }.

(** [Scan]; the head of [scan_stack] is the top. *)
Record Scan : Type := {
  scan_reader : PageReader; scan_tree : TreeId; scan_stack : list Frame; scan_leaf : option (list LeafCell);
  scan_next : nat; scan_upper : Bound bytes; scan_last : option bytes; scan_done : bool }.

(** [descend]: the frames pushed on [stack], the leaf and the start in it. *)
Fixpoint descend (fuel : nat) (reader : PageReader) (tree : TreeId) (stack : list Frame) (id : Z)
    (expected : option Z) (lower : Bound bytes) : Result StorageError (list Frame * list LeafCell * nat) :=
  match fuel with
  | O => Panic
  | S fuel =>
      let* node := load_shared reader tree id expected in
      match node with
      | Leaf cells =>
          let start := partition_point (fun cell =>
            match lower with
            | Unbounded => false
            | Included key => cmp_lt (cell_key cell) key
            | Excluded key => cmp_le (cell_key cell) key
            end) cells in
          Ok (stack, cells, start)
      | Internal level keys children =>
          let index := match lower with Unbounded => O | Included key | Excluded key => route keys key end in
          let* id := expect (children !! index) in
          let* below := arith_u64 (level - 1) in
          descend fuel reader tree
            ({| frame_level := level; frame_children := children; frame_next := S index |} :: stack)
            id (Some below) lower
      end
  end.

Definition empty_range (lower upper : Bound bytes) : bool :=
  match lower, upper with
  | Included a, Included b => cmp_lt b a
  | Included a, Excluded b | Excluded a, Included b | Excluded a, Excluded b => cmp_le b a
  | _, _ => false
  end.

(** [tree::scan] *)
Definition scan (reader : PageReader) (tree : TreeId) (root : Z) (lower upper : Bound bytes) : Result StorageError Scan :=
  let* _ := check_bound lower in
  let* _ := check_bound upper in
  let finished := (root =? 0) || empty_range lower upper in
  let* (stack, leaf, next) :=
    if finished then Ok ([], None, O)
    else
      let* (stack, cells, start) := descend TREE_FUEL reader tree [] root None lower in
      Ok (stack, Some cells, start) in
  Ok {| scan_reader := reader; scan_tree := tree; scan_stack := stack; scan_leaf := leaf; scan_next := next;
        scan_upper := upper; scan_last := None; scan_done := finished |}.

Definition beyond (upper : Bound bytes) (key : bytes) : bool :=
  match upper with Unbounded => false | Included bound => cmp_lt bound key | Excluded bound => cmp_le bound key end.

(** [advance]: the remaining state and the entry. *)
Fixpoint advance (fuel : nat) (scan : Scan) : Result StorageError (option (Entry * Scan)) :=
  match fuel with
  | O => Panic
  | S fuel =>
      match match scan_leaf scan with Some cells => cells !! scan_next scan | None => None end with
      | Some cell =>
          if beyond (scan_upper scan) (cell_key cell) then Ok None else
          if match scan_last scan with Some last => cmp_le (cell_key cell) last | None => false end
          then Err (Corrupt "scan keys are not strictly ordered") else
          let* value := read_value (scan_reader scan) (scan_tree scan) (cell_value cell) in
          Ok (Some ((cell_key cell, value),
            {| scan_reader := scan_reader scan; scan_tree := scan_tree scan; scan_stack := scan_stack scan;
               scan_leaf := scan_leaf scan; scan_next := S (scan_next scan); scan_upper := scan_upper scan;
               scan_last := Some (cell_key cell); scan_done := scan_done scan |}))
      | None =>
          match scan_stack scan with
          | [] => Ok None
          | frame :: stack =>
              match frame_children frame !! frame_next frame with
              | None =>
                  advance fuel
                    {| scan_reader := scan_reader scan; scan_tree := scan_tree scan; scan_stack := stack;
                       scan_leaf := scan_leaf scan; scan_next := scan_next scan; scan_upper := scan_upper scan;
                       scan_last := scan_last scan; scan_done := scan_done scan |}
              | Some id =>
                  let* below := arith_u64 (frame_level frame - 1) in
                  let* (stack, cells, start) := descend TREE_FUEL (scan_reader scan) (scan_tree scan)
                    ({| frame_level := frame_level frame; frame_children := frame_children frame;
                        frame_next := S (frame_next frame) |} :: stack) id (Some below) Unbounded in
                  advance fuel
                    {| scan_reader := scan_reader scan; scan_tree := scan_tree scan; scan_stack := stack;
                       scan_leaf := Some cells; scan_next := start; scan_upper := scan_upper scan;
                       scan_last := scan_last scan; scan_done := scan_done scan |}
              end
          end
      end
  end.

Definition finish_scan (scan : Scan) : Scan :=
  {| scan_reader := scan_reader scan; scan_tree := scan_tree scan; scan_stack := scan_stack scan;
     scan_leaf := scan_leaf scan; scan_next := scan_next scan; scan_upper := scan_upper scan;
     scan_last := scan_last scan; scan_done := true |}.

(** [Iterator::next]: every turn of [advance] pops a frame, finds a cell in a
    fresh leaf, or returns. *)
Definition scan_item (scan : Scan) : Scan * option (Result StorageError Entry) :=
  if scan_done scan then (scan, None) else
  match advance (length (scan_stack scan) + 2) scan with
  | Ok (Some (entry, scan)) => (scan, Some (Ok entry))
  | Ok None => (finish_scan scan, None)
  | Err error => (finish_scan scan, Some (Err error))
  | Panic => (finish_scan scan, Some Panic)
  end.

(** Up to [2 ^ doublings] calls of [next]; the items are collected in reverse. *)
Fixpoint drain (doublings : nat) (scan : Scan) (items : Stream StorageError Entry) : Scan * Stream StorageError Entry :=
  if scan_done scan then (scan, items) else
  match doublings with
  | O =>
      let '(scan, item) := scan_item scan in
      (scan, match item with Some item => item :: items | None => items end)
  | S doublings =>
      let '(scan, items) := drain doublings scan items in
      drain doublings scan items
  end.

(** A node has at most 1,024 cells or children. *)
Definition SCAN_DOUBLINGS : nat := 2561.
Definition scan_items (scan : Scan) : Stream StorageError Entry := reverse (drain SCAN_DOUBLINGS scan []).2.

(** ** Edits *)
Record Child : Type := { child_id : Z; child_min : bytes }.
Record Edit : Type := { edit_level : Z; edit_children : list Child }.

Fixpoint minimum (fuel : nat) (reader : PageReader) (tree : TreeId) (id expected : Z) : Result StorageError bytes :=
  match fuel with
  | O => Panic
  | S fuel =>
      let* node := load_shared reader tree id (Some expected) in
      match node with
      | Leaf cells =>
          let* cell := expect (head cells) in
          Ok (cell_key cell)
      | Internal level _ children =>
          let* id := expect (head children) in
          let* below := arith_u64 (level - 1) in
          minimum fuel reader tree id below
      end
  end.

Definition child_list (reader : PageReader) (tree : TreeId) (level : Z) (keys : list bytes) (children : list Z)
    : Result StorageError (list Child) :=
  let* first := expect (head children) in
  let* below := arith_u64 (level - 1) in
  let* min := minimum TREE_FUEL reader tree first below in
  Ok (zip_with (fun id min => {| child_id := id; child_min := min |}) children (min :: keys)).

(** One turn of the loop of [split_point]: [left] and the best index so far. *)
Definition split_step (sizes : list Z) (internal : bool) (state : Z * option (nat * Z)) (index : nat)
    : Result StorageError (Z * option (nat * Z)) :=
  let '(before, best) := state in
  let minimum := if internal then 2%nat else 1%nat in
  let* size := expect (sizes !! pred index) in
  let before := before + size in
  if Nat.ltb index minimum || Nat.ltb (length sizes - index) minimum then Ok (before, best) else
  let* first := expect (head sizes) in
  let* size := expect (sizes !! index) in
  let* left_size := arith_u64 (HEADER_SIZE + before - if internal then first else 0) in
  let* right_size := arith_u64 (HEADER_SIZE + sum_Z sizes - before - if internal then size else 0) in
  if (left_size <=? PAGE_SIZE) && (right_size <=? PAGE_SIZE) then
    let difference := Z.abs (left_size - right_size) in
    if match best with Some (_, previous) => difference <? previous | None => true end
    then Ok (before, Some (index, difference)) else Ok (before, best)
  else Ok (before, best).

Definition split_point (sizes : list Z) (internal : bool) : Result StorageError nat :=
  let* (_, best) := foldR (split_step sizes internal) (0, None) (seq 1 (length sizes - 1)) in
  match best with Some (index, _) => Ok index | None => Err (InvalidInput "node cannot be split") end.

Definition append_leaf (tree : TreeId) (cells : list LeafCell) : FileM Child :=
  do* first := liftM (expect (head cells)) in
  do* id := append_node tree (Leaf cells) in
  okM {| child_id := id; child_min := cell_key first |}.

Definition write_leaves (tree : TreeId) (cells : list LeafCell) : FileM Edit :=
  if bool_decide (cells = []) then okM {| edit_level := 0; edit_children := [] |} else
  let sizes := map leaf_size cells in
  if HEADER_SIZE + sum_Z sizes >? PAGE_SIZE then
    do* split := liftM (split_point sizes false) in
    do* low := append_leaf tree (take split cells) in
    do* high := append_leaf tree (drop split cells) in
    okM {| edit_level := 0; edit_children := [low; high] |}
  else
    do* child := append_leaf tree cells in
    okM {| edit_level := 0; edit_children := [child] |}.

(** [internal] *)
Definition internal_node (level : Z) (children : list Child) : Node :=
  Internal level (map child_min (tail children)) (map child_id children).

Definition append_internal (tree : TreeId) (level : Z) (children : list Child) : FileM Child :=
  do* first := liftM (expect (head children)) in
  do* id := append_node tree (internal_node level children) in
  okM {| child_id := id; child_min := child_min first |}.

Definition write_internal (tree : TreeId) (level : Z) (children : list Child) : FileM Edit :=
  let sizes := map (fun child => 16 + len (child_min child)) children in
  if HEADER_SIZE + sum_Z (tail sizes) >? PAGE_SIZE then
    do* split := liftM (split_point sizes true) in
    do* low := append_internal tree level (take split children) in
    do* high := append_internal tree level (drop split children) in
    okM {| edit_level := level; edit_children := [low; high] |}
  else
    do* child := append_internal tree level children in
    okM {| edit_level := level; edit_children := [child] |}.

(** [children.splice(first..=last, replacement)] *)
Definition splice {A} (first last : nat) (replacement l : list A) : list A :=
  take first l ++ replacement ++ drop (S last) l.

(** [repair]: the children with the underflowing one merged into a sibling. *)
Definition repair (tree : TreeId) (level : Z) (children : list Child) (index : nat) (underflow : list Child)
    : FileM (list Child) :=
  let sibling := match index with O => 1%nat | S index => index end in
  do* file := current in
  let reader := reader file in
  do* child := liftM (expect (children !! sibling)) in
  do* below := liftM (arith_u64 (level - 1)) in
  do* node := liftM (load reader tree (child_id child) (Some below)) in
  match node with
  | Leaf _ => errM (Corrupt "underflow sibling is not internal")
  | Internal sibling_level keys ids =>
      do* siblings := liftM (child_list reader tree sibling_level keys ids) in
      let combined := if Nat.ltb sibling index then siblings ++ underflow else underflow ++ siblings in
      do* repaired := write_internal tree sibling_level combined in
      okM (splice (Nat.min index sibling) (Nat.max index sibling) (edit_children repaired) children)
  end.

(** The leaf case of [update]. *)
Definition update_leaf (tree : TreeId) (cells : list LeafCell) (key : bytes) (value : option bytes)
    : FileM (option Edit) :=
  match search key cells, value with
  | inr _, None => okM None
  | inl index, None =>
      do* edit := write_leaves tree (delete index cells) in
      okM (Some edit)
  | found, Some value =>
      do* stored := store_value tree value in
      let cell := {| cell_key := key; cell_value := stored |} in
      let cells :=
        match found with
        | inl index => <[index := cell]> cells
        | inr index => take index cells ++ cell :: drop index cells
        end in
      do* edit := write_leaves tree cells in
      okM (Some edit)
  end.

(** The internal case of [update] once the child's edit is known; [reader] was
    captured before that edit. *)
Definition update_children (tree : TreeId) (level : Z) (keys : list bytes) (children : list Z) (index : nat)
    (reader : PageReader) (edit : Edit) : FileM (option Edit) :=
  do* file := current in
  do* kids := liftM (child_list (pinned reader file) tree level keys children) in
  do* below := liftM (arith_u64 (level - 1)) in
  do* kids :=
    if negb (bool_decide (edit_children edit = [])) && negb (edit_level edit =? below) then
      if (level <? 2) || negb (edit_level edit =? level - 2) || negb (Nat.eqb (length (edit_children edit)) 1)
      then errM (Corrupt "invalid deletion level transition")
      else repair tree level kids index (edit_children edit)
    else okM (splice index index (edit_children edit) kids) in
  if Nat.eqb (length kids) 1 then okM (Some {| edit_level := below; edit_children := kids |})
  else
    do* edit := write_internal tree level kids in
    okM (Some edit).

Fixpoint update (fuel : nat) (tree : TreeId) (id : Z) (key : bytes) (value : option bytes) (expected : option Z)
    : FileM (option Edit) :=
  match fuel with
  | O => liftM Panic
  | S fuel =>
      do* file := current in
      let reader := reader file in
      do* node := liftM (load reader tree id expected) in
      match node with
      | Leaf cells => update_leaf tree cells key value
      | Internal level keys children =>
          let index := route keys key in
          do* child := liftM (expect (children !! index)) in
          do* below := liftM (arith_u64 (level - 1)) in
          do* edit := update fuel tree child key value (Some below) in
          match edit with
          | None => okM None
          | Some edit => update_children tree level keys children index reader edit
          end
      end
  end.

(** [finish]: the new root. *)
Definition finish (tree : TreeId) (root : Z) (key : bytes) (value : option bytes) : FileM Z :=
  do* edit := update TREE_FUEL tree root key value None in
  match edit with
  | None => okM root
  | Some edit =>
      match edit_children edit with
      | [] => okM 0
      | [child] => okM (child_id child)
      | children =>
          if edit_level edit + 1 >? 255 then errM Exhausted
          else append_node tree (internal_node (edit_level edit + 1) children)
      end
  end.

(** [tree::put] *)
Definition put (tree : TreeId) (root : Z) (key value : bytes) : FileM Z :=
  do* _ := liftM (check_key key) in
  if len value >? MAX_VALUE then errM (InvalidInput "value exceeds 128 MiB") else
  if root =? 0 then
    do* stored := store_value tree value in
    append_node tree (Leaf [{| cell_key := key; cell_value := stored |}])
  else finish tree root key (Some value).

(** [tree::delete] *)
Definition tree_delete (tree : TreeId) (root : Z) (key : bytes) : FileM Z :=
  do* _ := liftM (check_key key) in
  if root =? 0 then okM 0 else finish tree root key None.

(** ** The structural validator *)
Definition own (id : Z) (owned : gset Z) : Result StorageError (gset Z) :=
  if bool_decide (id ∈ owned) then Err (Corrupt "repeated page ownership") else Ok ({[id]} ∪ owned).

(** Turns of the loop over the other children: the state is the owned pages
    and the largest key so far. *)
Fixpoint validate_children (validate_child : gset Z -> Z -> Result StorageError (gset Z * (bytes * bytes)))
    (keys : list bytes) (children : list Z) (owned : gset Z) (max : bytes) : Result StorageError (gset Z * bytes) :=
  match keys, children with
  | separator :: keys, child :: children =>
      let* (owned, (child_min, child_max)) := validate_child owned child in
      if negb (bool_decide (separator = child_min)) || cmp_le child_min max
      then Err (Corrupt "inexact separator or overlapping child ranges")
      else validate_children validate_child keys children owned child_max
  | _, _ => Ok (owned, max)
  end.

Fixpoint validate_subtree (fuel : nat) (reader : PageReader) (tree : TreeId) (expected : option Z) (owned : gset Z)
    (id : Z) : Result StorageError (gset Z * (bytes * bytes)) :=
  match fuel with
  | O => Panic
  | S fuel =>
      let* owned := own id owned in
      let* node := load reader tree id expected in
      match node with
      | Leaf cells =>
          let* owned := foldR (fun owned cell => validate_value reader tree (cell_value cell) owned) owned cells in
          let* first := expect (head cells) in
          let* last := expect (last cells) in
          Ok (owned, (cell_key first, cell_key last))
      | Internal level keys children =>
          let* first := expect (head children) in
          let* below := arith_u64 (level - 1) in
          let* (owned, (min, max)) := validate_subtree fuel reader tree (Some below) owned first in
          let* (owned, max) :=
            validate_children (validate_subtree fuel reader tree (Some below)) keys (tail children) owned max in
          Ok (owned, (min, max))
      end
  end.

(** [tree::validate] *)
Definition validate_tree (reader : PageReader) (tree : TreeId) (root : Z) : Result StorageError unit :=
  if negb (root =? 0) then
    let* _ := validate_subtree TREE_FUEL reader tree None ∅ root in
    Ok tt
  else Ok tt.
End Trees.
