(* ===== verification/TreeFacts.v ===== *)
(** * What a B+ tree holds

    [subtree] relates a node to the entries below it: leaves store them in
    key order, and every separator of an internal node is the first key of the
    child on its right.  The relation survives later writes to the file. *)
From Stdlib Require Import Sorted.
From S2P Require Import Prelude OrdMap Errors Bytes Storage Platform Page PageFacts NodeFacts FileFacts StoredFacts Tree.

Lemma partition_point_spec {A} (p : A -> bool) l :
  Forall (fun x => p x = true) (take (partition_point p l) l) /\
  match drop (partition_point p l) l with [] => True | x :: _ => p x = false end.
Proof.
  induction l as [|x l [IH1 IH2]]; simpl; [by split|]. destruct (p x) eqn:E; simpl; [|by split].
  split; [by constructor|done].
Qed.
Lemma partition_point_le {A} (p : A -> bool) l : (partition_point p l <= length l)%nat.
Proof. induction l as [|x l IH]; simpl; [lia|]. destruct (p x); simpl; lia. Qed.

Definition first_key {V} (m : list (bytes * V)) : option bytes := fst <$> head m.

Lemma first_key_app {V} (a b : list (bytes * V)) k : first_key a = Some k -> first_key (a ++ b) = Some k.
Proof. by destruct a. Qed.

(** What the first key of a part says of its neighbours. *)
Lemma first_before {V} (a b : list (bytes * V)) first key :
  bt_sorted (a ++ b) -> first_key b = Some first -> cmp_le first key = true -> keys_before key a.
Proof.
  intros (_ & _ & Hlt)%bt_sorted_cut Hf Hk. destruct b as [|[k v] b]; [done|]. injection Hf as <-.
  apply Forall_forall. intros e He. apply (cmp_lt_le_trans _ k); [|done]. apply (Hlt e (k, v)); [done|by left].
Qed.
Lemma first_after {V} (m : list (bytes * V)) first key :
  bt_sorted m -> first_key m = Some first -> cmp key first = Lt -> keys_after key m.
Proof.
  intros Hs Hf Hk. destruct m as [|[k v] m]; [done|]. injection Hf as <-. apply StronglySorted_inv in Hs as [_ Hs].
  constructor; [done|]. apply List.Forall_forall. rewrite List.Forall_forall in Hs.
  intros e He. eapply cmp_trans; [exact Hk|]. by apply Hs.
Qed.

Section Holds.
Context `{Checksum}.
Implicit Types (r : PageReader) (m : list Entry).

(** The cells of a leaf and the entries they store. *)
Definition stored r (tree : TreeId) : list LeafCell -> list Entry -> Prop :=
  Forall2 (fun cell e => cell_key cell = e.1 /\ read_value r tree (cell_value cell) = Ok e.2).

(** The separators and the parts to their right. *)
Definition separators : list bytes -> list (list Entry) -> Prop :=
  Forall2 (fun key part => first_key part = Some key).

Fixpoint subtree r (tree : TreeId) (height : nat) (id : Z) m : Prop :=
  match height with
  | O => 0 < id /\ exists cells, read_node r tree id = Ok (Leaf cells) /\ stored r tree cells m
  | S height =>
      0 < id /\ exists keys children parts,
        read_node r tree id = Ok (Internal (Z.of_nat (S height)) keys children) /\
        Forall2 (subtree r tree height) children parts /\ separators keys (tail parts) /\ m = concat parts
  end.

(** [root] holds [m]. *)
Definition tree_holds r (tree : TreeId) (root : Z) m : Prop :=
  if root =? 0 then m = [] else bt_sorted m /\ exists height, subtree r tree height root m.

Lemma tree_holds_sorted r tree root m : tree_holds r tree root m -> bt_sorted m.
Proof. unfold tree_holds. destruct (root =? 0); [intros ->; constructor|by intros [? _]]. Qed.

(** ** Inversion *)
Lemma leaf_inv r tree id cells :
  reader_wf r -> 0 < id -> read_node r tree id = Ok (Leaf cells) ->
  cells <> [] /\ Forall (fun c => len (cell_key c) <= MAX_KEY) cells /\ Forall (cell_wf (reader_count r)) cells /\
  HEADER_SIZE + sum_Z (map leaf_size cells) <= PAGE_SIZE /\ 0 < id < reader_count r.
Proof.
  intros Hwf Hid Hr. destruct (read_node_inv r tree id _ Hwf ltac:(lia) Hr) as (Hb & [H1 H2 H3 H4 H5] & _).
  simpl in *. split; [by intros ->|]. split; [exact (proj1 (Forall_map _ _ _) H3)|]. split; [done|]. by rewrite sum_leaf_sizes.
Qed.

Lemma internal_inv r tree id level keys children :
  reader_wf r -> 0 < id -> read_node r tree id = Ok (Internal level keys children) ->
  keys <> [] /\ Forall (fun key => len key <= MAX_KEY) keys /\ length children = S (length keys) /\
  Forall (fun id => 0 < id < reader_count r) children /\ 1 <= level <= 255 /\
  HEADER_SIZE + sum_Z (map (fun key => 16 + len key) keys) <= PAGE_SIZE /\ 0 < id < reader_count r.
Proof.
  intros Hwf Hid Hr. destruct (read_node_inv r tree id _ Hwf ltac:(lia) Hr) as (Hb & [H1 H2 H3 H4 H5] & _).
  simpl in *. destruct H5 as (Hlevel & Hlen & Href). repeat (split; [done|]). split; [|done].
  erewrite sum_key_sizes; [exact H4|]. destruct children; simpl in *; lia.
Qed.

Lemma subtree_pos r tree n id m : subtree r tree n id m -> 0 < id.
Proof. destruct n; intros [Hid _]; done. Qed.

Lemma subtree_nonempty r tree n : forall id m, reader_wf r -> subtree r tree n id m -> m <> [].
Proof.
  induction n as [|n IH]; intros id m Hwf (Hid & Hs).
  - destruct Hs as (cells & Hr & Hst). destruct (leaf_inv _ _ _ _ Hwf Hid Hr) as (Hne & _).
    destruct Hst; [done|discriminate].
  - destruct Hs as (keys & children & parts & Hr & Hch & _ & ->).
    destruct (internal_inv _ _ _ _ _ _ Hwf Hid Hr) as (_ & _ & Hl & _).
    destruct Hch as [|id0 m0 children parts H0 Hch]; [done|]. simpl. apply IH in H0; [|done]. by destruct m0.
Qed.

Lemma subtree_first r tree n id m : reader_wf r -> subtree r tree n id m -> exists key, first_key m = Some key.
Proof.
  intros Hwf Hs. apply subtree_nonempty in Hs; [|done]. destruct m as [|[k v] m]; [done|]. by exists k.
Qed.

Lemma subtree_level r tree n id m : reader_wf r -> subtree r tree n id m -> (n <= 255)%nat.
Proof.
  intros Hwf. destruct n as [|n]; [lia|]. intros (Hid & keys & children & parts & Hr & _).
  destruct (internal_inv _ _ _ _ _ _ Hwf Hid Hr) as (_ & _ & _ & _ & ? & _). lia.
Qed.

(** ** Later readers *)
Lemma stored_le r r' tree cells m :
  reader_wf r -> reader_le r r' -> Forall (cell_wf (reader_count r)) cells -> stored r tree cells m -> stored r' tree cells m.
Proof.
  intros Hwf Hle Hc Hs. induction Hs as [|c e cells m [H1 H2] Hs IH]; [constructor|].
  apply Forall_cons_1 in Hc as [Hc0 Hc]. constructor; [|by apply IH]. split; [done|].
  eapply read_value_le; [done|exact Hle| |done]. unfold cell_wf in Hc0. destruct (cell_value c); [done|lia].
Qed.

Lemma subtree_le r r' tree n : forall id m,
  reader_wf r -> reader_wf r' -> reader_le r r' -> subtree r tree n id m -> subtree r' tree n id m.
Proof.
  induction n as [|n IH]; intros id m Hwf Hwf' Hle (Hid & Hs).
  - destruct Hs as (cells & Hr & Hst). split; [done|]. exists cells.
    destruct (leaf_inv _ _ _ _ Hwf Hid Hr) as (_ & _ & Hc & _).
    split; [apply (read_node_le r); [done|done|done|lia|done]|]. by apply (stored_le r).
  - destruct Hs as (keys & children & parts & Hr & Hch & Hsep & ->). split; [done|]. exists keys, children, parts.
    split; [apply (read_node_le r); (done || lia)|]. split; [|done].
    eapply Forall2_impl; [exact Hch|]. intros x y. by apply IH.
Qed.

Lemma tree_holds_le r r' tree root m :
  reader_wf r -> reader_wf r' -> reader_le r r' -> tree_holds r tree root m -> tree_holds r' tree root m.
Proof.
  unfold tree_holds. destruct (root =? 0); [done|]. intros ? ? ? [Hs (n & Hn)]. split; [done|]. exists n. by apply (subtree_le r).
Qed.

(** ** Loading *)
Lemma load_shared_load r tree id expected : load_shared r tree id expected = load r tree id expected.
Proof. unfold load_shared, load. by rewrite shared_node_read. Qed.

Definition expects (expected : option Z) (n : nat) : Prop := expected = None \/ expected = Some (Z.of_nat n).

Lemma load_ok r tree id expected n node :
  read_node r tree id = Ok node -> node_level node = Z.of_nat n -> expects expected n ->
  load r tree id expected = Ok node.
Proof.
  intros Hr Hl He. unfold load, expect_level. rewrite Hr. cbn [bindR].
  destruct He as [-> | ->]; [done|]. by rewrite Hl, Z.eqb_refl.
Qed.

Lemma load_leaf r tree id expected cells :
  read_node r tree id = Ok (Leaf cells) -> expects expected 0 -> load r tree id expected = Ok (Leaf cells).
Proof. intros Hr. by apply load_ok. Qed.
Lemma load_internal r tree id expected n keys children :
  read_node r tree id = Ok (Internal (Z.of_nat (S n)) keys children) -> expects expected (S n) ->
  load r tree id expected = Ok (Internal (Z.of_nat (S n)) keys children).
Proof. intros Hr. by apply load_ok. Qed.

Lemma level_below {E} n : (n <= 255)%nat -> arith_u64 (E:=E) (Z.of_nat (S n) - 1) = Ok (Z.of_nat n).
Proof.
  intros. replace (Z.of_nat (S n) - 1) with (Z.of_nat n) by lia. rewrite arith_u64_ok; [done|]. unfold u64_max. lia.
Qed.

(** ** Routing *)
Definition holding r (tree : TreeId) (height : nat) : list Z -> list (list Entry) -> Prop := Forall2 (subtree r tree height).

(** The child a key is routed to, and what is on its two sides. *)
Record routed r (tree : TreeId) (n : nat) (key : bytes) (children : list Z) (parts : list (list Entry))
    (cl : list Z) (c : Z) (cr : list Z) (pl : list (list Entry)) (p : list Entry) (pr : list (list Entry)) : Prop := {
  routed_children : children = cl ++ c :: cr;
  routed_parts : parts = pl ++ p :: pr;
  routed_left : holding r tree n cl pl;
  routed_here : subtree r tree n c p;
  routed_right : holding r tree n cr pr;
  routed_before : keys_before key (concat pl);
  routed_after : keys_after key (concat pr);
  routed_sorted : bt_sorted p }.

Lemma route_le keys key : (route keys key <= length keys)%nat.
Proof. apply partition_point_le. Qed.

Lemma separators_lookup keys parts j key part :
  separators keys (tail parts) -> keys !! j = Some key -> parts !! S j = Some part -> first_key part = Some key.
Proof.
  intros Hs Hk Hp. rewrite <-lookup_tail in Hp. exact (Forall2_lookup_lr _ _ _ _ _ _ Hs Hk Hp).
Qed.

Lemma concat_middle {A} (pl : list (list A)) p pr : concat (pl ++ p :: pr) = concat pl ++ p ++ concat pr.
Proof. by rewrite concat_app. Qed.

Lemma route_split r tree n keys children parts key :
  reader_wf r -> holding r tree n children parts -> separators keys (tail parts) -> bt_sorted (concat parts) ->
  length children = S (length keys) ->
  exists cl c cr pl p pr, routed r tree n key children parts cl c cr pl p pr /\ length cl = route keys key.
Proof.
  intros Hwf Hch Hsep Hs Hlen. pose proof (route_le keys key) as Hi. set (i := route keys key) in *.
  destruct (lookup_lt_is_Some_2 children i) as [c Hc]; [lia|].
  destruct (Forall2_lookup_l _ _ _ _ _ Hch Hc) as (p & Hp & Hcp).
  exists (take i children), c, (drop (S i) children), (take i parts), p, (drop (S i) parts).
  pose proof (take_drop_middle _ _ _ Hp) as Hparts.
  assert (bt_sorted (concat (take i parts) ++ p ++ concat (drop (S i) parts))) as Hs' by (by rewrite <-concat_middle, Hparts).
  split; [|rewrite length_take; lia].
  pose proof (bt_sorted_cut _ _ Hs') as (_ & Hsr & _). pose proof (bt_sorted_cut _ _ Hsr) as (Hsp & Hspr & _).
  split; [by rewrite take_drop_middle|done|by apply Forall2_take|done|by apply Forall2_drop| | |done].
  - destruct i as [|j] eqn:Ei; [constructor|]. destruct (lookup_lt_is_Some_2 keys j) as [k Hk]; [lia|].
    pose proof (separators_lookup _ _ _ _ _ Hsep Hk Hp) as Hf. eapply first_before; [exact Hs'|by apply first_key_app|].
    pose proof (partition_point_spec (fun separator => cmp_le separator key) keys) as [Hpre _].
    fold (route keys key) in Hpre. fold i in Hpre. rewrite Forall_lookup in Hpre. apply (Hpre j). rewrite lookup_take_lt; [done|].
    unfold i in *. lia.
  - destruct (drop (S i) parts) as [|q qs] eqn:Eq; [constructor|].
    assert (parts !! S i = Some q) as Hq by (rewrite <-(Nat.add_0_r (S i)), <-lookup_drop, Eq; done).
    assert (length parts = length children) as Hl by (symmetry; by eapply Forall2_length).
    apply lookup_lt_Some in Hq as Hql. destruct (lookup_lt_is_Some_2 keys i) as [k Hk]; [lia|].
    pose proof (separators_lookup _ _ _ _ _ Hsep Hk Hq) as Hf. eapply first_after; [exact Hspr|by apply first_key_app|].
    pose proof (partition_point_spec (fun separator => cmp_le separator key) keys) as [_ Hpost].
    fold (route keys key) in Hpost. fold i in Hpost. rewrite (drop_S _ _ _ Hk) in Hpost.
    rewrite cmp_le_lt in Hpost. apply negb_false_iff in Hpost. by apply cmp_lt_true.
Qed.
End Holds.
