(* ===== verification/TreeReads.v ===== *)
(** * Reads of a B+ tree

    [get], [seek] and [scan] on a tree that holds a sorted list of entries
    are the lookups of that list: the tree refines a sorted map. *)
From Stdlib Require Import Sorted.
From S2P Require Import Prelude OrdMap Errors Bytes Storage Platform Page PageFacts NodeFacts FileFacts StoredFacts Tree TreeFacts.

Section Reads.
Context `{Checksum}.
Implicit Types (r : PageReader) (m : list Entry).

(** ** Cells of a leaf *)
Lemma stored_length r tree cells m : stored r tree cells m -> length cells = length m.
Proof. apply Forall2_length. Qed.

Lemma stored_keys r tree cells m : stored r tree cells m -> map cell_key cells = map fst m.
Proof. induction 1 as [|c e cells m [Hk _] _ IH]; simpl; [done|]. by rewrite Hk, IH. Qed.

(** Cells before the point where an antitone test fails, and from there on. *)
Lemma leaf_split r tree cells m (p : bytes -> bool) :
  stored r tree cells m -> bt_sorted m -> (forall a b, cmp a b = Lt -> p b = true -> p a = true) ->
  let i := partition_point (fun cell => p (cell_key cell)) cells in
  stored r tree (take i cells) (take i m) /\ stored r tree (drop i cells) (drop i m) /\
  Forall (fun e => p e.1 = true) (take i m) /\ Forall (fun e => p e.1 = false) (drop i m).
Proof.
  intros Hst Hs Hp i. destruct (partition_point_spec (fun cell => p (cell_key cell)) cells) as [H1 H2].
  fold i in H1, H2.
  assert (stored r tree (take i cells) (take i m)) as Ht by (by apply Forall2_take).
  assert (stored r tree (drop i cells) (drop i m)) as Hd by (by apply Forall2_drop).
  split; [done|]. split; [done|]. split.
  - clear -Ht H1. revert H1. induction Ht as [|c e cs es [Hk _] _ IH]; [constructor|].
    intros [Hc Hcs]%Forall_cons_1. constructor; [by rewrite <-Hk|by apply IH].
  - rewrite <-(take_drop i m) in Hs. apply bt_sorted_cut in Hs as (_ & Hs & _). destruct Hd as [|c e cs es [Hk _] _]; [constructor|].
    apply StronglySorted_inv in Hs as [_ Hs]. rewrite Hk in H2. constructor; [done|]. apply List.Forall_forall.
    rewrite List.Forall_forall in Hs. intros x Hx%Hs. destruct (p x.1) eqn:E; [|done].
    by rewrite (Hp _ _ Hx E) in H2.
Qed.

Lemma lt_antitone key a b : cmp (A:=bytes) a b = Lt -> cmp_lt b key = true -> cmp_lt a key = true.
Proof. rewrite !cmp_lt_true. apply cmp_trans. Qed.
Lemma le_antitone key a b : cmp (A:=bytes) a b = Lt -> cmp_le b key = true -> cmp_le a key = true.
Proof. rewrite !cmp_le_true. intros Hab [Hb| ->]; left; [by eapply cmp_trans|done]. Qed.

(** Where [search] splits a leaf. *)
Lemma search_split r tree cells m key :
  stored r tree cells m -> bt_sorted m ->
  match search key cells with
  | inl i => exists c value, cells !! i = Some c /\ cell_key c = key /\ read_value r tree (cell_value c) = Ok value /\
      m = take i m ++ [(key, value)] ++ drop (S i) m /\ keys_before key (take i m) /\ keys_after key (drop (S i) m)
  | inr i => m = take i m ++ [] ++ drop i m /\ keys_before key (take i m) /\ keys_after key (drop i m)
  end.
Proof.
  intros Hst Hs. unfold search.
  destruct (leaf_split r tree cells m (fun k => cmp_lt k key) Hst Hs (lt_antitone key)) as (H1 & H2 & H3 & H4).
  cbv beta in *. set (i := partition_point _ _) in *.
  assert (keys_before key (take i m)) as Hb by (eapply Forall_impl; [exact H3|]; intros e; apply cmp_lt_true).
  assert (forall l : list Entry, Forall (fun e => cmp_lt e.1 key = false) l -> Forall (fun e => e.1 <> key) l -> keys_after key l) as Haft.
  { intros l Hf1 Hf2. rewrite Forall_forall in *. intros e He. specialize (Hf1 e He). specialize (Hf2 e He).
    unfold cmp_lt in Hf1. rewrite (cmp_antisym e.1 key). destruct (cmp e.1 key) eqn:E; [|done..]. by apply cmp_eq in E. }
  assert (forall e l, bt_sorted (e :: l) -> e.1 = key -> Forall (fun x : Entry => x.1 <> key) l) as Hnot.
  { intros e l [_ Hl]%StronglySorted_inv He. apply Forall_forall. intros x Hx. rewrite List.Forall_forall in Hl.
    apply list_elem_of_In in Hx. apply Hl in Hx. unfold key_lt in Hx. rewrite He in Hx. intros E. rewrite E in Hx.
    by apply cmp_irrefl in Hx. }
  pose proof Hs as Hs'. rewrite <-(take_drop i m) in Hs'. apply bt_sorted_cut in Hs' as (_ & Hsd & _).
  destruct (cells !! i) as [c|] eqn:Hc.
  - destruct (Forall2_lookup_l _ _ _ _ _ Hst Hc) as ([k v] & Hm & Hk & Hv). simpl in Hk, Hv.
    rewrite (drop_S _ _ _ Hm) in *. apply Forall_cons_1 in H4 as [Hk4 H4]. destruct (bool_decide_reflect (cell_key c = key)) as [E|E].
    + exists c, v. repeat (split; [done|]). split; [|split; [done|]].
      * rewrite <-E, Hk. symmetry. by apply take_drop_middle.
      * apply Haft; [done|]. apply (Hnot (k, v)); [done|]. simpl. congruence.
    + split; [by rewrite app_nil_l, take_drop|]. split; [done|]. rewrite (drop_S _ _ _ Hm). apply Haft; [by constructor|].
      constructor; [simpl; congruence|]. apply StronglySorted_inv in Hsd as [_ Hsd]. apply Forall_forall.
      intros x Hx. rewrite List.Forall_forall in Hsd. apply list_elem_of_In in Hx. apply Hsd in Hx. intros Ex.
      unfold key_lt in Hx. rewrite Ex in Hx. simpl in Hx, Hk4. apply cmp_lt_true in Hx. by rewrite Hx in Hk4.
  - apply lookup_ge_None_1 in Hc. rewrite (stored_length _ _ _ _ Hst) in Hc. rewrite drop_ge, !app_nil_r, take_ge by done.
    split; [done|]. split; [by rewrite take_ge in Hb|constructor].
Qed.

(** ** Point reads *)
Lemma get_loop_spec r tree key n : forall fuel id expected m,
  reader_wf r -> subtree r tree n id m -> bt_sorted m -> expects expected n -> (n < fuel)%nat ->
  get_loop fuel r tree id expected key = Ok (bt_get key m).
Proof.
  induction n as [|n IH]; intros fuel id expected m Hwf Hsub Hs He Hf; (destruct fuel as [|fuel]; [lia|]); cbn [get_loop];
    rewrite load_shared_load.
  - destruct Hsub as (Hid & cells & Hr & Hst). rewrite (load_leaf _ _ _ _ _ Hr He). cbn [bindR].
    pose proof (search_split _ _ _ _ key Hst Hs) as Hsp. destruct (search key cells) as [i|i].
    + destruct Hsp as (c & v & Hc & _ & Hv & Hm & Hb & Ha). rewrite Hc. cbn [expect bindR]. rewrite Hv. cbn [bindR].
      rewrite Hm, bt_get_around by done. simpl. by rewrite cmp_refl.
    + destruct Hsp as (Hm & Hb & Ha). rewrite Hm. by rewrite bt_get_around.
  - pose proof (subtree_level _ _ _ _ _ Hwf Hsub) as Hl255.
    destruct Hsub as (Hid & keys & children & parts & Hr & Hch & Hsep & ->). rewrite (load_internal _ _ _ _ _ _ _ Hr He). cbn [bindR].
    destruct (internal_inv _ _ _ _ _ _ Hwf Hid Hr) as (_ & _ & Hlen & _).
    destruct (route_split r tree n keys children parts key Hwf Hch Hsep Hs Hlen) as (cl & c & cr & pl & p & pr & R & Hi).
    rewrite <-Hi, (routed_children _ _ _ _ _ _ _ _ _ _ _ _ R), list_lookup_middle by done. cbn [expect bindR].
    rewrite level_below by lia. cbn [bindR].
    rewrite (routed_parts _ _ _ _ _ _ _ _ _ _ _ _ R), concat_middle.
    rewrite bt_get_around by apply R. apply IH; [done|apply R|apply R|by right|lia].
Qed.

Lemma tree_get_holds r tree root m key :
  reader_wf r -> tree_holds r tree root m -> len key <= MAX_KEY -> get r tree root key = Ok (bt_get key m).
Proof.
  intros Hwf Hh Hk. unfold get. rewrite check_key_ok by done. cbn [bindR]. unfold tree_holds in Hh.
  destruct (root =? 0); [by subst|]. destruct Hh as (Hs & n & Hn). pose proof (subtree_level _ _ _ _ _ Hwf Hn).
  apply (get_loop_spec _ _ _ n); [done..|by left|unfold TREE_FUEL; lia].
Qed.

(** ** Seeks *)
Definition first_from (key : bytes) : list Entry -> option Entry := List.find (fun e => cmp_le key e.1).

(** [seek] located the first entry at or above the key. *)
Definition located r (tree : TreeId) (result : Result StorageError (option LeafCell)) (found : option Entry) : Prop :=
  match found with
  | None => result = Ok None
  | Some (key, value) => exists cell, result = Ok (Some cell) /\ cell_key cell = key /\
      read_value r tree (cell_value cell) = Ok value
  end.

Lemma first_from_skip key low m : keys_before key low -> first_from key (low ++ m) = first_from key m.
Proof.
  induction 1 as [|[k v] low Hk _ IH]; simpl in *; [done|]. unfold cmp_le. apply cmp_gt_lt in Hk. rewrite Hk. exact IH.
Qed.

(** The nearest right subtree holds the first of the entries after it. *)
Definition succeeds r (tree : TreeId) (successor : option (Z * Z)) (rest : list Entry) : Prop :=
  match successor with
  | None => rest = []
  | Some (next, level) => exists n m more,
      level = Z.of_nat n /\ subtree r tree n next m /\ bt_sorted m /\ rest = m ++ more
  end.

Lemma seek_leaf r tree cells m key :
  stored r tree cells m -> bt_sorted m ->
  match cells !! partition_point (fun cell => cmp_lt (cell_key cell) key) cells with
  | Some cell => forall rest, located r tree (Ok (Some cell)) (first_from key (m ++ rest))
  | None => keys_before key m
  end.
Proof.
  intros Hst Hs. destruct (leaf_split r tree cells m (fun k => cmp_lt k key) Hst Hs (lt_antitone key)) as (H1 & H2 & H3 & H4).
  cbv beta in *. set (i := partition_point _ _) in *.
  assert (keys_before key (take i m)) as Hb by (eapply Forall_impl; [exact H3|]; intros e; apply cmp_lt_true).
  destruct (cells !! i) as [c|] eqn:Hc.
  - destruct (Forall2_lookup_l _ _ _ _ _ Hst Hc) as ([k v] & Hm & Hk & Hv). intros rest.
    rewrite <-(take_drop i m), <-app_assoc, first_from_skip, (drop_S _ _ _ Hm) by done.
    rewrite (drop_S _ _ _ Hm) in H4. apply Forall_cons_1 in H4 as [H4 _]. simpl in *. rewrite cmp_le_lt, H4. by exists c.
  - apply lookup_ge_None_1 in Hc. rewrite (stored_length _ _ _ _ Hst) in Hc. by rewrite take_ge in Hb.
Qed.

Lemma keys_both key (m : list Entry) : keys_before key m -> keys_after key m -> m = [].
Proof.
  intros [|e m' Hb _] Ha; [done|]. apply Forall_cons_1 in Ha as [Ha _]. by apply cmp_asym in Ha.
Qed.

Lemma seek_loop_spec r tree key : forall fuel n id expected successor m rest,
  reader_wf r -> subtree r tree n id m -> bt_sorted m -> expects expected n -> succeeds r tree successor rest ->
  keys_after key rest -> (n < fuel)%nat -> keys_after key m \/ (n + 256 < fuel)%nat ->
  located r tree (seek_loop fuel r tree id expected successor key) (first_from key (m ++ rest)).
Proof.
  induction fuel as [|fuel IH]; intros n id expected successor m rest Hwf Hsub Hs He Hsucc Hrest Hf Hf2; [lia|]. cbn [seek_loop].
  rewrite load_shared_load. pose proof (subtree_level _ _ _ _ _ Hwf Hsub) as Hl255. pose proof Hsub as Hsub'.
  destruct n as [|n].
  - destruct Hsub as (Hid & cells & Hr & Hst). rewrite (load_leaf _ _ _ _ _ Hr He). cbn [bindR].
    pose proof (seek_leaf _ _ _ _ key Hst Hs) as Hl. destruct (cells !! _) as [c|]; [apply Hl|].
    destruct Hf2 as [Ha|Hf2]; [by apply (subtree_nonempty _ _ _ _ _ Hwf) in Hsub'; destruct (keys_both _ _ Hl Ha)|].
    rewrite first_from_skip by done. destruct successor as [[next level]|]; [|by simpl in Hsucc; subst rest].
    destruct Hsucc as (n' & m' & more & -> & Hsub2 & Hs' & ->). pose proof (subtree_level _ _ _ _ _ Hwf Hsub2).
    apply Forall_app in Hrest as [Hm' Hmore]. rewrite <-(app_nil_r (m' ++ more)), <-app_assoc.
    destruct m' as [|[k v] m']; [by apply (subtree_nonempty _ _ _ _ _ Hwf) in Hsub2|].
    replace (first_from key _) with (first_from key (((k, v) :: m') ++ [])).
    2: { simpl. apply Forall_cons_1 in Hm' as [Hk _]. simpl in Hk. unfold cmp_le. by rewrite Hk. }
    apply (IH n'); [done..|by right|done|constructor|lia|by left].
  - destruct Hsub as (Hid & keys & children & parts & Hr & Hch & Hsep & ->). rewrite (load_internal _ _ _ _ _ _ _ Hr He). cbn [bindR].
    destruct (internal_inv _ _ _ _ _ _ Hwf Hid Hr) as (_ & _ & Hlen & _).
    destruct (route_split r tree n keys children parts key Hwf Hch Hsep Hs Hlen) as (cl & c & cr & pl & p & pr & R & Hi).
    destruct R as [-> -> Hpl Hp Hpr Hbefore Hafter Hps]. rewrite level_below by lia. cbn [bindR].
    rewrite <-Hi, list_lookup_middle by done. cbn [expect bindR].
    rewrite concat_middle in Hs, Hf2 |- *. rewrite <-app_assoc, first_from_skip, <-app_assoc by done.
    apply (IH n); [done|done|done|by right| |by apply Forall_app|lia|].
    + replace (S (length cl)) with (length cl + 1)%nat by lia. rewrite lookup_app_r, Nat.add_comm, Nat.add_sub by lia. simpl.
      destruct Hpr as [|c2 p2 cr pr Hc2 Hpr]; [done|]. simpl. exists n, p2, (concat pr ++ rest).
      apply bt_sorted_cut in Hs as (_ & Hs & _). apply bt_sorted_cut in Hs as (_ & Hs & _). simpl in Hs.
      apply bt_sorted_cut in Hs as (Hs & _). by rewrite <-app_assoc.
    + destruct Hf2 as [Ha|]; [left|right; lia]. apply Forall_app in Ha as [_ Ha]. by apply Forall_app in Ha as [Ha _].
Qed.

Lemma tree_seek_holds r tree root m key :
  reader_wf r -> tree_holds r tree root m -> len key <= MAX_KEY -> located r tree (seek r tree root key) (first_from key m).
Proof.
  intros Hwf Hh Hk. unfold seek. rewrite check_key_ok by done. cbn [bindR]. unfold tree_holds in Hh.
  destruct (root =? 0); [by subst|]. destruct Hh as (Hs & n & Hn). pose proof (subtree_level _ _ _ _ _ Hwf Hn).
  assert (n + 256 < SEEK_FUEL)%nat by (unfold SEEK_FUEL, TREE_FUEL; lia).
  rewrite <-(app_nil_r m). apply (seek_loop_spec _ _ _ _ n); [done..|by left|done|constructor|lia|by right].
Qed.
End Reads.

(** * Scans of a B+ tree

    The iterator yields the entries of the range in key order, each once, and
    then ends. *)
Section Scans.
Context `{Checksum}.
Implicit Types (r : PageReader) (m : list Entry).

(** The entries from a lower bound on. *)
Definition from (lower : Bound bytes) m : list Entry := List.filter (fun e => above lower e.1) m.

Lemma from_app lower a b : from lower (a ++ b) = from lower a ++ from lower b.
Proof. apply List.filter_app. Qed.
Lemma from_all lower m : Forall (fun e => above lower e.1 = true) m -> from lower m = m.
Proof. induction 1 as [|e m He _ IH]; simpl; [done|]. by rewrite He, IH. Qed.
Lemma from_none lower m : Forall (fun e => above lower e.1 = false) m -> from lower m = [].
Proof. induction 1 as [|e m He _ IH]; simpl; [done|]. by rewrite He. Qed.

(** Where [descend] starts in a leaf. *)
Definition not_above (lower : Bound bytes) (key : bytes) : bool :=
  match lower with Unbounded => false | Included bound => cmp_lt key bound | Excluded bound => cmp_le key bound end.

Lemma not_above_spec lower key : not_above lower key = negb (above lower key).
Proof. destruct lower; simpl; [by rewrite cmp_le_lt, negb_involutive|apply cmp_le_lt|done]. Qed.

Lemma leaf_from r tree cells m lower :
  stored r tree cells m -> bt_sorted m ->
  let start := partition_point (fun cell => not_above lower (cell_key cell)) cells in
  stored r tree (drop start cells) (from lower m).
Proof.
  intros Hst Hs start.
  destruct (leaf_split r tree cells m (not_above lower) Hst Hs) as (_ & Hd & H1 & H2).
  { intros a b Hab. rewrite !not_above_spec, !negb_true_iff. intros Hb.
    destruct (above lower a) eqn:E; [|done]. by rewrite (above_mono _ _ _ E Hab) in Hb. }
  fold start in Hd, H1, H2. replace (from lower m) with (drop start m); [done|].
  rewrite <-(take_drop start m) at 2. rewrite from_app, from_none, from_all; [done| |].
  - eapply Forall_impl; [exact H2|]. intros e. cbv beta. by rewrite not_above_spec, negb_false_iff.
  - eapply Forall_impl; [exact H1|]. intros e. cbv beta. by rewrite not_above_spec, negb_true_iff.
Qed.

(** The child [descend] enters, and what it leaves for later. *)
Lemma route_from r tree n keys children parts lower :
  reader_wf r -> holding r tree n children parts -> separators keys (tail parts) -> bt_sorted (concat parts) ->
  length children = S (length keys) ->
  let index := match lower with Unbounded => O | Included key | Excluded key => route keys key end in
  exists c p pr, children !! index = Some c /\ subtree r tree n c p /\ bt_sorted p /\
    holding r tree n (drop (S index) children) pr /\ from lower (concat parts) = from lower p ++ concat pr.
Proof.
  intros Hwf Hch Hsep Hs Hlen. 
  assert (forall key, (forall k, cmp k key = Lt -> above lower k = false) -> (forall k, cmp key k = Lt -> above lower k = true) ->
    exists c p pr, children !! route keys key = Some c /\ subtree r tree n c p /\ bt_sorted p /\
      holding r tree n (drop (S (route keys key)) children) pr /\ from lower (concat parts) = from lower p ++ concat pr) as Hkey.
  { intros key Hlow Hhigh.
    destruct (route_split r tree n keys children parts key Hwf Hch Hsep Hs Hlen) as (cl & c & cr & pl & p & pr & R & Hi).
    destruct R as [-> -> Hpl Hp Hpr Hbefore Hafter Hps]. exists c, p, pr. rewrite <-Hi, list_lookup_middle by done.
    split; [done|]. split; [done|]. split; [done|]. split.
    - replace (drop _ _) with cr; [done|]. rewrite drop_app_ge by lia.
      by replace (S (length cl) - length cl)%nat with 1%nat by lia.
    - rewrite concat_middle, !from_app, from_none, (from_all _ (concat pr)); [done| |].
      + eapply Forall_impl; [exact Hafter|]. intros e. apply Hhigh.
      + eapply Forall_impl; [exact Hbefore|]. intros e. apply Hlow. }
  destruct lower as [key|key|].
  - apply Hkey; intros k Hk; simpl.
    + unfold cmp_le. apply cmp_gt_lt in Hk. by rewrite Hk.
    + apply cmp_le_true. by left.
  - apply Hkey; intros k Hk; simpl; unfold cmp_lt; [|by rewrite Hk]. apply cmp_gt_lt in Hk. by rewrite Hk.
  - destruct Hch as [|c p children parts Hc Hch]; [done|]. exists c, p, parts. simpl in Hs. apply bt_sorted_cut in Hs as [Hs _].
    repeat (split; [done|]). simpl. rewrite from_app. f_equal. apply from_all. by apply Forall_true.
Qed.

(** ** The stack of a scan *)
Fixpoint stack_holds r (tree : TreeId) (stack : list Frame) m : Prop :=
  match stack with
  | [] => m = []
  | frame :: stack => exists n parts rest,
      frame_level frame = Z.of_nat (S n) /\ (n <= 255)%nat /\
      holding r tree n (drop (frame_next frame) (frame_children frame)) parts /\
      stack_holds r tree stack rest /\ m = concat parts ++ rest
  end.

Lemma descend_spec r tree lower n : forall fuel stack rest id expected m,
  reader_wf r -> subtree r tree n id m -> bt_sorted m -> expects expected n -> (n < fuel)%nat ->
  stack_holds r tree stack rest ->
  exists stack' cells start m1 m2,
    descend fuel r tree stack id expected lower = Ok (stack', cells, start) /\
    stored r tree (drop start cells) m1 /\ stack_holds r tree stack' (m2 ++ rest) /\ from lower m = m1 ++ m2 /\
    (lower = Unbounded -> m1 <> []).
Proof.
  induction n as [|n IH]; intros fuel stack rest id expected m Hwf Hsub Hs He Hf Hst; (destruct fuel as [|fuel]; [lia|]);
    cbn [descend]; rewrite load_shared_load; pose proof (subtree_level _ _ _ _ _ Hwf Hsub) as Hl255.
  - pose proof (subtree_nonempty _ _ _ _ _ Hwf Hsub) as Hne.
    destruct Hsub as (Hid & cells & Hr & Hcells). rewrite (load_leaf _ _ _ _ _ Hr He). cbn [bindR].
    pose proof (leaf_from _ _ _ _ lower Hcells Hs) as Hd. cbv zeta in Hd.
    exists stack, cells, (partition_point (fun cell => not_above lower (cell_key cell)) cells), (from lower m), [].
    split; [by destruct lower|]. split; [done|]. split; [done|]. split; [by rewrite app_nil_r|].
    intros ->. rewrite from_all; [done|]. by apply Forall_true.
  - destruct Hsub as (Hid & keys & children & parts & Hr & Hch & Hsep & ->). rewrite (load_internal _ _ _ _ _ _ _ Hr He). cbn [bindR].
    destruct (internal_inv _ _ _ _ _ _ Hwf Hid Hr) as (_ & _ & Hlen & _).
    destruct (route_from r tree n keys children parts lower Hwf Hch Hsep Hs Hlen) as (c & p & pr & Hc & Hp & Hps & Hpr & Hfrom).
    rewrite Hc. cbn [expect bindR]. rewrite level_below by lia. cbn [bindR].
    match goal with |- context [descend fuel r tree (?frame :: stack)] => set (top := frame) end.
    destruct (IH fuel (top :: stack) (concat pr ++ rest) c (Some (Z.of_nat n)) p) as (stack' & cells & start & m1 & m2 & E & H1 & H2 & H3 & H4);
      [done|done|done|by right|lia| |].
    { exists n, pr, rest. done || (split; [done|]; split; [lia|]; done). }
    exists stack', cells, start, m1, (m2 ++ concat pr). rewrite E, Hfrom, H3, <-!app_assoc. done.
Qed.

(** ** Advancing *)
(** A scan with the entries it has not reached yet. *)
Record scan_holds r (tree : TreeId) (upper : Bound bytes) (scan : Scan) m : Prop := {
  scan_is_reader : scan_reader scan = r;
  scan_is_tree : scan_tree scan = tree;
  scan_is_upper : scan_upper scan = upper;
  scan_undone : scan_done scan = false;
  scan_sorted : bt_sorted m;
  scan_after : match scan_last scan with Some last => keys_after last m | None => True end;
  scan_parts : exists cells m1 m2, scan_leaf scan = Some cells /\ stored r tree (drop (scan_next scan) cells) m1 /\
    stack_holds r tree (scan_stack scan) m2 /\ m = m1 ++ m2 }.

Lemma beyond_below upper key : beyond upper key = negb (below upper key).
Proof. destruct upper; simpl; [by rewrite cmp_le_lt, negb_involutive|apply cmp_le_lt|done]. Qed.

(** What one step returns when the remaining entries are [m]. *)
Definition steps r (tree : TreeId) (upper : Bound bytes) m (result : Result StorageError (option (Entry * Scan))) : Prop :=
  match m with
  | [] => result = Ok None
  | e :: m =>
      if below upper e.1 then exists scan, result = Ok (Some (e, scan)) /\ scan_holds r tree upper scan m
      else result = Ok None
  end.

Lemma drop_cons {A} (l : list A) n x k : drop n l = x :: k -> l !! n = Some x /\ drop (S n) l = k.
Proof.
  intros E. assert (l !! n = Some x) as Hx by (by rewrite <-(Nat.add_0_r n), <-lookup_drop, E).
  split; [done|]. rewrite (drop_S _ _ _ Hx) in E. by injection E.
Qed.
Lemma drop_nil_lookup {A} (l : list A) n : drop n l = [] -> l !! n = None.
Proof. intros E. by rewrite <-(Nat.add_0_r n), <-lookup_drop, E. Qed.

Lemma advance_cell r tree upper scan fuel cells e m1 m2 :
  reader_wf r -> scan_holds r tree upper scan ((e :: m1) ++ m2) -> scan_leaf scan = Some cells ->
  stored r tree (drop (scan_next scan) cells) (e :: m1) -> stack_holds r tree (scan_stack scan) m2 ->
  steps r tree upper ((e :: m1) ++ m2) (advance (S fuel) scan).
Proof.
  intros Hwf [<- <- <- Hd Hs Ha _] Hl Hst Hstack. cbn [advance]. rewrite Hl.
  destruct (drop _ cells) as [|c cs] eqn:Ecs; [by inversion Hst|]. apply drop_cons in Ecs as [Hc Hcs].
  inversion Hst as [|? ? ? ? [Hk Hv] Hst']; subst. rewrite Hc, beyond_below, Hk. unfold steps. cbn [app].
  destruct (below _ _) eqn:Eb; [|done]. cbn [negb].
  replace (match scan_last scan with Some last => cmp_le e.1 last | None => false end) with false.
  2: { destruct (scan_last scan) as [last|]; [|done]. apply Forall_cons_1 in Ha as [Ha _]. unfold cmp_le.
       apply cmp_gt_lt in Ha. by rewrite Ha. }
  rewrite Hv. cbn [bindR]. eexists. split; [by destruct e|].
  apply StronglySorted_inv in Hs as [Hs Hf]. split; cbn; [done..| |].
  - apply List.Forall_forall. by rewrite List.Forall_forall in Hf.
  - exists cells, m1, m2. done.
Qed.

Lemma advance_spec r tree upper : forall fuel scan m,
  reader_wf r -> scan_holds r tree upper scan m -> (length (scan_stack scan) + 2 <= fuel)%nat ->
  steps r tree upper m (advance fuel scan).
Proof.
  induction fuel as [|fuel IH]; intros scan m Hwf Hh Hf; [lia|]. pose proof Hh as [Hr Ht Hu Hd Hs Ha Hp].
  destruct Hp as (cells & m1 & m2 & Hl & Hst & Hstack & ->).
  destruct m1 as [|e m1]; [|by eapply advance_cell]. cbn [advance]. rewrite Hl.
  assert (drop (scan_next scan) cells = []) as Hnil by (by inversion Hst).
  rewrite (drop_nil_lookup _ _ Hnil). cbn [app] in Hs, Ha |- *. clear Hst.
  destruct (scan_stack scan) as [|frame stack] eqn:Es; [by simpl in Hstack; subst m2|].
  destruct Hstack as (n & parts & rest & Hlevel & Hn & Hch & Hrest & ->).
  destruct (drop (frame_next frame) (frame_children frame)) as [|c cs] eqn:Edrop.
  - rewrite (drop_nil_lookup _ _ Edrop). inversion Hch; subst parts. simpl in *. apply IH; [done| |simpl; lia].
    split; cbn; [done..|]. exists cells, [], rest. rewrite Hnil. done || (split; [done|]; split; [constructor|]; done).
  - destruct (drop_cons _ _ _ _ Edrop) as [Hc Hcs]. rewrite Hc, Hlevel, level_below by done. cbn [bindR].
    destruct parts as [|p pr]; [by inversion Hch|]. apply Forall2_cons_1 in Hch as [Hp Hpr]. cbn [app concat] in Hs, Ha |- *. rewrite <-app_assoc in Hs, Ha |- *.
    match goal with |- context [descend _ _ _ (?frame :: stack)] => set (top := frame) end.
    pose proof (bt_sorted_cut _ _ Hs) as (Hsp & _). pose proof (subtree_level _ _ _ _ _ Hwf Hp).
    destruct (descend_spec r tree Unbounded n TREE_FUEL (top :: stack) (concat pr ++ rest) c (Some (Z.of_nat n)) p)
      as (stack' & cells' & start & m1 & m2 & E & H1 & H2 & H3 & H4); [done|done|done|by right|unfold TREE_FUEL; lia| |].
    { exists n, pr, rest. unfold top. cbn. rewrite Hcs. done. }
    rewrite Hr, Ht, E. cbn [bindR]. rewrite from_all in H3 by (by apply Forall_true). subst p.
    rewrite <-app_assoc in Hs, Ha |- *. destruct m1 as [|e m1]; [by destruct H4|].
    destruct fuel as [|fuel]; [simpl in Hf; lia|].
    eapply advance_cell; [done| |reflexivity|exact H1|exact H2]. split; cbn; [done..|]. by exists cells', (e :: m1), (m2 ++ concat pr ++ rest).
Qed.

(** ** The items *)
Definition until (upper : Bound bytes) m : list Entry := List.filter (fun e => below upper e.1) m.

Lemma until_stops upper e m : bt_sorted (e :: m) -> below upper e.1 = false -> until upper (e :: m) = [].
Proof.
  intros [_ Hf]%StronglySorted_inv He. simpl. rewrite He. rewrite List.Forall_forall in Hf.
  destruct (until upper m) as [|x xs] eqn:E; [done|].
  assert (In x (until upper m)) as Hx by (rewrite E; by left). apply List.filter_In in Hx as [Hx Hb].
  apply Hf in Hx. by rewrite (below_mono _ _ _ Hb Hx) in He.
Qed.

Definition scan_rest r (tree : TreeId) (upper : Bound bytes) (scan : Scan) (items : list Entry) : Prop :=
  (scan_done scan = true /\ items = []) \/ exists m, scan_holds r tree upper scan m /\ items = until upper m.

Lemma scan_item_spec r tree upper scan items :
  reader_wf r -> scan_rest r tree upper scan items ->
  match items with
  | [] => exists scan', scan_item scan = (scan', None) /\ scan_rest r tree upper scan' []
  | e :: items => exists scan', scan_item scan = (scan', Some (Ok e)) /\ scan_rest r tree upper scan' items
  end.
Proof.
  intros Hwf [[Hd ->]|(m & Hh & ->)]; unfold scan_item.
  { exists scan. rewrite Hd. split; [done|]. by left. }
  rewrite (scan_undone _ _ _ _ _ Hh). pose proof (advance_spec r tree upper _ scan m Hwf Hh (Nat.le_refl _)) as Ha.
  unfold steps in Ha. destruct m as [|e m]; [rewrite Ha; eexists; split; [done|]; by left|].
  destruct (below upper e.1) eqn:Eb.
  - destruct Ha as (scan' & -> & Hh'). simpl. rewrite Eb. exists scan'. split; [done|]. right. by exists m.
  - rewrite until_stops; [|apply Hh|done]. rewrite Ha. eexists. split; [done|]. by left.
Qed.

Lemma drain_spec r tree upper d : forall scan items acc,
  reader_wf r -> scan_rest r tree upper scan items ->
  exists scan' taken more, items = taken ++ more /\ drain d scan acc = (scan', reverse (map Ok taken) ++ acc) /\
    scan_rest r tree upper scan' more /\ (more = [] \/ 2 ^ Z.of_nat d <= len taken).
Proof.
  induction d as [|d IH]; intros scan items acc Hwf Hh; cbn [drain].
  - destruct (scan_done scan) eqn:Ed.
    { exists scan, [], items. destruct Hh as [[_ ->]|(m & Hh & _)]; [|by rewrite (scan_undone _ _ _ _ _ Hh) in Ed].
      repeat (split; [done|]). split; [by left|by left]. }
    pose proof (scan_item_spec _ _ _ _ _ Hwf Hh) as Hi. destruct items as [|e items].
    + destruct Hi as (scan' & -> & Hr). exists scan', [], []. repeat (split; [done|]). by left.
    + destruct Hi as (scan' & -> & Hr). exists scan', [e], items. repeat (split; [done|]). right. by rewrite len_cons.
  - destruct (scan_done scan) eqn:Ed.
    { exists scan, [], items. destruct Hh as [[_ ->]|(m & Hh & _)]; [|by rewrite (scan_undone _ _ _ _ _ Hh) in Ed].
      repeat (split; [done|]). split; [by left|by left]. }
    destruct (IH scan items acc Hwf Hh) as (scan1 & t1 & m1 & -> & -> & Hh1 & Hn1).
    destruct (IH scan1 m1 (reverse (map Ok t1) ++ acc) Hwf Hh1) as (scan2 & t2 & m2 & -> & -> & Hh2 & Hn2).
    exists scan2, (t1 ++ t2), m2. split; [by rewrite <-app_assoc|].
    split; [by rewrite map_app, reverse_app, <-app_assoc|]. split; [done|].
    destruct Hn2 as [->|Hn2]; [by left|]. destruct m2 as [|x m2]; [by left|right].
    destruct Hn1 as [Hn1|Hn1]; [by destruct t2|].
    rewrite len_app, Nat2Z.inj_succ, Z.pow_succ_r by lia. lia.
Qed.

(** *** How many entries a tree can have *)
Lemma sum_Z_least {A} (f : A -> Z) c l : (forall x, c <= f x) -> c * len l <= sum_Z (map f l).
Proof. intros Hf. induction l as [|x l IH]; simpl; [rewrite len_nil; lia|]. rewrite len_cons. pose proof (Hf x). lia. Qed.

Lemma subtree_count r tree n : forall id m, reader_wf r -> subtree r tree n id m -> len m <= 1024 ^ (Z.of_nat n + 1).
Proof.
  induction n as [|n IH]; intros id m Hwf (Hid & Hs).
  - destruct Hs as (cells & Hr & Hst). destruct (leaf_inv _ _ _ _ Hwf Hid Hr) as (_ & _ & _ & Hsize & _).
    assert (20 * len cells <= sum_Z (map leaf_size cells)) as Hleast.
    { apply sum_Z_least. intros c. unfold leaf_size. pose proof (len_nonneg (cell_key c)).
      destruct (cell_value c) as [data|]; [pose proof (len_nonneg data)|]; lia. }
    unfold HEADER_SIZE, PAGE_SIZE in Hsize. change (1024 ^ (Z.of_nat 0 + 1)) with 1024.
    unfold len in *. rewrite <-(stored_length _ _ _ _ Hst). lia.
  - destruct Hs as (keys & children & parts & Hr & Hch & _ & ->).
    destruct (internal_inv _ _ _ _ _ _ Hwf Hid Hr) as (_ & _ & Hlen & _ & _ & Hsize & _).
    assert (16 * len keys <= sum_Z (map (fun key => 16 + len key) keys)) as Hleast.
    { apply sum_Z_least. intros k. pose proof (len_nonneg k). lia. }
    assert (len children <= 1024) as Hc by (unfold HEADER_SIZE, PAGE_SIZE, len in *; lia).
    assert (len (concat parts) <= len children * 1024 ^ (Z.of_nat n + 1)) as Hcat.
    { clear -IH Hwf Hch. induction Hch as [|c p children parts Hp _ IHc]; simpl; [by rewrite !len_nil, Z.mul_0_l|].
      rewrite len_app, len_cons. apply IH in Hp; [|done]. rewrite Z.mul_add_distr_r. lia. }
    replace (Z.of_nat (S n) + 1) with (Z.succ (Z.of_nat n + 1)) by lia. rewrite Z.pow_succ_r by lia.
    pose proof (Z.pow_pos_nonneg 1024 (Z.of_nat n + 1)). nia.
Qed.

Lemma scan_items_spec r tree upper scan items :
  reader_wf r -> scan_rest r tree upper scan items -> len items <= 1024 ^ 256 -> scan_items scan = map Ok items.
Proof.
  intros Hwf Hh Hlen. unfold scan_items.
  destruct (drain_spec r tree upper SCAN_DOUBLINGS scan _ [] Hwf Hh) as (scan' & taken & more & -> & -> & _ & Hn).
  simpl. rewrite app_nil_r, reverse_involutive. destruct Hn as [->|Hn]; [by rewrite app_nil_r|]. exfalso.
  assert (1024 ^ 256 < 2 ^ Z.of_nat SCAN_DOUBLINGS) as Hbig.
  { change 1024 with (2 ^ 10). rewrite <-Z.pow_mul_r by lia. apply Z.pow_lt_mono_r; unfold SCAN_DOUBLINGS; lia. }
  rewrite len_app in Hlen. pose proof (len_nonneg more). lia.
Qed.

Lemma filter_len {A} (f : A -> bool) l : len (List.filter f l) <= len l.
Proof. induction l as [|x l IH]; simpl; [lia|]. destruct (f x); rewrite ?len_cons; lia. Qed.

Lemma until_from upper lower m : until upper (from lower m) = bt_range lower upper m.
Proof.
  unfold until, from, bt_range, in_range. induction m as [|e m IH]; simpl; [done|].
  destruct (above lower e.1); simpl; [|done]. by rewrite IH.
Qed.

Lemma empty_range_spec lower upper m : empty_range lower upper = true -> bt_range lower upper m = [].
Proof.
  intros Hr. unfold bt_range. induction m as [|[k v] m IH]; [done|]. cbn [List.filter fst].
  replace (in_range lower upper k) with false; [done|]. symmetry. apply not_true_is_false. unfold in_range.
  intros [Ha Hb]%andb_true_iff. destruct lower as [a|a|], upper as [b|b|]; simpl in *; try done;
    rewrite ?cmp_lt_true in *.
  - apply (cmp_irrefl a). eapply cmp_le_lt_trans; [exact Ha|]. by eapply cmp_le_lt_trans.
  - apply (cmp_irrefl a). eapply cmp_le_lt_trans; [exact Ha|]. by eapply cmp_lt_le_trans.
  - apply (cmp_irrefl k). eapply cmp_le_lt_trans; [exact Hb|]. by eapply cmp_le_lt_trans.
  - apply (cmp_irrefl k). eapply cmp_trans; [exact Hb|]. by eapply cmp_le_lt_trans.
Qed.

Lemma tree_scan_holds r tree root m lower upper :
  reader_wf r -> tree_holds r tree root m -> bound_ok lower = true -> bound_ok upper = true ->
  exists s, scan r tree root lower upper = Ok s /\ scan_items s = map Ok (bt_range lower upper m).
Proof.
  intros Hwf Hh Hl Hu. unfold scan. rewrite !check_bound_ok by done. cbn [bindR].
  assert (forall s, scan_done s = true -> bt_range lower upper m = [] -> scan_items s = map Ok (bt_range lower upper m)) as Hnone.
  { intros s Hd ->. apply (scan_items_spec r tree upper); [done|by left|done]. }
  unfold tree_holds in Hh. destruct (root =? 0) eqn:Er; cbn [orb bindR].
  { eexists. split; [done|]. apply Hnone; [done|]. by subst m. }
  destruct Hh as (Hs & n & Hsub). pose proof (subtree_level _ _ _ _ _ Hwf Hsub) as Hn.
  destruct (empty_range lower upper) eqn:Ee; cbn [bindR].
  { eexists. split; [done|]. apply Hnone; [done|]. by apply empty_range_spec. }
  destruct (descend_spec r tree lower n TREE_FUEL [] [] root None m) as (stack & cells & start & m1 & m2 & E & H1 & H2 & H3 & _);
    [done|done|done|by left|unfold TREE_FUEL; lia|done|].
  rewrite E. cbn [bindR]. eexists. split; [done|]. apply (scan_items_spec r tree upper); [done| |].
  - right. exists (from lower m). split; [|by rewrite until_from]. split; [done|done|done|done|by apply bt_sorted_filter|done|].
    exists cells, m1, m2. rewrite app_nil_r in H2. done.
  - pose proof (subtree_count _ _ _ _ _ Hwf Hsub). pose proof (filter_len (fun e => in_range lower upper e.1) m).
    assert (1024 ^ (Z.of_nat n + 1) <= 1024 ^ 256) by (apply Z.pow_le_mono_r; lia). unfold bt_range. lia.
Qed.
End Scans.
