(* ===== verification/TreeSplits.v ===== *)
(** * Splitting an overfull node

    [split_point] finds the most balanced cut whose halves fit a page, and
    for the sizes that edits produce there is one. *)
From S2P Require Import Prelude OrdMap Errors Bytes Storage Platform Page Tree.

(** The encoded size of half a node: the first key of an internal node is not
    stored in it. *)
Definition half_size (internal : bool) (half : list Z) : Z :=
  HEADER_SIZE + sum_Z (if internal then tail half else half).

Definition least_half (internal : bool) : nat := if internal then 2 else 1.

Definition split_fits (sizes : list Z) (internal : bool) (i : nat) : Prop :=
  (least_half internal <= i)%nat /\ (i + least_half internal <= length sizes)%nat /\
  half_size internal (take i sizes) <= PAGE_SIZE /\ half_size internal (drop i sizes) <= PAGE_SIZE.

Definition imbalance (sizes : list Z) (internal : bool) (i : nat) : Z :=
  Z.abs (half_size internal (take i sizes) - half_size internal (drop i sizes)).

(** The best cut before [k]. *)
Definition best_before (sizes : list Z) (internal : bool) (k : nat) (best : option (nat * Z)) : Prop :=
  match best with
  | None => forall j, (1 <= j < k)%nat -> ~ split_fits sizes internal j
  | Some (i, difference) =>
      (i < k)%nat /\ split_fits sizes internal i /\ difference = imbalance sizes internal i /\
      forall j, (1 <= j < k)%nat -> split_fits sizes internal j -> difference <= imbalance sizes internal j
  end.

Section Sizes.
Context (sizes : list Z) (internal : bool).
Hypothesis sizes_nonneg : Forall (fun z => 0 <= z) sizes.
Hypothesis sizes_total : sum_Z sizes <= u32_max.

Lemma sum_parts i : sum_Z (take i sizes) + sum_Z (drop i sizes) = sum_Z sizes.
Proof. by rewrite <-sum_Z_app, take_drop. Qed.
Lemma sum_part_nonneg i : 0 <= sum_Z (take i sizes) /\ 0 <= sum_Z (drop i sizes).
Proof. split; apply sum_Z_nonneg; [by apply Forall_take|by apply Forall_drop]. Qed.

Lemma take_half i :
  (1 <= i)%nat -> (i < length sizes)%nat -> exists first,
  head sizes = Some first /\ 0 <= first /\
  HEADER_SIZE + sum_Z (take i sizes) - (if internal then first else 0) = half_size internal (take i sizes).
Proof.
  intros Hi Hl. destruct sizes as [|first rest]; [simpl in Hl; lia|]. apply Forall_cons_1 in sizes_nonneg as [Hf _].
  exists first. split; [done|]. split; [done|]. unfold half_size. destruct i as [|i]; [lia|]. simpl. destruct internal; simpl; lia.
Qed.
Lemma drop_half i size :
  sizes !! i = Some size ->
  HEADER_SIZE + sum_Z sizes - sum_Z (take i sizes) - (if internal then size else 0) = half_size internal (drop i sizes).
Proof.
  intros Hs. pose proof (sum_parts i) as Hp. unfold half_size. rewrite (drop_S _ _ _ Hs) in Hp |- *. simpl in Hp.
  destruct internal; simpl; lia.
Qed.

Lemma best_more k best : 
  (1 <= k)%nat -> best_before sizes internal k best -> ~ split_fits sizes internal k -> best_before sizes internal (S k) best.
Proof.
  intros Hk Hb Hn. destruct best as [[i d]|]; simpl in *.
  - destruct Hb as (Hi & Hf & Hd & Hm). split; [lia|]. split; [done|]. split; [done|]. intros j Hj Hfj.
    destruct (decide (j = k)) as [->|]; [done|]. apply Hm; [lia|done].
  - intros j Hj. destruct (decide (j = k)) as [->|]; [done|]. apply Hb. lia.
Qed.

Lemma half_bounds i : 0 <= half_size internal (take i sizes) <= u32_max + 64 /\ 0 <= half_size internal (drop i sizes) <= u32_max + 64.
Proof.
  pose proof (sum_parts i). destruct (sum_part_nonneg i).
  assert (forall l, Forall (fun z => 0 <= z) l -> 0 <= sum_Z (tail l) <= sum_Z l) as Ht.
  { intros l Hl. destruct Hl as [|x l Hx Hl]; simpl; [lia|]. pose proof (sum_Z_nonneg _ Hl). lia. }
  pose proof (Ht (take i sizes) (Forall_take _ _ _ sizes_nonneg)).
  pose proof (Ht (drop i sizes) (Forall_drop _ _ _ sizes_nonneg)).
  unfold half_size, HEADER_SIZE. destruct internal; lia.
Qed.

Lemma split_step_spec k best :
  (S k < length sizes)%nat -> best_before sizes internal (S k) best ->
  exists best', split_step sizes internal (sum_Z (take k sizes), best) (S k) = Ok (sum_Z (take (S k) sizes), best') /\
    best_before sizes internal (S (S k)) best'.
Proof.
  intros Hk Hb. destruct (lookup_lt_is_Some_2 sizes k) as [size Hsize]; [lia|].
  unfold split_step. rewrite Nat.pred_succ, Hsize. cbn [expect bindR].
  assert (sum_Z (take k sizes) + size = sum_Z (take (S k) sizes)) as ->.
  { rewrite (take_S_r _ _ _ Hsize), sum_Z_app. simpl. lia. }
  fold (least_half internal). destruct (_ || _) eqn:Eskip.
  { exists best. split; [done|]. apply best_more; [lia|done|]. intros (H1 & H2 & _).
    apply orb_true_iff in Eskip as [E|E]; apply Nat.ltb_lt in E; lia. }
  apply orb_false_iff in Eskip as [E1 E2]. apply Nat.ltb_ge in E1, E2.
  destruct (take_half (S k)) as (first & Hfirst & Hf0 & Hleft); [lia|done|].
  destruct (lookup_lt_is_Some_2 sizes (S k)) as [next Hnext]; [done|].
  rewrite Hfirst, Hnext. cbn [expect bindR]. rewrite (drop_half _ _ Hnext), Hleft.
  destruct (half_bounds (S k)) as [Bl Br]. rewrite !arith_u64_ok by (unfold u32_max, u64_max in *; lia). cbn [bindR].
  fold (imbalance sizes internal (S k)).
  destruct ((half_size internal (take (S k) sizes) <=? PAGE_SIZE) && (half_size internal (drop (S k) sizes) <=? PAGE_SIZE)) eqn:Efit.
  - apply andb_true_iff in Efit as [F1%Z.leb_le F2%Z.leb_le].
    assert (split_fits sizes internal (S k)) as Hfit by (split; [done|]; split; [lia|done]).
    destruct best as [[i d]|]; simpl in Hb.
    + destruct Hb as (Hi & Hfi & -> & Hm). destruct (Z.ltb_spec (imbalance sizes internal (S k)) (imbalance sizes internal i)) as [Hlt|Hge].
      * eexists. split; [done|]. split; [lia|]. split; [done|]. split; [done|]. intros j Hj Hfj.
        destruct (decide (j = S k)) as [->|]; [done|]. specialize (Hm j ltac:(lia) Hfj). lia.
      * eexists. split; [done|]. split; [lia|]. split; [done|]. split; [done|]. intros j Hj Hfj.
        destruct (decide (j = S k)) as [->|]; [done|]. apply Hm; [lia|done].
    + eexists. split; [done|]. split; [lia|]. split; [done|]. split; [done|]. intros j Hj Hfj.
      destruct (decide (j = S k)) as [->|]; [done|]. destruct (Hb j); [lia|done].
  - exists best. split; [done|]. apply best_more; [lia|done|]. intros (_ & _ & F1%Z.leb_le & F2%Z.leb_le). by rewrite F1, F2 in Efit.
Qed.

Lemma split_fold n : forall k best,
  (k + n < length sizes)%nat -> best_before sizes internal (S k) best ->
  exists best', foldR (split_step sizes internal) (sum_Z (take k sizes), best) (seq (S k) n) =
      Ok (sum_Z (take (k + n) sizes), best') /\ best_before sizes internal (S (k + n)) best'.
Proof.
  induction n as [|n IH]; intros k best Hk Hb; cbn [seq foldR].
  - exists best. by rewrite Nat.add_0_r.
  - destruct (split_step_spec k best) as (best1 & -> & Hb1); [lia|done|]. cbn [bindR].
    destruct (IH (S k) best1) as (best' & -> & Hb'); [lia|done|]. exists best'.
    by replace (k + S n)%nat with (S k + n)%nat by lia.
Qed.

Lemma split_point_best :
  match split_point sizes internal with
  | Ok i => split_fits sizes internal i /\
      forall j, split_fits sizes internal j -> imbalance sizes internal i <= imbalance sizes internal j
  | Err error => error = InvalidInput "node cannot be split" /\ forall j, ~ split_fits sizes internal j
  | Panic => False
  end.
Proof.
  assert (forall j, split_fits sizes internal j -> (1 <= j < length sizes)%nat) as Hrange.
  { intros j (H1 & H2 & _). unfold least_half in *. destruct internal; lia. }
  unfold split_point. destruct (decide (sizes = [])) as [E|E].
  { rewrite E. cbn. split; [done|]. intros j Hj. pose proof (Hrange j) as Hr. rewrite E in Hr. apply Hr in Hj. simpl in Hj. lia. }
  assert (length sizes <> O) as Hne by (by destruct sizes).
  destruct (split_fold (length sizes - 1) 0 None) as (best & Hfold & Hb); [lia|intros j Hj; lia|].
  simpl in Hfold, Hb. rewrite Hfold. cbn [bindR]. destruct best as [[i d]|]; simpl in Hb.
  - destruct Hb as (_ & Hf & -> & Hm). split; [done|]. intros j Hj. apply Hm; [|done]. apply Hrange in Hj. lia.
  - split; [done|]. intros j Hj. apply (Hb j); [|done]. apply Hrange in Hj. lia.
Qed.
End Sizes.

(** ** There is a cut *)
Lemma last_true (p : nat -> bool) a n :
  p a = true -> exists i, (a <= i <= a + n)%nat /\ p i = true /\ (i = (a + n)%nat \/ p (S i) = false).
Proof.
  intros Ha. induction n as [|n (i & Hi & Hp & Hn)]; [exists a; split; [lia|]; split; [done|left; lia]|].
  destruct Hn as [->|Hn]; [|exists i; split; [lia|]; split; [done|by right]].
  destruct (p (S (a + n))) eqn:E.
  - exists (S (a + n)). split; [lia|]. split; [done|]. left. lia.
  - exists (a + n)%nat. split; [lia|]. split; [done|]. by right.
Qed.

(** A cell or a separator that fits the format is small. *)
Definition LEAF_MOST : Z := 3110.
Definition KEY_MOST : Z := 2082.

Lemma sum_Z_most c l : Forall (fun z => z <= c) l -> sum_Z l <= c * len l.
Proof. induction 1 as [|z l Hz _ IH]; simpl; [by rewrite Z.mul_0_r|]. rewrite len_cons. lia. Qed.

Lemma leaf_splits sizes :
  Forall (fun z => 0 <= z <= LEAF_MOST) sizes -> PAYLOAD_SIZE < sum_Z sizes <= PAYLOAD_SIZE + LEAF_MOST ->
  exists i, split_fits sizes false i.
Proof.
  intros Hs Hsum. unfold LEAF_MOST, PAYLOAD_SIZE, PAGE_SIZE, HEADER_SIZE in *.
  pose proof (sum_Z_most 3110 sizes ltac:(eapply Forall_impl; [exact Hs|simpl; lia])) as Hmost. unfold len in Hmost.
  destruct (last_true (fun i => sum_Z (take i sizes) <=? 16320) 1 (length sizes - 2)) as (i & Hi & Hp & Hn).
  { destruct sizes as [|z l]; [done|]. apply Forall_cons_1 in Hs as [Hz _]. simpl. apply Z.leb_le. lia. }
  exists i. unfold split_fits, half_size, least_half, HEADER_SIZE, PAGE_SIZE. apply Z.leb_le in Hp.
  pose proof (sum_parts sizes i) as Hparts. destruct (lookup_lt_is_Some_2 sizes i) as [z Hz]; [lia|].
  assert (0 <= z <= 3110) as Hz' by (rewrite Forall_lookup in Hs; by apply (Hs i)).
  split; [lia|]. split; [lia|]. split; [lia|]. destruct Hn as [->|Hn].
  - rewrite (drop_S _ _ _ Hz), drop_ge by lia. simpl. lia.
  - apply Z.leb_gt in Hn. rewrite (take_S_r _ _ _ Hz), sum_Z_app in Hn. simpl in Hn. lia.
Qed.

Lemma internal_splits sizes :
  Forall (fun z => 0 <= z <= KEY_MOST) sizes -> PAYLOAD_SIZE < sum_Z (tail sizes) <= PAYLOAD_SIZE + 2 * KEY_MOST ->
  exists i, split_fits sizes true i.
Proof.
  intros Hs Hsum. unfold KEY_MOST, PAYLOAD_SIZE, PAGE_SIZE, HEADER_SIZE in *. destruct sizes as [|first sizes]; [simpl in Hsum; lia|].
  apply Forall_cons_1 in Hs as [Hfirst Hs]. simpl in Hsum.
  pose proof (sum_Z_most 2082 sizes ltac:(eapply Forall_impl; [exact Hs|simpl; lia])) as Hmost. unfold len in Hmost.
  destruct (last_true (fun i => sum_Z (take i sizes) <=? 16320) 1 (length sizes - 3)) as (i & Hi & Hp & Hn).
  { destruct sizes as [|z l]; [simpl in Hsum; lia|]. apply Forall_cons_1 in Hs as [Hz _]. simpl. apply Z.leb_le. lia. }
  exists (S i). unfold split_fits, half_size, least_half, HEADER_SIZE, PAGE_SIZE. apply Z.leb_le in Hp. simpl.
  destruct (lookup_lt_is_Some_2 sizes i) as [z Hz]; [lia|]. pose proof (sum_parts sizes (S i)) as Hparts.
  assert (0 <= z <= 2082) as Hz' by (rewrite Forall_lookup in Hs; by apply (Hs i)).
  split; [lia|]. split; [lia|]. split; [lia|]. rewrite (drop_S _ _ _ Hz). simpl. destruct Hn as [->|Hn].
  - destruct (lookup_lt_is_Some_2 sizes (S (1 + (length sizes - 3)))) as [y Hy]; [lia|].
    assert (0 <= y <= 2082) as Hy' by (rewrite Forall_lookup in Hs; by apply (Hs _ _ Hy)).
    rewrite (drop_S _ _ _ Hy), drop_ge by lia. simpl. lia.
  - apply Z.leb_gt in Hn. lia.
Qed.

Lemma split_point_ok sizes internal most :
  Forall (fun z => 0 <= z <= most) sizes -> sum_Z sizes <= u32_max -> (exists i, split_fits sizes internal i) ->
  exists i, split_point sizes internal = Ok i /\ split_fits sizes internal i.
Proof.
  intros Hs Hsum [i Hi]. pose proof (split_point_best sizes internal) as Hb.
  destruct (split_point sizes internal) as [j|error|]; [exists j; split; [done|]|exfalso..]; apply Hb in Hsum as Hr;
    try (eapply Forall_impl; [exact Hs|]; simpl; lia).
  - by destruct Hr.
  - by destruct Hr as [_ Hno]; apply Hno in Hi.
  - done.
Qed.
