(* ===== verification/TreeWrites.v ===== *)
(** * Writing the nodes of an edit

    [write_leaves] and [write_internal] store a list of cells or children in
    one node, or in two when it does not fit a page. *)
From Stdlib Require Import Sorted.
From S2P Require Import Prelude OrdMap Errors Bytes Storage Platform Page PageFacts NodeFacts FileFacts StoredFacts Tree TreeFacts TreeReads TreeSplits.

Lemma sorted_keys (m : list Entry) : bt_sorted m <-> increasing (map fst m).
Proof.
  induction m as [|e m IH]; simpl; split; intros Hs; [constructor|constructor|..];
    apply StronglySorted_inv in Hs as [Hs Hf]; (constructor; [by apply IH|]); rewrite List.Forall_forall in *.
  - intros k (x & <- & Hx)%in_map_iff. by apply (Hf x).
  - intros x Hx. apply Hf. by apply in_map.
Qed.

Definition kid_size (child : Child) : Z := 16 + len (child_min child).

Section Writes.
Context `{Checksum}.
Implicit Types (r : PageReader) (m : list Entry).

Definition child_holds r (tree : TreeId) (n : nat) (child : Child) m : Prop :=
  subtree r tree n (child_id child) m /\ first_key m = Some (child_min child).
Definition kids_hold r (tree : TreeId) (n : nat) : list Child -> list (list Entry) -> Prop :=
  Forall2 (child_holds r tree n).

Lemma child_holds_le r r' tree n c m :
  reader_wf r -> reader_wf r' -> reader_le r r' -> child_holds r tree n c m -> child_holds r' tree n c m.
Proof. intros ? ? ? [Hs Hf]. split; [by apply (subtree_le r)|done]. Qed.
Lemma kids_hold_le r r' tree n kids parts :
  reader_wf r -> reader_wf r' -> reader_le r r' -> kids_hold r tree n kids parts -> kids_hold r' tree n kids parts.
Proof. intros ? ? ? Hk. eapply Forall2_impl; [exact Hk|]. intros c m. by apply child_holds_le. Qed.

Lemma subtree_keys r tree n : forall id m, reader_wf r -> subtree r tree n id m -> Forall (fun e : Entry => len e.1 <= MAX_KEY) m.
Proof.
  induction n as [|n IH]; intros id m Hwf (Hid & Hs).
  - destruct Hs as (cells & Hr & Hst). destruct (leaf_inv _ _ _ _ Hwf Hid Hr) as (_ & Hk & _).
    revert Hk. clear -Hst. induction Hst as [|c e cells m [He _] _ IH]; [constructor|].
    intros [Hc Hk]%Forall_cons_1. constructor; [by rewrite <-He|by apply IH].
  - destruct Hs as (keys & children & parts & Hr & Hch & _ & ->). clear Hr.
    induction Hch as [|c p children parts Hp _ IHc]; simpl; [constructor|]. apply Forall_app. split; [by eapply IH|done].
Qed.

Lemma child_min_len r tree n c m : reader_wf r -> child_holds r tree n c m -> len (child_min c) <= MAX_KEY.
Proof.
  intros Hwf [Hs Hf]. apply subtree_keys in Hs; [|done]. destruct m as [|e m]; [done|]. injection Hf as <-.
  by apply Forall_cons_1 in Hs as [? _].
Qed.

Lemma kids_sizes r tree n kids parts :
  reader_wf r -> kids_hold r tree n kids parts -> Forall (fun z => 0 <= z <= KEY_MOST) (map kid_size kids).
Proof.
  intros Hwf Hk. induction Hk as [|c p kids parts Hc _ IH]; simpl; constructor; [|done].
  apply child_min_len in Hc; [|done]. unfold kid_size, KEY_MOST, MAX_KEY in *. pose proof (len_nonneg (child_min c)). lia.
Qed.

(** ** Leaves *)
Definition cell_ok (count : Z) (c : LeafCell) : Prop := len (cell_key c) <= MAX_KEY /\ cell_wf count c.

Lemma cell_ok_mono count count' c : cell_ok count c -> count <= count' -> cell_ok count' c.
Proof. unfold cell_ok, cell_wf. intros [H1 H2] Hc. split; [done|]. destruct (cell_value c); lia. Qed.

Lemma leaf_sizes count cells :
  Forall (cell_ok count) cells -> Forall (fun z => 0 <= z <= LEAF_MOST) (map leaf_size cells).
Proof.
  induction 1 as [|c cells [Hk Hc] _ IH]; simpl; constructor; [|done]. unfold leaf_size, cell_wf, LEAF_MOST, MAX_KEY, INLINE_LIMIT in *.
  pose proof (len_nonneg (cell_key c)). destruct (cell_value c) as [data|]; [pose proof (len_nonneg data)|]; lia.
Qed.

Lemma leaf_wf r tree count cells m :
  cells <> [] -> stored r tree cells m -> bt_sorted m -> Forall (cell_ok count) cells ->
  HEADER_SIZE + sum_Z (map leaf_size cells) <= PAGE_SIZE -> node_wf count (Leaf cells).
Proof.
  intros Hne Hst Hs Hok Hfit. split; simpl.
  - by destruct cells.
  - rewrite (stored_keys _ _ _ _ Hst). by apply sorted_keys.
  - apply Forall_map. eapply Forall_impl; [exact Hok|]. by intros c [? _].
  - by rewrite <-sum_leaf_sizes.
  - eapply Forall_impl; [exact Hok|]. by intros c [_ ?].
Qed.

Lemma stored_first r tree cells m c : stored r tree cells m -> head cells = Some c -> first_key m = Some (cell_key c).
Proof. intros Hst Hc. destruct Hst as [|c' e cells m [Hk _] _]; [done|]. injection Hc as ->. by rewrite Hk. Qed.

Lemma runs_append_leaf tree cells m f (Q : PageFile -> Child -> Prop) :
  file_wf f -> cells <> [] -> stored (reader f) tree cells m -> bt_sorted m -> Forall (cell_ok (page_count f)) cells ->
  HEADER_SIZE + sum_Z (map leaf_size cells) <= PAGE_SIZE ->
  (forall f' c, file_wf f' -> file_le f f' -> child_holds (reader f') tree 0 c m -> Q f' c) ->
  runs (append_leaf tree cells) f Q.
Proof.
  intros Hwf Hne Hst Hs Hok Hfit HQ. unfold append_leaf. destruct (head cells) as [c|] eqn:Hc; [|by destruct cells].
  apply runs_bind; [done|]. eapply runs_lift; [done|done|]. intros _ _. apply runs_bind; [done|].
  apply runs_append_node; [done|by eapply leaf_wf|]. intros f1 id Hwf1 Hle1 Hid Hr _ _. apply runs_ok; [done|].
  apply HQ; [done|done|]. split; [|by eapply stored_first]. simpl.
  pose proof Hwf as [[[Hcount _] _] _]. cbn in Hcount. split; [lia|]. exists cells. split; [done|].
  eapply (stored_le (reader f)); [apply Hwf|apply Hle1| |exact Hst]. eapply Forall_impl; [exact Hok|]. by intros x [_ ?].
Qed.

(** What an edit of a subtree of the given height leaves: up to two nodes of
    the same height, nothing, or one node of the height below. *)
Definition nodes_hold r (tree : TreeId) (n : nat) (edit : Edit) m : Prop :=
  edit_level edit = Z.of_nat n /\ (1 <= length (edit_children edit) <= 2)%nat /\
  exists parts, kids_hold r tree n (edit_children edit) parts /\ m = concat parts.

Lemma nodes_one r tree n c m :
  child_holds r tree n c m -> nodes_hold r tree n {| edit_level := Z.of_nat n; edit_children := [c] |} m.
Proof.
  intros Hc. split; [done|]. split; [simpl; lia|]. exists [m]. split; [constructor; [done|constructor]|]. simpl. by rewrite app_nil_r.
Qed.
Lemma nodes_two r tree n c1 c2 m1 m2 :
  child_holds r tree n c1 m1 -> child_holds r tree n c2 m2 ->
  nodes_hold r tree n {| edit_level := Z.of_nat n; edit_children := [c1; c2] |} (m1 ++ m2).
Proof.
  intros H1 H2. split; [done|]. split; [simpl; lia|]. exists [m1; m2]. split; [constructor; [done|constructor; [done|constructor]]|]. simpl. by rewrite app_nil_r.
Qed.

Lemma file_count f f' : file_le f f' -> page_count f <= page_count f'.
Proof. by intros [[? _] _ _]. Qed.

Lemma runs_write_leaves tree cells m f (Q : PageFile -> Edit -> Prop) :
  file_wf f -> cells <> [] -> stored (reader f) tree cells m -> bt_sorted m -> Forall (cell_ok (page_count f)) cells ->
  sum_Z (map leaf_size cells) <= PAYLOAD_SIZE + LEAF_MOST ->
  (forall f' edit, file_wf f' -> file_le f f' -> nodes_hold (reader f') tree 0 edit m -> Q f' edit) ->
  runs (write_leaves tree cells) f Q.
Proof.
  intros Hwf Hne Hst Hs Hok Hsum HQ. unfold write_leaves. rewrite bool_decide_false by done.
  pose proof (leaf_sizes _ _ Hok) as Hsizes.
  destruct (Z.gtb_spec (HEADER_SIZE + sum_Z (map leaf_size cells)) PAGE_SIZE) as [Hbig|Hfit].
  - destruct (split_point_ok (map leaf_size cells) false LEAF_MOST) as (i & Hi & H1 & H2 & H3 & H4);
      [done|unfold LEAF_MOST, PAYLOAD_SIZE, PAGE_SIZE, HEADER_SIZE, u32_max in *; lia
      |apply leaf_splits; [done|unfold PAYLOAD_SIZE in *; lia]|].
    unfold half_size in H3, H4. rewrite firstn_map in H3. rewrite skipn_map in H4. rewrite length_map in H2. simpl in H1, H2.
    pose proof Hs as Hs'. rewrite <-(take_drop i m) in Hs'. apply bt_sorted_cut in Hs' as (Hs1 & Hs2 & _).
    apply runs_bind; [done|]. eapply runs_lift; [exact Hi|done|]. intros _ _. apply runs_bind; [done|].
    apply (runs_append_leaf tree _ (take i m)); [done| |by apply Forall2_take|done|by apply Forall_take|done|].
    { intros E. apply (f_equal length) in E. rewrite length_take in E. simpl in E. lia. }
    intros f1 low Hwf1 Hle1 Hlow _ _. apply runs_bind; [done|].
    apply (runs_append_leaf tree _ (drop i m)); [done| | |done| |done|].
    { intros E. apply (f_equal length) in E. rewrite length_drop in E. simpl in E. lia. }
    { apply (stored_le (reader f)); [apply Hwf|apply Hle1| |by apply Forall2_drop].
      apply Forall_drop. eapply Forall_impl; [exact Hok|]. by intros x [_ ?]. }
    { apply Forall_drop. eapply Forall_impl; [exact Hok|]. intros x Hx. by apply (cell_ok_mono (page_count f)); [|apply file_count]. }
    intros f2 high Hwf2 Hle2 Hhigh _ _. apply runs_ok; [done|]. apply HQ; [done|by apply (file_le_trans f f1)|].
    rewrite <-(take_drop i m). apply (nodes_two _ _ 0); [|done]. eapply child_holds_le; [apply Hwf1|apply Hwf2|apply Hle2|done].
  - apply runs_bind; [done|]. apply (runs_append_leaf tree _ m); [done..|]. intros f1 c Hwf1 Hle1 Hc _ _.
    apply runs_ok; [done|]. apply HQ; [done..|]. by apply (nodes_one _ _ 0).
Qed.

(** ** Internal nodes *)
Lemma kids_increasing r tree n kids parts :
  kids_hold r tree n kids parts -> bt_sorted (concat parts) -> increasing (map child_min kids).
Proof.
  intros Hk. induction Hk as [|c p kids parts [_ Hf] Hks IH]; simpl; intros Hs; [constructor|].
  apply bt_sorted_cut in Hs as (_ & Hs & Hlt). constructor; [by apply IH|]. clear IH Hs.
  apply List.Forall_forall. intros k (x & <- & Hx)%in_map_iff. apply list_elem_of_In, list_elem_of_lookup_1 in Hx as [i Hi].
  destruct (Forall2_lookup_l _ _ _ _ _ Hks Hi) as (q & Hq & [_ Hqf]).
  destruct p as [|e p]; [done|]. injection Hf as Hf. destruct q as [|e2 q]; [done|]. injection Hqf as Hqf.
  rewrite <-Hf, <-Hqf. apply Hlt; [by left|]. apply list_elem_of_In, in_concat. exists (e2 :: q).
  split; [by eapply list_elem_of_In, list_elem_of_lookup_2|by left].
Qed.

Lemma kids_separators r tree n kids parts :
  kids_hold r tree n kids parts -> separators (map child_min (tail kids)) (tail parts).
Proof.
  intros [|c p kids' parts' _ Hk]; simpl; [constructor|].
  induction Hk as [|c' p' kids'' parts'' [_ Hf] _ IH]; simpl; constructor; done.
Qed.

Lemma kids_holding r tree n kids parts : kids_hold r tree n kids parts -> holding r tree n (map child_id kids) parts.
Proof. intros Hk. induction Hk as [|c p kids parts [Hc _] _ IH]; simpl; constructor; done. Qed.

Lemma subtree_count_ref r tree n id m : reader_wf r -> subtree r tree n id m -> 0 < id < reader_count r.
Proof.
  intros Hwf. destruct n as [|n]; intros (Hid & Hs).
  - destruct Hs as (cells & Hr & _). by apply (leaf_inv _ _ _ _ Hwf Hid Hr).
  - destruct Hs as (keys & children & parts & Hr & _). by apply (internal_inv _ _ _ _ _ _ Hwf Hid Hr).
Qed.

Lemma map_kid_size kids : map kid_size kids = map (fun key => 16 + len key) (map child_min kids).
Proof. by rewrite map_map. Qed.

Lemma tail_map {A B} (g : A -> B) l : tail (map g l) = map g (tail l).
Proof. by destruct l. Qed.

Lemma internal_wf r tree n kids parts :
  reader_wf r -> kids_hold r tree n kids parts -> bt_sorted (concat parts) -> (2 <= length kids)%nat -> (S n <= 255)%nat ->
  half_size true (map kid_size kids) <= PAGE_SIZE -> node_wf (reader_count r) (internal_node (Z.of_nat (S n)) kids).
Proof.
  intros Hwf Hk Hs Hlen Hn Hfit. unfold half_size in Hfit. rewrite tail_map, map_kid_size in Hfit. split; simpl.
  - destruct kids as [|c1 [|c2 kids]]; simpl in *; [lia|lia|done].
  - pose proof (kids_increasing _ _ _ _ _ Hk Hs) as Hi. destruct kids as [|c kids]; [constructor|].
    simpl in *. by apply StronglySorted_inv in Hi as [? _].
  - apply Forall_map, Forall_tail. apply Forall_forall. intros c Hc. apply list_elem_of_lookup_1 in Hc as [i Hi].
    destruct (Forall2_lookup_l _ _ _ _ _ Hk Hi) as (q & _ & Hq). by eapply child_min_len.
  - rewrite <-(sum_key_sizes (map child_min (tail kids)) (tail (map child_id kids))); [done|].
    by rewrite tail_map, !length_map.
  - split; [lia|]. split; [rewrite !length_map; destruct kids; simpl in *; lia|]. apply Forall_map, Forall_forall.
    intros c Hc. apply list_elem_of_lookup_1 in Hc as [i Hi].
    destruct (Forall2_lookup_l _ _ _ _ _ Hk Hi) as (q & _ & [Hq _]). by eapply subtree_count_ref.
Qed.

Lemma runs_append_internal tree n kids parts f (Q : PageFile -> Child -> Prop) :
  file_wf f -> kids_hold (reader f) tree n kids parts -> bt_sorted (concat parts) -> (2 <= length kids)%nat -> (S n <= 255)%nat ->
  half_size true (map kid_size kids) <= PAGE_SIZE ->
  (forall f' c, file_wf f' -> file_le f f' -> child_holds (reader f') tree (S n) c (concat parts) -> Q f' c) ->
  runs (append_internal tree (Z.of_nat (S n)) kids) f Q.
Proof.
  intros Hwf Hk Hs Hlen Hn Hfit HQ. unfold append_internal. pose proof Hwf as [Hr _].
  destruct kids as [|c kids]; [simpl in Hlen; lia|]. cbn [head].
  apply runs_bind; [done|]. eapply runs_lift; [done|done|]. intros _ _. apply runs_bind; [done|].
  apply runs_append_node; [done|by eapply (internal_wf (reader f))|]. intros f1 id Hwf1 Hle1 Hid Hread _ _.
  apply runs_ok; [done|]. apply HQ; [done|done|].
  assert (kids_hold (reader f1) tree n (c :: kids) parts) as Hk1 by (eapply kids_hold_le; [apply Hr|apply Hwf1|apply Hle1|done]).
  split.
  - pose proof Hwf as [[[Hcount _] _] _]. cbn in Hcount. split; [simpl; lia|].
    exists (map child_min kids), (map child_id (c :: kids)), parts. split; [done|]. split; [by apply kids_holding|].
    split; [|done]. exact (kids_separators _ _ _ _ _ Hk1).
  - inversion Hk as [|? p ? parts' [_ Hf] _]; subst. simpl. by apply first_key_app.
Qed.

Lemma runs_write_internal tree n kids parts f (Q : PageFile -> Edit -> Prop) :
  file_wf f -> kids_hold (reader f) tree n kids parts -> bt_sorted (concat parts) -> (2 <= length kids)%nat -> (S n <= 255)%nat ->
  sum_Z (tail (map kid_size kids)) <= PAYLOAD_SIZE + 2 * KEY_MOST ->
  (forall f' edit, file_wf f' -> file_le f f' -> nodes_hold (reader f') tree (S n) edit (concat parts) -> Q f' edit) ->
  runs (write_internal tree (Z.of_nat (S n)) kids) f Q.
Proof.
  intros Hwf Hk Hs Hlen Hn Hsum HQ. pose proof Hwf as [Hr _]. unfold write_internal.
  change (map (fun child => 16 + len (child_min child)) kids) with (map kid_size kids).
  pose proof (kids_sizes _ _ _ _ _ Hr Hk) as Hsizes.
  destruct (Z.gtb_spec (HEADER_SIZE + sum_Z (tail (map kid_size kids))) PAGE_SIZE) as [Hbig|Hfit].
  - destruct (split_point_ok (map kid_size kids) true KEY_MOST) as (i & Hi & H1 & H2 & H3 & H4); [done| | |].
    { destruct Hsizes as [|z l Hz _]; simpl in *; unfold KEY_MOST, PAYLOAD_SIZE, PAGE_SIZE, HEADER_SIZE, u32_max in *; lia. }
    { apply internal_splits; [done|]. unfold PAYLOAD_SIZE in *. lia. }
    rewrite firstn_map in H3. rewrite skipn_map in H4. rewrite length_map in H2. simpl in H1, H2.
    pose proof Hs as Hs'. rewrite <-(take_drop i parts), concat_app in Hs'. apply bt_sorted_cut in Hs' as (Hs1 & Hs2 & _).
    apply runs_bind; [done|]. eapply runs_lift; [exact Hi|done|]. intros _ _. apply runs_bind; [done|].
    apply (runs_append_internal tree n _ (take i parts)); [done|by apply Forall2_take|done|rewrite length_take; lia|done|done|].
    intros f1 low Hwf1 Hle1 Hlow _ _. apply runs_bind; [done|].
    apply (runs_append_internal tree n _ (drop i parts)); [done| |done|rewrite length_drop; lia|done|done|].
    { apply Forall2_drop. eapply kids_hold_le; [apply Hr|apply Hwf1|apply Hle1|done]. }
    intros f2 high Hwf2 Hle2 Hhigh _ _. apply runs_ok; [done|]. apply HQ; [done|by apply (file_le_trans f f1)|].
    rewrite <-(take_drop i parts), concat_app. apply nodes_two; [|done].
    eapply child_holds_le; [apply Hwf1|apply Hwf2|apply Hle2|done].
  - apply runs_bind; [done|]. apply (runs_append_internal tree n _ parts); [done..|]. intros f1 c Hwf1 Hle1 Hc _ _.
    apply runs_ok; [done|]. apply HQ; [done..|]. by apply nodes_one.
Qed.
End Writes.
