(* ===== verification/TreeEdits.v ===== *)
(** * Edits of a B+ tree

    [put] and [delete] build a new root that holds the old entries with one
    inserted, replaced or removed.  They never panic, keep every page below
    the old page count, and fail only for a reason in [failed]. *)
From Stdlib Require Import Sorted.
From S2P Require Import Prelude OrdMap Errors Bytes Storage Platform Page PageFacts NodeFacts FileFacts StoredFacts Tree TreeFacts TreeReads TreeSplits TreeWrites.

Lemma sum_Z_part (a b : list Z) : Forall (fun z => 0 <= z) a -> sum_Z b <= sum_Z (a ++ b).
Proof. intros Ha. rewrite sum_Z_app. pose proof (sum_Z_nonneg _ Ha). lia. Qed.

(** A splice of at most two children makes a node little larger. *)
Lemma splice_sizes (sizes new : list Z) (a b : nat) :
  Forall (fun z => 0 <= z <= KEY_MOST) sizes -> Forall (fun z => 0 <= z <= KEY_MOST) new -> (length new <= 2)%nat ->
  (a < b)%nat -> sum_Z (tail (take a sizes ++ new ++ drop b sizes)) <= sum_Z (tail sizes) + 2 * KEY_MOST.
Proof.
  intros Hs Hn Hl Hab. assert (sum_Z new <= 2 * KEY_MOST) as Hnew.
  { pose proof (sum_Z_most KEY_MOST new ltac:(eapply Forall_impl; [exact Hn|simpl; lia])). unfold len, KEY_MOST in *. nia. }
  assert (forall l, Forall (fun z => 0 <= z <= KEY_MOST) l -> 0 <= sum_Z l) as Hpos.
  { intros l Hf. apply sum_Z_nonneg. eapply Forall_impl; [exact Hf|]. simpl. lia. }
  destruct sizes as [|z sizes].
  { rewrite take_nil, drop_nil, app_nil_r. simpl. destruct Hn as [|y new Hy Hn']; simpl in *; unfold KEY_MOST in *; lia. }
  apply Forall_cons_1 in Hs as [Hz Hs]. destruct b as [|b]; [lia|]. simpl drop. destruct a as [|a].
  - simpl. assert (sum_Z (drop b sizes) <= sum_Z sizes) as Hd.
    { pose proof (sum_Z_part (take b sizes) (drop b sizes)) as Hp. rewrite take_drop in Hp. apply Hp.
      apply Forall_take. eapply Forall_impl; [exact Hs|]. simpl. lia. }
    assert (forall y l, 0 <= y -> sum_Z (tail (y :: l)) <= sum_Z (y :: l)) as Ht by (intros; simpl; lia).
    destruct Hn as [|y new Hy Hn']; simpl app.
    + destruct (drop b sizes) as [|y l] eqn:E; simpl in *; [pose proof (Hpos _ Hs); unfold KEY_MOST; lia|].
      assert (0 <= y). { assert (y ∈ sizes) as Hin. { rewrite <-(take_drop b sizes), E. apply elem_of_app. right. by left. }
        rewrite Forall_forall in Hs. apply Hs in Hin. lia. }
      unfold KEY_MOST. lia.
    + simpl in *. rewrite sum_Z_app. lia.
  - simpl. rewrite !sum_Z_app. rewrite <-(take_drop a sizes) at 3. rewrite sum_Z_app.
    assert (sum_Z (drop b sizes) <= sum_Z (drop a sizes)) as Hd; [|lia].
    replace b with (a + (b - a))%nat by lia. rewrite <-drop_drop. set (rest := drop a sizes).
    pose proof (sum_Z_part (take (b - a) rest) (drop (b - a) rest)) as Hp. rewrite take_drop in Hp. apply Hp.
    apply Forall_take, Forall_drop. eapply Forall_impl; [exact Hs|]. simpl. lia.
Qed.

Section Edits.
Context `{Checksum}.
Implicit Types (r : PageReader) (m : list Entry).

(** ** The children of a node *)
Lemma minimum_spec r tree n : forall fuel id m key,
  reader_wf r -> subtree r tree n id m -> first_key m = Some key -> (n < fuel)%nat ->
  minimum fuel r tree id (Z.of_nat n) = Ok key.
Proof.
  induction n as [|n IH]; intros fuel id m key Hwf Hsub Hf Hfuel; (destruct fuel as [|fuel]; [lia|]);
    cbn [minimum]; rewrite load_shared_load; pose proof (subtree_level _ _ _ _ _ Hwf Hsub) as Hl.
  - destruct Hsub as (Hid & cells & Hr & Hst). rewrite (load_leaf _ _ _ _ _ Hr) by (by right). cbn [bindR].
    destruct Hst as [|c e cells m [Hk _] _]; [done|]. injection Hf as <-. cbn. by rewrite Hk.
  - destruct Hsub as (Hid & keys & children & parts & Hr & Hch & _ & ->).
    rewrite (load_internal _ _ _ _ _ _ _ Hr) by (by right). cbn [bindR].
    destruct Hch as [|c p children parts Hp _]; [done|]. cbn [head expect bindR]. rewrite level_below by lia. cbn [bindR].
    destruct (subtree_first _ _ _ _ _ Hwf Hp) as [k Hk]. simpl in Hf. rewrite (first_key_app _ _ _ Hk) in Hf.
    injection Hf as <-. apply (IH _ _ p); (done || lia).
Qed.

Lemma child_list_spec r tree n keys children parts :
  reader_wf r -> holding r tree n children parts -> separators keys (tail parts) -> children <> [] -> (n <= 255)%nat ->
  exists kids, child_list r tree (Z.of_nat (S n)) keys children = Ok kids /\ kids_hold r tree n kids parts /\
    map child_min (tail kids) = keys.
Proof.
  intros Hwf Hch Hsep Hne Hn. unfold child_list. destruct Hch as [|c p children parts Hp Hch]; [done|]. cbn [head expect bindR].
  rewrite level_below by done. cbn [bindR]. destruct (subtree_first _ _ _ _ _ Hwf Hp) as [k Hk].
  rewrite (minimum_spec _ _ _ _ _ p k) by (done || unfold TREE_FUEL; lia). cbn [bindR zip_with].
  eexists. split; [done|]. split.
  - constructor; [done|]. simpl in Hsep. clear -Hsep Hch. revert keys Hsep.
    induction Hch as [|c p children parts Hp _ IH]; intros keys Hsep; inversion Hsep as [|key q keys' parts' Hkey Hsep']; subst; simpl;
      constructor; [done|by apply IH].
  - simpl in *. clear -Hsep Hch. revert keys Hsep.
    induction Hch as [|c p children parts Hp _ IH]; intros keys Hsep; inversion Hsep as [|key q keys' parts' Hkey Hsep']; subst; simpl; [done|].
    f_equal. by apply IH.
Qed.

(** What is known of a node once its children are listed. *)
Lemma listed_kids r tree n id keys children parts :
  reader_wf r -> 0 < id -> read_node r tree id = Ok (Internal (Z.of_nat (S n)) keys children) ->
  holding r tree n children parts -> separators keys (tail parts) ->
  exists kids, child_list r tree (Z.of_nat (S n)) keys children = Ok kids /\ kids_hold r tree n kids parts /\
    (2 <= length kids)%nat /\ sum_Z (tail (map kid_size kids)) <= PAYLOAD_SIZE.
Proof.
  intros Hwf Hid Hr Hch Hsep. destruct (internal_inv _ _ _ _ _ _ Hwf Hid Hr) as (Hne & _ & Hlen & _ & Hlevel & Hsize & _).
  destruct (child_list_spec r tree n keys children parts) as (kids & Hk & Hkids & Hkeys); [done..| |lia|].
  { by destruct children. }
  exists kids. repeat (split; [done|]). split.
  - apply Forall2_length in Hkids, Hch. destruct keys; [done|]. simpl in Hlen. lia.
  - rewrite tail_map, map_kid_size, Hkeys. unfold PAYLOAD_SIZE. lia.
Qed.

Lemma node_kids r tree n id m :
  reader_wf r -> subtree r tree (S n) id m ->
  exists keys children parts kids,
    read_node r tree id = Ok (Internal (Z.of_nat (S n)) keys children) /\ m = concat parts /\
    child_list r tree (Z.of_nat (S n)) keys children = Ok kids /\ kids_hold r tree n kids parts /\
    (2 <= length kids)%nat /\ sum_Z (tail (map kid_size kids)) <= PAYLOAD_SIZE.
Proof.
  intros Hwf (Hid & keys & children & parts & Hr & Hch & Hsep & ->).
  destruct (listed_kids _ _ _ _ _ _ _ Hwf Hid Hr Hch Hsep) as (kids & Hk). by exists keys, children, parts, kids.
Qed.

(** ** The edit of a subtree *)
Definition edit_holds r (tree : TreeId) (n : nat) (edit : Edit) m : Prop :=
  nodes_hold r tree n edit m \/
  (n = O /\ edit = {| edit_level := 0; edit_children := [] |} /\ m = []) \/
  (exists k c, n = S k /\ edit = {| edit_level := Z.of_nat k; edit_children := [c] |} /\ child_holds r tree k c m).

(** The entries after an edit of one key. *)
Definition edited (key : bytes) (value : option bytes) m : list Entry :=
  match value with Some value => bt_insert key value m | None => bt_remove key m end.

Lemma edited_sorted key value m : bt_sorted m -> bt_sorted (edited key value m).
Proof. destruct value; [apply bt_sorted_insert|apply bt_sorted_remove]. Qed.
Lemma edited_around key value low m high :
  keys_before key low -> keys_after key high -> edited key value (low ++ m ++ high) = low ++ edited key value m ++ high.
Proof. destruct value; [apply bt_insert_around|apply bt_remove_around]. Qed.

Definition updated r (tree : TreeId) (n : nat) (key : bytes) (value : option bytes) m (result : option Edit) : Prop :=
  match result with
  | None => edited key value m = m
  | Some edit => edit_holds r tree n edit (edited key value m)
  end.

(** *** In a leaf *)
Lemma sum_leaf_parts (a b : list LeafCell) :
  sum_Z (map leaf_size a) + sum_Z (map leaf_size b) = sum_Z (map leaf_size (a ++ b)).
Proof. by rewrite map_app, sum_Z_app. Qed.

Lemma leaf_size_nonneg c : 0 <= leaf_size c.
Proof.
  unfold leaf_size. pose proof (len_nonneg (cell_key c)). destruct (cell_value c) as [data|]; [pose proof (len_nonneg data)|]; lia.
Qed.
Lemma leaf_sum_nonneg cells : 0 <= sum_Z (map leaf_size cells).
Proof. apply sum_Z_nonneg, Forall_map, Forall_true. apply leaf_size_nonneg. Qed.

(** Writing the cells around one that is replaced, inserted or left out. *)
Lemma runs_leaf_edit tree low mid high ml mm mh f (Q : PageFile -> option Edit -> Prop) :
  file_wf f -> stored (reader f) tree low ml -> stored (reader f) tree mid mm -> stored (reader f) tree high mh ->
  bt_sorted (ml ++ mm ++ mh) -> Forall (cell_ok (page_count f)) (low ++ high) -> Forall (cell_ok (page_count f)) mid ->
  (length mid <= 1)%nat -> sum_Z (map leaf_size (low ++ high)) <= PAYLOAD_SIZE ->
  (forall f' edit, file_wf f' -> file_le f f' -> edit_holds (reader f') tree 0 edit (ml ++ mm ++ mh) -> Q f' (Some edit)) ->
  runs (do* edit := write_leaves tree (low ++ mid ++ high) in okM (Some edit)) f Q.
Proof.
  intros Hwf Hl Hm Hh Hs Hok Hmid Hlen Hsum HQ. apply runs_bind; [done|].
  destruct (decide (low ++ mid ++ high = [])) as [E|E].
  - apply app_nil in E as [-> [-> ->]%app_nil]. inversion Hl; inversion Hm; inversion Hh; subst.
    unfold write_leaves. cbn [app]. rewrite bool_decide_true by done. apply runs_ok; [done|]. intros _ _. apply runs_ok; [done|].
    apply HQ; [done|apply file_le_refl|]. right; left. done.
  - apply (runs_write_leaves tree _ (ml ++ mm ++ mh)); [done|done| |done| | |].
    + apply Forall2_app; [done|]. by apply Forall2_app.
    + apply Forall_app in Hok as [Hok1 Hok2]. by rewrite !Forall_app.
    + rewrite map_app, sum_Z_app in Hsum. rewrite !map_app, !sum_Z_app.
      assert (sum_Z (map leaf_size mid) <= LEAF_MOST); [|lia].
      pose proof (leaf_sizes _ _ Hmid) as Hsz. destruct mid as [|c [|]]; simpl in *; [unfold LEAF_MOST; lia| |lia].
      apply Forall_cons_1 in Hsz as [Hc _]. lia.
    + intros f1 edit Hwf1 Hle1 He _ _. apply runs_ok; [done|]. apply HQ; [done..|]. by left.
Qed.

Definition value_ok (value : option bytes) : Prop :=
  match value with Some value => len value <= MAX_VALUE | None => True end.

(** Storing the new cell in the place of those between [low] and [high]. *)
Lemma runs_leaf_store tree key value (place : LeafCell -> list LeafCell) low high ml mh f (Q : PageFile -> option Edit -> Prop) :
  (forall c, place c = low ++ [c] ++ high) -> file_wf f -> len key <= MAX_KEY -> len value <= MAX_VALUE ->
  stored (reader f) tree low ml -> stored (reader f) tree high mh ->
  bt_sorted (ml ++ [(key, value)] ++ mh) -> Forall (cell_ok (page_count f)) (low ++ high) ->
  sum_Z (map leaf_size (low ++ high)) <= PAYLOAD_SIZE ->
  (forall f' edit, file_wf f' -> file_le f f' -> edit_holds (reader f') tree 0 edit (ml ++ [(key, value)] ++ mh) -> Q f' (Some edit)) ->
  runs (do* stored := store_value tree value in
        do* edit := write_leaves tree (place {| cell_key := key; cell_value := stored |}) in okM (Some edit)) f Q.
Proof.
  intros Hplace Hwf Hk Hv Hl Hh Hs Hok Hsum HQ. pose proof Hwf as [Hr _]. apply runs_bind; [done|].
  apply runs_store_value; [done..|]. intros f1 v Hwf1 Hle1 Hread Hcell _ _. pose proof (file_count _ _ Hle1) as Hcount.
  apply Forall_app in Hok as [Hok1 Hok2].
  assert (forall cells m, Forall (cell_ok (page_count f)) cells -> stored (reader f) tree cells m -> stored (reader f1) tree cells m) as Hkeep.
  { intros cells m Hc. apply stored_le; [done|apply Hle1|]. eapply Forall_impl; [exact Hc|]. by intros c [_ ?]. }
  assert (forall cells, Forall (cell_ok (page_count f)) cells -> Forall (cell_ok (page_count f1)) cells) as Hmono.
  { intros cells Hc. eapply Forall_impl; [exact Hc|]. intros c Hc1. by eapply cell_ok_mono. }
  rewrite Hplace. apply (runs_leaf_edit tree _ _ _ ml [(key, value)] mh); [done|by apply Hkeep| |by apply Hkeep|done| | |simpl; lia|done|].
  - constructor; [done|constructor].
  - apply Forall_app. split; by apply Hmono.
  - constructor; [done|constructor].
  - intros f2 edit Hwf2 Hle2 He. apply HQ; [done|by apply (file_le_trans f f1)|done].
Qed.

Lemma runs_update_leaf tree cells m key value f (Q : PageFile -> option Edit -> Prop) :
  file_wf f -> len key <= MAX_KEY -> value_ok value -> stored (reader f) tree cells m -> bt_sorted m ->
  Forall (cell_ok (page_count f)) cells -> sum_Z (map leaf_size cells) <= PAYLOAD_SIZE ->
  (forall f' result, file_wf f' -> file_le f f' -> updated (reader f') tree 0 key value m result -> Q f' result) ->
  runs (update_leaf tree cells key value) f Q.
Proof.
  intros Hwf Hk Hv Hst Hs Hok Hsum HQ. pose proof Hwf as [Hr _]. unfold update_leaf.
  pose proof (search_split _ _ _ _ key Hst Hs) as Hsp. pose proof (edited_sorted key value m Hs) as Hs'.
  assert (forall i j, (i <= j)%nat -> Forall (cell_ok (page_count f)) (take i cells ++ drop j cells) /\
    sum_Z (map leaf_size (take i cells ++ drop j cells)) <= PAYLOAD_SIZE) as Hcut.
  { intros i j Hij. split; [apply Forall_app; split; [by apply Forall_take|by apply Forall_drop]|].
    rewrite <-sum_leaf_parts. rewrite <-(take_drop i cells), <-sum_leaf_parts in Hsum.
    replace j with (i + (j - i))%nat by lia. rewrite <-drop_drop. set (rest := drop i cells) in *.
    rewrite <-(take_drop (j - i) rest), <-sum_leaf_parts in Hsum. pose proof (leaf_sum_nonneg (take (j - i) rest)). lia. }
  destruct (search key cells) as [i|i].
  - destruct Hsp as (c & old & Hc & _ & _ & Hm & Hb & Ha). destruct (Hcut i (S i) ltac:(lia)) as [Hok' Hsum'].
    destruct value as [value|].
    + assert (edited key (Some value) m = take i m ++ [(key, value)] ++ drop (S i) m) as He.
      { rewrite Hm at 1. rewrite edited_around by done. simpl. by rewrite cmp_refl. }
      apply lookup_lt_Some in Hc. apply (runs_leaf_store tree key value (fun c => <[i := c]> cells) (take i cells) (drop (S i) cells) (take i m) (drop (S i) m));
        [intros x; by apply insert_take_drop|done|done|done|by apply Forall2_take|by apply Forall2_drop|by rewrite <-He|done|done|].
      intros f1 edit Hwf1 Hle1 Hedit. apply HQ; [done..|]. unfold updated. by rewrite He.
    + assert (edited key None m = take i m ++ [] ++ drop (S i) m) as He.
      { rewrite Hm at 1. rewrite edited_around by done. simpl. by rewrite cmp_refl. }
      rewrite delete_take_drop. change (take i cells ++ drop (S i) cells) with (take i cells ++ [] ++ drop (S i) cells).
      apply (runs_leaf_edit tree _ _ _ (take i m) [] (drop (S i) m));
        [done|by apply Forall2_take|constructor|by apply Forall2_drop|by rewrite <-He|done|constructor|simpl; lia|done|].
      intros f1 edit Hwf1 Hle1 Hedit. apply HQ; [done..|]. unfold updated. by rewrite He.
  - destruct Hsp as (Hm & Hb & Ha). destruct (Hcut i i ltac:(lia)) as [Hok' Hsum']. destruct value as [value|].
    + assert (edited key (Some value) m = take i m ++ [(key, value)] ++ drop i m) as He.
      { rewrite Hm at 1. by rewrite edited_around. }
      apply (runs_leaf_store tree key value (fun c => take i cells ++ c :: drop i cells) (take i cells) (drop i cells) (take i m) (drop i m));
        [done|done|done|done|by apply Forall2_take|by apply Forall2_drop|by rewrite <-He|done|done|].
      intros f1 edit Hwf1 Hle1 Hedit. apply HQ; [done..|]. unfold updated. by rewrite He.
    + apply runs_ok; [done|]. apply HQ; [done|apply file_le_refl|]. simpl. rewrite Hm at 1. rewrite bt_remove_around by done. done.
Qed.

(** *** In an internal node *)

(** The children of a node after an edit of one of them, ready to be written. *)
Record ready r (tree : TreeId) (n : nat) (kids : list Child) m : Prop := {
  ready_kids : exists parts, kids_hold r tree n kids parts /\ m = concat parts;
  ready_some : (1 <= length kids)%nat;
  ready_size : sum_Z (tail (map kid_size kids)) <= PAYLOAD_SIZE + 2 * KEY_MOST }.

Lemma runs_write_kids tree n kids m f (Q : PageFile -> option Edit -> Prop) :
  file_wf f -> ready (reader f) tree n kids m -> bt_sorted m -> (S n <= 255)%nat ->
  (forall f' edit, file_wf f' -> file_le f f' -> edit_holds (reader f') tree (S n) edit m -> Q f' (Some edit)) ->
  runs (if Nat.eqb (length kids) 1 then okM (Some {| edit_level := Z.of_nat n; edit_children := kids |})
        else do* edit := write_internal tree (Z.of_nat (S n)) kids in okM (Some edit)) f Q.
Proof.
  intros Hwf [(parts & Hk & ->) Hlen Hsize] Hs Hn HQ. destruct (Nat.eqb_spec (length kids) 1) as [Hone|Hmore].
  - apply runs_ok; [done|]. apply HQ; [done|apply file_le_refl|]. right; right.
    destruct kids as [|c [|]]; simpl in Hone; try lia. exists n, c. split; [done|]. split; [done|].
    inversion Hk as [|? p ? parts' Hc Hnil]; subst. inversion Hnil; subst. simpl. by rewrite app_nil_r.
  - apply runs_bind; [done|]. apply (runs_write_internal tree n kids parts); [done|done|done|lia|done|done|].
    intros f1 edit Hwf1 Hle1 He _ _. apply runs_ok; [done|]. apply HQ; [done..|]. by left.
Qed.

Lemma kid_sizes_map kids new a b :
  map kid_size (take a kids ++ new ++ drop b kids) = take a (map kid_size kids) ++ map kid_size new ++ drop b (map kid_size kids).
Proof. by rewrite !map_app, firstn_map, skipn_map. Qed.

(** Replacing the children from [a] to [b] by at most two. *)
Lemma splice_ready r tree n kids parts new news a b :
  reader_wf r -> kids_hold r tree n kids parts -> kids_hold r tree n new news ->
  sum_Z (tail (map kid_size kids)) <= PAYLOAD_SIZE -> (a < b)%nat -> (length new <= 2)%nat ->
  (b < length kids \/ 0 < a < length kids \/ 1 <= length new)%nat ->
  ready r tree n (take a kids ++ new ++ drop b kids) (concat (take a parts) ++ concat news ++ concat (drop b parts)).
Proof.
  intros Hwf Hk Hn Hsize Hab Hl Hsome. split.
  - exists (take a parts ++ news ++ drop b parts). split; [|by rewrite !concat_app].
    apply Forall2_app; [by apply Forall2_take|]. apply Forall2_app; [done|by apply Forall2_drop].
  - rewrite !length_app, length_take, length_drop. lia.
  - rewrite kid_sizes_map. pose proof (splice_sizes (map kid_size kids) (map kid_size new) a b) as Hsp.
    rewrite length_map in Hsp. specialize (Hsp (kids_sizes _ _ _ _ _ Hwf Hk) (kids_sizes _ _ _ _ _ Hwf Hn) Hl Hab). lia.
Qed.

(** The combined children of an underflowing node and its sibling. *)
Lemma combined_size r tree n kids parts c m :
  reader_wf r -> kids_hold r tree n kids parts -> child_holds r tree n c m -> sum_Z (tail (map kid_size kids)) <= PAYLOAD_SIZE ->
  sum_Z (tail (map kid_size (kids ++ [c]))) <= PAYLOAD_SIZE + 2 * KEY_MOST /\
  sum_Z (tail (map kid_size ([c] ++ kids))) <= PAYLOAD_SIZE + 2 * KEY_MOST.
Proof.
  intros Hwf Hk Hc Hsize. pose proof (kids_sizes _ _ _ _ _ Hwf Hk) as Hs.
  assert (kids_hold r tree n [c] [m]) as Hc1 by (constructor; [done|constructor]).
  pose proof (kids_sizes _ _ _ _ _ Hwf Hc1) as Hs1. apply Forall_cons_1 in Hs1 as [Hz _].
  rewrite !map_app. simpl. destruct (map kid_size kids) as [|z l]; simpl in *; unfold KEY_MOST in *; [lia|].
  apply Forall_cons_1 in Hs as [Hz2 _]. rewrite sum_Z_app. simpl. lia.
Qed.

(** Writing the combined children in place of the two nodes. *)
Lemma runs_combined tree k kids parts combined cparts a f (Q : PageFile -> list Child -> Prop) :
  file_wf f -> kids_hold (reader f) tree (S k) kids parts -> (S k <= 255)%nat -> sum_Z (tail (map kid_size kids)) <= PAYLOAD_SIZE ->
  kids_hold (reader f) tree k combined cparts -> (2 <= length combined)%nat -> bt_sorted (concat cparts) ->
  sum_Z (tail (map kid_size combined)) <= PAYLOAD_SIZE + 2 * KEY_MOST ->
  (forall f' kids', file_wf f' -> file_le f f' ->
     ready (reader f') tree (S k) kids' (concat (take a parts) ++ concat cparts ++ concat (drop (S (S a)) parts)) -> Q f' kids') ->
  runs (do* repaired := write_internal tree (Z.of_nat (S k)) combined in
        okM (splice a (S a) (edit_children repaired) kids)) f Q.
Proof.
  intros Hwf Hk Hn Hsize Hc Hlen Hs Hcs HQ. pose proof Hwf as [Hr _]. apply runs_bind; [done|].
  apply (runs_write_internal tree k combined cparts); [done..|]. intros f1 edit Hwf1 Hle1 (_ & Hl & news & Hnews & Heq) _ _.
  apply runs_ok; [done|]. apply HQ; [done..|]. rewrite Heq. unfold splice.
  apply splice_ready; [apply Hwf1| |done|done|lia|lia|lia]. eapply kids_hold_le; [apply Hr|apply Hwf1|apply Hle1|done].
Qed.

Lemma runs_repair tree k kids parts index c p' f (Q : PageFile -> list Child -> Prop) :
  file_wf f -> kids_hold (reader f) tree (S k) kids parts -> (index < length kids)%nat -> (2 <= length kids)%nat -> (S (S k) <= 255)%nat ->
  sum_Z (tail (map kid_size kids)) <= PAYLOAD_SIZE -> child_holds (reader f) tree k c p' ->
  bt_sorted (concat (take index parts) ++ p' ++ concat (drop (S index) parts)) ->
  (forall f' kids', file_wf f' -> file_le f f' ->
     ready (reader f') tree (S k) kids' (concat (take index parts) ++ p' ++ concat (drop (S index) parts)) -> Q f' kids') ->
  runs (repair tree (Z.of_nat (S (S k))) kids index [c]) f Q.
Proof.
  intros Hwf Hk Hi Hlen Hn Hsize Hc Hs HQ. pose proof Hwf as [Hr _]. unfold repair.
  set (sibling := match index with O => 1%nat | S index => index end).
  destruct (lookup_lt_is_Some_2 kids sibling) as [s Hsib]; [unfold sibling; destruct index; lia|].
  destruct (Forall2_lookup_l _ _ _ _ _ Hk Hsib) as (q & Hq & Hsq & _).
  destruct (node_kids (reader f) tree k (child_id s) q Hr Hsq) as (skeys & sids & sparts & skids & Hread & -> & Hlist & Hskids & Hslen & Hssize).
  apply runs_bind; [done|]. apply runs_ok; [done|]. intros _ _. rewrite Hsib.
  apply runs_bind; [done|]. eapply runs_lift; [done|done|]. intros _ _.
  apply runs_bind; [done|]. eapply runs_lift; [apply level_below; lia|done|]. intros _ _.
  apply runs_bind; [done|]. eapply runs_lift; [apply (load_internal _ _ _ _ _ _ _ Hread); by right|done|]. intros _ _.
  apply runs_bind; [done|]. eapply runs_lift; [exact Hlist|done|]. intros _ _.
  destruct (combined_size _ _ _ _ _ _ _ Hr Hskids Hc Hssize) as [Hsz1 Hsz2].
  assert (kids_hold (reader f) tree k [c] [p']) as Hc1 by (constructor; [done|constructor]).
  destruct index as [|j]; cbn [sibling] in *; subst sibling.
  - cbn [Nat.ltb Nat.leb Nat.min Nat.max]. rewrite (drop_S _ _ _ Hq) in Hs, HQ. simpl concat in Hs, HQ. cbn [app] in Hs.
    rewrite app_assoc in Hs. apply bt_sorted_cut in Hs as [Hs _].
    apply (runs_combined tree k kids parts _ ([p'] ++ sparts) 0); [done|done|lia|done|by apply Forall2_app|simpl; lia|done|done|].
    intros f1 kids' Hwf1 Hle1 Hready. apply HQ; [done..|]. simpl in Hready. by rewrite <-app_assoc in Hready.
  - rewrite (proj2 (Nat.ltb_lt j (S j))), Nat.min_r, Nat.max_l by lia.
    rewrite (take_S_r _ _ _ Hq), concat_app in Hs, HQ. simpl concat in Hs, HQ. rewrite app_nil_r, <-app_assoc in Hs, HQ.
    apply bt_sorted_cut in Hs as (_ & Hs & _). rewrite app_assoc in Hs. apply bt_sorted_cut in Hs as [Hs _].
    apply (runs_combined tree k kids parts _ (sparts ++ [p']) j); [done|done|lia|done|by apply Forall2_app|rewrite length_app; simpl; lia| |done|].
    { rewrite concat_app. simpl. by rewrite app_nil_r. }
    intros f1 kids' Hwf1 Hle1 Hready. apply HQ; [done..|]. rewrite concat_app in Hready. simpl in Hready.
    rewrite app_nil_r, <-app_assoc in Hready. exact Hready.
Qed.

(** The reader captured before the edit, in the file after it. *)
Lemma pinned_wf f f' : file_wf f -> file_le f f' -> reader_wf (pinned (reader f) f').
Proof.
  intros [[Hc Hl] _] [[_ Hk] _ _]. pose proof (keeps_len _ _ _ Hk Hl). cbn in *. split; cbn; lia.
Qed.
Lemma pinned_above f f' : file_le f f' -> reader_le (reader f) (pinned (reader f) f').
Proof. intros [[_ Hk] _ _]. split; cbn; [lia|done]. Qed.
Lemma pinned_below f f' : file_le f f' -> reader_le (pinned (reader f) f') (reader f').
Proof. intros [[Hc _] _ _]. split; cbn; [done|]. apply keeps_refl. Qed.

Lemma holding_le r r' tree n children parts :
  reader_wf r -> reader_wf r' -> reader_le r r' -> holding r tree n children parts -> holding r' tree n children parts.
Proof. intros ? ? ? Hh. eapply Forall2_impl; [exact Hh|]. intros c m. by apply subtree_le. Qed.

Lemma runs_update_children tree n id keys children parts index f0 edit p' f (Q : PageFile -> option Edit -> Prop) :
  file_wf f0 -> file_wf f -> file_le f0 f -> 0 < id ->
  read_node (reader f0) tree id = Ok (Internal (Z.of_nat (S n)) keys children) ->
  holding (reader f0) tree n children parts -> separators keys (tail parts) -> (index < length children)%nat ->
  edit_holds (reader f) tree n edit p' -> bt_sorted (concat (take index parts) ++ p' ++ concat (drop (S index) parts)) ->
  (forall f' edit, file_wf f' -> file_le f f' ->
     edit_holds (reader f') tree (S n) edit (concat (take index parts) ++ p' ++ concat (drop (S index) parts)) -> Q f' (Some edit)) ->
  runs (update_children tree (Z.of_nat (S n)) keys children index (reader f0) edit) f Q.
Proof.
  intros Hwf0 Hwf Hle Hid Hread Hch Hsep Hi Hedit Hs HQ. unfold update_children.
  pose proof (pinned_wf _ _ Hwf0 Hle) as Hpw. pose proof (pinned_above _ _ Hle) as Hpa. pose proof (pinned_below _ _ Hle) as Hpb.
  pose proof Hwf0 as [Hr0 _]. pose proof Hwf as [Hr _].
  destruct (internal_inv _ _ _ _ _ _ Hr0 Hid Hread) as (_ & _ & _ & _ & Hlevel & _).
  apply (read_node_le _ _ _ _ _ Hr0 Hpw Hpa) in Hread; [|lia]. apply (holding_le _ _ _ _ _ _ Hr0 Hpw Hpa) in Hch.
  destruct (listed_kids _ _ _ _ _ _ _ Hpw Hid Hread Hch Hsep) as (kids & Hlist & Hkids & Hklen & Hksize).
  apply Forall2_length in Hch as Hl1. apply Forall2_length in Hkids as Hl2.
  apply (kids_hold_le _ _ _ _ _ _ Hpw Hr Hpb) in Hkids. set (m' := concat (take index parts) ++ _) in *.
  apply runs_bind; [done|]. apply runs_ok; [done|]. intros _ _.
  apply runs_bind; [done|]. eapply runs_lift; [exact Hlist|done|]. intros _ _.
  apply runs_bind; [done|]. eapply runs_lift; [apply level_below; lia|done|]. intros _ _.
  assert (forall news, kids_hold (reader f) tree n (edit_children edit) news -> p' = concat news ->
    (length (edit_children edit) <= 2)%nat -> ready (reader f) tree n (splice index index (edit_children edit) kids) m') as Hsplice.
  { intros news Hnews Hp' Hl. unfold splice, m'. rewrite Hp'. apply splice_ready; (done || lia). }
  apply runs_bind; [done|]. destruct Hedit as [(Hel & Hec & news & Hnews & Hp')|[(-> & -> & ->)|(k & c & -> & -> & Hc)]].
  - rewrite Hel, Z.eqb_refl, andb_false_r. apply runs_ok; [done|]. intros _ _.
    apply runs_write_kids with (m := m'); [done|apply (Hsplice news); (done || lia)|done|lia|done].
  - cbn [edit_children]. rewrite bool_decide_true by done. apply runs_ok; [done|]. intros _ _.
    apply runs_write_kids with (m := m'); [done|apply (Hsplice []); [constructor|done|simpl; lia]|done|lia|done].
  - cbn [edit_children edit_level length]. rewrite bool_decide_false by done. cbn [negb andb Nat.eqb].
    rewrite (proj2 (Z.eqb_neq (Z.of_nat k) _)), (proj2 (Z.ltb_ge _ 2)), (proj2 (Z.eqb_eq _ _)) by lia. cbn [negb orb].
    apply (runs_repair tree k kids parts index c p'); [done|done|lia|done|lia|done|done|done|].
    intros f1 kids' Hwf1 Hle1 Hready _ _. apply runs_write_kids with (m := m'); [done|done|done|lia|].
    intros f2 edit Hwf2 Hle2 He. apply HQ; [done|by apply (file_le_trans f f1)|done].
Qed.

Lemma leaf_cells_ok r tree id cells :
  reader_wf r -> 0 < id -> read_node r tree id = Ok (Leaf cells) ->
  Forall (cell_ok (reader_count r)) cells /\ sum_Z (map leaf_size cells) <= PAYLOAD_SIZE.
Proof.
  intros Hwf Hid Hr. destruct (leaf_inv _ _ _ _ Hwf Hid Hr) as (_ & Hk & Hc & Hsize & _). split.
  - by apply Forall_conj.
  - unfold PAYLOAD_SIZE. lia.
Qed.

Lemma runs_update tree key value n : forall fuel id expected m f (Q : PageFile -> option Edit -> Prop),
  file_wf f -> len key <= MAX_KEY -> value_ok value -> subtree (reader f) tree n id m -> bt_sorted m -> expects expected n ->
  (n < fuel)%nat ->
  (forall f' result, file_wf f' -> file_le f f' -> updated (reader f') tree n key value m result -> Q f' result) ->
  runs (update fuel tree id key value expected) f Q.
Proof.
  induction n as [|n IH]; intros fuel id expected m f Q Hwf Hk Hv Hsub Hs He Hf HQ; (destruct fuel as [|fuel]; [lia|]);
    cbn [update]; pose proof Hwf as [Hr _]; pose proof (subtree_level _ _ _ _ _ Hr Hsub) as Hl255;
    (apply runs_bind; [done|]; apply runs_ok; [done|]; intros _ _; apply runs_bind; [done|]).
  - destruct Hsub as (Hid & cells & Hread & Hst). eapply runs_lift; [by apply load_leaf|done|]. intros _ _.
    destruct (leaf_cells_ok _ _ _ _ Hr Hid Hread) as [Hok Hsum]. by apply (runs_update_leaf tree cells m).
  - destruct Hsub as (Hid & keys & children & parts & Hread & Hch & Hsep & ->).
    eapply runs_lift; [by apply load_internal|done|]. intros _ _.
    destruct (internal_inv _ _ _ _ _ _ Hr Hid Hread) as (_ & _ & Hlen & _).
    destruct (route_split _ tree n keys children parts key Hr Hch Hsep Hs Hlen) as (cl & c & cr & pl & p & pr & R & Hi).
    pose proof R as [Hec Hep Hpl Hp Hpr Hbefore Hafter Hps]. rewrite <-Hi.
    assert (length pl = length cl) as Hlp by (symmetry; by eapply Forall2_length).
    assert (take (length cl) parts = pl) as Htake by (by rewrite Hep, <-Hlp, take_app_length).
    assert (drop (S (length cl)) parts = pr) as Hdrop.
    { rewrite Hep, <-Hlp, drop_app_ge by lia. by replace (S (length pl) - length pl)%nat with 1%nat by lia. }
    assert (edited key value (concat parts) = concat pl ++ edited key value p ++ concat pr) as Hed.
    { rewrite Hep, concat_middle. by apply edited_around. }
    pose proof (edited_sorted key value _ Hs) as Hs'. rewrite Hed in Hs'.
    apply runs_bind; [done|]. eapply runs_lift; [by rewrite Hec, list_lookup_middle|done|]. intros _ _.
    apply runs_bind; [done|]. eapply runs_lift; [apply level_below; lia|done|]. intros _ _. apply runs_bind; [done|].
    apply (IH _ _ _ p); [done|done|done|done|done|by right|lia|]. intros f1 [edit|] Hwf1 Hle1 Hup _ _.
    + apply (runs_update_children tree n id keys children parts (length cl) f (edit) (edited key value p));
        [done|done|done|done|done|done|done| |done|by rewrite Htake, Hdrop|].
      { rewrite Hec, length_app. simpl. lia. }
      rewrite Htake, Hdrop. intros f2 edit' Hwf2 Hle2 He2. apply HQ; [done|by apply (file_le_trans f f1)|]. simpl. by rewrite Hed.
    + apply runs_ok; [done|]. apply HQ; [done..|]. simpl. rewrite Hed. simpl in Hup. by rewrite Hup, <-concat_middle, <-Hep.
Qed.

(** ** The new root *)
Lemma subtree_holds r tree n id m : subtree r tree n id m -> bt_sorted m -> tree_holds r tree id m.
Proof.
  intros Hs Hm. unfold tree_holds. pose proof (subtree_pos _ _ _ _ _ Hs). rewrite (proj2 (Z.eqb_neq id 0)) by lia.
  split; [done|]. by exists n.
Qed.

(** Raising the tree over two nodes. *)
Lemma runs_new_root tree n kids m f (Q : PageFile -> Z -> Prop) :
  file_wf f -> length kids = 2%nat -> (exists parts, kids_hold (reader f) tree n kids parts /\ m = concat parts) -> bt_sorted m ->
  (n <= 255)%nat ->
  (forall f' root, file_wf f' -> file_le f f' -> tree_holds (reader f') tree root m -> Q f' root) ->
  runs (if Z.of_nat n + 1 >? 255 then errM Exhausted else append_node tree (internal_node (Z.of_nat n + 1) kids)) f Q.
Proof.
  intros Hwf Hlen (parts & Hk & ->) Hs Hn HQ. pose proof Hwf as [Hr _].
  destruct (Z.gtb_spec (Z.of_nat n + 1) 255) as [Hx|Hx]; [apply runs_err; [done|by right; right]|].
  replace (Z.of_nat n + 1) with (Z.of_nat (S n)) by lia.
  assert (node_wf (page_count f) (internal_node (Z.of_nat (S n)) kids)) as Hnode.
  { apply (internal_wf (reader f) tree n kids parts); [done|done|done|lia|lia|].
    pose proof (kids_sizes _ _ _ _ _ Hr Hk) as Hz. destruct kids as [|c1 [|c2 [|]]]; simpl in Hlen; try lia.
    apply Forall_cons_1 in Hz as [_ [Hz _]%Forall_cons_1]. unfold half_size, sum_Z. cbn [map tail foldr]. unfold KEY_MOST, HEADER_SIZE, PAGE_SIZE in *. lia. }
  apply runs_append_node; [done|done|]. intros f1 id Hwf1 Hle1 Hid Hread. apply HQ; [done..|].
  pose proof Hwf as [[[Hcount _] _] _]. cbn in Hcount. apply (subtree_holds _ _ (S n)); [|done].
  split; [simpl; lia|]. exists (map child_min (tail kids)), (map child_id kids), parts. split; [done|].
  assert (kids_hold (reader f1) tree n kids parts) as Hk1 by (eapply kids_hold_le; [apply Hr|apply Hwf1|apply Hle1|done]).
  split; [by apply kids_holding|]. split; [|done]. by eapply kids_separators.
Qed.

Lemma runs_finish tree root key value m f (Q : PageFile -> Z -> Prop) :
  file_wf f -> len key <= MAX_KEY -> value_ok value -> root <> 0 -> tree_holds (reader f) tree root m ->
  (forall f' root', file_wf f' -> file_le f f' -> tree_holds (reader f') tree root' (edited key value m) -> Q f' root') ->
  runs (finish tree root key value) f Q.
Proof.
  intros Hwf Hk Hv Hroot Hh HQ. pose proof Hwf as [Hr _]. pose proof Hh as Hh0. unfold tree_holds in Hh.
  rewrite (proj2 (Z.eqb_neq root 0)) in Hh by done. destruct Hh as (Hs & n & Hsub).
  pose proof (subtree_level _ _ _ _ _ Hr Hsub) as Hl. pose proof (edited_sorted key value m Hs) as Hs'.
  unfold finish. apply runs_bind; [done|].
  apply (runs_update tree key value n _ _ _ m); [done|done|done|done|done|by left|unfold TREE_FUEL; lia|].
  intros f1 [edit|] Hwf1 Hle1 Hup _ _.
  - destruct Hup as [(Hel & Hec & parts & Hkids & Hm)|[(-> & -> & Hm)|(k & c & -> & -> & [Hc _])]].
    + destruct edit as [level kids]. cbn [edit_level edit_children] in *. subst level.
      destruct kids as [|c1 [|c2 kids]]; [simpl in Hec; lia| |].
      * apply runs_ok; [done|]. apply HQ; [done..|]. inversion Hkids as [|? p ? ps [Hc _] Hnil]; subst. inversion Hnil; subst.
        rewrite Hm. simpl. rewrite app_nil_r. apply (subtree_holds _ _ n); [done|]. rewrite Hm in Hs'. simpl in Hs'. by rewrite app_nil_r in Hs'.
      * apply (runs_new_root tree n (c1 :: c2 :: kids) (edited key value m)); [done|simpl in *; lia|by exists parts|done|done|].
        intros f2 root' Hwf2 Hle2 Hh2. apply HQ; [done|by apply (file_le_trans f f1)|done].
    + apply runs_ok; [done|]. apply HQ; [done..|]. unfold tree_holds. by rewrite Z.eqb_refl.
    + apply runs_ok; [done|]. apply HQ; [done..|]. by apply (subtree_holds _ _ k).
  - apply runs_ok; [done|]. apply HQ; [done..|]. simpl in Hup. rewrite Hup.
    eapply tree_holds_le; [apply Hr|apply Hwf1|apply Hle1|done].
Qed.

Lemma runs_put tree root key value m f (Q : PageFile -> Z -> Prop) :
  file_wf f -> len key <= MAX_KEY -> len value <= MAX_VALUE -> tree_holds (reader f) tree root m ->
  (forall f' root', file_wf f' -> file_le f f' -> tree_holds (reader f') tree root' (bt_insert key value m) -> Q f' root') ->
  runs (put tree root key value) f Q.
Proof.
  intros Hwf Hk Hv Hh HQ. unfold put. rewrite check_key_ok by done. apply runs_bind; [done|]. apply runs_ok; [done|].
  intros _ _. rewrite gtb_false by done. destruct (Z.eqb_spec root 0) as [->|Hroot].
  - unfold tree_holds in Hh. rewrite Z.eqb_refl in Hh. subst m. apply runs_bind; [done|].
    apply runs_store_value; [done..|]. intros f1 v Hwf1 Hle1 Hread Hcell _ _.
    set (cell := {| cell_key := key; cell_value := v |}).
    assert (stored (reader f1) tree [cell] [(key, value)]) as Hst by (constructor; [done|constructor]).
    assert (bt_sorted [(key, value)]) as Hs by (repeat constructor).
    assert (Forall (cell_ok (page_count f1)) [cell]) as Hok by (constructor; [done|constructor]).
    assert (node_wf (page_count f1) (Leaf [cell])) as Hnode.
    { eapply leaf_wf; [done|exact Hst|done|done|]. apply leaf_sizes in Hok. apply Forall_cons_1 in Hok as [Hz _]. simpl.
      unfold LEAF_MOST, HEADER_SIZE, PAGE_SIZE in *. lia. }
    apply runs_append_node; [done|done|]. intros f2 id Hwf2 Hle2 Hid Hnode2. apply HQ; [done|by apply (file_le_trans f f1)|].
    apply (subtree_holds _ _ 0); [|done]. pose proof Hwf1 as [[[Hcount _] _] _]. cbn in Hcount. split; [lia|]. exists [cell].
    split; [done|]. eapply (stored_le (reader f1)); [apply Hwf1|apply Hle2| |done]. by constructor.
  - by apply (runs_finish tree root key (Some value) m).
Qed.

Lemma runs_delete tree root key m f (Q : PageFile -> Z -> Prop) :
  file_wf f -> len key <= MAX_KEY -> tree_holds (reader f) tree root m ->
  (forall f' root', file_wf f' -> file_le f f' -> tree_holds (reader f') tree root' (bt_remove key m) -> Q f' root') ->
  runs (tree_delete tree root key) f Q.
Proof.
  intros Hwf Hk Hh HQ. unfold tree_delete. rewrite check_key_ok by done. apply runs_bind; [done|]. apply runs_ok; [done|].
  intros _ _. destruct (Z.eqb_spec root 0) as [->|Hroot].
  - unfold tree_holds in Hh. rewrite Z.eqb_refl in Hh. subst m. apply runs_ok; [done|]. apply HQ; [done|apply file_le_refl|].
    unfold tree_holds. by rewrite Z.eqb_refl.
  - by apply (runs_finish tree root key None m).
Qed.
End Edits.

(** * The structural validator

    A tree that [validate_tree] accepts holds a sorted list of entries: the
    reads and edits are correct on it. *)
Lemma foldR_each {E A S} (f : S -> A -> Result E S) (P : A -> Prop) :
  (forall s a s', f s a = Ok s' -> P a) -> forall l s s', foldR f s l = Ok s' -> Forall P l.
Proof.
  intros Hf. induction l as [|a l IH]; intros s s' Hr; cbn [foldR] in Hr; [constructor|].
  step_ok Hr as s1 eqn H1. constructor; [by eapply Hf|by eapply IH].
Qed.

Section Check.
Context `{Checksum}.
Implicit Types (r : PageReader) (m : list Entry).

(** ** Overflow chains *)
Lemma walk_loop_fewer r tree fuel : forall id remaining owned owned2 output owned' result,
  owned2 ⊆ owned -> walk_loop fuel r tree id remaining owned output = Ok (owned', result) ->
  exists owned2', walk_loop fuel r tree id remaining owned2 output = Ok (owned2', result).
Proof.
  induction fuel as [|fuel IH]; intros id remaining owned owned2 output owned' result Hsub Hw; cbn [walk_loop] in *;
    (destruct (remaining =? 0); [injection Hw as <- <-; by exists owned2|]); [done|].
  destruct (bool_decide_reflect (id ∈ owned)) as [|Hn]; [done|]. rewrite bool_decide_false by set_solver.
  step_ok Hw as page eqn Hp. rewrite Hp. cbn [bindR]. step_ok Hw as kind eqn Hk. rewrite Hk. cbn [bindR].
  step_ok Hw as payload eqn Hpay. rewrite Hpay. cbn [bindR]. destruct (_ || _); [done|].
  step_ok Hw as data eqn Hd. rewrite Hd. cbn [bindR]. step_ok Hw as next eqn Hnext. rewrite Hnext. cbn [bindR].
  destruct (negb _); [done|]. eapply IH; [|exact Hw]. set_solver.
Qed.

Lemma validate_value_read r tree v owned owned' :
  validate_value r tree v owned = Ok owned' -> exists data, read_value r tree v = Ok data.
Proof.
  destruct v as [data|length head]; simpl; [by exists data|]. unfold walk_overflow. destruct (negb _); [done|].
  intros Hv. step_ok Hv as p eqn Hp. destruct p as [o out]. destruct (walk_loop_fewer _ _ _ _ _ owned ∅ _ _ _ ltac:(set_solver) Hp) as [o2 ->].
  by exists out.
Qed.

Lemma cells_stored r tree cells :
  Forall (fun c => exists data, read_value r tree (cell_value c) = Ok data) cells -> exists m, stored r tree cells m.
Proof.
  induction 1 as [|c cells [data Hd] _ [m Hm]]; [by exists []; constructor|]. exists ((cell_key c, data) :: m). by constructor.
Qed.

(** ** Subtrees *)
Definition last_key m : option bytes := fst <$> last m.

Lemma last_key_app m1 m2 k : last_key m2 = Some k -> last_key (m1 ++ m2) = Some k.
Proof. unfold last_key. rewrite last_app. by destruct (last m2). Qed.

(** What a validated subtree is. *)
Definition validated r (tree : TreeId) (n : nat) (id : Z) (min max : bytes) m : Prop :=
  subtree r tree n id m /\ bt_sorted m /\ first_key m = Some min /\ last_key m = Some max.

Lemma sorted_join m1 m2 a b :
  bt_sorted m1 -> bt_sorted m2 -> last_key m1 = Some a -> first_key m2 = Some b -> cmp a b = Lt -> bt_sorted (m1 ++ m2).
Proof.
  intros H1 H2 Ha Hb Hab. apply bt_sorted_app; [done..|]. intros e1 e2 He1 He2.
  assert (e1.1 = a \/ cmp e1.1 a = Lt) as Hle1.
  { unfold last_key in Ha. destruct (last m1) as [x|] eqn:El; [|done]. injection Ha as <-.
    apply last_Some in El as [l ->]. apply elem_of_app in He1 as [He1|He1%list_elem_of_singleton]; [right|by left; subst].
    apply bt_sorted_cut in H1 as (_ & _ & Hlt). apply Hlt; [done|by apply list_elem_of_singleton]. }
  assert (e2.1 = b \/ cmp b e2.1 = Lt) as Hle2.
  { destruct m2 as [|x m2]; [done|]. injection Hb as <-. apply elem_of_cons in He2 as [->|He2]; [by left|right].
    apply StronglySorted_inv in H2 as [_ Hf]. rewrite List.Forall_forall in Hf. by apply Hf, list_elem_of_In. }
  destruct Hle1 as [->|Hle1], Hle2 as [->|Hle2]; [done|by eapply cmp_trans|by eapply cmp_trans|].
  eapply cmp_trans; [exact Hle1|]. by eapply cmp_trans.
Qed.

Lemma validate_children_spec r tree n (validate_child : gset Z -> Z -> Result StorageError (gset Z * (bytes * bytes))) :
  (forall owned id owned' min max, 0 < id -> validate_child owned id = Ok (owned', (min, max)) ->
     exists m, validated r tree n id min max m) ->
  forall keys children owned max owned' max',
    Forall (fun id => 0 < id) children -> length children = length keys ->
    validate_children validate_child keys children owned max = Ok (owned', max') ->
    exists parts, holding r tree n children parts /\ separators keys parts /\ 
      forall m, bt_sorted m -> last_key m = Some max -> bt_sorted (m ++ concat parts) /\ last_key (m ++ concat parts) = Some max'.
Proof.
  intros Hv. induction keys as [|key keys IH]; intros [|c children] owned max owned' max' Hpos Hlen Hr; try (simpl in Hlen; lia);
    cbn [validate_children] in Hr.
  - injection Hr as <- <-. exists []. split; [constructor|]. split; [constructor|]. intros m Hs Hl. simpl. by rewrite app_nil_r.
  - step_ok Hr as p eqn Hp. destruct p as [owned1 [cmin cmax]]. step_if Hr eqn Hsep. apply orb_false_iff in Hsep as [Hk Hlt].
    apply negb_false_iff, bool_decide_eq_true_1 in Hk as ->. rewrite cmp_le_lt, negb_false_iff, cmp_lt_true in Hlt.
    apply Forall_cons_1 in Hpos as [Hc Hpos]. destruct (Hv _ _ _ _ _ Hc Hp) as (part & Hsub & Hs & Hf & Hl).
    destruct (IH children owned1 cmax owned' max' Hpos ltac:(simpl in Hlen; lia) Hr) as (parts & Hch & Hseps & Hcat).
    exists (part :: parts). split; [by constructor|]. split; [by constructor|]. intros m Hsm Hlm. simpl. rewrite app_assoc.
    apply Hcat; [by apply (sorted_join _ _ max cmin)|by apply last_key_app].
Qed.

Lemma own_ok id owned owned' : own id owned = Ok owned' -> id ∉ owned /\ owned' = {[id]} ∪ owned.
Proof. unfold own. destruct (bool_decide_reflect (id ∈ owned)); [done|]. by intros [= <-]. Qed.

Lemma load_inv r tree id expected node :
  load r tree id expected = Ok node -> read_node r tree id = Ok node /\ (forall level, expected = Some level -> node_level node = level).
Proof.
  unfold load, expect_level. intros Hl. step_ok Hl as node' eqn Hr. step_if Hl eqn He. inv_ok. split; [done|].
  intros level ->. by apply negb_false_iff, Z.eqb_eq in He.
Qed.

Lemma stored_last r tree cells m : stored r tree cells m -> last_key m = cell_key <$> last cells.
Proof.
  induction 1 as [|c e cells m [Hk _] Hst IH]; [done|]. unfold last_key in *. rewrite !last_cons.
  destruct (last cells), (last m); simpl in *; congruence.
Qed.

Lemma validate_subtree_spec r tree : forall fuel expected owned id owned' min max,
  reader_wf r -> 0 <= id -> validate_subtree fuel r tree expected owned id = Ok (owned', (min, max)) ->
  exists n m, validated r tree n id min max m /\ (forall level, expected = Some level -> level = Z.of_nat n).
Proof.
  induction fuel as [|fuel IH]; intros expected owned id owned' min max Hwf Hid Hr; cbn [validate_subtree] in Hr; [done|].
  step_ok Hr as owned1 eqn Hown. step_ok Hr as node eqn Hload. apply load_inv in Hload as [Hread Hlevel].
  destruct (read_node_inv r tree id _ Hwf Hid Hread) as ([Hpos _] & Hnode & _).
  destruct node as [cells|level keys children].
  - step_ok Hr as owned2 eqn Hvalues. step_ok Hr as first eqn Hfirst. step_ok Hr as final eqn Hlast. inv_ok.
    apply foldR_each with (P := fun c => exists data, read_value r tree (cell_value c) = Ok data) in Hvalues;
      [|intros s c s'; apply validate_value_read].
    apply cells_stored in Hvalues as [m Hst]. exists 0%nat, m. split; [|by intros level <-%Hlevel].
    split; [by split; [|exists cells]|]. split; [|split].
    + apply sorted_keys. rewrite <-(stored_keys _ _ _ _ Hst). apply (wf_increasing _ _ Hnode).
    + by eapply stored_first.
    + rewrite (stored_last _ _ _ _ Hst), Hlast. done.
  - step_ok Hr as first eqn Hfirst. step_ok Hr as below eqn Hbelow. apply arith_u64_inv in Hbelow as [-> _].
    step_ok Hr as p eqn Hp. destruct p as [owned2 [min0 max0]]. step_ok Hr as q eqn Hq. destruct q as [owned3 max1]. inv_ok.
    destruct (internal_inv _ _ _ _ _ _ Hwf Hpos Hread) as (_ & _ & Hlen & Hrefs & Hl & _).
    destruct children as [|c children]; [done|]. injection Hfirst as ->. apply Forall_cons_1 in Hrefs as [Hc Hrefs].
    destruct (IH _ owned1 first _ _ _ Hwf ltac:(lia) Hp) as (n & part & (Hsub & Hs & Hf & Hlk) & Hn).
    specialize (Hn _ eq_refl).
    destruct (validate_children_spec r tree n (validate_subtree fuel r tree (Some (level - 1)))) with (4 := Hq)
      as (parts & Hch & Hsep & Hcat).
    + intros owned4 id4 owned5 min5 max5 Hid4 Hv4. destruct (IH _ owned4 id4 _ _ _ Hwf ltac:(lia) Hv4) as (n' & m' & Hval & Hn').
      specialize (Hn' _ eq_refl). replace n' with n in Hval by lia. by exists m'.
    + eapply Forall_impl; [exact Hrefs|]. simpl. lia.
    + simpl in *. lia.
    + destruct (Hcat part Hs Hlk) as [Hs' Hl']. exists (S n), (part ++ concat parts).
      replace level with (Z.of_nat (S n)) in * by lia. split; [|intros level' <-%Hlevel; done].
      split; [|split; [done|]; split; [by apply first_key_app|done]]. split; [done|].
      exists keys, (first :: children), (part :: parts). split; [done|]. split; [by constructor|]. done.
Qed.

Lemma validate_tree_sound r tree root :
  reader_wf r -> 0 <= root -> validate_tree r tree root = Ok tt -> exists m, tree_holds r tree root m.
Proof.
  intros Hwf Hroot. unfold validate_tree, tree_holds. generalize TREE_FUEL. intros fuel.
  destruct (root =? 0); cbn [negb]; intros Hv; [by exists []|].
  step_ok Hv as p eqn Hp. destruct p as [owned [min max]].
  destruct (validate_subtree_spec _ _ _ _ _ _ _ _ _ Hwf Hroot Hp) as (n & m & (Hs & Hm & _) & _).
  exists m. split; [done|]. by exists n.
Qed.
End Check.
