(* ===== verification/Mvcc.v ===== *)
(** * Versioned state ([src/src/storage/mvcc.rs])

    State keys (table, escaped row key, descending sequence), state values,
    the snapshot point read and the lazy snapshot scan. *)
From S2P Require Import Prelude OrdMap Errors Bytes Value Encoding Storage.

Definition MAX_STATE_KEY_BYTES : Z := 8 + 2 * MAX_KEY_BYTES + 2 + 8.

Record StateKey : Type := { state_table : Z; state_key : bytes; state_sequence : Z }.

Inductive StateValue : Type :=
| Put (value : bytes)
| StateDelete.

Definition check_snapshot (table_id sequence : Z) : Result StorageError unit :=
  if (table_id =? 0) || (table_id =? u64_max) then Err (InvalidInput "invalid state table ID") else
  if sequence =? u64_max then Err (InvalidInput "reserved snapshot sequence") else
  Ok tt.

(** [mvcc::check_key] *)
Definition check_user_key (key : bytes) : Result StorageError unit :=
  if len key >? MAX_KEY_BYTES then Err (InvalidInput "user key exceeds 1,024 bytes") else Ok tt.

(** [StateKey::new] *)
Definition StateKey_new (table_id : Z) (key : bytes) (sequence : Z) : Result StorageError StateKey :=
  let* _ := check_snapshot table_id sequence in
  let* _ := check_user_key key in
  if sequence <=? table_id then Err (InvalidInput "row sequence must exceed its table ID") else
  Ok {| state_table := table_id; state_key := key; state_sequence := sequence |}.

Definition address_prefix (table_id : Z) (key : bytes) : bytes :=
  escape_into key (be_bytes 8 table_id).

Definition seek_key (table_id : Z) (key : bytes) (sequence : Z) : bytes :=
  address_prefix table_id key ++ be_bytes 8 (not_u64 sequence).

(** [*end.last_mut().unwrap() = 1] *)
Definition set_last (data : bytes) (b : byte) : bytes := take (pred (length data)) data ++ [b].
Definition after_key (table_id : Z) (key : bytes) : bytes := set_last (address_prefix table_id key) x01.

(** [StateKey::encode] *)
Definition StateKey_encode (k : StateKey) : bytes := seek_key (state_table k) (state_key k) (state_sequence k).

(** [StateKey::decode] *)
Definition StateKey_decode (encoded : bytes) : Result StorageError StateKey :=
  if negb ((18 <=? len encoded) && (len encoded <=? MAX_STATE_KEY_BYTES))
  then Err (InvalidInput "invalid state key length") else
  let* table := slice_at encoded 0 8 in
  let* frame := slice_at encoded 8 (len encoded - 8) in
  let* (key, consumed) := unescape frame in
  if negb (consumed =? len frame) then Err (InvalidInput "trailing state key frame bytes") else
  let* version := slice_at encoded (len encoded - 8) (len encoded) in
  StateKey_new (from_be table) key (not_u64 (from_be version)).

(** [StateValue::encode] *)
Definition StateValue_encode (v : StateValue) : Result StorageError bytes :=
  match v with
  | StateDelete => Ok [x00]
  | Put value =>
      if len value >? MAX_VALUE_BYTES then Err (InvalidInput "state value exceeds 16 MiB") else
      Ok (x01 :: le_bytes 4 (len value) ++ value)
  end.

Definition value_payload (encoded : bytes) : Result StorageError (option bytes) :=
  if bool_decide (encoded = [x00]) then Ok None else
  if (len encoded <? 5) || negb (bool_decide (head encoded = Some x01))
  then Err (InvalidInput "invalid state value tag or length") else
  let* field := slice_at encoded 1 5 in
  let length := from_le field in
  if (length >? MAX_VALUE_BYTES) || negb (length =? len encoded - 5)
  then Err (InvalidInput "invalid state Put length") else
  Ok (Some (drop 5 encoded)).

(** [StateValue::decode] *)
Definition StateValue_decode (encoded : bytes) : Result StorageError StateValue :=
  let* payload := value_payload encoded in
  Ok (match payload with Some value => Put value | None => StateDelete end).

(** [<[u8]>::starts_with] *)
Definition starts_with (data prefix : bytes) : bool :=
  bool_decide (take (length prefix) data = prefix) && (len prefix <=? len data).

Section Reads.
Context `{Storage View Cell}.

(** [read_value]: the payload the returned [ReadValue] retains. *)
Definition mvcc_read_value (view : View) (table : Z) (key : bytes) (sequence : Z)
    : Result StorageError (option bytes) :=
  let* _ := check_snapshot table sequence in
  let* _ := check_user_key key in
  let lower := seek_key table key sequence in
  let prefix_len := len lower - 8 in
  let* located := tree_seek view State lower in
  match located with
  | None => Ok None
  | Some (cell_key, cell_value) =>
      let* prefix := slice_at lower 0 prefix_len in
      if negb (starts_with cell_key prefix) then Ok None else
      if negb (len cell_key =? len lower)
      then Err (Corrupt "state seeker returned an unexpected address") else
      let* version := slice_at cell_key prefix_len (len cell_key) in
      let stored_sequence := not_u64 (from_be version) in
      if (stored_sequence <=? table) || (stored_sequence >? sequence)
      then Err (Corrupt "invalid state seeker sequence") else
      let* encoded_value := value_bytes view State cell_value in
      let* payload := map_err corrupt_input (value_payload encoded_value) in
      match payload with
      | None => Ok None
      | Some _ => Ok (Some (drop 5 encoded_value))
      end
  end.

(** [mvcc::get] *)
Definition mvcc_get (view : View) (table : Z) (key : bytes) (sequence : Z)
    : Result StorageError (option bytes) :=
  mvcc_read_value view table key sequence.

(** One physical entry of a scan: its address, version and payload. *)
Definition check_entry (table : Z) (entry : Entry) : Result StorageError (StateKey * option bytes) :=
  let '(encoded_key, encoded_value) := entry in
  let* key := map_err corrupt_input (StateKey_decode encoded_key) in
  let* value := map_err corrupt_input (value_payload encoded_value) in
  if negb (state_table key =? table) then Err (Corrupt "state scan crossed its table boundary") else
  Ok (key, value).

(** The items of a [StateScan] over the remaining physical entries:
    [advance] selects the newest visible version of the next address, and the
    iterator is done after an error. *)
Fixpoint state_scan (table sequence : Z) (selected_key : option bytes)
    (physical : Stream StorageError Entry) : Stream StorageError Entry :=
  match physical with
  | [] => []
  | Ok entry :: physical =>
      match check_entry table entry with
      | Ok (found, value) =>
          if (state_sequence found >? sequence) || bool_decide (selected_key = Some (state_key found))
          then state_scan table sequence selected_key physical
          else
            match value with
            | Some value =>
                Ok (state_key found, value) :: state_scan table sequence (Some (state_key found)) physical
            | None => state_scan table sequence (Some (state_key found)) physical
            end
      | Err error => [Err error]
      | Panic => [Panic]
      end
  | Err error :: _ => [Err error]
  | Panic :: _ => [Panic]
  end.

Definition check_user_bound (b : Bound bytes) : Result StorageError unit :=
  match b with Included key | Excluded key => check_user_key key | Unbounded => Ok tt end.

(** [mvcc::scan] *)
Definition mvcc_scan (view : View) (table sequence : Z) (lower upper : Bound bytes)
    : Result StorageError (Stream StorageError Entry) :=
  let* _ := check_snapshot table sequence in
  let* _ := check_user_bound lower in
  let* _ := check_user_bound upper in
  let lower :=
    match lower with
    | Unbounded => be_bytes 8 table
    | Included key => seek_key table key sequence
    | Excluded key => after_key table key
    end in
  let* next_table := match upper with Unbounded => arith_u64 (table + 1) | _ => Ok 0 end in
  let upper :=
    match upper with
    | Unbounded => be_bytes 8 next_table
    | Included key => after_key table key
    | Excluded key => address_prefix table key
    end in
  let* physical := storage_scan view State (Included lower) (Excluded upper) in
  Ok (state_scan table sequence None physical).
End Reads.
