(* ===== verification/Checkpoint.v ===== *)
(** * Validation of checkpoints ([src/src/storage/checkpoint.rs])

    The sequences and values of system entries, full validation of a root set,
    and the bounded bookkeeping by which a live owner reuses the result for
    roots reached by its own edits.  [RuntimeValidation] also carries the
    owner's log proof (LogValidation.v). *)
From S2P Require Import Prelude OrdMap Errors Bytes Limits Metadata LogValidation Storage Mvcc Platform Page Tree.

Definition TREES : list TreeId := [State; Catalogue; Policy; Outcomes; Cursors].

(** [TreeId::index] *)
Definition tree_index (tree : TreeId) : nat :=
  match tree with State => 0 | Catalogue => 1 | Policy => 2 | Outcomes => 3 | Cursors => 4 end.

Record ValidatedTree : Type := { proof_root : Z; proof_sequence : Z }.

(** [[Option<ValidatedTree>; 4]] *)
Abbreviation Proofs := (list (option ValidatedTree)).
Definition no_proofs : Proofs := [None; None; None; None].

Record Pending : Type := { pending_keys : list ((Z * bytes) * Z); pending_bytes : Z }.
Definition Pending_default : Pending := {| pending_keys := []; pending_bytes := 0 |}.

Record RuntimeValidation : Type := {
  live : Proofs; published : Proofs; pending : option Pending; runtime_logs : option LogValidation }.

(** [RuntimeValidation::new] *)
Definition RuntimeValidation_new (checkpoint_is_live : bool) : RuntimeValidation :=
  {| live := no_proofs; published := no_proofs;
     pending := if checkpoint_is_live then Some Pending_default else None; runtime_logs := None |}.

(** ** System entries *)
(** [store::entry_sequence] *)
Definition entry_sequence (tree : TreeId) (key : bytes) : Result StorageError Z :=
  let* sequence :=
    match tree with
    | State =>
        let* key := map_err corrupt_input (StateKey_decode key) in
        Ok (state_sequence key)
    | Catalogue =>
        if negb (len key =? 16) then Err (Corrupt "invalid catalogue key length") else
        let* table := slice_at key 0 8 in
        let* version := slice_at key 8 16 in
        let table := from_be table in
        let sequence := not_u64 (from_be version) in
        if (table =? 0) || (table >? sequence) then Err (Corrupt "invalid catalogue version identity") else Ok sequence
    | Policy | Outcomes | Cursors =>
        if negb (len key =? 8) then Err (Corrupt "invalid system key length") else
        let sequence := from_be key in
        if negb (bool_decide (tree = Policy)) && (sequence =? 0) then Err (Corrupt "reserved system key") else Ok sequence
    end in
  if sequence =? u64_max then Err (Corrupt "reserved system sequence or ID") else Ok sequence.

Definition valid_value (tree : TreeId) (value : bytes) : Result StorageError unit :=
  match tree with
  | State =>
      let* _ := map_err corrupt_input (StateValue_decode value) in
      Ok tt
  | Policy =>
      let* _ := LimitPolicy_decode value in
      Ok tt
  | _ => Ok tt
  end.

Definition validate_cursor (id : Z) (value : bytes) (manifest : Manifest) : Result StorageError unit :=
  if (id >=? next_cursor_id manifest) || (len value <? 16) || (len value >? 271)
  then Err (Corrupt "invalid cursor identity or value length") else
  let* version := uint_at value 2 0 in
  if negb (version =? 1) then Err (StorageUnsupported "cursor" version) else
  let* baseline := uint_at value 8 4 in
  let* length := uint_at value 4 12 in
  let* mode := uint_at value 1 2 in
  let* reserved := uint_at value 1 3 in
  let* name := slice_at value 16 (len value) in
  if negb ((1 <=? mode) && (mode <=? 3)) || negb (reserved =? 0)
     || (baseline >? durable_sequence manifest) || (baseline <? history_floor manifest)
     || (negb (mode =? 1) && (log_floor manifest >? baseline + 1))
     || negb (length =? len value - 16)
     || existsb (fun b => byte_Z b =? 0) name || negb (utf8_valid name)
  then Err (Corrupt "invalid cursor value or retention floor") else Ok tt.

(** ** Full validation *)
Section Validation.
Context `{Checksum}.

(** One turn of the loop over a tree's entries; the state is [maximum]. *)
Definition validate_entry (tree : TreeId) (manifest : Manifest) (maximum : Z) (entry : Result StorageError Entry)
    : Result StorageError Z :=
  let* (key, value) := entry in
  let* sequence := entry_sequence tree key in
  if negb (bool_decide (tree = Cursors)) && (sequence >? manifest_checkpoint_sequence manifest)
  then Err (Corrupt "checkpoint contains a post-checkpoint version") else
  let maximum := Z.max maximum sequence in
  let* _ := valid_value tree value in
  let* _ := if bool_decide (tree = Cursors) then validate_cursor sequence value manifest else Ok tt in
  Ok maximum.

(** The validation of a tree without a proof: the largest sequence in it. *)
Definition validate_fully (reader : PageReader) (manifest : Manifest) (genesis : Genesis) (tree : TreeId) (root : Z)
    : Result StorageError Z :=
  let* _ := validate_tree reader tree root in
  let* entries := scan reader tree root Unbounded Unbounded in
  let* maximum := foldR (validate_entry tree manifest) 0 (scan_items entries) in
  let* _ :=
    if bool_decide (tree = Policy) then
      let* first := get reader tree root (be_bytes 8 0) in
      if bool_decide (first = Some (LimitPolicy_encode (initial_policy genesis))) then Ok tt
      else Err (Corrupt "initial policy differs from genesis")
    else Ok tt in
  Ok maximum.

(** One turn of the loop over the trees. *)
Definition validate_root (reader : PageReader) (manifest : Manifest) (genesis : Genesis) (proofs validated : Proofs)
    (tree : TreeId) : Result StorageError Proofs :=
  let index := tree_index tree in
  let* root := expect (manifest_roots manifest !! index) in
  let* proof := if Nat.ltb index 4 then expect (proofs !! index) else Ok None in
  match proof with
  | Some proof =>
      if (proof_root proof =? root) && (proof_sequence proof <=? manifest_checkpoint_sequence manifest)
      then Ok (<[index := Some proof]> validated)
      else
        let* maximum := validate_fully reader manifest genesis tree root in
        Ok (<[index := Some {| proof_root := root; proof_sequence := maximum |}]> validated)
  | None =>
      let* maximum := validate_fully reader manifest genesis tree root in
      Ok (if Nat.ltb index 4
          then <[index := Some {| proof_root := root; proof_sequence := maximum |}]> validated else validated)
  end.

(** [checkpoint::validate] *)
Definition validate (reader : PageReader) (manifest : Manifest) (genesis : Genesis) (proofs : Proofs)
    : Result StorageError Proofs :=
  foldR (validate_root reader manifest genesis proofs) no_proofs TREES.
End Validation.

(** ** Reuse of validation results *)
Definition PENDING_BYTES : Z := 1024 * 1024.

(** The proofs whose root is not the previous one are dropped. *)
Definition drop_moved (previous : list Z) (live : Proofs) : Proofs :=
  zip_with (fun root proof =>
    match proof with Some proof => if proof_root proof =? root then Some proof else None | None => None end)
    previous live.

(** [!(change.tree == Policy && change.key == 0 && change.value != initial policy)] *)
Definition changes_genesis_policy (genesis : Genesis) (change : Mutation) : bool :=
  bool_decide (mutation_tree change = Policy) && bool_decide (mutation_key change = be_bytes 8 0)
  && negb (bool_decide (mutation_value change = Some (LimitPolicy_encode (initial_policy genesis)))).

Definition observe_live (genesis : Genesis) (change : Mutation) (sequence : Result StorageError Z) (live : Proofs)
    : Result StorageError Proofs :=
  let index := tree_index (mutation_tree change) in
  let valid :=
    is_ok sequence
    && match mutation_value change with Some value => is_ok (valid_value (mutation_tree change) value) | None => true end
    && negb (changes_genesis_policy genesis change) in
  if valid then
    let* proof := expect (live !! index) in
    match proof, mutation_value change with
    | Some proof, Some _ =>
        let* sequence := sequence in
        Ok (<[index := Some {| proof_root := proof_root proof;
                               proof_sequence := Z.max (proof_sequence proof) sequence |}]> live)
    | _, _ => Ok live
    end
  else Ok (<[index := None]> live).

Definition observe_pending (manifest : Manifest) (change : Mutation) (sequence : Result StorageError Z) (pending : Pending)
    : Result StorageError (option Pending) :=
  let key := (Z.of_nat (tree_index (mutation_tree change)), mutation_key change) in
  let bytes := len (mutation_key change) + 96 in
  let* pending :=
    match bt_get key (pending_keys pending) with
    | Some _ =>
        let* remaining := arith_u64 (pending_bytes pending - bytes) in
        Ok {| pending_keys := bt_remove key (pending_keys pending); pending_bytes := remaining |}
    | None => Ok pending
    end in
  match sequence with
  | Ok sequence =>
      if bool_decide (mutation_value change <> None) && (sequence >? manifest_checkpoint_sequence manifest) then
        if pending_bytes pending + bytes >? PENDING_BYTES then Ok None
        else Ok (Some {| pending_keys := bt_insert key sequence (pending_keys pending);
                         pending_bytes := pending_bytes pending + bytes |})
      else Ok (Some pending)
  | _ => Ok None
  end.

(** One turn of the loop over the changes. *)
Definition observe_change (manifest : Manifest) (genesis : Genesis) (validation : RuntimeValidation) (change : Mutation)
    : Result StorageError RuntimeValidation :=
  if bool_decide (mutation_tree change = Cursors) then Ok validation else
  let sequence := entry_sequence (mutation_tree change) (mutation_key change) in
  let* live := observe_live genesis change sequence (live validation) in
  let* pending :=
    match pending validation with
    | Some pending => observe_pending manifest change sequence pending
    | None => Ok None
    end in
  Ok {| live := live; published := published validation; pending := pending; runtime_logs := runtime_logs validation |}.

(** The proofs move to the new roots. *)
Definition move_proofs (roots : list Z) (live : Proofs) : Proofs :=
  zip_with (fun root proof =>
    match proof with
    | Some proof => Some {| proof_root := root; proof_sequence := proof_sequence proof |} | None => None end)
    roots live.

(** [checkpoint::observe] *)
Definition observe (validation : RuntimeValidation) (previous roots : list Z) (changes : list Mutation)
    (manifest : Manifest) (genesis : Genesis) : Result StorageError RuntimeValidation :=
  let validation := {| live := drop_moved previous (live validation); published := published validation;
                       pending := pending validation; runtime_logs := runtime_logs validation |} in
  let* validation := foldR (observe_change manifest genesis) validation changes in
  Ok {| live := move_proofs roots (live validation); published := published validation; pending := pending validation;
        runtime_logs := runtime_logs validation |}.

(** [checkpoint::published] *)
Definition note_published (validation : RuntimeValidation) (roots : list Z) (manifest : Manifest) (proofs : Proofs)
    : RuntimeValidation :=
  let live :=
    zip_with (fun '(live, proof) '(root, selected) => if root =? selected then proof else live)
      (zip (live validation) proofs) (zip roots (manifest_roots manifest)) in
  let pending :=
    match pending validation with
    | Some pending =>
        let keys := List.filter (fun e => e.2 >? manifest_checkpoint_sequence manifest) (pending_keys pending) in
        Some {| pending_keys := keys; pending_bytes := sum_Z (map (fun e => len e.1.2 + 96) keys) |}
    | None =>
        if bool_decide (take 4 roots = take 4 (manifest_roots manifest)) then Some Pending_default else None
    end in
  {| live := live; published := proofs; pending := pending; runtime_logs := runtime_logs validation |}.
