(* ===== verification/CheckpointFacts.v ===== *)
(** * What checkpoint validation establishes

    An accepted root set holds entries that decode, lie at or below the
    checkpoint and keep the genesis policy; a proof that an owner keeps across
    its own edits is still true of the root it names; and the pending keys are
    all the entries above the checkpoint. *)
From Stdlib Require Import Sorted.
From S2P Require Import Prelude OrdMap Errors Bytes Limits Metadata Storage Mvcc Platform Page PageFacts NodeFacts FileFacts StoredFacts Tree TreeFacts TreeReads TreeEdits Checkpoint.

Lemma remove_filter {K V} `{CmpLaws K} (k : K) (f g : K * V -> bool) (m : list (K * V)) :
  bt_sorted m -> (forall e, e ∈ m -> g e = true <-> f e = true /\ e.1 <> k) ->
  bt_remove k (List.filter f m) = List.filter g m.
Proof.
  intros Hs Hg. apply bt_sorted_ext; [by apply bt_sorted_remove, bt_sorted_filter|by apply bt_sorted_filter|].
  intros e. rewrite elem_of_remove by (by apply bt_sorted_filter). rewrite !list_elem_of_In, !List.filter_In, <-!list_elem_of_In.
  pose proof (Hg e). naive_solver.
Qed.

(** ** Entries *)
Definition genesis_value (genesis : Genesis) : bytes := LimitPolicy_encode (initial_policy genesis).

(** What validation establishes of an entry below [bound]. *)
Definition entry_ok (tree : TreeId) (bound : Z) (e : Entry) : Prop :=
  (exists s, entry_sequence tree e.1 = Ok s /\ s <= bound) /\ valid_value tree e.2 = Ok tt.

Definition contents_ok (genesis : Genesis) (tree : TreeId) (bound : Z) (m : list Entry) : Prop :=
  Forall (entry_ok tree bound) m /\ (tree = Policy -> bt_get (be_bytes 8 0) m = Some (genesis_value genesis)).

Definition cursor_ok (manifest : Manifest) (e : Entry) : Prop :=
  exists id, entry_sequence Cursors e.1 = Ok id /\ validate_cursor id e.2 manifest = Ok tt.

(** The contents of a valid checkpoint. *)
Definition checkpoint_ok (genesis : Genesis) (manifest : Manifest) (contents : Contents) : Prop :=
  (forall tree, tree <> Cursors -> contents_ok genesis tree (manifest_checkpoint_sequence manifest) (contents tree)) /\
  Forall (cursor_ok manifest) (contents Cursors).

Lemma entry_ok_le tree bound bound' e : entry_ok tree bound e -> bound <= bound' -> entry_ok tree bound' e.
Proof. intros [(s & Hs & ?) ?] ?. split; [|done]. exists s. split; [done|lia]. Qed.

Lemma contents_ok_le genesis tree bound bound' m :
  contents_ok genesis tree bound m -> bound <= bound' -> contents_ok genesis tree bound' m.
Proof. intros [Hf Hp] Hle. split; [|done]. eapply Forall_impl; [exact Hf|]. intros e He. by eapply entry_ok_le. Qed.

(** A mutation of one tree. *)
Definition mutate_tree (change : Mutation) (m : list Entry) : list Entry :=
  match mutation_value change with
  | Some value => bt_insert (mutation_key change) value m
  | None => bt_remove (mutation_key change) m
  end.

Lemma mutate_one_tree contents change tree :
  mutate_one contents change tree = if decide (tree = mutation_tree change) then mutate_tree change (contents tree) else contents tree.
Proof. unfold mutate_one, mutate_tree. by destruct (decide _). Qed.

Lemma mutate_tree_elem change m e :
  bt_sorted m -> e ∈ mutate_tree change m -> e ∈ m /\ e.1 <> mutation_key change \/ mutation_value change = Some e.2 /\ e.1 = mutation_key change.
Proof.
  intros Hs. unfold mutate_tree. destruct (mutation_value change) as [value|].
  - intros He. pose proof (bt_sorted_insert (mutation_key change) value m Hs) as Hsi.
    destruct (decide (e.1 = mutation_key change)) as [E|Hne].
    + right. destruct e as [k v]. simpl in E. subst k. apply bt_elem_get in He; [|done].
      rewrite bt_get_insert_eq in He by done. injection He as ->. done.
    + left. split; [|done]. by apply elem_of_bt_insert in He as [->|He].
  - intros He%elem_of_remove; [|done]. by left.
Qed.

Lemma mutate_tree_sorted change m : bt_sorted m -> bt_sorted (mutate_tree change m).
Proof. intros Hs. unfold mutate_tree. destruct (mutation_value change); [by apply bt_sorted_insert|by apply bt_sorted_remove]. Qed.

Lemma contents_ok_mutate genesis change bound s m :
  bt_sorted m -> contents_ok genesis (mutation_tree change) bound m ->
  entry_sequence (mutation_tree change) (mutation_key change) = Ok s ->
  (forall value, mutation_value change = Some value -> valid_value (mutation_tree change) value = Ok tt) ->
  changes_genesis_policy genesis change = false ->
  contents_ok genesis (mutation_tree change)
    (match mutation_value change with Some _ => Z.max bound s | None => bound end) (mutate_tree change m).
Proof.
  intros Hs [Hf Hp] Hseq Hval Hgen. rewrite Forall_forall in Hf. split.
  - apply Forall_forall. intros e He. apply mutate_tree_elem in He as [[He _]|[Hv Hk]]; [| |done].
    + eapply entry_ok_le; [by apply Hf|]. destruct (mutation_value change); lia.
    + rewrite Hv. split; [|by apply Hval]. exists s. rewrite Hk. split; [done|lia].
  - intros Ht. specialize (Hp Ht). unfold changes_genesis_policy in Hgen. rewrite bool_decide_true in Hgen by done.
    cbn [andb] in Hgen. destruct (decide (mutation_key change = be_bytes 8 0)) as [Ek|Hne].
    + rewrite bool_decide_true in Hgen by done. cbn [andb] in Hgen. apply negb_false_iff, bool_decide_eq_true in Hgen.
      unfold mutate_tree. rewrite Hgen, Ek. by rewrite bt_get_insert_eq.
    + unfold mutate_tree. destruct (mutation_value change) as [value|].
      * rewrite bt_get_insert_ne by (done || congruence). done.
      * apply bt_elem_get; [by apply bt_sorted_remove|]. apply elem_of_remove; [done|]. split; [by apply bt_get_elem|]. simpl. congruence.
Qed.

(** ** The pending keys *)
Section Sums.
Context {K V : Type} `{CmpLaws K} (f : K * V -> Z).
Implicit Types (k : K) (v : V) (m : list (K * V)).

Lemma sum_remove k m :
  sum_Z (map f (bt_remove k m)) = sum_Z (map f m) - match bt_get k m with Some v => f (k, v) | None => 0 end.
Proof.
  induction m as [|[a w] m IH]; simpl; [done|]. destruct (cmp k a) eqn:E; simpl; [|lia|].
  - apply cmp_eq in E as ->. lia.
  - rewrite IH. destruct (bt_get k m); lia.
Qed.

Lemma sum_insert k v m :
  bt_get k m = None -> sum_Z (map f (bt_insert k v m)) = sum_Z (map f m) + f (k, v).
Proof.
  induction m as [|[a w] m IH]; simpl; [lia|]. destruct (cmp k a) eqn:E; simpl; [done|lia|]. intros Hg. rewrite IH by done. lia.
Qed.
End Sums.

(** What a pending key is charged. *)
Definition charge (e : (Z * bytes) * Z) : Z := len e.1.2 + 96.

Lemma charges_nonneg keys : 0 <= sum_Z (map charge keys).
Proof. apply sum_Z_nonneg, Forall_map, Forall_true. intros e. unfold charge. pose proof (len_nonneg e.1.2). lia. Qed.

Definition pending_key (tree : TreeId) (key : bytes) : Z * bytes := (Z.of_nat (tree_index tree), key).

Lemma tree_index_lt tree : (tree_index tree < 5)%nat.
Proof. destruct tree; simpl; lia. Qed.
Lemma tree_index_inj a b : tree_index a = tree_index b -> a = b.
Proof. by destruct a, b. Qed.
Lemma tree_index_small tree : tree <> Cursors -> (tree_index tree < 4)%nat.
Proof. destruct tree; simpl; done || lia. Qed.
Lemma pending_key_inj t k t' k' : pending_key t k = pending_key t' k' -> t = t' /\ k = k'.
Proof. unfold pending_key. intros [= Ht ->]. apply Nat2Z.inj in Ht. by apply tree_index_inj in Ht. Qed.

(** The pending keys are all the entries above the checkpoint. *)
Record pending_ok (manifest : Manifest) (contents : Contents) (p : Pending) : Prop := {
  pending_sorted : bt_sorted (pending_keys p);
  pending_sum : pending_bytes p = sum_Z (map charge (pending_keys p));
  pending_max : pending_bytes p <= PENDING_BYTES;
  pending_named : Forall (fun e => exists tree, tree <> Cursors /\ e.1 = pending_key tree e.1.2 /\
    entry_sequence tree e.1.2 = Ok e.2 /\ len e.1.2 <= MAX_KEY) (pending_keys p);
  pending_all tree e : tree <> Cursors -> e ∈ contents tree -> exists s, entry_sequence tree e.1 = Ok s /\
    (manifest_checkpoint_sequence manifest < s -> bt_get (pending_key tree e.1) (pending_keys p) = Some s) }.

(** The first half of [observe_pending]: the changed key is dropped. *)
Lemma drop_pending key p :
  bt_sorted (pending_keys p) -> pending_bytes p = sum_Z (map charge (pending_keys p)) -> pending_bytes p <= PENDING_BYTES ->
  match bt_get key (pending_keys p) with
  | Some _ => let* remaining := arith_u64 (pending_bytes p - (len key.2 + 96)) in
      Ok {| pending_keys := bt_remove key (pending_keys p); pending_bytes := remaining |}
  | None => Ok p
  end = Ok (E:=StorageError) {| pending_keys := bt_remove key (pending_keys p); pending_bytes := sum_Z (map charge (bt_remove key (pending_keys p))) |} /\
  sum_Z (map charge (bt_remove key (pending_keys p))) <= PENDING_BYTES.
Proof.
  intros Hs Hb Hmax. pose proof (sum_remove charge key (pending_keys p)) as Hr. rewrite <-Hb in Hr.
  destruct (bt_get key (pending_keys p)) as [v|] eqn:Eg.
  - change (charge (key, v)) with (len key.2 + 96) in Hr. pose proof (charges_nonneg (bt_remove key (pending_keys p))) as Hpos.
    pose proof (len_nonneg key.2). unfold PENDING_BYTES in *. rewrite Hr in *.
    rewrite arith_u64_ok by (unfold u64_max; lia). split; [done|lia].
  - rewrite bt_remove_absent in * by done. rewrite <-Hb. split; [by destruct p|done].
Qed.

Lemma observe_pending_ok manifest contents change p :
  (forall tree, bt_sorted (contents tree)) -> len (mutation_key change) <= MAX_KEY -> mutation_tree change <> Cursors ->
  pending_ok manifest contents p ->
  exists q, observe_pending manifest change (entry_sequence (mutation_tree change) (mutation_key change)) p = Ok q /\
    match q with Some q => pending_ok manifest (mutate_one contents change) q | None => True end.
Proof.
  intros Hsorted Hkey Htree [Hs Hb Hmax Hnamed Hall]. unfold observe_pending.
  set (key := (Z.of_nat (tree_index (mutation_tree change)), mutation_key change)).
  destruct (drop_pending key p Hs Hb Hmax) as [E Hmax']. cbn [snd key] in E. rewrite E. cbn [bindR]. clear E.
  set (keys := bt_remove key (pending_keys p)) in *. assert (bt_sorted keys) as Hs' by by apply bt_sorted_remove.
  assert (bt_get key keys = None) as Hno by by apply bt_get_remove.
  destruct (entry_sequence (mutation_tree change) (mutation_key change)) as [sequence| |] eqn:Eseq; [|by exists None..].
  assert (forall tree e, tree <> Cursors -> e ∈ mutate_one contents change tree -> (tree, e.1) <> (mutation_tree change, mutation_key change) ->
    exists s, entry_sequence tree e.1 = Ok s /\
      (manifest_checkpoint_sequence manifest < s -> bt_get (pending_key tree e.1) keys = Some s)) as Hother.
  { intros tree e Ht He Hne. rewrite mutate_one_tree in He. destruct (Hall tree e Ht) as (s & Hes & Hp).
    { destruct (decide _) as [->|]; [|done]. apply mutate_tree_elem in He as [[He _]|[_ Hk]]; [done|by rewrite Hk in Hne|done]. }
    exists s. split; [done|]. intros Hlt. unfold keys. rewrite bt_get_remove_ne; [by apply Hp|done|].
    intros [-> Hk]%pending_key_inj. by rewrite Hk in Hne. }
  assert (forall tree e, e ∈ mutate_one contents change tree -> (tree, e.1) = (mutation_tree change, mutation_key change) ->
    mutation_value change <> None) as Hsame.
  { intros tree e He [= -> Hk]. rewrite mutate_one_tree, decide_True in He by done.
    apply mutate_tree_elem in He as [[_ Hne]|[Hv _]]; [by rewrite Hk in Hne|by rewrite Hv|done]. }
  assert (Forall (fun e => exists tree, tree <> Cursors /\ e.1 = pending_key tree e.1.2 /\ entry_sequence tree e.1.2 = Ok e.2 /\
    len e.1.2 <= MAX_KEY) keys) as Hnamed'.
  { rewrite Forall_forall in *. intros e [He _]%elem_of_remove; [by apply Hnamed|done]. }
  destruct (bool_decide (mutation_value change <> None) && (sequence >? manifest_checkpoint_sequence manifest)) eqn:Eabove.
  - cbn [pending_keys pending_bytes]. destruct (Z.gtb_spec (sum_Z (map charge keys) + (len (mutation_key change) + 96)) PENDING_BYTES); [by exists None|].
    eexists. split; [done|]. split; cbn [pending_keys pending_bytes].
    + by apply bt_sorted_insert.
    + by rewrite (sum_insert charge).
    + done.
    + rewrite Forall_forall in *. intros e [->|He]%elem_of_bt_insert; [|by apply Hnamed']. by exists (mutation_tree change).
    + intros tree e Ht He. destruct (decide ((tree, e.1) = (mutation_tree change, mutation_key change))) as [[= -> Hk]|Hne].
      * exists sequence. rewrite Hk. split; [done|]. intros _. by apply bt_get_insert_eq.
      * destruct (Hother _ _ Ht He Hne) as (s & Hes & Hp). exists s. split; [done|]. intros Hlt.
        rewrite bt_get_insert_ne; [by apply Hp|done|]. intros [-> Hk]%pending_key_inj. by rewrite Hk in Hne.
  - eexists. split; [done|]. split; cbn [pending_keys pending_bytes]; [done..|].
    intros tree e Ht He. destruct (decide ((tree, e.1) = (mutation_tree change, mutation_key change))) as [E|Hne]; [|by apply Hother].
    pose proof (Hsame _ _ He E) as Hv. rewrite bool_decide_true in Eabove by done. injection E as -> Hk.
    exists sequence. rewrite Hk. split; [done|]. rewrite Z.gtb_ltb in Eabove. simpl in Eabove. blia.
Qed.

(** ** Live proofs *)
(** A live proof bounds the current entries of its tree. *)
Definition live_ok (genesis : Genesis) (contents : Contents) (live : Proofs) : Prop :=
  length live = 4%nat /\
  forall tree proof, tree <> Cursors -> live !! tree_index tree = Some (Some proof) ->
    contents_ok genesis tree (proof_sequence proof) (contents tree).

Lemma live_ok_insert genesis contents change live proof :
  live_ok genesis contents live -> mutation_tree change <> Cursors ->
  (forall p, proof = Some p ->
     contents_ok genesis (mutation_tree change) (proof_sequence p) (mutate_tree change (contents (mutation_tree change)))) ->
  live_ok genesis (mutate_one contents change) (<[tree_index (mutation_tree change) := proof]> live).
Proof.
  intros [Hl Hlive] Hc Hp. split; [by rewrite length_insert|]. intros tree p Ht Hp'. rewrite mutate_one_tree.
  destruct (decide (tree = mutation_tree change)) as [->|Hne].
  - rewrite list_lookup_insert_eq in Hp' by (pose proof (tree_index_small _ Hc); lia). injection Hp' as ->. by apply Hp.
  - rewrite list_lookup_insert_ne in Hp' by (by intros E%tree_index_inj). by apply Hlive.
Qed.

Lemma valid_value_ok tree value : is_ok (valid_value tree value) = true -> valid_value tree value = Ok tt.
Proof. by destruct (valid_value tree value) as [[]| |]. Qed.

Lemma observe_live_ok genesis contents change live :
  (forall tree, bt_sorted (contents tree)) -> mutation_tree change <> Cursors -> live_ok genesis contents live ->
  exists live', observe_live genesis change (entry_sequence (mutation_tree change) (mutation_key change)) live = Ok live' /\
    live_ok genesis (mutate_one contents change) live'.
Proof.
  intros Hs Hc Hok. pose proof Hok as [Hl Hlive]. unfold observe_live.
  destruct (entry_sequence (mutation_tree change) (mutation_key change)) as [s| |] eqn:Es; cbn [is_ok andb];
    try (eexists; split; [done|]; by apply live_ok_insert).
  destruct (_ && _) eqn:Ev; [|eexists; split; [done|]; by apply live_ok_insert].
  apply andb_true_iff in Ev as [Hv Hg%negb_true_iff].
  destruct (lookup_lt_is_Some_2 live (tree_index (mutation_tree change))) as [proof Hp]; [rewrite Hl; by apply tree_index_small|].
  rewrite Hp. cbn [expect bindR].
  assert (forall p, proof = Some p -> contents_ok genesis (mutation_tree change)
    (match mutation_value change with Some _ => Z.max (proof_sequence p) s | None => proof_sequence p end)
    (mutate_tree change (contents (mutation_tree change)))) as Hnew.
  { intros p ->. apply contents_ok_mutate; [done|by apply Hlive|done| |done].
    intros value Hval. rewrite Hval in Hv. by apply valid_value_ok. }
  assert (match mutation_value change with Some _ => proof | None => None end = None ->
    live_ok genesis (mutate_one contents change) live) as Hsame.
  { intros E. rewrite <-(list_insert_id live (tree_index (mutation_tree change)) proof) by done. apply live_ok_insert; [done..|].
    intros p Ep. specialize (Hnew p Ep). destruct (mutation_value change); [by rewrite Ep in E|done]. }
  destruct proof as [proof|], (mutation_value change) as [value|]; eexists; (split; [done|]); [|by apply Hsame..].
  apply live_ok_insert; [done..|]. intros p [= <-]. by apply Hnew.
Qed.

(** ** Observing a batch *)
Definition watching (genesis : Genesis) (manifest : Manifest) (contents : Contents) (v : RuntimeValidation) : Prop :=
  live_ok genesis contents (live v) /\ match pending v with Some p => pending_ok manifest contents p | None => True end.

Lemma live_ok_ext genesis contents contents' live :
  (forall tree, tree <> Cursors -> contents' tree = contents tree) -> live_ok genesis contents live -> live_ok genesis contents' live.
Proof. intros He [Hl Hp]. split; [done|]. intros tree p Ht Hlp. rewrite He by done. by apply Hp. Qed.
Lemma pending_ok_ext manifest contents contents' p :
  (forall tree, tree <> Cursors -> contents' tree = contents tree) -> pending_ok manifest contents p -> pending_ok manifest contents' p.
Proof. intros He [? ? ? ? Ha]. split; [done..|]. intros tree e Ht Hin. rewrite He in Hin by done. by apply Ha. Qed.

Lemma observe_change_ok genesis manifest contents change v :
  (forall tree, bt_sorted (contents tree)) -> mutation_ok change = true -> watching genesis manifest contents v ->
  exists v', observe_change manifest genesis v change = Ok v' /\ watching genesis manifest (mutate_one contents change) v' /\
    published v' = published v.
Proof.
  intros Hs Hok [Hl Hp]. unfold observe_change. destruct (bool_decide_reflect (mutation_tree change = Cursors)) as [E|Hc].
  - exists v. split; [done|]. split; [|done].
    assert (forall tree, tree <> Cursors -> mutate_one contents change tree = contents tree) as Hsame.
    { intros tree Ht. rewrite mutate_one_tree. by rewrite decide_False by congruence. }
    split; [by eapply live_ok_ext|]. destruct (pending v); [by eapply pending_ok_ext|done].
  - destruct (observe_live_ok genesis contents change (live v)) as (live' & -> & Hl'); [done..|]. cbn [bindR].
    unfold mutation_ok in Hok. apply andb_true_iff in Hok as [Hk%Z.leb_le _].
    destruct (pending v) as [p|]; [|by eexists].
    destruct (observe_pending_ok manifest contents change p) as (q & -> & Hq); [done..|]. by eexists.
Qed.

Lemma observe_changes_ok genesis manifest changes : forall contents v,
  (forall tree, bt_sorted (contents tree)) -> forallb mutation_ok changes = true -> watching genesis manifest contents v ->
  exists v', foldR (observe_change manifest genesis) v changes = Ok v' /\
    watching genesis manifest (mutate changes contents) v' /\ published v' = published v.
Proof.
  induction changes as [|c changes IH]; intros contents v Hs Hok Hw; cbn [foldR]; [by exists v|].
  simpl in Hok. apply andb_true_iff in Hok as [Hc Hok].
  destruct (observe_change_ok genesis manifest contents c v Hs Hc Hw) as (v1 & -> & Hw1 & Hp1). cbn [bindR].
  destruct (IH (mutate_one contents c) v1) as (v2 & -> & Hw2 & Hp2); [|done..|].
  - intros tree. rewrite mutate_one_tree. destruct (decide _); [by apply mutate_tree_sorted|done].
  - exists v2. split; [done|]. split; [done|congruence].
Qed.

Section Roots.
Context `{Checksum}.
Implicit Types (r : PageReader) (contents : Contents).

(** ** Root sets *)
Definition roots_hold r (roots : list Z) contents : Prop :=
  length roots = 5%nat /\
  forall tree, exists root, roots !! tree_index tree = Some root /\ tree_holds r tree root (contents tree).

Lemma roots_hold_le r r' roots contents :
  reader_wf r -> reader_wf r' -> reader_le r r' -> roots_hold r roots contents -> roots_hold r' roots contents.
Proof.
  intros ? ? ? [Hl Hr]. split; [done|]. intros tree. destruct (Hr tree) as (root & Hroot & Hh). exists root.
  split; [done|]. by apply (tree_holds_le r).
Qed.

Lemma roots_hold_ext r roots contents contents' :
  (forall tree, contents' tree = contents tree) -> roots_hold r roots contents -> roots_hold r roots contents'.
Proof. intros He [Hl Hr]. split; [done|]. intros tree. rewrite He. apply Hr. Qed.

Lemma roots_hold_sorted r roots contents tree : roots_hold r roots contents -> bt_sorted (contents tree).
Proof. intros [_ Hr]. destruct (Hr tree) as (root & _ & Hh). by eapply tree_holds_sorted. Qed.

Lemma roots_hold_insert r roots contents tree root m :
  roots_hold r roots contents -> tree_holds r tree root m ->
  roots_hold r (<[tree_index tree := root]> roots) (fun t => if decide (t = tree) then m else contents t).
Proof.
  intros [Hl Hr] Hm. split; [by rewrite length_insert|]. intros t. destruct (decide (t = tree)) as [->|Hne].
  - exists root. rewrite list_lookup_insert_eq by (pose proof (tree_index_lt tree); lia). done.
  - destruct (Hr t) as (root' & Ht & Hh). exists root'. rewrite list_lookup_insert_ne; [done|].
    by intros E%tree_index_inj.
Qed.

Lemma bt_range_all (m : list Entry) : bt_range Unbounded Unbounded m = m.
Proof. unfold bt_range. induction m as [|e m IH]; [done|]. cbn [List.filter in_range above below andb]. by f_equal. Qed.

Lemma map_ok_inj {E A} (l l' : list A) : map (Ok (E:=E)) l = map Ok l' -> l = l'.
Proof. revert l'. induction l as [|a l IH]; intros [|a' l']; simpl; [done..|]. intros [= -> E']. by rewrite (IH _ E'). Qed.

(** A root holds one map: the one its scan lists. *)
Lemma tree_holds_unique r tree root m m' :
  reader_wf r -> tree_holds r tree root m -> tree_holds r tree root m' -> m = m'.
Proof.
  intros Hwf Hm Hm'. destruct (tree_scan_holds r tree root m Unbounded Unbounded Hwf Hm) as (s & Hs & Hi); [done..|].
  destruct (tree_scan_holds r tree root m' Unbounded Unbounded Hwf Hm') as (s' & Hs' & Hi'); [done..|].
  rewrite Hs in Hs'. apply ok_inj in Hs' as <-. rewrite Hi in Hi'. apply map_ok_inj in Hi'.
  by rewrite !bt_range_all in Hi'.
Qed.

(** ** The proofs of an owner *)
(** Each proof is true of the root it names. *)
Definition proofs_ok r (genesis : Genesis) (proofs : Proofs) : Prop :=
  length proofs = 4%nat /\
  forall tree proof, tree <> Cursors -> proofs !! tree_index tree = Some (Some proof) ->
    exists m, tree_holds r tree (proof_root proof) m /\ contents_ok genesis tree (proof_sequence proof) m.

Lemma proofs_ok_le r r' genesis proofs :
  reader_wf r -> reader_wf r' -> reader_le r r' -> proofs_ok r genesis proofs -> proofs_ok r' genesis proofs.
Proof.
  intros ? ? ? [Hl Hp]. split; [done|]. intros tree proof Ht Hproof. destruct (Hp tree proof Ht Hproof) as (m & Hm & Hok).
  exists m. split; [by apply (tree_holds_le r)|done].
Qed.

Lemma no_proofs_ok r genesis : proofs_ok r genesis no_proofs.
Proof. split; [done|]. intros [] proof Ht; done. Qed.

Lemma drop_moved_ok r genesis contents roots proofs :
  reader_wf r -> roots_hold r roots contents -> proofs_ok r genesis proofs -> live_ok genesis contents (drop_moved roots proofs).
Proof.
  intros Hwf [Hl Hr] [Hl' Hp]. split; [unfold drop_moved; rewrite length_zip_with; lia|]. intros tree proof Ht Hlook.
  unfold drop_moved in Hlook. destruct (Hr tree) as (root & Hroot & Hh). rewrite lookup_zip_with, Hroot in Hlook.
  destruct (proofs !! tree_index tree) as [[p|]|] eqn:E; [|done..]. simpl in Hlook.
  destruct (Z.eqb_spec (proof_root p) root) as [Hpr|]; [|done]. injection Hlook as ->.
  destruct (Hp tree proof Ht E) as (m & Hm & Hok). rewrite Hpr in Hm. by rewrite (tree_holds_unique _ _ _ _ _ Hwf Hh Hm).
Qed.

Lemma move_proofs_ok r genesis contents roots live :
  roots_hold r roots contents -> live_ok genesis contents live -> proofs_ok r genesis (move_proofs roots live).
Proof.
  intros [Hl Hr] [Hl' Hp]. split; [unfold move_proofs; rewrite length_zip_with; lia|]. intros tree proof Ht Hlook.
  unfold move_proofs in Hlook. destruct (Hr tree) as (root & Hroot & Hh). rewrite lookup_zip_with, Hroot in Hlook.
  destruct (live !! tree_index tree) as [[p|]|] eqn:E; [|done..]. injection Hlook as <-. cbn [proof_root proof_sequence].
  exists (contents tree). split; [done|]. by apply Hp.
Qed.

(** The bookkeeping of an owner whose roots hold [contents]. *)
Record runtime_ok r (genesis : Genesis) (manifest : Manifest) contents (v : RuntimeValidation) : Prop := {
  runtime_live : proofs_ok r genesis (live v);
  runtime_published : proofs_ok r genesis (published v);
  runtime_pending : match pending v with Some p => pending_ok manifest contents p | None => True end }.

Lemma observe_ok r r' genesis manifest contents v previous roots changes :
  reader_wf r -> reader_wf r' -> reader_le r r' -> forallb mutation_ok changes = true ->
  runtime_ok r genesis manifest contents v -> roots_hold r previous contents -> roots_hold r' roots (mutate changes contents) ->
  exists v', observe v previous roots changes manifest genesis = Ok v' /\
    runtime_ok r' genesis manifest (mutate changes contents) v'.
Proof.
  intros Hwf Hwf' Hle Hok [Hl Hpub Hp] Hprev Hroots. unfold observe.
  edestruct (observe_changes_ok genesis manifest changes contents) as (w & -> & [Hw1 Hw2] & Hw3); [|done|..].
  - intros tree. by apply (roots_hold_sorted r previous).
  - split; [by apply (drop_moved_ok r)|done].
  - cbn [bindR]. eexists. split; [done|]. split; cbn [live published pending].
    + by eapply move_proofs_ok.
    + rewrite Hw3. by apply (proofs_ok_le r).
    + done.
Qed.
End Roots.

(** ** Full validation *)
Section Validated.
Context `{Checksum}.
Implicit Types (r : PageReader) (contents : Contents).

Lemma validate_entry_inv tree manifest maximum entry maximum' :
  validate_entry tree manifest maximum entry = Ok maximum' ->
  exists e, entry = Ok e /\ maximum <= maximum' /\
    (tree <> Cursors -> entry_ok tree maximum' e /\
       (maximum <= manifest_checkpoint_sequence manifest -> maximum' <= manifest_checkpoint_sequence manifest)) /\
    (tree = Cursors -> cursor_ok manifest e).
Proof.
  intros Hv. unfold validate_entry in Hv. step_ok Hv as e eqn He. destruct e as [key value].
  step_ok Hv as s eqn Hs. step_if Hv eqn Hb. step_ok Hv as u eqn Hval. destruct u.
  step_ok Hv as u eqn Hc. destruct u. apply ok_inj in Hv as <-. exists (key, value). split; [done|]. split; [lia|]. split.
  - intros Ht. rewrite bool_decide_false in Hb by done. cbn [negb andb] in Hb. rewrite Z.gtb_ltb in Hb. split; [|blia].
    split; [|done]. exists s. split; [done|lia].
  - intros ->. rewrite bool_decide_true in Hc by done. by exists s.
Qed.

Lemma validate_entries_inv tree manifest entries : forall maximum maximum',
  foldR (validate_entry tree manifest) maximum entries = Ok maximum' ->
  exists m, entries = map Ok m /\ maximum <= maximum' /\
    (tree <> Cursors -> Forall (entry_ok tree maximum') m /\
       (maximum <= manifest_checkpoint_sequence manifest -> maximum' <= manifest_checkpoint_sequence manifest)) /\
    (tree = Cursors -> Forall (cursor_ok manifest) m).
Proof.
  induction entries as [|entry entries IH]; intros maximum maximum' Hf; cbn [foldR] in Hf.
  - apply ok_inj in Hf as <-. by exists [].
  - step_ok Hf as next eqn Hn. apply validate_entry_inv in Hn as (e & -> & Hle & He & Hc).
    apply IH in Hf as (m & -> & Hle' & Hm & Hmc). exists (e :: m). split; [done|]. split; [lia|]. split.
    + intros Ht. destruct (He Ht) as [He1 He2], (Hm Ht) as [Hm1 Hm2]. split; [|by auto].
      constructor; [by eapply entry_ok_le|done].
    + intros Ht. constructor; auto.
Qed.

Lemma validate_fully_inv r manifest genesis tree root maximum :
  validate_fully r manifest genesis tree root = Ok maximum ->
  validate_tree r tree root = Ok tt /\
  exists s, scan r tree root Unbounded Unbounded = Ok s /\
    foldR (validate_entry tree manifest) 0 (scan_items s) = Ok maximum /\
    (tree = Policy -> get r tree root (be_bytes 8 0) = Ok (Some (genesis_value genesis))).
Proof.
  unfold validate_fully. intros ([] & Ht & (s & Hs & (top & Hf & ([] & Hp & Hm)%bindR_ok)%bindR_ok)%bindR_ok)%bindR_ok.
  apply ok_inj in Hm as <-. split; [exact Ht|]. exists s. split; [exact Hs|]. split; [exact Hf|]. intros ->.
  rewrite bool_decide_true in Hp by done. apply bindR_ok in Hp as (first & Hg & Hp). rewrite Hg.
  destruct (bool_decide_reflect (first = Some (LimitPolicy_encode (initial_policy genesis)))) as [->|]; [done|discriminate Hp].
Qed.

(** The validation of a tree without a proof. *)
Lemma validate_fully_sound r manifest genesis tree root maximum :
  reader_wf r -> 0 <= root -> 0 <= manifest_checkpoint_sequence manifest ->
  validate_fully r manifest genesis tree root = Ok maximum ->
  exists m, tree_holds r tree root m /\
    (tree <> Cursors -> contents_ok genesis tree maximum m /\ maximum <= manifest_checkpoint_sequence manifest) /\
    (tree = Cursors -> Forall (cursor_ok manifest) m).
Proof.
  intros Hwf Hroot Hseq (Ht & s & Hs & Hf & Hp)%validate_fully_inv.
  destruct (validate_tree_sound _ _ _ Hwf Hroot Ht) as [m Hm].
  destruct (tree_scan_holds _ _ _ _ Unbounded Unbounded Hwf Hm eq_refl eq_refl) as (s' & Hs' & Hi).
  rewrite Hs in Hs'. apply ok_inj in Hs' as <-.
  rewrite Hi, bt_range_all in Hf. apply validate_entries_inv in Hf as (m' & E%map_ok_inj & Hle & He & Hc). subst m'.
  exists m. split; [exact Hm|]. split; [|exact Hc]. intros Hne. destruct (He Hne) as [He1 He2]. split; [|by apply He2].
  split; [exact He1|]. intros E. specialize (Hp E). rewrite (tree_get_holds _ _ _ _ _ Hwf Hm) in Hp by done. by apply ok_inj in Hp.
Qed.

(** A tree whose proof names the root, or that was validated. *)
Lemma validate_root_sound r manifest genesis proofs validated tree validated' :
  reader_wf r -> Forall (fun root => 0 <= root) (manifest_roots manifest) -> length (manifest_roots manifest) = 5%nat ->
  0 <= manifest_checkpoint_sequence manifest -> proofs_ok r genesis proofs -> proofs_ok r genesis validated ->
  validate_root r manifest genesis proofs validated tree = Ok validated' ->
  exists root m, manifest_roots manifest !! tree_index tree = Some root /\ tree_holds r tree root m /\
    (tree <> Cursors -> contents_ok genesis tree (manifest_checkpoint_sequence manifest) m) /\
    (tree = Cursors -> Forall (cursor_ok manifest) m) /\ proofs_ok r genesis validated'.
Proof.
  intros Hwf Hpos Hlen Hseq Hproofs Hval Hv. pose proof Hproofs as [Hl Hp]. unfold validate_root in Hv.
  destruct (lookup_lt_is_Some_2 (manifest_roots manifest) (tree_index tree)) as [root Hroot];
    [rewrite Hlen; apply tree_index_lt|]. rewrite Hroot in Hv. cbn [expect bindR] in Hv.
  assert (0 <= root) as Hr by (eapply Forall_lookup_1; [exact Hpos|exact Hroot]). exists root.
  assert (forall p m, tree <> Cursors -> tree_holds r tree (proof_root p) m -> contents_ok genesis tree (proof_sequence p) m ->
    proofs_ok r genesis (<[tree_index tree := Some p]> validated)) as Hset.
  { intros p m Hne Hm Hok. destruct Hval as [Hvl Hvp]. split; [by rewrite length_insert|]. intros t q Ht Hq.
    destruct (decide (t = tree)) as [->|Hd].
    - rewrite list_lookup_insert_eq in Hq by (rewrite Hvl; by apply tree_index_small). injection Hq as <-. by exists m.
    - rewrite list_lookup_insert_ne in Hq by (by intros E%tree_index_inj). by apply Hvp. }
  assert (forall maximum, validate_fully r manifest genesis tree root = Ok maximum ->
    exists m, tree_holds r tree root m /\ (tree <> Cursors -> contents_ok genesis tree maximum m /\
        maximum <= manifest_checkpoint_sequence manifest) /\ (tree = Cursors -> Forall (cursor_ok manifest) m)) as Hfull
    by (intros maximum; by apply validate_fully_sound).
  destruct (decide (tree = Cursors)) as [->|Hne].
  - cbn [tree_index Nat.ltb Nat.leb bindR] in Hv. step_ok Hv as maximum eqn Hm. apply ok_inj in Hv as <-.
    destruct (Hfull _ Hm) as (m & Hh & _ & Hc). by exists m.
  - pose proof (tree_index_small _ Hne) as Hi. rewrite (proj2 (Nat.ltb_lt _ _)) in Hv by lia.
    destruct (lookup_lt_is_Some_2 proofs (tree_index tree)) as [proof Hproof]; [lia|]. rewrite Hproof in Hv. cbn [expect bindR] in Hv.
    destruct (match proof with Some p => (proof_root p =? root) && (proof_sequence p <=? manifest_checkpoint_sequence manifest) | None => false end) eqn:Eok.
    + destruct proof as [p|]; [|done]. rewrite Eok in Hv. apply ok_inj in Hv as <-. apply andb_true_iff in Eok as [<-%Z.eqb_eq Hle%Z.leb_le].
      destruct (Hp tree p Hne Hproof) as (m & Hm & Hok). exists m. do 2 (split; [done|]).
      split; [by intros _; eapply contents_ok_le|]. split; [done|by eapply Hset].
    + assert (exists maximum, validate_fully r manifest genesis tree root = Ok maximum /\
        validated' = <[tree_index tree := Some {| proof_root := root; proof_sequence := maximum |}]> validated) as (maximum & Hm & ->).
      { destruct proof as [p|]; [rewrite Eok in Hv|]; step_ok Hv as maximum eqn Hm; apply ok_inj in Hv as <-; by exists maximum. }
      destruct (Hfull _ Hm) as (m & Hh & Hok & Hc). destruct (Hok Hne) as [Hok1 Hok2]. exists m. do 2 (split; [done|]).
      split; [by intros _; eapply contents_ok_le|]. split; [done|by eapply Hset].
Qed.

(** An accepted manifest selects a valid checkpoint, and the proofs returned
    are true, whether or not the owner's proofs were reused. *)
Lemma validate_sound r manifest genesis proofs proofs' :
  reader_wf r -> Forall (fun root => 0 <= root) (manifest_roots manifest) -> length (manifest_roots manifest) = 5%nat ->
  0 <= manifest_checkpoint_sequence manifest -> proofs_ok r genesis proofs ->
  validate r manifest genesis proofs = Ok proofs' ->
  exists contents, roots_hold r (manifest_roots manifest) contents /\ checkpoint_ok genesis manifest contents /\ proofs_ok r genesis proofs'.
Proof.
  intros Hwf Hpos Hlen Hseq Hproofs Hv. unfold validate in Hv.
  pose proof (no_proofs_ok r genesis) as H0. unfold TREES in Hv. cbn [foldR] in Hv.
  step_ok Hv as v1 eqn H1. apply validate_root_sound in H1 as (r1 & m1 & L1 & T1 & O1 & _ & P1); [|done..].
  step_ok Hv as v2 eqn H2. apply validate_root_sound in H2 as (r2 & m2 & L2 & T2 & O2 & _ & P2); [|done..].
  step_ok Hv as v3 eqn H3. apply validate_root_sound in H3 as (r3 & m3 & L3 & T3 & O3 & _ & P3); [|done..].
  step_ok Hv as v4 eqn H4. apply validate_root_sound in H4 as (r4 & m4 & L4 & T4 & O4 & _ & P4); [|done..].
  step_ok Hv as v5 eqn H5. apply validate_root_sound in H5 as (r5 & m5 & L5 & T5 & _ & O5 & P5); [|done..].
  apply ok_inj in Hv as <-.
  exists (fun tree => match tree with State => m1 | Catalogue => m2 | Policy => m3 | Outcomes => m4 | Cursors => m5 end).
  split; [split; [done|intros []; eauto]|]. split; [|done]. split; [intros [] Ht; by auto|by apply O5].
Qed.
End Validated.

(** ** A publication *)
Section Published.
Context `{Checksum}.

Lemma keep_pending manifest manifest' contents p :
  manifest_checkpoint_sequence manifest <= manifest_checkpoint_sequence manifest' -> pending_ok manifest contents p ->
  let keys := List.filter (fun e => e.2 >? manifest_checkpoint_sequence manifest') (pending_keys p) in
  pending_ok manifest' contents {| pending_keys := keys; pending_bytes := sum_Z (map charge keys) |}.
Proof.
  intros Hle [Hs Hb Hmax Hn Ha] keys. assert (forall e, e ∈ keys -> e ∈ pending_keys p) as Hsub.
  { intros e. unfold keys. rewrite !list_elem_of_In, List.filter_In. by intros [? _]. }
  assert (bt_sorted keys) as Hs' by by apply bt_sorted_filter. split; cbn [pending_keys pending_bytes]; [done|done| | |].
  - etransitivity; [|exact Hmax]. rewrite Hb. unfold keys. clear. induction (pending_keys p) as [|e l IH]; simpl; [done|].
    assert (0 <= charge e) by (unfold charge; pose proof (len_nonneg e.1.2); lia). destruct (_ >? _); simpl; lia.
  - rewrite Forall_forall in *. auto.
  - intros tree e Ht He. destruct (Ha tree e Ht He) as (s & Hes & Hp). exists s. split; [done|]. intros Hlt.
    apply bt_elem_get; [done|]. apply list_elem_of_In, List.filter_In. split; [|simpl; rewrite Z.gtb_ltb; blia].
    apply list_elem_of_In, bt_get_elem, Hp. lia.
Qed.

(** When the first four roots are the checkpoint's, nothing is above it. *)
Lemma none_pending r genesis manifest contents saved roots :
  reader_wf r -> roots_hold r roots contents -> roots_hold r (manifest_roots manifest) saved ->
  checkpoint_ok genesis manifest saved -> take 4 roots = take 4 (manifest_roots manifest) ->
  pending_ok manifest contents Pending_default.
Proof.
  intros Hwf [Hl Hr] [Hl' Hr'] [Hok _] Heq. split; cbn [Pending_default pending_keys pending_bytes]; [constructor|done|done|constructor|].
  intros tree e Ht He. destruct (Hr tree) as (root & Hroot & Hh), (Hr' tree) as (root' & Hroot' & Hh').
  pose proof (tree_index_small _ Ht) as Hi. rewrite <-(lookup_take_lt roots 4) in Hroot by done. rewrite <-(lookup_take_lt (manifest_roots manifest) 4) in Hroot' by done. rewrite Heq, Hroot' in Hroot.
  injection Hroot as <-. rewrite (tree_holds_unique _ _ _ _ _ Hwf Hh Hh') in He. destruct (Hok tree Ht) as [Hf _].
  rewrite Forall_forall in Hf. destruct (Hf e He) as [(s & Hs & Hle) _]. exists s. split; [done|lia].
Qed.

Lemma note_published_ok r genesis manifest manifest' contents saved v roots proofs :
  reader_wf r -> runtime_ok r genesis manifest contents v -> roots_hold r roots contents ->
  roots_hold r (manifest_roots manifest') saved -> checkpoint_ok genesis manifest' saved -> proofs_ok r genesis proofs ->
  manifest_checkpoint_sequence manifest <= manifest_checkpoint_sequence manifest' ->
  runtime_ok r genesis manifest' contents (note_published v roots manifest' proofs).
Proof.
  intros Hwf [Hlive Hpub Hpend] Hroots Hsaved Hok Hproofs Hle. split; cbn [note_published live published pending]; [|done|].
  - pose proof Hlive as [L1 P1]. pose proof Hproofs as [L2 P2]. pose proof Hroots as [L3 _]. pose proof Hsaved as [L4 _].
    split; [rewrite length_zip_with, !length_zip; lia|]. intros tree p Ht Hp. 
    apply lookup_zip_with_Some in Hp as ([a b] & [c d] & Hp & Hab & _). apply lookup_zip_with_Some in Hab as (? & ? & [= <- <-] & Ha & Hb).
    destruct (c =? d); subst; [by apply P2|by apply P1].
  - destruct (pending v) as [q|]; [by apply (keep_pending manifest)|].
    destruct (bool_decide_reflect (take 4 roots = take 4 (manifest_roots manifest'))) as [Heq|]; [|done].
    by apply (none_pending r genesis _ _ saved roots).
Qed.
End Published.
