(* ===== verification/Store.v ===== *)
(** * The storage owner ([src/src/storage/store.rs])

    The latest installed roots over the page file, pinned views, atomic
    physical batches, checkpoint preparation, and the rules a new manifest
    must obey.  The directory the store is open on is a separate state
    (Directory.v, Log.v, Publication.v). *)
From S2P Require Import Prelude OrdMap Errors Bytes Limits Metadata Storage Mvcc Platform Page Tree Checkpoint.

(** [Store], less the directory and its lease. *)
Record Store : Type := {
  pages : PageFile; store_genesis : Genesis; store_manifest : Manifest; selected : Manifest;
  store_roots : list Z; store_poisoned : bool; rotate_next : bool; read_only : bool;
  runtime : option RuntimeValidation }.

Record PageView : Type := { view_reader : PageReader; view_roots : list Z; validation : Proofs }.

(** [store::view] *)
Definition view (store : Store) : PageView :=
  {| view_reader := reader (pages store); view_roots := store_roots store;
     validation := match runtime store with Some runtime => live runtime | None => no_proofs end |}.

(** [store::checkpoint_view] *)
Definition checkpoint_view (store : Store) : PageView :=
  {| view_reader := reader (pages store); view_roots := manifest_roots (store_manifest store);
     validation := match runtime store with Some runtime => published runtime | None => no_proofs end |}.

(** A view used when its file has become [file]. *)
Definition pinned_view (view : PageView) (file : PageFile) : PageView :=
  {| view_reader := pinned (view_reader view) file; view_roots := view_roots view; validation := validation view |}.

Definition writable (store : Store) : Result StorageError unit :=
  if store_poisoned store then Err NeedsRecovery else Ok tt.

(** ** Updates of the fields *)
Definition set_pages (store : Store) (file : PageFile) : Store :=
  {| pages := file; store_genesis := store_genesis store; store_manifest := store_manifest store;
     selected := selected store; store_roots := store_roots store; store_poisoned := store_poisoned store;
     rotate_next := rotate_next store; read_only := read_only store; runtime := runtime store |}.
Definition poison (store : Store) : Store :=
  {| pages := pages store; store_genesis := store_genesis store; store_manifest := store_manifest store;
     selected := selected store; store_roots := store_roots store; store_poisoned := true;
     rotate_next := rotate_next store; read_only := read_only store; runtime := runtime store |}.
Definition set_roots (store : Store) (roots : list Z) (runtime : option RuntimeValidation) : Store :=
  {| pages := pages store; store_genesis := store_genesis store; store_manifest := store_manifest store;
     selected := selected store; store_roots := roots; store_poisoned := store_poisoned store;
     rotate_next := rotate_next store; read_only := read_only store; runtime := runtime |}.

(** [enable_runtime_cache] *)
Definition enable_runtime_cache (store : Store) : Store :=
  match runtime store with
  | None =>
      set_roots store (store_roots store)
        (Some (RuntimeValidation_new (bool_decide (store_roots store = manifest_roots (store_manifest store)))))
  | Some _ => store
  end.

(** [set_read_only] *)
Definition set_read_only (store : Store) (read_only : bool) : Store :=
  {| pages := pages store; store_genesis := store_genesis store; store_manifest := store_manifest store;
     selected := selected store; store_roots := store_roots store; store_poisoned := store_poisoned store;
     rotate_next := rotate_next store; read_only := read_only; runtime := runtime store |}.

Section Stores.
Context `{Checksum}.

(** ** Reads of a view *)
(** [storage::get] *)
Definition view_get (view : PageView) (tree : TreeId) (key : bytes) : Result StorageError (option bytes) :=
  let* root := expect (view_roots view !! tree_index tree) in
  get (view_reader view) tree root key.

Definition view_seek (view : PageView) (tree : TreeId) (key : bytes) : Result StorageError (option (bytes * Value)) :=
  let* root := expect (view_roots view !! tree_index tree) in
  let* located := seek (view_reader view) tree root key in
  Ok (match located with Some cell => Some (cell_key cell, cell_value cell) | None => None end).

(** [storage::scan] and the items of its iterator *)
Definition view_scan (view : PageView) (tree : TreeId) (lower upper : Bound bytes)
    : Result StorageError (Stream StorageError Entry) :=
  let* root := expect (view_roots view !! tree_index tree) in
  let* scan := scan (view_reader view) tree root lower upper in
  Ok (scan_items scan).

#[export] Instance page_storage : Storage PageView Value := {
  storage_get := view_get;
  tree_seek := view_seek;
  value_bytes view tree value := read_value (view_reader view) tree value;
  storage_scan := view_scan }.

(** ** Batches *)
(** One turn of the second loop of [apply]: the roots after a change. *)
Definition apply_change (roots : list Z) (change : Mutation) : FileM (list Z) :=
  do* root := liftM (expect (roots !! tree_index (mutation_tree change))) in
  do* root :=
    match mutation_value change with
    | Some value => put (mutation_tree change) root (mutation_key change) value
    | None => tree_delete (mutation_tree change) root (mutation_key change)
    end in
  okM (<[tree_index (mutation_tree change) := root]> roots).

Fixpoint apply_changes (roots : list Z) (changes : list Mutation) : FileM (list Z) :=
  match changes with
  | [] => okM roots
  | change :: changes =>
      do* roots := apply_change roots change in
      apply_changes roots changes
  end.

(** [store::apply] *)
Definition apply (store : Store) (changes : list Mutation) : Store * Result StorageError unit :=
  match writable store with
  | Ok _ =>
      if negb (forallb mutation_ok changes)
      then (store, Err (InvalidInput "physical key or value exceeds its format ceiling")) else
      let '(file, result) := apply_changes (store_roots store) changes (pages store) in
      let written := set_pages store file in
      match result with
      | Ok roots =>
          match runtime store with
          | Some runtime =>
              match observe runtime (store_roots store) roots changes (store_manifest store) (store_genesis store) with
              | Ok runtime => (set_roots written roots (Some runtime), Ok tt)
              | Err error => (written, Err error)
              | Panic => (written, Panic)
              end
          | None => (set_roots written roots None, Ok tt)
          end
      | Err error => (poison written, Err error)
      | Panic => (written, Panic)
      end
  | Err error => (store, Err error)
  | Panic => (store, Panic)
  end.

#[export] Instance page_store : PhysicalStore Store PageView Value := {
  store_view := view;
  checkpoint_sequence store := manifest_checkpoint_sequence (store_manifest store);
  store_apply := apply }.

(** ** Checkpoints *)
(** Removing one entry above the checkpoint. *)
Definition prune_key (roots : list Z) (tree : TreeId) (key : bytes) : FileM (list Z) :=
  do* root := liftM (expect (roots !! tree_index tree)) in
  do* root := tree_delete tree root key in
  okM (<[tree_index tree := root]> roots).

(** The loop over the pending keys: a failed deletion poisons the store. *)
Fixpoint prune_pending (sequence : Z) (roots : list Z) (keys : list ((Z * bytes) * Z)) : FileM (list Z) :=
  match keys with
  | [] => okM roots
  | ((index, key), version) :: keys =>
      if version >? sequence then
        do* tree := liftM (expect (TREES !! Z.to_nat index)) in
        do* roots := prune_key roots tree key in
        prune_pending sequence roots keys
      else prune_pending sequence roots keys
  end.

(** The loop over the entries of a tree: failures of the scan and of the key
    decoding return directly, and a failed deletion poisons the store first. *)
Fixpoint prune_tree (sequence : Z) (tree : TreeId) (roots : list Z) (entries : Stream StorageError Entry)
    : PageFile -> PageFile * Result (bool * StorageError) (list Z) := fun file =>
  match entries with
  | [] => (file, Ok roots)
  | entry :: entries =>
      match (let* (key, _) := entry in let* version := entry_sequence tree key in Ok (key, version)) with
      | Ok (key, version) =>
          if version >? sequence then
            match prune_key roots tree key file with
            | (file, Ok roots) => prune_tree sequence tree roots entries file
            | (file, Err error) => (file, Err (true, error))
            | (file, Panic) => (file, Panic)
            end
          else prune_tree sequence tree roots entries file
      | Err error => (file, Err (false, error))
      | Panic => (file, Panic)
      end
  end.

(** The loop over the first four trees. *)
Fixpoint prune_trees (source : PageView) (sequence : Z) (trees : list TreeId) (roots : list Z)
    : PageFile -> PageFile * Result (bool * StorageError) (list Z) := fun file =>
  match trees with
  | [] => (file, Ok roots)
  | tree :: trees =>
      match view_scan (pinned_view source file) tree Unbounded Unbounded with
      | Ok entries =>
          match prune_tree sequence tree roots entries file with
          | (file, Ok roots) => prune_trees source sequence trees roots file
          | failed => failed
          end
      | Err error => (file, Err (false, error))
      | Panic => (file, Panic)
      end
  end.

(** Every proof of the view is for its current root. *)
Definition proofs_current (source : PageView) : bool :=
  forallb (fun '(proof, root) => match proof with Some proof => proof_root proof =? root | None => false end)
    (zip (validation source) (view_roots source)).

(** [prepare_checkpoint]; the items of a scan do not depend on the deletions
    made while it runs, since it reads below the pinned page count. *)
Definition prepare_checkpoint (store : Store) (sequence : Z) : Store * Result StorageError PageView :=
  match writable store with
  | Ok _ =>
      if (sequence <? manifest_checkpoint_sequence (store_manifest store)) || (sequence =? u64_max)
      then (store, Err (InvalidInput "invalid checkpoint sequence")) else
      let source := view store in
      match match runtime store with Some runtime => pending runtime | None => None end, proofs_current source with
      | Some pending, true =>
          let '(file, result) := prune_pending sequence (view_roots source) (pending_keys pending) (pages store) in
          let written := set_pages store file in
          match result with
          | Ok roots =>
              let validation :=
                zip_with (fun proof root =>
                  match proof with
                  | Some proof => Some {| proof_root := root; proof_sequence := Z.min (proof_sequence proof) sequence |}
                  | None => None
                  end) (validation source) roots in
              (written, Ok {| view_reader := reader file; view_roots := roots; validation := validation |})
          | Err error => (poison written, Err error)
          | Panic => (written, Panic)
          end
      | _, _ =>
          let '(file, result) := prune_trees source sequence (take 4 TREES) (view_roots source) (pages store) in
          let written := set_pages store file in
          match result with
          | Ok roots =>
              (written, Ok {| view_reader := reader file; view_roots := roots; validation := validation (view written) |})
          | Err (failed, error) => (if failed then poison written else written, Err error)
          | Panic => (written, Panic)
          end
      end
  | Err error => (store, Err error)
  | Panic => (store, Panic)
  end.
End Stores.

(** ** The rules of a publication *)
(** One turn of the loop over the segments of the next manifest; the binary
    search is for the segment of the same ID. *)
Definition validate_prefix (old : Manifest) (segment : SegmentDescriptor) : Result StorageError unit :=
  match List.find (fun previous => segment_id previous =? segment_id segment) (segments old) with
  | Some previous =>
      if negb (first_sequence segment =? first_sequence previous)
         || negb (bool_decide (predecessor_digest segment = predecessor_digest previous))
         || (last_sequence segment <? last_sequence previous)
         || (committed_bytes segment <? committed_bytes previous)
         || (negb (bool_decide (segment = previous)) && negb (bool_decide (Some previous = last (segments old))))
      then Err (InvalidInput "published segment prefix was replaced") else Ok tt
  | None =>
      if segment_id segment <? next_segment_id old
      then Err (InvalidInput "published segment ID was reused") else Ok tt
  end.

(** [validate_transition] *)
Definition validate_transition (store : Store) (next : Manifest) : Result StorageError unit :=
  let old := store_manifest store in
  if negb (generation next =? generation old)
     || negb (bool_decide (database_id next = database_id old))
     || negb (bool_decide (genesis_digest next = genesis_digest old))
     || negb (bool_decide (cursor_namespace next = cursor_namespace old))
     || negb (page_file_id next =? page_file_id old)
     || negb (next_page_file_id next =? next_page_file_id old)
  then Err (InvalidInput "stale manifest or changed storage identity") else
  if (manifest_checkpoint_sequence next <? manifest_checkpoint_sequence old)
     || (durable_sequence next <? durable_sequence old)
     || (history_floor next <? history_floor old)
     || (log_floor next <? log_floor old)
     || (next_cursor_id next <? next_cursor_id old)
     || (next_segment_id next <? next_segment_id old)
     || ((manifest_checkpoint_sequence next =? manifest_checkpoint_sequence old)
         && negb (bool_decide (checkpoint_digest next = checkpoint_digest old)))
     || ((durable_sequence next =? durable_sequence old)
         && negb (bool_decide (durable_digest next = durable_digest old)))
  then Err (InvalidInput "publication rolls back metadata or changes an anchor") else
  let* _ := mapR (validate_prefix old) (segments next) in
  Ok tt.
