(* ===== verification/Directory.v ===== *)
(** * The storage directory

    The files of a storage directory by name, and the answers the operating
    system will give: each creation, removal, rename and flush may be refused,
    and the writes of a file by its own answers ([Platform.v]).  Opening a file
    to read it fails only when it does not exist.

    A name that is created, removed or replaced is unsettled until a flush of
    the directory succeeds: a crash may give it back an earlier file, or none.
    [crash] says what a crash may leave; nothing in it is about manifests,
    logs or pages. *)
From stdpp Require Import countable.
From S2P Require Import Prelude Errors Bytes Platform.

(** The names the code uses: [manifest-{:020}.bin], [pages-{:020}.bin] and
    [log-{:020}.bin] carry their number. *)
Inductive Name : Type :=
| GENESIS | CURRENT | CURRENT_pending | manifest_pending | READ_ONLY | ATTACH_REQUIRED
| manifest_file (generation : Z)
| pages_file (id : Z)
| log_file (id : Z).
#[export] Instance Name_eq_dec : EqDecision Name.
Proof. solve_decision. Defined.

Definition name_code (name : Name) : Z + Z + Z + Z :=
  match name with
  | GENESIS => inr 0 | CURRENT => inr 1 | CURRENT_pending => inr 2 | manifest_pending => inr 3
  | READ_ONLY => inr 4 | ATTACH_REQUIRED => inr 5
  | manifest_file generation => inl (inr generation)
  | pages_file id => inl (inl (inr id))
  | log_file id => inl (inl (inl id))
  end.
Definition code_name (code : Z + Z + Z + Z) : Name :=
  match code with
  | inr 0 => GENESIS | inr 1 => CURRENT | inr 2 => CURRENT_pending | inr 3 => manifest_pending
  | inr 4 => READ_ONLY | inr _ => ATTACH_REQUIRED
  | inl (inr generation) => manifest_file generation
  | inl (inl (inr id)) => pages_file id
  | inl (inl (inl id)) => log_file id
  end.
#[export] Instance Name_countable : Countable Name.
Proof. apply (inj_countable' name_code code_name). by intros []. Defined.

(** [unsettled] has the files that a name had, before each change of it since
    the last flush of the directory. *)
Record Directory : Type := {
  entries : gmap Name File;
  directory_answers : list Response;
  fresh : list (list Response);
  unsettled : gmap Name (list (option File)) }.

Definition set_entries (dir : Directory) (entries : gmap Name File) : Directory :=
  {| entries := entries; directory_answers := directory_answers dir; fresh := fresh dir; unsettled := unsettled dir |}.

(** The name is about to change. *)
Definition unsettle (dir : Directory) (name : Name) : gmap Name (list (option File)) :=
  <[name := entries dir !! name :: default [] (unsettled dir !! name)]> (unsettled dir).
Definition settled (dir : Directory) (name : Name) : Prop := unsettled dir !! name = None.

(** Every file that a crash may leave under a name, the one it has first. *)
Definition bindings (dir : Directory) (name : Name) : list (option File) :=
  entries dir !! name :: default [] (unsettled dir !! name).

(** ** Operations on the directory *)
Definition DirM (A : Type) : Type := Directory -> Directory * Result StorageError A.
Definition liftD {A} (m : Result StorageError A) : DirM A := fun dir => (dir, m).
Definition bindD {A B} (m : DirM A) (k : A -> DirM B) : DirM B := fun dir =>
  match m dir with
  | (dir, Ok a) => k a dir
  | (dir, Err error) => (dir, Err error)
  | (dir, Panic) => (dir, Panic)
  end.
Notation "'do!' p ':=' m 'in' k" := (bindD m (fun p => k))
  (at level 10, p strict pattern, m at level 100, k at level 200) : blop_scope.
Definition okD {A} (a : A) : DirM A := liftD (Ok a).
Definition errD {A} (error : StorageError) : DirM A := liftD (Err error).
Definition get_directory : DirM Directory := fun dir => (dir, Ok dir).

(** The next answer for the directory. *)
Definition answered : DirM unit := fun dir =>
  match directory_answers dir with
  | Refused :: answers =>
      ({| entries := entries dir; directory_answers := answers; fresh := fresh dir; unsettled := unsettled dir |}, Err Io)
  | _ :: answers =>
      ({| entries := entries dir; directory_answers := answers; fresh := fresh dir; unsettled := unsettled dir |}, Ok tt)
  | [] => (dir, Ok tt)
  end.

(** [try_exists] *)
Definition exists_name (name : Name) : DirM bool := fun dir => (dir, Ok (bool_decide (is_Some (entries dir !! name)))).

(** [File::open], and what the file holds. *)
Definition read_file (name : Name) : DirM (option bytes) := fun dir => (dir, Ok (contents <$> entries dir !! name)).

(** [OpenOptions::create_new]: whether the file is new. *)
Definition create_new (name : Name) : DirM bool :=
  do! _ := answered in
  fun dir =>
    match entries dir !! name with
    | Some _ => (dir, Ok false)
    | None =>
        let '(responses, rest) := match fresh dir with [] => ([], []) | r :: rest => (r, rest) end in
        ({| entries := <[name := {| contents := []; responses := responses; unflushed := Some 0 |}]> (entries dir);
            directory_answers := directory_answers dir; fresh := rest; unsettled := unsettle dir name |}, Ok true)
    end.

(** An operation on the handle of [name]. *)
Definition on_file {A} (name : Name) (operation : File -> File * Result StorageError A) : DirM A := fun dir =>
  match entries dir !! name with
  | Some file => let '(file, result) := operation file in (set_entries dir (<[name := file]> (entries dir)), result)
  | None => (dir, Err Io)
  end.

(** [fs::remove_file]: whether the file existed. *)
Definition remove_file (name : Name) : DirM bool :=
  do! _ := answered in
  fun dir =>
    ({| entries := delete name (entries dir); directory_answers := directory_answers dir; fresh := fresh dir;
        unsettled := unsettle dir name |}, Ok (bool_decide (is_Some (entries dir !! name)))).

(** [platform::rename] *)
Definition rename_file (source destination : Name) : DirM unit :=
  do! _ := answered in
  fun dir =>
    match entries dir !! source with
    | Some file =>
        ({| entries := <[destination := file]> (delete source (entries dir)); directory_answers := directory_answers dir;
            fresh := fresh dir;
            unsettled := <[destination := entries dir !! destination :: default [] (unsettled dir !! destination)]> (unsettle dir source) |},
         Ok tt)
    | None => (dir, Err Io)
    end.

(** [platform::open_directory] and [platform::sync_directory]: every name is
    settled when the flush succeeds. *)
Definition sync_directory : DirM unit :=
  do! _ := answered in
  fun dir =>
    ({| entries := entries dir; directory_answers := directory_answers dir; fresh := fresh dir; unsettled := ∅ |}, Ok tt).

(** [store::write_new] *)
Definition write_new (name : Name) (bytes : bytes) : DirM unit :=
  do! created := create_new name in
  if negb created then errD Io else
  do! _ := on_file name (fun file => write_loop (responses file) (touched file 0) (contents file) bytes 0) in
  on_file name sync_file.

(** The contents of the log files, by segment ID. *)
Definition log_contents (dir : Directory) (id : Z) : option bytes := contents <$> entries dir !! log_file id.

(** ** Crashes *)
Definition entry_survives (b b' : option File) : Prop :=
  match b, b' with
  | Some file, Some file' => survives file file'
  | None, None => True
  | _, _ => False
  end.

(** What a crash may leave of a directory, whether the process ended or the
    power failed.  Every name has one of the files it may have, of which the
    flushed first bytes survive; a settled name stays settled; whether CURRENT
    was replaced is decided, one way or the other; files are not longer than
    lengths can be. *)
Record crash (dir dir' : Directory) : Prop := {
  crash_names : forall name b', b' ∈ bindings dir' name -> exists b, b ∈ bindings dir name /\ entry_survives b b';
  crash_settled : forall name, settled dir name -> settled dir' name;
  crash_current : settled dir' CURRENT;
  crash_sizes : forall name file, entries dir' !! name = Some file -> len (contents file) <= u64_max }.

(** ** Names that an operation leaves alone *)
Definition untouched (dir dir' : Directory) (name : Name) : Prop :=
  entries dir' !! name = entries dir !! name /\ (unsettled dir' !! name = unsettled dir !! name \/ settled dir' name).

Lemma untouched_refl dir name : untouched dir dir name.
Proof. split; [done|by left]. Qed.

Lemma untouched_trans a b c name : untouched a b name -> untouched b c name -> untouched a c name.
Proof. intros [E1 U1] [E2 U2]. split; [congruence|]. destruct U2 as [U2|]; [|by right]. unfold settled in *. rewrite U2. exact U1. Qed.

Lemma untouched_settled dir dir' name : untouched dir dir' name -> settled dir name -> settled dir' name.
Proof. unfold settled. intros [_ [->|Hs]] H; done. Qed.

Lemma untouched_bindings dir dir' name b : untouched dir dir' name -> b ∈ bindings dir' name -> b ∈ bindings dir name.
Proof.
  intros [E U]. unfold bindings. rewrite E. destruct U as [-> | ->]; [done|]. intros [->|Hb]%elem_of_cons; [left|by apply not_elem_of_nil in Hb].
Qed.

(** [m] touches no name outside [P]. *)
Definition touches {A} (P : Name -> Prop) (m : DirM A) : Prop := forall dir name, ~ P name -> untouched dir (m dir).1 name.

Section Touches.
Context (P : Name -> Prop).

Lemma touches_bind {A B} (m : DirM A) (k : A -> DirM B) : touches P m -> (forall a, touches P (k a)) -> touches P (bindD m k).
Proof.
  intros Hm Hk dir name Hn. unfold bindD. specialize (Hm dir name Hn). destruct (m dir) as [d [a|error|]]; [|done..].
  eapply untouched_trans; [exact Hm|]. by apply Hk.
Qed.
Lemma touches_lift {A} (r : Result StorageError A) : touches P (liftD r).
Proof. intros dir name _. apply untouched_refl. Qed.
Lemma touches_answered : touches P answered.
Proof. intros dir name _. unfold answered. destruct (directory_answers dir) as [|[]]; split; try done; by left. Qed.
Lemma touches_sync : touches P sync_directory.
Proof. apply touches_bind; [apply touches_answered|]. intros _ dir name _. split; [done|]. by right. Qed.
Lemma touches_exists name : touches P (exists_name name).
Proof. intros dir other _. apply untouched_refl. Qed.
Lemma touches_get : touches P get_directory.
Proof. intros dir other _. apply untouched_refl. Qed.
Lemma touches_on_file {A} name (operation : File -> File * Result StorageError A) : P name -> touches P (on_file name operation).
Proof.
  intros Hp dir other Hn. unfold on_file. destruct (entries dir !! name); [|apply untouched_refl]. destruct (operation f) as [f' r].
  assert (name <> other) as Hne by (by intros ->). split; cbn; [by rewrite lookup_insert_ne|by left].
Qed.
Lemma touches_create name : P name -> touches P (create_new name).
Proof.
  intros Hp. apply touches_bind; [apply touches_answered|]. intros _ dir other Hn. destruct (entries dir !! name); [apply untouched_refl|].
  destruct (match fresh dir with [] => ([], []) | r :: rest => (r, rest) end). assert (name <> other) as Hne by (by intros ->).
  split; cbn; [by rewrite lookup_insert_ne|]. left. unfold unsettle. by rewrite lookup_insert_ne.
Qed.
Lemma touches_remove name : P name -> touches P (remove_file name).
Proof.
  intros Hp. apply touches_bind; [apply touches_answered|]. intros _ dir other Hn. assert (name <> other) as Hne by (by intros ->).
  split; cbn; [by rewrite lookup_delete_ne|]. left. unfold unsettle. by rewrite lookup_insert_ne.
Qed.
Lemma touches_rename source destination : P source -> P destination -> touches P (rename_file source destination).
Proof.
  intros Hs Hd. apply touches_bind; [apply touches_answered|]. intros _ dir other Hn. destruct (entries dir !! source); [|apply untouched_refl].
  assert (source <> other /\ destination <> other) as [H1 H2] by (split; by intros ->).
  split; cbn; [by rewrite lookup_insert_ne, lookup_delete_ne|]. left. unfold unsettle. by rewrite !lookup_insert_ne.
Qed.
Lemma touches_write_new name data : P name -> touches P (write_new name data).
Proof.
  intros Hp. apply touches_bind; [by apply touches_create|]. intros []; cbn [negb]; [|apply touches_lift].
  apply touches_bind; [by apply touches_on_file|]. intros _. by apply touches_on_file.
Qed.
End Touches.

(** ** What stays flushed of the log files *)
(** Every log file stays, as settled as it was, with what was flushed of it
    below the cuts. *)
Definition flushed_le (cuts : list (Z * Z)) (dir dir' : Directory) : Prop :=
  forall id f, entries dir !! log_file id = Some f -> exists f', entries dir' !! log_file id = Some f'
    /\ (forall n, (forall cut, (id, cut) ∈ cuts -> n <= cut) -> n <= stable f -> n <= stable f')
    /\ (settled dir (log_file id) -> settled dir' (log_file id)).

#[export] Instance flushed_le_preorder cuts : PreOrder (flushed_le cuts).
Proof.
  split.
  - intros dir id f Hf. by exists f.
  - intros a b c Hab Hbc id f Hf. destruct (Hab _ _ Hf) as (f1 & H1 & S1 & U1). destruct (Hbc _ _ H1) as (f2 & H2 & S2 & U2).
    exists f2. split; [done|]. split; auto.
Qed.

Lemma flushed_le_untouched cuts dir dir' : (forall id, untouched dir dir' (log_file id)) -> flushed_le cuts dir dir'.
Proof. intros Hu id f Hf. exists f. destruct (Hu id) as [E U]. rewrite E. split; [done|]. split; [done|]. by apply untouched_settled. Qed.

Lemma flushed_le_subset cuts cuts' dir dir' : cuts ⊆ cuts' -> flushed_le cuts dir dir' -> flushed_le cuts' dir dir'.
Proof.
  intros Hs Hf id f E. destruct (Hf _ _ E) as (f' & E' & S & U). exists f'. split; [done|]. split; [|done]. intros n Hn. apply S. intros cut Hc. by apply Hn, Hs.
Qed.

(** An operation on the handle of a log file. *)
Lemma flushed_le_on_file {A} cuts id (operation : File -> File * Result StorageError A) dir :
  (forall f n, entries dir !! log_file id = Some f -> (forall cut, (id, cut) ∈ cuts -> n <= cut) -> n <= stable f -> n <= stable (operation f).1) ->
  flushed_le cuts dir (on_file (log_file id) operation dir).1.
Proof.
  intros Ho other f Hf. unfold on_file. destruct (entries dir !! log_file id) as [g|] eqn:E; [|by exists f].
  destruct (decide (other = id)) as [->|Hne].
  - rewrite E in Hf. injection Hf as ->. specialize (Ho f). destruct (operation f) as [f' r]. exists f'. cbn. rewrite lookup_insert_eq.
    split; [done|]. split; [|done]. intros n Hn Hs. by apply Ho.
  - destruct (operation g) as [g' r]. exists f. cbn. rewrite lookup_insert_ne by congruence. by split; [|split].
Qed.

Lemma flushed_le_sync cuts id dir : flushed_le cuts dir (on_file (log_file id) sync_file dir).1.
Proof. apply flushed_le_on_file. intros f n _ _ Hn. pose proof (sync_stable f). lia. Qed.

(** A log file is flushed up to [n], and its name is settled. *)
Definition flushed_to (dir : Directory) (id n : Z) : Prop :=
  settled dir (log_file id) /\ forall f, entries dir !! log_file id = Some f -> n <= stable f.

Lemma flushed_to_le cuts dir dir' id n :
  flushed_le cuts dir dir' -> is_Some (entries dir !! log_file id) -> (forall cut, (id, cut) ∈ cuts -> n <= cut) ->
  flushed_to dir id n -> flushed_to dir' id n.
Proof.
  intros Hle [f Hf] Hc [Hs Hn]. destruct (Hle _ _ Hf) as (f' & E & S & U). split; [by apply U|]. intros g Hg. rewrite E in Hg. injection Hg as <-.
  by apply S; [|apply Hn].
Qed.

Lemma flushed_to_weaken dir id n n' : n' <= n -> flushed_to dir id n -> flushed_to dir id n'.
Proof. intros Hle [Hs Hn]. split; [done|]. intros f Hf. specialize (Hn f Hf). lia. Qed.
