(* ===== verification/Log.v ===== *)
(** * Appending and recovering commit groups ([src/src/storage/store/wal.rs])

    [append_wal] frames a group after the durable frontier and writes it;
    [recover_tail] finds the linked groups past the bounds of the selected
    manifest and makes them durable. *)
From stdpp Require Import sorting.
From S2P Require Import Prelude OrdMap Errors Bytes Limits Metadata Wal LogValidation Storage Platform Page Checkpoint Store Directory.

(** ** Updates of a manifest and of a store *)
Definition set_durable (m : Manifest) (sequence : Z) (digest : bytes) : Manifest :=
  {| database_id := database_id m; genesis_digest := genesis_digest m; cursor_namespace := cursor_namespace m;
     generation := generation m; page_file_id := page_file_id m; manifest_page_count := manifest_page_count m;
     manifest_checkpoint_sequence := manifest_checkpoint_sequence m; checkpoint_digest := checkpoint_digest m;
     durable_sequence := sequence; durable_digest := digest;
     history_floor := history_floor m; log_floor := log_floor m; next_cursor_id := next_cursor_id m;
     next_segment_id := next_segment_id m; next_page_file_id := next_page_file_id m;
     manifest_roots := manifest_roots m; segments := segments m |}.
Definition set_segments (m : Manifest) (next_id : Z) (segs : list SegmentDescriptor) : Manifest :=
  {| database_id := database_id m; genesis_digest := genesis_digest m; cursor_namespace := cursor_namespace m;
     generation := generation m; page_file_id := page_file_id m; manifest_page_count := manifest_page_count m;
     manifest_checkpoint_sequence := manifest_checkpoint_sequence m; checkpoint_digest := checkpoint_digest m;
     durable_sequence := durable_sequence m; durable_digest := durable_digest m;
     history_floor := history_floor m; log_floor := log_floor m; next_cursor_id := next_cursor_id m;
     next_segment_id := next_id; next_page_file_id := next_page_file_id m;
     manifest_roots := manifest_roots m; segments := segs |}.

(** [segments.last_mut()] *)
Definition replace_last (segs : list SegmentDescriptor) (segment : SegmentDescriptor) : list SegmentDescriptor :=
  take (length segs - 1) segs ++ [segment].

Definition set_manifest (store : Store) (manifest : Manifest) (rotate : bool) (runtime : option RuntimeValidation) : Store :=
  {| pages := pages store; store_genesis := store_genesis store; store_manifest := manifest;
     selected := selected store; store_roots := store_roots store; store_poisoned := store_poisoned store;
     rotate_next := rotate; read_only := read_only store; runtime := runtime |}.

(** ** Allocation of files ([src/src/storage/maintenance.rs]) *)
Fixpoint allocate_loop (fuel : nat) (name : Z -> Name) (id : Z) : DirM Z :=
  match fuel with
  | O => liftD Panic
  | S fuel =>
      if (id =? 0) || (id =? u64_max) then errD Exhausted else
      do! created := create_new (name id) in
      if created then okD id else allocate_loop fuel name (id + 1)
  end.

(** [allocate]: at most one turn for each file that exists. *)
Definition allocate (store : Store) (name : Z -> Name) (id : Z) : DirM Z := fun dir =>
  (do! _ := liftD (writable store) in allocate_loop (S (size (entries dir))) name id) dir.

Section Log.
Context `{Checksum} `{Sha256}.

(** ** Appending *)
Record Batch : Type := {
  batch_group : list bytes; batch_digests : list bytes; batch_sequence : Z; batch_digest : bytes; batch_length : Z }.

(** One turn of the loop over the records of a group. *)
Definition batch_record (batch : Batch) (record : Z * bytes) : Result StorageError Batch :=
  let '(sequence, data) := record in
  if (len (batch_group batch) =? MAX_GROUP_RECORDS) || (sequence =? u64_max)
     || negb (bool_decide (checked_u64 (batch_sequence batch + 1) = Some sequence))
  then Err (InvalidInput "invalid WAL group sequence or count") else
  let* (consumed, digest) := validate_record data (len data) sequence (batch_digest batch) in
  if negb (consumed =? len data) then Err (InvalidInput "trailing canonical record bytes") else
  let* length := ok_or Exhausted (checked_u64 (batch_length batch + consumed)) in
  Ok {| batch_group := batch_group batch ++ [data]; batch_digests := batch_digests batch ++ [digest];
        batch_sequence := sequence; batch_digest := digest; batch_length := length |}.

Definition batch_of (manifest : Manifest) (records : list (Z * bytes)) : Result StorageError Batch :=
  foldR batch_record
    {| batch_group := []; batch_digests := []; batch_sequence := durable_sequence manifest;
       batch_digest := durable_digest manifest; batch_length := GROUP_OVERHEAD |} records.

Definition batch_header (manifest : Manifest) (batch : Batch) : Result StorageError GroupHeader :=
  let* first := arith_u64 (durable_sequence manifest + 1) in
  Ok {| group_length := batch_length batch; group_first := first; group_count := len (batch_group batch);
        group_predecessor := durable_digest manifest; group_digest := batch_digest batch |}.

(** The new file of a group, its header written, or the active one: the
    segment the group goes to and the manifest that lists it. *)
Definition open_segment (store : Store) (next : Manifest) : DirM (Manifest * SegmentDescriptor) :=
  let manifest := store_manifest store in
  match last (segments next), rotate_next store with
  | Some segment, false =>
      do! data := read_file (log_file (segment_id segment)) in
      do! data := liftD (ok_or Io data) in
      if negb (len data =? committed_bytes segment)
      then errD (Corrupt "active WAL length differs from durable prefix") else
      if negb (committed_bytes segment mod BLOCK_BYTES =? 0) then errD (Corrupt "unaligned active WAL endpoint") else
      okD (next, segment)
  | _, _ =>
      do! id := allocate store log_file (next_segment_id next) in
      do! following := liftD (arith_u64 (id + 1)) in
      do! first := liftD (arith_u64 (durable_sequence manifest + 1)) in
      let segment := {| segment_id := id; first_sequence := first; last_sequence := durable_sequence next;
                        committed_bytes := BLOCK_BYTES; predecessor_digest := durable_digest manifest;
                        last_digest := durable_digest next |} in
      do! header := liftD (segment_header (database_id next) segment) in
      do! _ := on_file (log_file id) (fun file => write_all_at file header 0) in
      okD (set_segments next following (segments next ++ [segment]), segment)
  end.

(** [for bytes in group { platform::write_all_at(..)?; }] *)
Fixpoint write_group (name : Name) (group : list bytes) (offset : Z) : DirM Z :=
  match group with
  | [] => okD offset
  | data :: group =>
      do! _ := on_file name (fun file => write_all_at file data offset) in
      do! offset := liftD (arith_u64 (offset + len data)) in
      write_group name group offset
  end.

(** The writes of a group at [offset]. *)
Definition write_frame (name : Name) (header : bytes) (group : list bytes) (length physical offset : Z) : DirM unit :=
  do! _ := on_file name (fun file => write_all_at file header offset) in
  do! offset := liftD (arith_u64 (offset + len header)) in
  do! offset := write_group name group offset in
  do! trailer := liftD (trailer length (sha256 (header ++ concat group))) in
  do! _ := on_file name (fun file => write_all_at file trailer offset) in
  do! padding := liftD (arith_u64 (physical - length)) in
  if negb (padding =? 0) then
    do! padding := liftD (slice_at (zeros BLOCK_BYTES) 0 padding) in
    do! after := liftD (arith_u64 (offset + TRAILER_BYTES)) in
    on_file name (fun file => write_all_at file padding after)
  else okD tt.

Definition append_files (store : Store) (batch : Batch) : DirM Manifest :=
  let manifest := store_manifest store in
  if bool_decide (batch_group batch = []) then errD (InvalidInput "empty WAL group") else
  do! header := liftD (batch_header manifest batch) in
  do! header := liftD (GroupHeader_encode header) in
  do! physical := liftD (group_bytes (batch_length batch)) in
  do! (next, segment) := open_segment store (set_durable manifest (batch_sequence batch) (batch_digest batch)) in
  let offset := committed_bytes segment in
  do! committed := liftD (ok_or Exhausted (checked_u64 (offset + physical))) in
  let segment := {| segment_id := segment_id segment; first_sequence := first_sequence segment;
                    last_sequence := batch_sequence batch; committed_bytes := committed;
                    predecessor_digest := predecessor_digest segment; last_digest := batch_digest batch |} in
  let next := set_segments next (next_segment_id next) (replace_last (segments next) segment) in
  do! _ := liftD (map_err InvalidInput (validate_manifest next)) in
  let name := log_file (segment_id segment) in
  do! _ := write_frame name header (batch_group batch) (batch_length batch) physical offset in
  do! _ := on_file name sync_file in
  do! _ := if rotate_next store || bool_decide (segments manifest = []) then sync_directory else okD tt in
  okD next.

Definition append_group (store : Store) (records : list (Z * bytes)) : DirM (Store * bytes) :=
  do! batch := liftD (batch_of (store_manifest store) records) in
  do! next := append_files store batch in
  do! runtime :=
    liftD
      match runtime store with
      | Some runtime =>
          let* logs :=
            match runtime_logs runtime with
            | Some proof => committed proof (store_manifest store) next (batch_digests batch)
            | None => Ok None
            end in
          Ok (Some {| live := live runtime; published := published runtime; pending := pending runtime; runtime_logs := logs |})
      | None => Ok None
      end in
  okD (set_manifest store next false runtime, durable_digest next).

Definition append_wal (store : Store) (records : list (Z * bytes)) (dir : Directory)
    : Directory * (Store * Result StorageError bytes) :=
  match writable store with
  | Ok _ =>
      match append_group store records dir with
      | (dir, Ok (store, digest)) => (dir, (store, Ok digest))
      | (dir, Err error) => (dir, (poison store, Err error))
      | (dir, Panic) => (dir, (store, Panic))
      end
  | Err error => (dir, (store, Err error))
  | Panic => (dir, (store, Panic))
  end.

(** ** Recovery *)
Inductive TailRecovery : Type := DiscardInvalid | Strict.
#[export] Instance TailRecovery_eq_dec : EqDecision TailRecovery.
Proof. solve_decision. Defined.

Definition discards (self : TailRecovery) (error : StorageError) : bool :=
  bool_decide (self = DiscardInvalid) && match error with Corrupt _ => true | _ => false end.

(** [found.then_some(segment)] *)
Definition then_some (found : bool) (segment : SegmentDescriptor) : option SegmentDescriptor :=
  if found then Some segment else None.


(** The candidate segment that ends with the group at [offset]. *)
Definition extend (segment : SegmentDescriptor) (header : GroupHeader) (offset physical : Z)
    : Result StorageError SegmentDescriptor :=
  let* committed := arith_u64 (offset + physical) in
  let* following := arith_u64 (group_first header + group_count header) in
  let* last := arith_u64 (following - 1) in
  Ok {| segment_id := segment_id segment; first_sequence := first_sequence segment; last_sequence := last;
        committed_bytes := committed; predecessor_digest := predecessor_digest segment; last_digest := group_digest header |}.

(** The [while offset < length] loop of [scan_tail]: [offset], [sequence] and
    [predecessor] are the end of [segment]. *)
Fixpoint scan_groups (fuel : nat) (file database : bytes) (segment : SegmentDescriptor) (recovery : TailRecovery) (found : bool)
    : Result StorageError (option SegmentDescriptor * bool) :=
  let offset := committed_bytes segment in
  let length := len file in
  if offset <? length then
    match fuel with
    | O => Panic
    | S fuel =>
        if length - offset <? HEADER_BYTES then Ok (then_some found segment, true) else
        let* data := slice_at file offset (offset + HEADER_BYTES) in
        match GroupHeader_decode data with
        | Err error => if discards recovery error then Ok (then_some found segment, true) else Err error
        | Panic => Panic
        | Ok header =>
            let* sequence := arith_u64 (last_sequence segment + 1) in
            if negb (group_first header =? sequence) || negb (bool_decide (group_predecessor header = last_digest segment))
            then Err (Corrupt "WAL suffix sequence or predecessor mismatch") else
            let* physical := group_bytes (group_length header) in
            if physical >? length - offset then Ok (then_some found segment, true) else
            let* candidate := extend segment header offset physical in
            match
              let* records := Records_suffix file database candidate offset sequence (last_digest segment) in
              for_records (fun _ _ => Ok tt) (records_fuel records) tt records
            with
            | Ok _ => scan_groups fuel file database candidate recovery true
            | Err error => if discards recovery error then Ok (then_some found segment, true) else Err error
            | Panic => Panic
            end
        end
    end
  else Ok (then_some found segment, false).

(** A group takes at least one block of the file. *)
Definition scan_fuel (file : bytes) : nat := S (Z.to_nat (len file / BLOCK_BYTES)).

Definition scan_tail (files : Z -> option bytes) (database : bytes) (segment : SegmentDescriptor) (recovery : TailRecovery)
    : Result StorageError (option SegmentDescriptor * bool) :=
  let* file := ok_or Io (files (segment_id segment)) in
  if len file <? committed_bytes segment then Err (Corrupt "truncated selected WAL prefix") else
  let* (header, _) := read_committed file 96 in
  let* _ := validate_segment_header header database segment in
  let* _ := arith_u64 (last_sequence segment + 1) in
  scan_groups (scan_fuel file) file database segment recovery false.

(** [segment_ids]: of a directory that may list its entries in any order. *)
Definition segment_ids (dir : Directory) (floor : Z) : Result StorageError (list Z) :=
  let ids := omap (fun entry => match entry.1 with log_file id => Some id | _ => None end) (map_to_list (entries dir)) in
  let ids := List.filter (fun id => in_u64 id && (floor <=? id) && negb (id =? u64_max)) ids in
  if 1048576 <? len ids then Err Exhausted else Ok (merge_sort Z.le ids).

Record Recovered : Type := {
  recovered : Manifest; incomplete : bool; flush : list (Z * Z); new_files : bool }.

(** The segment a header describes before its groups are read. *)
Definition empty_segment (id first : Z) (predecessor : bytes) (committed : Z) : SegmentDescriptor :=
  {| segment_id := id; first_sequence := first; last_sequence := Z.max 0 (first - 1); committed_bytes := committed;
     predecessor_digest := predecessor; last_digest := predecessor |}.

Definition flushing (state : Recovered) (id bytes : Z) : Recovered :=
  {| recovered := recovered state; incomplete := incomplete state; flush := flush state ++ [(id, bytes)]; new_files := new_files state |}.

(** The end of one turn of the loop over the candidates: the segment found. *)
Definition link_segment (state : Recovered) (found : SegmentDescriptor) (partial : bool) : Result StorageError Recovered :=
  let next := recovered state in
  if incomplete state then Err (Corrupt "unlinked, forked or gapped WAL successor") else
  let* following := arith_u64 (durable_sequence next + 1) in
  if negb (first_sequence found =? following) || negb (bool_decide (predecessor_digest found = durable_digest next))
  then Err (Corrupt "unlinked, forked or gapped WAL successor") else
  let* next_id := arith_u64 (segment_id found + 1) in
  let next := set_segments (set_durable next (last_sequence found) (last_digest found)) next_id (segments next ++ [found]) in
  Ok {| recovered := next; incomplete := partial; flush := flush state ++ [(segment_id found, committed_bytes found)];
        new_files := true |}.

Definition recover_candidate (files : Z -> option bytes) (recovery : TailRecovery) (state : Recovered) (id : Z)
    : Result StorageError Recovered :=
  let database := database_id (recovered state) in
  let* file := ok_or Io (files id) in
  if len file <? SEGMENT_BYTES then Ok state else
  let* (header, rest) := read_committed file 96 in
  let* valid := segment_crc_valid header in
  if negb valid && bool_decide (recovery = DiscardInvalid) then Ok (flushing state id 0) else
  let* first := uint_at header 8 40 in
  let* predecessor := slice_at header 48 80 in
  let* _ := validate_segment_header header database (empty_segment id first predecessor SEGMENT_BYTES) in
  if (first =? 0) || (first =? u64_max) then Err (Corrupt "invalid WAL first sequence") else
  if len file <? BLOCK_BYTES then Ok state else
  match read_padding rest (BLOCK_BYTES - SEGMENT_BYTES) with
  | Err error => if negb (discards recovery error) then Err error else Ok (flushing state id 0)
  | Panic => Panic
  | Ok _ =>
      let* (found, partial) := scan_tail files database (empty_segment id first predecessor BLOCK_BYTES) recovery in
      match found with
      | Some found => link_segment state found partial
      | None => Ok (if partial then flushing state id BLOCK_BYTES else state)
      end
  end.

(** The groups past the last selected segment. *)
Definition recover_active (files : Z -> option bytes) (selected : Manifest) (recovery : TailRecovery) : Result StorageError Recovered :=
  let start := {| recovered := selected; incomplete := false; flush := []; new_files := false |} in
  match last (segments selected) with
  | None => Ok start
  | Some segment =>
      let* (extended, partial) := scan_tail files (database_id selected) segment recovery in
      Ok match extended with
         | Some extended =>
             {| recovered := set_segments (set_durable selected (last_sequence extended) (last_digest extended))
                               (next_segment_id selected) (replace_last (segments selected) extended);
                incomplete := partial; flush := [(segment_id extended, committed_bytes extended)]; new_files := false |}
         | None =>
             {| recovered := selected; incomplete := partial;
                flush := if partial then [(segment_id segment, committed_bytes segment)] else []; new_files := false |}
         end
  end.

Definition flush_segment (entry : Z * Z) : DirM unit :=
  do! _ := on_file (log_file entry.1) (fun file => set_len file entry.2) in
  on_file (log_file entry.1) sync_file.

(** [for (id, bytes) in flush] *)
Fixpoint flush_segments (entries : list (Z * Z)) : DirM unit :=
  match entries with
  | [] => okD tt
  | entry :: entries => do! _ := flush_segment entry in flush_segments entries
  end.

Definition recover_tail (selected : Manifest) (recovery : TailRecovery) : DirM Manifest :=
  do! dir := get_directory in
  let files := log_contents dir in
  do! state := liftD (recover_active files selected recovery) in
  do! candidates := liftD (segment_ids dir (next_segment_id selected)) in
  do! state := liftD (foldR (recover_candidate files recovery) state candidates) in
  do! _ := liftD (map_err Corrupt (validate_manifest (recovered state))) in
  do! _ := flush_segments (flush state) in
  do! _ := if new_files state then sync_directory else okD tt in
  okD (recovered state).
End Log.
