(* ===== verification/Publication.v ===== *)
(** * Creating, opening and publishing a store ([src/src/storage/store.rs])

    The files that select a checkpoint: [GENESIS], the manifests, and [CURRENT],
    which names one of them.  While a store is open its page file is the
    store's [pages]; the directory keeps the entry it was opened from.  The
    lock of the directory and the identity of handles are the operating
    system's: their answers are arguments. *)
From S2P Require Import Prelude OrdMap Errors Bytes Limits Metadata Wal LogValidation Storage Platform Page Tree Checkpoint Store Directory Log.

(** ** The manifests of a publication *)
Definition set_generation (m : Manifest) (generation : Z) : Manifest :=
  {| database_id := database_id m; genesis_digest := genesis_digest m; cursor_namespace := cursor_namespace m;
     generation := generation; page_file_id := page_file_id m; manifest_page_count := manifest_page_count m;
     manifest_checkpoint_sequence := manifest_checkpoint_sequence m; checkpoint_digest := checkpoint_digest m;
     durable_sequence := durable_sequence m; durable_digest := durable_digest m;
     history_floor := history_floor m; log_floor := log_floor m; next_cursor_id := next_cursor_id m;
     next_segment_id := next_segment_id m; next_page_file_id := next_page_file_id m;
     manifest_roots := manifest_roots m; segments := segments m |}.
Definition set_pages_of (m : Manifest) (roots : list Z) (count : Z) : Manifest :=
  {| database_id := database_id m; genesis_digest := genesis_digest m; cursor_namespace := cursor_namespace m;
     generation := generation m; page_file_id := page_file_id m; manifest_page_count := count;
     manifest_checkpoint_sequence := manifest_checkpoint_sequence m; checkpoint_digest := checkpoint_digest m;
     durable_sequence := durable_sequence m; durable_digest := durable_digest m;
     history_floor := history_floor m; log_floor := log_floor m; next_cursor_id := next_cursor_id m;
     next_segment_id := next_segment_id m; next_page_file_id := next_page_file_id m;
     manifest_roots := roots; segments := segments m |}.
Definition set_checkpoint (m : Manifest) (sequence : Z) (digest : bytes) (floor : Z) : Manifest :=
  {| database_id := database_id m; genesis_digest := genesis_digest m; cursor_namespace := cursor_namespace m;
     generation := generation m; page_file_id := page_file_id m; manifest_page_count := manifest_page_count m;
     manifest_checkpoint_sequence := sequence; checkpoint_digest := digest;
     durable_sequence := durable_sequence m; durable_digest := durable_digest m;
     history_floor := floor; log_floor := log_floor m; next_cursor_id := next_cursor_id m;
     next_segment_id := next_segment_id m; next_page_file_id := next_page_file_id m;
     manifest_roots := manifest_roots m; segments := segments m |}.
Definition set_namespace (m : Manifest) (namespace : bytes) (generation : Z) : Manifest :=
  {| database_id := database_id m; genesis_digest := genesis_digest m; cursor_namespace := namespace;
     generation := generation; page_file_id := page_file_id m; manifest_page_count := manifest_page_count m;
     manifest_checkpoint_sequence := manifest_checkpoint_sequence m; checkpoint_digest := checkpoint_digest m;
     durable_sequence := durable_sequence m; durable_digest := durable_digest m;
     history_floor := history_floor m; log_floor := log_floor m; next_cursor_id := next_cursor_id m;
     next_segment_id := next_segment_id m; next_page_file_id := next_page_file_id m;
     manifest_roots := manifest_roots m; segments := segments m |}.
Definition set_page_ids (m : Manifest) (id next_id : Z) : Manifest :=
  {| database_id := database_id m; genesis_digest := genesis_digest m; cursor_namespace := cursor_namespace m;
     generation := generation m; page_file_id := id; manifest_page_count := manifest_page_count m;
     manifest_checkpoint_sequence := manifest_checkpoint_sequence m; checkpoint_digest := checkpoint_digest m;
     durable_sequence := durable_sequence m; durable_digest := durable_digest m;
     history_floor := history_floor m; log_floor := log_floor m; next_cursor_id := next_cursor_id m;
     next_segment_id := next_segment_id m; next_page_file_id := next_id;
     manifest_roots := manifest_roots m; segments := segments m |}.

(** A store whose manifest has been selected. *)
Definition published_store (store : Store) (manifest : Manifest) (roots : list Z) (runtime : option RuntimeValidation) : Store :=
  {| pages := pages store; store_genesis := store_genesis store; store_manifest := manifest; selected := manifest;
     store_roots := roots; store_poisoned := store_poisoned store; rotate_next := rotate_next store;
     read_only := read_only store; runtime := runtime |}.

(** [next_generation]: at most one turn for each file that exists. *)
Fixpoint next_generation_loop (fuel : nat) (generation : Z) : DirM Z :=
  match fuel with
  | O => liftD Panic
  | S fuel =>
      do! generation :=
        liftD (ok_or Exhausted
          match checked_u64 (generation + 1) with
          | Some id => if id =? u64_max then None else Some id
          | None => None
          end) in
      do! taken := exists_name (manifest_file generation) in
      if taken then next_generation_loop fuel generation else okD generation
  end.

Definition next_generation (store : Store) : DirM Z := fun dir =>
  next_generation_loop (S (size (entries dir))) (generation (store_manifest store)) dir.

Section Publication.
Context `{Checksum} `{Sha256}.

(** ** Selecting a manifest *)
(** One turn of the loop of [publish_files] over the segments: whether new
    files are listed. *)
Definition sync_segment (reuse : bool) (old : Manifest) (segment : SegmentDescriptor) (new_files : bool) : DirM bool :=
  let previous := List.find (fun previous => segment_id previous =? segment_id segment) (segments old) in
  do! _ :=
    if negb reuse || negb (bool_decide (previous = Some segment))
    then on_file (log_file (segment_id segment)) sync_file else okD tt in
  okD (new_files || match previous with None => true | Some _ => false end).

Fixpoint sync_segments (reuse : bool) (old : Manifest) (segs : list SegmentDescriptor) (new_files : bool) : DirM bool :=
  match segs with
  | [] => okD new_files
  | segment :: segs =>
      do! new_files := sync_segment reuse old segment new_files in
      sync_segments reuse old segs new_files
  end.

(** The manifest under its own name, then [CURRENT]. *)
Definition select_files (generation : Z) (bytes current : bytes) : DirM unit :=
  do! _ := remove_file manifest_pending in
  do! _ := write_new manifest_pending bytes in
  do! taken := exists_name (manifest_file generation) in
  if taken then errD (InvalidInput "manifest generation already exists") else
  do! _ := rename_file manifest_pending (manifest_file generation) in
  do! _ := sync_directory in
  do! _ := remove_file CURRENT_pending in
  do! _ := write_new CURRENT_pending current in
  do! _ := rename_file CURRENT_pending CURRENT in
  sync_directory.

(** [publish_files] after the flush of the pages *)
Definition publish_metadata (reuse : bool) (old manifest : Manifest) (bytes current : bytes) : DirM unit :=
  do! new_files := sync_segments reuse old (segments manifest) (negb (page_file_id manifest =? page_file_id old)) in
  do! _ := answered in
  do! _ := if negb reuse || new_files then sync_directory else okD tt in
  select_files (generation manifest) bytes current.

(** [publish_files] *)
Definition publish_files (store : Store) (manifest : Manifest) (dir : Directory)
    : Directory * (Store * Result StorageError unit) :=
  match
    (let* bytes := Manifest_encode manifest in
     let* current := Current_encode {| current_generation := generation manifest; current_digest := sha256 bytes |} in
     Ok (bytes, current))
  with
  | Ok (bytes, current) =>
      let old := store_manifest store in
      let reuse := match runtime store with Some _ => true | None => false end in
      let new_pages := negb (page_file_id manifest =? page_file_id old)
                       || negb (manifest_page_count manifest =? manifest_page_count old) in
      let '(file, synced) := if negb reuse || new_pages then sync (pages store) else (pages store, Ok tt) in
      let store := set_pages store file in
      match synced with
      | Ok _ =>
          let '(dir, result) := publish_metadata reuse old manifest bytes current dir in
          (dir, (store, result))
      | failed => (dir, (store, failed))
      end
  | Err error => (dir, (store, Err error))
  | Panic => (dir, (store, Panic))
  end.

(** [if let Err(error) = publish_files(..) { store.poisoned = true; .. }] *)
Definition publish_or_poison (store : Store) (manifest : Manifest) (dir : Directory)
    : Directory * (Store * Result StorageError unit) :=
  match publish_files store manifest dir with
  | (dir, (store, Err error)) => (dir, (poison store, Err error))
  | published => published
  end.

(** [validate_anchors] *)
Definition validate_anchors (files : Z -> option bytes) (old next : Manifest) : Result StorageError unit :=
  let* _ :=
    if durable_sequence next >? durable_sequence old then
      let anchor := set_checkpoint next (durable_sequence old) (durable_digest old)
                      (Z.min (history_floor next) (durable_sequence old)) in
      let* _ := Manifest_encode anchor in
      validate_logs files anchor
    else Ok tt in
  if (manifest_checkpoint_sequence next >? manifest_checkpoint_sequence old)
     && (manifest_checkpoint_sequence next <=? durable_sequence old)
  then validate_logs files (set_checkpoint old (manifest_checkpoint_sequence next) (checkpoint_digest next) (history_floor old))
  else Ok tt.

(** The log proof of a publication: the old one extended, or the whole log
    and both anchors. *)
Definition publication_logs (files : Z -> option bytes) (store : Store) (manifest : Manifest)
    : Result StorageError (option LogValidation) :=
  let old := store_manifest store in
  let* logs :=
    match match runtime store with Some runtime => runtime_logs runtime | None => None end with
    | Some proof => validate_extension files old manifest proof
    | None => Ok None
    end in
  match logs with
  | Some proof => Ok (Some proof)
  | None =>
      let* _ := validate_logs files manifest in
      let* _ := validate_anchors files old manifest in
      at_checkpoint manifest
  end.

(** The manifest that [publish] writes, from the one it is given. *)
Definition completed (store : Store) (checkpoint : PageView) (manifest : Manifest) (generation : Z) : Manifest :=
  let reused := match runtime store with Some _ => true | None => false end
                && bool_decide (view_roots checkpoint = manifest_roots (store_manifest store)) in
  set_pages_of (set_generation manifest generation) (view_roots checkpoint)
    (if reused then manifest_page_count (store_manifest store) else page_count (pages store)).

(** The checks of [publish] before it writes: the manifest, its proofs and its
    log proof.  [owner] is the comparison of the leases and page files of the
    store and the view. *)
Definition check_publication (owner : bool) (store : Store) (checkpoint : PageView) (manifest : Manifest)
    : DirM (Manifest * Proofs * option LogValidation) :=
  do! _ := liftD (writable store) in
  if negb owner then errD (InvalidInput "checkpoint belongs to a different storage owner") else
  do! _ := liftD (validate_transition store manifest) in
  if negb (bool_decide (view_roots checkpoint !! tree_index Cursors = store_roots store !! tree_index Cursors))
  then errD (InvalidInput "checkpoint has stale cursor metadata") else
  do! generation := next_generation store in
  let manifest := completed store checkpoint manifest generation in
  do! _ := liftD (Manifest_encode manifest) in
  do! proofs :=
    liftD (validate (view_reader checkpoint) manifest (store_genesis store)
      (match runtime store with Some _ => validation checkpoint | None => no_proofs end)) in
  do! dir := get_directory in
  do! logs := liftD (publication_logs (log_contents dir) store manifest) in
  okD (manifest, proofs, logs).

(** [publish] *)
Definition publish (owner : bool) (store : Store) (checkpoint : PageView) (manifest : Manifest) (dir : Directory)
    : Directory * (Store * Result StorageError unit) :=
  match check_publication owner store checkpoint manifest dir with
  | (dir, Ok (manifest, proofs, logs)) =>
      match publish_or_poison store manifest dir with
      | (dir, (store, Ok _)) =>
          let runtime :=
            match runtime store with
            | Some runtime =>
                let noted := note_published runtime (store_roots store) manifest proofs in
                Some {| live := live noted; published := published noted; pending := pending noted; runtime_logs := logs |}
            | None => None
            end in
          (dir, (published_store store manifest (store_roots store) runtime, Ok tt))
      | failed => failed
      end
  | (dir, Err error) => (dir, (store, Err error))
  | (dir, Panic) => (dir, (store, Panic))
  end.

(** [renew_namespace] *)
Definition renew_namespace (store : Store) (namespace : bytes) (dir : Directory)
    : Directory * (Store * Result StorageError unit) :=
  match
    (do! _ := liftD (writable store) in
     if bool_decide (namespace = zeros 16) || bool_decide (namespace = cursor_namespace (store_manifest store))
     then errD (InvalidInput "attachment requires a fresh cursor namespace") else
     next_generation store) dir
  with
  | (dir, Ok generation) =>
      let manifest := set_namespace (store_manifest store) namespace generation in
      match publish_or_poison store manifest dir with
      | (dir, (store, Ok _)) => (dir, (published_store store manifest (store_roots store) (runtime store), Ok tt))
      | failed => failed
      end
  | (dir, Err error) => (dir, (store, Err error))
  | (dir, Panic) => (dir, (store, Panic))
  end.

(** ** Handover of the page file *)
(** The checks of [adopt] before it writes.  [lease] compares the leases of
    the store and the view; [same_file] the view's file and the new page file,
    or the store's when there is none. *)
Definition check_adoption (lease same_file : bool) (store : Store) (checkpoint : PageView) (manifest : Manifest)
    (new_pages : option PageFile) (source_roots : list Z) : DirM Manifest :=
  let old := store_manifest store in
  do! _ := liftD (writable store) in
  if negb lease || negb (manifest_checkpoint_sequence manifest =? durable_sequence manifest)
     || negb (manifest_checkpoint_sequence manifest =? manifest_checkpoint_sequence old)
     || negb (bool_decide (source_roots = store_roots store))
  then errD (InvalidInput "handover requires a current drained checkpoint") else
  do! _ := liftD (validate_transition store (set_page_ids manifest (page_file_id old) (next_page_file_id old))) in
  let accepted :=
    match new_pages with
    | Some _ =>
        (next_page_file_id old <=? page_file_id manifest) && negb (page_file_id manifest =? u64_max)
        && (next_page_file_id manifest =? page_file_id manifest + 1) && same_file
    | None =>
        (page_file_id manifest =? page_file_id old) && (next_page_file_id manifest =? next_page_file_id old) && same_file
    end in
  if negb accepted then errD (InvalidInput "invalid page file handover") else
  do! generation := next_generation store in
  let file := match new_pages with Some file => file | None => pages store end in
  let manifest := set_pages_of (set_generation manifest generation) (view_roots checkpoint) (page_count file) in
  do! _ := liftD (Manifest_encode manifest) in
  do! _ := liftD (validate (view_reader checkpoint) manifest (store_genesis store) no_proofs) in
  do! dir := get_directory in
  do! _ := liftD (validate_logs (log_contents dir) manifest) in
  do! _ := liftD (validate_anchors (log_contents dir) old manifest) in
  okD manifest.

(** [adopt] *)
Definition adopt (lease same_file : bool) (store : Store) (checkpoint : PageView) (manifest : Manifest)
    (new_pages : option PageFile) (source_roots : list Z) (dir : Directory)
    : Directory * (Store * Result StorageError unit) :=
  match check_adoption lease same_file store checkpoint manifest new_pages source_roots dir with
  | (dir, Ok manifest) =>
      let '(new_pages, synced) :=
        match new_pages with Some file => let '(file, result) := sync file in (Some file, result) | None => (None, Ok tt) end in
      match synced with
      | Ok _ =>
          match publish_or_poison store manifest dir with
          | (dir, (store, Ok _)) =>
              let store := match new_pages with Some file => set_pages store file | None => store end in
              let runtime := match runtime store with Some _ => Some (RuntimeValidation_new true) | None => None end in
              (dir, (published_store store manifest (manifest_roots manifest) runtime, Ok tt))
          | failed => failed
          end
      | Err error => (dir, (poison store, Err error))
      | Panic => (dir, (store, Panic))
      end
  | (dir, Err error) => (dir, (store, Err error))
  | (dir, Panic) => (dir, (store, Panic))
  end.

(** ** Opening *)
(** [read_bounded] *)
Definition read_bounded (name : Name) (maximum : Z) : DirM bytes :=
  do! data := read_file name in
  do! data := liftD (ok_or (Corrupt "missing authoritative storage file") data) in
  if len data >? maximum then errD (Corrupt "metadata file exceeds its format ceiling") else okD data.

(** The manifest [CURRENT] selects. *)
Definition read_selected : DirM Manifest :=
  do! bytes := read_bounded CURRENT 64 in
  do! current := liftD (Current_decode bytes) in
  do! bytes := read_bounded (manifest_file (current_generation current)) (16 * 1024 * 1024) in
  if negb (bool_decide (sha256 bytes = current_digest current))
  then errD (Corrupt "selected manifest digest mismatch") else
  do! manifest := liftD (Manifest_decode bytes) in
  if negb (generation manifest =? current_generation current)
  then errD (Corrupt "selected manifest generation mismatch") else okD manifest.

Definition read_genesis (manifest : Manifest) : DirM Genesis :=
  do! bytes := read_bounded GENESIS 180 in
  do! genesis := liftD (Genesis_decode bytes) in
  if negb (bool_decide (genesis_database_id genesis = database_id manifest))
     || negb (bool_decide (sha256 bytes = genesis_digest manifest))
  then errD (Corrupt "genesis identity or digest mismatch") else okD genesis.

(** The page file, taken out of the directory by its handle. *)
Definition open_pages (manifest : Manifest) : DirM PageFile := fun dir =>
  (dir,
   let* file := ok_or (Corrupt "missing authoritative storage file") (entries dir !! pages_file (page_file_id manifest)) in
   open file (database_id manifest) (page_file_id manifest) (manifest_page_count manifest)).

(** The part of [open_directory] that reads: the manifest, the genesis and the
    validated page file. *)
Definition load (manifest : Manifest) : DirM (Genesis * PageFile) :=
  do! genesis := read_genesis manifest in
  do! pages := open_pages manifest in
  do! _ := liftD (validate (reader pages) manifest genesis no_proofs) in
  do! dir := get_directory in
  do! _ := liftD (validate_logs (log_contents dir) manifest) in
  okD (genesis, pages).

(** [open_directory]; [lease] is the answer to the lock. *)
Definition open_directory (lease : Result StorageError unit) (attaching : bool) (recovery : TailRecovery) : DirM Store :=
  do! _ := liftD lease in
  do! attach := exists_name ATTACH_REQUIRED in
  if negb attaching && attach then errD AttachRequired else
  do! read_only := exists_name READ_ONLY in
  do! chosen := read_selected in
  do! (genesis, pages) := load chosen in
  do! manifest := recover_tail chosen recovery in
  let '(pages, truncated) := truncate_tail pages in
  do! _ := liftD truncated in
  do! _ :=
    match last (segments manifest) with
    | Some segment => on_file (log_file (segment_id segment)) (fun file => set_len file (committed_bytes segment))
    | None => okD tt
    end in
  okD {| pages := pages; store_genesis := genesis; store_manifest := manifest; selected := chosen;
         store_roots := manifest_roots manifest; store_poisoned := false; rotate_next := true; read_only := read_only;
         runtime := None |}.

(** [open_with_recovery] and [open] *)
Definition open_with_recovery (lease : Result StorageError unit) (recovery : TailRecovery) : DirM Store :=
  open_directory lease false recovery.
Definition open_default (lease : Result StorageError unit) : DirM Store := open_with_recovery lease DiscardInvalid.

(** ** Creation *)
(** The page file of a new store and the root of its policy tree. *)
Definition create_pages (genesis : Genesis) (file : File) : Result StorageError (PageFile * Z) :=
  let* pages := snd (Page.create file (genesis_database_id genesis) 1) in
  let '(pages, root) := put Policy 0 (be_bytes 8 0) (LimitPolicy_encode (initial_policy genesis)) pages in
  let* root := root in
  Ok (pages, root).

Definition first_manifest (genesis : Genesis) (digest namespace : bytes) (count policy_root : Z) : Manifest :=
  {| database_id := genesis_database_id genesis; genesis_digest := digest; cursor_namespace := namespace;
     generation := 1; page_file_id := 1; manifest_page_count := count;
     manifest_checkpoint_sequence := 0; checkpoint_digest := digest; durable_sequence := 0; durable_digest := digest;
     history_floor := 0; log_floor := 1; next_cursor_id := 1; next_segment_id := 1; next_page_file_id := 2;
     manifest_roots := [0; 0; policy_root; 0; 0]; segments := [] |}.

(** [create], in the empty directory it makes.  A store that could not be
    published is dropped. *)
Definition create (lease : Result StorageError unit) (genesis : Genesis) (namespace : bytes) : DirM Store :=
  do! bytes := liftD (Genesis_encode genesis) in
  if bool_decide (namespace = zeros 16) then errD (InvalidInput "zero cursor namespace") else
  do! _ := answered in
  do! _ := sync_directory in
  do! _ := liftD lease in
  do! _ := write_new GENESIS bytes in
  do! created := create_new (pages_file 1) in
  if negb created then errD Io else
  do! dir := get_directory in
  do! file := liftD (expect (entries dir !! pages_file 1)) in
  do! (pages, policy_root) := liftD (create_pages genesis file) in
  let manifest := first_manifest genesis (sha256 bytes) namespace (page_count pages) policy_root in
  let store :=
    {| pages := pages; store_genesis := genesis; store_manifest := manifest; selected := manifest;
       store_roots := manifest_roots manifest; store_poisoned := false; rotate_next := false; read_only := false;
       runtime := None |} in
  fun dir =>
    match publish_files store manifest dir with
    | (dir, (store, Ok _)) => (dir, Ok store)
    | (dir, (_, Err error)) => (dir, Err error)
    | (dir, (_, Panic)) => (dir, Panic)
    end.
End Publication.
