(* ===== verification/LogAppend.v ===== *)
(** * Appending a commit group

    An append writes only past the end of every file it finds: on success the
    log of the next manifest is the old log and the group; on failure the old
    log is intact and the store is poisoned. *)
From S2P Require Import Prelude OrdMap Errors Bytes Limits Metadata MetadataFacts Wal WalFacts LogFacts LogChains LogValidation Storage Platform Page Checkpoint Store Directory Log.

(** ** Effects on the directory *)

(** Every file is still there, with what it held. *)
Definition grows (dir dir' : Directory) : Prop :=
  forall name file, entries dir !! name = Some file ->
  exists file', entries dir' !! name = Some file' /\ contents file `prefix_of` contents file'.

#[export] Instance grows_preorder : PreOrder grows.
Proof.
  split.
  - intros dir name file Hf. by exists file.
  - intros a b c Hab Hbc name file Hf. destruct (Hab _ _ Hf) as (f1 & H1 & P1). destruct (Hbc _ _ H1) as (f2 & H2 & P2).
    exists f2. split; [done|]. by etrans.
Qed.

Lemma grows_entries dir dir' : entries dir' = entries dir -> grows dir dir'.
Proof. intros E name file Hf. exists file. by rewrite E. Qed.

Lemma grows_insert dir dir' name file :
  entries dir' = <[name := file]> (entries dir) ->
  (forall old, entries dir !! name = Some old -> contents old `prefix_of` contents file) -> grows dir dir'.
Proof.
  intros E Hp other f Hf. rewrite E. destruct (decide (other = name)) as [->|Hne].
  - exists file. rewrite lookup_insert_eq. split; [done|]. by apply Hp.
  - exists f. by rewrite lookup_insert_ne.
Qed.

(** [m] does not panic, only grows files, and establishes [Q] when it succeeds. *)
Definition runsD {A} (m : DirM A) (dir : Directory) (Q : Directory -> A -> Prop) : Prop :=
  match m dir with
  | (dir', Ok a) => grows dir dir' /\ Q dir' a
  | (dir', Err _) => grows dir dir'
  | (_, Panic) => False
  end.

Lemma runsD_bind {A B} (m : DirM A) (k : A -> DirM B) dir (Q : Directory -> B -> Prop) :
  runsD m dir (fun dir' a => runsD (k a) dir' Q) -> runsD (bindD m k) dir Q.
Proof.
  unfold runsD, bindD. destruct (m dir) as [dir1 [a|error|]]; [|done..]. intros [Hg Hk].
  destruct (k a dir1) as [dir2 [b|error|]]; [|by etrans|done]. destruct Hk as [Hg2 HQ]. split; [by etrans|done].
Qed.

Lemma runsD_mono {A} (m : DirM A) dir (Q Q' : Directory -> A -> Prop) :
  (forall dir' a, Q dir' a -> Q' dir' a) -> runsD m dir Q -> runsD m dir Q'.
Proof. intros HQ. unfold runsD. destruct (m dir) as [dir1 [a|error|]]; naive_solver. Qed.

Lemma runsD_lift {A} (r : Result StorageError A) dir (Q : Directory -> A -> Prop) :
  no_panic r -> (forall a, r = Ok a -> Q dir a) -> runsD (liftD r) dir Q.
Proof. intros Hr HQ. unfold runsD, liftD. destruct r; [|done..]. split; [done|]. by apply HQ. Qed.

Lemma runsD_ok {A} (a : A) dir (Q : Directory -> A -> Prop) : Q dir a -> runsD (okD a) dir Q.
Proof. intros HQ. apply runsD_lift; [done|]. by intros ? [= <-]. Qed.

Lemma runsD_err {A} error dir (Q : Directory -> A -> Prop) : runsD (errD error) dir Q.
Proof. by apply runsD_lift. Qed.

Lemma runsD_answered dir (Q : Directory -> unit -> Prop) :
  (forall dir', entries dir' = entries dir -> Q dir' tt) -> runsD answered dir Q.
Proof.
  intros HQ. unfold runsD, answered. destruct (directory_answers dir) as [|[]]; [|..|by apply grows_entries];
    (split; [by apply grows_entries|by apply HQ]).
Qed.

Lemma runsD_sync_directory dir (Q : Directory -> unit -> Prop) :
  (forall dir', entries dir' = entries dir -> Q dir' tt) -> runsD sync_directory dir Q.
Proof. intros HQ. apply runsD_bind, runsD_answered. intros dir1 E. split; [by apply grows_entries|]. by apply HQ. Qed.

Lemma runsD_create name dir (Q : Directory -> bool -> Prop) :
  (forall dir' old, entries dir' = entries dir -> entries dir !! name = Some old -> Q dir' false) ->
  (forall dir' file, entries dir !! name = None -> contents file = [] ->
     entries dir' = <[name := file]> (entries dir) -> Q dir' true) ->
  runsD (create_new name) dir Q.
Proof.
  intros H1 H2. apply runsD_bind, runsD_answered. intros dir1 E. unfold runsD. rewrite E.
  destruct (entries dir !! name) as [old|] eqn:Hn; [split; [done|by eapply H1]|].
  destruct (fresh dir1) as [|r rest];
    (split; [eapply grows_insert; [by rewrite E|by rewrite E, Hn]|eapply H2; [done| |reflexivity]; done]).
Qed.

Lemma runsD_read name dir (Q : Directory -> option bytes -> Prop) :
  Q dir (contents <$> entries dir !! name) -> runsD (read_file name) dir Q.
Proof. intros HQ. by split. Qed.

(** A write at the end of a file. *)
Lemma overwrite_end data field : overwrite data (len data) field = data ++ field.
Proof.
  destruct field as [|b field]; [by rewrite app_nil_r|]. rewrite overwrite_nonempty by done. rewrite Z.sub_diag. change (zeros 0) with (@nil byte).
  rewrite app_nil_r. rewrite take_ge by (unfold len; lia). f_equal. rewrite drop_ge; [by rewrite app_nil_r|].
  unfold len. simpl. lia.
Qed.

Lemma keeps_prefix data data' : keeps (len data) data data' -> data `prefix_of` data'.
Proof.
  unfold keeps. intros Ht. exists (drop (Z.to_nat (len data)) data'). rewrite (take_ge data) in Ht by (unfold len; lia). rewrite <-Ht at 1. by rewrite take_drop.
Qed.

Lemma write_end_prefix file field offset :
  offset = len (contents file) -> contents file `prefix_of` contents (fst (write_all_at file field offset)).
Proof. intros ->. apply keeps_prefix, write_all_at_keeps; lia. Qed.

Lemma runsD_write name file field offset dir (Q : Directory -> unit -> Prop) :
  entries dir !! name = Some file -> offset = len (contents file) ->
  (forall dir' file', contents file' = contents file ++ field -> entries dir' = <[name := file']> (entries dir) -> Q dir' tt) ->
  runsD (on_file name (fun file => write_all_at file field offset)) dir Q.
Proof.
  intros Hf Ho HQ. unfold runsD, on_file. rewrite Hf. pose proof (write_end_prefix file field offset Ho) as Hp.
  destruct (write_all_at file field offset) as [file' [[]|error|]] eqn:Hw; cbn [fst] in Hp.
  - split; [eapply grows_insert; [done|]; rewrite Hf; intros ? [= <-]; done|]. apply HQ with file'; [|done].
    apply write_all_at_ok in Hw; [|subst; apply len_nonneg]. rewrite Hw, Ho. apply overwrite_end.
  - eapply grows_insert; [done|]. rewrite Hf. by intros ? [= <-].
  - pose proof (write_all_at_result file field offset) as Hr. rewrite Hw in Hr. by destruct Hr.
Qed.

Lemma runsD_sync name file dir (Q : Directory -> unit -> Prop) :
  entries dir !! name = Some file ->
  (forall dir' file', contents file' = contents file -> entries dir' = <[name := file']> (entries dir) -> Q dir' tt) ->
  runsD (on_file name sync_file) dir Q.
Proof.
  intros Hf HQ. unfold runsD, on_file. rewrite Hf. pose proof (sync_contents file) as Hc. pose proof (sync_no_panic file) as Hnp.
  destruct (sync_file file) as [file' [[]|error|]]; cbn [fst snd] in *; [|..|done].
  - split; [eapply grows_insert; [done|]; rewrite Hf, Hc; by intros ? [= <-]|]. by eapply HQ.
  - eapply grows_insert; [done|]. rewrite Hf, Hc. by intros ? [= <-].
Qed.

Section LogAppend.
Context `{Checksum} `{Sha256}.

(** ** Writing a group *)
Lemma runsD_group name group : forall file offset dir (Q : Directory -> Z -> Prop),
  entries dir !! name = Some file -> offset = len (contents file) -> offset + len (concat group) <= u64_max ->
  (forall dir' file', contents file' = contents file ++ concat group -> entries dir' = <[name := file']> (entries dir) ->
     Q dir' (offset + len (concat group))) ->
  runsD (write_group name group offset) dir Q.
Proof.
  induction group as [|data group IH]; intros file offset dir Q Hf Ho Hmax HQ; cbn [write_group concat] in *.
  - apply runsD_ok. rewrite len_nil, Z.add_0_r in HQ. apply HQ with file; [by rewrite app_nil_r|by rewrite insert_id].
  - rewrite len_app in *. pose proof (len_nonneg data). pose proof (len_nonneg (concat group)). pose proof (len_nonneg (contents file)).
    apply runsD_bind, runsD_write with file; [done..|]. intros dir1 file1 Hc1 He1.
    rewrite arith_u64_ok by lia. apply runsD_bind, runsD_lift; [done|]. intros ? [= <-].
    apply IH with file1; [by rewrite He1, lookup_insert_eq|rewrite Hc1, len_app; lia|lia|].
    intros dir2 file2 Hc2 He2. rewrite <-Z.add_assoc. apply HQ with file2; [by rewrite Hc2, Hc1, <-app_assoc|].
    by rewrite He2, He1, insert_insert_eq.
Qed.

Lemma runsD_frame name header group length offset file dir (Q : Directory -> unit -> Prop) :
  entries dir !! name = Some file -> offset = len (contents file) ->
  len header + len (concat group) + TRAILER_BYTES = length -> offset + padded length <= u64_max ->
  (forall dir' file', contents file' = contents file ++ header ++ concat group ++ group_end length (header ++ concat group) ->
     entries dir' = <[name := file']> (entries dir) -> Q dir' tt) ->
  runsD (write_frame name header group length (padded length) offset) dir Q.
Proof.
  intros Hf Ho Hlen Hmax HQ. unfold write_frame. pose proof (len_nonneg header). pose proof (len_nonneg (concat group)).
  unfold TRAILER_BYTES in *. pose proof (padded_bounds length ltac:(lia)) as Hp. pose proof (len_nonneg (contents file)).
  apply runsD_bind, runsD_write with file; [done..|]. intros dir1 file1 Hc1 He1.
  rewrite arith_u64_ok by lia. apply runsD_bind, runsD_lift; [done|]. intros ? [= <-].
  apply runsD_bind, runsD_group with file1; [by rewrite He1, lookup_insert_eq|rewrite Hc1, len_app; lia|lia|]. intros dir2 file2 Hc2 He2.
  rewrite trailer_eq by apply sha256_len. apply runsD_bind, runsD_lift; [done|]. intros ? [= <-].
  set (t := trailer_image _ _) in *. assert (len t = 56) as Ht by apply len_trailer_image, sha256_len.
  apply runsD_bind, runsD_write with file2; [by rewrite He2, lookup_insert_eq|rewrite Hc2, Hc1, !len_app; lia|]. intros dir3 file3 Hc3 He3.
  rewrite arith_u64_ok by lia. apply runsD_bind, runsD_lift; [done|]. intros ? [= <-].
  assert (entries dir3 = <[name := file3]> (entries dir)) as E3 by by rewrite He3, He2, He1, !insert_insert_eq.
  assert (contents file3 = contents file ++ header ++ concat group ++ t) as C3 by by rewrite Hc3, Hc2, Hc1, <-!app_assoc.
  unfold group_end in HQ. fold t in HQ. destruct (Z.eqb_spec (padded length - length) 0) as [E|Hne]; cbn [negb].
  - apply runsD_ok, HQ with file3; [|done]. rewrite C3, E. change (zeros 0) with (@nil byte). by rewrite app_nil_r.
  - assert (slice_at (E:=StorageError) (zeros BLOCK_BYTES) 0 (padded length - length) = Ok (zeros (padded length - length))) as Hz.
    { rewrite (zeros_split (padded length - length) BLOCK_BYTES) by lia. apply slice_at_here; [done|]. by rewrite len_zeros by lia. }
    rewrite Hz. apply runsD_bind, runsD_lift; [done|]. intros ? [= <-].
    unfold TRAILER_BYTES. rewrite arith_u64_ok by lia. apply runsD_bind, runsD_lift; [done|]. intros ? [= <-].
    apply runsD_write with file3; [by rewrite E3, lookup_insert_eq|rewrite C3, !len_app; lia|]. intros dir4 file4 Hc4 He4.
    apply HQ with file4; [rewrite Hc4, C3; by rewrite <-!app_assoc|]. by rewrite He4, E3, insert_insert_eq.
Qed.

(** ** The batch *)
Definition batch_ok (m : Manifest) (records : list (Z * bytes)) (b : Batch) : Prop :=
  batch_group b = map snd records
  /\ batch_sequence b = durable_sequence m + len records
  /\ (0 < len records -> batch_sequence b < u64_max)
  /\ len records <= MAX_GROUP_RECORDS
  /\ records_chain (durable_sequence m + 1) (durable_digest m) (map snd records) (batch_digest b)
  /\ batch_digests b = map (fun r => sha256 r.2) records
  /\ batch_length b = GROUP_OVERHEAD + len (concat (map snd records))
  /\ batch_length b <= u64_max /\ len (batch_digest b) = 32.

Lemma validate_whole data sequence predecessor digest consumed :
  is_u64 sequence -> len predecessor = 32 -> validate_record data (len data) sequence predecessor = Ok (consumed, digest) ->
  consumed = len data -> canonical sequence predecessor data /\ digest = sha256 data.
Proof.
  intros Hs Hp Hv Hc. apply validate_record_inv in Hv as (kind & body & rest & Hd & Hn & _ & Hok & ->); [|done..].
  assert (rest = []) as ->.
  { apply (f_equal len) in Hd. rewrite len_app, len_record_image in Hd by done. destruct rest; [done|]. rewrite len_cons in Hd.
    pose proof (len_nonneg rest). lia. }
  rewrite app_nil_r in Hd. subst data. split; [by exists kind, body|done].
Qed.

Lemma records_chain_snoc rs : forall s p d r,
  records_chain s p rs d -> canonical (s + len rs) d r -> records_chain s p (rs ++ [r]) (sha256 r).
Proof. intros s p d r Hc Hr. eapply records_chain_app; [exact Hc|]. by split. Qed.

Lemma batch_record_ok m done b record b' :
  batch_ok m done b -> 0 <= durable_sequence m -> batch_record b record = Ok b' -> batch_ok m (done ++ [record]) b'.
Proof.
  intros (Hg & Hs & Hlt & Hcount & Hch & Hd & Hl & Hmax & H32) Hm Hb. destruct record as [sequence data]. unfold batch_record in Hb.
  step_if Hb eqn E. apply orb_false_iff in E as [E E3]. apply orb_false_iff in E as [E1 E2]. apply negb_false_iff, bool_decide_eq_true_1 in E3.
  apply checked_u64_Some in E3 as [-> E3]. rewrite Hg in E1. assert (len (map snd done) = len done) as Hld by (unfold len; by rewrite length_map).
  rewrite Hld in E1. apply Z.eqb_neq in E1, E2. step_ok Hb as [consumed digest] eqn Hv. cbn [fst snd] in Hb. step_if Hb eqn Ec. apply negb_false_iff, Z.eqb_eq in Ec.
  apply validate_whole in Hv as [Hcan ->]; [|unfold is_u64, u64_max in *; change (256 ^ 8) with 18446744073709551616; lia|done|done].
  step_ok Hb as length eqn Hlen. apply ok_or_ok, checked_u64_Some in Hlen as [-> Hlen]. apply ok_inj in Hb as <-.
  pose proof (len_nonneg done). unfold batch_ok. cbn. rewrite !map_app, len_app. cbn [map]. change (len [(batch_sequence b + 1, data)]) with 1.
  split; [by rewrite Hg|]. split; [lia|]. split; [unfold u64_max in *; lia|]. split; [lia|].
  split; [eapply records_chain_snoc; [exact Hch|]; rewrite Hld; replace (durable_sequence m + 1 + len done) with (batch_sequence b + 1) by lia; done|].
  split; [by rewrite Hd|]. split; [rewrite concat_app, len_app; cbn [concat snd]; rewrite app_nil_r; lia|]. split; [lia|apply sha256_len].
Qed.

Lemma batch_of_ok m records b :
  manifest_typed m -> batch_of m records = Ok b -> batch_ok m records b.
Proof.
  intros T. unfold batch_of. pose proof (typed_durable _ T) as [Hm _].
  assert (forall todo done b0, batch_ok m done b0 -> foldR batch_record b0 todo = Ok b -> batch_ok m (done ++ todo) b) as Hfold.
  { induction todo as [|r todo IH]; intros done b0 Hok Hf; cbn [foldR] in Hf; [apply ok_inj in Hf as <-; by rewrite app_nil_r|].
    step_ok Hf as b1 eqn Hb. change (r :: todo) with ([r] ++ todo). rewrite app_assoc. eapply IH; [by eapply batch_record_ok|done]. }
  apply (Hfold records []). unfold batch_ok. cbn [batch_group batch_sequence batch_digest batch_digests batch_length].
  cbn [map concat]. rewrite len_nil. cbn. pose proof (typed_durable_digest _ T). rewrite Z.add_0_r. unfold GROUP_OVERHEAD, u64_max, MAX_GROUP_RECORDS. repeat split; (done || lia).
Qed.

Lemma batch_record_no_panic b record : no_panic (batch_record b record).
Proof.
  destruct record as [sequence data]. unfold batch_record. destruct (_ || _); [done|]. apply bindR_no_panic; [apply validate_record_no_panic|].
  intros [consumed digest] _. destruct (negb _); [done|]. apply bindR_no_panic; [apply ok_or_no_panic|done].
Qed.

Lemma batch_of_no_panic m records : no_panic (batch_of m records).
Proof.
  unfold batch_of. set (b := Build_Batch _ _ _ _ _). clearbody b. revert b. induction records as [|r records IH]; intros b; [done|].
  cbn [foldR]. apply bindR_no_panic; [apply batch_record_no_panic|]. intros b' _. apply IH.
Qed.

(** ** Allocation *)
Lemma taken_names (dir : Directory) (name : Z -> Name) start n :
  (forall a b, name a = name b -> a = b) ->
  (forall j, start <= j < start + Z.of_nat n -> is_Some (entries dir !! name j)) -> (n <= size (entries dir))%nat.
Proof.
  intros Hinj Htaken. rewrite <-size_dom. set (names := name <$> seqZ start (Z.of_nat n)).
  assert (length names = n) as Hl by (unfold names; rewrite length_fmap, length_seqZ; lia).
  assert (NoDup names) as Hnd by (apply NoDup_fmap_2; [intros a b; apply Hinj|apply NoDup_seqZ]).
  rewrite <-Hl, <-(size_list_to_set (C:=gset Name) names) by done. apply subseteq_size. intros x Hx. apply elem_of_list_to_set in Hx.
  apply list_elem_of_fmap in Hx as (j & -> & Hj%elem_of_seqZ). apply elem_of_dom, Htaken. lia.
Qed.

Lemma runsD_allocate_loop fuel name start : forall id dir (Q : Directory -> Z -> Prop),
  (forall a b, name a = name b -> a = b) -> start <= id -> 0 <= start -> id <= u64_max ->
  (forall j, start <= j < id -> is_Some (entries dir !! name j)) ->
  (size (entries dir) < fuel + Z.to_nat (id - start))%nat ->
  (forall dir' id' file, start <= id' < u64_max -> 0 < id' -> entries dir !! name id' = None -> contents file = [] ->
     entries dir' = <[name id' := file]> (entries dir) -> Q dir' id') ->
  runsD (allocate_loop fuel name id) dir Q.
Proof.
  induction fuel as [|fuel IH]; intros id dir Q Hinj Hid Hstart Hmax Htaken Hfuel HQ; cbn [allocate_loop].
  - exfalso. pose proof (taken_names dir name start (Z.to_nat (id - start)) Hinj) as Hn. rewrite Z2Nat.id in Hn by lia.
    replace (start + (id - start)) with id in Hn by lia. specialize (Hn Htaken). lia.
  - destruct (Z.eqb_spec id 0) as [->|Hz]; [apply runsD_err|]. destruct (Z.eqb_spec id u64_max); [apply runsD_err|]. cbn [orb].
    apply runsD_bind, runsD_create.
    + intros dir' old He Hold. apply IH; try done; [lia|lia| |rewrite He; lia|].
      * intros j Hj. rewrite He. destruct (decide (j = id)) as [->|Hne]; [by rewrite Hold|]. apply Htaken. lia.
      * intros dir2 id' file Hr Hp Hn Hc He2. rewrite He in Hn, He2. by eapply HQ.
    + intros dir' file Hn Hc He. apply runsD_ok. eapply HQ; [lia|lia|done..].
Qed.

Lemma runsD_allocate store name id dir (Q : Directory -> Z -> Prop) :
  (forall a b, name a = name b -> a = b) -> is_u64 id ->
  (forall dir' id' file, id <= id' < u64_max -> 0 < id' -> entries dir !! name id' = None -> contents file = [] ->
     entries dir' = <[name id' := file]> (entries dir) -> Q dir' id') ->
  runsD (allocate store name id) dir Q.
Proof.
  intros Hinj Hid HQ. unfold is_u64 in Hid. change (256 ^ 8) with 18446744073709551616 in Hid. unfold allocate.
  apply runsD_bind, runsD_lift; [unfold writable; by destruct (store_poisoned store)|]. intros _ _.
  apply runsD_allocate_loop with id; try done; [lia|unfold u64_max; lia|lia|lia].
Qed.

(** ** The segment a group goes to *)

(** [seg] is where the next group of [store] goes, and [file] is its file:
    the active segment, or a new one with its header written. *)
Definition opened (m next : Manifest) (dir dir' : Directory) (next' : Manifest) (seg : SegmentDescriptor) (file : File) : Prop :=
  entries dir' !! log_file (segment_id seg) = Some file /\ len (contents file) = committed_bytes seg
  /\ ((exists before, segments next = before ++ [seg] /\ next' = next /\ dir' = dir)
      \/ (next' = set_segments next (segment_id seg + 1) (segments next ++ [seg])
          /\ entries dir !! log_file (segment_id seg) = None /\ entries dir' = <[log_file (segment_id seg) := file]> (entries dir)
          /\ contents file = segment_image (database_id m) seg ++ zeros (BLOCK_BYTES - SEGMENT_BYTES)
          /\ committed_bytes seg = BLOCK_BYTES /\ first_sequence seg = durable_sequence m + 1
          /\ predecessor_digest seg = durable_digest m /\ next_segment_id m <= segment_id seg < u64_max)).

Lemma runsD_new_segment store next dir (Q : Directory -> Manifest * SegmentDescriptor -> Prop) :
  let m := store_manifest store in
  manifest_typed m -> 0 <= durable_sequence m < u64_max -> len (durable_digest next) = 32 -> database_id next = database_id m ->
  next_segment_id next = next_segment_id m ->
  (forall dir' next' seg file, opened m next dir dir' next' seg file -> Q dir' (next', seg)) ->
  runsD (do! id := allocate store log_file (next_segment_id next) in
    do! following := liftD (arith_u64 (id + 1)) in
    do! first := liftD (arith_u64 (durable_sequence m + 1)) in
    let segment := {| segment_id := id; first_sequence := first; last_sequence := durable_sequence next;
                      committed_bytes := BLOCK_BYTES; predecessor_digest := durable_digest m; last_digest := durable_digest next |} in
    do! header := liftD (segment_header (database_id next) segment) in
    do! _ := on_file (log_file id) (fun file => write_all_at file header 0) in
    okD (set_segments next following (segments next ++ [segment]), segment)) dir Q.
Proof.
  intros m T Hd Hdig Hdb Hid HQ. pose proof (typed_next_segment _ T) as Hn.
  apply runsD_bind, runsD_allocate; [by intros a b [= ->]|by rewrite Hid|]. rewrite Hid. intros dir1 id file Hr Hpos Hnone Hc He.
  unfold is_u64 in Hn. rewrite arith_u64_ok by lia. apply runsD_bind, runsD_lift; [done|]. intros ? [= <-].
  rewrite arith_u64_ok by (unfold u64_max in *; lia). apply runsD_bind, runsD_lift; [done|]. intros ? [= <-]. cbv zeta. rewrite Hdb.
  set (seg := Build_SegmentDescriptor _ _ _ _ _ _). pose proof (typed_database _ T) as Hdb16. pose proof (typed_durable_digest _ T) as Hdd.
  rewrite segment_header_eq by done. apply runsD_bind, runsD_lift; [done|]. intros ? [= <-].
  apply runsD_bind, runsD_write with file; [by rewrite He, lookup_insert_eq|by rewrite Hc|]. intros dir2 file2 Hc2 He2. rewrite Hc in Hc2. change (contents file2 = segment_image (database_id m) seg ++ zeros (BLOCK_BYTES - SEGMENT_BYTES)) in Hc2.
  apply runsD_ok. apply HQ with file2. unfold opened. assert (entries dir2 = <[log_file id := file2]> (entries dir)) as E by by rewrite He2, He, insert_insert_eq.
  split; [by rewrite E, lookup_insert_eq|]. split; [rewrite Hc2, len_app, len_segment_image, len_zeros by done; done|].
  right. do 7 (split; [done|]). exact Hr.
Qed.

Lemma runsD_open store next dir (Q : Directory -> Manifest * SegmentDescriptor -> Prop) :
  let m := store_manifest store in
  manifest_typed m -> 0 <= durable_sequence m < u64_max -> len (durable_digest next) = 32 -> database_id next = database_id m ->
  next_segment_id next = next_segment_id m ->
  (forall dir' next' seg file, opened m next dir dir' next' seg file -> Q dir' (next', seg)) ->
  runsD (open_segment store next) dir Q.
Proof.
  intros m T Hd Hdig Hdb Hid HQ. unfold open_segment. destruct (last (segments next)) as [seg|] eqn:Hlast; [|by apply runsD_new_segment].
  destruct (rotate_next store); [by apply runsD_new_segment|]. apply last_Some in Hlast as [before Hseg].
  apply runsD_bind, runsD_read. destruct (entries dir !! log_file (segment_id seg)) as [file|] eqn:Hf; cbn [fmap option_fmap option_map ok_or].
  - apply runsD_bind, runsD_lift; [done|]. intros ? [= <-]. destruct (Z.eqb_spec (len (contents file)) (committed_bytes seg)) as [Hl|]; [|apply runsD_err].
    cbn [negb]. destruct (negb _); [apply runsD_err|]. apply runsD_ok, HQ with file. split; [done|]. split; [done|]. left. by exists before.
  - apply runsD_bind. by apply runsD_lift.
Qed.

(** ** The files of an append *)
Definition appended_segment (seg : SegmentDescriptor) (b : Batch) : SegmentDescriptor :=
  {| segment_id := segment_id seg; first_sequence := first_sequence seg; last_sequence := batch_sequence b;
     committed_bytes := committed_bytes seg + padded (batch_length b);
     predecessor_digest := predecessor_digest seg; last_digest := batch_digest b |}.

Definition batch_group_header (m : Manifest) (b : Batch) : GroupHeader :=
  {| group_length := batch_length b; group_first := durable_sequence m + 1; group_count := len (batch_group b);
     group_predecessor := durable_digest m; group_digest := batch_digest b |}.

Definition appended (m : Manifest) (b : Batch) (dir dir' : Directory) (next : Manifest) : Prop :=
  let opened_next := set_durable m (batch_sequence b) (batch_digest b) in
  exists dir1 next1 seg file file', opened m opened_next dir dir1 next1 seg file
    /\ next = set_segments next1 (next_segment_id next1) (replace_last (segments next1) (appended_segment seg b))
    /\ validate_manifest next = Ok tt /\ committed_bytes seg + padded (batch_length b) <= u64_max
    /\ group_ok (durable_sequence m + 1) (durable_digest m) (batch_group_header m b, batch_group b)
    /\ contents file' = contents file ++ group_image (batch_group_header m b, batch_group b)
    /\ entries dir' = <[log_file (segment_id seg) := file']> (entries dir1).

Lemma batch_group_ok m records b :
  manifest_typed m -> batch_ok m records b -> records <> [] -> valid_group (batch_group_header m b) = true ->
  group_ok (durable_sequence m + 1) (durable_digest m) (batch_group_header m b, batch_group b).
Proof.
  intros T (Hg & Hs & Hlt & Hcount & Hch & Hd & Hl & Hmax & H32) Hne V. pose proof (typed_durable _ T) as Hdur.
  assert (len (map snd records) = len records) as Hmap by (unfold len; by rewrite length_map).
  assert (0 < len records) as Hpos by (destruct records; [done|]; rewrite len_cons; pose proof (len_nonneg records); lia). specialize (Hlt Hpos).
  pose proof (len_nonneg (concat (map snd records))). unfold is_u64, u64_max, MAX_GROUP_RECORDS, GROUP_OVERHEAD in *.
  split; cbn [fst snd batch_group_header group_length group_first group_count group_predecessor group_digest]; try done; [|by rewrite Hg|by rewrite Hg].
  split; cbn; unfold is_u64; change (256 ^ 8) with 18446744073709551616 in *; change (256 ^ 4) with 4294967296; try lia;
    [rewrite Hg, Hmap; lia|apply T].
Qed.

(** ** The next manifest *)
Lemma validate_link_no_panic m state segment :
  descriptor_typed segment -> 0 <= manifest_checkpoint_sequence m < u64_max -> no_panic (validate_link m state segment).
Proof.
  intros T Hc. destruct state as [[next previous] predecessor]. unfold validate_link.
  apply bindR_no_panic; [by apply validate_descriptor_no_panic|]. intros [] Hv. apply validate_descriptor_inv in Hv as (Hs & Hl & _); [|done].
  destruct (_ || _); [done|]. destruct (negb _); [done|]. destruct predecessor as [p|]; [destruct (negb _); [done|]|].
  all: rewrite arith_u64_ok by lia; cbn [bindR]; destruct (_ || _); [done|]; rewrite arith_u64_ok by lia; done.
Qed.

Lemma validate_manifest_no_panic m : manifest_typed m -> no_panic (validate_manifest m).
Proof.
  intros T. unfold validate_manifest. destruct (_ >? _); [done|]. do 4 (destruct (_ || _); [done|]).
  apply bindR_no_panic.
  { pose proof (typed_roots _ T) as Hr. destruct (manifest_roots m) as [|r0 [|r1 [|r2 rs]]]; done. }
  intros root _. destruct (_ || _); [done|]. destruct (shared_root _ _); [done|]. destruct (_ || _) eqn:E; [done|].
  apply orb_false_iff in E as [E E3]. apply orb_false_iff in E as [E1 E2]. apply Z.eqb_neq in E1. rewrite Z.gtb_ltb in E3. apply Z.ltb_ge in E3.
  pose proof (typed_checkpoint _ T) as [Hc0 _]. pose proof (typed_durable _ T) as [_ Hd]. change (256 ^ 8) with 18446744073709551616 in Hd.
  assert (0 <= manifest_checkpoint_sequence m < u64_max) as Hc by (unfold u64_max in *; lia).
  rewrite arith_u64_ok by lia. cbn [bindR]. destruct (_ || _); [done|]. destruct (_ || _); [done|].
  unfold validate_links. rewrite arith_u64_ok by (unfold u64_max in *; lia). cbn [bindR]. destruct (bool_decide _); [by destruct (_ || _)|].
  rewrite arith_u64_ok by lia. cbn [bindR]. apply bindR_no_panic; [|intros [[? ?] ?] _; by destruct (_ || _)].
  generalize (log_floor m, 0, if log_floor m =? 1 then Some (genesis_digest m) else if log_floor m =? manifest_checkpoint_sequence m + 1 then Some (checkpoint_digest m) else None).
  induction (typed_segments _ T) as [|s segs Hs _ IH]; intros state; [done|]. cbn [foldR].
  apply bindR_no_panic; [by apply validate_link_no_panic|]. intros state' _. apply IH.
Qed.

Lemma manifest_typed_log m sequence digest id segs :
  manifest_typed m -> is_u64 sequence -> len digest = 32 -> is_u64 id -> Forall descriptor_typed segs ->
  manifest_typed (set_segments (set_durable m sequence digest) id segs).
Proof. intros [] ? ? ? ?. by split. Qed.

(** The segments before the one a group goes to, and that one. *)
Lemma opened_segments m b dir dir' next seg file :
  opened m (set_durable m (batch_sequence b) (batch_digest b)) dir dir' next seg file ->
  exists before, segments next = before ++ [seg]
    /\ (forall id segs, set_segments next id segs = set_segments (set_durable m (batch_sequence b) (batch_digest b)) id segs)
    /\ ((segments m = before ++ [seg] /\ next_segment_id next = next_segment_id m /\ dir' = dir)
        \/ (segments m = before /\ next_segment_id next = segment_id seg + 1
            /\ entries dir !! log_file (segment_id seg) = None /\ entries dir' = <[log_file (segment_id seg) := file]> (entries dir)
            /\ contents file = segment_image (database_id m) seg ++ zeros (BLOCK_BYTES - SEGMENT_BYTES)
            /\ committed_bytes seg = BLOCK_BYTES /\ first_sequence seg = durable_sequence m + 1
            /\ predecessor_digest seg = durable_digest m /\ next_segment_id m <= segment_id seg < u64_max)).
Proof.
  intros (_ & _ & [(before & Hb & -> & ->)|(-> & Hrest)]).
  - exists before. split; [done|]. split; [done|]. by left.
  - exists (segments m). split; [done|]. split; [done|]. right. split; [done|]. split; [done|]. exact Hrest.
Qed.

Lemma replace_last_app before seg seg' : replace_last (before ++ [seg]) seg' = before ++ [seg'].
Proof. unfold replace_last. rewrite length_app. cbn. by rewrite Nat.add_sub, take_app_length. Qed.

Lemma next_typed m records b dir dir' next seg file :
  manifest_typed m -> batch_ok m records b -> records <> [] ->
  opened m (set_durable m (batch_sequence b) (batch_digest b)) dir dir' next seg file ->
  0 <= padded (batch_length b) -> committed_bytes seg + padded (batch_length b) <= u64_max ->
  manifest_typed (set_segments next (next_segment_id next) (replace_last (segments next) (appended_segment seg b))).
Proof.
  intros T (Hg & Hs & Hlt & Hcount & _ & _ & Hl & Hmax & H32) Hne Hop Hpad Hcom.
  destruct (opened_segments _ _ _ _ _ _ _ Hop) as (before & Hseg & Hset & Hcase). rewrite Hseg, replace_last_app, Hset.
  assert (0 < len records) as Hpos by (destruct records; [done|]; rewrite len_cons; pose proof (len_nonneg records); lia). specialize (Hlt Hpos).
  pose proof (typed_durable _ T) as Hdur. pose proof (typed_next_segment _ T) as Hns. unfold is_u64, u64_max in *. change (256 ^ 8) with 18446744073709551616 in *.
  assert (is_u64 (batch_sequence b)) as Hbs by (unfold is_u64; change (256 ^ 8) with 18446744073709551616; lia).
  pose proof (typed_segments _ T) as Hts. apply manifest_typed_log; [done|done|done|..].
  - unfold is_u64. change (256 ^ 8) with 18446744073709551616. destruct Hcase as [(_ & -> & _)|(_ & -> & _ & _ & _ & _ & _ & _ & Hr)]; lia.
  - apply Forall_app. destruct Hcase as [(Hm & _)|(Hm & _ & _ & _ & _ & Hc & Hfirst & Hpre & Hrange)].
    + rewrite Hm in Hts. apply Forall_app in Hts as [Hts1 Hts2]. split; [done|]. apply Forall_cons_1 in Hts2 as [[] _]. constructor; [|constructor].
      split; cbn; try done. unfold is_u64 in *. change (256 ^ 8) with 18446744073709551616 in *. lia.
    + rewrite <-Hm. split; [done|]. constructor; [|constructor].
      split; cbn; try done; [|rewrite Hfirst| |rewrite Hpre; apply T]; unfold is_u64 in *; change (256 ^ 8) with 18446744073709551616 in *; try lia.
      rewrite Hc in *. unfold BLOCK_BYTES in *. lia.
Qed.

Lemma runsD_append store batch records dir (Q : Directory -> Manifest -> Prop) :
  let m := store_manifest store in
  manifest_typed m -> batch_ok m records batch ->
  (forall dir' next, records <> [] -> appended m batch dir dir' next -> Q dir' next) -> runsD (append_files store batch) dir Q.
Proof.
  intros m T B HQ. pose proof (typed_durable _ T) as Hdur. pose proof B as (Hg & Hs & Hlt & Hcount & _ & _ & Hl & Hmax & H32).
  unfold append_files. fold m. destruct (bool_decide_reflect (batch_group batch = [])) as [|Hne]; [apply runsD_err|].
  assert (records <> []) as Hne' by (intros ->; by rewrite Hg in Hne). specialize (HQ) with (1 := Hne').
  assert (0 < len records) as Hpos by (destruct records; [done|]; rewrite len_cons; pose proof (len_nonneg records); lia). specialize (Hlt Hpos).
  unfold is_u64 in Hdur. assert (0 <= durable_sequence m < u64_max) as Hdm by lia.
  unfold batch_header. rewrite arith_u64_ok by (unfold u64_max in *; lia). cbn [bindR]. fold (batch_group_header m batch).
  apply runsD_bind, runsD_lift; [done|]. intros ? [= <-].
  assert (group_typed (batch_group_header m batch)) as GT.
  { assert (len (map snd records) = len records) as Hmap by (unfold len; by rewrite length_map). pose proof (len_nonneg (concat (map snd records))).
    unfold u64_max, MAX_GROUP_RECORDS, GROUP_OVERHEAD in *. split; cbn; unfold is_u64; change (256 ^ 8) with 18446744073709551616 in *;
      change (256 ^ 4) with 4294967296; try lia; [rewrite Hg, Hmap; lia|apply T]. }
  rewrite group_encode_image by done. destruct (valid_group (batch_group_header m batch)) eqn:V; cbn [negb]; [|apply runsD_bind; by apply runsD_lift].
  apply runsD_bind, runsD_lift; [done|]. intros ? [= <-]. pose proof (batch_group_ok _ _ _ T B Hne' V) as GOK.
  pose proof (valid_padded _ V) as [Hpad Hbig]. change (2 ^ 33) with 8589934592 in Hbig. cbn [batch_group_header group_length] in Hpad, Hbig.
  rewrite (proj2 (group_bytes_ok _ _)) by (split; [done|unfold u64_max; lia]). apply runsD_bind, runsD_lift; [done|]. intros ? [= <-].
  apply runsD_bind, runsD_open; [done|done|done|done|done|]. fold m. intros dir1 next1 seg file Hop.
  apply runsD_bind, runsD_lift; [apply ok_or_no_panic|]. intros committed Hcom. apply ok_or_ok, checked_u64_Some in Hcom as [-> Hcom].
  fold (appended_segment seg batch). set (next := set_segments next1 _ _). apply runsD_bind, runsD_lift.
  { apply map_err_no_panic, validate_manifest_no_panic. by eapply next_typed; [..|exact Hop|lia|lia]. }
  intros [] Hv. apply map_err_ok in Hv.
  pose proof Hop as (Hf & Hlen & _). apply runsD_bind, runsD_frame with file; [exact Hf|by rewrite Hlen| |lia|].
  { rewrite len_header_image by done. unfold TRAILER_BYTES, GROUP_OVERHEAD in *. rewrite Hg. lia. }
  intros dir2 file2 Hc2 He2. apply runsD_bind, runsD_sync with file2; [by rewrite He2, lookup_insert_eq|]. intros dir3 file3 Hc3 He3.
  assert (appended m batch dir dir3 next) as Happ.
  { exists dir1, next1, seg, file, file3. split; [done|]. split; [done|]. split; [done|]. split; [lia|]. split; [done|].
    split; [by rewrite Hc3, Hc2|]. by rewrite He3, He2, insert_insert_eq. }
  apply runsD_bind. destruct (_ || _).
  - apply runsD_sync_directory. intros dir4 He4. apply runsD_ok, HQ. destruct Happ as (d1 & n1 & sg & fl & fl' & P1 & P2 & P3 & P4 & P5 & P6 & P7).
    exists d1, n1, sg, fl, fl'. by rewrite He4.
  - by apply runsD_ok, runsD_ok, HQ.
Qed.

(** ** The log after an append *)

(** The records of the log of [m] in the files of a directory. *)
Definition log_records (dir : Directory) (m : Manifest) (rs : list bytes) : Prop := log_of (log_contents dir) m rs.

Lemma segment_holds_mono file file' database s rs :
  file `prefix_of` file' -> segment_holds file database s rs -> segment_holds file' database s rs.
Proof.
  intros [more ->] (gs & rest & -> & Hc & Hgs & ->). exists gs, (rest ++ more). rewrite <-!app_assoc. done.
Qed.

Lemma grows_log dir dir' m next s rs :
  grows dir dir' -> database_id next = database_id m -> manifest_checkpoint_sequence next = manifest_checkpoint_sequence m ->
  checkpoint_digest next = checkpoint_digest m ->
  log_holds (log_contents dir) m s rs -> log_holds (log_contents dir') next s rs.
Proof.
  intros Hg Hdb Hcs Hcd (file & Hf & Hh & Ha). unfold log_contents in Hf. destruct (entries dir !! _) as [f|] eqn:E; [|done]. injection Hf as <-.
  destruct (Hg _ _ E) as (f' & E' & Hp). exists (contents f'). unfold log_contents. rewrite E', Hdb. split; [done|].
  split; [by eapply segment_holds_mono|]. eapply Forall_impl; [exact Ha|]. intros r. unfold agrees. by rewrite Hcs, Hcd.
Qed.

Lemma segments_chain_last before seg : forall s p s' p',
  segments_chain s p (before ++ [seg]) s' p' -> s' = last_sequence seg + 1 /\ p' = last_digest seg.
Proof. induction before as [|x before IH]; intros s p s' p'; cbn; [tauto|]. intros (_ & _ & Hc). by eapply IH. Qed.

Lemma groups_chain_snoc gs g : forall s p s' p',
  groups_chain s p gs s' p' -> group_ok s' p' g -> groups_chain s p (gs ++ [g]) (s' + len (snd g)) (group_digest (fst g)).
Proof.
  induction gs as [|g0 gs IH]; intros s p s' p'; cbn [groups_chain app].
  - by intros [-> ->].
  - intros [Hg0 Hc] Hg. split; [done|]. by eapply IH.
Qed.

Lemma records_of_sequences rs : forall s, Forall (fun r => s <= record_sequence r < s + len rs) (records_of s rs).
Proof.
  induction rs as [|r rs IH]; intros s; [constructor|]. cbn [records_of]. rewrite len_cons. pose proof (len_nonneg rs).
  constructor; [cbn; lia|]. eapply Forall_impl; [apply IH|]. cbn. lia.
Qed.

Lemma manifest_frontiers m : validate_manifest m = Ok tt -> manifest_checkpoint_sequence m <= durable_sequence m.
Proof.
  unfold validate_manifest. intros Hv. step_if Hv. do 4 step_if Hv. step_ok Hv as policy eqn Hp. do 2 step_if Hv. step_if Hv eqn E.
  apply orb_false_iff in E as [_ E]. rewrite Z.gtb_ltb in E. by apply Z.ltb_ge in E.
Qed.

(** The file of the segment holds the group after what it held. *)
Lemma segment_appended file database seg rs b m :
  segment_holds (contents file) database seg rs -> len (contents file) = committed_bytes seg ->
  len database = 16 -> len (predecessor_digest seg) = 32 ->
  last_sequence seg = durable_sequence m -> last_digest seg = durable_digest m ->
  group_ok (durable_sequence m + 1) (durable_digest m) (batch_group_header m b, batch_group b) ->
  batch_sequence b = durable_sequence m + len (batch_group b) ->
  segment_holds (contents file ++ group_image (batch_group_header m b, batch_group b)) database (appended_segment seg b) (rs ++ batch_group b).
Proof.
  intros (gs & rest & Hfile & Hc & Hgs & ->) Hlen Hdb Hpre Hls Hld Hg Hseq.
  assert (rest = []) as ->.
  { rewrite Hfile, !len_app, len_segment_image, len_zeros in Hlen by done. destruct rest; [done|]. rewrite len_cons in Hlen.
    pose proof (len_nonneg rest). unfold BLOCK_BYTES, SEGMENT_BYTES, SEGMENT_HEADER_LENGTH in *. lia. }
  exists (gs ++ [(batch_group_header m b, batch_group b)]), []. rewrite map_app, !concat_app. cbn [map concat appended_segment committed_bytes first_sequence predecessor_digest last_sequence last_digest].
  rewrite !app_nil_r. split; [rewrite Hfile, app_nil_r, <-!app_assoc; done|]. split.
  - rewrite len_app, (len_group_image _ _ _ Hg). cbn [fst batch_group_header group_length]. lia.
  - rewrite Hls, Hld in Hgs. apply groups_chain_snoc with (g := (batch_group_header m b, batch_group b)) in Hgs; [|done].
    cbn [fst snd batch_group_header group_digest] in Hgs. split; [|by rewrite map_app, concat_app; cbn; rewrite app_nil_r]. rewrite Hseq.
    replace (durable_sequence m + len (batch_group b) + 1) with (durable_sequence m + 1 + len (batch_group b)) by lia. exact Hgs.
Qed.

Lemma agrees_above next s rs : manifest_checkpoint_sequence next < s -> Forall (agrees next) (records_of s rs).
Proof. intros Hs. eapply Forall_impl; [apply records_of_sequences|]. intros r [Hr _] E. lia. Qed.

(** The segment a group goes to holds the group's records after its own. *)
Lemma opened_holds m b dir dir1 next seg file rss :
  manifest_typed m -> validate_manifest m = Ok tt -> Forall2 (log_holds (log_contents dir) m) (segments m) rss ->
  group_ok (durable_sequence m + 1) (durable_digest m) (batch_group_header m b, batch_group b) ->
  batch_sequence b = durable_sequence m + len (batch_group b) ->
  opened m (set_durable m (batch_sequence b) (batch_digest b)) dir dir1 next seg file ->
  exists before rss0 rs, segments next = before ++ [seg] /\ Forall2 (log_holds (log_contents dir) m) before rss0
    /\ concat rss = concat rss0 ++ rs /\ Forall (agrees m) (records_of (first_sequence seg) rs)
    /\ first_sequence seg + len rs = durable_sequence m + 1
    /\ segment_holds (contents file ++ group_image (batch_group_header m b, batch_group b)) (database_id m)
         (appended_segment seg b) (rs ++ batch_group b).
Proof.
  intros T Hv Hh Hg Hs Hop. pose proof Hop as (Hf & Hlen & _). pose proof (typed_database _ T) as Hdb. pose proof (typed_segments _ T) as Hts.
  destruct (opened_segments _ _ _ _ _ _ _ Hop) as (before & Hseg & _ & [(Hm & _ & ->)|(Hm & _ & _ & _ & Hc & Hcom & Hfirst & Hpre & _)]).
  - assert (segments m <> []) as Hne by (rewrite Hm; by destruct before). destruct (manifest_chain _ Hv Hne) as (p & Hchain & _).
    rewrite Hm in Hchain, Hh, Hts. apply segments_chain_last in Hchain as [E1 E2]. apply Forall_app in Hts as [_ Hts]. apply Forall_cons_1 in Hts as [Td _].
    apply Forall2_app_inv_l in Hh as (rss0 & rss1 & H0' & H1 & ->). inversion H1 as [|? rs ? ? Hrs Hnil]; subst. inversion Hnil; subst.
    destruct Hrs as (data & Hdata & Hholds & Hagree). unfold log_contents in Hdata. rewrite Hf in Hdata. injection Hdata as <-.
    exists before, rss0, rs. split; [done|]. split; [done|]. split; [rewrite concat_app; cbn; by rewrite app_nil_r|]. split; [done|].
    pose proof (segment_chain _ _ _ _ Hholds) as [_ He]. split; [lia|]. apply segment_appended; try done; [apply Td|lia].
  - exists before, rss, []. rewrite <-Hm. split; [by rewrite Hm|]. split; [done|]. split; [by rewrite app_nil_r|]. split; [constructor|].
    split; [rewrite len_nil; lia|].
    set (seg0 := {| segment_id := segment_id seg; first_sequence := first_sequence seg; last_sequence := durable_sequence m;
                    committed_bytes := committed_bytes seg; predecessor_digest := predecessor_digest seg; last_digest := durable_digest m |}).
    change (appended_segment seg b) with (appended_segment seg0 b).
    apply segment_appended; try done; [|cbn; rewrite Hpre; apply T].
    exists [], []. cbn [map concat seg0 committed_bytes first_sequence predecessor_digest last_sequence last_digest app]. rewrite !app_nil_r, len_nil.
    split; [exact Hc|]. split; [lia|]. split; [|done]. split; [lia|done].
Qed.

Lemma appended_logs m records b dir dir' next rs :
  manifest_typed m -> batch_ok m records b -> records <> [] -> validate_manifest m = Ok tt ->
  log_records dir m rs -> grows dir dir' -> appended m b dir dir' next ->
  manifest_typed next /\ validate_logs (log_contents dir') next = Ok tt /\ log_records dir' next (rs ++ map snd records)
    /\ durable_sequence next = durable_sequence m + len records /\ durable_digest next = batch_digest b
    /\ log_floor next = log_floor m /\ manifest_checkpoint_sequence next = manifest_checkpoint_sequence m.
Proof.
  intros T B Hne Hv (rss & Hrss & ->) Hgrow (dir1 & next1 & seg & file & file' & Hop & -> & Hvn & Hcom & Hg & Hc & He).
  pose proof B as (Hgr & Hs & _). assert (len (map snd records) = len records) as Hmap by (unfold len; by rewrite length_map).
  rewrite <-Hgr in Hmap. pose proof (ok_valid _ _ _ Hg) as V. pose proof (valid_padded _ V) as [Hpad _]. cbn [fst batch_group_header group_length] in Hpad.
  pose proof (next_typed _ _ _ _ _ _ _ _ T B Hne Hop ltac:(lia) Hcom) as TN.
  destruct (opened_holds _ _ _ _ _ _ _ _ T Hv Hrss Hg ltac:(lia) Hop) as (before & rss0 & rs & Hseg & H2 & Hcat & Hag & Hfirst & Hholds).
  destruct (opened_segments _ _ _ _ _ _ _ Hop) as (before' & Hseg' & Hset & _). rewrite Hseg in Hseg'. apply app_inj_tail in Hseg' as [<- _].
  rewrite Hseg, replace_last_app in *. rewrite Hset in *. set (next := set_segments _ _ _) in *.
  assert (Forall2 (log_holds (log_contents dir') next) (segments next) (rss0 ++ [rs ++ batch_group b])) as Hall.
  { cbn [segments set_segments next]. apply Forall2_app.
    - eapply Forall2_impl; [exact H2|]. intros s r. by apply grows_log.
    - constructor; [|constructor]. exists (contents file'). unfold log_contents. rewrite He. cbn [segment_id appended_segment].
      rewrite lookup_insert_eq. split; [done|]. rewrite Hc. split; [exact Hholds|]. rewrite records_of_app. apply Forall_app. split; [done|].
      cbn [first_sequence appended_segment]. rewrite Hfirst. apply agrees_above. cbn. apply manifest_frontiers in Hv. lia. }
  split; [done|]. split.
  - apply validate_logs_iff; [done|]. split; [done|]. apply Forall_lookup. intros i s Hi.
    destruct (Forall2_lookup_l _ _ _ _ _ Hall Hi) as (r & _ & Hr). by exists r.
  - split; [|by cbn; rewrite Hs]. exists (rss0 ++ [rs ++ batch_group b]). split; [done|]. rewrite concat_app. cbn. rewrite app_nil_r, Hcat, <-Hgr, <-app_assoc. done.
Qed.

Lemma log_records_valid dir m rs : manifest_typed m -> validate_manifest m = Ok tt -> log_records dir m rs -> validate_logs (log_contents dir) m = Ok tt.
Proof.
  intros T Hv (rss & H2 & _). apply validate_logs_iff; [done|]. split; [done|]. apply Forall_lookup. intros i s Hi.
  destruct (Forall2_lookup_l _ _ _ _ _ H2 Hi) as (r & _ & Hr). by exists r.
Qed.

Lemma grows_records dir dir' m rs : grows dir dir' -> log_records dir m rs -> log_records dir' m rs.
Proof. intros Hg (rss & H2 & ->). exists rss. split; [|done]. eapply Forall2_impl; [exact H2|]. intros s r. by apply grows_log. Qed.

(** The bookkeeping of the owner after an append. *)
Definition runtime_appended (m next : Manifest) (records : list bytes) (rt rt' : option RuntimeValidation) : Prop :=
  match rt, rt' with
  | Some v, Some v' =>
      live v' = live v /\ published v' = published v /\ pending v' = pending v
      /\ forall proof', runtime_logs v' = Some proof' -> exists proof, runtime_logs v = Some proof
           /\ committed proof m next (map sha256 records) = Ok (Some proof')
  | None, None => True
  | _, _ => False
  end.

(** What an append leaves behind. *)
Definition append_result (store : Store) (records : list (Z * bytes)) (rs : list bytes) (dir dir' : Directory) (store' : Store) : Prop :=
  let m := store_manifest store in
  let next := store_manifest store' in
  manifest_typed next /\ validate_manifest next = Ok tt /\ log_records dir' next (rs ++ map snd records)
  /\ durable_sequence next = durable_sequence m + len records /\ log_floor next = log_floor m
  /\ manifest_checkpoint_sequence next = manifest_checkpoint_sequence m
  /\ store' = set_manifest store next false (runtime store')
  /\ runtime_appended m next (map snd records) (runtime store) (runtime store')
  /\ exists b, batch_ok m records b /\ appended m b dir dir' next.

Lemma appended_typed m records b dir dir' next :
  manifest_typed m -> batch_ok m records b -> records <> [] -> appended m b dir dir' next ->
  manifest_typed next /\ validate_manifest next = Ok tt.
Proof.
  intros T B Hne (d1 & next1 & seg & file & file' & Hop & -> & Hvn & Hcom & Hg & _). split; [|done].
  pose proof (valid_padded _ (ok_valid _ _ _ Hg)) as [Hpad _]. cbn [fst batch_group_header group_length] in Hpad.
  by eapply next_typed; [..|exact Hop|lia|].
Qed.

Lemma append_group_spec store records dir rs :
  let m := store_manifest store in
  manifest_typed m -> validate_manifest m = Ok tt -> log_records dir m rs ->
  runsD (append_group store records) dir (fun dir' result =>
    grows dir dir' -> append_result store records rs dir dir' result.1 /\ result.2 = durable_digest (store_manifest result.1)).
Proof.
  intros m T Hv Hrs. unfold append_group. apply runsD_bind, runsD_lift; [apply batch_of_no_panic|]. intros b Hb. apply batch_of_ok in Hb as B; [|done].
  apply runsD_bind, runsD_append with records; [done|done|]. intros dir1 next Hne Happ.
  destruct (appended_typed _ _ _ _ _ _ T B Hne Happ) as [TN Hvn].
  assert (manifest_checkpoint_sequence next <= durable_sequence next <= u64_max /\ 0 <= manifest_checkpoint_sequence next) as Hfr.
  { pose proof (manifest_frontiers _ Hvn). pose proof (typed_durable _ TN) as Hd. pose proof (typed_checkpoint _ TN) as Hk.
    unfold is_u64, u64_max in *. change (256 ^ 8) with 18446744073709551616 in *. lia. }
  assert (batch_digests b = map sha256 (map snd records)) as Hdig by (rewrite map_map; apply B).
  assert (forall rt, runtime_appended m next (map snd records) (runtime store) rt ->
    (grows dir dir1 -> append_result store records rs dir dir1 (set_manifest store next false rt) /\ durable_digest next = durable_digest next)) as Hdone.
  { intros rt Hrt Hg. split; [|done]. fold m in Happ. destruct (appended_logs _ _ _ _ _ _ _ T B Hne Hv Hrs Hg Happ) as (_ & _ & Hr & Hd & _ & Hfl & Hck).
    unfold append_result. cbn. do 8 (split; [done|]). by exists b. }
  apply runsD_bind, runsD_lift.
  - destruct (runtime store) as [rt|]; [|done]. apply bindR_no_panic; [|done]. destruct (runtime_logs rt) as [proof|]; [|done].
    unfold committed. destruct (negb _); [done|]. rewrite arith_u64_ok by lia. cbn [bindR]. by destruct (_ >? _).
  - intros rt Hrt. apply runsD_ok. cbn. apply Hdone. unfold runtime_appended. rewrite <-Hdig. destruct (runtime store) as [v|]; [|by apply ok_inj in Hrt as <-].
    step_ok Hrt as logs eqn Hlogs. apply ok_inj in Hrt as <-. cbn. do 3 (split; [done|]). intros proof' ->. destruct (runtime_logs v) as [proof|]; [|done]. by exists proof.
Qed.

(** An append extends the log by its records, or poisons the store and leaves
    the log as it was. *)
Lemma append_wal_spec store records dir rs :
  let m := store_manifest store in
  manifest_typed m -> validate_manifest m = Ok tt -> log_records dir m rs ->
  let '(dir', (store', result)) := append_wal store records dir in
  grows dir dir' /\ log_records dir' m rs
  /\ match result with
     | Ok digest => append_result store records rs dir dir' store' /\ digest = durable_digest (store_manifest store')
     | Err error => store' = poison store
     | Panic => False
     end.
Proof.
  intros m T Hv Hrs. unfold append_wal, writable. destruct (store_poisoned store) eqn:Hp.
  - split; [done|]. split; [done|]. destruct store; cbn in *. by subst.
  - pose proof (append_group_spec store records dir rs T Hv Hrs) as Hspec. unfold runsD in Hspec.
    destruct (append_group store records dir) as [dir' [[store' digest]|error|]]; [|by split; [|split; [eapply grows_records|]]|done].
    destruct Hspec as [Hg Hspec]. destruct (Hspec Hg) as [Hres Hd]. cbn in Hres, Hd. split; [done|]. split; [by eapply grows_records|done].
Qed.
End LogAppend.
