(* ===== verification/LogRecovery.v ===== *)
(** * Recovering the log's tail

    What the scan of a segment finds continues its chain, and every group an
    append acknowledged is found again. *)
From stdpp Require Import sorting.
From Stdlib Require Import Sorted.
From S2P Require Import Prelude OrdMap Errors Bytes Limits Metadata MetadataFacts Wal WalFacts LogFacts LogChains LogValidation Storage Platform Page Checkpoint Store Directory Log LogAppend.

Section LogRecovery.
Context `{Checksum} `{Sha256}.

(** ** The size of a chain *)
Lemma group_padded_max h :
  valid_group h = true -> padded (group_length h) <= group_count h * (MAX_RECORD_BYTES + BLOCK_BYTES).
Proof.
  intros V. pose proof (valid_padded _ V) as [Hpad _]. apply valid_group_inv in V as (Hc & _ & _ & Hl).
  pose proof (padded_bounds (group_length h) ltac:(unfold GROUP_OVERHEAD in *; lia)) as Hb. pose proof (padded_mod (group_length h)) as Hm.
  unfold MAX_RECORD_BYTES, GROUP_OVERHEAD, BLOCK_BYTES, MAX_GROUP_RECORDS in *.
  pose proof (Z.div_mod (padded (group_length h)) 4096 ltac:(lia)) as Hd. rewrite Hm in Hd. nia.
Qed.

Lemma chain_sizes gs : forall s p s' p',
  groups_chain s p gs s' p' ->
  let n := len (concat (map snd gs)) in
  let size := len (concat (map group_image gs)) in
  size mod BLOCK_BYTES = 0 /\ n <= MAX_GROUP_RECORDS * len gs
  /\ 72 * n + GROUP_OVERHEAD * len gs <= size <= n * (MAX_RECORD_BYTES + BLOCK_BYTES).
Proof.
  induction gs as [|g gs IH]; intros s p s' p'; [done|].
  intros [Hg Hgs]. destruct (IH _ _ _ _ Hgs) as (H1 & H2 & H3 & H4). cbn zeta. cbn [map concat]. rewrite !len_app, len_cons.
  rewrite (len_group_image _ _ _ Hg). pose proof (ok_valid _ _ _ Hg) as V. pose proof (group_padded_max _ V) as Hmax. pose proof (valid_padded _ V) as [Hpad _].
  apply valid_group_inv in V as (Hc & _ & _ & Hl). rewrite (ok_count _ _ _ Hg) in *. pose proof (padded_mod (group_length g.1)) as Hm.
  split; [rewrite Z.add_mod, Hm, H1 by done; done|]. unfold MAX_GROUP_RECORDS, GROUP_OVERHEAD, MAX_RECORD_BYTES, BLOCK_BYTES in *. lia.
Qed.

Lemma padded_least n size : 0 <= n <= size -> size mod BLOCK_BYTES = 0 -> padded n <= size.
Proof.
  intros Hn Hm. pose proof (padded_bounds n ltac:(lia)) as Hb. pose proof (padded_mod n) as Hp. unfold BLOCK_BYTES in *.
  pose proof (Z.div_mod (padded n) 4096 ltac:(lia)). pose proof (Z.div_mod size 4096 ltac:(lia)). lia.
Qed.

(** A descriptor of a chain of groups passes its checks. *)
Lemma chain_descriptor_valid s gs :
  valid_id (segment_id s) = true -> valid_id (first_sequence s) = true -> valid_id (last_sequence s) = true ->
  0 <= first_sequence s <= last_sequence s -> last_sequence s <= u64_max ->
  BLOCK_BYTES + len (concat (map group_image gs)) = committed_bytes s ->
  groups_chain (first_sequence s) (predecessor_digest s) gs (last_sequence s + 1) (last_digest s) ->
  validate_descriptor s = Ok tt.
Proof.
  intros Hid Hf Hl Hr Hmax Hc Hgs. destruct (chain_sizes _ _ _ _ _ Hgs) as (H1 & H2 & H3 & H4). apply groups_chain_end in Hgs.
  set (n := len (concat (map snd gs))) in *. set (size := len (concat (map group_image gs))) in *. clearbody n size.
  assert (n = last_sequence s - first_sequence s + 1) as Hn by lia. unfold validate_descriptor. rewrite Hid, Hf, Hl, gtb_false by lia. cbn [negb orb].
  assert (0 < n) as Hpos by (rewrite Hn; destruct Hr; lia). rewrite arith_u64_ok; [|unfold valid_id in *; bsimp; lia]. cbn [bindR]. rewrite <-Hn.
  assert (0 <= div_ceil n MAX_GROUP_RECORDS <= len gs) as Hgroups.
  { unfold div_ceil, MAX_GROUP_RECORDS in *. split; [apply Z.div_pos; lia|].
    pose proof (Z.div_mod (n + 64 - 1) 64 ltac:(lia)). pose proof (Z.mod_pos_bound (n + 64 - 1) 64). lia. }
  set (groups := div_ceil n MAX_GROUP_RECORDS) in *. clearbody groups. fold (padded (n * 72 + groups * GROUP_OVERHEAD)).
  assert (padded (n * 72 + groups * GROUP_OVERHEAD) <= size) as Hmin by (apply padded_least; [unfold GROUP_OVERHEAD in *; lia|done]).
  change (div_ceil (MAX_RECORD_LENGTH + GROUP_OVERHEAD) BLOCK_BYTES) with 16385. rewrite <-Hc.
  rewrite Z.add_mod, H1 by done. change ((BLOCK_BYTES mod BLOCK_BYTES + 0) mod BLOCK_BYTES) with 0. unfold MAX_RECORD_BYTES, BLOCK_BYTES in *.
  rewrite !(proj2 (Z.leb_le _ _)) by lia. done.
Qed.

(** ** Scanning a segment *)

(** [file] holds the groups [gs] of [s], and [rest] after them. *)
Definition grouped (file database : bytes) (s : SegmentDescriptor) (gs : list (GroupHeader * list bytes)) (rest : bytes) : Prop :=
  file = segment_image database s ++ zeros (BLOCK_BYTES - SEGMENT_BYTES) ++ concat (map group_image gs) ++ rest
  /\ BLOCK_BYTES + len (concat (map group_image gs)) = committed_bytes s
  /\ groups_chain (first_sequence s) (predecessor_digest s) gs (last_sequence s + 1) (last_digest s).

Lemma grouped_holds file database s gs rest : grouped file database s gs rest -> segment_holds file database s (concat (map snd gs)).
Proof. intros (Hf & Hc & Hg). by exists gs, rest. Qed.

Lemma holds_grouped file database s rs :
  segment_holds file database s rs -> exists gs rest, grouped file database s gs rest /\ rs = concat (map snd gs).
Proof. intros (gs & rest & Hf & Hc & Hg & ->). by exists gs, rest. Qed.

Record scannable (s : SegmentDescriptor) : Prop := {
  scan_typed : descriptor_typed s;
  scan_id : valid_id (segment_id s) = true;
  scan_first : 1 <= first_sequence s < u64_max;
  scan_last : first_sequence s - 1 <= last_sequence s < u64_max }.

(** The bytes before the first group not yet scanned. *)
Lemma grouped_split file database s gs rest :
  len database = 16 -> scannable s -> grouped file database s gs rest ->
  exists pre, file = pre ++ rest /\ len pre = committed_bytes s.
Proof.
  intros Hdb Hs (-> & Hc & _). exists (segment_image database s ++ zeros (BLOCK_BYTES - SEGMENT_BYTES) ++ concat (map group_image gs)).
  rewrite <-!app_assoc. split; [done|]. rewrite !len_app, len_segment_image, len_zeros by (done || apply (scan_typed _ Hs)).
  unfold BLOCK_BYTES, SEGMENT_BYTES, SEGMENT_HEADER_LENGTH in *. lia.
Qed.

(** [s] with the group [h] after its own. *)
Definition extended (s : SegmentDescriptor) (h : GroupHeader) : SegmentDescriptor :=
  {| segment_id := segment_id s; first_sequence := first_sequence s; last_sequence := group_first h + group_count h - 1;
     committed_bytes := committed_bytes s + padded (group_length h); predecessor_digest := predecessor_digest s;
     last_digest := group_digest h |}.

Lemma grouped_extended file database s gs g rest :
  grouped file database s gs (group_image g ++ rest) -> group_ok (last_sequence s + 1) (last_digest s) g ->
  grouped file database (extended s g.1) (gs ++ [g]) rest.
Proof.
  intros (Hf & Hc & Hgs) Hg. unfold grouped. rewrite map_app, concat_app. cbn [map concat]. rewrite app_nil_r, <-!app_assoc. split; [exact Hf|]. split.
  - rewrite len_app, (len_group_image _ _ _ Hg). cbn. lia.
  - eapply groups_chain_snoc in Hgs; [|exact Hg]. cbn [extended first_sequence predecessor_digest last_sequence last_digest].
    rewrite (ok_first _ _ _ Hg), (ok_count _ _ _ Hg). replace (last_sequence s + 1 + len g.2 - 1 + 1) with (last_sequence s + 1 + len g.2) by lia. exact Hgs.
Qed.

Lemma scannable_extended s g :
  scannable s -> group_ok (last_sequence s + 1) (last_digest s) g -> committed_bytes s + padded (group_length g.1) <= u64_max ->
  scannable (extended s g.1).
Proof.
  intros [[] ? ? ?] Hg Hmax. pose proof (valid_group_inv _ (ok_valid _ _ _ Hg)) as (Hc & Hne & Hfc & Hl). rewrite (ok_first _ _ _ Hg) in *.
  pose proof (valid_padded _ (ok_valid _ _ _ Hg)) as [Hpad _]. unfold u64_max in *. split; cbn; try done; [|rewrite (ok_first _ _ _ Hg); unfold u64_max; lia].
  split; cbn; try done; [|..|apply (typed_group_digest _ (ok_typed _ _ _ Hg))]; unfold is_u64 in *; change (256 ^ 8) with 18446744073709551616 in *.
  - rewrite (ok_first _ _ _ Hg). lia.
  - lia.
Qed.

Lemma extended_valid file database s gs g rest :
  scannable s -> grouped file database s gs (group_image g ++ rest) -> group_ok (last_sequence s + 1) (last_digest s) g ->
  committed_bytes s + padded (group_length g.1) <= u64_max -> validate_descriptor (extended s g.1) = Ok tt.
Proof.
  intros Hs Hgr Hg Hmax. pose proof (scannable_extended _ _ Hs Hg Hmax) as He. destruct (grouped_extended _ _ _ _ _ _ Hgr Hg) as (_ & Hc & Hch).
  pose proof (group_ok_count _ _ _ Hg). pose proof (ok_count _ _ _ Hg) as Hcount. pose proof (ok_first _ _ _ Hg) as Hfirst.
  destruct Hs as [T Hid Hf Hl]. pose proof (scan_last _ He) as Hl'. cbn in Hl'.
  apply (chain_descriptor_valid _ (gs ++ [g])); try done; cbn [extended segment_id first_sequence last_sequence]; try lia;
    unfold valid_id; rewrite !(proj2 (Z.eqb_neq _ _)) by lia; done.
Qed.

Lemma fold_unit (l : list LogRecord) : foldR (fun _ _ => Ok (E:=StorageError) tt) tt l = Ok tt.
Proof. by induction l. Qed.

(** Any loop over the records from a group boundary on. *)
Lemma suffix_loop_iff {S} (f : S -> LogRecord -> Result StorageError S) file database c offset first predecessor state state' :
  descriptor_typed c -> len database = 16 -> len predecessor = 32 ->
  (let* records := Records_suffix file database c offset first predecessor in for_records f (records_fuel records) state records) = Ok state' <->
  (exists input, segment_opens file database c input) /\ BLOCK_BYTES <= offset <= committed_bytes c
  /\ first_sequence c <= first <= last_sequence c /\ offset mod BLOCK_BYTES = 0
  /\ exists gs tail, drop (Z.to_nat offset) file = concat (map group_image gs) ++ tail
     /\ offset + len (concat (map group_image gs)) = committed_bytes c
     /\ groups_chain first predecessor gs (last_sequence c + 1) (last_digest c)
     /\ foldR f state (records_of first (concat (map snd gs))) = Ok state'.
Proof.
  intros T Hdb Hp. set (input := take (Z.to_nat (committed_bytes c - offset)) (drop (Z.to_nat offset) file)).
  assert ((exists input, segment_opens file database c input) -> BLOCK_BYTES <= offset <= committed_bytes c ->
    first_sequence c <= first <= last_sequence c -> reading (reader_at c offset first predecessor input)) as Hread.
  { intros [i [Hv _]] Ho Hf. pose proof (validate_descriptor_inv _ T Hv) as (Hs & Hmax & Hc & Hm).
    split; cbn [reader_at log_input log_remaining log_sequence log_last log_predecessor log_group]; try lia; [|unfold BLOCK_BYTES in *; lia|done].
    unfold input, len. rewrite length_take. lia. }
  split.
  - intros Hf. step_ok Hf as R eqn HR. apply Records_suffix_iff in HR as (Hi & Ho & Hfi & Hm & ->); [|done..]. fold input in Hf.
    apply for_records_iff in Hf as (rs & [Hl (gs & -> & Hin & Hgs)] & Hf); [|by apply Hread|done|apply records_fuel_enough; cbn; lia].
    cbn [reader_at log_input log_remaining log_sequence log_predecessor log_last log_last_digest] in Hl, Hin, Hgs, Hf.
    do 4 (split; [done|]). exists gs, (drop (Z.to_nat (committed_bytes c - offset)) (drop (Z.to_nat offset) file)).
    rewrite <-Hin. unfold input at 1. rewrite take_drop. split; [done|]. split; [lia|done].
  - intros (Hi & Ho & Hfi & Hm & gs & tail & Hd & Hc & Hgs & Hf). set (image := concat (map group_image gs)) in *.
    assert (input = image) as Ei by (unfold input; rewrite Hd; replace (committed_bytes c - offset) with (len image) by lia; apply take_len_app).
    rewrite (proj2 (Records_suffix_iff file database c offset first predecessor _ T Hdb) (conj Hi (conj Ho (conj Hfi (conj Hm eq_refl))))). cbn [bindR].
    fold input. apply for_records_iff; [by apply Hread|done|apply records_fuel_enough; cbn; lia|]. exists (concat (map snd gs)). split; [|done].
    split; [cbn; rewrite Ei; lia|]. cbn. by exists gs.
Qed.

(** The scan reads the next linked group. *)
Lemma scan_pass fuel file database s gs g rest recovery found :
  len database = 16 -> scannable s -> grouped file database s gs (group_image g ++ rest) ->
  group_ok (last_sequence s + 1) (last_digest s) g -> len file <= u64_max ->
  scan_groups (S fuel) file database s recovery found = scan_groups fuel file database (extended s g.1) recovery true.
Proof.
  intros Hdb Hs Hgr Hg Hmax. destruct (grouped_split _ _ _ _ _ Hdb Hs Hgr) as (pre & Hfile & Hpre). pose proof (len_group_image _ _ _ Hg) as Hgl.
  pose proof (ok_valid _ _ _ Hg) as V. pose proof (valid_padded _ V) as [Hpad Hbig]. change (2 ^ 33) with 8589934592 in Hbig.
  assert (committed_bytes s + padded (group_length g.1) + len rest = len file) as Hlen by (rewrite Hfile, !len_app; lia). pose proof (len_nonneg rest).
  assert (0 <= committed_bytes s) as Hcom by (rewrite <-Hpre; apply len_nonneg).
  cbn [scan_groups]. rewrite (proj2 (Z.ltb_lt _ _)) by lia. rewrite (proj2 (Z.ltb_ge _ _)) by (unfold HEADER_BYTES; lia).
  destruct g as [h rs]. cbn [fst snd] in *. pose proof (len_header_image _ (ok_typed _ _ _ Hg)) as Hhl. cbn [fst] in Hhl.
  rewrite Hfile at 1. cbn [group_image]. rewrite <-Hpre, slice_at_skip, Z.sub_diag, <-!app_assoc by lia.
  rewrite slice_at_here by (unfold HEADER_BYTES; lia). cbn [bindR].
  rewrite (proj2 (group_decode_iff _ h Hhl)) by (split; [done|split; [apply (ok_typed _ _ _ Hg)|done]]).
  pose proof (scan_last _ Hs) as Hlast. destruct (scan_typed _ Hs) as [_ _ [Hls _] _ _ _]. rewrite arith_u64_ok by (unfold u64_max in *; lia). cbn [bindR].
  pose proof (ok_first _ _ _ Hg) as Hfirst. pose proof (ok_predecessor _ _ _ Hg) as Hpred. cbn [fst] in Hfirst, Hpred.
  rewrite Hfirst, Hpred, Z.eqb_refl, bool_decide_true by done. cbn [negb orb].
  rewrite (proj2 (group_bytes_ok _ _)) by (split; [done|unfold u64_max; lia]). cbn [bindR]. rewrite gtb_false by lia.
  pose proof (valid_group_inv _ V) as (Hc & _ & Hfc & _). unfold extend.
  repeat (rewrite arith_u64_ok by (unfold u64_max in *; lia); cbn [bindR]). rewrite Hpre.
  rewrite ?Hgl. change (Build_SegmentDescriptor _ _ _ _ _ _) with (extended s h).
  pose proof (scannable_extended _ _ Hs Hg ltac:(cbn; lia)) as He. pose proof (extended_valid _ _ _ _ _ _ Hs Hgr Hg ltac:(cbn; lia)) as Hv. cbn [fst] in He, Hv.
  pose proof Hgr as (Hf' & Hc' & Hch'). destruct (scan_typed _ Hs) as [_ _ _ _ _ Hld].
  rewrite (proj2 (suffix_loop_iff _ file database (extended s h) (committed_bytes s) (last_sequence s + 1) (last_digest s) tt tt (scan_typed _ He) Hdb Hld)); [done|].
  split; [exists (concat (map group_image gs) ++ group_image (h, rs) ++ rest); split; [exact Hv|exact Hf']|].
  pose proof (len_nonneg (concat (map group_image gs))). split; [cbn; unfold BLOCK_BYTES in *; lia|]. split; [cbn; lia|]. split.
  - rewrite <-Hc'. destruct (chain_sizes _ _ _ _ _ Hch') as (Hmod & _). by rewrite Z.add_mod, Hmod by done.
  - exists [(h, rs)], rest. cbn [map concat]. rewrite app_nil_r. split; [rewrite Hfile, <-Hpre; apply drop_len_app|].
    split; [rewrite Hgl; done|]. split.
    + cbn [extended last_sequence last_digest]. split; [exact Hg|]. split; [|done]. pose proof (ok_count _ _ _ Hg) as Hcount. cbn [fst snd] in *. lia.
    + cbn [snd]. rewrite app_nil_r. apply fold_unit.
Qed.

Lemma groups_chain_app gs gs' : forall s p s' p' s2 p2,
  groups_chain s p gs s' p' -> groups_chain s' p' gs' s2 p2 -> groups_chain s p (gs ++ gs') s2 p2.
Proof.
  induction gs as [|g gs IH]; intros s p s' p' s2 p2; cbn [groups_chain app]; [by intros [-> ->]|].
  intros [Hg Hgs] H2. split; [done|]. by eapply IH.
Qed.

Lemma grouped_more file database s gs more rest s' :
  grouped file database s gs (concat (map group_image more) ++ rest) ->
  segment_id s' = segment_id s -> first_sequence s' = first_sequence s -> predecessor_digest s' = predecessor_digest s ->
  groups_chain (last_sequence s + 1) (last_digest s) more (last_sequence s' + 1) (last_digest s') ->
  committed_bytes s' = committed_bytes s + len (concat (map group_image more)) ->
  grouped file database s' (gs ++ more) rest.
Proof.
  intros (Hf & Hc & Hgs) E1 E2 E3 Hm Hc'. unfold grouped, segment_image, segment_body. rewrite E1, E2, E3, map_app, concat_app, len_app, <-!app_assoc.
  split; [rewrite Hf; unfold segment_image, segment_body; by rewrite <-!app_assoc|]. split; [lia|]. by eapply groups_chain_app.
Qed.

(** A segment read on from the end of an earlier version of it has more groups. *)
Lemma suffix_more {S} (f : S -> LogRecord -> Result StorageError S) file database s gs rest c state state' :
  len database = 16 -> scannable s -> grouped file database s gs rest ->
  segment_id c = segment_id s -> first_sequence c = first_sequence s -> predecessor_digest c = predecessor_digest s ->
  descriptor_typed c ->
  (let* records := Records_suffix file database c (committed_bytes s) (last_sequence s + 1) (last_digest s) in
   for_records f (records_fuel records) state records) = Ok state' ->
  exists more rest', more <> [] /\ rest = concat (map group_image more) ++ rest' /\ grouped file database c (gs ++ more) rest'
    /\ scannable c /\ validate_descriptor c = Ok tt
    /\ foldR f state (records_of (last_sequence s + 1) (concat (map snd more))) = Ok state'.
Proof.
  intros Hdb Hs Hgr E1 E2 E3 T Hl. destruct (grouped_split _ _ _ _ _ Hdb Hs Hgr) as (pre & Hfile & Hpre).
  apply suffix_loop_iff in Hl as ([i [Hv _]] & Ho & Hfirst & Hm & more & tail & Hd & Hc & Hgs & Hfold); [|done|done|apply (scan_typed _ Hs)].
  rewrite Hfile, <-Hpre, drop_len_app in Hd. exists more, tail. split; [intros ->; destruct Hgs; lia|]. split; [done|].
  split; [eapply grouped_more; try done; by rewrite <-Hd|]. split; [|done].
  pose proof (validate_descriptor_inv _ T Hv) as (Hr & Hmax & _). destruct Hs as [_ Hid Hf Hls].
  split; [done|by rewrite E1|lia|lia].
Qed.

(** An accepted candidate is the segment with more groups. *)
Lemma candidate_more file database s gs rest c :
  len database = 16 -> scannable s -> grouped file database s gs rest ->
  segment_id c = segment_id s -> first_sequence c = first_sequence s -> predecessor_digest c = predecessor_digest s ->
  descriptor_typed c ->
  (let* records := Records_suffix file database c (committed_bytes s) (last_sequence s + 1) (last_digest s) in
   for_records (fun _ _ => Ok tt) (records_fuel records) tt records) = Ok tt ->
  exists more rest', more <> [] /\ rest = concat (map group_image more) ++ rest' /\ grouped file database c (gs ++ more) rest'
    /\ scannable c /\ validate_descriptor c = Ok tt.
Proof.
  intros Hdb Hs Hgr E1 E2 E3 T Hl. destruct (suffix_more _ _ _ _ _ _ _ _ _ Hdb Hs Hgr E1 E2 E3 T Hl) as (more & rest' & H1 & H2 & H3 & H4 & H5 & _).
  by exists more, rest'.
Qed.

Lemma extend_typed s h offset physical c :
  scannable s -> group_typed h -> extend s h offset physical = Ok c ->
  descriptor_typed c /\ segment_id c = segment_id s /\ first_sequence c = first_sequence s /\ predecessor_digest c = predecessor_digest s.
Proof.
  intros [[] _ _ _] T He. unfold extend in He. step_ok He as com eqn Hc. apply arith_u64_inv in Hc as [-> Hc]. step_ok He as fo eqn Hfo. apply arith_u64_inv in Hfo as [-> Hfo].
  step_ok He as last eqn Hl. apply arith_u64_inv in Hl as [-> Hl]. apply ok_inj in He as <-. split; [|done].
  unfold u64_max in *. split; cbn; try done; try apply T; unfold is_u64; change (256 ^ 8) with 18446744073709551616; lia.
Qed.

(** What a scan of [s] found: a segment that extends it. *)
Record scan_result (file database : bytes) (s : SegmentDescriptor) (gs : list (GroupHeader * list bytes)) (found : bool)
    (r : option SegmentDescriptor) (partial : bool) (s' : SegmentDescriptor) (more : list (GroupHeader * list bytes)) (rest : bytes) : Prop := {
  result_grouped : grouped file database s' (gs ++ more) rest;
  result_scannable : scannable s';
  result_id : segment_id s' = segment_id s;
  result_first : first_sequence s' = first_sequence s;
  result_predecessor : predecessor_digest s' = predecessor_digest s;
  result_found : (more = [] /\ s' = s /\ r = then_some found s) \/ (more <> [] /\ r = Some s' /\ validate_descriptor s' = Ok tt);
  result_partial : partial = false -> rest = [] }.

Lemma scan_stop file database s gs found rest partial :
  grouped file database s gs rest -> scannable s -> (partial = false -> rest = []) ->
  scan_result file database s gs found (then_some found s) partial s [] rest.
Proof. intros Hg Hs Hp. split; try done; [by rewrite app_nil_r|by left]. Qed.

Lemma scan_sound fuel file database recovery : len database = 16 -> forall s gs rest found r partial,
  scannable s -> grouped file database s gs rest -> scan_groups fuel file database s recovery found = Ok (r, partial) ->
  exists s' more rest', scan_result file database s gs found r partial s' more rest'.
Proof.
  intros Hdb. induction fuel as [|fuel IH]; intros s gs rest found r partial Hs Hgr Hscan; cbn [scan_groups] in Hscan;
    destruct (grouped_split _ _ _ _ _ Hdb Hs Hgr) as (pre & Hfile & Hpre);
    (destruct (Z.ltb_spec (committed_bytes s) (len file)) as [Hlt|Hge]; [|
      apply ok_inj in Hscan; injection Hscan as <- <-; exists s, [], rest; apply scan_stop; try done; intros _;
      rewrite Hfile, len_app in Hge; destruct rest; [done|]; rewrite len_cons in Hge; pose proof (len_nonneg rest); lia]); [done|].
  assert (forall error, (if discards recovery error then Ok (then_some found s, true) else Err error) = Ok (r, partial) ->
    exists s' more rest', scan_result file database s gs found r partial s' more rest') as Hstop.
  { intros error He. destruct (discards recovery error); [|done]. apply ok_inj in He. injection He as <- <-. exists s, [], rest. by apply scan_stop. }
  destruct (_ <? HEADER_BYTES); [apply ok_inj in Hscan; injection Hscan as <- <-; exists s, [], rest; by apply scan_stop|].
  step_ok Hscan as data eqn Hdata. destruct (GroupHeader_decode data) as [h|error|] eqn:Hh; [|by eapply Hstop|done].
  step_ok Hscan as q eqn Hq. apply arith_u64_inv in Hq as [-> _]. step_if Hscan eqn E. step_ok Hscan as phys eqn Hphys.
  destruct (_ >? _); [apply ok_inj in Hscan; injection Hscan as <- <-; exists s, [], rest; by apply scan_stop|].
  step_ok Hscan as c eqn Hext. assert (len data = HEADER_BYTES) as Hdl by (apply slice_at_cut in Hdata as (? & ? & _ & _ & ->); lia).
  apply group_decode_iff in Hh as (_ & GT & _); [|done].
  apply extend_typed in Hext as (T & E1 & E2 & E3); [|done..]. match type of Hscan with match ?m with _ => _ end = _ => destruct m as [[]|error|] eqn:Hl end; [|by eapply Hstop|done].
  destruct (candidate_more _ _ _ _ _ _ Hdb Hs Hgr E1 E2 E3 T Hl) as (more & rest' & Hne & Hrest & Hgr' & Hs' & Hv').
  destruct (IH _ _ _ _ _ _ Hs' Hgr' Hscan) as (s2 & more2 & rest2 & [R1 R2 R3 R4 R5 R6 R7]). exists s2, (more ++ more2), rest2.
  rewrite <-app_assoc in R1. split; try done; [congruence..|]. right. split; [by destruct more|].
  destruct R6 as [(-> & -> & ->)|(_ & -> & ?)]; done.
Qed.

(** A scan passes the groups that are there. *)
Lemma scan_reach more : forall fuel file database recovery s gs rest found r partial s2 p2,
  len database = 16 -> scannable s -> len file <= u64_max -> grouped file database s gs (concat (map group_image more) ++ rest) ->
  groups_chain (last_sequence s + 1) (last_digest s) more s2 p2 ->
  scan_groups fuel file database s recovery found = Ok (r, partial) ->
  exists s' rest' gs', scan_result file database s gs found r partial s' (more ++ gs') rest'.
Proof.
  induction more as [|g more IH]; intros fuel file database recovery s gs rest found r partial s2 p2 Hdb Hs Hmax Hgr Hch Hscan.
  - destruct (scan_sound _ _ _ _ Hdb _ _ _ _ _ _ Hs Hgr Hscan) as (s' & gs' & rest' & HR). by exists s', rest', gs'.
  - destruct Hch as [Hg Hch]. cbn [map concat] in Hgr. rewrite <-app_assoc in Hgr.
    destruct (grouped_split _ _ _ _ _ Hdb Hs Hgr) as (pre & Hfile & Hpre). pose proof (len_group_image _ _ _ Hg) as Hgl.
    pose proof (valid_padded _ (ok_valid _ _ _ Hg)) as [Hpad _].
    assert (committed_bytes s + padded (group_length g.1) <= len file) as Hlen.
    { rewrite Hfile, !len_app, Hgl. pose proof (len_nonneg (concat (map group_image more))). pose proof (len_nonneg rest). lia. }
    destruct fuel as [|fuel]; [cbn [scan_groups] in Hscan; rewrite (proj2 (Z.ltb_lt _ _)) in Hscan by lia; done|].
    rewrite (scan_pass _ _ _ _ _ _ _ _ _ Hdb Hs Hgr Hg Hmax) in Hscan.
    pose proof (grouped_extended _ _ _ _ _ _ Hgr Hg) as Hgr'. pose proof (scannable_extended _ _ Hs Hg ltac:(lia)) as Hs'.
    destruct (IH fuel file database recovery (extended s g.1) (gs ++ [g]) rest true r partial s2 p2 Hdb Hs' Hmax Hgr') as (s3 & rest' & gs' & [R1 R2 R3 R4 R5 R6 R7]); [|done|].
    { cbn [extended last_sequence last_digest]. rewrite (ok_first _ _ _ Hg), (ok_count _ _ _ Hg).
      replace (last_sequence s + 1 + len g.2 - 1 + 1) with (last_sequence s + 1 + len g.2) by lia. exact Hch. }
    exists s3, rest', gs'. rewrite <-app_assoc in R1. split; try done. right. split; [done|].
    destruct R6 as [(_ & -> & ->)|(_ & -> & ?)]; [|done]. split; [done|]. by eapply (extended_valid _ _ _ _ _ _ Hs Hgr Hg); lia.
Qed.

(** ** Cutting files *)

(** Every file keeps its first [n] bytes, for each [n] no entry of [cuts] goes below. *)
Definition cuts_only (cuts : list (Z * Z)) (dir dir' : Directory) : Prop :=
  forall name f, entries dir !! name = Some f -> exists f', entries dir' !! name = Some f'
    /\ forall n, 0 <= n <= len (contents f) -> (forall id cut, name = log_file id -> (id, cut) ∈ cuts -> n <= cut) ->
       n <= len (contents f') /\ take (Z.to_nat n) (contents f') = take (Z.to_nat n) (contents f).

#[local] Instance cuts_preorder cuts : PreOrder (cuts_only cuts).
Proof.
  split.
  - intros dir name f Hf. exists f. split; [done|]. intros n Hn _. by split; [lia|].
  - intros a b c Hab Hbc name f Hf. destruct (Hab _ _ Hf) as (f1 & H1 & P1). destruct (Hbc _ _ H1) as (f2 & H2 & P2).
    exists f2. split; [done|]. intros n Hn Hcut. destruct (P1 n Hn Hcut) as [L1 T1]. destruct (P2 n ltac:(lia) Hcut) as [L2 T2]. split; [done|congruence].
Qed.

Lemma set_len_keeps file n file' result :
  set_len file n = (file', result) -> 0 <= n -> forall k, 0 <= k <= n -> k <= len (contents file) ->
  k <= len (contents file') /\ take (Z.to_nat k) (contents file') = take (Z.to_nat k) (contents file).
Proof.
  unfold set_len. intros Hs Hn k Hk Hl. pose proof (answer_contents file) as Hc. destruct (answer file) as [file1 r1]. cbn in Hc.
  destruct r1; injection Hs as <- <-; cbn; rewrite ?Hc; [|split; [lia|done]..]. split.
  - rewrite len_app. pose proof (len_nonneg (zeros (n - len (contents file)))). unfold len at 1. rewrite length_take. unfold len in *. lia.
  - rewrite take_app_le by (rewrite length_take; unfold len in *; lia). rewrite take_take. f_equal. lia.
Qed.

Lemma on_file_cuts {A} (operation : File -> File * Result StorageError A) cuts id dir dir' result :
  on_file (log_file id) operation dir = (dir', result) ->
  (forall f, entries dir !! log_file id = Some f -> forall n, 0 <= n <= len (contents f) -> (forall cut, (id, cut) ∈ cuts -> n <= cut) ->
     n <= len (contents (operation f).1) /\ take (Z.to_nat n) (contents (operation f).1) = take (Z.to_nat n) (contents f)) ->
  cuts_only cuts dir dir'.
Proof.
  unfold on_file. intros Ho Hop. destruct (entries dir !! log_file id) as [f|] eqn:Hf; [|by injection Ho as <- _].
  specialize (Hop f eq_refl). destruct (operation f) as [f' r]. injection Ho as <- _. intros name g Hg. cbn.
  destruct (decide (name = log_file id)) as [->|Hne]; [|rewrite lookup_insert_ne by done; exists g; split; [done|]; intros n Hn _; by split; [lia|]].
  rewrite lookup_insert_eq. exists f'. rewrite Hf in Hg. injection Hg as <-. split; [done|]. intros n Hn Hcut. apply Hop; [done|]. intros cut. by apply Hcut.
Qed.

Lemma flush_cuts all todo : forall dir dir' result,
  flush_segments todo dir = (dir', result) -> todo ⊆ all -> Forall (fun entry => 0 <= entry.2) all -> cuts_only all dir dir'.
Proof.
  induction todo as [|[id n] todo IH]; intros dir dir' result Hf Hsub Hpos; cbn [flush_segments] in Hf.
  - injection Hf as <- _. reflexivity.
  - assert ((id, n) ∈ all) as Hin by (apply Hsub; left). rewrite Forall_forall in Hpos. pose proof (Hpos _ Hin) as Hn. cbn in Hn.
    unfold bindD, flush_segment in Hf. cbn [fst snd] in Hf. unfold bindD in Hf.
    destruct (on_file (log_file id) (fun file => set_len file n) dir) as [dir1 r1] eqn:H1.
    assert (cuts_only all dir dir1) as C1.
    { eapply on_file_cuts; [exact H1|]. intros f _ k Hk Hcut. destruct (set_len f n) as [f' r] eqn:Hs. cbn [fst].
      eapply set_len_keeps; [exact Hs|done| |lia]. split; [lia|]. by apply Hcut. }
    destruct r1; [|by injection Hf as <- _..]. destruct (on_file (log_file id) sync_file dir1) as [dir2 r2] eqn:H2.
    assert (cuts_only all dir1 dir2) as C2.
    { eapply on_file_cuts; [exact H2|]. intros f _ k Hk _. rewrite sync_contents. by split; [lia|]. }
    destruct r2; [|injection Hf as <- _; by etrans..].
    etrans; [exact C1|]. etrans; [exact C2|]. eapply IH; [exact Hf| |by apply Forall_forall]. intros x Hx. apply Hsub. by right.
Qed.

Lemma segment_holds_cut file file' database s rs :
  len database = 16 -> len (predecessor_digest s) = 32 -> segment_holds file database s rs -> committed_bytes s <= len file' ->
  take (Z.to_nat (committed_bytes s)) file' = take (Z.to_nat (committed_bytes s)) file -> segment_holds file' database s rs.
Proof.
  intros Hdb Hp (gs & rest & -> & Hc & Hgs & ->) Hl Ht. exists gs, (drop (Z.to_nat (committed_bytes s)) file').
  split; [|done]. set (pre := segment_image database s ++ zeros (BLOCK_BYTES - SEGMENT_BYTES) ++ concat (map group_image gs)).
  assert (len pre = committed_bytes s) as Hpre.
  { unfold pre. rewrite !len_app, len_segment_image, len_zeros by done. unfold BLOCK_BYTES, SEGMENT_BYTES, SEGMENT_HEADER_LENGTH in *. lia. }
  rewrite !app_assoc. rewrite <-(app_assoc (segment_image _ _)). fold pre. rewrite <-(take_drop (Z.to_nat (committed_bytes s)) file') at 1. f_equal. rewrite Ht, <-Hpre.
  rewrite !app_assoc, <-(app_assoc (segment_image _ _)). fold pre. apply take_len_app.
Qed.

Lemma holds_length file database s rs :
  len database = 16 -> len (predecessor_digest s) = 32 -> segment_holds file database s rs -> 0 <= committed_bytes s <= len file.
Proof.
  intros Hdb Hp (gs & rest & -> & Hc & _). rewrite !len_app, len_segment_image, len_zeros by done. pose proof (len_nonneg rest). pose proof (len_nonneg (concat (map group_image gs))).
  unfold BLOCK_BYTES, SEGMENT_BYTES, SEGMENT_HEADER_LENGTH in *. lia.
Qed.

(** Files cut no lower than the segments of a log keep its records. *)
Lemma cuts_records cuts dir dir' m rs :
  manifest_typed m -> cuts_only cuts dir dir' ->
  (forall s cut, s ∈ segments m -> (segment_id s, cut) ∈ cuts -> committed_bytes s <= cut) ->
  log_records dir m rs -> log_records dir' m rs.
Proof.
  intros T Hcut Hs (rss & H2 & ->). exists rss. split; [|done]. pose proof (typed_segments _ T) as Hts.
  apply Forall2_same_length_lookup. apply Forall2_same_length_lookup in H2 as [Hlen H2]. split; [done|]. intros i s r Hi Hr.
  destruct (H2 _ _ _ Hi Hr) as (file & Hf & Hh & Ha). pose proof (Forall_lookup_1 _ _ _ _ Hts Hi) as Td.
  unfold log_contents in Hf. destruct (entries dir !! _) as [f|] eqn:E; [|done]. injection Hf as <-.
  destruct (Hcut _ _ E) as (f' & E' & Hn). exists (contents f'). unfold log_contents. rewrite E'. split; [done|].
  pose proof (holds_length _ _ _ _ (typed_database _ T) (typed_predecessor _ Td) Hh) as Hl.
  destruct (Hn (committed_bytes s) Hl) as [L1 L2]; [intros id cut [= <-]; apply Hs; by eapply list_elem_of_lookup_2|].
  split; [|done]. by eapply segment_holds_cut; [apply T|apply Td|..].
Qed.

(** ** The candidates *)
Definition entry_id (entry : Name * File) : option Z := match entry.1 with log_file id => Some id | _ => None end.

Lemma entry_ids_nodup (l : list (Name * File)) : NoDup l.*1 -> NoDup (omap entry_id l).
Proof.
  induction l as [|[name f] l IH]; cbn [fmap list_fmap omap list_omap]; [constructor|]. intros [Hn Hl]%NoDup_cons. specialize (IH Hl).
  destruct name; cbn [entry_id fst]; try done. constructor; [|done]. rewrite list_elem_of_omap. intros ([name f'] & Hin & He).
  destruct name; try done. cbn in He. injection He as ->. apply Hn, list_elem_of_fmap. eexists; split; [|exact Hin]. done.
Qed.

Lemma segment_ids_spec dir floor ids :
  segment_ids dir floor = Ok ids ->
  StronglySorted Z.lt ids /\ forall id, id ∈ ids <-> is_Some (entries dir !! log_file id) /\ 0 <= id < u64_max /\ floor <= id.
Proof.
  unfold segment_ids. set (all := omap _ _). set (kept := List.filter _ all). destruct (_ <? _); [done|]. intros E%ok_inj. subst ids.
  assert (forall id, id ∈ kept <-> is_Some (entries dir !! log_file id) /\ 0 <= id < u64_max /\ floor <= id) as Hkept.
  { intros id. unfold kept. rewrite list_elem_of_In, filter_In, <-list_elem_of_In. unfold all. rewrite list_elem_of_omap. split.
    - intros [([name f] & Hin & He) Hb]. destruct name; try done. cbn in He. injection He as ->. apply elem_of_map_to_list in Hin. split; [by exists f|].
      bsimp. unfold u64_max in *. lia.
    - intros ([f Hf] & Hr & Hfl). split; [exists (log_file id, f); split; [by apply elem_of_map_to_list|done]|].
      rewrite (proj2 (in_u64_spec id)), (proj2 (Z.leb_le _ _)), (proj2 (Z.eqb_neq _ _)) by lia. done. }
  assert (NoDup kept) as Hnd.
  { apply NoDup_ListNoDup, List.NoDup_filter, NoDup_ListNoDup. apply (entry_ids_nodup (map_to_list (entries dir))), NoDup_fst_map_to_list. }
  pose proof (merge_sort_Permutation Z.le kept) as Hp. pose proof (StronglySorted_merge_sort Z.le kept) as Hs. split.
  - assert (NoDup (merge_sort Z.le kept)) as Hnd' by by rewrite Hp. revert Hs Hnd'. generalize (merge_sort Z.le kept). intros l Hs. induction Hs as [|x l Hs IH Hx]; intros Hnd'; constructor.
    + apply NoDup_cons in Hnd' as [_ ?]. by apply IH.
    + apply NoDup_cons in Hnd' as [Hn _]. rewrite Forall_forall in Hx |- *. intros y Hy. specialize (Hx _ Hy). assert (x <> y) by (intros ->; done). lia.
  - intros id. by rewrite Hp.
Qed.

(** ** The state of a recovery *)
Record recovering (dir : Directory) (m : Manifest) (rs : list bytes) (bound : Z) (st : Recovered) (more : list bytes) : Prop := {
  rec_typed : manifest_typed (recovered st);
  rec_records : log_records dir (recovered st) (rs ++ more);
  rec_durable : durable_sequence (recovered st) = durable_sequence m + len more;
  rec_max : durable_sequence (recovered st) < u64_max;
  rec_database : database_id (recovered st) = database_id m;
  rec_checkpoint : manifest_checkpoint_sequence (recovered st) = manifest_checkpoint_sequence m;
  rec_checkpoint_digest : checkpoint_digest (recovered st) = checkpoint_digest m;
  rec_frontier : manifest_checkpoint_sequence m <= durable_sequence m;
  rec_floor : log_floor (recovered st) = log_floor m;
  rec_cuts : forall s cut, s ∈ segments (recovered st) -> (segment_id s, cut) ∈ flush st -> cut = committed_bytes s;
  rec_positive : Forall (fun entry => 0 <= entry.2) (flush st);
  rec_segments : Forall (fun s => segment_id s < bound) (segments (recovered st));
  rec_ids : Forall (fun s => segment_id s < bound) (segments m);
  rec_selected : forall s cut, s ∈ segments m -> (segment_id s, cut) ∈ flush st -> committed_bytes s <= cut;
  rec_flushed : Forall (fun entry => entry.1 < bound) (flush st) }.

Lemma recovering_mono dir m rs bound bound' st more :
  bound <= bound' -> recovering dir m rs bound st more -> recovering dir m rs bound' st more.
Proof.
  intros Hb []. split; try done; eapply Forall_impl; try done; cbn; intros ? ?; lia.
Qed.

Lemma recovering_flush dir m rs bound st more id cut :
  recovering dir m rs bound st more -> bound <= id -> 0 <= cut -> recovering dir m rs (id + 1) (flushing st id cut) more.
Proof.
  intros Hr Hb Hc. apply (recovering_mono _ _ _ bound (id + 1)) in Hr as Hr'; [|lia]. destruct Hr'. split; try done; cbn [flushing flush recovered].
  - intros s c Hs [Hin|Hin]%elem_of_app; [by eapply rec_cuts0|]. apply list_elem_of_singleton in Hin. injection Hin as Hin _.
    destruct Hr. rewrite Forall_forall in rec_segments1. specialize (rec_segments1 _ Hs). lia.
  - apply Forall_app. split; [done|]. by repeat constructor.
  - intros s c Hs [Hin|Hin]%elem_of_app; [by eapply rec_selected0|]. apply list_elem_of_singleton in Hin. injection Hin as Hin _.
    destruct Hr. rewrite Forall_forall in rec_ids1. specialize (rec_ids1 _ Hs). lia.
  - apply Forall_app. split; [done|]. repeat constructor. cbn. lia.
Qed.

(** A segment found past the end is a new segment of the log. *)
Lemma recovering_link dir m rs bound st more found found_rs file partial st' :
  recovering dir m rs bound st more -> bound <= segment_id found -> scannable found ->
  log_contents dir (segment_id found) = Some file -> segment_holds file (database_id m) found found_rs ->
  link_segment st found partial = Ok st' ->
  recovering dir m rs (segment_id found + 1) st' (more ++ found_rs).
Proof.
  intros Hr Hb Hs Hf Hh Hl. pose proof (segment_chain _ _ _ _ Hh) as [_ Hend]. unfold link_segment in Hl.
  step_if Hl. step_ok Hl as following eqn Hfo. apply arith_u64_inv in Hfo as [-> _]. step_if Hl eqn E. apply orb_false_iff in E as [E _].
  apply negb_false_iff, Z.eqb_eq in E. step_ok Hl as next_id eqn Hn. apply arith_u64_inv in Hn as [-> Hn]. apply ok_inj in Hl as <-.
  assert (forall x, is_u64 x <-> 0 <= x <= u64_max) as Hu by (intros x; unfold is_u64, u64_max; change (256 ^ 8) with 18446744073709551616; lia).
  pose proof (scan_last _ Hs) as Hls. pose proof (scan_typed _ Hs) as T. pose proof (typed_last _ T) as Hlu. apply Hu in Hlu.
  apply (recovering_mono _ _ _ bound (segment_id found + 1)) in Hr as Hr'; [|lia]. destruct Hr'. split; cbn [recovered flush set_segments segments durable_sequence set_durable database_id manifest_checkpoint_sequence checkpoint_digest log_floor]; try done.
  - apply manifest_typed_log; [done|by apply Hu|apply T|by apply Hu|]. apply Forall_app. split; [apply rec_typed0|by constructor].
  - destruct rec_records0 as (rss & H2 & Hcat). exists (rss ++ [found_rs]). split; [|rewrite concat_app; cbn; by rewrite app_nil_r, <-Hcat, app_assoc].
    cbn [segments set_segments]. apply Forall2_app; [eapply Forall2_impl; [exact H2|]; intros s r; by apply grows_log|].
    constructor; [|constructor]. exists file. split; [done|]. cbn [database_id set_segments set_durable]. rewrite rec_database0. split; [done|].
    apply agrees_above. cbn [manifest_checkpoint_sequence set_segments set_durable]. pose proof (len_nonneg more). lia.
  - rewrite len_app. lia.
  - lia.
  - intros s c [Hin|Hin]%elem_of_app [Hc|Hc]%elem_of_app.
    + by eapply rec_cuts0.
    + apply list_elem_of_singleton in Hc. injection Hc as Hc _. destruct Hr. rewrite Forall_forall in rec_segments1. specialize (rec_segments1 _ Hin). lia.
    + apply list_elem_of_singleton in Hin as ->. destruct Hr. rewrite Forall_forall in rec_flushed1. specialize (rec_flushed1 _ Hc). cbn in *. lia.
    + apply list_elem_of_singleton in Hin as ->. apply list_elem_of_singleton in Hc. by injection Hc.
  - apply Forall_app. split; [done|]. constructor; [|constructor]. cbn. pose proof (typed_committed _ T) as Hc. apply Hu in Hc. lia.
  - apply Forall_app. split; [done|]. constructor; [lia|constructor].
  - intros s c Hin [Hc|Hc]%elem_of_app; [by eapply rec_selected0|]. apply list_elem_of_singleton in Hc. injection Hc as Hc _.
    destruct Hr. rewrite Forall_forall in rec_ids1. specialize (rec_ids1 _ Hin). lia.
  - apply Forall_app. split; [done|]. constructor; [cbn; lia|constructor].
Qed.

Lemma empty_scannable id first predecessor :
  0 < id < u64_max -> 1 <= first < u64_max -> len predecessor = 32 -> scannable (empty_segment id first predecessor BLOCK_BYTES).
Proof.
  intros Hid Hf Hp. unfold u64_max in *. split; cbn; try done; [..|unfold u64_max; lia].
  - split; cbn; try done; unfold is_u64; change (256 ^ 8) with 18446744073709551616; lia.
  - unfold valid_id, u64_max. rewrite !(proj2 (Z.eqb_neq _ _)) by lia. done.
Qed.

(** A file whose header is accepted holds no groups of the segment the header
    describes yet. *)
Lemma header_grouped file header rest rest2 database id first predecessor committed :
  read_committed file 96 = Ok (header, rest) -> len database = 16 -> 0 < id < u64_max -> 1 <= first < u64_max -> len predecessor = 32 ->
  is_u64 committed ->
  validate_segment_header header database (empty_segment id first predecessor committed) = Ok tt ->
  read_padding rest (BLOCK_BYTES - SEGMENT_BYTES) = Ok rest2 ->
  grouped file database (empty_segment id first predecessor BLOCK_BYTES) [] rest2.
Proof.
  intros Hh Hdb Hid Hf Hp Hc Hv Hpad. apply read_committed_ok in Hh as [-> Hl]; [|done]. apply read_padding_ok in Hpad as [_ ->]; [|done].
  assert (descriptor_typed (empty_segment id first predecessor committed)) as T.
  { unfold u64_max in *. split; cbn; try done; unfold is_u64; change (256 ^ 8) with 18446744073709551616; lia. }
  apply validate_segment_header_iff in Hv as ->; [|done..]. split; [done|]. split; [done|]. cbn. split; [lia|done].
Qed.

Lemma scan_tail_file files database s recovery r :
  scan_tail files database s recovery = Ok r -> exists file, files (segment_id s) = Some file
    /\ scan_groups (scan_fuel file) file database s recovery false = Ok r.
Proof.
  unfold scan_tail. intros Hs. step_ok Hs as file eqn Hf. apply ok_or_ok in Hf. exists file. split; [done|]. step_if Hs.
  step_ok Hs as [header rest] eqn Hh. step_ok Hs as u eqn Hu. step_ok Hs as q eqn Hq. done.
Qed.

(** The files a candidate's turn reads, past its checks. *)
Lemma recover_candidate_inv files recovery st id st' :
  len (database_id (recovered st)) = 16 -> 0 < id < u64_max -> recover_candidate files recovery st id = Ok st' ->
  st' = st \/ (exists cut, 0 <= cut /\ st' = flushing st id cut)
  \/ exists file first predecessor rest found partial, files id = Some file
     /\ scannable (empty_segment id first predecessor BLOCK_BYTES)
     /\ grouped file (database_id (recovered st)) (empty_segment id first predecessor BLOCK_BYTES) [] rest
     /\ scan_groups (scan_fuel file) file (database_id (recovered st)) (empty_segment id first predecessor BLOCK_BYTES) recovery false = Ok (Some found, partial)
     /\ link_segment st found partial = Ok st'.
Proof.
  intros Hdb Hid Hr. unfold recover_candidate in Hr. step_ok Hr as file eqn Hf. apply ok_or_ok in Hf.
  destruct (_ <? _); [apply ok_inj in Hr; by left|]. step_ok Hr as [header rest] eqn Hh. step_ok Hr as valid eqn Hvalid.
  destruct (negb valid && _); [apply ok_inj in Hr; right; left; exists 0; by split|].
  step_ok Hr as first eqn Hfirst. step_ok Hr as predecessor eqn Hpre. step_ok Hr as u eqn Hv. destruct u. step_if Hr eqn E.
  apply uint_at_range in Hfirst; [|done]. change (256 ^ 8) with 18446744073709551616 in Hfirst. apply orb_false_iff in E as [E1%Z.eqb_neq E2%Z.eqb_neq].
  apply slice_at_cut in Hpre as (? & ? & _ & _ & Hpl). assert (1 <= first < u64_max) as Hf1 by (unfold u64_max in *; lia).
  destruct (_ <? BLOCK_BYTES); [apply ok_inj in Hr; by left|]. destruct (read_padding rest _) as [rest2|error|] eqn:Hpad; [| |done].
  - step_ok Hr as [found partial] eqn Hscan. apply scan_tail_file in Hscan as (file' & Hf' & Hscan). cbn [segment_id empty_segment] in Hf'.
    rewrite Hf in Hf'. injection Hf' as <-. destruct found as [found|].
    + right. right. exists file, first, predecessor, rest2, found, partial. split; [done|]. split; [by apply empty_scannable|].
      split; [by eapply header_grouped|done].
    + apply ok_inj in Hr. destruct partial; [right; left; by exists BLOCK_BYTES|by left].
  - destruct (negb _); [done|]. apply ok_inj in Hr. right. left. by exists 0.
Qed.

Lemma recover_candidate_spec dir m rs bound st more id recovery st' :
  recovering dir m rs bound st more -> 1 <= bound <= id -> id < u64_max ->
  recover_candidate (log_contents dir) recovery st id = Ok st' ->
  exists more', recovering dir m rs (id + 1) st' (more ++ more').
Proof.
  intros Hr Hb Hid Hc. pose proof (typed_database _ (rec_typed _ _ _ _ _ _ Hr)) as Hdb.
  destruct (recover_candidate_inv _ _ _ id _ Hdb ltac:(lia) Hc) as [->|[(cut & Hcut & ->)|(file & first & pre & rest & found & partial & Hf & Hs & Hg & Hscan & Hl)]].
  - exists []. rewrite app_nil_r. eapply recovering_mono; [|done]. lia.
  - exists []. rewrite app_nil_r. eapply recovering_flush; [done|lia|done].
  - destruct (scan_sound _ _ _ _ Hdb _ _ _ _ _ _ Hs Hg Hscan) as (s' & gs & rest' & [R1 R2 R3 R4 R5 R6 R7]).
    destruct R6 as [(_ & _ & E)|(_ & E & _)]; [done|]. injection E as ->. cbn [segment_id empty_segment] in R3.
    exists (concat (map snd gs)). rewrite <-R3. rewrite <-R3 in Hf. eapply recovering_link; try done; [lia|].
    rewrite <-(rec_database _ _ _ _ _ _ Hr). by apply grouped_holds in R1.
Qed.

Lemma recover_candidates_spec dir m rs recovery ids : forall bound st more st',
  recovering dir m rs bound st more -> 1 <= bound -> StronglySorted Z.lt ids -> Forall (fun id => bound <= id < u64_max) ids ->
  foldR (recover_candidate (log_contents dir) recovery) st ids = Ok st' ->
  exists bound' more', recovering dir m rs bound' st' (more ++ more').
Proof.
  induction ids as [|id ids IH]; intros bound st more st' Hr Hb Hs Hall Hf; cbn [foldR] in Hf.
  - apply ok_inj in Hf as <-. exists bound, []. by rewrite app_nil_r.
  - step_ok Hf as st1 eqn H1. apply Forall_cons_1 in Hall as [Hid Hall]. apply StronglySorted_inv in Hs as [Hs Hlt].
    destruct (recover_candidate_spec _ _ _ bound _ _ id _ _ Hr ltac:(lia) ltac:(lia) H1) as (more1 & Hr1).
    destruct (fun Hall' => IH (id + 1) _ _ _ Hr1 ltac:(lia) Hs Hall' Hf) as (bound' & more2 & Hr2).
    + rewrite Forall_forall in Hall, Hlt |- *. intros x Hx. specialize (Hall _ Hx). specialize (Hlt _ Hx). lia.
    + exists bound', (more1 ++ more2). by rewrite app_assoc.
Qed.

(** ** The active segment *)
Lemma links_ids m segs : forall state state',
  foldR (validate_link m) state segs = Ok state' -> Forall (fun s => segment_id s < next_segment_id m) segs.
Proof.
  induction segs as [|x segs IH]; intros [[s0 id0] p0] state' Hf; cbn [foldR] in Hf; [constructor|].
  step_ok Hf as st eqn Hx. constructor; [|by eapply IH]. unfold validate_link in Hx. step_ok Hx as u eqn Hu. step_if Hx eqn E.
  apply orb_false_iff in E as [_ E]. by apply Z.leb_gt in E.
Qed.

Lemma manifest_ids m : validate_manifest m = Ok tt -> next_segment_id m <> 0 /\ Forall (fun s => segment_id s < next_segment_id m) (segments m).
Proof.
  intros Hv. unfold validate_manifest in Hv. step_if Hv. do 2 step_if Hv. step_if Hv eqn E. apply orb_false_iff in E as [E _]. apply orb_false_iff in E as [_ E%Z.eqb_neq].
  split; [done|]. step_if Hv. step_ok Hv as policy eqn Hp. do 3 step_if Hv.
  step_ok Hv as following eqn Hf. do 2 step_if Hv. unfold validate_links in Hv. step_ok Hv as durable eqn Hd.
  destruct (bool_decide_reflect (segments m = [])) as [->|]; [constructor|]. step_ok Hv as next eqn Hn. step_ok Hv as st eqn Hs. by eapply links_ids.
Qed.

Lemma manifest_durable_max m : manifest_typed m -> validate_manifest m = Ok tt -> 0 <= durable_sequence m < u64_max.
Proof.
  intros T Hv. unfold validate_manifest in Hv. step_if Hv. do 4 step_if Hv. step_ok Hv as policy eqn Hp. do 2 step_if Hv. step_if Hv eqn E.
  apply orb_false_iff in E as [E _]. apply orb_false_iff in E as [E _]. apply Z.eqb_neq in E. pose proof (typed_durable _ T) as Hd.
  unfold is_u64, u64_max in *. change (256 ^ 8) with 18446744073709551616 in Hd. lia.
Qed.

Lemma descriptor_id s : validate_descriptor s = Ok tt -> valid_id (segment_id s) = true.
Proof. unfold validate_descriptor. intros Hv. step_if Hv eqn E. by apply negb_false_iff in E. Qed.

Lemma valid_scannable s : descriptor_typed s -> validate_descriptor s = Ok tt -> scannable s.
Proof.
  intros T Hv. pose proof (validate_descriptor_inv _ T Hv) as (Hr & Hmax & _). split; [done|by apply descriptor_id|lia|lia].
Qed.

(** The last segment of a valid manifest ends at the durable frontier. *)
Lemma manifest_last m before seg :
  manifest_typed m -> validate_manifest m = Ok tt -> segments m = before ++ [seg] ->
  scannable seg /\ last_sequence seg = durable_sequence m /\ last_digest seg = durable_digest m.
Proof.
  intros T Hv Hm. assert (segments m <> []) as Hne by (rewrite Hm; by destruct before). destruct (manifest_chain _ Hv Hne) as (p & Hchain & _).
  rewrite Hm in Hchain. apply segments_chain_last in Hchain as [E1 E2]. apply validate_manifest_inv in Hv as [_ Hvs]. pose proof (typed_segments _ T) as Hts.
  rewrite Hm in Hvs, Hts. apply Forall_app in Hvs as [_ Hvs]. apply Forall_app in Hts as [_ Hts]. apply Forall_cons_1 in Hvs as [Hv1 _]. apply Forall_cons_1 in Hts as [Ht1 _].
  split; [by apply valid_scannable|]. split; [lia|done].
Qed.

Lemma recovering_start dir m rs flush partial :
  manifest_typed m -> validate_manifest m = Ok tt -> log_records dir m rs ->
  (forall s cut, s ∈ segments m -> (segment_id s, cut) ∈ flush -> cut = committed_bytes s) ->
  Forall (fun entry => 0 <= entry.2 /\ entry.1 < next_segment_id m) flush ->
  recovering dir m rs (next_segment_id m) {| recovered := m; incomplete := partial; flush := flush; new_files := false |} [].
Proof.
  intros T Hv Hr Hc Hf. pose proof (manifest_durable_max _ T Hv). split; cbn; try done; [by rewrite app_nil_r|rewrite len_nil; lia|lia|by apply manifest_frontiers|..].
  - eapply Forall_impl; [exact Hf|]. by intros x [? _].
  - by apply manifest_ids.
  - by apply manifest_ids.
  - intros s cut Hs Hin. rewrite (Hc _ _ Hs Hin). lia.
  - eapply Forall_impl; [exact Hf|]. by intros x [_ ?].
Qed.

Lemma segment_ids_below m before seg : 
  Forall (fun s => segment_id s < next_segment_id m) (segments m) -> segments m = before ++ [seg] -> segment_id seg < next_segment_id m.
Proof. intros Hf Hm. rewrite Hm in Hf. apply Forall_app in Hf as [_ Hf]. by apply Forall_cons_1 in Hf as [? _]. Qed.

(** The segments of a valid manifest have IDs of their own. *)
Lemma links_increasing m segs : forall state state',
  foldR (validate_link m) state segs = Ok state' -> StronglySorted Z.lt (map segment_id segs) /\ Forall (fun s => state.1.2 < segment_id s) segs.
Proof.
  induction segs as [|x segs IH]; intros [[s0 id0] p0] state' Hf; cbn [foldR] in Hf; [by split; constructor|].
  step_ok Hf as st eqn Hx. unfold validate_link in Hx. step_ok Hx as u eqn Hu. step_if Hx eqn E. step_if Hx. step_if Hx.
  step_ok Hx as following eqn Hfo. step_if Hx. step_ok Hx as next eqn Hn. apply ok_inj in Hx as <-. apply orb_false_iff in E as [E _]. apply Z.leb_gt in E.
  destruct (IH _ _ Hf) as [Hs Hl]. cbn in Hl |- *. split.
  - constructor; [done|]. by apply Forall_map.
  - constructor; [done|]. eapply Forall_impl; [exact Hl|]. cbn. intros s ?. lia.
Qed.

Lemma manifest_increasing m : validate_manifest m = Ok tt -> StronglySorted Z.lt (map segment_id (segments m)).
Proof.
  intros Hv. unfold validate_manifest in Hv. step_if Hv. do 4 step_if Hv. step_ok Hv as policy eqn Hp. do 3 step_if Hv.
  step_ok Hv as following eqn Hf. do 2 step_if Hv. unfold validate_links in Hv. step_ok Hv as durable eqn Hd.
  destruct (bool_decide_reflect (segments m = [])) as [->|]; [constructor|]. step_ok Hv as next eqn Hn. step_ok Hv as st eqn Hs. by eapply links_increasing.
Qed.

Lemma sorted_snoc_below before x : StronglySorted Z.lt (before ++ [x]) -> Forall (fun y => y < x) before.
Proof.
  induction before as [|y before IH]; intros Hs; [constructor|]. apply StronglySorted_inv in Hs as [Hs Hy]. constructor; [|by apply IH].
  apply Forall_app in Hy as [_ Hy]. by apply Forall_cons_1 in Hy as [? _].
Qed.

(** What the scan of the last selected segment gives the recovery. *)
Lemma recovering_extended dir m rss0 before seg seg' more gs file rest rest0 partial :
  manifest_typed m -> validate_manifest m = Ok tt -> segments m = before ++ [seg] ->
  Forall2 (log_holds (log_contents dir) m) before rss0 -> Forall (agrees m) (records_of (first_sequence seg) (concat (map snd gs))) ->
  log_contents dir (segment_id seg) = Some file -> grouped file (database_id m) seg' (gs ++ more) rest ->
  grouped file (database_id m) seg gs rest0 -> scannable seg' ->
  segment_id seg' = segment_id seg -> first_sequence seg' = first_sequence seg ->
  recovering dir m (concat rss0 ++ concat (map snd gs)) (next_segment_id m)
    {| recovered := set_segments (set_durable m (last_sequence seg') (last_digest seg')) (next_segment_id m) (replace_last (segments m) seg');
       incomplete := partial; flush := [(segment_id seg', committed_bytes seg')]; new_files := false |} (concat (map snd more)).
Proof.
  intros T Hv Hm H2 Ha Hf Hg Hh Hs' E1 E2. destruct (manifest_last _ _ _ T Hv Hm) as (Hseg & Hls & Hld).
  pose proof (manifest_durable_max _ T Hv). pose proof (manifest_frontiers _ Hv) as Hck. pose proof (manifest_ids _ Hv) as [_ Hids]. pose proof (manifest_increasing _ Hv) as Hinc.
  apply grouped_holds in Hg as Hh'. pose proof Hh as (_ & Hcom & _). pose proof Hg as (_ & Hcom' & _). apply grouped_holds in Hh. pose proof (segment_chain _ _ _ _ Hh) as [_ He]. pose proof (segment_chain _ _ _ _ Hh') as [_ He'].
  rewrite map_app, concat_app, len_app in He'. pose proof (len_nonneg (concat (map snd more))). pose proof (segment_ids_below _ _ _ Hids Hm) as Hlt.
  pose proof (typed_segments _ T) as Hts. rewrite Hm, replace_last_app. rewrite Hm in Hts. rewrite Hm, map_app in Hinc. apply sorted_snoc_below in Hinc.
  apply Forall_app in Hts as [Hts _]. pose proof (scan_typed _ Hs') as T'. pose proof (scan_last _ Hs') as Hl'.
  split; cbn [recovered flush set_segments segments durable_sequence set_durable database_id manifest_checkpoint_sequence checkpoint_digest log_floor]; try done; try lia.
  - apply manifest_typed_log; [done|apply T'|apply T'|apply T|]. apply Forall_app. split; [done|]. constructor; [done|constructor].
  - exists (rss0 ++ [concat (map snd gs) ++ concat (map snd more)]). rewrite concat_app. cbn [concat]. rewrite app_nil_r, <-!app_assoc. split; [|done].
    cbn [segments set_segments]. apply Forall2_app; [eapply Forall2_impl; [exact H2|]; intros s r; by apply grows_log|].
    constructor; [|constructor]. exists file. rewrite E1. split; [done|]. rewrite map_app, concat_app in Hh'. split; [exact Hh'|].
    rewrite E2, records_of_app. apply Forall_app. split; [done|]. rewrite <-He, Hls. apply agrees_above.
    cbn [manifest_checkpoint_sequence set_segments set_durable]. lia.
  - intros s c Hin Hc. apply list_elem_of_singleton in Hc. injection Hc as Hid ->. apply elem_of_app in Hin as [Hin|Hin].
    + exfalso. rewrite Forall_forall in Hinc. specialize (Hinc (segment_id s)). rewrite Hid, E1 in Hinc.
      assert (segment_id seg < segment_id seg); [|lia]. apply Hinc. rewrite <-E1, <-Hid. apply list_elem_of_fmap. by exists s.
    + by apply list_elem_of_singleton in Hin as ->.
  - constructor; [|constructor]. cbn. apply T'.
  - rewrite Hm in Hids. apply Forall_app in Hids as [Hids _]. apply Forall_app. split; [done|]. constructor; [lia|constructor].
  - intros s c Hin Hc. apply list_elem_of_singleton in Hc. injection Hc as Hid ->. rewrite Hm in Hin. apply elem_of_app in Hin as [Hin|Hin].
    + exfalso. rewrite Forall_forall in Hinc. specialize (Hinc (segment_id s)). rewrite Hid, E1 in Hinc.
      assert (segment_id seg < segment_id seg); [|lia]. apply Hinc. rewrite <-E1, <-Hid. apply list_elem_of_fmap. by exists s.
    + apply list_elem_of_singleton in Hin as ->. rewrite map_app, concat_app, len_app in Hcom'. pose proof (len_nonneg (concat (map group_image more))). lia.
  - constructor; [cbn; lia|constructor].
Qed.

(** ** Recovery *)
Lemma recover_active_spec dir m rs recovery st :
  manifest_typed m -> validate_manifest m = Ok tt -> log_records dir m rs ->
  recover_active (log_contents dir) m recovery = Ok st -> exists more, recovering dir m rs (next_segment_id m) st more.
Proof.
  intros T Hv Hr Ha. pose proof (manifest_ids _ Hv) as [_ Hids]. pose proof (typed_database _ T) as Hdb. unfold recover_active in Ha.
  destruct (last (segments m)) as [seg|] eqn:Hlast.
  2: { apply ok_inj in Ha as <-. exists []. apply recovering_start; try done. intros s cut _ Hc. by apply not_elem_of_nil in Hc. }
  apply last_Some in Hlast as [before Hm]. destruct (manifest_last _ _ _ T Hv Hm) as (Hs & _ & _). pose proof (segment_ids_below _ _ _ Hids Hm) as Hlt.
  step_ok Ha as [extended partial] eqn Hscan. apply ok_inj in Ha as <-. apply scan_tail_file in Hscan as (file & Hf & Hscan).
  destruct Hr as (rss & H2 & ->). rewrite Hm in H2. apply Forall2_app_inv_l in H2 as (rss0 & rss1 & H20 & H21 & ->).
  inversion H21 as [|? rs1 ? ? Hrs1 Hnil]; subst. inversion Hnil; subst. destruct Hrs1 as (file1 & Hf1 & Hh1 & Ha1).
  rewrite Hf in Hf1. injection Hf1 as <-. apply holds_grouped in Hh1 as (gs & rest & Hg & ->).
  destruct (scan_sound _ _ _ _ Hdb _ _ _ _ _ _ Hs Hg Hscan) as (s' & more & rest' & [R1 R2 R3 R4 R5 R6 R7]).
  rewrite concat_app. cbn [concat]. rewrite app_nil_r. destruct R6 as [(_ & _ & ->)|(_ & -> & _)]; cbn [then_some].
  - exists []. apply recovering_start; try done.
    + exists (rss0 ++ [concat (map snd gs)]). rewrite concat_app. cbn. rewrite app_nil_r. split; [|done]. rewrite Hm. apply Forall2_app; [done|].
      constructor; [|constructor]. exists file. split; [done|]. split; [by eapply grouped_holds|done].
    + intros s cut Hin Hc. destruct partial; [|by apply not_elem_of_nil in Hc]. apply list_elem_of_singleton in Hc. injection Hc as Hid ->.
      pose proof (manifest_increasing _ Hv) as Hinc. rewrite Hm, map_app in Hinc. apply sorted_snoc_below in Hinc. rewrite Hm in Hin.
      apply elem_of_app in Hin as [Hin|Hin]; [|by apply list_elem_of_singleton in Hin as ->]. exfalso.
      rewrite Forall_forall in Hinc. specialize (Hinc (segment_id s)). rewrite Hid in Hinc. assert (segment_id seg < segment_id seg); [|lia].
      apply Hinc. rewrite <-Hid. apply list_elem_of_fmap. by exists s.
    + destruct partial; [|constructor]. constructor; [|constructor]. cbn. split; [|done]. destruct (typed_committed _ (scan_typed _ Hs)). done.
  - exists (concat (map snd more)). by eapply recovering_extended.
Qed.

(** Recovery never damages the selected log, and what it returns is that log
    and more. *)
Lemma recover_tail_spec m recovery dir rs dir' result :
  manifest_typed m -> validate_manifest m = Ok tt -> log_records dir m rs -> recover_tail m recovery dir = (dir', result) ->
  log_records dir' m rs
  /\ forall next, result = Ok next -> exists more, manifest_typed next /\ validate_manifest next = Ok tt /\ log_records dir' next (rs ++ more)
       /\ durable_sequence next = durable_sequence m + len more /\ log_floor next = log_floor m
       /\ manifest_checkpoint_sequence next = manifest_checkpoint_sequence m
       /\ database_id next = database_id m /\ log_records dir next (rs ++ more).
Proof.
  intros T Hv Hr Hrec. unfold recover_tail, bindD, get_directory, liftD in Hrec.
  destruct (recover_active (log_contents dir) m recovery) as [st|error|] eqn:Ha; [|by injection Hrec as <- <-..].
  destruct (recover_active_spec _ _ _ _ _ T Hv Hr Ha) as (more & Hst).
  destruct (segment_ids dir (next_segment_id m)) as [ids|error|] eqn:Hids; [|by injection Hrec as <- <-..].
  apply segment_ids_spec in Hids as [Hsorted Hmem].
  destruct (foldR _ st ids) as [st'|error|] eqn:Hfold; [|by injection Hrec as <- <-..].
  pose proof (typed_next_segment _ T) as [Hn0 _]. pose proof (manifest_ids _ Hv) as [Hn1 _].
  destruct (fun Hall => recover_candidates_spec _ _ _ _ _ (next_segment_id m) _ _ _ Hst ltac:(lia) Hsorted Hall Hfold) as (bound & more' & Hst').
  { apply Forall_forall. intros id (_ & Hid & Hfloor)%Hmem. lia. }
  destruct (validate_manifest (recovered st')) as [[]|error|] eqn:Hvn; cbn [map_err] in Hrec; [|by injection Hrec as <- <-..].
  destruct (flush_segments (flush st') dir) as [dir1 r1] eqn:Hflush. destruct Hst' as [].
  assert (cuts_only (flush st') dir dir1) as Hcuts by (eapply flush_cuts; [exact Hflush|done|done]).
  assert (log_records dir1 m rs) as Hr1 by (eapply cuts_records; [exact T|exact Hcuts|exact rec_selected0|exact Hr]).
  assert (log_records dir1 (recovered st') (rs ++ more ++ more')) as Hr2.
  { eapply cuts_records; [done|exact Hcuts| |done]. intros s cut Hs Hc. rewrite (rec_cuts0 _ _ Hs Hc). lia. }
  assert (forall d, entries d = entries dir1 -> forall m' rs', log_records dir1 m' rs' -> log_records d m' rs') as Hsame.
  { intros d E m' rs' Hlr. eapply grows_records; [|exact Hlr]. by apply grows_entries. }
  destruct r1 as [[]|error|]; [|by injection Hrec as <- <-..].
  destruct (new_files st'); unfold sync_directory, bindD, answered, okD, liftD in Hrec.
  - destruct (directory_answers dir1) as [|[]]; injection Hrec as <- <-; (split; [by apply Hsame|]); intros next [= <-]; exists (more ++ more');
      (split; [done|]); (split; [done|]); (split; [by apply Hsame|done]).
  - injection Hrec as <- <-. split; [done|]. intros next [= <-]. by exists (more ++ more').
Qed.

(** ** Recovery does not panic *)
Lemma suffix_loop_no_panic {S} (f : S -> LogRecord -> Result StorageError S) file database c offset first predecessor state :
  (forall state record, no_panic (f state record)) -> descriptor_typed c -> len database = 16 -> len predecessor = 32 ->
  no_panic (let* records := Records_suffix file database c offset first predecessor in
            for_records f (records_fuel records) state records).
Proof.
  intros Hnp T Hdb Hp. apply bindR_no_panic.
  - unfold Records_suffix. apply bindR_no_panic; [by apply map_err_no_panic, validate_descriptor_no_panic|]. intros u _.
    apply bindR_no_panic; [apply read_committed_no_panic|]. intros [header rest] [_ Hl]%read_committed_ok; [|done].
    apply bindR_no_panic; [by apply validate_segment_header_no_panic|]. intros _ _. apply bindR_no_panic; [|intros ? _; by destruct (_ || _)].
    unfold read_padding. destruct (_ >? _); [done|]. apply bindR_no_panic; [apply read_committed_no_panic|]. intros [? ?] _. by destruct (any_nonzero _).
  - intros R ([i [Hv _]] & Ho & Hf & Hm & ->)%Records_suffix_iff; [|done..]. pose proof (validate_descriptor_inv _ T Hv) as (Hs & Hmax & Hc & _).
    apply for_records_no_panic; [done| |done|apply records_fuel_enough; cbn; lia].
    split; cbn [reader_at log_input log_remaining log_sequence log_last log_predecessor log_group]; try lia; [|unfold BLOCK_BYTES in *; lia|done].
    unfold len. rewrite length_take. lia.
Qed.

Lemma scan_no_panic fuel file database recovery : len database = 16 -> len file <= u64_max -> forall s found,
  scannable s -> len file - committed_bytes s < BLOCK_BYTES * Z.of_nat fuel -> no_panic (scan_groups fuel file database s recovery found).
Proof.
  intros Hdb Hmax. induction fuel as [|fuel IH]; intros s found Hs Hfuel; cbn [scan_groups];
    (destruct (Z.ltb_spec (committed_bytes s) (len file)); [|done]); [unfold BLOCK_BYTES in Hfuel; lia|].
  destruct (Z.ltb_spec (len file - committed_bytes s) HEADER_BYTES); [done|]. pose proof (scan_typed _ Hs) as T. destruct (typed_committed _ T) as [Hc0 _].
  unfold HEADER_BYTES in *. apply bindR_no_panic; [apply slice_at_no_panic; lia|]. intros data Hdata.
  assert (len data = HEADER_BYTES) as Hdl by (apply slice_at_cut in Hdata as (? & ? & _ & _ & ->); unfold HEADER_BYTES; lia).
  pose proof (group_decode_no_panic _ Hdl) as Hnp. destruct (GroupHeader_decode data) as [h|error|] eqn:Hh; [|by destruct (discards _ _)|done].
  apply group_decode_iff in Hh as (_ & GT & V); [|done]. pose proof (scan_last _ Hs) as Hl. pose proof (scan_first _ Hs) as Hf.
  rewrite arith_u64_ok by lia. cbn [bindR]. destruct (_ || _) eqn:E; [done|]. apply orb_false_iff in E as [E _]. apply negb_false_iff, Z.eqb_eq in E.
  pose proof (valid_padded _ V) as [Hpad Hbig]. change (2 ^ 33) with 8589934592 in Hbig. pose proof (valid_group_inv _ V) as (Hc & _ & Hfc & _).
  rewrite (proj2 (group_bytes_ok _ _)) by (split; [done|unfold u64_max; lia]). cbn [bindR].
  destruct (Z.gtb_spec (padded (group_length h)) (len file - committed_bytes s)); [done|].
  destruct (extend s h (committed_bytes s) (padded (group_length h))) as [c|error|] eqn:Hext.
  2,3: unfold extend in Hext; do 2 (rewrite arith_u64_ok in Hext by lia; cbn [bindR] in Hext); rewrite arith_u64_ok in Hext by lia; done.
  cbn [bindR]. pose proof Hext as Hcom. destruct (extend_typed _ _ _ _ _ Hs GT Hext) as (Tc & E1 & E2 & E3).
  unfold extend in Hcom. do 2 (rewrite arith_u64_ok in Hcom by lia; cbn [bindR] in Hcom). rewrite arith_u64_ok in Hcom by lia. apply ok_inj in Hcom.
  pose proof (suffix_loop_no_panic (fun _ _ => Ok tt) file database c (committed_bytes s) (last_sequence s + 1) (last_digest s) tt (fun _ _ => ltac:(done)) Tc Hdb (typed_last_digest _ T)) as Hloop.
  match goal with |- no_panic (match ?m with _ => _ end) => destruct m as [[]|error|] eqn:Hacc end; [|by destruct (discards _ _)|done].
  apply suffix_loop_iff in Hacc as ([i [Hv _]] & _); [|done|done|apply T].
  apply IH; [by apply valid_scannable|]. rewrite <-Hcom. cbn [committed_bytes]. pose proof (padded_mod (group_length h)) as Hm.
  assert (BLOCK_BYTES <= padded (group_length h)) as Hb.
  { unfold BLOCK_BYTES in *. pose proof (Z.div_mod (padded (group_length h)) 4096 ltac:(lia)). lia. }
  unfold BLOCK_BYTES in *. lia.
Qed.

Lemma scan_tail_no_panic files database s recovery :
  len database = 16 -> scannable s -> (forall id data, files id = Some data -> len data <= u64_max) ->
  no_panic (scan_tail files database s recovery).
Proof.
  intros Hdb Hs Hmax. unfold scan_tail. destruct (files (segment_id s)) as [file|] eqn:Hf; [|done]. cbn [ok_or bindR]. destruct (_ <? _); [done|].
  apply bindR_no_panic; [apply read_committed_no_panic|]. intros [header rest] [_ Hl]%read_committed_ok; [|done].
  apply bindR_no_panic; [by apply validate_segment_header_no_panic|]. intros _ _. pose proof (scan_last _ Hs). pose proof (scan_first _ Hs).
  rewrite arith_u64_ok by lia. cbn [bindR]. apply scan_no_panic; [done|by eapply Hmax|done|]. unfold scan_fuel.
  destruct (typed_committed _ (scan_typed _ Hs)) as [Hc _]. pose proof (len_nonneg file).
  assert (0 <= len file / BLOCK_BYTES) by (apply Z.div_pos; [lia|done]). rewrite Nat2Z.inj_succ, Z2Nat.id by done.
  unfold BLOCK_BYTES in *. pose proof (Z.div_mod (len file) 4096 ltac:(lia)). pose proof (Z.mod_pos_bound (len file) 4096). lia.
Qed.

Lemma scan_keeps_id fuel file database recovery : forall s found s' partial,
  scan_groups fuel file database s recovery found = Ok (Some s', partial) -> segment_id s' = segment_id s.
Proof.
  induction fuel as [|fuel IH]; intros s found s' partial Hs; cbn [scan_groups] in Hs;
    (destruct (_ <? len file); [|destruct found; cbn in Hs; [by injection Hs as <- _|done]]); [done|].
  assert (forall p : bool, Ok (E:=StorageError) (then_some found s, p) = Ok (Some s', partial) -> segment_id s' = segment_id s) as Hstop.
  { intros p E. destruct found; [|done]. cbn in E. by injection E as <- _. }
  destruct (_ <? HEADER_BYTES); [by eapply Hstop|]. step_ok Hs as data eqn Hd. destruct (GroupHeader_decode data) as [h|error|]; [|by destruct (discards _ _); [eapply Hstop|]|done].
  step_ok Hs as q eqn Hq. step_if Hs. step_ok Hs as phys eqn Hp. destruct (_ >? _); [by eapply Hstop|]. step_ok Hs as c eqn Hc.
  match type of Hs with match ?m with _ => _ end = _ => destruct m end; [|by destruct (discards _ _); [eapply Hstop|]|done].
  apply IH in Hs. rewrite Hs. unfold extend in Hc. step_ok Hc as x eqn Hx. step_ok Hc as y eqn Hy. step_ok Hc as z eqn Hz. by apply ok_inj in Hc as <-.
Qed.

Lemma recover_candidate_no_panic files recovery st id :
  len (database_id (recovered st)) = 16 -> 0 <= durable_sequence (recovered st) < u64_max -> 0 < id < u64_max ->
  (forall i data, files i = Some data -> len data <= u64_max) -> no_panic (recover_candidate files recovery st id).
Proof.
  intros Hdb Hd Hid Hmax. unfold recover_candidate. destruct (files id) as [file|] eqn:Hf; [|done]. cbn [ok_or bindR]. destruct (_ <? _); [done|].
  apply bindR_no_panic; [apply read_committed_no_panic|]. intros [header rest] [_ Hl]%read_committed_ok; [|done].
  apply bindR_no_panic; [unfold segment_crc_valid; solve_no_panic; [apply slice_at_no_panic|apply uint_at_no_panic]; lia|]. intros valid _.
  destruct (negb valid && _); [done|]. apply bindR_no_panic; [apply uint_at_no_panic; lia|]. intros first Hfirst.
  apply bindR_no_panic; [apply slice_at_no_panic; lia|]. intros pre Hpre. apply bindR_no_panic; [by apply validate_segment_header_no_panic|]. intros _ _.
  destruct (_ || _) eqn:E; [done|]. destruct (_ <? BLOCK_BYTES); [done|]. apply orb_false_iff in E as [E1%Z.eqb_neq E2%Z.eqb_neq].
  apply uint_at_range in Hfirst; [|done]. change (256 ^ 8) with 18446744073709551616 in Hfirst. apply slice_at_cut in Hpre as (? & ? & _ & _ & Hpl).
  assert (no_panic (read_padding rest (BLOCK_BYTES - SEGMENT_BYTES))) as Hp.
  { unfold read_padding. destruct (_ >? _); [done|]. apply bindR_no_panic; [apply read_committed_no_panic|]. intros [? ?] _. by destruct (any_nonzero _). }
  destruct (read_padding _ _); [|by destruct (negb _)|done].
  assert (scannable (empty_segment id first pre BLOCK_BYTES)) as Hs by (apply empty_scannable; [done|unfold u64_max in *; lia|done]).
  apply bindR_no_panic; [by apply scan_tail_no_panic|]. intros [[found|] partial] Hscan; [|done].
  unfold link_segment. destruct (incomplete st); [done|]. rewrite arith_u64_ok by lia. cbn [bindR]. destruct (_ || _); [done|].
  apply scan_tail_file in Hscan as (file' & _ & Hscan).
  assert (segment_id found = id) as ->; [|rewrite arith_u64_ok by lia; done].
  by apply scan_keeps_id in Hscan.
Qed.

Lemma recover_candidates_no_panic dir m rs recovery ids : forall bound st more,
  recovering dir m rs bound st more -> 1 <= bound -> StronglySorted Z.lt ids -> Forall (fun id => bound <= id < u64_max) ids ->
  (forall i data, log_contents dir i = Some data -> len data <= u64_max) ->
  no_panic (foldR (recover_candidate (log_contents dir) recovery) st ids).
Proof.
  induction ids as [|id ids IH]; intros bound st more Hr Hb Hs Hall Hmax; cbn [foldR]; [done|].
  apply Forall_cons_1 in Hall as [Hid Hall]. apply StronglySorted_inv in Hs as [Hs Hlt]. pose proof (rec_typed _ _ _ _ _ _ Hr) as T.
  apply bindR_no_panic.
  - apply recover_candidate_no_panic; [apply T| |lia|done]. pose proof (rec_max _ _ _ _ _ _ Hr). destruct (typed_durable _ T). lia.
  - intros st1 H1. destruct (recover_candidate_spec _ _ _ bound _ _ id _ _ Hr ltac:(lia) ltac:(lia) H1) as (more1 & Hr1).
    eapply (IH (id + 1)); [exact Hr1|lia|done| |done]. rewrite Forall_forall in Hall, Hlt |- *. intros x Hx. specialize (Hall _ Hx). specialize (Hlt _ Hx). lia.
Qed.

Lemma flush_no_panic todo : forall dir, no_panic (flush_segments todo dir).2.
Proof.
  induction todo as [|[id n] todo IH]; intros dir; [done|]. cbn [flush_segments]. unfold flush_segment, bindD. cbn [fst snd].
  assert (forall (op : File -> File * Result StorageError unit) d, (forall f, no_panic (op f).2) -> no_panic (on_file (log_file id) op d).2) as Hop.
  { intros op d Ho. unfold on_file. destruct (entries d !! _) as [f|]; [|done]. specialize (Ho f). by destruct (op f). }
  assert (forall f, no_panic (answer f).2) as Hans by (intros f; unfold answer; by destruct (responses f) as [|[]]).
  pose proof (Hop (fun file => set_len file n) dir) as H1. destruct (on_file _ (fun file => set_len file n) dir) as [d1 [|error|]]; [|done|].
  - pose proof (Hop sync_file d1) as H2. destruct (on_file _ sync_file d1) as [d2 [|error|]]; [apply IH|done|]. by destruct (H2 sync_no_panic).
  - destruct H1; [|done]. intros f. unfold set_len. pose proof (Hans f) as Ha. by destruct (answer f) as [g []].
Qed.

Lemma recover_active_no_panic dir m recovery :
  manifest_typed m -> validate_manifest m = Ok tt -> (forall i data, log_contents dir i = Some data -> len data <= u64_max) ->
  no_panic (recover_active (log_contents dir) m recovery).
Proof.
  intros T Hv Hmax. unfold recover_active. destruct (last (segments m)) as [seg|] eqn:Hlast; [|done]. apply last_Some in Hlast as [before Hm].
  destruct (manifest_last _ _ _ T Hv Hm) as (Hs & _ & _). apply bindR_no_panic; [by apply scan_tail_no_panic; [apply T|..]|]. by intros [? ?] _.
Qed.

Lemma recover_tail_no_panic m recovery dir rs :
  manifest_typed m -> validate_manifest m = Ok tt -> log_records dir m rs ->
  (forall i data, log_contents dir i = Some data -> len data <= u64_max) -> no_panic (recover_tail m recovery dir).2.
Proof.
  intros T Hv Hr Hmax. unfold recover_tail, bindD, get_directory, liftD.
  pose proof (recover_active_no_panic dir m recovery T Hv Hmax) as Hnp.
  destruct (recover_active (log_contents dir) m recovery) as [st|error|] eqn:Ha; [|done..].
  destruct (recover_active_spec _ _ _ _ _ T Hv Hr Ha) as (more & Hst).
  destruct (segment_ids dir (next_segment_id m)) as [ids|error|] eqn:Hids; [|done|unfold segment_ids in Hids; by destruct (_ <? _)].
  apply segment_ids_spec in Hids as [Hsorted Hmem]. pose proof (typed_next_segment _ T) as [Hn0 _]. pose proof (manifest_ids _ Hv) as [Hn1 _].
  assert (Forall (fun id => next_segment_id m <= id < u64_max) ids) as Hall by (apply Forall_forall; intros id (_ & Hid & Hfloor)%Hmem; lia).
  pose proof (recover_candidates_no_panic _ _ _ recovery ids _ _ _ Hst ltac:(lia) Hsorted Hall Hmax) as Hnp2.
  destruct (foldR _ st ids) as [st'|error|] eqn:Hfold; [|done..].
  destruct (recover_candidates_spec _ _ _ _ _ (next_segment_id m) _ _ _ Hst ltac:(lia) Hsorted Hall Hfold) as (bound & more' & Hst').
  pose proof (validate_manifest_no_panic _ (rec_typed _ _ _ _ _ _ Hst')) as Hnp3.
  destruct (validate_manifest (recovered st')) as [[]|error|]; cbn [map_err]; [|done..].
  pose proof (flush_no_panic (flush st') dir) as Hnp4. destruct (flush_segments (flush st') dir) as [d1 [[]|error|]]; [|done..].
  destruct (new_files st'); unfold sync_directory, bindD, answered, okD, liftD; [|done]. by destruct (directory_answers d1) as [|[]].
Qed.
End LogRecovery.
