(* ===== verification/LogSurvival.v ===== *)
(** * Acknowledged groups survive recovery

    The bytes of a log determine its groups, and a recovery that succeeds from
    an earlier manifest finds every segment of the log again, at least as far. *)
From stdpp Require Import sorting.
From Stdlib Require Import Sorted.
From S2P Require Import Prelude OrdMap Errors Bytes Limits Metadata MetadataFacts Wal WalFacts LogFacts LogChains LogValidation Storage Platform Page Checkpoint Store Directory Log LogAppend LogRecovery.

Section LogSurvival.
Context `{Checksum} `{Sha256}.

(** ** The bytes of a log determine its groups *)
Lemma canonical_unique s p r r' rest rest' :
  len p = 32 -> canonical s p r -> canonical s p r' -> r ++ rest = r' ++ rest' -> r = r' /\ rest = rest'.
Proof.
  intros Hp (k & body & -> & Hok) (k' & body' & -> & Hok') E. apply app_len_inj; [exact E|].
  pose proof (record_image_length s k p body rest Hp Hok) as L. rewrite E, record_image_length in L by done. injection L as L.
  rewrite !len_record_image by done. lia.
Qed.

Lemma records_unique rs : forall rs' s p d d' rest rest',
  len p = 32 -> records_chain s p rs d -> records_chain s p rs' d' -> length rs = length rs' ->
  concat rs ++ rest = concat rs' ++ rest' -> rs = rs' /\ rest = rest'.
Proof.
  induction rs as [|r rs IH]; intros [|r' rs'] s p d d' rest rest' Hp Hc Hc' Hl E; try done.
  destruct Hc as [Hr Hc]. destruct Hc' as [Hr' Hc']. cbn [concat] in E. rewrite <-!app_assoc in E.
  destruct (canonical_unique _ _ _ _ _ _ Hp Hr Hr' E) as [<- E']. injection Hl as Hl.
  destruct (IH _ _ _ _ _ _ _ (sha256_len r) Hc Hc' Hl E') as [<- <-]. done.
Qed.

Lemma group_unique s p g g' rest rest' :
  group_ok s p g -> group_ok s p g' -> group_image g ++ rest = group_image g' ++ rest' -> g = g' /\ rest = rest'.
Proof.
  intros Hg Hg' E. destruct g as [h rs], g' as [h' rs']. cbn [group_image] in E. rewrite <-!app_assoc in E.
  pose proof (len_header_image _ (ok_typed _ _ _ Hg)) as L. pose proof (len_header_image _ (ok_typed _ _ _ Hg')) as L'. cbn [fst] in L, L'.
  apply app_len_inj in E as [Eh E]; [|lia].
  assert (h = h') as <-.
  { pose proof (proj2 (group_decode_iff _ h L) (conj eq_refl (conj (ok_typed _ _ _ Hg) (ok_valid _ _ _ Hg)))) as D.
    rewrite Eh in D. apply group_decode_iff in D as (E2 & _); [|done].
    pose proof (proj2 (group_decode_iff _ h' L') (conj eq_refl (conj (ok_typed _ _ _ Hg') (ok_valid _ _ _ Hg')))) as D'.
    pose proof (proj2 (group_decode_iff _ h L) (conj eq_refl (conj (ok_typed _ _ _ Hg) (ok_valid _ _ _ Hg)))) as D.
    rewrite Eh in D. rewrite D in D'. by injection D'. }
  assert (length rs = length rs') as Hl.
  { pose proof (ok_count _ _ _ Hg) as C. pose proof (ok_count _ _ _ Hg') as C'. cbn in C, C'. unfold len in *. lia. }
  assert (len p = 32) as Hp by (rewrite <-(ok_predecessor _ _ _ Hg); apply (ok_typed _ _ _ Hg)).
  destruct (records_unique _ _ _ _ _ _ _ _ Hp (ok_records _ _ _ Hg) (ok_records _ _ _ Hg') Hl E) as [Er E2]. cbn [snd] in Er. subst rs'.
  apply app_inv_head in E2. done.
Qed.

Lemma groups_prefix gs : forall gs' s p e d e' d' rest rest',
  groups_chain s p gs e d -> groups_chain s p gs' e' d' -> concat (map group_image gs) ++ rest = concat (map group_image gs') ++ rest' ->
  len (concat (map group_image gs)) <= len (concat (map group_image gs')) ->
  exists more, gs' = gs ++ more /\ rest = concat (map group_image more) ++ rest'.
Proof.
  induction gs as [|g gs IH]; intros gs' s p e d e' d' rest rest' Hc Hc' E Hl; [by exists gs'|].
  destruct Hc as [Hg Hc]. cbn [map concat] in E, Hl. rewrite len_app, (len_group_image _ _ _ Hg) in Hl.
  pose proof (valid_padded _ (ok_valid _ _ _ Hg)) as [Hpad _]. pose proof (len_nonneg (concat (map group_image gs))).
  destruct gs' as [|g' gs']; [cbn in Hl; rewrite len_nil in Hl; lia|]. destruct Hc' as [Hg' Hc']. cbn [map concat] in E, Hl. rewrite <-!app_assoc in E.
  destruct (group_unique _ _ _ _ _ _ Hg Hg' E) as [<- E']. rewrite len_app, (len_group_image _ _ _ Hg) in Hl.
  destruct (IH _ _ _ _ _ _ _ _ _ Hc Hc' E') as (more & -> & ->); [lia|]. by exists more.
Qed.

(** ** Reading a segment's header *)
Lemma image_fields database s :
  len database = 16 -> descriptor_typed s ->
  segment_crc_valid (segment_image database s) = Ok true
  /\ uint_at (E:=StorageError) (segment_image database s) 8 40 = Ok (first_sequence s)
  /\ slice_at (E:=StorageError) (segment_image database s) 48 80 = Ok (predecessor_digest s).
Proof.
  intros Hdb T. destruct T as [T1 T2 T3 T4 T5 T6]. pose proof (len_segment_body database s Hdb T5) as Hb. unfold is_u64 in *. assert (len segment_magic = 8) as Hm by done.
  split; [|split].
  - unfold segment_crc_valid, segment_image. rewrite slice_at_here by lia. cbn [bindR]. rewrite uint_at_skip, Hb by lia. rewrite <-(app_nil_r (le_bytes 4 _)).
    rewrite uint_at_here by (done || apply crc_u32). cbn [bindR]. by rewrite Z.eqb_refl.
  - unfold segment_image, segment_body. rewrite <-!app_assoc. field_skip. by rewrite uint_at_here by (done || field_len).
  - unfold segment_image, segment_body. rewrite <-!app_assoc. field_skip. by rewrite slice_at_here by field_len.
Qed.

Lemma image_same database s s' :
  segment_id s' = segment_id s -> first_sequence s' = first_sequence s -> predecessor_digest s' = predecessor_digest s ->
  segment_image database s' = segment_image database s.
Proof. intros E1 E2 E3. unfold segment_image, segment_body. by rewrite E1, E2, E3. Qed.

(** [s'] is [s], or a longer version of it. *)
Definition covered_by (s s' : SegmentDescriptor) : Prop :=
  segment_id s' = segment_id s /\ first_sequence s' = first_sequence s /\ predecessor_digest s' = predecessor_digest s
  /\ committed_bytes s <= committed_bytes s' /\ last_sequence s <= last_sequence s'.

(** The manifest lists [s], or more of it. *)
Definition covers (next : Manifest) (s : SegmentDescriptor) : Prop := exists s', s' ∈ segments next /\ covered_by s s'.

Lemma grouped_covers file database s gs rest s' more rest' :
  grouped file database s gs rest -> grouped file database s' (gs ++ more) rest' -> first_sequence s' = first_sequence s ->
  committed_bytes s <= committed_bytes s' /\ last_sequence s <= last_sequence s'.
Proof.
  intros (_ & Hc & Hg%groups_chain_end) (_ & Hc' & Hg'%groups_chain_end) E. rewrite !map_app, !concat_app, !len_app in *.
  pose proof (len_nonneg (concat (map group_image more))). pose proof (len_nonneg (concat (map snd more))). lia.
Qed.

(** The turn of a candidate whose file holds groups of [s]. *)
Lemma candidate_covers files recovery st file s gs rest st' :
  let database := database_id (recovered st) in
  len database = 16 -> scannable s -> files (segment_id s) = Some file -> len file <= u64_max ->
  grouped file database s gs rest -> gs <> [] ->
  recover_candidate files recovery st (segment_id s) = Ok st' -> covers (recovered st') s.
Proof.
  intros database Hdb Hs Hf Hmax Hg Hne Hr. pose proof (scan_typed _ Hs) as T. pose proof (typed_predecessor _ T) as Hp.
  destruct (image_fields database s Hdb T) as (F1 & F2 & F3). pose proof (len_segment_image database s Hdb Hp) as Hil.
  pose proof Hg as (Hfile & Hcom & Hch). pose proof (len_nonneg (concat (map group_image gs))). pose proof (len_nonneg rest).
  set (e := empty_segment (segment_id s) (first_sequence s) (predecessor_digest s) BLOCK_BYTES).
  assert (BLOCK_BYTES <= len file) as Hlen.
  { rewrite Hfile, !len_app, Hil, len_zeros by done. unfold BLOCK_BYTES, SEGMENT_BYTES, SEGMENT_HEADER_LENGTH. lia. }
  assert (scannable e) as He.
  { pose proof (scan_id _ Hs) as Hid. unfold valid_id in Hid. pose proof (typed_segment_id _ T) as Hu. unfold is_u64, u64_max in *. change (256 ^ 8) with 18446744073709551616 in Hu.
    apply empty_scannable; [bsimp; unfold u64_max; lia|unfold u64_max; apply (scan_first _ Hs)|done]. }
  assert (grouped file database e [] (concat (map group_image gs) ++ rest)) as Hge.
  { split; [exact Hfile|]. split; [done|]. cbn. pose proof (scan_first _ Hs). split; [lia|done]. }
  unfold recover_candidate in Hr. rewrite Hf in Hr. cbn [ok_or bindR] in Hr. fold database in Hr.
  rewrite (proj2 (Z.ltb_ge _ _)) in Hr by (unfold BLOCK_BYTES, SEGMENT_BYTES, SEGMENT_HEADER_LENGTH in *; lia).
  rewrite (proj2 (read_committed_ok file 96 (segment_image database s) (zeros (BLOCK_BYTES - SEGMENT_BYTES) ++ concat (map group_image gs) ++ rest) ltac:(done)) (conj Hfile Hil)) in Hr.
  cbn [bindR] in Hr. rewrite F1 in Hr. cbn [bindR negb andb] in Hr. rewrite F2 in Hr. cbn [bindR] in Hr. rewrite F3 in Hr. cbn [bindR] in Hr.
  step_ok Hr as u eqn Hv. step_if Hr eqn E. rewrite (proj2 (Z.ltb_ge _ _)) in Hr by done.
  rewrite (proj2 (read_padding_ok _ (BLOCK_BYTES - SEGMENT_BYTES) (concat (map group_image gs) ++ rest) ltac:(done))) in Hr by done.
  fold e in Hr. step_ok Hr as [found partial] eqn Hscan. apply scan_tail_file in Hscan as (file' & Hf' & Hscan). cbn [segment_id empty_segment e] in Hf'.
  rewrite Hf in Hf'. injection Hf' as <-.
  destruct (fun Hch' => scan_reach gs _ _ _ _ _ _ _ _ _ _ (last_sequence s + 1) (last_digest s) Hdb He Hmax Hge Hch' Hscan) as (s' & rest' & gs' & [R1 R2 R3 R4 R5 R6 R7]).
  { cbn. pose proof (scan_first _ Hs). replace (Z.max 0 (first_sequence s - 1) + 1) with (first_sequence s) by lia. exact Hch. }
  destruct R6 as [(E0 & _)|(_ & -> & _)]; [by destruct gs|]. unfold link_segment in Hr. step_if Hr. step_ok Hr as fo eqn Hfo. step_if Hr.
  step_ok Hr as nid eqn Hnid. apply ok_inj in Hr as <-. exists s'. cbn [recovered set_segments segments].
  split; [apply elem_of_app; right; by apply list_elem_of_singleton|]. split; [done|]. split; [done|]. split; [done|].
  cbn [app] in R1. by eapply grouped_covers.
Qed.

(** ** Covering lasts *)
Lemma covers_app m m' more s : segments m' = segments m ++ more -> covers m s -> covers m' s.
Proof. intros E (s' & Hin & Hrest). exists s'. split; [rewrite E; apply elem_of_app; by left|done]. Qed.

Lemma candidate_grows files recovery st id st' :
  len (database_id (recovered st)) = 16 -> 0 < id < u64_max -> recover_candidate files recovery st id = Ok st' ->
  database_id (recovered st') = database_id (recovered st) /\ exists more, segments (recovered st') = segments (recovered st) ++ more.
Proof.
  intros Hdb Hid Hr. apply recover_candidate_inv in Hr as [->|[(cut & _ & ->)|(file & first & pre & rest & found & partial & _ & _ & _ & _ & Hl)]]; [..|done|done].
  - split; [done|]. exists []. by rewrite app_nil_r.
  - split; [done|]. exists []. by rewrite app_nil_r.
  - unfold link_segment in Hl. step_if Hl. step_ok Hl as fo eqn Hfo. step_if Hl. step_ok Hl as nid eqn Hnid. apply ok_inj in Hl as <-. split; [done|]. by exists [found].
Qed.

Lemma candidates_grow files recovery ids : forall st st',
  len (database_id (recovered st)) = 16 -> Forall (fun id => 0 < id < u64_max) ids -> foldR (recover_candidate files recovery) st ids = Ok st' ->
  exists more, segments (recovered st') = segments (recovered st) ++ more.
Proof.
  induction ids as [|id ids IH]; intros st st' Hdb Hids Hf; cbn [foldR] in Hf; [apply ok_inj in Hf as <-; exists []; by rewrite app_nil_r|].
  apply Forall_cons_1 in Hids as [Hid Hids]. step_ok Hf as st1 eqn H1. destruct (candidate_grows _ _ _ _ _ Hdb Hid H1) as [E (m1 & M1)].
  rewrite <-E in Hdb. destruct (IH _ _ Hdb Hids Hf) as (m2 & ->). exists (m1 ++ m2). by rewrite M1, <-app_assoc.
Qed.

Lemma candidates_cover files recovery ids s file gs rest : forall st st',
  len (database_id (recovered st)) = 16 -> Forall (fun id => 0 < id < u64_max) ids -> foldR (recover_candidate files recovery) st ids = Ok st' ->
  segment_id s ∈ ids -> scannable s -> files (segment_id s) = Some file -> len file <= u64_max ->
  grouped file (database_id (recovered st)) s gs rest -> gs <> [] -> covers (recovered st') s.
Proof.
  induction ids as [|id ids IH]; intros st st' Hdb Hids Hf Hin Hs Hfile Hmax Hg Hne; [by apply not_elem_of_nil in Hin|]. cbn [foldR] in Hf.
  apply Forall_cons_1 in Hids as [Hid Hids]. step_ok Hf as st1 eqn H1. destruct (candidate_grows _ _ _ _ _ Hdb Hid H1) as [E _].
  apply elem_of_cons in Hin as [<-|Hin].
  - pose proof (candidate_covers _ _ _ _ _ _ _ _ Hdb Hs Hfile Hmax Hg Hne H1) as Hcov. rewrite <-E in Hdb.
    destruct (candidates_grow _ _ _ _ _ Hdb Hids Hf) as (more & Hm). by eapply covers_app.
  - rewrite <-E in Hdb, Hg. by eapply IH.
Qed.

(** ** A later manifest of the same log *)

(** [l] lists the segments of [m], the last one possibly longer, and then
    segments with IDs [m] had not used. *)
Record continues (m l : Manifest) : Prop := {
  continues_database : database_id l = database_id m;
  continues_next : next_segment_id m <= next_segment_id l;
  continues_segments :
    (segments m = [] /\ Forall (fun s => next_segment_id m <= segment_id s) (segments l))
    \/ exists before seg seg' new, segments m = before ++ [seg] /\ segments l = before ++ seg' :: new
       /\ segment_id seg' = segment_id seg /\ first_sequence seg' = first_sequence seg
       /\ predecessor_digest seg' = predecessor_digest seg /\ committed_bytes seg <= committed_bytes seg'
       /\ Forall (fun s => next_segment_id m <= segment_id s) new }.

Lemma continues_refl m : continues m m.
Proof.
  split; [done|lia|]. destruct (segments m) as [|seg before _] using rev_ind; [by left|]. right. exists before, seg, seg, [].
  do 5 (split; [done|]). split; [lia|constructor].
Qed.

Lemma appended_continues m records b dir dir' next :
  batch_ok m records b -> appended m b dir dir' next -> manifest_typed m -> continues m next.
Proof.
  intros B (dir1 & next1 & seg & file & file' & Hop & -> & _ & _ & Hg & _) T. pose proof (typed_next_segment _ T) as [Hn _].
  destruct (opened_segments _ _ _ _ _ _ _ Hop) as (before & Hseg & Hset & Hcase). rewrite Hset, Hseg, replace_last_app.
  pose proof (valid_padded _ (ok_valid _ _ _ Hg)) as [Hpad _]. cbn [fst batch_group_header group_length] in Hpad.
  destruct Hcase as [(Hm & Hid & _)|(Hm & Hid & _ & _ & _ & _ & _ & _ & Hr)]; (split; cbn; [done|lia|]).
  - right. exists before, seg, (appended_segment seg b), []. do 5 (split; [done|]). split; [cbn; lia|constructor].
  - destruct before as [|s0 bs _] using rev_ind; [left; split; [done|]; constructor; [cbn; lia|constructor]|].
    right. exists bs, s0, s0, [appended_segment seg b]. rewrite <-app_assoc. do 5 (split; [done|]). split; [lia|]. constructor; [cbn; lia|constructor].
Qed.

Lemma continues_trans m l k : continues m l -> continues l k -> continues m k.
Proof.
  intros [D1 N1 S1] [D2 N2 S2]. split; [congruence|lia|].
  assert (forall new, Forall (fun s => next_segment_id l <= segment_id s) new -> Forall (fun s => next_segment_id m <= segment_id s) new) as Hmono.
  { intros new Hf. eapply Forall_impl; [exact Hf|]. cbn. intros; lia. }
  destruct S2 as [[Hl Hk]|(before2 & s2 & s2' & new2 & Hl & Hk & I2 & F2 & P2 & C2 & Hn2)].
  - destruct S1 as [[Hm _]|(before & s & s' & new & _ & Hl' & _)]; [left; split; [done|by apply Hmono]|]. rewrite Hl in Hl'. by destruct before.
  - destruct S1 as [[Hm Hall]|(before & s & s' & new & Hm & Hl' & I1 & F1 & P1 & C1 & Hn1)].
    + left. split; [done|]. rewrite Hl in Hall. rewrite Hk. apply Forall_app in Hall as [Ha1 Ha2]. apply Forall_cons_1 in Ha2 as [Ha2 _].
      apply Forall_app. split; [done|]. constructor; [lia|by apply Hmono].
    + right. rewrite Hl in Hl'. destruct new as [|x new _] using rev_ind.
      * apply app_inj_tail in Hl' as [<- <-]. exists before2, s, s2', new2. split; [done|]. split; [done|]. split; [congruence|]. split; [congruence|]. split; [congruence|].
        split; [lia|by apply Hmono].
      * rewrite app_comm_cons, app_assoc in Hl'. apply app_inj_tail in Hl' as [-> <-]. apply Forall_app in Hn1 as [Hn1 Hx]. apply Forall_cons_1 in Hx as [Hx _].
        exists before, s, s', (new ++ s2' :: new2). split; [done|]. split; [rewrite Hk, <-app_assoc; done|]. do 4 (split; [done|]).
        apply Forall_app. split; [done|]. constructor; [lia|by apply Hmono].
Qed.

(** ** The active segment is found as far as it goes *)
Lemma groups_chain_split gs gs' : forall s p e d,
  groups_chain s p (gs ++ gs') e d -> exists e0 d0, groups_chain s p gs e0 d0 /\ groups_chain e0 d0 gs' e d.
Proof.
  induction gs as [|g gs IH]; intros s p e d Hc; [by exists s, p|]. destruct Hc as [Hg Hc]. destruct (IH _ _ _ _ Hc) as (e0 & d0 & H1 & H2). by exists e0, d0.
Qed.

Lemma groups_chain_fun gs : forall s p e d e' d', groups_chain s p gs e d -> groups_chain s p gs e' d' -> e = e' /\ d = d'.
Proof.
  induction gs as [|g gs IH]; intros s p e d e' d'; [by intros [-> ->] [-> ->]|]. intros [_ H1] [_ H2]. by eapply IH.
Qed.

(** The groups of a longer version of the same segment. *)
Lemma grouped_longer file database s s' gs gs' rest rest' :
  grouped file database s gs rest -> grouped file database s' gs' rest' -> segment_id s' = segment_id s -> first_sequence s' = first_sequence s ->
  predecessor_digest s' = predecessor_digest s -> committed_bytes s <= committed_bytes s' ->
  exists more, gs' = gs ++ more /\ rest = concat (map group_image more) ++ rest'
    /\ groups_chain (last_sequence s + 1) (last_digest s) more (last_sequence s' + 1) (last_digest s').
Proof.
  intros (Hf & Hc & Hg) (Hf' & Hc' & Hg') E1 E2 E3 Hle. rewrite (image_same _ _ _ E1 E2 E3) in Hf'. rewrite Hf in Hf'.
  do 2 apply app_inv_head in Hf'. rewrite E2, E3 in Hg'. destruct (groups_prefix _ _ _ _ _ _ _ _ _ _ Hg Hg' Hf') as (more & -> & ->); [lia|].
  exists more. split; [done|]. split; [done|]. destruct (groups_chain_split _ _ _ _ _ _ Hg') as (e0 & d0 & H1 & H2).
  destruct (groups_chain_fun _ _ _ _ _ _ _ Hg H1) as [-> ->]. done.
Qed.

Lemma active_covers dir m recovery st before seg seg' file gs gs' rest rest' :
  manifest_typed m -> validate_manifest m = Ok tt -> segments m = before ++ [seg] ->
  log_contents dir (segment_id seg) = Some file -> len file <= u64_max ->
  grouped file (database_id m) seg gs rest -> grouped file (database_id m) seg' gs' rest' ->
  segment_id seg' = segment_id seg -> first_sequence seg' = first_sequence seg -> predecessor_digest seg' = predecessor_digest seg ->
  committed_bytes seg <= committed_bytes seg' ->
  recover_active (log_contents dir) m recovery = Ok st ->
  database_id (recovered st) = database_id m /\ (exists x, segments (recovered st) = before ++ [x]) /\ covers (recovered st) seg'.
Proof.
  intros T Hv Hm Hf Hmax Hg Hg' E1 E2 E3 Hle Ha. destruct (manifest_last _ _ _ T Hv Hm) as (Hs & _ & _). pose proof (typed_database _ T) as Hdb.
  destruct (grouped_longer _ _ _ _ _ _ _ _ Hg Hg' E1 E2 E3 Hle) as (more & -> & -> & Hmore).
  unfold recover_active in Ha. rewrite Hm, last_snoc in Ha. step_ok Ha as [ext partial] eqn Hscan. apply ok_inj in Ha as <-.
  apply scan_tail_file in Hscan as (file' & Hf' & Hscan). rewrite Hf in Hf'. injection Hf' as <-.
  destruct (scan_reach more _ _ _ _ _ _ _ _ _ _ _ _ Hdb Hs Hmax Hg Hmore Hscan) as (s' & rest2 & gs2 & [R1 R2 R3 R4 R5 R6 R7]).
  rewrite app_assoc in R1. assert (first_sequence s' = first_sequence seg') as Efirst by congruence. destruct (grouped_covers _ _ _ _ _ _ _ _ Hg' R1 Efirst) as [C1 C2].
  destruct R6 as [(E0 & -> & ->)|(_ & -> & _)]; cbn [then_some recovered].
  - split; [done|]. split; [by exists seg|]. exists seg. rewrite Hm. split; [apply elem_of_app; right; by apply list_elem_of_singleton|done].
  - split; [done|]. cbn [segments set_segments]. rewrite replace_last_app. split; [by exists s'|]. exists s'. cbn [segments set_segments].
    split; [apply elem_of_app; right; by apply list_elem_of_singleton|]. split; [congruence|]. split; [done|]. split; [congruence|done].
Qed.

(** ** Every segment of the later log is found again *)
Lemma held_grouped dir m s rs :
  manifest_typed m -> validate_manifest m = Ok tt -> log_records dir m rs -> s ∈ segments m ->
  exists file gs rest, log_contents dir (segment_id s) = Some file /\ grouped file (database_id m) s gs rest /\ gs <> [] /\ scannable s.
Proof.
  intros T Hv (rss & H2 & _) Hin. apply list_elem_of_lookup in Hin as (i & Hi). destruct (Forall2_lookup_l _ _ _ _ _ H2 Hi) as (r & _ & file & Hf & Hh & _).
  apply holds_grouped in Hh as (gs & rest & Hg & ->). apply validate_manifest_inv in Hv as [_ Hvs].
  pose proof (Forall_lookup_1 _ _ _ _ Hvs Hi) as Hvs1. pose proof (Forall_lookup_1 _ _ _ _ (typed_segments _ T) Hi) as Ts.
  exists file, gs, rest. split; [done|]. split; [done|]. pose proof (validate_descriptor_inv _ Ts Hvs1) as (Hr & _). split; [|by apply valid_scannable].
  intros ->. destruct Hg as (_ & _ & E%groups_chain_end). cbn in E. rewrite len_nil in E. lia.
Qed.

Lemma active_start dir m recovery st :
  segments m = [] -> recover_active (log_contents dir) m recovery = Ok st -> database_id (recovered st) = database_id m.
Proof. unfold recover_active. intros ->. cbn. by intros <-%ok_inj. Qed.

Lemma covers_self m s : s ∈ segments m -> covers m s.
Proof. intros Hs. exists s. do 4 (split; [done|]). lia. Qed.

(** What the active segment's scan leaves covers the old segments. *)
Lemma active_all_covers dir m l recovery st rs rsl :
  manifest_typed m -> validate_manifest m = Ok tt -> log_records dir m rs ->
  manifest_typed l -> validate_manifest l = Ok tt -> log_records dir l rsl -> continues m l ->
  (forall id data, log_contents dir id = Some data -> len data <= u64_max) ->
  recover_active (log_contents dir) m recovery = Ok st ->
  database_id (recovered st) = database_id m
  /\ Forall (fun s => covers (recovered st) s \/ next_segment_id m <= segment_id s) (segments l).
Proof.
  intros T Hv Hr Tl Hvl Hrl [D N [[Hm Hall]|(before & seg & seg' & new & Hm & Hl & E1 & E2 & E3 & Hle & Hnew)]] Hmax Ha.
  - split; [by eapply active_start|]. eapply Forall_impl; [exact Hall|]. auto.
  - destruct (held_grouped _ _ seg _ T Hv Hr) as (file & gs & rest & Hf & Hg & _ & _); [rewrite Hm; apply elem_of_app; right; by apply list_elem_of_singleton|].
    destruct (held_grouped _ _ seg' _ Tl Hvl Hrl) as (file' & gs' & rest' & Hf' & Hg' & _ & _); [rewrite Hl; apply elem_of_app; right; by left|].
    rewrite E1, Hf in Hf'. injection Hf' as <-. rewrite D in Hg'.
    destruct (active_covers _ _ _ _ _ _ _ _ _ _ _ _ T Hv Hm Hf (Hmax _ _ Hf) Hg Hg' E1 E2 E3 Hle Ha) as (Hdb & (x & Hx) & Hcov).
    split; [done|]. rewrite Hl. apply Forall_app. split; [|constructor; [by left|eapply Forall_impl; [exact Hnew|]; auto]].
    apply Forall_forall. intros s Hs. left. apply covers_self. rewrite Hx. apply elem_of_app. by left.
Qed.

Lemma chain_below segs x : forall s p s' p',
  segments_chain s p segs s' p' -> Forall (fun y => validate_descriptor y = Ok tt) segs -> Forall descriptor_typed segs -> x ∈ segs -> last_sequence x < s'.
Proof.
  induction segs as [|y segs IH]; intros s p s' p' Hc Hv Ht Hin; [by apply not_elem_of_nil in Hin|].
  destruct Hc as (_ & _ & Hc). apply Forall_cons_1 in Hv as [Hvy Hv]. apply Forall_cons_1 in Ht as [Hty Ht].
  assert (forall segs s p s' p', segments_chain s p segs s' p' -> Forall (fun y => validate_descriptor y = Ok tt) segs -> Forall descriptor_typed segs -> s <= s') as Hmono.
  { clear. induction segs as [|z segs IH]; intros s p s' p' Hc Hv Ht; [destruct Hc; lia|]. destruct Hc as (<- & _ & Hc).
    apply Forall_cons_1 in Hv as [Hvz Hv]. apply Forall_cons_1 in Ht as [Htz Ht]. pose proof (validate_descriptor_inv _ Htz Hvz) as (Hr & _).
    specialize (IH _ _ _ _ Hc Hv Ht). lia. }
  apply elem_of_cons in Hin as [->|Hin]; [specialize (Hmono _ _ _ _ _ Hc Hv Ht); lia|]. by eapply IH.
Qed.

Lemma covers_durable m s : manifest_typed m -> validate_manifest m = Ok tt -> covers m s -> last_sequence s <= durable_sequence m.
Proof.
  intros T Hv (s' & Hin & _ & _ & _ & _ & Hl). assert (segments m <> []) as Hne by (intros E; rewrite E in Hin; by apply not_elem_of_nil in Hin).
  destruct (manifest_chain _ Hv Hne) as (p & Hc & _). apply validate_manifest_inv in Hv as [_ Hvs].
  pose proof (chain_below _ _ _ _ _ _ Hc Hvs (typed_segments _ T) Hin). lia.
Qed.

Lemma recovery_keeps m l recovery dir dir' next rs rsl :
  manifest_typed m -> validate_manifest m = Ok tt -> log_records dir m rs ->
  manifest_typed l -> validate_manifest l = Ok tt -> log_records dir l rsl -> continues m l ->
  (forall id data, log_contents dir id = Some data -> len data <= u64_max) ->
  recover_tail m recovery dir = (dir', Ok next) ->
  Forall (fun s => covers next s /\ last_sequence s <= durable_sequence next) (segments l).
Proof.
  intros T Hv Hr Tl Hvl Hrl Hcont Hmax Hrec. destruct (recover_tail_spec _ _ _ _ _ _ T Hv Hr Hrec) as (_ & Hnext).
  destruct (Hnext _ eq_refl) as (_ & TN & HvN & _ & _). clear Hnext.
  assert (Forall (covers next) (segments l)) as Hcov; [|eapply Forall_impl; [exact Hcov|]; intros s Hs; split; [done|by apply covers_durable]].
  unfold recover_tail, bindD, get_directory, liftD in Hrec.
  destruct (recover_active (log_contents dir) m recovery) as [st|error|] eqn:Ha; [|done..].
  destruct (active_all_covers _ _ _ _ _ _ _ T Hv Hr Tl Hvl Hrl Hcont Hmax Ha) as [Hdb Hall].
  destruct (segment_ids dir (next_segment_id m)) as [ids|error|] eqn:Hids; [|done..]. apply segment_ids_spec in Hids as [Hsorted Hmem].
  destruct (foldR _ st ids) as [st'|error|] eqn:Hfold; [|done..].
  assert (recovered st' = next) as <-.
  { destruct (map_err Corrupt _); [|done..]. destruct (flush_segments _ dir) as [d1 [|?|]]; [|done..].
    destruct ((if new_files st' then sync_directory else okD tt) d1) as [d2 [|?|]]; [|done..]. by injection Hrec. }
  pose proof (typed_database _ T) as Hdb16. rewrite <-Hdb in Hdb16. pose proof (typed_next_segment _ T) as [Hn0 _]. pose proof (manifest_ids _ Hv) as [Hn1 _].
  assert (Forall (fun id => 0 < id < u64_max) ids) as Hrange by (apply Forall_forall; intros id (_ & Hid & Hfloor)%Hmem; lia).
  apply Forall_forall. intros s Hin. rewrite Forall_forall in Hall. destruct (Hall _ Hin) as [Hcov|Hid].
  - destruct (candidates_grow _ _ _ _ _ Hdb16 Hrange Hfold) as (more & E). by eapply covers_app.
  - destruct (held_grouped _ _ s _ Tl Hvl Hrl Hin) as (file & gs & rest & Hf & Hg & Hne & Hs).
    rewrite (continues_database _ _ Hcont), <-Hdb in Hg. eapply candidates_cover; try done; [|by eapply Hmax].
    apply Hmem. unfold log_contents in Hf. destruct (entries dir !! _) as [f|] eqn:E; [|done]. split; [by exists f|].
    pose proof (scan_id _ Hs) as Hsid. pose proof (typed_segment_id _ (scan_typed _ Hs)) as Hu. unfold valid_id, is_u64, u64_max in *. change (256 ^ 8) with 18446744073709551616 in Hu. bsimp. lia.
Qed.

(** ** The records found are the acknowledged ones and more *)
Lemma chain_member segs x : forall s p s' p',
  segments_chain s p segs s' p' -> Forall (fun y => first_sequence y <= last_sequence y) segs -> x ∈ segs -> s <= first_sequence x.
Proof.
  induction segs as [|y segs IH]; intros s p s' p' Hc Hv Hin; [by apply not_elem_of_nil in Hin|].
  destruct Hc as (<- & _ & Hc). apply Forall_cons_1 in Hv as [Hy Hv]. apply elem_of_cons in Hin as [->|Hin]; [lia|].
  specialize (IH _ _ _ _ Hc Hv Hin). lia.
Qed.

(** A longer version of a segment holds its records first. *)
Lemma holds_longer file database s s' rs rs' :
  segment_holds file database s rs -> segment_holds file database s' rs' -> segment_id s' = segment_id s -> first_sequence s' = first_sequence s ->
  predecessor_digest s' = predecessor_digest s -> committed_bytes s <= committed_bytes s' -> rs `prefix_of` rs'.
Proof.
  intros (gs & rest & Hg & ->)%holds_grouped (gs' & rest' & Hg' & ->)%holds_grouped E1 E2 E3 Hle.
  destruct (grouped_longer _ _ _ _ _ _ _ _ Hg Hg' E1 E2 E3 Hle) as (more & -> & _). rewrite map_app, concat_app. by apply prefix_app_r.
Qed.

Lemma covered_records files l n ls : forall ns s p e d p' e' d' rsl rsn,
  database_id n = database_id l ->
  segments_chain s p ls e d -> segments_chain s p' ns e' d' ->
  Forall (fun y => first_sequence y <= last_sequence y) ls -> Forall (fun y => first_sequence y <= last_sequence y) ns ->
  Forall2 (log_holds files l) ls rsl -> Forall2 (log_holds files n) ns rsn ->
  Forall (fun x => exists y, y ∈ ns /\ covered_by x y) ls -> concat rsl `prefix_of` concat rsn.
Proof.
  induction ls as [|a ls IH]; intros ns s p e d p' e' d' rsl rsn Hdb Hl Hn Vl Vn Rl Rn Hcov.
  { inversion Rl; subst. apply prefix_nil. }
  destruct Hl as (<- & _ & Hl). apply Forall_cons_1 in Vl as [Va Vl]. apply Forall_cons_1 in Hcov as [(b & Hb & Cb) Hcov].
  inversion Rl as [|? ra ? rsl' Ra Rl']; subst. destruct ns as [|b' ns]; [by apply not_elem_of_nil in Hb|].
  destruct Hn as (Eb & _ & Hn). apply Forall_cons_1 in Vn as [Vb Vn]. inversion Rn as [|? rb ? rsn' Rb Rn']; subst. destruct Cb as (C1 & C2 & C3 & C4 & C5).
  assert (b = b') as <-. { apply elem_of_cons in Hb as [->|Hb]; [done|]. pose proof (chain_member _ _ _ _ _ _ Hn Vn Hb). lia. }
  destruct Ra as (file & Fa & Ha & _). destruct Rb as (file' & Fb & Hb' & _). rewrite C1, Fa in Fb. injection Fb as <-. rewrite Hdb in Hb'.
  pose proof (holds_longer _ _ _ _ _ _ Ha Hb' C1 C2 C3 C4) as [more ->]. cbn [concat].
  destruct ls as [|a2 ls]; [inversion Rl'; subst; cbn; rewrite app_nil_r, <-app_assoc; by apply prefix_app_r|].
  pose proof Hl as (Ea2 & _). assert (forall x, x ∈ a2 :: ls -> last_sequence a + 1 <= first_sequence x) as Habove by (intros x; by apply (chain_member _ _ _ _ _ _ Hl Vl)).
  assert (Forall (fun x => exists y, y ∈ ns /\ covered_by x y) (a2 :: ls)) as Hcov'.
  { apply Forall_forall. intros x Hx. rewrite Forall_forall in Hcov. destruct (Hcov _ Hx) as (y & Hy & Cy). exists y. split; [|done].
    apply elem_of_cons in Hy as [->|Hy]; [|done]. destruct Cy as (_ & E & _). specialize (Habove _ Hx). lia. }
  assert (last_sequence b = last_sequence a) as El.
  { apply Forall_cons_1 in Hcov' as [(y & Hy & (_ & E & _)) _]. pose proof (chain_member _ _ _ _ _ _ Hn Vn Hy). lia. }
  apply segment_chain in Ha as [_ La]. apply segment_chain in Hb' as [_ Lb]. rewrite len_app in Lb.
  assert (more = []) as -> by (apply length_zero_iff_nil; unfold len in *; lia). rewrite app_nil_r. apply prefix_app. rewrite El in Hn. by eapply IH.
Qed.

Lemma valid_ranges m : manifest_typed m -> validate_manifest m = Ok tt -> Forall (fun s => first_sequence s <= last_sequence s) (segments m).
Proof.
  intros T [_ Hv]%validate_manifest_inv. apply Forall_forall. intros s Hs. pose proof (typed_segments _ T) as Ts. rewrite Forall_forall in Hv, Ts.
  pose proof (validate_descriptor_inv _ (Ts _ Hs) (Hv _ Hs)). lia.
Qed.

(** What a recovery returns holds every record of a later log it started before. *)
Lemma recovery_extends m l recovery dir dir' next rs rsl :
  manifest_typed m -> validate_manifest m = Ok tt -> log_records dir m rs ->
  manifest_typed l -> validate_manifest l = Ok tt -> log_records dir l rsl -> continues m l -> log_floor l = log_floor m ->
  (forall id data, log_contents dir id = Some data -> len data <= u64_max) ->
  recover_tail m recovery dir = (dir', Ok next) ->
  exists more, log_records dir' next (rsl ++ more).
Proof.
  intros T Hv Hr Tl Hvl Hrl Hcont Hfl Hmax Hrec. pose proof (recovery_keeps _ _ _ _ _ _ _ _ T Hv Hr Tl Hvl Hrl Hcont Hmax Hrec) as Hcov.
  destruct (recover_tail_spec _ _ _ _ _ _ T Hv Hr Hrec) as (_ & Hnext). destruct (Hnext _ eq_refl) as (more0 & TN & HvN & Hrn' & _ & Hfn & _ & Hdb & Hrn).
  assert (rsl `prefix_of` rs ++ more0) as [more E]; [|exists more; by rewrite <-E].
  destruct Hrl as (rssl & H2l & ->). destruct Hrn as (rssn & H2n & ->).
  destruct (segments l) as [|a ls] eqn:El; [inversion H2l; subst; apply prefix_nil|].
  assert (segments next <> []) as Hne. { apply Forall_cons_1 in Hcov as [[(y & Hy & _) _] _]. intros E. rewrite E in Hy. by apply not_elem_of_nil in Hy. }
  destruct (manifest_chain l Hvl) as (p & Hc & _); [by rewrite El|]. destruct (manifest_chain next HvN Hne) as (p' & Hc' & _).
  rewrite Hfl in Hc. rewrite Hfn in Hc'. eapply covered_records; [|exact Hc|exact Hc'|by apply valid_ranges..|by rewrite El|exact H2n|].
  - by rewrite (continues_database _ _ Hcont).
  - rewrite El. eapply Forall_impl; [exact Hcov|]. intros s [(y & Hy & C) _]. by exists y.
Qed.

(** ** What a recovery returns continues the manifest it started from *)

(** [l] is [m] with another end of the log. *)
Definition log_only (m l : Manifest) : Prop :=
  exists sequence digest id segs, l = set_segments (set_durable m sequence digest) id segs.

#[export] Instance log_only_preorder : PreOrder log_only.
Proof.
  split; [intros m; exists (durable_sequence m), (durable_digest m), (next_segment_id m), (segments m); by destruct m|].
  intros a b c (s & d & i & l & ->) (s' & d' & i' & l' & ->). by exists s', d', i', l'.
Qed.

Lemma candidates_continue files recovery floor ids : forall st st',
  len (database_id (recovered st)) = 16 -> Forall (fun id => 0 < id < u64_max) ids -> Forall (fun id => floor <= id) ids ->
  foldR (recover_candidate files recovery) st ids = Ok st' ->
  log_only (recovered st) (recovered st')
  /\ (next_segment_id (recovered st') = next_segment_id (recovered st) \/ floor < next_segment_id (recovered st'))
  /\ exists more, segments (recovered st') = segments (recovered st) ++ more /\ Forall (fun s => floor <= segment_id s) more.
Proof.
  induction ids as [|id ids IH]; intros st st' Hdb Hids Hfl Hf; cbn [foldR] in Hf.
  { apply ok_inj in Hf as <-. split; [done|]. split; [by left|]. exists []. by rewrite app_nil_r. }
  apply Forall_cons_1 in Hids as [Hid Hids]. apply Forall_cons_1 in Hfl as [Hf1 Hfl]. step_ok Hf as st1 eqn H1.
  destruct (candidate_grows _ _ _ _ _ Hdb Hid H1) as [E _]. rewrite <-E in Hdb.
  destruct (IH _ _ Hdb Hids Hfl Hf) as (L2 & N2 & more2 & S2 & F2). clear IH Hf.
  apply recover_candidate_inv in H1 as [->|[(cut & _ & ->)|(file & first & pre & rest & found & partial & _ & _ & _ & Hscan & Hl)]]; [| | |by rewrite <-E|done].
  1-2: cbn [flushing recovered] in *; split; [done|]; split; [done|]; by exists more2.
  apply scan_keeps_id in Hscan. cbn [empty_segment segment_id] in Hscan.
  unfold link_segment in Hl. step_if Hl. step_ok Hl as fo eqn Hfo. step_if Hl. step_ok Hl as nid eqn Hnid. apply arith_u64_inv in Hnid as [-> _]. apply ok_inj in Hl as <-.
  cbn [recovered set_segments set_durable segments next_segment_id] in *. split; [|split].
  - etrans; [|exact L2]. by eexists _, _, _, _.
  - right. lia.
  - exists (found :: more2). rewrite S2, <-app_assoc. split; [done|]. constructor; [lia|done].
Qed.

(** The active segment is the old one, possibly longer. *)
Lemma active_continues dir m recovery st rs :
  manifest_typed m -> validate_manifest m = Ok tt -> log_records dir m rs ->
  recover_active (log_contents dir) m recovery = Ok st ->
  log_only m (recovered st) /\ next_segment_id (recovered st) = next_segment_id m
  /\ (segments m = [] /\ segments (recovered st) = []
      \/ exists before seg seg', segments m = before ++ [seg] /\ segments (recovered st) = before ++ [seg'] /\ covered_by seg seg').
Proof.
  intros T Hv Hr Ha. destruct (segments m) as [|seg before _] eqn:Hm using rev_ind.
  - unfold recover_active in Ha. rewrite Hm in Ha. cbn in Ha. apply ok_inj in Ha as <-. cbn. split; [done|]. split; [done|]. by left.
  - destruct (manifest_last _ _ _ T Hv Hm) as (Hs & _ & _). pose proof (typed_database _ T) as Hdb.
    destruct (held_grouped _ _ seg _ T Hv Hr) as (file & gs & rest & Hf & Hg & _ & _); [rewrite Hm; apply elem_of_app; right; by apply list_elem_of_singleton|].
    assert (covered_by seg seg) as Hself by (do 3 (split; [done|]); lia).
    unfold recover_active in Ha. rewrite Hm, last_snoc in Ha. step_ok Ha as [ext partial] eqn Hscan. apply ok_inj in Ha as <-.
    apply scan_tail_file in Hscan as (file' & Hf' & Hscan). rewrite Hf in Hf'. injection Hf' as <-.
    destruct (scan_sound _ _ _ _ Hdb _ _ _ _ _ _ Hs Hg Hscan) as (s' & more & rest' & [R1 R2 R3 R4 R5 R6 R7]).
    destruct R6 as [(_ & _ & ->)|(_ & -> & _)]; cbn [then_some recovered].
    + split; [done|]. split; [done|]. right. exists before, seg, seg. by rewrite Hm.
    + split; [by eexists _, _, _, _|]. split; [done|]. right. exists before, seg, s'. cbn [segments set_segments]. rewrite replace_last_app. split; [done|]. split; [done|].
      destruct (grouped_covers _ _ _ _ _ _ _ _ Hg R1) as [C1 C2]; [congruence|]. done.
Qed.

Lemma recovery_continues m recovery dir dir' next rs :
  manifest_typed m -> validate_manifest m = Ok tt -> log_records dir m rs ->
  recover_tail m recovery dir = (dir', Ok next) -> log_only m next /\ continues m next.
Proof.
  intros T Hv Hr Hrec. unfold recover_tail, bindD, get_directory, liftD in Hrec.
  destruct (recover_active (log_contents dir) m recovery) as [st|error|] eqn:Ha; [|done..].
  destruct (active_continues _ _ _ _ _ T Hv Hr Ha) as (L1 & N1 & S1).
  destruct (segment_ids dir (next_segment_id m)) as [ids|error|] eqn:Hids; [|done..]. apply segment_ids_spec in Hids as [Hsorted Hmem].
  destruct (foldR _ st ids) as [st'|error|] eqn:Hfold; [|done..].
  assert (recovered st' = next) as <-.
  { destruct (map_err Corrupt _); [|done..]. destruct (flush_segments _ dir) as [d1 [|?|]]; [|done..].
    destruct ((if new_files st' then sync_directory else okD tt) d1) as [d2 [|?|]]; [|done..]. by injection Hrec. }
  pose proof (typed_next_segment _ T) as [Hn0 _]. pose proof (manifest_ids _ Hv) as [Hn1 _].
  assert (database_id (recovered st) = database_id m) as Hdb by (destruct L1 as (? & ? & ? & ? & ->); done).
  destruct (candidates_continue (log_contents dir) recovery (next_segment_id m) ids st st') as (L2 & N2 & more & S2 & F2); [by rewrite Hdb; apply T|..|exact Hfold|].
  { apply Forall_forall. intros id (_ & Hid & Hfloor)%Hmem. lia. }
  { apply Forall_forall. intros id (_ & Hid & Hfloor)%Hmem. lia. }
  pose proof (transitivity L1 L2) as L. split; [done|]. split; [destruct L as (? & ? & ? & ? & ->); done|destruct N2 as [->|]; lia|]. rewrite S2.
  destruct S1 as [[Hm ->]|(before & seg & seg' & Hm & -> & C1 & C2 & C3 & C4 & _)]; [left; by split|right].
  exists before, seg, seg', more. by rewrite <-app_assoc.
Qed.
End LogSurvival.
