(* ===== verification/LogExtension.v ===== *)
(** * Extending a log proof is validating the log

    The proof a live owner keeps says that its manifest's log is valid and
    lists the digests above the checkpoint.  When reading only the new suffix
    accepts a publication, the whole log is valid for it. *)
From stdpp Require Import list.
From S2P Require Import Prelude OrdMap Errors Bytes Limits Storage Platform Page Metadata MetadataFacts Wal WalFacts LogFacts LogChains LogValidation Checkpoint Store Directory Log Publication LogAppend LogRecovery LogSurvival.

Section LogExtension.
Context `{Checksum} `{Sha256}.

(** ** Digests above the checkpoint *)
Definition above (m : Manifest) (l : list LogRecord) : list bytes :=
  map record_digest (List.filter (fun record => record_sequence record >? manifest_checkpoint_sequence m) l).

Lemma above_app m a b : above m (a ++ b) = above m a ++ above m b.
Proof. unfold above. by rewrite List.filter_app, map_app. Qed.

Lemma above_drop m rs : forall s,
  above m (records_of s rs) = map record_digest (drop (Z.to_nat (manifest_checkpoint_sequence m + 1 - s)) (records_of s rs)).
Proof.
  unfold above. set (c := manifest_checkpoint_sequence m). induction rs as [|r rs IH]; intros s; cbn [records_of List.filter]; [by rewrite drop_nil|].
  cbn [record_sequence]. rewrite Z.gtb_ltb. destruct (Z.ltb_spec c s).
  - replace (Z.to_nat (c + 1 - s)) with 0%nat by lia. cbn [map drop]. f_equal. rewrite IH. by replace (Z.to_nat (c + 1 - (s + 1))) with 0%nat by lia.
  - rewrite IH. replace (Z.to_nat (c + 1 - s)) with (S (Z.to_nat (c + 1 - (s + 1)))) by lia. done.
Qed.

Lemma records_of_lookup rs : forall s record,
  record ∈ records_of s rs -> s <= record_sequence record /\ records_of s rs !! Z.to_nat (record_sequence record - s) = Some record.
Proof.
  induction rs as [|r rs IH]; intros s record Hin; cbn [records_of] in *; [by apply not_elem_of_nil in Hin|].
  apply elem_of_cons in Hin as [->|Hin]; cbn [record_sequence]; [by rewrite Z.sub_diag|].
  destruct (IH _ _ Hin) as [Hle Hl]. split; [lia|]. by replace (Z.to_nat (record_sequence record - s)) with (S (Z.to_nat (record_sequence record - (s + 1)))) by lia.
Qed.

Lemma length_records_of rs : forall s, length (records_of s rs) = length rs.
Proof. induction rs as [|r rs IH]; intros s; cbn; [done|]. by rewrite IH. Qed.

Lemma fold_extension m l : forall pending pending',
  foldR (fun pending record =>
    if (record_sequence record =? manifest_checkpoint_sequence m) && negb (bool_decide (record_digest record = checkpoint_digest m))
    then Err (Corrupt "log checkpoint digest mismatch") else
    Ok (if record_sequence record >? manifest_checkpoint_sequence m then pending ++ [record_digest record] else pending)) pending l = Ok pending' ->
  Forall (agrees m) l /\ pending' = pending ++ above m l.
Proof.
  unfold above. induction l as [|r l IH]; intros pending pending' Hf; cbn [foldR List.filter map] in *; [apply ok_inj in Hf as <-; by rewrite app_nil_r|].
  step_ok Hf as p1 eqn Hp. step_if Hp eqn E. apply ok_inj in Hp as <-. apply IH in Hf as [Ha ->]. split.
  - constructor; [|done]. intros Es. rewrite Es, Z.eqb_refl in E. cbn in E. by apply negb_false_iff, bool_decide_eq_true_1 in E.
  - destruct (_ >? _); [by rewrite <-app_assoc|done].
Qed.

(** ** What a proof says *)
Record proof_ok (files : Z -> option bytes) (m : Manifest) (rs : list bytes) (proof : LogValidation) : Prop := {
  proof_of : proof_manifest proof = m;
  proof_log : log_of files m rs;
  proof_above : proof_pending proof = above m (records_of (log_floor m) rs) }.

(** The log of a manifest runs from its floor to its durable frontier. *)
Lemma log_extent files m rs :
  validate_manifest m = Ok tt -> log_of files m rs -> log_floor m + len rs = durable_sequence m + 1 /\ Forall (agrees m) (records_of (log_floor m) rs).
Proof.
  intros Hv (rss & H2 & ->). destruct (decide (segments m = [])) as [E|Hne].
  - rewrite E in H2. inversion H2; subst. cbn. split; [|constructor]. rewrite len_nil.
    unfold validate_manifest in Hv. step_if Hv. do 4 step_if Hv. step_ok Hv as policy eqn Hp. do 3 step_if Hv.
    step_ok Hv as following eqn Hf. do 2 step_if Hv. unfold validate_links in Hv. step_ok Hv as durable eqn Hd. apply arith_u64_inv in Hd as [-> _].
    rewrite bool_decide_true in Hv by done. step_if Hv eqn E2. apply orb_false_iff in E2 as [_ E2]. apply negb_false_iff, Z.eqb_eq in E2. lia.
  - destruct (manifest_chain _ Hv Hne) as (p & Hc & _).
    assert (forall segs rss s p s' p', segments_chain s p segs s' p' -> Forall2 (log_holds files m) segs rss ->
      s' = s + len (concat rss) /\ Forall (agrees m) (records_of s (concat rss))) as Hrec.
    { clear. induction segs as [|x segs IH]; intros rss s p s' p' Hc H2; inversion H2 as [|? r ? rss' Hr H2']; subst.
      - destruct Hc as [-> _]. cbn. rewrite len_nil. split; [lia|constructor].
      - destruct Hc as (<- & _ & Hc). destruct Hr as (file & _ & Hh & Ha). apply segment_chain in Hh as [_ E]. rewrite E in Hc.
        destruct (IH _ _ _ _ _ Hc H2') as [-> Ha2]. cbn [concat]. rewrite len_app. split; [lia|]. rewrite records_of_app. by apply Forall_app. }
    destruct (Hrec _ _ _ _ _ _ Hc H2) as [E Ha]. by split; [lia|].
Qed.

Lemma proof_length files m rs proof :
  validate_manifest m = Ok tt -> proof_ok files m rs proof -> log_floor m <= manifest_checkpoint_sequence m + 1 ->
  len (proof_pending proof) = durable_sequence m - manifest_checkpoint_sequence m.
Proof.
  intros Hv [_ Hl ->] Hf. destruct (log_extent _ _ _ Hv Hl) as [E _]. pose proof (manifest_frontiers _ Hv) as Hle. rewrite above_drop.
  unfold len in *. rewrite length_map, length_drop, length_records_of. lia.
Qed.

(** ** The segments of an extension *)
Definition tail_extends (old tail : SegmentDescriptor) : Prop :=
  tail = old \/ segment_id tail = segment_id old /\ first_sequence tail = first_sequence old
    /\ predecessor_digest tail = predecessor_digest old.

Lemma extends_segments_inv previous next :
  extends_segments previous next = Ok true ->
  exists before tails tails' new, segments previous = before ++ tails /\ segments next = before ++ tails' ++ new /\ (length new <= 1)%nat
    /\ length before = (length (segments previous) - 1)%nat
    /\ (tails = [] /\ tails' = [] \/ exists old tail, tails = [old] /\ tails' = [tail] /\ tail_extends old tail).
Proof.
  unfold extends_segments. intros He. step_if He eqn E1. apply orb_false_iff in E1 as [E1%Nat.ltb_ge E2%Nat.ltb_ge].
  step_if He eqn E3. apply negb_false_iff, bool_decide_eq_true_1 in E3. step_ok He as tail eqn Ht. step_if He eqn E4. apply negb_false_iff in E4. subst tail.
  destruct (segments previous) as [|old before _] using rev_ind.
  - exists [], [], [], (segments next). cbn in *. split; [done|]. split; [done|]. split; [lia|]. split; [done|by left].
  - rewrite length_app in *. cbn [length] in *. replace (length before + 1 - 1)%nat with (length before) in * by lia.
    rewrite last_snoc, take_app_length in *. step_ok Ht as tail eqn Htail. apply expect_ok in Htail. apply ok_inj in Ht.
    exists before, [old], [tail], (drop (length before + 1) (segments next)). split; [done|]. split.
    + rewrite <-E3 at 1. rewrite <-(take_drop (length before) (segments next)) at 1. f_equal.
      rewrite (drop_S _ _ _ Htail), Nat.add_1_r. done.
    + rewrite length_drop. split; [lia|]. split; [done|]. right. exists old, tail. split; [done|]. split; [done|].
      apply orb_true_iff in Ht as [Ht%bool_decide_eq_true_1|Ht]; [by left|]. right.
      apply negb_true_iff in Ht. bsimp. repeat match goal with Hb : bool_decide _ = true |- _ => apply bool_decide_eq_true_1 in Hb end. done.
Qed.

(** A segment the previous manifest does not have is read whole. *)
Lemma extend_new files previous next seq p pending index segment seq' p' pending' :
  extend_segment files previous next (seq, p, pending) (index, segment) = Ok (seq', p', pending') ->
  segments previous !! index = None -> descriptor_typed segment -> len (database_id next) = 16 ->
  exists rs, log_holds files next segment rs /\ first_sequence segment = seq /\ seq' = last_sequence segment + 1
    /\ p' = last_digest segment /\ pending' = pending ++ above next (records_of seq rs).
Proof.
  intros He Hi T Hdb. unfold extend_segment in He. rewrite Hi in He. rewrite bool_decide_false in He by done.
  step_ok He as offset eqn Ho. step_if Ho eqn E. apply orb_false_iff in E as [E1%negb_false_iff%Z.eqb_eq E2%negb_false_iff%bool_decide_eq_true_1].
  apply ok_inj in Ho as <-. step_ok He as file eqn Hf. apply ok_or_ok in Hf. step_ok He as pending1 eqn Hv. step_ok He as following eqn Hn.
  apply arith_u64_inv in Hn as [-> _]. apply ok_inj in He. injection He as <- <- <-. unfold validate_segment_extension in Hv.
  rewrite <-E1, <-E2 in Hv. apply (for_segment _ file (database_id next) segment) in Hv as (_ & rs & Hh & Hfold); [|done..].
  apply fold_extension in Hfold as [Ha ->]. rewrite E1. exists rs. split; [|done]. by exists file.
Qed.

(** The last old segment is read from where it ended. *)
Lemma extend_tail files previous next pending index old tail file old_rs seq' p' pending' :
  extend_segment files previous next (last_sequence old + 1, last_digest old, pending) (index, tail) = Ok (seq', p', pending') ->
  segments previous !! index = Some old -> tail_extends old tail -> scannable old -> descriptor_typed tail ->
  len (database_id next) = 16 -> files (segment_id old) = Some file -> segment_holds file (database_id next) old old_rs ->
  exists more, segment_holds file (database_id next) tail (old_rs ++ more) /\ segment_id tail = segment_id old
    /\ Forall (agrees next) (records_of (last_sequence old + 1) more) /\ seq' = last_sequence tail + 1
    /\ seq' = last_sequence old + 1 + len more /\ p' = last_digest tail
    /\ pending' = pending ++ above next (records_of (last_sequence old + 1) more).
Proof.
  intros He Hi Hext Hs T Hdb Hfile Hh. unfold extend_segment in He. rewrite Hi in He. case_bool_decide as E.
  - injection E as <-. apply ok_inj in He. injection He as <- <- <-. exists []. cbn [records_of]. unfold above. cbn [List.filter map]. rewrite !app_nil_r, len_nil.
    do 2 (split; [done|]). split; [constructor|]. split; [done|]. split; [lia|done].
  - destruct Hext as [->|(E1 & E2 & E3)]; [done|]. cbn [bindR] in He. rewrite E1, Hfile in He. cbn [ok_or bindR] in He.
    step_ok He as pending1 eqn Hv. step_ok He as following eqn Hn. apply arith_u64_inv in Hn as [-> _]. apply ok_inj in He. injection He as <- <- <-.
    unfold validate_segment_extension in Hv. pose proof Hh as (gs & rest & Hg & ->)%holds_grouped.
    apply (suffix_more _ _ _ old gs rest tail) in Hv as (more & rest' & _ & _ & Hg' & _ & _ & Hfold); [|done..].
    apply fold_extension in Hfold as [Ha ->]. exists (concat (map snd more)). rewrite <-concat_app, <-map_app.
    apply grouped_holds in Hg'. apply segment_chain in Hh as [_ L1]. pose proof (segment_chain _ _ _ _ Hg') as [_ L2].
    rewrite map_app, concat_app, len_app, E2 in L2. split; [done|]. split; [done|]. split; [done|]. split; [done|]. split; [lia|done].
Qed.

(** The old records agree with the new checkpoint. *)
Lemma anchor_agrees files previous next rs proof :
  validate_manifest previous = Ok tt -> proof_ok files previous rs proof -> log_floor previous <= manifest_checkpoint_sequence previous + 1 ->
  manifest_checkpoint_sequence previous <= manifest_checkpoint_sequence next -> checkpoint_anchor proof previous next = Ok tt ->
  Forall (agrees next) (records_of (log_floor previous) rs).
Proof.
  intros Hv [_ Hl Hp] Hfl Hle Ha. destruct (log_extent _ _ _ Hv Hl) as [Hext Hag]. apply Forall_forall. intros record Hin Hseq.
  apply records_of_lookup in Hin as Hi. destruct Hi as [Hge Hi]. pose proof (lookup_lt_Some _ _ _ Hi) as Hlt. rewrite length_records_of in Hlt.
  unfold checkpoint_anchor in Ha. rewrite (proj2 (Z.leb_le _ _)) in Ha by (unfold len in *; lia).
  step_ok Ha as digest eqn Hd. step_if Ha eqn E. apply negb_false_iff, bool_decide_eq_true_1 in E. rewrite E.
  destruct (Z.eqb_spec (manifest_checkpoint_sequence next) (manifest_checkpoint_sequence previous)) as [Ec|Hne].
  - apply ok_inj in Hd as <-. rewrite Forall_forall in Hag. apply (Hag _ Hin). lia.
  - step_ok Hd as index eqn Hx. apply arith_u64_inv in Hx as [-> _]. apply expect_ok in Hd. rewrite Hp, above_drop in Hd.
    rewrite list_lookup_fmap, lookup_drop in Hd. rewrite Hseq in Hi.
    replace (_ + _)%nat with (Z.to_nat (manifest_checkpoint_sequence next - log_floor previous)) in Hd by lia. rewrite Hi in Hd. by injection Hd.
Qed.

Lemma kept_above files previous next rs :
  validate_manifest previous = Ok tt -> log_of files previous rs -> log_floor previous <= manifest_checkpoint_sequence previous + 1 ->
  manifest_checkpoint_sequence previous <= manifest_checkpoint_sequence next ->
  drop (Z.to_nat (Z.min (manifest_checkpoint_sequence next) (durable_sequence previous) - manifest_checkpoint_sequence previous))
    (above previous (records_of (log_floor previous) rs)) = above next (records_of (log_floor previous) rs).
Proof.
  intros Hv Hl Hfl Hle. destruct (log_extent _ _ _ Hv Hl) as [Hext _]. pose proof (manifest_frontiers _ Hv) as Hf. rewrite !above_drop, <-fmap_drop, drop_drop. f_equal.
  destruct (Z.min_spec (manifest_checkpoint_sequence next) (durable_sequence previous)) as [[? ->]|[? ->]]; [f_equal; lia|].
  rewrite !drop_ge; [done|rewrite length_records_of; unfold len in *; lia..].
Qed.

Lemma manifest_floor m : manifest_typed m -> validate_manifest m = Ok tt -> 1 <= log_floor m <= manifest_checkpoint_sequence m + 1.
Proof.
  intros T Hv. pose proof (typed_log _ T) as [Hl _]. unfold validate_manifest in Hv. step_if Hv. do 4 step_if Hv. step_ok Hv as policy eqn Hp. do 3 step_if Hv.
  step_ok Hv as following eqn Hf. apply arith_u64_inv in Hf as [-> Hf]. step_if Hv eqn E. bsimp. lia.
Qed.

(** A log whose records agree with another checkpoint is a log of that manifest. *)
Lemma log_moves files previous next rs :
  validate_manifest previous = Ok tt -> database_id next = database_id previous -> log_of files previous rs ->
  Forall (agrees next) (records_of (log_floor previous) rs) ->
  exists rss, Forall2 (log_holds files next) (segments previous) rss /\ rs = concat rss.
Proof.
  intros Hv Hdb (rss & H2 & ->) Hag. exists rss. split; [|done].
  destruct (decide (segments previous = [])) as [E|Hne]; [rewrite E in *; inversion H2; subst; constructor|].
  destruct (manifest_chain _ Hv Hne) as (p & Hc & _). revert Hag Hc H2. generalize (log_floor previous), p, (durable_sequence previous + 1), (durable_digest previous).
  generalize (segments previous). clear Hne Hv p. intros segs. revert rss. induction segs as [|x segs IH]; intros rss s p s' p' Hag Hc H2; inversion H2 as [|? r ? rss' Hr H2']; subst; constructor.
  - destruct Hc as (<- & _ & _). cbn [concat] in Hag. rewrite records_of_app in Hag. apply Forall_app in Hag as [Hag _]. destruct Hr as (file & Hf & Hh & _). exists file. by rewrite Hdb.
  - destruct Hc as (<- & _ & Hc). cbn [concat] in Hag. rewrite records_of_app in Hag. apply Forall_app in Hag as [_ Hag]. destruct Hr as (file & _ & Hh & _).
    apply segment_chain in Hh as [_ E]. rewrite <-E in Hag. by eapply IH.
Qed.

(** A new segment after the old ones. *)
Lemma extension_new files previous next k new seq p pending state :
  foldR (extend_segment files previous next) (seq, p, pending) (imap (fun i x => ((k + i)%nat, x)) new) = Ok state ->
  (length new <= 1)%nat -> (length (segments previous) <= k)%nat -> Forall descriptor_typed new -> len (database_id next) = 16 ->
  exists rss, Forall2 (log_holds files next) new rss /\ Forall (agrees next) (records_of seq (concat rss))
    /\ state = (seq + len (concat rss), state.1.2, pending ++ above next (records_of seq (concat rss))).
Proof.
  intros Hf Hl Hk Ht Hdb. destruct new as [|x [|]]; [| |cbn in Hl; lia].
  - apply ok_inj in Hf as <-. exists []. split; [constructor|]. split; [constructor|]. cbn. unfold above. cbn. by rewrite app_nil_r, len_nil, Z.add_0_r.
  - cbn [imap foldR] in Hf. step_ok Hf as st eqn Hx. apply ok_inj in Hf as <-. destruct st as [[seq' p'] pend']. apply Forall_cons_1 in Ht as [Tx _].
    apply extend_new in Hx as (rs & Hh & <- & -> & -> & ->); [|by apply lookup_ge_None_2; lia|done|done]. exists [rs].
    cbn [concat]. rewrite app_nil_r. split; [by repeat constructor|]. pose proof Hh as (file & _ & Hs & Ha). split; [done|].
    apply segment_chain in Hs as [_ ->]. done.
Qed.

(** The loop over the segments from the last shared one. *)
Lemma extension_segments files previous next rs before tails tails' new pending state :
  manifest_typed previous -> validate_manifest previous = Ok tt -> manifest_typed next -> database_id next = database_id previous ->
  log_of files previous rs -> Forall (agrees next) (records_of (log_floor previous) rs) ->
  segments previous = before ++ tails -> segments next = before ++ tails' ++ new -> (length new <= 1)%nat ->
  (tails = [] /\ tails' = [] \/ exists old tail, tails = [old] /\ tails' = [tail] /\ tail_extends old tail) ->
  foldR (extend_segment files previous next) (durable_sequence previous + 1, durable_digest previous, pending)
    (drop (length before) (imap pair (segments next))) = Ok state ->
  exists more, log_of files next (rs ++ more) /\ Forall (agrees next) (records_of (durable_sequence previous + 1) more)
    /\ state = (durable_sequence previous + 1 + len more, state.1.2, pending ++ above next (records_of (durable_sequence previous + 1) more)).
Proof.
  intros T Hv Tn Hdb Hl Hag Hs Hs' Hnew Hcase Hloop. pose proof (typed_database _ Tn) as Hd16. pose proof (typed_segments _ Tn) as Tss.
  rewrite Hs' in Hloop, Tss. apply Forall_app in Tss as [_ Tss]. apply Forall_app in Tss as [Tt Tnew].
  rewrite imap_app, drop_app_length' in Hloop by (by rewrite length_imap). destruct (log_extent _ _ _ Hv Hl) as [Hext _].
  destruct (log_moves _ _ _ _ Hv Hdb Hl Hag) as (rss & H2 & ->). rewrite Hs in H2. apply Forall2_app_inv_l in H2 as (rss0 & rss1 & H20 & H21 & ->).
  destruct Hcase as [[-> ->]|(old & tail & -> & -> & Hold)].
  - rewrite app_nil_r in Hs. cbn [app] in Hloop. apply extension_new in Hloop as (rss' & Hr' & Ha' & ->); [|done|by rewrite Hs|done|done].
    exists (concat rss'). inversion H21; subst. rewrite app_nil_r in *. split; [|done]. exists (rss0 ++ rss'). rewrite concat_app. split; [|done].
    rewrite Hs'. by apply Forall2_app.
  - destruct (manifest_last _ _ _ T Hv Hs) as (Hsc & Els & Eld). apply Forall_cons_1 in Tt as [Tt _].
    inversion H21 as [|? old_rs ? ? (file & Hfile & Hh & Ha0) Hnil]; subst. inversion Hnil; subst. clear H21 Hnil.
    cbn [app imap foldR] in Hloop. rewrite Nat.add_0_r, <-Els, <-Eld in Hloop. step_ok Hloop as st eqn Hx. destruct st as [[seq1 p1] pend1].
    eapply extend_tail in Hx as (more1 & Hh1 & Eid & Ha1 & E1 & E2 & -> & ->); [| |exact Hold|done|done|done|exact Hfile|exact Hh];
      [|rewrite Hs; by rewrite lookup_app_r, Nat.sub_diag by lia].
    erewrite imap_ext in Hloop; [apply extension_new with (k := S (length before)) in Hloop as (rss' & Hr' & Ha' & ->)|]; try done.
    2: by rewrite Hs, length_app, Nat.add_1_r.
    2: { intros i x _. cbn. f_equal. lia. }
    exists (more1 ++ concat rss'). rewrite <-Els, !records_of_app, above_app, len_app. rewrite E2 in *. split; [|split; [by apply Forall_app|]].
    + exists (rss0 ++ (old_rs ++ more1) :: rss'). rewrite !concat_app. cbn [concat]. rewrite app_nil_r, <-!app_assoc. split; [|done]. rewrite Hs'.
      apply Forall2_app; [done|]. constructor; [|done]. exists file. rewrite Eid. split; [done|]. split; [done|].
      assert (first_sequence tail = first_sequence old) as -> by (destruct Hold as [->|(_ & ? & _)]; done). rewrite records_of_app.
      apply Forall_app. split; [done|]. apply segment_chain in Hh as [_ Ehl]. by rewrite <-Ehl.
    + cbn. rewrite <-app_assoc. f_equal. f_equal. lia.
Qed.

(** A publication accepted by extending a true proof has a valid log, which
    keeps the old records, and its proof is true. *)
Lemma validate_extension_sound files previous next proof proof' rs :
  manifest_typed previous -> validate_manifest previous = Ok tt -> manifest_typed next -> proof_ok files previous rs proof ->
  validate_extension files previous next proof = Ok (Some proof') ->
  validate_logs files next = Ok tt /\ log_floor next = log_floor previous
  /\ exists more, proof_ok files next (rs ++ more) proof'.
Proof.
  intros T Hv Tn Hp He. unfold validate_extension in He. step_ok He as u eqn Hvn. destruct u. apply map_err_ok in Hvn.
  step_if He eqn E1. apply negb_false_iff in E1. unfold extends_publication in E1. bsimp.
  repeat match goal with Hb : bool_decide _ = true |- _ => apply bool_decide_eq_true_1 in Hb end.
  step_if He eqn E2. step_ok He as u eqn Hanchor. destruct u. step_ok He as ext eqn Hext. step_if He eqn E3. apply negb_false_iff in E3 as ->.
  apply extends_segments_inv in Hext as (before & tails & tails' & new & Hs & Hs' & Hnew & Hlen & Hcase).
  step_ok He as count eqn Hc. step_if He eqn E4. step_ok He as pruned eqn Hpr. apply arith_u64_inv in Hpr as [-> Hpr]. step_ok He as kept eqn Hk.
  step_ok He as sequence eqn Hsq. apply arith_u64_inv in Hsq as [-> _]. step_ok He as state eqn Hloop. destruct state as [[sq p'] pend].
  step_ok He as durable eqn Hd. apply arith_u64_inv in Hd as [-> _]. step_if He eqn E5. apply ok_inj in He. injection He as <-. bsimp.
  pose proof (manifest_floor _ T Hv) as Hfl. pose proof (anchor_agrees files previous next rs proof Hv Hp ltac:(lia) ltac:(lia) Hanchor) as Hag.
  assert (kept = above next (records_of (log_floor previous) rs)) as ->.
  { destruct (_ <=? _) in Hk; [|done]. apply expect_ok in Hk. injection Hk as <-. rewrite (proof_above _ _ _ _ Hp). eapply kept_above; [done|apply Hp|lia|lia]. }
  rewrite <-Hlen in Hloop.
  edestruct (extension_segments files previous next rs before tails tails' new) as (more & Hl & Hag' & Est); try done; [apply Hp|].
  injection Est as -> ->. split; [|split; [lia|]].
  - apply validate_logs_iff; [done|]. split; [done|]. destruct Hl as (rss & Hrss & _). clear -Hrss. induction Hrss; constructor; eauto.
  - exists more. split; [done|done|]. cbn [proof_pending]. replace (log_floor next) with (log_floor previous) by lia.
    destruct (log_extent _ _ _ Hv (proof_log _ _ _ _ Hp)) as [Hext _]. rewrite records_of_app, above_app. f_equal. f_equal. f_equal. lia.
Qed.

(** ** Making proofs *)
(** At the checkpoint nothing is above it. *)
Lemma at_checkpoint_sound files m proof rs :
  at_checkpoint m = Ok (Some proof) -> log_of files m rs -> proof_ok files m rs proof.
Proof.
  unfold at_checkpoint. intros Ha Hl. step_if Ha eqn E. apply negb_false_iff, Z.eqb_eq in E.
  destruct (validate_manifest m) as [[]|error|] eqn:Hv; [|done..]. apply ok_inj in Ha. injection Ha as <-. split; [done|done|]. cbn [proof_pending].
  destruct (log_extent _ _ _ Hv Hl) as [Hext _]. rewrite above_drop, drop_ge; [done|]. rewrite length_records_of. unfold len in *. lia.
Qed.

Lemma digests_above m rs s : manifest_checkpoint_sequence m < s -> above m (records_of s rs) = map sha256 rs.
Proof.
  intros Hs. rewrite above_drop. replace (Z.to_nat _) with 0%nat by lia. rewrite drop_0. clear Hs. revert s. induction rs as [|r rs IH]; intros s; [done|]. cbn. by rewrite IH.
Qed.

(** An append extends the proof by the digests of its records. *)
Lemma committed_sound files files' previous next proof proof' rs new :
  validate_manifest previous = Ok tt -> proof_ok files previous rs proof -> log_of files' next (rs ++ new) ->
  manifest_checkpoint_sequence next = manifest_checkpoint_sequence previous -> log_floor next = log_floor previous ->
  committed proof previous next (map sha256 new) = Ok (Some proof') -> proof_ok files' next (rs ++ new) proof'.
Proof.
  intros Hv Hp Hl Hc Hf Hcom. unfold committed in Hcom. step_if Hcom. step_ok Hcom as count eqn Hx. step_if Hcom. apply ok_inj in Hcom. injection Hcom as <-.
  split; [done|done|]. cbn [proof_pending]. rewrite (proof_above _ _ _ _ Hp), records_of_app, above_app, Hf. destruct (log_extent _ _ _ Hv (proof_log _ _ _ _ Hp)) as [Hext _].
  pose proof (manifest_frontiers _ Hv). rewrite (digests_above next new) by lia. f_equal. unfold above. by rewrite Hc.
Qed.

(** ** Extension does not panic *)
Lemma extend_segment_no_panic files previous next state entry :
  descriptor_typed entry.2 -> len (database_id next) = 16 -> len state.1.2 = 32 -> no_panic (extend_segment files previous next state entry).
Proof.
  intros T Hdb Hp. unfold extend_segment. destruct state as [[seq p] pending], entry as [index segment]. cbn in T, Hp. case_bool_decide; [done|].
  apply bindR_no_panic; [destruct (segments previous !! index); [done|by destruct (_ || _)]|]. intros offset _.
  apply bindR_no_panic; [by destruct (files _)|]. intros file _. apply bindR_no_panic.
  - apply suffix_loop_no_panic; [|done..]. intros ? record. destruct (_ && _); [done|]. by destruct (_ >? _).
  - intros pending' Hv. apply bindR_no_panic; [|done]. apply suffix_loop_iff in Hv as ([i [Hv _]] & _); [|done..].
    destruct (validate_descriptor_inv _ T Hv) as (Hr & Hmax & _). unfold u64_max in *. by rewrite arith_u64_ok by (unfold u64_max; lia).
Qed.

Lemma extend_loop_no_panic files previous next l : forall state,
  Forall (fun entry => descriptor_typed entry.2) l -> len (database_id next) = 16 -> len state.1.2 = 32 ->
  no_panic (foldR (extend_segment files previous next) state l).
Proof.
  induction l as [|entry l IH]; intros state Ht Hdb Hp; cbn [foldR]; [done|]. apply Forall_cons_1 in Ht as [T Ht].
  apply bindR_no_panic; [by apply extend_segment_no_panic|]. intros state' Hs. apply IH; [done|done|].
  unfold extend_segment in Hs. destruct state as [[seq p] pending], entry as [index segment]. cbn in T, Hp. case_bool_decide; [by apply ok_inj in Hs as <-|].
  step_ok Hs as offset eqn Ho. step_ok Hs as file eqn Hf. step_ok Hs as pending' eqn Hv. step_ok Hs as following eqn Hx. apply ok_inj in Hs as <-. apply T.
Qed.

Lemma extends_segments_no_panic previous next : no_panic (extends_segments previous next).
Proof.
  unfold extends_segments. destruct (_ || _) eqn:E; [done|]. apply orb_false_iff in E as [E%Nat.ltb_ge _]. destruct (negb _); [done|].
  apply bindR_no_panic; [|intros tail _; by destruct (negb _)]. destruct (last (segments previous)) as [old|] eqn:Hl; [|done].
  destruct (lookup_lt_is_Some_2 (segments next) (length (segments previous) - 1)) as [tail ->]; [|done].
  apply last_Some in Hl as [before Hb]. rewrite Hb, length_app in *. cbn in *. lia.
Qed.

Lemma validate_extension_no_panic files previous next proof rs :
  manifest_typed previous -> validate_manifest previous = Ok tt -> manifest_typed next -> proof_ok files previous rs proof ->
  no_panic (validate_extension files previous next proof).
Proof.
  intros T Hv Tn Hp. unfold validate_extension. apply bindR_no_panic; [by apply map_err_no_panic, validate_manifest_no_panic|]. intros [] Hvn. apply map_err_ok in Hvn.
  destruct (negb _) eqn:E1; [done|]. apply negb_false_iff in E1. unfold extends_publication in E1. bsimp. destruct (_ && _); [done|].
  pose proof (manifest_floor _ T Hv) as Hfl. pose proof (proof_length _ _ _ _ Hv Hp ltac:(lia)) as Hlen. pose proof (manifest_frontiers _ Hvn). pose proof (manifest_frontiers _ Hv).
  pose proof (manifest_durable_max _ Tn Hvn). pose proof (manifest_durable_max _ T Hv). pose proof (typed_checkpoint _ T) as [Hc0 _]. unfold u64_max in *.
  apply bindR_no_panic.
  { unfold checkpoint_anchor. destruct (Z.leb_spec (manifest_checkpoint_sequence next) (durable_sequence previous)); [|done]. apply bindR_no_panic; [|intros d _; by destruct (negb _)].
    destruct (Z.eqb_spec (manifest_checkpoint_sequence next) (manifest_checkpoint_sequence previous)); [done|]. rewrite arith_u64_ok by (unfold u64_max; lia). cbn [bindR].
    destruct (lookup_lt_is_Some_2 (proof_pending proof) (Z.to_nat (manifest_checkpoint_sequence next - manifest_checkpoint_sequence previous - 1))) as [d ->]; [unfold len in *; lia|done]. }
  intros [] _. apply bindR_no_panic; [apply extends_segments_no_panic|]. intros ext _. destruct (negb ext); [done|].
  rewrite arith_u64_ok by (unfold u64_max; lia). cbn [bindR]. destruct (_ >? _); [done|]. rewrite arith_u64_ok by (unfold u64_max; lia). cbn [bindR].
  rewrite (proj2 (Z.leb_le _ _)) by lia. cbn [expect bindR]. rewrite arith_u64_ok by (unfold u64_max; lia). cbn [bindR].
  apply bindR_no_panic.
  - apply extend_loop_no_panic; [|apply Tn|apply T]. apply Forall_drop, Forall_forall. intros [i x] Hin. apply elem_of_lookup_imap in Hin as (j & y & [= -> ->] & Hj).
    eapply Forall_lookup_1; [apply (typed_segments _ Tn)|exact Hj].
  - intros [[seq p] pending] _. rewrite arith_u64_ok by (unfold u64_max; lia). cbn [bindR]. by destruct (_ || _).
Qed.
End LogExtension.

(** * What a publication keeps of the log

    Chains with the same end agree as far as both go, unless two of their
    records have the same digest.  So the log of an accepted publication is the
    live log above the new floor, and more. *)
Section LogHistory.
Context `{Checksum} `{Sha256}.

(** ** Chains *)
Lemma canonical_link s p p' r : len p = 32 -> len p' = 32 -> canonical s p r -> canonical s p' r -> p = p'.
Proof.
  intros Hp Hp' (k & body & -> & _) (k' & body' & E & _).
  assert (forall k p body, exists pre post, record_image s k p body = pre ++ p ++ post /\ len pre = 28) as Himg.
  { intros k0 p0 body0. unfold record_image, append_crc, record_head.
    exists (record_magic ++ le_bytes 2 64 ++ le_bytes 2 1 ++ le_bytes 4 (72 + len body0) ++ le_bytes 4 (len body0) ++ le_bytes 8 s ++ le_bytes 1 k0 ++ zeros 3).
    eexists. rewrite <-!app_assoc. split; [reflexivity|]. assert (len record_magic = 4) as Hm by done. field_len. }
  destruct (Himg k p body) as (pre & post & E0 & L). destruct (Himg k' p' body') as (pre' & post' & E' & L'). rewrite E0, E' in E.
  apply app_len_inj in E as [_ E]; [|lia]. by apply app_len_inj in E as [-> _]; [|lia].
Qed.

Lemma records_chain_split a : forall s p b d, records_chain s p (a ++ b) d -> exists e, records_chain s p a e /\ records_chain (s + len a) e b d.
Proof.
  induction a as [|r a IH]; intros s p b d Hc; cbn [records_chain app] in *; [exists p; by rewrite len_nil, Z.add_0_r|].
  destruct Hc as [Hr Hc]. destruct (IH _ _ _ _ Hc) as (e & H1 & H2). exists e. rewrite len_cons. split; [done|]. by replace (s + (1 + len a)) with (s + 1 + len a) by lia.
Qed.

Lemma chain_end_len s p rs d : len p = 32 -> records_chain s p rs d -> len d = 32.
Proof. revert s p. induction rs as [|r rs IH]; intros s p Hp Hc; [by destruct Hc|]. destruct Hc as [_ Hc]. eapply IH; [apply sha256_len|exact Hc]. Qed.

(** Two different records with one digest. *)
Definition clash (a b : list bytes) : Prop := exists r r', r ∈ a /\ r' ∈ b /\ r <> r' /\ sha256 r = sha256 r'.

Lemma chains_agree b : forall a s s' p p' d,
  len p = 32 -> len p' = 32 -> records_chain s p a d -> records_chain s' p' b d -> s + len a = s' + len b -> s <= s' ->
  b = drop (Z.to_nat (s' - s)) a \/ clash a b.
Proof.
  induction b as [|r' b IH] using rev_ind; intros a s s' p p' d Hp Hp' Ha Hb El Hle.
  { left. rewrite drop_ge; [done|]. rewrite len_nil in El. unfold len in *. lia. }
  destruct a as [|r a _] using rev_ind; [rewrite len_app, len_cons, !len_nil in El; pose proof (len_nonneg b); lia|].
  rewrite !len_app in El. change (len [r]) with 1 in El. change (len [r']) with 1 in El. apply records_chain_split in Ha as (e & Ha & Har), Hb as (e' & Hb & Hbr).
  destruct Har as [Car Ed]. destruct Hbr as [Cbr Ed']. cbn in Ed, Ed'. destruct (decide (r = r')) as [->|Hne].
  - replace (s' + len b) with (s + len a) in Cbr by lia.
    pose proof (canonical_link _ _ _ _ (chain_end_len _ _ _ _ Hp Ha) (chain_end_len _ _ _ _ Hp' Hb) Car Cbr) as <-.
    assert (s + len a = s' + len b) as El' by lia.
    destruct (IH a s s' p p' e Hp Hp' Ha Hb El' Hle) as [->|(x & y & Hx & Hy & Hxy)].
    + left. rewrite drop_app_le; [done|]. pose proof (len_nonneg (drop (Z.to_nat (s' - s)) a)). unfold len in *. rewrite length_drop in *. lia.
    + right. exists x, y. split; [apply elem_of_app; by left|]. split; [apply elem_of_app; by left|done].
  - right. exists r, r'. split; [apply elem_of_app; right; by apply list_elem_of_singleton|]. split; [apply elem_of_app; right; by apply list_elem_of_singleton|].
    split; [done|congruence].
Qed.

(** ** Logs *)
Lemma holds_unique file database s rs rs' : segment_holds file database s rs -> segment_holds file database s rs' -> rs = rs'.
Proof.
  intros H1 H2. pose proof (holds_longer _ _ _ _ _ _ H1 H2 eq_refl eq_refl eq_refl ltac:(lia)) as P1.
  pose proof (holds_longer _ _ _ _ _ _ H2 H1 eq_refl eq_refl eq_refl ltac:(lia)) as P2. by apply (anti_symm prefix).
Qed.

Lemma log_of_exists files m : Forall (fun s => exists rs, log_holds files m s rs) (segments m) -> exists rs, log_of files m rs.
Proof.
  unfold log_of. induction 1 as [|s segs [r Hr] _ [rs2 (rss & Hrss & _)]]; [by exists [], []|].
  exists (concat (r :: rss)), (r :: rss). split; [by constructor|done].
Qed.

Lemma log_of_unique files m m' rs rs' :
  segments m' = segments m -> database_id m' = database_id m -> log_of files m rs -> log_of files m' rs' -> rs = rs'.
Proof.
  intros Es Ed (rss & Hr1 & ->) (rss' & Hr2 & ->). rewrite Es in Hr2. clear Es. f_equal. revert rss' Hr2. induction Hr1 as [|s r segs rss (f & Hf & Hh & _) _ IH]; intros rss' Hr2; inversion Hr2 as [|? r' ? ? (f' & Hf' & Hh' & _) Hr2']; subst; [done|].
  rewrite Hf in Hf'. injection Hf' as <-. rewrite Ed in Hh'. f_equal; [by eapply holds_unique|by apply IH].
Qed.

Lemma log_chain files m rs :
  manifest_typed m -> validate_manifest m = Ok tt -> log_of files m rs -> exists p, len p = 32 /\ records_chain (log_floor m) p rs (durable_digest m).
Proof.
  intros T Hv Hl. destruct (decide (segments m = [])) as [E|Hne].
  - destruct Hl as (rss & Hr & ->). rewrite E in Hr. inversion Hr; subst. exists (durable_digest m). split; [apply T|done].
  - destruct (manifest_chain _ Hv Hne) as (p & Hq & _). assert (len p = 32) as Hp.
    { destruct (segments m) as [|x segs] eqn:Es; [done|]. destruct Hq as (_ & <- & _). pose proof (typed_segments _ T) as Ts. rewrite Es in Ts.
      apply Forall_cons_1 in Ts as [Tx _]. apply Tx. }
    exists p. split; [done|]. destruct (segments_records files m _ _ _ _ _ Hq) as (rss & Hr & Hc & _).
    { destruct Hl as (rss & Hr & _). clear -Hr. induction Hr; constructor; eauto. }
    assert (log_of files m (concat rss)) as Hl' by by exists rss. by rewrite (log_of_unique _ _ _ _ _ eq_refl eq_refl Hl Hl').
Qed.

(** ** The log of a publication *)
Definition live_logs (files : Z -> option bytes) (store : Store) (rs : list bytes) : Prop :=
  match match runtime store with Some runtime => runtime_logs runtime | None => None end with
  | Some proof => proof_ok files (store_manifest store) rs proof
  | None => True
  end.

(** [rs'] are the records of [rs] from the floor of [m] on, and more. *)
Definition keeps_log (old m : Manifest) (rs rs' : list bytes) : Prop :=
  log_floor m <= durable_sequence old + 1 /\ exists more, rs' = drop (Z.to_nat (log_floor m - log_floor old)) rs ++ more.

Lemma anchored files old m rs rs' :
  manifest_typed old -> validate_manifest old = Ok tt -> manifest_typed m -> validate_manifest m = Ok tt ->
  log_of files old rs -> log_of files m rs' -> log_floor old <= log_floor m -> durable_sequence old < durable_sequence m ->
  validate_anchors files old m = Ok tt -> keeps_log old m rs rs' \/ clash rs rs'.
Proof.
  intros T Hv Tm Hvm Hl Hl' Hle Hlt Ha. destruct (log_extent _ _ _ Hv Hl) as [El _]. destruct (log_extent _ _ _ Hvm Hl') as [El' _].
  unfold validate_anchors in Ha. rewrite Z.gtb_ltb, (proj2 (Z.ltb_lt _ _)) in Ha by done. step_ok Ha as u eqn Hanchor. clear Ha.
  set (anchor := set_checkpoint m (durable_sequence old) (durable_digest old) _) in Hanchor.
  assert (manifest_typed anchor) as Ta.
  { destruct T, Tm. split; try done. cbn. unfold is_u64 in *. lia. }
  step_ok Hanchor as data eqn He. destruct u. unfold Manifest_encode in He. step_ok He as u eqn Hva. apply map_err_ok in Hva. destruct u.
  apply validate_logs_iff in Hanchor as [_ Hs]; [|done].
  assert (log_of files anchor rs') as Hla.
  { apply log_of_exists in Hs as [rs2 Hla]. by rewrite (log_of_unique files m anchor rs' rs2 eq_refl eq_refl Hl' Hla). }
  pose proof (manifest_floor _ Ta Hva) as Hfl. destruct (log_extent _ _ _ Hva Hla) as [_ Hag]. cbn [anchor set_checkpoint log_floor manifest_checkpoint_sequence] in Hfl, Hag.
  destruct (log_chain _ _ _ T Hv Hl) as (p & Hp & Hc). destruct (log_chain _ _ _ Tm Hvm Hl') as (p' & Hp' & Hc').
  set (n := Z.to_nat (durable_sequence old + 1 - log_floor m)). rewrite <-(take_drop n rs') in Hc'. apply records_chain_split in Hc' as (e & Hc' & _).
  assert (len (take n rs') = durable_sequence old + 1 - log_floor m) as Ln by (unfold len in *; rewrite length_take; lia).
  destruct (decide (n = 0%nat)) as [E0|Hn].
  { left. split; [lia|]. exists rs'. rewrite drop_ge; [done|]. unfold len in *. lia. }
  assert (e = durable_digest old) as ->.
  { destruct (take n rs') as [|r a _] eqn:Et using rev_ind; [rewrite len_nil in Ln; lia|]. apply records_chain_split in Hc' as (e0 & _ & Hr). destruct Hr as [_ ->].
    rewrite <-(take_drop n rs'), Et, !records_of_app in Hag. apply Forall_app in Hag as [Hag _]. apply Forall_app in Hag as [_ Hag].
    apply Forall_cons_1 in Hag as [Hag _]. apply Hag. cbn. rewrite len_app in Ln. change (len [r]) with 1 in Ln. lia. }
  destruct (chains_agree _ _ _ _ _ _ _ Hp Hp' Hc Hc') as [E|(r & r' & Hr & Hr' & Hne)]; [lia|done| |].
  - left. split; [lia|]. exists (drop n rs'). by rewrite <-E, take_drop.
  - right. exists r, r'. split; [done|]. split; [|done]. rewrite <-(take_drop n rs'). apply elem_of_app. by left.
Qed.

(** [m] lists another log than [old]. *)
Definition relists (old m : Manifest) : Prop := segments m = segments old -> durable_sequence m <> durable_sequence old.

Lemma publication_logs_sound files store m rs logs :
  let old := store_manifest store in
  manifest_typed old -> validate_manifest old = Ok tt -> log_of files old rs -> live_logs files store rs ->
  manifest_typed m -> validate_manifest m = Ok tt -> log_floor old <= log_floor m -> durable_sequence old <= durable_sequence m ->
  (durable_sequence m = durable_sequence old -> durable_digest m = durable_digest old) -> database_id m = database_id old ->
  publication_logs files store m = Ok logs ->
  exists rs', log_of files m rs' /\ (forall proof, logs = Some proof -> proof_ok files m rs' proof)
    /\ (keeps_log old m rs rs' \/ clash rs rs' /\ relists old m).
Proof.
  intros old T Hv Hl Hproof Tm Hvm Hfl Hd Hdig Hid Hp. unfold publication_logs in Hp. fold old in Hp. unfold live_logs in Hproof. fold old in Hproof.
  step_ok Hp as reused eqn Hr. destruct reused as [proof'|].
  - destruct (match runtime store with Some v => runtime_logs v | None => None end) as [proof|]; [|done]. apply ok_inj in Hp as <-.
    destruct (validate_extension_sound _ _ _ _ _ _ T Hv Tm Hproof Hr) as (_ & Ef & more & Hok). exists (rs ++ more). split; [apply Hok|].
    split; [by intros ? [= <-]|]. left. pose proof (manifest_floor _ T Hv). pose proof (manifest_frontiers _ Hv).
    split; [lia|]. exists more. by rewrite Ef, Z.sub_diag.
  - step_ok Hp as u eqn Hvl. step_ok Hp as u' eqn Hanchors. destruct u, u'. clear Hr Hproof. apply validate_logs_iff in Hvl as [_ Hs]; [|done].
    apply log_of_exists in Hs as [rs' Hl'].
    exists rs'. split; [done|]. split; [intros proof ->; by apply at_checkpoint_sound|].
    destruct (decide (segments m = segments old /\ durable_sequence m = durable_sequence old)) as [[Es Ed]|Hother].
    { left. pose proof (log_of_unique _ _ _ _ _ Es Hid Hl Hl') as <-. destruct (log_extent _ _ _ Hv Hl) as [El _]. destruct (log_extent _ _ _ Hvm Hl') as [El' _].
      pose proof (manifest_floor _ Tm Hvm). pose proof (manifest_frontiers _ Hvm). split; [lia|]. exists [].
      rewrite app_nil_r. by replace (log_floor m - log_floor old) with 0 by lia. }
    assert (relists old m) as Hre by (intros Es Ed; by apply Hother). clear Hother.
    destruct (decide (durable_sequence old < durable_sequence m)) as [Hlt|Hge]; [destruct (anchored files old m rs rs'); tauto|].
    assert (durable_sequence m = durable_sequence old) as Ed by lia. specialize (Hdig Ed). destruct (log_extent _ _ _ Hv Hl) as [El _]. destruct (log_extent _ _ _ Hvm Hl') as [El' _].
    destruct (log_chain _ _ _ T Hv Hl) as (p & Hpl & Hc). destruct (log_chain _ _ _ Tm Hvm Hl') as (p' & Hpl' & Hc'). rewrite Hdig in Hc'.
    destruct (chains_agree _ _ _ _ _ _ _ Hpl Hpl' Hc Hc') as [E|Hcl]; [lia|done| |right; by split]. left.
    pose proof (manifest_floor _ Tm Hvm). pose proof (manifest_frontiers _ Hvm). split; [lia|]. exists []. by rewrite app_nil_r.
Qed.
End LogHistory.
