(* ===== verification/StoreFacts.v ===== *)
(** * The store implements the storage interface

    A page store holds five sorted maps.  Its views answer every read as the
    maps would, a batch changes all of them or none, a checkpoint is the maps
    without what lies above its sequence, and a pinned view keeps answering
    for the roots it pinned: the instances of [Represents] and [StoreLaws] on
    which the transaction layer is proved. *)
From Stdlib Require Import Sorted.
From S2P Require Import Prelude OrdMap Errors Bytes Encoding EncodingFacts Limits Storage Platform Page PageFacts NodeFacts FileFacts StoredFacts Metadata Tree TreeFacts TreeReads TreeEdits Mvcc Checkpoint CheckpointFacts Store.

Section StoreFacts.
Context `{Checksum}.
Implicit Types (r : PageReader) (contents : Contents).

(** A view over roots that hold the contents represents them. *)
Lemma view_represents (view : PageView) contents :
  reader_wf (view_reader view) -> roots_hold (view_reader view) (view_roots view) contents -> Represents view contents.
Proof.
  intros Hwf [Hl Hr]. split.
  - intros tree. destruct (Hr tree) as (root & _ & Hh). by eapply tree_holds_sorted.
  - intros tree key Hk. destruct (Hr tree) as (root & Hroot & Hh). cbn. unfold view_get. rewrite Hroot. cbn [expect bindR].
    by apply tree_get_holds.
  - intros tree key Hk. destruct (Hr tree) as (root & Hroot & Hh). pose proof (tree_seek_holds _ _ _ _ _ Hwf Hh Hk) as Hs.
    unfold first_from in Hs. cbn. unfold view_seek. rewrite Hroot. cbn [expect bindR]. unfold located in Hs.
    destruct (List.find _ _) as [[k v]|].
    + destruct Hs as (cell & -> & <- & Hv). by exists (cell_value cell).
    + by rewrite Hs.
  - intros tree lower upper Hlo Hup. destruct (Hr tree) as (root & Hroot & Hh).
    destruct (tree_scan_holds _ _ _ _ _ _ Hwf Hh Hlo Hup) as (s & Hs & Hitems). cbn. unfold view_scan. rewrite Hroot.
    cbn [expect bindR]. rewrite Hs. cbn [bindR]. by rewrite Hitems.
Qed.

(** ** Edits of one tree *)
(** [m] leaves the tree holding [after] and the others as they were. *)
Lemma runs_edit tree m roots contents after f (Q : PageFile -> list Z -> Prop) :
  file_wf f -> roots_hold (reader f) roots contents ->
  (forall root, roots !! tree_index tree = Some root -> tree_holds (reader f) tree root (contents tree) ->
     forall P : PageFile -> Z -> Prop,
       (forall f' root', file_wf f' -> file_le f f' -> tree_holds (reader f') tree root' after -> P f' root') -> runs (m root) f P) ->
  (forall f' roots', file_wf f' -> file_le f f' ->
     roots_hold (reader f') roots' (fun t => if decide (t = tree) then after else contents t) -> Q f' roots') ->
  runs (do* root := liftM (expect (roots !! tree_index tree)) in
        do* root := m root in okM (<[tree_index tree := root]> roots)) f Q.
Proof.
  intros Hwf Hh Hm HQ. destruct (proj2 Hh tree) as (root & Hroot & Htree). rewrite Hroot.
  apply runs_bind; [done|]. apply runs_ok; [done|]. intros _ _. apply runs_bind; [done|].
  apply (Hm root Hroot Htree). intros f1 root1 Hwf1 Hle1 Hh1 _ _. apply runs_ok; [done|]. apply HQ; [done..|].
  apply roots_hold_insert; [|done]. apply (roots_hold_le (reader f)); [apply Hwf|apply Hwf1|apply Hle1|done].
Qed.

Lemma runs_apply_change roots change contents f (Q : PageFile -> list Z -> Prop) :
  file_wf f -> roots_hold (reader f) roots contents -> mutation_ok change = true ->
  (forall f' roots', file_wf f' -> file_le f f' -> roots_hold (reader f') roots' (mutate_one contents change) -> Q f' roots') ->
  runs (apply_change roots change) f Q.
Proof.
  intros Hwf Hh Hok HQ. unfold mutation_ok in Hok. apply andb_true_iff in Hok as [Hk%Z.leb_le Hv].
  apply (runs_edit (mutation_tree change) _ _ contents (mutate_tree change (contents (mutation_tree change)))); [done..| |].
  - intros root _ Htree P HP. unfold mutate_tree in HP. destruct (mutation_value change) as [value|].
    + apply (runs_put _ _ _ _ (contents (mutation_tree change))); [done|done|by apply Z.leb_le|done..].
    + by apply (runs_delete _ _ _ (contents (mutation_tree change))).
  - intros f' roots' Hwf' Hle Hh'. apply HQ; [done..|]. eapply roots_hold_ext; [|exact Hh'].
    intros t. rewrite mutate_one_tree. by destruct (decide (t = mutation_tree change)) as [->|].
Qed.

Lemma runs_apply_changes changes : forall roots contents f (Q : PageFile -> list Z -> Prop),
  file_wf f -> roots_hold (reader f) roots contents -> forallb mutation_ok changes = true ->
  (forall f' roots', file_wf f' -> file_le f f' -> roots_hold (reader f') roots' (mutate changes contents) -> Q f' roots') ->
  runs (apply_changes roots changes) f Q.
Proof.
  induction changes as [|c changes IH]; intros roots contents f Q Hwf Hh Hok HQ; cbn [apply_changes].
  - apply runs_ok; [done|]. apply HQ; [done|apply file_le_refl|done].
  - simpl in Hok. apply andb_true_iff in Hok as [Hc Hok]. apply runs_bind; [done|]. eapply runs_apply_change; [done..|].
    intros f1 roots1 Hwf1 Hle1 Hh1 _ _. apply (IH _ (mutate_one contents c)); [done..|].
    intros f2 roots2 Hwf2 Hle2 Hh2. apply HQ; [done|by apply (file_le_trans f f1)|done].
Qed.

(** ** The store *)
Record store_holds (s : Store) contents : Prop := {
  holds_file : file_wf (pages s);
  holds_roots : roots_hold (reader (pages s)) (store_roots s) contents;
  holds_runtime :
    match runtime s with
    | Some v => runtime_ok (reader (pages s)) (store_genesis s) (store_manifest s) contents v | None => True
    end;
  holds_checkpoint : exists saved, roots_hold (reader (pages s)) (manifest_roots (store_manifest s)) saved /\
    checkpoint_ok (store_genesis s) (store_manifest s) saved }.

(** A store whose file only grew. *)
Lemma store_holds_le s contents f' roots' contents' v' :
  store_holds s contents -> file_wf f' -> file_le (pages s) f' -> roots_hold (reader f') roots' contents' ->
  match v' with Some v => runtime_ok (reader f') (store_genesis s) (store_manifest s) contents' v | None => True end ->
  forall s', pages s' = f' -> store_roots s' = roots' -> runtime s' = v' -> store_genesis s' = store_genesis s ->
    store_manifest s' = store_manifest s -> store_holds s' contents'.
Proof.
  intros [Hwf _ _ (saved & Hs & Hok)] Hwf' Hle Hr Hv s' Ef Er Ev Eg Em. split; [by rewrite Ef|by rewrite Ef, Er|by rewrite Ef, Ev, Eg, Em|].
  exists saved. rewrite Ef, Em, Eg. split; [|done]. apply (roots_hold_le (reader (pages s))); [apply Hwf|apply Hwf'|apply Hle|done].
Qed.

(** Only the file changed. *)
Lemma store_holds_grown s contents f' s' :
  store_holds s contents -> file_wf f' -> file_le (pages s) f' -> pages s' = f' -> store_roots s' = store_roots s ->
  runtime s' = runtime s -> store_genesis s' = store_genesis s -> store_manifest s' = store_manifest s -> store_holds s' contents.
Proof.
  intros Hh Hwf' Hle. intros. pose proof Hh as [Hwf Hr Hrt _].
  assert (reader_wf (reader (pages s))) as R1 by apply Hwf. assert (reader_wf (reader f')) as R2 by apply Hwf'.
  pose proof (le_reader _ _ Hle) as R3. apply (store_holds_le s contents f' (store_roots s) contents (runtime s)); try done.
  { by apply (roots_hold_le (reader (pages s))). }
  destruct (runtime s) as [v|]; [|done]. destruct Hrt as [V1 V2 V3]. split; [by apply (proofs_ok_le (reader (pages s)))..|done].
Qed.

(** The outcome of a batch on a store. *)
Lemma apply_spec s contents changes :
  store_holds s contents ->
  match apply s changes with
  | (s', Ok _) => file_le (pages s) (pages s') /\ forallb mutation_ok changes = true /\ store_poisoned s = false /\
      store_holds s' (mutate changes contents) /\ store_poisoned s' = false /\ store_manifest s' = store_manifest s
  | (s', Err error) => file_le (pages s) (pages s') /\ store_holds s' contents /\ store_roots s' = store_roots s /\ store_manifest s' = store_manifest s /\
      (error = NeedsRecovery /\ s' = s \/ forallb mutation_ok changes = false /\ s' = s \/
       failed (pages s) error /\ store_poisoned s' = true)
  | (_, Panic) => False
  end.
Proof.
  intros Hh. pose proof Hh as [Hwf Hroots Hrt _]. unfold apply, writable.
  destruct (store_poisoned s) eqn:Hpo; [split; [apply file_le_refl|]; do 3 (split; [done|]); by left|].
  destruct (forallb mutation_ok changes) eqn:Hok; cbn [negb]; [|split; [apply file_le_refl|]; do 3 (split; [done|]); right; by left].
  pose proof (runs_apply_changes changes (store_roots s) contents (pages s)
    (fun f' roots' => roots_hold (reader f') roots' (mutate changes contents)) Hwf Hroots Hok (fun _ _ _ _ Hq => Hq)) as Hruns.
  unfold runs in Hruns. destruct (apply_changes (store_roots s) changes (pages s)) as [f' result].
  destruct Hruns as (Hwf' & Hle & Hres). destruct result as [roots|error|]; [|split; [done|]; split; [|split; [done|split; [done|]]]|done].
  - destruct Hres as [Hp Hr']. destruct (runtime s) as [v|] eqn:Ev.
    + destruct (observe_ok (reader (pages s)) (reader f') (store_genesis s) (store_manifest s) contents v (store_roots s) roots changes)
        as (v' & -> & Hv'); [apply Hwf|apply Hwf'|apply Hle|exact Hok|exact Hrt|exact Hroots|exact Hr'|]. do 3 (split; [done|]). split; [|done].
      by eapply (store_holds_le s contents f' roots _ (Some v')).
    + do 3 (split; [done|]). split; [|done]. by eapply (store_holds_le s contents f' roots _ None).
  - by eapply store_holds_grown.
  - right; right. done.
Qed.

#[export, program] Instance page_store_laws : StoreLaws Store PageView Value := {
  holds s contents := store_holds s contents }.
Next Obligation. intros s contents [Hwf Hr _ _]. apply view_represents; [apply Hwf|exact Hr]. Qed.
Next Obligation.
  intros s contents changes Hh Hok. cbn. pose proof (apply_spec s contents changes Hh) as Ha.
  destruct (apply s changes) as [s' [?|?|]]; [|by destruct Ha as (_ & ? & ? & -> & ?)|done].
  by destruct Ha as (_ & ? & ? & ? & ? & ->).
Qed.
End StoreFacts.

(** * What checkpoint preparation builds

    The roots of a prepared checkpoint hold the live contents without the
    entries above the sequence, whether the deleted keys were the tracked ones
    or those of a full scan; the live roots do not change, and the proofs that
    accompany the result are true. *)
(** ** Entries at or below a sequence *)
Definition entry_below (tree : TreeId) (sequence : Z) (e : Entry) : bool :=
  match entry_sequence tree e.1 with Ok s => s <=? sequence | _ => true end.

(** The contents of the checkpoint at [sequence]. *)
Definition upto (sequence : Z) (contents : Contents) : Contents := fun tree =>
  if decide (tree = Cursors) then contents tree else List.filter (entry_below tree sequence) (contents tree).

Lemma elem_of_upto sequence contents tree e :
  e ∈ upto sequence contents tree <-> e ∈ contents tree /\ (tree <> Cursors -> entry_below tree sequence e = true).
Proof.
  unfold upto. destruct (decide (tree = Cursors)); [naive_solver|]. rewrite !list_elem_of_In, List.filter_In. naive_solver.
Qed.

Lemma upto_sorted sequence contents tree : bt_sorted (contents tree) -> bt_sorted (upto sequence contents tree).
Proof. intros Hs. unfold upto. destruct (decide _); [done|by apply bt_sorted_filter]. Qed.

Lemma entry_sequence_no_panic tree key : no_panic (entry_sequence tree key).
Proof.
  unfold entry_sequence. apply bindR_no_panic; [|intros s _; solve_no_panic]. destruct tree; [| |solve_no_panic..].
  - apply bindR_no_panic; [|intros; solve_no_panic]. apply map_err_no_panic. unfold StateKey_decode, StateKey_new, check_snapshot, check_user_key.
    destruct (_ && _) eqn:E; cbn [negb]; [|solve_no_panic]. apply andb_true_iff in E as [E1%Z.leb_le E2%Z.leb_le].
    apply bindR_no_panic; [apply slice_at_no_panic; lia|intros ? _]. apply bindR_no_panic; [apply slice_at_no_panic; lia|intros ? _].
    apply bindR_no_panic; [apply unescape_no_panic|intros [] _]. destruct (_ =? _); cbn [negb]; [|solve_no_panic].
    apply bindR_no_panic; [apply slice_at_no_panic; lia|intros ? _]. solve_no_panic.
  - destruct (Z.eqb_spec (len key) 16); cbn [negb]; [|solve_no_panic].
    apply bindR_no_panic; [apply slice_at_no_panic; lia|intros ? _]. apply bindR_no_panic; [apply slice_at_no_panic; lia|intros ? _].
    solve_no_panic.
Qed.

Section Prunes.
Context `{Checksum}.
Implicit Types (r : PageReader) (contents : Contents).

(** ** Deletions *)
(** [contents'] is [contents] without the named keys. *)
Definition without (named : TreeId -> bytes -> Prop) contents contents' : Prop :=
  forall tree, bt_sorted (contents' tree) /\ forall e, e ∈ contents' tree <-> e ∈ contents tree /\ ~ named tree e.1.

Lemma without_none roots r contents : roots_hold r roots contents -> without (fun _ _ => False) contents contents.
Proof. intros Hh tree. split; [by eapply roots_hold_sorted|]. naive_solver. Qed.

Lemma without_app named named' a b c :
  without named a b -> without named' b c -> without (fun tree key => named tree key \/ named' tree key) a c.
Proof. intros H1 H2 tree. destruct (H1 tree) as [_ E1], (H2 tree) as [S2 E2]. split; [done|]. intros e. rewrite E2, E1. naive_solver. Qed.

Lemma without_iff named named' a b :
  (forall tree e, e ∈ a tree -> named tree e.1 <-> named' tree e.1) -> without named a b -> without named' a b.
Proof. intros Hn Ha tree. destruct (Ha tree) as [S E]. split; [done|]. intros e. rewrite E. naive_solver. Qed.

Lemma runs_prune_key roots tree key contents f (Q : PageFile -> list Z -> Prop) :
  file_wf f -> roots_hold (reader f) roots contents -> len key <= MAX_KEY ->
  (forall f' roots' contents', file_wf f' -> file_le f f' -> roots_hold (reader f') roots' contents' ->
     without (fun t k => t = tree /\ k = key) contents contents' -> Q f' roots') ->
  runs (prune_key roots tree key) f Q.
Proof.
  intros Hwf Hh Hk HQ. apply (runs_edit tree _ _ contents (bt_remove key (contents tree))); [done..| |].
  - intros root _ Htree P HP. by apply (runs_delete _ _ _ (contents tree)).
  - intros f' roots' Hwf' Hle Hh'. eapply HQ; [done..|]. intros t. pose proof (roots_hold_sorted _ _ _ t Hh) as Hs.
    destruct (decide (t = tree)) as [->|Hne]; [|by split; [|naive_solver]]. split; [by apply bt_sorted_remove|].
    intros e. rewrite elem_of_remove by done. naive_solver.
Qed.

Definition named_pending (p : (Z * bytes) * Z) : Prop :=
  exists tree, tree <> Cursors /\ p.1 = pending_key tree p.1.2 /\ entry_sequence tree p.1.2 = Ok p.2 /\ len p.1.2 <= MAX_KEY.

Lemma TREES_index tree : TREES !! tree_index tree = Some tree.
Proof. by destruct tree. Qed.

Lemma runs_prune_pending sequence keys : forall roots contents f (Q : PageFile -> list Z -> Prop),
  file_wf f -> roots_hold (reader f) roots contents -> Forall named_pending keys ->
  (forall f' roots' contents', file_wf f' -> file_le f f' -> roots_hold (reader f') roots' contents' ->
     without (fun t k => exists s, (pending_key t k, s) ∈ keys /\ sequence < s) contents contents' -> Q f' roots') ->
  runs (prune_pending sequence roots keys) f Q.
Proof.
  induction keys as [|[[index key] version] keys IH]; intros roots contents f Q Hwf Hh Hn HQ; cbn [prune_pending].
  - apply runs_ok; [done|]. eapply HQ; [done|apply file_le_refl|done|]. eapply without_iff; [|by eapply without_none].
    intros tree e _. simpl. split; [done|]. by intros (s & []%elem_of_nil & _).
  - apply Forall_cons_1 in Hn as [(tree & Ht & Hi & Hs & Hk) Hn]. cbn in Hi, Hs, Hk. injection Hi as Hi.
    destruct (Z.gtb_spec version sequence) as [Hgt|Hle].
    + apply runs_bind; [done|]. rewrite Hi, Nat2Z.id, TREES_index. apply runs_ok; [done|]. intros _ _.
      apply runs_bind; [done|]. apply (runs_prune_key _ _ _ contents); [done..|].
      intros f1 roots1 contents1 Hwf1 Hle1 Hh1 Hw1 _ _. apply (IH _ contents1); [done..|].
      intros f2 roots2 contents2 Hwf2 Hle2 Hh2 Hw2. eapply HQ; [done|by apply (file_le_trans f f1)|done|].
      eapply without_iff; [|exact (without_app _ _ _ _ _ Hw1 Hw2)]. intros t e _. simpl. split.
      * intros [[-> ->]|(s & Hin & Hlt)]; [exists version; split; [|lia]|exists s; split; [by right|done]].
        rewrite Hi. by left.
      * intros (s & [Heq|Hin]%elem_of_cons & Hlt); [left|right; by exists s].
        injection Heq as Hti Hkey _. rewrite Hi in Hti. apply Nat2Z.inj, tree_index_inj in Hti. done.
    + apply (IH _ contents); [done..|]. intros f2 roots2 contents2 Hwf2 Hle2 Hh2 Hw2. eapply HQ; [done..|].
      eapply without_iff; [|exact Hw2]. intros t e _. simpl. split.
      * intros (s & Hin & Hlt). exists s. split; [by right|done].
      * intros (s & [Heq|Hin]%elem_of_cons & Hlt); [injection Heq as _ _ ->; lia|by exists s].
Qed.

(** ** The full scan *)
(** [m] prunes the roots, or fails as it may: a deletion failed, or an entry
    does not decode. *)
Definition prunes (m : PageFile -> PageFile * Result (bool * StorageError) (list Z)) (undecodable : StorageError -> Prop)
    f (Q : PageFile -> list Z -> Prop) : Prop :=
  match m f with
  | (f', result) =>
      file_wf f' /\ file_le f f' /\
      match result with
      | Ok roots => Q f' roots
      | Err (true, error) => failed f error
      | Err (false, error) => undecodable error
      | Panic => False
      end
  end.

Lemma failed_le f f' error : file_le f f' -> poisoned f' = poisoned f -> failed f' error -> failed f error.
Proof. intros [_ _ Hr] Hp [[? ?]|[[? Hn]| ?]]; [left|right; left|by right; right]; [by rewrite <-Hp|naive_solver]. Qed.

(** What an entry of a tree may fail to decode with. *)
Definition bad_entry contents (error : StorageError) : Prop :=
  exists tree e, tree <> Cursors /\ e ∈ contents tree /\ entry_sequence tree e.1 = Err error.

Lemma prunes_ok roots undecodable f (Q : PageFile -> list Z -> Prop) :
  file_wf f -> Q f roots -> prunes (fun f => (f, Ok roots)) undecodable f Q.
Proof. intros. split; [done|]. split; [apply file_le_refl|done]. Qed.

Lemma prunes_tree sequence tree l : forall roots contents undecodable f (Q : PageFile -> list Z -> Prop),
  file_wf f -> roots_hold (reader f) roots contents -> Forall (fun e => len e.1 <= MAX_KEY) l ->
  (forall e error, e ∈ l -> entry_sequence tree e.1 = Err error -> undecodable error) ->
  (forall f' roots' contents', file_wf f' -> file_le f f' -> poisoned f' = poisoned f -> roots_hold (reader f') roots' contents' ->
     without (fun t k => t = tree /\ exists v s, (k, v) ∈ l /\ entry_sequence tree k = Ok s /\ sequence < s) contents contents' ->
     Q f' roots') ->
  prunes (prune_tree sequence tree roots (map Ok l)) undecodable f Q.
Proof.
  induction l as [|[key value] l IH]; intros roots contents undecodable f Q Hwf Hh Hk Hbad HQ; cbn [map].
  - apply prunes_ok; [done|]. eapply HQ; [done|apply file_le_refl|done..|]. eapply without_iff; [|by eapply without_none].
    intros t e _. simpl. split; [done|]. by intros (_ & v & s & []%elem_of_nil & _).
  - apply Forall_cons_1 in Hk as [Hk0 Hk]. cbn [fst] in Hk0. unfold prunes. cbn [prune_tree bindR].
    pose proof (entry_sequence_no_panic tree key) as Hnp. destruct (entry_sequence tree key) as [version|error|] eqn:Es; [| |done]; cbn [bindR].
    2: { split; [done|]. split; [apply file_le_refl|]. apply (Hbad (key, value)); [by left|done]. }
    assert (forall e error, e ∈ l -> entry_sequence tree e.1 = Err error -> undecodable error) as Hbad'
      by (intros e error He; apply Hbad; by right).
    destruct (Z.gtb_spec version sequence) as [Hgt|Hle].
    + pose proof (runs_prune_key roots tree key contents f (fun f' roots' => exists contents',
        roots_hold (reader f') roots' contents' /\ without (fun t k => t = tree /\ k = key) contents contents') Hwf Hh Hk0
        (fun _ _ c _ _ Hr Hw => ex_intro _ c (conj Hr Hw))) as Hrun.
      unfold runs in Hrun. destruct (prune_key roots tree key f) as [f1 [roots1|error|]]; destruct Hrun as (Hwf1 & Hle1 & Hr); [|done|done].
      destruct Hr as (Hp1 & contents1 & Hh1 & Hw1).
      specialize (IH roots1 contents1 undecodable f1 Q Hwf1 Hh1 Hk Hbad'). unfold prunes in IH.
      destruct (prune_tree sequence tree roots1 (map Ok l) f1) as [f2 result]. destruct IH as (Hwf2 & Hle2 & Hres).
      { intros f3 roots3 contents3 Hwf3 Hle3 Hp3 Hh3 Hw3. eapply HQ; [done|by apply (file_le_trans f f1)|congruence|done|].
        eapply without_iff; [|exact (without_app _ _ _ _ _ Hw1 Hw3)]. intros t e _. simpl. split.
        - intros [[-> ->]|(-> & v & s & Hin & Hs & Hlt)]; (split; [done|]); [exists value, version|exists v, s];
            (split; [by rewrite elem_of_cons; auto|]); done || (split; [done|lia]).
        - intros (-> & v & s & [[= -> _]|Hin]%elem_of_cons & Hs & Hlt); [by left|right]. split; [done|]. by exists v, s. }
      split; [done|]. split; [by apply (file_le_trans f f1)|]. destruct result as [roots2|[[] error]|]; [done| |done..].
      by apply (failed_le f f1).
    + specialize (IH roots contents undecodable f Q Hwf Hh Hk Hbad'). apply IH. intros f2 roots2 contents2 Hwf2 Hle2 Hp2 Hh2 Hw2.
      eapply HQ; [done..|]. eapply without_iff; [|exact Hw2]. intros t e _. simpl. split.
      * intros (-> & v & s & Hin & Hs & Hlt). split; [done|]. exists v, s. split; [by right|done].
      * intros (-> & v & s & [[= Ek _]|Hin]%elem_of_cons & Hs & Hlt); [rewrite Ek, Es in Hs; apply ok_inj in Hs; lia|].
        split; [done|]. by exists v, s.
Qed.

(** Every stored key is within the format's bound. *)
Lemma subtree_key_bounds r tree height : forall id m,
  reader_wf r -> subtree r tree height id m -> Forall (fun e => len e.1 <= MAX_KEY) m.
Proof.
  induction height as [|height IH]; intros id m Hwf; cbn [subtree].
  - intros (Hid & cells & Hn & Hs). destruct (leaf_inv _ _ _ _ Hwf Hid Hn) as (_ & Hk & _). unfold stored in Hs.
    apply Forall_lookup_2. intros i e He. destruct (Forall2_lookup_r _ _ _ _ _ Hs He) as (c & Hc & E & _).
    rewrite <-E. exact (Forall_lookup_1 _ _ _ _ Hk Hc).
  - intros (_ & keys & children & parts & _ & Hc & _ & ->). apply Forall_concat.
    induction Hc as [|c p children parts Hp _ IHc]; constructor; [by eapply IH|done].
Qed.
Lemma tree_holds_keys r tree root m : reader_wf r -> tree_holds r tree root m -> Forall (fun e => len e.1 <= MAX_KEY) m.
Proof. unfold tree_holds. destruct (root =? 0); [by intros _ ->|]. intros Hwf (_ & n & Hn). by eapply subtree_key_bounds. Qed.

Lemma prunes_trees f0 contents0 source sequence trees : forall roots contents f (Q : PageFile -> list Z -> Prop),
  view_reader source = reader f0 -> file_wf f0 -> roots_hold (reader f0) (view_roots source) contents0 ->
  file_wf f -> file_le f0 f -> roots_hold (reader f) roots contents -> Cursors ∉ trees ->
  (forall f' roots' contents', file_wf f' -> file_le f f' -> poisoned f' = poisoned f -> roots_hold (reader f') roots' contents' ->
     without (fun t k => t ∈ trees /\ exists v s, (k, v) ∈ contents0 t /\ entry_sequence t k = Ok s /\ sequence < s) contents contents' ->
     Q f' roots') ->
  prunes (prune_trees source sequence trees roots) (bad_entry contents0) f Q.
Proof.
  induction trees as [|tree trees IH]; intros roots contents f Q Hsource Hwf0 Hh0 Hwf Hle Hh Hc HQ.
  - apply prunes_ok; [done|]. eapply HQ; [done|apply file_le_refl|done..|]. eapply without_iff; [|by eapply without_none].
    intros t e _. simpl. split; [done|]. by intros ([]%elem_of_nil & _).
  - apply not_elem_of_cons in Hc as [Hc0 Hc]. unfold prunes. cbn [prune_trees].
    destruct (proj2 Hh0 tree) as (root & Hroot & Htree). unfold view_scan. cbn [pinned_view view_roots view_reader].
    rewrite Hroot, Hsource. cbn [expect bindR].
    assert (tree_holds (pinned (reader f0) f) tree root (contents0 tree)) as Hpin.
    { apply (tree_holds_le (reader f0)); [apply Hwf0|by apply pinned_wf|by apply pinned_above|done]. }
    destruct (tree_scan_holds _ _ _ _ Unbounded Unbounded (pinned_wf _ _ Hwf0 Hle) Hpin eq_refl eq_refl) as (s & -> & Hi).
    cbn [bindR]. rewrite Hi, bt_range_all.
    pose proof (prunes_tree sequence tree (contents0 tree) roots contents (bad_entry contents0) f
      (fun f' roots' => poisoned f' = poisoned f /\ exists contents', roots_hold (reader f') roots' contents' /\
         without (fun t k => t = tree /\ exists v s, (k, v) ∈ contents0 tree /\ entry_sequence tree k = Ok s /\ sequence < s) contents contents')
      Hwf Hh (tree_holds_keys _ _ _ _ (proj1 Hwf0) Htree)) as Hrun.
    unfold prunes in Hrun. destruct (prune_tree sequence tree roots (map Ok (contents0 tree)) f) as [f1 result].
    destruct Hrun as (Hwf1 & Hle1 & Hres).
    { intros e error He Hs. exists tree, e. by split; [congruence|]. }
    { intros. split; [done|]. eauto. }
    destruct result as [roots1|[[] error]|]; [|done..]. destruct Hres as (Hp1 & contents1 & Hh1 & Hw1).
    specialize (IH roots1 contents1 f1 Q Hsource Hwf0 Hh0 Hwf1 (file_le_trans _ _ _ Hwf0 Hle Hle1) Hh1 Hc).
    unfold prunes in IH. destruct (prune_trees source sequence trees roots1 f1) as [f2 result]. destruct IH as (Hwf2 & Hle2 & Hres).
    { intros f3 roots3 contents3 Hwf3 Hle3 Hp3 Hh3 Hw3. eapply HQ; [done|by apply (file_le_trans f f1)|congruence|done|].
      eapply without_iff; [|exact (without_app _ _ _ _ _ Hw1 Hw3)]. intros t e _. simpl. rewrite elem_of_cons. naive_solver. }
    split; [done|]. split; [by apply (file_le_trans f f1)|]. destruct result as [roots2|[[] error]|]; [done| |done..].
    by apply (failed_le f f1).
Qed.

(** ** The prepared checkpoint *)
Lemma upto_holds sequence named r roots contents contents' :
  without named contents contents' -> roots_hold r roots contents' ->
  (forall tree, bt_sorted (contents tree)) ->
  (forall tree e, e ∈ contents tree -> ~ named tree e.1 <-> (tree <> Cursors -> entry_below tree sequence e = true)) ->
  roots_hold r roots (upto sequence contents).
Proof.
  intros Hw Hh Hs Hn. eapply roots_hold_ext; [|exact Hh]. intros tree. destruct (Hw tree) as [Hs' He].
  apply bt_sorted_ext; [by apply upto_sorted|done|]. intros e. rewrite elem_of_upto, He. pose proof (Hn tree e). naive_solver.
Qed.

(** The tracked keys above the sequence are the entries above it. *)
Lemma pending_above manifest contents p sequence tree e :
  pending_ok manifest contents p -> manifest_checkpoint_sequence manifest <= sequence -> e ∈ contents tree ->
  ~ (exists s, (pending_key tree e.1, s) ∈ pending_keys p /\ sequence < s) <-> (tree <> Cursors -> entry_below tree sequence e = true).
Proof.
  intros [Hs _ _ Hn Ha] Hcp He. unfold entry_below. rewrite Forall_forall in Hn. split.
  - intros Hno Ht. destruct (Ha tree e Ht He) as (s & Hes & Hp). rewrite Hes. apply Z.leb_le.
    destruct (Z.le_gt_cases s sequence); [done|]. exfalso. apply Hno. exists s. split; [apply bt_get_elem, Hp; lia|lia].
  - intros Hb (s & Hin & Hlt). destruct (Hn _ Hin) as (tree' & Ht & Hk & Hes & _). cbn [fst snd pending_key] in *.
    apply pending_key_inj in Hk as [<- _]. specialize (Hb Ht). rewrite Hes in Hb. apply Z.leb_le in Hb. lia.
Qed.

Lemma proofs_current_lookup view tree proof root :
  proofs_current view = true -> validation view !! tree_index tree = Some proof -> view_roots view !! tree_index tree = Some root ->
  exists p, proof = Some p /\ proof_root p = root.
Proof.
  intros Hc Hp Hr. unfold proofs_current in Hc. rewrite List.forallb_forall in Hc.
  assert ((proof, root) ∈ zip (validation view) (view_roots view)) as Hin.
  { apply list_elem_of_lookup. exists (tree_index tree). apply lookup_zip_with_Some. by exists proof, root. }
  apply list_elem_of_In, Hc in Hin. cbn in Hin. destruct proof as [p|]; [|done]. apply Z.eqb_eq in Hin. by exists p.
Qed.

Lemma policy_key_zero : entry_sequence Policy (be_bytes 8 0) = Ok 0.
Proof. reflexivity. Qed.

Lemma contents_ok_upto genesis tree bound sequence contents :
  tree <> Cursors -> 0 <= sequence -> bt_sorted (contents tree) -> contents_ok genesis tree bound (contents tree) ->
  contents_ok genesis tree (Z.min bound sequence) (upto sequence contents tree).
Proof.
  intros Ht Hseq Hs [Hf Hp]. rewrite Forall_forall in Hf. split.
  - apply Forall_forall. intros e [He Hb]%elem_of_upto. destruct (Hf e He) as [(s & Hes & Hle) Hv]. split; [|done].
    exists s. split; [done|]. specialize (Hb Ht). unfold entry_below in Hb. rewrite Hes in Hb. apply Z.leb_le in Hb. lia.
  - intros E. specialize (Hp E). apply bt_elem_get; [by apply upto_sorted|]. apply elem_of_upto.
    split; [by apply bt_get_elem|]. intros _. subst tree. unfold entry_below. cbn [fst]. rewrite policy_key_zero. by apply Z.leb_le.
Qed.

(** The proofs that follow the tracked deletions. *)
Lemma moved_proofs_ok r r' genesis contents sequence (view : PageView) roots :
  reader_wf r -> 0 <= sequence -> proofs_current view = true -> proofs_ok r genesis (validation view) ->
  roots_hold r (view_roots view) contents -> roots_hold r' roots (upto sequence contents) ->
  proofs_ok r' genesis (zip_with (fun proof root =>
    match proof with
    | Some proof => Some {| proof_root := root; proof_sequence := Z.min (proof_sequence proof) sequence |}
    | None => None
    end) (validation view) roots).
Proof.
  intros Hwf Hseq Hc [Hl Hp] Hh [Hl' Hh']. split; [rewrite length_zip_with; lia|]. intros tree proof Ht Hproof.
  apply lookup_zip_with_Some in Hproof as (old & root & Hnew & Hold & Hroot).
  destruct (proj2 Hh tree) as (root0 & Hroot0 & Htree).
  destruct (proofs_current_lookup _ _ _ _ Hc Hold Hroot0) as (p & -> & Hpr). injection Hnew as ->.
  destruct (Hp tree p Ht Hold) as (m & Hm & Hok). rewrite Hpr in Hm. rewrite (tree_holds_unique _ _ _ _ _ Hwf Hm Htree) in Hok.
  destruct (Hh' tree) as (root' & Hr' & Ht'). rewrite Hroot in Hr'. injection Hr' as <-. exists (upto sequence contents tree).
  split; [done|]. apply contents_ok_upto; [done|done|by eapply tree_holds_sorted|done].
Qed.

(** A view that holds the checkpoint at [sequence]. *)
Record prepared (s : Store) contents sequence (view : PageView) : Prop := {
  prepared_reader : view_reader view = reader (pages s);
  prepared_roots : roots_hold (view_reader view) (view_roots view) (upto sequence contents);
  prepared_proofs : proofs_ok (view_reader view) (store_genesis s) (validation view) }.

(** What a preparation may do: build the view, or fail for a reason. *)
Definition preparation (s : Store) contents sequence (result : Store * Result StorageError PageView) : Prop :=
  let '(s', result) := result in
  file_le (pages s) (pages s') /\ store_holds s' contents /\ store_roots s' = store_roots s /\ store_manifest s' = store_manifest s /\
  match result with
  | Ok view => manifest_checkpoint_sequence (store_manifest s) <= sequence < u64_max /\ prepared s' contents sequence view
  | Err error =>
      error = NeedsRecovery /\ store_poisoned s = true \/
      (sequence < manifest_checkpoint_sequence (store_manifest s) \/ sequence = u64_max) \/
      bad_entry contents error \/ failed (pages s) error /\ store_poisoned s' = true
  | Panic => False
  end.

Definition no_runtime (s : Store) : option Pending :=
  match runtime s with Some runtime => pending runtime | None => None end.

Lemma view_proofs s contents : store_holds s contents -> proofs_ok (reader (pages s)) (store_genesis s) (validation (view s)).
Proof. intros [_ _ Hrt _]. cbn. destruct (runtime s); [apply Hrt|apply no_proofs_ok]. Qed.

(** By the tracked keys. *)
Lemma prepare_tracked s contents sequence p :
  store_holds s contents -> 0 <= manifest_checkpoint_sequence (store_manifest s) <= sequence -> sequence < u64_max ->
  no_runtime s = Some p -> proofs_current (view s) = true ->
  preparation s contents sequence
    (let '(file, result) := prune_pending sequence (view_roots (view s)) (pending_keys p) (pages s) in
     let written := set_pages s file in
     match result with
     | Ok roots =>
         let validation := zip_with (fun proof root =>
           match proof with
           | Some proof => Some {| proof_root := root; proof_sequence := Z.min (proof_sequence proof) sequence |}
           | None => None
           end) (validation (view s)) roots in
         (written, Ok {| view_reader := reader file; view_roots := roots; validation := validation |})
     | Err error => (poison written, Err error)
     | Panic => (written, Panic)
     end).
Proof.
  intros Hh Hcp Hmax Hp Hc. pose proof Hh as [Hwf Hroots Hrt _].
  assert (pending_ok (store_manifest s) contents p) as Hpend.
  { unfold no_runtime in Hp. destruct (runtime s) as [v|]; [|done]. destruct Hrt as [_ _ Hv]. by rewrite Hp in Hv. }
  pose proof (runs_prune_pending sequence (pending_keys p) (store_roots s) contents (pages s)
    (fun f' roots' => roots_hold (reader f') roots' (upto sequence contents)) Hwf Hroots (pending_named _ _ _ Hpend)) as Hrun.
  unfold runs in Hrun. cbn [view view_roots]. destruct (prune_pending _ _ _ _) as [f' result]. destruct Hrun as (Hwf' & Hle & Hres).
  { intros f1 roots1 contents1 Hwf1 Hle1 Hh1 Hw1. eapply upto_holds; [exact Hw1|done|intros t; apply (roots_hold_sorted _ _ _ t Hroots)|].
    intros tree e He. apply (pending_above (store_manifest s) contents); [done|lia|done]. }
  destruct result as [roots|error|]; [| |done].
  - destruct Hres as [_ Hr']. split; [done|]. split; [by eapply store_holds_grown|]. do 2 (split; [done|]). split; [lia|]. split; [done|done|].
    apply (moved_proofs_ok (reader (pages s)) _ _ contents); [apply Hwf|lia|done|exact (view_proofs s contents Hh)|done|done].
  - split; [done|]. split; [by eapply store_holds_grown|]. do 2 (split; [done|]). by right; right; right.
Qed.

(** By a full scan. *)
Lemma prepare_scanned s contents sequence :
  store_holds s contents -> 0 <= manifest_checkpoint_sequence (store_manifest s) <= sequence -> sequence < u64_max ->
  preparation s contents sequence
    (let '(file, result) := prune_trees (view s) sequence (take 4 TREES) (view_roots (view s)) (pages s) in
     let written := set_pages s file in
     match result with
     | Ok roots => (written, Ok {| view_reader := reader file; view_roots := roots; validation := validation (view written) |})
     | Err (failed, error) => (if failed then poison written else written, Err error)
     | Panic => (written, Panic)
     end).
Proof.
  intros Hh Hcp Hmax. pose proof Hh as [Hwf Hroots Hrt _].
  pose proof (prunes_trees (pages s) contents (view s) sequence (take 4 TREES) (store_roots s) contents (pages s)
    (fun f' roots' => roots_hold (reader f') roots' (upto sequence contents)) eq_refl Hwf Hroots Hwf (file_le_refl _) Hroots) as Hrun.
  unfold prunes in Hrun. cbn [view view_roots] in *. destruct (prune_trees _ _ _ _ _) as [f' result]. destruct Hrun as (Hwf' & Hle & Hres).
  { apply (bool_decide_unpack _). reflexivity. }
  { intros f1 roots1 contents1 Hwf1 Hle1 _ Hh1 Hw1. eapply upto_holds; [exact Hw1|done|intros t; apply (roots_hold_sorted _ _ _ t Hroots)|].
    intros tree e He. cbn beta. assert (tree ∈ take 4 TREES <-> tree <> Cursors) as ->.
    { simpl. rewrite !elem_of_cons, elem_of_nil. destruct tree; naive_solver. }
    pose proof (entry_sequence_no_panic tree e.1) as Hnp. unfold entry_below. split.
    - intros Hno Ht. destruct (entry_sequence tree e.1) as [s'| |] eqn:Es; [|done..]. apply Z.leb_le.
      destruct (Z.le_gt_cases s' sequence); [done|]. exfalso. apply Hno. split; [done|]. exists e.2, s'. split; [by destruct e|]. split; [done|lia].
    - intros Hb (Ht & v & s' & _ & Es & Hlt). specialize (Hb Ht). rewrite Es in Hb. apply Z.leb_le in Hb. lia. }
  assert (forall s', pages s' = f' -> store_roots s' = store_roots s -> runtime s' = runtime s -> store_genesis s' = store_genesis s ->
    store_manifest s' = store_manifest s -> store_holds s' contents) as Hgrown by (intros; by apply (store_holds_grown s contents f')).
  destruct result as [roots|[[] error]|]; [| | |done].
  - split; [done|]. split; [by apply Hgrown|]. do 2 (split; [done|]). split; [lia|]. split; [done|done|].
    apply (view_proofs (set_pages s f') contents), Hgrown; done.
  - split; [done|]. split; [by apply Hgrown|]. do 2 (split; [done|]). by right; right; right.
  - split; [done|]. split; [by apply Hgrown|]. do 2 (split; [done|]). by right; right; left.
Qed.

Lemma prepare_spec s contents sequence :
  store_holds s contents -> 0 <= manifest_checkpoint_sequence (store_manifest s) -> sequence <= u64_max ->
  preparation s contents sequence (prepare_checkpoint s sequence).
Proof.
  intros Hh Hcp Hmax. unfold prepare_checkpoint, writable.
  destruct (store_poisoned s) eqn:Hpo; [split; [apply file_le_refl|]; do 3 (split; [done|]); by left|].
  destruct ((sequence <? _) || (sequence =? u64_max)) eqn:Hb.
  { split; [apply file_le_refl|]. do 3 (split; [done|]). right; left. blia. }
  apply orb_false_iff in Hb as [Hb1%Z.ltb_ge Hb2%Z.eqb_neq].
  fold (no_runtime s). destruct (no_runtime s) as [p|] eqn:Ep; [|apply prepare_scanned; [done|lia|lia]].
  destruct (proofs_current (view s)) eqn:Ec; [apply prepare_tracked; [done|lia|lia|done|done]|apply prepare_scanned; [done|lia|lia]].
Qed.
End Prunes.
