(* ===== verification/PublicationFacts.v ===== *)
(** * Publications are atomic

    After any answers of the operating system, a publication leaves the
    directory selecting the old manifest or the new one, and the new one when
    it succeeds; no log is touched. *)
From S2P Require Import Prelude OrdMap Errors Bytes Limits Metadata MetadataFacts Wal WalFacts LogFacts LogChains LogValidation Storage Platform Page PageFacts FileFacts Tree TreeFacts Checkpoint CheckpointFacts Store StoreFacts Directory Log LogAppend LogRecovery LogSurvival Publication.

(** ** What the files hold *)
Definition held (dir : Directory) (name : Name) : option bytes := contents <$> entries dir !! name.

(** The files outside [names] hold what they held. *)
Definition outside (names : list Name) (dir dir' : Directory) : Prop :=
  forall name, name ∉ names -> held dir' name = held dir name.

#[export] Instance outside_preorder names : PreOrder (outside names).
Proof. split; [by intros dir name|]. intros a b c Hab Hbc name Hn. rewrite (Hbc _ Hn). by apply Hab. Qed.

Lemma outside_weaken names names' dir dir' : names ⊆ names' -> outside names dir dir' -> outside names' dir dir'.
Proof. intros Hs Ho name Hn. apply Ho. intros Hin. by apply Hn, Hs. Qed.

Lemma outside_entries names dir dir' : entries dir' = entries dir -> outside names dir dir'.
Proof. intros E name _. unfold held. by rewrite E. Qed.

(** ** Weakest preconditions of directory operations *)
Definition wpD {A} (m : DirM A) (dir : Directory) (Q : Directory -> Result StorageError A -> Prop) : Prop :=
  Q (m dir).1 (m dir).2.

Lemma wpD_bind {A B} (m : DirM A) (k : A -> DirM B) dir (Q : Directory -> Result StorageError B -> Prop) :
  wpD m dir (fun dir r => match r with Ok a => wpD (k a) dir Q | Err error => Q dir (Err error) | Panic => Q dir Panic end) ->
  wpD (bindD m k) dir Q.
Proof. unfold wpD, bindD. by destruct (m dir) as [dir' [a|error|]]. Qed.

Lemma wpD_mono {A} (m : DirM A) dir (Q Q' : Directory -> Result StorageError A -> Prop) :
  wpD m dir Q -> (forall dir' r, Q dir' r -> Q' dir' r) -> wpD m dir Q'.
Proof. unfold wpD. auto. Qed.

Lemma wpD_answered dir : wpD answered dir (fun dir' r => entries dir' = entries dir /\ r <> Panic).
Proof. unfold wpD, answered. by destruct (directory_answers dir) as [|[]]. Qed.

Lemma wpD_sync dir : wpD sync_directory dir (fun dir' r => entries dir' = entries dir /\ r <> Panic).
Proof.
  apply wpD_bind. eapply wpD_mono; [apply wpD_answered|]. intros d r [E Hp]. by destruct r as [[]|error|].
Qed.

Lemma wpD_exists name dir :
  wpD (exists_name name) dir (fun dir' r => dir' = dir /\ r = Ok (bool_decide (is_Some (held dir name)))).
Proof. split; [done|]. cbn. f_equal. apply bool_decide_ext. unfold held. by rewrite fmap_is_Some. Qed.

Lemma wpD_remove name dir :
  wpD (remove_file name) dir (fun dir' r => outside [name] dir dir' /\ r <> Panic).
Proof.
  apply wpD_bind. eapply wpD_mono; [apply wpD_answered|]. intros d r [E Hp]; destruct r as [[]|error|]; [|by split; [apply outside_entries|]|done].
  unfold wpD. cbn. split; [|done]. intros other Hn. unfold held. cbn. rewrite E, lookup_delete_ne; [done|]. intros ->. by apply Hn, list_elem_of_singleton.
Qed.

Lemma wpD_create name dir :
  wpD (create_new name) dir (fun dir' r => outside [name] dir dir' /\ r <> Panic
    /\ (r = Ok true -> held dir name = None /\ held dir' name = Some [])).
Proof.
  apply wpD_bind. eapply wpD_mono; [apply wpD_answered|]. intros d r [E Hp]; destruct r as [[]|error|]; [|by split; [apply outside_entries|]|done].
  unfold wpD. rewrite E. destruct (entries dir !! name) as [f|] eqn:Hf; [by split; [apply outside_entries|]|].
  destruct (match fresh d with [] => ([], []) | r :: rest => (r, rest) end) as [rs rest]. cbn. split; [|split; [done|]].
  - intros other Hn. unfold held. cbn. rewrite lookup_insert_ne; [done|]. intros ->. by apply Hn, list_elem_of_singleton.
  - intros _. unfold held. cbn. by rewrite Hf, lookup_insert_eq.
Qed.

(** An operation on a handle changes only its file. *)
Lemma wpD_on_file {A} name (operation : File -> File * Result StorageError A) dir :
  (forall file, (operation file).2 <> Panic) ->
  wpD (on_file name operation) dir (fun dir' r => outside [name] dir dir' /\ r <> Panic
    /\ forall file, entries dir !! name = Some file -> held dir' name = Some (contents (operation file).1) /\ r = (operation file).2).
Proof.
  intros Hnp. unfold wpD, on_file. destruct (entries dir !! name) as [f|] eqn:Hf; [|by split].
  specialize (Hnp f). destruct (operation f) as [f' r] eqn:Ho. cbn in *. split; [|split; [done|]].
  - intros other Hn. unfold held. cbn. rewrite lookup_insert_ne; [done|]. intros ->. by apply Hn, list_elem_of_singleton.
  - intros file [= <-]. rewrite Ho. unfold held. cbn. by rewrite lookup_insert_eq.
Qed.

(** A flush changes no contents. *)
Lemma wpD_flush name dir :
  wpD (on_file name sync_file) dir (fun dir' r => outside [] dir dir' /\ r <> Panic).
Proof.
  unfold wpD, on_file. destruct (entries dir !! name) as [f|] eqn:Hf; [|by split].
  pose proof (sync_no_panic f) as Hnp. pose proof (sync_contents f) as Hc. destruct (sync_file f) as [f' r]. cbn in *. split; [|done].
  intros other _. unfold held. cbn. destruct (decide (other = name)) as [->|Hne]; [by rewrite lookup_insert_eq, Hf; cbn; rewrite Hc|by rewrite lookup_insert_ne].
Qed.

Lemma wpD_write_new name data dir :
  wpD (write_new name data) dir (fun dir' r => outside [name] dir dir' /\ r <> Panic /\ (r = Ok tt -> held dir' name = Some data)).
Proof.
  apply wpD_bind. eapply wpD_mono; [apply wpD_create|]. intros d1 r (O1 & Hp & Hc); destruct r as [created|error|]; [|done..].
  destruct created; cbn [negb]; [|by split]. destruct (Hc eq_refl) as [_ Hempty]. apply wpD_bind.
  eapply wpD_mono; [apply wpD_on_file|].
  { intros f. by destruct (write_loop_result (responses f) (touched f 0) (contents f) data 0) as [-> | ->]. }
  intros d2 r (O2 & Hp2 & Hw). unfold held in Hempty. destruct (entries d1 !! name) as [f|] eqn:Hf; [|done]. injection Hempty as Hempty.
  destruct (Hw _ eq_refl) as [Hh Hr]. destruct r as [[]|error|]; [|split; [by etrans|done]|done].
  eapply wpD_mono; [apply wpD_flush|]. intros d3 r (O3 & Hp3). split; [etrans; [exact O1|]; etrans; [exact O2|]; by eapply outside_weaken; [|exact O3]; apply list_subseteq_nil|].
  split; [done|]. intros ->. rewrite (O3 name (not_elem_of_nil name)), Hh. f_equal.
  destruct (write_loop (responses f) (touched f 0) (contents f) data 0) as [f' r] eqn:E. cbn in Hr |- *. subst r. apply write_loop_ok in E; [|done]. rewrite E, Hempty.
  by apply (overwrite_end []).
Qed.

Lemma wpD_rename source destination dir :
  source <> destination ->
  wpD (rename_file source destination) dir (fun dir' r => outside [source; destination] dir dir' /\ r <> Panic
    /\ match r with Ok _ => held dir' destination = held dir source /\ is_Some (held dir source) | _ => entries dir' = entries dir end).
Proof.
  intros Hne. apply wpD_bind. eapply wpD_mono; [apply wpD_answered|]. intros d r [E Hp]; destruct r as [[]|error|]; [|by split; [apply outside_entries|]|done].
  unfold wpD. rewrite E. destruct (entries dir !! source) as [f|] eqn:Hf; cbn; [|by split; [apply outside_entries|]].
  split; [|split; [done|]].
  - intros other Hn. unfold held. cbn. assert (other <> destination /\ other <> source) as [H1 H2] by (split; intros ->; apply Hn; set_solver).
    by rewrite lookup_insert_ne, lookup_delete_ne.
  - unfold held. cbn. by rewrite Hf, lookup_insert_eq.
Qed.

(** ** Selecting *)
(** What a selection may have done to the directory. *)
Definition selection (g : Z) (data current : bytes) (dir dir' : Directory) (result : Result StorageError unit) : Prop :=
  result <> Panic
  /\ outside [manifest_pending; CURRENT_pending; manifest_file g; CURRENT] dir dir'
  /\ (result <> Ok tt /\ held dir' CURRENT = held dir CURRENT
        /\ (held dir (manifest_file g) = None \/ held dir' (manifest_file g) = held dir (manifest_file g))
      \/ held dir (manifest_file g) = None /\ held dir' CURRENT = Some current /\ held dir' (manifest_file g) = Some data).

Lemma wpD_select g data current dir : wpD (select_files g data current) dir (selection g data current dir).
Proof.
  assert (forall names dir', outside names dir dir' -> names ⊆ [manifest_pending; CURRENT_pending] ->
    forall error, selection g data current dir dir' (Err error)) as Hquiet.
  { intros names dir' Ho Hs error. split; [done|]. split; [eapply outside_weaken; [|exact Ho]; set_solver|]. left. split; [done|].
    split; [apply Ho; set_solver|]. right. apply Ho; set_solver. }
  apply wpD_bind. eapply wpD_mono; [apply wpD_remove|]. intros d1 r [O1 P1]; destruct r as [b|error|]; [|by eapply Hquiet; [exact O1|set_solver]|done].
  apply wpD_bind. eapply wpD_mono; [apply wpD_write_new|]. intros d2 r (O2 & P2 & W2).
  assert (outside [manifest_pending] dir d2) as O12 by by etrans. destruct r as [[]|error|]; [|by eapply Hquiet; [exact O12|set_solver]|done].
  specialize (W2 eq_refl). apply wpD_bind. eapply wpD_mono; [apply wpD_exists|]. intros d2' r [-> ->].
  destruct (bool_decide_reflect (is_Some (held d2 (manifest_file g)))) as [Hs|Hn]; [by eapply Hquiet; [exact O12|set_solver]|].
  assert (held dir (manifest_file g) = None) as Hnone.
  { rewrite <-(O12 (manifest_file g)) by set_solver. destruct (held d2 (manifest_file g)) eqn:E; [|done]. exfalso. apply Hn. by eexists. }
  apply wpD_bind. eapply wpD_mono; [by apply wpD_rename|]. intros d3 r (O3 & P3 & R3).
  destruct r as [u|error|]; [|eapply (Hquiet [manifest_pending]); [etrans; [exact O12|by apply outside_entries]|set_solver]|done].
  destruct R3 as [R3 _]. rewrite W2 in R3. assert (outside [manifest_pending; manifest_file g] dir d3) as O13.
  { etrans; [eapply outside_weaken; [|exact O12]; set_solver|done]. }
  assert (forall names dir', outside names d3 dir' -> names ⊆ [manifest_pending; CURRENT_pending] -> forall error, selection g data current dir dir' (Err error)) as Hmid.
  { intros names dir' Ho Hs error. split; [done|]. split; [etrans; [eapply outside_weaken; [|exact O13]; set_solver|eapply outside_weaken; [|exact Ho]; set_solver]|].
    left. split; [done|]. split; [rewrite Ho by set_solver; apply O13; set_solver|by left]. }
  apply wpD_bind. eapply wpD_mono; [apply wpD_sync|]. intros d4 r [E4 P4]. assert (outside [] d3 d4) as O4 by by apply outside_entries.
  destruct r as [[]|error|]; [|by eapply Hmid; [exact O4|set_solver]|done].
  apply wpD_bind. eapply wpD_mono; [apply wpD_remove|]. intros d5 r [O5 P5].
  assert (outside [CURRENT_pending] d3 d5) as O35 by (etrans; [eapply outside_weaken; [|exact O4]; set_solver|done]).
  destruct r as [b'|error|]; [|by eapply Hmid; [exact O35|set_solver]|done].
  apply wpD_bind. eapply wpD_mono; [apply wpD_write_new|]. intros d6 r (O6 & P6 & W6). assert (outside [CURRENT_pending] d3 d6) as O36 by by etrans.
  destruct r as [[]|error|]; [|by eapply Hmid; [exact O36|set_solver]|done]. specialize (W6 eq_refl).
  apply wpD_bind. eapply wpD_mono; [by apply wpD_rename|]. intros d7 r (O7 & P7 & R7).
  destruct r as [u7|error|]; [|eapply Hmid; [etrans; [exact O36|by apply outside_entries]|set_solver]|done].
  destruct R7 as [R7 _]. rewrite W6 in R7. assert (outside [CURRENT_pending; CURRENT] d3 d7) as O37 by (etrans; [eapply outside_weaken; [|exact O36]; set_solver|done]).
  eapply wpD_mono; [apply wpD_sync|]. intros d8 r [E8 P8]. assert (outside [] d7 d8) as O8 by by apply outside_entries.
  split; [done|]. split.
  - etrans; [eapply outside_weaken; [|exact O13]; set_solver|]. etrans; [eapply outside_weaken; [|exact O37]; set_solver|eapply outside_weaken; [|exact O8]; set_solver].
  - right. split; [done|]. rewrite !(O8 _ (not_elem_of_nil _)). split; [done|]. rewrite O37 by set_solver. done.
Qed.

(** Steps that change no contents. *)
Definition quiet {A} (m : DirM A) : Prop := forall dir, wpD m dir (fun dir' r => outside [] dir dir' /\ r <> Panic).

Lemma quiet_bind {A B} (m : DirM A) (k : A -> DirM B) : quiet m -> (forall a, quiet (k a)) -> quiet (bindD m k).
Proof.
  intros Hm Hk dir. apply wpD_bind. eapply wpD_mono; [apply Hm|]. intros d r [O P]. destruct r as [a|error|]; [|by split|done].
  eapply wpD_mono; [apply Hk|]. intros d2 r2 [O2 P2]. split; [by etrans|done].
Qed.

Lemma quiet_lift {A} (r : Result StorageError A) : r <> Panic -> quiet (liftD r).
Proof. by intros Hr dir. Qed.

Lemma quiet_answered : quiet answered.
Proof. intros dir. eapply wpD_mono; [apply wpD_answered|]. intros d r [E P]. by split; [apply outside_entries|]. Qed.

Lemma quiet_sync : quiet sync_directory.
Proof. intros dir. eapply wpD_mono; [apply wpD_sync|]. intros d r [E P]. by split; [apply outside_entries|]. Qed.

Lemma quiet_exists name : quiet (exists_name name).
Proof. intros dir. eapply wpD_mono; [apply wpD_exists|]. by intros d r [-> ->]. Qed.

Lemma quiet_flush name : quiet (on_file name sync_file).
Proof. intros dir. apply wpD_flush. Qed.

Section Publishing.
Context `{Checksum} `{Sha256}.

Lemma quiet_sync_segments reuse old segs : forall new_files, quiet (sync_segments reuse old segs new_files).
Proof.
  induction segs as [|s segs IH]; intros new_files; cbn [sync_segments]; [by apply quiet_lift|]. apply quiet_bind; [|apply IH].
  apply quiet_bind; [|intros u; by apply quiet_lift]. destruct (_ || _); [apply quiet_flush|by apply quiet_lift].
Qed.

Lemma selection_after g data current dir dir1 dir2 r :
  outside [] dir dir1 -> selection g data current dir1 dir2 r -> selection g data current dir dir2 r.
Proof.
  intros O (P & O2 & S). split; [done|]. split; [etrans; [eapply outside_weaken; [|exact O]; set_solver|done]|].
  by rewrite !(O _ (not_elem_of_nil _)) in S.
Qed.

Lemma wpD_metadata reuse old m data current dir :
  wpD (publish_metadata reuse old m data current) dir (selection (generation m) data current dir).
Proof.
  assert (forall dir' error, outside [] dir dir' -> selection (generation m) data current dir dir' (Err error)) as Hfail.
  { intros dir' error O. split; [done|]. split; [eapply outside_weaken; [|exact O]; set_solver|]. left. split; [done|].
    rewrite !(O _ (not_elem_of_nil _)). by split; [|right]. }
  assert (quiet (do! new_files := sync_segments reuse old (segments m) (negb (page_file_id m =? page_file_id old)) in
                 do! _ := answered in if negb reuse || new_files then sync_directory else okD tt)) as Hq.
  { apply quiet_bind; [apply quiet_sync_segments|]. intros new_files. apply quiet_bind; [apply quiet_answered|]. intros u.
    destruct (_ || _); [apply quiet_sync|by apply quiet_lift]. }
  specialize (Hq dir). unfold publish_metadata. unfold wpD, bindD in Hq |- *.
  destruct (sync_segments _ _ _ _ dir) as [d1 [nf|error|]]; [|apply Hfail, Hq|by destruct Hq].
  destruct (answered d1) as [d2 [u|error|]]; [|apply Hfail, Hq|by destruct Hq].
  destruct ((if negb reuse || nf then sync_directory else okD tt) d2) as [d3 [v|error|]]; [|apply Hfail, Hq|by destruct Hq].
  destruct Hq as [O _]. cbn in O. eapply selection_after; [exact O|]. apply wpD_select.
Qed.

(** ** The manifest a directory selects *)
Record selects (dir : Directory) (m : Manifest) : Prop := {
  selects_entries : exists current data, held dir CURRENT = Some current /\ len current <= 64
    /\ Current_decode current = Ok {| current_generation := generation m; current_digest := sha256 data |}
    /\ held dir (manifest_file (generation m)) = Some data /\ len data <= 16 * 1024 * 1024 /\ Manifest_decode data = Ok m }.

Lemma read_bounded_ok name maximum dir dir' data :
  read_bounded name maximum dir = (dir', Ok data) <-> dir' = dir /\ held dir name = Some data /\ len data <= maximum.
Proof.
  unfold read_bounded, bindD, read_file, liftD, held. destruct (entries dir !! name) as [f|]; cbn; [|naive_solver].
  rewrite Z.gtb_ltb. destruct (Z.ltb_spec maximum (len (contents f))) as [Hl|Hl]; unfold errD, okD, liftD.
  - split; [done|]. intros (_ & [= <-] & ?). lia.
  - split; [by intros [= <- <-]|]. by intros (-> & [= <-] & _).
Qed.

Lemma read_selected_iff dir dir' m : read_selected dir = (dir', Ok m) <-> dir' = dir /\ selects dir m.
Proof.
  unfold read_selected. split.
  - intros Hr. unfold bindD at 1 in Hr. destruct (read_bounded CURRENT 64 dir) as [d1 [cur|error|]] eqn:E1; [|done..].
    apply read_bounded_ok in E1 as (-> & Hcur & Lcur). unfold bindD at 1, liftD in Hr. destruct (Current_decode cur) as [[g d]|error|] eqn:Ec; [|done..].
    cbn [current_generation current_digest] in Hr. unfold bindD at 1 in Hr. destruct (read_bounded (manifest_file g) _ dir) as [d1 [data|error|]] eqn:E2; [|done..].
    apply read_bounded_ok in E2 as (-> & Hdata & Ldata). destruct (bool_decide_reflect (sha256 data = d)) as [<-|]; cbn [negb] in Hr; [|done].
    unfold bindD, liftD in Hr. destruct (Manifest_decode data) as [m'|error|] eqn:Em; [|done..]. destruct (Z.eqb_spec (generation m') g) as [<-|]; cbn [negb] in Hr; [|done].
    injection Hr as <- <-. split; [done|]. split. by exists cur, data.
  - intros [-> [(cur & data & Hcur & Lcur & Ec & Hdata & Ldata & Em)]]. unfold bindD at 1. rewrite (proj2 (read_bounded_ok _ _ _ dir cur)) by done.
    unfold bindD at 1, liftD. rewrite Ec. cbn [current_generation current_digest]. unfold bindD at 1. rewrite (proj2 (read_bounded_ok _ _ _ dir data)) by done.
    rewrite bool_decide_true by done. cbn [negb]. unfold bindD, liftD. rewrite Em, Z.eqb_refl. done.
Qed.

Lemma selects_outside dir dir' m : outside [] dir dir' -> selects dir m -> selects dir' m.
Proof.
  intros O [(cur & data & Hs)]. split. exists cur, data. by rewrite !(O _ (not_elem_of_nil _)).
Qed.

Lemma selects_typed dir m : selects dir m -> manifest_typed m /\ validate_manifest m = Ok tt.
Proof.
  intros [(cur & data & _ & _ & _ & _ & _ & Em)]. apply manifest_encode_decode in Em as [T He]. split; [done|].
  unfold Manifest_encode in He. step_ok He as u eqn Hv. destruct u. by apply map_err_ok in Hv.
Qed.

(** The files that the encodings of [m] make select it. *)
Lemma selected_by dir m data current :
  manifest_typed m -> Manifest_encode m = Ok data ->
  Current_encode {| current_generation := generation m; current_digest := sha256 data |} = Ok current ->
  held dir CURRENT = Some current -> held dir (manifest_file (generation m)) = Some data -> selects dir m.
Proof.
  intros T He Hc H1 H2. pose proof (manifest_decode_encode _ _ T He) as Hd.
  assert (Current_decode current = Ok {| current_generation := generation m; current_digest := sha256 data |}) as Hcd.
  { apply current_decode_iff. split; [done|]. split; [apply T|apply sha256_len]. }
  assert (len current <= 64) as Lc.
  { unfold Current_decode in Hcd. step_ok Hcd as u eqn Hu. destruct u. apply check_metadata_iff in Hu as [[_ ?] _]; done. }
  assert (len data <= 16 * 1024 * 1024) as Ld.
  { unfold Manifest_decode in Hd. step_ok Hd as u eqn Hu. destruct u. apply check_metadata_iff in Hu as [[_ ?] _]; done. }
  split. by exists current, data.
Qed.

(** ** The files of a publication *)
Definition PUBLISHED (m : Manifest) : list Name := [manifest_pending; CURRENT_pending; manifest_file (generation m); CURRENT].

(** The directory after an attempt to select [m]. *)
Record attempted (dir : Directory) (m : Manifest) (dir' : Directory) (r : Result StorageError unit) : Prop := {
  attempted_outside : outside (PUBLISHED m) dir dir';
  attempted_ok : r = Ok tt -> validate_manifest m = Ok tt /\ selects dir' m /\ held dir (manifest_file (generation m)) = None;
  attempted_old : forall old, selects dir old -> selects dir' old \/ selects dir' m }.

Lemma attempted_none dir m r : r <> Ok tt -> attempted dir m dir r.
Proof. intros Hr. split; [done|done|]. intros old Ho. by left. Qed.

Lemma selection_attempted dir m data current dir' r :
  manifest_typed m -> Manifest_encode m = Ok data ->
  Current_encode {| current_generation := generation m; current_digest := sha256 data |} = Ok current ->
  selection (generation m) data current dir dir' r -> attempted dir m dir' r.
Proof.
  intros T He Hc (Hp & O & S). split; [done| |].
  - intros ->. destruct S as [[? _]|(Hn & H1 & H2)]; [done|]. split; [|split; [by eapply selected_by|done]].
    unfold Manifest_encode in He. step_ok He as u eqn Hv. destruct u. by apply map_err_ok in Hv.
  - intros old [(cur & dat & Hcur & Lc & Ec & Hdat & Ld & Em)]. destruct S as [(_ & H1 & H2)|(_ & H1 & H2)]; [left|right; by eapply selected_by].
    split. exists cur, dat. rewrite H1. do 3 (split; [done|]). split; [|done].
    destruct (decide (generation old = generation m)) as [E|Hne]; [rewrite E in *; destruct H2 as [H2|H2]; [congruence|by rewrite H2]|].
    rewrite O; [done|]. unfold not. rewrite !elem_of_cons. intros [|[|[E|[|Hin]]]]; try done; [by injection E|by apply not_elem_of_nil in Hin].
Qed.

(** Only the answers of the page file may have changed. *)
Definition same_pages (f f' : PageFile) : Prop :=
  contents (file f') = contents (file f) /\ page_count f' = page_count f /\ next_page f' = next_page f /\ poisoned f' = poisoned f.

Lemma sync_same f : same_pages f (sync f).1 /\ (sync f).2 <> Panic.
Proof.
  unfold sync. destruct (poisoned f) eqn:Hp; [by split|]. pose proof (sync_contents (file f)) as Hc. pose proof (sync_no_panic (file f)) as Hn.
  by destruct (sync_file (file f)) as [f' r].
Qed.

Lemma publish_files_spec store m dir :
  manifest_typed m ->
  let '(dir', (store', r)) := publish_files store m dir in
  r <> Panic /\ attempted dir m dir' r /\ exists f, store' = set_pages store f /\ same_pages (pages store) f.
Proof.
  intros T. unfold publish_files. assert (forall r, r <> Ok tt -> r <> Panic -> r <> Panic /\ attempted dir m dir r
    /\ exists f, store = set_pages store f /\ same_pages (pages store) f) as Hnone.
  { intros r H1 H2. split; [done|]. split; [by apply attempted_none|]. exists (pages store). by destruct store. }
  destruct (Manifest_encode m) as [data|error|] eqn:He; cbn [bindR]; [|by apply Hnone|].
  2: { exfalso. unfold Manifest_encode in He. pose proof (validate_manifest_no_panic m T) as Hn. by destruct (validate_manifest m). }
  rewrite current_encode_image by apply sha256_len. destruct (valid_id _) eqn:Hid; cbn [negb bindR current_generation]; [|by apply Hnone].
  set (current := append_crc _). assert (Current_encode {| current_generation := generation m; current_digest := sha256 data |} = Ok current) as Hc.
  { rewrite current_encode_image by apply sha256_len. cbn [current_generation] in *. by rewrite Hid. }
  pose proof (sync_same (pages store)) as [Hsame Hnp].
  set (reuse := match runtime store with Some _ => true | None => false end).
  assert (forall f, same_pages (pages store) f ->
    let '(dir', r) := publish_metadata reuse (store_manifest store) m data current dir in
    r <> Panic /\ attempted dir m dir' r /\ exists f', set_pages store f = set_pages store f' /\ same_pages (pages store) f') as Hmeta.
  { intros f Hf. pose proof (wpD_metadata reuse (store_manifest store) m data current dir) as Hw. unfold wpD in Hw.
    destruct (publish_metadata _ _ _ _ _ _) as [dir' r]. cbn in Hw. split; [apply Hw|]. split; [by eapply selection_attempted|by exists f]. }
  destruct (negb reuse || _).
  - destruct (sync (pages store)) as [f [u|error|]]; cbn in Hsame, Hnp; [| |done].
    + specialize (Hmeta f Hsame). by destruct (publish_metadata _ _ _ _ _ _) as [dir' r].
    + split; [done|]. split; [by apply attempted_none|by exists f].
  - specialize (Hmeta (pages store) ltac:(by repeat split)). by destruct (publish_metadata _ _ _ _ _ _) as [dir' r].
Qed.

(** ** The next generation *)
Lemma next_generation_loop_ok fuel dir : forall generation dir' g,
  next_generation_loop fuel generation dir = (dir', Ok g) ->
  dir' = dir /\ generation < g < u64_max /\ held dir (manifest_file g) = None.
Proof.
  induction fuel as [|fuel IH]; intros generation dir' g Hn; cbn [next_generation_loop] in Hn; [done|].
  unfold bindD at 1, liftD in Hn. unfold checked_u64 in Hn. destruct (in_u64 (generation + 1)) eqn:Hr; [|done]. apply in_u64_spec in Hr.
  destruct (Z.eqb_spec (generation + 1) u64_max) as [|Hm]; [done|]. cbn [ok_or] in Hn. unfold bindD, exists_name in Hn.
  destruct (bool_decide_reflect (is_Some (entries dir !! manifest_file (generation + 1)))) as [Hs|Hs].
  - apply IH in Hn as (-> & Hg & Hf). split; [done|]. split; [lia|done].
  - unfold okD, liftD in Hn. injection Hn as <- <-. split; [done|]. split; [unfold u64_max in *; lia|].
    unfold held. by destruct (entries dir !! _); [exfalso; apply Hs; by eexists|].
Qed.

(** The loop ends: each turn passes another file. *)
Lemma next_generation_loop_runs fuel dir start : forall generation,
  start <= generation -> (forall g, start < g <= generation -> is_Some (entries dir !! manifest_file g)) ->
  (size (entries dir) < fuel + Z.to_nat (generation - start))%nat ->
  (next_generation_loop fuel generation dir).1 = dir /\ (next_generation_loop fuel generation dir).2 <> Panic.
Proof.
  induction fuel as [|fuel IH]; intros generation Hle Htaken Hfuel; cbn [next_generation_loop].
  - exfalso. pose proof (taken_names dir manifest_file (start + 1) (Z.to_nat (generation - start)) ltac:(by intros a b [= ->])) as Hn.
    assert (Z.to_nat (generation - start) <= size (entries dir))%nat; [|lia]. apply Hn. intros j Hj. apply Htaken. lia.
  - unfold bindD at 1 2, liftD. unfold checked_u64. destruct (in_u64 (generation + 1)); [|done]. destruct (_ =? u64_max); [done|]. cbn [ok_or].
    unfold bindD at 1 2, exists_name. destruct (bool_decide_reflect (is_Some (entries dir !! manifest_file (generation + 1)))) as [Hs|Hs]; [|done].
    apply IH; [lia| |lia]. intros g Hg. destruct (decide (g = generation + 1)) as [->|]; [done|]. apply Htaken. lia.
Qed.

Lemma next_generation_runs store dir : (next_generation store dir).1 = dir /\ (next_generation store dir).2 <> Panic.
Proof. apply (next_generation_loop_runs _ _ (generation (store_manifest store))); [lia|intros g Hg; lia|lia]. Qed.

(** ** What a publication checks *)
Record checked (store : Store) (checkpoint : PageView) (given : Manifest) (dir : Directory) (g : Z)
    (proofs : Proofs) (logs : option LogValidation) : Prop := {
  checked_writable : store_poisoned store = false;
  checked_transition : validate_transition store given = Ok tt;
  checked_cursors : view_roots checkpoint !! tree_index Cursors = store_roots store !! tree_index Cursors;
  checked_generation : generation (store_manifest store) < g < u64_max;
  checked_fresh : held dir (manifest_file g) = None;
  checked_valid : validate_manifest (completed store checkpoint given g) = Ok tt;
  checked_checkpoint : validate (view_reader checkpoint) (completed store checkpoint given g) (store_genesis store)
    (match runtime store with Some _ => validation checkpoint | None => no_proofs end) = Ok proofs;
  checked_logs : publication_logs (log_contents dir) store (completed store checkpoint given g) = Ok logs }.

Lemma check_publication_ok owner store checkpoint given dir dir' m proofs logs :
  check_publication owner store checkpoint given dir = (dir', Ok (m, proofs, logs)) ->
  dir' = dir /\ owner = true /\ exists g, m = completed store checkpoint given g /\ checked store checkpoint given dir g proofs logs.
Proof.
  unfold check_publication. intros Hc. unfold bindD at 1, liftD at 1, writable in Hc. destruct (store_poisoned store) eqn:Hp; [done|].
  destruct owner; cbn [negb] in Hc; [|done]. unfold bindD at 1, liftD at 1 in Hc. destruct (validate_transition store given) as [[]|error|] eqn:Ht; [|done..].
  case_bool_decide as Hcur; cbn [negb] in Hc; [|done]. unfold bindD at 1 in Hc.
  destruct (next_generation store dir) as [d1 [g|error|]] eqn:Hg; [|done..]. apply next_generation_loop_ok in Hg as (-> & Hg & Hf).
  unfold bindD at 1, liftD at 1 in Hc. destruct (Manifest_encode _) as [data|error|] eqn:He; [|done..].
  unfold bindD at 1, liftD at 1 in Hc. destruct (validate _ _ _ _) as [pf|error|] eqn:Hv; [|done..].
  unfold bindD, get_directory, liftD in Hc. destruct (publication_logs _ _ _) as [lg|error|] eqn:Hl; [|done..].
  unfold okD, liftD in Hc. injection Hc as <- <- <- <-. split; [done|]. split; [done|]. exists g. split; [done|]. split; try done.
  unfold Manifest_encode in He. step_ok He as u eqn Hvm. destruct u. by apply map_err_ok in Hvm.
Qed.

Lemma check_publication_failed owner store checkpoint given dir dir' r :
  check_publication owner store checkpoint given dir = (dir', r) -> dir' = dir.
Proof.
  unfold check_publication. intros Hc. unfold bindD at 1, liftD at 1 in Hc. destruct (writable store); [|by injection Hc..].
  destruct (negb owner); [by injection Hc|]. unfold bindD at 1, liftD at 1 in Hc. destruct (validate_transition store given); [|by injection Hc..].
  destruct (negb _); [by injection Hc|]. unfold bindD at 1 in Hc. pose proof (next_generation_runs store dir) as [Hd _].
  destruct (next_generation store dir) as [d1 [g|error|]]; cbn in Hd; subst d1; [|by injection Hc..].
  unfold bindD at 1, liftD at 1 in Hc. destruct (Manifest_encode _); [|by injection Hc..].
  unfold bindD at 1, liftD at 1 in Hc. destruct (validate _ _ _ _); [|by injection Hc..].
  unfold bindD, get_directory, liftD in Hc. destruct (publication_logs _ _ _); by injection Hc.
Qed.

(** The owner's bookkeeping after a publication. *)
Definition noted (store : Store) (m : Manifest) (proofs : Proofs) (logs : option LogValidation) : option RuntimeValidation :=
  match runtime store with
  | Some runtime =>
      let noted := note_published runtime (store_roots store) m proofs in
      Some {| live := live noted; published := published noted; pending := pending noted; runtime_logs := logs |}
  | None => None
  end.

Lemma publish_inv owner store checkpoint given dir dir' store' r :
  0 <= generation (store_manifest store) -> (forall g, is_u64 g -> manifest_typed (completed store checkpoint given g)) ->
  publish owner store checkpoint given dir = (dir', (store', r)) ->
  (r <> Ok tt /\ dir' = dir /\ store' = store)
  \/ owner = true /\ r <> Panic /\ exists g proofs logs f, checked store checkpoint given dir g proofs logs
       /\ same_pages (pages store) f /\ attempted dir (completed store checkpoint given g) dir' r
       /\ publish_files store (completed store checkpoint given g) dir = (dir', (set_pages store f, r))
       /\ store' = match r with
                   | Ok _ => published_store (set_pages store f) (completed store checkpoint given g) (store_roots store)
                               (noted store (completed store checkpoint given g) proofs logs)
                   | _ => poison (set_pages store f)
                   end.
Proof.
  intros Hgen Hty. unfold publish. destruct (check_publication owner store checkpoint given dir) as [d1 [[[m proofs] logs]|error|]] eqn:Hc.
  2-3: apply check_publication_failed in Hc as ->; intros [= <- <- <-]; by left.
  apply check_publication_ok in Hc as (-> & -> & g & -> & Hc). intros Hp. right. split; [done|].
  pose proof (checked_generation _ _ _ _ _ _ _ Hc) as Hg. pose proof (checked_fresh _ _ _ _ _ _ _ Hc) as _.
  unfold publish_or_poison in Hp. pose proof (publish_files_spec store (completed store checkpoint given g) dir) as Hspec.
  destruct (publish_files _ _ _) as [d2 [s2 r2]] eqn:Hfiles. destruct Hspec as (Hnp & Hatt & f & -> & Hsame).
  { apply Hty. unfold is_u64, u64_max in *. change (256 ^ 8) with 18446744073709551616. lia. }
  destruct r2 as [[]|error|]; [| |done]; injection Hp as <- <- <-; (split; [done|]); exists g, proofs, logs, f; by rewrite Hfiles.
Qed.
End Publishing.
