(* ===== verification/History.v ===== *)
(** * The acknowledged history

    The log on file is a window of one history of records.  Appends and
    publications extend the history, failures leave it alone, and whatever a
    crash leaves of the directory, opening it again finds the history. *)
From S2P Require Import Prelude OrdMap Errors Bytes Limits Storage Platform Page PageFacts FileFacts Metadata MetadataFacts Wal WalFacts LogFacts LogChains LogValidation Tree TreeFacts Checkpoint CheckpointFacts Store Directory Log Publication LogAppend LogRecovery LogSurvival LogExtension StoreFacts PublicationFacts.

(** ** What operations of the log touch *)
Definition is_log (name : Name) : Prop := exists id, name = log_file id.

Abbreviation logs_only := (touches is_log).

Lemma untouched_held dir dir' name : untouched dir dir' name -> held dir' name = held dir name.
Proof. intros [E _]. unfold held. by rewrite E. Qed.
Lemma logs_only_bind {A B} (m : DirM A) (k : A -> DirM B) : logs_only m -> (forall a, logs_only (k a)) -> logs_only (bindD m k).
Proof. apply touches_bind. Qed.
Lemma touches_read (P : Name -> Prop) name : touches P (read_file name).
Proof. intros dir other _. apply untouched_refl. Qed.
Lemma logs_only_on_file {A} id (operation : File -> File * Result StorageError A) : logs_only (on_file (log_file id) operation).
Proof. apply touches_on_file. by exists id. Qed.
Lemma logs_only_create id : logs_only (create_new (log_file id)).
Proof. apply touches_create. by exists id. Qed.
#[local] Hint Extern 0 (touches _ _) =>
  first [apply touches_lift | apply touches_answered | apply touches_sync | apply touches_read | apply logs_only_on_file | apply logs_only_create | apply touches_get] : core.

Section History.
Context `{Checksum} `{Sha256}.

Lemma logs_only_allocate store id : logs_only (allocate store log_file id).
Proof.
  intros dir. apply logs_only_bind; [done|]. intros _. generalize (S (size (entries dir))). intros fuel. clear dir. revert id.
  induction fuel as [|fuel IH]; intros id; cbn [allocate_loop]; [done|]. destruct (_ || _); [done|]. apply logs_only_bind; [done|]. by intros [].
Qed.

Lemma touches_write_group (P : Name -> Prop) name group : P name -> forall offset, touches P (write_group name group offset).
Proof.
  intros Hp. induction group as [|data group IH]; intros offset; cbn [write_group]; [done|].
  apply touches_bind; [by apply touches_on_file|]. intros u. apply touches_bind; [done|apply IH].
Qed.

Lemma touches_write_frame (P : Name -> Prop) name header group length physical offset :
  P name -> touches P (write_frame name header group length physical offset).
Proof.
  intros Hp. unfold write_frame. apply touches_bind; [by apply touches_on_file|]. intros u. apply touches_bind; [done|]. intros o.
  apply touches_bind; [by apply touches_write_group|]. intros o'. apply touches_bind; [done|]. intros t. apply touches_bind; [by apply touches_on_file|]. intros u'.
  apply touches_bind; [done|]. intros padding. destruct (negb _); [|done]. do 2 (apply touches_bind; [done|]; intros ?). by apply touches_on_file.
Qed.

Lemma logs_only_append_files store batch : logs_only (append_files store batch).
Proof.
  unfold append_files. destruct (bool_decide _); [done|]. do 3 (apply logs_only_bind; [done|]; intros ?). apply logs_only_bind.
  - unfold open_segment. destruct (last _); [destruct (rotate_next store)|]; repeat first [apply logs_only_bind; [done || apply logs_only_allocate|]; intros ? | done | destruct (negb _)].
  - intros [next seg]. do 2 (apply logs_only_bind; [done|]; intros ?). apply logs_only_bind.
    + apply touches_write_frame. by eexists.
    + intros ?. apply logs_only_bind; [done|]. intros ?. apply logs_only_bind; [|done]. by destruct (_ || _).
Qed.

Lemma append_wal_untouched store records dir name : ~ is_log name -> untouched dir (append_wal store records dir).1 name.
Proof.
  intros Hn. unfold append_wal. destruct (writable store); [|apply untouched_refl..].
  assert (logs_only (append_group store records)) as Hl.
  { unfold append_group. apply logs_only_bind; [done|]. intros b. apply logs_only_bind; [apply logs_only_append_files|]. intros next. by apply logs_only_bind. }
  specialize (Hl dir name Hn). by destruct (append_group store records dir) as [d [[s' digest]|error|]].
Qed.

Lemma append_wal_others store records dir name : ~ is_log name -> held (append_wal store records dir).1 name = held dir name.
Proof. intros Hn. by apply untouched_held, append_wal_untouched. Qed.

Lemma logs_only_flush todo : logs_only (flush_segments todo).
Proof.
  induction todo as [|entry todo IH]; cbn [flush_segments]; [done|]. apply logs_only_bind; [|done]. by apply logs_only_bind.
Qed.

Lemma logs_only_recover m recovery : logs_only (recover_tail m recovery).
Proof.
  unfold recover_tail. apply logs_only_bind; [done|]. intros d. do 4 (apply logs_only_bind; [done|]; intros ?). apply logs_only_bind; [apply logs_only_flush|].
  intros ?. apply logs_only_bind; [|done]. by destruct (new_files _).
Qed.

(** ** The invariant *)
(** The window of the history [records] that the log of [m] keeps. *)
Definition window (m : Manifest) (records : list bytes) : list bytes := drop (Z.to_nat (log_floor m - 1)) records.

(** Recovery from [chosen] finds the history: the live log continues its log,
    or, after a publication that failed, its log has the history above its floor. *)
Definition recoverable (dir : Directory) (chosen : Manifest) (store : Store) (records : list bytes) : Prop :=
  exists rs, log_records dir chosen rs /\
    (continues chosen (store_manifest store) /\ log_floor (store_manifest store) = log_floor chosen
     \/ store_poisoned store = true /\ exists more, rs = window chosen (records ++ more) /\ log_floor chosen <= len records + 1).

Record durable (dir : Directory) (store : Store) (records : list bytes) : Prop := {
  durable_typed : manifest_typed (store_manifest store);
  durable_valid : validate_manifest (store_manifest store) = Ok tt;
  durable_length : durable_sequence (store_manifest store) = len records;
  durable_log : log_records dir (store_manifest store) (window (store_manifest store) records);
  durable_proof : live_logs (log_contents dir) store (window (store_manifest store) records);
  durable_selected : exists chosen, selects dir chosen /\ recoverable dir chosen store records }.

Lemma durable_floor dir store records : durable dir store records -> 1 <= log_floor (store_manifest store) <= len records + 1.
Proof.
  intros [T Hv Hl _ _ _]. pose proof (manifest_floor _ T Hv). pose proof (manifest_frontiers _ Hv). lia.
Qed.

Lemma window_app m records more : log_floor m <= len records + 1 -> window m (records ++ more) = window m records ++ more.
Proof. intros Hf. unfold window. rewrite drop_app_le; [done|]. unfold len in *. lia. Qed.

(** ** Directories with the same files *)
Definition same_files (dir dir' : Directory) : Prop :=
  (forall id data, log_contents dir id = Some data -> exists data', log_contents dir' id = Some data' /\ data `prefix_of` data')
  /\ (forall g, held dir' (manifest_file g) = held dir (manifest_file g)) /\ held dir' CURRENT = held dir CURRENT.

Lemma log_prefix files files' m rs :
  (forall id data, files id = Some data -> exists data', files' id = Some data' /\ data `prefix_of` data') -> log_of files m rs -> log_of files' m rs.
Proof.
  intros Hp (rss & Hr & ->). exists rss. split; [|done]. eapply Forall2_impl; [exact Hr|]. intros s r (file & Hf & Hh & Ha).
  destruct (Hp _ _ Hf) as (file' & Hf' & Hpre). exists file'. split; [done|]. split; [by eapply segment_holds_mono|done].
Qed.

Lemma same_files_selects dir dir' m : same_files dir dir' -> selects dir m -> selects dir' m.
Proof. intros (_ & Hm & Hc) [(cur & data & Hs)]. split. exists cur, data. by rewrite Hc, Hm. Qed.

Lemma same_files_proof dir dir' store rs : same_files dir dir' -> live_logs (log_contents dir) store rs -> live_logs (log_contents dir') store rs.
Proof.
  intros [Hp _] Hl. unfold live_logs in *. destruct (match runtime store with Some v => runtime_logs v | None => None end) as [proof|]; [|done].
  destruct Hl as [P1 P2 P3]. split; [done| |done]. by eapply log_prefix.
Qed.

Lemma recoverable_same dir dir' chosen store store' records :
  same_files dir dir' -> store_manifest store' = store_manifest store -> (store_poisoned store = true -> store_poisoned store' = true) ->
  recoverable dir chosen store records -> recoverable dir' chosen store' records.
Proof.
  intros Hs Em Hpo (rs & Hrs & Hc). exists rs. split; [by eapply log_prefix; [apply Hs|]|]. rewrite Em.
  destruct Hc as [Hc|[Hx Hc]]; [by left|right; by split; [apply Hpo|]].
Qed.

(** A store whose manifest and proof are the same, in a directory with the same files. *)
Lemma durable_same dir dir' store store' records :
  same_files dir dir' -> store_manifest store' = store_manifest store ->
  match runtime store' with Some v => runtime_logs v | None => None end = match runtime store with Some v => runtime_logs v | None => None end ->
  (store_poisoned store = true -> store_poisoned store' = true) ->
  durable dir store records -> durable dir' store' records.
Proof.
  intros Hs Em Er Hpo [T Hv Hl Hr Hp (chosen & Hsel & Hc)]. split; rewrite ?Em; try done.
  - by eapply log_prefix; [apply Hs|].
  - apply (same_files_proof dir); [done|]. unfold live_logs in *. by rewrite Er, Em.
  - exists chosen. split; [by eapply same_files_selects|by eapply recoverable_same].
Qed.

Lemma grows_same dir dir' : grows dir dir' -> (forall name, ~ is_log name -> held dir' name = held dir name) -> same_files dir dir'.
Proof.
  intros Hg Ho. split; [|split; [intros g|]; apply Ho; by intros [? ?]]. intros id data Hd. unfold log_contents in *.
  destruct (entries dir !! log_file id) as [f|] eqn:E; [|done]. injection Hd as <-. destruct (Hg _ _ E) as (f' & E' & Hp). exists (contents f'). by rewrite E'.
Qed.

(** ** Appends *)
Lemma recoverable_appended dir dir' chosen store store' records new rs :
  same_files dir dir' -> store_poisoned store = false -> append_result store new rs dir dir' store' -> manifest_typed (store_manifest store) ->
  recoverable dir chosen store records -> recoverable dir' chosen store' (records ++ map snd new).
Proof.
  intros Hs Hpo (_ & _ & _ & _ & HfN & _ & _ & _ & b & B & Happ) Hv (rs0 & Hrs & Hc). exists rs0. split; [by eapply log_prefix; [apply Hs|]|].
  destruct Hc as [[Hc Hf]|[Hp _]]; [left; split; [|congruence]; eapply continues_trans; [exact Hc|]; by eapply appended_continues|congruence].
Qed.

Lemma appended_writable store new dir dir' store' digest : append_wal store new dir = (dir', (store', Ok digest)) -> store_poisoned store = false.
Proof. unfold append_wal, writable. by destruct (store_poisoned store). Qed.

Lemma append_durable dir store records new dir' store' r :
  durable dir store records -> append_wal store new dir = (dir', (store', r)) ->
  same_files dir dir' /\ r <> Panic /\ durable dir' store' (match r with Ok _ => records ++ map snd new | _ => records end).
Proof.
  intros Hd Ha. pose proof (durable_floor _ _ _ Hd) as Hfl. pose proof Hd as [T Hv Hl Hr Hp (chosen & Hsel & Hc)].
  pose proof (append_wal_spec store new dir _ T Hv Hr) as Hspec. rewrite Ha in Hspec. destruct Hspec as (Hg & Hr' & Hres).
  assert (same_files dir dir') as Hsame.
  { apply grows_same; [done|]. intros name Hn. pose proof (append_wal_others store new dir name Hn) as Ho. by rewrite Ha in Ho. }
  split; [done|]. destruct r as [digest|error|]; [|split; [done|]; subst store'; by apply (durable_same dir dir' store)|done].
  split; [done|]. destruct Hres as [Happended _]. pose proof Happended as (TN & HvN & HrN & HdN & HfN & HcN & Est & Hrt & b & B & Happ).
  assert (window (store_manifest store') (records ++ map snd new) = window (store_manifest store) records ++ map snd new) as Hw.
  { rewrite window_app by lia. unfold window. by rewrite HfN. }
  split; [done|done| | | |].
  - rewrite HdN, Hl, len_app. unfold len. by rewrite length_map.
  - by rewrite Hw.
  - rewrite Hw. unfold live_logs in *. destruct (runtime store') as [v'|]; [|done]. destruct (runtime_logs v') as [proof'|] eqn:Hlog; [|done].
    destruct (runtime store) as [v|]; [|done]. destruct Hrt as (_ & _ & _ & Hrt). destruct (Hrt _ Hlog) as (proof & Hp1 & Hcom). rewrite Hp1 in Hp.
    exact (committed_sound _ _ _ _ _ _ _ _ Hv Hp HrN HcN HfN Hcom).
  - exists chosen. split; [by eapply same_files_selects|]. eapply recoverable_appended; [done| |done..]. by eapply appended_writable.
Qed.

(** ** Publications *)
(** What [validate_transition] accepts does not go back. *)
Lemma transition_inv store next :
  validate_transition store next = Ok tt ->
  let old := store_manifest store in
  generation next = generation old /\ database_id next = database_id old /\ genesis_digest next = genesis_digest old
  /\ cursor_namespace next = cursor_namespace old /\ page_file_id next = page_file_id old
  /\ manifest_checkpoint_sequence old <= manifest_checkpoint_sequence next /\ durable_sequence old <= durable_sequence next
  /\ history_floor old <= history_floor next /\ log_floor old <= log_floor next /\ next_cursor_id old <= next_cursor_id next
  /\ next_segment_id old <= next_segment_id next
  /\ (durable_sequence next = durable_sequence old -> durable_digest next = durable_digest old)
  /\ (manifest_checkpoint_sequence next = manifest_checkpoint_sequence old -> checkpoint_digest next = checkpoint_digest old).
Proof.
  intros Ht old. unfold validate_transition in Ht. fold old in Ht. step_if Ht eqn E1. step_if Ht eqn E2. clear Ht.
  repeat match goal with Hb : _ || _ = false |- _ => apply orb_false_iff in Hb as [? ?] end. bsimp.
  repeat match goal with Hb : bool_decide _ = true |- _ => apply bool_decide_eq_true_1 in Hb end.
  do 11 (split; [done || lia|]). split; intros Es; rewrite Es, Z.eqb_refl in *; cbn in *; bsimp;
    by repeat match goal with Hb : bool_decide _ = true |- _ => apply bool_decide_eq_true_1 in Hb end.
Qed.

Lemma attempted_logs dir m dir' r id : attempted dir m dir' r -> log_contents dir' id = log_contents dir id.
Proof.
  intros [O _ _]. change (held dir' (log_file id) = held dir (log_file id)). apply O. unfold PUBLISHED, not. rewrite !elem_of_cons.
  intros [|[|[|[|Hin]]]]; try done. by apply not_elem_of_nil in Hin.
Qed.

Lemma log_of_ext files files' m rs : (forall id, files' id = files id) -> log_of files m rs -> log_of files' m rs.
Proof. intros He. apply log_prefix. intros id data Hd. exists data. by rewrite He. Qed.

(** The records a publication lists are the history above its floor, and more. *)
Lemma published_log dir store checkpoint given g proofs logs records :
  durable dir store records -> manifest_typed (completed store checkpoint given g) -> checked store checkpoint given dir g proofs logs ->
  let m := completed store checkpoint given g in
  exists rs', log_records dir m rs' /\ (forall proof, logs = Some proof -> proof_ok (log_contents dir) m rs' proof)
    /\ ((exists more, rs' = window m (records ++ more) /\ log_floor m <= len records + 1 /\ durable_sequence m = len (records ++ more))
        \/ clash (window (store_manifest store) records) rs' /\ relists (store_manifest store) m).
Proof.
  intros Hd Tm [C1 C2 C3 C4 C5 Hvm C7 Hlogs] m. fold m in Tm, Hvm, Hlogs. pose proof (durable_floor _ _ _ Hd) as Hfl. pose proof Hd as [T Hv Hl Hr Hp _].
  apply transition_inv in C2 as (E1 & E2 & E3 & E4 & E5 & Hcp & Hdur & _ & Hlf & _ & _ & Hdig & _).
  change (log_floor given) with (log_floor m) in Hlf. change (durable_sequence given) with (durable_sequence m) in Hdur, Hdig. change (durable_digest given) with (durable_digest m) in Hdig.
  destruct (publication_logs_sound _ _ _ _ _ T Hv Hr Hp Tm Hvm Hlf Hdur Hdig E2 Hlogs) as (rs' & Hl' & Hproof & Hkeep). exists rs'. split; [done|]. split; [done|].
  destruct Hkeep as [[Hf (more & ->)]|Hc]; [left|by right]. exists more. rewrite Hl in Hf.
  assert (window m (records ++ more) = drop (Z.to_nat (log_floor m - log_floor (store_manifest store))) (window (store_manifest store) records) ++ more) as Hw.
  { rewrite window_app by done. unfold window. rewrite drop_drop. do 2 f_equal. lia. }
  split; [done|]. split; [done|]. destruct (log_extent _ _ _ Hvm Hl') as [Hext _]. rewrite <-Hw in Hext. unfold window in Hext.
  pose proof (manifest_floor _ Tm Hvm). rewrite len_app in *. unfold len in *. rewrite length_drop, length_app in Hext. lia.
Qed.

(** A publication that wrote: what it checked, and the history it listed. *)
Record publication dir store checkpoint given g proofs logs records more : Prop := {
  publication_typed : manifest_typed (completed store checkpoint given g);
  publication_checked : checked store checkpoint given dir g proofs logs;
  publication_log : log_records dir (completed store checkpoint given g) (window (completed store checkpoint given g) (records ++ more));
  publication_proof : forall proof, logs = Some proof ->
    proof_ok (log_contents dir) (completed store checkpoint given g) (window (completed store checkpoint given g) (records ++ more)) proof;
  publication_floor : log_floor (completed store checkpoint given g) <= len records + 1;
  publication_length : durable_sequence (completed store checkpoint given g) = len (records ++ more) }.

Lemma publish_cases owner dir store checkpoint given dir' store' r records :
  durable dir store records -> (forall g, is_u64 g -> manifest_typed (completed store checkpoint given g)) ->
  publish owner store checkpoint given dir = (dir', (store', r)) ->
  (r <> Ok tt /\ dir' = dir /\ store' = store)
  \/ (exists g proofs logs f more, publication dir store checkpoint given g proofs logs records more /\ same_pages (pages store) f /\ r <> Panic
       /\ attempted dir (completed store checkpoint given g) dir' r
       /\ publish_files store (completed store checkpoint given g) dir = (dir', (set_pages store f, r))
       /\ store' = match r with
                   | Ok _ => published_store (set_pages store f) (completed store checkpoint given g) (store_roots store) (noted store (completed store checkpoint given g) proofs logs)
                   | _ => poison (set_pages store f)
                   end)
  \/ exists g rs', log_records dir (completed store checkpoint given g) rs' /\ clash (window (store_manifest store) records) rs'
       /\ relists (store_manifest store) given.
Proof.
  intros Hd Hty Hp. pose proof (durable_typed _ _ _ Hd) as T.
  apply publish_inv in Hp as [Hnone|(_ & Hnp & g & proofs & logs & f & Hck & Hsame & Hatt & Hfiles & Hst)]; [by left| |apply T|done]. right.
  assert (manifest_typed (completed store checkpoint given g)) as Tm.
  { apply Hty. destruct (checked_generation _ _ _ _ _ _ _ Hck). pose proof (typed_generation _ T) as [? _]. unfold is_u64, u64_max in *. change (256 ^ 8) with 18446744073709551616. lia. }
  destruct (published_log _ _ _ _ _ _ _ _ Hd Tm Hck) as (rs' & Hl' & Hproof & [(more & Ers & Hf & Hdur)|Hcl]); [left|right; by exists g, rs'].
  rewrite Ers in Hl', Hproof. exists g, proofs, logs, f, more. split; [done|]. do 4 (split; [done|]). by destruct r.
Qed.

(** The manifest of a publication that failed late, recovered. *)
Lemma recoverable_published dir dir' store store' checkpoint given g proofs logs records more :
  publication dir store checkpoint given g proofs logs records more -> (forall id, log_contents dir' id = log_contents dir id) ->
  store_poisoned store' = true -> recoverable dir' (completed store checkpoint given g) store' records.
Proof.
  intros [_ _ Hl _ Hf _] He Hp. eexists. split; [eapply log_of_ext; [exact He|exact Hl]|]. right. split; [done|]. by exists more.
Qed.

Lemma recoverable_poisoned dir dir' chosen store store' records :
  (forall id, log_contents dir' id = log_contents dir id) -> store_manifest store' = store_manifest store -> store_poisoned store' = true ->
  recoverable dir chosen store records -> recoverable dir' chosen store' records.
Proof.
  intros He Em Hp (rs & Hr & Hc). exists rs. split; [by eapply log_of_ext|]. rewrite Em. destruct Hc as [Hc|[_ Hc]]; [by left|by right].
Qed.

Lemma published_durable dir dir' store store' checkpoint given g proofs logs f records more r :
  durable dir store records -> publication dir store checkpoint given g proofs logs records more ->
  attempted dir (completed store checkpoint given g) dir' r -> r <> Panic ->
  store' = match r with
           | Ok _ => published_store (set_pages store f) (completed store checkpoint given g) (store_roots store) (noted store (completed store checkpoint given g) proofs logs)
           | _ => poison (set_pages store f)
           end -> durable dir' store' (match r with Ok _ => records ++ more | _ => records end).
Proof.
  intros Hd Hpub Hatt Hnp Hst. pose proof Hd as [T Hv Hl Hr Hlp (chosen & Hsel & Hc)]. pose proof Hpub as [Tm _ Hl' Hproof Hf Hdur].
  set (m := completed store checkpoint given g) in *. pose proof (fun id => attempted_logs _ _ _ _ id Hatt) as Hlogs.
  destruct r as [[]|error|]; [| |done]; subst store'.
  - destruct (attempted_ok _ _ _ _ Hatt eq_refl) as (Hvm & Hsel' & _).
    assert (log_records dir' m (window m (records ++ more))) as Hl2 by by eapply log_of_ext. split; [done|done|done|done| |].
    + unfold live_logs, noted. cbn. destruct (runtime store); [|done]. cbn. destruct logs as [proof|]; [|done]. destruct (Hproof _ eq_refl) as [P1 P2 P3]. by split.
    + exists m. split; [done|]. exists (window m (records ++ more)). split; [done|]. left. split; [apply continues_refl|done].
  - split; try done.
    + by eapply log_of_ext.
    + unfold live_logs in *. cbn. destruct (match runtime store with Some v => runtime_logs v | None => None end) as [proof|]; [|done].
      destruct Hlp as [P1 P2 P3]. split; [done| |done]. by eapply log_of_ext.
    + destruct (attempted_old _ _ _ _ Hatt chosen Hsel) as [Hs|Hs]; [exists chosen|exists m]; (split; [done|]).
      * by apply (recoverable_poisoned dir _ _ store).
      * by eapply recoverable_published; [exact Hpub|exact Hlogs|].
Qed.
End History.

(** * Opening what a crash left

    Opening a directory that has the files that select a checkpoint and the
    listed prefixes of the log gives a store with the acknowledged history, and
    perhaps records whose acknowledgement was lost. *)
Section Reopening.
Context `{Checksum} `{Sha256}.

Lemma selects_unique dir m m' : selects dir m -> selects dir m' -> m = m'.
Proof.
  intros Hs Hs'. pose proof (proj2 (read_selected_iff dir dir m) (conj eq_refl Hs)) as E.
  pose proof (proj2 (read_selected_iff dir dir m') (conj eq_refl Hs')) as E'. rewrite E in E'. by injection E'.
Qed.

(** The first bytes of every segment of [m], as many as it lists, are kept. *)
Definition keeps_committed (dir dir' : Directory) (m : Manifest) : Prop :=
  forall s data, s ∈ segments m -> log_contents dir (segment_id s) = Some data ->
    exists data', log_contents dir' (segment_id s) = Some data' /\ committed_bytes s <= len data'
      /\ take (Z.to_nat (committed_bytes s)) data' = take (Z.to_nat (committed_bytes s)) data.

Lemma committed_records dir dir' m rs : manifest_typed m -> keeps_committed dir dir' m -> log_records dir m rs -> log_records dir' m rs.
Proof.
  intros T Hk (rss & H2 & ->). exists rss. split; [|done]. pose proof (typed_segments _ T) as Hts.
  apply Forall2_same_length_lookup. apply Forall2_same_length_lookup in H2 as [Hlen H2]. split; [done|]. intros i s r Hi Hr.
  destruct (H2 _ _ _ Hi Hr) as (file & Hf & Hh & Ha). pose proof (Forall_lookup_1 _ _ _ _ Hts Hi) as Td.
  destruct (Hk _ _ (list_elem_of_lookup_2 _ _ _ Hi) Hf) as (file' & Hf' & Hl & Ht). exists file'. split; [done|]. split; [|done].
  eapply segment_holds_cut; [apply T|apply Td|done..].
Qed.

(** What recovery needs of the files a crash left.  It is not assumed of a
    crash: Lifecycle.v derives it from what was flushed ([crash_crashed]). *)
Record crashed (dir : Directory) (store : Store) (dir' : Directory) : Prop := {
  crashed_current : held dir' CURRENT = held dir CURRENT;
  crashed_manifest : forall chosen, selects dir chosen ->
    held dir' (manifest_file (generation chosen)) = held dir (manifest_file (generation chosen));
  crashed_live : keeps_committed dir dir' (store_manifest store);
  crashed_selected : forall chosen, selects dir chosen -> keeps_committed dir dir' chosen;
  crashed_sizes : forall id data, log_contents dir' id = Some data -> len data <= u64_max }.

Lemma crashed_selects dir store dir' m : crashed dir store dir' -> selects dir m -> selects dir' m.
Proof.
  intros [Hc Hm _ _ _] Hs. pose proof (Hm _ Hs) as Hg. destruct Hs as [(cur & data & Hs)]. split. exists cur, data. by rewrite Hc, Hg.
Qed.

(** ** The steps of [open_directory] *)
Definition last_cut (m : Manifest) : list (Z * Z) :=
  match last (segments m) with Some s => [(segment_id s, committed_bytes s)] | None => [] end.

Lemma loaded_inv m dir dir' r : load m dir = (dir', Ok r) ->
  dir' = dir /\ exists genesis pages file, r = (genesis, pages) /\ entries dir !! pages_file (page_file_id m) = Some file
    /\ open file (database_id m) (page_file_id m) (manifest_page_count m) = Ok pages
    /\ (exists proofs, validate (reader pages) m genesis no_proofs = Ok proofs) /\ validate_logs (log_contents dir) m = Ok tt.
Proof.
  unfold load. intros Hl. unfold bindD at 1 in Hl. destruct (read_genesis m dir) as [d1 [genesis|error|]] eqn:Hg; [|done..].
  assert (d1 = dir) as ->.
  { unfold read_genesis, bindD, liftD in Hg. destruct (read_bounded GENESIS 180 dir) as [d [data|error|]] eqn:Hb; [|done..]. apply read_bounded_ok in Hb as (-> & _ & _).
    destruct (Genesis_decode data); [|done..]. destruct (_ || _); [done|]. by injection Hg as -> _. }
  unfold bindD at 1 in Hl. unfold open_pages in Hl. destruct (ok_or _ _) as [file|error|] eqn:Hf; cbn [bindR] in Hl; [|done..].
  destruct (entries dir !! _) as [f|] eqn:Hf'; [|done]. injection Hf as ->. destruct (open file _ _ _) as [pages|error|] eqn:Ho; [|done..].
  unfold bindD, liftD, get_directory, okD in Hl. destruct (validate (reader pages) m genesis no_proofs) as [p|error|] eqn:Hv; [|done..].
  destruct (validate_logs _ m) as [[]|error|] eqn:Hvl; [|done..]. injection Hl as <- <-. split; [done|]. exists genesis, pages, file. do 3 (split; [done|]). split; [by eexists|done].
Qed.

Lemma open_inv lease attaching recovery dir dir' store :
  open_directory lease attaching recovery dir = (dir', Ok store) ->
  exists dirm, selects dir (selected store) /\ validate_logs (log_contents dir) (selected store) = Ok tt
    /\ recover_tail (selected store) recovery dir = (dirm, Ok (store_manifest store))
    /\ (Forall (fun entry => 0 <= entry.2) (last_cut (store_manifest store)) -> cuts_only (last_cut (store_manifest store)) dirm dir')
    /\ (forall name, ~ is_log name -> untouched dirm dir' name)
    /\ flushed_le (last_cut (store_manifest store)) dirm dir'
    /\ runtime store = None /\ store_poisoned store = false /\ store_roots store = manifest_roots (store_manifest store)
    /\ exists file opened proofs, entries dir !! pages_file (page_file_id (selected store)) = Some file
         /\ open file (database_id (selected store)) (page_file_id (selected store)) (manifest_page_count (selected store)) = Ok opened
         /\ validate (reader opened) (selected store) (store_genesis store) no_proofs = Ok proofs
         /\ truncate_tail opened = (pages store, Ok tt).
Proof.
  unfold open_directory. intros Ho. unfold bindD at 1, liftD in Ho. destruct lease as [[]|error|]; [|done..].
  unfold bindD at 1, exists_name in Ho. destruct (negb attaching && _); [done|]. unfold bindD at 1 in Ho. unfold bindD at 1 in Ho.
  destruct (read_selected dir) as [d1 [chosen|error|]] eqn:Hs; [|done..]. apply read_selected_iff in Hs as [-> Hs].
  unfold bindD at 1 in Ho. destruct (load chosen dir) as [d1 [[genesis pages]|error|]] eqn:Hld; [|done..].
  apply loaded_inv in Hld as (-> & ? & opened & file & [= <- <-] & Hfile & Hopen & (proofs & Hvalid) & Hvl).
  unfold bindD at 1 in Ho. destruct (recover_tail chosen recovery dir) as [dirm [m|error|]] eqn:Hrec; [|done..].
  destruct (truncate_tail pages) as [pages' truncated] eqn:Htr. unfold bindD at 1 in Ho. destruct truncated as [[]|error|]; [|done..].
  unfold bindD at 1 in Ho.
  match type of Ho with match ?act with _ => _ end = _ => destruct act as [d2 [[]|error|]] eqn:Hset end; [|done..]. injection Ho as <- <-.
  exists dirm. cbn [selected store_manifest runtime store_poisoned store_roots store_genesis Store.pages]. do 3 (split; [done|]). unfold last_cut.
  destruct (last (segments m)) as [s|]; [|injection Hset as <-; split; [intros _ name f Hf; exists f; split; [done|]; intros n Hn _; by split; [lia|]|split; [intros; apply untouched_refl|]; split; [by reflexivity|]; do 3 (split; [done|]); by exists file, pages, proofs]].
  split; [|split; [|split; [|do 3 (split; [done|]); by exists file, pages, proofs]]].
  - intros Hc. apply Forall_cons_1 in Hc as [Hc _]. eapply on_file_cuts; [exact Hset|]. intros f Hf n Hn Hcut. destruct (set_len f (committed_bytes s)) as [f' r'] eqn:Hsl.
    eapply set_len_keeps; [exact Hsl|done|split; [lia|]|lia]. apply Hcut. by apply list_elem_of_singleton.
  - intros name Hn. assert (logs_only (on_file (log_file (segment_id s)) (fun file => set_len file (committed_bytes s)))) as Hl by apply logs_only_on_file.
    specialize (Hl dirm name Hn). by rewrite Hset in Hl.
  - pose proof (flushed_le_on_file [(segment_id s, committed_bytes s)] (segment_id s) (fun file => set_len file (committed_bytes s)) dirm) as Hl.
    rewrite Hset in Hl. apply Hl. intros f n _ Hn Hf. apply set_len_stable; [|done]. apply Hn. by apply list_elem_of_singleton.
Qed.

Lemma last_cut_nonneg m : manifest_typed m -> Forall (fun entry => 0 <= entry.2) (last_cut m).
Proof.
  intros T. unfold last_cut. destruct (last (segments m)) as [s|] eqn:El; [|constructor]. constructor; [|constructor]. cbn.
  pose proof (typed_segments _ T) as Ts. rewrite Forall_forall in Ts. destruct (typed_committed s); [|done].
  apply Ts. apply last_Some in El as [l ->]. apply elem_of_app. right. by apply list_elem_of_singleton.
Qed.

(** The cut of the last segment keeps what an earlier manifest lists. *)
Lemma last_cut_keeps m l s cut :
  continues m l -> validate_manifest m = Ok tt ->
  s ∈ segments m -> (segment_id s, cut) ∈ last_cut l -> committed_bytes s <= cut.
Proof.
  intros [_ _ Hc] Hv Hs Hin. unfold last_cut in Hin. destruct (last (segments l)) as [t|] eqn:El; [|by apply not_elem_of_nil in Hin].
  apply list_elem_of_singleton in Hin as [= Hid ->]. apply last_Some in El as [init El].
  destruct Hc as [[Hm _]|(before & seg & seg' & new & Hm & Hl & E1 & _ & _ & Hle & Hnew)]; [rewrite Hm in Hs; by apply not_elem_of_nil in Hs|].
  pose proof (manifest_increasing _ Hv) as Hinc. destruct (manifest_ids _ Hv) as [_ Hids]. rewrite Forall_forall in Hids. pose proof (Hids _ Hs) as Hlow.
  destruct new as [|x new _] using rev_ind.
  - rewrite El in Hl. apply app_inj_tail in Hl as [-> ->]. rewrite Hm in Hs. apply elem_of_app in Hs as [Hs|Hs%list_elem_of_singleton]; [|by subst s].
    rewrite Hm, map_app in Hinc. apply sorted_snoc_below in Hinc. rewrite Forall_forall in Hinc.
    specialize (Hinc (segment_id s) ltac:(by apply list_elem_of_fmap_2)). lia.
  - rewrite El, app_comm_cons, app_assoc in Hl. apply app_inj_tail in Hl as [_ ->]. apply Forall_app in Hnew as [_ Hx]. apply Forall_cons_1 in Hx as [Hx _]. lia.
Qed.

(** ** Opening *)
(** Whatever a crash left, a store that opens has the history acknowledged. *)
Lemma open_durable dir store records dir2 lease attaching recovery dir3 store' :
  durable dir store records -> crashed dir store dir2 ->
  open_directory lease attaching recovery dir2 = (dir3, Ok store') ->
  exists more, durable dir3 store' (records ++ more).
Proof.
  intros Hd Hcr Ho. pose proof (durable_floor _ _ _ Hd) as Hfl. pose proof Hd as [T Hv Hl Hr _ (chosen & Hsel & rs & Hrs & Hc)].
  apply open_inv in Ho as (dirm & Hsel2 & _ & Hrec & Hcut & Hother & _ & Hrt & Hpo & _ & _).
  pose proof (selects_unique _ _ _ (crashed_selects _ _ _ _ Hcr Hsel) Hsel2) as Esel. rewrite <-Esel in *.
  destruct (selects_typed _ _ Hsel2) as [Tc Hvc].
  apply (committed_records _ _ _ _ T (crashed_live _ _ _ Hcr)) in Hr. apply (committed_records _ _ _ _ Tc (crashed_selected _ _ _ Hcr _ Hsel)) in Hrs.
  destruct (recover_tail_spec _ _ _ _ _ _ Tc Hvc Hrs Hrec) as (Hrsm & Hnext). destruct (Hnext _ eq_refl) as (more0 & TN & HvN & Hrn & _ & Hfn & _).
  destruct (recovery_continues _ _ _ _ _ _ Tc Hvc Hrs Hrec) as [_ Hcont]. specialize (Hcut (last_cut_nonneg _ TN)).
  assert (exists more, log_records dirm (store_manifest store') (window (store_manifest store') (records ++ more)) /\ log_floor (store_manifest store') <= len records + 1) as (more & Hw & Hf).
  { destruct Hc as [[Hc Hf]|(_ & more & -> & Hf)].
    - destruct (recovery_extends _ _ _ _ _ _ _ _ Tc Hvc Hrs T Hv Hr Hc Hf (crashed_sizes _ _ _ Hcr) Hrec) as [more He]. exists more.
      split; [|lia]. rewrite window_app by lia. unfold window in *. by rewrite Hfn, <-Hf.
    - exists (more ++ more0). split; [|lia]. rewrite app_assoc, window_app by (rewrite len_app; pose proof (len_nonneg more); lia). unfold window in *. by rewrite Hfn. }
  exists more. assert (log_records dir3 (store_manifest store') (window (store_manifest store') (records ++ more))) as Hw3.
  { eapply cuts_records; [done|exact Hcut| |done]. intros s cut Hs Hin. by eapply last_cut_keeps; [apply continues_refl|..]. }
  split; try done.
  - destruct (log_extent _ _ _ HvN Hw) as [He _]. unfold window in He. pose proof (manifest_floor _ TN HvN). rewrite len_app. unfold len in *. rewrite length_drop, length_app in He. lia.
  - unfold live_logs. by rewrite Hrt.
  - exists chosen. split.
    + pose proof (logs_only_recover chosen recovery dir2) as Hlo. rewrite Hrec in Hlo. cbn [fst] in Hlo.
      assert (forall name, ~ is_log name -> held dir3 name = held dir2 name) as Hheld
        by (intros name Hn; rewrite (untouched_held _ _ _ (Hother _ Hn)); by apply untouched_held, Hlo).
      destruct Hsel2 as [(cur & data & Hs)]. split. exists cur, data. by rewrite !Hheld by (by intros [? ?]).
    + exists rs. split; [|left; done]. eapply cuts_records; [done|exact Hcut| |done]. intros s cut Hs Hin. by eapply last_cut_keeps.
Qed.
End Reopening.
