(* ===== verification/Disk.v ===== *)
(** * What the calls leave flushed

    The flushes of appends, publications and recovery, and what they put out
    of reach of a crash: the committed prefix of every segment that a manifest
    lists, the files that select the manifest, and its pages. *)
From S2P Require Import Prelude OrdMap Errors Bytes Limits Storage Platform Page PageFacts FileFacts Metadata MetadataFacts Wal WalFacts LogFacts LogChains LogValidation Tree TreeFacts Checkpoint CheckpointFacts Store Directory Log Publication LogAppend LogRecovery LogSurvival LogExtension StoreFacts PublicationFacts History.

(** The segments of [m] are flushed to their committed bytes. *)
Definition flushed_logs (dir : Directory) (m : Manifest) : Prop :=
  forall s, s ∈ segments m -> flushed_to dir (segment_id s) (committed_bytes s).

(** ** Operations that lower no flushed prefix below the cuts *)
Section Lowering.
Context (cuts : list (Z * Z)).

Definition lowers {A} (m : DirM A) : Prop := forall dir, flushed_le cuts dir (m dir).1.

Lemma lowers_bind {A B} (m : DirM A) (k : A -> DirM B) : lowers m -> (forall a, lowers (k a)) -> lowers (bindD m k).
Proof.
  intros Hm Hk dir. unfold bindD. specialize (Hm dir). destruct (m dir) as [d [a|error|]]; [|done..]. etrans; [exact Hm|apply Hk].
Qed.
Lemma lowers_touches {A} (P : Name -> Prop) (m : DirM A) : (forall id, ~ P (log_file id)) -> touches P m -> lowers m.
Proof. intros Hp Hm dir. apply flushed_le_untouched. intros id. by apply Hm. Qed.
Lemma lowers_lift {A} (r : Result StorageError A) : lowers (liftD r).
Proof. apply (lowers_touches (fun _ => False)); [tauto|apply touches_lift]. Qed.
Lemma lowers_answered : lowers answered.
Proof. apply (lowers_touches (fun _ => False)); [tauto|apply touches_answered]. Qed.
Lemma lowers_sync_directory : lowers sync_directory.
Proof. apply (lowers_touches (fun _ => False)); [tauto|apply touches_sync]. Qed.
Lemma lowers_sync id : lowers (on_file (log_file id) sync_file).
Proof. intros dir. apply flushed_le_sync. Qed.

(** A write at or above a cut of its file. *)
Lemma lowers_write id data offset cut :
  (id, cut) ∈ cuts -> cut <= offset -> lowers (on_file (log_file id) (fun file => write_all_at file data offset)).
Proof.
  intros Hc Ho dir. apply flushed_le_on_file. intros f n _ Hn Hs. apply write_all_at_stable; [|done]. specialize (Hn _ Hc). lia.
Qed.

Lemma lowers_group id cut group : forall offset, (id, cut) ∈ cuts -> cut <= offset -> lowers (write_group (log_file id) group offset).
Proof.
  induction group as [|data group IH]; intros offset Hc Ho; cbn [write_group]; [apply lowers_lift|].
  apply lowers_bind; [by eapply lowers_write|]. intros u dir. unfold bindD, liftD.
  destruct (arith_u64 (offset + len data)) as [o|error|] eqn:E; [|reflexivity..]. apply arith_u64_inv in E as [-> _]. apply IH; [done|]. pose proof (len_nonneg data). lia.
Qed.
End Lowering.

(** A file that the directory did not have may be written at will. *)
Lemma flushed_le_new cuts dir d d' id :
  flushed_le cuts dir d -> entries dir !! log_file id = None -> (forall other, other <> id -> untouched d d' (log_file other)) ->
  flushed_le cuts dir d'.
Proof.
  intros Hd Hn Hu other f Hf. assert (other <> id) as Hne by (intros ->; by rewrite Hf in Hn). destruct (Hd _ _ Hf) as (g & Hg & S & U).
  specialize (Hu _ Hne). exists g. destruct Hu as [E Us]. rewrite E. split; [done|]. split; [done|]. intros Hs. eapply untouched_settled; [by split|]. by apply U.
Qed.

(** ** Appends *)
Section Appending.
Context `{Checksum} `{Sha256}.

Lemma allocate_new fuel id : forall dir,
  (forall other, is_Some (entries dir !! log_file other) -> untouched dir (allocate_loop fuel log_file id dir).1 (log_file other))
  /\ forall id', (allocate_loop fuel log_file id dir).2 = Ok id' -> entries dir !! log_file id' = None.
Proof.
  revert id. induction fuel as [|fuel IH]; intros id dir; cbn [allocate_loop]; [split; [intros; apply untouched_refl|by unfold liftD]|].
  destruct (_ || _); [split; [intros; apply untouched_refl|by unfold errD, liftD]|]. unfold create_new, bindD.
  assert (forall name, untouched dir (answered dir).1 name) as Hans by (intros name; apply (touches_answered (fun _ => False)); tauto).
  assert (entries (answered dir).1 = entries dir) as E by (unfold answered; by destruct (directory_answers dir) as [|[]]).
  destruct (answered dir) as [d [[]|error|]]; cbn [fst] in Hans, E; [|by split; [intros; apply Hans|]..]. rewrite <-E.
  destruct (entries d !! log_file id) as [f|] eqn:Hf.
  - destruct (IH (id + 1) d) as [I1 I2]. split; [|exact I2]. intros other Ho. eapply untouched_trans; [apply Hans|]. by apply I1.
  - destruct (match fresh d with [] => ([], []) | r :: rest => (r, rest) end) as [rs rest]. cbn. split.
    + intros other [g Hg]. eapply untouched_trans; [apply Hans|]. assert (log_file id <> log_file other) as Hne by (intros [= ->]; by rewrite Hf in Hg).
      split; cbn; [by rewrite lookup_insert_ne|]. left. unfold unsettle. by rewrite lookup_insert_ne.
    + intros id' [= <-]. done.
Qed.

(** The name changes when a segment is opened, or it is the last one's. *)
Definition rotates (store : Store) : bool := rotate_next store || bool_decide (segments (store_manifest store) = []).

Lemma open_segment_disk store next dir :
  segments next = segments (store_manifest store) ->
  let '(dir', r) := open_segment store next dir in
  flushed_le (last_cut (store_manifest store)) dir dir'
  /\ forall next' seg, r = Ok (next', seg) -> last (segments next') = Some seg
       /\ (if rotates store then entries dir !! log_file (segment_id seg) = None
           else last (segments (store_manifest store)) = Some seg).
Proof.
  intros Hsegs. set (cuts := last_cut _).
  assert (let '(dir', r) := (do! id := allocate store log_file (next_segment_id next) in
      do! following := liftD (arith_u64 (id + 1)) in
      do! first := liftD (arith_u64 (durable_sequence (store_manifest store) + 1)) in
      let segment := {| segment_id := id; first_sequence := first; last_sequence := durable_sequence next;
                        committed_bytes := BLOCK_BYTES; predecessor_digest := durable_digest (store_manifest store); last_digest := durable_digest next |} in
      do! header := liftD (segment_header (database_id next) segment) in
      do! _ := on_file (log_file id) (fun file => write_all_at file header 0) in
      okD (set_segments next following (segments next ++ [segment]), segment)) dir in
    flushed_le cuts dir dir' /\ forall next' seg, r = Ok (next', seg) -> last (segments next') = Some seg
       /\ entries dir !! log_file (segment_id seg) = None) as Hnew.
  { unfold bindD at 1. unfold allocate, bindD at 1, liftD at 1. destruct (writable store); [|done..].
    destruct (allocate_new (S (size (entries dir))) (next_segment_id next) dir) as [Hu Hn].
    assert (flushed_le cuts dir (allocate_loop (S (size (entries dir))) log_file (next_segment_id next) dir).1) as Hle.
    { intros other f Hf. exists f. destruct (Hu other ltac:(by eexists)) as [E U]. rewrite E. split; [done|]. split; [done|]. intros Hs. eapply untouched_settled; [by split|done]. }
    destruct (allocate_loop _ _ _ dir) as [d [id|error|]]; cbn [fst snd] in *; [|done..]. specialize (Hn _ eq_refl).
    match goal with |- let '(_, _) := bindD ?x ?k d in _ => set (rest := bindD x k) end.
    assert (touches (fun name => name = log_file id) rest) as Ht.
    { unfold rest. repeat first [apply touches_bind; [first [apply touches_lift | by apply touches_on_file]|]; intros ? | apply touches_lift]. }
    assert (forall next' seg, (rest d).2 = Ok (next', seg) -> last (segments next') = Some seg /\ segment_id seg = id) as Hr.
    { intros next' seg. unfold rest, bindD, liftD, okD. destruct (arith_u64 (id + 1)) as [fo| |]; [|done..]. destruct (arith_u64 _) as [fi| |]; [|done..].
      destruct (segment_header _ _) as [h| |]; [|done..]. destruct (on_file _ _ d) as [d2 [[]| |]]; [|done..]. cbn. intros [= <- <-]. split; [|done]. cbn. by rewrite last_snoc. }
    pose proof (fun other Hne => Ht d (log_file other) Hne) as Hother. destruct (rest d) as [d2 r]. cbn [fst snd] in *. split.
    - apply (flushed_le_new _ _ _ _ id Hle Hn). intros other Hne. apply Hother. by intros [= ->].
    - intros next' seg Hok. destruct (Hr _ _ Hok) as [? ->]. done. }
  unfold open_segment, rotates. rewrite <-Hsegs. destruct (last (segments next)) as [seg|] eqn:Hl.
  - destruct (rotate_next store); cbn [orb]; [exact Hnew|]. rewrite bool_decide_false by (by intros E; rewrite E in Hl).
    unfold bindD, read_file, liftD. destruct (ok_or Io _) as [data| |]; [|done..]. destruct (negb _); [done|]. destruct (negb _); [done|]. split; [done|].
    cbn. by intros next' s [= <- <-].
  - apply last_None in Hl as E. rewrite bool_decide_true, orb_true_r by done. destruct (rotate_next store); exact Hnew.
Qed.

Lemma lowers_frame cuts id cut header group length physical offset :
  (id, cut) ∈ cuts -> cut <= offset -> lowers cuts (write_frame (log_file id) header group length physical offset).
Proof.
  intros Hc Ho. unfold write_frame. apply lowers_bind; [by eapply lowers_write|]. intros _ dir. unfold bindD at 1, liftD at 1.
  destruct (arith_u64 (offset + len header)) as [o1|error|] eqn:E1; [|reflexivity..]. apply arith_u64_inv in E1 as [-> _]. pose proof (len_nonneg header).
  unfold bindD at 1. assert (flushed_le cuts dir (write_group (log_file id) group (offset + len header) dir).1) as Hg by (eapply lowers_group; [done|lia]).
  assert (forall o2, (write_group (log_file id) group (offset + len header) dir).2 = Ok o2 -> offset <= o2) as Ho2.
  { clear -H1. intros o2 Hr. assert (offset + len header <= o2); [|lia]. clear H1. generalize dependent (offset + len header). intros o. revert o dir.
    induction group as [|data group IH]; intros o dir Hr; cbn [write_group] in Hr; [injection Hr as <-; lia|]. unfold bindD at 1 in Hr.
    destruct (on_file _ _ dir) as [d [u|error|]]; [|done..]. unfold bindD, liftD in Hr. destruct (arith_u64 (o + len data)) as [o1|error|] eqn:E; [|done..].
    apply arith_u64_inv in E as [-> _]. specialize (IH _ _ Hr). pose proof (len_nonneg data). lia. }
  destruct (write_group _ _ _ dir) as [d2 [o2|error|]]; [|exact Hg..]. cbn [fst snd] in *. specialize (Ho2 _ eq_refl). etrans; [exact Hg|].
  match goal with |- flushed_le cuts d2 (?m d2).1 => enough (lowers cuts m) as Hl by apply Hl end.
  apply lowers_bind; [apply lowers_lift|]. intros t. apply lowers_bind; [eapply lowers_write; [done|lia]|]. intros _. apply lowers_bind; [apply lowers_lift|]. intros padding.
  destruct (negb _); [|apply lowers_lift]. apply lowers_bind; [apply lowers_lift|]. intros p dir3. unfold bindD, liftD.
  destruct (arith_u64 (o2 + TRAILER_BYTES)) as [o3|error|] eqn:E3; [|reflexivity..]. apply arith_u64_inv in E3 as [-> _]. eapply lowers_write; [done|].
  unfold TRAILER_BYTES. lia.
Qed.

(** The writes and flushes of an append, after the segment is open. *)
Definition finish_append (sync : bool) (name : Name) (frame : DirM unit) (next : Manifest) : DirM Manifest :=
  do! _ := frame in
  do! _ := on_file name sync_file in
  do! _ := if sync then sync_directory else okD tt in
  okD next.

Lemma finish_append_disk (sync : bool) name frame next dir :
  let '(dir', r) := finish_append sync name frame next dir in
  forall next', r = Ok next' -> next' = next /\ (forall f, entries dir' !! name = Some f -> unflushed f = None) /\ (sync = true -> unsettled dir' = ∅).
Proof.
  unfold finish_append, bindD at 1. destruct (frame dir) as [d1 [u|error|]]; [|done..]. unfold bindD at 1, on_file.
  destruct (entries d1 !! name) as [f|] eqn:Hf; [|done]. pose proof (sync_flushes f) as Hs. destruct (sync_file f) as [f' [[]|error|]]; [|done..]. cbn in Hs. specialize (Hs eq_refl).
  assert (forall d2, entries d2 = <[name := f']> (entries d1) -> forall g, entries d2 !! name = Some g -> unflushed g = None) as Hclean.
  { intros d2 -> g. rewrite lookup_insert_eq. by intros [= <-]. }
  destruct sync; unfold sync_directory, bindD, answered, okD, liftD; [|intros next' [= <-]; split; [done|]; split; [by apply Hclean|done]].
  destruct (directory_answers (set_entries d1 _)) as [|[]]; try done; intros next' [= <-]; (split; [done|]; split; [by apply Hclean|done]).
Qed.

(** An append lowers no flushed prefix, and one that is acknowledged has
    flushed its segment, and the directory when the segment is new. *)
Lemma append_files_disk store batch dir :
  let m := store_manifest store in
  let '(dir', r) := append_files store batch dir in
  flushed_le (last_cut m) dir dir'
  /\ forall next, r = Ok next -> exists seg, last (segments next) = Some seg
       /\ (forall f, entries dir' !! log_file (segment_id seg) = Some f -> unflushed f = None)
       /\ (if rotates store then unsettled dir' = ∅ else exists s, last (segments m) = Some s /\ segment_id s = segment_id seg).
Proof.
  intros m. unfold append_files. fold m. destruct (bool_decide (batch_group batch = [])); [done|].
  unfold bindD at 1, liftD at 1. destruct (batch_header m batch) as [header|error|]; [|done..].
  unfold bindD at 1, liftD at 1. destruct (GroupHeader_encode header) as [data|error|]; [|done..].
  unfold bindD at 1, liftD at 1. destruct (group_bytes (batch_length batch)) as [physical|error|]; [|done..]. unfold bindD at 1.
  pose proof (open_segment_disk store (set_durable m (batch_sequence batch) (batch_digest batch)) dir eq_refl) as Hopen. fold m in Hopen.
  destruct (open_segment _ _ dir) as [d1 [[next1 seg]|error|]]; [|by destruct Hopen..]. destruct Hopen as [H1 Hseg]. specialize (Hseg _ _ eq_refl) as [Hlast Hseg].
  unfold bindD at 1, liftD at 1. destruct (ok_or Exhausted _) as [committed|error|]; [|done..]. cbv zeta. cbn [segment_id].
  set (seg' := Build_SegmentDescriptor _ _ _ _ _ _). set (next := set_segments next1 _ _).
  unfold bindD at 1, liftD at 1. destruct (map_err InvalidInput _) as [[]|error|]; [|done..].
  set (frame := write_frame (log_file (segment_id seg)) data (batch_group batch) (batch_length batch) physical (committed_bytes seg)).
  pose proof (finish_append_disk (rotates store) (log_file (segment_id seg)) frame next d1) as Hf.
  change (let '(dir', r) := finish_append (rotates store) (log_file (segment_id seg)) frame next d1 in
    flushed_le (last_cut m) dir dir' /\ forall n, r = Ok n -> exists seg0, last (segments n) = Some seg0
       /\ (forall f, entries dir' !! log_file (segment_id seg0) = Some f -> unflushed f = None)
       /\ (if rotates store then unsettled dir' = ∅ else exists s, last (segments m) = Some s /\ segment_id s = segment_id seg0)).
  assert (flushed_le (last_cut m) dir (finish_append (rotates store) (log_file (segment_id seg)) frame next d1).1) as Hle.
  { destruct (rotates store).
    - apply (flushed_le_new _ _ d1 _ (segment_id seg)); [done|done|]. intros other Hne.
      assert (touches (fun name => name = log_file (segment_id seg)) (finish_append true (log_file (segment_id seg)) frame next)) as Ht; [|apply Ht; by intros [= ->]].
      unfold finish_append. apply touches_bind; [by apply touches_write_frame|]. intros _. apply touches_bind; [by apply touches_on_file|]. intros _.
      apply touches_bind; [apply touches_sync|]. intros _. apply touches_lift.
    - etrans; [exact H1|]. match goal with |- flushed_le _ d1 (?f d1).1 => enough (lowers (last_cut m) f) as Hl by apply Hl end.
      unfold finish_append. apply lowers_bind.
      { eapply lowers_frame; [unfold last_cut; rewrite Hseg; by left|done]. }
      intros _. apply lowers_bind; [apply lowers_sync|]. intros _. apply lowers_bind; [apply lowers_lift|]. intros _. apply lowers_lift. }
  destruct (finish_append (rotates store) (log_file (segment_id seg)) frame next d1) as [dir' r]. split; [exact Hle|].
  intros n Hr. destruct (Hf n Hr) as (-> & Hclean & Hset). exists seg'. split; [|split; [exact Hclean|]].
  - unfold next. cbn [segments set_segments]. unfold replace_last. by rewrite last_snoc.
  - destruct (rotates store); [by apply Hset|]. by exists seg.
Qed.

(** ** The flushed log *)
Lemma listed_file dir m rs s : log_records dir m rs -> s ∈ segments m -> is_Some (entries dir !! log_file (segment_id s)).
Proof.
  intros (rss & H2 & _) [i Hi]%list_elem_of_lookup. destruct (Forall2_lookup_l _ _ _ _ _ H2 Hi) as (r & _ & file & Hf & _).
  unfold log_contents in Hf. by destruct (entries dir !! _); [eexists|].
Qed.

Lemma listed_length dir m rs s f :
  manifest_typed m -> log_records dir m rs -> s ∈ segments m -> entries dir !! log_file (segment_id s) = Some f -> committed_bytes s <= len (contents f).
Proof.
  intros T (rss & H2 & _) [i Hi]%list_elem_of_lookup He. destruct (Forall2_lookup_l _ _ _ _ _ H2 Hi) as (r & _ & file & Hf & Hh & _).
  unfold log_contents in Hf. rewrite He in Hf. injection Hf as <-. pose proof (Forall_lookup_1 _ _ _ _ (typed_segments _ T) Hi) as Td.
  apply holds_length in Hh; [lia|apply T|apply Td].
Qed.

Lemma flushed_logs_le cuts dir dir' m rs :
  flushed_le cuts dir dir' -> (forall s cut, s ∈ segments m -> (segment_id s, cut) ∈ cuts -> committed_bytes s <= cut) ->
  log_records dir m rs -> flushed_logs dir m -> flushed_logs dir' m.
Proof.
  intros Hle Hc Hr Hf s Hs. eapply flushed_to_le; [exact Hle|by eapply listed_file|by intros cut; apply Hc|by apply Hf].
Qed.

(** A file with no write since its flush is flushed whole. *)
Lemma clean_flushed dir m rs s :
  manifest_typed m -> log_records dir m rs -> s ∈ segments m -> settled dir (log_file (segment_id s)) ->
  (forall f, entries dir !! log_file (segment_id s) = Some f -> unflushed f = None) -> flushed_to dir (segment_id s) (committed_bytes s).
Proof.
  intros T Hr Hs Hse Hc. split; [done|]. intros f Hf. unfold stable. rewrite (Hc _ Hf). by eapply listed_length.
Qed.

Lemma append_group_files store new dir :
  let '(dir', r) := append_group store new dir in
  flushed_le (last_cut (store_manifest store)) dir dir'
  /\ forall store' digest, r = Ok (store', digest) -> exists seg, last (segments (store_manifest store')) = Some seg
       /\ (forall f, entries dir' !! log_file (segment_id seg) = Some f -> unflushed f = None)
       /\ (if rotates store then unsettled dir' = ∅ else exists s, last (segments (store_manifest store)) = Some s /\ segment_id s = segment_id seg).
Proof.
  unfold append_group, bindD at 1, liftD at 1. destruct (batch_of _ new) as [batch|error|]; [|done..]. unfold bindD at 1.
  pose proof (append_files_disk store batch dir) as Hf. destruct (append_files store batch dir) as [d [next|error|]]; [|by destruct Hf..].
  destruct Hf as [Hle Hf]. specialize (Hf _ eq_refl). unfold bindD, liftD, okD.
  destruct (match runtime store with Some _ => _ | None => _ end) as [rt|error|]; [|done..]. split; [exact Hle|]. by intros store' digest [= <- <-].
Qed.

(** What is listed stays flushed, and what an append acknowledges is flushed. *)
Lemma append_disk dir store new rs dir' store' r :
  let m := store_manifest store in
  manifest_typed m -> validate_manifest m = Ok tt -> log_records dir m rs -> flushed_logs dir m ->
  append_wal store new dir = (dir', (store', r)) ->
  flushed_le (last_cut m) dir dir' /\ flushed_logs dir' (store_manifest store').
Proof.
  intros m T Hv Hr Hf Ha. pose proof (append_wal_spec store new dir rs T Hv Hr) as Hspec. rewrite Ha in Hspec. destruct Hspec as (_ & Hr' & Hres). fold m in Hr'.
  pose proof (append_group_files store new dir) as Hg. unfold append_wal in Ha.
  assert (forall d, flushed_le (last_cut m) dir d -> flushed_logs d m) as Hold.
  { intros d Hle. eapply flushed_logs_le; [exact Hle| |exact Hr|exact Hf]. intros s cut. by apply last_cut_keeps; [apply continues_refl|]. }
  destruct (writable store); [|by injection Ha as <- <- <-; split; [reflexivity|]..].
  destruct (append_group store new dir) as [d [[store1 digest]|error|]]; injection Ha as <- <- <-; destruct Hg as [Hle Hg]; fold m in Hle; (split; [exact Hle|]); [|by apply Hold..].
  destruct (Hg _ _ eq_refl) as (seg & Hlast & Hclean & Hset). destruct Hres as [(TN & _ & HrN & _ & _ & _ & _ & _ & b & _ & Happ) _].
  pose proof (Hold _ Hle) as Hfd. fold m in Happ, Hset.
  assert (exists before, segments (store_manifest store1) = before ++ [seg] /\ before ⊆ segments m) as (before & Hsegs & Hsub).
  { destruct Happ as (d1 & next1 & seg1 & file & file' & Hop & E & _). destruct (opened_segments _ _ _ _ _ _ _ Hop) as (before & Hseg & Hst & Hcase).
    rewrite Hseg, Hst, replace_last_app in E. rewrite E in Hlast |- *. cbn [segments set_segments] in *. rewrite last_snoc in Hlast. injection Hlast as <-.
    exists before. split; [done|]. destruct Hcase as [(-> & _)|(-> & _)]; set_solver. }
  intros s Hs. pose proof Hs as Hs'. rewrite Hsegs in Hs. apply elem_of_app in Hs as [Hs|Hs%list_elem_of_singleton]; [by apply Hfd, Hsub|]. subst s.
  eapply clean_flushed; [exact TN|exact HrN|done| |exact Hclean]. destruct (rotates store); [unfold settled; by rewrite Hset|].
  destruct Hset as (s & Hls & <-). apply (Hfd s). apply last_Some in Hls as [l ->]. set_solver.
Qed.
End Appending.

(** ** Recovery *)
(** Where the recovered segments come from: the selected manifest, or a flush
    to come; a new file among them is remembered. *)
Record tracked (m : Manifest) (st : Recovered) : Prop := {
  tracked_flush : forall s, s ∈ segments (recovered st) -> s ∈ segments m \/ (segment_id s, committed_bytes s) ∈ flush st;
  tracked_names : new_files st = false -> forall s, s ∈ segments (recovered st) -> exists s0, s0 ∈ segments m /\ segment_id s0 = segment_id s }.

Section Recovering.
Context `{Checksum} `{Sha256}.

Lemma tracked_flushing m st id cut : tracked m st -> tracked m (flushing st id cut).
Proof. intros [T1 T2]. split; [|done]. intros s Hs. destruct (T1 s Hs); [by left|right]. cbn. set_solver. Qed.

Lemma tracked_active files m recovery st : recover_active files m recovery = Ok st -> tracked m st.
Proof.
  unfold recover_active. intros Ha. destruct (last (segments m)) as [seg|] eqn:Hl.
  2: { apply ok_inj in Ha as <-. split; cbn; [by left|]. intros _ s Hs. by exists s. }
  step_ok Ha as [found partial] eqn Hscan. apply ok_inj in Ha as <-. destruct found as [s'|].
  2: { split; cbn; [by left|]. intros _ s Hs. by exists s. }
  apply scan_tail_file in Hscan as (file & _ & Hscan). apply scan_keeps_id in Hscan. apply last_Some in Hl as [before Hm].
  split; cbn; rewrite Hm, replace_last_app.
  - intros s [Hs|Hs%list_elem_of_singleton]%elem_of_app; [left; set_solver|right; subst s; by left].
  - intros _ s [Hs|Hs%list_elem_of_singleton]%elem_of_app; [exists s; set_solver|]. subst s. exists seg. split; [set_solver|done].
Qed.

Lemma tracked_candidate m files recovery st id st' : recover_candidate files recovery st id = Ok st' -> tracked m st -> tracked m st'.
Proof.
  unfold recover_candidate. intros Hr T. step_ok Hr as file eqn Hf. destruct (_ <? _); [by apply ok_inj in Hr as <-|].
  step_ok Hr as [header rest] eqn Hh. step_ok Hr as valid eqn Hvalid. destruct (negb valid && _); [apply ok_inj in Hr as <-; by apply tracked_flushing|].
  step_ok Hr as first eqn Hfirst. step_ok Hr as predecessor eqn Hpre. step_ok Hr as u eqn Hv. step_if Hr.
  destruct (_ <? BLOCK_BYTES); [by apply ok_inj in Hr as <-|]. destruct (read_padding rest _) as [rest2|error|]; [| |done].
  2: { step_if Hr. apply ok_inj in Hr as <-. by apply tracked_flushing. }
  step_ok Hr as [found partial] eqn Hscan. destruct found as [found|].
  2: { apply ok_inj in Hr as <-. destruct partial; [by apply tracked_flushing|done]. }
  unfold link_segment in Hr. step_if Hr. step_ok Hr as following eqn Hfo. step_if Hr. step_ok Hr as next_id eqn Hn. apply ok_inj in Hr as <-.
  destruct T as [T1 T2]. split; cbn; [|done]. intros s [Hs|Hs%list_elem_of_singleton]%elem_of_app; [|subst s; right; set_solver].
  destruct (T1 s Hs); [by left|right; set_solver].
Qed.

Lemma tracked_candidates m files recovery ids : forall st st',
  foldR (recover_candidate files recovery) st ids = Ok st' -> tracked m st -> tracked m st'.
Proof.
  induction ids as [|id ids IH]; intros st st' Hf T; cbn [foldR] in Hf; [by apply ok_inj in Hf as <-|].
  step_ok Hf as st1 eqn H1. eapply IH; [exact Hf|]. by eapply tracked_candidate.
Qed.

(** The flushes lower nothing below their cuts, and leave the files clean. *)
Lemma flush_segments_disk todo : forall dir dir' r,
  flush_segments todo dir = (dir', r) ->
  flushed_le todo dir dir'
  /\ (r = Ok tt -> forall id f', entries dir' !! log_file id = Some f' ->
        id ∈ todo.*1 \/ (forall f, entries dir !! log_file id = Some f -> unflushed f = None) -> unflushed f' = None).
Proof.
  induction todo as [|[id cut] todo IH]; intros dir dir' r Hf; cbn [flush_segments] in Hf.
  - injection Hf as <- <-. split; [done|]. intros _ other f' Hf' [Hin|Hc]; [by apply not_elem_of_nil in Hin|by apply Hc].
  - unfold bindD at 1 in Hf. destruct (flush_segment (id, cut) dir) as [d1 r1] eqn:H1.
    assert (flushed_le ((id, cut) :: todo) dir d1 /\ (r1 = Ok tt -> forall other f', entries d1 !! log_file other = Some f' ->
      other = id \/ (forall f, entries dir !! log_file other = Some f -> unflushed f = None) -> unflushed f' = None)) as [L1 C1].
    { unfold flush_segment, bindD in H1. cbn [fst snd] in H1. pose proof (flushed_le_on_file ((id, cut) :: todo) id (fun file => set_len file cut) dir) as Hl.
      destruct (on_file (log_file id) (fun file => set_len file cut) dir) as [d2 r2] eqn:H2. cbn [fst] in Hl.
      assert (flushed_le ((id, cut) :: todo) dir d2) as L2.
      { apply Hl. intros f n _ Hn Hs. apply set_len_stable; [|done]. apply Hn. by left. }
      destruct r2 as [[]|error|]; [|by injection H1 as <- <-..]. pose proof (flushed_le_sync ((id, cut) :: todo) id d2) as L3. rewrite H1 in L3.
      split; [by etrans|]. intros -> other f' Hf' Hor. unfold on_file in H1, H2. destruct (entries dir !! log_file id) as [f|] eqn:Hfile; [|done].
      destruct (set_len f cut) as [f1 r3]. injection H2 as <- _. cbn [entries set_entries] in H1. rewrite lookup_insert_eq in H1.
      pose proof (sync_flushes f1) as Hs. destruct (sync_file f1) as [f2 r4]. injection H1 as <- ->. cbn in Hs, Hf'. rewrite insert_insert_eq in Hf'.
      destruct (decide (other = id)) as [->|Hne]; [rewrite lookup_insert_eq in Hf'; injection Hf' as <-; by apply Hs|].
      rewrite lookup_insert_ne in Hf' by congruence. destruct Hor as [?|Hc]; [done|by apply Hc]. }
    destruct r1 as [[]|error|]; [|by injection Hf as <- <-..]. destruct (IH _ _ _ Hf) as [L2 C2].
    split; [etrans; [exact L1|]; eapply flushed_le_subset; [|exact L2]; set_solver|]. intros -> other f' Hf' Hor. eapply C2; [done|exact Hf'|].
    cbn [fmap list_fmap fst] in Hor. rewrite elem_of_cons in Hor. destruct Hor as [[->|Hin]|Hc]; [right|by left|right]; intros f Hfd; eapply C1; by eauto.
Qed.

Lemma recover_tail_inv m recovery dir dir' r :
  recover_tail m recovery dir = (dir', r) ->
  (dir' = dir /\ forall next, r <> Ok next)
  \/ exists st ids st', recover_active (log_contents dir) m recovery = Ok st /\ segment_ids dir (next_segment_id m) = Ok ids
       /\ foldR (recover_candidate (log_contents dir) recovery) st ids = Ok st'
       /\ exists d r1, flush_segments (flush st') dir = (d, r1)
            /\ match r1 with
               | Ok _ => (do! _ := if new_files st' then sync_directory else okD tt in okD (recovered st')) d = (dir', r)
               | _ => dir' = d /\ forall next, r <> Ok next
               end.
Proof.
  intros Hrec. unfold recover_tail, bindD at 1, get_directory in Hrec. unfold bindD at 1, liftD at 1 in Hrec.
  destruct (recover_active _ _ _) as [st|error|] eqn:Ha; [|left; by injection Hrec as <- <-..]. unfold bindD at 1, liftD at 1 in Hrec.
  destruct (segment_ids _ _) as [ids|error|] eqn:Hi; [|left; by injection Hrec as <- <-..]. unfold bindD at 1, liftD at 1 in Hrec.
  destruct (foldR _ _ _) as [st'|error|] eqn:Hf; [|left; by injection Hrec as <- <-..]. unfold bindD at 1, liftD at 1 in Hrec.
  destruct (map_err _ _) as [u|error|]; [|left; by injection Hrec as <- <-..]. unfold bindD at 1 in Hrec.
  destruct (flush_segments _ dir) as [d r1] eqn:Hfl. right. exists st, ids, st'. do 3 (split; [done|]). exists d, r1. split; [done|].
  destruct r1; [exact Hrec|by injection Hrec as <- <-..].
Qed.

(** Recovery leaves flushed what the selected manifest lists, and flushes
    what it found. *)
Lemma recover_disk dir m rs recovery dir' r :
  manifest_typed m -> validate_manifest m = Ok tt -> log_records dir m rs -> flushed_logs dir m ->
  recover_tail m recovery dir = (dir', r) ->
  flushed_logs dir' m /\ forall next, r = Ok next -> flushed_logs dir' next.
Proof.
  intros T Hv Hr Hf Hrec. pose proof (recover_tail_spec _ _ _ _ _ _ T Hv Hr Hrec) as [_ Hnext].
  destruct (recover_tail_inv _ _ _ _ _ Hrec) as [[-> Hno]|(st & ids & st' & Ha & Hids & Hfold & d & r1 & Hflush & Hend)]; [by split; [|intros next ->; destruct (Hno next)]|].
  destruct (recover_active_spec _ _ _ _ _ T Hv Hr Ha) as (more & Hst). apply segment_ids_spec in Hids as [Hsorted Hmem].
  pose proof (typed_next_segment _ T) as [Hn0 _]. pose proof (manifest_ids _ Hv) as [Hn1 _].
  destruct (fun Hall => recover_candidates_spec _ _ _ _ _ (next_segment_id m) _ _ _ Hst ltac:(lia) Hsorted Hall Hfold) as (bound & more' & [_ _ _ _ _ _ _ _ _ _ _ _ _ Hsel _]).
  { apply Forall_forall. intros id (_ & Hid & Hfloor)%Hmem. lia. }
  pose proof (tracked_candidates m _ _ _ _ _ Hfold (tracked_active _ _ _ _ Ha)) as [T1 T2].
  destruct (flush_segments_disk _ _ _ _ Hflush) as [Hle Hclean].
  assert (flushed_logs d m) as Hfd by (eapply flushed_logs_le; [exact Hle|exact Hsel|exact Hr|exact Hf]).
  destruct r1 as [[]|error|]; [|destruct Hend as [-> Hno]; split; [done|]; intros next ->; by destruct (Hno next)..].
  assert (entries dir' = entries d /\ flushed_le [] d dir' /\ forall next, r = Ok next -> next = recovered st' /\ (new_files st' = true -> unsettled dir' = ∅)) as (E & Hld & Hres).
  { pose proof (lowers_sync_directory [] d) as Hs. pose proof (wpD_sync d) as [E _]. unfold bindD at 1 in Hend. destruct (new_files st').
    - destruct (sync_directory d) as [d2 r2] eqn:Hsync. cbn in Hs, E. unfold sync_directory, bindD in Hsync.
      destruct (answered d) as [d3 [[]|error|]]; cbn in Hsync; injection Hsync as <- <-; [|injection Hend as <- <-; by split; [|split]..].
      injection Hend as <- <-. split; [done|]. split; [done|]. by intros next [= <-].
    - injection Hend as <- <-. split; [done|]. split; [reflexivity|]. by intros next [= <-]. }
  assert (flushed_logs dir' m) as Hfm.
  { pose proof (recover_tail_spec _ _ _ _ _ _ T Hv Hr Hrec) as [Hrm _]. eapply flushed_logs_le; [exact Hld| | |exact Hfd]; [intros s cut _ Hin; by apply not_elem_of_nil in Hin|].
    eapply grows_records; [|exact Hrm]. by apply grows_entries. }
  split; [done|]. intros next Hok. destruct (Hres _ Hok) as [-> Hset]. destruct (Hnext _ Hok) as (more2 & TN & _ & HrN & _).
  intros s Hs. destruct (T1 s Hs) as [Hin|Hin]; [by apply Hfm|]. eapply clean_flushed; [exact TN|exact HrN|exact Hs| |].
  - destruct (new_files st'); [unfold settled; by rewrite Hset|]. destruct (T2 eq_refl s Hs) as (s0 & Hs0 & <-). by apply Hfm.
  - intros f Hfile. rewrite E in Hfile. eapply Hclean; [done|exact Hfile|]. left. apply list_elem_of_fmap. by exists (segment_id s, committed_bytes s).
Qed.
End Recovering.

(** ** Publications *)
(** The file of [name], which has no write since its flush, holds [data]. *)
Definition clean (dir : Directory) (name : Name) (data : bytes) : Prop :=
  exists f, entries dir !! name = Some f /\ contents f = data /\ unflushed f = None.

Lemma clean_held dir name data : clean dir name data -> held dir name = Some data.
Proof. intros (f & E & <- & _). unfold held. by rewrite E. Qed.
Lemma clean_untouched dir dir' name data : untouched dir dir' name -> clean dir name data -> clean dir' name data.
Proof. intros [E _] (f & Hf & Hc). exists f. by rewrite E. Qed.

Lemma sync_directory_ok dir dir' : sync_directory dir = (dir', Ok tt) -> entries dir' = entries dir /\ unsettled dir' = ∅.
Proof.
  unfold sync_directory, bindD, answered. destruct (directory_answers dir) as [|[]]; by intros [= <-].
Qed.

Lemma rename_ok source destination dir dir' :
  source <> destination -> rename_file source destination dir = (dir', Ok tt) ->
  exists f, entries dir !! source = Some f /\ entries dir' !! destination = Some f
    /\ bindings dir' destination = Some f :: bindings dir destination.
Proof.
  intros Hne. unfold rename_file, bindD, answered.
  destruct (directory_answers dir) as [|[]]; try done; cbn [entries unsettled directory_answers fresh];
    (destruct (entries dir !! source) as [f|] eqn:Hf; [|done]); intros [= <-]; exists f; unfold bindings; cbn; by rewrite !lookup_insert_eq.
Qed.

Lemma write_new_clean name data dir dir' : write_new name data dir = (dir', Ok tt) -> clean dir' name data.
Proof.
  intros Hw. pose proof (wpD_write_new name data dir) as Hh. unfold wpD in Hh. rewrite Hw in Hh. cbn [fst snd] in Hh. destruct Hh as (_ & _ & Hh). specialize (Hh eq_refl).
  unfold held in Hh. destruct (entries dir' !! name) as [f'|] eqn:Hf'; [|done]. injection Hh as Hc. exists f'. split; [done|]. split; [done|].
  unfold write_new in Hw. unfold bindD at 1 in Hw. destruct (create_new name dir) as [d1 [[]|error|]]; cbn [negb] in Hw; [|done..].
  unfold bindD in Hw. destruct (on_file name _ d1) as [d2 [u|error|]]; [|done..]. unfold on_file in Hw. destruct (entries d2 !! name) as [f|]; [|done].
  pose proof (sync_flushes f) as Hs. destruct (sync_file f) as [f2 r2]. injection Hw as <- ->. cbn in Hs, Hf'. rewrite lookup_insert_eq in Hf'. injection Hf' as <-. by apply Hs.
Qed.

(** The two halves of [select_files]. *)
Definition write_manifest (g : Z) (data : bytes) : DirM unit :=
  do! _ := remove_file manifest_pending in
  do! _ := write_new manifest_pending data in
  do! taken := exists_name (manifest_file g) in
  if taken then errD (InvalidInput "manifest generation already exists") else
  do! _ := rename_file manifest_pending (manifest_file g) in
  sync_directory.

Definition write_current (current : bytes) : DirM unit :=
  do! _ := remove_file CURRENT_pending in
  do! _ := write_new CURRENT_pending current in
  do! _ := rename_file CURRENT_pending CURRENT in
  sync_directory.

Lemma select_files_split g data current dir : select_files g data current dir = bindD (write_manifest g data) (fun _ => write_current current) dir.
Proof.
  unfold select_files, write_manifest, write_current, bindD. destruct (remove_file manifest_pending dir) as [d1 [b|error|]]; [|done..].
  destruct (write_new manifest_pending data d1) as [d2 [u|error|]]; [|done..]. unfold exists_name. destruct (bool_decide _); [done|].
  destruct (rename_file manifest_pending (manifest_file g) d2) as [d3 [v|error|]]; [|done..]. by destruct (sync_directory d3) as [d4 [w|error|]].
Qed.

Lemma touches_write_manifest g data : touches (fun name => name = manifest_pending \/ name = manifest_file g) (write_manifest g data).
Proof.
  apply touches_bind; [apply touches_remove; by left|]. intros _. apply touches_bind; [apply touches_write_new; by left|]. intros _.
  apply touches_bind; [apply touches_exists|]. intros []; [apply touches_lift|]. apply touches_bind; [apply touches_rename; [by left|by right]|]. intros _. apply touches_sync.
Qed.

Lemma touches_write_current current : touches (fun name => name = CURRENT_pending \/ name = CURRENT) (write_current current).
Proof.
  apply touches_bind; [apply touches_remove; by left|]. intros _. apply touches_bind; [apply touches_write_new; by left|]. intros _.
  apply touches_bind; [apply touches_rename; [by left|by right]|]. intros _. apply touches_sync.
Qed.

(** A manifest that was written is flushed, and the names are settled. *)
Lemma write_manifest_ok g data dir dir' :
  write_manifest g data dir = (dir', Ok tt) -> unsettled dir' = ∅ /\ clean dir' (manifest_file g) data.
Proof.
  unfold write_manifest, bindD at 1. destruct (remove_file manifest_pending dir) as [d1 [b|error|]]; [|done..].
  unfold bindD at 1. destruct (write_new manifest_pending data d1) as [d2 [[]|error|]] eqn:Hw; [|done..]. apply write_new_clean in Hw as (f & Hf & Hc & Hu).
  unfold bindD at 1, exists_name. destruct (bool_decide _); [done|]. unfold bindD. destruct (rename_file _ _ d2) as [d3 [[]|error|]] eqn:Hr; [|done..].
  apply rename_ok in Hr as (f' & Hf' & Hd & _); [|done]. rewrite Hf in Hf'. injection Hf' as <-.
  intros [E Hs]%sync_directory_ok. split; [done|]. exists f. by rewrite E.
Qed.

(** CURRENT is as it was, or is replaced by a flushed file: for sure when the
    call succeeds. *)
Lemma write_current_disk current dir :
  settled dir CURRENT ->
  let '(dir', r) := write_current current dir in
  (untouched dir dir' CURRENT /\ r <> Ok tt)
  \/ exists fc, entries dir' !! CURRENT = Some fc /\ contents fc = current /\ unflushed fc = None
       /\ (forall b, b ∈ bindings dir' CURRENT -> b = Some fc \/ b = entries dir !! CURRENT) /\ (r = Ok tt -> unsettled dir' = ∅).
Proof.
  intros Hset. unfold write_current. unfold bindD at 1.
  pose proof (touches_remove (fun name => name = CURRENT_pending) CURRENT_pending eq_refl dir CURRENT ltac:(done)) as U1.
  destruct (remove_file CURRENT_pending dir) as [d1 [b|error|]]; cbn [fst] in U1; [|by left..]. unfold bindD at 1.
  pose proof (touches_write_new (fun name => name = CURRENT_pending) CURRENT_pending current eq_refl d1 CURRENT ltac:(done)) as U2.
  destruct (write_new CURRENT_pending current d1) as [d2 [[]|error|]] eqn:Hw; cbn [fst] in U2; pose proof (untouched_trans _ _ _ _ U1 U2) as U; [|by left..].
  apply write_new_clean in Hw as (f & Hf & Hc & Hu). unfold bindD at 1.
  destruct (rename_file CURRENT_pending CURRENT d2) as [d3 [[]|error|]] eqn:Hr.
  - apply rename_ok in Hr as (f' & Hf' & Hd & Hb); [|done]. rewrite Hf in Hf'. injection Hf' as <-.
    assert (forall d4, entries d4 = entries d3 -> unsettled d4 = unsettled d3 \/ unsettled d4 = ∅ -> forall b', b' ∈ bindings d4 CURRENT -> b' = Some f \/ b' = entries dir !! CURRENT) as Hbind.
    { intros d4 E4 U4 b' Hb'. assert (b' ∈ bindings d3 CURRENT) as Hb3.
      { eapply untouched_bindings; [|exact Hb']. split; [by rewrite E4|]. destruct U4 as [->|U4]; [by left|right; unfold settled; by rewrite U4]. }
      rewrite Hb in Hb3. apply elem_of_cons in Hb3 as [->|Hb3]; [by left|right]. apply (untouched_bindings _ _ _ _ U) in Hb3.
      unfold bindings in Hb3. unfold settled in Hset. rewrite Hset in Hb3. by apply list_elem_of_singleton in Hb3. }
    destruct (sync_directory d3) as [d4 r] eqn:Hs. right. exists f. destruct r as [[]|error|].
    + apply sync_directory_ok in Hs as [E Hs]. rewrite E. do 3 (split; [done|]). split; [|done]. apply Hbind; [done|by right].
    + unfold sync_directory, bindD, answered in Hs. destruct (directory_answers d3) as [|[]]; try done. injection Hs as <- _. cbn [entries].
      do 3 (split; [done|]). split; [|done]. apply Hbind; [done|by left].
    + unfold sync_directory, bindD, answered in Hs. destruct (directory_answers d3) as [|[]]; done.
  - left. split; [|done]. eapply untouched_trans; [exact U|]. unfold rename_file, bindD in Hr. pose proof (touches_answered (fun _ => False) d2 CURRENT ltac:(tauto)) as Ua.
    destruct (answered d2) as [d [u|e|]]; cbn in Ua; [destruct (entries d !! CURRENT_pending); [done|]|..]; by injection Hr as <- _.
  - exfalso. unfold rename_file, bindD, answered in Hr. destruct (directory_answers d2) as [|[]]; try done; by destruct (entries _ !! CURRENT_pending).
Qed.

Section Publishing.
Context `{Checksum} `{Sha256}.

Definition synced_log (dir : Directory) (id : Z) : Prop := forall f, entries dir !! log_file id = Some f -> unflushed f = None.

Lemma synced_log_sync dir id other dir' r :
  on_file (log_file other) sync_file dir = (dir', r) -> synced_log dir id \/ (id = other /\ r = Ok tt) -> synced_log dir' id.
Proof.
  unfold on_file. intros Ho Hc f' Hf'. destruct (entries dir !! log_file other) as [f|] eqn:Hf; [|injection Ho as <- <-; destruct Hc as [Hc|[_ ?]]; [by apply Hc|done]].
  pose proof (sync_flushes f) as Hs. pose proof (sync_unflushed f) as Hu. destruct (sync_file f) as [f1 r1]. injection Ho as <- <-. cbn in *.
  destruct (decide (id = other)) as [->|Hne].
  - rewrite lookup_insert_eq in Hf'. injection Hf' as <-. destruct Hc as [Hc|[_ ->]]; [|by apply Hs]. destruct Hu as [->|Hu]; [done|]. rewrite Hu. by apply Hc.
  - rewrite lookup_insert_ne in Hf' by congruence. destruct Hc as [Hc|[? _]]; [by apply Hc|done].
Qed.

Lemma sync_segments_disk reuse old segs : forall nf dir dir' r,
  sync_segments reuse old segs nf dir = (dir', r) ->
  flushed_le [] dir dir'
  /\ (forall nf', r = Ok nf' -> forall s, s ∈ segs \/ synced_log dir (segment_id s) -> (reuse = true /\ s ∈ segments old) \/ synced_log dir' (segment_id s)).
Proof.
  induction segs as [|x segs IH]; intros nf dir dir' r Hs; cbn [sync_segments] in Hs.
  - injection Hs as <- <-. split; [reflexivity|]. intros nf' _ s [Hin|Hc]; [by apply not_elem_of_nil in Hin|by right].
  - unfold bindD at 1 in Hs. destruct (sync_segment reuse old x nf dir) as [d r1] eqn:H1.
    assert (flushed_le [] dir d /\ (forall nf', r1 = Ok nf' -> forall s, s = x \/ synced_log dir (segment_id s) ->
      (reuse = true /\ s ∈ segments old) \/ synced_log d (segment_id s))) as [L1 C1].
    { unfold sync_segment, bindD in H1. set (previous := List.find _ _) in H1.
      destruct (negb reuse || negb (bool_decide (previous = Some x))) eqn:Hneed.
      - pose proof (flushed_le_sync [] (segment_id x) dir) as Hl. destruct (on_file _ sync_file dir) as [d1 r2] eqn:Ho. cbn in Hl.
        assert (d = d1 /\ forall nf', r1 = Ok nf' -> r2 = Ok tt) as [-> Hr] by (by destruct r2 as [[]|error|]; injection H1 as <- <-).
        split; [done|]. intros nf' Hok s Hor. right. eapply synced_log_sync; [exact Ho|]. destruct Hor as [->|Hor]; [right|by left]. split; [done|by eapply Hr].
      - apply orb_false_iff in Hneed as [->%negb_false_iff Hp%negb_false_iff%bool_decide_eq_true_1].
        injection H1 as <- <-. split; [reflexivity|]. intros nf' _ s [->|Hc]; [left|by right]. split; [done|].
        unfold previous in Hp. apply List.find_some in Hp as [Hin _]. by apply list_elem_of_In. }
    destruct r1 as [nf1|error|]; [|by injection Hs as <- <-..]. destruct (IH _ _ _ _ Hs) as [L2 C2]. split; [by etrans|].
    intros nf' Hr s Hor. rewrite elem_of_cons in Hor. destruct Hor as [[->|Hin]|Hc].
    + destruct (C1 nf1 eq_refl x ltac:(by left)) as [?|Hc]; [by left|]. apply (C2 _ Hr). by right.
    + apply (C2 _ Hr). by left.
    + destruct (C1 nf1 eq_refl s ltac:(by right)) as [?|Hc']; [by left|]. apply (C2 _ Hr). by right.
Qed.

Lemma logs_only_sync_segments reuse old segs : forall nf, logs_only (sync_segments reuse old segs nf).
Proof.
  induction segs as [|x segs IH]; intros nf; cbn [sync_segments]; [apply touches_lift|]. apply logs_only_bind; [|intros; apply IH].
  unfold sync_segment. apply logs_only_bind; [|intros _; apply touches_lift]. destruct (_ || _); [apply logs_only_on_file|apply touches_lift].
Qed.

(** The names that a publication may touch. *)
Definition publishing (m : Manifest) (name : Name) : Prop := is_log name \/ name ∈ PUBLISHED m.

(** CURRENT was replaced: its file, the manifest and the segments of [m] are
    flushed; only CURRENT and its pending name may be unsettled. *)
Record replaced (reuse : bool) (old m : Manifest) (dir dir' : Directory) : Prop := {
  replaced_files : exists data current, Manifest_encode m = Ok data
    /\ Current_encode {| current_generation := generation m; current_digest := sha256 data |} = Ok current
    /\ clean dir' CURRENT current /\ clean dir' (manifest_file (generation m)) data;
  replaced_bindings : forall b, b ∈ bindings dir' CURRENT -> b = entries dir' !! CURRENT \/ b = entries dir !! CURRENT;
  replaced_settled : forall name, name <> CURRENT_pending -> name <> CURRENT -> settled dir' name;
  replaced_logs : forall s, s ∈ segments m -> (reuse = true /\ s ∈ segments old) \/ synced_log dir' (segment_id s) }.

(** What a publication did: CURRENT is as it was, or was replaced, when [P]
    holds too; then the names are settled if the call succeeds. *)
Definition published_disk (reuse : bool) (old m : Manifest) (P : Prop) (dir dir' : Directory) (r : Result StorageError unit) : Prop :=
  flushed_le [] dir dir'
  /\ (forall name, ~ publishing m name -> untouched dir dir' name)
  /\ ((untouched dir dir' CURRENT /\ r <> Ok tt) \/ P /\ replaced reuse old m dir dir' /\ (r = Ok tt -> unsettled dir' = ∅)).

Lemma lowers_published cuts (P : Name -> Prop) {A} (m : DirM A) : touches P m -> (forall name, P name -> ~ is_log name) -> lowers cuts m.
Proof. intros Hm Hp. revert Hm. apply lowers_touches. intros id Hid. apply (Hp _ Hid). by eexists. Qed.

Lemma publish_metadata_disk reuse old m (P : Prop) data current dir :
  P ->
  Manifest_encode m = Ok data -> Current_encode {| current_generation := generation m; current_digest := sha256 data |} = Ok current ->
  let '(dir', r) := publish_metadata reuse old m data current dir in published_disk reuse old m P dir dir' r.
Proof.
  intros HP He Hc. unfold publish_metadata. unfold bindD at 1.
  destruct (sync_segments reuse old (segments m) (negb (page_file_id m =? page_file_id old)) dir) as [d1 r1] eqn:H1.
  destruct (sync_segments_disk _ _ _ _ _ _ _ H1) as [L1 C1].
  assert (forall name, ~ is_log name -> untouched dir d1 name) as U1.
  { intros name Hn. pose proof (logs_only_sync_segments reuse old (segments m) (negb (page_file_id m =? page_file_id old)) dir name Hn) as Hl. by rewrite H1 in Hl. }
  assert (~ is_log CURRENT) as Hcl by (by intros [? ?]).
  assert (forall d, flushed_le [] d1 d -> (forall name, name ∉ PUBLISHED m -> untouched d1 d name) ->
    flushed_le [] dir d /\ (forall name, ~ publishing m name -> untouched dir d name)) as Hquiet.
  { intros d L U. split; [by etrans|]. intros name Hn. unfold publishing in Hn. eapply untouched_trans; [apply U1|apply U]; tauto. }
  destruct r1 as [nf|error|]; [|destruct (Hquiet d1) as [Q1 Q2]; [reflexivity|intros; apply untouched_refl|]; split; [done|]; split; [done|]; left; split; [by apply U1|done]..].
  specialize (C1 nf eq_refl).
  set (flush := do! _ := answered in if negb reuse || nf then sync_directory else okD tt).
  assert (touches (fun _ => False) flush) as Tf.
  { apply touches_bind; [apply touches_answered|]. intros _. destruct (_ || _); [apply touches_sync|apply touches_lift]. }
  assert (forall k : DirM unit, (do! _ := answered in do! _ := if negb reuse || nf then sync_directory else okD tt in k) d1 = bindD flush (fun _ => k) d1) as Eq.
  { intros k. unfold flush, bindD. by destruct (answered d1) as [d [u|error|]]. }
  rewrite Eq. unfold bindD at 1. specialize (Tf d1). pose proof (flushed_le_untouched [] d1 (flush d1).1 ltac:(intros id; apply Tf; tauto)) as Lf.
  destruct (flush d1) as [d2 r2]. cbn [fst] in Tf, Lf.
  destruct r2 as [[]|error|]; [|destruct (Hquiet d2) as [Q1 Q2]; [done|intros name _; apply Tf; tauto|]; split; [done|]; split; [done|]; left; split; [|done]; eapply untouched_trans; [by apply U1|apply Tf; tauto]..].
  rewrite select_files_split. unfold bindD at 1. pose proof (touches_write_manifest (generation m) data d2) as Tm.
  pose proof (lowers_published [] _ _ (touches_write_manifest (generation m) data) ltac:(by intros name [-> | ->] [? ?]) d2) as Lm.
  destruct (write_manifest (generation m) data d2) as [d3 r3] eqn:Hm. cbn [fst] in Tm, Lm.
  assert (untouched dir d3 CURRENT) as U3.
  { eapply untouched_trans; [by apply U1|]. eapply untouched_trans; [apply Tf; tauto|]. apply Tm. by intros [? | ?]. }
  assert (forall name, name ∉ PUBLISHED m -> untouched d1 d3 name) as U13.
  { intros name Hn. eapply untouched_trans; [apply Tf; tauto|]. apply Tm. intros [-> | ->]; apply Hn; unfold PUBLISHED; rewrite !elem_of_cons; tauto. }
  destruct r3 as [[]|error|]; [|destruct (Hquiet d3) as [Q1 Q2]; [by etrans|done|]; split; [done|]; split; [done|]; left; by split..].
  apply write_manifest_ok in Hm as [Hset Hman]. pose proof (write_current_disk current d3 ltac:(unfold settled; by rewrite Hset)) as Hcur.
  pose proof (touches_write_current current d3) as Tc. pose proof (lowers_published [] _ _ (touches_write_current current) ltac:(by intros name [-> | ->] [? ?]) d3) as Lc.
  destruct (write_current current d3) as [d4 r4]. cbn [fst] in Tc, Lc. destruct (Hquiet d4) as [Q1 Q2].
  { etrans; [exact Lf|]. by etrans. }
  { intros name Hn. eapply untouched_trans; [by apply U13|]. apply Tc. intros [-> | ->]; apply Hn; unfold PUBLISHED; rewrite !elem_of_cons; tauto. }
  split; [done|]. split; [done|]. destruct Hcur as [[Hu Hr]|(fc & Hfc & Hcc & Hcu & Hb & Hok)]; [left; split; [by eapply untouched_trans|done]|right]. split; [exact HP|]. split; [|done].
  split.
  - exists data, current. split; [done|]. split; [done|]. split; [by exists fc|]. eapply clean_untouched; [|exact Hman]. apply Tc. by intros [? | ?].
  - intros b Hb'. destruct (Hb _ Hb') as [->| ->]; [by left|right]. by destruct U3 as [-> _].
  - intros name N1 N2. eapply untouched_settled; [apply Tc; by intros [? | ?]|]. unfold settled. by rewrite Hset.
  - intros s Hs. destruct (C1 s ltac:(by left)) as [?|Hsy]; [by left|right]. intros f Hf. apply Hsy.
    assert (untouched d1 d4 (log_file (segment_id s))) as [E _]; [|by rewrite <-E].
    eapply untouched_trans; [apply U13; unfold PUBLISHED, not; rewrite !elem_of_cons, elem_of_nil; naive_solver|]. apply Tc. by intros [? | ?].
Qed.

(** The pages that [m] counts are flushed, or were counted before. *)
Definition pages_flushed (store : Store) (m : Manifest) (f : PageFile) : Prop :=
  unflushed (file f) = None
  \/ (is_Some (runtime store) /\ page_file_id m = page_file_id (store_manifest store) /\ manifest_page_count m = manifest_page_count (store_manifest store)).

Lemma publish_files_disk store m dir :
  let '(dir', (store', r)) := publish_files store m dir in
  stable (file (pages store)) <= stable (file (pages store'))
  /\ published_disk (match runtime store with Some _ => true | None => false end) (store_manifest store) m (pages_flushed store m (pages store')) dir dir' r.
Proof.
  unfold publish_files. set (reuse := match runtime store with Some _ => true | None => false end).
  assert (forall r : Result StorageError unit, r <> Ok tt -> forall P, published_disk reuse (store_manifest store) m P dir dir r) as Hnone.
  { intros r Hr P. split; [reflexivity|]. split; [intros; apply untouched_refl|]. left. split; [apply untouched_refl|done]. }
  destruct (Manifest_encode m) as [data|error|] eqn:He; cbn [bindR]; [|by split; [|apply Hnone]..].
  destruct (Current_encode _) as [current|error|] eqn:Hc; cbn [bindR]; [|by split; [|apply Hnone]..].
  set (new_pages := negb (page_file_id m =? _) || _).
  assert (forall f, stable (file (pages store)) <= stable (file f) -> pages_flushed store m f ->
    let '(dir', (store', r)) := let '(dir', result) := publish_metadata reuse (store_manifest store) m data current dir in (dir', (set_pages store f, result)) in
    stable (file (pages store)) <= stable (file (pages store')) /\ published_disk reuse (store_manifest store) m (pages_flushed store m (pages store')) dir dir' r) as Hmeta.
  { intros f Hle Hp. pose proof (publish_metadata_disk reuse (store_manifest store) m (pages_flushed store m f) data current dir Hp He Hc) as Hm.
    destruct (publish_metadata _ _ _ _ _ _) as [dir' r]. by split. }
  destruct (negb reuse || new_pages) eqn:Hneed.
  - unfold sync. destruct (poisoned (pages store)); [by split; [|apply Hnone]|].
    pose proof (sync_flushes (file (pages store))) as Hs. pose proof (sync_stable (file (pages store))) as Hst. destruct (sync_file (file (pages store))) as [f [[]|error|]]; cbn in Hs, Hst.
    2,3: by split; [|apply Hnone].
    apply Hmeta; [done|]. left. by apply Hs.
  - apply Hmeta; [lia|]. right. apply orb_false_iff in Hneed as [Hr Hn]. unfold new_pages in Hn. apply orb_false_iff in Hn as [N1 N2].
    apply negb_false_iff, Z.eqb_eq in N1, N2. split; [|done]. unfold reuse in Hr. destruct (runtime store); [by eexists|done].
Qed.
End Publishing.
