(* ===== verification/Lifecycle.v ===== *)
(** * The store with its files

    The state of an open store and of its directory together: the maps its
    newest view answers for, the checkpoint the files select, the acknowledged
    history, and what of them is flushed.  Every operation keeps them, a crash
    may come at any time and drop what is not flushed, and opening gives back
    the checkpoint and the history. *)
From S2P Require Import Prelude OrdMap Errors Bytes Limits Storage Platform Page PageFacts NodeFacts FileFacts Metadata MetadataFacts Wal WalFacts LogFacts LogChains LogValidation Tree TreeFacts TreeEdits Checkpoint CheckpointFacts Store Directory Log Publication LogAppend LogRecovery LogSurvival LogExtension StoreFacts PublicationFacts History Disk.

Section Lifecycle.
Context `{Checksum} `{Sha256}.

(** ** The invariant *)
(** The files select a checkpoint that holds [saved]. *)
Definition selected_pages (dir : Directory) (store : Store) (saved : Contents) : Prop :=
  exists chosen, selects dir chosen /\ manifest_page_count chosen <= page_count (pages store)
    /\ roots_hold (reader (pages store)) (manifest_roots chosen) saved.

(** [contents] is what the newest view holds, [saved] the checkpoint that the
    files select, and [records] the acknowledged history. *)
Record consistent (dir : Directory) (store : Store) (records : list bytes) (contents saved : Contents) : Prop := {
  consistent_history : durable dir store records;
  consistent_store : store_holds store contents;
  consistent_count : manifest_page_count (store_manifest store) <= page_count (pages store);
  consistent_selected : selected_pages dir store saved }.

(** ** What is flushed *)
(** The directory, with [f] as CURRENT. *)
Definition revert (dir : Directory) (f : File) : Directory := set_entries dir (<[CURRENT := f]> (entries dir)).

(** A file that a crash may leave as CURRENT: all that recovery from it needs
    is flushed, and it finds the history and the checkpoint [saved]. *)
Record choice (dir : Directory) (store : Store) (records : list bytes) (f : File) (chosen : Manifest) (saved : Contents) : Prop := {
  choice_clean : unflushed f = None;
  choice_selects : selects (revert dir f) chosen;
  choice_recoverable : recoverable dir chosen store records;
  choice_settled : settled dir (manifest_file (generation chosen));
  choice_manifest : forall g, entries dir !! manifest_file (generation chosen) = Some g -> unflushed g = None;
  choice_logs : flushed_logs dir chosen;
  choice_file : page_file_id chosen = page_file_id (store_manifest store);
  choice_count : manifest_page_count chosen <= page_count (pages store);
  choice_pages : manifest_page_count chosen * PAGE_SIZE <= stable (file (pages store));
  choice_roots : roots_hold (reader (pages store)) (manifest_roots chosen) saved }.

(** What was acknowledged is flushed, and whatever CURRENT a crash leaves. *)
Record disk (dir : Directory) (store : Store) (records : list bytes) : Prop := {
  disk_logs : flushed_logs dir (store_manifest store);
  disk_file : settled dir (pages_file (page_file_id (store_manifest store)));
  disk_pages : manifest_page_count (store_manifest store) * PAGE_SIZE <= stable (file (pages store));
  disk_current : forall b, b ∈ bindings dir CURRENT -> exists f chosen saved, b = Some f /\ choice dir store records f chosen saved }.

(** The state of an open store and its directory. *)
Record sound (dir : Directory) (store : Store) (records : list bytes) (contents saved : Contents) : Prop := {
  sound_consistent : consistent dir store records contents saved;
  sound_disk : disk dir store records }.

Lemma sound_history dir store records contents saved : sound dir store records contents saved -> durable dir store records.
Proof. intros [[Hd _ _ _] _]. exact Hd. Qed.
Lemma sound_store dir store records contents saved : sound dir store records contents saved -> store_holds store contents.
Proof. intros [[_ Hh _ _] _]. exact Hh. Qed.

Lemma held_revert dir f name : name <> CURRENT -> held (revert dir f) name = held dir name.
Proof. intros Hn. unfold held, revert. cbn. by rewrite lookup_insert_ne. Qed.
Lemma held_reverted dir f : held (revert dir f) CURRENT = Some (contents f).
Proof. unfold held, revert. cbn. by rewrite lookup_insert_eq. Qed.

(** Which manifest is selected depends on two files. *)
Lemma selects_same dir dir' m :
  held dir' CURRENT = held dir CURRENT -> held dir' (manifest_file (generation m)) = held dir (manifest_file (generation m)) ->
  selects dir m -> selects dir' m.
Proof. intros Hc Hm [(cur & data & Hs)]. split. exists cur, data. by rewrite Hc, Hm. Qed.

Lemma selects_held dir m : selects dir m -> held dir (manifest_file (generation m)) <> None.
Proof. by intros [(cur & data & _ & _ & _ & -> & _)]. Qed.

(** A later state has the choices of an earlier one, when recovery from them
    still finds the history. *)
Lemma choice_later dir dir' store store' records records' f chosen saved :
  choice dir store records f chosen saved ->
  recoverable dir' chosen store' records' -> flushed_logs dir' chosen -> untouched dir dir' (manifest_file (generation chosen)) ->
  page_file_id (store_manifest store') = page_file_id (store_manifest store) ->
  reader_wf (reader (pages store)) -> reader_wf (reader (pages store')) -> reader_le (reader (pages store)) (reader (pages store')) ->
  (forall n, n <= page_count (pages store) * PAGE_SIZE -> n <= stable (file (pages store)) -> n <= stable (file (pages store'))) ->
  choice dir' store' records' f chosen saved.
Proof.
  intros [C1 C2 C3 C4 C5 C6 C7 C8 C9 C10] Hr Hl Hu Hid W W' Hle Hst. pose proof Hu as [E _]. split; try done.
  - eapply selects_same; [| |exact C2]; rewrite ?held_reverted, ?held_revert by done; [done|]. by apply untouched_held.
  - by eapply untouched_settled.
  - by rewrite E.
  - congruence.
  - destruct Hle as [Hle _]. cbn in Hle. lia.
  - apply Hst; [|done]. pose proof page_size_value. nia.
  - by eapply (roots_hold_le (reader (pages store))).
Qed.

(** The state of the disk after operations that replace no CURRENT. *)
Lemma disk_later dir dir' store store' records records' :
  disk dir store records ->
  untouched dir dir' CURRENT -> untouched dir dir' (pages_file (page_file_id (store_manifest store))) ->
  (forall f chosen saved, choice dir store records f chosen saved ->
    recoverable dir' chosen store' records' /\ flushed_logs dir' chosen /\ untouched dir dir' (manifest_file (generation chosen))) ->
  flushed_logs dir' (store_manifest store') ->
  page_file_id (store_manifest store') = page_file_id (store_manifest store) ->
  manifest_page_count (store_manifest store') = manifest_page_count (store_manifest store) ->
  manifest_page_count (store_manifest store) <= page_count (pages store) ->
  reader_wf (reader (pages store)) -> reader_wf (reader (pages store')) -> reader_le (reader (pages store)) (reader (pages store')) ->
  (forall n, n <= page_count (pages store) * PAGE_SIZE -> n <= stable (file (pages store)) -> n <= stable (file (pages store'))) ->
  disk dir' store' records'.
Proof.
  intros [K1 K2 K3 K4] Hc Hp Hch Hl Hid Hcount Hle W W' Hr Hst. split.
  - done.
  - rewrite Hid. by eapply untouched_settled.
  - rewrite Hcount. apply Hst; [|done]. pose proof page_size_value. nia.
  - intros b Hb. destruct (K4 b) as (f & chosen & saved & -> & Hf); [by eapply untouched_bindings|]. exists f, chosen, saved. split; [done|].
    destruct (Hch _ _ _ Hf) as (H1 & H2 & H3). by eapply choice_later.
Qed.

Lemma selected_pages_le dir dir' store store' saved :
  reader_wf (reader (pages store)) -> reader_wf (reader (pages store')) -> reader_le (reader (pages store)) (reader (pages store')) ->
  (forall m, selects dir m -> selects dir' m) -> selected_pages dir store saved -> selected_pages dir' store' saved.
Proof.
  intros W W' Hle Hs (chosen & Hsel & Hc & Hr). exists chosen. split; [by apply Hs|]. split; [destruct Hle as [Hle _]; cbn in Hle; lia|].
  by eapply (roots_hold_le (reader (pages store))).
Qed.

(** ** Batches and checkpoint preparations *)
Lemma observe_logs v previous roots changes m genesis v' : observe v previous roots changes m genesis = Ok v' -> runtime_logs v' = runtime_logs v.
Proof.
  unfold observe. intros Ho. step_ok Ho as w eqn Hw. apply ok_inj in Ho as <-. cbn.
  assert (forall a, foldR (observe_change m genesis) a changes = Ok w -> runtime_logs w = runtime_logs a) as Hf; [|by rewrite (Hf _ Hw)].
  clear. induction changes as [|c changes IH]; intros a Ha; cbn [foldR] in Ha; [by apply ok_inj in Ha as <-|].
  step_ok Ha as b eqn Hb. rewrite (IH _ Ha). unfold observe_change in Hb. destruct (bool_decide _); [by apply ok_inj in Hb as <-|].
  step_ok Hb as l eqn Hl. step_ok Hb as p eqn Hp. by apply ok_inj in Hb as <-.
Qed.

Definition logs_of (store : Store) : option LogValidation := match runtime store with Some v => runtime_logs v | None => None end.

Lemma apply_quiet store changes :
  let store' := (apply store changes).1 in
  store_manifest store' = store_manifest store /\ logs_of store' = logs_of store /\ (store_poisoned store = true -> store_poisoned store' = true)
  /\ store_genesis store' = store_genesis store.
Proof.
  cbn. unfold apply, writable. destruct (store_poisoned store) eqn:Hp; [done|]. destruct (negb _); [done|].
  destruct (apply_changes _ _ _) as [f [roots|error|]]; [|done..]. unfold logs_of. destruct (runtime store) as [v|] eqn:Hr; [|done].
  destruct (observe _ _ _ _ _ _) as [v'|error|] eqn:Ho; cbn; rewrite ?Hr; [|done..]. split; [done|]. by split; [by eapply observe_logs|].
Qed.

Lemma prepare_quiet store sequence :
  let store' := (prepare_checkpoint store sequence).1 in
  store_manifest store' = store_manifest store /\ logs_of store' = logs_of store /\ (store_poisoned store = true -> store_poisoned store' = true)
  /\ store_genesis store' = store_genesis store.
Proof.
  cbn. unfold prepare_checkpoint, writable. destruct (store_poisoned store) eqn:Hp; [done|]. destruct (_ || _); [done|].
  destruct (match runtime store with Some _ => _ | None => None end) as [p|]; [destruct (proofs_current _)|].
  - by destruct (prune_pending _ _ _ _) as [f [roots|error|]].
  - by destruct (prune_trees _ _ _ _ _) as [f [roots|[[] error]|]].
  - by destruct (prune_trees _ _ _ _ _) as [f [roots|[[] error]|]].
Qed.

(** The files are as they were; the page file grew. *)
Lemma sound_grown dir store store' records contents contents' saved :
  sound dir store records contents saved -> store_holds store' contents' -> file_le (pages store) (pages store') ->
  store_manifest store' = store_manifest store -> logs_of store' = logs_of store -> (store_poisoned store = true -> store_poisoned store' = true) ->
  sound dir store' records contents' saved.
Proof.
  intros [[Hd Hs Hc Hsel] Hk] Hs' Hle Hm Hl Hp. pose proof (le_reader _ _ Hle) as Hr.
  assert (same_files dir dir) as Hsame by (split; [intros id data ->; by exists data|done]). split; [split; [|done| |]|].
  - apply (durable_same dir dir store); done.
  - rewrite Hm. destruct Hr as [Hr _]. cbn in Hr. lia.
  - apply (selected_pages_le dir dir store); [apply Hs|apply Hs'|done|done|done].
  - apply (disk_later dir dir store store' records); rewrite ?Hm;
      [done|apply untouched_refl|apply untouched_refl| |apply Hk|done|done|done|apply Hs|apply Hs'|done|apply Hle].
    intros f chosen saved' [_ _ C3 _ _ C6 _ _ _ _]. split; [by eapply recoverable_same|]. by split; [|apply untouched_refl].
Qed.

Lemma apply_sound dir store changes records contents saved :
  sound dir store records contents saved ->
  let '(store', r) := apply store changes in
  r <> Panic /\ sound dir store' records (match r with Ok _ => mutate changes contents | _ => contents end) saved.
Proof.
  intros Hs. pose proof (apply_spec store contents changes (sound_store _ _ _ _ _ Hs)) as Ha. pose proof (apply_quiet store changes) as (Q1 & Q2 & Q3 & _).
  destruct (apply store changes) as [store' [[]|error|]]; cbn in Q1, Q2, Q3; [| |done]; (split; [done|]); eapply sound_grown; try done; apply Ha.
Qed.

(** The roots of a view are page numbers. *)
Lemma roots_typed r roots contents : reader_wf r -> roots_hold r roots contents -> Forall is_u64 roots.
Proof.
  intros Hwf [Hl Hr]. assert (forall tree root, roots !! tree_index tree = Some root -> is_u64 root) as Hone.
  { intros tree root Hroot. destruct (Hr tree) as (root' & Hroot' & Hh). rewrite Hroot in Hroot'. injection Hroot' as <-.
    unfold tree_holds in Hh. destruct (Z.eqb_spec root 0) as [->|]; [done|]. destruct Hh as (_ & height & Hs). pose proof (subtree_pos _ _ _ _ _ Hs) as Hpos.
    assert (exists node, read_node r tree root = Ok node) as [node Hn] by (destruct height; [destruct Hs as (_ & cells & ? & _)|destruct Hs as (_ & ? & ? & ? & ? & _)]; by eexists).
    apply read_node_inv in Hn as (Hb & _); [|done|lia]. destruct Hwf as [Hc _]. rewrite max_pages_value in Hc. unfold is_u64. change (256 ^ 8) with 18446744073709551616. lia. }
  apply Forall_lookup_2. intros i root Hi. pose proof (lookup_lt_Some _ _ _ Hi) as Hlt. rewrite Hl in Hlt.
  do 5 (destruct i as [|i]; [first [by apply (Hone State)|by apply (Hone Catalogue)|by apply (Hone Policy)|by apply (Hone Outcomes)|by apply (Hone Cursors)]|]). lia.
Qed.

(** A view that this owner pinned or prepared holds [held]. *)
Record view_ok (store : Store) (v : PageView) (held : Contents) : Prop := {
  view_wf : reader_wf (view_reader v);
  view_earlier : reader_le (view_reader v) (reader (pages store));
  view_proved : proofs_ok (view_reader v) (store_genesis store) (validation v);
  view_held : roots_hold (view_reader v) (view_roots v) held }.

Lemma prepare_sound dir store sequence records contents saved :
  sound dir store records contents saved -> sequence <= u64_max ->
  let '(store', r) := prepare_checkpoint store sequence in
  r <> Panic /\ sound dir store' records contents saved /\ forall v, r = Ok v -> view_ok store' v (upto sequence contents).
Proof.
  intros Hs Hmax. pose proof Hs as [[Hd Hh _ _] _]. pose proof (prepare_spec store contents sequence Hh) as Hp.
  pose proof (prepare_quiet store sequence) as (Q1 & Q2 & Q3 & _). unfold preparation in Hp.
  destruct (prepare_checkpoint store sequence) as [store' r]. cbn in Q1, Q2, Q3.
  destruct Hp as (Hle & Hh' & _ & _ & Hres); [pose proof (typed_checkpoint _ (durable_typed _ _ _ Hd)) as [? _]; lia|done|].
  split; [by intros ->|]. split; [by eapply sound_grown|]. intros v ->. destruct Hres as (_ & [V1 V2 V3]). rewrite V1 in *.
  split; rewrite ?V1; [apply Hh'|apply reader_le_refl|done|done].
Qed.

(** ** Appends *)
Lemma appended_log_only m b dir dir' next : appended m b dir dir' next -> log_only m next.
Proof.
  intros (d1 & next1 & seg & file & file' & Hop & -> & _). destruct (opened_segments _ _ _ _ _ _ _ Hop) as (_ & _ & Hset & _). rewrite Hset. by eexists _, _, _, _.
Qed.

Lemma cursor_ok_later m l e : log_only m l -> durable_sequence m <= durable_sequence l -> cursor_ok m e -> cursor_ok l e.
Proof.
  intros (s & d & i & segs & ->) Hle (id & Hid & Hv). exists id. split; [done|]. unfold validate_cursor in *. cbn [set_segments set_durable next_cursor_id durable_sequence history_floor log_floor] in *.
  step_if Hv eqn E1. step_ok Hv as version eqn Ev. step_if Hv eqn E2. step_ok Hv as baseline eqn Eb. step_ok Hv as length eqn El.
  step_ok Hv as mode eqn Em. step_ok Hv as reserved eqn Er. step_ok Hv as name eqn En. step_if Hv eqn E3. clear Hv.
  rewrite Ev. cbn [bindR]. rewrite E2, Eb. cbn [bindR]. rewrite El. cbn [bindR]. rewrite Em. cbn [bindR]. rewrite Er. cbn [bindR]. rewrite En. cbn [bindR].
  match goal with |- (if ?b then _ else _) = _ => assert (b = false) as -> end; [|done].
  repeat match goal with Hb : _ || _ = false |- _ => apply orb_false_iff in Hb as [? ?] end.
  repeat (apply orb_false_iff; split); try done. blia.
Qed.

Lemma checkpoint_ok_later genesis m l contents : log_only m l -> durable_sequence m <= durable_sequence l -> checkpoint_ok genesis m contents -> checkpoint_ok genesis l contents.
Proof.
  intros Hl Hle [C1 C2]. split; [by destruct Hl as (? & ? & ? & ? & ->)|]. eapply Forall_impl; [exact C2|]. intros e. by apply cursor_ok_later.
Qed.

Lemma pending_ok_later m l contents p : log_only m l -> pending_ok m contents p -> pending_ok l contents p.
Proof. intros (s & d & i & segs & ->) [P1 P2 P3 P4 P5]. by split. Qed.

Lemma append_holds store store' contents :
  store_holds store contents -> log_only (store_manifest store) (store_manifest store') -> durable_sequence (store_manifest store) <= durable_sequence (store_manifest store') ->
  pages store' = pages store -> store_roots store' = store_roots store -> store_genesis store' = store_genesis store ->
  match runtime store, runtime store' with
  | Some v, Some v' => live v' = live v /\ published v' = published v /\ pending v' = pending v
  | None, None => True
  | _, _ => False
  end -> store_holds store' contents.
Proof.
  intros [W R V (saved & C1 & C2)] Hl Hle Ep Er Eg Hv. split; [by rewrite Ep|by rewrite Ep, Er| |].
  - destruct (runtime store') as [v'|]; [|done]. destruct (runtime store) as [v|]; [|done]. destruct Hv as (E1 & E2 & E3), V as [V1 V2 V3].
    split; rewrite ?Ep, ?Eg, ?E1, ?E2, ?E3; [done|done|]. destruct (pending v); [|done]. by eapply pending_ok_later.
  - exists saved. rewrite Ep, Eg. split; [|by eapply checkpoint_ok_later]. by destruct Hl as (? & ? & ? & ? & ->).
Qed.

Lemma append_sound dir store new records contents saved :
  sound dir store records contents saved ->
  let '(dir', (store', r)) := append_wal store new dir in
  r <> Panic /\ sound dir' store' (match r with Ok _ => records ++ map snd new | _ => records end) contents saved.
Proof.
  intros [[Hd Hh Hc Hsel] Hk]. destruct (append_wal store new dir) as [dir' [store' r]] eqn:Ha. destruct (store_poisoned store) eqn:Hwr.
  { unfold append_wal, writable in Ha. rewrite Hwr in Ha. injection Ha as <- <- <-. split; [done|]. by split. }
  pose proof (append_durable _ _ _ _ _ _ _ Hd Ha) as (Hsame & Hnp & Hd'). split; [done|].
  pose proof Hd as [T Hv Hl Hr _ _]. pose proof (append_wal_spec store new dir _ T Hv Hr) as Hspec. rewrite Ha in Hspec. destruct Hspec as (_ & _ & Hres).
  assert (pages store' = pages store /\ log_only (store_manifest store) (store_manifest store') /\ store_holds store' contents) as (Ep & Hlo & Hh').
  { destruct r as [digest|error|]; [|subst store'; split; [done|]; split; [done|]; by apply (store_holds_grown store contents (pages store)); [done|apply Hh|apply file_le_refl|..]|done].
    destruct Hres as [(_ & _ & _ & HdN & _ & _ & Est & Hrt & b & _ & Happ) _]. pose proof (appended_log_only _ _ _ _ _ Happ) as Hlo.
    rewrite Est. cbn [set_manifest pages store_manifest]. split; [done|]. split; [done|].
    apply (append_holds store); cbn [set_manifest pages store_manifest store_roots store_genesis runtime]; try done; [pose proof (len_nonneg new); lia|].
    unfold runtime_appended in Hrt. destruct (runtime store), (runtime store'); try done. by destruct Hrt as (? & ? & ? & _). }
  destruct (append_disk _ _ _ _ _ _ _ T Hv Hr (disk_logs _ _ _ Hk) Ha) as [Hle Hfl].
  assert (forall name, ~ is_log name -> untouched dir dir' name) as Hu by (intros name Hn; pose proof (append_wal_untouched store new dir name Hn) as Hu; by rewrite Ha in Hu).
  split; [split; [done|done| |]|].
  - rewrite Ep. by destruct Hlo as (? & ? & ? & ? & ->).
  - destruct Hsel as (chosen & Hs & Hcount & Hroots). exists chosen. rewrite Ep. split; [by eapply same_files_selects|done].
  - apply (disk_later dir dir' store store' records); rewrite ?Ep;
      [done|apply Hu; by intros [? ?]|apply Hu; by intros [? ?]| |done|by destruct Hlo as (? & ? & ? & ? & ->)|by destruct Hlo as (? & ? & ? & ? & ->)|done|apply Hh|apply Hh|apply reader_le_refl|done].
    intros f chosen saved' Hf. pose proof (choice_recoverable _ _ _ _ _ _ Hf) as Hrec. split; [|split; [|apply Hu; by intros [? ?]]].
    + destruct r as [digest|error|]; [|subst store'; by apply (recoverable_same dir dir' chosen store)|done]. destruct Hres as [Hres _].
      eapply recoverable_appended; [done| |exact Hres|done|done]. by eapply appended_writable.
    + pose proof Hrec as (rs & Hrs & Hc'). eapply flushed_logs_le; [exact Hle| |exact Hrs|apply Hf]. intros s cut Hs Hin.
      destruct Hc' as [[Hc' _]|[Hpo _]].
      * pose proof (selects_typed _ _ (choice_selects _ _ _ _ _ _ Hf)) as [_ Hvc]. by eapply last_cut_keeps.
      * congruence.
Qed.

(** ** Publications *)
Lemma page_count_u64 f : file_wf f -> is_u64 (page_count f).
Proof. intros [[Hc _] _]. cbn in Hc. rewrite max_pages_value in Hc. unfold is_u64. change (256 ^ 8) with 18446744073709551616. lia. Qed.

Lemma completed_typed store v held given g :
  file_wf (pages store) -> manifest_typed (store_manifest store) -> view_ok store v held -> manifest_typed given -> is_u64 g ->
  manifest_typed (completed store v given g).
Proof.
  intros Hwf T [V1 _ _ V4] [T1 T2 T3 T4 T5 T6 T7 T8 T9 T10 T11 T12 T13 T14 T15 T16 T17 T18] Hg. pose proof (page_count_u64 _ Hwf) as Hp. pose proof (typed_page_count _ T).
  split; cbn; try done; [by destruct (_ && _)|apply V4|by eapply roots_typed].
Qed.

Lemma same_pages_reader f f' : same_pages f f' -> reader f' = reader f.
Proof. intros (E1 & E2 & _). unfold reader. by rewrite E1, E2. Qed.

Lemma same_pages_wf f f' : same_pages f f' -> file_wf f -> file_wf f'.
Proof. intros Hs. pose proof (same_pages_reader _ _ Hs) as E. destruct Hs as (_ & E2 & E3 & _). unfold file_wf. by rewrite E, E2, E3. Qed.

Lemma same_pages_holds store contents f : same_pages (pages store) f -> store_holds store contents -> store_holds (poison (set_pages store f)) contents.
Proof.
  intros Hs [W R V K]. pose proof (same_pages_reader _ _ Hs) as E. split; cbn; rewrite ?E; [by eapply same_pages_wf|done|done|done].
Qed.

(** The maps of a view that a publication checked. *)
Lemma checked_saved store v held given dir g proofs logs contents :
  store_holds store contents -> manifest_typed (completed store v given g) -> view_ok store v held -> checked store v given dir g proofs logs ->
  let m := completed store v given g in
  roots_hold (reader (pages store)) (manifest_roots m) held /\ checkpoint_ok (store_genesis store) m held
  /\ proofs_ok (reader (pages store)) (store_genesis store) proofs.
Proof.
  intros Hh T [V1 V2 V3 V4] Hc m. pose proof (checked_checkpoint _ _ _ _ _ _ _ Hc) as Hv. fold m in T, Hv.
  assert (reader_wf (reader (pages store))) as W by apply Hh.
  apply validate_sound in Hv as (saved & R & K & P); [| |exact (Forall_impl _ _ _ (typed_root _ T) (fun z Hz => proj1 Hz))|apply T|apply (typed_checkpoint _ T)|].
  - assert (forall tree, saved tree = held tree) as Hsame.
    { intros tree. destruct R as [_ R], V4 as [_ V4]. destruct (R tree) as (root & E1 & H1), (V4 tree) as (root' & E2 & H2).
      change (manifest_roots m) with (view_roots v) in E1. rewrite E1 in E2. injection E2 as <-. exact (tree_holds_unique _ _ _ _ _ V1 H1 H2). }
    split; [apply (roots_hold_le (view_reader v)); [done..|]; by apply (roots_hold_ext _ _ saved)|]. split; [|by apply (proofs_ok_le (view_reader v))].
    destruct K as [K1 K2]. split; [intros tree Ht; rewrite <-Hsame; by apply K1|by rewrite <-Hsame].
  - done.
  - destruct (runtime store); [done|apply no_proofs_ok].
Qed.

Lemma noted_holds store contents held m proofs logs f :
  store_holds store contents -> same_pages (pages store) f ->
  roots_hold (reader (pages store)) (manifest_roots m) held -> checkpoint_ok (store_genesis store) m held -> proofs_ok (reader (pages store)) (store_genesis store) proofs ->
  manifest_checkpoint_sequence (store_manifest store) <= manifest_checkpoint_sequence m ->
  store_holds (published_store (set_pages store f) m (store_roots store) (noted store m proofs logs)) contents.
Proof.
  intros [W R V _] Hs Hr Hk Hp Hle. pose proof (same_pages_reader _ _ Hs) as E. split; cbn; rewrite ?E.
  - by eapply same_pages_wf.
  - done.
  - unfold noted. destruct (runtime store) as [v|]; [|done].
    destruct (note_published_ok (reader (pages store)) (store_genesis store) (store_manifest store) m contents held v (store_roots store) proofs) as [N1 N2 N3]; [apply W|done..|]. by split.
  - by exists held.
Qed.

(** The CURRENT that a publication wrote. *)
Lemma replaced_choice reuse old m dir dir' store' records' held :
  manifest_typed m -> replaced reuse old m dir dir' -> flushed_logs dir' m -> recoverable dir' m store' records' ->
  page_file_id m = page_file_id (store_manifest store') -> manifest_page_count m <= page_count (pages store') ->
  manifest_page_count m * PAGE_SIZE <= stable (file (pages store')) -> roots_hold (reader (pages store')) (manifest_roots m) held ->
  exists fc, entries dir' !! CURRENT = Some fc /\ choice dir' store' records' fc m held.
Proof.
  intros T [(data & current & He & Hc & (fc & Hfc & Ec & Hclean) & Hman) _ Hset _] Hl Hr Hid Hn Hp Hroots. exists fc. split; [done|]. split; try done.
  - eapply selected_by; [done|exact He|exact Hc|by rewrite held_reverted, Ec|rewrite held_revert by done; by apply clean_held].
  - by apply Hset.
  - destruct Hman as (g & Hg & _ & Hu). intros g'. rewrite Hg. by intros [= <-].
Qed.

Lemma replaced_flushed reuse old m dir dir' rs :
  manifest_typed m -> log_records dir' m rs -> replaced reuse old m dir dir' -> (reuse = true -> flushed_logs dir' old) -> flushed_logs dir' m.
Proof.
  intros T Hr [_ _ Hset Hlogs] Hold s Hs. destruct (Hlogs s Hs) as [[Hu Hin]|Hc]; [by apply Hold|]. eapply clean_flushed; [done|exact Hr|done|by apply Hset|exact Hc].
Qed.

Lemma pages_stable store m f :
  pages_flushed store m f -> file_wf f -> manifest_page_count m <= page_count f -> stable (file (pages store)) <= stable (file f) ->
  (is_Some (runtime store) -> manifest_page_count (store_manifest store) * PAGE_SIZE <= stable (file (pages store))) ->
  manifest_page_count m * PAGE_SIZE <= stable (file f).
Proof.
  intros [Hc|(Hr & _ & ->)] [[_ W] _] Hn Hst Hp; [|specialize (Hp Hr); lia]. cbn in W. unfold stable. rewrite Hc. pose proof page_size_value. nia.
Qed.

(** What a publication leaves flushed. *)
Lemma publication_disk dir dir' store store' v given held g proofs logs f records more r :
  durable dir store records -> file_wf (pages store) -> disk dir store records -> publication dir store v given g proofs logs records more ->
  attempted dir (completed store v given g) dir' r -> r <> Panic -> same_pages (pages store) f ->
  publish_files store (completed store v given g) dir = (dir', (set_pages store f, r)) ->
  roots_hold (reader (pages store)) (manifest_roots (completed store v given g)) held ->
  manifest_page_count (completed store v given g) <= page_count (pages store) ->
  store' = match r with
           | Ok _ => published_store (set_pages store f) (completed store v given g) (store_roots store) (noted store (completed store v given g) proofs logs)
           | _ => poison (set_pages store f)
           end ->
  disk dir' store' (match r with Ok _ => records ++ more | _ => records end) /\ (r = Ok tt -> settled dir' CURRENT).
Proof.
  intros Hd W Hk Hpub Hatt Hnp Hsame Hfiles Hroots Hcount Hst. pose proof Hpub as [Tm Hck Hl _ _ _]. set (m := completed store v given g) in *.
  pose proof (publish_files_disk store m dir) as Hdisk. rewrite Hfiles in Hdisk. cbn [set_pages pages] in Hdisk. destruct Hdisk as (Hstable & Hle & Hu & Hcase).
  pose proof (fun id => attempted_logs _ _ _ _ id Hatt) as Hlogs. pose proof Hd as [T Hv _ Hlive _ _]. pose proof Hk as [K1 K2 K3 K4].
  pose proof (transition_inv _ _ (checked_transition _ _ _ _ _ _ _ Hck)) as (_ & _ & _ & _ & Hid & _). change (page_file_id given) with (page_file_id m) in Hid.
  pose proof (same_pages_reader _ _ Hsame) as Er. pose proof (proj1 (proj2 Hsame)) as Ec. pose proof (same_pages_wf _ _ Hsame W) as Wf.
  assert (forall l rs, log_records dir l rs -> flushed_logs dir l -> flushed_logs dir' l) as Hkeep.
  { intros l rs Hlr. eapply flushed_logs_le; [exact Hle| |exact Hlr]. intros s cut _ Hin. by apply not_elem_of_nil in Hin. }
  assert (forall name, (forall id, name <> log_file id) -> name ∉ PUBLISHED m -> untouched dir dir' name) as Hun.
  { intros name Hn1 Hn2. apply Hu. intros [[id ->]|Hin]; [by apply (Hn1 id)|done]. }
  assert (settled dir' (pages_file (page_file_id (store_manifest store)))) as Hpf.
  { eapply untouched_settled; [|exact K2]. apply Hun; [done|]. unfold PUBLISHED, not. rewrite !elem_of_cons, elem_of_nil. naive_solver. }
  assert (replaced (match runtime store with Some _ => true | None => false end) (store_manifest store) m dir dir' -> pages_flushed store m f ->
    forall store'' records'', pages store'' = f -> page_file_id (store_manifest store'') = page_file_id (store_manifest store) ->
      recoverable dir' m store'' records'' -> flushed_logs dir' m /\ exists fc, entries dir' !! CURRENT = Some fc /\ choice dir' store'' records'' fc m held) as Hnew.
  { intros Hrep Hpages store'' records'' Ep Eid Hr. assert (flushed_logs dir' m) as Hfm.
    { eapply replaced_flushed; [done|eapply log_of_ext; [exact Hlogs|exact Hl]|exact Hrep|]. intros _. by eapply Hkeep. }
    split; [done|]. eapply replaced_choice; rewrite ?Ep, ?Eid, ?Ec, ?Er; try done. eapply pages_stable; [exact Hpages|done|by rewrite Ec|done|done]. }
  destruct r as [[]|error|]; [| |done]; subst store'.
  - destruct Hcase as [[_ ?]|(Hpages & Hrep & Hset)]; [done|]. specialize (Hset eq_refl). split; [|intros _; unfold settled; by rewrite Hset].
    destruct (Hnew Hrep Hpages (published_store (set_pages store f) m (store_roots store) (noted store m proofs logs)) (records ++ more)) as [Hfm (fc & Hfc & Hch)]; [done|done| |].
    { eexists. split; [eapply log_of_ext; [exact Hlogs|exact Hl]|]. left. split; [apply continues_refl|done]. }
    split; cbn [published_store set_pages store_manifest pages]; [done|by rewrite Hid|apply Hch|].
    intros b Hb. unfold bindings in Hb. rewrite Hset, lookup_empty in Hb. apply list_elem_of_singleton in Hb as ->. by exists fc, m, held.
  - split; [|done]. assert (forall f0 chosen saved, choice dir store records f0 chosen saved -> choice dir' (poison (set_pages store f)) records f0 chosen saved) as Hold.
    { intros f0 chosen saved Hf. pose proof (choice_recoverable _ _ _ _ _ _ Hf) as Hrec. pose proof Hrec as (rs & Hrs & _). eapply choice_later; [exact Hf| | | |done|apply W| | |].
      - by apply (recoverable_poisoned dir _ _ store).
      - eapply Hkeep; [exact Hrs|apply Hf].
      - apply Hun; [done|]. unfold PUBLISHED, not. rewrite !elem_of_cons, elem_of_nil. intros [|[|[[= E]|[|]]]]; try done.
        apply (selects_held _ _ (choice_selects _ _ _ _ _ _ Hf)). rewrite held_revert by done. rewrite E. apply (checked_fresh _ _ _ _ _ _ _ Hck).
      - cbn. rewrite Er. apply W.
      - cbn. rewrite Er. apply reader_le_refl.
      - cbn. lia. }
    split; cbn [poison set_pages store_manifest pages]; [by eapply Hkeep|done|lia|].
    intros b Hb. assert (b ∈ bindings dir CURRENT -> exists f0 chosen saved, b = Some f0 /\ choice dir' (poison (set_pages store f)) records f0 chosen saved) as Hbold.
    { intros (f0 & chosen & saved & -> & Hf)%K4. exists f0, chosen, saved. split; [done|by apply Hold]. }
    destruct Hcase as [[Hcu _]|(Hpages & Hrep & _)]; [apply Hbold; by eapply untouched_bindings|].
    destruct (replaced_bindings _ _ _ _ _ Hrep _ Hb) as [->| ->]; [|apply Hbold; left].
    destruct (Hnew Hrep Hpages (poison (set_pages store f)) records) as [_ (fc & Hfc & Hch)]; [done|done| |by exists fc, m, held].
    by eapply recoverable_published; [exact Hpub|exact Hlogs|].
Qed.

(** A publication keeps the state, or shows two records with one digest. *)
Lemma publish_sound owner dir store v given held records contents saved :
  sound dir store records contents saved -> view_ok store v held -> manifest_typed given ->
  let '(dir', (store', r)) := publish owner store v given dir in
  (exists more saved', sound dir' store' (records ++ more) contents saved'
     /\ match r with Ok _ => saved' = held /\ settled dir' CURRENT | _ => more = [] /\ (saved' = saved \/ saved' = held) end)
  \/ exists g rs', log_records dir (completed store v given g) rs' /\ clash (window (store_manifest store) records) rs'
       /\ relists (store_manifest store) given.
Proof.
  intros Hs Hv Tg. pose proof Hs as [[Hd Hh Hc Hsel] Hk]. destruct (publish owner store v given dir) as [dir' [store' r]] eqn:Hp. pose proof Hd as [T _ _ _ _ _].
  assert (forall g, is_u64 g -> manifest_typed (completed store v given g)) as Hty by (intros g Hg; eapply completed_typed; [apply Hh|done..]).
  destruct (publish_cases _ _ _ _ _ _ _ _ _ Hd Hty Hp) as [(Hne & -> & ->)|[(g & proofs & logs & f & more & Hpub & Hsame & Hnp & Hatt & Hfiles & Hst)|Hclash]]; [left|left|by right].
  { exists [], saved. rewrite app_nil_r. split; [done|]. destruct r as [[]|error|]; [done|by split; [|left]..]. }
  set (m := completed store v given g) in *. pose proof Hpub as [Tm Hck _ _ _ _].
  destruct (checked_saved _ _ _ _ _ _ _ _ _ Hh Tm Hv Hck) as (Hroots & Hok & Hproofs). fold m in Hroots, Hok.
  pose proof (transition_inv _ _ (checked_transition _ _ _ _ _ _ _ Hck)) as (_ & _ & _ & _ & _ & Hcp & _).
  pose proof (same_pages_reader _ _ Hsame) as Er. pose proof (proj1 (proj2 Hsame)) as Ec.
  assert (manifest_page_count m <= page_count (pages store)) as Hcount by (cbn; destruct (_ && _); lia).
  pose proof (published_durable _ _ _ _ _ _ _ _ _ _ _ _ _ Hd Hpub Hatt Hnp Hst) as Hd'.
  destruct (publication_disk _ _ _ _ _ _ held _ _ _ _ _ _ _ Hd (holds_file _ _ Hh) Hk Hpub Hatt Hnp Hsame Hfiles Hroots Hcount Hst) as [Hk' Hset].
  destruct r as [[]|error|]; [| |done]; subst store'.
  - exists more, held. split; [|by split; [|apply Hset]]. split; [split; [done|by eapply noted_holds|cbn; fold m; rewrite Ec; done|]|done].
    destruct (attempted_ok _ _ _ _ Hatt eq_refl) as (_ & Hsel' & _). exists m. cbn. rewrite Er, Ec. done.
  - destruct Hsel as (chosen & Hs0 & Hn & Hr).
    pose proof (same_pages_holds _ _ _ Hsame Hh) as Hh'.
    destruct (attempted_old _ _ _ _ Hatt chosen Hs0) as [Ho|Ho]; [exists [], saved|exists [], held]; rewrite app_nil_r; (split; [|by split; [|tauto]]); (split; [split; [done|done|cbn; by rewrite Ec|]|done]).
    + exists chosen. cbn. by rewrite Er, Ec.
    + exists m. cbn. by rewrite Er, Ec.
Qed.

(** ** Opening *)
(** The pages of the selected checkpoint are kept.  That a crash keeps them
    is shown below ([crash_keeps_pages]). *)
Definition keeps_pages (dir : Directory) (store : Store) (dir' : Directory) : Prop :=
  forall chosen f, selects dir chosen -> entries dir' !! pages_file (page_file_id chosen) = Some f ->
    keeps (manifest_page_count chosen * PAGE_SIZE) (contents (file (pages store))) (contents f).

Lemma open_reader f database id count opened :
  open f database id count = Ok opened -> page_count opened = count /\ reader opened = {| reader_file := contents f; reader_count := count |} /\ reader_wf (reader opened).
Proof.
  unfold open. intros Ho. step_if Ho eqn Ec. step_if Ho eqn El. step_ok Ho as page eqn Ep. step_ok Ho as found eqn Ef. step_ok Ho as ff eqn Eff. step_if Ho. apply ok_inj in Ho as <-.
  unfold reader, reader_wf. cbn. split; [done|]. split; [done|]. apply negb_false_iff, andb_true_iff in Ec as [C1%Z.leb_le C2%Z.leb_le]. apply Z.ltb_ge in El. lia.
Qed.

Lemma truncate_reader opened p : truncate_tail opened = (p, Ok tt) -> reader_wf (reader opened) -> file_wf p /\ page_count p = page_count opened /\ reader_le (reader opened) (reader p).
Proof.
  unfold truncate_tail. intros Ht [Hc Hl]. cbn in Hc, Hl. destruct (poisoned opened); [done|]. destruct (arith_u64 _) as [n|error|] eqn:Ha; [|done..]. apply arith_u64_inv in Ha as [-> Hn].
  destruct (set_len (file opened) _) as [f [[]|error|]] eqn:Hs; [|done..]. injection Ht as <-. pose proof page_size_value.
  destruct (set_len_keeps _ _ _ _ Hs ltac:(lia) (page_count opened * PAGE_SIZE) ltac:(lia) Hl) as [K1 K2].
  unfold file_wf, reader_wf, reader_le, keeps. cbn. repeat split; try done; lia.
Qed.

Lemma open_consistent dir store records contents saved dir2 lease attaching recovery dir3 store' :
  consistent dir store records contents saved -> crashed dir store dir2 -> keeps_pages dir store dir2 ->
  open_directory lease attaching recovery dir2 = (dir3, Ok store') ->
  exists more, consistent dir3 store' (records ++ more) saved saved.
Proof.
  intros [Hd Hh Hc (chosen & Hsel & Hn & Hr)] Hcr Hk Ho. destruct (open_durable _ _ _ _ _ _ _ _ _ Hd Hcr Ho) as [more Hd']. exists more.
  pose proof Hd as [_ _ _ _ _ (chosen' & Hsel' & rs & Hrs & _)]. pose proof (selects_unique _ _ _ Hsel Hsel') as <-. pose proof (crashed_selects _ _ _ _ Hcr Hsel) as Hsel2.
  destruct (selects_typed _ _ Hsel2) as [Tc Hvc]. apply (committed_records _ _ _ _ Tc (crashed_selected _ _ _ Hcr _ Hsel)) in Hrs.
  apply open_inv in Ho as (dirm & Hs2 & _ & Hrec & _ & Hother & _ & Hrt & _ & Hroots & f & opened & proofs & Hf & Hop & Hval & Htr).
  pose proof (selects_unique _ _ _ Hsel2 Hs2) as Esel. rewrite <-Esel in *. apply open_reader in Hop as (Hcount & Er & W). apply truncate_reader in Htr as (W' & Hcount' & Hle); [|done].
  destruct (recovery_continues _ _ _ _ _ _ Tc Hvc Hrs Hrec) as [Hlo _]. destruct (recover_tail_spec _ _ _ _ _ _ Tc Hvc Hrs Hrec) as (_ & Hnext).
  destruct (Hnext _ eq_refl) as (more0 & _ & _ & _ & Hdur & _).
  apply validate_sound in Hval as (kept & R & K & _); [|done|exact (Forall_impl _ _ _ (typed_root _ Tc) (fun z Hz => proj1 Hz))|apply Tc|apply (typed_checkpoint _ Tc)|apply no_proofs_ok].
  assert (forall tree, kept tree = saved tree) as Hsame.
  { assert (reader_wf (reader (pages store))) as Ws by apply Hh. assert (reader_le (reader opened) (reader (pages store))) as Hle2.
    { rewrite Er. split; cbn; [done|]. pose proof (Hk _ _ Hsel Hf) as Hkeep. unfold keeps in *. done. }
    pose proof (roots_hold_le _ _ _ _ W Ws Hle2 R) as R2. intros tree. destruct R2 as [_ R2], Hr as [_ Hr]. destruct (R2 tree) as (root & E1 & H1), (Hr tree) as (root' & E2 & H2).
    rewrite E1 in E2. injection E2 as <-. exact (tree_holds_unique _ _ _ _ _ Ws H1 H2). }
  assert (roots_hold (reader (pages store')) (manifest_roots chosen) saved) as Hr'.
  { apply (roots_hold_le (reader opened)); [done|apply W'|done|]. by apply (roots_hold_ext _ _ kept). }
  assert (checkpoint_ok (store_genesis store') (store_manifest store') saved) as Hk'.
  { eapply checkpoint_ok_later; [exact Hlo|pose proof (len_nonneg more0); lia|]. destruct K as [K1 K2]. split; [intros tree Ht; rewrite <-Hsame; by apply K1|by rewrite <-Hsame]. }
  assert (manifest_roots (store_manifest store') = manifest_roots chosen /\ manifest_page_count (store_manifest store') = manifest_page_count chosen) as [Em En] by (by destruct Hlo as (? & ? & ? & ? & ->)).
  split; [done| | |].
  - split; [done|by rewrite Hroots, Em|by rewrite Hrt|]. exists saved. by rewrite Em.
  - lia.
  - exists chosen. split; [|split; [lia|done]].
    pose proof (logs_only_recover chosen recovery dir2) as Hl. rewrite Hrec in Hl. cbn [fst] in Hl.
    assert (forall name, ~ is_log name -> held dir3 name = held dir2 name) as Hheld
      by (intros name Hn3; rewrite (untouched_held _ _ _ (Hother _ Hn3)); by apply untouched_held; exact (Hl _ Hn3)).
    eapply selects_same; [| |exact Hsel2]; apply Hheld; by intros [? ?].
Qed.

(** ** Crashes *)
(** What a process that ends leaves: the page file is closed, and is the file
    of its name again. *)
Definition closed (dir : Directory) (store : Store) : Directory :=
  set_entries dir (<[pages_file (page_file_id (store_manifest store)) := file (pages store)]> (entries dir)).

(** A settled name has the file it had, cut to what was flushed. *)
Lemma crash_settled_file dir dir' name f' :
  crash dir dir' -> settled dir name -> entries dir' !! name = Some f' -> exists f, entries dir !! name = Some f /\ survives f f'.
Proof.
  intros Hc Hs Hf. destruct (crash_names _ _ Hc name (Some f')) as (b & Hb & He); [unfold bindings; rewrite Hf; by left|].
  unfold bindings in Hb. unfold settled in Hs. rewrite Hs in Hb. apply list_elem_of_singleton in Hb as ->. destruct (entries dir !! name) as [f|]; [by exists f|done].
Qed.

Lemma crash_settled_kept dir dir' name f :
  crash dir dir' -> settled dir name -> entries dir !! name = Some f -> exists f', entries dir' !! name = Some f' /\ survives f f'.
Proof.
  intros Hc Hs Hf. destruct (crash_names _ _ Hc name (entries dir' !! name)) as (b & Hb & He); [by left|].
  unfold bindings in Hb. unfold settled in Hs. rewrite Hs in Hb. apply list_elem_of_singleton in Hb as ->. rewrite Hf in He. destruct (entries dir' !! name) as [f'|]; [by exists f'|done].
Qed.

Lemma closed_entries dir store name : (forall id, name <> pages_file id) -> entries (closed dir store) !! name = entries dir !! name.
Proof. intros Hn. unfold closed. cbn. by rewrite lookup_insert_ne. Qed.

Lemma crash_flushed_logs dir store dir2 m :
  crash (closed dir store) dir2 -> flushed_logs dir m -> flushed_logs dir2 m.
Proof.
  intros Hc Hf s Hs. destruct (Hf s Hs) as [Hse Hst]. split; [by apply (crash_settled _ _ Hc)|]. intros f2 Hf2.
  destruct (crash_settled_file _ _ _ _ Hc Hse Hf2) as (f & Hf1 & Hsv). rewrite closed_entries in Hf1 by done. specialize (Hst _ Hf1). apply survives_stable in Hsv. lia.
Qed.

(** Flushed logs are kept by a crash. *)
Lemma crash_keeps_committed dir store dir2 m rs :
  crash (closed dir store) dir2 -> manifest_typed m -> log_records dir m rs -> flushed_logs dir m -> keeps_committed dir dir2 m.
Proof.
  intros Hc T Hr Hf s data Hs Hd. destruct (Hf s Hs) as [Hse Hst]. unfold log_contents in *. destruct (entries dir !! log_file (segment_id s)) as [f|] eqn:E; [|done].
  injection Hd as <-. destruct (crash_settled_kept _ _ (log_file (segment_id s)) f Hc Hse) as (f2 & E2 & Hsv); [by rewrite closed_entries|].
  exists (contents f2). rewrite E2. split; [done|]. specialize (Hst _ eq_refl). pose proof (survives_keeps _ _ _ Hsv Hst) as Hk. pose proof (stable_le f).
  split; [|exact Hk]. eapply keeps_len; [exact Hk|]. lia.
Qed.

(** The CURRENT that a crash left is one of the choices; when it is the one
    that was there, the checkpoint is. *)
Lemma crash_choice dir store records cs saved dir2 :
  sound dir store records cs saved -> crash (closed dir store) dir2 ->
  exists f f2 chosen saved1, choice dir store records f chosen saved1 /\ entries dir2 !! CURRENT = Some f2 /\ contents f2 = contents f /\ unflushed f2 = None
    /\ (held dir2 CURRENT = held dir CURRENT -> saved1 = saved).
Proof.
  intros [[Hd Hh Hc (m & Hsel & Hn & Hr)] Hk] Hcr. destruct (crash_names _ _ Hcr CURRENT (entries dir2 !! CURRENT)) as (b & Hb & He); [by left|].
  assert (bindings (closed dir store) CURRENT = bindings dir CURRENT) as Eb by (unfold bindings; by rewrite closed_entries).
  rewrite Eb in Hb. destruct (disk_current _ _ _ Hk _ Hb) as (f & chosen & saved1 & -> & Hf).
  destruct (entries dir2 !! CURRENT) as [f2|] eqn:E2; [|done]. cbn in He. unfold survives in He. rewrite (choice_clean _ _ _ _ _ _ Hf) in He. destruct He as [Ec Eu].
  destruct (decide (held dir2 CURRENT = held dir CURRENT)) as [Heq|Hne]; [|by exists f, f2, chosen, saved1].
  assert (selects (revert dir f) m) as Hm.
  { eapply selects_same; [| |exact Hsel]; [|by apply held_revert]. rewrite held_reverted, <-Heq, <-Ec. unfold held. by rewrite E2. }
  pose proof (selects_unique _ _ _ (choice_selects _ _ _ _ _ _ Hf) Hm) as ->. exists f, f2, m, saved. split; [|done]. by destruct Hf; split.
Qed.

(** What a crash leaves is the directory of the choice, cut to what was
    flushed. *)
Lemma crash_crashed dir store records f f2 chosen saved dir2 :
  crash (closed dir store) dir2 -> durable dir store records -> disk dir store records -> choice dir store records f chosen saved ->
  entries dir2 !! CURRENT = Some f2 -> contents f2 = contents f -> crashed (revert dir f) store dir2.
Proof.
  intros Hcr [T Hv _ Hl _ _] [K1 K2 K3 K4] Hf E2 Ec. pose proof (selects_typed _ _ (choice_selects _ _ _ _ _ _ Hf)) as [Tc _].
  pose proof (choice_recoverable _ _ _ _ _ _ Hf) as (rs & Hrs & _).
  assert (forall m rs', manifest_typed m -> log_records dir m rs' -> flushed_logs dir m -> keeps_committed (revert dir f) dir2 m) as Hkeep.
  { intros m rs' Tm Hr Hfl s data Hs Hd. eapply crash_keeps_committed; [exact Hcr|exact Tm|exact Hr|exact Hfl|exact Hs|].
    unfold log_contents, revert in Hd. cbn in Hd. by rewrite lookup_insert_ne in Hd. }
  split.
  - rewrite held_reverted. unfold held. by rewrite E2, <-Ec.
  - intros m Hm. rewrite held_revert by done. pose proof (selects_unique _ _ _ (choice_selects _ _ _ _ _ _ Hf) Hm) as <-.
    pose proof (selects_held _ _ Hm) as Hn. rewrite held_revert in Hn by done. unfold held in *. destruct (entries dir !! _) as [g|] eqn:Eg; [|done].
    destruct (crash_settled_kept _ _ _ g Hcr (choice_settled _ _ _ _ _ _ Hf)) as (g2 & -> & Hsv); [by rewrite closed_entries|].
    unfold survives in Hsv. rewrite (choice_manifest _ _ _ _ _ _ Hf _ Eg) in Hsv. destruct Hsv as [Hc _]. cbn. by rewrite Hc.
  - by eapply Hkeep.
  - intros m Hm. pose proof (selects_unique _ _ _ (choice_selects _ _ _ _ _ _ Hf) Hm) as <-. eapply Hkeep; [done|exact Hrs|apply Hf].
  - intros id data. unfold log_contents. destruct (entries dir2 !! log_file id) as [g|] eqn:Eg; [|done]. intros [= <-]. by eapply crash_sizes.
Qed.

Lemma crash_keeps_pages dir store records f chosen saved dir2 :
  crash (closed dir store) dir2 -> disk dir store records -> choice dir store records f chosen saved ->
  (forall g, entries dir2 !! pages_file (page_file_id chosen) = Some g -> survives (file (pages store)) g) /\ keeps_pages (revert dir f) store dir2.
Proof.
  intros Hcr Hk Hf. assert (forall g, entries dir2 !! pages_file (page_file_id chosen) = Some g -> survives (file (pages store)) g) as Hp.
  { intros g. rewrite (choice_file _ _ _ _ _ _ Hf). intros Hg. destruct (crash_settled_file _ _ _ _ Hcr (disk_file _ _ _ Hk) Hg) as (g0 & Hg0 & Hsv).
    unfold closed in Hg0. cbn in Hg0. rewrite lookup_insert_eq in Hg0. by injection Hg0 as <-. }
  split; [done|]. intros m g Hm Hg. pose proof (selects_unique _ _ _ (choice_selects _ _ _ _ _ _ Hf) Hm) as <-. eapply survives_keeps; [by apply Hp|apply Hf].
Qed.

(** The choice that was selected is a state of its own. *)
Lemma choice_consistent dir store records cs saved f chosen saved1 :
  consistent dir store records cs saved -> choice dir store records f chosen saved1 -> consistent (revert dir f) store records cs saved1.
Proof.
  intros [[T Hv Hl Hr Hp _] Hh Hc _] Hf. assert (forall id, log_contents (revert dir f) id = log_contents dir id) as Hlogs.
  { intros id. unfold log_contents, revert. cbn. by rewrite lookup_insert_ne. }
  split; [|done|done|exists chosen; split; [apply Hf|split; apply Hf]]. split; try done.
  - by eapply log_of_ext.
  - unfold live_logs in *. destruct (match runtime store with Some v => runtime_logs v | None => None end) as [proof|]; [|done].
    destruct Hp as [P1 P2 P3]. split; [done| |done]. by eapply log_of_ext.
  - exists chosen. split; [apply Hf|]. destruct (choice_recoverable _ _ _ _ _ _ Hf) as (rs & Hrs & Hrec). exists rs. split; [by eapply log_of_ext|done].
Qed.

(** ** Opening after a crash *)
Lemma opened_file f database id count opened p :
  open f database id count = Ok opened -> truncate_tail opened = (p, Ok tt) -> forall n, n <= count * PAGE_SIZE -> n <= stable f -> n <= stable (file p).
Proof.
  intros Ho Ht n Hn Hs. unfold open in Ho. step_if Ho eqn Ec. step_if Ho eqn El. step_ok Ho as page eqn Ep. step_ok Ho as found eqn Ef. step_ok Ho as ff eqn Eff. step_if Ho. apply ok_inj in Ho as <-.
  unfold truncate_tail in Ht. cbn [poisoned page_count Page.file] in Ht. destruct (arith_u64 _) as [l|error|] eqn:Ha; [|done..]. apply arith_u64_inv in Ha as [-> _].
  pose proof (set_len_stable f (count * PAGE_SIZE) n Hn Hs) as Hst. destruct (set_len f _) as [g [[]|error|]]; [|done..]. by injection Ht as <-.
Qed.

(** What opening leaves flushed: all of what it was given, and what it
    recovered. *)
Lemma open_disk dir store records cs saved0 f f2 chosen saved dir2 lease attaching recovery dir3 store' more :
  crash (closed dir store) dir2 -> consistent dir store records cs saved0 -> disk dir store records -> choice dir store records f chosen saved ->
  entries dir2 !! CURRENT = Some f2 -> contents f2 = contents f -> unflushed f2 = None -> crashed (revert dir f) store dir2 ->
  (forall g, entries dir2 !! pages_file (page_file_id chosen) = Some g -> survives (file (pages store)) g) ->
  open_directory lease attaching recovery dir2 = (dir3, Ok store') -> consistent dir3 store' (records ++ more) saved saved ->
  disk dir3 store' (records ++ more).
Proof.
  intros Hcr [Hd _ _ _] Hk Hf E2 Ec Eu Hcrd Hpages Ho [Hd3 Hh3 _ (chosen3 & Hsel3 & Hn3 & Hr3)].
  apply open_inv in Ho as (dirm & Hs2 & _ & Hrec & _ & Hother & Hle & Hrt & _ & Hroots & g & opened & proofs & Hg & Hop & _ & Htr).
  pose proof (crashed_selects _ _ _ _ Hcrd (choice_selects _ _ _ _ _ _ Hf)) as Hsel2. pose proof (selects_unique _ _ _ Hsel2 Hs2) as Esel. rewrite <-Esel in *.
  destruct (selects_typed _ _ Hsel2) as [Tc Hvc]. pose proof (choice_recoverable _ _ _ _ _ _ Hf) as (rs & Hrs & _).
  assert (log_records dir2 chosen rs) as Hrs2.
  { eapply (committed_records (revert dir f)); [done|by apply (crashed_selected _ _ _ Hcrd), Hf|]. eapply log_of_ext; [|exact Hrs].
    intros id. unfold log_contents, revert. cbn. by rewrite lookup_insert_ne. }
  pose proof (crash_flushed_logs _ _ _ _ Hcr (choice_logs _ _ _ _ _ _ Hf)) as Hfl2.
  destruct (recover_disk _ _ _ _ _ _ Tc Hvc Hrs2 Hfl2 Hrec) as [Hflc Hfln]. specialize (Hfln _ eq_refl).
  destruct (recover_tail_spec _ _ _ _ _ _ Tc Hvc Hrs2 Hrec) as (Hrm & Hnext). destruct (Hnext _ eq_refl) as (more0 & TN & HvN & Hrn & _ & _ & _).
  destruct (recovery_continues _ _ _ _ _ _ Tc Hvc Hrs2 Hrec) as [Hlo Hcont].
  assert (forall name, ~ is_log name -> untouched dir2 dir3 name) as Hun.
  { intros name Hn. eapply untouched_trans; [|by apply Hother]. pose proof (logs_only_recover chosen recovery dir2 name Hn) as Hl. by rewrite Hrec in Hl. }
  assert (page_file_id (store_manifest store') = page_file_id chosen /\ manifest_page_count (store_manifest store') = manifest_page_count chosen) as [Eid En]
    by (by destruct Hlo as (? & ? & ? & ? & ->)).
  assert (manifest_page_count chosen * PAGE_SIZE <= stable (file (pages store'))) as Hst.
  { eapply opened_file; [exact Hop|exact Htr|lia|]. pose proof (survives_stable _ _ (Hpages _ Hg)). pose proof (choice_pages _ _ _ _ _ _ Hf). lia. }
  assert (entries dir3 !! CURRENT = Some f2 /\ settled dir3 CURRENT) as [E3 S3].
  { pose proof (Hun CURRENT ltac:(by intros [? ?])) as [E3 U3]. rewrite E3. split; [done|]. eapply untouched_settled; [by split|]. apply (crash_current _ _ Hcr). }
  assert (selects (revert dir3 f2) chosen3) as Hsel.
  { eapply selects_same; [| |exact Hsel3]; [|by apply held_revert]. rewrite held_reverted. unfold held. by rewrite E3. }
  assert (chosen3 = chosen) as ->.
  { eapply selects_unique; [exact Hsel3|]. eapply selects_same; [| |exact Hsel2]; apply untouched_held, Hun; by intros [? ?]. }
  destruct (durable_selected _ _ _ Hd3) as (chosen4 & Hsel4 & Hrec4). pose proof (selects_unique _ _ _ Hsel3 Hsel4) as <-.
  split.
  - eapply flushed_logs_le; [exact Hle| |exact Hrn|exact Hfln]. intros s cut. by apply last_cut_keeps; [apply continues_refl|].
  - rewrite Eid, (choice_file _ _ _ _ _ _ Hf). eapply untouched_settled; [apply Hun; by intros [? ?]|]. apply (crash_settled _ _ Hcr). apply (disk_file _ _ _ Hk).
  - by rewrite En.
  - intros b Hb. unfold bindings in Hb. unfold settled in S3. rewrite S3, E3 in Hb. apply list_elem_of_singleton in Hb as ->. exists f2, chosen, saved. split; [done|].
    pose proof (Hun (manifest_file (generation chosen)) ltac:(by intros [? ?])) as Hum. split; try done.
    + eapply untouched_settled; [exact Hum|]. apply (crash_settled _ _ Hcr). apply Hf.
    + intros g3. destruct Hum as [-> _]. intros Hg2. destruct (crash_settled_file _ _ _ _ Hcr (choice_settled _ _ _ _ _ _ Hf) Hg2) as (g0 & Hg0 & Hsv).
      rewrite closed_entries in Hg0 by done. unfold survives in Hsv. rewrite (choice_manifest _ _ _ _ _ _ Hf _ Hg0) in Hsv. by destruct Hsv.
    + eapply flushed_logs_le; [exact Hle| |exact Hrm|exact Hflc]. intros s cut. by apply last_cut_keeps.
Qed.

(** Whatever a crash leaves, a store that opens has the history and one of the
    checkpoints: the one that was selected, when CURRENT is what it was. *)
Lemma open_sound dir store records cs saved dir2 lease attaching recovery dir3 store' :
  sound dir store records cs saved -> crash (closed dir store) dir2 ->
  open_directory lease attaching recovery dir2 = (dir3, Ok store') ->
  exists more saved', sound dir3 store' (records ++ more) saved' saved' /\ (held dir2 CURRENT = held dir CURRENT -> saved' = saved).
Proof.
  intros Hs Hcr Ho. destruct (crash_choice _ _ _ _ _ _ Hs Hcr) as (f & f2 & chosen & saved1 & Hf & E2 & Ec & Eu & Hsame). destruct Hs as [Hc Hk].
  pose proof (crash_crashed _ _ _ _ _ _ _ _ Hcr (consistent_history _ _ _ _ _ Hc) Hk Hf E2 Ec) as Hcrd.
  destruct (crash_keeps_pages _ _ _ _ _ _ _ Hcr Hk Hf) as [Hp Hkp].
  pose proof (choice_consistent _ _ _ _ _ _ _ _ Hc Hf) as Hc1.
  destruct (open_consistent _ _ _ _ _ _ _ _ _ _ _ Hc1 Hcrd Hkp Ho) as [more Hc3]. exists more, saved1. split; [|done]. split; [done|].
  eapply (open_disk dir store records cs saved f f2 chosen saved1); done.
Qed.

(** What opening reads is there after a crash: a manifest that is selected,
    its log, valid in full, and its pages. *)
Record intact (dir2 : Directory) (store : Store) (chosen : Manifest) : Prop := {
  intact_selects : selects dir2 chosen;
  intact_logs : validate_logs (log_contents dir2) chosen = Ok tt;
  intact_pages : exists f, entries dir2 !! pages_file (page_file_id chosen) = Some f
    /\ keeps (manifest_page_count chosen * PAGE_SIZE) (contents (file (pages store))) (contents f)
    /\ manifest_page_count chosen * PAGE_SIZE <= len (contents f) }.

Lemma crash_intact dir store records cs saved dir2 :
  sound dir store records cs saved -> crash (closed dir store) dir2 -> exists chosen, intact dir2 store chosen.
Proof.
  intros Hs Hcr. destruct (crash_choice _ _ _ _ _ _ Hs Hcr) as (f & f2 & chosen & saved1 & Hf & E2 & Ec & _). destruct Hs as [[Hd _ _ _] Hk].
  pose proof (crash_crashed _ _ _ _ _ _ _ _ Hcr Hd Hk Hf E2 Ec) as Hcrd. pose proof (crashed_selects _ _ _ _ Hcrd (choice_selects _ _ _ _ _ _ Hf)) as Hsel.
  destruct (selects_typed _ _ Hsel) as [T Hv]. destruct (choice_recoverable _ _ _ _ _ _ Hf) as (rs & Hrs & _). exists chosen. split; [done| |].
  - eapply (log_records_valid dir2); [done|done|]. eapply (committed_records dir); [done| |exact Hrs]. eapply crash_keeps_committed; [exact Hcr|done|exact Hrs|apply Hf].
  - destruct (crash_settled_kept _ _ (pages_file (page_file_id chosen)) (file (pages store)) Hcr) as (g & Hg & Hsv).
    + rewrite (choice_file _ _ _ _ _ _ Hf). exact (disk_file _ _ _ Hk).
    + rewrite (choice_file _ _ _ _ _ _ Hf). unfold closed. cbn. by rewrite lookup_insert_eq.
    + exists g. split; [done|]. pose proof (survives_keeps _ _ _ Hsv (choice_pages _ _ _ _ _ _ Hf)) as Hkp. split; [done|].
      eapply keeps_len; [exact Hkp|]. pose proof (stable_le (file (pages store))). pose proof (choice_pages _ _ _ _ _ _ Hf). lia.
Qed.

(** The directory of a settled CURRENT keeps it. *)
Lemma crash_keeps_current dir store records cs saved dir2 :
  sound dir store records cs saved -> settled dir CURRENT -> crash (closed dir store) dir2 -> held dir2 CURRENT = held dir CURRENT.
Proof.
  intros Hs Hset Hcr. destruct (crash_choice _ _ _ _ _ _ Hs Hcr) as (_ & f2 & _ & _ & _ & E2 & _ & _ & _). destruct Hs as [_ Hk].
  destruct (crash_settled_file _ _ _ _ Hcr Hset E2) as (f & Hf & Hsv). rewrite closed_entries in Hf by done.
  destruct (disk_current _ _ _ Hk (entries dir !! CURRENT)) as (f0 & chosen & saved0 & E0 & Hch); [by left|]. rewrite Hf in E0. injection E0 as <-.
  unfold survives in Hsv. rewrite (choice_clean _ _ _ _ _ _ Hch) in Hsv. destruct Hsv as [Hc _]. unfold held. rewrite E2, Hf. cbn. by rewrite Hc.
Qed.
End Lifecycle.

(** * A new store

    Creation gives a store with the genesis policy, an empty history, and
    files that select it. *)
Section Creation.
Context `{Checksum} `{Sha256}.

(** ** The page file *)
Lemma header_len kind level tree page : header kind level tree = Ok page -> len page = PAGE_SIZE.
Proof.
  unfold header, set_byte. intros Hh. repeat (let p := fresh "p" in let E := fresh "E" in step_ok Hh as p eqn E; apply copy_at_len in E).
  apply copy_at_len in Hh. rewrite len_zeros in * by (rewrite page_size_value; lia). congruence.
Qed.

Lemma create_file_ok f database id f' p :
  Page.create f database id = (f', Ok p) -> file_wf p /\ page_count p = 1 /\ poisoned p = false.
Proof.
  unfold Page.create. intros Hc. destruct (Z.eqb_spec (len (contents f)) 0) as [He|]; cbn [negb] in Hc; [|done].
  destruct (let* page := header 0 0 0 in _) as [page|error|] eqn:Hp; [|done..].
  assert (len page = PAGE_SIZE) as Hlen.
  { step_ok Hp as p0 eqn E0. apply header_len in E0. step_ok Hp as p1 eqn E1. apply copy_at_len in E1. step_ok Hp as p2 eqn E2. apply copy_at_len in E2.
    step_ok Hp as p3 eqn E3. apply copy_at_len in E3. step_ok Hp as p4 eqn E4. apply copy_at_len in E4. unfold checksum in Hp. step_ok Hp as p5 eqn E5.
    apply copy_at_len in E5. apply copy_at_len in Hp. congruence. }
  destruct (write_all_at f page 0) as [f1 [u|error|]] eqn:Hw; [|done..]. injection Hc as <- <-. split; [|exact (conj eq_refl eq_refl)].
  apply write_all_at_ok in Hw; [|lia]. assert (page <> []) as Hne by (intros ->; by rewrite len_nil in Hlen).
  destruct (overwrite_here (contents f) 0 page ltac:(lia) Hne) as [_ Hlong]. rewrite <-Hw, Hlen in Hlong. pose proof page_size_value. pose proof max_pages_value.
  unfold file_wf, reader_wf. cbn. lia.
Qed.

(** The maps of a new store. *)
Definition created_contents (genesis : Genesis) : Contents := fun tree =>
  match tree with Policy => [(be_bytes 8 0, LimitPolicy_encode (initial_policy genesis))] | _ => [] end.

Lemma create_pages_ok genesis f pages root :
  policy_wf (initial_policy genesis) -> create_pages genesis f = Ok (pages, root) ->
  file_wf pages /\ poisoned pages = false /\ roots_hold (reader pages) [0; 0; root; 0; 0] (created_contents genesis).
Proof.
  intros Hpol Hc. unfold create_pages in Hc. step_ok Hc as p eqn Hp. destruct (Page.create f _ 1) as [f' r] eqn:Hcreate. cbn in Hp. subst r.
  apply create_file_ok in Hcreate as (W & _ & Hq).
  pose proof (runs_put Policy 0 (be_bytes 8 0) (LimitPolicy_encode (initial_policy genesis)) [] p
    (fun f root => tree_holds (reader f) Policy root [(be_bytes 8 0, LimitPolicy_encode (initial_policy genesis))]) W) as Hrun.
  unfold runs in Hrun. destruct (put _ _ _ _ p) as [p' r]. step_ok Hc as root' eqn Hr. apply ok_inj in Hc as [= <- <-]. subst r.
  assert (len (LimitPolicy_encode (initial_policy genesis)) = 140) as Hl.
  { unfold LimitPolicy_encode. autorewrite with blop. rewrite len_words. destruct Hpol as [Hl _]. unfold len. by rewrite Hl. }
  destruct Hrun as (W' & _ & Hq' & Hh); [by vm_compute|rewrite Hl; by vm_compute|done|intros f1 r1 _ _ Hh; exact Hh|].
  split; [done|]. split; [congruence|]. split; [done|]. intros []; (eexists; split; [reflexivity|]); [done|done|exact Hh|done|done].
Qed.

Lemma created_checkpoint genesis digest namespace count root :
  policy_wf (initial_policy genesis) -> checkpoint_ok genesis (first_manifest genesis digest namespace count root) (created_contents genesis).
Proof.
  intros Hpol. split; [|apply Forall_nil_2]. intros tree Ht. destruct tree; try (split; [apply Forall_nil_2|done]).
  split; [|done]. constructor; [|constructor]. split; [exists 0; split; [reflexivity|done]|].
  unfold valid_value. cbn [snd]. by rewrite (proj2 (LimitPolicy_decode_iff _ (initial_policy genesis))).
Qed.

(** ** The store *)
Definition created_store (genesis : Genesis) (m : Manifest) (p : PageFile) : Store :=
  {| pages := p; store_genesis := genesis; store_manifest := m; selected := m; store_roots := manifest_roots m;
     store_poisoned := false; rotate_next := false; read_only := false; runtime := None |}.

Lemma create_inv lease genesis namespace dir dir' store :
  create lease genesis namespace dir = (dir', Ok store) ->
  exists data f p root d, Genesis_encode genesis = Ok data /\ namespace <> zeros 16 /\ create_pages genesis f = Ok (p, root)
    /\ let m := first_manifest genesis (sha256 data) namespace (page_count p) root in
       publish_files (created_store genesis m p) m d = (dir', (store, Ok tt)).
Proof.
  unfold create. intros Hc. unfold bindD at 1, liftD at 1 in Hc. destruct (Genesis_encode genesis) as [data|error|] eqn:He; [|done..].
  destruct (bool_decide_reflect (namespace = zeros 16)) as [|Hns]; [done|].
  do 2 (unfold bindD at 1 in Hc; match type of Hc with match ?act with _ => _ end = _ => destruct act as [? [?|?|]]; [|done..] end).
  unfold bindD at 1, liftD at 1 in Hc. destruct lease; [|done..].
  unfold bindD at 1 in Hc. match type of Hc with match ?act with _ => _ end = _ => destruct act as [? [?|?|]]; [|done..] end.
  unfold bindD at 1 in Hc. match type of Hc with match ?act with _ => _ end = _ => destruct act as [? [[]|?|]]; [|done..] end. cbn [negb] in Hc.
  unfold bindD at 1, get_directory in Hc. unfold bindD at 1, liftD at 1 in Hc. destruct (expect _) as [f|error|]; [|done..].
  unfold bindD, liftD in Hc. destruct (create_pages genesis f) as [[p root]|error|] eqn:Hp; [|done..].
  set (m := first_manifest _ _ _ _ _) in Hc. match type of Hc with (let (_, _) := publish_files ?s m ?d in _) = _ => destruct (publish_files s m d) as [dp [sp [[]|error|]]] eqn:Hpub; [|done..] end. injection Hc as <- <-.
  eexists data, f, p, root, _. do 3 (split; [done|]). exact Hpub.
Qed.

Lemma first_manifest_typed genesis data namespace p root contents :
  len (genesis_database_id genesis) = 16 -> len namespace = 16 -> file_wf p -> roots_hold (reader p) [0; 0; root; 0; 0] contents ->
  manifest_typed (first_manifest genesis (sha256 data) namespace (page_count p) root).
Proof.
  intros Hid Hns W Hroots. pose proof (page_count_u64 _ W). pose proof (sha256_len data). pose proof (roots_typed _ _ _ (proj1 W) Hroots). by split; cbn.
Qed.

(** What [create] returns is sound: an empty history, the genesis policy, and
    files that select it. *)
Lemma create_sound lease genesis namespace dir dir' store :
  len (genesis_database_id genesis) = 16 -> policy_wf (initial_policy genesis) -> len namespace = 16 ->
  create lease genesis namespace dir = (dir', Ok store) ->
  sound dir' store [] (created_contents genesis) (created_contents genesis).
Proof.
  intros Hid Hpol Hns (data & f & p & root & d & He & Hz & Hp & Hpub)%create_inv. set (m := first_manifest _ _ _ _ _) in Hpub.
  apply create_pages_ok in Hp as (W & _ & Hroots); [|done].
  assert (manifest_typed m) as T by (by eapply first_manifest_typed).
  pose proof (publish_files_spec (created_store genesis m p) m d T) as Hspec. rewrite Hpub in Hspec. destruct Hspec as (_ & Hatt & f' & -> & Hsame).
  destruct (attempted_ok _ _ _ _ Hatt eq_refl) as (Hv & Hsel & _). pose proof (same_pages_reader _ _ Hsame) as Er. cbn [created_store pages] in Er.
  pose proof (proj1 (proj2 Hsame)) as Ec. cbn [created_store pages] in Ec.
  assert (forall files, log_of files m (window m [])) as Hlog by (intros files; exists []; by split).
  assert (roots_hold (reader f') (manifest_roots m) (created_contents genesis)) as Hroots' by by rewrite Er.
  assert (manifest_page_count m <= page_count f') as Hcount by (rewrite Ec; cbn; lia).
  pose proof (publish_files_disk (created_store genesis m p) m d) as Hdisk. rewrite Hpub in Hdisk. destruct Hdisk as (Hst & _ & _ & [[_ ?]|(Hflushed & Hrep & Hset)]); [done|].
  cbn [created_store set_pages pages] in Hst, Hflushed. specialize (Hset eq_refl).
  assert (manifest_page_count m * PAGE_SIZE <= stable (file f')) as Hstable.
  { eapply (pages_stable (created_store genesis m p)); [exact Hflushed|by apply (same_pages_wf p)|done|done|]. by intros [? ?]. }
  split; [split; [split; [exact T|exact Hv|done|apply Hlog|done|]| |cbn; lia|]|].
  - exists m. split; [done|]. exists (window m []). split; [apply Hlog|]. left. split; [apply continues_refl|done].
  - split; cbn [set_pages created_store pages store_roots store_manifest store_genesis runtime]; rewrite ?Er; [by apply (same_pages_wf p)|done|done|].
    exists (created_contents genesis). split; [done|by apply created_checkpoint].
  - exists m. cbn [set_pages created_store pages]. by rewrite Er, Ec in *.
  - assert (flushed_logs dir' m) as Hfl by (intros s Hs; by apply not_elem_of_nil in Hs). split; cbn [set_pages created_store pages store_manifest]; try done.
    + unfold settled. by rewrite Hset.
    + intros b Hb. unfold bindings in Hb. rewrite Hset, lookup_empty in Hb. apply list_elem_of_singleton in Hb as ->.
      destruct (replaced_choice _ _ _ _ _ (set_pages (created_store genesis m p) f') [] (created_contents genesis) T Hrep Hfl) as (fc & Hfc & Hch); try done; [|by exists fc, m, (created_contents genesis)].
      exists (window m []). split; [apply Hlog|]. left. split; [apply continues_refl|done].
Qed.

(** ** Every run of the system *)
(** A directory, the store open on it, and the views its owner has. *)
Record System : Type := { sys_dir : Directory; sys_store : Store; sys_views : list PageView }.

(** No two records in the files of the log have one digest. *)
Definition no_collision (dir : Directory) : Prop :=
  forall m m' rs rs', log_records dir m rs -> log_records dir m' rs' -> ~ clash rs rs'.

(** One call of the owner that selects nothing. *)
Inductive owner_step (sys : System) : System -> Prop :=
| sys_batch changes :
    owner_step sys {| sys_dir := sys_dir sys; sys_store := (apply (sys_store sys) changes).1; sys_views := sys_views sys |}
| sys_pin : owner_step sys {| sys_dir := sys_dir sys; sys_store := sys_store sys; sys_views := view (sys_store sys) :: sys_views sys |}
| sys_prepare sequence store' r :
    sequence <= u64_max -> prepare_checkpoint (sys_store sys) sequence = (store', r) ->
    owner_step sys {| sys_dir := sys_dir sys; sys_store := store'; sys_views := match r with Ok v => v :: sys_views sys | _ => sys_views sys end |}
| sys_append new dir' store' r :
    append_wal (sys_store sys) new (sys_dir sys) = (dir', (store', r)) ->
    owner_step sys {| sys_dir := dir'; sys_store := store'; sys_views := sys_views sys |}.

(** One call of the owner, or a crash and a restart that succeeds. *)
Inductive sys_step (sys : System) : System -> Prop :=
| sys_owner sys' : owner_step sys sys' -> sys_step sys sys'
| sys_publish v given dir' store' r :
    v ∈ sys_views sys -> manifest_typed given -> no_collision (sys_dir sys) ->
    publish true (sys_store sys) v given (sys_dir sys) = (dir', (store', r)) ->
    sys_step sys {| sys_dir := dir'; sys_store := store'; sys_views := sys_views sys |}
| sys_restart dir2 lease attaching recovery dir3 store' :
    crash (closed (sys_dir sys) (sys_store sys)) dir2 ->
    open_directory lease attaching recovery dir2 = (dir3, Ok store') ->
    sys_step sys {| sys_dir := dir3; sys_store := store'; sys_views := [] |}.

(** The history is [records], and the files select [saved]. *)
Definition sys_holds (sys : System) (records : list bytes) (saved : Contents) : Prop :=
  (exists contents, sound (sys_dir sys) (sys_store sys) records contents saved)
  /\ Forall (fun v => exists held, view_ok (sys_store sys) v held) (sys_views sys).

Definition sys_sound (sys : System) (records : list bytes) : Prop := exists saved, sys_holds sys records saved.

Lemma views_later store store' views :
  file_wf (pages store) -> reader_le (reader (pages store)) (reader (pages store')) -> store_genesis store' = store_genesis store ->
  Forall (fun v => exists held, view_ok store v held) views -> Forall (fun v => exists held, view_ok store' v held) views.
Proof.
  intros W Hle Eg Hv. eapply Forall_impl; [exact Hv|]. intros v (held & [V1 V2 V3 V4]). exists held. split; [done| |by rewrite Eg|done].
  by eapply reader_le_trans.
Qed.

Lemma view_of_store store contents : store_holds store contents -> view_ok store (view store) contents.
Proof. intros Hh. pose proof (view_proofs _ _ Hh). destruct Hh as [W R _ _]. split; [apply W|apply reader_le_refl|done|done]. Qed.

Lemma publish_pages owner dir store v given dir' store' r :
  0 <= generation (store_manifest store) -> (forall g, is_u64 g -> manifest_typed (completed store v given g)) ->
  publish owner store v given dir = (dir', (store', r)) ->
  reader (pages store') = reader (pages store) /\ store_genesis store' = store_genesis store.
Proof.
  intros Hg Hty Hp. apply publish_inv in Hp as [(_ & _ & ->)|(_ & _ & g & proofs & logs & f & _ & Hsame & _ & _ & ->)]; [done| |done|done].
  apply same_pages_reader in Hsame. by destruct r.
Qed.

Lemma append_pages store new dir dir' store' r :
  append_wal store new dir = (dir', (store', r)) -> pages store' = pages store /\ store_genesis store' = store_genesis store.
Proof.
  unfold append_wal. destruct (writable store); [|by intros [= _ <- _]..]. destruct (append_group store new dir) as [d [[s digest]|error|]] eqn:Ha; [|by intros [= _ <- _]..].
  intros [= _ <- _]. unfold append_group, bindD, liftD, okD in Ha. destruct (batch_of _ _) as [b|error|]; [|done..]. destruct (append_files store b dir) as [d' [next|error|]]; [|done..].
  repeat match type of Ha with context [match ?x with _ => _ end] => destruct x; try done end; by injection Ha as _ <- _.
Qed.

Lemma append_step_sound sys new dir' store' r records saved :
  sys_holds sys records saved -> append_wal (sys_store sys) new (sys_dir sys) = (dir', (store', r)) ->
  sys_holds {| sys_dir := dir'; sys_store := store'; sys_views := sys_views sys |}
    (match r with Ok _ => records ++ map snd new | _ => records end) saved.
Proof.
  intros ((contents & Hs) & Hv) Ha. pose proof (holds_file _ _ (sound_store _ _ _ _ _ Hs)) as W.
  pose proof (append_sound _ _ new _ _ _ Hs) as Hb. rewrite Ha in Hb. destruct Hb as [_ Hb]. pose proof (append_pages _ _ _ _ _ _ Ha) as [Ep Eg].
  split; [by eexists|]. eapply views_later; [exact W| |exact Eg|exact Hv]. cbn. rewrite Ep. apply reader_le_refl.
Qed.

Lemma owner_step_sound sys sys' records saved :
  sys_holds sys records saved -> owner_step sys sys' -> exists more, sys_holds sys' (records ++ more) saved.
Proof.
  intros Hsys Hstep. pose proof Hsys as ((contents & Hs) & Hv). pose proof (sound_store _ _ _ _ _ Hs) as Hh. pose proof (holds_file _ _ Hh) as W.
  destruct Hstep as [changes| |sequence store' r Hmax Hp|new dir' store' r Ha].
  - exists []. rewrite app_nil_r. pose proof (apply_sound _ _ changes _ _ _ Hs) as Hb. pose proof (apply_spec _ _ changes Hh) as Hspec.
    pose proof (apply_quiet (sys_store sys) changes) as (_ & _ & _ & Eg). unfold sys_holds; cbn.
    destruct (apply (sys_store sys) changes) as [s' r]. destruct Hb as [_ Hb]. split; [by eexists|]. cbn in Eg.
    eapply views_later; [exact W| |exact Eg|exact Hv]. apply le_reader. by destruct r; [apply Hspec..|].
  - exists []. rewrite app_nil_r. split; [by eexists|]. constructor; [|done]. exists contents. by apply view_of_store.
  - exists []. rewrite app_nil_r. pose proof (prepare_sound _ _ sequence _ _ _ Hs Hmax) as Hb. pose proof (prepare_quiet (sys_store sys) sequence) as (_ & _ & _ & Eg).
    pose proof (prepare_spec _ _ sequence Hh) as Hspec. unfold preparation in Hspec. rewrite Hp in Hb, Eg, Hspec. destruct Hb as (_ & Hb & Hview). cbn in Eg.
    destruct Hspec as (Hle & _); [pose proof (typed_checkpoint _ (durable_typed _ _ _ (sound_history _ _ _ _ _ Hs))) as [? _]; lia|done|].
    pose proof (views_later _ _ _ W (le_reader _ _ Hle) Eg Hv) as Hv'. split; [by eexists|]. destruct r as [v|error|]; [|done..]. constructor; [|done].
    eexists. by apply Hview.
  - pose proof (append_step_sound _ _ _ _ _ _ _ Hsys Ha) as Hb. destruct r; [by exists (map snd new)|exists []; by rewrite app_nil_r..].
Qed.

Lemma publish_step_sound sys v given dir' store' r records saved :
  sys_holds sys records saved -> v ∈ sys_views sys -> manifest_typed given -> no_collision (sys_dir sys) ->
  publish true (sys_store sys) v given (sys_dir sys) = (dir', (store', r)) ->
  exists more held saved', view_ok (sys_store sys) v held /\ (r = Ok tt -> saved' = held /\ settled dir' CURRENT)
    /\ sys_holds {| sys_dir := dir'; sys_store := store'; sys_views := sys_views sys |} (records ++ more) saved'.
Proof.
  intros ((contents & Hs) & Hv) Hin Tg Hno Hp. pose proof (holds_file _ _ (sound_store _ _ _ _ _ Hs)) as W.
  rewrite Forall_forall in Hv. pose proof (Hv _ Hin) as [held Hview]. rewrite <-Forall_forall in Hv.
  pose proof (publish_sound true _ _ _ _ _ _ _ _ Hs Hview Tg) as Hb. rewrite Hp in Hb.
  destruct Hb as [(more & saved' & Hb & Hres)|(g & rs' & Hl & Hc & _)]; [|exfalso; eapply Hno; [apply Hs|exact Hl|exact Hc]].
  pose proof (sound_history _ _ _ _ _ Hs) as Hd. pose proof (durable_typed _ _ _ Hd) as T.
  apply publish_pages in Hp as [Er Eg]; [|apply (typed_generation _ T)|intros g Hg; by eapply completed_typed].
  exists more, held, saved'. split; [done|]. split; [by intros ->|]. split; [by eexists|]. eapply views_later; [exact W| |exact Eg|exact Hv]. cbn. rewrite Er. apply reader_le_refl.
Qed.

Lemma restart_step_sound sys dir2 lease attaching recovery dir3 store' records saved :
  sys_holds sys records saved -> crash (closed (sys_dir sys) (sys_store sys)) dir2 ->
  open_directory lease attaching recovery dir2 = (dir3, Ok store') ->
  exists more saved', sound dir3 store' (records ++ more) saved' saved' /\ (held dir2 CURRENT = held (sys_dir sys) CURRENT -> saved' = saved).
Proof. intros ((contents & Hs) & _) Hcr Ho. exact (open_sound _ _ _ _ _ _ _ _ _ _ _ Hs Hcr Ho). Qed.

Lemma sys_step_sound sys sys' records : sys_sound sys records -> sys_step sys sys' -> exists more, sys_sound sys' (records ++ more).
Proof.
  intros (saved & Hs) Hstep. destruct Hstep as [sys' Hstep|v given dir' store' r Hin Tg Hno Hp|dir2 lease attaching recovery dir3 store' Hcr Ho].
  - destruct (owner_step_sound _ _ _ _ Hs Hstep) as [more Hm]. exists more. by exists saved.
  - destruct (publish_step_sound _ _ _ _ _ _ _ _ Hs Hin Tg Hno Hp) as (more & held & saved' & _ & _ & Hm). exists more. by exists saved'.
  - destruct (restart_step_sound _ _ _ _ _ _ _ _ _ Hs Hcr Ho) as (more & saved' & Hm & _). exists more, saved'. split; [by eexists|constructor].
Qed.

(** Whatever calls fail and whenever a crash comes, no record of the history is lost. *)
Lemma sys_steps_sound sys sys' records : rtc sys_step sys sys' -> sys_sound sys records -> exists more, sys_sound sys' (records ++ more).
Proof.
  intros Hs. revert records. induction Hs as [sys|a b c Hab _ IH]; intros records Hr; [exists []; by rewrite app_nil_r|].
  destruct (sys_step_sound _ _ _ Hr Hab) as [more Hm]. destruct (IH _ Hm) as [more' Hm']. exists (more ++ more'). by rewrite app_assoc.
Qed.

(** Only publications unsettle CURRENT. *)
Lemma owner_steps_settled sys sys' : rtc owner_step sys sys' -> settled (sys_dir sys) CURRENT -> settled (sys_dir sys') CURRENT.
Proof.
  intros Hs. induction Hs as [sys|a b c Hab _ IH]; intros Hset; [done|]. apply IH. destruct Hab as [changes| |sequence store' r Hmax Hp|new dir' store' r Ha]; try done.
  pose proof (append_wal_untouched (sys_store a) new (sys_dir a) CURRENT ltac:(by intros [? ?])) as Hu. rewrite Ha in Hu. by eapply untouched_settled.
Qed.

Lemma owner_steps_sound sys sys' records saved :
  rtc owner_step sys sys' -> sys_holds sys records saved -> exists more, sys_holds sys' (records ++ more) saved.
Proof.
  intros Hs. revert records. induction Hs as [sys|a b c Hab _ IH]; intros records Hr; [exists []; by rewrite app_nil_r|].
  destruct (owner_step_sound _ _ _ _ Hr Hab) as [more Hm]. destruct (IH _ Hm) as [more' Hm']. exists (more ++ more'). by rewrite app_assoc.
Qed.
End Creation.
