(* ===== verification/MvccFacts.v ===== *)
(** * Facts about versioned state

    The state-key codec and order, and the two snapshot reads against the
    specification [row]: the newest version of an address at or before a
    sequence, a tombstone meaning absence. *)
From S2P Require Import Prelude OrdMap Errors Bytes Value Encoding EncodingFacts Storage Mvcc.
From Stdlib Require Import Sorted.

(** ** State keys *)
Record state_key_wf (k : StateKey) : Prop := {
  wf_table : 0 < state_table k < u64_max;
  wf_key : len (state_key k) <= MAX_KEY_BYTES;
  wf_sequence : state_table k < state_sequence k < u64_max }.

Lemma check_snapshot_ok table sequence u :
  check_snapshot table sequence = Ok u <-> table <> 0 /\ table <> u64_max /\ sequence <> u64_max.
Proof.
  unfold check_snapshot. destruct u, (Z.eqb_spec table 0), (Z.eqb_spec table u64_max),
    (Z.eqb_spec sequence u64_max); simpl; naive_solver.
Qed.

Lemma check_user_key_ok key u : check_user_key key = Ok u <-> len key <= MAX_KEY_BYTES.
Proof.
  unfold check_user_key. destruct u, (len key >? MAX_KEY_BYTES) eqn:E; (split; [intros H|]); try done; blia.
Qed.

Lemma StateKey_new_ok table key sequence k :
  0 <= table <= u64_max -> 0 <= sequence <= u64_max ->
  StateKey_new table key sequence = Ok k <->
  k = {| state_table := table; state_key := key; state_sequence := sequence |} /\ state_key_wf k.
Proof.
  intros Ht Hs. unfold StateKey_new. rewrite bindR_ok. setoid_rewrite bindR_ok.
  setoid_rewrite check_snapshot_ok. setoid_rewrite check_user_key_ok. split.
  - intros (u1 & (? & ? & ?) & u2 & ? & Hk). step_if Hk. injection Hk as <-.
    split; [done|]. split; simpl; blia.
  - intros [-> [H1 H2 H3]]. simpl in *. exists tt. split; [lia|]. exists tt. split; [done|].
    destruct (Z.leb_spec sequence table); [lia|done].
Qed.

Lemma not_u64_involutive z : not_u64 (not_u64 z) = z.
Proof. unfold not_u64. lia. Qed.
Lemma not_u64_range z : 0 <= z <= u64_max -> 0 <= not_u64 z < 256 ^ 8.
Proof. unfold not_u64, u64_max. change (256 ^ 8) with 18446744073709551616. lia. Qed.
Lemma u64_bytes z : 0 <= z <= u64_max -> 0 <= z < 256 ^ 8.
Proof. unfold u64_max. change (256 ^ 8) with 18446744073709551616. lia. Qed.

Lemma seek_key_app table key sequence :
  seek_key table key sequence = be_bytes 8 table ++ escape key ++ be_bytes 8 (not_u64 sequence).
Proof. unfold seek_key, address_prefix, escape_into. by rewrite <-app_assoc. Qed.

Lemma len_seek_key table key sequence : len (seek_key table key sequence) = 16 + len (escape key).
Proof. rewrite seek_key_app. autorewrite with blop. lia. Qed.

(** A state key is its three slices. *)
Lemma slices_cover {E} (data a b c : bytes) :
  slice_at (E:=E) data 0 8 = Ok a -> slice_at (E:=E) data 8 (len data - 8) = Ok b ->
  slice_at (E:=E) data (len data - 8) (len data) = Ok c ->
  data = a ++ b ++ c /\ len a = 8 /\ len c = 8.
Proof.
  intros (l1 & r1 & E1 & L1 & T1)%slice_at_cut (l2 & r2 & E2 & L2 & T2)%slice_at_cut
    (l3 & r3 & E3 & L3 & T3)%slice_at_cut.
  assert (forall l : bytes, len l = 0 -> l = []) as Hnil.
  { intros [|x l] Hl; [done|]. autorewrite with blop in Hl. pose proof (len_nonneg l). lia. }
  assert (l1 = []) as -> by by apply Hnil.
  assert (len data = len l3 + len c + len r3) as L by (rewrite E3 at 1; autorewrite with blop; lia).
  assert (r3 = []) as -> by (apply Hnil; lia). rewrite app_nil_r in E3. simpl in E1.
  assert (l2 = a) as ->.
  { rewrite E1 in E2. apply app_inj_1 in E2 as [-> _]; [done|unfold len in *; lia]. }
  assert (len data = len a + len b + len r2) as L' by (rewrite E2 at 1; autorewrite with blop; lia).
  assert (r2 = c) as ->; [|split; [done|lia]].
  rewrite E2, app_assoc in E3. apply app_inj_2 in E3 as [_ ->]; [done|unfold len in *; lia].
Qed.

Lemma slices_of (a b c : bytes) {E} :
  len a = 8 -> len c = 8 ->
  let data := a ++ b ++ c in
  slice_at (E:=E) data 0 8 = Ok a /\ slice_at (E:=E) data 8 (len data - 8) = Ok b /\
  slice_at (E:=E) data (len data - 8) (len data) = Ok c.
Proof.
  intros Ha Hc data. assert (len data = 8 + len b + 8) as L by (unfold data; autorewrite with blop; lia).
  split; [|split].
  - apply (slice_at_app [] a (b ++ c)); autorewrite with blop; lia.
  - apply slice_at_app; lia.
  - pose proof (slice_at_app (E:=E) (a ++ b) c []) as S3. rewrite app_nil_r, <-app_assoc in S3.
    apply S3; autorewrite with blop; lia.
Qed.

Lemma StateKey_decode_inv encoded k :
  StateKey_decode encoded = Ok k -> StateKey_encode k = encoded /\ state_key_wf k.
Proof.
  unfold StateKey_decode. intros H. step_if H eqn El. step_ok H as table eqn Ht.
  step_ok H as frame eqn Hf. step_ok H as [key consumed] eqn Hu. step_if H eqn Ec.
  step_ok H as version eqn Hv. apply unescape_inv in Hu as (rest & -> & ->).
  apply negb_false_iff, Z.eqb_eq in Ec. assert (rest = []) as ->.
  { autorewrite with blop in Ec. destruct rest; [done|]. autorewrite with blop in Ec.
    pose proof (len_nonneg rest). lia. }
  rewrite app_nil_r in Hf. destruct (slices_cover _ _ _ _ Ht Hf Hv) as (He & L1 & L2).
  pose proof (from_be_range table) as Rt. pose proof (from_be_range version) as Rv.
  rewrite L1 in Rt. rewrite L2 in Rv. change (256 ^ 8) with (u64_max + 1) in *.
  apply StateKey_new_ok in H as [-> Hwf]; [|lia|unfold not_u64; lia]. split; [|done].
  unfold StateKey_encode. rewrite seek_key_app. cbn [state_table state_key state_sequence].
  rewrite not_u64_involutive, !be_bytes_from_be by (unfold len in *; lia). done.
Qed.

Lemma StateKey_decode_iff encoded k :
  StateKey_decode encoded = Ok k <-> StateKey_encode k = encoded /\ state_key_wf k.
Proof.
  split; [apply StateKey_decode_inv|]. intros [<- Hwf]. pose proof Hwf as [H1 H2 H3].
  pose proof (len_escape (state_key k)) as Hle. pose proof (len_nonneg (state_key k)).
  unfold StateKey_decode, StateKey_encode. rewrite len_seek_key.
  unfold MAX_STATE_KEY_BYTES, MAX_KEY_BYTES in *. rewrite !(proj2 (Z.leb_le _ _)) by lia. cbn [negb andb].
  rewrite <-len_seek_key with (table := state_table k) (sequence := state_sequence k), seek_key_app.
  destruct (slices_of (be_bytes 8 (state_table k)) (escape (state_key k))
    (be_bytes 8 (not_u64 (state_sequence k))) (E:=StorageError)) as (-> & -> & ->);
    [apply len_be_bytes..|]. cbn [bindR].
  pose proof (unescape_escape (state_key k) []) as U. rewrite app_nil_r in U. rewrite U. cbn [bindR].
  rewrite Z.eqb_refl. cbn [negb bindR].
  rewrite (from_be_bytes_small 8 (state_table k)) by (apply u64_bytes; lia).
  rewrite from_be_bytes_small by (apply not_u64_range; lia).
  rewrite not_u64_involutive. apply StateKey_new_ok; [lia..|]. by destruct k.
Qed.

Lemma StateKey_encode_inj k1 k2 :
  state_key_wf k1 -> state_key_wf k2 -> StateKey_encode k1 = StateKey_encode k2 -> k1 = k2.
Proof.
  intros H1 H2 He. assert (StateKey_decode (StateKey_encode k1) = Ok k1) as D1 by by apply StateKey_decode_iff.
  assert (StateKey_decode (StateKey_encode k2) = Ok k2) as D2 by by apply StateKey_decode_iff.
  congruence.
Qed.

(** ** State values *)
Definition state_value (payload : option bytes) : StateValue :=
  match payload with Some value => Put value | None => StateDelete end.

Lemma value_payload_iff encoded payload :
  value_payload encoded = Ok payload <-> StateValue_encode (state_value payload) = Ok encoded.
Proof.
  unfold value_payload. destruct (bool_decide_reflect (encoded = [x00])) as [->|Hne].
  { destruct payload as [v|]; simpl; [|done]. destruct (_ >? _); done. }
  split.
  - intros H. step_if H eqn E1. step_ok H as field eqn Hf. step_if H eqn E2. injection H as <-.
    apply orb_false_iff in E1 as [E1 E3]. apply negb_false_iff, bool_decide_eq_true in E3.
    destruct encoded as [|tag data]; [done|]. injection E3 as ->.
    apply slice_at_cut in Hf as (l & r & E4 & L1 & L2).
    assert (exists t, l = [t]) as [t ->].
    { destruct l as [|t [|]]; [..|]; autorewrite with blop in L1; [lia|by exists t|].
      pose proof (len_nonneg l). lia. }
    injection E4 as <- ->. bsimp. simpl. autorewrite with blop in *.
    assert (length field = 4%nat) as L4 by (unfold len in L2; lia).
    rewrite drop_app, L4, drop_ge by lia. simpl.
    assert (from_le field = len r) as Hlen by (unfold len in *; lia).
    replace (1 + (len field + len r) - 5) with (len r) in * by lia.
    change (drop 0 r) with r. rewrite gtb_false by (unfold MAX_VALUE_BYTES in *; lia). rewrite <-Hlen.
    by rewrite le_bytes_from_le.
  - destruct payload as [v|]; simpl; [|intros [= <-]; done]. intros H. step_if H eqn E. injection H as <-.
    pose proof (len_nonneg v). autorewrite with blop.
    rewrite (proj2 (Z.ltb_ge _ _)) by lia. simpl.
    rewrite (slice_at_app [x01] (le_bytes 4 (len v)) v) by (autorewrite with blop; lia). simpl.
    rewrite from_le_bytes_small by (unfold MAX_VALUE_BYTES in *; change (256 ^ Z.of_nat 4) with 4294967296; blia).
    rewrite E, (proj2 (Z.eqb_eq _ _)) by lia. simpl.
    rewrite drop_app, length_le_bytes, drop_ge by (rewrite length_le_bytes; lia). done.
Qed.

(** ** The order of state keys: table, row key, then newest version first *)
Lemma cmp_be_u64 a b : 0 <= a <= u64_max -> 0 <= b <= u64_max -> cmp (be_bytes 8 a) (be_bytes 8 b) = cmp a b.
Proof. intros. apply cmp_be_bytes; by apply u64_bytes. Qed.

Lemma cmp_not_u64 a b : cmp (not_u64 a) (not_u64 b) = cmp b a.
Proof.
  unfold cmp, Z_cmp, not_u64. destruct (Z.compare_spec b a), (Z.compare_spec (u64_max - a) (u64_max - b)); lia || done.
Qed.

Lemma cmp_be_app a b r1 r2 :
  0 <= a <= u64_max -> 0 <= b <= u64_max ->
  cmp (be_bytes 8 a ++ r1) (be_bytes 8 b ++ r2) = lex (cmp a b) (cmp r1 r2).
Proof. intros. by rewrite cmp_app_eq_len, cmp_be_u64 by by rewrite ?length_be_bytes. Qed.

Lemma cmp_seek_key t1 k1 s1 t2 k2 s2 :
  0 <= t1 <= u64_max -> 0 <= t2 <= u64_max -> 0 <= s1 <= u64_max -> 0 <= s2 <= u64_max ->
  cmp (seek_key t1 k1 s1) (seek_key t2 k2 s2) = lex (cmp t1 t2) (lex (cmp k1 k2) (cmp s2 s1)).
Proof.
  intros. rewrite !seek_key_app, cmp_be_app, cmp_escape by done.
  pose proof (not_u64_range s1). pose proof (not_u64_range s2).
  by rewrite cmp_be_u64, cmp_not_u64 by (unfold u64_max in *; change (256 ^ 8) with 18446744073709551616 in *; lia).
Qed.

(** The end of an address: above every version, below every longer key. *)
Lemma escape_snoc key : exists body, escape key = body ++ [x00; x00] /\ set_last (escape key) x01 = body ++ [x00; x01].
Proof.
  assert (exists body, escape key = body ++ [x00; x00]) as [body Hb].
  { induction key as [|b key [body IH]]; [by exists []|]. simpl. rewrite IH.
    exists (b :: (if byte_eq_dec b x00 then [xff] else []) ++ body). by rewrite app_comm_cons, app_assoc. }
  exists body. split; [done|]. unfold set_last. rewrite Hb, length_app. simpl.
  replace (pred (length body + 2)) with (length (body ++ [x00])) by (rewrite length_app; simpl; lia).
  change [x00; x00] with ([x00] ++ [x00]). by rewrite app_assoc, take_app_length, <-app_assoc.
Qed.

Lemma cmp_after_escape a : forall b r,
  cmp (set_last (escape a) x01) (escape b ++ r) = match cmp a b with Eq => Gt | c => c end.
Proof.
  induction a as [|x a IH]; intros b r.
  - destruct b as [|y b]; [done|]. change (set_last (escape []) x01) with [x00; x01]. cbn [escape app].
    rewrite cmp_cons. destruct (byte_eq_dec y x00) as [->|Hy]; [done|]. by rewrite cmp_x00.
  - assert (set_last (escape (x :: a)) x01 = x :: (if byte_eq_dec x x00 then [xff] else []) ++ set_last (escape a) x01) as ->.
    { destruct (escape_snoc a) as (body & Hb & ->). destruct (escape_snoc (x :: a)) as (body' & Hb' & ->).
      simpl in Hb'. rewrite Hb in Hb'.
      change (body' ++ [x00; x00]) with (body' ++ [x00] ++ [x00]) in Hb'.
      replace (body ++ [x00; x00]) with ((body ++ [x00]) ++ [x00]) in Hb' by by rewrite <-app_assoc.
      rewrite !app_assoc, app_comm_cons in Hb'. apply app_inj_tail in Hb' as [Hb' _].
      change [x00; x01] with ([x00] ++ [x01]). rewrite !app_assoc, <-Hb'. reflexivity. }
    destruct b as [|y b]; simpl; rewrite cmp_cons.
    + destruct (byte_eq_dec x x00) as [->|Hx]; [done|]. by rewrite (cmp_antisym x00 x), cmp_x00.
    + rewrite (cmp_cons x y a b). destruct (cmp x y) eqn:E; simpl; try done.
      apply cmp_eq in E as ->. rewrite <-app_assoc, cmp_app_same. apply IH.
Qed.

Lemma after_key_app table key : after_key table key = be_bytes 8 table ++ set_last (escape key) x01.
Proof.
  unfold after_key, address_prefix, escape_into, set_last. pose proof (len_escape key) as Hl.
  pose proof (len_nonneg key). unfold len in *. rewrite length_app, length_be_bytes.
  rewrite take_app_ge by (rewrite length_be_bytes; lia). rewrite length_be_bytes, <-app_assoc. do 3 f_equal. lia.
Qed.

(** ** The specification of a snapshot read *)

(** The versions of an address at or before a sequence. *)
Definition version_at (table : Z) (key : bytes) (sequence : Z) (e : Entry) : option (Z * option bytes) :=
  match StateKey_decode e.1, value_payload e.2 with
  | Ok k, Ok payload =>
      if (state_table k =? table) && bool_decide (state_key k = key) && (state_sequence k <=? sequence)
      then Some (state_sequence k, payload) else None
  | _, _ => None
  end.
Definition versions_at (table : Z) (key : bytes) (sequence : Z) (entries : list Entry) : list (Z * option bytes) :=
  omap (version_at table key sequence) entries.

(** The version with the greatest sequence. *)
Fixpoint latest {A} (versions : list (Z * A)) : option (Z * A) :=
  match versions with
  | [] => None
  | v :: versions =>
      match latest versions with
      | Some w => if v.1 <? w.1 then Some w else Some v
      | None => Some v
      end
  end.

(** The row of an address at a sequence: its newest version's payload. *)
Definition row (entries : list Entry) (table : Z) (key : bytes) (sequence : Z) : option bytes :=
  match latest (versions_at table key sequence entries) with
  | Some (_, payload) => payload
  | None => None
  end.

(** Every entry of the state tree is a versioned row. *)
Definition state_entry (e : Entry) : Prop :=
  exists k payload, StateKey_decode e.1 = Ok k /\ value_payload e.2 = Ok payload.

Lemma state_entry_key (e : Entry) k : StateKey_decode e.1 = Ok k ->
  e.1 = seek_key (state_table k) (state_key k) (state_sequence k) /\ state_key_wf k.
Proof. intros [<- ?]%StateKey_decode_iff. done. Qed.

(** Versions of one address come newest first. *)
Lemma cmp_entries (e1 e2 : Entry) k1 k2 :
  StateKey_decode e1.1 = Ok k1 -> StateKey_decode e2.1 = Ok k2 ->
  cmp e1.1 e2.1 = lex (cmp (state_table k1) (state_table k2))
    (lex (cmp (state_key k1) (state_key k2)) (cmp (state_sequence k2) (state_sequence k1))).
Proof.
  intros [-> [? ? ?]]%state_entry_key [-> [? ? ?]]%state_entry_key. apply cmp_seek_key; lia.
Qed.

Lemma version_at_Some table key sequence e s payload :
  version_at table key sequence e = Some (s, payload) <->
  s <= sequence /\ StateKey_decode e.1 = Ok {| state_table := table; state_key := key; state_sequence := s |} /\
  value_payload e.2 = Ok payload.
Proof.
  unfold version_at. split.
  - destruct (StateKey_decode e.1) as [[t k s']| |]; [|done..]. destruct (value_payload e.2); [|done..]. simpl.
    destruct (Z.eqb_spec t table) as [->|]; [|done]. destruct (bool_decide_reflect (k = key)) as [->|]; [|done].
    simpl. destruct (Z.leb_spec s' sequence); [|done]. by intros [= -> ->].
  - intros (Hs & -> & ->). simpl. rewrite Z.eqb_refl, bool_decide_eq_true_2, (proj2 (Z.leb_le _ _)) by done. done.
Qed.

Lemma versions_newest_first table key sequence entries :
  bt_sorted entries ->
  StronglySorted (fun v w : Z * option bytes => w.1 < v.1) (versions_at table key sequence entries).
Proof.
  induction 1 as [|e entries Hs IH Hf]; simpl; [constructor|].
  destruct (version_at table key sequence e) as [[s payload]|] eqn:Hv; [|done]. constructor; [done|].
  apply version_at_Some in Hv as (_ & Hk & _). rewrite Forall_forall in Hf. apply Forall_forall.
  intros [s' payload'] (e' & He' & Hv')%list_elem_of_omap. apply version_at_Some in Hv' as (_ & Hk' & _).
  specialize (Hf _ He'). unfold key_lt in Hf. rewrite (cmp_entries e e' _ _ Hk Hk') in Hf. simpl in *.
  rewrite !cmp_refl in Hf. simpl in Hf. unfold cmp, Z_cmp in Hf. by apply Z.compare_lt_iff in Hf.
Qed.

Lemma latest_sorted {A} (versions : list (Z * A)) :
  StronglySorted (fun v w => w.1 < v.1) versions -> latest versions = head versions.
Proof.
  induction 1 as [|v versions Hs IH Hf]; simpl; [done|]. rewrite IH.
  destruct versions as [|w versions]; simpl; [done|]. inversion Hf; subst.
  destruct (Z.ltb_spec v.1 w.1); [lia|done].
Qed.

Lemma row_head entries table key sequence :
  bt_sorted entries ->
  row entries table key sequence =
  match versions_at table key sequence entries with (_, payload) :: _ => payload | [] => None end.
Proof.
  intros Hs. unfold row. rewrite latest_sorted by by apply versions_newest_first.
  by destruct (versions_at _ _ _ _) as [|[]].
Qed.

(** ** The point read *)

(** The first entry at or above the seek key carries the visible version. *)
Lemma seek_row table key sequence entries :
  0 <= table <= u64_max -> 0 <= sequence <= u64_max -> bt_sorted entries -> Forall state_entry entries ->
  match List.find (fun e => cmp_le (seek_key table key sequence) e.1) entries with
  | None => versions_at table key sequence entries = []
  | Some e => exists k payload, StateKey_decode e.1 = Ok k /\ value_payload e.2 = Ok payload /\
      if decide (state_table k = table /\ state_key k = key)
      then state_sequence k <= sequence /\ row entries table key sequence = payload
      else versions_at table key sequence entries = []
  end.
Proof.
  intros Ht Hseq Hs Hwf. rewrite (row_head entries) by done.
  induction Hs as [|e entries Hs IH Hf]; simpl; [done|].
  inversion Hwf as [|?? He Hwf']; subst. specialize (IH Hwf'). pose proof He as (k & payload & Hk & Hp).
  pose proof (state_entry_key _ _ Hk) as [Hke [W1 W2 W3]].
  destruct (cmp_le (seek_key table key sequence) e.1) eqn:Hle.
  - exists k, payload. split; [done|]. split; [done|]. rewrite Hke in Hle. unfold cmp_le in Hle.
    rewrite cmp_seek_key in Hle by lia. case_decide as Hd.
    + destruct Hd as [Et Ek]. rewrite Et, Ek, !cmp_refl in Hle. simpl in Hle.
      assert (state_sequence k <= sequence) as Hle2.
      { unfold cmp, Z_cmp in Hle. destruct (Z.compare_spec (state_sequence k) sequence); try lia; done. }
      split; [done|]. assert (version_at table key sequence e = Some (state_sequence k, payload)) as ->; [|done].
      apply version_at_Some. rewrite Hk, <-Et, <-Ek. by destruct k.
    + change (versions_at table key sequence (e :: entries) = []).
      apply elem_of_nil_inv. intros [s p] (e' & He' & Hv)%list_elem_of_omap.
      apply version_at_Some in Hv as (Hs' & Hk' & _).
      assert (cmp e.1 e'.1 = Lt \/ e' = e) as Hlt.
      { apply elem_of_cons in He' as [->|He']; [by right|left]. rewrite Forall_forall in Hf. by apply Hf. }
      destruct Hlt as [Hlt| ->]; [|rewrite Hk in Hk'; injection Hk' as ->; by apply Hd].
      rewrite (cmp_entries _ _ _ _ Hk Hk') in Hlt. cbn [state_table state_key state_sequence] in Hlt.
      rewrite (cmp_antisym (state_table k)), (cmp_antisym (state_key k)) in Hle.
      destruct (cmp (state_table k) table) eqn:E1; simpl in *; try done.
      destruct (cmp (state_key k) key) eqn:E2; simpl in *; try done.
      apply cmp_eq in E1, E2. naive_solver.
  - assert (version_at table key sequence e = None) as ->; [|exact IH].
    destruct (version_at _ _ _ _) as [[s p]|] eqn:Hv; [|done]. exfalso.
    apply version_at_Some in Hv as (Hs' & Hk' & _). rewrite Hk in Hk'. injection Hk' as ->. simpl in *.
    unfold cmp_le in Hle. rewrite Hke, cmp_seek_key, !cmp_refl in Hle by lia. simpl in Hle.
    unfold cmp, Z_cmp in Hle. destruct (Z.compare_spec s sequence); try done. lia.
Qed.

(** The seek key's prefix is the address of every version of the row. *)
Lemma seek_key_prefix table key sequence :
  seek_key table key sequence = address_prefix table key ++ be_bytes 8 (not_u64 sequence).
Proof. done. Qed.

Lemma starts_with_prefix p data : starts_with data p = true <-> exists r, data = p ++ r.
Proof.
  unfold starts_with. rewrite andb_true_iff, bool_decide_eq_true. split.
  - intros [H _]. exists (drop (length p) data). by rewrite <-H at 1; rewrite take_drop.
  - intros [r ->]. rewrite take_app_length. split; [done|]. autorewrite with blop.
    apply Z.leb_le. pose proof (len_nonneg r). lia.
Qed.

(** Address prefixes are self-delimiting. *)
Lemma address_prefix_app t1 k1 r1 t2 k2 r2 :
  0 <= t1 <= u64_max -> 0 <= t2 <= u64_max ->
  address_prefix t1 k1 ++ r1 = address_prefix t2 k2 ++ r2 -> t1 = t2 /\ k1 = k2 /\ r1 = r2.
Proof.
  intros H1 H2 He. assert (cmp (address_prefix t1 k1 ++ r1) (address_prefix t2 k2 ++ r2) = Eq) as Hc
    by (rewrite He; apply cmp_refl).
  unfold address_prefix, escape_into in Hc. rewrite <-!app_assoc, cmp_be_app, cmp_escape in Hc by done.
  apply lex_eq in Hc as [Ht Hc]. apply lex_eq in Hc as [Hk Hr]. by apply cmp_eq in Ht, Hk, Hr.
Qed.

Lemma slice_at_prefix {E} (a b : bytes) to : to = len a -> slice_at (E:=E) (a ++ b) 0 to = Ok a.
Proof. intros ->. pose proof (slice_at_app (E:=E) [] a b 0 (len a)) as H. apply H; autorewrite with blop; lia. Qed.
Lemma slice_at_suffix {E} (a b : bytes) from to :
  from = len a -> to = len (a ++ b) -> slice_at (E:=E) (a ++ b) from to = Ok b.
Proof.
  intros -> ->. pose proof (slice_at_app (E:=E) a b [] (len a) (len (a ++ b))) as H.
  rewrite app_nil_r in H. apply H; autorewrite with blop; lia.
Qed.

Lemma len_seek_key_bound table key sequence :
  len key <= MAX_KEY_BYTES -> len (seek_key table key sequence) <= MAX_KEY.
Proof. intros H. rewrite len_seek_key. pose proof (len_escape key). unfold MAX_KEY, MAX_KEY_BYTES in *. lia. Qed.

Lemma payload_bytes encoded v : value_payload encoded = Ok (Some v) -> drop 5 encoded = v.
Proof. unfold value_payload. destruct (bool_decide _); [done|]. intros H. inv_ok. done. Qed.

(** ** The scan *)
Lemma row_cons e entries table key sequence :
  bt_sorted (e :: entries) ->
  row (e :: entries) table key sequence =
  match version_at table key sequence e with
  | Some (_, payload) => payload
  | None => row entries table key sequence
  end.
Proof.
  intros Hs. pose proof Hs as [Hs' _]%StronglySorted_inv. rewrite !row_head by done. simpl.
  by destruct (version_at table key sequence e) as [[]|].
Qed.

Lemma row_elem entries table key sequence v :
  bt_sorted entries -> row entries table key sequence = Some v ->
  exists e s, e ∈ entries /\ s <= sequence /\
    StateKey_decode e.1 = Ok {| state_table := table; state_key := key; state_sequence := s |}.
Proof.
  intros Hs Hr. rewrite row_head in Hr by done.
  destruct (versions_at table key sequence entries) as [|[s p] vs] eqn:Hv; [done|].
  assert ((s, p) ∈ versions_at table key sequence entries) as He by (rewrite Hv; apply list_elem_of_here).
  apply list_elem_of_omap in He as (e & He & Hve). apply version_at_Some in Hve as (? & ? & _). eauto.
Qed.

(** An entry of [table] whose key is at least [key]. *)
Definition entry_above (table : Z) (key : bytes) (e : Entry) : Prop :=
  exists k, StateKey_decode e.1 = Ok k /\ cmp_le key (state_key k) = true.

Lemma sorted_keys_above table e entries k :
  bt_sorted (e :: entries) -> StateKey_decode e.1 = Ok k -> state_table k = table ->
  Forall (fun e => exists k, StateKey_decode e.1 = Ok k /\ state_table k = table) entries ->
  Forall (entry_above table (state_key k)) entries.
Proof.
  intros [_ Hf]%StronglySorted_inv Hk Et Ht. rewrite Forall_forall in *. intros e' He'.
  destruct (Ht _ He') as (k' & Hk' & Et'). exists k'. split; [done|]. specialize (Hf _ He').
  unfold key_lt in Hf. rewrite (cmp_entries e e' _ _ Hk Hk'), Et, Et', cmp_refl in Hf. simpl in Hf.
  apply lex_lt in Hf. apply cmp_le_true. rewrite cmp_eq in Hf. naive_solver.
Qed.

Lemma state_scan_rows table sequence entries : forall selected,
  bt_sorted entries -> Forall state_entry entries ->
  Forall (fun e => exists k, StateKey_decode e.1 = Ok k /\ state_table k = table) entries ->
  (forall k0, selected = Some k0 -> Forall (entry_above table k0) entries) ->
  exists rows, state_scan table sequence selected (map Ok entries) = map Ok rows /\ bt_sorted rows /\
    forall key v, (key, v) ∈ rows <-> selected <> Some key /\ row entries table key sequence = Some v.
Proof.
  induction entries as [|e entries IH]; intros selected Hs Hwf Ht Hsel.
  { exists []. split; [done|]. split; [constructor|]. intros key v. rewrite elem_of_nil. naive_solver. }
  pose proof Hs as [Hs' Hf]%StronglySorted_inv. inversion Hwf as [|?? (k & p & Hk & Hp) Hwf']; subst.
  inversion Ht as [|?? (k' & Hk' & Et) Ht']; subst. rewrite Hk in Hk'. injection Hk' as <-.
  pose proof (sorted_keys_above _ _ _ _ Hs Hk eq_refl Ht') as Habove.
  destruct e as [ek ev]. simpl in Hk, Hp. simpl. rewrite Hk, Hp. simpl. rewrite Z.eqb_refl. cbn [negb].
  assert (forall key, state_key k <> key \/ sequence < state_sequence k ->
    row ((ek, ev) :: entries) (state_table k) key sequence = row entries (state_table k) key sequence) as Hother.
  { intros key Hne. rewrite row_cons by done.
    destruct (version_at _ _ _ _) as [[s' p']|] eqn:Hv; [|done]. exfalso.
    apply version_at_Some in Hv as (Hle & Hk' & _). simpl in Hk'. rewrite Hk in Hk'. injection Hk' as Hk'.
    rewrite Hk' in Hne. simpl in Hne. destruct Hne; [done|lia]. }
  assert (selected = Some (state_key k) \/ sequence < state_sequence k ->
    exists rows, state_scan (state_table k) sequence selected (map Ok entries) = map Ok rows /\ bt_sorted rows /\
      forall key v, (key, v) ∈ rows <->
        selected <> Some key /\ row ((ek, ev) :: entries) (state_table k) key sequence = Some v) as Hskip.
  { intros Hc. destruct (IH selected) as (rows & Hrows & Hsr & Hin); [done..| |].
    { intros k0 H0. specialize (Hsel k0 H0). by inversion Hsel. }
    exists rows. split; [done|]. split; [done|]. intros key v. rewrite Hin.
    split; intros [H1 H2]; (split; [done|]); revert H2; rewrite Hother; naive_solver. }
  destruct (state_sequence k >? sequence) eqn:Hseq; cbn [orb]; [apply Hskip; right; blia|].
  destruct (bool_decide_reflect (selected = Some (state_key k))) as [Heq|Hne]; [apply Hskip; by left|].
  clear Hskip. destruct (IH (Some (state_key k))) as (rows & -> & Hsr & Hin); [done..|by intros k0 [= <-]|].
  assert (row ((ek, ev) :: entries) (state_table k) (state_key k) sequence = p) as Hrow.
  { rewrite row_cons by done. assert (version_at (state_table k) (state_key k) sequence (ek, ev)
      = Some (state_sequence k, p)) as ->; [|done]. apply version_at_Some. simpl. rewrite Hk.
    split; [blia|]. by destruct k. }
  assert (forall key v, (key, v) ∈ rows -> cmp (state_key k) key = Lt) as Hgt.
  { intros key v [Hn Hr]%Hin. apply row_elem in Hr as (e' & s' & He' & _ & Hd'); [|done].
    rewrite Forall_forall in Habove. destruct (Habove _ He') as (k' & Hd & Hle). rewrite Hd' in Hd.
    injection Hd as <-. apply cmp_le_true in Hle as [?|Heq]; [done|]. simpl in Heq. by rewrite Heq in Hn. }
  assert (forall key v, (key, v) ∈ rows <-> key <> state_key k /\ selected <> Some key /\
    row ((ek, ev) :: entries) (state_table k) key sequence = Some v) as Hrest.
  { intros key v. rewrite Hin. split.
    - intros [Hn Hr]. assert (state_key k <> key) by congruence.
      split; [done|]. rewrite Hother by by left. split; [|done]. intros ->.
      assert (cmp (state_key k) key = Lt) as Hlt by (eapply Hgt; by apply Hin).
      specialize (Hsel _ eq_refl). inversion Hsel as [|?? (k' & Hd & Hle) _]; subst. simpl in Hd.
      rewrite Hk in Hd. injection Hd as <-. pose proof (cmp_le_lt_trans _ _ _ Hle Hlt) as Hc.
      by apply cmp_irrefl in Hc.
    - intros (Hn & _ & Hr). split; [congruence|]. rewrite Hother in Hr by (left; congruence). done. }
  destruct p as [v|].
  - exists ((state_key k, v) :: rows). split; [done|]. split.
    { constructor; [done|]. apply Forall_forall. intros [key w] Hw. by eapply Hgt. }
    intros key w. rewrite elem_of_cons, Hrest. split.
    + intros [[= -> ->]|?]; naive_solver.
    + intros [H1 H2]. destruct (decide (key = state_key k)) as [->|]; [left; congruence|by right].
  - exists rows. split; [done|]. split; [done|]. intros key w. rewrite Hrest. naive_solver.
Qed.

(** The byte range a scan asks for. *)
Definition scan_lower (table sequence : Z) (lower : Bound bytes) : bytes :=
  match lower with
  | Unbounded => be_bytes 8 table
  | Included key => seek_key table key sequence
  | Excluded key => after_key table key
  end.
Definition scan_upper (table : Z) (upper : Bound bytes) : bytes :=
  match upper with
  | Unbounded => be_bytes 8 (table + 1)
  | Included key => after_key table key
  | Excluded key => address_prefix table key
  end.

Lemma cmp_nil_app (a : bytes) r : 0 < len a -> cmp [] (a ++ r) = Lt /\ cmp (a ++ r) [] = Gt.
Proof. destruct a; done. Qed.

Lemma cmp_seek_tail key sequence : 0 < len (escape key ++ be_bytes 8 (not_u64 sequence)).
Proof. autorewrite with blop. pose proof (len_escape key). pose proof (len_nonneg key). lia. Qed.

Lemma scan_lower_spec table sequence lower t k s :
  0 <= table <= u64_max -> 0 <= t <= u64_max -> 0 <= s <= u64_max -> 0 <= sequence <= u64_max ->
  s <= sequence ->
  cmp_le (scan_lower table sequence lower) (seek_key t k s) = true <->
  table < t \/ (table = t /\ above lower k = true).
Proof.
  intros Ht1 Ht2 Hs1 Hs2 Hle. unfold cmp_le. destruct lower as [key|key|]; simpl.
  - rewrite cmp_seek_key by done. unfold cmp_le. unfold cmp at 1, Z_cmp at 1.
    destruct (Z.compare_spec table t); simpl; try (split; [done || lia | naive_solver lia]).
    destruct (cmp key k); simpl; try naive_solver lia.
    unfold cmp, Z_cmp. destruct (Z.compare_spec s sequence); naive_solver lia.
  - rewrite after_key_app, seek_key_app, cmp_be_app, cmp_after_escape by done. unfold cmp_lt.
    unfold cmp at 1, Z_cmp at 1. destruct (Z.compare_spec table t); simpl; try naive_solver lia.
    destruct (cmp key k); naive_solver lia.
  - rewrite seek_key_app. rewrite <-(app_nil_r (be_bytes 8 table)) at 1. rewrite cmp_be_app by done.
    rewrite <-(app_nil_r (escape k ++ _)). destruct (cmp_nil_app _ [] (cmp_seek_tail k s)) as [-> _].
    unfold cmp, Z_cmp. destruct (Z.compare_spec table t); simpl; naive_solver lia.
Qed.

Lemma scan_upper_spec table upper t k s :
  0 <= table < u64_max -> 0 <= t <= u64_max -> 0 <= s <= u64_max ->
  cmp_lt (seek_key t k s) (scan_upper table upper) = true <->
  t < table \/ (t = table /\ below upper k = true).
Proof.
  intros Ht1 Ht2 Hs1. unfold cmp_lt. destruct upper as [key|key|]; simpl.
  - rewrite (cmp_antisym (after_key table key)), after_key_app, seek_key_app, cmp_be_app, cmp_after_escape by lia.
    rewrite cmp_le_lt. unfold cmp_lt. unfold cmp at 1, Z_cmp at 1.
    destruct (Z.compare_spec table t); simpl; try naive_solver lia.
    destruct (cmp key k); naive_solver lia.
  - unfold address_prefix, escape_into. rewrite seek_key_app.
    rewrite <-(app_nil_r (escape key)), cmp_be_app, cmp_escape by lia.
    unfold cmp_lt. unfold cmp at 1, Z_cmp at 1. destruct (Z.compare_spec t table); simpl; try naive_solver lia.
    rewrite <-(app_nil_r (be_bytes 8 (not_u64 s))).
    destruct (cmp_nil_app (be_bytes 8 (not_u64 s)) []) as [_ ->]; [by rewrite len_be_bytes|].
    destruct (cmp k key); simpl; naive_solver lia.
  - rewrite seek_key_app. rewrite <-(app_nil_r (be_bytes 8 (table + 1))) at 1. rewrite cmp_be_app by lia.
    rewrite <-(app_nil_r (escape k ++ _)). destruct (cmp_nil_app _ [] (cmp_seek_tail k s)) as [_ ->].
    unfold cmp, Z_cmp. destruct (Z.compare_spec t (table + 1)); simpl; naive_solver lia.
Qed.

Section Reads.
Context `{Storage View Cell} (view : View) (contents : Contents).
Context (Hview : Represents view contents) (Hstate : Forall state_entry (contents State)).

(** A point read returns the row at the snapshot and never fails. *)
Lemma mvcc_get_row table key sequence :
  0 < table < u64_max -> 0 <= sequence < u64_max -> len key <= MAX_KEY_BYTES ->
  mvcc_get view table key sequence = Ok (row (contents State) table key sequence).
Proof.
  intros Ht Hs Hk. unfold mvcc_get, mvcc_read_value.
  rewrite (proj2 (check_snapshot_ok table sequence tt)) by lia.
  rewrite (proj2 (check_user_key_ok key tt)) by done. cbn [bindR].
  pose proof (contents_sorted _ _ Hview State) as Hsorted.
  pose proof (seek_contents _ _ Hview State _ (len_seek_key_bound table key sequence Hk)) as Hseek.
  pose proof (seek_row table key sequence (contents State) ltac:(lia) ltac:(lia) Hsorted Hstate) as Hrow.
  destruct (List.find _ _) as [[ck cv]|]; cycle 1.
  { rewrite Hseek. cbn [bindR]. rewrite row_head by done. by rewrite Hrow. }
  destruct Hseek as (cell & -> & Hval). destruct Hrow as (k & payload & Hdec & Hpay & Hrow).
  simpl in Hdec, Hpay. apply StateKey_decode_iff in Hdec as [<- [W1 W2 W3]]. cbn [bindR].
  rewrite seek_key_prefix at 1. rewrite slice_at_prefix by
    (rewrite seek_key_prefix; autorewrite with blop; lia). cbn [bindR]. unfold StateKey_encode.
  destruct (starts_with _ _) eqn:Hpre; cbn [negb]; cycle 1.
  { rewrite decide_False in Hrow; [rewrite row_head by done; by rewrite Hrow|]. intros [<- <-].
    rewrite (proj2 (starts_with_prefix _ _)) in Hpre; [done|]. by eexists. }
  apply starts_with_prefix in Hpre as [r Hr]. rewrite seek_key_prefix in Hr.
  apply address_prefix_app in Hr as (Et & Ek & <-); [|lia..]. rewrite decide_True in Hrow by done.
  destruct Hrow as [Hle ->]. rewrite Et, Ek, !len_seek_key, Z.eqb_refl. cbn [negb].
  rewrite seek_key_prefix. rewrite slice_at_suffix by
    (unfold address_prefix, escape_into; autorewrite with blop; lia). cbn [bindR].
  rewrite from_be_bytes_small by (apply not_u64_range; lia). rewrite not_u64_involutive.
  rewrite (proj2 (Z.leb_gt _ _)), gtb_false by lia. cbn [orb]. rewrite Hval. cbn [bindR]. rewrite Hpay.
  cbn [map_err bindR]. destruct payload as [v|]; [|done]. by rewrite (payload_bytes _ _ Hpay).
Qed.
End Reads.

(** The rows of the requested key range, out of the requested byte range. *)
Lemma range_entry table sequence lower upper (e : Entry) k :
  0 < table < u64_max -> 0 <= sequence < u64_max -> StateKey_decode e.1 = Ok k ->
  in_range (Included (scan_lower table sequence lower)) (Excluded (scan_upper table upper)) e.1 = true ->
  state_table k = table.
Proof.
  intros Ht Hs [-> [W1 W2 W3]]%state_entry_key. unfold in_range. rewrite andb_true_iff. intros [Hl Hu].
  simpl in Hl, Hu. apply scan_upper_spec in Hu; [|lia..].
  assert (state_table k < table -> False); [|lia]. intros Hlt.
  assert (cmp_le (scan_lower table sequence lower) (seek_key (state_table k) (state_key k) (state_sequence k)) = false) as Hf.
  { unfold cmp_le. rewrite seek_key_app. assert (forall r, cmp (be_bytes 8 table ++ r)
      (be_bytes 8 (state_table k) ++ escape (state_key k) ++ be_bytes 8 (not_u64 (state_sequence k))) = Gt) as Hgt.
    { intros r. rewrite cmp_be_app by lia. unfold cmp at 1, Z_cmp. by destruct (Z.compare_spec table (state_table k)); try lia. }
    destruct lower as [key|key|]; simpl; [rewrite seek_key_app|rewrite after_key_app|
      rewrite <-(app_nil_r (be_bytes 8 table))]; by rewrite Hgt. }
  congruence.
Qed.

Lemma versions_in_range table sequence lower upper key entries :
  0 < table < u64_max -> 0 <= sequence < u64_max -> Forall state_entry entries ->
  versions_at table key sequence
    (bt_range (Included (scan_lower table sequence lower)) (Excluded (scan_upper table upper)) entries) =
  if in_range lower upper key then versions_at table key sequence entries else [].
Proof.
  intros Ht Hs. induction 1 as [|e entries (k & p & Hk & Hp) Hwf IH]; [by destruct (in_range _ _ _)|].
  unfold bt_range in *. cbn [List.filter].
  assert (forall v, version_at table key sequence e = Some v ->
    in_range (Included (scan_lower table sequence lower)) (Excluded (scan_upper table upper)) e.1 = in_range lower upper key) as Hiff.
  { intros [s q] (Hle & Hd & _)%version_at_Some. apply state_entry_key in Hd as [-> [W1 W2 W3]]. simpl in *.
    unfold in_range. simpl. apply eq_true_iff_eq. rewrite !andb_true_iff.
    rewrite scan_lower_spec, scan_upper_spec by lia. naive_solver lia. }
  destruct (version_at table key sequence e) as [v|] eqn:Hv.
  - specialize (Hiff _ eq_refl). destruct (in_range lower upper key); rewrite Hiff; simpl; [|done].
    by rewrite Hv, IH.
  - destruct (in_range _ _ e.1); simpl; rewrite ?Hv, IH; by destruct (in_range lower upper key).
Qed.

Section Scans.
Context `{Storage View Cell} (view : View) (contents : Contents).
Context (Hview : Represents view contents) (Hstate : Forall state_entry (contents State)).

Lemma check_user_bound_ok b u :
  check_user_bound b = Ok u <->
  match b with Included key | Excluded key => len key <= MAX_KEY_BYTES | Unbounded => True end.
Proof. destruct b; simpl; [apply check_user_key_ok..|]. by destruct u. Qed.

Lemma scan_bounds_ok table sequence lower upper :
  check_user_bound lower = Ok tt -> check_user_bound upper = Ok tt ->
  bound_ok (Included (scan_lower table sequence lower)) = true /\
  bound_ok (Excluded (scan_upper table upper)) = true.
Proof.
  rewrite !check_user_bound_ok. intros Hl Hu. simpl. rewrite !Z.leb_le. unfold MAX_KEY, MAX_KEY_BYTES in *.
  split; [destruct lower as [key|key|] | destruct upper as [key|key|]]; simpl;
    rewrite ?len_seek_key, ?after_key_app; unfold address_prefix, escape_into, set_last; autorewrite with blop;
    try lia; pose proof (len_escape key); pose proof (len_nonneg key); try lia;
    unfold len in *; rewrite length_take; lia.
Qed.

(** A scan yields the rows of its range in key order, without failing. *)
Lemma mvcc_scan_rows table sequence lower upper :
  0 < table < u64_max -> 0 <= sequence < u64_max ->
  check_user_bound lower = Ok tt -> check_user_bound upper = Ok tt ->
  exists rows, mvcc_scan view table sequence lower upper = Ok (map Ok rows) /\ bt_sorted rows /\
    forall key v, (key, v) ∈ rows <->
      in_range lower upper key = true /\ row (contents State) table key sequence = Some v.
Proof.
  intros Ht Hs Hl Hu. unfold mvcc_scan. rewrite (proj2 (check_snapshot_ok table sequence tt)) by lia.
  rewrite Hl, Hu. cbn [bindR]. change (match lower with Included key => seek_key table key sequence
    | Excluded key => after_key table key | Unbounded => be_bytes 8 table end) with (scan_lower table sequence lower).
  assert ((match upper with Unbounded => arith_u64 (table + 1) | _ => Ok 0 end) =
    Ok (E:=StorageError) (match upper with Unbounded => table + 1 | _ => 0 end)) as ->.
  { destruct upper; try done. apply arith_u64_ok. lia. }
  cbn [bindR]. replace (match upper with Included key => after_key table key | Excluded key => address_prefix table key
    | Unbounded => be_bytes 8 (match upper with Unbounded => table + 1 | _ => 0 end) end)
    with (scan_upper table upper) by by destruct upper.
  destruct (scan_bounds_ok table sequence lower upper Hl Hu) as [Bl Bu].
  rewrite (scan_contents _ _ Hview) by done. cbn [bindR].
  pose proof (contents_sorted _ _ Hview State) as Hsorted.
  destruct (state_scan_rows table sequence (bt_range (Included (scan_lower table sequence lower))
    (Excluded (scan_upper table upper)) (contents State)) None) as (rows & -> & Hsr & Hin).
  - by apply bt_sorted_filter.
  - apply Forall_forall. intros e He. unfold bt_range in He. apply list_elem_of_In, filter_In in He as [He _].
    rewrite Forall_forall in Hstate. apply Hstate. by apply list_elem_of_In.
  - apply Forall_forall. intros e He. unfold bt_range in He. apply list_elem_of_In, filter_In in He as [He Hr].
    rewrite Forall_forall in Hstate. apply list_elem_of_In, Hstate in He as (k & p & Hk & _).
    exists k. split; [done|]. by eapply range_entry.
  - done.
  - exists rows. split; [done|]. split; [done|]. intros key v. rewrite Hin. unfold row at 1.
    rewrite versions_in_range by done. destruct (in_range lower upper key); naive_solver.
Qed.
End Scans.
