(* ===== verification/Overlay.v ===== *)
(** * Reads through a transaction's private writes ([src/src/vm/database.rs])

    [get] and [scan] merge the final-write overlay with the versioned state
    below it.  The scan splits the requested range at overlay addresses and
    runs one state scan per gap, lazily. *)
From S2P Require Import Prelude OrdMap Errors Reader Encoding Storage Mvcc.

(** [BTreeMap<(u64, Vec<u8>), Option<Vec<u8>>>]: [None] is a tombstone. *)
Abbreviation Address := (Z * bytes)%type.
Abbreviation Overlay := (list (Address * option bytes)).

(** [BTreeMap::range] panics on an inverted range, and on an empty one that
    excludes its single endpoint twice. *)
Definition range_panics {A} `{Cmp A} (lower upper : Bound A) : bool :=
  match lower, upper with
  | Excluded a, Excluded b => cmp_le b a
  | Included a, Included b | Included a, Excluded b | Excluded a, Included b => cmp_lt b a
  | _, _ => false
  end.

(** [iter.chain(rest)] when the first iterator may end in an error. *)
Fixpoint chain {E A} (items rest : Stream E A) : Stream E A :=
  match items with
  | [] => rest
  | Ok a :: items => Ok a :: chain items rest
  | Err e :: _ => [Err e]
  | Panic :: _ => [Panic]
  end.

(** A call that returns an iterator, as its items. *)
Definition items {E A} (m : Result E (Stream E A)) : Stream E A :=
  match m with Ok items => items | Err e => [Err e] | Panic => [Panic] end.

Section Overlay.
Context `{Storage View Cell}.

(** [database::get] *)
Definition overlay_get (view : View) (table : Z) (key : bytes) (sequence : Z) (overlay : Overlay)
    : Result Error (option bytes) :=
  match bt_get (table, key) overlay with
  | Some value => Ok value
  | None => map_err Error_Storage (mvcc_get view table key sequence)
  end.

(** Nothing lies between [lower] and the next overlay key. *)
Definition gap_empty (lower : Bound bytes) (key : bytes) : bool :=
  match lower with
  | Unbounded => bool_decide (key = [])
  | Included start | Excluded start => cmp_le key start
  end.

(** The state rows from [lower] to the next overlay key, or to [upper]. *)
Definition gap (view : View) (table sequence : Z) (lower upper : Bound bytes)
    (next_key : option bytes) : Stream Error Entry :=
  let empty := match next_key with Some key => gap_empty lower key | None => false end in
  if empty then [] else
  let finish := match next_key with Some key => Excluded key | None => upper end in
  map (map_err Error_Storage) (items (mvcc_scan view table sequence lower finish)).

(** The iterator of [database::scan] over the overlay entries in range. *)
Fixpoint merge_scan (view : View) (table sequence : Z) (lower upper : Bound bytes)
    (overlay : Overlay) : Stream Error Entry :=
  match overlay with
  | [] => gap view table sequence lower upper None
  | ((_, key), value) :: overlay =>
      chain (gap view table sequence lower upper (Some key))
        (match value with
         | Some value => Ok (key, value) :: merge_scan view table sequence (Excluded key) upper overlay
         | None => merge_scan view table sequence (Excluded key) upper overlay
         end)
  end.

Definition check_scan_endpoint (b : Bound bytes) : Result Error unit :=
  match b with
  | Included key | Excluded key =>
      if len key >? 1024 then Err (Error_Invalid "scan endpoint exceeds 1,024 canonical bytes") else Ok tt
  | Unbounded => Ok tt
  end.

(** The addresses of a key range. *)
Definition overlay_lower (table : Z) (lower : Bound bytes) : Bound Address :=
  match lower with
  | Unbounded => Included (table, [])
  | Included key => Included (table, key)
  | Excluded key => Excluded (table, key)
  end.
Definition overlay_upper (table next_table : Z) (upper : Bound bytes) : Bound Address :=
  match upper with
  | Unbounded => Excluded (next_table, [])
  | Included key => Included (table, key)
  | Excluded key => Excluded (table, key)
  end.

(** [database::scan] *)
Definition overlay_scan (view : View) (table sequence : Z) (lower upper : Bound bytes)
    (overlay : Overlay) : Result Error (Stream Error Entry) :=
  let* _ := valid_id table in
  if sequence =? u64_max then Err (Error_Invalid "reserved snapshot sequence") else
  let* _ := check_scan_endpoint lower in
  let* _ := check_scan_endpoint upper in
  let* next_table := match upper with Unbounded => arith_u64 (table + 1) | _ => Ok 0 end in
  let from := overlay_lower table lower in
  let to := overlay_upper table next_table upper in
  if range_panics from to then Panic else
  Ok (merge_scan view table sequence lower upper (bt_range from to overlay)).
End Overlay.
