(* ===== verification/Outcome.v ===== *)
(** * Outcomes ([src/src/vm/mod.rs], [src/src/vm/outcome.rs])

    The final outcome of a record, its validation and its codec. *)
From S2P Require Import Prelude OrdMap Errors Reader Value ValueFacts Limits Operations Program Catalogue Storage Mvcc.

Record Abort : Type := { reason : AbortReason; instruction : Z; user_code : Z; detail : Z }.

Inductive Effect : Type :=
| Effect_Put (table : Z) (key value : bytes)
| Effect_Delete (table : Z) (key : bytes)
| Effect_Catalogue (table : Z) (value : bytes)
| Effect_Limits (policy : LimitPolicy).

Inductive Outcome : Type :=
| Success (result_type : Ty) (value : Value) (effects : list Effect)
| Aborted (abort : Abort).

Definition MAX_OUTCOME_BYTES : Z := 128 * 1024 * 1024.

Record OutcomeRecord : Type := {
  record_sequence : Z;
  record_digest : bytes;
  record_kind : Z;
  record_outcome : Outcome }.

Abbreviation outcome_take := (take_bytes "truncated outcome").
Abbreviation outcome_le := (take_le "truncated outcome").
Abbreviation outcome_byte := (take_byte "truncated outcome").
Abbreviation outcome_blob := (take_blob "truncated outcome").
Abbreviation outcome_put := (put_blob "outcome blob exceeds u32").

Definition effect_address (effect : Effect) : Z * bytes :=
  match effect with
  | Effect_Put table key _ | Effect_Delete table key => (table, key)
  | Effect_Catalogue table _ => (table, [])
  | Effect_Limits _ => (0, [])
  end.

(** [reason as u16] *)
Definition reason_code (reason : AbortReason) : Z :=
  match reason with
  | MissingKey => 1
  | KeyExists => 2
  | RequireFailed => 3
  | ExplicitAbort => 4
  | IntegerOverflow => 5
  | BoundExceeded => 6
  | ResourceLimit => 7
  | DivisionByZero => 8
  | InvalidShift => 9
  | IndexOutOfBounds => 10
  | InvalidUtf8 => 11
  | NameInUse => 16
  | TableNotLive => 17
  end.

Definition abort_reason (reason : Z) : Result Error AbortReason :=
  match reason with
  | 1 => Ok MissingKey
  | 2 => Ok KeyExists
  | 3 => Ok RequireFailed
  | 4 => Ok ExplicitAbort
  | 5 => Ok IntegerOverflow
  | 6 => Ok BoundExceeded
  | 7 => Ok ResourceLimit
  | 8 => Ok DivisionByZero
  | 9 => Ok InvalidShift
  | 10 => Ok IndexOutOfBounds
  | 11 => Ok InvalidUtf8
  | 16 => Ok NameInUse
  | 17 => Ok TableNotLive
  | _ => Err (Error_Invalid "unknown outcome abort reason")
  end.

Definition between (lo hi z : Z) : bool := (lo <=? z) && (z <=? hi).

Definition validate_abort (kind : Z) (abort : Abort) : Result Error unit :=
  let code := reason_code (reason abort) in
  let legal :=
    match kind with
    | 1 => between 1 11 code && (instruction abort <? 65535)
    | 2 => between 16 17 code && (instruction abort =? u32_max)
    | _ => false
    end in
  if negb legal
     || (negb ((code =? 3) || (code =? 4)) && negb (user_code abort =? 0))
     || ((code =? 7) && negb (between 1 17 (detail abort)))
     || (negb (code =? 7) && negb (detail abort =? 0))
  then Err (Error_Invalid "invalid abort fields for record kind") else Ok tt.

Definition kind_mismatch {A} : Result Error A := Err (Error_Invalid "effect does not match record kind").

Definition validate_effect (sequence kind : Z) (effect : Effect) : Result Error unit :=
  match effect with
  | Effect_Put table key value =>
      if kind =? 1 then
        let* _ := map_err input_error (StateKey_new table key sequence) in
        if len value >? 16 * 1024 * 1024 then Err (Error_Invalid "outcome Put exceeds 16 MiB") else Ok tt
      else kind_mismatch
  | Effect_Delete table key =>
      if kind =? 1 then
        let* _ := map_err input_error (StateKey_new table key sequence) in Ok tt
      else kind_mismatch
  | Effect_Catalogue table value =>
      if kind =? 2 then
        let* version := decode_catalogue table value in
        if (table >? sequence) || ((table =? sequence) && negb (live version))
        then Err (Error_Invalid "invalid catalogue effect creation sequence") else Ok tt
      else kind_mismatch
  | Effect_Limits _ => if kind =? 3 then Ok tt else kind_mismatch
  end.

(** What an effect adds to [overlay_bytes]. *)
Definition effect_bytes (effect : Effect) : Z :=
  match effect with
  | Effect_Put _ key value => 9 + len key + len value
  | Effect_Delete _ key => 9 + len key
  | _ => 0
  end.

Definition validate_effects (sequence kind : Z) (effects : list Effect) : Result Error Z :=
  foldR (fun overlay_bytes effect =>
    let* _ := validate_effect sequence kind effect in
    arith_u64 (overlay_bytes + effect_bytes effect)) 0 effects.

(** The return an administrative record must have. *)
Definition expected_return (sequence kind : Z) (effects : list Effect) : option (Ty * Value) :=
  match kind, head effects with
  | 2, Some (Effect_Catalogue table _) =>
      if table =? sequence then Some (Type_U64, Value_U64 sequence) else Some (Type_Unit, Value_Unit)
  | 2, _ | 3, _ => Some (Type_Unit, Value_Unit)
  | _, _ => None
  end.

Definition validate_success (sequence kind : Z) (ty : Ty) (value : Value) (effects : list Effect)
    : Result Error unit :=
  if (len effects >? 65535) || (negb (kind =? 1) && negb (len effects =? 1))
  then Err (Error_Invalid "invalid outcome effect count") else
  if match expected_return sequence kind effects with
     | Some (expected_type, expected_value) =>
         negb (bool_decide (ty = expected_type)) || negb (bool_decide (value = expected_value))
     | None => false
     end
  then Err (Error_Invalid "invalid administrative return value") else
  let* overlay_bytes := validate_effects sequence kind effects in
  if overlay_bytes >? 64 * 1024 * 1024 then Err (Error_Invalid "outcome overlay exceeds 64 MiB") else Ok tt.

(** ** Decoding *)
Definition read_address (sequence : Z) (input : bytes) : Result Error (Z * bytes * bytes) :=
  let* (table, input) := outcome_le input 8 in
  let* _ := valid_id table in
  let* (key, input) := outcome_blob input in
  if (table >=? sequence) || (len key >? 1024) then Err (Error_Invalid "invalid outcome state address") else
  Ok (table, key, input).

Definition read_effect (record_kind sequence : Z) (input : bytes) : Result Error (Effect * bytes) :=
  let* (tag, input) := outcome_byte input in
  match record_kind, tag with
  | 1, x01 =>
      let* (table, key, input) := read_address sequence input in
      let* (value, input) := outcome_blob input in
      if len value >? 16 * 1024 * 1024 then Err (Error_Invalid "outcome Put exceeds 16 MiB") else
      Ok (Effect_Put table key value, input)
  | 1, x02 =>
      let* (table, key, input) := read_address sequence input in
      Ok (Effect_Delete table key, input)
  | 2, x03 =>
      let* (table, input) := outcome_le input 8 in
      let* (value, input) := outcome_blob input in
      let* _ := decode_catalogue table value in
      Ok (Effect_Catalogue table value, input)
  | 3, x04 =>
      let* (data, input) := outcome_blob input in
      let* policy := map_err input_error (LimitPolicy_decode data) in
      Ok (Effect_Limits policy, input)
  | _, _ => kind_mismatch
  end.

(** [effects.last()] is [previous]. *)
Fixpoint read_effects (record_kind sequence : Z) (count : nat) (previous : option Effect) (input : bytes)
    : Result Error (list Effect * bytes) :=
  match count with
  | O => Ok ([], input)
  | S count =>
      let* (effect, input) := read_effect record_kind sequence input in
      if match previous with
         | Some previous => cmp_le (effect_address effect) (effect_address previous)
         | None => false
         end
      then Err (Error_Invalid "outcome effects are not strictly ordered") else
      let* (effects, input) := read_effects record_kind sequence count (Some effect) input in
      Ok (effect :: effects, input)
  end.

Definition decode_success (record_kind sequence reason instruction user_code detail count : Z)
    (returned input : bytes) : Result Error (Outcome * bytes) :=
  if negb (reason =? 0) || negb (instruction =? u32_max) || negb (user_code =? 0) || negb (detail =? 0)
  then Err (Error_Invalid "invalid success outcome fields") else
  if (count >? 65535) || (count >? len input / 13) || (negb (record_kind =? 1) && negb (count =? 1))
  then Err (Error_Invalid "invalid outcome effect count") else
  let* (descriptor, returned) := outcome_blob returned in
  let* result_type := decode descriptor in
  let* (data, returned) := outcome_blob returned in
  let* value := decode_value result_type data in
  match returned with
  | [] =>
      let* (effects, input) := read_effects record_kind sequence (Z.to_nat count) None input in
      let* _ := validate_success sequence record_kind result_type value effects in
      Ok (Success result_type value effects, input)
  | _ => Err (Error_Invalid "trailing outcome TypedValue bytes")
  end.

Definition decode_abort (record_kind reason instruction user_code detail count : Z) (returned : bytes)
    : Result Error Outcome :=
  if negb (bool_decide (returned = [])) || negb (count =? 0)
  then Err (Error_Invalid "aborted outcome has return bytes or effects") else
  let* reason := abort_reason reason in
  let abort := {| reason := reason; instruction := instruction; user_code := user_code; detail := detail |} in
  let* _ := validate_abort record_kind abort in
  Ok (Aborted abort).

Definition check_zero (n : nat) (field : bytes) : Result Error unit :=
  if negb (bool_decide (field = repeat x00 n)) then Err (Error_Invalid "nonzero outcome reserved field") else Ok tt.

Definition check_kind (kind : Z) : Result Error unit :=
  if negb (between 1 3 kind) then Err (Error_Invalid "invalid outcome record kind") else Ok tt.

Definition decode_outcome (data : bytes) : Result Error OutcomeRecord :=
  if len data >? MAX_OUTCOME_BYTES then Err (Error_Invalid "outcome exceeds 128 MiB") else
  let* (version, input) := outcome_le data 2 in
  if negb (version =? 1) then Err (Error_Unsupported "outcome" version) else
  let* (record_kind, input) := outcome_byte input in
  let record_kind := byte_Z record_kind in
  let* _ := check_kind record_kind in
  let* (status, input) := outcome_byte input in
  let* (sequence, input) := outcome_le input 8 in
  let* _ := valid_id sequence in
  let* (record_digest, input) := outcome_take input 32 in
  let* (reason, input) := outcome_le input 2 in
  let* (reserved, input) := outcome_take input 2 in
  let* _ := check_zero 2 reserved in
  let* (instruction, input) := outcome_le input 4 in
  let* (user_code, input) := outcome_le input 4 in
  let* (reserved, input) := outcome_take input 4 in
  let* _ := check_zero 4 reserved in
  let* (detail, input) := outcome_le input 8 in
  let* (returned, input) := outcome_blob input in
  let* (count, input) := outcome_le input 4 in
  let* (outcome, input) :=
    match status with
    | x00 => decode_success record_kind sequence reason instruction user_code detail count returned input
    | x01 =>
        let* outcome := decode_abort record_kind reason instruction user_code detail count returned in
        Ok (outcome, input)
    | _ => Err (Error_Invalid "invalid outcome status")
    end in
  match input with
  | [] => Ok {| record_sequence := sequence; record_digest := record_digest; record_kind := record_kind;
                record_outcome := outcome |}
  | _ => Err (Error_Invalid "trailing outcome bytes")
  end.

(** ** Encoding *)
Definition walk_rows (_ : Ty) (depth : Z) (key value : Ty) : Result Error (Z * list (Ty * Z)) :=
  Ok (5, [(key, depth + 1); (value, depth + 1)]).

(** [outcome::descriptor] *)
Definition outcome_descriptor (ty : Ty) : Result Error bytes :=
  let* _ := walk "type nesting exceeds depth 16" "type descriptor exceeds 65,536 bytes" walk_rows
              walk_fuel [(ty, 1)] 2 in
  let* data := descriptor ty in
  let* _ := decode data in
  Ok data.

(** [sort_unstable_by] the address; effects of one address are rejected next,
    so their relative order does not matter. *)
Fixpoint insert_effect (effect : Effect) (effects : list Effect) : list Effect :=
  match effects with
  | [] => [effect]
  | first :: rest =>
      if cmp_le (effect_address effect) (effect_address first) then effect :: effects
      else first :: insert_effect effect rest
  end.
Definition sort_effects (effects : list Effect) : list Effect := foldr insert_effect [] effects.

(** [effects.windows(2).any(..)] *)
Fixpoint duplicate_address (effects : list Effect) : bool :=
  match effects with
  | a :: (b :: _) as rest => bool_decide (effect_address a = effect_address b) || duplicate_address rest
  | _ => false
  end.

Definition encode_effect (output : bytes) (effect : Effect) : Result Error bytes :=
  match effect with
  | Effect_Put table key value =>
      let* output := outcome_put (output ++ x01 :: le_bytes 8 table) key in
      outcome_put output value
  | Effect_Delete table key => outcome_put (output ++ x02 :: le_bytes 8 table) key
  | Effect_Catalogue table value => outcome_put (output ++ x03 :: le_bytes 8 table) value
  | Effect_Limits policy => outcome_put (output ++ [x04]) (LimitPolicy_encode policy)
  end.

Definition encode_success (sequence kind : Z) (result_type : Ty) (value : Value) (effects : list Effect)
    (output : bytes) : Result Error bytes :=
  let* descriptor := outcome_descriptor result_type in
  if negb (accepts result_type value) then Err (Error_Invalid "outcome value does not match result type") else
  let* _ := validate_success sequence kind result_type value effects in
  let output := output ++ repeat x00 4 ++ le_bytes 4 u32_max ++ repeat x00 16 in
  let* returned := outcome_put [] descriptor in
  let* data := encode value in
  let* returned := outcome_put returned data in
  let* output := outcome_put output returned in
  let output := output ++ le_bytes 4 (len effects) in
  let effects := sort_effects effects in
  if duplicate_address effects then Err (Error_Invalid "duplicate final effect address") else
  foldR encode_effect output effects.

Definition encode_abort (kind : Z) (abort : Abort) (output : bytes) : Result Error bytes :=
  let* _ := validate_abort kind abort in
  Ok (output ++ le_bytes 2 (reason_code (reason abort)) ++ repeat x00 2 ++ le_bytes 4 (instruction abort)
       ++ le_bytes 4 (user_code abort) ++ repeat x00 4 ++ le_bytes 8 (detail abort) ++ repeat x00 8).

Definition encode_outcome (sequence : Z) (digest : bytes) (kind : Z) (outcome : Outcome) : Result Error bytes :=
  let* _ := valid_id sequence in
  let* _ := check_kind kind in
  let aborted := match outcome with Aborted _ => x01 | Success _ _ _ => x00 end in
  let output := [x01; x00; Z_byte kind; aborted] ++ le_bytes 8 sequence ++ digest in
  let* output :=
    match outcome with
    | Aborted abort => encode_abort kind abort output
    | Success result_type value effects => encode_success sequence kind result_type value effects output
    end in
  if len output >? MAX_OUTCOME_BYTES then Err (Error_Invalid "outcome exceeds 128 MiB") else Ok output.

(** ** Reading a stored outcome *)
Definition read_outcome `{Storage View Cell} (view : View) (sequence : Z) : Result Error (option OutcomeRecord) :=
  let* _ := valid_id sequence in
  let* data := map_err Error_Storage (storage_get view Outcomes (be_bytes 8 sequence)) in
  match data with
  | None => Ok None
  | Some data =>
      let* record := map_err persisted (decode_outcome data) in
      if negb (record_sequence record =? sequence)
      then Err (persisted (Error_Invalid "outcome sequence differs from tree key")) else
      Ok (Some record)
  end.
