(* ===== verification/OutcomeFacts.v ===== *)
(** * The outcome codec

    [decode_outcome] accepts exactly the canonical encodings of valid
    outcomes whose effects are strictly ordered by address, and
    [encode_outcome] sorts the effects it is given into that order. *)
From S2P Require Import Prelude OrdMap Errors Reader Value ValueFacts Encoding Limits Operations Program Catalogue CatalogueFacts Storage Mvcc MvccFacts Outcome.
From Stdlib Require Import Sorted Permutation.

(** ** Effects *)
Definition effect_data (e : Effect) : bytes :=
  match e with
  | Effect_Put table key value => x01 :: le_bytes 8 table ++ blob_bytes key ++ blob_bytes value
  | Effect_Delete table key => x02 :: le_bytes 8 table ++ blob_bytes key
  | Effect_Catalogue table value => x03 :: le_bytes 8 table ++ blob_bytes value
  | Effect_Limits policy => x04 :: blob_bytes (LimitPolicy_encode policy)
  end.

(** The values a Rust [Effect] can hold, and the lengths its fields can have
    in the encoding. *)
Definition effect_typed (e : Effect) : Prop :=
  match e with
  | Effect_Put table _ _ | Effect_Delete table _ | Effect_Catalogue table _ => 0 <= table <= u64_max
  | Effect_Limits policy => policy_wf policy
  end.
Definition effect_fits (e : Effect) : Prop :=
  match e with
  | Effect_Put _ key value => len key <= u32_max /\ len value <= u32_max
  | Effect_Delete _ key => len key <= u32_max
  | Effect_Catalogue _ value => len value <= u32_max
  | Effect_Limits policy => len (LimitPolicy_encode policy) <= u32_max
  end.

Lemma len_policy policy : policy_wf policy -> len (LimitPolicy_encode policy) = POLICY_LENGTH.
Proof.
  intros H. assert (LimitPolicy_decode (LimitPolicy_encode policy) = Ok policy) as Hd by by apply LimitPolicy_decode_iff.
  unfold LimitPolicy_decode in Hd. step_if Hd eqn E. by apply negb_false_iff, Z.eqb_eq in E.
Qed.

Lemma encode_effect_iff output e out :
  encode_effect output e = Ok out <-> out = output ++ effect_data e /\ effect_fits e.
Proof.
  split.
  - destruct e as [t k v|t k|t v|p]; cbn [encode_effect effect_data effect_fits]; intros H; try (step_ok H as o eqn Ho; apply (proj1 (put_blob_ok _ _ _ _)) in Ho as [? ->]);
      apply (proj1 (put_blob_ok _ _ _ _)) in H as [? ->]; (split; [|done]); by rewrite <-?app_assoc, <-?app_comm_cons.
  - intros [-> Hw]. destruct e as [t k v|t k|t v|p]; cbn [encode_effect effect_data effect_fits] in *; destruct_and?;
      repeat (rewrite put_blob_eq by done; cbn [bindR]); by rewrite <-?app_assoc, <-?app_comm_cons.
Qed.

Lemma foldR_encode_effect es : forall output out,
  foldR encode_effect output es = Ok out <->
  out = output ++ concat (map effect_data es) /\ Forall effect_fits es.
Proof.
  induction es as [|e es IH]; intros output out; simpl.
  { rewrite app_nil_r. split; [by intros [= <-]|by intros [-> _]]. }
  split.
  - intros H. step_ok H as o eqn Ho. apply encode_effect_iff in Ho as [-> He].
    apply IH in H as [-> Hes]. rewrite <-app_assoc. split; [done|by constructor].
  - intros [-> [He Hes]%Forall_cons_1].
    rewrite (proj2 (encode_effect_iff output e _)) by done. cbn [bindR]. apply IH. by rewrite <-app_assoc.
Qed.

Lemma take_u64_app truncated z rest :
  0 <= z <= u64_max -> take_le truncated (le_bytes 8 z ++ rest) 8 = Ok (z, rest).
Proof. intros Hz. apply take_le_app; [done|]. by apply u64_bytes. Qed.
Lemma take_u64_inv truncated input z rest :
  take_le truncated input 8 = Ok (z, rest) -> input = le_bytes 8 z ++ rest /\ 0 <= z <= u64_max.
Proof. intros H. apply (take_le_inv _ _ 8) in H as [-> Hz]; [|done]. split; [done|]. unfold u64_max. lia. Qed.

Lemma read_address_inv sequence input table key rest :
  read_address sequence input = Ok (table, key, rest) ->
  input = le_bytes 8 table ++ blob_bytes key ++ rest /\ 0 <= table <= u64_max /\ len key <= u32_max.
Proof.
  unfold read_address. intros H. step_ok H as [t in1] eqn Ht. step_ok H as u eqn Hu.
  step_ok H as [k in2] eqn Hk. step_if H eqn E. injection H as <- <- <-.
  apply take_u64_inv in Ht as [-> Ht]. apply take_blob_inv in Hk as [-> Hl]. done.
Qed.

Lemma read_effect_inv kind sequence input e rest :
  read_effect kind sequence input = Ok (e, rest) ->
  input = effect_data e ++ rest /\ effect_typed e /\ effect_fits e.
Proof.
  unfold read_effect. intros H. step_ok H as [tag in1] eqn Ht. apply take_byte_inv in Ht as ->.
  unfold kind_mismatch in H.
  assert (kind = 1 \/ kind = 2 \/ kind = 3) as [->|[->| ->]]
    by (destruct kind as [|[[| |]|[| |]|]|]; destruct tag; simpl in H; try discriminate H; auto);
    destruct tag; simpl in H; try discriminate H.
  - step_ok H as [[t k] in2] eqn Ha. step_ok H as [v in3] eqn Hv. step_if H eqn E. injection H as <- <-.
    apply read_address_inv in Ha as (-> & Ht & Hk). apply take_blob_inv in Hv as [-> Hv]. simpl.
    by rewrite <-!app_assoc.
  - step_ok H as [[t k] in2] eqn Ha. injection H as <- <-.
    apply read_address_inv in Ha as (-> & Ht & Hk). simpl. by rewrite <-!app_assoc.
  - step_ok H as [t in2] eqn Ha. step_ok H as [v in3] eqn Hv. step_ok H as c eqn Hc. injection H as <- <-.
    apply take_u64_inv in Ha as (-> & Ht). apply take_blob_inv in Hv as [-> Hv]. simpl. by rewrite <-!app_assoc.
  - step_ok H as [d in2] eqn Hd. step_ok H as p eqn Hp. injection H as <- <-.
    apply take_blob_inv in Hd as [-> Hv]. apply map_err_ok, LimitPolicy_decode_iff in Hp as [<- Hw]. done.
Qed.

Lemma StateKey_new_bounds table key sequence k :
  StateKey_new table key sequence = Ok k ->
  table <> 0 /\ table <> u64_max /\ sequence <> u64_max /\ len key <= MAX_KEY_BYTES /\ table < sequence.
Proof.
  unfold StateKey_new, check_snapshot, check_user_key. intros H. step_ok H as u eqn Hs. step_if Hs eqn E1. step_if Hs eqn E2.
  step_ok H as u' eqn Hk. step_if Hk eqn E3. step_if H eqn E4. apply orb_false_iff in E1 as [E1 E1']. blia.
Qed.

Lemma read_address_eq sequence table key rest k :
  0 <= table <= u64_max -> StateKey_new table key sequence = Ok k ->
  read_address sequence (le_bytes 8 table ++ blob_bytes key ++ rest) = Ok (table, key, rest).
Proof.
  intros Ht (H0 & H1 & _ & Hk & Hs)%StateKey_new_bounds. unfold MAX_KEY_BYTES in Hk. unfold read_address.
  rewrite take_u64_app by done. cbn [bindR]. rewrite (proj2 (valid_id_ok table tt)) by done. cbn [bindR].
  rewrite take_blob_app by (unfold u32_max; lia). cbn [bindR].
  by rewrite Z.geb_leb, (proj2 (Z.leb_gt _ _)), gtb_false by lia.
Qed.

Lemma read_effect_eq kind sequence e rest :
  validate_effect sequence kind e = Ok tt -> effect_typed e -> effect_fits e ->
  read_effect kind sequence (effect_data e ++ rest) = Ok (e, rest).
Proof.
  intros Hv Ht Hf. unfold read_effect. destruct e as [t k v|t k|t v|p]; simpl in *; unfold kind_mismatch in Hv;
    match type of Hv with (if ?c then _ else _) = _ => destruct c eqn:Ek; [apply Z.eqb_eq in Ek as ->|done] end;
    rewrite take_byte_cons; cbn [bindR].
  - step_ok Hv as key eqn Hk. apply map_err_ok in Hk. step_if Hv eqn El.
    rewrite <-!app_assoc. erewrite read_address_eq by done. cbn [bindR].
    rewrite take_blob_app by apply Hf. cbn [bindR]. by rewrite El.
  - step_ok Hv as key eqn Hk. apply map_err_ok in Hk. rewrite <-!app_assoc. by erewrite read_address_eq by done.
  - step_ok Hv as version eqn Hd. rewrite <-!app_assoc, take_u64_app by done. cbn [bindR].
    rewrite take_blob_app by done. cbn [bindR]. by rewrite Hd.
  - rewrite take_blob_app by done. cbn [bindR].
    by rewrite (proj2 (LimitPolicy_decode_iff _ p)).
Qed.

(** ** Sequences of effects in canonical order *)
Definition address_lt (a b : Effect) : Prop := cmp (effect_address a) (effect_address b) = Lt.
Abbreviation ordered := (StronglySorted address_lt).
Definition follows (previous : option Effect) (es : list Effect) : Prop :=
  match previous with Some p => Forall (address_lt p) es | None => True end.

Lemma address_trans a b c : address_lt a b -> address_lt b c -> address_lt a c.
Proof. unfold address_lt. apply cmp_trans. Qed.

Lemma read_effects_iff kind sequence count : forall previous input es rest,
  read_effects kind sequence count previous input = Ok (es, rest) ->
  length es = count /\ input = concat (map effect_data es) ++ rest /\
  Forall effect_typed es /\ Forall effect_fits es /\ ordered es /\ follows previous es.
Proof.
  induction count as [|count IH]; intros previous input es rest H; simpl in H.
  { injection H as <- <-. repeat split; try constructor. by destruct previous; simpl. }
  step_ok H as [e in1] eqn He. step_if H eqn Eo. step_ok H as [es' in2] eqn Hes. injection H as <- <-.
  apply read_effect_inv in He as (-> & Ht & Hf). apply IH in Hes as (<- & -> & Hts & Hfs & Ho & Hfo).
  simpl in *. rewrite <-app_assoc. do 2 (split; [done|]). do 2 (split; [by constructor|]).
  split; [by constructor|]. destruct previous as [p|]; simpl; [|done].
  assert (address_lt p e) as Hp by (rewrite cmp_le_lt in Eo; by apply cmp_lt_true, negb_false_iff).
  constructor; [done|]. eapply Forall_impl; [exact Hfo|]. intros x Hx. by eapply address_trans.
Qed.

Lemma read_effects_eq kind sequence es : forall previous rest,
  Forall (fun e => validate_effect sequence kind e = Ok tt) es ->
  Forall effect_typed es -> Forall effect_fits es -> ordered es -> follows previous es ->
  read_effects kind sequence (length es) previous (concat (map effect_data es) ++ rest) = Ok (es, rest).
Proof.
  induction es as [|e es IH]; intros previous rest Hv Ht Hf Ho Hp; simpl; [done|].
  apply Forall_cons_1 in Hv as [Hv Hvs]. apply Forall_cons_1 in Ht as [Ht Hts]. apply Forall_cons_1 in Hf as [Hf Hfs].
  apply StronglySorted_inv in Ho as [Ho Hlt].
  rewrite <-app_assoc, read_effect_eq by done. cbn [bindR].
  destruct previous as [p|]; simpl in Hp; [apply Forall_cons_1 in Hp as [Hp _];
    rewrite cmp_le_lt, (proj2 (cmp_lt_true _ _) Hp)|]; cbn [negb]; by rewrite IH.
Qed.

(** ** Sorting *)
Lemma insert_effect_perm e es : Permutation (insert_effect e es) (e :: es).
Proof.
  induction es as [|x es IH]; simpl; [done|]. destruct (cmp_le _ _); [done|].
  rewrite IH. apply perm_swap.
Qed.
Lemma sort_effects_perm es : Permutation (sort_effects es) es.
Proof. induction es as [|e es IH]; simpl; [done|]. by rewrite insert_effect_perm, IH. Qed.

Definition address_le (a b : Effect) : Prop := cmp_le (effect_address a) (effect_address b) = true.

Lemma insert_effect_sorted e es : Sorted address_le es -> Sorted address_le (insert_effect e es).
Proof.
  induction 1 as [|x es Hs IH Hh]; simpl; [by repeat constructor|].
  destruct (cmp_le (effect_address e) (effect_address x)) eqn:E; [by repeat constructor|].
  constructor; [done|].
  assert (address_le x e) as Hxe.
  { unfold address_le. rewrite cmp_le_lt in E |- *. apply negb_false_iff, cmp_lt_true in E.
    apply negb_true_iff. destruct (cmp_lt (effect_address e) (effect_address x)) eqn:E'; [|done].
    apply cmp_lt_true in E'. by apply cmp_asym in E. }
  destruct es as [|y es]; simpl; [by constructor|].
  destruct (cmp_le (effect_address e) (effect_address y)); constructor; [done|]. by inversion Hh.
Qed.
Lemma sort_effects_sorted es : Sorted address_le (sort_effects es).
Proof. induction es; simpl; [constructor|]. by apply insert_effect_sorted. Qed.

Lemma ordered_iff es : ordered es <-> Sorted address_le es /\ duplicate_address es = false.
Proof.
  split.
  - induction 1 as [|e es Hs [IH1 IH2] Hf]; [done|]. split.
    + constructor; [done|]. destruct Hf; constructor. by apply cmp_le_true; left.
    + destruct Hf as [|x es Hx Hf]; [done|]. change (bool_decide (effect_address e = effect_address x) || duplicate_address (x :: es) = false).
      rewrite IH2, bool_decide_false; [done|]. by apply cmp_lt_ne.
  - intros [Hs Hd]. apply Sorted_StronglySorted; [intros a b c; apply address_trans|].
    induction Hs as [|e es Hs IH Hh]; [constructor|]. destruct es as [|x es]; [by repeat constructor|].
    change (bool_decide (effect_address e = effect_address x) || duplicate_address (x :: es) = false) in Hd.
    apply orb_false_iff in Hd as [Hn Hd]. constructor; [by apply IH|]. constructor.
    inversion Hh as [|? ? Hle]; subst. apply cmp_le_true in Hle as [Hle|Hle]; [done|].
    by apply bool_decide_eq_false in Hn.
Qed.

Lemma sort_ordered es : ordered es -> sort_effects es = es.
Proof.
  induction 1 as [|e es Hs IH Hf]; simpl; [done|]. rewrite IH. destruct Hf as [|x es Hx Hf]; simpl; [done|].
  by rewrite (proj2 (cmp_le_true _ _) (or_introl Hx)).
Qed.

(** ** Validation *)
Definition effects_bytes (es : list Effect) : Z := foldr (fun e total => effect_bytes e + total) 0 es.

Lemma effect_bytes_nonneg e : 0 <= effect_bytes e.
Proof. destruct e as [t k v|t k|t v|p]; simpl; try pose proof (len_nonneg k); try pose proof (len_nonneg v); lia. Qed.
Lemma effects_bytes_nonneg es : 0 <= effects_bytes es.
Proof. induction es as [|e es IH]; simpl; [done|]. pose proof (effect_bytes_nonneg e). unfold effects_bytes in *. lia. Qed.

Abbreviation valid_effects sequence kind es := (Forall (fun e => validate_effect sequence kind e = Ok tt) es).

Lemma validate_effects_from sequence kind es : forall start total,
  0 <= start ->
  foldR (fun overlay_bytes effect =>
    let* _ := validate_effect sequence kind effect in
    arith_u64 (overlay_bytes + effect_bytes effect)) start es = Ok total ->
  valid_effects sequence kind es /\ total = start + effects_bytes es.
Proof.
  induction es as [|e es IH]; intros start total H0 H; simpl in *.
  { injection H as <-. split; [constructor|lia]. }
  step_ok H as s eqn Hs. step_ok Hs as [] eqn He. apply arith_u64_inv in Hs as [-> Hs].
  apply IH in H as [Hv ->]; [|lia]. split; [by constructor|]. unfold effects_bytes in *. lia.
Qed.

Lemma validate_effects_eq sequence kind es : forall start,
  0 <= start -> valid_effects sequence kind es -> start + effects_bytes es <= u64_max ->
  foldR (fun overlay_bytes effect =>
    let* _ := validate_effect sequence kind effect in
    arith_u64 (overlay_bytes + effect_bytes effect)) start es = Ok (start + effects_bytes es).
Proof.
  induction es as [|e es IH]; intros start H0 Hv Hl; simpl in *; [f_equal; lia|].
  apply Forall_cons_1 in Hv as [He Hv]. rewrite He. cbn [bindR].
  pose proof (effect_bytes_nonneg e). pose proof (effects_bytes_nonneg es). unfold effects_bytes in *.
  rewrite arith_u64_ok by lia. cbn [bindR]. rewrite IH by (done || lia). f_equal. lia.
Qed.

Definition returns_expected (sequence kind : Z) (ty : Ty) (v : Value) (es : list Effect) : Prop :=
  forall ety ev, expected_return sequence kind es = Some (ety, ev) -> ty = ety /\ v = ev.

Lemma validate_success_iff sequence kind ty v es u :
  validate_success sequence kind ty v es = Ok u <->
  len es <= 65535 /\ (kind = 1 \/ len es = 1) /\ returns_expected sequence kind ty v es /\
  valid_effects sequence kind es /\ effects_bytes es <= 67108864.
Proof.
  unfold validate_success, validate_effects, returns_expected. destruct u. split.
  - intros H. step_if H eqn E1. step_if H eqn E2. step_ok H as total eqn Ht. step_if H eqn E3.
    apply validate_effects_from in Ht as [Hv ->]; [|done]. apply orb_false_iff in E1 as [E1 E1'].
    split; [blia|]. split; [apply andb_false_iff in E1' as [?|?]; blia|]. split; [|split; [done|blia]].
    intros ety ev He. rewrite He in E2. apply orb_false_iff in E2 as [Ea Eb].
    apply negb_false_iff, bool_decide_eq_true in Ea. by apply negb_false_iff, bool_decide_eq_true in Eb.
  - intros (Hl & Hk & He & Hv & Hb). rewrite gtb_false by done. cbn [orb].
    assert ((negb (kind =? 1) && negb (len es =? 1)) = false) as ->.
    { destruct Hk as [->| ->]; [done|]. apply andb_false_r. }
    destruct (expected_return sequence kind es) as [[ety ev]|].
    + destruct (He _ _ eq_refl) as [-> ->]. rewrite !bool_decide_true by done. cbn [negb orb].
      rewrite validate_effects_eq by (done || (unfold u64_max; lia)). cbn [bindR]. by rewrite gtb_false.
    + rewrite validate_effects_eq by (done || (unfold u64_max; lia)). cbn [bindR]. by rewrite gtb_false.
Qed.

Lemma effects_bytes_perm es es' : Permutation es es' -> effects_bytes es = effects_bytes es'.
Proof. induction 1; simpl; unfold effects_bytes in *; lia. Qed.

Lemma validate_success_perm sequence kind ty v es es' u :
  Permutation es es' -> validate_success sequence kind ty v es = Ok u -> validate_success sequence kind ty v es' = Ok u.
Proof.
  intros Hp. rewrite !validate_success_iff. intros (Hl & Hk & He & Hv & Hb).
  assert (len es' = len es) as El by (unfold len; by rewrite Hp). rewrite El, <-(effects_bytes_perm _ _ Hp).
  split; [done|]. split; [done|]. split; [|split; [by rewrite <-Hp|done]].
  destruct Hk as [->|Hk]; [intros ? ?; done|]. destruct es as [|e [|]]; try (autorewrite with blop in *; pose proof (len_nonneg es)); try done.
  - apply Permutation_length_1_inv in Hp as ->. done.
  - exfalso. autorewrite with blop in Hk. pose proof (len_nonneg l). lia.
Qed.

(** ** The fixed fields *)
Record Frame : Type := {
  f_kind : byte; f_status : byte; f_sequence : Z; f_digest : bytes; f_reason : Z; f_instruction : Z;
  f_user_code : Z; f_detail : Z; f_returned : bytes; f_count : Z; f_tail : bytes }.

Definition frame_bytes (f : Frame) : bytes :=
  le_bytes 2 1 ++ f_kind f :: f_status f :: le_bytes 8 (f_sequence f) ++ f_digest f ++
  le_bytes 2 (f_reason f) ++ repeat x00 2 ++ le_bytes 4 (f_instruction f) ++ le_bytes 4 (f_user_code f) ++
  repeat x00 4 ++ le_bytes 8 (f_detail f) ++ blob_bytes (f_returned f) ++ le_bytes 4 (f_count f) ++ f_tail f.

Record frame_wf (f : Frame) : Prop := {
  frame_kind : check_kind (byte_Z (f_kind f)) = Ok tt;
  frame_id : valid_id (f_sequence f) = Ok tt;
  frame_sequence : 0 <= f_sequence f <= u64_max;
  frame_digest : len (f_digest f) = 32;
  frame_reason : 0 <= f_reason f <= u16_max;
  frame_instruction : 0 <= f_instruction f <= u32_max;
  frame_user_code : 0 <= f_user_code f <= u32_max;
  frame_detail : 0 <= f_detail f <= u64_max;
  frame_returned : len (f_returned f) <= u32_max;
  frame_count : 0 <= f_count f <= u32_max }.

Definition decode_body (f : Frame) : Result Error (Outcome * bytes) :=
  match f_status f with
  | x00 => decode_success (byte_Z (f_kind f)) (f_sequence f) (f_reason f) (f_instruction f)
             (f_user_code f) (f_detail f) (f_count f) (f_returned f) (f_tail f)
  | x01 =>
      let* outcome := decode_abort (byte_Z (f_kind f)) (f_reason f) (f_instruction f)
                        (f_user_code f) (f_detail f) (f_count f) (f_returned f) in
      Ok (outcome, f_tail f)
  | _ => Err (Error_Invalid "invalid outcome status")
  end.

Definition frame_record (f : Frame) (o : Outcome) : OutcomeRecord :=
  {| record_sequence := f_sequence f; record_digest := f_digest f;
     record_kind := byte_Z (f_kind f); record_outcome := o |}.

Lemma take_u32_inv truncated input z rest :
  take_le truncated input 4 = Ok (z, rest) -> input = le_bytes 4 z ++ rest /\ 0 <= z <= u32_max.
Proof. intros H. apply (take_le_inv _ _ 4) in H as [-> Hz]; [|done]. split; [done|]. unfold u32_max. lia. Qed.
Lemma take_u32_app truncated z rest :
  0 <= z <= u32_max -> take_le truncated (le_bytes 4 z ++ rest) 4 = Ok (z, rest).
Proof. intros Hz. apply take_le_app; [done|]. unfold u32_max in Hz. lia. Qed.
Lemma take_u16_inv truncated input z rest :
  take_le truncated input 2 = Ok (z, rest) -> input = le_bytes 2 z ++ rest /\ 0 <= z <= u16_max.
Proof. intros H. apply (take_le_inv _ _ 2) in H as [-> Hz]; [|done]. split; [done|]. unfold u16_max. lia. Qed.
Lemma take_u16_app truncated z rest :
  0 <= z <= u16_max -> take_le truncated (le_bytes 2 z ++ rest) 2 = Ok (z, rest).
Proof. intros Hz. apply take_le_app; [done|]. unfold u16_max in Hz. lia. Qed.

Lemma check_zero_ok n field u : check_zero n field = Ok u <-> field = repeat x00 n.
Proof. unfold check_zero. destruct u. case_bool_decide; simpl; naive_solver. Qed.

Lemma decode_outcome_inv data r :
  decode_outcome data = Ok r ->
  exists f o, data = frame_bytes f /\ len data <= MAX_OUTCOME_BYTES /\ frame_wf f /\
    decode_body f = Ok (o, []) /\ r = frame_record f o.
Proof.
  unfold decode_outcome. intros H. step_if H eqn El. step_ok H as [version in1] eqn Hver. step_if H eqn Ever.
  step_ok H as [kind in2] eqn Hkind. step_ok H as [] eqn Hck. step_ok H as [status in3] eqn Hst.
  step_ok H as [sequence in4] eqn Hseq. step_ok H as [] eqn Hid. step_ok H as [digest in5] eqn Hdig.
  step_ok H as [reason in6] eqn Hre. step_ok H as [z1 in7] eqn Hz1. step_ok H as [] eqn Hc1.
  step_ok H as [instruction in8] eqn Hin. step_ok H as [user_code in9] eqn Huc.
  step_ok H as [z2 in10] eqn Hz2. step_ok H as [] eqn Hc2. step_ok H as [detail in11] eqn Hde.
  step_ok H as [returned in12] eqn Hret. step_ok H as [count in13] eqn Hcnt.
  step_ok H as [o in14] eqn Hbody. destruct in14; [|done]. injection H as <-.
  apply take_u16_inv in Hver as [-> _]. apply negb_false_iff, Z.eqb_eq in Ever as ->.
  apply take_byte_inv in Hkind as ->. apply take_byte_inv in Hst as ->. apply take_u64_inv in Hseq as [-> Rseq].
  apply take_bytes_inv in Hdig as [-> Rdig]; [|done]. apply take_u16_inv in Hre as [-> Rre].
  apply take_bytes_inv in Hz1 as [-> _]; [|done]. apply check_zero_ok in Hc1 as ->.
  apply take_u32_inv in Hin as [-> Rin]. apply take_u32_inv in Huc as [-> Ruc].
  apply take_bytes_inv in Hz2 as [-> _]; [|done]. apply check_zero_ok in Hc2 as ->.
  apply take_u64_inv in Hde as [-> Rde]. apply take_blob_inv in Hret as [-> Rret]. apply take_u32_inv in Hcnt as [-> Rcnt].
  exists (Build_Frame kind status sequence digest reason instruction user_code detail returned count in13), o.
  split; [done|]. split; [blia|]. split; [by split|]. by split.
Qed.

Lemma decode_outcome_frame f o :
  frame_wf f -> len (frame_bytes f) <= MAX_OUTCOME_BYTES -> decode_body f = Ok (o, []) ->
  decode_outcome (frame_bytes f) = Ok (frame_record f o).
Proof.
  intros [] Hl Hb. unfold decode_outcome. rewrite gtb_false by done. unfold frame_bytes.
  rewrite take_u16_app by done. cbn [bindR]. change (negb (1 =? 1)) with false. cbv iota.
  rewrite take_byte_cons. cbn [bindR]. rewrite frame_kind0. cbn [bindR]. rewrite take_byte_cons. cbn [bindR].
  rewrite take_u64_app by done. cbn [bindR]. rewrite frame_id0. cbn [bindR].
  rewrite take_bytes_app by done. cbn [bindR]. rewrite take_u16_app by done. cbn [bindR].
  rewrite take_bytes_app by done. cbn [bindR]. rewrite (proj2 (check_zero_ok 2 _ tt)) by done. cbn [bindR].
  rewrite take_u32_app by done. cbn [bindR]. rewrite take_u32_app by done. cbn [bindR].
  rewrite take_bytes_app by done. cbn [bindR]. rewrite (proj2 (check_zero_ok 4 _ tt)) by done. cbn [bindR].
  rewrite take_u64_app by done. cbn [bindR]. rewrite take_blob_app by done. cbn [bindR].
  rewrite take_u32_app by done. cbn [bindR]. unfold decode_body in Hb. by rewrite Hb.
Qed.

(** ** Successes *)
Lemma walk_rows_walked : rows_walked walk_rows.
Proof. by intros ty depth key value. Qed.

Lemma outcome_descriptor_iff ty data :
  valid_type 1 ty = true ->
  outcome_descriptor ty = Ok data <-> descriptor (E:=Error) ty = Ok data /\ len data <= MAX_DESCRIPTOR_BYTES.
Proof.
  intros Hv. unfold outcome_descriptor. split.
  - intros H. step_ok H as u eqn Hw. step_ok H as d eqn Hd. step_ok H as ty' eqn Hty. injection H as ->.
    apply decode_descriptor_iff in Hty as (_ & _ & Hl). done.
  - intros (Hd & Hl). pose proof Hd as Hd'. unfold descriptor in Hd'. step_ok Hd' as part eqn Hp. injection Hd' as Hd'.
    assert (len part <= 65534) as Hlen.
    { subst data. autorewrite with blop in Hl. unfold MAX_DESCRIPTOR_BYTES in Hl. lia. }
    rewrite (walk_accepts _ _ walk_rows walk_fuel [(ty, 1)] [part]);
      try (cbn [concat]; rewrite app_nil_r; unfold walk_fuel; lia); try by repeat constructor.
    cbn [bindR]. rewrite Hd. cbn [bindR]. by rewrite (proj2 (decode_descriptor_iff data ty)).
Qed.

Definition returned_bytes (d data : bytes) : bytes := blob_bytes d ++ blob_bytes data.

Definition success_frame (sequence : Z) (digest : bytes) (kind : Z) (d data : bytes) (es : list Effect) : Frame :=
  {| f_kind := Z_byte kind; f_status := x00; f_sequence := sequence; f_digest := digest; f_reason := 0;
     f_instruction := u32_max; f_user_code := 0; f_detail := 0; f_returned := returned_bytes d data;
     f_count := len es; f_tail := concat (map effect_data es) |}.

(** What the encoder checks of a success, with the encodings of its return. *)
Record success_ok (sequence kind : Z) (ty : Ty) (v : Value) (es : list Effect) (d data : bytes) : Prop := {
  success_descriptor : descriptor (E:=Error) ty = Ok d /\ len d <= MAX_DESCRIPTOR_BYTES;
  success_accepts : accepts ty v = true;
  success_valid : validate_success sequence kind ty v es = Ok tt;
  success_data : encode (E:=Error) v = Ok data;
  success_fits : len d <= u32_max /\ len data <= u32_max /\ len (returned_bytes d data) <= u32_max;
  success_ordered : ordered (sort_effects es);
  success_effects : Forall effect_fits (sort_effects es) }.

Lemma encode_success_iff sequence kind ty v es output out :
  valid_type 1 ty = true ->
  encode_success sequence kind ty v es output = Ok out <->
  exists d data, success_ok sequence kind ty v es d data /\
    out = output ++ repeat x00 4 ++ le_bytes 4 u32_max ++ repeat x00 16 ++
          blob_bytes (returned_bytes d data) ++ le_bytes 4 (len es) ++ concat (map effect_data (sort_effects es)).
Proof.
  intros Hv. unfold encode_success. split.
  - intros H. step_ok H as d eqn Hd. step_if H eqn Ea. step_ok H as [] eqn Hvs. step_ok H as r1 eqn H1.
    step_ok H as data eqn Hdata. step_ok H as r2 eqn H2. step_ok H as o eqn Ho. step_if H eqn Edup.
    apply outcome_descriptor_iff in Hd; [|done]. apply negb_false_iff in Ea.
    apply put_blob_ok in H1 as [L1 ->]. apply put_blob_ok in H2 as [L2 ->]. apply put_blob_ok in Ho as [L3 ->].
    apply foldR_encode_effect in H as [-> Hf]. exists d, data. split; [|by rewrite <-!app_assoc].
    split; try done. apply ordered_iff. split; [apply sort_effects_sorted|done].
  - intros (d & data & [Hd Ha Hvs Hdata (L1 & L2 & L3) Ho Hf] & ->).
    rewrite (proj2 (outcome_descriptor_iff ty d Hv)) by done. cbn [bindR]. rewrite Ha, Hvs. cbn [negb bindR].
    rewrite put_blob_eq by done. cbn [bindR]. rewrite Hdata. cbn [bindR]. rewrite put_blob_eq by done.
    cbn [bindR]. rewrite put_blob_eq by done. cbn [bindR]. rewrite (proj2 (proj1 (ordered_iff _) Ho)).
    apply foldR_encode_effect. split; [|done]. by rewrite <-!app_assoc.
Qed.

Lemma success_frame_bytes sequence digest kind d data es :
  frame_bytes (success_frame sequence digest kind d data es) =
  ([x01; x00; Z_byte kind; x00] ++ le_bytes 8 sequence ++ digest) ++
  repeat x00 4 ++ le_bytes 4 u32_max ++ repeat x00 16 ++
  blob_bytes (returned_bytes d data) ++ le_bytes 4 (len es) ++ concat (map effect_data es).
Proof. unfold frame_bytes. simpl. by rewrite <-!app_assoc. Qed.

Lemma effect_data_min e : effect_typed e -> 13 <= len (effect_data e).
Proof.
  destruct e as [t k v|t k|t v|p]; cbn [effect_data effect_typed]; intros Hp; autorewrite with blop;
    try pose proof (len_nonneg k); try pose proof (len_nonneg v); try lia.
  rewrite len_policy by done. unfold POLICY_LENGTH. lia.
Qed.
Lemma effects_data_min es : Forall effect_typed es -> 13 * len es <= len (concat (map effect_data es)).
Proof.
  induction 1 as [|e es He _ IH]; cbn [map concat]; autorewrite with blop; [done|].
  pose proof (effect_data_min e He). lia.
Qed.

Lemma decode_success_inv kind sequence reason instruction user_code detail count returned tail ty v es :
  0 <= count ->
  decode_success kind sequence reason instruction user_code detail count returned tail = Ok (Success ty v es, []) ->
  reason = 0 /\ instruction = u32_max /\ user_code = 0 /\ detail = 0 /\ count = len es /\
  tail = concat (map effect_data es) /\ valid_type 1 ty = true /\ value_wf v = true /\ Forall effect_typed es /\
  ordered es /\ exists d data, returned = returned_bytes d data /\
    (len returned <= u32_max -> success_ok sequence kind ty v es d data).
Proof.
  unfold decode_success. intros Hc H. step_if H eqn E1. step_if H eqn E2. step_ok H as [d r1] eqn Hd.
  step_ok H as ty' eqn Hty. step_ok H as [data r2] eqn Hdata. step_ok H as v' eqn Hv. destruct r2; [|done].
  step_ok H as [es' in1] eqn Hes. step_ok H as [] eqn Hvs. injection H as -> -> -> ->.
  apply orb_false_iff in E1 as [E1 Ed]. apply orb_false_iff in E1 as [E1 Eu]. apply orb_false_iff in E1 as [Er Ei].
  apply negb_false_iff, Z.eqb_eq in Ed as ->, Eu as ->, Er as ->, Ei as ->.
  apply take_blob_inv in Hd as [-> Ld]. apply take_blob_inv in Hdata as [-> Ldata]. rewrite app_nil_r.
  apply decode_descriptor_iff in Hty as (Hdesc & Hvt & Hld). apply (decode_value_iff _ 1) in Hv as (Hev & Ha & Hwf); [|done].
  apply read_effects_iff in Hes as (Hlen & -> & Ht & Hf & Ho & _). rewrite app_nil_r.
  split; [done|]. split; [done|]. split; [done|]. split; [done|]. split; [unfold len; lia|].
  split; [done|]. split; [done|]. split; [done|]. split; [done|]. split; [done|]. exists d, data. split; [done|].
  intros Hr. split; try done; by rewrite sort_ordered.
Qed.

Lemma decode_success_eq kind sequence d data ty v es :
  valid_type 1 ty = true -> value_wf v = true -> Forall effect_typed es -> ordered es ->
  success_ok sequence kind ty v es d data ->
  decode_success kind sequence 0 u32_max 0 0 (len es) (returned_bytes d data) (concat (map effect_data es)) =
  Ok (Success ty v es, []).
Proof.
  intros Hvt Hwf Ht Ho [[Hd Hl] Ha Hvs Hdata (L1 & L2 & _) _ Hf]. rewrite sort_ordered in Hf by done.
  unfold decode_success. change (negb (0 =? 0) || negb (u32_max =? u32_max) || negb (0 =? 0) || negb (0 =? 0)) with false.
  cbv iota. pose proof Hvs as (Hlen & Hk & _ & Hve & _)%validate_success_iff. rewrite gtb_false by done.
  pose proof (effects_data_min es Ht) as Hmin. rewrite gtb_false by (apply Z.div_le_lower_bound; lia).
  assert ((negb (kind =? 1) && negb (len es =? 1)) = false) as ->.
  { destruct Hk as [->| ->]; [done|]. apply andb_false_r. }
  cbn [orb]. unfold returned_bytes. rewrite take_blob_app by done. cbn [bindR].
  rewrite (proj2 (decode_descriptor_iff d ty)) by done. cbn [bindR].
  rewrite <-(app_nil_r (blob_bytes data)), take_blob_app by done. cbn [bindR].
  rewrite (proj2 (decode_value_iff ty 1 data v Hvt)) by done. cbn [bindR].
  unfold len. rewrite Nat2Z.id. pose proof (read_effects_eq kind sequence es None [] Hve Ht Hf Ho I) as Hr.
  rewrite app_nil_r in Hr. rewrite Hr. cbn [bindR]. by rewrite Hvs.
Qed.

(** ** Aborts *)
Lemma abort_reason_iff code r : abort_reason code = Ok r <-> code = reason_code r.
Proof.
  split; [|by intros ->; destruct r].
  unfold abort_reason. intros H.
  repeat (match type of H with context [match ?z with _ => _ end] => destruct z end; try discriminate H);
    injection H as <-; done.
Qed.
Lemma reason_code_range r : 1 <= reason_code r <= 17.
Proof. destruct r; simpl; lia. Qed.

Definition abort_frame (sequence : Z) (digest : bytes) (kind : Z) (a : Abort) : Frame :=
  {| f_kind := Z_byte kind; f_status := x01; f_sequence := sequence; f_digest := digest;
     f_reason := reason_code (reason a); f_instruction := instruction a; f_user_code := user_code a;
     f_detail := detail a; f_returned := []; f_count := 0; f_tail := [] |}.

Lemma abort_frame_bytes sequence digest kind a :
  frame_bytes (abort_frame sequence digest kind a) =
  ([x01; x00; Z_byte kind; x01] ++ le_bytes 8 sequence ++ digest) ++
  le_bytes 2 (reason_code (reason a)) ++ repeat x00 2 ++ le_bytes 4 (instruction a) ++
  le_bytes 4 (user_code a) ++ repeat x00 4 ++ le_bytes 8 (detail a) ++ repeat x00 8.
Proof. unfold frame_bytes. cbn [abort_frame f_kind f_status f_sequence f_digest f_reason f_instruction f_user_code
  f_detail f_returned f_count f_tail]. by rewrite <-!app_assoc. Qed.

Lemma decode_abort_iff kind code instruction user_code detail count returned o :
  decode_abort kind code instruction user_code detail count returned = Ok o <->
  exists a, o = Aborted a /\ returned = [] /\ count = 0 /\ validate_abort kind a = Ok tt /\
    code = reason_code (reason a) /\ instruction = Outcome.instruction a /\
    user_code = Outcome.user_code a /\ detail = Outcome.detail a.
Proof.
  unfold decode_abort. split.
  - intros H. step_if H eqn E. step_ok H as r eqn Hr. step_ok H as [] eqn Hv. injection H as <-.
    apply orb_false_iff in E as [E1 E2]. apply negb_false_iff, bool_decide_eq_true in E1.
    apply negb_false_iff, Z.eqb_eq in E2. apply abort_reason_iff in Hr. eexists. by repeat split.
  - intros (a & -> & -> & -> & Hv & -> & -> & -> & ->). rewrite bool_decide_true by done. cbn [negb orb Z.eqb].
    rewrite (proj2 (abort_reason_iff _ (reason a))) by done. cbn [bindR]. destruct a. simpl in *. by rewrite Hv.
Qed.

(** ** Records *)
Definition outcome_wf (o : Outcome) : Prop :=
  match o with
  | Success ty v es => valid_type 1 ty = true /\ value_wf v = true /\ Forall effect_typed es
  | Aborted a => 0 <= instruction a <= u32_max /\ 0 <= user_code a <= u32_max /\ 0 <= detail a <= u64_max
  end.

(** The values a Rust [OutcomeRecord] can hold. *)
Record record_wf (r : OutcomeRecord) : Prop := {
  wf_record_sequence : 0 <= record_sequence r <= u64_max;
  wf_record_digest : len (record_digest r) = 32;
  wf_record_outcome : outcome_wf (record_outcome r) }.

Definition canonical (o : Outcome) : Prop :=
  match o with Success _ _ es => ordered es | Aborted _ => True end.

(** The outcome with its effects in canonical order. *)
Definition sorted_outcome (o : Outcome) : Outcome :=
  match o with Success ty v es => Success ty v (sort_effects es) | Aborted a => Aborted a end.

Lemma sorted_canonical o : canonical o -> sorted_outcome o = o.
Proof. destruct o; simpl; [|done]. intros H. by rewrite sort_ordered. Qed.

Abbreviation encode_record r :=
  (encode_outcome (record_sequence r) (record_digest r) (record_kind r) (record_outcome r)).

Lemma check_kind_ok kind u : check_kind kind = Ok u <-> 1 <= kind <= 3.
Proof.
  unfold check_kind, between. destruct u. destruct (Z.leb_spec 1 kind), (Z.leb_spec kind 3); simpl; naive_solver lia.
Qed.

Lemma encode_outcome_iff sequence digest kind o out :
  outcome_wf o ->
  encode_outcome sequence digest kind o = Ok out <->
  valid_id sequence = Ok tt /\ 1 <= kind <= 3 /\ len out <= MAX_OUTCOME_BYTES /\
  match o with
  | Success ty v es => exists d data, success_ok sequence kind ty v es d data /\
      len es <= 65535 /\ out = frame_bytes (success_frame sequence digest kind d data (sort_effects es))
  | Aborted a => validate_abort kind a = Ok tt /\ out = frame_bytes (abort_frame sequence digest kind a)
  end.
Proof.
  intros Hwf. unfold encode_outcome.
  assert (forall es, len (sort_effects es) = len es) as Hlen by (intros; unfold len; by rewrite sort_effects_perm).
  destruct o as [ty v es|a].
  - destruct Hwf as (Hv & _). split.
    + intros H. step_ok H as [] eqn Hid. step_ok H as [] eqn Hk. step_ok H as o eqn Ho. step_if H eqn El. injection H as ->.
      apply check_kind_ok in Hk. apply encode_success_iff in Ho as (d & data & Hok & ->); [|done].
      split; [done|]. split; [done|]. split; [blia|]. exists d, data. split; [done|].
      pose proof (success_valid _ _ _ _ _ _ _ Hok) as (Hl & _)%validate_success_iff. split; [done|].
      by rewrite success_frame_bytes, Hlen.
    + intros (Hid & Hk & Hl & d & data & Hok & Hes & ->). rewrite Hid, (proj2 (check_kind_ok kind tt)) by done. cbn [bindR].
      rewrite (proj2 (encode_success_iff sequence kind ty v es _ _ Hv)) by (exists d, data; split; [exact Hok|reflexivity]).
      cbn [bindR]. rewrite success_frame_bytes, Hlen in *. by rewrite gtb_false.
  - split.
    + intros H. step_ok H as [] eqn Hid. step_ok H as [] eqn Hk. step_ok H as o eqn Ho. step_if H eqn El. injection H as ->.
      apply check_kind_ok in Hk. unfold encode_abort in Ho. step_ok Ho as [] eqn Hv. injection Ho as <-.
      split; [done|]. split; [done|]. split; [blia|]. by rewrite abort_frame_bytes.
    + intros (Hid & Hk & Hl & Hv & ->). rewrite Hid, (proj2 (check_kind_ok kind tt)) by done. cbn [bindR].
      unfold encode_abort. rewrite Hv. cbn [bindR]. rewrite abort_frame_bytes in *. by rewrite gtb_false.
Qed.

Lemma Z_byte_kind kind : 1 <= kind <= 3 -> byte_Z (Z_byte kind) = kind.
Proof. intros. rewrite byte_Z_byte. apply Z.mod_small. lia. Qed.

(** Decoding an encoded outcome gives it back, its effects sorted. *)
Lemma encode_decode_outcome r data :
  record_wf r -> encode_record r = Ok data ->
  decode_outcome data = Ok {| record_sequence := record_sequence r; record_digest := record_digest r;
    record_kind := record_kind r; record_outcome := sorted_outcome (record_outcome r) |}.
Proof.
  destruct r as [sequence digest kind o]. intros [Hs Hd Ho] H. simpl in *.
  apply encode_outcome_iff in H as (Hid & Hk & Hl & H); [|done]. pose proof (Z_byte_kind kind Hk) as Ek.
  destruct o as [ty v es|a]; simpl in Ho.
  - destruct H as (d & data' & Hok & Hes & ->). destruct Ho as (Hv & Hw & Ht).
    assert (Permutation es (sort_effects es)) as Hp by (symmetry; apply sort_effects_perm).
    rewrite (decode_outcome_frame _ (Success ty v (sort_effects es))); try done.
    + unfold frame_record. simpl. by rewrite Ek.
    + split; simpl; try done; rewrite ?Ek; try lia; [by apply check_kind_ok|apply Hok|].
      unfold len in *. rewrite <-Hp. unfold u32_max. lia.
    + unfold decode_body. cbn [success_frame f_kind f_status f_sequence f_reason f_instruction f_user_code f_detail f_returned f_count f_tail].
      rewrite Ek. destruct Hok. apply decode_success_eq; try done; [by rewrite <-Hp|].
      assert (sort_effects (sort_effects es) = sort_effects es) as Es by by apply sort_ordered.
      split; rewrite ?Es; try done. by eapply validate_success_perm.
  - destruct H as (Hv & ->). rewrite (decode_outcome_frame _ (Aborted a)); try done.
    + unfold frame_record. simpl. by rewrite Ek.
    + pose proof (reason_code_range (reason a)). split; simpl; try done; rewrite ?Ek; unfold u16_max; try lia.
      by apply check_kind_ok.
    + unfold decode_body. cbn [abort_frame f_kind f_status f_sequence f_reason f_instruction f_user_code f_detail f_returned f_count f_tail].
      rewrite Ek. rewrite (proj2 (decode_abort_iff _ _ _ _ _ _ _ (Aborted a))); [done|]. by exists a.
Qed.

(** Whatever decodes is the canonical encoding of what it decodes to. *)
Lemma decode_encode_outcome data r :
  decode_outcome data = Ok r -> encode_record r = Ok data /\ record_wf r /\ canonical (record_outcome r).
Proof.
  intros (f & o & -> & Hl & Hwf & Hb & ->)%decode_outcome_inv. pose proof Hwf as [].
  destruct f as [kind status sequence digest code instr user det returned count tail]. simpl in *.
  apply check_kind_ok in frame_kind0. unfold decode_body in Hb. simpl in Hb.
  destruct status; try discriminate Hb.
  - destruct o as [ty v es|a]; [|exfalso; unfold decode_success in Hb; inv_ok; simplify_eq].
    apply decode_success_inv in Hb as (-> & -> & -> & -> & -> & -> & Hv & Hw & Ht & Ho & d & data & -> & Hok); [|lia].
    split; [|by split]. simpl. apply encode_outcome_iff; [done|]. split; [done|]. split; [done|]. split; [done|].
    exists d, data. split; [by apply Hok|]. rewrite sort_ordered by done. unfold success_frame. rewrite Z_byte_Z.
    split; [|done]. pose proof (success_valid _ _ _ _ _ _ _ (Hok frame_returned0)) as (? & _)%validate_success_iff. done.
  - step_ok Hb as o' eqn Hab. injection Hb as -> ->.
    apply decode_abort_iff in Hab as (a & -> & -> & -> & Hv & -> & -> & -> & ->). split; [|by split]. simpl.
    apply encode_outcome_iff; [done|]. split; [done|]. split; [done|]. split; [done|]. split; [done|].
    unfold abort_frame. by rewrite Z_byte_Z.
Qed.

(** ** Totality *)
Lemma StateKey_new_no_panic table key sequence : no_panic (StateKey_new table key sequence).
Proof. unfold StateKey_new, check_snapshot, check_user_key. solve_no_panic. Qed.
#[export] Hint Resolve StateKey_new_no_panic map_err_no_panic : no_panic.

Lemma validate_effect_no_panic sequence kind e : no_panic (validate_effect sequence kind e).
Proof. unfold validate_effect, kind_mismatch. solve_no_panic. Qed.
Lemma validate_abort_no_panic kind a : no_panic (validate_abort kind a).
Proof. unfold validate_abort. solve_no_panic. Qed.
#[export] Hint Resolve validate_effect_no_panic validate_abort_no_panic : no_panic.

Lemma validate_effect_bytes sequence kind e u :
  validate_effect sequence kind e = Ok u -> effect_bytes e <= 16778249.
Proof.
  unfold validate_effect, kind_mismatch. destruct e as [t k v|t k|t v|p]; simpl; try lia; intros H;
    destruct (kind =? 1); try done; step_ok H as key eqn Hk; apply map_err_ok, StateKey_new_bounds in Hk;
    unfold MAX_KEY_BYTES in *; [step_if H eqn E|]; blia.
Qed.

Lemma validate_effects_no_panic sequence kind es : forall start,
  0 <= start -> start + len es * 16778249 <= u64_max ->
  no_panic (foldR (fun overlay_bytes effect =>
    let* _ := validate_effect sequence kind effect in
    arith_u64 (overlay_bytes + effect_bytes effect)) start es).
Proof.
  induction es as [|e es IH]; intros start H0 Hl; simpl; [done|]. autorewrite with blop in Hl. pose proof (len_nonneg es).
  destruct (validate_effect sequence kind e) eqn:E; cbn [bindR]; [|done|by apply validate_effect_no_panic in E].
  apply validate_effect_bytes in E. pose proof (effect_bytes_nonneg e). rewrite arith_u64_ok by lia. cbn [bindR]. apply IH; lia.
Qed.

Lemma validate_success_no_panic sequence kind ty v es : no_panic (validate_success sequence kind ty v es).
Proof.
  unfold validate_success. destruct (_ || _) eqn:E; [done|].
  assert (no_panic (validate_effects sequence kind es)).
  { apply orb_false_iff in E as [E _]. apply validate_effects_no_panic; [done|]. unfold u64_max. blia. }
  solve_no_panic.
Qed.

Lemma read_effect_no_panic kind sequence input : no_panic (read_effect kind sequence input).
Proof.
  assert (forall i, no_panic (read_address sequence i)) by (intros; unfold read_address; solve_no_panic).
  assert (forall d, no_panic (LimitPolicy_decode d)) by apply LimitPolicy_decode_no_panic.
  unfold read_effect, kind_mismatch. solve_no_panic.
Qed.
Lemma read_effects_no_panic kind sequence count : forall previous input,
  no_panic (read_effects kind sequence count previous input).
Proof.
  induction count as [|count IH]; intros; simpl; [done|].
  apply bindR_no_panic; [apply read_effect_no_panic|]. intros [e i] _. match goal with |- no_panic (if ?b then _ else _) => destruct b; [done|] end.
  apply bindR_no_panic; [apply IH|]. by intros [].
Qed.
#[export] Hint Resolve decode_value_no_panic read_effects_no_panic validate_success_no_panic : no_panic.

Lemma decode_outcome_no_panic data : no_panic (decode_outcome data).
Proof.
  unfold decode_outcome, decode_success, decode_abort, check_kind, check_zero, abort_reason. solve_no_panic.
Qed.


(** The encoder panics on no value its type accepts. *)
Lemma encode_outcome_no_panic sequence digest kind o : outcome_wf o -> no_panic (encode_outcome sequence digest kind o).
Proof.
  intros Hwf. unfold encode_outcome, check_kind, encode_abort. destruct o as [ty v es|a]; [|solve_no_panic].
  apply bindR_no_panic; [solve_no_panic|]. intros _ _. apply bindR_no_panic; [solve_no_panic|]. intros _ _.
  apply bindR_no_panic; [|intros data _; solve_no_panic]. unfold encode_success.
  apply bindR_no_panic; [apply walked_no_panic; [apply walk_rows_walked|intros; solve_no_panic]|]. intros d _.
  destruct (accepts ty v) eqn:Ha; [|done]. cbn [negb].
  destruct (encode_value_ok (E:=Error) ty 1 v (proj1 Hwf) Ha) as [data Hd]. unfold encode. rewrite Hd. cbn [bindR].
  assert (forall output es, no_panic (foldR encode_effect output es)) as Hf.
  { intros. apply foldR_no_panic. intros b e. unfold encode_effect. solve_no_panic. }
  solve_no_panic.
Qed.
