(* ===== verification/Administration.v ===== *)
(** * Administration and installation ([src/src/vm/database.rs])

    Historical catalogue and policy reads, the administrative records computed
    from them, and the installation of an outcome. *)
From S2P Require Import Prelude OrdMap Errors Reader Value Encoding Limits Operations Program Catalogue Storage Mvcc Outcome.

Section Reads.
Context `{Storage View Cell}.

Definition catalogue_version (view : View) (id sequence : Z) : Result Error (option CatalogueVersion) :=
  let* _ := valid_id id in
  if sequence =? u64_max then Err (Error_Invalid "reserved snapshot sequence") else
  let lower := catalogue_key id sequence in
  let* next := arith_u64 (id + 1) in
  let upper := be_bytes 8 next in
  let* entries := map_err Error_Storage (storage_scan view Catalogue (Included lower) (Excluded upper)) in
  match entries with
  | [] => Ok None
  | entry :: _ =>
      let* (key, value) := map_err Error_Storage entry in
      let* (found_id, found_sequence) := decode_catalogue_key key in
      if negb (found_id =? id) || (found_sequence >? sequence)
      then Err (Error_Storage (Corrupt "unexpected catalogue seek result")) else
      let* version := map_err persisted (decode_catalogue id value) in
      Ok (Some version)
  end.

(** [.filter(|version| version.live)] *)
Definition live_version (version : option CatalogueVersion) : option CatalogueVersion :=
  match version with
  | Some version => if live version then Some version else None
  | None => None
  end.

(** [database::table] *)
Definition database_table (view : View) (id sequence : Z) : Result Error Table :=
  let* version := catalogue_version view id sequence in
  match live_version version with
  | Some version => Ok (version_table version)
  | None => Err (Error_Invalid "table is unknown or dropped")
  end.

(** The loop of [database::policy]. *)
Fixpoint policy_entries (latest : option LimitPolicy) (entries : Stream StorageError Entry)
    : Result Error (option LimitPolicy) :=
  match entries with
  | [] => Ok latest
  | entry :: entries =>
      let* (key, value) := map_err Error_Storage entry in
      if negb (len key =? 8) then Err (Error_Storage (Corrupt "invalid policy key length")) else
      if match latest with None => negb (bool_decide (key = repeat x00 8)) | Some _ => false end
      then Err (Error_Storage (Corrupt "missing genesis policy")) else
      let* policy := map_err input_error (LimitPolicy_decode value) in
      policy_entries (Some policy) entries
  end.

(** [database::policy] *)
Definition database_policy (view : View) (sequence : Z) : Result Error LimitPolicy :=
  if sequence =? u64_max then Err (Error_Invalid "reserved snapshot sequence") else
  let upper := be_bytes 8 sequence in
  let* entries := map_err Error_Storage (storage_scan view Policy Unbounded (Included upper)) in
  let* latest := policy_entries None entries in
  ok_or (Error_Storage (Corrupt "missing genesis policy")) latest.

(** The loop of [name_in_use]. *)
Fixpoint name_entries (sequence : Z) (wanted : bytes) (except selected : option Z)
    (entries : Stream StorageError Entry) : Result Error bool :=
  match entries with
  | [] => Ok false
  | entry :: entries =>
      let* (key, value) := map_err Error_Storage entry in
      let* (id, effective) := decode_catalogue_key key in
      if (effective >? sequence) || bool_decide (selected = Some id)
      then name_entries sequence wanted except selected entries else
      let* version := map_err persisted (decode_catalogue id value) in
      if live version && bool_decide (name version = wanted) && negb (bool_decide (except = Some id))
      then Ok true
      else name_entries sequence wanted except (Some id) entries
  end.

Definition name_in_use (view : View) (sequence : Z) (wanted : bytes) (except : option Z) : Result Error bool :=
  let* entries := map_err Error_Storage (storage_scan view Catalogue Unbounded Unbounded) in
  name_entries sequence wanted except None entries.

Definition administrative_abort (reason : AbortReason) : Outcome :=
  Aborted {| reason := reason; instruction := u32_max; user_code := 0; detail := 0 |}.

Definition validate_catalogue (operation : CatalogueOperation) : Result Error unit :=
  match operation with
  | Create name key value =>
      let* _ := valid_name name in
      let* _ := schema_descriptor key true in
      let* _ := schema_descriptor value false in
      Ok tt
  | Rename table name =>
      let* _ := valid_id table in
      valid_name name
  | Drop_ table => valid_id table
  end.

(** The success of an administrative record. *)
Definition catalogue_success (version : CatalogueVersion) (result_type : Ty) (value : Value) : Result Error Outcome :=
  let* data := encode_catalogue version in
  Ok (Success result_type value [Effect_Catalogue (table_id (version_table version)) data]).

(** [database::catalogue] *)
Definition database_catalogue (view : View) (sequence : Z) (operation : CatalogueOperation) : Result Error Outcome :=
  let* _ := valid_id sequence in
  let* _ := validate_catalogue operation in
  let* prior := arith_u64 (sequence - 1) in
  match operation with
  | Create new_name key value =>
      let* used := name_in_use view prior new_name None in
      if used : bool then Ok (administrative_abort NameInUse) else
      catalogue_success
        {| live := true; name := new_name;
           version_table := {| table_id := sequence; table_key := key; table_value := value |} |}
        Type_U64 (Value_U64 sequence)
  | Rename table new_name =>
      let* version := catalogue_version view table prior in
      match live_version version with
      | None => Ok (administrative_abort TableNotLive)
      | Some version =>
          let* used := name_in_use view prior new_name (Some table) in
          if used : bool then Ok (administrative_abort NameInUse) else
          catalogue_success
            {| live := live version; name := new_name; version_table := version_table version |}
            Type_Unit Value_Unit
      end
  | Drop_ table =>
      let* version := catalogue_version view table prior in
      match live_version version with
      | None => Ok (administrative_abort TableNotLive)
      | Some version =>
          catalogue_success
            {| live := false; name := name version; version_table := version_table version |}
            Type_Unit Value_Unit
      end
  end.

(** [database::limits] *)
Definition database_limits (policy : LimitPolicy) : Outcome :=
  Success Type_Unit Value_Unit [Effect_Limits policy].

(** ** Installation *)
Definition effect_mutation (sequence : Z) (effect : Effect) : Result Error Mutation :=
  let* (tree, key, value) :=
    match effect with
    | Effect_Put table key value =>
        let* state := map_err Error_Storage (StateKey_new table key sequence) in
        let* data := map_err Error_Storage (StateValue_encode (Put value)) in
        Ok (State, StateKey_encode state, data)
    | Effect_Delete table key =>
        let* state := map_err Error_Storage (StateKey_new table key sequence) in
        let* data := map_err Error_Storage (StateValue_encode StateDelete) in
        Ok (State, StateKey_encode state, data)
    | Effect_Catalogue table value => Ok (Catalogue, catalogue_key table sequence, value)
    | Effect_Limits policy => Ok (Policy, be_bytes 8 sequence, LimitPolicy_encode policy)
    end in
  Ok {| mutation_tree := tree; mutation_key := key; mutation_value := Some value |}.

Definition outcome_effects (outcome : Outcome) : list Effect :=
  match outcome with Success _ _ effects => effects | Aborted _ => [] end.

Context {Db : Type} `{!PhysicalStore Db View Cell}.

(** The checks of [install] and the batch it applies. *)
Definition install_changes (store : Db) (sequence : Z) (digest : bytes) (kind : Z) (outcome : Outcome)
    : Result Error (list Mutation) :=
  let* _ := valid_id sequence in
  if negb (between 1 3 kind) then Err (Error_Invalid "invalid outcome record kind") else
  if sequence <=? checkpoint_sequence store then Err (Error_Invalid "sequence is already checkpointed") else
  let* existing := map_err Error_Storage (storage_get (store_view store) Outcomes (be_bytes 8 sequence)) in
  if bool_decide (is_Some existing) then Err (Error_Invalid "sequence is already resolved") else
  let* data := encode_outcome sequence digest kind outcome in
  let* changes := mapR (effect_mutation sequence) (outcome_effects outcome) in
  Ok (changes ++ [{| mutation_tree := Outcomes; mutation_key := be_bytes 8 sequence;
                     mutation_value := Some data |}]).

(** [database::install] *)
Definition install (store : Db) (sequence : Z) (digest : bytes) (kind : Z) (outcome : Outcome)
    : Db * Result Error unit :=
  match install_changes store sequence digest kind outcome with
  | Ok changes =>
      let '(store, result) := store_apply store changes in
      (store, map_err Error_Storage result)
  | Err error => (store, Err error)
  | Panic => (store, Panic)
  end.
End Reads.
