(* ===== verification/OverlayFacts.v ===== *)
(** * The overlay reads are a merge

    [overlay_get] and [overlay_scan] return the state one would see with the
    overlay applied on top of the snapshot. *)
From S2P Require Import Prelude OrdMap Errors Reader Encoding Storage Mvcc MvccFacts Overlay.
From Stdlib Require Import Sorted.

(** The row of an address under an overlay. *)
Definition merged (entries : list Entry) (overlay : Overlay) (table : Z) (key : bytes) (sequence : Z) : option bytes :=
  match bt_get (table, key) overlay with
  | Some value => value
  | None => row entries table key sequence
  end.

Lemma chain_ok {E A} (xs : list A) (rest : Stream E A) : chain (map Ok xs) rest = map Ok xs ++ rest.
Proof. induction xs as [|x xs IH]; simpl; [done|]. by rewrite IH. Qed.

Lemma map_map_err_ok {E F A} (f : E -> F) (xs : list A) : map (map_err f) (map Ok xs) = map Ok xs.
Proof. by rewrite map_map. Qed.

Lemma cmp_address (t1 t2 : Z) (k1 k2 : bytes) : cmp (t1, k1) (t2, k2) = lex (cmp t1 t2) (cmp k1 k2).
Proof. done. Qed.
Lemma cmp_same_table (t : Z) (k1 k2 : bytes) : cmp (t, k1) (t, k2) = cmp k1 k2.
Proof. by rewrite cmp_address, cmp_refl. Qed.

Lemma endpoint_ok b :
  match b with Included key | Excluded key => len key <= MAX_KEY_BYTES | Unbounded => True end ->
  check_scan_endpoint b = Ok tt.
Proof. unfold check_scan_endpoint, MAX_KEY_BYTES. destruct b; intros; rewrite ?gtb_false by lia; done. Qed.

(** The overlay range is the key range within the table. *)
Lemma address_in_range table lower upper t k :
  in_range (overlay_lower table lower) (overlay_upper table (table + 1) upper) (t, k) = true <->
  t = table /\ in_range lower upper k = true.
Proof.
  assert (above (overlay_lower table lower) (t, k) = true <-> table < t \/ (t = table /\ above lower k = true)) as Ha.
  { destruct lower as [a|a|]; simpl; unfold cmp_le, cmp_lt; rewrite cmp_address; unfold cmp at 1, Z_cmp;
      destruct (Z.compare_spec table t) as [->| |]; simpl; try naive_solver lia.
    split; [by right|intros _]. by destruct k. }
  assert (below (overlay_upper table (table + 1) upper) (t, k) = true <-> t < table \/ (t = table /\ below upper k = true)) as Hb.
  { destruct upper as [b|b|]; simpl; unfold cmp_le, cmp_lt; rewrite cmp_address; unfold cmp at 1, Z_cmp.
    1-2: destruct (Z.compare_spec t table) as [->| |]; simpl; naive_solver lia.
    destruct (Z.compare_spec t (table + 1)) as [->| |]; simpl; [|naive_solver lia..].
    split; [by destruct k | naive_solver lia]. }
  unfold in_range. rewrite !andb_true_iff, Ha, Hb. naive_solver lia.
Qed.

Lemma address_range_panics table lower upper :
  range_panics lower upper = false ->
  range_panics (overlay_lower table lower) (overlay_upper table (table + 1) upper) = false.
Proof.
  assert (forall a b : bytes, cmp_lt (table, a) (table, b) = cmp_lt a b) as Hlt
    by (intros; unfold cmp_lt; by rewrite cmp_same_table).
  assert (forall a b : bytes, cmp_le (table, a) (table, b) = cmp_le a b) as Hle
    by (intros; unfold cmp_le; by rewrite cmp_same_table).
  assert (forall a b : bytes, cmp_lt (table + 1, a) (table, b) = false) as Hnext.
  { intros. unfold cmp_lt. rewrite cmp_address. unfold cmp at 1, Z_cmp. by destruct (Z.compare_spec (table + 1) table); try lia. }
  assert (forall a b : bytes, cmp_le (table + 1, a) (table, b) = false) as Hnext'.
  { intros. unfold cmp_le. rewrite cmp_address. unfold cmp at 1, Z_cmp. by destruct (Z.compare_spec (table + 1) table); try lia. }
  assert (forall a : bytes, cmp_lt a [] = false) as Hnil by by intros [].
  destruct lower, upper; simpl; rewrite ?Hlt, ?Hle, ?Hnext, ?Hnext', ?Hnil; done.
Qed.

Section Reads.
Context `{Storage View Cell} (view : View) (contents : Contents) (table sequence : Z).
Context (Hview : Represents view contents) (Hstate : Forall state_entry (contents State)).
Context (Htable : 0 < table < u64_max) (Hsequence : 0 <= sequence < u64_max).
Notation entries := (contents State).

Lemma overlay_get_merged key overlay :
  len key <= MAX_KEY_BYTES ->
  overlay_get view table key sequence overlay = Ok (merged entries overlay table key sequence).
Proof.
  intros Hk. unfold overlay_get, merged. destruct (bt_get _ _); [done|].
  by erewrite mvcc_get_row.
Qed.

(** An overlay entry of this table, inside the range. *)
Definition overlay_entry (lower upper : Bound bytes) (e : Address * option bytes) : Prop :=
  e.1.1 = table /\ len e.1.2 <= MAX_KEY_BYTES /\ in_range lower upper e.1.2 = true.

Lemma gap_rows lower upper next_key :
  check_user_bound lower = Ok tt -> check_user_bound upper = Ok tt ->
  (forall key, next_key = Some key -> len key <= MAX_KEY_BYTES /\ above lower key = true) ->
  let finish := match next_key with Some key => Excluded key | None => upper end in
  exists rows, gap view table sequence lower upper next_key = map Ok rows /\ bt_sorted rows /\
    forall key v, (key, v) ∈ rows <->
      in_range lower finish key = true /\ row entries table key sequence = Some v.
Proof.
  intros Hl Hu Hnext finish. unfold gap.
  destruct (match next_key with Some key => gap_empty lower key | None => false end) eqn:Hempty.
  - exists []. split; [done|]. split; [constructor|]. intros key v. rewrite elem_of_nil. split; [done|].
    intros [Hr _]. destruct next_key as [next|]; [|done]. destruct (Hnext _ eq_refl) as [_ Ha].
    unfold finish, in_range in Hr. apply andb_true_iff in Hr as [Hr1 Hr2]. simpl in Hr2.
    apply cmp_lt_true in Hr2. destruct lower as [start|start|]; simpl in *.
    + pose proof (cmp_le_lt_trans _ _ _ Hr1 Hr2) as Hc.
      rewrite cmp_le_lt in Hempty. apply negb_true_iff in Hempty.
      by rewrite (proj2 (cmp_lt_true _ _) Hc) in Hempty.
    + rewrite cmp_le_lt, Ha in Hempty. done.
    + apply bool_decide_eq_true in Hempty as ->. by destruct key.
  - destruct (mvcc_scan_rows view contents Hview Hstate table sequence lower finish) as (rows & Hscan & Hs & Hin);
      [done..| |].
    { unfold finish. destruct next_key as [next|]; [|done]. apply check_user_bound_ok. by apply Hnext. }
    exists rows. change (match next_key with Some key => Excluded key | None => upper end) with finish.
    rewrite Hscan. simpl. by rewrite map_map_err_ok.
Qed.

Lemma sorted_around (rows1 mid rows2 : list Entry) key :
  bt_sorted rows1 -> bt_sorted rows2 ->
  (forall k v, (k, v) ∈ mid -> k = key) -> (length mid <= 1)%nat ->
  (forall k v, (k, v) ∈ rows1 -> cmp k key = Lt) -> (forall k v, (k, v) ∈ rows2 -> cmp key k = Lt) ->
  bt_sorted (rows1 ++ mid ++ rows2).
Proof.
  intros H1 H2 Hmid Hlen Hlt1 Hlt2. apply bt_sorted_app; [done| |].
  - apply bt_sorted_app; [|done|].
    + destruct mid as [|e [|]]; simpl in Hlen; [constructor|by repeat constructor|lia].
    + intros [k1 v1] [k2 v2] ->%Hmid ?%Hlt2. done.
  - intros [k1 v1] [k2 v2] Hk1%Hlt1 [->%Hmid|Hk2%Hlt2]%elem_of_app; [done|]. by eapply cmp_trans.
Qed.

Lemma merge_scan_rows overlay : forall lower upper,
  check_user_bound lower = Ok tt -> check_user_bound upper = Ok tt ->
  bt_sorted overlay -> Forall (overlay_entry lower upper) overlay ->
  exists rows, merge_scan view table sequence lower upper overlay = map Ok rows /\ bt_sorted rows /\
    forall key v, (key, v) ∈ rows <->
      in_range lower upper key = true /\ merged entries overlay table key sequence = Some v.
Proof.
  induction overlay as [|[[t key] value] overlay IH]; intros lower upper Hl Hu Hs Hov; simpl.
  { by apply (gap_rows lower upper None). }
  apply StronglySorted_inv in Hs as [Hs Hf].
  inversion Hov as [|?? (Et & Hklen & Hkr) Hov']; subst. simpl in Et, Hklen, Hkr. subst t.
  apply andb_true_iff in Hkr as [Hka Hkb].
  destruct (gap_rows lower upper (Some key)) as (rows1 & -> & Hs1 & Hin1); [done..|by intros ? [= <-]|].
  assert (forall k v, ((table, k), v) ∈ overlay -> cmp key k = Lt) as Hafter.
  { intros k v He. rewrite Forall_forall in Hf. specialize (Hf _ He). unfold key_lt in Hf.
    cbn [fst] in Hf. by rewrite cmp_same_table in Hf. }
  destruct (IH (Excluded key) upper) as (rows2 & -> & Hs2 & Hin2); [by apply check_user_bound_ok|done..| |].
  { rewrite Forall_forall in *. intros [[t k] v] He. destruct (Hov' _ He) as (Et & ? & Hr). simpl in Et. subst t.
    split; [done|]. split; [done|]. unfold in_range in *. simpl in *. apply andb_true_iff in Hr as [_ ->].
    rewrite andb_true_r. by eapply cmp_lt_true, Hafter. }
  rewrite chain_ok.
  set (mid := match value with Some v => [(key, v)] | None => [] end).
  exists (rows1 ++ mid ++ rows2). split; [by destruct value; simpl; rewrite ?map_app|].
  assert (forall k v, (k, v) ∈ mid <-> k = key /\ value = Some v) as Hmid.
  { intros k v. unfold mid. destruct value; rewrite ?list_elem_of_singleton, ?elem_of_nil; naive_solver. }
  assert (forall k v, (k, v) ∈ rows1 -> cmp k key = Lt) as Hlt1.
  { intros k v [Hr _]%Hin1. apply andb_true_iff in Hr as [_ Hr]. by apply cmp_lt_true in Hr. }
  assert (forall k v, (k, v) ∈ rows2 -> cmp key k = Lt) as Hlt2.
  { intros k v [Hr _]%Hin2. apply andb_true_iff in Hr as [Hr _]. by apply cmp_lt_true in Hr. }
  split.
  { apply (sorted_around rows1 mid rows2 key); [done..| | |done|done].
    - intros k v. rewrite Hmid. naive_solver.
    - unfold mid. destruct value; simpl; lia. }
  intros k v. rewrite !elem_of_app, Hmid, Hin1, Hin2. unfold in_range, merged. simpl.
  rewrite cmp_same_table. unfold cmp_lt. rewrite (cmp_antisym k key). destruct (cmp k key) eqn:Ek; simpl.
  - apply cmp_eq in Ek as ->. rewrite Hka, Hkb, andb_false_r. naive_solver.
  - rewrite (below_mono _ _ _ Hkb Ek), !andb_true_r. apply cmp_lt_ne in Ek. naive_solver.
  - apply cmp_gt_lt in Ek. rewrite (above_mono _ _ _ Hka Ek), andb_false_r.
    apply cmp_lt_ne in Ek. naive_solver.
Qed.

(** What the interpreter keeps true of its overlay. *)
Definition overlay_wf (overlay : Overlay) : Prop :=
  bt_sorted overlay /\ Forall (fun e => len e.1.2 <= MAX_KEY_BYTES) overlay.

(** A merged scan yields the merged rows of its range in key order. *)
Lemma overlay_scan_rows lower upper overlay :
  check_user_bound lower = Ok tt -> check_user_bound upper = Ok tt -> overlay_wf overlay ->
  range_panics lower upper = false ->
  exists rows, overlay_scan view table sequence lower upper overlay = Ok (map Ok rows) /\ bt_sorted rows /\
    forall key v, (key, v) ∈ rows <->
      in_range lower upper key = true /\ merged entries overlay table key sequence = Some v.
Proof.
  intros Hl Hu [Hs Hlen] Hr. unfold overlay_scan, valid_id.
  rewrite !(proj2 (Z.eqb_neq _ _)) by lia. cbn [orb bindR].
  rewrite (endpoint_ok lower), (endpoint_ok upper) by (by eapply check_user_bound_ok). cbn [bindR].
  assert ((match upper with Unbounded => arith_u64 (table + 1) | _ => Ok 0 end) =
    Ok (E:=Error) (match upper with Unbounded => table + 1 | _ => 0 end)) as ->.
  { destruct upper; try done. apply arith_u64_ok. lia. }
  cbn [bindR]. replace (overlay_upper table _ upper) with (overlay_upper table (table + 1) upper) by by destruct upper.
  rewrite address_range_panics by done.
  destruct (merge_scan_rows (bt_range (overlay_lower table lower) (overlay_upper table (table + 1) upper) overlay)
    lower upper) as (rows & -> & Hsr & Hin); [done|done|by apply bt_sorted_filter| |].
  { apply Forall_forall. intros [[t k] v] [He Ht]%elem_of_bt_range. simpl in Ht. apply address_in_range in Ht as [-> Ht].
    rewrite Forall_forall in Hlen. by specialize (Hlen _ He). }
  exists rows. split; [done|]. split; [done|]. intros key v. rewrite Hin. unfold merged.
  split; intros [Hk Hm]; (split; [done|]); revert Hm;
    rewrite bt_get_range by (done || by apply address_in_range); done.
Qed.
End Reads.
