(* ===== verification/Runtime.v ===== *)
(** * The interpreter ([src/src/vm/runtime.rs])

    [step] evaluates one instruction and charges its logical resource use;
    [run] iterates it to an outcome.  A system error is [Failure_Error], a
    semantic abort [Failure_Abort]; [Panic] marks the source's indexing,
    [expect] and [unreachable!] sites and the overflow of its [u64] sums. *)
From stdpp Require Import gmap.
From S2P Require Import Prelude OrdMap Errors Value ValueFacts Encoding Limits Operations Program Storage Mvcc Overlay Outcome.

(** ** Failures *)
Inductive Failure : Type :=
| Failure_Abort (reason : AbortReason) (user_code detail : Z)
| Failure_Error (error : Error).

Abbreviation EvalResult := (Result Failure).

(** [From<AbortReason>], [From<Error>] and [From<storage::Error>]. *)
Definition failure_reason (reason : AbortReason) : Failure := Failure_Abort reason 0 0.
Definition failure_storage (error : StorageError) : Failure := Failure_Error (Error_Storage error).

Record Usage : Type := {
  used_instructions : Z;
  used_point_accesses : Z;
  addresses : gset Address;
  used_register_bytes : Z;
  used_range_rows : Z;
  used_range_bytes : Z;
  used_overlay_bytes : Z }.

Definition Usage_default : Usage :=
  {| used_instructions := 0; used_point_accesses := 0; addresses := ∅; used_register_bytes := 0;
     used_range_rows := 0; used_range_bytes := 0; used_overlay_bytes := 0 |}.

(** [claims.values()[id - 1]] against each amount. *)
Fixpoint check (claims : LimitPolicy) (amounts : list (nat * Z)) : EvalResult unit :=
  match amounts with
  | [] => Ok tt
  | (id, amount) :: amounts =>
      if amount >? limit claims (id - 1) then Err (Failure_Abort ResourceLimit 0 (Z.of_nat id))
      else check claims amounts
  end.

Definition bound (ty : Ty) (value : Value) : EvalResult unit :=
  if negb (accepts ty value) then Err (failure_reason BoundExceeded) else Ok tt.

Definition read_register (registers : list (option Value)) (index : nat) : EvalResult Value :=
  let* slot := expect (registers !! index) in
  expect slot.

Definition assign (registers : list (option Value)) (types : list Ty) (usage : Usage)
    (claims : LimitPolicy) (dst : nat) (value : Value) : EvalResult (list (option Value) * Usage) :=
  let* ty := expect (types !! dst) in
  let* _ := bound ty value in
  let size := encoded_len value in
  let* old := expect (registers !! dst) in
  let old_size := match old with Some v => encoded_len v | None => 0 end in
  let* rest := arith_u64 (used_register_bytes usage - old_size) in
  let* total := arith_u64 (rest + size) in
  let* _ := check claims [(11%nat, size); (12%nat, total)] in
  Ok (<[dst := Some value]> registers,
      {| used_instructions := used_instructions usage; used_point_accesses := used_point_accesses usage;
         addresses := addresses usage; used_register_bytes := total;
         used_range_rows := used_range_rows usage; used_range_bytes := used_range_bytes usage;
         used_overlay_bytes := used_overlay_bytes usage |}).

(** [Schema::decode(&ty.descriptor())] *)
Definition schema_of (ty : Ty) : EvalResult Schema :=
  let* data := descriptor ty in
  map_err failure_storage (Schema_decode data).

Definition canonical_key (table : Table) (value : Value) (claims : LimitPolicy) : EvalResult bytes :=
  let* _ := bound (table_key table) value in
  let* schema := schema_of (table_key table) in
  let* data := encode value in
  let* key := map_err failure_storage (encode_key schema data) in
  let* _ := check claims [(10%nat, len key)] in
  Ok key.

(** [addresses.len() as u64 + u64::from(!addresses.contains(address))] *)
Definition distinct_with (seen : gset Address) (address : Address) : Z :=
  Z.of_nat (size seen) + (if decide (address ∈ seen) then 0 else 1).

Definition point (usage : Usage) (claims : LimitPolicy) (address : Address) : EvalResult Usage :=
  let* accesses := arith_u64 (used_point_accesses usage + 1) in
  let distinct := distinct_with (addresses usage) address in
  let* _ := check claims [(8%nat, accesses); (9%nat, distinct)] in
  Ok {| used_instructions := used_instructions usage; used_point_accesses := accesses;
        addresses := {[address]} ∪ addresses usage; used_register_bytes := used_register_bytes usage;
        used_range_rows := used_range_rows usage; used_range_bytes := used_range_bytes usage;
        used_overlay_bytes := used_overlay_bytes usage |}.

(** [Error::Invalid] from a stored value is corruption. *)
Definition corrupt_value (error : Error) : Error :=
  match error with
  | Error_Invalid reason => Error_Storage (Corrupt reason)
  | error => error
  end.

Definition loaded (ty : Ty) (data : bytes) (claims : LimitPolicy) : EvalResult Value :=
  let* value := map_err (fun e => Failure_Error (corrupt_value e)) (decode_value ty data) in
  let* _ := check claims [(11%nat, len data)] in
  Ok value.

Definition write (overlay : Overlay) (usage : Usage) (claims : LimitPolicy) (table : Table)
    (key : bytes) (value : option Value) : EvalResult (Overlay * Usage) :=
  let* _ := match value with Some value => bound (table_value table) value | None => Ok tt end in
  let size := match value with Some v => encoded_len v | None => 0 end in
  let address := (table_id table, key) in
  let old := bt_get address overlay in
  let writes := len overlay + (if old then 0 else 1) in
  let old_size :=
    match old with
    | Some v => 9 + len key + match v with Some v => len v | None => 0 end
    | None => 0
    end in
  let* rest := arith_u64 (used_overlay_bytes usage - old_size) in
  let* total := arith_u64 (rest + 9 + len key + size) in
  let* _ := check claims [(11%nat, size); (15%nat, writes); (16%nat, total)] in
  let* data := match value with Some v => let* data := encode v in Ok (Some data) | None => Ok None end in
  Ok (bt_insert address data overlay,
      {| used_instructions := used_instructions usage; used_point_accesses := used_point_accesses usage;
         addresses := addresses usage; used_register_bytes := used_register_bytes usage;
         used_range_rows := used_range_rows usage; used_range_bytes := used_range_bytes usage;
         used_overlay_bytes := total |}).

(** One selected row: its decoded key and value and the charges for it. *)
Definition scan_row (usage : Usage) (claims : LimitPolicy) (table : Table) (key_schema : Schema)
    (byte_limit local_bytes : Z) (entry : Entry) : EvalResult ((Value * Value) * Usage * Z) :=
  let '(key, data) := entry in
  let* key_data := map_err (fun e => failure_storage (corrupt_input e)) (decode_key key_schema key) in
  let* key_value := map_err (fun e => Failure_Error (corrupt_value e)) (decode_value (table_key table) key_data) in
  let* _ := check claims [(10%nat, len key)] in
  let* value := loaded (table_value table) data claims in
  let size := len key + len data in
  let address := (table_id table, key) in
  let distinct := distinct_with (addresses usage) address in
  let* range_rows := arith_u64 (used_range_rows usage + 1) in
  let* range_bytes := arith_u64 (used_range_bytes usage + size) in
  let* _ := check claims [(9%nat, distinct); (13%nat, range_rows); (14%nat, range_bytes)] in
  let* local_bytes := arith_u64 (local_bytes + size) in
  if local_bytes >? byte_limit then Err (Failure_Abort ResourceLimit 0 14) else
  Ok ((key_value, value),
      {| used_instructions := used_instructions usage; used_point_accesses := used_point_accesses usage;
         addresses := {[address]} ∪ addresses usage; used_register_bytes := used_register_bytes usage;
         used_range_rows := range_rows; used_range_bytes := range_bytes;
         used_overlay_bytes := used_overlay_bytes usage |}, local_bytes).

Fixpoint scan_rows (usage : Usage) (claims : LimitPolicy) (table : Table) (key_schema : Schema)
    (byte_limit local_bytes : Z) (entries : Stream Error Entry)
    : EvalResult (list (Value * Value) * Usage) :=
  match entries with
  | [] => Ok ([], usage)
  | entry :: entries =>
      let* entry := map_err Failure_Error entry in
      let* (row, usage, local_bytes) := scan_row usage claims table key_schema byte_limit local_bytes entry in
      let* (rows, usage) := scan_rows usage claims table key_schema byte_limit local_bytes entries in
      Ok (row :: rows, usage)
  end.

Definition scan_endpoint (inclusive : bool) (key : option bytes) : Bound bytes :=
  match key with
  | None => Unbounded
  | Some key => if inclusive then Included key else Excluded key
  end.

(** The range is inverted, or a single excluded endpoint. *)
Definition empty_range (flags : byte) (lower upper : option bytes) : bool :=
  match lower, upper with
  | Some lo, Some hi => cmp_lt hi lo || (bool_decide (lo = hi) && negb (bool_decide (flags = x03)))
  | _, _ => false
  end.

Section Runtime.
Context (sha256 : bytes -> bytes) `{Storage View Cell}.

Definition optional_key (table : Table) (value : option Value) (claims : LimitPolicy)
    : EvalResult (option bytes) :=
  match value with
  | Some value => let* key := canonical_key table value claims in Ok (Some key)
  | None => Ok None
  end.

Definition scan (view : View) (prior : Z) (overlay : Overlay) (usage : Usage) (claims : LimitPolicy)
    (table : Table) (lower upper : option Value) (flags : byte) (row_limit byte_limit : Z)
    : EvalResult (Value * Usage) :=
  let* lower := optional_key table lower claims in
  let* upper := optional_key table upper claims in
  if (row_limit =? 0) || empty_range flags lower upper then Ok (Value_Rows [], usage) else
  let lo := scan_endpoint (Z.testbit (byte_Z flags) 0) lower in
  let hi := scan_endpoint (Z.testbit (byte_Z flags) 1) upper in
  let* key_schema := schema_of (table_key table) in
  let* entries := map_err Failure_Error (overlay_scan view (table_id table) prior lo hi overlay) in
  let* (rows, usage) :=
    scan_rows usage claims table key_schema byte_limit 0 (take (Z.to_nat row_limit) entries) in
  Ok (Value_Rows rows, usage).

Inductive Step : Type :=
| Next (pc : nat)
| Returned (value : Value).

(** The interpreter's mutable state. *)
Record Machine : Type := {
  registers : list (option Value);
  overlay : Overlay;
  usage : Usage }.

(** Evaluate a value and assign it to [dst]. *)
Definition assign_next (program : Program) (claims : LimitPolicy) (pc : nat) (m : Machine)
    (dst : nat) (value : Value) (u : Usage) : EvalResult (Step * Machine) :=
  let* (rs, u) := assign (registers m) (register_types program) u claims dst value in
  Ok (Next (pc + 1), {| registers := rs; overlay := overlay m; usage := u |}).

Fixpoint tuple_fields (rs : list (option Value)) (fields : list nat) : EvalResult (list Value) :=
  match fields with
  | [] => Ok []
  | field :: fields =>
      let* value := read_register rs field in
      let* values := tuple_fields rs fields in
      Ok (value :: values)
  end.

(** [for (field, ty) in fields.iter().zip(types) { bound(ty, register(field))? }] *)
Fixpoint tuple_bounds (rs : list (option Value)) (fields : list nat) (types : list Ty) : EvalResult unit :=
  match fields, types with
  | field :: fields, ty :: types =>
      let* value := read_register rs field in
      let* _ := bound ty value in
      tuple_bounds rs fields types
  | _, _ => Ok tt
  end.

Definition fetch_table (program : Program) (index : nat) : EvalResult Table :=
  expect (prog_tables program !! index).

(** A point access: the table, the canonical key, and the charge. *)
Definition access (program : Program) (claims : LimitPolicy) (m : Machine) (index key : nat) (u : Usage)
    : EvalResult (Table * bytes * Usage) :=
  let* table := fetch_table program index in
  let* value := read_register (registers m) key in
  let* key := canonical_key table value claims in
  let* u := point u claims (table_id table, key) in
  Ok (table, key, u).

Definition get_at (view : View) (prior : Z) (table : Table) (key : bytes) (overlay : Overlay)
    : EvalResult (option bytes) :=
  map_err Failure_Error (overlay_get view (table_id table) key prior overlay).

Definition optional_register (rs : list (option Value)) (index : option nat) : EvalResult (option Value) :=
  match index with
  | Some index => let* value := read_register rs index in Ok (Some value)
  | None => Ok None
  end.

(** The evaluation of one instruction, once it has been charged. *)
Definition evaluate (view : View) (prior : Z) (program : Program) (claims : LimitPolicy) (pc : nat)
    (m : Machine) (u : Usage) (x : Instruction) : EvalResult (Step * Machine) :=
  let rs := registers m in
  let next m := Ok (Next (pc + 1), m) in
  let assign_next dst value u := assign_next program claims pc m dst value u in
  match x with
  | Const dst constant =>
      let* value := expect (constants program !! constant) in assign_next dst value u
  | Arg dst argument =>
      let* value := expect (prog_arguments program !! argument) in assign_next dst value u
  | Move dst src => let* value := read_register rs src in assign_next dst value u
  | Binary op dst left_ right_ =>
      let* left_ := read_register rs left_ in
      let* right_ := read_register rs right_ in
      let* ty := expect (register_types program !! dst) in
      let* value := map_err failure_reason (binary op left_ right_ ty) in
      assign_next dst value u
  | Unary op dst src =>
      let* src := read_register rs src in
      let* value := map_err failure_reason (unary sha256 op src) in
      assign_next dst value u
  | Slice dst src start length =>
      let* src := read_register rs src in
      let* start := read_register rs start in
      let* length := read_register rs length in
      let* value := map_err failure_reason (slice src start length) in
      assign_next dst value u
  | Tuple dst fields =>
      let* ty := expect (register_types program !! dst) in
      match ty with
      | Type_Tuple types =>
          let* _ := tuple_bounds rs fields types in
          let* values := tuple_fields rs fields in
          assign_next dst (Value_Tuple values) u
      | _ => Panic
      end
  | Field dst src field =>
      let* src := read_register rs src in
      match src with
      | Value_Tuple fields =>
          let* value := expect (fields !! field) in assign_next dst value u
      | _ => Panic
      end
  | Load dst index key =>
      let* (table, key, u) := access program claims m index key u in
      let* data := get_at view prior table key (overlay m) in
      let* data := ok_or (failure_reason MissingKey) data in
      let* value := loaded (table_value table) data claims in
      assign_next dst value u
  | Exists dst index key =>
      let* (table, key, u) := access program claims m index key u in
      let* data := get_at view prior table key (overlay m) in
      assign_next dst (Value_Boolean (bool_decide (is_Some data))) u
  | Insert index key value =>
      let* (table, key, u) := access program claims m index key u in
      let* data := get_at view prior table key (overlay m) in
      if bool_decide (is_Some data) then Err (failure_reason KeyExists) else
      let* value := read_register rs value in
      let* (o, u) := write (overlay m) u claims table key (Some value) in
      next {| registers := rs; overlay := o; usage := u |}
  | Store index key value =>
      let* (table, key, u) := access program claims m index key u in
      let* value := read_register rs value in
      let* (o, u) := write (overlay m) u claims table key (Some value) in
      next {| registers := rs; overlay := o; usage := u |}
  | Delete index key =>
      let* (table, key, u) := access program claims m index key u in
      let* (o, u) := write (overlay m) u claims table key None in
      next {| registers := rs; overlay := o; usage := u |}
  | Scan dst index lower upper flags row_limit byte_limit =>
      let* table := fetch_table program index in
      let* lower := optional_register rs lower in
      let* upper := optional_register rs upper in
      let* (value, u) := scan view prior (overlay m) u claims table lower upper flags row_limit byte_limit in
      assign_next dst value u
  | Jump target => Ok (Next target, {| registers := rs; overlay := overlay m; usage := u |})
  | JumpIfFalse condition target =>
      let* condition := read_register rs condition in
      Ok (Next (if decide (condition = Value_Boolean false) then target else (pc + 1)%nat),
          {| registers := rs; overlay := overlay m; usage := u |})
  | Require_ condition user_code =>
      let* condition := read_register rs condition in
      if decide (condition = Value_Boolean false) then Err (Failure_Abort RequireFailed user_code 0) else
      next {| registers := rs; overlay := overlay m; usage := u |}
  | Abort_ user_code => Err (Failure_Abort ExplicitAbort user_code 0)
  | Return src =>
      let* value := read_register rs src in
      let* _ := bound (result_type program) value in
      let* _ := check claims [(17%nat, encoded_len value)] in
      Ok (Returned value, {| registers := rs; overlay := overlay m; usage := u |})
  end.

(** [usage.instructions += 1] *)
Definition charge_instruction (u : Usage) : EvalResult Usage :=
  let* count := arith_u64 (used_instructions u + 1) in
  Ok {| used_instructions := count; used_point_accesses := used_point_accesses u;
        addresses := addresses u; used_register_bytes := used_register_bytes u;
        used_range_rows := used_range_rows u; used_range_bytes := used_range_bytes u;
        used_overlay_bytes := used_overlay_bytes u |}.

Definition step (view : View) (prior : Z) (program : Program) (claims : LimitPolicy) (pc : nat)
    (m : Machine) : EvalResult (Step * Machine) :=
  let* u := charge_instruction (usage m) in
  let* _ := check claims [(2%nat, used_instructions u)] in
  let* x := expect (prog_instructions program !! pc) in
  evaluate view prior program claims pc m u x.

Definition effect_of (e : Address * option bytes) : Effect :=
  match e with
  | ((table, key), Some value) => Effect_Put table key value
  | ((table, key), None) => Effect_Delete table key
  end.

(** The [loop] of [run]; [None] when the fuel runs out before it ends. *)
Fixpoint run_loop (fuel : nat) (view : View) (prior : Z) (program : Program) (claims : LimitPolicy)
    (pc : nat) (m : Machine) : option (Result Error Outcome) :=
  match fuel with
  | O => None
  | S fuel =>
      match step view prior program claims pc m with
      | Ok (Next next, m) => run_loop fuel view prior program claims next m
      | Ok (Returned value, m) =>
          Some (Ok (Success (result_type program) value (map effect_of (overlay m))))
      | Err (Failure_Abort reason user_code detail) =>
          Some (Ok (Aborted {| reason := reason; instruction := Z.of_nat pc;
                               user_code := user_code; detail := detail |}))
      | Err (Failure_Error error) => Some (Err error)
      | Panic => Some Panic
      end
  end.

Definition initial_machine (program : Program) : Machine :=
  {| registers := repeat None (length (register_types program)); overlay := []; usage := Usage_default |}.

(** [run]; every branch is forward, so as many steps as instructions suffice. *)
Definition run (view : View) (prior : Z) (program : Program) (claims : LimitPolicy) : Result Error Outcome :=
  match run_loop (length (prog_instructions program)) view prior program claims 0 (initial_machine program) with
  | Some result => result
  | None => Panic
  end.
End Runtime.
