(* ===== verification/RuntimeFacts.v ===== *)
(** * The interpreter on verified programs

    A small program logic for evaluation results ([wp]: no panic, no system
    error, aborts well formed) and the machine invariant [machine_ok]: typed
    registers, a typed overlay in address order, exact resource accounting
    within the claims. *)
From stdpp Require Import gmap.
From S2P Require Import Prelude OrdMap Errors Value ValueFacts Encoding EncodingFacts Limits Operations Program Flow OperationsFacts ProgramFacts Storage Mvcc MvccFacts Overlay OverlayFacts Outcome Runtime.
From Stdlib Require Import Sorted.

(** ** Evaluation results *)

(** The fields [validate_abort] admits for a transaction's abort. *)
Definition abort_ok (reason : AbortReason) (user_code detail : Z) : Prop :=
  reason <> NameInUse /\ reason <> TableNotLive /\ 0 <= user_code <= u32_max /\
  (reason <> RequireFailed -> reason <> ExplicitAbort -> user_code = 0) /\
  (if decide (reason = ResourceLimit) then 1 <= detail <= 17 else detail = 0).

Definition wp {A} (m : EvalResult A) (P : A -> Prop) : Prop :=
  match m with
  | Ok a => P a
  | Err (Failure_Abort reason user_code detail) => abort_ok reason user_code detail
  | Err (Failure_Error _) => False
  | Panic => False
  end.

Lemma wp_ok {A} (a : A) (P : A -> Prop) : P a -> wp (Ok a) P.
Proof. done. Qed.
Lemma wp_bind {A B} (m : EvalResult A) (k : A -> EvalResult B) P Q :
  wp m P -> (forall a, P a -> wp (k a) Q) -> wp (bindR m k) Q.
Proof. destruct m as [|[]|]; simpl; auto. Qed.
Lemma wp_mono {A} (m : EvalResult A) (P Q : A -> Prop) : wp m P -> (forall a, P a -> Q a) -> wp m Q.
Proof. destruct m as [|[]|]; simpl; auto. Qed.
Lemma wp_expect {A} (o : option A) (a : A) (P : A -> Prop) : o = Some a -> P a -> wp (expect o) P.
Proof. by intros ->. Qed.

(** Reasons an operator can abort with. *)
Definition operator_reason (r : AbortReason) : Prop := abort_ok r 0 0.
Lemma wp_operator {A} (m : Result AbortReason A) (P : A -> Prop) :
  match m with Ok a => P a | Err r => operator_reason r | Panic => False end ->
  wp (map_err failure_reason m) P.
Proof. by destruct m. Qed.

Lemma wp_arith z (P : Z -> Prop) : 0 <= z <= u64_max -> P z -> wp (arith_u64 z) P.
Proof. intros Hz HP. by rewrite arith_u64_ok. Qed.

Lemma wp_bound ty v (P : unit -> Prop) : (accepts ty v = true -> P tt) -> wp (bound ty v) P.
Proof. intros HP. unfold bound. destruct (accepts ty v); simpl; [by apply HP|]. by repeat split. Qed.

Lemma wp_check claims amounts (P : unit -> Prop) :
  Forall (fun a => (1 <= a.1 <= 17)%nat) amounts ->
  (Forall (fun a => a.2 <= limit claims (a.1 - 1)) amounts -> P tt) -> wp (check claims amounts) P.
Proof.
  induction 1 as [|[id amount] amounts Hid _ IH]; simpl; intros HP; [by apply HP|].
  destruct (amount >? limit claims (id - 1)) eqn:E; simpl.
  - simpl in Hid. do 3 (split; [done|]). simpl. lia.
  - apply IH. intros Hf. apply HP. constructor; [simpl; blia|done].
Qed.

(** The same rules in front of a continuation. *)
Lemma wp_bound_bind {B} ty v (k : unit -> EvalResult B) Q :
  (accepts ty v = true -> wp (k tt) Q) -> wp (bindR (bound ty v) k) Q.
Proof.
  intros Hk. apply (wp_bind _ _ (fun _ => accepts ty v = true)); [by apply wp_bound|]. intros [] ?; auto.
Qed.
Lemma wp_check_bind {B} claims amounts (k : unit -> EvalResult B) Q :
  Forall (fun a => (1 <= a.1 <= 17)%nat) amounts ->
  (Forall (fun a => a.2 <= limit claims (a.1 - 1)) amounts -> wp (k tt) Q) ->
  wp (bindR (check claims amounts) k) Q.
Proof.
  intros Ha Hk. apply (wp_bind _ _ (fun _ => Forall (fun a => a.2 <= limit claims (a.1 - 1)) amounts));
    [by apply wp_check|]. intros [] ?; auto.
Qed.
Lemma wp_expect_bind {A B} (o : option A) a (k : A -> EvalResult B) Q :
  o = Some a -> wp (k a) Q -> wp (bindR (expect o) k) Q.
Proof. by intros ->. Qed.
Lemma wp_arith_bind {B} z (k : Z -> EvalResult B) Q :
  0 <= z <= u64_max -> wp (k z) Q -> wp (bindR (arith_u64 z) k) Q.
Proof. intros Hz HP. by rewrite arith_u64_ok. Qed.

Lemma check_ok claims amounts u :
  check claims amounts = Ok u -> Forall (fun a => a.2 <= limit claims (a.1 - 1)) amounts.
Proof.
  induction amounts as [|[id amount] amounts IH]; simpl; [done|]. intros H. step_if H eqn E.
  constructor; [simpl; blia|by apply IH].
Qed.

(** The operators abort with their own reasons only. *)
Definition operator_error {A} (m : Result AbortReason A) : Prop :=
  match m with Err r => operator_reason r | _ => True end.
Lemma operator_bind {A B} (m : Result AbortReason A) (k : A -> Result AbortReason B) :
  operator_error m -> (forall a, operator_error (k a)) -> operator_error (bindR m k).
Proof. destruct m; simpl; auto. Qed.
Lemma operator_ok_or {A} r (o : option A) : operator_reason r -> operator_error (ok_or r o).
Proof. by destruct o. Qed.

Ltac solve_operator :=
  repeat match goal with
  | |- operator_error (bindR _ _) => apply operator_bind; [|intros ?]
  | |- operator_error (ok_or _ _) => apply operator_ok_or
  | |- operator_error (if ?b then _ else _) => destruct b
  | |- operator_error (match ?x with _ => _ end) => destruct x
  end; try done; by repeat split.

Lemma binary_int_error op a b : operator_error (binary_i64 op a b) /\ operator_error (binary_u64 op a b).
Proof. split; [unfold binary_i64|unfold binary_u64]; destruct op; simpl; solve_operator. Qed.

Lemma binary_error op a b d : operator_error (binary op a b d).
Proof.
  unfold binary. destruct op; try done; destruct a, b; simpl; try apply binary_int_error; try solve_operator;
    (apply operator_bind; [apply binary_int_error|intros ?; solve_operator]).
Qed.
Lemma unary_error sha256 op v : operator_error (unary sha256 op v).
Proof. destruct op, v; simpl; solve_operator. Qed.
Lemma slice_error a b c : operator_error (slice a b c).
Proof. unfold slice. solve_operator. Qed.

Lemma wp_sound destination (m : Result AbortReason Value) :
  sound_result destination m -> operator_error m ->
  wp (map_err failure_reason m) (fun v => value_wf v = true).
Proof. destruct m; simpl; naive_solver. Qed.

(** ** Tables *)

(** What a catalogue entry guarantees of a table's types. *)
Definition table_wf (t : Table) : Prop :=
  0 < table_id t < u64_max /\
  (exists d schema, decode d = Ok (table_key t) /\ Schema_decode d = Ok schema /\
     schema_max_key_bytes schema <= MAX_KEY_BYTES) /\
  (exists d schema, decode d = Ok (table_value t) /\ Schema_decode d = Ok schema).

(** The canonical key of a row, and its stored value. *)
Definition key_ok (t : Table) (key : bytes) : Prop :=
  exists v, accepts (table_key t) v = true /\ value_wf v = true /\ key = key_of v.
Definition value_ok (t : Table) (data : bytes) : Prop :=
  exists v, decode_value (table_value t) data = Ok v.

Lemma table_key_schema t : table_wf t ->
  exists d node, schema_of (table_key t) = Ok (schema_for (table_key t) node d) /\
    Schema_decode d = Ok (schema_for (table_key t) node d) /\
    valid_type 1 (table_key t) = true /\ node_of (table_key t) = Some node /\
    max_key_bytes (table_key t) <= MAX_KEY_BYTES.
Proof.
  intros (_ & (d & schema & Hd & Hs & Hm) & _). pose proof Hs as Hs'.
  apply Schema_decode_iff in Hs as (ty & node & Hd' & Hn & ->). rewrite Hd in Hd'. injection Hd' as <-.
  exists d, node. pose proof (decode_valid _ _ Hd) as Hv. apply decode_descriptor_iff in Hd as (Hdesc & _ & _).
  unfold schema_of. rewrite (descriptor_any _ _ Hdesc). cbn [bindR]. rewrite Hs'. done.
Qed.

Lemma value_type_valid t : table_wf t -> valid_type 1 (table_value t) = true.
Proof. intros (_ & _ & d & schema & Hd & _). by eapply decode_valid. Qed.

Lemma len_key_ok t key : table_wf t -> key_ok t key -> len key <= MAX_KEY_BYTES.
Proof.
  intros (d & node & _ & _ & Hv & _ & Hm)%table_key_schema (v & Ha & _ & ->).
  pose proof (len_key_of _ _ _ Hv Ha). lia.
Qed.

Lemma canonical_key_wp t v claims :
  table_wf t -> value_wf v = true ->
  wp (canonical_key t v claims) (fun key => key = key_of v /\ key_ok t key /\ len key <= limit claims 9).
Proof.
  intros Ht Hw. destruct (table_key_schema t Ht) as (d & node & Hschema & _ & Hv & Hn & Hm).
  unfold canonical_key. apply wp_bound_bind. intros Ha.
  rewrite Hschema. cbn [bindR].
  destruct (encode_value_ok (E:=Error) _ _ _ Hv Ha) as [data Hdata].
  rewrite (encode_any (E:=Error) v data Hdata). cbn [bindR].
  assert (encode_key (schema_for (table_key t) node d) data = Ok (key_of v)) as ->.
  { apply encode_key_iff; [done..|]. by exists v. }
  cbn [map_err bindR]. apply wp_check_bind; [repeat constructor|]. intros Hc. inversion Hc; subst.
  split; [done|]. split; [by exists v|done].
Qed.

Lemma loaded_wp t data claims :
  table_wf t -> value_ok t data ->
  wp (loaded (table_value t) data claims)
    (fun v => value_wf v = true /\ accepts (table_value t) v = true /\ len data <= limit claims 10).
Proof.
  intros Ht%value_type_valid [v Hv]. unfold loaded. rewrite Hv. cbn [map_err bindR].
  apply (decode_value_iff _ 1) in Hv as (_ & Ha & Hw); [|done].
  apply wp_check_bind; [repeat constructor|]. intros Hc. by inversion Hc.
Qed.

(** ** The machine invariant *)
Definition slot_size (slot : option Value) : Z := match slot with Some v => encoded_len v | None => 0 end.
Definition registers_size (rs : list (option Value)) : Z := sum_Z (map slot_size rs).
Definition entry_size (e : Address * option bytes) : Z :=
  9 + len e.1.2 + match e.2 with Some data => len data | None => 0 end.
Definition overlay_size (o : Overlay) : Z := foldr (fun e total => entry_size e + total) 0 o.

Lemma sum_Z_insert {A} (f : A -> Z) l i x y :
  l !! i = Some x -> sum_Z (map f (<[i := y]> l)) = sum_Z (map f l) - f x + f y.
Proof.
  revert i. induction l as [|a l IH]; intros [|i] H; simpl in *; try done.
  - injection H as ->. lia.
  - rewrite (IH _ H). lia.
Qed.

Lemma registers_size_nonneg rs : 0 <= registers_size rs.
Proof.
  unfold registers_size. apply sum_Z_nonneg. apply Forall_map, Forall_true. intros [v|]; simpl; [|done].
  apply encoded_len_nonneg.
Qed.
Lemma registers_size_slot rs i slot : rs !! i = Some slot -> slot_size slot <= registers_size rs.
Proof.
  intros H. pose proof (sum_Z_insert slot_size rs i slot None H) as Hs. simpl in Hs.
  pose proof (registers_size_nonneg (<[i := None]> rs)) as Hn. unfold registers_size in *. lia.
Qed.

Lemma overlay_size_nonneg o : 0 <= overlay_size o.
Proof.
  induction o as [|e o IH]; simpl; [done|]. unfold entry_size. pose proof (len_nonneg e.1.2).
  destruct e.2 as [d|]; [pose proof (len_nonneg d)|]; lia.
Qed.
Lemma overlay_size_entry o k v : bt_get k o = Some v -> entry_size (k, v) <= overlay_size o.
Proof.
  intros H%bt_get_elem. induction o as [|e o IH]; simpl; [by apply elem_of_nil in H|].
  apply elem_of_cons in H as [<-|H].
  - pose proof (overlay_size_nonneg o). unfold overlay_size in *. lia.
  - specialize (IH H). unfold overlay_size in *.
    assert (0 <= entry_size e); [|lia]. unfold entry_size. pose proof (len_nonneg e.1.2).
    destruct e.2 as [d|]; [pose proof (len_nonneg d)|]; lia.
Qed.

Section Machine.
Context (sha256 : bytes -> bytes) `{Storage View Cell}.
Context (view : View) (contents : Contents) (prior : Z) (program : Program) (claims : LimitPolicy).

(** The database the program runs against: trees with the given contents,
    whose rows are typed by the program's tables. *)
Record database_ok : Prop := {
  db_view : Represents view contents;
  db_state : Forall state_entry (contents State);
  db_prior : 0 <= prior < u64_max;
  db_tables : Forall table_wf (prog_tables program);
  db_ids t1 t2 : t1 ∈ prog_tables program -> t2 ∈ prog_tables program ->
    table_id t1 = table_id t2 -> t1 = t2;
  db_rows t key data : t ∈ prog_tables program ->
    row (contents State) (table_id t) key prior = Some data -> key_ok t key /\ value_ok t data }.
Context (argument_types constant_types : list Ty).
Context (Hdb : database_ok) (Hclaims : policy_wf claims).
Context (Hadm : admitted program argument_types constant_types (prog_tables program) claims).

Record registers_ok (rs : list (option Value)) : Prop := {
  registers_length : length rs = length (register_types program);
  registers_typed i v : rs !! i = Some (Some v) ->
    exists ty, register_types program !! i = Some ty /\ accepts ty v = true /\ value_wf v = true }.

(** A written address belongs to a program table, its key is canonical there
    and its value a stored value of the table. *)
Definition overlay_typed (e : Address * option bytes) : Prop :=
  exists t, t ∈ prog_tables program /\ table_id t = e.1.1 /\ key_ok t e.1.2 /\
    forall data, e.2 = Some data -> value_ok t data.
Record overlay_ok (o : Overlay) : Prop := {
  overlay_sorted : bt_sorted o;
  overlay_entries : Forall overlay_typed o }.

Record usage_ok (rs : list (option Value)) (o : Overlay) (u : Usage) : Prop := {
  ok_instructions : 0 <= used_instructions u <= limit claims 1;
  ok_points : 0 <= used_point_accesses u <= limit claims 7;
  ok_addresses : Z.of_nat (size (addresses u)) <= limit claims 8;
  ok_register_bytes : used_register_bytes u = registers_size rs;
  ok_register_limit : registers_size rs <= limit claims 11;
  ok_range_rows : 0 <= used_range_rows u <= limit claims 12;
  ok_range_bytes : 0 <= used_range_bytes u <= limit claims 13;
  ok_writes : len o <= limit claims 14;
  ok_overlay_bytes : used_overlay_bytes u = overlay_size o;
  ok_overlay_limit : overlay_size o <= limit claims 15 }.

Record machine_ok (m : Machine) : Prop := {
  machine_registers : registers_ok (registers m);
  machine_overlay : overlay_ok (overlay m);
  machine_usage : usage_ok (registers m) (overlay m) (usage m) }.

Lemma limit_u64 i : 0 <= limit claims i <= 67108864.
Proof. by apply limit_small. Qed.

Lemma table_in t : t ∈ prog_tables program -> table_wf t.
Proof. intros Ht. pose proof (db_tables Hdb) as Hf. rewrite Forall_forall in Hf. by apply Hf. Qed.

Lemma overlay_ok_wf o : overlay_ok o -> overlay_wf o.
Proof.
  intros [Hs Hf]. split; [done|]. eapply Forall_impl; [exact Hf|]. intros e (t & Ht & _ & Hk & _).
  eapply len_key_ok; [by apply table_in|done].
Qed.

(** Registers *)
Definition initialized (rs : list (option Value)) (i : nat) : Prop := exists v, rs !! i = Some (Some v).

Lemma read_register_wp rs i ty :
  registers_ok rs -> initialized rs i -> register_types program !! i = Some ty ->
  wp (read_register rs i) (fun v => accepts ty v = true /\ value_wf v = true /\ rs !! i = Some (Some v)).
Proof.
  intros Hrs [v Hv] Hty. unfold read_register. rewrite Hv. simpl.
  destruct (registers_typed _ Hrs _ _ Hv) as (ty' & Hty' & Ha & Hw). rewrite Hty in Hty'. by simplify_eq.
Qed.

Lemma register_type_valid i ty : register_types program !! i = Some ty -> valid_type 1 ty = true.
Proof. intros Hi. pose proof (admitted_registers _ _ _ _ _ Hadm) as Hf. by eapply (Forall_lookup_1 _ _ _ _ Hf). Qed.

Lemma registers_ok_insert rs dst ty value :
  registers_ok rs -> register_types program !! dst = Some ty -> accepts ty value = true -> value_wf value = true ->
  registers_ok (<[dst := Some value]> rs).
Proof.
  intros [Hl Ht] Hty Ha Hw. split; [by rewrite length_insert|]. intros i v Hi.
  apply list_lookup_insert_Some in Hi as [(<- & [= <-] & _)|[_ Hi]]; eauto.
Qed.

Lemma assign_wp rs o u dst ty value :
  registers_ok rs -> usage_ok rs o u -> register_types program !! dst = Some ty -> value_wf value = true ->
  wp (assign rs (register_types program) u claims dst value)
    (fun '(rs', u') => rs' = <[dst := Some value]> rs /\ registers_ok rs' /\ usage_ok rs' o u').
Proof.
  intros Hrs Hu Hty Hw. unfold assign. eapply wp_expect_bind; [done|]. apply wp_bound_bind. intros Ha.
  destruct (lookup_lt_is_Some_2 rs dst) as [old Hold].
  { rewrite (registers_length _ Hrs). by eapply lookup_lt_Some. }
  eapply wp_expect_bind; [done|]. change (match old with Some v => encoded_len v | None => 0 end) with (slot_size old).
  pose proof (registers_size_slot rs dst old Hold) as Hslot. pose proof (registers_size_nonneg rs) as Hn.
  pose proof (limit_u64 11) as L11. pose proof (limit_u64 10) as L10. destruct Hu.
  assert (0 <= slot_size old) as Hs0 by (destruct old; simpl; [apply encoded_len_nonneg|done]).
  rewrite ok_register_bytes0. apply wp_arith_bind; [unfold u64_max; lia|].
  assert (0 <= encoded_len value <= MAX_VALUE_BYTES) as Hlen.
  { split; [apply encoded_len_nonneg|]. pose proof (register_type_valid _ _ Hty) as Hv.
    pose proof (encoded_len_le _ _ _ Hv Ha). pose proof (valid_type_max _ _ Hv). lia. }
  unfold MAX_VALUE_BYTES in Hlen. apply wp_arith_bind; [unfold u64_max; lia|].
  apply wp_check_bind; [repeat constructor|]. intros Hc.
  apply Forall_cons_1 in Hc as [_ Hc]. apply Forall_cons_1 in Hc as [Hc _]. simpl in Hc.
  assert (registers_size (<[dst := Some value]> rs) = registers_size rs - slot_size old + encoded_len value) as Hsum
    by (unfold registers_size; by rewrite (sum_Z_insert _ _ _ _ _ Hold)).
  split; [done|]. split; [by eapply registers_ok_insert|]. split; simpl; done || lia.
Qed.

(** Point accesses *)
Lemma distinct_with_size (seen : gset Address) a :
  Z.of_nat (size ({[a]} ∪ seen)) = distinct_with seen a.
Proof.
  unfold distinct_with. destruct (decide (a ∈ seen)).
  - replace ({[a]} ∪ seen) with seen by set_solver. lia.
  - rewrite size_union by set_solver. rewrite size_singleton. lia.
Qed.

Lemma point_wp rs o u a :
  usage_ok rs o u -> wp (point u claims a) (fun u' => usage_ok rs o u').
Proof.
  intros []. unfold point. pose proof (limit_u64 7). pose proof (limit_u64 8).
  apply wp_arith_bind; [unfold u64_max; lia|]. apply wp_check_bind; [repeat constructor|]. intros Hc.
  apply Forall_cons_1 in Hc as [H7 Hc]. apply Forall_cons_1 in Hc as [H8 _]. simpl in H7, H8.
  split; simpl; try done; [lia|by rewrite distinct_with_size].
Qed.

Lemma access_wp m index key u t ty :
  registers_ok (registers m) -> usage_ok (registers m) (overlay m) u ->
  prog_tables program !! index = Some t ->
  initialized (registers m) key -> register_types program !! key = Some ty ->
  wp (access program claims m index key u)
    (fun '(t', key, u') => t' = t /\ key_ok t key /\ usage_ok (registers m) (overlay m) u').
Proof.
  intros Hrs Hu Ht Hi Hty. unfold access, fetch_table. eapply wp_expect_bind; [done|].
  eapply wp_bind; [by eapply read_register_wp|]. intros v (_ & Hw & _).
  eapply wp_bind; [apply canonical_key_wp; [by eapply table_in, list_elem_of_lookup_2|done]|].
  intros k (_ & Hk & _). eapply wp_bind; [by apply (point_wp _ _ _ (table_id t, k)) in Hu|]. intros u' Hu'. done.
Qed.

(** Reads *)
Lemma merged_typed o t key data :
  overlay_ok o -> t ∈ prog_tables program ->
  merged (contents State) o (table_id t) key prior = Some data -> key_ok t key /\ value_ok t data.
Proof.
  intros [_ Ho] Ht. unfold merged. destruct (bt_get _ o) as [v|] eqn:E; [|by apply (db_rows Hdb)].
  intros ->. apply bt_get_elem in E. rewrite Forall_forall in Ho.
  destruct (Ho _ E) as (t' & Ht' & Hid & Hk & Hv). simpl in *.
  assert (t' = t) as -> by by apply (db_ids Hdb). split; [done|by apply Hv].
Qed.

Lemma get_at_ok t key o :
  t ∈ prog_tables program -> key_ok t key ->
  get_at view prior t key o = Ok (merged (contents State) o (table_id t) key prior).
Proof.
  intros Ht Hk. pose proof (table_in _ Ht) as Hwf. unfold get_at.
  rewrite (overlay_get_merged view contents (table_id t) prior (db_view Hdb) (db_state Hdb)
    (proj1 Hwf) (db_prior Hdb)) by by eapply len_key_ok. done.
Qed.

(** Writes *)
Definition data_len (data : option bytes) : Z := match data with Some d => len d | None => 0 end.

Lemma stored_value t value :
  table_wf t -> (forall v, value = Some v -> value_wf v = true) ->
  (forall v, value = Some v -> accepts (table_value t) v = true) ->
  exists data, (match value with Some v => let* d := encode v in Ok (Some d) | None => Ok None end) =
      Ok (E:=Failure) data /\ slot_size value = data_len data /\ (forall d, data = Some d -> value_ok t d).
Proof.
  intros Hwf Hw Ha. pose proof (value_type_valid _ Hwf) as Hv. destruct value as [v|].
  - destruct (encode_value_ok (E:=Failure) _ _ _ Hv (Ha _ eq_refl)) as [d Hd].
    assert (encode (E:=Failure) v = Ok d) as -> by exact Hd. exists (Some d). split; [done|]. split; simpl.
    { symmetry. by apply (encode_value_len (E:=Failure)). }
    intros ? [= <-]. exists v. apply (decode_value_iff _ 1); [done|].
    split; [by apply (encode_any (E:=Failure))|]. auto.
  - by exists None.
Qed.

Lemma write_wp rs o u t key value :
  overlay_ok o -> usage_ok rs o u -> t ∈ prog_tables program -> key_ok t key ->
  (forall v, value = Some v -> value_wf v = true) ->
  wp (write o u claims t key value) (fun '(o', u') => overlay_ok o' /\ usage_ok rs o' u').
Proof.
  intros [Hs Ho] Hu Ht Hk Hw. pose proof (table_in _ Ht) as Hwf. unfold write.
  eapply (wp_bind _ _ (fun _ => forall v, value = Some v -> accepts (table_value t) v = true)).
  { destruct value as [v|]; [|by intros]. apply wp_bound. intros Ha w [= <-]. done. }
  intros _ Ha. destruct (stored_value t value) as (data & Hdata & Hlen & Hvalue); [done..|].
  change (match value with Some v => encoded_len v | None => 0 end) with (slot_size value). rewrite Hlen.
  set (old_size := match bt_get (table_id t, key) o with Some v => _ | None => 0 end).
  assert (overlay_size (bt_insert (table_id t, key) data o) = overlay_size o - old_size + 9 + len key + data_len data) as Hsum.
  { unfold overlay_size. rewrite bt_sum_insert by done. unfold old_size.
    destruct (bt_get _ o); unfold entry_size, data_len; simpl; lia. }
  assert (0 <= old_size <= overlay_size o) as Hold.
  { unfold old_size. destruct (bt_get _ o) as [v|] eqn:E; [|split; [done|apply overlay_size_nonneg]].
    pose proof (overlay_size_entry _ _ _ E) as He. unfold entry_size in He. simpl in He.
    pose proof (len_nonneg key). destruct v as [v|]; [pose proof (len_nonneg v)|]; lia. }
  assert (0 <= data_len data <= MAX_VALUE_BYTES) as Hd.
  { rewrite <-Hlen. split; [destruct value; simpl; [apply encoded_len_nonneg|done]|].
    destruct value as [v|]; simpl; [|done]. pose proof (value_type_valid _ Hwf) as Hv.
    pose proof (encoded_len_le _ _ _ Hv (Ha _ eq_refl)). pose proof (valid_type_max _ _ Hv). lia. }
  pose proof (len_key_ok _ _ Hwf Hk) as Hkl. pose proof (len_nonneg key).
  pose proof (limit_u64 15). unfold MAX_KEY_BYTES, MAX_VALUE_BYTES in *. destruct Hu.
  rewrite ok_overlay_bytes0. apply wp_arith_bind; [unfold u64_max; lia|].
  apply wp_arith_bind; [unfold u64_max; lia|]. apply wp_check_bind; [repeat constructor|]. intros Hc.
  apply Forall_cons_1 in Hc as [_ Hc]. apply Forall_cons_1 in Hc as [Hwrites Hc].
  apply Forall_cons_1 in Hc as [Hbytes _]. simpl in Hwrites, Hbytes.
  rewrite Hdata. cbn [bindR]. split.
  - split; [by apply bt_sorted_insert|]. apply Forall_forall. intros e [->|He]%elem_of_bt_insert.
    + by exists t.
    + rewrite Forall_forall in Ho. by apply Ho.
  - split; simpl; try done; try lia.
    unfold len in *. rewrite bt_length_insert by done. destruct (bt_get _ o); lia.
Qed.

(** Scans *)
Definition value_pair_wf (kv : Value * Value) : Prop := value_wf kv.1 = true /\ value_wf kv.2 = true.

Lemma value_ok_len t data : table_wf t -> value_ok t data -> len data <= MAX_VALUE_BYTES.
Proof.
  intros Hv%value_type_valid [v Hd]. apply (decode_value_iff _ 1) in Hd as (He & Ha & _); [|done].
  rewrite (encode_value_len (E:=Error) _ _ He). pose proof (encoded_len_le _ _ _ Hv Ha).
  pose proof (valid_type_max _ _ Hv). lia.
Qed.

Lemma decode_key_ok t key :
  table_wf t -> key_ok t key ->
  exists schema data v, schema_of (table_key t) = Ok schema /\ decode_key schema key = Ok data /\
    decode_value (table_key t) data = Ok v /\ value_wf v = true.
Proof.
  intros (d & node & Hs & _ & Hv & Hn & Hm)%table_key_schema (v & Ha & Hw & ->).
  destruct (encode_value_ok (E:=Error) _ _ _ Hv Ha) as [data Hdata].
  exists (schema_for (table_key t) node d), data, v. split; [done|]. split.
  - apply decode_key_iff; [done..|]. by exists v.
  - split; [|done]. by apply (decode_value_iff _ 1).
Qed.

Lemma scan_row_wp rs o u t schema byte_limit local key data :
  t ∈ prog_tables program -> schema_of (table_key t) = Ok schema -> key_ok t key -> value_ok t data ->
  usage_ok rs o u -> 0 <= local <= used_range_bytes u ->
  wp (scan_row u claims t schema byte_limit local (key, data))
    (fun '(row, u', local') => value_pair_wf row /\ usage_ok rs o u' /\ 0 <= local' <= used_range_bytes u').
Proof.
  intros Ht Hs Hk Hv Hu Hlocal. pose proof (table_in _ Ht) as Hwf. unfold scan_row.
  destruct (decode_key_ok t key Hwf Hk) as (schema' & kd & kv & Hs' & Hkd & Hkv & Hkw).
  rewrite Hs in Hs'. injection Hs' as <-. rewrite Hkd. cbn [map_err bindR]. rewrite Hkv. cbn [map_err bindR].
  apply wp_check_bind; [repeat constructor|]. intros _.
  eapply wp_bind; [by apply loaded_wp|]. intros v (Hw & _ & _).
  pose proof (len_key_ok _ _ Hwf Hk). pose proof (value_ok_len _ _ Hwf Hv). pose proof (len_nonneg key).
  pose proof (len_nonneg data). pose proof (limit_u64 12). pose proof (limit_u64 13). destruct Hu.
  unfold MAX_KEY_BYTES, MAX_VALUE_BYTES in *.
  apply wp_arith_bind; [unfold u64_max; lia|]. apply wp_arith_bind; [unfold u64_max; lia|].
  apply wp_check_bind; [repeat constructor|]. intros Hc. apply Forall_cons_1 in Hc as [H9 Hc].
  apply Forall_cons_1 in Hc as [H13 Hc]. apply Forall_cons_1 in Hc as [H14 _]. simpl in H9, H13, H14.
  apply wp_arith_bind; [unfold u64_max; lia|]. destruct (_ >? byte_limit); simpl.
  { by repeat split. }
  split; [done|]. split; [|lia]. split; simpl; try done; try lia. by rewrite distinct_with_size.
Qed.

Lemma scan_rows_wp rs o t schema byte_limit entries : forall u local,
  t ∈ prog_tables program -> schema_of (table_key t) = Ok schema ->
  Forall (fun e : Entry => key_ok t e.1 /\ value_ok t e.2) entries ->
  usage_ok rs o u -> 0 <= local <= used_range_bytes u ->
  wp (scan_rows u claims t schema byte_limit local (map Ok entries))
    (fun '(rows, u') => Forall value_pair_wf rows /\ usage_ok rs o u').
Proof.
  induction entries as [|[key data] entries IH]; intros u local Ht Hs He Hu Hl; cbn [map scan_rows]; [done|].
  apply Forall_cons_1 in He as [[Hk Hv] He]. cbn [map_err bindR].
  eapply wp_bind; [by apply (scan_row_wp rs o)|]. intros [[row u'] local'] (Hrow & Hu' & Hl').
  eapply wp_bind; [by eapply IH|]. intros [rows u''] [Hrows Hu'']. split; [by constructor|done].
Qed.

Lemma optional_key_wp t value :
  table_wf t -> (forall v, value = Some v -> value_wf v = true) ->
  wp (optional_key t value claims) (fun key => forall k, key = Some k -> len k <= MAX_KEY_BYTES).
Proof.
  intros Ht Hw. destruct value as [v|]; simpl; [|done].
  eapply wp_bind; [apply canonical_key_wp; auto|]. intros k (_ & Hk & _). simpl. intros ? [= <-].
  by eapply len_key_ok.
Qed.

(** The guard of [scan] excludes the ranges [BTreeMap::range] panics on. *)
Lemma guarded_range flags lower upper :
  empty_range flags lower upper = false ->
  range_panics (scan_endpoint (Z.testbit (byte_Z flags) 0) lower)
    (scan_endpoint (Z.testbit (byte_Z flags) 1) upper) = false.
Proof.
  destruct lower as [lo|], upper as [hi|]; cbn [scan_endpoint empty_range];
    try (by destruct (Z.testbit (byte_Z flags) 0), (Z.testbit (byte_Z flags) 1)).
  intros [Hlt Heq]%orb_false_iff.
  destruct (Z.testbit (byte_Z flags) 0) eqn:E0, (Z.testbit (byte_Z flags) 1) eqn:E1; cbn [range_panics]; try done.
  unfold cmp_le. unfold cmp_lt in Hlt. destruct (cmp hi lo) eqn:E; try done.
  apply cmp_eq in E as ->. rewrite bool_decide_eq_true_2 in Heq by done.
  apply negb_false_iff, bool_decide_eq_true in Heq as ->. done.
Qed.

Lemma scan_endpoint_ok inclusive key :
  (forall k, key = Some k -> len k <= MAX_KEY_BYTES) -> check_user_bound (scan_endpoint inclusive key) = Ok tt.
Proof.
  intros Hk. apply check_user_bound_ok. destruct key as [k|]; [|done]. specialize (Hk _ eq_refl). by destruct inclusive.
Qed.

Lemma scan_wp rs o u t lower upper flags row_limit byte_limit :
  overlay_ok o -> usage_ok rs o u -> t ∈ prog_tables program ->
  (forall v, lower = Some v -> value_wf v = true) -> (forall v, upper = Some v -> value_wf v = true) ->
  wp (scan view prior o u claims t lower upper flags row_limit byte_limit)
    (fun '(v, u') => value_wf v = true /\ usage_ok rs o u').
Proof.
  intros Ho Hu Ht Hlw Huw. pose proof (table_in _ Ht) as Hwf. unfold scan.
  eapply wp_bind; [by apply optional_key_wp|]. intros lo Hlo.
  eapply wp_bind; [by apply optional_key_wp|]. intros hi Hhi.
  destruct ((row_limit =? 0) || empty_range flags lo hi) eqn:Hempty; [done|].
  apply orb_false_iff in Hempty as [_ Hempty].
  destruct (table_key_schema t Hwf) as (d & node & Hs & _). rewrite Hs. cbn [bindR].
  destruct (overlay_scan_rows view contents (table_id t) prior (db_view Hdb) (db_state Hdb) (proj1 Hwf)
    (db_prior Hdb) (scan_endpoint (Z.testbit (byte_Z flags) 0) lo) (scan_endpoint (Z.testbit (byte_Z flags) 1) hi) o)
    as (rows & -> & _ & Hin); [..|by apply guarded_range|].
  { by apply scan_endpoint_ok. }
  { by apply scan_endpoint_ok. }
  { by apply overlay_ok_wf. }
  cbn [map_err bindR]. rewrite firstn_map.
  eapply wp_bind.
  { apply (scan_rows_wp rs o); [done..| |done|].
    - apply Forall_forall. intros [k v] Hkv. apply elem_of_take in Hkv as (i & Hi & _).
      apply list_elem_of_lookup_2, Hin in Hi as [_ Hm]. by eapply merged_typed.
    - destruct Hu. lia. }
  intros [vs u'] [Hvs Hu']. split; [|done]. simpl. apply forallb_Forall. eapply Forall_impl; [exact Hvs|].
  intros kv [-> ->]. done.
Qed.

(** ** One instruction *)

(** What a successful evaluation of [x] at [pc] establishes. *)
Definition stepped (x : Instruction) (d : option nat) (pc : nat) (m : Machine) (r : Step * Machine) : Prop :=
  machine_ok r.2 /\
  match r.1 with
  | Returned v => accepts (result_type program) v = true /\ value_wf v = true /\ encoded_len v <= limit claims 16
  | Next pc' =>
      ((edge_falls (instruction_edge x) = true /\ pc' = (pc + 1)%nat) \/
       edge_target (instruction_edge x) = Some pc') /\
      forall i, Some i = d \/ initialized (registers m) i -> initialized (registers r.2) i
  end.

Lemma assign_next_wp x pc m dst ty value u :
  registers_ok (registers m) -> overlay_ok (overlay m) -> usage_ok (registers m) (overlay m) u ->
  register_types program !! dst = Some ty -> value_wf value = true ->
  edge_falls (instruction_edge x) = true ->
  wp (assign_next program claims pc m dst value u) (stepped x (Some dst) pc m).
Proof.
  intros Hrs Ho Hu Hty Hw He. unfold assign_next. eapply wp_bind; [by eapply (assign_wp _ (overlay m))|].
  intros [rs u'] (-> & Hrs' & Hu'). split; [done|]. split; [by left|]. simpl. intros i Hi.
  unfold initialized in *. destruct (decide (i = dst)) as [->|Hne].
  - exists value. apply list_lookup_insert_eq. rewrite (registers_length _ Hrs). by eapply lookup_lt_Some.
  - destruct Hi as [[= ->]|Hi]; [done|]. by rewrite list_lookup_insert_ne.
Qed.

(** An instruction that only moves on. *)
Lemma stepped_next x pc pc' m o u :
  registers_ok (registers m) -> overlay_ok o -> usage_ok (registers m) o u ->
  (edge_falls (instruction_edge x) = true /\ pc' = (pc + 1)%nat) \/ edge_target (instruction_edge x) = Some pc' ->
  stepped x None pc m (Next pc', {| registers := registers m; overlay := o; usage := u |}).
Proof. intros Hrs Ho Hu He. split; [done|]. split; [done|]. intros i [|]; done. Qed.

Lemma tuple_bounds_wp rs fields types (P : unit -> Prop) :
  (forall i, i ∈ fields -> exists v, rs !! i = Some (Some v)) -> P tt -> wp (tuple_bounds rs fields types) P.
Proof.
  revert types. induction fields as [|i fields IH]; intros [|ty types] Hf HP; simpl; try done.
  destruct (Hf i) as [v Hv]; [by left|]. unfold read_register. rewrite Hv. simpl. apply wp_bound_bind.
  intros _. apply IH; [|done]. intros j Hj. apply Hf. by right.
Qed.

Lemma tuple_fields_wp rs fields :
  registers_ok rs -> (forall i, i ∈ fields -> initialized rs i) ->
  wp (tuple_fields rs fields) (fun values => forallb value_wf values = true).
Proof.
  intros Hrs. induction fields as [|i fields IH]; intros Hf; simpl; [done|].
  destruct (Hf i) as [v Hv]; [by left|]. destruct (registers_typed _ Hrs _ _ Hv) as (ty & Hty & _ & Hw).
  unfold read_register. rewrite Hv. simpl. eapply wp_bind; [apply IH; intros j Hj; apply Hf; by right|].
  intros values Hvs. simpl. by rewrite Hw, Hvs.
Qed.

Lemma check_fields_initialized a types : forall fields,
  length types = length fields -> check_fields program a types fields = Ok tt ->
  forall i, i ∈ fields -> has_bit a i.
Proof.
  induction types as [|ty types IH]; intros [|f fields] Hl Hc i Hi; simpl in *; try done; [by apply elem_of_nil in Hi|].
  step_ok Hc as s eqn Hs. step_ok Hc as u eqn Hsh. apply elem_of_cons in Hi as [->|Hi].
  - by apply source_ok in Hs as [_ ?].
  - eapply IH; eauto.
Qed.

(** Evaluate the operands of an instruction whose check succeeded. *)
Ltac eval_read Hi :=
  eapply wp_bind; [eapply read_register_wp; [eassumption|apply Hi; eassumption|eassumption]|];
  intros ? (? & ? & ?).

Definition pure (x : Instruction) : bool :=
  match x with
  | Const _ _ | Arg _ _ | Move _ _ | Binary _ _ _ _ | Unary _ _ _ | Slice _ _ _ _ | Tuple _ _ | Field _ _ _ => true
  | _ => false
  end.

Lemma evaluate_pure_wp x a d pc m u :
  pure x = true ->
  verify_instruction program argument_types constant_types claims x a = Ok d ->
  registers_ok (registers m) -> overlay_ok (overlay m) -> usage_ok (registers m) (overlay m) u ->
  (forall i, has_bit a i -> initialized (registers m) i) ->
  wp (evaluate sha256 view prior program claims pc m u x) (stepped x d pc m).
Proof.
  intros Hp Hv Hrs Ho Hu Hi. destruct x; try discriminate Hp; cbn [verify_instruction] in Hv; cbn [evaluate]; inv_verify.
  - destruct (Forall2_lookup_l _ _ _ _ _ (admitted_constants _ _ _ _ _ Hadm) ltac:(eassumption)) as (v & Hl & _ & Hw).
    eapply wp_expect_bind; [eassumption|]. by eapply assign_next_wp.
  - destruct (Forall2_lookup_l _ _ _ _ _ (admitted_arguments _ _ _ _ _ Hadm) ltac:(eassumption)) as (v & Hl & _ & Hw).
    eapply wp_expect_bind; [eassumption|]. by eapply assign_next_wp.
  - eval_read Hi. by eapply assign_next_wp.
  - eval_read Hi. eval_read Hi. eapply wp_expect_bind; [eassumption|].
    eapply wp_bind; [eapply wp_sound; [|apply binary_error]; eapply binary_sound; eassumption|].
    intros v Hw. by eapply assign_next_wp.
  - eval_read Hi. eapply wp_bind; [eapply wp_sound; [|apply unary_error]; eapply unary_sound;
      try eassumption; by eapply register_type_valid|]. intros v Hw. by eapply assign_next_wp.
  - do 3 eval_read Hi.
    eapply wp_bind; [eapply wp_sound; [|apply slice_error]; eapply slice_sound; eassumption|].
    intros v Hw. by eapply assign_next_wp.
  - eapply wp_expect_bind; [eassumption|]. destruct a0 as [| | | | | |types|]; try discriminate. inv_verify.
    apply negb_false_iff, Nat.eqb_eq in Heqb.
    assert (forall i, i ∈ fields -> initialized (registers m) i) as Hf
      by (intros i Hin; eapply Hi, check_fields_initialized; eassumption).
    eapply wp_bind; [by apply (tuple_bounds_wp _ _ _ (fun _ => True))|]. intros _ _.
    eapply wp_bind; [by apply tuple_fields_wp|]. intros vs Hvs. by eapply assign_next_wp.
  - destruct a0 as [| | | | | |types|]; try discriminate. inv_verify. eval_read Hi.
    rename select (accepts (Type_Tuple _) _ = true) into Hacc.
    apply accepts_tuple in Hacc as (vs & -> & Hvs).
    destruct (Forall2_lookup_l _ _ _ _ _ Hvs ltac:(eassumption)) as (v & Hl & _).
    eapply wp_expect_bind; [eassumption|]. eapply assign_next_wp; try done.
    rename select (value_wf _ = true) into Hw. simpl in Hw. apply forallb_Forall in Hw.
    by eapply (Forall_lookup_1 _ _ _ _ Hw).
Qed.

Definition control (x : Instruction) : bool :=
  match x with
  | Jump _ | JumpIfFalse _ _ | Require_ _ _ | Abort_ _ | Return _ => true
  | _ => false
  end.

Lemma evaluate_control_wp x a d pc m u :
  control x = true -> user_code_ok x ->
  verify_instruction program argument_types constant_types claims x a = Ok d ->
  registers_ok (registers m) -> overlay_ok (overlay m) -> usage_ok (registers m) (overlay m) u ->
  (forall i, has_bit a i -> initialized (registers m) i) ->
  wp (evaluate sha256 view prior program claims pc m u x) (stepped x d pc m).
Proof.
  intros Hp Hcode Hv Hrs Ho Hu Hi. destruct x; try discriminate Hp; cbn [verify_instruction] in Hv; cbn [evaluate]; inv_verify.
  - apply stepped_next; try done. by right.
  - eval_read Hi. apply stepped_next; try done. case_decide; [by right|by left].
  - eval_read Hi. case_decide; [by repeat split; try apply Hcode|]. apply stepped_next; try done. by left.
  - by repeat split; try apply Hcode.
  - eval_read Hi. apply wp_bound_bind. intros Ha. apply wp_check_bind; [repeat constructor|]. intros Hc.
    apply Forall_cons_1 in Hc as [Hc _]. done.
Qed.

(** The table of a checked access. *)
Lemma table_lookup index t : prog_tables program !! index = Some t -> t ∈ prog_tables program.
Proof. apply list_elem_of_lookup_2. Qed.

(** Make the point access of a checked instruction. *)
Ltac eval_access Hrs Hu Hi :=
  eapply wp_bind; [eapply access_wp; [exact Hrs|exact Hu|eassumption|apply Hi; eassumption|eassumption]|];
  let Hk := fresh "Hkey" in let Hu' := fresh "Husage" in
  intros [[? ?] ?] (-> & Hk & Hu').

Definition storing (x : Instruction) : bool :=
  match x with
  | Load _ _ _ | Exists _ _ _ | Insert _ _ _ | Store _ _ _ | Delete _ _ | Scan _ _ _ _ _ _ _ => true
  | _ => false
  end.

Lemma optional_register_wp a rs key endpoint :
  registers_ok rs -> (forall i, has_bit a i -> initialized rs i) ->
  check_endpoint program a key endpoint = Ok tt ->
  wp (optional_register rs endpoint) (fun v => forall w, v = Some w -> value_wf w = true).
Proof.
  intros Hrs Hi Hc. destruct endpoint as [i|]; simpl in *; [|done]. inv_verify. eval_read Hi. by intros ? [= <-].
Qed.

Lemma evaluate_storing_wp x a d pc m u :
  storing x = true ->
  verify_instruction program argument_types constant_types claims x a = Ok d ->
  registers_ok (registers m) -> overlay_ok (overlay m) -> usage_ok (registers m) (overlay m) u ->
  (forall i, has_bit a i -> initialized (registers m) i) ->
  wp (evaluate sha256 view prior program claims pc m u x) (stepped x d pc m).
Proof.
  intros Hp Hv Hrs Ho Hu Hi. destruct x; try discriminate Hp; cbn [verify_instruction] in Hv; cbn [evaluate]; inv_verify;
    try rename select (prog_tables program !! _ = Some _) into Ht; try pose proof (table_lookup _ _ Ht) as Hin.
  - eval_access Hrs Hu Hi. rewrite get_at_ok by done. cbn [bindR].
    destruct (merged _ _ _ _ _) as [data|] eqn:Hm; [|by repeat split]. cbn [ok_or bindR].
    apply merged_typed in Hm as [_ Hval]; [|done..].
    eapply wp_bind; [apply loaded_wp; [by apply table_in|done]|]. intros v (Hw & _ & _).
    by eapply assign_next_wp.
  - eval_access Hrs Hu Hi. rewrite get_at_ok by done. cbn [bindR]. by eapply assign_next_wp.
  - eval_access Hrs Hu Hi. rewrite get_at_ok by done. cbn [bindR]. case_bool_decide; [by repeat split|].
    eval_read Hi. eapply wp_bind; [apply (write_wp (registers m)); try done; by intros ? [= <-]|].
    intros [o' u'] [Ho' Hu']. apply stepped_next; try done. by left.
  - eval_access Hrs Hu Hi.
    eval_read Hi. eapply wp_bind; [apply (write_wp (registers m)); try done; by intros ? [= <-]|].
    intros [o' u'] [Ho' Hu']. apply stepped_next; try done. by left.
  - eval_access Hrs Hu Hi. eapply wp_bind; [by apply (write_wp (registers m))|].
    intros [o' u'] [Ho' Hu']. apply stepped_next; try done. by left.
  - destruct a1 as [| | | | | | |max_rows k w]; try discriminate. inv_verify.
    eapply wp_expect_bind; [eassumption|].
    eapply wp_bind; [by eapply optional_register_wp|]. intros lo Hlo.
    eapply wp_bind; [by eapply optional_register_wp|]. intros hi Hhi.
    eapply wp_bind; [by apply (scan_wp (registers m))|]. intros [v u'] [Hw Hu']. by eapply assign_next_wp.
Qed.

Lemma evaluate_wp x a d pc m u :
  user_code_ok x ->
  verify_instruction program argument_types constant_types claims x a = Ok d ->
  registers_ok (registers m) -> overlay_ok (overlay m) -> usage_ok (registers m) (overlay m) u ->
  (forall i, has_bit a i -> initialized (registers m) i) ->
  wp (evaluate sha256 view prior program claims pc m u x) (stepped x d pc m).
Proof.
  intros Hcode. destruct (pure x) eqn:Ep; [by apply evaluate_pure_wp|].
  destruct (control x) eqn:Ec; [by apply evaluate_control_wp|].
  apply evaluate_storing_wp. by destruct x.
Qed.

(** ** Runs *)
Lemma step_wp x a d pc m :
  prog_instructions program !! pc = Some x ->
  verify_instruction program argument_types constant_types claims x a = Ok d ->
  machine_ok m -> (forall i, has_bit a i -> initialized (registers m) i) ->
  wp (step sha256 view prior program claims pc m) (stepped x d pc m).
Proof.
  intros Hx Hv [Hrs Ho Hu] Hi. pose proof (admitted_codes _ _ _ _ _ Hadm) as Hcodes. rewrite Forall_forall in Hcodes.
  pose proof (Hcodes _ (list_elem_of_lookup_2 _ _ _ Hx)) as Hcode. unfold step, charge_instruction. pose proof (limit_u64 1).
  destruct Hu. eapply (wp_bind _ _ (fun u => usage_ok (registers m) (overlay m)
    {| used_instructions := 0; used_point_accesses := used_point_accesses u; addresses := addresses u;
       used_register_bytes := used_register_bytes u; used_range_rows := used_range_rows u;
       used_range_bytes := used_range_bytes u; used_overlay_bytes := used_overlay_bytes u |} /\
    0 <= used_instructions u)).
  { apply wp_arith_bind; [unfold u64_max; lia|]. simpl. split; [|lia]. by split; simpl; try lia. }
  intros u [Hu' Hn]. apply wp_check_bind; [repeat constructor|]. intros Hc.
  apply Forall_cons_1 in Hc as [Hc _]. simpl in Hc. eapply wp_expect_bind; [done|].
  eapply evaluate_wp; try done. destruct Hu'. by split; simpl in *.
Qed.

(** The outcomes a run can end in. *)
Definition outcome_ok (r : Outcome) : Prop :=
  match r with
  | Success ty v effects =>
      ty = result_type program /\ accepts ty v = true /\ value_wf v = true /\
      encoded_len v <= limit claims 16 /\
      exists o, effects = map effect_of o /\ overlay_ok o /\
        len o <= limit claims 14 /\ overlay_size o <= limit claims 15
  | Aborted a =>
      abort_ok (reason a) (user_code a) (detail a) /\
      0 <= instruction a < len (prog_instructions program)
  end.

Lemma run_loop_ok (ats : list (list Z)) fuel : forall pc m a,
  length ats = length (prog_instructions program) ->
  (forall k x, prog_instructions program !! k = Some x ->
     verified_at program argument_types constant_types claims ats k x) ->
  ats !! pc = Some a -> machine_ok m -> (forall i, has_bit a i -> initialized (registers m) i) ->
  (length ats <= fuel + pc)%nat ->
  exists r, run_loop sha256 fuel view prior program claims pc m = Some (Ok r) /\ outcome_ok r.
Proof.
  intros pc m a Hlen Hver. revert pc m a. induction fuel as [|fuel IH]; intros pc m a Hat Hm Hi Hfuel.
  { apply lookup_lt_Some in Hat. lia. }
  pose proof (lookup_lt_Some _ _ _ Hat) as Hpc.
  destruct (lookup_lt_is_Some_2 (prog_instructions program) pc) as [x Hx]; [lia|].
  destruct (Hver _ _ Hx) as (a' & d & s & Hat' & _ & Hvi & Hbits & Htarget & Hfalls).
  rewrite Hat in Hat'. injection Hat' as <-.
  pose proof (step_wp x a d pc m Hx Hvi Hm Hi) as Hstep. cbn [run_loop].
  destruct (step _ _ _ _ _ _ _) as [[[pc'|v] m']|[r c dt|]|]; simpl in Hstep; try done.
  - destruct Hstep as (Hm' & Hedge & Hi').
    assert (exists b, ats !! pc' = Some b /\ bits_le b s) as (b & Hb & Hbs).
    { destruct Hedge as [[He ->]|He].
      - rewrite Nat.add_1_r. by apply Hfalls.
      - apply Htarget in He as (_ & b & Hb & Hbs). by exists b. }
    assert (pc < pc')%nat as Hlt.
    { destruct Hedge as [[_ ->]|He]; [lia|]. apply Htarget in He as [? _]. lia. }
    apply (IH pc' m' b); try done; [|lia]. intros i Hib. apply Hi'. apply Hbs, Hbits in Hib as [?|?]; auto.
  - destruct Hstep as (Hm' & Ha & Hw & Hl). eexists. split; [done|]. simpl.
    destruct Hm' as [_ Ho []]. do 4 (split; [done|]). by exists (overlay m').
  - eexists. split; [done|]. simpl. split; [done|]. unfold len. lia.
Qed.

Lemma initial_machine_ok : machine_ok (initial_machine program).
Proof.
  assert (registers_size (repeat None (length (register_types program))) = 0) as Hzero.
  { unfold registers_size. induction (register_types program); simpl; [done|]. lia. }
  split; simpl.
  - split; [apply repeat_length|]. intros i v Hi.
    by apply list_elem_of_lookup_2, list_elem_of_In, repeat_spec in Hi.
  - split; [constructor|done].
  - pose proof limit_u64. split; simpl; rewrite ?Hzero, ?size_empty; try done; try apply limit_u64;
      split; try done; apply limit_u64.
Qed.

(** A verified program over a well-formed database runs to an outcome. *)
Lemma run_total : exists r, run sha256 view prior program claims = Ok r /\ outcome_ok r.
Proof.
  destruct (verify_sound _ _ _ _ (admitted_verified _ _ _ _ _ Hadm)) as (ats & Hlen & (a & Ha & Hnone) & Hver).
  unfold run. destruct (run_loop_ok ats (length (prog_instructions program)) 0 (initial_machine program) a)
    as (r & -> & Hr); try done.
  - apply initial_machine_ok.
  - intros i Hi. by apply Hnone in Hi.
  - lia.
  - by exists r.
Qed.
End Machine.
