(* ===== verification/AnalysisFacts.v ===== *)
(** * Soundness of the access analysis

    The values the analysis knows are the values the registers hold, so the
    scopes it derives cover every address a run reads or writes.  A run
    therefore depends on the database only through the rows its read scopes
    cover. *)
From stdpp Require Import gmap.
From S2P Require Import Prelude OrdMap Errors Value ValueFacts Encoding EncodingFacts Limits Operations OperationsFacts Program Flow ProgramFacts Access AccessFacts Analysis Storage Mvcc MvccFacts Overlay OverlayFacts Outcome Runtime RuntimeFacts.
From Stdlib Require Import Sorted.

Lemma join_l (a b : Known) : join a b ⊆ a.
Proof. apply map_filter_subseteq. Qed.
Lemma join_r (a b : Known) : join a b ⊆ b.
Proof.
  apply map_subseteq_spec. intros i v. unfold join. rewrite map_lookup_filter_Some. by intros [_ ?].
Qed.

Section Derive.
Context (sha256 : bytes -> bytes) (program : Program).
Notation n := (length (prog_instructions program)).

(** ** The loop is the dataflow loop *)
Definition derive_transfer (schemas : list Schema) (_ : nat) (x : Instruction) (known : Known)
    : Result Error (Known * option (Scope * AccessMode)) :=
  let* entry := access_entry program schemas known x in
  let* known := update_known sha256 program x known in
  Ok (known, entry).

Definition derive_check (_ target : nat) : Result Error unit := if Nat.ltb target n then Ok tt else Panic.

Abbreviation derive_flow schemas :=
  (flow_loop join Panic (derive_transfer schemas) derive_check instruction_edge).

Lemma known_pend_flow pending target known :
  length pending = n ->
  known_pend pending target known =
  (let* _ := derive_check 0 target in Ok (flow_pend join pending target known)).
Proof.
  intros Hl. unfold known_pend, derive_check, flow_pend. destruct (Nat.ltb_spec target n).
  - destruct (lookup_lt_is_Some_2 pending target) as [p ->]; [lia|]. by destruct p.
  - by rewrite lookup_ge_None_2 by lia.
Qed.

Lemma derive_loop_flow schemas instructions : forall index pending fallthrough,
  length pending = n ->
  derive_loop sha256 program schemas index instructions pending fallthrough =
  (let* (os, _) := derive_flow schemas index instructions pending fallthrough in Ok (omap id os)).
Proof.
  induction instructions as [|x instructions IH]; intros index pending fallthrough Hl; simpl; [done|].
  change (flow_merge join Panic fallthrough (pending !! index)) with (known_merge fallthrough (pending !! index)).
  destruct (known_merge _ _) as [known| |]; simpl; try done. unfold derive_transfer at 1.
  destruct (access_entry _ _ _ _) as [entry| |]; simpl; try done.
  destruct (update_known _ _ _ _) as [known'| |]; simpl; try done.
  assert (length (<[index := None]> pending) = n) as Hl' by by rewrite length_insert.
  assert (forall p, length p = n -> forall f,
    (let* es := derive_loop sha256 program schemas (S index) instructions p f in
     Ok match entry with Some e => e :: es | None => es end) =
    (let* (os, _) := (let* (os, last) := derive_flow schemas (S index) instructions p f in Ok (entry :: os, last)) in
     Ok (omap id os))) as Hrest.
  { intros p Hp f. rewrite IH by done. by destruct (derive_flow _ _ _ _ _) as [[os last]| |], entry. }
  destruct x; cbn [instruction_edge edge_target edge_falls bindR]; try (by apply Hrest);
    rewrite known_pend_flow by done; change (derive_check index) with (derive_check 0);
    destruct (derive_check 0 _); cbn [bindR]; try done; apply Hrest; by rewrite length_flow_pend.
Qed.

(** What the analysis established at the instruction [x] at [k]. *)
Definition derived_at (schemas : list Schema) (es : list (Scope * AccessMode)) (ats : list Known)
    (k : nat) (x : Instruction) : Prop :=
  exists a o s, ats !! k = Some a /\ access_entry program schemas a x = Ok o /\
    (forall e, o = Some e -> e ∈ es) /\ update_known sha256 program x a = Ok s /\
    (forall t, edge_target (instruction_edge x) = Some t -> (k < t)%nat -> (t < n)%nat ->
       exists a', ats !! t = Some a' /\ a' ⊆ s) /\
    (edge_falls (instruction_edge x) = true -> (S k < n)%nat -> exists a', ats !! S k = Some a' /\ a' ⊆ s).

Lemma derive_sound m :
  derive sha256 program = Ok m ->
  exists schemas es ats, table_schemas program = Ok schemas /\ AccessManifest_new es = Ok m /\
    (forall a, ats !! 0%nat = Some a -> a = ∅) /\ length ats = n /\
    forall k x, prog_instructions program !! k = Some x -> derived_at schemas es ats k x.
Proof.
  unfold derive. intros H. step_ok H as schemas eqn Hs. step_ok H as es eqn He.
  rewrite derive_loop_flow in He by apply repeat_length. step_ok He as [os last] eqn Hf. injection He as <-.
  exists schemas, (omap id os).
  apply (flow_loop_sound _ _ _ _ _ (fun _ => True) (fun a b : Known => a ⊆ b)) in Hf as (ats & Hlen & Hat & Hfirst & _);
    try done; try (intros; apply join_l); try (intros; apply join_r); try (intros ????? ; done).
  2: { intros a b c. apply transitivity. }
  2: { by rewrite repeat_length. }
  exists ats. split; [done|]. split; [done|]. split; [|split; [done|]].
  - intros a Ha. specialize (Hfirst _ eq_refl). destruct ats as [|b ats]; [done|]. simpl in Ha. injection Ha as ->.
    apply map_empty. intros i. apply eq_None_not_Some. intros [v Hv].
    by apply (lookup_weaken _ _ _ _ Hv) in Hfirst.
  - intros k x Hx. destruct (Hat _ _ Hx) as (a & o & s & Ha & Ho & _ & Htr & Ht & Hfall). simpl in Htr.
    unfold derive_transfer in Htr. step_ok Htr as entry eqn Hentry. step_ok Htr as known eqn Hknown. injection Htr as -> ->.
    exists a, o, s. do 2 (split; [done|]). split; [|split; [done|split]].
    + intros e ->. apply list_elem_of_omap. exists (Some e). split; [by eapply list_elem_of_lookup_2|done].
    + intros t Htarget Hlt Htn. destruct (Ht _ Htarget) as [_ Hin]. rewrite Nat.sub_0_r in Hin. apply Hin; lia.
    + intros Hf' Hlt. specialize (Hfall Hf'). case_decide; [lia|done].
Qed.
End Derive.

(** ** Known values are the register values *)
Definition knows (known : Known) (rs : list (option Value)) : Prop :=
  forall i v, known !! i = Some v -> rs !! i = Some (Some v).

Lemma knows_subseteq a b rs : a ⊆ b -> knows b rs -> knows a rs.
Proof. intros Hab Hb i v Hi. apply Hb. by eapply lookup_weaken. Qed.

Lemma knows_insert known rs dst v :
  knows known rs -> (dst < length rs)%nat -> knows (<[dst := v]> known) (<[dst := Some v]> rs).
Proof.
  intros Hk Hd i w. rewrite lookup_insert_Some. intros [[<- <-]|[Hne Hi]].
  - by apply list_lookup_insert_eq.
  - rewrite list_lookup_insert_ne by done. by apply Hk.
Qed.

Lemma knows_delete known rs dst slot : knows known rs -> knows (delete dst known) (<[dst := slot]> rs).
Proof. intros Hk i w [Hne Hi]%lookup_delete_Some. rewrite list_lookup_insert_ne by done. by apply Hk. Qed.

Lemma knows_read known rs i v w : knows known rs -> known !! i = Some v -> read_register rs i = Ok w -> w = v.
Proof. intros Hk Hi Hr. apply Hk in Hi. unfold read_register in Hr. rewrite Hi in Hr. by injection Hr as <-. Qed.

Lemma assign_ok rs types u claims dst value rs' u' :
  assign rs types u claims dst value = Ok (rs', u') ->
  rs' = <[dst := Some value]> rs /\ (dst < length rs)%nat /\
  exists ty, types !! dst = Some ty /\ accepts ty value = true.
Proof.
  unfold assign. intros H. step_ok H as ty eqn Hty. step_ok H as u0 eqn Hb. step_ok H as old eqn Hold.
  step_ok H as r eqn Hr. step_ok H as t eqn Ht. step_ok H as u1 eqn Hc. injection H as <- <-.
  apply expect_ok in Hty, Hold. unfold bound in Hb. step_if Hb eqn E. apply negb_false_iff in E.
  split; [done|]. split; [by eapply lookup_lt_Some|]. by exists ty.
Qed.

(** The state an instruction leaves is the one the analysis computes. *)
Definition follows_known (s : Known) (r : Step * Machine) : Prop := knows s (registers r.2).

Section Known.
Context (sha256 : bytes -> bytes) (program : Program) (claims : LimitPolicy).

Lemma assign_next_known known s x pc m dst value u r :
  assign_next program claims pc m dst value u = Ok r -> knows known (registers m) ->
  destination x = Some dst -> update_known sha256 program x known = Ok s ->
  (forall v, known_value sha256 program x known = Ok (Some v) -> v = value) ->
  follows_known s r.
Proof.
  unfold assign_next, follows_known. intros H Hk Hd Hu Hv. step_ok H as [rs u'] eqn Ha. injection H as <-. simpl.
  apply assign_ok in Ha as (-> & Hlt & ty & Hty & Hacc). unfold update_known in Hu. rewrite Hd in Hu.
  step_ok Hu as v eqn Hkv. destruct v as [v|]; [|injection Hu as <-; by apply knows_delete].
  step_ok Hu as ty' eqn Hty'. injection Hu as <-. rewrite (Hv v Hkv) in *.
  destruct (accepts ty' value); [by apply knows_insert|by apply knows_delete].
Qed.

Lemma tuple_known known rs : forall fields values vs,
  knows known rs -> tuple_fields rs fields = Ok values ->
  mapR (fun field => expect (E:=Error) (known !! field)) fields = Ok vs -> vs = values.
Proof.
  induction fields as [|f fields IH]; intros values vs Hk Hf Hm; simpl in *.
  { by injection Hf as <-; injection Hm as <-. }
  step_ok Hf as v eqn Hv. step_ok Hf as values' eqn Hf'. injection Hf as <-.
  step_ok Hm as w eqn Hw. step_ok Hm as vs' eqn Hm'. injection Hm as <-. apply expect_ok in Hw.
  f_equal; [|by eapply IH]. symmetry. by eapply knows_read.
Qed.

Lemma known_ok_inv (m : Result AbortReason Value) v : known_ok m = Ok (Some v) -> m = Ok v.
Proof. by destruct m; simpl; intros; simplify_eq. Qed.

(** Agreement of a known operand with the register that was read. *)
Ltac read_known Hk :=
  repeat match goal with
  | Hr : read_register _ ?i = Ok ?w, Hi : ?known !! ?i = Some ?v |- _ =>
      pose proof (knows_read _ _ _ _ _ Hk Hi Hr); subst; clear Hr
  end.

Ltac known_operand H :=
  match type of H with
  | context [match ?known !! ?i with _ => _ end] => destruct (known !! i) eqn:?; [|discriminate H]
  end.

Context `{Storage View Cell} (view : View) (prior : Z).
Abbreviation evaluate := (evaluate sha256 view prior program claims).

Lemma evaluate_known_pure known s x pc m u r :
  pure x = true -> evaluate pc m u x = Ok r -> knows known (registers m) ->
  update_known sha256 program x known = Ok s -> follows_known s r.
Proof.
  intros Hp He Hk Hu. destruct x; try discriminate Hp; cbn [Runtime.evaluate] in He.
  - step_ok He as value eqn Hv. eapply assign_next_known; [exact He|exact Hk| |exact Hu|]; [done|].
    intros v Hkv. cbn [known_value] in Hkv. step_ok Hkv as w eqn Hw. injection Hkv as <-.
    apply expect_ok in Hw, Hv. congruence.
  - step_ok He as value eqn Hv. eapply assign_next_known; [exact He|exact Hk| |exact Hu|]; [done|].
    intros v Hkv. cbn [known_value] in Hkv. step_ok Hkv as w eqn Hw. injection Hkv as <-.
    apply expect_ok in Hw, Hv. congruence.
  - step_ok He as value eqn Hv. eapply assign_next_known; [exact He|exact Hk| |exact Hu|]; [done|].
    intros v Hkv. cbn [known_value] in Hkv. injection Hkv as Hkv. by read_known Hk.
  - step_ok He as a eqn Ha. step_ok He as b eqn Hb. step_ok He as ty eqn Hty. step_ok He as value eqn Hv.
    eapply assign_next_known; [exact He|exact Hk| |exact Hu|]; [done|]. intros v Hkv. cbn [known_value] in Hkv.
    known_operand Hkv. known_operand Hkv. step_ok Hkv as ty' eqn Hty'. apply known_ok_inv in Hkv.
    apply expect_ok in Hty, Hty'. apply map_err_ok in Hv. read_known Hk. congruence.
  - step_ok He as a eqn Ha. step_ok He as value eqn Hv.
    eapply assign_next_known; [exact He|exact Hk| |exact Hu|]; [done|]. intros v Hkv. cbn [known_value] in Hkv.
    known_operand Hkv. apply known_ok_inv in Hkv. apply map_err_ok in Hv. read_known Hk. congruence.
  - step_ok He as a eqn Ha. step_ok He as b eqn Hb. step_ok He as c eqn Hc. step_ok He as value eqn Hv.
    eapply assign_next_known; [exact He|exact Hk| |exact Hu|]; [done|]. intros v Hkv. cbn [known_value] in Hkv.
    do 3 known_operand Hkv. apply known_ok_inv in Hkv. apply map_err_ok in Hv. read_known Hk. congruence.
  - step_ok He as ty eqn Hty. destruct ty; try discriminate He. step_ok He as b eqn Hb. step_ok He as values eqn Hvs.
    eapply assign_next_known; [exact He|exact Hk| |exact Hu|]; [done|]. intros v Hkv. cbn [known_value] in Hkv.
    step_ok Hkv as ty' eqn Hty'. apply expect_ok in Hty, Hty'. rewrite Hty in Hty'. injection Hty' as <-.
    destruct (negb _); [discriminate Hkv|]. step_ok Hkv as vs eqn Hm. injection Hkv as <-. f_equal. by eapply tuple_known.
  - step_ok He as a eqn Ha. destruct a; try discriminate He. step_ok He as value eqn Hv.
    eapply assign_next_known; [exact He|exact Hk| |exact Hu|]; [done|]. intros v Hkv. cbn [known_value] in Hkv.
    known_operand Hkv. read_known Hk. step_ok Hkv as w eqn Hw. injection Hkv as <-. apply expect_ok in Hw, Hv. congruence.
Qed.

Lemma evaluate_known known s x pc m u r :
  evaluate pc m u x = Ok r -> knows known (registers m) ->
  update_known sha256 program x known = Ok s -> follows_known s r.
Proof.
  intros He Hk Hu. destruct (pure x) eqn:Ep; [by eapply evaluate_known_pure|].
  destruct x; try discriminate Ep; cbn [Runtime.evaluate] in He;
    repeat match type of He with
    | bindR ?m _ = Ok _ => destruct m as [?| |]; cbn [bindR] in He; [|discriminate He|discriminate He]
    | (let '(_, _) := ?p in _) = Ok _ => destruct p
    | (if ?b then _ else _) = Ok _ => destruct b; [try discriminate He|try discriminate He]
    end; try discriminate He;
    try (by injection He as <-; injection Hu as <-);
    try (eapply assign_next_known; [exact He|exact Hk| |exact Hu|]; [done|]; by intros ? [=]).
Qed.
End Known.

(** ** Totality of the analysis

    The analysis runs the dataflow loop of the verifier over another state: it
    reaches the instructions the verifier reached, and evaluates an
    instruction on operands of the types the verifier checked. *)
Section Shadow.
Context {Ex St1 St2 Out1 Out2 Ins : Type}.
Context (join1 : St1 -> St1 -> St1) (lost1 : Result Ex St1) (transfer1 : nat -> Ins -> St1 -> Result Ex (St1 * Out1)).
Context (join2 : St2 -> St2 -> St2) (lost2 : Result Ex St2) (transfer2 : nat -> Ins -> St2 -> Result Ex (St2 * Out2)).
Context (check1 check2 : nat -> nat -> Result Ex unit) (edge : Ins -> Edge) (inv : St2 -> Prop).
Context (lost1_err : forall s, lost1 <> Ok s).
Context (join2_inv : forall a b, inv a -> inv b -> inv (join2 a b)).
Context (check2_ok : forall i t, check1 i t = Ok tt -> check2 i t = Ok tt).
Context (transfer2_ok : forall i x s1 r s2, transfer1 i x s1 = Ok r -> inv s2 ->
  no_panic (transfer2 i x s2) /\ forall s2' o, transfer2 i x s2 = Ok (s2', o) -> inv s2').

(** Pending states at the same targets. *)
Definition shadows (a : list (option St1)) (b : list (option St2)) : Prop :=
  Forall2 (fun x y => match x, y with Some _, Some s => inv s | None, None => True | _, _ => False end) a b.
Definition shadowed (a : option St1) (b : option St2) : Prop :=
  match a, b with Some _, Some s => inv s | None, None => True | _, _ => False end.

Lemma shadows_lookup a b i : shadows a b ->
  match a !! i, b !! i with Some x, Some y => shadowed x y | None, None => True | _, _ => False end.
Proof.
  intros H. pose proof (Forall2_length _ _ _ H) as Hl. destruct (a !! i) as [x|] eqn:Ex'.
  - destruct (Forall2_lookup_l _ _ _ _ _ H Ex') as (y & -> & Hy). exact Hy.
  - apply lookup_ge_None in Ex'. by rewrite lookup_ge_None_2 by lia.
Qed.

Lemma shadows_pend a b t s1 s2 : shadows a b -> inv s2 -> shadows (flow_pend join1 a t s1) (flow_pend join2 b t s2).
Proof.
  intros H Hs. pose proof (shadows_lookup a b t H) as Ht. unfold flow_pend.
  destruct (a !! t) as [[p|]|], (b !! t) as [[q|]|]; try done; apply Forall2_insert; try done. by apply join2_inv.
Qed.

Lemma flow_shadow instructions : forall index a b fa fb r,
  flow_loop join1 lost1 transfer1 check1 edge index instructions a fa = Ok r ->
  shadows a b -> shadowed fa fb ->
  no_panic (flow_loop join2 lost2 transfer2 check2 edge index instructions b fb).
Proof.
  induction instructions as [|x instructions IH]; intros index a b fa fb r H Hp Hf; simpl in *; [done|].
  step_ok H as s1 eqn Hm. step_ok H as [s1' o1] eqn Ht. step_ok H as [] eqn Hc. step_ok H as [os last] eqn Hrec.
  assert (exists s2, flow_merge join2 lost2 fb (b !! index) = Ok s2 /\ inv s2) as (s2 & -> & Hs2).
  { pose proof (shadows_lookup a b index Hp) as Hi. unfold flow_merge, shadowed in *.
    destruct fa, fb, (a !! index) as [[?|]|], (b !! index) as [[?|]|]; try done; eauto.
    by apply lost1_err in Hm. }
  cbn [bindR]. destruct (transfer2_ok _ _ _ _ s2 Ht Hs2) as [Hn Hi]. apply bindR_no_panic; [done|]. intros [s2' o2] Ht2.
  specialize (Hi _ _ Ht2).
  assert (match edge_target (edge x) with Some target => check2 index target | None => Ok tt end = Ok tt) as ->.
  { destruct (edge_target (edge x)); [by apply check2_ok|done]. }
  cbn [bindR]. apply bindR_no_panic; [|by intros []]. eapply IH; [exact Hrec| |by destruct (edge_falls (edge x))].
  assert (shadows (<[index := None]> a) (<[index := None]> b)) as Hp' by by apply Forall2_insert.
  destruct (edge_target (edge x)); [by apply shadows_pend|done].
Qed.
End Shadow.

Section Total.
Context (sha256 : bytes -> bytes) (program : Program) (argument_types constant_types : list Ty) (claims : LimitPolicy).
Context (Hadm : admitted program argument_types constant_types (prog_tables program) claims).
Context (Htables : Forall table_wf (prog_tables program)).

(** Every known value is one its register holds. *)
Definition known_typed (known : Known) : Prop :=
  forall i v, known !! i = Some v ->
    exists ty, register_types program !! i = Some ty /\ accepts ty v = true /\ value_wf v = true.

Lemma known_typed_subseteq a b : a ⊆ b -> known_typed b -> known_typed a.
Proof. intros Hab Hb i v Hi. by eapply Hb, lookup_weaken. Qed.

Lemma known_operand known i ty v :
  known_typed known -> known !! i = Some v -> register_types program !! i = Some ty ->
  accepts ty v = true /\ value_wf v = true.
Proof. intros Hk Hi Hty. destruct (Hk i v Hi) as (ty' & Hty' & ? & ?). by simplify_eq. Qed.

(** An evaluation that cannot fail, and whose value is well formed. *)
Definition known_wp (m : Result Error (option Value)) : Prop :=
  match m with Ok (Some v) => value_wf v = true | Ok None => True | Err _ => True | Panic => False end.

Lemma known_wp_sound destination (m : Result AbortReason Value) : sound_result destination m -> known_wp (known_ok m).
Proof. destruct m; simpl; [by intros []|done..]. Qed.

Lemma fields_known known types : forall fields,
  known_typed known -> length types = length fields -> fields_accepted known fields types = true ->
  exists vs, mapR (fun field => expect (E:=Error) (known !! field)) fields = Ok vs /\ forallb value_wf vs = true.
Proof.
  induction types as [|ty types IH]; intros [|f fields] Hk Hl Hf; try done; [by exists []|].
  cbn [fields_accepted] in Hf. destruct (known !! f) as [v|] eqn:Ev; [|done]. apply andb_true_iff in Hf as [_ Hf].
  destruct (Hk f v Ev) as (_ & _ & _ & Hw). destruct (IH fields Hk) as (vs & Hvs & Hwf); [by injection Hl|done|].
  exists (v :: vs). cbn [mapR]. rewrite Ev. cbn [expect bindR]. rewrite Hvs. cbn [bindR forallb]. by rewrite Hw, Hwf.
Qed.

(** Take the operand at a register, or stop at an unknown one. *)
Ltac known_step Hk :=
  match goal with
  | |- known_wp (match ?known !! ?i with _ => _ end) =>
      let E := fresh "Eknown" in destruct (known !! i) eqn:E; [|exact I];
      let A := fresh "Hacc" in let W := fresh "Hwf" in
      match goal with Hty : register_types program !! i = Some _ |- _ => destruct (known_operand _ _ _ _ Hk E Hty) as [A W] end
  end.

Lemma known_value_wp x a d known :
  verify_instruction program argument_types constant_types claims x a = Ok d -> known_typed known ->
  known_wp (known_value sha256 program x known).
Proof.
  intros Hv Hk. destruct x; try exact I; cbn [verify_instruction] in Hv; cbn [known_value]; inv_verify.
  - destruct (Forall2_lookup_l _ _ _ _ _ (admitted_constants _ _ _ _ _ Hadm) ltac:(eassumption)) as (v & -> & _ & Hw). done.
  - destruct (Forall2_lookup_l _ _ _ _ _ (admitted_arguments _ _ _ _ _ Hadm) ltac:(eassumption)) as (v & -> & _ & Hw). done.
  - destruct (known !! src) as [v|] eqn:Ev; [|done]. by destruct (Hk _ _ Ev) as (_ & _ & _ & Hw).
  - do 2 known_step Hk. rename select (register_types program !! dst = Some _) into Hdst. rewrite Hdst. cbn [expect bindR].
    eapply known_wp_sound, binary_sound; eassumption.
  - known_step Hk. eapply known_wp_sound, unary_sound; try eassumption.
    by eapply (Forall_lookup_1 _ _ _ _ (admitted_registers _ _ _ _ _ Hadm)).
  - do 3 known_step Hk. eapply known_wp_sound, slice_sound; eassumption.
  - destruct a0 as [| | | | | |types|]; try discriminate. inv_verify.
    rename select (register_types program !! dst = Some _) into Hdst. rewrite Hdst. cbn [expect bindR].
    apply negb_false_iff, Nat.eqb_eq in Heqb. destruct (fields_accepted known fields types) eqn:Ef; [|done]. cbn [negb].
    destruct (fields_known known types fields Hk Heqb Ef) as (vs & -> & Hvs). exact Hvs.
  - destruct a0 as [| | | | | |types|]; try discriminate. inv_verify. known_step Hk.
    apply accepts_tuple in Hacc as (vs & -> & Hvs).
    destruct (Forall2_lookup_l _ _ _ _ _ Hvs ltac:(eassumption)) as (v & Hl & _). rewrite Hl. cbn [expect bindR known_wp].
    simpl in Hwf. apply forallb_Forall in Hwf. by eapply (Forall_lookup_1 _ _ _ _ Hwf).
Qed.
Lemma update_known_total x a d known :
  verify_instruction program argument_types constant_types claims x a = Ok d -> known_typed known ->
  no_panic (update_known sha256 program x known) /\
  forall s, update_known sha256 program x known = Ok s -> known_typed s.
Proof.
  intros Hv Hk. pose proof (known_value_wp x a d known Hv Hk) as Hw. unfold update_known.
  destruct (destination x) as [dst|] eqn:Ed; [|split; [done|by intros s [= <-]]].
  assert (known_typed (delete dst known)) as Hdel by (by eapply known_typed_subseteq, Hk; apply delete_subseteq).
  destruct (known_value _ _ _ _) as [[v|]| |]; cbn [bindR]; [|split; [done|by intros s [= <-]]|done..].
  assert (exists ty, register_types program !! dst = Some ty) as [ty Hty].
  { destruct x; try discriminate Ed; injection Ed as <-; cbn [verify_instruction] in Hv; inv_verify;
      try match goal with H : match ?ty with _ => _ end = Ok _ |- _ => destruct ty; try discriminate H; inv_verify end; eauto. }
  rewrite Hty. cbn [expect bindR]. split; [done|]. intros s [= <-]. destruct (accepts ty v) eqn:Ea; [|done].
  intros i w. rewrite lookup_insert_Some. intros [[<- <-]|[_ Hi]]; [by exists ty|by apply Hk].
Qed.

Lemma access_entry_total schemas x a d known :
  table_schemas program = Ok schemas ->
  verify_instruction program argument_types constant_types claims x a = Ok d -> known_typed known ->
  no_panic (access_entry program schemas known x).
Proof.
  intros Hs Hv Hk. unfold access_entry. destruct (accessed x) as [[[index register] mode]|] eqn:Ex; [|done].
  assert (exists t, prog_tables program !! index = Some t) as [t Ht].
  { destruct x; try discriminate Ex; injection Ex as <- <- <-; cbn [verify_instruction] in Hv; inv_verify;
      try match goal with H : match ?ty with _ => _ end = Ok _ |- _ => destruct ty; try discriminate H; inv_verify end; eauto. }
  rewrite Ht. cbn [expect bindR]. apply bindR_no_panic; [|done].
  destruct register as [r|]; [|done]. destruct (known !! r) as [v|] eqn:Ev; [|done].
  destruct (Hk r v Ev) as (ty & Hreg & Ha & Hw). unfold table_schemas in Hs. apply mapR_Forall2 in Hs.
  destruct (Forall2_lookup_l _ _ _ _ _ Hs Ht) as (schema & -> & Hd). cbn [expect bindR].
  step_ok Hd as data eqn Hdata. apply map_err_ok in Hd. unfold known_key.
  pose proof (Forall_lookup_1 _ _ _ _ (admitted_registers _ _ _ _ _ Hadm) Hreg) as Hvt.
  destruct (encode_value_ok (E:=Error) _ _ _ Hvt Ha) as [bs Hbs]. unfold encode. rewrite Hbs. cbn [bindR].
  pose proof (encode_key_no_panic schema bs) as Hn. by destruct (encode_key schema bs).
Qed.

Lemma derive_transfer_total schemas i x r1 r known :
  table_schemas program = Ok schemas ->
  verify_transfer program argument_types constant_types claims i x r1 = Ok r -> known_typed known ->
  no_panic (derive_transfer sha256 program schemas i x known) /\
  forall s o, derive_transfer sha256 program schemas i x known = Ok (s, o) -> known_typed s.
Proof.
  intros Hs Hv Hk. unfold verify_transfer in Hv. step_ok Hv as d eqn Hd. clear Hv.
  destruct (update_known_total x r1 d known Hd Hk) as [Hn Ht]. unfold derive_transfer. split.
  - apply bindR_no_panic; [by eapply access_entry_total|]. intros e _. by apply bindR_no_panic.
  - intros s o H. step_ok H as e eqn He. step_ok H as s' eqn Hs'. injection H as <- <-. by apply Ht.
Qed.

Lemma normalize_no_panic combined : forall modes, no_panic (normalize modes combined).
Proof.
  induction combined as [|[[table [kind key]] bits] combined IH]; intros modes; cbn [normalize]; [done|].
  destruct (kind =? 0); (destruct (_ =? 0); [apply IH|]); (apply bindR_no_panic; [|intros m _; apply bindR_no_panic; [apply IH|done]]);
    unfold access_mode; solve_no_panic.
Qed.

(** The analysis of an admitted program never panics. *)
Lemma derive_no_panic : no_panic (derive sha256 program).
Proof.
  unfold derive. apply bindR_no_panic.
  { apply mapR_no_panic, Forall_forall. intros t Ht. rewrite Forall_forall in Htables.
    destruct (table_key_schema t (Htables t Ht)) as (d & node & Hof & _). unfold schema_of in Hof.
    step_ok Hof as d' eqn Hd. rewrite (descriptor_any (E:=Failure) (F:=Error) _ _ Hd). cbn [bindR].
    apply map_err_no_panic, Schema_decode_no_panic. }
  intros schemas Hs. apply bindR_no_panic.
  - rewrite derive_loop_flow by apply repeat_length. apply bindR_no_panic; [|by intros [] _].
    pose proof (admitted_verified _ _ _ _ _ Hadm) as Hv. unfold verify in Hv. step_ok Hv as last eqn Hl.
    rewrite verify_loop_flow in Hl. step_ok Hl as [os l] eqn Hf. unfold verify_flow in Hf.
    refine (flow_shadow _ _ _ join Panic (derive_transfer sha256 program schemas) _ (derive_check program) _ known_typed
      _ _ _ _ _ _ _ _ _ _ _ Hf _ _); [by intros s| | | | |].
    + intros a b Ha _. by eapply known_typed_subseteq, Ha; apply join_l.
    + intros i t Hc. unfold check_target in Hc. destruct (_ || _) eqn:E; [done|].
      apply orb_false_iff in E as [_ E%Nat.leb_gt]. unfold derive_check. by rewrite (proj2 (Nat.ltb_lt _ _)).
    + intros i x s1 r s2 Htr Hk. by eapply derive_transfer_total.
    + unfold shadows. clear. induction (length (prog_instructions program)) as [|k IH]; simpl; by constructor.
    + simpl. intros i v Hi. by rewrite lookup_empty in Hi.
  - intros es _. unfold AccessManifest_new. apply bindR_no_panic.
    + apply foldR_no_panic. intros st [scope mode]. unfold combine_entry. destruct (order_key scope) as [? [? ?]]. by destruct (_ || _).
    + intros combined _. apply bindR_no_panic; [|done]. apply normalize_no_panic.
Qed.
End Total.
