(* ===== verification/Snapshots.v ===== *)
(** * Historical reads

    What a snapshot at a sequence shows: the newest version of every row,
    table and policy at or before it.  The catalogue and policy reads of
    [src/src/vm/database.rs] return exactly that. *)
From S2P Require Import Prelude OrdMap Errors Reader Value ValueFacts Encoding EncodingFacts Limits Operations Program Catalogue CatalogueFacts Storage Mvcc MvccFacts Outcome Administration.
From Stdlib Require Import Sorted.

(** ** The newest of a list of versions *)
Lemma latest_app {A} (v1 v2 : list (Z * A)) w :
  Forall (fun v => v.1 < w.1) v1 -> Forall (fun v => v.1 < w.1) v2 -> latest (v1 ++ w :: v2) = Some w.
Proof.
  intros H1 H2. assert (latest (w :: v2) = Some w) as Hw.
  { simpl. destruct (latest v2) as [x|] eqn:E; [|done]. assert (x.1 < w.1).
    { revert x E. induction H2 as [|y v2 Hy _ IH]; intros x E; [done|]. simpl in E.
      destruct (latest v2) as [z|]; [destruct (y.1 <? z.1)|]; injection E as <-; auto. }
    destruct (Z.ltb_spec w.1 x.1); [lia|done]. }
  induction H1 as [|v v1 Hv _ IH]; [done|]. cbn [app]. simpl. rewrite IH.
  by destruct (Z.ltb_spec v.1 w.1); [|lia].
Qed.

Lemma latest_elem {A} (versions : list (Z * A)) w : latest versions = Some w -> w ∈ versions.
Proof.
  revert w. induction versions as [|v versions IH]; intros w H; simpl in H; [done|].
  destruct (latest versions) as [x|] eqn:E.
  - destruct (v.1 <? x.1); injection H as <-; [right; by apply IH|by left].
  - injection H as <-. by left.
Qed.

Lemma latest_ascending {A} (versions : list (Z * A)) :
  StronglySorted (fun v w => v.1 < w.1) versions -> latest versions = last versions.
Proof.
  induction 1 as [|v versions Hs IH Hf]; [done|]. simpl. rewrite IH.
  destruct versions as [|w versions]; [done|]. rewrite last_cons_cons.
  destruct (last (w :: versions)) as [x|] eqn:E; [|by apply last_None in E].
  rewrite Forall_forall in Hf. apply last_Some_elem_of in E. specialize (Hf _ E).
  by destruct (Z.ltb_spec v.1 x.1); [|lia].
Qed.

Lemma omap_cons_Some {A B} (f : A -> option B) e es x : f e = Some x -> omap f (e :: es) = x :: omap f es.
Proof. intros H. simpl. by rewrite H. Qed.

(** A fresh key splits the entries where it is inserted. *)
Lemma bt_insert_split {K V} `{CmpLaws K} (k : K) (v : V) m :
  bt_get k m = None -> exists m1 m2, m = m1 ++ m2 /\ bt_insert k v m = m1 ++ (k, v) :: m2.
Proof.
  induction m as [|[a w] m IH]; simpl; [by exists [], []|].
  destruct (cmp k a); intros Hg; [done|by exists [], ((a, w) :: m)|].
  destruct (IH Hg) as (m1 & m2 & -> & ->). by exists ((a, w) :: m1), m2.
Qed.

Section Insert.
Context {K V A} `{CmpLaws K} (project : K * V -> option (Z * A)) (k : K) (v : V) (m : list (K * V)).
Context (Hfresh : bt_get k m = None).

Lemma latest_insert_None :
  project (k, v) = None -> latest (omap project (bt_insert k v m)) = latest (omap project m).
Proof.
  intros Hp. destruct (bt_insert_split k v m Hfresh) as (m1 & m2 & E1 & ->). rewrite E1.
  rewrite !omap_app. simpl. by rewrite Hp.
Qed.

Lemma latest_insert_Some w :
  project (k, v) = Some w -> (forall e x, e ∈ m -> project e = Some x -> x.1 < w.1) ->
  latest (omap project (bt_insert k v m)) = Some w.
Proof.
  intros Hp Hlt. destruct (bt_insert_split k v m Hfresh) as (m1 & m2 & E1 & ->).
  rewrite omap_app. simpl. rewrite Hp. apply latest_app; apply Forall_forall;
    intros x (e & He & Hx)%list_elem_of_omap; apply (Hlt e x); try done; rewrite E1; apply elem_of_app; auto.
Qed.
End Insert.

(** ** Tables *)
Definition table_version_at (id sequence : Z) (e : Entry) : option (Z * CatalogueVersion) :=
  match decode_catalogue_key e.1 with
  | Ok (found, s) =>
      if (found =? id) && (s <=? sequence) then
        match decode_catalogue found e.2 with Ok version => Some (s, version) | _ => None end
      else None
  | _ => None
  end.

(** The version of the table that is effective at the sequence. *)
Definition table_at (entries : list Entry) (id sequence : Z) : option CatalogueVersion :=
  match latest (omap (table_version_at id sequence) entries) with
  | Some (_, version) => Some version
  | None => None
  end.

Definition catalogue_entry (e : Entry) : Prop :=
  exists id s v, decode_catalogue_key e.1 = Ok (id, s) /\ decode_catalogue id e.2 = Ok v.

(** ** Policies *)
Definition policy_version_at (sequence : Z) (e : Entry) : option (Z * LimitPolicy) :=
  if from_be e.1 <=? sequence then
    match LimitPolicy_decode e.2 with Ok policy => Some (from_be e.1, policy) | _ => None end
  else None.

Definition policy_at (entries : list Entry) (sequence : Z) : option LimitPolicy :=
  match latest (omap (policy_version_at sequence) entries) with
  | Some (_, policy) => Some policy
  | None => None
  end.

Definition policy_entry (e : Entry) : Prop :=
  len e.1 = 8 /\ exists policy, LimitPolicy_decode e.2 = Ok policy.

Definition genesis (entries : list Entry) : Prop := is_Some (bt_get (be_bytes 8 0) entries).

(** ** Catalogue reads *)
Lemma cmp_catalogue_key a s b t :
  0 <= a <= u64_max -> 0 <= b <= u64_max -> 0 <= s <= u64_max -> 0 <= t <= u64_max ->
  cmp (catalogue_key a s) (catalogue_key b t) = lex (cmp a b) (cmp t s).
Proof.
  intros Ha Hb Hs Ht. unfold catalogue_key. rewrite cmp_be_app by done.
  pose proof (not_u64_range s Hs). pose proof (not_u64_range t Ht).
  change (256 ^ 8) with (u64_max + 1) in *. by rewrite cmp_be_u64, cmp_not_u64 by lia.
Qed.

Lemma catalogue_range id sequence a s :
  0 <= id < u64_max -> 0 <= a <= u64_max -> 0 <= sequence <= u64_max -> 0 <= s <= u64_max ->
  in_range (Included (catalogue_key id sequence)) (Excluded (be_bytes 8 (id + 1))) (catalogue_key a s) =
  (a =? id) && (s <=? sequence).
Proof.
  intros Hi Ha Hq Hs. unfold in_range, above, below, cmp_le, cmp_lt. rewrite cmp_catalogue_key by lia.
  unfold catalogue_key. rewrite <-(app_nil_r (be_bytes 8 (id + 1))), cmp_be_app by lia.
  rewrite <-(app_nil_r (be_bytes 8 (not_u64 s))).
  destruct (cmp_nil_app (be_bytes 8 (not_u64 s)) []) as [_ ->]; [by rewrite len_be_bytes|].
  unfold cmp, Z_cmp. destruct (Z.eqb_spec a id) as [->|Hne].
  - rewrite Z.compare_refl. simpl. destruct (Z.compare_spec id (id + 1)); try lia. simpl.
    destruct (Z.compare_spec s sequence), (Z.leb_spec s sequence); (done || lia).
  - destruct (Z.compare_spec id a), (Z.compare_spec a (id + 1)); simpl; (done || lia).
Qed.

Lemma catalogue_entry_key e : catalogue_entry e ->
  exists id s v, e.1 = catalogue_key id s /\ decode_catalogue_key e.1 = Ok (id, s) /\
    decode_catalogue id e.2 = Ok v /\ 0 < id <= s /\ s < u64_max.
Proof.
  intros (id & s & v & Hk & Hv). exists id, s, v. by pose proof Hk as (? & ? & ?)%decode_catalogue_key_iff.
Qed.

(** Among the entries of a tree, those of the range are the visible ones. *)
Lemma table_versions_range id sequence entries :
  0 < id < u64_max -> 0 <= sequence <= u64_max -> Forall catalogue_entry entries ->
  omap (table_version_at id sequence) entries =
  omap (table_version_at id sequence)
    (bt_range (Included (catalogue_key id sequence)) (Excluded (be_bytes 8 (id + 1))) entries).
Proof.
  intros Hi Hs. induction 1 as [|e entries He _ IH]; [done|].
  apply catalogue_entry_key in He as (a & s & v & Ek & Hk & Hv & ? & ?).
  unfold bt_range in *. cbn [List.filter]. rewrite Ek, catalogue_range by lia.
  assert (table_version_at id sequence e = if (a =? id) && (s <=? sequence) then Some (s, v) else None) as E.
  { unfold table_version_at. rewrite Hk, Hv. done. }
  destruct ((a =? id) && (s <=? sequence)); simpl; rewrite E; [by f_equal|done].
Qed.

Lemma table_versions_descend id sequence entries :
  bt_sorted entries ->
  StronglySorted (fun v w : Z * CatalogueVersion => w.1 < v.1) (omap (table_version_at id sequence) entries).
Proof.
  induction 1 as [|e entries Hs IH Hf]; simpl; [constructor|].
  destruct (table_version_at id sequence e) as [[s v]|] eqn:Hv; [|done]. constructor; [done|].
  rewrite Forall_forall in Hf. apply Forall_forall. intros [s' v'] (e' & He' & Hv')%list_elem_of_omap.
  specialize (Hf _ He'). unfold key_lt in Hf. unfold table_version_at in Hv, Hv'.
  destruct (decode_catalogue_key e.1) as [[a t]| |] eqn:Ek; try done.
  destruct (decode_catalogue_key e'.1) as [[a' t']| |] eqn:Ek'; try done.
  destruct (Z.eqb_spec a id) as [->|], (Z.eqb_spec a' id) as [->|]; try done. simpl in Hv, Hv'.
  destruct (t <=? sequence), (t' <=? sequence), (decode_catalogue id e.2), (decode_catalogue id e'.2); try done.
  injection Hv as <- <-. injection Hv' as <- <-. simpl.
  apply decode_catalogue_key_iff in Ek as (E & ? & ?), Ek' as (E' & ? & ?). rewrite E, E' in Hf.
  rewrite cmp_catalogue_key, cmp_refl in Hf by lia. by apply Z.compare_lt_iff in Hf.
Qed.

(** ** Names in use *)
Lemma table_at_cons e entries id sequence a s v :
  bt_sorted (e :: entries) -> decode_catalogue_key e.1 = Ok (a, s) -> decode_catalogue a e.2 = Ok v ->
  table_at (e :: entries) id sequence =
  if (a =? id) && (s <=? sequence) then Some v else table_at entries id sequence.
Proof.
  intros Hs Hk Hv. unfold table_at. assert (table_version_at id sequence e =
    if (a =? id) && (s <=? sequence) then Some (s, v) else None) as E by (unfold table_version_at; by rewrite Hk, Hv).
  destruct ((a =? id) && (s <=? sequence)).
  - rewrite (latest_sorted (omap _ (e :: entries))) by by apply table_versions_descend. by rewrite (omap_cons_Some _ _ _ _ E).
  - simpl. by rewrite E.
Qed.

Lemma table_at_elem entries id sequence v :
  table_at entries id sequence = Some v ->
  exists e s, e ∈ entries /\ decode_catalogue_key e.1 = Ok (id, s) /\ decode_catalogue id e.2 = Ok v /\ s <= sequence.
Proof.
  unfold table_at. destruct (latest _) as [[s w]|] eqn:E; [|done]. intros [= ->].
  apply latest_elem, list_elem_of_omap in E as (e & He & Hv). unfold table_version_at in Hv.
  destruct (decode_catalogue_key e.1) as [[a t]| |] eqn:Ek; try done. destruct (Z.eqb_spec a id) as [->|]; [|done].
  destruct (Z.leb_spec t sequence); [|done]. simpl in Hv. destruct (decode_catalogue id e.2) eqn:Ed; try done.
  injection Hv as -> ->. by exists e, s.
Qed.

Definition ids_above (id0 : Z) (e : Entry) : Prop := forall id s, decode_catalogue_key e.1 = Ok (id, s) -> id0 <= id.

Lemma sorted_ids_above e entries a s :
  bt_sorted (e :: entries) -> decode_catalogue_key e.1 = Ok (a, s) -> Forall (ids_above a) entries.
Proof.
  intros [_ Hf]%StronglySorted_inv Hk. rewrite Forall_forall in *. intros e' He' b t Hb. specialize (Hf _ He').
  apply decode_catalogue_key_iff in Hk as (E & ? & ?), Hb as (E' & ? & ?). unfold key_lt in Hf.
  rewrite E, E', cmp_catalogue_key in Hf by lia. unfold cmp, Z_cmp in Hf. destruct (Z.compare_spec a b); (done || lia).
Qed.

(** A live table other than [except] has the name at the sequence. *)
Definition has_name (wanted : bytes) (except : option Z) (id : Z) (v : CatalogueVersion) : bool :=
  live v && bool_decide (name v = wanted) && negb (bool_decide (except = Some id)).
Definition name_taken (entries : list Entry) (sequence : Z) (wanted : bytes) (except : option Z) : Prop :=
  exists id v, table_at entries id sequence = Some v /\ has_name wanted except id v = true.

Lemma name_entries_iff sequence wanted except entries : forall selected,
  bt_sorted entries -> Forall catalogue_entry entries ->
  (forall id0, selected = Some id0 -> Forall (ids_above id0) entries) ->
  exists b, name_entries sequence wanted except selected (map Ok entries) = Ok b /\
    (b = true <-> exists id v, selected <> Some id /\ table_at entries id sequence = Some v /\
       has_name wanted except id v = true).
Proof.
  induction entries as [|[key value] entries IH]; intros selected Hs Hc Hsel.
  { exists false. split; [done|]. split; [done|]. by intros (? & ? & _ & ? & _). }
  apply Forall_cons_1 in Hc as [(a & s & v & Hk & Hv) Hc]. pose proof (table_at_cons (key, value) entries) as Hat.
  pose proof (sorted_ids_above _ _ _ _ Hs Hk) as Habove.
  pose proof (StronglySorted_inv Hs) as [Hs' _]. cbn [map name_entries map_err bindR]. simpl in Hk, Hv.
  rewrite Hk. cbn [bindR]. destruct (Z.gtb_spec s sequence) as [Hgt|Hle]; simpl.
  { destruct (IH selected) as (b & Hb & Hiff); [done..|by intros id0 [_ ?]%Hsel%Forall_cons_1|].
    exists b. split; [done|]. rewrite Hiff. setoid_rewrite (Hat _ sequence a s v Hs Hk Hv).
    setoid_rewrite (proj2 (Z.leb_gt s sequence)); [|lia]. by setoid_rewrite andb_false_r. }
  destruct (bool_decide_reflect (selected = Some a)) as [->|Hne].
  { destruct (IH (Some a)) as (b & Hb & Hiff); [done..|by intros id0 [= <-]|].
    exists b. split; [done|]. rewrite Hiff. setoid_rewrite (Hat _ sequence a s v Hs Hk Hv).
    split; intros (id & w & Hn & Ht & Hh); exists id, w; (split; [done|]); destruct (Z.eqb_spec a id); naive_solver. }
  rewrite Hv. cbn [map_err bindR]. fold (has_name wanted except a v).
  assert (table_at ((key, value) :: entries) a sequence = Some v) as Ha.
  { rewrite (Hat _ sequence a s v Hs Hk Hv), Z.eqb_refl. by destruct (Z.leb_spec s sequence); [|lia]. }
  destruct (has_name wanted except a v) eqn:Eh.
  { exists true. split; [done|]. split; [|done]. intros _. by exists a, v. }
  destruct (IH (Some a)) as (b & Hb & Hiff); [done..|by intros id0 [= <-]|].
  exists b. split; [done|]. rewrite Hiff. split; intros (id & w & Hn & Ht & Hh); exists id, w.
  - assert (table_at ((key, value) :: entries) id sequence = Some w) as Ht'.
    { rewrite (Hat _ sequence a s v Hs Hk Hv). by destruct (Z.eqb_spec a id) as [->|]. }
    split; [|done]. intros ->. apply (Forall_cons_1 _ _ _ (Hsel _ eq_refl)) in Hk as Hle'.
    apply table_at_elem in Ht as (e & t & He & Hek & _). rewrite Forall_forall in Habove.
    specialize (Habove _ He _ _ Hek). assert (id = a) by lia. congruence.
  - assert (id <> a) as Hne' by (intros ->; congruence). split; [congruence|]. split; [|done].
    rewrite (Hat _ sequence a s v Hs Hk Hv) in Ht. by destruct (Z.eqb_spec a id) as [->|].
Qed.

(** ** Policy reads *)
Lemma policy_key e : policy_entry e -> exists s, 0 <= s <= u64_max /\ e.1 = be_bytes 8 s /\ from_be e.1 = s.
Proof.
  intros [Hl _]. exists (from_be e.1). pose proof (from_be_range e.1) as Hr. rewrite Hl in Hr.
  change (256 ^ 8) with (u64_max + 1) in Hr. split; [lia|]. split; [|done].
  symmetry. apply be_bytes_from_be. unfold len in Hl. lia.
Qed.

Lemma policy_range sequence e : 0 <= sequence <= u64_max -> policy_entry e ->
  in_range Unbounded (Included (be_bytes 8 sequence)) e.1 = (from_be e.1 <=? sequence).
Proof.
  intros Hs (s & Hr & E & F)%policy_key. unfold in_range, above, below, cmp_le. rewrite F, E, cmp_be_u64 by done.
  unfold cmp, Z_cmp. simpl. destruct (Z.compare_spec s sequence), (Z.leb_spec s sequence); (done || lia).
Qed.

Lemma policy_versions_range sequence entries :
  0 <= sequence <= u64_max -> Forall policy_entry entries ->
  omap (policy_version_at sequence) entries =
  omap (policy_version_at sequence) (bt_range Unbounded (Included (be_bytes 8 sequence)) entries).
Proof.
  intros Hs. induction 1 as [|e entries He _ IH]; [done|]. unfold bt_range in *. cbn [List.filter].
  rewrite policy_range by done. pose proof (eq_refl (policy_version_at sequence e)) as E.
  unfold policy_version_at in E at 2. destruct (from_be e.1 <=? sequence); simpl; [|by rewrite E].
  by destruct (policy_version_at sequence e); [f_equal|].
Qed.

Lemma policy_versions_ascend sequence entries :
  bt_sorted entries -> Forall policy_entry entries ->
  StronglySorted (fun v w : Z * LimitPolicy => v.1 < w.1) (omap (policy_version_at sequence) entries).
Proof.
  intros Hs. induction Hs as [|e entries Hs IH Hf]; intros Hp; simpl; [constructor|].
  apply Forall_cons_1 in Hp as [He Hp]. specialize (IH Hp).
  destruct (policy_version_at sequence e) as [[s p]|] eqn:Hv; [|done]. constructor; [done|].
  rewrite Forall_forall in Hf, Hp. apply Forall_forall. intros [s' p'] (e' & He' & Hv')%list_elem_of_omap.
  specialize (Hf _ He'). specialize (Hp _ He'). unfold key_lt in Hf.
  apply policy_key in He as (a & ? & E & F), Hp as (b & ? & E' & F').
  unfold policy_version_at in Hv, Hv'. rewrite F in Hv. rewrite F' in Hv'. rewrite E, E', cmp_be_u64 in Hf by done.
  destruct (a <=? sequence), (b <=? sequence), (LimitPolicy_decode e.2), (LimitPolicy_decode e'.2); try done.
  injection Hv as <- <-. injection Hv' as <- <-. by apply Z.compare_lt_iff in Hf.
Qed.

(** The loop keeps the last policy; the genesis policy comes first. *)
Lemma policy_entries_last sequence entries : forall current,
  Forall policy_entry entries -> Forall (fun e => from_be e.1 <= sequence) entries ->
  (current = None -> forall e, head entries = Some e -> e.1 = repeat x00 8) ->
  policy_entries current (map Ok entries) =
  Ok (match last (omap (policy_version_at sequence) entries) with Some (_, p) => Some p | None => current end).
Proof.
  induction entries as [|[k v] entries IH]; intros current Hp Hr Hg; [done|]. cbn [map policy_entries].
  apply Forall_cons_1 in Hp as [[Hl [p Hd]] Hp]. apply Forall_cons_1 in Hr as [Hr Hrs]. simpl in Hl, Hd, Hr.
  cbn [map_err bindR]. rewrite Hl, Z.eqb_refl. cbn [negb].
  assert (match current with None => negb (bool_decide (k = repeat x00 8)) | Some _ => false end = false) as ->.
  { destruct current; [done|]. by rewrite bool_decide_true by by apply (Hg eq_refl (k, v)). }
  rewrite Hd. cbn [map_err bindR]. rewrite (IH (Some p)) by done.
  assert (policy_version_at sequence (k, v) = Some (from_be k, p)) as Ev.
  { unfold policy_version_at. simpl. by rewrite (proj2 (Z.leb_le _ _) Hr), Hd. }
  rewrite (omap_cons_Some _ _ _ _ Ev). destruct (omap _ entries) as [|x xs]; [done|].
  rewrite last_cons_cons. by destruct (last (x :: xs)) as [[]|] eqn:E; [|apply last_None in E].
Qed.

Lemma genesis_head sequence entries :
  0 <= sequence <= u64_max -> bt_sorted entries -> Forall policy_entry entries -> genesis entries ->
  exists e es p, bt_range Unbounded (Included (be_bytes 8 sequence)) entries = e :: es /\ e.1 = repeat x00 8 /\
    policy_version_at sequence e = Some (0, p).
Proof.
  intros Hs Hsort Hp [data Hg]. destruct entries as [|e entries]; [done|].
  assert (e.1 = be_bytes 8 0) as Ek.
  { apply bt_get_elem, elem_of_cons in Hg as [<-|Hin]; [done|].
    apply StronglySorted_inv in Hsort as [_ Hf]. rewrite Forall_forall in Hf. specialize (Hf _ Hin). unfold key_lt in Hf.
    apply Forall_cons_1 in Hp as [(s & ? & E & _)%policy_key _]. rewrite E in Hf. simpl in Hf.
    rewrite cmp_be_u64 in Hf by (unfold u64_max in *; lia). apply (proj1 (Z.compare_lt_iff _ _)) in Hf. lia. }
  apply Forall_cons_1 in Hp as [[Hl [p Hd]] _]. unfold bt_range. cbn [List.filter].
  rewrite policy_range, Ek by (done || (split; [done|by exists p])).
  change (from_be (be_bytes 8 0)) with 0. rewrite (proj2 (Z.leb_le _ _)) by lia.
  exists e. eexists _, p. split; [done|]. split; [done|].
  unfold policy_version_at. rewrite Ek, Hd. change (from_be (be_bytes 8 0)) with 0.
  by rewrite (proj2 (Z.leb_le _ _)) by lia.
Qed.

Section Reads.
Context `{Storage View Cell} (view : View) (contents : Contents) (Hview : Represents view contents).

(** [catalogue_version] returns the effective version of the table. *)
Lemma catalogue_version_at id sequence :
  Forall catalogue_entry (contents Catalogue) -> 0 < id < u64_max -> 0 <= sequence < u64_max ->
  catalogue_version view id sequence = Ok (table_at (contents Catalogue) id sequence).
Proof.
  intros Hc Hi Hs. unfold catalogue_version.
  rewrite (proj2 (valid_id_ok id tt)) by lia. cbn [bindR]. rewrite (proj2 (Z.eqb_neq _ _)) by lia.
  rewrite arith_u64_ok by lia. cbn [bindR].
  rewrite (scan_contents _ _ Hview) by done. cbn [map_err bindR]. unfold table_at.
  rewrite latest_sorted by (apply table_versions_descend, (contents_sorted _ _ Hview)).
  rewrite table_versions_range by (done || lia).
  destruct (bt_range _ _ _) as [|e es] eqn:Er; [done|]. cbn [map].
  assert (e ∈ bt_range (Included (catalogue_key id sequence)) (Excluded (be_bytes 8 (id + 1))) (contents Catalogue)) as He
    by (rewrite Er; by left).
  apply elem_of_bt_range in He as [He Hr]. rewrite Forall_forall in Hc. specialize (Hc _ He).
  apply catalogue_entry_key in Hc as (a & s & v & Ek & Hk & Hv & ? & ?). rewrite Ek, catalogue_range in Hr by lia.
  apply andb_true_iff in Hr as [->%Z.eqb_eq Hle]. destruct e as [key value]. simpl in *.
  cbn [map_err bindR]. rewrite Hk. cbn [bindR]. rewrite Z.eqb_refl, gtb_false by blia. simpl. rewrite Hv. simpl.
  unfold table_version_at at 1. simpl. by rewrite Hk, Z.eqb_refl, Hle, Hv.
Qed.

Lemma name_in_use_iff sequence wanted except :
  Forall catalogue_entry (contents Catalogue) ->
  exists b, name_in_use view sequence wanted except = Ok b /\
    (b = true <-> name_taken (contents Catalogue) sequence wanted except).
Proof.
  intros Hc. unfold name_in_use. rewrite (scan_contents _ _ Hview) by done. cbn [map_err bindR].
  assert (bt_range Unbounded Unbounded (contents Catalogue) = contents Catalogue) as ->.
  { unfold bt_range. induction (contents Catalogue) as [|e es IH]; [done|]. simpl. f_equal. apply IH. by inversion Hc. }
  destruct (name_entries_iff sequence wanted except (contents Catalogue) None) as (b & Hb & Hiff);
    [apply (contents_sorted _ _ Hview)|done..|].
  exists b. split; [done|]. rewrite Hiff. unfold name_taken. naive_solver.
Qed.

(** [policy] returns the effective policy, which exists. *)
Lemma database_policy_at sequence :
  Forall policy_entry (contents Policy) -> genesis (contents Policy) -> 0 <= sequence < u64_max ->
  exists p, policy_at (contents Policy) sequence = Some p /\ database_policy view sequence = Ok p.
Proof.
  intros Hp Hg Hs. pose proof (contents_sorted _ _ Hview Policy) as Hsort.
  destruct (genesis_head sequence (contents Policy)) as (e & es & p & Er & Ek & Ev); [lia|done..|].
  unfold database_policy, policy_at. rewrite (proj2 (Z.eqb_neq _ _)) by lia.
  rewrite (scan_contents _ _ Hview) by done. cbn [map_err bindR].
  rewrite policy_versions_range by (done || lia).
  rewrite latest_ascending by (apply policy_versions_ascend;
    [by apply bt_sorted_filter|apply Forall_forall; intros x [Hx _]%elem_of_bt_range; rewrite Forall_forall in Hp; by apply Hp]).
  rewrite (policy_entries_last sequence).
  - rewrite Er. simpl. rewrite Ev. destruct (last _) as [[s q]|] eqn:E; [by exists q|by apply last_None in E].
  - apply Forall_forall. intros x [Hx _]%elem_of_bt_range. rewrite Forall_forall in Hp. by apply Hp.
  - apply Forall_forall. intros x [Hx Hr]%elem_of_bt_range. rewrite Forall_forall in Hp.
    rewrite policy_range in Hr by (lia || by apply Hp). by apply Z.leb_le.
  - intros _ x. rewrite Er. by intros [= <-].
Qed.
End Reads.
