(* ===== verification/Installation.v ===== *)
(** * Installing an outcome

    The abstract database is a [Snapshot] per sequence: what rows, tables and
    policy it shows.  [install] ([src/src/vm/database.rs]) refines the
    abstract step that applies the effects of an outcome to the newest
    snapshot, and never changes an older one. *)
From S2P Require Import Prelude OrdMap Errors Reader Value ValueFacts Encoding EncodingFacts Limits Operations Program Catalogue CatalogueFacts Storage Mvcc MvccFacts Outcome OutcomeFacts Administration Snapshots.
From Stdlib Require Import Sorted.

(** ** Abstract snapshots *)
Record Snapshot : Type := {
  shown_row : Z -> bytes -> option bytes;
  shown_table : Z -> option CatalogueVersion;
  shown_policy : option LimitPolicy }.

Definition snapshot (contents : Contents) (sequence : Z) : Snapshot :=
  {| shown_row table key := row (contents State) table key sequence;
     shown_table id := table_at (contents Catalogue) id sequence;
     shown_policy := policy_at (contents Policy) sequence |}.

(** Snapshots are equal when they show the same. *)
#[export] Instance snapshot_equiv : Equiv Snapshot := fun a b =>
  (forall table key, shown_row a table key = shown_row b table key) /\
  (forall id, shown_table a id = shown_table b id) /\ shown_policy a = shown_policy b.
#[export] Instance snapshot_equivalence : Equivalence (≡@{Snapshot}).
Proof.
  split.
  - by intros a.
  - intros a b (H1 & H2 & H3). by split; [|split].
  - intros a b c (H1 & H2 & H3) (H4 & H5 & H6). split; [|split].
    + intros t k. by rewrite H1.
    + intros id. by rewrite H2.
    + by rewrite H3.
Qed.

Definition set_row (table : Z) (key : bytes) (value : option bytes) (d : Snapshot) : Snapshot :=
  {| shown_row t k := if decide (t = table /\ k = key) then value else shown_row d t k;
     shown_table := shown_table d; shown_policy := shown_policy d |}.

Definition apply_effect (d : Snapshot) (e : Effect) : Snapshot :=
  match e with
  | Effect_Put table key value => set_row table key (Some value) d
  | Effect_Delete table key => set_row table key None d
  | Effect_Catalogue table data =>
      {| shown_row := shown_row d;
         shown_table id :=
           if decide (id = table) then
             match decode_catalogue table data with Ok version => Some version | _ => shown_table d id end
           else shown_table d id;
         shown_policy := shown_policy d |}
  | Effect_Limits policy =>
      {| shown_row := shown_row d; shown_table := shown_table d; shown_policy := Some policy |}
  end.

#[export] Instance apply_effect_proper : Proper ((≡) ==> (=) ==> (≡)) apply_effect.
Proof.
  intros a b (H1 & H2 & H3) e _ <-. destruct e; (split; [|split]); simpl; intros;
    rewrite ?H1, ?H2, ?H3; try done; by destruct (decide _).
Qed.

Definition apply_effects (d : Snapshot) (es : list Effect) : Snapshot := foldl apply_effect d es.
#[export] Instance apply_effects_proper : Proper ((≡) ==> (=) ==> (≡)) apply_effects.
Proof.
  intros a b H es _ <-. unfold apply_effects. revert a b H. induction es as [|e es IH]; intros a b H; simpl; [done|].
  apply IH. by apply apply_effect_proper.
Qed.

(** ** The history a database holds *)
Definition state_upto (last : Z) (e : Entry) : Prop :=
  exists k payload, StateKey_decode e.1 = Ok k /\ value_payload e.2 = Ok payload /\ state_sequence k <= last.
Definition catalogue_upto (last : Z) (e : Entry) : Prop :=
  exists id s v, decode_catalogue_key e.1 = Ok (id, s) /\ decode_catalogue id e.2 = Ok v /\ s <= last.
Definition policy_upto (last : Z) (e : Entry) : Prop := policy_entry e /\ from_be e.1 <= last.
Definition outcome_upto (last : Z) (e : Entry) : Prop :=
  exists s r, e.1 = be_bytes 8 s /\ 0 < s <= last /\ decode_outcome e.2 = Ok r /\ record_sequence r = s.

(** Every version in the trees is well formed and at most [last]. *)
Record versions_upto (contents : Contents) (last : Z) : Prop := {
  upto_sorted tree : bt_sorted (contents tree);
  upto_state : Forall (state_upto last) (contents State);
  upto_catalogue : Forall (catalogue_upto last) (contents Catalogue);
  upto_policy : Forall (policy_upto last) (contents Policy);
  upto_genesis : genesis (contents Policy);
  upto_outcomes : Forall (outcome_upto last) (contents Outcomes) }.

(** [last] is the newest sequence, resolved contiguously since the checkpoint. *)
Record history (contents : Contents) (checkpoint last : Z) : Prop := {
  history_versions : versions_upto contents last;
  history_bounds : 0 <= checkpoint <= last /\ last < u64_max;
  history_complete s : checkpoint < s <= last -> is_Some (bt_get (be_bytes 8 s) (contents Outcomes)) }.

Lemma Forall_le (P : Z -> Entry -> Prop) a b es :
  (forall e, P a e -> P b e) -> Forall (P a) es -> Forall (P b) es.
Proof. intros H Hf. eapply Forall_impl; [exact Hf|exact H]. Qed.

Lemma versions_upto_le contents a b : a <= b -> versions_upto contents a -> versions_upto contents b.
Proof.
  intros Hle [Hs H1 H2 H3 Hg H4]. split; try done; (eapply Forall_le; [|done]); intros e.
  - intros (k & p & ? & ? & ?). exists k, p. split; [done|]. split; [done|lia].
  - intros (id & s & v & ? & ? & ?). exists id, s, v. split; [done|]. split; [done|lia].
  - intros [? ?]. split; [done|lia].
  - intros (s & r & ? & ? & ? & ?). exists s, r. split; [done|]. split; [lia|done].
Qed.

Lemma upto_state_entries contents last : versions_upto contents last -> Forall state_entry (contents State).
Proof. intros H. eapply Forall_impl; [apply H|]. intros e (k & p & ? & ? & _). by exists k, p. Qed.
Lemma upto_catalogue_entries contents last : versions_upto contents last -> Forall catalogue_entry (contents Catalogue).
Proof. intros H. eapply Forall_impl; [apply H|]. intros e (id & s & v & ? & ? & _). by exists id, s, v. Qed.
Lemma upto_policy_entries contents last : versions_upto contents last -> Forall policy_entry (contents Policy).
Proof. intros H. eapply Forall_impl; [apply H|]. by intros e [? _]. Qed.

(** Later snapshots show what the newest one does. *)
Lemma omap_Forall_ext {A B} (f g : A -> option B) l : Forall (fun x => f x = g x) l -> omap f l = omap g l.
Proof. induction 1 as [|x l Hx _ IH]; simpl; [done|]. rewrite Hx. destruct (g x); [f_equal|]; exact IH. Qed.

Lemma snapshot_later contents last s : versions_upto contents last -> last <= s -> snapshot contents s ≡ snapshot contents last.
Proof.
  intros H Hle. split; [|split]; simpl.
  - intros t k. unfold row, versions_at.
    rewrite (omap_Forall_ext _ (version_at t k last)); [done|]. eapply Forall_impl; [apply H|].
    intros e (k' & p & Hk & Hp & Hs). unfold version_at. rewrite Hk, Hp. do 2 f_equal.
    by rewrite (proj2 (Z.leb_le _ _)), (proj2 (Z.leb_le _ _)) by lia.
  - intros id. unfold table_at.
    rewrite (omap_Forall_ext _ (table_version_at id last)); [done|]. eapply Forall_impl; [apply H|].
    intros e (a & s' & v & Hk & Hv & Hs). unfold table_version_at. rewrite Hk.
    by rewrite (proj2 (Z.leb_le _ _)), (proj2 (Z.leb_le s' last)) by lia.
  - unfold policy_at.
    rewrite (omap_Forall_ext _ (policy_version_at last)); [done|]. eapply Forall_impl; [apply H|].
    intros e [_ Hs]. unfold policy_version_at. by rewrite (proj2 (Z.leb_le _ _)), (proj2 (Z.leb_le _ last)) by lia.
Qed.

Lemma latest_insert {K V A} `{CmpLaws K} (project : K * V -> option (Z * A)) k v m :
  bt_get k m = None ->
  (forall w e x, project (k, v) = Some w -> e ∈ m -> project e = Some x -> x.1 < w.1) ->
  latest (omap project (bt_insert k v m)) =
  match project (k, v) with Some w => Some w | None => latest (omap project m) end.
Proof.
  intros Hf Hlt. destruct (project (k, v)) as [w|] eqn:E; [|by apply latest_insert_None].
  apply latest_insert_Some; [done|exact E|]. intros e x. by apply Hlt.
Qed.

(** ** One effect *)

(** No version of the effect's address is as new as the sequence. *)
Definition fresh (sequence : Z) (contents : Contents) (e : Effect) : Prop :=
  match e with
  | Effect_Put table key _ | Effect_Delete table key => forall x k,
      x ∈ contents State -> StateKey_decode x.1 = Ok k -> state_table k = table -> state_key k = key ->
      state_sequence k < sequence
  | Effect_Catalogue table _ => forall x s,
      x ∈ contents Catalogue -> decode_catalogue_key x.1 = Ok (table, s) -> s < sequence
  | Effect_Limits _ => forall x, x ∈ contents Policy -> from_be x.1 < sequence
  end.

(** What one installed effect establishes. *)
Record installed (sequence : Z) (e : Effect) (contents contents' : Contents) : Prop := {
  installed_versions : versions_upto contents' sequence;
  installed_older s : s < sequence -> snapshot contents' s ≡ snapshot contents s;
  installed_newest : snapshot contents' sequence ≡ apply_effect (snapshot contents sequence) e;
  installed_fresh e' : effect_address e' <> effect_address e -> fresh sequence contents e' -> fresh sequence contents' e';
  installed_outcomes : contents' Outcomes = contents Outcomes }.

Section State.
Context (sequence : Z) (contents : Contents) (Hup : versions_upto contents sequence).
Context (table : Z) (key data : bytes) (payload : option bytes).
Let k := {| state_table := table; state_key := key; state_sequence := sequence |}.
Context (Hk : state_key_wf k) (Hpayload : value_payload data = Ok payload).
Context (Hfresh : fresh sequence contents (Effect_Delete table key)).
Let change := {| mutation_tree := State; mutation_key := StateKey_encode k; mutation_value := Some data |}.

Lemma state_decode : StateKey_decode (StateKey_encode k) = Ok k.
Proof. by apply StateKey_decode_iff. Qed.

Lemma state_key_fresh : bt_get (StateKey_encode k) (contents State) = None.
Proof.
  destruct (bt_get _ _) as [v|] eqn:E; [|done]. apply bt_get_elem in E.
  specialize (Hfresh _ k E state_decode eq_refl eq_refl). simpl in Hfresh. lia.
Qed.

Lemma state_row t u s :
  row (mutate_one contents change State) t u s =
  if decide (t = table /\ u = key) then if sequence <=? s then payload else row (contents State) t u s
  else row (contents State) t u s.
Proof.
  unfold row, versions_at, mutate_one. simpl. rewrite latest_insert; [|apply state_key_fresh|].
  - unfold version_at at 1. simpl. rewrite state_decode, Hpayload. simpl.
    destruct (decide (t = table /\ u = key)) as [[-> ->]|Hne].
    + rewrite Z.eqb_refl, bool_decide_true by done. simpl. by destruct (sequence <=? s).
    + destruct (Z.eqb_spec table t) as [->|], (bool_decide_reflect (key = u)) as [->|]; (done || by destruct Hne).
  - intros w e [s' p'] Hw He Hp. apply version_at_Some in Hp as (? & Hd & _).
    unfold version_at in Hw. simpl in Hw. rewrite state_decode, Hpayload in Hw. simpl in Hw.
    destruct (Z.eqb_spec table t) as [->|]; [|done]. destruct (bool_decide_reflect (key = u)) as [->|]; [|done].
    simpl in Hw. destruct (sequence <=? s); [|done]. injection Hw as <-. by apply (Hfresh e _ He Hd).
Qed.

Lemma install_state e :
  effect_address e = (table, key) -> apply_effect (snapshot contents sequence) e = set_row table key payload (snapshot contents sequence) ->
  installed sequence e contents (mutate_one contents change).
Proof.
  intros Ha He. split.
  - destruct Hup. split; try done; unfold mutate_one; simpl.
    + intros tree. case_decide; [|done]. by apply bt_sorted_insert.
    + apply Forall_forall. intros x [->|Hx]%elem_of_bt_insert.
      * exists k, payload. split; [apply state_decode|]. by split.
      * rewrite Forall_forall in upto_state0. by apply upto_state0.
  - intros s Hs. split; [|split]; simpl; try done. intros t u. rewrite state_row.
    rewrite (proj2 (Z.leb_gt _ _)) by lia. by destruct (decide _).
  - rewrite He. split; [|split]; simpl; try done. intros t u. rewrite state_row.
    by rewrite (proj2 (Z.leb_le _ _)) by lia.
  - intros e' Hne Hf. rewrite Ha in Hne. destruct e' as [t u v|t u|t v|p]; simpl in *; try done;
      unfold mutate_one; simpl; intros x k' [->|Hx]%elem_of_bt_insert Hd Ht Hu; subst.
    + simpl in Hd. rewrite state_decode in Hd. injection Hd as <-. simpl in Hne. done.
    + by apply (Hf x).
    + simpl in Hd. rewrite state_decode in Hd. injection Hd as <-. simpl in Hne. done.
    + by apply (Hf x).
  - done.
Qed.
End State.

Section Table.
Context (sequence : Z) (contents : Contents) (Hup : versions_upto contents sequence).
Context (table : Z) (data : bytes) (version : CatalogueVersion).
Context (Hdata : decode_catalogue table data = Ok version) (Hid : 0 < table <= sequence) (Hseq : sequence < u64_max).
Context (Hfresh : fresh sequence contents (Effect_Catalogue table data)).
Let change :=
  {| mutation_tree := Catalogue; mutation_key := catalogue_key table sequence; mutation_value := Some data |}.

Lemma table_decode : decode_catalogue_key (catalogue_key table sequence) = Ok (table, sequence).
Proof. by apply decode_catalogue_key_iff. Qed.

Lemma table_key_fresh : bt_get (catalogue_key table sequence) (contents Catalogue) = None.
Proof.
  destruct (bt_get _ _) as [v|] eqn:E; [|done]. apply bt_get_elem in E. specialize (Hfresh _ _ E table_decode). lia.
Qed.

Lemma catalogue_table id s :
  table_at (mutate_one contents change Catalogue) id s =
  if decide (id = table) then if sequence <=? s then Some version else table_at (contents Catalogue) id s
  else table_at (contents Catalogue) id s.
Proof.
  unfold table_at, mutate_one. simpl. rewrite latest_insert; [|apply table_key_fresh|].
  - unfold table_version_at at 1. cbn [fst snd]. rewrite table_decode. destruct (decide (id = table)) as [->|Hne].
    + rewrite Z.eqb_refl, Hdata. simpl. by destruct (sequence <=? s).
    + by destruct (Z.eqb_spec table id) as [->|].
  - intros w e [s' v'] Hw He Hp. unfold table_version_at in Hw, Hp. cbn [fst snd] in Hw.
    rewrite table_decode in Hw. destruct (Z.eqb_spec table id) as [<-|]; [|done].
    destruct (sequence <=? s); [|done]. simpl in Hw. rewrite Hdata in Hw. injection Hw as <-.
    destruct (decode_catalogue_key e.1) as [[a t]| |] eqn:Ek; try done. destruct (Z.eqb_spec a table) as [->|]; [|done].
    destruct (t <=? s); [|done]. simpl in Hp. destruct (decode_catalogue table e.2); try done. injection Hp as <- <-.
    by apply (Hfresh e).
Qed.

Lemma install_table : installed sequence (Effect_Catalogue table data) contents (mutate_one contents change).
Proof.
  split.
  - destruct Hup. split; try done; unfold mutate_one; simpl.
    + intros tree. case_decide; [|done]. by apply bt_sorted_insert.
    + apply Forall_forall. intros x [->|Hx]%elem_of_bt_insert.
      * exists table, sequence, version. split; [apply table_decode|]. by split.
      * rewrite Forall_forall in upto_catalogue0. by apply upto_catalogue0.
  - intros s Hs. split; [|split]; simpl; try done. intros id. rewrite catalogue_table.
    rewrite (proj2 (Z.leb_gt _ _)) by lia. by destruct (decide _).
  - split; [|split]; simpl; try done. intros id. rewrite catalogue_table, Hdata.
    by rewrite (proj2 (Z.leb_le _ _)) by lia.
  - intros e' Hne Hf. destruct e' as [t u v|t u|t v|p]; simpl in *; try done.
    unfold mutate_one. simpl. intros x s [->|Hx]%elem_of_bt_insert Hd; [|by apply (Hf x)].
    cbn [fst] in Hd. rewrite table_decode in Hd. by injection Hd as -> ->.
  - done.
Qed.
End Table.

Section Policy.
Context (sequence : Z) (contents : Contents) (Hup : versions_upto contents sequence).
Context (policy : LimitPolicy) (Hpolicy : policy_wf policy) (Hseq : 0 < sequence < u64_max).
Context (Hfresh : fresh sequence contents (Effect_Limits policy)).
Let change :=
  {| mutation_tree := Policy; mutation_key := be_bytes 8 sequence; mutation_value := Some (LimitPolicy_encode policy) |}.

Lemma from_be_u64 z : 0 <= z <= u64_max -> from_be (be_bytes 8 z) = z.
Proof. intros Hz. apply from_be_bytes_small. by apply u64_bytes. Qed.

Lemma policy_decode : LimitPolicy_decode (LimitPolicy_encode policy) = Ok policy.
Proof. by apply LimitPolicy_decode_iff. Qed.

Lemma policy_key_fresh : bt_get (be_bytes 8 sequence) (contents Policy) = None.
Proof.
  destruct (bt_get _ _) as [v|] eqn:E; [|done]. apply bt_get_elem in E. specialize (Hfresh _ E). simpl in Hfresh.
  rewrite from_be_u64 in Hfresh by lia. lia.
Qed.

Lemma policy_installed s :
  policy_at (mutate_one contents change Policy) s =
  if sequence <=? s then Some policy else policy_at (contents Policy) s.
Proof.
  unfold policy_at, mutate_one. simpl. rewrite latest_insert; [|apply policy_key_fresh|].
  - unfold policy_version_at at 1. cbn [fst snd]. rewrite from_be_u64, policy_decode by lia. by destruct (sequence <=? s).
  - intros w e [s' p'] Hw He Hp. unfold policy_version_at in Hw, Hp. cbn [fst snd] in Hw.
    rewrite from_be_u64, policy_decode in Hw by lia. destruct (sequence <=? s); [|done]. injection Hw as <-.
    destruct (from_be e.1 <=? s); [|done]. destruct (LimitPolicy_decode e.2); try done. injection Hp as <- <-.
    by apply Hfresh.
Qed.

Lemma install_policy : installed sequence (Effect_Limits policy) contents (mutate_one contents change).
Proof.
  split.
  - destruct Hup. split; try done; unfold mutate_one; simpl.
    + intros tree. case_decide; [|done]. by apply bt_sorted_insert.
    + apply Forall_forall. intros x [->|Hx]%elem_of_bt_insert.
      * split; [split; [exact (len_be_bytes 8 sequence)|exists policy; apply policy_decode]|]. cbn [fst]. by rewrite from_be_u64 by lia.
      * rewrite Forall_forall in upto_policy0. by apply upto_policy0.
    + destruct upto_genesis0 as [d Hd]. unfold genesis. rewrite bt_get_insert by done.
      destruct (cmp (be_bytes 8 0) (be_bytes 8 sequence)); by eexists.
  - intros s Hs. split; [|split]; simpl; try done. rewrite policy_installed.
    by rewrite (proj2 (Z.leb_gt _ _)) by lia.
  - split; [|split]; simpl; try done. rewrite policy_installed. by rewrite (proj2 (Z.leb_le _ _)) by lia.
  - intros e' Hne Hf. by destruct e' as [t u v|t u|t v|p].
  - done.
Qed.
End Policy.

(** ** Batches *)

(** What [encode_outcome] checks of an effect. *)
Definition effect_valid (sequence : Z) (e : Effect) : Prop :=
  effect_typed e /\ exists kind, validate_effect sequence kind e = Ok tt.

Lemma catalogue_data_len table data v : decode_catalogue table data = Ok v -> len data <= MAX_VALUE.
Proof.
  intros (H & _ & (_ & Vk & Vw))%decode_catalogue_iff. apply encode_catalogue_inv in H as (k & w & -> & _ & Hn & Hk & Hw).
  apply valid_name_ok in Hn. apply schema_descriptor_iff in Hk as (_ & Lk & _); [|done].
  apply schema_descriptor_iff in Hw as (_ & Lw & _); [|done]. unfold blob_bytes. autorewrite with blop.
  unfold MAX_DESCRIPTOR_BYTES, MAX_VALUE in *. lia.
Qed.

(** The version a row effect writes. *)
Lemma install_row sequence e table key payload contents change :
  0 < sequence < u64_max -> versions_upto contents sequence -> 0 <= table <= u64_max ->
  effect_address e = (table, key) ->
  apply_effect (snapshot contents sequence) e = set_row table key payload (snapshot contents sequence) ->
  (let* (tree, key, value) :=
     let* state := map_err Error_Storage (StateKey_new table key sequence) in
     let* data := map_err Error_Storage (StateValue_encode (state_value payload)) in
     Ok (State, StateKey_encode state, data) in
   Ok {| mutation_tree := tree; mutation_key := key; mutation_value := Some value |}) = Ok change ->
  fresh sequence contents (Effect_Delete table key) ->
  mutation_ok change = true /\ mutation_tree change <> Outcomes /\
  installed sequence e contents (mutate_one contents change).
Proof.
  intros Hs Hup Ht Ha He Hm Hf. step_ok Hm as [[tree kk] d] eqn Hc. injection Hm as <-.
  step_ok Hc as k eqn Hk. step_ok Hc as data eqn Hd. injection Hc as <- <- <-.
  apply map_err_ok, StateKey_new_ok in Hk as [-> Hwf]; [|done|lia]. apply map_err_ok in Hd.
  pose proof (proj2 (value_payload_iff data payload) Hd) as Hp.
  split; [|split; [done|by apply (install_state _ _ Hup table key data payload Hwf Hp Hf)]].
  unfold mutation_ok. simpl. apply andb_true_iff; split; apply Z.leb_le.
  - apply len_seek_key_bound, Hwf.
  - unfold MAX_VALUE. destruct payload as [v|]; simpl in Hd; [|by injection Hd as <-].
    step_if Hd eqn E. injection Hd as <-. autorewrite with blop. unfold MAX_VALUE_BYTES in E. blia.
Qed.

Lemma install_effect sequence e change contents :
  0 < sequence < u64_max -> versions_upto contents sequence -> effect_valid sequence e ->
  effect_mutation sequence e = Ok change -> fresh sequence contents e ->
  mutation_ok change = true /\ mutation_tree change <> Outcomes /\
  installed sequence e contents (mutate_one contents change).
Proof.
  intros Hs Hup [Ht (kind & Hv)] Hm Hf. destruct e as [t k v|t k|t v|p].
  - by apply (install_row sequence _ t k (Some v)).
  - by apply (install_row sequence _ t k None).
  - injection Hm as <-. cbn [validate_effect] in Hv. destruct (kind =? 2); [|done].
    step_ok Hv as version eqn Hd. step_if Hv eqn E. apply orb_false_iff in E as [E _].
    pose proof Hd as (Henc & Hid & _)%decode_catalogue_iff.
    apply encode_catalogue_inv in Henc as (? & ? & _ & Hi & _). rewrite Hid in Hi. apply valid_id_ok in Hi. simpl in Ht.
    split; [|split; [done|apply (install_table _ _ Hup t v version Hd); [split; [lia|blia]|lia|done]]].
    unfold mutation_ok. simpl. apply andb_true_iff; split; apply Z.leb_le.
    + unfold catalogue_key. by autorewrite with blop.
    + by eapply catalogue_data_len.
  - injection Hm as <-. simpl in Ht. split; [|split; [done|by apply install_policy]].
    unfold mutation_ok. simpl. rewrite len_policy by done. done.
Qed.

Lemma install_effects sequence es : forall contents changes,
  0 < sequence < u64_max -> versions_upto contents sequence -> Forall (effect_valid sequence) es ->
  NoDup (map effect_address es) -> mapR (effect_mutation sequence) es = Ok changes ->
  Forall (fresh sequence contents) es ->
  forallb mutation_ok changes = true /\ versions_upto (mutate changes contents) sequence /\
  (forall s, s < sequence -> snapshot (mutate changes contents) s ≡ snapshot contents s) /\
  snapshot (mutate changes contents) sequence ≡ apply_effects (snapshot contents sequence) es /\
  mutate changes contents Outcomes = contents Outcomes.
Proof.
  induction es as [|e es IH]; intros contents changes Hs Hup Hv Hd Hm Hf; simpl in Hm.
  { injection Hm as <-. by repeat (split; [done|]). }
  step_ok Hm as change eqn Hc. step_ok Hm as rest eqn Hr. injection Hm as <-.
  apply Forall_cons_1 in Hv as [Hv Hvs]. apply NoDup_cons in Hd as [Hn Hd]. apply Forall_cons_1 in Hf as [Hf Hfs].
  destruct (install_effect _ _ _ _ Hs Hup Hv Hc Hf) as (Hok & _ & [Hup' Hold Hnew Hfresh Hout]).
  destruct (IH (mutate_one contents change) rest) as (Hoks & Hup2 & Hold2 & Hnew2 & Hout2); try done.
  { rewrite Forall_forall in Hfs |- *. intros e' He'. apply Hfresh; [|by apply Hfs]. intros E. apply Hn.
    rewrite <-E. apply list_elem_of_In, in_map. by apply list_elem_of_In. }
  cbn [forallb mutate foldl]. change (foldl mutate_one (mutate_one contents change) rest) with (mutate rest (mutate_one contents change)).
  rewrite Hok, Hoks. split; [done|]. split; [done|]. split; [|split].
  - intros s Hlt. by rewrite Hold2, Hold by done.
  - rewrite Hnew2. simpl. by rewrite Hnew.
  - by rewrite Hout2.
Qed.

Lemma fresh_after contents last sequence e :
  last < sequence -> versions_upto contents last -> fresh sequence contents e.
Proof.
  intros Hlt [_ H1 H2 H3 _ _]. rewrite Forall_forall in H1, H2, H3. destruct e; simpl.
  - intros x k Hx Hk _ _. destruct (H1 _ Hx) as (k' & _ & Hk' & _ & Hle). assert (k' = k) as -> by congruence. lia.
  - intros x k Hx Hk _ _. destruct (H1 _ Hx) as (k' & _ & Hk' & _ & Hle). assert (k' = k) as -> by congruence. lia.
  - intros x s Hx Hk. destruct (H2 _ Hx) as (i & s' & _ & Hk' & _ & Hle). assert (s' = s) as -> by congruence. lia.
  - intros x Hx. destruct (H3 _ Hx) as [_ Hle]. lia.
Qed.

(** ** Outcomes *)
Definition outcome_change (sequence : Z) (data : bytes) : Mutation :=
  {| mutation_tree := Outcomes; mutation_key := be_bytes 8 sequence; mutation_value := Some data |}.

Lemma install_outcome contents sequence data r :
  0 < sequence < u64_max -> versions_upto contents sequence ->
  decode_outcome data = Ok r -> record_sequence r = sequence ->
  let contents' := mutate_one contents (outcome_change sequence data) in
  versions_upto contents' sequence /\ (forall s, snapshot contents' s = snapshot contents s) /\
  bt_get (be_bytes 8 sequence) (contents' Outcomes) = Some data /\
  forall key, key <> be_bytes 8 sequence -> bt_get key (contents' Outcomes) = bt_get key (contents Outcomes).
Proof.
  intros Hs Hup Hd Hr contents'. pose proof (upto_sorted _ _ Hup Outcomes) as Hsort.
  split; [|split; [done|split]].
  - destruct Hup. split; try done; unfold contents', mutate_one, outcome_change; simpl.
    + intros tree. case_decide; [|done]. by apply bt_sorted_insert.
    + apply Forall_forall. intros x [->|Hx]%elem_of_bt_insert.
      * exists sequence, r. split; [done|]. split; [lia|done].
      * rewrite Forall_forall in upto_outcomes0. by apply upto_outcomes0.
  - unfold contents', mutate_one, outcome_change. simpl. by apply bt_get_insert_eq.
  - intros key Hne. unfold contents', mutate_one, outcome_change. simpl. by apply bt_get_insert_ne.
Qed.

Lemma ordered_addresses es : ordered es -> NoDup (map effect_address es).
Proof.
  induction 1 as [|e es _ IH Hf]; simpl; [constructor|]. apply NoDup_cons. split; [|done].
  intros (x & E & Hx%list_elem_of_In)%list_elem_of_In%in_map_iff. rewrite Forall_forall in Hf. specialize (Hf _ Hx).
  unfold address_lt in Hf. rewrite <-E, cmp_refl in Hf. done.
Qed.

Lemma encoded_effects r data :
  record_wf r -> encode_record r = Ok data ->
  0 < record_sequence r < u64_max /\ len data <= MAX_VALUE /\
  Forall (effect_valid (record_sequence r)) (outcome_effects (record_outcome r)) /\
  NoDup (map effect_address (outcome_effects (record_outcome r))).
Proof.
  intros [Hs _ Ho] H. apply encode_outcome_iff in H as (Hid & _ & Hl & H); [|done]. apply valid_id_ok in Hid.
  split; [lia|]. split; [done|]. destruct (record_outcome r) as [ty v es|a]; simpl in *; [|split; constructor].
  destruct H as (d & dv & Hok & _ & _). pose proof (success_valid _ _ _ _ _ _ _ Hok) as Hv.
  apply validate_success_iff in Hv as (_ & _ & _ & Hv & _). split.
  - destruct Ho as (_ & _ & Ht). rewrite Forall_forall in Hv, Ht |- *. intros e He. split; [by apply Ht|].
    eexists. by apply Hv.
  - rewrite <-(sort_effects_perm es). by eapply ordered_addresses, success_ordered.
Qed.

(** ** Refinement *)

(** The stored form of a record: its effects in canonical order. *)
Definition canonical_record (r : OutcomeRecord) : OutcomeRecord :=
  {| record_sequence := record_sequence r; record_digest := record_digest r;
     record_kind := record_kind r; record_outcome := sorted_outcome (record_outcome r) |}.

(** The contents after the record is installed over [last]. *)
Record resolved (r : OutcomeRecord) (checkpoint last : Z) (contents contents' : Contents) : Prop := {
  resolved_history : history contents' checkpoint (record_sequence r);
  resolved_older s : s < record_sequence r -> snapshot contents' s ≡ snapshot contents s;
  resolved_newest : snapshot contents' (record_sequence r) ≡
    apply_effects (snapshot contents last) (outcome_effects (record_outcome r));
  resolved_outcome : exists data, bt_get (be_bytes 8 (record_sequence r)) (contents' Outcomes) = Some data /\
    decode_outcome data = Ok (canonical_record r);
  resolved_others key : key <> be_bytes 8 (record_sequence r) -> bt_get key (contents' Outcomes) = bt_get key (contents Outcomes) }.

Section Install.
Context `{StoreLaws Db View Cell}.

Lemma effect_mutation_no_panic sequence e : no_panic (effect_mutation sequence e).
Proof.
  assert (forall v, no_panic (StateValue_encode v)) by (intros []; simpl; solve_no_panic).
  unfold effect_mutation. destruct e; solve_no_panic.
Qed.
Definition install_record (store : Db) (r : OutcomeRecord) : Db * Result Error unit :=
  install store (record_sequence r) (record_digest r) (record_kind r) (record_outcome r).

Lemma install_changes_ok (store : Db) contents last r changes :
  holds store contents -> history contents (checkpoint_sequence store) last -> record_wf r ->
  record_sequence r = last + 1 ->
  install_changes store (record_sequence r) (record_digest r) (record_kind r) (record_outcome r) = Ok changes ->
  forallb mutation_ok changes = true /\ resolved r (checkpoint_sequence store) last contents (mutate changes contents).
Proof.
  intros Hh [Hup Hb Hc] Hwf Hs Hi. unfold install_changes in Hi. step_ok Hi as [] eqn Hid. step_if Hi eqn Ek.
  step_if Hi eqn Ec. step_ok Hi as existing eqn He. step_if Hi eqn Ee. step_ok Hi as data eqn Hd.
  step_ok Hi as effects eqn Hm. injection Hi as <-.
  destruct (encoded_effects r data Hwf Hd) as (Hseq & Hl & Hv & Hn).
  assert (versions_upto contents (record_sequence r)) as Hup' by (eapply versions_upto_le; [|exact Hup]; lia).
  destruct (install_effects _ _ _ _ Hseq Hup' Hv Hn Hm) as (Hok & Hup2 & Hold & Hnew & Hout).
  { apply Forall_forall. intros e _. eapply fresh_after; [|exact Hup]. lia. }
  pose proof (encode_decode_outcome r data Hwf Hd) as Hdec.
  destruct (install_outcome (mutate effects contents) (record_sequence r) data _ Hseq Hup2 Hdec eq_refl)
    as (Hup3 & Hsnap & Hget & Hkeep).
  assert (mutate (effects ++ [outcome_change (record_sequence r) data]) contents =
    mutate_one (mutate effects contents) (outcome_change (record_sequence r) data)) as E.
  { unfold mutate. by rewrite foldl_app. }
  unfold outcome_change in E. split.
  - rewrite forallb_app, Hok. simpl. unfold mutation_ok. simpl. rewrite len_be_bytes.
    by rewrite (proj2 (Z.leb_le _ _) Hl).
  - rewrite E. split.
    + split; [done|lia|]. intros s Hs'. destruct (decide (s = record_sequence r)) as [->|Hne]; [by eexists|].
      destruct (decide (be_bytes 8 s = be_bytes 8 (record_sequence r))) as [->|Hne']; [by eexists|].
      rewrite Hkeep, Hout by done. apply Hc. lia.
    + intros s Hlt. fold (outcome_change (record_sequence r) data). by rewrite Hsnap, Hold.
    + fold (outcome_change (record_sequence r) data). rewrite Hsnap, Hnew.
      rewrite (snapshot_later contents last (record_sequence r)) by (done || lia). done.
    + by exists data.
    + intros key Hne. by rewrite Hkeep, Hout.
Qed.

(** Installing the next record either resolves it completely or leaves the
    database as it was; it never panics. *)
Lemma install_refines (store : Db) contents last r :
  holds store contents -> history contents (checkpoint_sequence store) last -> record_wf r ->
  record_sequence r = last + 1 ->
  match install_record store r with
  | (store', Ok _) => exists contents', holds store' contents' /\
      checkpoint_sequence store' = checkpoint_sequence store /\
      resolved r (checkpoint_sequence store) last contents contents'
  | (store', Err _) => holds store' contents /\ checkpoint_sequence store' = checkpoint_sequence store
  | (_, Panic) => False
  end.
Proof.
  intros Hh Hhist Hwf Hs. unfold install_record, install.
  destruct (install_changes _ _ _ _ _) as [changes| |] eqn:Hi; [|done|].
  - destruct (install_changes_ok _ _ _ _ _ Hh Hhist Hwf Hs Hi) as [Hok Hres].
    pose proof (holds_apply store contents changes Hh Hok) as Ha. destruct (store_apply store changes) as [store' [u|e|]].
    + simpl. destruct Ha as [? ?]. by exists (mutate changes contents).
    + done.
    + done.
  - exfalso. assert (no_panic (install_changes store (record_sequence r) (record_digest r) (record_kind r) (record_outcome r))) as Hn;
      [|by rewrite Hi in Hn].
    unfold install_changes. rewrite (get_contents _ _ (holds_view _ _ Hh)) by by rewrite len_be_bytes.
    pose proof (encode_outcome_no_panic (record_sequence r) (record_digest r) (record_kind r) _ (wf_record_outcome _ Hwf)).
    pose proof (mapR_no_panic (effect_mutation (record_sequence r)) (outcome_effects (record_outcome r))
      (Forall_true _ _ (effect_mutation_no_panic (record_sequence r)))).
    solve_no_panic.
Qed.
End Install.
