(* ===== verification/Frame.v ===== *)
(** * Runs depend on their read scopes and write in their write scopes

    The frame theorem of the access analysis: two databases that agree on the
    rows in the read scopes of a program give it the same run, whatever their
    storage and snapshot sequences are, and every effect of that run lies in
    a write scope. *)
From stdpp Require Import gmap.
From S2P Require Import Prelude OrdMap Errors Value ValueFacts Encoding EncodingFacts Limits Operations Program Flow ProgramFacts Access AccessFacts Analysis Storage Mvcc MvccFacts Overlay OverlayFacts Outcome Runtime RuntimeFacts AnalysisFacts.
From Stdlib Require Import Sorted.

Section Scopes.
Context (program : Program) (claims : LimitPolicy) (schemas : list Schema).
Context (Hschemas : table_schemas program = Ok schemas).

Lemma schema_of_table index t schema schema' :
  prog_tables program !! index = Some t -> schemas !! index = Some schema ->
  schema_of (table_key t) = Ok schema' -> schema = schema'.
Proof.
  intros Ht Hs Hof. unfold table_schemas in Hschemas. apply mapR_Forall2 in Hschemas.
  destruct (Forall2_lookup_l _ _ _ _ _ Hschemas Ht) as (s & Hs' & Hd). rewrite Hs in Hs'. injection Hs' as <-.
  step_ok Hd as data eqn Hdata. apply map_err_ok in Hd. unfold schema_of in Hof. step_ok Hof as data' eqn Hdata'.
  apply map_err_ok in Hof. pose proof (descriptor_any (E:=Error) (F:=Failure) (table_key t) data Hdata) as Hany.
  rewrite Hany in Hdata'. injection Hdata' as <-. congruence.
Qed.

(** The scope of a point access contains the address it touches. *)
Lemma access_entry_point x known index reg mode o m u t k u' :
  accessed x = Some (index, Some reg, mode) -> access_entry program schemas known x = Ok o ->
  knows known (registers m) -> access program claims m index reg u = Ok (t, k, u') ->
  exists scope, o = Some (scope, mode) /\ in_scope (table_id t) k scope.
Proof.
  intros Hx He Hk Ha. unfold access_entry in He. rewrite Hx in He. step_ok He as t' eqn Ht'. step_ok He as key eqn Hkey.
  injection He as <-. unfold access, fetch_table in Ha. step_ok Ha as t0 eqn Ht. step_ok Ha as v eqn Hv.
  step_ok Ha as k0 eqn Hck. step_ok Ha as u0 eqn Hp. injection Ha as -> -> ->. apply expect_ok in Ht, Ht'.
  rewrite Ht in Ht'. injection Ht' as <-. eexists. split; [done|].
  destruct (known !! reg) as [w|] eqn:Hw; [|injection Hkey as <-; by left].
  pose proof (knows_read _ _ _ _ _ Hk Hw Hv) as ->. step_ok Hkey as schema eqn Hs. apply expect_ok in Hs.
  unfold known_key in Hkey. step_ok Hkey as data eqn Hdata. destruct key as [key|]; [|by left].
  right. f_equal. destruct (encode_key schema data) eqn:Eek; try discriminate Hkey. injection Hkey as <-.
  unfold canonical_key in Hck. step_ok Hck as b eqn Hb. step_ok Hck as schema' eqn Hs'. step_ok Hck as data' eqn Hdata'.
  step_ok Hck as k' eqn Hk'. step_ok Hck as c eqn Hc. injection Hck as ->. apply map_err_ok in Hk'.
  rewrite (schema_of_table _ _ _ _ Ht Hs Hs') in Eek.
  pose proof (encode_any (E:=Error) (F:=Failure) w data Hdata) as Hany. rewrite Hany in Hdata'. injection Hdata' as <-. congruence.
Qed.

Lemma access_entry_table x known index mode o t :
  accessed x = Some (index, None, mode) -> access_entry program schemas known x = Ok o ->
  prog_tables program !! index = Some t -> o = Some (Scope_Table (table_id t), mode).
Proof.
  intros Hx He Ht. unfold access_entry in He. rewrite Hx in He. step_ok He as t' eqn Ht'. apply expect_ok in Ht'.
  rewrite Ht in Ht'. injection Ht' as <-. by injection He as <-.
Qed.
End Scopes.

Section Frame.
Context (sha256 : bytes -> bytes) (program : Program) (claims : LimitPolicy).
Context (argument_types constant_types : list Ty) (Hclaims : policy_wf claims).
Context (Hadm : admitted program argument_types constant_types (prog_tables program) claims).
Context `{S1 : Storage View1 Cell1} (view1 : View1) (contents1 : Contents) (prior1 : Z).
Context `{S2 : Storage View2 Cell2} (view2 : View2) (contents2 : Contents) (prior2 : Z).
Context (Hdb1 : database_ok view1 contents1 prior1 program) (Hdb2 : database_ok view2 contents2 prior2 program).
Context (es : list (Scope * AccessMode)).

(** The two snapshots agree on the rows the scopes grant to read. *)
Context (Hagree : forall table key, granted es table key 0 ->
  row (contents1 State) table key prior1 = row (contents2 State) table key prior2).

Lemma merged_agree o table key :
  granted es table key 0 -> merged (contents1 State) o table key prior1 = merged (contents2 State) o table key prior2.
Proof. intros Hg. unfold merged. destruct (bt_get _ _); [done|]. by apply Hagree. Qed.

Lemma get_at_agree t key o :
  t ∈ prog_tables program -> key_ok t key -> granted es (table_id t) key 0 ->
  get_at view1 prior1 t key o = get_at view2 prior2 t key o.
Proof.
  intros Ht Hk Hg.
  rewrite (get_at_ok view1 contents1 prior1 program Hdb1), (get_at_ok view2 contents2 prior2 program Hdb2) by done.
  by rewrite (merged_agree o (table_id t) key).
Qed.

Lemma scan_agree o u t lower upper flags row_limit byte_limit :
  overlay_ok program o -> t ∈ prog_tables program -> (forall key, granted es (table_id t) key 0) ->
  (forall v, lower = Some v -> value_wf v = true) -> (forall v, upper = Some v -> value_wf v = true) ->
  scan view1 prior1 o u claims t lower upper flags row_limit byte_limit =
  scan view2 prior2 o u claims t lower upper flags row_limit byte_limit.
Proof.
  intros Ho Ht Hg Hlw Huw. pose proof (table_in _ _ _ _ Hdb1 _ Ht) as Hwf. unfold scan.
  pose proof (optional_key_wp claims t lower Hwf Hlw) as Hlo. destruct (optional_key t lower claims) as [lo| |]; [|done..].
  pose proof (optional_key_wp claims t upper Hwf Huw) as Hhi. destruct (optional_key t upper claims) as [hi| |]; [|done..].
  cbn [bindR]. simpl in Hlo, Hhi. destruct ((row_limit =? 0) || empty_range flags lo hi) eqn:Hempty; [done|].
  apply orb_false_iff in Hempty as [_ Hempty]. destruct (schema_of (table_key t)); cbn [bindR]; [|done..].
  pose proof (overlay_ok_wf view1 contents1 prior1 program Hdb1 _ Ho) as Howf.
  destruct (overlay_scan_rows view1 contents1 (table_id t) prior1 (db_view _ _ _ _ Hdb1) (db_state _ _ _ _ Hdb1) (proj1 Hwf)
    (db_prior _ _ _ _ Hdb1) (scan_endpoint (Z.testbit (byte_Z flags) 0) lo) (scan_endpoint (Z.testbit (byte_Z flags) 1) hi) o)
    as (rows1 & -> & Hs1 & Hin1); [by apply scan_endpoint_ok..|done|by apply guarded_range|].
  destruct (overlay_scan_rows view2 contents2 (table_id t) prior2 (db_view _ _ _ _ Hdb2) (db_state _ _ _ _ Hdb2) (proj1 Hwf)
    (db_prior _ _ _ _ Hdb2) (scan_endpoint (Z.testbit (byte_Z flags) 0) lo) (scan_endpoint (Z.testbit (byte_Z flags) 1) hi) o)
    as (rows2 & -> & Hs2 & Hin2); [by apply scan_endpoint_ok..|done|by apply guarded_range|].
  assert (rows1 = rows2) as ->; [|done]. apply bt_sorted_ext; try done. intros [k v].
  by rewrite Hin1, Hin2, (merged_agree o (table_id t) k (Hg k)).
Qed.

(** One instruction whose scope is among the granted ones. *)
Context (schemas : list Schema) (Hschemas : table_schemas program = Ok schemas).
Abbreviation evaluate1 := (evaluate sha256 view1 prior1 program claims).
Abbreviation evaluate2 := (evaluate sha256 view2 prior2 program claims).

Definition entry_granted (o : option (Scope * AccessMode)) : Prop := forall e, o = Some e -> e ∈ es.

Lemma point_granted x known index reg mode o m u t k u' bit :
  accessed x = Some (index, Some reg, mode) -> access_entry program schemas known x = Ok o -> entry_granted o ->
  knows known (registers m) -> access program claims m index reg u = Ok (t, k, u') ->
  has_mode mode bit -> granted es (table_id t) k bit.
Proof.
  intros Hx He Hin Hk Ha Hb. destruct (access_entry_point program claims schemas Hschemas _ _ _ _ _ _ _ _ _ _ _ Hx He Hk Ha)
    as (scope & -> & Hs). exists scope, mode. split; [by apply Hin|done].
Qed.

Lemma access_facts index reg m u t k u' ty :
  registers_ok program (registers m) -> usage_ok claims (registers m) (overlay m) u ->
  initialized (registers m) reg -> register_types program !! reg = Some ty ->
  access program claims m index reg u = Ok (t, k, u') -> t ∈ prog_tables program /\ key_ok t k.
Proof.
  intros Hrs Hu Hi Hty Ha. assert (prog_tables program !! index = Some t) as Ht.
  { unfold access, fetch_table in Ha. step_ok Ha as t0 eqn Ht. step_ok Ha as v eqn Hv.
    step_ok Ha as k0 eqn Hck. step_ok Ha as u0 eqn Hp. injection Ha as -> -> ->. by apply expect_ok in Ht. }
  pose proof (access_wp view1 contents1 prior1 program claims argument_types constant_types Hdb1 Hclaims Hadm m index reg u t ty Hrs Hu Ht Hi Hty) as Hwp.
  rewrite Ha in Hwp. destruct Hwp as (_ & Hk & _). split; [by eapply table_lookup|done].
Qed.

Ltac same_access Ha :=
  match goal with
  | |- bindR (access program claims ?m ?i ?r ?u) _ = bindR _ _ =>
      destruct (access program claims m i r u) as [[[? ?] ?]| |] eqn:Ha; [cbn [bindR]|done|done]
  end.

Ltac point :=
  eapply point_granted; [|eassumption|eassumption|eassumption|eassumption|]; reflexivity.

Lemma evaluate_agree x a d known o pc m u :
  verify_instruction program argument_types constant_types claims x a = Ok d ->
  registers_ok program (registers m) -> overlay_ok program (overlay m) ->
  usage_ok claims (registers m) (overlay m) u -> (forall i, has_bit a i -> initialized (registers m) i) ->
  access_entry program schemas known x = Ok o -> entry_granted o -> knows known (registers m) ->
  evaluate1 pc m u x = evaluate2 pc m u x.
Proof.
  intros Hv Hrs Ho Hu Hi He Hin Hk. destruct x; try done; cbn [verify_instruction evaluate] in *; inv_ok;
    repeat match goal with
    | H : source _ _ _ = Ok _ |- _ => apply source_ok in H as [? ?]
    | H : table _ _ = Ok _ |- _ => apply ok_or_ok in H
    end.
  - same_access Eacc. edestruct access_facts as [Ht Hkey]; [exact Hrs|exact Hu| | |exact Eacc|]; [by apply Hi|done|].
    by rewrite get_at_agree by (try done; point).
  - same_access Eacc. edestruct access_facts as [Ht Hkey]; [exact Hrs|exact Hu| | |exact Eacc|]; [by apply Hi|done|].
    by rewrite get_at_agree by (try done; point).
  - same_access Eacc. edestruct access_facts as [Ht Hkey]; [exact Hrs|exact Hu| | |exact Eacc|]; [by apply Hi|done|].
    by rewrite get_at_agree by (try done; point).
  - unfold fetch_table. rename select (prog_tables program !! _ = Some _) into Ht. rewrite Ht. cbn [expect bindR].
    destruct a1 as [| | | | | | |max_rows k w]; try discriminate. inv_ok.
    rename select (check_endpoint _ _ _ lower = Ok _) into Hlo. rename select (check_endpoint _ _ _ upper = Ok _) into Hhi.
    repeat match goal with u : unit |- _ => destruct u end.
    pose proof (optional_register_wp program a _ _ lower Hrs Hi Hlo) as Hlw.
    destruct (optional_register (registers m) lower) as [lo| |]; [|done..].
    pose proof (optional_register_wp program a _ _ upper Hrs Hi Hhi) as Huw.
    destruct (optional_register (registers m) upper) as [hi| |]; [|done..]. cbn [bindR]. simpl in Hlw, Huw.
    rewrite scan_agree; try done; [by eapply table_lookup|]. intros key.
    pose proof (access_entry_table program schemas
      (Scan dst table lower upper flags row_limit byte_limit) known table Read o a0 eq_refl He Ht) as ->.
    exists (Scope_Table (table_id a0)), Read. split; [by apply Hin|]. by split; [left|].
Qed.

(** ** Writes *)
Definition writes_granted (ov : Overlay) : Prop := forall e, e ∈ ov -> granted es e.1.1 e.1.2 1.

Lemma write_granted ov u t key value ov' u' :
  write ov u claims t key value = Ok (ov', u') -> writes_granted ov -> granted es (table_id t) key 1 ->
  writes_granted ov'.
Proof.
  unfold write. intros H Hw Hg. inv_ok. intros e [->|He]%elem_of_bt_insert; [done|by apply Hw].
Qed.

Lemma assign_next_overlay pc m dst value u r :
  assign_next program claims pc m dst value u = Ok r -> overlay r.2 = overlay m.
Proof. unfold assign_next. intros H. step_ok H as [rs u'] eqn Ha. by injection H as <-. Qed.

Lemma evaluate_writes x known o pc m u r :
  evaluate1 pc m u x = Ok r -> access_entry program schemas known x = Ok o -> entry_granted o ->
  knows known (registers m) -> writes_granted (overlay m) -> writes_granted (overlay r.2).
Proof.
  intros Hr He Hin Hk Hw. destruct x; cbn [evaluate] in Hr;
    try (repeat match type of Hr with
         | bindR ?m _ = Ok _ => destruct m as [?| |]; cbn [bindR] in Hr; [|discriminate Hr|discriminate Hr]
         | (let '(_, _) := ?p in _) = Ok _ => destruct p
         | (if ?b then _ else _) = Ok _ => destruct b; [try discriminate Hr|try discriminate Hr]
         | match ?v with _ => _ end = Ok _ => destruct v; try discriminate Hr
         end; (by apply assign_next_overlay in Hr as ->) || (by injection Hr as <-) || discriminate Hr).
  - step_ok Hr as [[t k] u'] eqn Ha. step_ok Hr as data eqn Hd. destruct (bool_decide _); [discriminate Hr|].
    step_ok Hr as v eqn Hv. step_ok Hr as [ov u2] eqn Hov. injection Hr as <-.
    eapply write_granted; [exact Hov|done|point].
  - step_ok Hr as [[t k] u'] eqn Ha. step_ok Hr as v eqn Hv. step_ok Hr as [ov u2] eqn Hov. injection Hr as <-.
    eapply write_granted; [exact Hov|done|point].
  - step_ok Hr as [[t k] u'] eqn Ha. step_ok Hr as [ov u2] eqn Hov. injection Hr as <-.
    eapply write_granted; [exact Hov|done|point].
Qed.

(** ** Runs *)
Abbreviation step1 := (step sha256 view1 prior1 program claims).
Abbreviation step2 := (step sha256 view2 prior2 program claims).
Abbreviation loop1 fuel := (run_loop sha256 fuel view1 prior1 program claims).
Abbreviation loop2 fuel := (run_loop sha256 fuel view2 prior2 program claims).

Definition effect_granted (e : Effect) : Prop :=
  granted es (effect_address e).1 (effect_address e).2 1.

Definition writes_outcome (r : Outcome) : Prop :=
  forall ty v effects, r = Success ty v effects -> Forall effect_granted effects.

Lemma writes_effects ov : writes_granted ov -> Forall effect_granted (map effect_of ov).
Proof.
  intros Hw. apply List.Forall_forall. intros e (a & <- & Ha)%in_map_iff.
  apply list_elem_of_In, Hw in Ha. by destruct a as [[t k] [v|]].
Qed.

(** What one step of a run keeps: agreement, known values and write scopes. *)
Lemma step_frame x a d known o s pc m :
  prog_instructions program !! pc = Some x ->
  verify_instruction program argument_types constant_types claims x a = Ok d ->
  machine_ok program claims m -> (forall i, has_bit a i -> initialized (registers m) i) ->
  access_entry program schemas known x = Ok o -> entry_granted o ->
  update_known sha256 program x known = Ok s -> knows known (registers m) -> writes_granted (overlay m) ->
  step1 pc m = step2 pc m /\
  forall r, step1 pc m = Ok r -> knows s (registers r.2) /\ writes_granted (overlay r.2).
Proof.
  intros Hx Hv [Hrs Ho Hu] Hi He Hin Hup Hk Hw. unfold step.
  destruct (charge_instruction (usage m)) as [u| |] eqn:Ec; [|done..]. cbn [bindR].
  destruct (check claims [(2%nat, used_instructions u)]) eqn:Ecc; [|done..]. cbn [bindR]. rewrite Hx. cbn [expect bindR].
  split; [|intros r Hr; split; [by eapply evaluate_known|by eapply evaluate_writes]].
  eapply evaluate_agree; try done. unfold charge_instruction in Ec.
  step_ok Ec as count eqn Ha. injection Ec as <-.
  apply arith_u64_inv in Ha as [-> _]. pose proof (check_ok _ _ _ Ecc) as Hc.
  apply Forall_cons_1 in Hc as [Hc _]. simpl in Hc. destruct Hu. split; simpl in *; try done. lia.
Qed.

Lemma run_loop_frame ats dats fuel : forall pc m a known,
  length ats = length (prog_instructions program) ->
  (forall k x, prog_instructions program !! k = Some x ->
     verified_at program argument_types constant_types claims ats k x) ->
  (forall k x, prog_instructions program !! k = Some x -> derived_at sha256 program schemas es dats k x) ->
  ats !! pc = Some a -> dats !! pc = Some known -> machine_ok program claims m ->
  (forall i, has_bit a i -> initialized (registers m) i) ->
  knows known (registers m) -> writes_granted (overlay m) ->
  loop1 fuel pc m = loop2 fuel pc m /\
  forall r, loop1 fuel pc m = Some (Ok r) -> writes_outcome r.
Proof.
  intros pc m a known Hlen Hver Hder. revert pc m a known.
  induction fuel as [|fuel IH]; intros pc m a known Hat Hdat Hm Hi Hk Hw; [done|].
  pose proof (lookup_lt_Some _ _ _ Hat) as Hpc.
  destruct (lookup_lt_is_Some_2 (prog_instructions program) pc) as [x Hx]; [lia|].
  destruct (Hver _ _ Hx) as (a' & d & s & Hat' & _ & Hvi & Hbits & Htarget & Hfalls).
  rewrite Hat in Hat'. injection Hat' as <-.
  destruct (Hder _ _ Hx) as (k' & o & ks & Hdat' & He & Hin & Hup & Hdtarget & Hdfalls).
  rewrite Hdat in Hdat'. injection Hdat' as <-.
  destruct (step_frame x a d known o ks pc m) as [Heq Hkeep]; try done.
  pose proof (step_wp sha256 view1 contents1 prior1 program claims argument_types constant_types Hdb1 Hclaims Hadm
    x a d pc m Hx Hvi Hm Hi) as Hstep.
  cbn [run_loop]. rewrite <-Heq.
  destruct (step1 pc m) as [[[pc'|v] m']|[r c dt|]|]; simpl in Hstep; try done.
  - destruct Hstep as (Hm' & Hedge & Hi'). destruct (Hkeep _ eq_refl) as [Hk' Hw'].
    assert (exists b, ats !! pc' = Some b /\ bits_le b s) as (b & Hb & Hbs).
    { destruct Hedge as [[Hf ->]|Hf].
      - rewrite Nat.add_1_r. by apply Hfalls.
      - apply Htarget in Hf as (_ & b & Hb & Hbs). by exists b. }
    pose proof (lookup_lt_Some _ _ _ Hb) as Hlt.
    assert (exists k, dats !! pc' = Some k /\ k ⊆ ks) as (k & Hkat & Hks).
    { destruct Hedge as [[Hf ->]|Hf].
      - rewrite Nat.add_1_r in *. apply Hdfalls; [done|lia].
      - pose proof (Htarget _ Hf) as [? _]. apply Hdtarget; [done|lia..]. }
    apply (IH pc' m' b k); try done; [|by eapply knows_subseteq].
    intros i Hib. apply Hi'. apply Hbs, Hbits in Hib as [?|?]; auto.
  - destruct (Hkeep _ eq_refl) as [_ Hw']. split; [done|]. intros r [= <-] ty w effects [= <- <- <-]. by apply writes_effects.
  - split; [done|]. by intros r' [= <-] ? ? ?.
Qed.
End Frame.

(** ** Frames of runs *)
Section Runs.
Context (sha256 : bytes -> bytes) (program : Program) (claims : LimitPolicy).
Context (argument_types constant_types : list Ty) (Hclaims : policy_wf claims).
Context (Hadm : admitted program argument_types constant_types (prog_tables program) claims).
Context (required manifest : AccessManifest) (Hderive : derive sha256 program = Ok required).
Context (Hvalid : validate manifest required (prog_tables program) claims = Ok tt).
Context `{S1 : Storage View1 Cell1} (view1 : View1) (contents1 : Contents) (prior1 : Z).
Context `{S2 : Storage View2 Cell2} (view2 : View2) (contents2 : Contents) (prior2 : Z).
Context (Hdb1 : database_ok view1 contents1 prior1 program) (Hdb2 : database_ok view2 contents2 prior2 program).

Lemma run_frame :
  (forall table key, granted (entries manifest) table key 0 ->
     row (contents1 State) table key prior1 = row (contents2 State) table key prior2) ->
  run sha256 view1 prior1 program claims = run sha256 view2 prior2 program claims /\
  forall ty v effects, run sha256 view1 prior1 program claims = Ok (Success ty v effects) ->
    Forall (effect_granted (entries manifest)) effects.
Proof.
  intros Hagree. destruct (derive_sound _ _ _ Hderive) as (schemas & es & dats & Hschemas & Hnew & Hzero & Hdlen & Hder).
  assert (forall table key bit, 0 <= bit -> granted es table key bit -> granted (entries manifest) table key bit) as Hg.
  { intros t k bit Hb Hg. eapply validate_grants; [exact Hvalid|]. by apply (new_grants _ _ _ _ _ Hb Hnew). }
  destruct (verify_sound _ _ _ _ (admitted_verified _ _ _ _ _ Hadm)) as (ats & Hlen & (a & Ha & Hnone) & Hver).
  pose proof (lookup_lt_Some _ _ _ Ha) as Hlt.
  destruct (lookup_lt_is_Some_2 dats 0) as [known Hknown]; [lia|]. pose proof (Hzero _ Hknown) as ->.
  destruct (run_loop_frame sha256 program claims argument_types constant_types Hclaims Hadm view1 contents1 prior1
    view2 contents2 prior2 Hdb1 Hdb2 es (fun t k H => Hagree t k (Hg t k 0 (Z.le_refl 0) H)) schemas Hschemas
    ats dats (length (prog_instructions program)) 0 (initial_machine program) a ∅) as [Heq Hw]; try done.
  - by apply initial_machine_ok.
  - intros i Hi. by apply Hnone in Hi.
  - by intros e ?%elem_of_nil.
  - unfold run. rewrite Heq. split; [done|]. intros ty v effects Hr. rewrite <-Heq in Hr.
    destruct (run_loop _ _ _ _ _ _ _ _) as [r|] eqn:Er; [|done]. subst r.
    specialize (Hw _ eq_refl _ _ _ eq_refl). eapply Forall_impl; [exact Hw|]. intros e. by apply (Hg _ _ 1).
Qed.
End Runs.
