(* ===== verification/Execution.v ===== *)
(** * The reference execution ([src/src/vm/mod.rs])

    Admission of a transaction against the historical catalogue and policy,
    its interpretation, and the serial execution of records: interpret, then
    install the outcome. *)
From Stdlib Require Import Sorted.
From S2P Require Import Prelude OrdMap Errors Reader Value ValueFacts Encoding EncodingFacts Limits Operations Program ProgramFacts Access Analysis Catalogue CatalogueFacts Storage Mvcc MvccFacts Overlay Outcome OutcomeFacts Administration Runtime RuntimeFacts Snapshots Installation.

(** [Transaction] of [src/src/bind.rs]. *)
Record Transaction : Type := { transaction_program : bytes; transaction_arguments : bytes }.

Record PreparedTransaction : Type := {
  prepared_prior : Z;
  prepared_program : Program;
  prepared_claims : LimitPolicy;
  prepared_manifest : AccessManifest }.

(** [PreparedTransaction::sequence] *)
Definition prepared_sequence (transaction : PreparedTransaction) : Result Error Z :=
  arith_u64 (prepared_prior transaction + 1).

Definition prior_sequence (sequence : Z) : Result Error Z :=
  if (sequence =? 0) || (sequence =? u64_max) then Err (Error_Invalid "reserved record sequence")
  else arith_u64 (sequence - 1).

Section Vm.
Context (sha256 : bytes -> bytes) `{Storage View Cell}.

Definition prepare_program (view : View) (sequence : Z) (program_bytes argument_bytes : bytes)
    (claims : LimitPolicy) : Result Error (Z * Program) :=
  let* prior := prior_sequence sequence in
  let* policy := database_policy view prior in
  if any_above (values claims) (values policy)
  then Err (Error_Invalid "transaction claims exceed historical policy") else
  let* ids := table_ids program_bytes in
  let* tables := mapR (fun id => database_table view id prior) ids in
  let* program := decode_program program_bytes argument_bytes tables claims in
  Ok (prior, program).

Definition interpret (view : View) (sequence : Z) (program_bytes argument_bytes : bytes)
    (claims : LimitPolicy) : Result Error Outcome :=
  let* (prior, program) := prepare_program view sequence program_bytes argument_bytes claims in
  run sha256 view prior program claims.

Definition finish_preparation (prior : Z) (program : Program) (claims : LimitPolicy)
    (manifest : option AccessManifest) : Result Error PreparedTransaction :=
  let* required := derive sha256 program in
  let manifest := match manifest with Some manifest => manifest | None => required end in
  let* _ := validate manifest required (prog_tables program) claims in
  Ok {| prepared_prior := prior; prepared_program := program; prepared_claims := claims;
        prepared_manifest := manifest |}.

Definition prepare_transaction (view : View) (sequence : Z) (transaction : Transaction)
    (claims : LimitPolicy) (manifest : option AccessManifest) : Result Error PreparedTransaction :=
  let* (prior, program) :=
    prepare_program view sequence (transaction_program transaction) (transaction_arguments transaction) claims in
  finish_preparation prior program claims manifest.

Definition interpret_prepared (view : View) (transaction : PreparedTransaction) : Result Error Outcome :=
  run sha256 view (prepared_prior transaction) (prepared_program transaction) (prepared_claims transaction).

(** ** Serial execution *)
Context {Db : Type} `{!PhysicalStore Db View Cell}.

Definition next_view (store : Db) (sequence : Z) : Result Error View :=
  let* prior := prior_sequence sequence in
  let checkpoint := checkpoint_sequence store in
  if sequence <=? checkpoint then Err (Error_Invalid "record is already checkpointed") else
  let view := store_view store in
  let* missing :=
    if negb (prior =? checkpoint) then
      let* outcome := map_err Error_Storage (storage_get view Outcomes (be_bytes 8 prior)) in
      Ok (negb (bool_decide (is_Some outcome)))
    else Ok false in
  if missing : bool then Err (Error_Invalid "reference execution requires the preceding outcome") else
  let* later := map_err Error_Storage
    (storage_scan view Outcomes (Included (be_bytes 8 sequence)) Unbounded) in
  match later with
  | [] => Ok view
  | entry :: _ =>
      let* _ := map_err Error_Storage entry in
      Err (Error_Invalid "reference execution cannot replace resolved history")
  end.

(** [next_view], then an outcome, then [install]. *)
Definition execute_record (store : Db) (sequence : Z) (digest : bytes) (kind : Z)
    (compute : View -> Result Error Outcome) : Db * Result Error Outcome :=
  match (let* view := next_view store sequence in compute view) with
  | Ok outcome =>
      let '(store, result) := install store sequence digest kind outcome in
      (store, let* _ := result in Ok outcome)
  | Err error => (store, Err error)
  | Panic => (store, Panic)
  end.

Definition execute_bytes (store : Db) (sequence : Z) (digest program_bytes argument_bytes : bytes)
    (claims : LimitPolicy) : Db * Result Error Outcome :=
  execute_record store sequence digest 1
    (fun view => interpret view sequence program_bytes argument_bytes claims).

Definition execute (store : Db) (sequence : Z) (digest : bytes) (transaction : Transaction)
    (claims : LimitPolicy) : Db * Result Error Outcome :=
  execute_bytes store sequence digest (transaction_program transaction)
    (transaction_arguments transaction) claims.

Definition execute_catalogue (store : Db) (sequence : Z) (digest : bytes) (operation : CatalogueOperation)
    : Db * Result Error Outcome :=
  execute_record store sequence digest 2 (fun view => database_catalogue view sequence operation).

Definition execute_limits (store : Db) (sequence : Z) (digest : bytes) (policy : LimitPolicy)
    : Db * Result Error Outcome :=
  execute_record store sequence digest 3 (fun _ => Ok (database_limits policy)).
End Vm.

(** * Serial execution

    [execute], [execute_catalogue] and [execute_limits]
    ([src/src/vm/mod.rs]) resolve exactly the next sequence: each refines the
    abstract step of its outcome, or leaves the database as it was.  They keep
    the database well typed ([world]), so no reachable state makes them
    panic. *)
(** ** The next view *)
Lemma prior_sequence_ok sequence prior :
  0 <= sequence <= u64_max ->
  prior_sequence sequence = Ok prior <-> prior = sequence - 1 /\ 0 < sequence < u64_max.
Proof.
  intros Hs. unfold prior_sequence. destruct (Z.eqb_spec sequence 0); simpl; [split; [done|lia]|].
  destruct (Z.eqb_spec sequence u64_max); simpl; [split; [done|lia]|].
  rewrite arith_u64_ok by lia. split; [intros [= <-]; lia|by intros [-> _]].
Qed.

Section Next.
Context `{StoreLaws Db View Cell}.
Context (store : Db) (contents : Contents) (last : Z) (Hh : holds store contents).
Context (Hist : history contents (checkpoint_sequence store) last).

Lemma outcome_sequence e s :
  e ∈ contents Outcomes -> e.1 = be_bytes 8 s -> 0 <= s <= u64_max -> 0 < s <= last.
Proof.
  intros He Ek Hs. pose proof (upto_outcomes _ _ (history_versions _ _ _ Hist)) as Hf. rewrite Forall_forall in Hf.
  destruct (Hf _ He) as (s' & r & Ek' & Hs' & _). pose proof (history_bounds _ _ _ Hist) as [_ Hl].
  assert (s = s') as ->; [|done]. rewrite Ek in Ek'. apply (f_equal from_be) in Ek'.
  rewrite !from_be_u64 in Ek' by lia. done.
Qed.

Lemma later_outcomes sequence :
  0 <= sequence <= u64_max ->
  bt_range (Included (be_bytes 8 sequence)) Unbounded (contents Outcomes) = [] <->
  forall s, sequence <= s <= last -> bt_get (be_bytes 8 s) (contents Outcomes) = None.
Proof.
  intros Hs. pose proof (history_versions _ _ _ Hist) as Hup. pose proof (history_bounds _ _ _ Hist) as [_ Hl].
  pose proof (upto_sorted _ _ Hup Outcomes) as Hsort. split.
  - intros Hr s Hb. destruct (bt_get _ _) as [d|] eqn:E; [|done]. apply bt_get_elem in E.
    assert ((be_bytes 8 s, d) ∈ bt_range (Included (be_bytes 8 sequence)) Unbounded (contents Outcomes)) as Hin.
    { apply elem_of_bt_range. split; [done|]. unfold in_range, above, below, cmp_le. cbn [fst].
      rewrite cmp_be_u64, andb_true_r by lia. unfold cmp, Z_cmp. destruct (Z.compare_spec sequence s); (done || lia). }
    rewrite Hr in Hin. by apply elem_of_nil in Hin.
  - intros Hnone. destruct (bt_range _ _ _) as [|e es] eqn:Er; [done|exfalso].
    assert (e ∈ bt_range (Included (be_bytes 8 sequence)) Unbounded (contents Outcomes)) as He by (rewrite Er; by left).
    apply elem_of_bt_range in He as [He Hr]. pose proof (upto_outcomes _ _ Hup) as Hf. rewrite Forall_forall in Hf.
    destruct (Hf _ He) as (s & r & Ek & Hb & _). unfold in_range, above, below, cmp_le in Hr.
    rewrite Ek, cmp_be_u64, andb_true_r in Hr by lia. unfold cmp, Z_cmp in Hr.
    destruct e as [k d]. simpl in Ek. subst k. pose proof (bt_elem_get _ _ _ Hsort He) as Hg.
    rewrite Hnone in Hg; [done|]. destruct (Z.compare_spec sequence s); (done || lia).
Qed.

Lemma next_view_no_panic sequence : 0 <= sequence <= u64_max -> no_panic (next_view store sequence).
Proof.
  intros Hs. unfold next_view. destruct (prior_sequence sequence) as [prior| |] eqn:Ep; cbn [bindR]; [|done|].
  - apply prior_sequence_ok in Ep as [-> Hb]; [|done]. rewrite (get_contents _ _ (holds_view _ _ Hh)) by by rewrite len_be_bytes.
    rewrite (scan_contents _ _ (holds_view _ _ Hh)) by (done || (simpl; by rewrite len_be_bytes)).
    destruct (_ <=? _); [done|]. destruct (negb _); cbn [map_err bindR]; [destruct (negb _); [done|]|];
      by destruct (bt_range _ _ _).
  - unfold prior_sequence in Ep. destruct (Z.eqb_spec sequence 0), (Z.eqb_spec sequence u64_max); try discriminate Ep.
    simpl in Ep. by rewrite arith_u64_ok in Ep by lia.
Qed.

(** Exactly the sequence after the newest one can be executed next. *)
Lemma next_view_iff sequence view :
  0 <= sequence <= u64_max ->
  next_view store sequence = Ok view <-> sequence = last + 1 /\ sequence < u64_max /\ view = store_view store.
Proof.
  intros Hs. pose proof (history_bounds _ _ _ Hist) as [Hb Hl]. pose proof (history_complete _ _ _ Hist) as Hc.
  pose proof (get_contents _ _ (holds_view _ _ Hh) Outcomes (be_bytes 8 (sequence - 1))) as Hget.
  rewrite len_be_bytes in Hget. specialize (Hget ltac:(done)).
  pose proof (scan_contents _ _ (holds_view _ _ Hh) Outcomes (Included (be_bytes 8 sequence)) Unbounded) as Hscan.
  simpl bound_ok in Hscan. rewrite len_be_bytes in Hscan. specialize (Hscan eq_refl eq_refl).
  pose proof (later_outcomes sequence Hs) as Hlater. unfold next_view. split.
  - intros H2. step_ok H2 as prior eqn Hp. apply prior_sequence_ok in Hp as [-> Hr]; [|done].
    rewrite Hget, Hscan in H2. cbn [map_err bindR] in H2. step_if H2 eqn Ec. step_ok H2 as missing eqn Hm.
    destruct missing; [done|]. destruct (bt_range _ _ _) as [|e es]; [|by step_ok H2 as x eqn Hx].
    injection H2 as <-. pose proof (proj1 Hlater eq_refl) as Hnone.
    assert (last < sequence).
    { destruct (Z.lt_ge_cases last sequence) as [?|Hge]; [done|]. destruct (Hc sequence) as [d Hd]; [blia|].
      by rewrite Hnone in Hd by lia. }
    split; [|by split; [lia|]]. destruct (Z.eqb_spec (sequence - 1) (checkpoint_sequence store)); [lia|].
    cbn [negb] in Hm. injection Hm as Hm. apply negb_false_iff, bool_decide_eq_true in Hm as [d Hd].
    apply bt_get_elem in Hd. eapply outcome_sequence in Hd; [|done|lia]. lia.
  - intros (Hn & Hlt & ->). assert (last = sequence - 1) as -> by lia.
    rewrite (proj2 (prior_sequence_ok sequence (sequence - 1) Hs)) by (split; [done|lia]). cbn [bindR].
    rewrite (proj2 (Z.leb_gt _ _)) by lia. rewrite Hget, Hscan. cbn [map_err bindR].
    rewrite (proj2 Hlater) by (intros s ?; lia). destruct (Z.eqb_spec (sequence - 1) (checkpoint_sequence store)); [done|].
    destruct (Hc (sequence - 1)) as [d Hd]; [lia|]. cbn [negb]. by rewrite Hd.
Qed.
End Next.

(** ** Records *)
Section Record.
Context `{StoreLaws Db View Cell}.

Lemma execute_record_refines (store : Db) contents last sequence digest kind compute :
  holds store contents -> history contents (checkpoint_sequence store) last -> 0 <= sequence <= u64_max ->
  let r o := {| record_sequence := sequence; record_digest := digest; record_kind := kind; record_outcome := o |} in
  (sequence = last + 1 -> sequence < u64_max -> no_panic (compute (store_view store))) ->
  (forall o, sequence = last + 1 -> sequence < u64_max -> compute (store_view store) = Ok o -> record_wf (r o)) ->
  match execute_record store sequence digest kind compute with
  | (store', Ok o) => sequence = last + 1 /\ compute (store_view store) = Ok o /\
      exists contents', holds store' contents' /\ checkpoint_sequence store' = checkpoint_sequence store /\
        resolved (r o) (checkpoint_sequence store) last contents contents'
  | (store', Err _) => holds store' contents /\ checkpoint_sequence store' = checkpoint_sequence store
  | (_, Panic) => False
  end.
Proof.
  intros Hh Hist Hs r Hnp Hwf. unfold execute_record.
  destruct (next_view store sequence) as [view| |] eqn:Hv; cbn [bindR]; [|done|by eapply next_view_no_panic in Hv].
  apply (next_view_iff store contents last Hh Hist) in Hv as (-> & Hlt & ->); [|done].
  destruct (compute (store_view store)) as [o| |] eqn:Ec; [|done|by apply Hnp].
  specialize (Hwf o eq_refl Hlt eq_refl).
  pose proof (install_refines store contents last (r o) Hh Hist Hwf eq_refl) as Hi. unfold install_record in Hi. simpl in Hi.
  destruct (install _ _ _ _ _) as [store' [u|e|]]; simpl; [|done|done]. by split.
Qed.
End Record.
