(* ===== verification/World.v ===== *)
(** * Well-typed databases

    The invariant of a database under serial execution: every row is a
    canonical key and a value of its table's schema, a table keeps its schema
    for ever, and no two live tables share a name. *)
From S2P Require Import Prelude OrdMap Errors Reader Value ValueFacts Encoding EncodingFacts Limits Operations Program ProgramFacts Catalogue CatalogueFacts Storage Mvcc MvccFacts Overlay Outcome OutcomeFacts Administration Snapshots Installation Execution Runtime RuntimeFacts Access Analysis.
From Stdlib Require Import Sorted.

Record typed_snapshots (shown : Z -> Snapshot) : Prop := {
  typed_tables s1 s2 id v1 v2 :
    shown_table (shown s1) id = Some v1 -> shown_table (shown s2) id = Some v2 ->
    version_table v1 = version_table v2;
  typed_names s id1 id2 v1 v2 :
    shown_table (shown s) id1 = Some v1 -> shown_table (shown s) id2 = Some v2 ->
    live v1 = true -> live v2 = true -> name v1 = name v2 -> id1 = id2;
  typed_rows s table key data :
    shown_row (shown s) table key = Some data ->
    exists s' v, shown_table (shown s') table = Some v /\
      key_ok (version_table v) key /\ value_ok (version_table v) data }.

Record world (contents : Contents) (checkpoint last : Z) : Prop := {
  world_history : history contents checkpoint last;
  world_typed : typed_snapshots (snapshot contents) }.

(** ** Tables *)
Lemma decode_catalogue_table id data v :
  decode_catalogue id data = Ok v -> 0 <= id <= u64_max ->
  table_wf (version_table v) /\ table_id (version_table v) = id.
Proof.
  intros (H & Hid & (_ & Vk & Vw))%decode_catalogue_iff Hr. split; [|done].
  apply encode_catalogue_inv in H as (k & w & _ & Hi & _ & Hk & Hw). apply valid_id_ok in Hi.
  apply schema_descriptor_iff in Hk as (Dk & Lk & (_ & [nk Nk] & Mk)); [|done].
  apply schema_descriptor_iff in Hw as (Dw & Lw & (_ & [nw Nw] & _)); [|done].
  assert (decode k = Ok (table_key (version_table v))) as Ek by by apply decode_descriptor_iff.
  assert (decode w = Ok (table_value (version_table v))) as Ew by by apply decode_descriptor_iff.
  split; [lia|]. split.
  - exists k, (schema_for (table_key (version_table v)) nk k). split; [done|]. split; [|by apply Mk].
    apply Schema_decode_iff. by eexists _, _.
  - exists w, (schema_for (table_value (version_table v)) nw w). split; [done|].
    apply Schema_decode_iff. by eexists _, _.
Qed.

Lemma table_at_wf contents last id s v :
  versions_upto contents last -> table_at (contents Catalogue) id s = Some v ->
  table_wf (version_table v) /\ table_id (version_table v) = id /\ 0 < id <= last.
Proof.
  intros Hup (e & t & He & Hk & Hv & _)%table_at_elem. pose proof (upto_catalogue _ _ Hup) as Hf.
  rewrite Forall_forall in Hf. destruct (Hf _ He) as (a & u & w & Hk' & _ & Hle). rewrite Hk in Hk'. injection Hk' as <- <-.
  apply decode_catalogue_key_iff in Hk as (_ & Hb & Hu).
  destruct (decode_catalogue_table id e.2 v Hv) as [Hwf Hid]; [lia|]. split; [done|]. split; [done|lia].
Qed.

Section Tables.
Context `{Storage View Cell} (view : View) (contents : Contents) (last : Z).
Context (Hview : Represents view contents) (Hup : versions_upto contents last).

Lemma catalogue_version_read id sequence :
  0 <= id <= u64_max -> 0 <= sequence < u64_max ->
  catalogue_version view id sequence =
  let* _ := valid_id id in Ok (table_at (contents Catalogue) id sequence).
Proof.
  intros Hi Hs. destruct (valid_id id) as [[]| |] eqn:E; [|unfold catalogue_version; by rewrite E..].
  apply valid_id_ok in E. apply catalogue_version_at; try done; [by eapply upto_catalogue_entries|lia].
Qed.

Lemma database_table_iff id sequence t :
  0 <= id <= u64_max -> 0 <= sequence < u64_max ->
  database_table view id sequence = Ok t <->
  exists v, table_at (contents Catalogue) id sequence = Some v /\ live v = true /\ t = version_table v.
Proof.
  intros Hi Hs. unfold database_table. rewrite catalogue_version_read by done. split.
  - intros H1. step_ok H1 as o eqn Ho. step_ok Ho as [] eqn Hv. injection Ho as <-.
    destruct (table_at _ _ _) as [v|]; [|done]. simpl in H1. destruct (live v) eqn:El; [|done].
    injection H1 as <-. by exists v.
  - intros (v & Hv & Hl & ->). pose proof (table_at_wf _ _ _ _ _ Hup Hv) as (_ & _ & Hpos).
    destruct (Z.eq_dec id u64_max) as [->|Hne].
    + apply table_at_elem in Hv as (e & s & _ & Hk & _). apply decode_catalogue_key_iff in Hk. lia.
    + rewrite (proj2 (valid_id_ok id tt)) by lia. cbn [bindR]. rewrite Hv. simpl. by rewrite Hl.
Qed.

Lemma database_table_no_panic id sequence :
  0 <= id <= u64_max -> 0 <= sequence < u64_max -> no_panic (database_table view id sequence).
Proof.
  intros Hi Hs. unfold database_table. rewrite catalogue_version_read by done.
  apply bindR_no_panic; [solve_no_panic|]. intros o _. by destruct (live_version o).
Qed.
End Tables.

(** ** Outcomes of transactions *)

(** Every effect writes a typed row of a live table. *)
Definition typed_effect (d : Snapshot) (e : Effect) : Prop :=
  exists v, shown_table d (effect_address e).1 = Some v /\ live v = true /\
    match e with
    | Effect_Put _ key value => key_ok (version_table v) key /\ value_ok (version_table v) value
    | Effect_Delete _ key => key_ok (version_table v) key
    | _ => False
    end.

Lemma table_ids_range program_bytes ids : table_ids program_bytes = Ok ids -> Forall (fun id => 0 < id < u64_max) ids.
Proof.
  unfold table_ids. intros H. step_ok H as [h r] eqn Hh. step_ok H as [d r2] eqn Hd. step_ok H as ty eqn Hty.
  step_ok H as [ids' r3] eqn Hids. injection H as <-. by apply read_tables_spec in Hids as [? _].
Qed.
Lemma table_ids_no_panic program_bytes : no_panic (table_ids program_bytes).
Proof. unfold table_ids. solve_no_panic. Qed.

Section Transactions.
Context (sha256 : bytes -> bytes) `{Storage View Cell} (view : View) (contents : Contents) (checkpoint last : Z).
Context (Hview : Represents view contents) (Hworld : world contents checkpoint last).
Context (claims : LimitPolicy) (Hclaims : policy_wf claims).

Let Hup : versions_upto contents last := history_versions _ _ _ (world_history _ _ _ Hworld).

(** What admission establishes about a program. *)
Record prepared (sequence prior : Z) (program : Program) : Prop := {
  prepared_next : prior = sequence - 1 /\ 0 < sequence < u64_max;
  prepared_types : exists argument_types constant_types,
    admitted program argument_types constant_types (prog_tables program) claims;
  prepared_tables : Forall (fun t => exists v, table_at (contents Catalogue) (table_id t) prior = Some v /\
    live v = true /\ t = version_table v) (prog_tables program) }.

Lemma prepare_program_ok sequence pb ab prior program :
  0 <= sequence <= u64_max ->
  prepare_program view sequence pb ab claims = Ok (prior, program) -> prepared sequence prior program.
Proof.
  intros Hs H1. unfold prepare_program in H1. step_ok H1 as p eqn Hp. apply prior_sequence_ok in Hp as [-> Hb]; [|done].
  step_ok H1 as policy eqn Hpol. step_if H1 eqn Ea. step_ok H1 as ids eqn Hids. step_ok H1 as tables eqn Ht.
  step_ok H1 as prog eqn Hprog. injection H1 as <- <-. pose proof Hprog as (at_ & ct & Hadm)%decode_program_admitted.
  pose proof (admitted_tables _ _ _ _ _ Hadm) as E. split; [by split|exists at_, ct; by rewrite E|].
  rewrite E. apply mapR_Forall2 in Ht. apply table_ids_range in Hids. apply Forall_forall. intros t Hin.
  apply list_elem_of_lookup_1 in Hin as [i Hin].
  destruct (Forall2_lookup_r _ _ _ _ _ Ht Hin) as (id & Hid & Hd). rewrite Forall_forall in Hids.
  specialize (Hids _ (list_elem_of_lookup_2 _ _ _ Hid)).
  apply (database_table_iff view contents last Hview Hup) in Hd as (v & Hv & Hl & ->); [|lia..].
  pose proof (table_at_wf _ _ _ _ _ Hup Hv) as (_ & Eid & _). exists v. by rewrite Eid.
Qed.

Lemma prepare_program_no_panic sequence pb ab :
  0 <= sequence <= u64_max -> no_panic (prepare_program view sequence pb ab claims).
Proof.
  intros Hs. unfold prepare_program. destruct (prior_sequence sequence) as [prior| |] eqn:Ep; cbn [bindR]; [|done|].
  - apply prior_sequence_ok in Ep as [-> Hb]; [|done].
    destruct (database_policy_at view contents Hview (sequence - 1)) as (p & _ & ->);
      [by eapply upto_policy_entries|apply Hup|lia|]. cbn [bindR]. destruct (any_above _ _); [done|].
    destruct (table_ids pb) as [ids| |] eqn:Eids; cbn [bindR]; [|done|by apply table_ids_no_panic in Eids].
    apply table_ids_range in Eids. apply bindR_no_panic; [apply mapR_no_panic|].
    + eapply Forall_impl; [exact Eids|]. intros id Hid. cbv beta in Hid. apply (database_table_no_panic view contents last Hview Hup); lia.
    + intros tables _. apply bindR_no_panic; [apply decode_program_total|done].
  - unfold prior_sequence in Ep. destruct (Z.eqb_spec sequence 0), (Z.eqb_spec sequence u64_max); try discriminate Ep.
    simpl in Ep. by rewrite arith_u64_ok in Ep by lia.
Qed.

(** The snapshot an admitted program reads is well typed for it. *)
Lemma prepared_database sequence prior program :
  prepared sequence prior program -> database_ok view contents prior program.
Proof.
  intros [[-> Hb] (at_ & ct & Hadm) Ht]. rewrite Forall_forall in Ht. split.
  - done.
  - by eapply upto_state_entries.
  - lia.
  - apply Forall_forall. intros t Hin. destruct (Ht _ Hin) as (v & Hv & _ & ->).
    by pose proof (table_at_wf _ _ _ _ _ Hup Hv) as (? & _ & _).
  - intros t1 t2 H1 H2 E. destruct (Ht _ H1) as (v1 & Hv1 & _ & E1). destruct (Ht _ H2) as (v2 & Hv2 & _ & E2).
    rewrite E, Hv2 in Hv1. congruence.
  - intros t key data Hin Hr. destruct (Ht _ Hin) as (v & Hv & _ & Et).
    destruct (typed_rows _ (world_typed _ _ _ Hworld) (sequence - 1) (table_id t) key data Hr) as (s' & v' & Hv' & Hk & Hd).
    rewrite Et. by rewrite (typed_tables _ (world_typed _ _ _ Hworld) _ _ _ _ _ Hv Hv').
Qed.

Lemma effect_of_typed sequence prior program e :
  prepared sequence prior program -> overlay_typed program e ->
  effect_typed (effect_of e) /\ typed_effect (snapshot contents prior) (effect_of e).
Proof.
  intros [_ _ Ht] (t & Hin & Hid & Hk & Hv). rewrite Forall_forall in Ht. destruct (Ht _ Hin) as (v & Hat & Hl & Et).
  pose proof (table_at_wf _ _ _ _ _ Hup Hat) as (_ & _ & Hpos).
  pose proof (history_bounds _ _ _ (world_history _ _ _ Hworld)) as [_ Hlast].
  destruct e as [[id key] [data|]]; simpl in *; subst id; (split; [lia|]); exists v; rewrite <-Et; (split; [done|]);
    (split; [done|]); [|done]. split; [done|by apply Hv].
Qed.

(** A transaction's outcome is storable and its effects are well typed. *)
Lemma run_outcome sequence prior program :
  prepared sequence prior program ->
  exists o, run sha256 view prior program claims = Ok o /\ outcome_wf o /\ canonical o /\
    Forall (typed_effect (snapshot contents prior)) (outcome_effects o).
Proof.
  intros Hp. pose proof (prepared_database _ _ _ Hp) as Hdb. pose proof Hp as [_ (at_ & ct & Hadm) _].
  destruct (run_total sha256 view contents prior program claims at_ ct Hdb Hclaims Hadm) as (o & Hr & Ho).
  exists o. split; [done|]. destruct o as [ty v es|a]; simpl in Ho.
  - destruct Ho as (-> & _ & Hw & _ & ov & -> & [Hsort Hov] & _ & _).
    assert (Forall (fun e => effect_typed (effect_of e) /\ typed_effect (snapshot contents prior) (effect_of e)) ov) as Hf.
    { eapply Forall_impl; [exact Hov|]. intros e. by apply (effect_of_typed sequence prior program). }
    split; [split; [by apply Hadm|]; split; [done|]|split].
    + apply Forall_map. eapply Forall_impl; [exact Hf|]. by intros e [? _].
    + simpl. clear -Hsort. induction Hsort as [|e ov _ IH Hlt]; simpl; constructor; [done|].
      apply Forall_map. eapply Forall_impl; [exact Hlt|]. intros x Hx. by destruct e as [[? ?] [?|]], x as [[? ?] [?|]].
    + apply Forall_map. eapply Forall_impl; [exact Hf|]. by intros e [_ ?].
  - destruct Ho as [(_ & _ & Hc & Hd) Hi]. split; [|done]. simpl.
    pose proof (admitted_size _ _ _ _ _ Hadm) as [[_ Hn] _]. pose proof (limit_u64 claims Hclaims 1).
    split; [unfold u32_max; lia|]. split; [done|]. destruct (decide _) in Hd; unfold u64_max; lia.
Qed.

Lemma interpret_outcome sequence pb ab :
  0 <= sequence <= u64_max ->
  no_panic (interpret sha256 view sequence pb ab claims) /\
  forall o, interpret sha256 view sequence pb ab claims = Ok o ->
    outcome_wf o /\ canonical o /\ Forall (typed_effect (snapshot contents (sequence - 1))) (outcome_effects o).
Proof.
  intros Hs. unfold interpret. pose proof (prepare_program_no_panic sequence pb ab Hs) as Hn.
  destruct (prepare_program _ _ _ _ _) as [[prior program]| |] eqn:Ep; cbn [bindR]; [|done|done].
  apply prepare_program_ok in Ep; [|done]. pose proof Ep as [[-> _] _ _].
  destruct (run_outcome _ _ _ Ep) as (o & -> & Ho). split; [done|]. by intros o' [= <-].
Qed.
End Transactions.

(** ** Steps between well-typed databases *)

(** After a record every snapshot is an older one or the new one, and none is lost. *)
Lemma resolved_snapshots r checkpoint last contents contents' :
  versions_upto contents last -> record_sequence r = last + 1 -> resolved r checkpoint last contents contents' ->
  (forall s, (exists s', snapshot contents' s ≡ snapshot contents s') \/
     snapshot contents' s ≡ apply_effects (snapshot contents last) (outcome_effects (record_outcome r))) /\
  forall s, exists s', snapshot contents' s' ≡ snapshot contents s.
Proof.
  intros Hup Hs [Hh Hold Hnew _]. split; intros s.
  - destruct (Z.lt_ge_cases s (record_sequence r)); [left; exists s; by apply Hold|right].
    rewrite <-Hnew. apply snapshot_later; [apply Hh|lia].
  - destruct (Z.lt_ge_cases s (record_sequence r)); [exists s; by apply Hold|]. exists last.
    rewrite Hold by lia. symmetry. apply snapshot_later; [done|lia].
Qed.

(** Such a family stays well typed when the new snapshot is. *)
Definition new_typed (shown : Z -> Snapshot) (d : Snapshot) : Prop :=
  (forall s id v1 v2, shown_table (shown s) id = Some v1 -> shown_table d id = Some v2 ->
     version_table v1 = version_table v2) /\
  (forall id1 id2 v1 v2, shown_table d id1 = Some v1 -> shown_table d id2 = Some v2 ->
     live v1 = true -> live v2 = true -> name v1 = name v2 -> id1 = id2) /\
  (forall table key data, shown_row d table key = Some data ->
     exists s v, shown_table (shown s) table = Some v /\ key_ok (version_table v) key /\ value_ok (version_table v) data).

Lemma typed_extend (shown shown' : Z -> Snapshot) d :
  typed_snapshots shown -> new_typed shown d ->
  (forall s, (exists s', shown' s ≡ shown s') \/ shown' s ≡ d) -> (forall s, exists s', shown' s' ≡ shown s) ->
  typed_snapshots shown'.
Proof.
  intros [Ht Hn Hr] (Dt & Dn & Dr) Hcase Hkeep. split.
  - intros s1 s2 id v1 v2 H1 H2. destruct (Hcase s1) as [[s1' (_ & E1 & _)]|(_ & E1 & _)], (Hcase s2) as [[s2' (_ & E2 & _)]|(_ & E2 & _)];
      rewrite E1 in H1; rewrite E2 in H2; [by eapply Ht|by eapply Dt|symmetry; by eapply Dt|congruence].
  - intros s id1 id2 v1 v2 H1 H2. destruct (Hcase s) as [[s' (_ & E & _)]|(_ & E & _)]; rewrite E in H1, H2; [by eapply Hn|by eapply Dn].
  - intros s table key data H1.
    assert (exists s v, shown_table (shown s) table = Some v /\ key_ok (version_table v) key /\ value_ok (version_table v) data)
      as (s' & v & Hv & Hok).
    { destruct (Hcase s) as [[s' (E & _ & _)]|(E & _ & _)]; rewrite E in H1; [by eapply Hr|by eapply Dr]. }
    destruct (Hkeep s') as (s2 & _ & E & _). exists s2, v. by rewrite E.
Qed.

Lemma typed_effects_tables d0 es : forall d,
  Forall (typed_effect d0) es -> shown_table (apply_effects d es) = shown_table d.
Proof.
  induction es as [|e es IH]; intros d Hf; [done|]. apply Forall_cons_1 in Hf as [(v & _ & _ & He) Hf].
  change (apply_effects d (e :: es)) with (apply_effects (apply_effect d e) es). rewrite IH by done. by destruct e.
Qed.

Lemma typed_effects_rows d0 es : forall d table key data,
  Forall (typed_effect d0) es -> shown_row (apply_effects d es) table key = Some data ->
  shown_row d table key = Some data \/ Effect_Put table key data ∈ es.
Proof.
  induction es as [|e es IH]; intros d table key data Hf Hr; [by left|]. apply Forall_cons_1 in Hf as [(v & _ & _ & He) Hf].
  change (apply_effects d (e :: es)) with (apply_effects (apply_effect d e) es) in Hr.
  apply IH in Hr as [Hr|Hin]; [|right; by right|done]. destruct e as [t k w|t k|t w|p]; simpl in *; try done.
  - destruct (decide _) as [[-> ->]|]; [|by left]. injection Hr as <-. right. by left.
  - destruct (decide _); [done|by left].
Qed.

Lemma transaction_typed shown last es :
  typed_snapshots shown -> Forall (typed_effect (shown last)) es -> new_typed shown (apply_effects (shown last) es).
Proof.
  intros [Ht Hn Hr] Hf. split; [|split]; rewrite ?(typed_effects_tables _ _ _ Hf).
  - intros s id v1 v2. by apply Ht.
  - intros id1 id2 v1 v2. by apply Hn.
  - intros table key data [Hd|Hin]%(typed_effects_rows _ _ _ _ _ _ Hf); [by eapply Hr|].
    rewrite Forall_forall in Hf. destruct (Hf _ Hin) as (v & Hv & _ & Hk & Hw). by exists last, v.
Qed.

(** ** Administrative records *)

(** The operations a decoded record holds. *)
Definition operation_wf (operation : CatalogueOperation) : Prop :=
  match operation with
  | Create name key value => utf8_valid name = true /\ valid_type 1 key = true /\ valid_type 1 value = true
  | Rename table name => 0 <= table <= u64_max /\ utf8_valid name = true
  | Drop_ table => 0 <= table <= u64_max
  end.

(** The version an operation records, or why it aborts. *)
Definition catalogue_change (sequence : Z) (operation : CatalogueOperation) (version : option CatalogueVersion)
    (taken : bool) : CatalogueVersion + AbortReason :=
  match operation with
  | Create new_name key value =>
      if taken then inr NameInUse else
      inl {| live := true; name := new_name;
             version_table := {| table_id := sequence; table_key := key; table_value := value |} |}
  | Rename _ new_name =>
      match live_version version with
      | None => inr TableNotLive
      | Some version =>
          if taken then inr NameInUse else
          inl {| live := true; name := new_name; version_table := version_table version |}
      end
  | Drop_ _ =>
      match live_version version with
      | None => inr TableNotLive
      | Some version => inl {| live := false; name := name version; version_table := version_table version |}
      end
  end.

Definition changed_table (sequence : Z) (operation : CatalogueOperation) : Z :=
  match operation with Create _ _ _ => sequence | Rename table _ | Drop_ table => table end.
Definition wanted_name (operation : CatalogueOperation) : bytes :=
  match operation with Create name _ _ | Rename _ name => name | Drop_ _ => [] end.
Definition ignored_table (operation : CatalogueOperation) : option Z :=
  match operation with Rename table _ => Some table | _ => None end.
Definition catalogue_return (sequence : Z) (operation : CatalogueOperation) : Ty * Value :=
  match operation with Create _ _ _ => (Type_U64, Value_U64 sequence) | _ => (Type_Unit, Value_Unit) end.

Section Administration.
Context `{Storage View Cell} (view : View) (contents : Contents) (checkpoint last : Z).
Context (Hview : Represents view contents) (Hworld : world contents checkpoint last).
Context (operation : CatalogueOperation) (Hop : operation_wf operation).
Let Hup : versions_upto contents last := history_versions _ _ _ (world_history _ _ _ Hworld).
Let sequence := last + 1.
Context (Hseq : sequence < u64_max).

Lemma last_range : 0 <= last < u64_max.
Proof. pose proof (history_bounds _ _ _ (world_history _ _ _ Hworld)). lia. Qed.

Lemma live_version_live v w : live_version v = Some w -> v = Some w /\ live w = true.
Proof. destruct v as [x|]; [|done]. simpl. destruct (live x) eqn:E; [|done]. by intros [= <-]. Qed.

(** A version that is recorded decodes to itself. *)
Lemma catalogue_success_ok version ty v o :
  catalogue_success version ty v = Ok o -> version_wf version ->
  exists data, o = Success ty v [Effect_Catalogue (table_id (version_table version)) data] /\
    decode_catalogue (table_id (version_table version)) data = Ok version.
Proof.
  unfold catalogue_success. intros H1 Hw. step_ok H1 as data eqn Hd. injection H1 as <-. exists data. split; [done|].
  by apply decode_catalogue_encode.
Qed.

(** [catalogue] computes the abstract change over the newest snapshot. *)
Lemma database_catalogue_spec o :
  database_catalogue view sequence operation = Ok o ->
  exists taken, (taken = true <-> name_taken (contents Catalogue) last (wanted_name operation) (ignored_table operation)) /\
    match catalogue_change sequence operation (table_at (contents Catalogue) (changed_table sequence operation) last) taken with
    | inl version => exists data,
        o = Success (catalogue_return sequence operation).1 (catalogue_return sequence operation).2
              [Effect_Catalogue (changed_table sequence operation) data] /\
        decode_catalogue (changed_table sequence operation) data = Ok version
    | inr reason => o = administrative_abort reason
    end.
Proof.
  pose proof last_range as Hlast. intros H1. unfold database_catalogue in H1. step_ok H1 as [] eqn Hid.
  step_ok H1 as [] eqn Hval. assert (arith_u64 (E:=Error) (sequence - 1) = Ok last) as E.
  { unfold sequence. replace (last + 1 - 1) with last by lia. apply arith_u64_ok. lia. }
  rewrite E in H1. cbn [bindR] in H1.
  destruct (name_in_use_iff view contents Hview last (wanted_name operation) (ignored_table operation)) as (taken & Ht & Htaken);
    [by eapply upto_catalogue_entries|]. exists taken. split; [done|].
  destruct operation as [new_name key value|table new_name|table]; cbn [operation_wf wanted_name ignored_table
    changed_table catalogue_return catalogue_change fst snd] in *.
  - rewrite Ht in H1. cbn [bindR] in H1. destruct taken; [by injection H1 as <-|].
    by apply catalogue_success_ok in H1.
  - rewrite (catalogue_version_read view contents last Hview Hup) in H1 by (lia || tauto).
    step_ok H1 as version eqn Hv. step_ok Hv as [] eqn Hvalid. injection Hv as <-.
    destruct (live_version _) as [version|] eqn:El; [|by injection H1 as <-].
    rewrite Ht in H1. cbn [bindR] in H1. destruct taken; [by injection H1 as <-|].
    apply live_version_live in El as [Ev El]. pose proof (table_at_wf _ _ _ _ _ Hup Ev) as (_ & Eid & _).
    apply table_at_elem in Ev as (e & s & _ & _ & (_ & _ & (_ & Vk & Vw))%decode_catalogue_iff & _).
    rewrite El in H1. apply catalogue_success_ok in H1; [|by split; [apply Hop|split]]. simpl in H1. by rewrite Eid in H1.
  - rewrite (catalogue_version_read view contents last Hview Hup) in H1 by (lia || tauto).
    step_ok H1 as version eqn Hv. step_ok Hv as [] eqn Hvalid. injection Hv as <-.
    destruct (live_version _) as [version|] eqn:El; [|by injection H1 as <-].
    apply live_version_live in El as [Ev El]. pose proof (table_at_wf _ _ _ _ _ Hup Ev) as (_ & Eid & _).
    apply table_at_elem in Ev as (e & s & _ & _ & (_ & _ & (Un & Vk & Vw))%decode_catalogue_iff & _).
    apply catalogue_success_ok in H1; [|by split; [|split]]. simpl in H1. by rewrite Eid in H1.
Qed.

Lemma database_catalogue_no_panic : no_panic (database_catalogue view sequence operation).
Proof.
  pose proof last_range as Hlast. unfold database_catalogue.
  apply bindR_no_panic; [solve_no_panic|]. intros _ _.
  apply bindR_no_panic; [unfold validate_catalogue; destruct operation; solve_no_panic|]. intros _ _.
  assert (arith_u64 (E:=Error) (sequence - 1) = Ok last) as E.
  { unfold sequence. replace (last + 1 - 1) with last by lia. apply arith_u64_ok. lia. }
  rewrite E. cbn [bindR].
  assert (forall wanted except, no_panic (name_in_use view last wanted except)) as Hname.
  { intros wanted except. destruct (name_in_use_iff view contents Hview last wanted except) as (b & -> & _);
      [by eapply upto_catalogue_entries|done]. }
  unfold catalogue_success. destruct operation as [n k v|t n|t]; simpl in Hop;
    rewrite ?(catalogue_version_read view contents last Hview Hup) by (lia || tauto); solve_no_panic.
Qed.

(** The new snapshot of a recorded change is well typed. *)
Lemma catalogue_typed o :
  database_catalogue view sequence operation = Ok o ->
  outcome_wf o /\ canonical o /\
  new_typed (snapshot contents) (apply_effects (snapshot contents last) (outcome_effects o)).
Proof.
  pose proof last_range as Hlast. pose proof (world_typed _ _ _ Hworld) as [Tt Tn Tr].
  assert (new_typed (snapshot contents) (snapshot contents last)) as Hsame.
  { split; [|split]; [intros; by eapply Tt|intros; by eapply Tn|intros; by eapply Tr]. }
  intros (taken & Htaken & H1)%database_catalogue_spec.
  destruct (catalogue_change _ _ _ _) as [version|reason] eqn:Ec; [|by subst o; repeat split; try apply Hsame].
  destruct H1 as (data & -> & Hd). split; [|split; [by repeat constructor|]].
  { split; [by destruct operation|]. split; [destruct operation; try done; apply in_u64_spec; unfold sequence; lia|].
    repeat constructor; destruct operation; simpl in *; unfold sequence; lia. }
  assert ((forall s v, table_at (contents Catalogue) (changed_table sequence operation) s = Some v -> version_table v = version_table version) /\
    (live version = true -> forall id v, table_at (contents Catalogue) id last = Some v -> live v = true -> name v = name version ->
       id = changed_table sequence operation)) as [Hold Hnames].
  { destruct operation as [n k v|t n|t]; cbn [catalogue_change changed_table wanted_name ignored_table] in *.
    - destruct taken; [done|]. injection Ec as <-. split.
      + intros s w Hw. pose proof (table_at_wf _ _ _ _ _ Hup Hw). unfold sequence in *. lia.
      + intros _ id w Hw Hl Hn. exfalso. apply diff_false_true, Htaken. exists id, w. split; [done|].
        unfold has_name. simpl in Hn. by rewrite Hl, bool_decide_true.
    - destruct (live_version _) as [w|] eqn:El; [|done]. destruct taken; [done|]. injection Ec as <-.
      apply live_version_live in El as [Ev El]. split; [intros s w' Hw'; exact (Tt s last t w' w Hw' Ev)|].
      intros _ id w' Hw' Hl Hn. destruct (Z.eq_dec id t) as [->|Hne]; [done|]. exfalso. apply diff_false_true, Htaken.
      exists id, w'. split; [done|]. unfold has_name. simpl in Hn. rewrite Hl, bool_decide_true by done.
      by rewrite bool_decide_false by congruence.
    - destruct (live_version _) as [w|] eqn:El; [|done]. injection Ec as <-. apply live_version_live in El as [Ev El].
      split; [intros s w' Hw'; exact (Tt s last t w' w Hw' Ev)|done]. }
  simpl. rewrite Hd. split; [|split]; simpl.
  - intros s id v1 v2 Hv1 Hv2. destruct (decide _) as [->|]; [|exact (Tt s last id v1 v2 Hv1 Hv2)].
    injection Hv2 as <-. exact (Hold s v1 Hv1).
  - intros id1 id2 v1 v2 Hv1 Hv2 L1 L2 En.
    destruct (decide (id1 = _)) as [E1|N1], (decide (id2 = _)) as [E2|N2].
    + congruence.
    + injection Hv1 as <-. by destruct (N2 (Hnames L1 id2 v2 Hv2 L2 (eq_sym En))).
    + injection Hv2 as <-. by destruct (N1 (Hnames L2 id1 v1 Hv1 L1 En)).
    + exact (Tn last id1 id2 v1 v2 Hv1 Hv2 L1 L2 En).
  - intros table key d Hr. exact (Tr last table key d Hr).
Qed.
End Administration.

(** ** Worlds are preserved *)
Section Execute.
Context (sha256 : bytes -> bytes) `{StoreLaws Db View Cell}.

(** A step of serial execution: the store, and the result reported. *)
Inductive Operation : Type :=
| Run_transaction (digest : bytes) (transaction : Transaction) (claims : LimitPolicy)
| Run_catalogue (digest : bytes) (operation : CatalogueOperation)
| Run_limits (digest : bytes) (policy : LimitPolicy).

Definition execute_operation (store : Db) (sequence : Z) (operation : Operation) : Db * Result Error Outcome :=
  match operation with
  | Run_transaction digest transaction claims => execute sha256 store sequence digest transaction claims
  | Run_catalogue digest operation => execute_catalogue store sequence digest operation
  | Run_limits digest policy => execute_limits store sequence digest policy
  end.

Definition operation_kind (operation : Operation) : Z :=
  match operation with Run_transaction _ _ _ => 1 | Run_catalogue _ _ => 2 | Run_limits _ _ => 3 end.
Definition operation_digest (operation : Operation) : bytes :=
  match operation with Run_transaction digest _ _ | Run_catalogue digest _ | Run_limits digest _ => digest end.
Definition operation_ok (operation : Operation) : Prop :=
  len (operation_digest operation) = 32 /\
  match operation with
  | Run_transaction _ _ claims => policy_wf claims
  | Run_catalogue _ operation => operation_wf operation
  | Run_limits _ policy => policy_wf policy
  end.

(** What the step computes from the view of the store. *)
Definition operation_outcome (view : View) (sequence : Z) (operation : Operation) : Result Error Outcome :=
  match operation with
  | Run_transaction _ transaction claims =>
      interpret sha256 view sequence (transaction_program transaction) (transaction_arguments transaction) claims
  | Run_catalogue _ operation => database_catalogue view sequence operation
  | Run_limits _ policy => Ok (database_limits policy)
  end.

Lemma operation_outcome_typed view contents checkpoint last operation :
  Represents view contents -> world contents checkpoint last -> operation_ok operation -> last + 1 < u64_max ->
  no_panic (operation_outcome view (last + 1) operation) /\
  forall o, operation_outcome view (last + 1) operation = Ok o ->
    outcome_wf o /\ canonical o /\ new_typed (snapshot contents) (apply_effects (snapshot contents last) (outcome_effects o)).
Proof.
  intros Hview Hw [_ Hop] Hs. pose proof (last_range contents checkpoint last Hw) as Hl. pose proof (world_typed _ _ _ Hw) as Ht.
  destruct operation as [digest [pb ab] claims|digest operation|digest policy]; simpl in *.
  - destruct (interpret_outcome sha256 view contents checkpoint last Hview Hw claims Hop (last + 1) pb ab) as [Hn Ho]; [lia|].
    split; [done|]. intros o H2. destruct (Ho o H2) as (Hwf & Hc & He). split; [done|]. split; [done|].
    replace (last + 1 - 1) with last in He by lia. by apply transaction_typed.
  - split; [by eapply database_catalogue_no_panic|]. intros o H2. by eapply catalogue_typed.
  - split; [done|]. intros o [= <-]. split; [split; [done|]; split; [done|]; apply Forall_cons; split; [done|by apply Forall_nil]|].
    split; [by repeat constructor|]. destruct Ht as [Tt Tn Tr]. split; [|split]; simpl; [intros s id v1 v2; exact (Tt s last id v1 v2)|exact (Tn last)|exact (Tr last)].
Qed.

Definition operation_record (sequence : Z) (operation : Operation) (o : Outcome) : OutcomeRecord :=
  {| record_sequence := sequence; record_digest := operation_digest operation;
     record_kind := operation_kind operation; record_outcome := o |}.

(** Each step either resolves the next sequence completely, keeping the
    database well typed, or leaves the database as it was. *)
Lemma execute_operation_world (store : Db) contents last sequence operation :
  holds store contents -> world contents (checkpoint_sequence store) last -> operation_ok operation ->
  0 <= sequence <= u64_max ->
  match execute_operation store sequence operation with
  | (store', Ok o) => sequence = last + 1 /\ operation_outcome (store_view store) sequence operation = Ok o /\
      checkpoint_sequence store' = checkpoint_sequence store /\
      exists contents', holds store' contents' /\ world contents' (checkpoint_sequence store') sequence /\
        resolved (operation_record sequence operation o) (checkpoint_sequence store) last contents contents'
  | (store', Err _) => holds store' contents /\ world contents (checkpoint_sequence store') last /\
      checkpoint_sequence store' = checkpoint_sequence store
  | (_, Panic) => False
  end.
Proof.
  intros Hh Hw Hop Hs. pose proof (holds_view _ _ Hh) as Hview. pose proof (world_history _ _ _ Hw) as Hist.
  pose proof (execute_record_refines store contents last sequence (operation_digest operation) (operation_kind operation)
    (fun view => operation_outcome view sequence operation) Hh Hist Hs) as Hr. cbv zeta in Hr.
  assert (execute_operation store sequence operation =
    execute_record store sequence (operation_digest operation) (operation_kind operation)
      (fun view => operation_outcome view sequence operation)) as -> by by destruct operation.
  assert (sequence = last + 1 -> sequence < u64_max -> no_panic (operation_outcome (store_view store) sequence operation) /\
    forall o, operation_outcome (store_view store) sequence operation = Ok o ->
      outcome_wf o /\ canonical o /\
      new_typed (snapshot contents) (apply_effects (snapshot contents last) (outcome_effects o))) as Htyped.
  { intros -> Hlt. by eapply operation_outcome_typed. }
  destruct (execute_record _ _ _ _ _) as [store' [o|e|]].
  - destruct Hr as (Es & Ho & contents' & Hh' & Ecp & Hres).
    + intros E Hlt. by apply Htyped.
    + intros o' E Hlt Ho'. split; simpl; [lia|apply Hop|]. by apply Htyped.
    + split; [done|]. split; [done|]. split; [done|]. exists contents'. split; [done|]. split; [|done]. rewrite Ecp.
      split; [apply Hres|]. pose proof (history_bounds _ _ _ (resolved_history _ _ _ _ _ Hres)) as [_ Hlt]. simpl in Hlt.
      destruct (resolved_snapshots (operation_record sequence operation o) _ _ _ _ (history_versions _ _ _ Hist) Es Hres) as [Hcase Hkeep].
      eapply typed_extend; [apply Hw|by apply (Htyped Es Hlt)|exact Hcase|exact Hkeep].
  - destruct Hr as [Hh' ->]; [intros; by apply Htyped|intros o' E Hlt Ho'; split; simpl; [lia|apply Hop|by apply Htyped]|done].
  - apply Hr; [intros; by apply Htyped|intros o' E Hlt Ho'; split; simpl; [lia|apply Hop|by apply Htyped]].
Qed.

(** ** Serial histories *)

(** The stores reached from a store by operations, in any order and at any
    sequence; an operation that fails is retried or skipped by the caller. *)
Inductive reaches (start : Db) : Db -> Prop :=
| reaches_start : reaches start start
| reaches_step store sequence operation store' result :
    reaches start store -> operation_ok operation -> 0 <= sequence <= u64_max ->
    execute_operation store sequence operation = (store', result) -> reaches start store'.

Definition in_world (store : Db) : Prop :=
  exists contents last, holds store contents /\ world contents (checkpoint_sequence store) last.

Lemma reaches_world start store : reaches start store -> in_world start -> in_world store.
Proof.
  induction 1 as [|store sequence operation store' result _ IH Hop Hs He]; [done|]. intros Hstart.
  destruct (IH Hstart) as (contents & last & Hh & Hw).
  pose proof (execute_operation_world store contents last sequence operation Hh Hw Hop Hs) as Hx. rewrite He in Hx.
  destruct result as [o|e|]; [|exists contents, last; tauto|done].
  destruct Hx as (_ & _ & _ & contents' & Hh' & Hw' & _). by exists contents', sequence.
Qed.
End Execute.
