(* ===== verification/Retained.v ===== *)
(** * Validation of retained history ([src/src/vm/history.rs])

    Recovery reads a checkpoint before it trusts it: every version in the
    trees must belong to one record at or before the checkpoint, tables must
    have lived as their catalogue versions say, rows must be canonical under
    their table's schema, and every outcome after the history floor must be
    present and describe exactly the versions stored at its sequence.  An
    accepted checkpoint is a well-typed database. *)
From stdpp Require Import sorting.
From Stdlib Require Import Sorted.
From S2P Require Import Prelude OrdMap Errors Metadata Reader Value ValueFacts Encoding EncodingFacts Limits Operations OperationsFacts Program ProgramFacts Access Analysis Catalogue CatalogueFacts Storage Mvcc MvccFacts Overlay Outcome OutcomeFacts Administration Snapshots Installation Runtime RuntimeFacts Execution World.


#[export] Instance Table_eq_dec : EqDecision Table.
Proof. solve_decision. Defined.
#[export] Instance Abort_eq_dec : EqDecision Abort.
Proof. solve_decision. Defined.
#[export] Instance LimitPolicy_eq_dec : EqDecision LimitPolicy.
Proof. solve_decision. Defined.
#[export] Instance Effect_eq_dec : EqDecision Effect.
Proof. solve_decision. Defined.
#[export] Instance Outcome_eq_dec : EqDecision Outcome.
Proof. solve_decision. Defined.

(** [History]: the kind and number of the versions at each sequence. *)
Record History : Type := { versions : list (Z * (Z * Z)); floor : Z }.

Definition version_kind (self : History) (sequence : Z) : option Z :=
  match bt_get sequence (versions self) with Some (kind, _) => Some kind | None => None end.

Record TableHistory : Type := {
  latest_version : CatalogueVersion; key_schema : Schema; value_schema : Schema; dropped : option Z }.

(** [fn version] *)
Definition note_version (history : History) (sequence kind checkpoint : Z) : Result Error History :=
  let* _ := valid_id sequence in
  if sequence >? checkpoint then Err (Error_Invalid "checkpoint contains a post-checkpoint version") else
  let '(previous_kind, count) :=
    match bt_get sequence (versions history) with Some entry => entry | None => (kind, 0) end in
  if negb (previous_kind =? kind) || (negb (kind =? 1) && negb (count =? 0))
  then Err (Error_Invalid "incompatible versions at one record sequence") else
  let* count := ok_or (Error_Invalid "too many retained versions") (checked_u64 (count + 1)) in
  Ok {| versions := bt_insert sequence (previous_kind, count) (versions history); floor := floor history |}.

Definition system_sequence (key : bytes) (checkpoint : Z) (genesis : bool) : Result Error Z :=
  if negb (len key =? 8) then Err (Error_Invalid "invalid system key length") else
  let sequence := from_be key in
  if (sequence =? u64_max) || (sequence >? checkpoint) || (negb genesis && (sequence =? 0))
  then Err (Error_Invalid "invalid checkpoint system sequence") else Ok sequence.

(** [for entry in storage::scan(..)? { let (key, value) = entry?; .. }] *)
Definition for_entries {S} (f : S -> bytes -> bytes -> Result Error S) (state : S) (entries : Stream StorageError Entry)
    : Result Error S :=
  foldR (fun state entry => let* (key, value) := map_err Error_Storage entry in f state key value) state entries.

(** ** Catalogue history *)
Definition catalogue_event (checkpoint : Z) (state : History * list (Z * CatalogueVersion)) (key value : bytes)
    : Result Error (History * list (Z * CatalogueVersion)) :=
  let '(history, events) := state in
  let* (id, sequence) := decode_catalogue_key key in
  let* metadata := decode_catalogue id value in
  let* history := note_version history sequence 2 checkpoint in
  Ok (history, bt_insert sequence metadata events).

Definition type_schema (ty : Ty) : Result Error Schema :=
  let* data := descriptor ty in
  map_err Error_Storage (Schema_decode data).

(** What is known of the tables, and the names of the live ones. *)
Abbreviation Lifetimes := (list (Z * TableHistory) * list (bytes * Z))%type.

(** The change of [tables] and the removal of the old name. *)
Definition table_event (state : Lifetimes) (sequence : Z) (metadata : CatalogueVersion) : Result Error Lifetimes :=
  let '(tables, names) := state in
  let table := version_table metadata in
  let id := table_id table in
  match bt_get id tables with
  | Some previous =>
      let latest := latest_version previous in
      if negb (live latest) || negb (bool_decide (version_table latest = table))
         || (negb (live metadata) && negb (bool_decide (name latest = name metadata)))
      then Err (Error_Invalid "invalid catalogue lifecycle or changed immutable schema") else
      let updated :=
        {| latest_version := metadata; key_schema := key_schema previous; value_schema := value_schema previous;
           dropped := if negb (live metadata) then Some sequence else dropped previous |} in
      Ok (bt_insert id updated tables, bt_remove (name latest) names)
  | None =>
      if negb (sequence =? id) || negb (live metadata)
      then Err (Error_Invalid "missing live catalogue creation version") else
      let* key := type_schema (table_key table) in
      let* value := type_schema (table_value table) in
      Ok (bt_insert id {| latest_version := metadata; key_schema := key; value_schema := value; dropped := None |} tables,
          names)
  end.

(** One turn of the loop over the events. *)
Definition lifetime_event (state : Lifetimes) (event : Z * CatalogueVersion) : Result Error Lifetimes :=
  let '(sequence, metadata) := event in
  let* (tables, names) := table_event state sequence metadata in
  if live metadata then
    match bt_get (name metadata) names with
    | Some _ => Err (Error_Invalid "duplicate live catalogue name")
    | None => Ok (tables, bt_insert (name metadata) (table_id (version_table metadata)) names)
    end
  else Ok (tables, names).

Definition live_table (tables : list (Z * TableHistory)) (id sequence : Z) : Result Error TableHistory :=
  let* table := ok_or (Error_Invalid "state references an unknown table") (bt_get id tables) in
  if (sequence <=? id) || match dropped table with Some drop => drop <=? sequence | None => false end
  then Err (Error_Invalid "state version was written outside table lifetime") else Ok table.

Definition transaction_limits (outcome : Outcome) (policy : LimitPolicy) : Result Error unit :=
  match outcome with
  | Aborted _ => Ok tt
  | Success _ value effects =>
      let limits := limit policy in
      if (encoded_len value >? limits 16%nat) || (encoded_len value >? limits 10%nat)
         || (len effects >? limits 14%nat) || (len effects >? limits 8%nat) || (len effects >? limits 7%nat)
      then Err (Error_Invalid "outcome exceeds historical transaction bounds") else
      let* bytes :=
        foldR (fun bytes effect =>
          let* (key, value_len) :=
            match effect with
            | Effect_Put _ key value => Ok (key, len value)
            | Effect_Delete _ key => Ok (key, 0)
            | _ => Err (Error_Invalid "non-state transaction effect")
            end in
          if (len key >? limits 9%nat) || (value_len >? limits 10%nat)
          then Err (Error_Invalid "outcome effect exceeds historical transaction bounds") else
          arith_u64 (bytes + (9 + len key + value_len))) 0 effects in
      if bytes >? limits 15%nat then Err (Error_Invalid "outcome exceeds historical overlay bound") else Ok tt
  end.

Section Validation.
Context `{Storage View Cell}.

Definition catalogue_history (view : View) (checkpoint : Z) (history : History)
    : Result Error (History * list (Z * TableHistory)) :=
  let* entries := map_err Error_Storage (storage_scan view Catalogue Unbounded Unbounded) in
  let* (history, events) := for_entries (catalogue_event checkpoint) (history, []) entries in
  let* (tables, _) := foldR lifetime_event ([], []) events in
  Ok (history, tables).

(** The tree, key and value of an effect. *)
Definition effect_entry (sequence : Z) (effect : Effect) : Result Error (TreeId * bytes * bytes) :=
  match effect with
  | Effect_Put table key value =>
      let* state := map_err Error_Storage (StateKey_new table key sequence) in
      let* data := map_err Error_Storage (StateValue_encode (Put value)) in
      Ok (State, StateKey_encode state, data)
  | Effect_Delete table key =>
      let* state := map_err Error_Storage (StateKey_new table key sequence) in
      let* data := map_err Error_Storage (StateValue_encode StateDelete) in
      Ok (State, StateKey_encode state, data)
  | Effect_Catalogue table value => Ok (Catalogue, catalogue_key table sequence, value)
  | Effect_Limits policy => Ok (Policy, be_bytes 8 sequence, LimitPolicy_encode policy)
  end.

Definition exact_effect (view : View) (sequence : Z) (effect : Effect) (floor : Z) : Result Error bool :=
  let* (tree, key, value) := effect_entry sequence effect in
  let* stored := map_err Error_Storage (storage_get view tree key) in
  if negb (bool_decide (is_Some stored)) && bool_decide (tree = State) && (sequence <=? floor) then Ok false else
  if negb (bool_decide (stored = Some value))
  then Err (Error_Invalid "outcome effect differs from exact retained version") else Ok true.

Definition exact_outcome (view : View) (history : History) (sequence kind : Z) (outcome : Outcome) : Result Error unit :=
  let effects := outcome_effects outcome in
  let '(found_kind, count) :=
    match bt_get sequence (versions history) with Some entry => entry | None => (kind, 0) end in
  if negb (found_kind =? kind) || (count >? len effects)
  then Err (Error_Invalid "outcome does not describe every retained version at its sequence") else
  let* matched :=
    foldR (fun matched effect =>
      let* found := exact_effect view sequence effect (floor history) in
      Ok (if found : bool then matched + 1 else matched)) 0 effects in
  if negb (matched =? count) then Err (Error_Invalid "outcome omits a retained version") else Ok tt.

(** ** The loops of [validate] *)
Definition policy_event (checkpoint : Z) (state : History * list (Z * LimitPolicy)) (key value : bytes)
    : Result Error (History * list (Z * LimitPolicy)) :=
  let '(history, policies) := state in
  let* sequence := system_sequence key checkpoint true in
  let* policy := map_err Error_Storage (LimitPolicy_decode value) in
  let* history := if negb (sequence =? 0) then note_version history sequence 3 checkpoint else Ok history in
  Ok (history, bt_insert sequence policy policies).

Definition state_event (checkpoint : Z) (tables : list (Z * TableHistory)) (history : History) (key value : bytes)
    : Result Error History :=
  let* key := map_err Error_Storage (StateKey_decode key) in
  let* value := map_err Error_Storage (StateValue_decode value) in
  let* history := note_version history (state_sequence key) 1 checkpoint in
  let* table := live_table tables (state_table key) (state_sequence key) in
  let* _ := map_err Error_Storage (decode_key (key_schema table) (state_key key)) in
  let* _ :=
    match value with
    | Put value => map_err Error_Storage (validate_value (value_schema table) value)
    | StateDelete => Ok tt
    end in
  Ok history.

(** The checks of a transaction's outcome against the tables. *)
Definition check_effect (tables : list (Z * TableHistory)) (sequence : Z) (_ : unit) (effect : Effect) : Result Error unit :=
  let '(id, key) := effect_address effect in
  let* table := live_table tables id sequence in
  let* _ := map_err Error_Storage (decode_key (key_schema table) key) in
  match effect with
  | Effect_Put _ _ value => map_err Error_Storage (validate_value (value_schema table) value)
  | _ => Ok tt
  end.

Definition check_transaction (policies : list (Z * LimitPolicy)) (tables : list (Z * TableHistory)) (sequence : Z)
    (outcome : Outcome) : Result Error unit :=
  let* (_, policy) := expect (last (bt_range Unbounded (Excluded sequence) policies)) in
  let* _ := transaction_limits outcome policy in
  match outcome with
  | Success _ _ effects => foldR (check_effect tables sequence) tt effects
  | Aborted _ => Ok tt
  end.

(** The outcome at a key, from the next sequence that is required. *)
Definition outcome_event (view : View) (manifest : Manifest) (history : History) (policies : list (Z * LimitPolicy))
    (tables : list (Z * TableHistory)) (next : Z) (key value : bytes) : Result Error Z :=
  let* sequence := system_sequence key (manifest_checkpoint_sequence manifest) false in
  let* record := decode_outcome value in
  if negb (record_sequence record =? sequence) then Err (Error_Invalid "outcome sequence differs from tree key") else
  if (sequence =? manifest_checkpoint_sequence manifest) && negb (bool_decide (record_digest record = checkpoint_digest manifest))
  then Err (Error_Invalid "outcome checkpoint digest mismatch") else
  let* next :=
    if sequence >? history_floor manifest then
      if negb (sequence =? next) then Err (Error_Invalid "missing retained outcome") else arith_u64 (next + 1)
    else Ok next in
  let* _ :=
    if record_kind record =? 1 then check_transaction policies tables sequence (record_outcome record) else Ok tt in
  let* _ := exact_outcome view history sequence (record_kind record) (record_outcome record) in
  Ok next.

(** [validate] *)
Definition validate_checkpoint (view : View) (manifest : Manifest) (genesis : Genesis) : Result Error History :=
  let checkpoint := manifest_checkpoint_sequence manifest in
  let floor := history_floor manifest in
  if (floor >? checkpoint) || (checkpoint =? u64_max) then Err (Error_Invalid "invalid logical checkpoint bounds") else
  let* (history, tables) := catalogue_history view checkpoint {| versions := []; floor := floor |} in
  let* entries := map_err Error_Storage (storage_scan view Policy Unbounded Unbounded) in
  let* (history, policies) := for_entries (policy_event checkpoint) (history, []) entries in
  if negb (bool_decide (bt_get 0 policies = Some (initial_policy genesis)))
  then Err (Error_Invalid "initial policy differs from genesis") else
  let* entries := map_err Error_Storage (storage_scan view State Unbounded Unbounded) in
  let* history := for_entries (state_event checkpoint tables) history entries in
  let* next := arith_u64 (floor + 1) in
  let* entries := map_err Error_Storage (storage_scan view Outcomes Unbounded Unbounded) in
  let* next := for_entries (outcome_event view manifest history policies tables) next entries in
  let* required := arith_u64 (checkpoint + 1) in
  if negb (next =? required) then Err (Error_Invalid "missing retained outcome") else Ok history.

(** [validate_history] *)
Definition validate_history (view : View) (manifest : Manifest) (genesis : Genesis) : Result Error History :=
  map_err persisted (validate_checkpoint view manifest genesis).

(** ** Retained log records *)
Definition disagrees (expected : Outcome) (stored : option OutcomeRecord) : bool :=
  match stored with Some record => negb (bool_decide (record_outcome record = expected)) | None => false end.

Definition validate_catalogue_record (view : View) (history : History) (sequence : Z) (operation : CatalogueOperation)
    (stored : option OutcomeRecord) : Result Error unit :=
  let* expected := database_catalogue view sequence operation in
  if disagrees expected stored then Err (Error_Invalid "catalogue outcome disagrees with retained log") else
  exact_outcome view history sequence 2 expected.

Definition validate_limits_record (view : View) (history : History) (sequence : Z) (policy : LimitPolicy)
    (stored : option OutcomeRecord) : Result Error unit :=
  let expected := database_limits policy in
  if disagrees expected stored then Err (Error_Invalid "limits outcome disagrees with retained log") else
  exact_outcome view history sequence 3 expected.

(** The tables a program writes or deletes in. *)
Definition written_table (program : Program) (instruction : Instruction) : Result Error (option (Z * bool)) :=
  let written table delete := let* table := expect (prog_tables program !! table) in Ok (Some (table_id table, delete)) in
  match instruction with
  | Store table _ _ | Insert table _ _ => written table false
  | Delete table _ => written table true
  | _ => Ok None
  end.

Definition is_delete (effect : Effect) : bool := match effect with Effect_Delete _ _ => true | _ => false end.

Definition check_written (writes : list (Z * bool)) (_ : unit) (effect : Effect) : Result Error unit :=
  if bool_decide (((effect_address effect).1, is_delete effect) ∈ writes) then Ok tt
  else Err (Error_Invalid "outcome effect has no source write instruction").

(** Whether the instruction can abort so. *)
Definition abort_legal (instruction : Instruction) (abort : Abort) : bool :=
  match reason abort with
  | RequireFailed => match instruction with Require_ _ code => code =? user_code abort | _ => false end
  | ExplicitAbort => match instruction with Abort_ code => code =? user_code abort | _ => false end
  | MissingKey => match instruction with Load _ _ _ => true | _ => false end
  | KeyExists => match instruction with Insert _ _ _ => true | _ => false end
  | DivisionByZero => match instruction with Binary (Div | Rem) _ _ _ => true | _ => false end
  | InvalidShift => match instruction with Binary (Shl | Shr) _ _ _ => true | _ => false end
  | InvalidUtf8 => match instruction with Unary ParseUtf8 _ _ => true | _ => false end
  | IndexOutOfBounds =>
      match instruction with Slice _ _ _ _ | Binary (RowsKey | RowsValue) _ _ _ => true | _ => false end
  | IntegerOverflow =>
      match instruction with
      | Binary (Add | Sub | Mul | Div | Rem) _ _ _ | Unary (Neg | ToI64 | ToU64) _ _ => true
      | _ => false
      end
  | BoundExceeded | ResourceLimit => true
  | _ => false
  end.

Definition validate_transaction_outcome (view : View) (sequence : Z) (transaction : Transaction) (claims : LimitPolicy)
    (record : OutcomeRecord) : Result Error unit :=
  let* (_, program) :=
    prepare_program view sequence (transaction_program transaction) (transaction_arguments transaction) claims in
  let* _ := transaction_limits (record_outcome record) claims in
  match record_outcome record with
  | Success result _ effects =>
      if negb (bool_decide (result = result_type program))
      then Err (Error_Invalid "outcome result descriptor differs from source program") else
      let* writes := mapR (written_table program) (prog_instructions program) in
      foldR (check_written (omap id writes)) tt effects
  | Aborted abort =>
      let* instruction :=
        ok_or (Error_Invalid "outcome abort instruction is outside source program")
          (prog_instructions program !! Z.to_nat (instruction abort)) in
      if abort_legal instruction abort then Ok tt
      else Err (Error_Invalid "outcome abort fields disagree with source instruction")
  end.
End Validation.

(** ** Loops over the entries of a tree *)
Lemma for_entries_map {S} (f : S -> bytes -> bytes -> Result Error S) es : forall state,
  for_entries f state (map Ok es) = foldR (fun state e => f state e.1 e.2) state es.
Proof.
  unfold for_entries. induction es as [|[k v] es IH]; intros state; cbn [map foldR]; [done|].
  cbn [map_err bindR fst snd]. destruct (f state k v); cbn [bindR]; [apply IH|done..].
Qed.

Lemma foldR_app {E A S} (f : S -> A -> Result E S) l1 : forall l2 s,
  foldR f s (l1 ++ l2) = (let* s := foldR f s l1 in foldR f s l2).
Proof. induction l1 as [|x l1 IH]; intros l2 s; cbn [app foldR]; [done|]. destruct (f s x); cbn [bindR]; [apply IH|done..]. Qed.

(** An invariant of a loop, over the elements it has processed. *)
Lemma foldR_inv {E A S} (f : S -> A -> Result E S) (P : list A -> S -> Prop) l : forall done s s',
  P done s -> (forall before x s s', P before s -> f s x = Ok s' -> x ∈ l -> P (before ++ [x]) s') ->
  foldR f s l = Ok s' -> P (done ++ l) s'.
Proof.
  induction l as [|x l IH]; intros before s s' HP Hstep H; cbn [foldR] in H.
  - injection H as <-. by rewrite app_nil_r.
  - step_ok H as s1 eqn Hs1. rewrite cons_middle, app_assoc. eapply IH; [|intros; eapply Hstep; eauto; by right|exact H].
    eapply Hstep; [exact HP|exact Hs1|by left].
Qed.

(** ** Version counts *)
Definition noted (history : History) (sequence : Z) : Prop := is_Some (bt_get sequence (versions history)).

Record counted (history : History) : Prop := {
  counted_sorted : bt_sorted (versions history);
  counted_positive s kind count : bt_get s (versions history) = Some (kind, count) -> 1 <= count }.

Lemma Z_cmp_ne (a b : Z) : a <> b -> cmp a b <> Eq.
Proof. intros Hne E. by apply cmp_eq in E. Qed.

Lemma note_version_ok history sequence kind checkpoint history' :
  counted history -> 0 <= sequence -> note_version history sequence kind checkpoint = Ok history' ->
  0 < sequence <= checkpoint /\ (kind <> 1 -> ~ noted history sequence) /\ counted history' /\
  floor history' = floor history /\ (forall s, noted history' s <-> s = sequence \/ noted history s).
Proof.
  intros [Hs Hc] Hpos H. unfold note_version in H. step_ok H as u eqn Hid. apply valid_id_ok in Hid as [Hz Hm]. step_if H eqn Ecp.
  destruct (match bt_get sequence (versions history) with Some e => e | None => (kind, 0) end) as [pk count] eqn:Ee.
  step_if H eqn Ek. step_ok H as n eqn Hn. injection H as <-. apply ok_or_ok, checked_u64_Some in Hn as [-> Hn].
  assert (0 <= count) as Hcount.
  { destruct (bt_get sequence (versions history)) as [e|] eqn:Eg; [|by injection Ee as <- <-]. subst e. apply Hc in Eg. lia. }
  split; [blia|]. split; [|split; [split|split; [done|]]]; unfold noted; cbn [versions].
  - intros Hk [e Hget]. rewrite Hget in Ee. subst e. apply Hc in Hget. apply orb_false_iff in Ek as [_ Ek].
    rewrite (proj2 (Z.eqb_neq kind 1)), (proj2 (Z.eqb_neq count 0)) in Ek by (done || lia). done.
  - by apply bt_sorted_insert.
  - intros s k c. rewrite bt_get_insert by done. destruct (cmp s sequence); [intros [= <- <-]; lia|apply Hc..].
  - intros s. destruct (Z.eq_dec s sequence) as [->|Hne].
    + rewrite bt_get_insert_eq by done. split; [by left|by eexists].
    + rewrite bt_get_insert_ne by done. split; [by right|by intros [?|?]].
Qed.

(** ** Events of the catalogue *)

(** What the loop over the catalogue has collected from the entries [es]. *)
Record collected (checkpoint : Z) (es : list Entry) (state : History * list (Z * CatalogueVersion)) : Prop := {
  collected_counted : counted state.1;
  collected_sorted : bt_sorted state.2;
  collected_noted s : noted state.1 s <-> is_Some (bt_get s state.2);
  collected_upto : Forall (catalogue_upto checkpoint) es;
  collected_entry e id s v : e ∈ es -> decode_catalogue_key e.1 = Ok (id, s) -> decode_catalogue id e.2 = Ok v ->
    (s, v) ∈ state.2 /\ table_id (version_table v) = id;
  collected_event s v : (s, v) ∈ state.2 -> exists e id,
    e ∈ es /\ decode_catalogue_key e.1 = Ok (id, s) /\ decode_catalogue id e.2 = Ok v }.

Lemma collect_event checkpoint before e state state' :
  collected checkpoint before state -> catalogue_event checkpoint state e.1 e.2 = Ok state' ->
  collected checkpoint (before ++ [e]) state'.
Proof.
  destruct state as [history events]. intros [Hc Hs Hn Hup Hentry Hevent] H. cbn [fst snd] in *. unfold catalogue_event in H.
  step_ok H as [id s] eqn Hk. step_ok H as v eqn Hv. step_ok H as history' eqn Hnote. injection H as <-.
  pose proof Hk as (_ & Hid & Hlt)%decode_catalogue_key_iff.
  apply note_version_ok in Hnote as (Hb & Hfresh & Hc' & _ & Hn'); [|done|lia].
  assert (bt_get s events = None) as Hnone.
  { apply eq_None_not_Some. rewrite <-Hn. by apply Hfresh. }
  assert (table_id (version_table v) = id) as Hvid by (apply decode_catalogue_iff in Hv; tauto).
  split; cbn [fst snd].
  - done.
  - by apply bt_sorted_insert.
  - intros t. rewrite Hn', Hn. destruct (Z.eq_dec t s) as [->|Hne].
    + rewrite bt_get_insert_eq by done. split; [by eexists|by left].
    + rewrite bt_get_insert_ne by done. split; [by intros [?|?]|by right].
  - apply Forall_app. split; [done|]. constructor; [|done]. exists id, s, v. split; [done|]. split; [done|lia].
  - intros e' id' s' v' Hin Hk' Hv'. apply elem_of_app in Hin as [Hin|Hin%list_elem_of_singleton].
    + destruct (Hentry _ _ _ _ Hin Hk' Hv') as [He' Hid']. split; [|done].
      apply bt_get_elem. rewrite bt_get_insert_ne; [by apply bt_elem_get|done|]. intros ->.
      apply (bt_elem_get _ _ _ Hs) in He'. congruence.
    + subst e'. rewrite Hk in Hk'. injection Hk' as <- <-. rewrite Hv in Hv'. injection Hv' as <-. split; [|done].
      apply bt_get_elem. by apply bt_get_insert_eq.
  - intros t w [[= -> ->]|Hin]%elem_of_bt_insert.
    + exists e, id. split; [|done]. apply elem_of_app. right. by apply list_elem_of_singleton.
    + destruct (Hevent t w Hin) as (e' & id' & He' & ?). exists e', id'. split; [|done]. apply elem_of_app. by left.
Qed.

(** ** Lifetimes of tables *)

(** [v] is the newest version of the table [id] among the events. *)
Definition newest (events : list (Z * CatalogueVersion)) (id s : Z) (v : CatalogueVersion) : Prop :=
  (s, v) ∈ events /\ table_id (version_table v) = id /\
  forall s' v', (s', v') ∈ events -> table_id (version_table v') = id -> s' <= s.

(** What is known after the events. *)
Record lived (events : list (Z * CatalogueVersion)) (state : Lifetimes) : Prop := {
  lived_tables_sorted : bt_sorted state.1;
  lived_names_sorted : bt_sorted state.2;
  lived_table id th : bt_get id state.1 = Some th ->
    (exists s, newest events id s (latest_version th)) /\
    type_schema (table_key (version_table (latest_version th))) = Ok (key_schema th) /\
    type_schema (table_value (version_table (latest_version th))) = Ok (value_schema th);
  lived_event s v : (s, v) ∈ events -> exists th,
    bt_get (table_id (version_table v)) state.1 = Some th /\ version_table (latest_version th) = version_table v;
  lived_name n id : bt_get n state.2 = Some id <->
    exists th, bt_get id state.1 = Some th /\ live (latest_version th) = true /\ name (latest_version th) = n }.

Lemma lived_nil : lived [] ([], []).
Proof.
  split; cbn [fst snd]; [constructor|constructor|done| |].
  - by intros s v ?%elem_of_nil.
  - intros n id. split; [done|]. by intros (th & ? & _).
Qed.

(** A table as it was before the event. *)
Lemma newest_snoc_other events id s v s0 v0 :
  newest events id s v -> table_id (version_table v0) <> id -> newest (events ++ [(s0, v0)]) id s v.
Proof.
  intros (Hin & Hid & Hmax) Hne. split; [apply elem_of_app; by left|]. split; [done|].
  intros s' v' [Hin'|E%list_elem_of_singleton]%elem_of_app Hid'; [by eapply Hmax|]. injection E as -> ->. congruence.
Qed.
Lemma newest_snoc events s0 v0 :
  (forall s v, (s, v) ∈ events -> s < s0) -> newest (events ++ [(s0, v0)]) (table_id (version_table v0)) s0 v0.
Proof.
  intros Hlt. split; [apply elem_of_app; right; by apply list_elem_of_singleton|]. split; [done|].
  intros s' v' [Hin'|E%list_elem_of_singleton]%elem_of_app _; [apply Hlt in Hin'; lia|]. injection E as -> ->. lia.
Qed.

(** The names of the live tables other than [id]. *)
Definition names_except (id : Z) (tables : list (Z * TableHistory)) (names : list (bytes * Z)) : Prop :=
  forall n id', bt_get n names = Some id' <->
    id' <> id /\ exists th, bt_get id' tables = Some th /\ live (latest_version th) = true /\ name (latest_version th) = n.

(** A table after an event of its own. *)
Definition retabled (s0 : Z) (v0 : CatalogueVersion) (tables tables' : list (Z * TableHistory)) : Prop :=
  exists th, tables' = bt_insert (table_id (version_table v0)) th tables /\ latest_version th = v0 /\
    type_schema (table_key (version_table v0)) = Ok (key_schema th) /\
    type_schema (table_value (version_table v0)) = Ok (value_schema th).

Lemma table_event_ok events state s0 v0 tables' names' :
  lived events state -> table_event state s0 v0 = Ok (tables', names') ->
  retabled s0 v0 state.1 tables' /\ bt_sorted names' /\ names_except (table_id (version_table v0)) state.1 names' /\
  (forall th, bt_get (table_id (version_table v0)) state.1 = Some th -> version_table (latest_version th) = version_table v0).
Proof.
  destruct state as [tables names]. intros [Ht Hn Htable _ Hname] H. cbn [fst snd] in *. unfold table_event in H. cbv zeta in H.
  destruct (bt_get (table_id (version_table v0)) tables) as [previous|] eqn:Eg.
  - step_if H eqn E. injection H as <- <-. apply orb_false_iff in E as [E _]. apply orb_false_iff in E as [El Et].
    apply negb_false_iff in El. apply negb_false_iff, bool_decide_eq_true in Et.
    destruct (Htable _ _ Eg) as (_ & Hk & Hv). rewrite Et in Hk, Hv.
    split; [eexists; split; [done|]; by cbn|]. split; [by apply bt_sorted_remove|]. split; [|by intros th [= <-]].
    assert (bt_get (name (latest_version previous)) names = Some (table_id (version_table v0))) as Hprev by (apply Hname; by exists previous).
    intros n id'. destruct (decide (n = name (latest_version previous))) as [->|Hne].
    + rewrite bt_get_remove by done. split; [done|]. intros [Hid Hth]. apply Hname in Hth. congruence.
    + rewrite bt_get_remove_ne by done. rewrite Hname. split; [|tauto]. intros (th & Hth & Hl & Hnm). split; [|by exists th].
      intros ->. rewrite Eg in Hth. injection Hth as <-. by destruct Hne.
  - step_if H eqn E. step_ok H as key eqn Hk. step_ok H as value eqn Hv. injection H as <- <-.
    split; [eexists; split; [done|]; by cbn|]. split; [done|]. split; [|done]. intros n id'. rewrite Hname.
    split; [|tauto]. intros (th & Hth & Hx). split; [congruence|by exists th].
Qed.

Lemma lived_step events state s0 v0 state' :
  lived events state -> (forall s v, (s, v) ∈ events -> s < s0) -> lifetime_event state (s0, v0) = Ok state' ->
  lived (events ++ [(s0, v0)]) state'.
Proof.
  intros HL Hlt H. unfold lifetime_event in H. step_ok H as [tables1 names1] eqn Hte.
  destruct (table_event_ok _ _ _ _ _ _ HL Hte) as ((th & -> & Hlatest & Hks & Hvs) & Hsorted & Hexcept & Hsame).
  destruct HL as [Ht Hn Htable Hevent Hname]. destruct state as [tables names]. cbn [fst snd] in *.
  set (id := table_id (version_table v0)) in *. unfold names_except in Hexcept.
  assert (exists names', state' = (bt_insert id th tables, names') /\ bt_sorted names' /\
    forall n id', bt_get n names' = Some id' <->
      exists th', bt_get id' (bt_insert id th tables) = Some th' /\ live (latest_version th') = true /\ name (latest_version th') = n)
    as (names' & -> & Hsorted' & Hnames').
  { destruct (live v0) eqn:El.
    - destruct (bt_get (name v0) names1) eqn:Enew; [done|]. injection H as <-. eexists. split; [done|].
      split; [by apply bt_sorted_insert|]. intros n id'. destruct (decide (n = name v0)) as [->|Hne].
      + rewrite bt_get_insert_eq by done. split.
        * intros [= <-]. exists th. rewrite bt_get_insert_eq, Hlatest by done. done.
        * intros (th' & Hth' & Hl & Hnm). destruct (Z.eq_dec id' id) as [->|Hid]; [done|].
          rewrite bt_get_insert_ne in Hth' by done. assert (bt_get (name v0) names1 = Some id') by (apply Hexcept; eauto). congruence.
      + rewrite bt_get_insert_ne by done. rewrite Hexcept. split.
        * intros (Hid & th' & Hth' & Hx). exists th'. by rewrite bt_get_insert_ne by done.
        * intros (th' & Hth' & Hl & Hnm). destruct (Z.eq_dec id' id) as [->|Hid].
          -- rewrite bt_get_insert_eq in Hth' by done. injection Hth' as <-. rewrite Hlatest in Hnm. by destruct Hne.
          -- rewrite bt_get_insert_ne in Hth' by done. eauto.
    - injection H as <-. eexists. split; [done|]. split; [done|]. intros n id'. rewrite Hexcept. split.
      + intros (Hid & th' & Hth' & Hx). exists th'. by rewrite bt_get_insert_ne by done.
      + intros (th' & Hth' & Hl & Hnm). destruct (Z.eq_dec id' id) as [->|Hid].
        * rewrite bt_get_insert_eq in Hth' by done. injection Hth' as <-. rewrite Hlatest in Hl. congruence.
        * rewrite bt_get_insert_ne in Hth' by done. eauto. }
  split; cbn [fst snd]; [by apply bt_sorted_insert|done| | |done].
  - intros id' th' Hth'. destruct (Z.eq_dec id' id) as [->|Hid].
    + rewrite bt_get_insert_eq in Hth' by done. injection Hth' as <-. rewrite Hlatest. split; [|done]. exists s0. by apply newest_snoc.
    + rewrite bt_get_insert_ne in Hth' by done. destruct (Htable _ _ Hth') as [(s & Hs) Hx]. split; [|done]. exists s.
      apply newest_snoc_other; [done|]. fold id. congruence.
  - intros s v [Hin|E%list_elem_of_singleton]%elem_of_app.
    + destruct (Hevent s v Hin) as (th' & Hth' & Hv). destruct (Z.eq_dec (table_id (version_table v)) id) as [E|Hid].
      * rewrite E in Hth' |- *. exists th. rewrite bt_get_insert_eq by done. split; [done|]. rewrite Hlatest, <-Hv. symmetry. by apply Hsame.
      * exists th'. by rewrite bt_get_insert_ne by done.
    + injection E as -> ->. exists th. fold id. rewrite bt_get_insert_eq, Hlatest by done. done.
Qed.

Lemma lived_events events : forall before state state',
  bt_sorted (before ++ events) -> lived before state -> foldR lifetime_event state events = Ok state' ->
  lived (before ++ events) state'.
Proof.
  induction events as [|[s v] events IH]; intros before state state' Hs HL H; cbn [foldR] in H.
  - injection H as <-. by rewrite app_nil_r.
  - step_ok H as s1 eqn Hs1. rewrite cons_middle, app_assoc in Hs |- *. eapply IH; [done| |exact H].
    eapply lived_step; [done| |exact Hs1]. intros s' v' Hin. rewrite <-app_assoc in Hs. clear -Hs Hin.
    assert (key_lt (s', v') (s, v)) as Hlt by (apply (StronglySorted_app_1_elem_of _ _ _ _ _ Hs); [done|by left]).
    unfold key_lt, cmp, Z_cmp in Hlt. by apply Z.compare_lt_iff.
Qed.

(** The events up to a sequence come first. *)
Lemma events_split (events : list (Z * CatalogueVersion)) s :
  bt_sorted events -> exists before after, events = before ++ after /\
    Forall (fun e => e.1 <= s) before /\ Forall (fun e => s < e.1) after.
Proof.
  induction 1 as [|[t v] events _ IH Hf]; [by exists [], []|]. destruct (Z.le_gt_cases t s).
  - destruct IH as (b & a & -> & Hb & Ha). exists ((t, v) :: b), a. split; [done|]. split; [by constructor|done].
  - exists [], ((t, v) :: events). split; [done|]. split; [done|]. constructor; [done|].
    eapply Forall_impl; [exact Hf|]. intros [t' v'] Hlt. unfold key_lt, cmp, Z_cmp in Hlt. simpl in *. rewrite Z.compare_lt_iff in Hlt. lia.
Qed.

Lemma latest_None {A} (vs : list (Z * A)) : latest vs = None -> vs = [].
Proof. destruct vs as [|v vs]; [done|]. cbn [latest]. by destruct (latest vs) as [z|]; [destruct (v.1 <? z.1)|]. Qed.

Lemma latest_max {A} (vs : list (Z * A)) w : latest vs = Some w -> Forall (fun v => v.1 <= w.1) vs.
Proof.
  revert w. induction vs as [|v vs IH]; intros w H; cbn [latest] in H; [done|]. destruct (latest vs) as [x|] eqn:E.
  - specialize (IH x eq_refl). destruct (Z.ltb_spec v.1 x.1); injection H as <-; constructor; try lia; [exact IH|].
    eapply Forall_impl; [exact IH|]. intros y Hy. cbv beta in *. lia.
  - injection H as <-. apply latest_None in E as ->. by constructor.
Qed.

Section Lifetimes.
Context (checkpoint : Z) (es : list Entry) (history : History) (events : list (Z * CatalogueVersion)).
Context (Hcollected : collected checkpoint es (history, events)).

(** A version the catalogue shows is the newest of the events up to then. *)
Lemma table_at_newest id s v before after :
  events = before ++ after -> Forall (fun e => e.1 <= s) before -> Forall (fun e => s < e.1) after ->
  table_at es id s = Some v -> exists t, newest before id t v.
Proof.
  intros -> Hb Ha. unfold table_at. destruct (latest _) as [[t w]|] eqn:El; [|done]. intros [= <-]. exists t.
  pose proof (latest_max _ _ El) as Hmax. apply latest_elem, list_elem_of_omap in El as (e & He & Hw).
  assert (forall e t w, e ∈ es -> table_version_at id s e = Some (t, w) -> (t, w) ∈ before /\ table_id (version_table w) = id) as Hin.
  { clear -Hcollected Hb Ha. intros e t w He Hw. unfold table_version_at in Hw.
    destruct (decode_catalogue_key e.1) as [[a u]| |] eqn:Ek; try done. destruct (Z.eqb_spec a id) as [->|]; [|done].
    destruct (Z.leb_spec u s); [|done]. simpl in Hw. destruct (decode_catalogue id e.2) as [x| |] eqn:Ed; try done. injection Hw as -> ->.
    destruct (collected_entry _ _ _ Hcollected _ _ _ _ He Ek Ed) as [Hin Hid]. split; [|done].
    apply elem_of_app in Hin as [Hin|Hin]; [done|]. rewrite Forall_forall in Ha. apply Ha in Hin. simpl in Hin. lia. }
  destruct (Hin _ _ _ He Hw) as [Htw Hid]. split; [done|]. split; [done|]. intros t' w' Ht' Hid'.
  destruct (collected_event _ _ _ Hcollected t' w') as (e' & id' & He' & Hk' & Hd'); [apply elem_of_app; by left|].
  destruct (collected_entry _ _ _ Hcollected _ _ _ _ He' Hk' Hd') as [_ E]. rewrite E in Hid'. subst id'.
  rewrite Forall_forall in Hmax, Hb. specialize (Hb _ Ht'). simpl in Hb. specialize (Hmax (t', w')). apply Hmax.
  apply list_elem_of_omap. exists e'. split; [done|]. unfold table_version_at. rewrite Hk', Z.eqb_refl, (proj2 (Z.leb_le _ _)) by done.
  simpl. by rewrite Hd'.
Qed.

(** At the sequence of an event the catalogue shows it. *)
Lemma table_at_event t v : (t, v) ∈ events -> table_at es (table_id (version_table v)) t = Some v.
Proof.
  intros Hin. pose proof (collected_sorted _ _ _ Hcollected) as Hs. cbn [snd] in Hs.
  destruct (events_split events t Hs) as (before & after & E & Hb & Ha).
  destruct (collected_event _ _ _ Hcollected t v Hin) as (e & id & He & Hk & Hd).
  destruct (collected_entry _ _ _ Hcollected _ _ _ _ He Hk Hd) as [_ Hid]. rewrite Hid.
  destruct (table_at es id t) as [w|] eqn:Et.
  - destruct (table_at_newest _ _ _ _ _ E Hb Ha Et) as (u & Hu & _ & Hmax). f_equal.
    assert ((t, v) ∈ before) as Htv.
    { rewrite E in Hin. apply elem_of_app in Hin as [?|Hin]; [done|]. rewrite Forall_forall in Ha. apply Ha in Hin. simpl in Hin. lia. }
    pose proof (Hmax _ _ Htv Hid). rewrite Forall_forall in Hb. pose proof (Hb _ Hu) as Hut. simpl in Hut. assert (u = t) as -> by lia.
    assert ((t, w) ∈ events) as Hw by (rewrite E; apply elem_of_app; by left).
    apply (bt_elem_get _ _ _ Hs) in Hw, Hin. congruence.
  - exfalso. unfold table_at in Et. destruct (latest _) as [[? ?]|] eqn:El; [done|].
    assert ((t, v) ∈ omap (table_version_at id t) es) as Hx.
    { apply list_elem_of_omap. exists e. split; [done|]. unfold table_version_at. rewrite Hk, Z.eqb_refl, Z.leb_refl. simpl. by rewrite Hd. }
    apply latest_None in El. rewrite El in Hx. by apply elem_of_nil in Hx.
Qed.

Context (tables : list (Z * TableHistory)) (names : list (bytes * Z)).
Context (Hfold : foldR lifetime_event ([], []) events = Ok (tables, names)).

Lemma lived_final : lived events (tables, names).
Proof.
  apply (lived_events events [] ([], [])); [|by apply lived_nil|done]. apply (collected_sorted _ _ _ Hcollected).
Qed.

Lemma catalogue_typed_tables s1 s2 id v1 v2 :
  table_at es id s1 = Some v1 -> table_at es id s2 = Some v2 -> version_table v1 = version_table v2.
Proof.
  assert (forall s v, table_at es id s = Some v -> exists th, bt_get id tables = Some th /\ version_table (latest_version th) = version_table v) as Hth.
  { intros s v (e & t & He & Hk & Hd & _)%table_at_elem. destruct (collected_entry _ _ _ Hcollected _ _ _ _ He Hk Hd) as [Hin Hid].
    destruct (lived_event _ _ lived_final _ _ Hin) as (th & Hg & Hv). rewrite Hid in Hg. by exists th. }
  intros (th1 & G1 & <-)%Hth (th2 & G2 & <-)%Hth. congruence.
Qed.

Lemma catalogue_typed_names s id1 id2 v1 v2 :
  table_at es id1 s = Some v1 -> table_at es id2 s = Some v2 ->
  live v1 = true -> live v2 = true -> name v1 = name v2 -> id1 = id2.
Proof.
  intros H1 H2 L1 L2 Hn. destruct (events_split events s (collected_sorted _ _ _ Hcollected)) as (before & after & E & Hb & Ha).
  rewrite E, foldR_app in Hfold. step_ok Hfold as [tables1 names1] eqn Hf1.
  assert (lived before (tables1, names1)) as HL.
  { apply (lived_events before [] ([], [])); [|by apply lived_nil|done]. pose proof (collected_sorted _ _ _ Hcollected) as Hs.
    cbn [snd] in Hs. rewrite E in Hs. by apply StronglySorted_app in Hs as (_ & ? & _). }
  assert (forall id v, table_at es id s = Some v -> live v = true -> bt_get (name v) names1 = Some id) as Hname.
  { intros id v Ht Hl. destruct (table_at_newest _ _ _ _ _ E Hb Ha Ht) as (t & Hin & Hid & Hmax).
    destruct (lived_event _ _ HL t v Hin) as (th & Hg & _). cbn [fst] in Hg. rewrite Hid in Hg.
    destruct (lived_table _ _ HL id th Hg) as [(t' & Hin' & Hid' & Hmax') _].
    pose proof (Hmax _ _ Hin' Hid'). pose proof (Hmax' _ _ Hin Hid). assert (t' = t) as -> by lia.
    pose proof (collected_sorted _ _ _ Hcollected) as Hs. cbn [snd] in Hs. assert (latest_version th = v) as Ev.
    { assert ((t, latest_version th) ∈ events /\ (t, v) ∈ events) as [A B] by (rewrite E; split; apply elem_of_app; by left).
      apply (bt_elem_get _ _ _ Hs) in A, B. congruence. }
    apply (lived_name _ _ HL). exists th. by rewrite Ev. }
  pose proof (Hname _ _ H1 L1) as N1. pose proof (Hname _ _ H2 L2) as N2. congruence.
Qed.
End Lifetimes.

(** ** Rows *)
Lemma type_schema_ok ty schema :
  type_schema ty = Ok schema -> valid_type 1 ty = true -> (exists d, decode d = Ok ty) ->
  exists node d, node_of ty = Some node /\ schema = schema_for ty node d.
Proof.
  unfold type_schema. intros H Hv [d0 Hd0]. step_ok H as d eqn Hd. apply map_err_ok, Schema_decode_iff in H as (ty' & node & Hd' & Hn & ->).
  apply decode_descriptor_iff in Hd0 as (Hdesc & _ & Hl). rewrite Hd in Hdesc. injection Hdesc as ->.
  assert (decode d0 = Ok ty) as Hdec by by apply decode_descriptor_iff. rewrite Hdec in Hd'. injection Hd' as <-. by exists node, d0.
Qed.

Section Rows.
Context (checkpoint : Z) (es : list Entry) (history0 : History) (events : list (Z * CatalogueVersion)).
Context (Hcollected : collected checkpoint es (history0, events)).
Context (tables : list (Z * TableHistory)) (names : list (bytes * Z)).
Context (Hfold : foldR lifetime_event ([], []) events = Ok (tables, names)).

(** A row written in the lifetime of a table is typed by a version of it. *)
Lemma live_table_typed id s th :
  live_table tables id s = Ok th ->
  exists t v, table_at es id t = Some v /\
    (forall key value, decode_key (key_schema th) key = Ok value -> key_ok (version_table v) key) /\
    (forall value, validate_value (value_schema th) value = Ok tt -> value_ok (version_table v) value).
Proof.
  unfold live_table. intros H. step_ok H as th' eqn Hg. step_if H eqn E. injection H as ->. apply ok_or_ok in Hg.
  pose proof (lived_final _ _ _ _ Hcollected _ _ Hfold) as HL.
  destruct (lived_table _ _ HL id th Hg) as [(t & Hin & Hid & _) [Hk Hv]].
  exists t, (latest_version th). split; [rewrite <-Hid; by eapply table_at_event|].
  destruct (collected_event _ _ _ Hcollected _ _ Hin) as (e & id' & _ & Hkey & Hd).
  pose proof (collected_entry _ _ _ Hcollected) as _. apply decode_catalogue_key_iff in Hkey as (_ & Hb & Hu).
  destruct (decode_catalogue_table id' e.2 _ Hd) as [Hwf _]; [lia|]. pose proof Hwf as (_ & (dk & sk & Dk & _ & _) & (dv & sv & Dv & _)).
  apply type_schema_ok in Hk as (nk & bk & Nk & ->); [|by eapply decode_valid|by exists dk].
  apply type_schema_ok in Hv as (nv & bv & Nv & ->); [|by eapply decode_valid|by exists dv].
  split.
  - intros key value H. pose proof (decode_key_ceiling _ _ _ H) as Hc. cbn in Hc.
    apply decode_key_iff in H as (v & _ & Ha & Hw & ->); [by exists v|by eapply decode_valid|done|done].
  - intros value H. apply validate_value_iff in H; [done|by eapply decode_valid|done].
Qed.

(** What the loop over the state tree has established of the entries [es']. *)
Definition row_ok (e : Entry) : Prop :=
  state_upto checkpoint e /\
  forall k value, StateKey_decode e.1 = Ok k -> value_payload e.2 = Ok (Some value) ->
    exists t v, table_at es (state_table k) t = Some v /\ key_ok (version_table v) (state_key k) /\ value_ok (version_table v) value.

Lemma state_event_ok history e history' :
  counted history -> state_event checkpoint tables history e.1 e.2 = Ok history' -> counted history' /\ row_ok e.
Proof.
  intros Hc H. unfold state_event in H. step_ok H as k eqn Hk. step_ok H as value eqn Hv. step_ok H as h1 eqn Hn.
  step_ok H as th eqn Hth. step_ok H as canonical eqn Hkey. step_ok H as [] eqn Hval. injection H as <-.
  apply map_err_ok in Hk, Hv, Hkey. pose proof Hk as (_ & Hwf)%StateKey_decode_iff.
  assert (0 <= state_sequence k) as Hpos by (destruct Hwf; lia).
  apply note_version_ok in Hn as ([Hs Hle] & _ & Hc' & _ & _); [|done|done]. split; [done|].
  unfold StateValue_decode in Hv. step_ok Hv as payload eqn Hp. injection Hv as <-. split.
  - exists k, payload. done.
  - intros k' data Hk' Hp'. rewrite Hk in Hk'. injection Hk' as <-. rewrite Hp in Hp'. injection Hp' as ->.
    destruct (live_table_typed _ _ _ Hth) as (t & v & Ht & Hkk & Hvv). exists t, v. split; [done|].
    apply map_err_ok in Hval. split; [by eapply Hkk|by apply Hvv].
Qed.
End Rows.

(** ** Policies and outcomes *)
Lemma system_sequence_ok key checkpoint genesis s :
  system_sequence key checkpoint genesis = Ok s ->
  key = be_bytes 8 s /\ 0 <= s < u64_max /\ s <= checkpoint /\ (genesis = false -> 0 < s) /\ len key = 8 /\ from_be key = s.
Proof.
  unfold system_sequence. intros H. step_if H eqn El. cbv zeta in H. step_if H eqn E. injection H as <-.
  apply negb_false_iff, Z.eqb_eq in El. apply orb_false_iff in E as [E E3]. apply orb_false_iff in E as [E1 E2].
  pose proof (from_be_range key) as Hr. rewrite El in Hr. change (256 ^ 8) with (u64_max + 1) in Hr.
  assert (key = be_bytes 8 (from_be key)) as Hk by (symmetry; apply be_bytes_from_be; unfold len in El; lia).
  split; [done|]. split; [blia|]. split; [blia|]. split; [|done]. intros ->. simpl in E3. blia.
Qed.

Record policies_read (checkpoint : Z) (es : list Entry) (state : History * list (Z * LimitPolicy)) : Prop := {
  read_counted : counted state.1;
  read_sorted : bt_sorted state.2;
  read_upto : Forall (policy_upto checkpoint) es;
  read_policy s p : bt_get s state.2 = Some p -> exists data, (be_bytes 8 s, data) ∈ es /\ LimitPolicy_decode data = Ok p }.

Lemma policy_event_ok checkpoint before e state state' :
  policies_read checkpoint before state -> policy_event checkpoint state e.1 e.2 = Ok state' ->
  policies_read checkpoint (before ++ [e]) state'.
Proof.
  destruct state as [history policies]. intros [Hc Hs Hup Hp] H. cbn [fst snd] in *. unfold policy_event in H.
  step_ok H as s eqn Hseq. step_ok H as policy eqn Hd. step_ok H as history' eqn Hn. injection H as <-.
  apply system_sequence_ok in Hseq as (Hk & Hb & Hle & _ & Hl & Hf). apply map_err_ok in Hd.
  split; cbn [fst snd].
  - destruct (negb (s =? 0)); [|by injection Hn as <-]. by apply note_version_ok in Hn as (_ & _ & ? & _); [|done|lia].
  - by apply bt_sorted_insert.
  - apply Forall_app. split; [done|]. constructor; [|done]. split; [split; [done|by exists policy]|lia].
  - intros t p Hg. destruct (Z.eq_dec t s) as [->|Hne].
    + rewrite bt_get_insert_eq in Hg by done. injection Hg as <-. exists e.2. split; [|done].
      apply elem_of_app. right. apply list_elem_of_singleton. rewrite <-Hk. by destruct e.
    + rewrite bt_get_insert_ne in Hg by done. destruct (Hp t p Hg) as (data & Hin & Hd'). exists data. split; [|done]. apply elem_of_app. by left.
Qed.

Record outcomes_read (floor checkpoint : Z) (es : list Entry) (next : Z) : Prop := {
  outcomes_next : floor < next;
  outcomes_upto : Forall (outcome_upto checkpoint) es;
  outcomes_complete s : floor < s < next -> exists data, (be_bytes 8 s, data) ∈ es }.

Section Outcomes.
Context `{Storage View Cell} (view : View) (manifest : Manifest) (history : History)
  (policies : list (Z * LimitPolicy)) (tables : list (Z * TableHistory)).

Lemma outcome_event_ok before e next next' :
  outcomes_read (history_floor manifest) (manifest_checkpoint_sequence manifest) before next ->
  outcome_event view manifest history policies tables next e.1 e.2 = Ok next' ->
  outcomes_read (history_floor manifest) (manifest_checkpoint_sequence manifest) (before ++ [e]) next'.
Proof.
  intros [Hn Hup Hc] H1. unfold outcome_event in H1. step_ok H1 as s eqn Hseq. step_ok H1 as r eqn Hr. step_if H1 eqn Es.
  step_if H1 eqn Ed. step_ok H1 as n eqn Hnext. step_ok H1 as u eqn Hu. step_ok H1 as w eqn Hw. injection H1 as <-.
  apply system_sequence_ok in Hseq as (Hk & Hb & Hle & Hpos & _). specialize (Hpos eq_refl). apply negb_false_iff, Z.eqb_eq in Es.
  assert (Forall (outcome_upto (manifest_checkpoint_sequence manifest)) (before ++ [e])) as Hup'.
  { apply Forall_app. split; [done|]. constructor; [|done]. exists s, r. split; [done|]. split; [lia|done]. }
  assert (forall t, history_floor manifest < t < next -> exists data, (be_bytes 8 t, data) ∈ before ++ [e]) as Hold.
  { intros t Ht. destruct (Hc t Ht) as [data Hin]. exists data. apply elem_of_app. by left. }
  destruct (Z.gtb_spec s (history_floor manifest)) as [Hgt|]; [|by injection Hnext as <-].
  step_if Hnext eqn Ene. apply negb_false_iff, Z.eqb_eq in Ene as <-. apply arith_u64_inv in Hnext as [-> _].
  split; [lia|done|]. intros t Ht. destruct (Z.eq_dec t s) as [->|]; [|apply Hold; lia].
  exists e.2. apply elem_of_app. right. apply list_elem_of_singleton. rewrite <-Hk. by destruct e.
Qed.
End Outcomes.

(** The policy at the first sequence. *)
Lemma policy_at_genesis es policy data :
  bt_sorted es -> Forall policy_entry es -> Forall (fun e => 0 <= from_be e.1) es ->
  (be_bytes 8 0, data) ∈ es -> LimitPolicy_decode data = Ok policy -> policy_at es 0 = Some policy.
Proof.
  intros Hs Hp Hpos Hin Hd. rewrite Forall_forall in Hp. rewrite Forall_forall in Hpos.
  assert (from_be (be_bytes 8 0) = 0) as E0 by done. unfold policy_at. destruct (latest _) as [[t w]|] eqn:El.
  - apply latest_elem, list_elem_of_omap in El as (e & He & Hw). unfold policy_version_at in Hw.
    destruct (Z.leb_spec (from_be e.1) 0); [|done]. specialize (Hpos _ He). destruct (policy_key e (Hp _ He)) as (s & _ & Ek & Es).
    assert (s = 0) as -> by lia. destruct e as [k d]. cbn [fst snd] in *. subst k.
    apply (bt_elem_get _ _ _ Hs) in He, Hin. rewrite He in Hin. injection Hin as ->. rewrite Hd in Hw. by injection Hw as _ <-.
  - apply latest_None in El. assert ((0, policy) ∈ omap (policy_version_at 0) es) as Hx; [|rewrite El in Hx; by apply elem_of_nil in Hx].
    apply list_elem_of_omap. eexists. split; [exact Hin|]. unfold policy_version_at. cbn [fst snd]. by rewrite E0, Z.leb_refl, Hd.
Qed.

(** ** The checkpoint is a well-typed database *)
Lemma collected_nil checkpoint history : counted history -> (forall s, ~ noted history s) -> collected checkpoint [] (history, []).
Proof.
  intros Hc Hn. split; cbn [fst snd]; [done|constructor| |constructor| |].
  - intros s. split; [by intros ?%Hn|by intros [? ?]].
  - by intros e id s v ?%elem_of_nil.
  - by intros s v ?%elem_of_nil.
Qed.

Section Sound.
Context `{Storage View Cell} (view : View) (contents : Contents) (Hview : Represents view contents).
Context (manifest : Manifest) (genesis : Genesis).
Notation checkpoint := (manifest_checkpoint_sequence manifest).
Notation floor := (history_floor manifest).

Lemma scan_all tree : storage_scan view tree Unbounded Unbounded = Ok (map Ok (contents tree)).
Proof.
  rewrite (scan_contents _ _ Hview) by done. do 2 f_equal. unfold bt_range. induction (contents tree) as [|e es IH]; [done|].
  simpl. by rewrite IH.
Qed.

Lemma catalogue_history_ok history0 history tables :
  counted history0 -> (forall s, ~ noted history0 s) -> catalogue_history view checkpoint history0 = Ok (history, tables) ->
  exists events names, collected checkpoint (contents Catalogue) (history, events) /\
    foldR lifetime_event ([], []) events = Ok (tables, names).
Proof.
  intros Hc Hn H1. unfold catalogue_history in H1. rewrite scan_all in H1. cbn [map_err bindR] in H1.
  step_ok H1 as [h events] eqn Hev. step_ok H1 as [ts names] eqn Hf. injection H1 as <- <-. rewrite for_entries_map in Hev.
  exists events, names. split; [|done].
  eapply (foldR_inv _ (collected checkpoint) (contents Catalogue) []); [by apply collected_nil| |exact Hev].
  intros. by eapply collect_event.
Qed.

Lemma validate_checkpoint_world history :
  0 <= floor -> validate_checkpoint view manifest genesis = Ok history ->
  world contents floor checkpoint /\ policy_at (contents Policy) 0 = Some (initial_policy genesis).
Proof.
  intros Hfloor H1. unfold validate_checkpoint in H1. cbv zeta in H1. step_if H1 eqn Eb. apply orb_false_iff in Eb as [E1 E2].
  step_ok H1 as [h1 tables] eqn Hcat. rewrite !scan_all in H1. cbn [map_err bindR] in H1.
  apply catalogue_history_ok in Hcat as (events & names & Hcol & Hfold); [|by split; [constructor|]|by intros s [? ?]].
  step_ok H1 as [h2 policies] eqn Hpol. step_if H1 eqn Egen. step_ok H1 as h3 eqn Hst. step_ok H1 as n0 eqn Hn0.
  step_ok H1 as n1 eqn Hout. step_ok H1 as required eqn Hreq. step_if H1 eqn En. rewrite for_entries_map in Hpol.
  rewrite for_entries_map in Hst. rewrite for_entries_map in Hout.
  apply negb_false_iff, bool_decide_eq_true in Egen. apply negb_false_iff, Z.eqb_eq in En as ->.
  apply arith_u64_inv in Hn0 as [-> _], Hreq as [-> Hr].
  eapply (foldR_inv _ (policies_read checkpoint) (contents Policy) []) in Hpol as [Hc2 _ Hup2 Hp2]; cbn [fst snd app] in *;
    [| |intros; by eapply policy_event_ok].
  2: { split; cbn [fst snd]; [apply Hcol|constructor|constructor|done]. }
  eapply (foldR_inv _ (fun es h => counted h /\ Forall (row_ok checkpoint (contents Catalogue)) es) (contents State) []) in Hst as [_ Hrows];
    [|by split; [|constructor]|].
  2: { intros before e h h' [Hc Hf] He _. eapply state_event_ok in He as [Hc' Hrow]; [|exact Hcol|exact Hfold|exact Hc].
       split; [done|]. apply Forall_app. by split; [|constructor]. }
  eapply (foldR_inv _ (outcomes_read floor checkpoint) (contents Outcomes) []) in Hout as [_ Hup4 Hcomplete];
    [|by split; [lia|constructor|lia]|intros; by eapply outcome_event_ok]. cbn [app] in *.
  destruct (Hp2 0 _ Egen) as (data0 & Hin0 & Hd0).
  split; [|eapply policy_at_genesis; [apply (contents_sorted _ _ Hview)| | |exact Hin0|exact Hd0];
    eapply Forall_impl; [exact Hup2|by intros e [? _]|exact Hup2|intros e _; apply from_be_range]].
  split.
  - split.
    + split; [apply (contents_sorted _ _ Hview)| |apply Hcol|done| |done].
      * eapply Forall_impl; [exact Hrows|]. by intros e [? _].
      * exists data0. apply bt_elem_get; [apply (contents_sorted _ _ Hview)|done].
    + split; blia.
    + intros s Hs. destruct (Hcomplete s) as [data Hin]; [lia|]. exists data. apply bt_elem_get; [apply (contents_sorted _ _ Hview)|done].
  - split; cbn [shown_table shown_row snapshot].
    + intros s1 s2 id v1 v2. eapply catalogue_typed_tables; [exact Hcol|exact Hfold].
    + intros s id1 id2 v1 v2. eapply catalogue_typed_names; [exact Hcol|exact Hfold].
    + intros s table key data Hrow. pose proof (contents_sorted _ _ Hview State) as Hsort.
      unfold row in Hrow. destruct (latest _) as [[t p]|] eqn:El; [|done]. subst p.
      apply latest_elem, list_elem_of_omap in El as (e & He & Hve). apply version_at_Some in Hve as (_ & Hk & Hp).
      rewrite Forall_forall in Hrows. destruct (Hrows e He) as [_ Hok]. by destruct (Hok _ _ Hk Hp) as (t' & v & ? & ? & ?); exists t', v.
Qed.
End Sound.
