(* ===== verification/Command.v ===== *)
(** * Log records ([src/src/database/record.rs])

    The commands that a log record carries: their preparation against the
    database, their canonical bodies, and their execution.  A decoded command
    is exactly one that encodes to the bytes read, so what recovery replays is
    what was logged. *)
From S2P Require Import Prelude OrdMap Errors Bytes Reader Value ValueFacts Encoding EncodingFacts Limits Operations Program ProgramFacts Access AccessFacts Analysis AnalysisFacts Catalogue CatalogueFacts Storage Mvcc MvccFacts Overlay Outcome OutcomeFacts Administration Snapshots Installation Runtime RuntimeFacts Frame Execution World.

Inductive Command : Type :=
| Command_Transaction (transaction : Transaction) (claims : LimitPolicy) (manifest : option AccessManifest)
| Command_Catalogue (operation : CatalogueOperation)
| Command_Limits (policy : LimitPolicy).

Abbreviation record_take := (take_bytes "truncated record body").
Abbreviation record_le := (take_le "truncated record body").
Abbreviation record_byte := (take_byte "truncated record body").
Abbreviation record_blob := (take_blob "truncated record body").
Abbreviation put_record_blob := (put_blob "blob exceeds u32").

(** ** Encoding *)
Definition encode_operation (operation : CatalogueOperation) (body : bytes) : Result Error bytes :=
  match operation with
  | Create name key value =>
      let body := body ++ [x01; x00] in
      let* body := put_record_blob body name in
      let* key := descriptor key in
      let* body := put_record_blob body key in
      let* value := descriptor value in
      put_record_blob body value
  | Rename table name =>
      let body := body ++ [x02; x00] ++ le_bytes 8 table in
      put_record_blob body name
  | Drop_ table => Ok (body ++ [x03; x00] ++ le_bytes 8 table)
  end.

(** [encode]: the kind and the body. *)
Definition encode_command (command : Command) : Result Error (Z * bytes) :=
  match command with
  | Command_Transaction transaction claims manifest =>
      let* manifest := ok_or (Error_Invalid "transaction needs manifest preparation") manifest in
      let* _ := check_count manifest (limit claims 6) in
      let* manifest := AccessManifest_encode manifest in
      let body := [x01; x00; x00; x00] in
      let* body := put_record_blob body (transaction_program transaction) in
      let* body := put_record_blob body (transaction_arguments transaction) in
      let* body := put_record_blob body manifest in
      Ok (1, body ++ concat (map (le_bytes 8) (values claims)))
  | Command_Catalogue operation =>
      let* _ := validate_catalogue operation in
      let* body := encode_operation operation [x01; x00] in
      Ok (2, body)
  | Command_Limits policy => Ok (3, LimitPolicy_encode policy)
  end.

(** ** Decoding *)
Definition read_name (input : bytes) : Result Error (bytes * bytes) :=
  let* (data, input) := record_blob input in
  if bool_decide (data = []) || (len data >? 255) || existsb (fun b => bool_decide (b = x00)) data
  then Err (Error_Invalid "invalid table name") else
  if negb (utf8_valid data) then Err (Error_Invalid "invalid UTF-8 table name") else
  Ok (data, input).

(** [for value in &mut values] *)
Fixpoint read_values (count : nat) (input : bytes) : Result Error (list Z * bytes) :=
  match count with
  | O => Ok ([], input)
  | S count =>
      let* (value, input) := record_le input 8 in
      let* (values, input) := read_values count input in
      Ok (value :: values, input)
  end.

Definition budget_error (error : StorageError) : Error :=
  match error with
  | InvalidInput reason => Error_Invalid reason
  | error => Error_Storage error
  end.

Definition read_budget (input : bytes) : Result Error (LimitPolicy * bytes) :=
  let* (values, input) := read_values 17 input in
  let* policy := map_err budget_error (LimitPolicy_new values) in
  Ok (policy, input).

Definition decode_transaction (input : bytes) : Result Error (Command * bytes) :=
  let* (reserved, input) := record_take input 2 in
  if negb (bool_decide (reserved = [x00; x00])) then Err (Error_Invalid "nonzero transaction reserved field") else
  let* (program, input) := record_blob input in
  let* (arguments, input) := record_blob input in
  let* (manifest, input) := record_blob input in
  let* (claims, input) := read_budget input in
  if (len program >? limit claims 0) || (len arguments >? limit claims 4)
  then Err (Error_Invalid "transaction bytes exceed claims") else
  let transaction := {| transaction_program := program; transaction_arguments := arguments |} in
  let* manifest := AccessManifest_decode manifest in
  let* _ := check_count manifest (limit claims 6) in
  Ok (Command_Transaction transaction claims (Some manifest), input).

(** The [match operation] of the administrative records. *)
Definition decode_operation (tag : byte) (input : bytes) : Result Error (CatalogueOperation * bytes) :=
  match tag with
  | x01 =>
      let* (name, input) := read_name input in
      let* (key, input) := record_blob input in
      let* key := decode key in
      let* (value, input) := record_blob input in
      let* value := decode value in
      Ok (Create name key value, input)
  | x02 =>
      let* (table, input) := record_le input 8 in
      let* (name, input) := read_name input in
      Ok (Rename table name, input)
  | x03 =>
      let* (table, input) := record_le input 8 in
      Ok (Drop_ table, input)
  | _ => Err (Error_Invalid "unknown catalogue operation")
  end.

Definition decode_administrative (input : bytes) : Result Error (Command * bytes) :=
  let* (tag, input) := record_byte input in
  let* (reserved, input) := record_take input 1 in
  if negb (bool_decide (reserved = [x00])) then Err (Error_Invalid "nonzero administrative reserved field") else
  let* (operation, input) := decode_operation tag input in
  let* _ := validate_catalogue operation in
  Ok (Command_Catalogue operation, input).

Definition decode_limits (input : bytes) : Result Error (Command * bytes) :=
  let* (reserved, input) := record_take input 2 in
  if negb (bool_decide (reserved = [x00; x00])) then Err (Error_Invalid "nonzero limit policy reserved field") else
  let* (policy, input) := read_budget input in
  Ok (Command_Limits policy, input).

Definition record_format (kind : Z) : Result Error string :=
  match kind with
  | 1 => Ok "transaction"
  | 2 => Ok "administrative"
  | 3 => Ok "limit policy"
  | _ => Err (Error_Invalid "unknown record kind")
  end%string.

(** [decode] *)
Definition decode_command (kind : Z) (body : bytes) : Result Error Command :=
  let* format := record_format kind in
  if len body >? 64 * 1024 * 1024 - 72 then Err (Error_Invalid "log record exceeds 64 MiB") else
  let* (version, input) := record_le body 2 in
  if negb (version =? 1) then Err (Error_Unsupported format version) else
  let* (command, input) :=
    match kind with
    | 1 => decode_transaction input
    | 2 => decode_administrative input
    | 3 => decode_limits input
    | _ => Panic
    end in
  match input with
  | [] => Ok command
  | _ => Err (Error_Invalid "trailing record body bytes")
  end.

(** ** Preparation and execution *)
Section Vm.
Context (sha256 : bytes -> bytes) `{Storage View Cell}.

(** [prepare] *)
Definition prepare_command (view : View) (sequence : Z) (command : Command) : Result Error Command :=
  if (sequence =? 0) || (sequence =? u64_max) then Err (Error_Invalid "reserved record sequence") else
  match command with
  | Command_Transaction transaction claims manifest =>
      let* _ := match manifest with Some manifest => check_count manifest (limit claims 6) | None => Ok tt end in
      let* prepared := prepare_transaction sha256 view sequence transaction claims manifest in
      Ok (Command_Transaction transaction claims (Some (prepared_manifest prepared)))
  | Command_Catalogue operation =>
      let* _ := validate_catalogue operation in
      Ok command
  | Command_Limits _ => Ok command
  end.

(** [validate] *)
Definition validate_command (view : View) (sequence : Z) (command : Command) : Result Error unit :=
  let* _ := prepare_command view sequence command in
  Ok tt.

Context {Db : Type} `{!PhysicalStore Db View Cell}.

Definition run_command (store : Db) (sequence : Z) (digest : bytes) (command : Command) : Db * Result Error Outcome :=
  match command with
  | Command_Transaction transaction claims _ => execute sha256 store sequence digest transaction claims
  | Command_Catalogue operation => execute_catalogue store sequence digest operation
  | Command_Limits policy => execute_limits store sequence digest policy
  end.

(** [record::execute] *)
Definition execute_command (store : Db) (sequence : Z) (digest : bytes) (command : Command) : Db * Result Error Outcome :=
  match validate_command (store_view store) sequence command with
  | Ok _ => run_command store sequence digest command
  | Err error => (store, Err error)
  | Panic => (store, Panic)
  end.
End Vm.

(** ** Budgets and names *)
Lemma read_values_inv n : forall input vs rest,
  read_values n input = Ok (vs, rest) ->
  input = concat (map (le_bytes 8) vs) ++ rest /\ length vs = n /\ Forall (fun v => 0 <= v) vs.
Proof.
  induction n as [|n IH]; intros input vs rest H; simpl in H; [injection H as <- <-; by repeat constructor|].
  step_ok H as [v in1] eqn Hv. step_ok H as [vs' in2] eqn Hvs. injection H as <- <-.
  apply (take_le_inv _ _ 8) in Hv as [-> Hv]; [|done]. apply IH in Hvs as (-> & <- & Hf).
  cbn [map concat length]. rewrite <-app_assoc. split; [done|]. split; [done|]. constructor; [lia|done].
Qed.

Lemma read_values_eq vs rest :
  Forall (fun v => 0 <= v < 256 ^ 8) vs ->
  read_values (length vs) (concat (map (le_bytes 8) vs) ++ rest) = Ok (vs, rest).
Proof.
  induction 1 as [|v vs Hv _ IH]; [done|]. cbn [map concat length read_values]. rewrite <-app_assoc, take_le_app by done.
  cbn [bindR]. by rewrite IH.
Qed.

Definition budget_bytes (policy : LimitPolicy) : bytes := concat (map (le_bytes 8) (values policy)).

Lemma read_budget_inv input policy rest :
  read_budget input = Ok (policy, rest) -> input = budget_bytes policy ++ rest /\ policy_wf policy.
Proof.
  unfold read_budget. intros H. step_ok H as [vs in1] eqn Hvs. step_ok H as p eqn Hp. injection H as <- <-.
  apply read_values_inv in Hvs as (-> & Hl & Hf). apply map_err_ok in Hp. unfold LimitPolicy_new, validate_limits in Hp.
  destruct (any_above _ _) eqn:Ea; [done|]. injection Hp as <-. split; [done|]. by apply policy_wf_iff.
Qed.

Lemma read_budget_eq policy rest :
  policy_wf policy -> read_budget (budget_bytes policy ++ rest) = Ok (policy, rest).
Proof.
  intros Hwf. pose proof Hwf as (Hl & _ & Ha)%policy_wf_iff. unfold read_budget, budget_bytes. rewrite <-Hl.
  rewrite read_values_eq by by apply policy_wf_u64. unfold LimitPolicy_new, validate_limits. cbn [bindR].
  rewrite Ha. by destruct policy.
Qed.

Lemma len_budget policy : policy_wf policy -> len (budget_bytes policy) = 136.
Proof. intros [Hl _]. unfold budget_bytes. rewrite len_words. unfold len. lia. Qed.

Lemma read_name_iff input data rest :
  read_name input = Ok (data, rest) <->
  input = blob_bytes data ++ rest /\ valid_name data = Ok tt /\ utf8_valid data = true.
Proof.
  unfold read_name, valid_name. split.
  - intros H. step_ok H as [d in1] eqn Hd. step_if H eqn E. step_if H eqn Eu. injection H as <- <-.
    apply take_blob_inv in Hd as [-> _]. rewrite E. apply negb_false_iff in Eu. done.
  - intros (-> & Hn & Hu). step_if Hn eqn E. rewrite take_blob_app; [cbn [bindR]; by rewrite E, Hu|].
    apply orb_false_iff in E as [E _]. apply orb_false_iff in E as [_ E]. unfold u32_max. blia.
Qed.

(** ** The codec *)

(** What a decoded command can hold. *)
Definition command_wf (command : Command) : Prop :=
  match command with
  | Command_Transaction transaction claims manifest =>
      policy_wf claims /\ len (transaction_program transaction) <= limit claims 0 /\
      len (transaction_arguments transaction) <= limit claims 4 /\
      match manifest with Some manifest => Forall entry_fits (entries manifest) /\ normal (entries manifest) | None => True end
  | Command_Catalogue operation => operation_wf operation
  | Command_Limits policy => policy_wf policy
  end.

Lemma validate_create name key value :
  validate_catalogue (Create name key value) = Ok tt ->
  valid_name name = Ok tt /\ exists k v, schema_descriptor key true = Ok k /\ schema_descriptor value false = Ok v.
Proof. simpl. intros H. step_ok H as [] eqn Hn. step_ok H as k eqn Hk. step_ok H as v eqn Hv. by eauto. Qed.

Lemma decode_operation_inv tag input operation rest :
  decode_operation tag input = Ok (operation, rest) -> validate_catalogue operation = Ok tt ->
  operation_wf operation /\
  exists used, tag :: x00 :: input = used ++ rest /\ forall body, encode_operation operation body = Ok (body ++ used).
Proof.
  intros H Hval. unfold decode_operation in H. destruct tag; try discriminate H.
  - step_ok H as [name in1] eqn Hn. step_ok H as [kd in2] eqn Hkd. step_ok H as k eqn Hk. step_ok H as [vd in3] eqn Hvd.
    step_ok H as v eqn Hv. injection H as <- <-. apply read_name_iff in Hn as (-> & Hn & Hu).
    apply take_blob_inv in Hkd as [-> Lk]. apply take_blob_inv in Hvd as [-> Lv]. apply valid_name_ok in Hn.
    apply decode_descriptor_iff in Hk as (Dk & Vk & _). apply decode_descriptor_iff in Hv as (Dv & Vv & _).
    split; [done|]. exists ([x01; x00] ++ blob_bytes name ++ blob_bytes kd ++ blob_bytes vd). split; [by rewrite <-!app_assoc|].
    intros body. unfold encode_operation. rewrite put_blob_eq by (unfold u32_max; lia). cbn [bindR]. rewrite Dk. cbn [bindR].
    rewrite put_blob_eq by done. cbn [bindR]. rewrite Dv. cbn [bindR]. rewrite put_blob_eq by done. by rewrite <-!app_assoc.
  - step_ok H as [table in1] eqn Ht. step_ok H as [name in2] eqn Hn. injection H as <- <-.
    apply (take_le_inv _ _ 8) in Ht as [-> Ht]; [|done]. apply read_name_iff in Hn as (-> & Hn & Hu). apply valid_name_ok in Hn.
    change (256 ^ 8) with (u64_max + 1) in Ht. split; [split; [lia|done]|].
    exists ([x02; x00] ++ le_bytes 8 table ++ blob_bytes name). split; [by rewrite <-!app_assoc|].
    intros body. unfold encode_operation. rewrite put_blob_eq by (unfold u32_max; lia). by rewrite <-!app_assoc.
  - step_ok H as [table in1] eqn Ht. injection H as <- <-. apply (take_le_inv _ _ 8) in Ht as [-> Ht]; [|done].
    change (256 ^ 8) with (u64_max + 1) in Ht. split; [simpl; lia|]. exists ([x03; x00] ++ le_bytes 8 table).
    split; [done|]. done.
Qed.

Lemma encode_operation_inv operation body data :
  operation_wf operation -> validate_catalogue operation = Ok tt -> encode_operation operation body = Ok data ->
  exists tag used, data = body ++ tag :: x00 :: used /\ len used <= 140000 /\
    forall rest, decode_operation tag (used ++ rest) = Ok (operation, rest).
Proof.
  intros Hwf Hval H. destruct operation as [name key value|table name|table]; cbn [encode_operation operation_wf] in *.
  - apply validate_create in Hval as (Hn & k & v & Hk & Hv). destruct Hwf as (Hu & Vk & Vv).
    apply schema_descriptor_iff in Hk as (Dk & Lk & _); [|done]. apply schema_descriptor_iff in Hv as (Dv & Lv & _); [|done].
    pose proof (valid_name_ok _ _ Hn) as Ln. unfold MAX_DESCRIPTOR_BYTES in *.
    rewrite put_blob_eq in H by (unfold u32_max; lia). cbn [bindR] in H. rewrite Dk in H. cbn [bindR] in H.
    rewrite put_blob_eq in H by (unfold u32_max; lia). cbn [bindR] in H. rewrite Dv in H. cbn [bindR] in H.
    rewrite put_blob_eq in H by (unfold u32_max; lia). injection H as <-.
    exists x01, (blob_bytes name ++ blob_bytes k ++ blob_bytes v). rewrite <-!app_assoc. split; [done|].
    split; [autorewrite with blop; lia|]. intros rest. unfold decode_operation.
    rewrite (proj2 (read_name_iff _ name (blob_bytes k ++ blob_bytes v ++ rest))) by (by rewrite <-!app_assoc). cbn [bindR].
    rewrite take_blob_app by (unfold u32_max; lia). cbn [bindR]. rewrite (proj2 (decode_descriptor_iff k key)) by done. cbn [bindR].
    rewrite take_blob_app by (unfold u32_max; lia). cbn [bindR]. by rewrite (proj2 (decode_descriptor_iff v value)).
  - destruct Hwf as [Ht Hu]. cbn [validate_catalogue] in Hval. step_ok Hval as [] eqn Hid.
    pose proof (valid_name_ok _ _ Hval) as Ln. rewrite put_blob_eq in H by (unfold u32_max; lia). injection H as <-.
    exists x02, (le_bytes 8 table ++ blob_bytes name). rewrite <-!app_assoc. split; [done|].
    split; [autorewrite with blop; lia|]. intros rest. unfold decode_operation. rewrite <-app_assoc.
    rewrite take_le_app by (done || (change (256 ^ 8) with (u64_max + 1); lia)). cbn [bindR].
    by rewrite (proj2 (read_name_iff _ name rest)).
  - injection H as <-. exists x03, (le_bytes 8 table). split; [done|]. split; [autorewrite with blop; lia|].
    intros rest. unfold decode_operation. by rewrite take_le_app by (done || (change (256 ^ 8) with (u64_max + 1); lia)).
Qed.

Lemma encode_operation_ok operation body :
  operation_wf operation -> validate_catalogue operation = Ok tt -> exists data, encode_operation operation body = Ok data.
Proof.
  intros Hwf Hval. destruct operation as [name key value|table name|table]; cbn [encode_operation operation_wf] in *; [| |by eexists].
  - apply validate_create in Hval as (Hn & k & v & Hk & Hv). destruct Hwf as (Hu & Vk & Vv).
    apply schema_descriptor_iff in Hk as (-> & Lk & _); [|done]. apply schema_descriptor_iff in Hv as (-> & Lv & _); [|done].
    pose proof (valid_name_ok _ _ Hn) as Ln. unfold MAX_DESCRIPTOR_BYTES in *.
    do 3 (rewrite put_blob_eq by (unfold u32_max; lia); cbn [bindR]). by eexists.
  - cbn [validate_catalogue] in Hval. step_ok Hval as [] eqn Hid. pose proof (valid_name_ok _ _ Hval) as Ln.
    rewrite put_blob_eq by (unfold u32_max; lia). by eexists.
Qed.

(** A manifest is at most 16,384 entries of at most 1,040 bytes. *)
Lemma encode_entry_max e : scope_valid e.1 -> len (encode_entry e) <= 1040.
Proof.
  destruct e as [s m]. intros Hv. rewrite encode_entry_eq. autorewrite with blop. pose proof (entry_key_len s Hv). cbn [len length]. lia.
Qed.

Lemma encode_manifest_max m data :
  AccessManifest_encode m = Ok data -> Forall entry_fits (entries m) -> len data <= 17039364.
Proof.
  unfold AccessManifest_encode. intros H Hf. step_ok H as [] eqn Hc. injection H as <-. apply check_count_ok in Hc as [Hc _].
  unfold manifest_len in *. autorewrite with blop.
  assert (len (concat (map encode_entry (entries m))) <= 1040 * len (entries m)); [|lia].
  clear Hc. induction Hf as [|e es [_ Hv] _ IH]; cbn [map concat]; autorewrite with blop; [done|].
  pose proof (encode_entry_max e Hv). lia.
Qed.

Definition transaction_body (transaction : Transaction) (claims : LimitPolicy) (manifest : bytes) : bytes :=
  [x01; x00; x00; x00] ++ blob_bytes (transaction_program transaction) ++ blob_bytes (transaction_arguments transaction)
  ++ blob_bytes manifest ++ budget_bytes claims.

Lemma encode_transaction_ok transaction claims manifest kind body :
  encode_command (Command_Transaction transaction claims (Some manifest)) = Ok (kind, body) <->
  kind = 1 /\ check_count manifest (limit claims 6) = Ok tt /\
  exists data, AccessManifest_encode manifest = Ok data /\ body = transaction_body transaction claims data /\
    len (transaction_program transaction) <= u32_max /\ len (transaction_arguments transaction) <= u32_max /\
    len data <= u32_max.
Proof.
  unfold encode_command, transaction_body, budget_bytes. cbn [ok_or bindR]. split.
  - intros H. step_ok H as [] eqn Hc. step_ok H as data eqn Hd. step_ok H as b1 eqn H1. step_ok H as b2 eqn H2.
    step_ok H as b3 eqn H3. injection H as <- <-. apply put_blob_ok in H1 as [L1 ->]. apply put_blob_ok in H2 as [L2 ->].
    apply put_blob_ok in H3 as [L3 ->]. split; [done|]. split; [done|]. exists data. by rewrite <-!app_assoc.
  - intros (-> & -> & data & -> & -> & L1 & L2 & L3). cbn [bindR]. do 3 (rewrite put_blob_eq by done; cbn [bindR]).
    by rewrite <-!app_assoc.
Qed.

(** Every body of a well-formed command fits a record. *)
Lemma encode_command_len command kind body :
  command_wf command -> encode_command command = Ok (kind, body) -> len body <= 51000000.
Proof.
  destruct command as [t c m|o|p]; cbn [command_wf].
  - intros (Hc & Hp & Ha & Hm). destruct m as [m|]; [|done]. destruct Hm as [Hf _].
    intros (_ & _ & data & Hd & -> & _)%encode_transaction_ok. pose proof (encode_manifest_max m data Hd Hf).
    pose proof (limit_le c 0 Hc) as L0. pose proof (limit_le c 4 Hc) as L4. cbn in L0, L4.
    unfold transaction_body. autorewrite with blop. rewrite len_budget by done. cbn [len length]. lia.
  - intros Hwf H. cbn [encode_command] in H. step_ok H as [] eqn Hv. step_ok H as data eqn Hd. injection H as <- <-.
    destruct (encode_operation_inv _ _ _ Hwf Hv Hd) as (tag & used & -> & Hl & _). autorewrite with blop. cbn [len length]. lia.
  - intros [Hl _] [= <- <-]. unfold LimitPolicy_encode. autorewrite with blop. rewrite len_words. unfold len. lia.
Qed.

Lemma decode_transaction_iff input transaction claims manifest rest :
  decode_transaction input = Ok (Command_Transaction transaction claims manifest, rest) <->
  command_wf (Command_Transaction transaction claims manifest) /\
  exists m data, manifest = Some m /\ check_count m (limit claims 6) = Ok tt /\ AccessManifest_encode m = Ok data /\
    le_bytes 2 1 ++ input = transaction_body transaction claims data ++ rest.
Proof.
  unfold decode_transaction, transaction_body. split.
  - intros H. step_ok H as [reserved in1] eqn Hr. step_if H eqn Er. step_ok H as [program in2] eqn Hp.
    step_ok H as [arguments in3] eqn Ha. step_ok H as [mb in4] eqn Hmb. step_ok H as [budget in5] eqn Hb. step_if H eqn El.
    step_ok H as m eqn Hm. step_ok H as [] eqn Hc. injection H as <- <- <- <-.
    apply take_bytes_inv in Hr as [-> _]; [|done]. apply negb_false_iff, bool_decide_eq_true in Er as ->.
    apply take_blob_inv in Hp as [-> _]. apply take_blob_inv in Ha as [-> _]. apply take_blob_inv in Hmb as [-> _].
    apply read_budget_inv in Hb as [-> Hwf]. apply manifest_codec_iff in Hm as (Hd & Hf & Hn). apply orb_false_iff in El as [E1 E2].
    split; [split; [done|]; split; [simpl; blia|]; split; [simpl; blia|done]|]. exists m, mb. do 3 (split; [done|]).
    simpl. by rewrite <-!app_assoc.
  - intros ((Hwf & Lp & La & Hm) & m & data & -> & Hc & Hd & E). destruct Hm as [Hf Hn].
    pose proof (encode_manifest_max m data Hd Hf). pose proof (limit_small claims 0 Hwf). pose proof (limit_small claims 4 Hwf).
    assert (input = [x00; x00] ++ blob_bytes (transaction_program transaction) ++ blob_bytes (transaction_arguments transaction)
      ++ blob_bytes data ++ budget_bytes claims ++ rest) as ->.
    { apply (app_inv_head (le_bytes 2 1)). rewrite E. by rewrite <-!app_assoc. }
    rewrite take_bytes_app by done. cbn [bindR]. rewrite bool_decide_true by done. cbn [negb].
    do 3 (rewrite take_blob_app by (unfold u32_max; lia); cbn [bindR]). rewrite read_budget_eq by done. cbn [bindR].
    rewrite !gtb_false by done. cbn [orb]. rewrite (proj2 (manifest_codec_iff data m)) by done. cbn [bindR]. rewrite Hc. cbn [bindR].
    by destruct transaction.
Qed.

Lemma decode_administrative_iff input operation rest :
  decode_administrative input = Ok (Command_Catalogue operation, rest) <->
  operation_wf operation /\ validate_catalogue operation = Ok tt /\
  exists used, input = used ++ rest /\ forall body, encode_operation operation body = Ok (body ++ used).
Proof.
  unfold decode_administrative. split.
  - intros H. step_ok H as [tag in1] eqn Ht. step_ok H as [reserved in2] eqn Hr. step_if H eqn Er.
    step_ok H as [o in3] eqn Ho. step_ok H as [] eqn Hv. injection H as <- <-. apply take_byte_inv in Ht as ->.
    apply take_bytes_inv in Hr as [-> _]; [|done]. apply negb_false_iff, bool_decide_eq_true in Er as ->.
    destruct (decode_operation_inv _ _ _ _ Ho Hv) as (Hwf & used & E & He). split; [done|]. split; [done|]. by exists used.
  - intros (Hwf & Hv & used & -> & He). destruct (encode_operation_inv operation [] used Hwf Hv (He [])) as (tag & u & E & _ & Hd).
    simpl in E. subst used. rewrite <-!app_comm_cons, take_byte_cons. cbn [bindR].
    change (x00 :: u ++ rest) with ([x00] ++ u ++ rest). rewrite take_bytes_app by done. cbn [bindR].
    rewrite bool_decide_true by done. cbn [negb]. rewrite Hd. cbn [bindR]. by rewrite Hv.
Qed.

Lemma decode_limits_iff input policy rest :
  decode_limits input = Ok (Command_Limits policy, rest) <->
  policy_wf policy /\ le_bytes 2 1 ++ input = LimitPolicy_encode policy ++ rest.
Proof.
  unfold decode_limits, LimitPolicy_encode. fold (budget_bytes policy). split.
  - intros H. step_ok H as [reserved in1] eqn Hr. step_if H eqn Er. step_ok H as [p in2] eqn Hp. injection H as <- <-.
    apply take_bytes_inv in Hr as [-> _]; [|done]. apply negb_false_iff, bool_decide_eq_true in Er as ->.
    apply read_budget_inv in Hp as [-> Hwf]. split; [done|]. by rewrite <-!app_assoc.
  - intros [Hwf E]. rewrite <-!app_assoc in E. apply app_inv_head in E as ->.
    change (le_bytes 2 0) with [x00; x00]. rewrite take_bytes_app by done. cbn [bindR]. rewrite bool_decide_true by done.
    cbn [negb]. by rewrite read_budget_eq.
Qed.

(** Each kind of record decodes to its own kind of command. *)
Lemma decode_transaction_kind input c rest :
  decode_transaction input = Ok (c, rest) -> exists t l m, c = Command_Transaction t l m.
Proof.
  unfold decode_transaction. intros H. step_ok H as [r in1] eqn H1. step_if H eqn E1. step_ok H as [p in2] eqn H2.
  step_ok H as [a in3] eqn H3. step_ok H as [mb in4] eqn H4. step_ok H as [b in5] eqn H5. step_if H eqn E2.
  step_ok H as m eqn H6. step_ok H as [] eqn H7. injection H as <- <-. by eauto.
Qed.
Lemma decode_administrative_kind input c rest :
  decode_administrative input = Ok (c, rest) -> exists o, c = Command_Catalogue o.
Proof.
  unfold decode_administrative. intros H. step_ok H as [t in1] eqn H1. step_ok H as [r in2] eqn H2. step_if H eqn E1.
  step_ok H as [o in3] eqn H3. step_ok H as [] eqn H4. injection H as <- <-. by eauto.
Qed.
Lemma decode_limits_kind input c rest : decode_limits input = Ok (c, rest) -> exists p, c = Command_Limits p.
Proof.
  unfold decode_limits. intros H. step_ok H as [r in1] eqn H1. step_if H eqn E1. step_ok H as [p in2] eqn H2.
  injection H as <- <-. by eauto.
Qed.

Lemma decode_command_inv kind body c :
  decode_command kind body = Ok c -> encode_command c = Ok (kind, body) /\ command_wf c.
Proof.
  unfold decode_command. intros H. step_ok H as format eqn Hf. step_if H eqn El. step_ok H as [version input] eqn Hv.
  step_if H eqn Ev. step_ok H as [c' rest] eqn Hc. destruct rest; [|done]. injection H as <-.
  apply (take_le_inv _ _ 2) in Hv as [-> _]; [|done]. apply negb_false_iff, Z.eqb_eq in Ev as ->.
  destruct kind as [|[[]|[]|]|]; try discriminate Hf.
  - pose proof Hc as (p & ->)%decode_limits_kind. apply decode_limits_iff in Hc as [Hwf E]. rewrite app_nil_r in E.
    split; [|done]. simpl. by rewrite E.
  - pose proof Hc as (o & ->)%decode_administrative_kind.
    apply decode_administrative_iff in Hc as (Hwf & Hval & used & -> & He). rewrite app_nil_r. split; [|done].
    cbn [encode_command]. rewrite Hval. cbn [bindR]. by rewrite He.
  - pose proof Hc as (t & l & m & ->)%decode_transaction_kind.
    apply decode_transaction_iff in Hc as (Hwf & m' & data & -> & Hcount & Hd & E). rewrite app_nil_r in E. rewrite E.
    split; [|done]. apply encode_transaction_ok. split; [done|]. split; [done|]. exists data. do 2 (split; [done|]).
    destruct Hwf as (Hl & Hp & Ha & Hfit & _). pose proof (limit_small l 0 Hl). pose proof (limit_small l 4 Hl).
    pose proof (encode_manifest_max _ _ Hd Hfit). unfold u32_max. lia.
Qed.

Lemma decode_command_encode c kind body :
  command_wf c -> encode_command c = Ok (kind, body) -> decode_command kind body = Ok c.
Proof.
  intros Hwf H. pose proof (encode_command_len c kind body Hwf H) as Hlen. unfold decode_command.
  destruct c as [t l m|o|p].
  - destruct m as [m|]; [|done]. apply encode_transaction_ok in H as (-> & Hc & data & Hd & -> & _). cbn [record_format bindR].
    rewrite gtb_false by lia.
    change (transaction_body t l data) with (le_bytes 2 1 ++ [x00; x00] ++ drop 4 (transaction_body t l data)).
    rewrite take_le_app by done. cbn [bindR Z.eqb Pos.eqb negb].
    rewrite (proj2 (decode_transaction_iff _ t l (Some m) [])); [done|]. split; [done|]. exists m, data. by rewrite app_nil_r.
  - cbn [encode_command] in H. step_ok H as [] eqn Hv. step_ok H as data eqn Hd. injection H as <- <-.
    destruct (encode_operation_inv o _ _ Hwf Hv Hd) as (tag & used & -> & _ & Hdec). cbn [record_format bindR].
    rewrite gtb_false by lia.
    change ([x01; x00] ++ tag :: x00 :: used) with (le_bytes 2 1 ++ tag :: x00 :: used).
    rewrite take_le_app by done. cbn [bindR Z.eqb Pos.eqb negb]. unfold decode_administrative. rewrite take_byte_cons.
    cbn [bindR]. change (x00 :: used) with ([x00] ++ used). rewrite take_bytes_app by done. cbn [bindR].
    rewrite bool_decide_true by done. cbn [negb]. specialize (Hdec []). rewrite app_nil_r in Hdec. rewrite Hdec.
    cbn [bindR]. by rewrite Hv.
  - injection H as <- <-. cbn [record_format bindR]. rewrite gtb_false by lia.
    assert (LimitPolicy_encode p = le_bytes 2 1 ++ le_bytes 2 0 ++ budget_bytes p) as E by done. rewrite E.
    rewrite take_le_app by done. cbn [bindR Z.eqb Pos.eqb negb].
    rewrite (proj2 (decode_limits_iff _ p [])); [done|]. split; [done|]. by rewrite app_nil_r, E.
Qed.

Lemma decode_command_iff kind body c :
  decode_command kind body = Ok c <-> encode_command c = Ok (kind, body) /\ command_wf c.
Proof. split; [apply decode_command_inv|]. intros [He Hwf]. by apply decode_command_encode. Qed.

(** ** Totality *)
Lemma read_values_no_panic n : forall input, no_panic (read_values n input).
Proof. induction n as [|n IH]; intros input; simpl; [done|]. solve_no_panic. Qed.
Lemma read_budget_no_panic input : no_panic (read_budget input).
Proof.
  unfold read_budget, LimitPolicy_new, validate_limits. apply bindR_no_panic; [apply read_values_no_panic|]. intros [vs r] _.
  by destruct (any_above _ _).
Qed.
Lemma read_name_no_panic input : no_panic (read_name input).
Proof. unfold read_name. solve_no_panic. Qed.
Lemma validate_catalogue_no_panic operation : no_panic (validate_catalogue operation).
Proof. unfold validate_catalogue. destruct operation; solve_no_panic. Qed.
Lemma check_count_no_panic m limit : no_panic (check_count m limit).
Proof. unfold check_count. by destruct (_ >? _). Qed.
#[export] Hint Resolve read_budget_no_panic read_name_no_panic validate_catalogue_no_panic check_count_no_panic : no_panic.

Lemma decode_entries_no_panic count : forall previous modes input, no_panic (decode_entries count previous modes input).
Proof.
  induction count as [|count IH]; intros previous modes input; cbn [decode_entries]; [done|].
  apply bindR_no_panic; [|intros [[scope mode] rest] _; solve_no_panic].
  unfold decode_entry. apply bindR_no_panic; [solve_no_panic|]. intros [table in1] _.
  apply bindR_no_panic; [solve_no_panic|]. intros [fields in2] Hf. apply take_bytes_inv in Hf as [_ Hl]; [|done].
  unfold len in Hl. destruct fields as [|b0 [|b1 fields]]; try (simpl in Hl; lia). cbn [lookup list_lookup expect bindR].
  unfold access_mode, decode_scope. solve_no_panic.
Qed.

Lemma AccessManifest_decode_no_panic data : no_panic (AccessManifest_decode data).
Proof.
  unfold AccessManifest_decode. apply bindR_no_panic; [solve_no_panic|]. intros [count in1] _. destruct (_ || _); [done|].
  apply bindR_no_panic; [apply decode_entries_no_panic|]. by intros [es []] _.
Qed.
#[export] Hint Resolve AccessManifest_decode_no_panic : no_panic.

Lemma decode_operation_no_panic tag input : no_panic (decode_operation tag input).
Proof. unfold decode_operation. destruct tag; solve_no_panic. Qed.
#[export] Hint Resolve decode_operation_no_panic : no_panic.

(** Decoding never panics, whatever the kind and the bytes. *)
Lemma decode_command_no_panic kind body : no_panic (decode_command kind body).
Proof.
  unfold decode_command. apply bindR_no_panic; [unfold record_format; solve_no_panic|]. intros format Hf.
  destruct (_ >? _); [done|]. apply bindR_no_panic; [solve_no_panic|]. intros [version input] _. destruct (negb _); [done|].
  apply bindR_no_panic; [|intros [c []] _; done].
  destruct kind as [|[[]|[]|]|]; try discriminate Hf;
    unfold decode_transaction, decode_administrative, decode_limits; solve_no_panic.
Qed.

(** ** Preparation *)

(** The commands a caller can submit. *)
Definition command_valid (command : Command) : Prop :=
  match command with
  | Command_Transaction _ claims manifest =>
      policy_wf claims /\ match manifest with Some manifest => normal (entries manifest) | None => True end
  | Command_Catalogue operation => operation_wf operation
  | Command_Limits policy => policy_wf policy
  end.

Lemma command_wf_valid command : command_wf command -> command_valid command.
Proof. destruct command as [t c [m|]|o|p]; simpl; tauto. Qed.

(** The operation a command runs, under the digest of its record. *)
Definition operation_of (digest : bytes) (command : Command) : Operation :=
  match command with
  | Command_Transaction transaction claims _ => Run_transaction digest transaction claims
  | Command_Catalogue operation => Run_catalogue digest operation
  | Command_Limits policy => Run_limits digest policy
  end.

Definition command_kind (command : Command) : Z :=
  match command with Command_Transaction _ _ _ => 1 | Command_Catalogue _ => 2 | Command_Limits _ => 3 end.

Lemma operation_of_ok digest command : command_valid command -> len digest = 32 -> operation_ok (operation_of digest command).
Proof. intros Hv Hd. split; [by destruct command|]. destruct command; simpl in *; tauto. Qed.

Lemma encode_command_kind command kind body : encode_command command = Ok (kind, body) -> kind = command_kind command.
Proof.
  destruct command as [t c [m|]|o|p].
  - by intros [-> _]%encode_transaction_ok.
  - done.
  - cbn [encode_command]. intros H. step_ok H as [] eqn Hv. step_ok H as data eqn Hd. by injection H as <- <-.
  - by intros [= <- <-].
Qed.

Lemma declare_tables tables manifest : forall declarations declarations',
  declare tables manifest declarations = Ok declarations' ->
  Forall (fun e => exists t, t ∈ tables /\ table_id t = scope_table e.1) manifest.
Proof.
  induction manifest as [|[scope mode] manifest IH]; intros ds ds' H; cbn [declare] in H; [done|].
  step_ok H as t eqn Ht. step_ok H as [] eqn Hk. apply ok_or_ok in Ht. unfold find_table in Ht.
  apply List.find_some in Ht as [Hin He]. apply Z.eqb_eq in He. constructor; [|by eapply IH].
  exists t. split; [by apply list_elem_of_In|done].
Qed.

Lemma validate_fits manifest required tables claims :
  validate manifest required tables claims = Ok tt -> normal (entries manifest) -> Forall table_wf tables ->
  check_count manifest (limit claims 6) = Ok tt /\ Forall entry_fits (entries manifest).
Proof.
  unfold validate. intros H Hn Ht. step_ok H as [] eqn Hc. step_ok H as ds eqn Hd. split; [done|].
  apply declare_tables in Hd. apply normal_from_sorted in Hn as (Hv & _ & _). rewrite Forall_forall in Hv. rewrite Forall_forall in Hd. rewrite Forall_forall in Ht.
  apply Forall_forall. intros e He. split; [|by apply Hv]. destruct (Hd e He) as (t & Hin & <-). destruct (Ht t Hin) as [? _]. lia.
Qed.

Lemma decode_program_lengths pb ab tables claims program :
  decode_program pb ab tables claims = Ok program -> len pb <= limit claims 0 /\ len ab <= limit claims 4.
Proof.
  unfold decode_program. intros H. step_ok H as [h r] eqn Hh. step_ok H as u eqn Hc. apply check_claims_ok in Hc.
  do 5 (apply Forall_cons_1 in Hc as [? Hc]). done.
Qed.

Section Prepare.
Context (sha256 : bytes -> bytes) `{Storage View Cell} (view : View) (contents : Contents) (checkpoint last : Z).
Context (Hview : Represents view contents) (Hworld : world contents checkpoint last).

(** What preparation accepts: an operation the database can run, and a
    manifest that covers its accesses. *)
Record transaction_prepared (sequence : Z) (transaction : Transaction) (claims : LimitPolicy) (manifest : AccessManifest) : Prop := {
  prepared_lengths : len (transaction_program transaction) <= limit claims 0 /\ len (transaction_arguments transaction) <= limit claims 4;
  prepared_run : exists prior program required,
    prepare_program view sequence (transaction_program transaction) (transaction_arguments transaction) claims = Ok (prior, program) /\
    prepared contents claims sequence prior program /\
    derive sha256 program = Ok required /\ validate manifest required (prog_tables program) claims = Ok tt;
  prepared_normal : normal (entries manifest);
  prepared_fits : check_count manifest (limit claims 6) = Ok tt /\ Forall entry_fits (entries manifest) }.

Lemma prepared_tables_wf claims sequence prior program :
  prepared contents claims sequence prior program -> Forall table_wf (prog_tables program).
Proof. intros Hp. by destruct (prepared_database view contents checkpoint last Hview Hworld claims sequence prior program Hp). Qed.

Lemma prepare_program_lengths sequence pb ab claims prior program :
  prepare_program view sequence pb ab claims = Ok (prior, program) -> len pb <= limit claims 0 /\ len ab <= limit claims 4.
Proof.
  unfold prepare_program. intros H1. step_ok H1 as p eqn Hp. step_ok H1 as policy eqn Hpol. step_if H1 eqn Ea.
  step_ok H1 as ids eqn Hids. step_ok H1 as tables eqn Ht. step_ok H1 as prog eqn Hprog. injection H1 as <- <-.
  by eapply decode_program_lengths.
Qed.

Lemma prepare_transaction_ok sequence transaction claims manifest p :
  0 <= sequence <= u64_max -> policy_wf claims -> match manifest with Some m => normal (entries m) | None => True end ->
  prepare_transaction sha256 view sequence transaction claims manifest = Ok p ->
  transaction_prepared sequence transaction claims (prepared_manifest p).
Proof.
  intros Hs Hc Hm Hp. unfold prepare_transaction in Hp. step_ok Hp as [prior program] eqn Hprog.
  unfold finish_preparation in Hp. step_ok Hp as required eqn Hd. cbv zeta in Hp. step_ok Hp as [] eqn Hv. injection Hp as <-.
  cbn [prepared_manifest]. set (m := match manifest with Some m => m | None => required end) in *.
  pose proof (prepare_program_ok view contents checkpoint last Hview Hworld claims _ _ _ _ _ Hs Hprog) as Hprep.
  assert (normal (entries m)) as Hn. { unfold m. destruct manifest; [done|]. unfold derive in Hd. step_ok Hd as s eqn Hs'.
    step_ok Hd as es eqn He. by eapply new_normal. }
  split; [by eapply prepare_program_lengths|by exists prior, program, required|done|].
  by eapply validate_fits, prepared_tables_wf.
Qed.

(** A prepared command runs the same operation, and can be logged: its body
    is encoded, and decodes to it. *)
Lemma prepare_command_ok sequence c c' :
  0 <= sequence <= u64_max -> command_valid c -> prepare_command sha256 view sequence c = Ok c' ->
  command_wf c' /\ 0 < sequence < u64_max /\ (forall digest, operation_of digest c' = operation_of digest c) /\
  exists body, encode_command c' = Ok (command_kind c, body) /\ decode_command (command_kind c) body = Ok c'.
Proof.
  intros Hs Hv Hp. unfold prepare_command in Hp. step_if Hp eqn Er. apply orb_false_iff in Er as [E0 E1].
  assert (command_wf c' /\ (forall digest, operation_of digest c' = operation_of digest c) /\
    exists body, encode_command c' = Ok (command_kind c, body)) as (Hwf & Hop & body & Hb).
  2: { split; [done|]. split; [blia|]. split; [done|]. exists body. split; [done|]. by apply decode_command_encode. }
  destruct c as [t claims m|o|p].
  - destruct Hv as [Hc Hm]. step_ok Hp as [] eqn Hcount. step_ok Hp as p eqn Hprep. injection Hp as <-.
    destruct (prepare_transaction_ok _ _ _ _ _ Hs Hc Hm Hprep) as [[Lp La] _ Hn [Hcc Hf]].
    split; [done|]. split; [done|]. set (m' := prepared_manifest p) in *. cbn [command_kind].
    pose proof (limit_small claims 0 Hc). pose proof (limit_small claims 4 Hc).
    assert (exists data, AccessManifest_encode m' = Ok data) as [data Hd].
    { unfold AccessManifest_encode. apply check_count_ok in Hcc as [_ ?]. rewrite (proj2 (check_count_ok _ _ tt)) by done. by eexists. }
    pose proof (encode_manifest_max _ _ Hd Hf). exists (transaction_body t claims data). apply encode_transaction_ok.
    split; [done|]. split; [done|]. exists data. unfold u32_max. split; [done|]. split; [done|]. lia.
  - step_ok Hp as [] eqn Hval. injection Hp as <-. split; [done|]. split; [done|]. cbn [encode_command command_kind]. rewrite Hval. cbn [bindR].
    destruct (encode_operation_ok o [x01; x00] Hv Hval) as [body ->]. by eexists.
  - injection Hp as <-. split; [done|]. split; [done|]. by eexists.
Qed.
Lemma validate_no_panic manifest required tables claims :
  Forall table_wf tables -> no_panic (validate manifest required tables claims).
Proof.
  intros Ht. unfold validate. apply bindR_no_panic; [apply check_count_no_panic|]. intros _ _. apply bindR_no_panic.
  - generalize (@nil (OrderKey * Z)). induction (entries manifest) as [|[scope mode] es IH]; intros ds; cbn [declare]; [done|].
    apply bindR_no_panic; [apply ok_or_no_panic|]. intros t E%ok_or_ok. unfold find_table in E.
    apply List.find_some in E as [Hin _]. apply list_elem_of_In in Hin. rewrite Forall_forall in Ht.
    apply bindR_no_panic; [|intros _ _; apply IH]. destruct scope as [|table key]; [done|].
    destruct (table_key_schema t (Ht t Hin)) as (d & node & Hof & _). unfold schema_of in Hof. step_ok Hof as d' eqn Hd.
    rewrite (descriptor_any (E:=Failure) (F:=Error) _ _ Hd). cbn [bindR].
    apply bindR_no_panic; [apply map_err_no_panic, Schema_decode_no_panic|]. intros schema _.
    apply bindR_no_panic; [apply map_err_no_panic, decode_key_no_panic|done].
  - intros ds _. apply foldR_no_panic. intros u [scope mode]. unfold cover_entry. by destruct (negb _).
Qed.

(** Preparation never panics, whatever the program and its arguments are. *)
Lemma prepare_command_no_panic sequence c :
  0 <= sequence <= u64_max -> command_valid c -> no_panic (prepare_command sha256 view sequence c).
Proof.
  intros Hs Hv. unfold prepare_command. destruct (_ || _); [done|]. destruct c as [t claims m|o|p]; [|solve_no_panic|done].
  destruct Hv as [Hc _]. apply bindR_no_panic; [destruct m; solve_no_panic|]. intros _ _. apply bindR_no_panic; [|done].
  unfold prepare_transaction. apply bindR_no_panic; [by eapply prepare_program_no_panic|]. intros [prior program] Hp.
  eapply (prepare_program_ok view contents checkpoint last Hview Hworld claims) in Hp; [|done].
  pose proof (prepared_tables_wf _ _ _ _ Hp) as Ht. pose proof (prepared_types _ _ _ _ _ Hp) as (at_ & ct & Hadm).
  unfold finish_preparation. apply bindR_no_panic; [by eapply derive_no_panic|]. intros required _.
  apply bindR_no_panic; [by apply validate_no_panic|done].
Qed.
End Prepare.

(** ** Execution *)
Section Execute.
Context (sha256 : bytes -> bytes) `{StoreLaws Db View Cell}.

(** The database after a command: the operation it runs, resolved as the next
    record under the digest of the record that carries it. *)
Definition command_resolved (store : Db) (contents : Contents) (last sequence : Z) (digest : bytes) (c : Command)
    (o : Outcome) (contents' : Contents) : Prop :=
  operation_outcome sha256 (store_view store) sequence (operation_of digest c) = Ok o /\
  resolved (operation_record sequence (operation_of digest c) o) (checkpoint_sequence store) last contents contents'.

(** A prepared command is resolved as the next record, completely or not at
    all. *)
Lemma execute_command_world (store : Db) contents last sequence digest c :
  holds store contents -> world contents (checkpoint_sequence store) last -> command_valid c -> len digest = 32 ->
  0 <= sequence <= u64_max ->
  match execute_command sha256 store sequence digest c with
  | (store', Ok o) => sequence = last + 1 /\ (exists c', prepare_command sha256 (store_view store) sequence c = Ok c') /\
      exists contents', holds store' contents' /\ world contents' (checkpoint_sequence store') sequence /\
        checkpoint_sequence store' = checkpoint_sequence store /\
        command_resolved store contents last sequence digest c o contents'
  | (store', Err _) => holds store' contents /\ world contents (checkpoint_sequence store') last /\
      checkpoint_sequence store' = checkpoint_sequence store
  | (_, Panic) => False
  end.
Proof.
  intros Hh Hw Hv Hd Hs. pose proof (holds_view _ _ Hh) as Hview. unfold execute_command, validate_command.
  pose proof (prepare_command_no_panic sha256 (store_view store) contents _ _ Hview Hw sequence c Hs Hv) as Hn.
  destruct (prepare_command _ _ _ _) as [c'| |] eqn:Hp; cbn [bindR]; [|done|done].
  pose proof (execute_operation_world sha256 store contents last sequence (operation_of digest c) Hh Hw
    (operation_of_ok _ _ Hv Hd) Hs) as Hx.
  replace (run_command sha256 store sequence digest c) with (execute_operation sha256 store sequence (operation_of digest c)) by by destruct c.
  destruct (execute_operation _ _ _ _) as [store' [o|e|]]; [|done|done].
  destruct Hx as (Es & Ho & Ecp & contents' & Hh' & Hw' & Hr). split; [done|]. split; [by eexists|].
  by exists contents'.
Qed.

(** Execution changes the store by one batch at most. *)
Lemma execute_command_batch (store : Db) sequence digest c :
  (execute_command sha256 store sequence digest c).1 = store \/
  exists changes, (execute_command sha256 store sequence digest c).1 = (store_apply store changes).1.
Proof.
  unfold execute_command. destruct (validate_command _ _ _ _); [|by left..].
  assert (forall kind compute, (execute_record store sequence digest kind compute).1 = store \/
    exists changes, (execute_record store sequence digest kind compute).1 = (store_apply store changes).1) as Hr.
  { intros kind compute. unfold execute_record, install. destruct (bindR _ compute) as [o| |]; [|by left..].
    destruct (install_changes _ _ _ _ _) as [changes| |]; [|by left..]. right. exists changes.
    by destruct (store_apply store changes). }
  unfold run_command, execute, execute_bytes, execute_catalogue, execute_limits. destruct c; apply Hr.
Qed.
End Execute.

(** ** Agreement *)
(** A command has one outcome over databases whose newest snapshots show the
    same, whatever their storage is. *)
Section Agreement.
Context (sha256 : bytes -> bytes).
Context `{S1 : Storage View1 Cell1} (view1 : View1) (contents1 : Contents) (checkpoint1 : Z).
Context `{S2 : Storage View2 Cell2} (view2 : View2) (contents2 : Contents) (checkpoint2 last : Z).
Context (Hview1 : Represents view1 contents1) (Hview2 : Represents view2 contents2).
Context (Hworld1 : world contents1 checkpoint1 last) (Hworld2 : world contents2 checkpoint2 last).
Context (Hsame : snapshot contents1 last ≡ snapshot contents2 last).

Let Hup1 : versions_upto contents1 last := history_versions _ _ _ (world_history _ _ _ Hworld1).
Let Hup2 : versions_upto contents2 last := history_versions _ _ _ (world_history _ _ _ Hworld2).
Let Hlast : 0 <= last < u64_max.
Proof. pose proof (history_bounds _ _ _ (world_history _ _ _ Hworld1)). lia. Qed.

Lemma version_agree id : 0 <= id <= u64_max -> catalogue_version view1 id last = catalogue_version view2 id last.
Proof.
  intros Hi. rewrite (catalogue_version_read view1 contents1 last Hview1 Hup1), (catalogue_version_read view2 contents2 last Hview2 Hup2) by lia.
  destruct Hsame as (_ & Ht & _). cbn in Ht. by rewrite Ht.
Qed.

Lemma name_agree wanted except : name_in_use view1 last wanted except = name_in_use view2 last wanted except.
Proof.
  destruct (name_in_use_iff view1 contents1 Hview1 last wanted except) as (b1 & -> & H1); [by eapply upto_catalogue_entries|].
  destruct (name_in_use_iff view2 contents2 Hview2 last wanted except) as (b2 & -> & H2); [by eapply upto_catalogue_entries|].
  assert (b1 = true <-> b2 = true) as Hb; [|destruct b1, b2; naive_solver]. rewrite H1, H2. unfold name_taken.
  destruct Hsame as (_ & Ht & _). cbn in Ht. by setoid_rewrite Ht.
Qed.

Lemma policy_agree : database_policy view1 last = database_policy view2 last.
Proof.
  destruct (database_policy_at view1 contents1 Hview1 last) as (p1 & E1 & ->); [by eapply upto_policy_entries|apply Hup1|done|].
  destruct (database_policy_at view2 contents2 Hview2 last) as (p2 & E2 & ->); [by eapply upto_policy_entries|apply Hup2|done|].
  destruct Hsame as (_ & _ & Hp). cbn in Hp. congruence.
Qed.

Lemma catalogue_agree operation : operation_wf operation -> database_catalogue view1 (last + 1) operation = database_catalogue view2 (last + 1) operation.
Proof.
  intros Hwf. unfold database_catalogue. destruct (valid_id (last + 1)) as [u|error|]; cbn [bindR]; [|done..].
  destruct (validate_catalogue operation) as [u'|error|]; cbn [bindR]; [|done..].
  replace (last + 1 - 1) with last by lia. rewrite arith_u64_ok by lia. cbn [bindR].
  destruct operation as [n k v|t n|t]; cbn [operation_wf] in Hwf; rewrite ?name_agree, ?version_agree by (lia || tauto); done.
Qed.

Lemma program_agree pb ab claims : prepare_program view1 (last + 1) pb ab claims = prepare_program view2 (last + 1) pb ab claims.
Proof.
  unfold prepare_program, prior_sequence. destruct (_ || _); [done|]. replace (last + 1 - 1) with last by lia. rewrite arith_u64_ok by lia. cbn [bindR].
  rewrite policy_agree. destruct (database_policy view2 last) as [policy|error|]; cbn [bindR]; [|done..]. destruct (any_above _ _); [done|].
  destruct (table_ids pb) as [ids|error|] eqn:Hids; cbn [bindR]; [|done..]. apply table_ids_range in Hids.
  assert (mapR (fun id => database_table view1 id last) ids = mapR (fun id => database_table view2 id last) ids) as E; [|by rewrite E].
  induction Hids as [|id ids Hid _ IH]; [done|]. cbn [mapR]. rewrite IH. unfold database_table. by rewrite version_agree by lia.
Qed.

Lemma transaction_agree transaction claims manifest prepared1 :
  policy_wf claims -> prepare_transaction sha256 view1 (last + 1) transaction claims manifest = Ok prepared1 ->
  interpret sha256 view1 (last + 1) (transaction_program transaction) (transaction_arguments transaction) claims =
  interpret sha256 view2 (last + 1) (transaction_program transaction) (transaction_arguments transaction) claims.
Proof.
  intros Hc Hp. unfold prepare_transaction in Hp. step_ok Hp as [prior program] eqn Hprog. unfold finish_preparation in Hp.
  step_ok Hp as required eqn Hd. cbv zeta in Hp. step_ok Hp as [] eqn Hv. clear Hp. unfold interpret.
  pose proof Hprog as Hprog2. rewrite program_agree in Hprog2. rewrite Hprog, Hprog2. cbn [bindR].
  assert (0 <= last + 1 <= u64_max) as Hs by lia.
  pose proof (prepare_program_ok view1 contents1 checkpoint1 last Hview1 Hworld1 claims _ _ _ _ _ Hs Hprog) as P1.
  pose proof (prepare_program_ok view2 contents2 checkpoint2 last Hview2 Hworld2 claims _ _ _ _ _ Hs Hprog2) as P2.
  pose proof (prepared_types _ _ _ _ _ P1) as (ats & cts & Hadm). pose proof (prepared_next _ _ _ _ _ P1) as [-> _].
  refine (proj1 (run_frame sha256 program claims ats cts Hc Hadm required _ Hd Hv view1 contents1 _ view2 contents2 _ _ _ _)).
  - by eapply prepared_database.
  - by eapply prepared_database.
  - intros table key _. replace (last + 1 - 1) with last by lia. destruct Hsame as (Hr & _). apply Hr.
Qed.

Lemma command_agree digest command prepared1 :
  command_valid command -> prepare_command sha256 view1 (last + 1) command = Ok prepared1 ->
  operation_outcome sha256 view1 (last + 1) (operation_of digest command) = operation_outcome sha256 view2 (last + 1) (operation_of digest command).
Proof.
  intros Hv Hp. destruct command as [transaction claims manifest|operation|policy]; cbn [operation_of operation_outcome command_valid] in *; [|by apply catalogue_agree|done].
  unfold prepare_command in Hp. step_if Hp. step_ok Hp as [] eqn Hcount. step_ok Hp as p eqn Hprep. destruct Hv as [Hc _].
  eapply transaction_agree; [exact Hc|exact Hprep].
Qed.
End Agreement.
