(* ===== verification/Engine.v ===== *)
(** * The engine ([src/src/database/engine.rs])

    How a command becomes durable and how it is replayed: [commit] appends the
    record of a prepared command before it runs the command, then publishes
    the new roots as the checkpoint; [recover] validates the checkpoint that
    was opened and runs again the commands of the log above it.  Each
    operation is a program over the store and its directory. *)
From S2P Require Import Prelude OrdMap Errors Reader Encoding EncodingFacts Limits Operations Program ProgramFacts Access Analysis Catalogue Storage Mvcc MvccFacts Overlay Outcome OutcomeFacts Administration Snapshots Installation Runtime Execution World Retained Command Bytes Platform Page PageFacts NodeFacts FileFacts Metadata MetadataFacts Wal WalFacts LogFacts LogChains LogValidation Tree TreeFacts TreeEdits Checkpoint CheckpointFacts Store StoreFacts Directory Log Publication LogAppend LogRecovery LogSurvival LogExtension PublicationFacts History Lifecycle.

(** ** Errors and receipts ([src/src/database/mod.rs]) *)
Inductive DbError : Type :=
| Db_ReadOnly
| Db_SnapshotRevoked
| Db_HistoryUnavailable
| Db_CursorReleased
| Db_CursorIdExhausted
| Db_InvalidToken (reason : string)
| Db_InvalidFormat (reason : string)
| Db_InvalidInput (reason : string)
| Db_BatchTooSmall (required : Z)
| Db_Read (error : Error)
| Db_Rejected (error : Error)
| Db_OperationalLimit (resource : string) (required limit : Z)
| Db_Storage (error : StorageError)
| Db_Uncertain (sequence : option Z) (source : option Error)
| Db_Closed.

Record Receipt : Type := { receipt_sequence : Z; receipt_outcome : Outcome }.

(** ** Programs over the store and its directory *)
Definition EngineM (E A : Type) : Type := Store -> Directory -> Directory * (Store * Result E A).

Definition liftE {E A} (m : Result E A) : EngineM E A := fun store dir => (dir, (store, m)).
Definition bindE {E A B} (m : EngineM E A) (k : A -> EngineM E B) : EngineM E B := fun store dir =>
  match m store dir with
  | (dir, (store, Ok a)) => k a store dir
  | (dir, (store, Err error)) => (dir, (store, Err error))
  | (dir, (store, Panic)) => (dir, (store, Panic))
  end.
Notation "'do&' p ':=' m 'in' k" := (bindE m (fun p => k))
  (at level 200, p pattern, m at level 100, k at level 200).
Definition okE {E A} (a : A) : EngineM E A := liftE (Ok a).
Definition errE {E A} (error : E) : EngineM E A := liftE (Err error).
Definition get_store {E} : EngineM E Store := fun store dir => (dir, (store, Ok store)).
Definition get_files {E} : EngineM E (Z -> option bytes) := fun store dir => (dir, (store, Ok (log_contents dir))).
(** [map_err] *)
Definition map_errE {E F A} (f : E -> F) (m : EngineM E A) : EngineM F A := fun store dir =>
  let '(dir, (store, r)) := m store dir in (dir, (store, map_err f r)).
(** An operation of the store that leaves the directory alone. *)
Definition on_store {E A} (operation : Store -> Store * Result E A) : EngineM E A := fun store dir =>
  let '(store, r) := operation store in (dir, (store, r)).

Definition rejection (error : Error) : DbError :=
  match error with
  | Error_Storage error => Db_Storage error
  | error => Db_Rejected error
  end.

(** A file of the log that is missing, or that cannot be read. *)
Definition authoritative_io (missing : bool) : StorageError :=
  if missing then Corrupt "missing bytes in authoritative log" else Io.

Definition replay_error (error : Error) : StorageError :=
  match error with
  | Error_Invalid reason => Corrupt reason
  | Error_Unsupported format version => StorageUnsupported format version
  | Error_Storage (InvalidInput reason) => Corrupt reason
  | Error_Storage error => error
  end.

Section Engine.
Context `{Checksum} `{Sha256}.

(** ** Envelopes *)
Definition envelope (sequence : Z) (predecessor : bytes) (kind : Z) (body : bytes) : Result Error bytes :=
  let length := len body + 72 in
  if length >? MAX_RECORD_LENGTH then Err (Error_Invalid "log record exceeds 64 MiB") else
  if (sequence =? 0) || (sequence =? u64_max) || negb ((1 <=? kind) && (kind <=? 3))
  then Err (Error_Invalid "invalid log record sequence or kind") else
  let* header := copy_at (zeros 64) 0 record_magic in
  let* header := copy_at header 4 (le_bytes 2 64) in
  let* header := copy_at header 6 (le_bytes 2 1) in
  let* header := copy_at header 8 (le_bytes 4 length) in
  let* header := copy_at header 12 (le_bytes 4 (len body)) in
  let* header := copy_at header 16 (le_bytes 8 sequence) in
  let* header := copy_at header 24 (le_bytes 1 kind) in
  let* header := copy_at header 28 predecessor in
  let data := header ++ body in
  let data := data ++ le_bytes 4 (crc32c data) in
  Ok (data ++ le_bytes 4 length).

(** [append_batch] and [append] *)
Definition append_batch (records : list (Z * bytes)) : EngineM StorageError bytes := fun store dir => append_wal store records dir.
Definition append (sequence : Z) (data : bytes) : EngineM StorageError bytes := append_batch [(sequence, data)].

Definition publish_checkpoint : EngineM StorageError unit := fun store dir =>
  let manifest := store_manifest store in
  publish true store (view store)
    (set_checkpoint manifest (durable_sequence manifest) (durable_digest manifest) (history_floor manifest)) dir.

(** ** Committing one command *)
(** The part of [commit] before its first write: the sequence, the prepared
    command and its record. *)
Definition prepare_commit (store : Store) (command : Command) : Result DbError (Z * Command * bytes) :=
  let manifest := store_manifest store in
  if negb (manifest_checkpoint_sequence manifest =? durable_sequence manifest) then Err (Db_Storage NeedsRecovery) else
  let* sequence :=
    ok_or (Db_Storage Exhausted)
      match checked_u64 (durable_sequence manifest + 1) with
      | Some sequence => if sequence =? u64_max then None else Some sequence
      | None => None
      end in
  let* command := map_err rejection (prepare_command sha256 (view store) sequence command) in
  let* (kind, body) := map_err rejection (encode_command command) in
  let* data := map_err rejection (envelope sequence (durable_digest manifest) kind body) in
  Ok (sequence, command, data).

Definition uncertain (sequence : Z) (source : Error) : DbError := Db_Uncertain (Some sequence) (Some source).

Definition commit (command : Command) : EngineM DbError Receipt :=
  do& store := get_store in
  do& (sequence, command, data) := liftE (prepare_commit store command) in
  do& digest := map_errE (fun error => uncertain sequence (Error_Storage error)) (append sequence data) in
  do& outcome := map_errE (uncertain sequence)
    (on_store (fun store => execute_command sha256 store sequence digest command)) in
  do& _ := map_errE (fun error => uncertain sequence (Error_Storage error)) publish_checkpoint in
  okE {| receipt_sequence := sequence; receipt_outcome := outcome |}.

(** ** Recovery *)
Definition validate_checkpoint_record (view : PageView) (history : Retained.History) (sequence : Z) (digest : bytes) (kind : Z)
    (command : Command) : Result Error unit :=
  let* _ := validate_command sha256 view sequence command in
  let* outcome := read_outcome view sequence in
  let disagrees :=
    match outcome with
    | Some outcome => negb (record_kind outcome =? kind) || negb (bool_decide (Outcome.record_digest outcome = digest))
    | None => false
    end in
  if disagrees || match version_kind history sequence with Some version => negb (version =? kind) | None => false end
  then Err (Error_Invalid "retained history disagrees with source record kind or digest") else
  match command with
  | Command_Transaction transaction claims _ =>
      match outcome with
      | Some outcome => validate_transaction_outcome view sequence transaction claims outcome
      | None => Ok tt
      end
  | Command_Catalogue operation => validate_catalogue_record view history sequence operation outcome
  | Command_Limits policy => validate_limits_record view history sequence policy outcome
  end.

Section Replay.
Context (manifest : Manifest) (checkpoint : PageView) (history : Retained.History).

(** [record::decode(bytes[24], &bytes[RECORD_HEADER_LENGTH..bytes.len() - 8])],
    with the kind. *)
Definition decode_record (data : bytes) : Result StorageError (Z * Command) :=
  let* kind := expect (data !! 24%nat) in
  let* body := slice_at data 64 (len data - 8) in
  let* command := map_err replay_error (decode_command (byte_Z kind) body) in
  Ok (byte_Z kind, command).

(** The body of the loop over the records of a segment: the newest sequence
    resolved and the digest of the record before. *)
Definition replay_record (state : Z * bytes) (record : LogRecord) : EngineM StorageError (Z * bytes) :=
  let '(resolved, predecessor) := state in
  let sequence := Wal.record_sequence record in
  let digest := Wal.record_digest record in
  if (sequence =? manifest_checkpoint_sequence manifest) && negb (bool_decide (digest = checkpoint_digest manifest))
  then errE (Corrupt "log checkpoint digest mismatch") else
  do& (kind, command) := liftE (decode_record (record_bytes record)) in
  if sequence >? manifest_checkpoint_sequence manifest then
    do& next := liftE (arith_u64 (resolved + 1)) in
    if negb (sequence =? next)
       || ((resolved =? manifest_checkpoint_sequence manifest) && negb (bool_decide (predecessor = checkpoint_digest manifest)))
    then errE (Corrupt "noncontiguous recovery suffix") else
    do& store := get_store in
    do& _ := liftE (map_err replay_error (validate_command sha256 (view store) sequence command)) in
    do& _ := map_errE replay_error (on_store (fun store => execute_command sha256 store sequence digest command)) in
    okE (sequence, digest)
  else
    do& store := get_store in
    do& _ := liftE (map_err replay_error
      (validate_checkpoint_record (pinned_view checkpoint (pages store)) history sequence digest kind command)) in
    okE (resolved, digest).

Fixpoint replay_records (fuel : nat) (state : Z * bytes) (records : Records) : EngineM StorageError (Z * bytes) :=
  match records_item records with
  | (_, None) => okE state
  | (records, Some item) =>
      do& record := liftE item in
      do& state := replay_record state record in
      match fuel with
      | O => liftE Panic
      | Datatypes.S fuel => replay_records fuel state records
      end
  end.

(** The body of the loop over the segments. *)
Definition replay_segment (resolved : Z) (segment : SegmentDescriptor) : EngineM StorageError Z :=
  do& files := get_files in
  do& file := liftE (ok_or (authoritative_io true) (files (segment_id segment))) in
  do& records := liftE (Records_new file (database_id manifest) segment) in
  do& (resolved, predecessor) := replay_records (records_fuel records) (resolved, predecessor_digest segment) records in
  if negb (bool_decide (predecessor = last_digest segment))
  then errE (Corrupt "committed log prefix endpoint mismatch") else okE resolved.

Fixpoint replay_segments (resolved : Z) (segs : list SegmentDescriptor) : EngineM StorageError Z :=
  match segs with
  | [] => okE resolved
  | segment :: segs =>
      do& resolved := replay_segment resolved segment in
      replay_segments resolved segs
  end.
End Replay.

Definition recover : EngineM StorageError unit :=
  do& store := get_store in
  let manifest := store_manifest store in
  let checkpoint := checkpoint_view store in
  do& history := liftE (map_err replay_error (validate_history checkpoint manifest (store_genesis store))) in
  do& resolved := replay_segments manifest checkpoint history (manifest_checkpoint_sequence manifest) (segments manifest) in
  if negb (resolved =? durable_sequence manifest) then errE (Corrupt "incomplete recovery suffix") else
  if negb (manifest_checkpoint_sequence manifest =? durable_sequence manifest) then publish_checkpoint else okE tt.

(** ** Envelopes are canonical records *)
Lemma envelope_eq sequence predecessor kind body :
  len predecessor = 32 ->
  envelope sequence predecessor kind body =
  if len body + 72 >? MAX_RECORD_LENGTH then Err (Error_Invalid "log record exceeds 64 MiB") else
  if (sequence =? 0) || (sequence =? u64_max) || negb ((1 <=? kind) && (kind <=? 3))
  then Err (Error_Invalid "invalid log record sequence or kind") else Ok (record_image sequence kind predecessor body).
Proof.
  intros Hp. unfold envelope. destruct (_ >? _); [done|]. destruct (_ || _); [done|]. assert (len record_magic = 4) as Hm by done.
  change (zeros 64) with (zeros 4 ++ zeros 2 ++ zeros 2 ++ zeros 4 ++ zeros 4 ++ zeros 8 ++ zeros 1 ++ zeros 3 ++ zeros 32 ++ zeros 4).
  rewrite copy_at_here by done. cbn [bindR]. do 7 (field_skip; rewrite copy_at_here by field_len; cbn [bindR]).
  unfold record_image, append_crc, record_head. rewrite (Z.add_comm (len body) 72). by rewrite <-!app_assoc.
Qed.

Lemma decode_record_image sequence kind predecessor body :
  1 <= kind <= 3 -> len predecessor = 32 ->
  decode_record (record_image sequence kind predecessor body) =
  let* command := map_err replay_error (decode_command kind body) in Ok (kind, command).
Proof.
  intros Hk Hp. unfold decode_record. rewrite len_record_image by done. unfold record_image, append_crc.
  pose proof (len_record_head sequence kind predecessor (len body) Hp) as Hl. set (head := record_head _ _ _ _) in *.
  assert (head !! 24%nat = Byte.of_N (Z.to_N kind)) as Hb.
  { unfold head, record_head. assert (kind = 1 \/ kind = 2 \/ kind = 3) as [ -> | [ -> | -> ] ] by lia; done. }
  assert (exists b, Byte.of_N (Z.to_N kind) = Some b /\ byte_Z b = kind) as (b & Eb & Ekind).
  { assert (kind = 1 \/ kind = 2 \/ kind = 3) as [ -> | [ -> | -> ] ] by lia; by eexists. }
  rewrite <-!app_assoc. rewrite lookup_app_l by (unfold len in Hl; lia). rewrite Hb, Eb. cbn [expect bindR].
  rewrite (slice_at_app head body) by lia. cbn [bindR]. by rewrite Ekind.
Qed.

(** ** The engine keeps the store and the database *)
(** The store and its files are sound, and the newest maps are a well-typed
    database at the durable sequence. *)
Record engine_sound (dir : Directory) (store : Store) (records : list bytes) (contents saved : Contents) : Prop := {
  engine_store : sound dir store records contents saved;
  engine_world : world contents (manifest_checkpoint_sequence (store_manifest store)) (durable_sequence (store_manifest store)) }.

Lemma world_checkpoint contents checkpoint checkpoint' last :
  world contents checkpoint last -> checkpoint <= checkpoint' <= last -> world contents checkpoint' last.
Proof. intros [[V [B1 B2] C] T] Hc. split; [|done]. split; [done|lia|]. intros s Hs. apply C. lia. Qed.

Lemma sound_contents dir store records contents contents' saved :
  sound dir store records contents saved -> store_holds store contents' -> sound dir store records contents' saved.
Proof. by intros [[? _ ? ?] ?] ?. Qed.


Lemma append_record_sound dir store sequence data records contents saved :
  sound dir store records contents saved ->
  match append sequence data store dir with
  | (dir', (store', Ok digest)) => sound dir' store' (records ++ [data]) contents saved /\ digest = sha256 data
      /\ manifest_checkpoint_sequence (store_manifest store') = manifest_checkpoint_sequence (store_manifest store)
      /\ reader (pages store') = reader (pages store) /\ store_roots store' = store_roots store
      /\ store_genesis store' = store_genesis store
  | (dir', (store', Err _)) => sound dir' store' records contents saved
  | (_, (_, Panic)) => False
  end.
Proof.
  intros Hs. pose proof (append_sound dir store [(sequence, data)] records contents saved Hs) as Ha. pose proof (sound_history _ _ _ _ _ Hs) as Hd.
  pose proof (durable_floor _ _ _ Hd) as Hfl. pose proof Hd as [T Hv Hl Hr _ _].
  pose proof (append_wal_spec store [(sequence, data)] dir _ T Hv Hr) as Hspec. unfold append, append_batch.
  destruct (append_wal store [(sequence, data)] dir) as [dir' [store' [digest|error|]]]; cbn [map snd] in Ha, Hspec; [|by destruct Ha|by destruct Ha].
  destruct Ha as [_ Ha]. destruct Hspec as (_ & _ & (TN & HvN & HrN & HdN & Hf & Hcp & Est & _) & ->).
  split; [done|]. split; [|by rewrite Est].
  destruct (log_chain _ _ _ TN HvN HrN) as (p & _ & Hc). apply records_chain_split in Hc as (e & _ & Hc). by destruct Hc as [_ Hc].
Qed.

Lemma checkpoint_typed m sequence digest floor :
  manifest_typed m -> is_u64 sequence -> len digest = 32 -> is_u64 floor -> manifest_typed (set_checkpoint m sequence digest floor).
Proof. by intros []. Qed.

(** A published checkpoint: the newest maps become the saved ones. *)
Lemma publish_checkpoint_sound dir store records contents saved :
  sound dir store records contents saved ->
  match publish_checkpoint store dir with
  | (dir', (store', Ok _)) => sound dir' store' records contents contents
      /\ manifest_checkpoint_sequence (store_manifest store') = durable_sequence (store_manifest store')
      /\ store_roots store' = store_roots store /\ settled dir' CURRENT
  | (dir', (store', _)) => sound dir' store' records contents saved \/ sound dir' store' records contents contents
  end.
Proof.
  intros Hs. pose proof Hs as [[Hd Hh _ _] _]. pose proof (durable_typed _ _ _ Hd) as T. unfold publish_checkpoint.
  set (given := set_checkpoint _ _ _ _). assert (manifest_typed given) as Tg by (by apply checkpoint_typed; destruct T).
  pose proof (view_of_store _ _ Hh) as Hv. pose proof (publish_sound true dir store (view store) given contents records contents saved Hs Hv Tg) as Hp.
  destruct (publish true store (view store) given dir) as [dir' [store' r]] eqn:Hpub.
  destruct Hp as [(more & saved' & Hs' & Hr)|(g & rs' & _ & _ & Hre)]; [|by destruct (Hre eq_refl eq_refl)].
  apply publish_inv in Hpub as [(Hne & -> & ->)|(_ & Hnp & g & proofs & logs & f & Hck & Hsame & _ & _ & Hst)];
    [|..|apply T|intros g Hg; eapply completed_typed; [apply Hh|done..]].
  { destruct r as [[]|error|]; [done|by left..]. }
  destruct r as [[]|error|]; [|destruct Hr as [-> [-> | ->]]; rewrite app_nil_r in Hs'; tauto|done].
  destruct Hr as [-> Hset]. subst store'. cbn [published_store set_pages store_manifest store_roots].
  pose proof (durable_length _ _ _ (sound_history _ _ _ _ _ Hs')) as Hl. pose proof (durable_length _ _ _ Hd) as Hl0. cbn in Hl.
  assert (more = []) as ->. { destruct more as [|x more]; [done|]. rewrite len_app, len_cons in Hl. pose proof (len_nonneg more). lia. }
  by rewrite app_nil_r in Hs'.
Qed.

(** ** One record *)
(** One record run over well-typed maps. *)
Definition record_step (contents : Contents) (last : Z) (data : bytes) (outcome : Outcome) (contents' : Contents) : Prop :=
  exists kind command view, decode_record data = Ok (kind, command) /\ Represents (view : PageView) contents
    /\ (exists prepared, prepare_command sha256 view (last + 1) command = Ok prepared)
    /\ operation_outcome sha256 view (last + 1) (operation_of (sha256 data) command) = Ok outcome
    /\ resolved (operation_record (last + 1) (operation_of (sha256 data) command) outcome) last last contents contents'
    /\ world contents' (last + 1) (last + 1).

Lemma resolved_checkpoint r checkpoint checkpoint' last contents contents' :
  resolved r checkpoint last contents contents' -> checkpoint <= checkpoint' <= Outcome.record_sequence r -> resolved r checkpoint' last contents contents'.
Proof. intros [[V B C] O N D K] Hc. split; try done. split; [done|lia|]. intros s Hs. apply C. lia. Qed.

Lemma decode_record_valid data kind command : decode_record data = Ok (kind, command) -> command_valid command.
Proof.
  unfold decode_record. intros Hd. step_ok Hd as b eqn Hb. step_ok Hd as body eqn Hbody. step_ok Hd as c eqn Hc. injection Hd as <- <-.
  apply map_err_ok, decode_command_iff in Hc as [_ Hc]. by apply command_wf_valid.
Qed.

Lemma execute_sound dir store records contents saved last sequence data kind command :
  sound dir store records contents saved -> world contents (manifest_checkpoint_sequence (store_manifest store)) last ->
  0 <= sequence <= u64_max -> decode_record data = Ok (kind, command) ->
  match execute_command sha256 store sequence (sha256 data) command with
  | (store', Ok outcome) => sequence = last + 1 /\ exists contents', sound dir store' records contents' saved
      /\ world contents' (manifest_checkpoint_sequence (store_manifest store)) sequence
      /\ store_manifest store' = store_manifest store
      /\ record_step contents last data outcome contents'
  | (store', Err _) => sound dir store' records contents saved /\ store_manifest store' = store_manifest store
  | (_, Panic) => False
  end.
Proof.
  intros Hs Hw Hseq Hdec. pose proof Hs as [[Hd Hh _ _] _].
  pose proof (decode_record_valid _ _ _ Hdec) as Hval.
  pose proof (execute_command_world sha256 store contents last sequence (sha256 data) command Hh Hw Hval (sha256_len data) Hseq) as Hx.
  pose proof (execute_command_batch sha256 store sequence (sha256 data) command) as Hb.
  destruct (execute_command sha256 store sequence (sha256 data) command) as [store' r]. cbn [fst] in Hb.
  assert (exists contents', sound dir store' records contents' saved /\ store_manifest store' = store_manifest store) as (contents1 & Hs' & Em).
  { destruct Hb as [->|[changes ->]]; [by exists contents|]. pose proof (apply_sound _ _ changes _ _ _ Hs) as Ha.
    pose proof (apply_quiet store changes) as (Q1 & _). change (store_apply store changes) with (apply store changes).
    destruct (apply store changes) as [s1 r1]. destruct Ha as [_ Ha]. by eexists. }
  destruct r as [outcome|error|]; [| |done].
  - destruct Hx as (-> & Hp & contents' & Hh' & Hw' & Ecp & Ho & Hr). split; [done|]. exists contents'.
    split; [by eapply sound_contents|]. change (checkpoint_sequence store') with (manifest_checkpoint_sequence (store_manifest store')) in Hw'.
    rewrite Em in Hw'. split; [done|]. split; [done|]. exists kind, command, (view store). split; [done|]. split; [exact (holds_view store contents Hh)|].
    pose proof (history_bounds _ _ _ (world_history _ _ _ Hw)) as Hbound. cbn in Hbound. split; [done|]. split; [done|]. split.
    + eapply resolved_checkpoint; [exact Hr|]. cbn in *. lia.
    + eapply world_checkpoint; [exact Hw'|]. lia.
  - destruct Hx as (Hh' & _). split; [by eapply sound_contents|done].
Qed.
(** ** Commits *)
Lemma prepare_commit_ok dir store records contents saved command :
  engine_sound dir store records contents saved -> command_valid command ->
  no_panic (prepare_commit store command) /\
  forall sequence c data, prepare_commit store command = Ok (sequence, c, data) ->
    manifest_checkpoint_sequence (store_manifest store) = len records /\ sequence = len records + 1 /\ 0 <= sequence <= u64_max
    /\ decode_record data = Ok (command_kind command, c) /\ forall digest, operation_of digest c = operation_of digest command.
Proof.
  intros [Hs Hw] Hv. pose proof (holds_view _ _ (sound_store _ _ _ _ _ Hs)) as Hview. change (store_view store) with (view store) in Hview.
  pose proof (sound_history _ _ _ _ _ Hs) as Hd. pose proof (durable_typed _ _ _ Hd) as T. pose proof (typed_durable _ T) as [Hdu _].
  pose proof (typed_durable_digest _ T) as Hdig. unfold prepare_commit. cbv zeta. destruct (negb _) eqn:Ecp; [done|]. apply negb_false_iff, Z.eqb_eq in Ecp.
  rewrite Ecp, (durable_length _ _ _ Hd) in *. set (n := len records) in *. unfold checked_u64, in_u64.
  rewrite (proj2 (Z.leb_le 0 (n + 1))) by lia. cbn [andb]. destruct (Z.leb_spec (n + 1) u64_max) as [Hle|]; [|done].
  destruct (Z.eqb_spec (n + 1) u64_max) as [|Hne]; [done|]. cbn [ok_or bindR]. assert (0 <= n + 1 <= u64_max) as Hr by lia.
  pose proof (prepare_command_no_panic sha256 (view store) contents _ _ Hview Hw (n + 1) command Hr Hv) as Hnp.
  destruct (prepare_command _ _ _ _) as [c|error|] eqn:Hp; cbn [map_err bindR]; [|done..].
  destruct (prepare_command_ok sha256 (view store) contents _ _ Hview Hw (n + 1) command c Hr Hv Hp) as (_ & _ & Hop & body & -> & Hdec).
  cbn [map_err bindR]. rewrite envelope_eq by done. destruct (_ >? _); [done|]. destruct (_ || _) eqn:Ek; [done|]. cbn [map_err bindR]. split; [done|].
  intros sequence c' data [= <- <- <-]. do 3 (split; [done|]). split; [|done]. rewrite decode_record_image by (done || by destruct command). by rewrite Hdec.
Qed.

(** What a commit leaves when it fails after its first write: nothing, the
    record alone, or the record with its command run. *)
Definition uncertain_state (dir' : Directory) (store' : Store) (records : list bytes) (contents saved : Contents) (data : bytes) : Prop :=
  sound dir' store' records contents saved \/ sound dir' store' (records ++ [data]) contents saved
  \/ exists outcome contents', record_step contents (len records) data outcome contents'
       /\ (sound dir' store' (records ++ [data]) contents' saved \/ sound dir' store' (records ++ [data]) contents' contents').

(** What an acknowledged commit leaves: the record, with its command run, in
    the history and in the selected checkpoint. *)
Record commit_done (dir' : Directory) (store' : Store) (records : list bytes) (contents : Contents) (command : Command) (receipt : Receipt) (data : bytes)
    (contents' : Contents) : Prop := {
  done_record : exists c, decode_record data = Ok (command_kind command, c) /\ forall digest, operation_of digest c = operation_of digest command;
  done_sequence : receipt_sequence receipt = len records + 1;
  done_step : record_step contents (len records) data (receipt_outcome receipt) contents';
  done_sound : engine_sound dir' store' (records ++ [data]) contents' contents';
  done_checkpoint : manifest_checkpoint_sequence (store_manifest store') = len records + 1;
  done_settled : settled dir' CURRENT }.

Lemma commit_sound dir store records contents saved command :
  engine_sound dir store records contents saved -> command_valid command ->
  let '(dir', (store', r)) := commit command store dir in
  match prepare_commit store command with
  | Ok (sequence, _, data) =>
      match r with
      | Ok receipt => exists contents', commit_done dir' store' records contents command receipt data contents'
      | Err error => (exists source, error = uncertain sequence source) /\ uncertain_state dir' store' records contents saved data
      | Panic => uncertain_state dir' store' records contents saved data
      end
  | Err error => r = Err error /\ dir' = dir /\ store' = store
  | Panic => False
  end.
Proof.
  intros He Hv. destruct (prepare_commit_ok _ _ _ _ _ _ He Hv) as [Hnp Hok]. destruct He as [Hs Hw].
  unfold commit, bindE at 1, get_store at 1. unfold bindE at 1, liftE at 1.
  destruct (prepare_commit store command) as [[[sequence c] data]|error|] eqn:Hp; [|done..].
  destruct (Hok _ _ _ eq_refl) as (Ecp & -> & Hr & Hdec & Hop). clear Hok Hnp.
  pose proof (durable_length _ _ _ (sound_history _ _ _ _ _ Hs)) as Hl. rewrite Ecp, Hl in Hw.
  unfold bindE at 1, map_errE at 1. pose proof (append_record_sound dir store (len records + 1) data _ _ _ Hs) as Ha.
  destruct (append _ _ store dir) as [dir1 [store1 [digest|error|]]]; cbn [map_err]; [|split; [by eexists|by left]|done].
  destruct Ha as (Hs1 & -> & Ecp1 & _). rewrite Ecp in Ecp1. unfold bindE at 1, map_errE at 1, on_store at 1.
  rewrite <-Ecp1 in Hw at 1.
  pose proof (execute_sound _ _ _ _ _ _ _ _ _ _ Hs1 Hw Hr Hdec) as Hx. rewrite Ecp1 in Hx.
  destruct (execute_command sha256 store1 _ _ c) as [store2 [outcome|error|]]; cbn [map_err]; [| |done].
  2: { destruct Hx as [Hx _]. split; [by eexists|]. right. by left. }
  destruct Hx as (_ & contents' & Hs2 & Hw2 & Em & Hstep). unfold bindE at 1, map_errE at 1.
  pose proof (publish_checkpoint_sound _ _ _ _ _ Hs2) as Hpub. destruct (publish_checkpoint store2 dir1) as [dir3 [store3 [[]|error|]]]; cbn [map_err].
  - destruct Hpub as (Hs3 & Ecp3 & _ & Hset). exists contents'.
    pose proof (durable_length _ _ _ (sound_history _ _ _ _ _ Hs3)) as Hl3. rewrite len_app in Hl3. change (len [data]) with 1 in Hl3.
    split; [by exists c|done|done| |lia|done]. split; [done|]. rewrite Ecp3, Hl3. eapply world_checkpoint; [exact Hw2|lia].
  - split; [by eexists|]. right. right. by exists outcome, contents'.
  - right. right. by exists outcome, contents'.
Qed.
Lemma commit_acknowledged dir store records contents saved command dir' store' receipt :
  engine_sound dir store records contents saved -> command_valid command -> commit command store dir = (dir', (store', Ok receipt)) ->
  exists data contents', (exists sequence c, prepare_commit store command = Ok (sequence, c, data))
    /\ commit_done dir' store' records contents command receipt data contents'.
Proof.
  intros He Hv Hc. pose proof (commit_sound _ _ _ _ _ _ He Hv) as Hs. rewrite Hc in Hs.
  destruct (prepare_commit store command) as [[[sequence c] data]|error|]; [|by destruct Hs|done]. destruct Hs as [contents' Hs].
  exists data, contents'. split; [by exists sequence, c|done].
Qed.

(** ** Recovery *)
(** A program that keeps the store and its files, whatever its result. *)
Definition keeps_store {E A} (m : EngineM E A) : Prop := forall store dir records saved,
  (exists contents, sound dir store records contents saved) ->
  (m store dir).1 = dir /\ store_manifest (m store dir).2.1 = store_manifest store
  /\ exists contents, sound (m store dir).1 (m store dir).2.1 records contents saved.

Lemma keeps_lift {E A} (r : Result E A) : keeps_store (liftE r).
Proof. by intros store dir records saved Hs. Qed.
Lemma keeps_bind {E A B} (m : EngineM E A) (k : A -> EngineM E B) : keeps_store m -> (forall a, keeps_store (k a)) -> keeps_store (bindE m k).
Proof.
  intros Hm Hk store dir records saved Hs. unfold bindE. destruct (Hm store dir records saved Hs) as (E1 & E2 & H3).
  destruct (m store dir) as [dir1 [store1 [a|error|]]]; cbn [fst snd] in *; [|done..]. subst dir1.
  destruct (Hk a store1 dir records saved H3) as (E3 & E4 & H5). split; [done|]. split; [congruence|done].
Qed.
Lemma keeps_execute sequence digest command :
  keeps_store (map_errE replay_error (on_store (fun store => execute_command sha256 store sequence digest command))).
Proof.
  intros store dir records saved [contents Hs]. unfold map_errE, on_store.
  pose proof (execute_command_batch sha256 store sequence digest command) as Hb. destruct (execute_command _ _ _ _ _) as [store' r]. cbn [fst snd] in *.
  split; [done|]. destruct Hb as [->|[changes ->]]; [split; [done|]; by exists contents|]. pose proof (apply_sound _ _ changes _ _ _ Hs) as Ha.
  pose proof (apply_quiet store changes) as (Q1 & _). change (store_apply store changes) with (apply store changes).
  destruct (apply store changes) as [s1 r1]. destruct Ha as [_ Ha]. split; [done|]. by eexists.
Qed.

(** The records run one after another. *)
Fixpoint replayed (contents : Contents) (last : Z) (rs : list bytes) (contents' : Contents) : Prop :=
  match rs with
  | [] => contents' = contents
  | data :: rs => exists outcome contents1, record_step contents last data outcome contents1 /\ replayed contents1 (last + 1) rs contents'
  end.

Section Recovery.
Context (manifest : Manifest) (checkpoint : PageView) (history : Retained.History).
Notation cp := (manifest_checkpoint_sequence manifest).

Lemma keeps_record state record : keeps_store (replay_record manifest checkpoint history state record).
Proof.
  unfold replay_record. destruct state as [resolved predecessor]. cbv zeta. destruct (_ && _); [apply keeps_lift|].
  apply keeps_bind; [apply keeps_lift|]. intros [kind command]. destruct (_ >? _).
  - apply keeps_bind; [apply keeps_lift|]. intros next. destruct (_ || _); [apply keeps_lift|].
    intros store dir. revert store dir. apply keeps_bind; [by intros store dir records saved Hs|]. intros store.
    apply keeps_bind; [apply keeps_lift|]. intros _. apply keeps_bind; [apply keeps_execute|]. intros _. apply keeps_lift.
  - apply keeps_bind; [by intros store dir records saved Hs|]. intros store. apply keeps_bind; [apply keeps_lift|]. intros _. apply keeps_lift.
Qed.

Lemma keeps_records fuel : forall state records, keeps_store (replay_records manifest checkpoint history fuel state records).
Proof.
  induction fuel as [|fuel IH]; intros state records; cbn [replay_records]; destruct (records_item records) as [records' [item|]]; try apply keeps_lift;
    (apply keeps_bind; [apply keeps_lift|]; intros record; apply keeps_bind; [apply keeps_record|]; intros state'); [apply keeps_lift|apply IH].
Qed.

Lemma keeps_segments segs : forall resolved, keeps_store (replay_segments manifest checkpoint history resolved segs).
Proof.
  induction segs as [|s segs IH]; intros resolved; cbn [replay_segments]; [apply keeps_lift|]. apply keeps_bind; [|apply IH].
  unfold replay_segment. apply keeps_bind; [by intros store dir records saved Hs|]. intros files.
  apply keeps_bind; [apply keeps_lift|]. intros file. apply keeps_bind; [apply keeps_lift|]. intros records.
  apply keeps_bind; [apply keeps_records|]. intros [resolved' predecessor]. destruct (negb _); apply keeps_lift.
Qed.

Lemma replayed_snoc rs data outcome contents1 contents2 : forall contents last,
  replayed contents last rs contents1 -> record_step contents1 (last + len rs) data outcome contents2 -> replayed contents last (rs ++ [data]) contents2.
Proof.
  induction rs as [|r rs IH]; intros contents last Hr Hs; cbn [replayed app] in *.
  - subst contents1. rewrite len_nil, Z.add_0_r in Hs. by exists outcome, contents2.
  - destruct Hr as (o & c & Ho & Hr). exists o, c. split; [done|]. apply IH; [done|]. by replace (last + 1 + len rs) with (last + len (r :: rs)) by (rewrite len_cons; lia).
Qed.

Context (dir : Directory) (records : list bytes) (contents saved : Contents).

(** The state of the loops: the records up to [resolved] have been run. *)
Definition resolved_to (store : Store) (resolved : Z) : Prop :=
  cp <= resolved /\ store_manifest store = manifest /\
  exists contents', sound dir store records contents' saved /\ world contents' cp resolved
    /\ replayed contents cp (take (Z.to_nat (resolved - cp)) (drop (Z.to_nat cp) records)) contents'.

Lemma replay_record_sound resolved predecessor sequence data store dir' store' resolved' predecessor' :
  0 <= cp -> resolved_to store resolved -> 0 < sequence -> records !! Z.to_nat (sequence - 1) = Some data ->
  replay_record manifest checkpoint history (resolved, predecessor)
    {| Wal.record_sequence := sequence; Wal.record_digest := sha256 data; record_bytes := data |} store dir = (dir', (store', Ok (resolved', predecessor'))) ->
  dir' = dir /\ resolved_to store' resolved'.
Proof.
  intros Hcp (Hle & Em & contents' & Hs & Hw & Hr) Hpos Hdata Hrun. unfold replay_record in Hrun.
  cbn [Wal.record_sequence Wal.record_digest record_bytes] in Hrun. cbv zeta in Hrun. destruct (_ && _) in Hrun; [done|].
  unfold bindE at 1, liftE at 1 in Hrun. destruct (decode_record data) as [[kind command]|error|] eqn:Hdec; [|done..].
  destruct (sequence >? cp) eqn:Egt.
  - unfold bindE at 1, liftE at 1 in Hrun. destruct (arith_u64 (resolved + 1)) as [next|error|] eqn:En; [|done..]. apply arith_u64_inv in En as [-> Hb].
    destruct (_ || _) eqn:E in Hrun; [done|]. apply orb_false_iff in E as [E _]. apply negb_false_iff, Z.eqb_eq in E as ->.
    unfold bindE at 1, get_store at 1 in Hrun. unfold bindE at 1, liftE at 1 in Hrun.
    destruct (map_err replay_error (validate_command _ _ _ _)) as [u|error|]; [|done..]. unfold bindE at 1, map_errE, on_store in Hrun.
    assert (world contents' (manifest_checkpoint_sequence (store_manifest store)) resolved) as Hw' by by rewrite Em.
    pose proof (execute_sound _ _ _ _ _ resolved _ _ _ _ Hs Hw' Hb Hdec) as Hx. rewrite Em in Hx.
    destruct (execute_command sha256 store (resolved + 1) (sha256 data) command) as [store1 [outcome|error|]]; cbn [map_err] in Hrun; [|done..].
    injection Hrun as <- <- <- _. split; [done|]. destruct Hx as (_ & contents2 & Hs2 & Hw2 & Em2 & Hstep). split; [lia|]. split; [done|].
    exists contents2. split; [done|]. split; [done|]. replace (Z.to_nat (resolved + 1 - cp)) with (S (Z.to_nat (resolved - cp))) by lia.
    pose proof (lookup_lt_Some _ _ _ Hdata) as Hlt.
    rewrite (take_S_r _ _ data) by (rewrite lookup_drop; replace (_ + _)%nat with (Z.to_nat (resolved + 1 - 1)) by lia; done).
    eapply replayed_snoc; [exact Hr|]. replace (cp + len _) with resolved; [exact Hstep|]. unfold len. rewrite length_take, length_drop. lia.
  - unfold bindE at 1, get_store at 1 in Hrun. unfold bindE at 1, liftE at 1 in Hrun.
    destruct (map_err replay_error (validate_checkpoint_record _ _ _ _ _ _)) as [u|error|]; [|done..]. injection Hrun as <- <- <- _.
    split; [done|]. split; [done|]. split; [done|]. by exists contents'.
Qed.

(** The loop as a fold that drops the store of a failure. *)
Definition fold_record (state : Store * (Z * bytes)) (record : LogRecord) : Result StorageError (Store * (Z * bytes)) :=
  match replay_record manifest checkpoint history state.2 record state.1 dir with
  | (_, (store, Ok next)) => Ok (store, next)
  | (_, (_, Err error)) => Err error
  | (_, (_, Panic)) => Panic
  end.

Lemma replay_record_dir state record store : (exists contents', sound dir store records contents' saved) -> (replay_record manifest checkpoint history state record store dir).1 = dir.
Proof. intros Hs. apply (keeps_record state record store dir records saved Hs). Qed.

Lemma replay_records_fold fuel : forall state R store dir' store' state',
  (exists contents', sound dir store records contents' saved) ->
  replay_records manifest checkpoint history fuel state R store dir = (dir', (store', Ok state')) ->
  dir' = dir /\ for_records fold_record fuel (store, state) R = Ok (store', state').
Proof.
  induction fuel as [|fuel IH]; intros state R store dir' store' state' Hs Hr; cbn [replay_records for_records] in *;
    destruct (records_item R) as [R' [item|]]; try (injection Hr as <- <- <-; done); unfold bindE at 1, liftE at 1 in Hr;
    (destruct item as [record|error|]; [|done..]); cbn [bindR]; unfold fold_record at 1; cbn [fst snd]; unfold bindE at 1 in Hr;
    destruct (keeps_record state record store dir records saved Hs) as (Ed & _ & Hs1);
    destruct (replay_record _ _ _ _ _ store dir) as [dir1 [store1 [next|error|]]]; cbn [fst snd] in *; try done; subst dir1.
  cbn [bindR]. by apply IH.
Qed.

Lemma records_of_elem rs : forall s x, x ∈ records_of s rs ->
  s <= Wal.record_sequence x /\ Wal.record_digest x = sha256 (record_bytes x) /\ rs !! Z.to_nat (Wal.record_sequence x - s) = Some (record_bytes x).
Proof.
  induction rs as [|r rs IH]; intros s x Hx; cbn [records_of] in Hx; [by apply not_elem_of_nil in Hx|].
  apply elem_of_cons in Hx as [->|Hx]; cbn [Wal.record_sequence Wal.record_digest record_bytes]; [by rewrite Z.sub_diag|].
  destruct (IH _ _ Hx) as (Hle & Hd & Hl). split; [lia|]. split; [done|].
  by replace (Z.to_nat (Wal.record_sequence x - s)) with (S (Z.to_nat (Wal.record_sequence x - (s + 1)))) by lia.
Qed.

(** The records of a segment, from [s] on, are those of the history. *)
Definition part_of_history (s : Z) (rs : list bytes) : Prop :=
  0 < s /\ forall i data, rs !! i = Some data -> records !! (Z.to_nat (s - 1) + i)%nat = Some data.

Lemma part_app s a b : part_of_history s (a ++ b) -> part_of_history s a /\ part_of_history (s + len a) b.
Proof.
  intros [Hs Hp]. split; (split; [pose proof (len_nonneg a); lia|]); intros i data Hi.
  - apply Hp. by apply lookup_app_l_Some.
  - replace (Z.to_nat (s + len a - 1) + i)%nat with (Z.to_nat (s - 1) + (length a + i))%nat by (unfold len; lia).
    apply Hp. rewrite lookup_app_r by lia. by replace (length a + i - length a)%nat with i by lia.
Qed.

Lemma replay_segment_sound resolved s rs store dir' store' resolved' :
  0 <= cp -> descriptor_typed s -> len (database_id manifest) = 16 -> resolved_to store resolved ->
  log_holds (log_contents dir) manifest s rs -> part_of_history (first_sequence s) rs ->
  replay_segment manifest checkpoint history resolved s store dir = (dir', (store', Ok resolved')) ->
  dir' = dir /\ resolved_to store' resolved'.
Proof.
  intros Hcp T Hdb Hres (file & Hfile & Hh & _) [Hpos Hpart] Hrun. unfold replay_segment in Hrun.
  unfold bindE at 1, get_files in Hrun. unfold bindE at 1, liftE at 1 in Hrun. rewrite Hfile in Hrun. cbn [ok_or] in Hrun.
  unfold bindE at 1, liftE at 1 in Hrun. destruct (Records_new _ _ _) as [R|error|] eqn:HR; [|done..]. unfold bindE at 1 in Hrun.
  destruct (replay_records _ _ _ _ _ _ _ _) as [dir1 [store1 [[resolved1 predecessor]|error|]]] eqn:Hrec; [|done..].
  assert (exists contents', sound dir store records contents' saved) as Hs by (destruct Hres as (_ & _ & c & ? & _); by exists c).
  apply replay_records_fold in Hrec as [-> Hf]; [|done]. destruct (negb _); [done|]. injection Hrun as <- <- <-. split; [done|].
  assert ((let* R := Records_new file (database_id manifest) s in
    for_records fold_record (records_fuel R) (store, (resolved, predecessor_digest s)) R) = Ok (store1, (resolved1, predecessor))) as Hloop by by rewrite HR.
  apply for_segment in Hloop as (_ & rs' & Hh' & Hfold); [|done..]. rewrite (holds_unique _ _ _ _ _ Hh' Hh) in Hfold. clear Hf Hh'.
  eapply (foldR_inv _ (fun _ state => resolved_to state.1 state.2.1) _ []) in Hfold; [exact Hfold|exact Hres|].
  intros _ x [st [r p]] [st' [r' p']] Hst Hx Hin. cbn [fst snd] in *. unfold fold_record in Hx. cbn [fst snd] in Hx.
  destruct (records_of_elem _ _ _ Hin) as (Hle & Hd & Hl). apply Hpart in Hl.
  destruct (replay_record _ _ _ _ _ st dir) as [d2 [st2 [[r2 p2]|error|]]] eqn:Hx2; [|done..]. injection Hx as <- <- <-.
  eapply (replay_record_sound r p (Wal.record_sequence x) (record_bytes x)); [done|exact Hst|lia| |].
  - by replace (Z.to_nat (Wal.record_sequence x - 1)) with (Z.to_nat (first_sequence s - 1) + Z.to_nat (Wal.record_sequence x - first_sequence s))%nat by lia.
  - rewrite <-Hd. by destruct x; cbn in *.
Qed.

Lemma replay_segments_sound segs : forall rss resolved s p s' p' store dir' store' resolved',
  0 <= cp -> Forall descriptor_typed segs -> len (database_id manifest) = 16 -> resolved_to store resolved ->
  Forall2 (log_holds (log_contents dir) manifest) segs rss -> segments_chain s p segs s' p' -> part_of_history s (concat rss) ->
  replay_segments manifest checkpoint history resolved segs store dir = (dir', (store', Ok resolved')) ->
  dir' = dir /\ resolved_to store' resolved'.
Proof.
  induction segs as [|x segs IH]; intros rss resolved s p s' p' store dir' store' resolved' Hcp T Hdb Hres Hl Hc Hpart Hrun; cbn [replay_segments] in Hrun.
  { by injection Hrun as <- <- <-. }
  inversion Hl as [|? rs ? rss' Hx Hl']; subst. apply Forall_cons_1 in T as [Tx T]. destruct Hc as (<- & <- & Hc). cbn [concat] in Hpart.
  apply part_app in Hpart as [P1 P2]. unfold bindE at 1 in Hrun.
  destruct (replay_segment _ _ _ _ x store dir) as [dir1 [store1 [resolved1|error|]]] eqn:Hseg; [|done..].
  destruct (replay_segment_sound _ _ _ _ _ _ _ Hcp Tx Hdb Hres Hx P1 Hseg) as [-> Hres1].
  destruct Hx as (file & _ & Hh & _). apply segment_chain in Hh as [_ He]. rewrite He in Hc. by eapply IH.
Qed.
End Recovery.

Lemma checkpoint_represents dir store records contents saved :
  sound dir store records contents saved -> store_roots store = manifest_roots (store_manifest store) -> Represents (checkpoint_view store) contents.
Proof. intros [[_ [W R _ _] _ _] _] Hr. apply view_represents; cbn [checkpoint_view view_reader view_roots]; [apply W|by rewrite <-Hr]. Qed.

Lemma opened_roots lease attaching recovery dir dir' store :
  open_directory lease attaching recovery dir = (dir', Ok store) -> store_roots store = manifest_roots (store_manifest store).
Proof. by intros (_ & _ & _ & _ & _ & _ & _ & _ & _ & ? & _)%open_inv. Qed.

Lemma window_part manifest records : 0 < log_floor manifest -> part_of_history records (log_floor manifest) (window manifest records).
Proof. intros Hf. split; [done|]. intros i data Hi. unfold window in Hi. by rewrite lookup_drop in Hi. Qed.

(** Recovery of a store that was just opened: the accepted checkpoint is a
    well-typed database, the commands of the log above it run over it, one
    after another, and their result becomes the checkpoint. *)
Lemma recover_sound dir store records contents :
  sound dir store records contents contents -> store_roots store = manifest_roots (store_manifest store) ->
  let cp := manifest_checkpoint_sequence (store_manifest store) in
  let '(dir', (store', r)) := recover store dir in
  match r with
  | Ok _ => world contents cp cp /\ policy_at (contents Policy) 0 = Some (initial_policy (store_genesis store)) /\
      exists contents', replayed contents cp (drop (Z.to_nat cp) records) contents' /\
        engine_sound dir' store' records contents' contents' /\
        manifest_checkpoint_sequence (store_manifest store') = durable_sequence (store_manifest store')
  | _ => exists contents' saved', sound dir' store' records contents' saved' /\ (saved' = contents \/ saved' = contents')
  end.
Proof.
  intros Hs Hroots cp. pose proof (sound_history _ _ _ _ _ Hs) as Hd. pose proof Hd as [T Hv Hl Hlog _ _].
  destruct (recover store dir) as [dir' [store' r]] eqn:Hrun.
  unfold recover in Hrun. unfold bindE at 1, get_store at 1 in Hrun. cbv zeta in Hrun. unfold bindE at 1, liftE at 1 in Hrun.
  destruct (map_err replay_error (validate_history _ _ _)) as [history|error|] eqn:Hval; [|injection Hrun as <- <- <-; by exists contents, contents; split; [|left]..].
  unfold bindE at 1 in Hrun.
  destruct (keeps_segments (store_manifest store) (checkpoint_view store) history (segments (store_manifest store)) cp store dir records contents (ex_intro _ _ Hs))
    as (Hkd & Hkm & (kept & Hkept)).
  destruct (replay_segments _ _ _ _ _ store dir) as [dir1 [store1 [resolved|error|]]] eqn:Hseg; cbn [fst snd] in *; subst dir1;
    [|injection Hrun as <- <- <-; exists kept, contents; by split; [|left]..].
  destruct (Z.eqb_spec resolved (durable_sequence (store_manifest store))) as [Er|Hne]; cbn [negb] in Hrun;
    [subst resolved|injection Hrun as <- <- <-; exists kept, contents; by split; [|left]].
  apply map_err_ok in Hval. unfold validate_history in Hval. apply map_err_ok in Hval.
  pose proof (checkpoint_represents _ _ _ _ _ Hs Hroots) as Hview.
  apply (validate_checkpoint_world _ _ Hview) in Hval as [Hw Hpol]; [|apply (typed_history _ T)].
  pose proof (history_bounds _ _ _ (world_history _ _ _ Hw)) as [Hb _].
  apply (world_checkpoint _ _ cp) in Hw; [|unfold cp; lia]. pose proof (durable_floor _ _ _ Hd) as Hfl.
  assert (resolved_to (store_manifest store) dir records contents contents store1 (durable_sequence (store_manifest store))) as (Hle & Em & contents' & Hs1 & Hw1 & Hr1).
  { destruct (decide (segments (store_manifest store) = [])) as [E|Hseq].
    - rewrite E in Hseg. injection Hseg as <- <-. split; [lia|]. split; [done|]. exists contents. split; [done|]. split; [done|].
      by replace (Z.to_nat (_ - _)) with 0%nat by (unfold cp; lia).
    - destruct (manifest_chain _ Hv Hseq) as (p & Hc & _). destruct Hlog as (rss & H2 & Ew).
      eapply (replay_segments_sound (store_manifest store) (checkpoint_view store) history dir records contents contents); [| | | |exact H2|exact Hc| |exact Hseg].
      + unfold cp in *. lia.
      + apply T.
      + apply T.
      + split; [done|]. split; [done|]. exists contents. rewrite Z.sub_diag. done.
      + rewrite <-Ew. apply window_part. lia. }
  assert (replayed contents cp (drop (Z.to_nat cp) records) contents') as Hrep.
  { rewrite take_ge in Hr1; [done|]. rewrite length_drop, Hl. unfold len, cp. lia. }
  match type of Hrun with (if negb (?a =? ?b) then _ else _) _ _ = _ => destruct (Z.eqb_spec a b) as [Ecp|Hne]; cbn [negb] in Hrun end.
  - injection Hrun as <- <- <-. split; [done|]. split; [done|]. exists contents'. split; [done|].
    assert (contents' = contents) as ->; [|split; [|congruence]; split; [done|]; by rewrite Em].
    rewrite drop_ge in Hrep; [done|]. unfold cp. rewrite Ecp, Hl. unfold len. lia.
  - pose proof (publish_checkpoint_sound _ _ _ _ _ Hs1) as Hp. rewrite Hrun in Hp. destruct r as [[]|error|].
    + destruct Hp as (Hs2 & Ecp & _). split; [done|]. split; [done|]. exists contents'. split; [done|]. split; [|done]. split; [done|].
      pose proof (durable_length _ _ _ (sound_history _ _ _ _ _ Hs2)) as Hl2. rewrite <-Hl in Hl2. rewrite Ecp, Hl2.
      eapply world_checkpoint; [exact Hw1|]. lia.
    + destruct Hp as [Hp|Hp]; [exists contents', contents; by split; [|left]|exists contents', contents'; by split; [|right]].
    + destruct Hp as [Hp|Hp]; [exists contents', contents; by split; [|left]|exists contents', contents'; by split; [|right]].
Qed.

(** ** What stays *)
Lemma replayed_keeps rs : forall contents last contents',
  replayed contents last rs contents' -> 0 <= last ->
  (forall s, s <= last -> snapshot contents' s ≡ snapshot contents s)
  /\ forall s, 0 <= s <= last -> bt_get (be_bytes 8 s) (contents' Outcomes) = bt_get (be_bytes 8 s) (contents Outcomes).
Proof.
  induction rs as [|data rs IH]; intros contents last contents' Hr Hl; cbn [replayed] in Hr; [by subst|].
  destruct Hr as (outcome & contents1 & (kind & command & v & _ & _ & _ & _ & [R1 R2 _ _ R5] & _) & Hr). cbn in R1, R2, R5.
  apply IH in Hr as [I1 I2]; [|lia]. pose proof (history_bounds _ _ _ R1) as [_ Hlt]. split.
  - intros s Hs. rewrite I1 by lia. apply R2. lia.
  - intros s Hs. rewrite I2 by lia. apply R5. intros E. apply (f_equal from_be) in E. rewrite !from_be_u64 in E by lia. lia.
Qed.

(** The outcome the database shows for a sequence. *)
Definition shows_outcome (contents : Contents) (r : OutcomeRecord) : Prop :=
  exists data, bt_get (be_bytes 8 (Outcome.record_sequence r)) (contents Outcomes) = Some data /\ decode_outcome data = Ok (canonical_record r).

Lemma shown_outcome_upto contents last r : versions_upto contents last -> shows_outcome contents r ->
  0 <= Outcome.record_sequence r <= u64_max -> last <= u64_max -> Outcome.record_sequence r <= last.
Proof.
  intros Hup (data & Hg & _) Hr Hl. apply bt_get_elem in Hg. pose proof (upto_outcomes _ _ Hup) as Hf. rewrite Forall_forall in Hf.
  apply Hf in Hg as (s & r' & E & Hs & _). cbn in E. apply (f_equal from_be) in E. rewrite !from_be_u64 in E by lia. lia.
Qed.

(** After a crash, a store that opens and recovers has the history of an
    acknowledged commit, shows its outcome, and shows every snapshot up to it
    as the commit left it. *)
Lemma commit_survives dir store records contents command receipt data contents' dir2 lease attaching recovery dir3 store3 dir4 store4 :
  commit_done dir store records contents command receipt data contents' ->
  crash (closed dir store) dir2 ->
  open_directory lease attaching recovery dir2 = (dir3, Ok store3) -> recover store3 dir3 = (dir4, (store4, Ok tt)) ->
  exists more contents4, engine_sound dir4 store4 (records ++ [data] ++ more) contents4 contents4
    /\ (forall s, s <= receipt_sequence receipt -> snapshot contents4 s ≡ snapshot contents' s)
    /\ shows_outcome contents4 (operation_record (receipt_sequence receipt) (operation_of (sha256 data) command) (receipt_outcome receipt)).
Proof.
  intros [(c & Hdec & Hop) Eseq (kind & c' & v & Hdec' & _ & _ & _ & [R1 _ _ R4 _] & _) [Hs _] _ Hset] Hcr Ho Hrec.
  rewrite Hdec in Hdec'. injection Hdec' as <- <-. rewrite Hop in *. cbn in R1, R4. rewrite <-Eseq in R1, R4.
  destruct (open_sound _ _ _ _ _ _ _ _ _ _ _ Hs Hcr Ho) as (more & saved & Hs3 & Hsame). rewrite (Hsame (crash_keeps_current _ _ _ _ _ _ Hs Hset Hcr)) in Hs3.
  pose proof (opened_roots _ _ _ _ _ _ Ho) as Hroots.
  pose proof (recover_sound _ _ _ _ Hs3 Hroots) as Hr. rewrite Hrec in Hr. destruct Hr as (Hw & _ & contents4 & Hrep & Hs4 & _).
  pose proof (history_bounds _ _ _ (world_history _ _ _ Hw)) as Hb. pose proof (history_bounds _ _ _ R1) as Hb1. pose proof (len_nonneg records).
  set (record := operation_record _ _ _) in R4 |- *.
  assert (receipt_sequence receipt <= manifest_checkpoint_sequence (store_manifest store3)) as Hle.
  { apply (shown_outcome_upto contents' _ record); [apply (world_history _ _ _ Hw)|exact R4|cbn; lia|lia]. }
  destruct (replayed_keeps _ _ _ _ Hrep) as [K1 K2]; [lia|]. exists more, contents4. rewrite <-app_assoc in Hs4. split; [done|]. split.
  - intros s Hs'. apply K1. lia.
  - destruct R4 as (stored & Hg & Hst). exists stored. split; [|done]. cbn. rewrite K2 by lia. exact Hg.
Qed.

(** ** Replay is deterministic *)
Lemma step_deterministic contents1 contents2 checkpoint1 checkpoint2 last data outcome1 outcome2 contents1' contents2' :
  world contents1 checkpoint1 last -> world contents2 checkpoint2 last -> snapshot contents1 last ≡ snapshot contents2 last ->
  record_step contents1 last data outcome1 contents1' -> record_step contents2 last data outcome2 contents2' ->
  outcome1 = outcome2 /\ snapshot contents1' (last + 1) ≡ snapshot contents2' (last + 1).
Proof.
  intros Hw1 Hw2 Hsame (kind & command & v1 & Hd1 & V1 & (p1 & P1) & O1 & R1 & _) (kind2 & command2 & v2 & Hd2 & V2 & _ & O2 & R2 & _).
  rewrite Hd1 in Hd2. injection Hd2 as <- <-. pose proof (decode_record_valid _ _ _ Hd1) as Hv.
  rewrite (command_agree sha256 v1 contents1 checkpoint1 v2 contents2 checkpoint2 last V1 V2 Hw1 Hw2 Hsame (sha256 data) command p1 Hv P1), O2 in O1.
  injection O1 as ->. split; [done|]. pose proof (resolved_newest _ _ _ _ _ R1) as N1. pose proof (resolved_newest _ _ _ _ _ R2) as N2. cbn in N1, N2.
  by rewrite N1, N2, Hsame.
Qed.

(** The outcomes that running the records in order has. *)
Fixpoint replay_outcomes (contents : Contents) (last : Z) (rs : list bytes) (outcomes : list Outcome) (contents' : Contents) : Prop :=
  match rs, outcomes with
  | [], [] => contents' = contents
  | data :: rs, outcome :: outcomes =>
      exists contents1, record_step contents last data outcome contents1 /\ replay_outcomes contents1 (last + 1) rs outcomes contents'
  | _, _ => False
  end.

Lemma replayed_outcomes rs : forall contents last contents',
  replayed contents last rs contents' <-> exists outcomes, replay_outcomes contents last rs outcomes contents'.
Proof.
  induction rs as [|data rs IH]; intros contents last contents'; cbn [replayed].
  - split; [intros ->; by exists []|]. by intros [[] H1].
  - split.
    + intros (o & c & Hs & (os & Hr)%IH). exists (o :: os). by exists c.
    + intros [[|o os] Hr]; [done|]. destruct Hr as (c & Hs & Hr). exists o, c. split; [done|]. apply IH. by exists os.
Qed.

Lemma replay_deterministic rs : forall contents1 contents2 checkpoint1 checkpoint2 last outcomes1 outcomes2 contents1' contents2',
  world contents1 checkpoint1 last -> world contents2 checkpoint2 last -> snapshot contents1 last ≡ snapshot contents2 last ->
  replay_outcomes contents1 last rs outcomes1 contents1' -> replay_outcomes contents2 last rs outcomes2 contents2' ->
  outcomes1 = outcomes2 /\ snapshot contents1' (last + len rs) ≡ snapshot contents2' (last + len rs).
Proof.
  induction rs as [|data rs IH]; intros c1 c2 cp1 cp2 last [|o1 os1] [|o2 os2] c1' c2' Hw1 Hw2 Hsame H1 H2; cbn [replay_outcomes] in *; try done.
  - subst. by rewrite len_nil, Z.add_0_r.
  - destruct H1 as (d1 & S1 & H1), H2 as (d2 & S2 & H2). destruct (step_deterministic _ _ _ _ _ _ _ _ _ _ Hw1 Hw2 Hsame S1 S2) as [-> Hsame'].
    destruct S1 as (_ & _ & _ & _ & _ & _ & _ & _ & W1), S2 as (_ & _ & _ & _ & _ & _ & _ & _ & W2).
    destruct (IH _ _ _ _ _ _ _ _ _ W1 W2 Hsame' H1 H2) as [-> Hend]. split; [done|].
    by replace (last + len (data :: rs)) with (last + 1 + len rs) by (rewrite len_cons; lia).
Qed.

End Engine.
