(* ===== verification/Samples.v ===== *)
(** * A small database

    A concrete world on which the properties of the development are
    instantiated: the genesis store in memory, a table of balances created at
    sequence 1, and a transaction that adds an amount to a balance. *)
From S2P Require Import Prelude OrdMap Errors Reader Value ValueFacts Encoding Limits Operations Program ProgramFacts Catalogue Access AccessFacts Analysis Storage Mvcc MvccFacts Overlay OverlayFacts Outcome OutcomeFacts Administration Snapshots Installation Runtime RuntimeFacts Frame Execution World.
From Stdlib Require Import Sorted.

(** The SHA-256 parameter, instantiated by a function that hashes nothing. *)
Definition sample_sha256 (_ : bytes) : bytes := repeat x00 32.
Definition sample_digest : bytes := repeat x00 32.
Definition sample_policy : LimitPolicy := {| values := LIMIT_CEILINGS |}.

Lemma sample_policy_wf : policy_wf sample_policy.
Proof. apply policy_wf_iff. repeat split; try done. repeat constructor; vm_compute; done. Qed.

(** ** Genesis *)
Definition genesis_contents : Contents := fun tree =>
  match tree with Policy => [(be_bytes 8 0, LimitPolicy_encode sample_policy)] | _ => [] end.
Definition genesis_store : MemoryStore := {| memory_contents := genesis_contents; memory_checkpoint := 0 |}.

Lemma genesis_holds : holds genesis_store genesis_contents.
Proof. split; [done|]. intros []; repeat constructor. Qed.

Lemma genesis_world : world genesis_contents 0 0.
Proof.
  split; [split|].
  - split; try (by constructor); try (by intros []; repeat constructor); [|by eexists].
    constructor; [|constructor]. split; [split; [done|]|done]. exists sample_policy.
    apply LimitPolicy_decode_iff. split; [done|apply sample_policy_wf].
  - done.
  - intros s Hs. lia.
  - split; done.
Qed.

Lemma genesis_in_world : in_world genesis_store.
Proof. exists genesis_contents, 0. split; [apply genesis_holds|apply genesis_world]. Qed.

(** ** A table of balances *)
Definition create_balances : Operation :=
  Run_catalogue sample_digest (Create [x62; x61; x6c] Type_U64 Type_I64).
Lemma create_balances_ok : operation_ok create_balances.
Proof. by repeat split. Qed.

Definition table_store : MemoryStore := (execute_operation sample_sha256 genesis_store 1 create_balances).1.
Definition balances : Table := {| table_id := 1; table_key := Type_U64; table_value := Type_I64 |}.

(** ** A deposit *)
Definition blob (data : bytes) : bytes := le_bytes 4 (len data) ++ data.
Definition typed (ty : Ty) : bytes := match descriptor (E:=Error) ty with Ok data => blob data | _ => [] end.
Definition encoded (v : Value) : bytes := match encode (E:=Error) v with Ok data => blob data | _ => [] end.
Definition coded (opcode : byte) (operands : bytes) : bytes :=
  opcode :: x00 :: le_bytes 2 (len operands) ++ operands.
Definition indexes (operands : list Z) : bytes := concat (map (le_bytes 2) operands).

(** [if exists balances[arg0] { arg1 += balances[arg0] }; balances[arg0] = arg1; return arg1] *)
Definition deposit_code : list bytes :=
  [ coded x02 (indexes [0; 0]); coded x02 (indexes [1; 1]); coded x41 (indexes [2; 0; 0]);
    coded x61 (indexes [2] ++ le_bytes 4 6); coded x40 (indexes [3; 0; 0]); coded x10 (indexes [1; 1; 3]);
    coded x43 (indexes [0; 0; 1]); coded x64 (indexes [1]) ].
Definition deposit_body : bytes :=
  typed Type_I64 ++ le_bytes 8 1 ++ typed Type_U64 ++ typed Type_I64 ++
  typed Type_U64 ++ typed Type_I64 ++ typed Type_Boolean ++ typed Type_I64 ++ concat deposit_code.
Definition deposit_program : bytes :=
  program_magic ++ le_bytes 2 1 ++ le_bytes 2 0 ++ le_bytes 4 (32 + len deposit_body) ++
  le_bytes 2 4 ++ le_bytes 2 2 ++ le_bytes 2 1 ++ le_bytes 2 0 ++ le_bytes 4 8 ++ le_bytes 4 0 ++ deposit_body.
Definition deposit_arguments (key amount : Z) : bytes :=
  le_bytes 4 2 ++ encoded (Value_U64 key) ++ encoded (Value_I64 amount).
Definition deposit (key amount : Z) : Operation :=
  Run_transaction sample_digest
    {| transaction_program := deposit_program; transaction_arguments := deposit_arguments key amount |} sample_policy.
Lemma deposit_ok key amount : operation_ok (deposit key amount).
Proof. split; [done|]. apply sample_policy_wf. Qed.

Definition balance_store : MemoryStore := (execute_operation sample_sha256 table_store 2 (deposit 7 30)).1.

(** ** Their worlds *)
Lemma memory_step (store : MemoryStore) last sequence operation o :
  holds store (memory_contents store) -> world (memory_contents store) (memory_checkpoint store) last ->
  operation_ok operation -> 0 <= sequence <= u64_max ->
  (execute_operation sample_sha256 store sequence operation).2 = Ok o ->
  let store' := (execute_operation sample_sha256 store sequence operation).1 in
  holds store' (memory_contents store') /\ world (memory_contents store') (memory_checkpoint store') sequence.
Proof.
  intros Hh Hw Hop Hs Ho. pose proof (execute_operation_world sample_sha256 store _ last sequence operation Hh Hw Hop Hs) as Hx.
  destruct (execute_operation _ _ _ _) as [store' r]. simpl in *. subst r.
  destruct Hx as (_ & _ & _ & contents' & [<- Hsort] & Hw' & _). by split.
Qed.

Lemma table_world : holds table_store (memory_contents table_store) /\ world (memory_contents table_store) (memory_checkpoint table_store) 1.
Proof.
  unfold table_store. eapply (memory_step genesis_store 0 1 create_balances); [apply genesis_holds|apply genesis_world| | |].
  - apply create_balances_ok.
  - done.
  - vm_compute. reflexivity.
Qed.

Lemma balance_world : holds balance_store (memory_contents balance_store) /\ world (memory_contents balance_store) (memory_checkpoint balance_store) 2.
Proof.
  unfold balance_store. eapply (memory_step table_store 1 2 (deposit 7 30)); [apply table_world|apply table_world| | |].
  - apply deposit_ok.
  - done.
  - vm_compute. reflexivity.
Qed.

(** ** The admitted deposit *)
Definition no_program : Program :=
  {| result_type := Type_Unit; prog_tables := []; prog_arguments := []; register_types := [];
     constants := []; prog_instructions := [] |}.
Definition decoded_deposit : Program :=
  match prepare_program (store_view balance_store) 3 deposit_program (deposit_arguments 7 12) sample_policy with
  | Ok (_, program) => program
  | _ => no_program
  end.

Lemma deposit_prepared : prepared (memory_contents balance_store) sample_policy 3 2 decoded_deposit.
Proof.
  apply (prepare_program_ok (store_view balance_store) _ _ 2 (holds_view _ _ (proj1 balance_world)) (proj2 balance_world)
    sample_policy 3 deposit_program (deposit_arguments 7 12)); [done|]. vm_compute. reflexivity.
Qed.

Lemma deposit_database : database_ok (store_view balance_store) (memory_contents balance_store) 2 decoded_deposit.
Proof.
  eapply (prepared_database _ _ _ 2 (holds_view _ _ (proj1 balance_world)) (proj2 balance_world)). apply deposit_prepared.
Qed.

Lemma deposit_admitted : exists argument_types constant_types,
  admitted decoded_deposit argument_types constant_types (prog_tables decoded_deposit) sample_policy.
Proof. apply deposit_prepared. Qed.

Definition deposit_required : AccessManifest :=
  match derive sample_sha256 decoded_deposit with Ok manifest => manifest | _ => {| entries := [] |} end.

(** A later snapshot with a deposit for another key. *)
Definition other_store : MemoryStore := (execute_operation sample_sha256 balance_store 3 (deposit 8 5)).1.
Lemma other_world : holds other_store (memory_contents other_store) /\ world (memory_contents other_store) (memory_checkpoint other_store) 3.
Proof.
  unfold other_store. eapply (memory_step balance_store 2 3 (deposit 8 5)); [apply balance_world|apply balance_world| | |].
  - apply deposit_ok.
  - done.
  - vm_compute. reflexivity.
Qed.
Lemma other_database : database_ok (store_view other_store) (memory_contents other_store) 3 decoded_deposit.
Proof.
  eapply (prepared_database _ _ _ 3 (holds_view _ _ (proj1 other_world)) (proj2 other_world)).
  apply (prepare_program_ok (store_view other_store) _ _ 3 (holds_view _ _ (proj1 other_world)) (proj2 other_world)
    sample_policy 4 deposit_program (deposit_arguments 7 12)); [done|]. vm_compute. reflexivity.
Qed.

(** The deposit's static facts, at its argument types. *)
Lemma decoded_deposit_eq : decoded_deposit =
  {| result_type := Type_I64; prog_tables := [balances]; prog_arguments := [Value_U64 7; Value_I64 12];
     register_types := [Type_U64; Type_I64; Type_Boolean; Type_I64]; constants := [];
     prog_instructions := [Arg 0 0; Arg 1 1; Exists 2 0 0; JumpIfFalse 2 6; Load 3 0 0; Binary Add 1 1 3;
                           Store 0 0 1; Return 1] |}.
Proof. vm_compute. reflexivity. Qed.

Lemma deposit_typed :
  admitted decoded_deposit [Type_U64; Type_I64] [] (prog_tables decoded_deposit) sample_policy.
Proof.
  rewrite decoded_deposit_eq. split; cbn [result_type prog_tables prog_arguments register_types constants prog_instructions].
  - vm_compute. reflexivity.
  - reflexivity.
  - repeat constructor.
  - repeat constructor.
  - constructor.
  - reflexivity.
  - split; [split|]; vm_compute; done.
  - split; [constructor; [split; done|constructor]|]. repeat constructor.
  - repeat constructor.
Qed.
