(* ===== verification/Physical.v ===== *)
(** * A concrete page store

    A file with its header page and one leaf, the genesis policy, on which the
    properties of the physical layer are instantiated; the checksum is the
    byte sum. *)
From Stdlib Require Import Sorted.
From S2P Require Import Prelude OrdMap Errors Bytes Limits Storage Platform Page PageFacts NodeFacts FileFacts StoredFacts Metadata MetadataFacts Tree TreeFacts TreeReads TreeSplits TreeEdits Mvcc Checkpoint CheckpointFacts Store StoreFacts Samples.

#[program] Instance byte_sum : Checksum := { crc32c data := sum_Z (map byte_Z data) mod 2 ^ 32 }.
Next Obligation. intros data. unfold u32_max. pose proof (Z.mod_pos_bound (sum_Z (map byte_Z data)) (2 ^ 32)). lia. Qed.

Definition sample_id : bytes := zeros 15 ++ [x01].
Definition sample_digest : bytes := zeros 31 ++ [x07].

(** The header page is never read by a tree. *)
Definition empty_pages : PageFile :=
  {| file := {| Platform.contents := zeros PAGE_SIZE; responses := []; unflushed := None |}; page_count := 1; next_page := 1; poisoned := false |}.

Lemma empty_pages_wf : file_wf empty_pages.
Proof.
  pose proof max_pages_value. pose proof page_size_value. split; [split|]; cbn [empty_pages reader reader_count reader_file file Platform.contents page_count next_page]; rewrite ?len_zeros by lia; lia.
Qed.

Definition policy_entry : Entry := (be_bytes 8 0, LimitPolicy_encode sample_policy).

(** The genesis policy is written as page one. *)
Definition written : PageFile * Result StorageError Z := put Policy 0 policy_entry.1 policy_entry.2 empty_pages.
Definition sample_pages : PageFile := fst written.

Lemma sample_pages_hold : file_wf sample_pages /\ page_count sample_pages = 2 /\ poisoned sample_pages = false /\
  tree_holds (reader sample_pages) Policy 1 [policy_entry].
Proof.
  pose proof (runs_put Policy 0 policy_entry.1 policy_entry.2 [] empty_pages
    (fun f root => tree_holds (reader f) Policy root [policy_entry]) empty_pages_wf) as Hrun.
  unfold runs in Hrun. fold written in Hrun. assert (snd written = Ok 1) as Hok by (vm_compute; reflexivity).
  assert (page_count (fst written) = 2) as Hc by (vm_compute; reflexivity).
  unfold sample_pages. destruct written as [f result]. cbn [fst snd] in *. subst result.
  destruct Hrun as (Hwf & _ & Hp & Hh); [by vm_compute|by vm_compute|reflexivity|intros f' root _ _ H; exact H|]. done.
Qed.

(** * What the physical layer promises

    The properties of stores, trees, pages and metadata, each with its witness
    on the sample store. *)
(** ** The sample store *)
Definition sample_genesis : Genesis := {| genesis_database_id := sample_id; initial_policy := sample_policy |}.
Definition sample_manifest : Manifest :=
  {| database_id := sample_id; genesis_digest := sample_digest; cursor_namespace := sample_id;
     generation := 1; page_file_id := 1; manifest_page_count := 2;
     manifest_checkpoint_sequence := 0; checkpoint_digest := sample_digest;
     durable_sequence := 0; durable_digest := sample_digest;
     history_floor := 0; log_floor := 1; next_cursor_id := 1; next_segment_id := 1; next_page_file_id := 2;
     manifest_roots := [0; 0; 1; 0; 0]; segments := [] |}.
Definition sample_store : Store :=
  enable_runtime_cache
    {| pages := sample_pages; store_genesis := sample_genesis; store_manifest := sample_manifest; selected := sample_manifest;
       store_roots := [0; 0; 1; 0; 0]; store_poisoned := false; rotate_next := true; read_only := false; runtime := None |}.
Definition sample_held : Contents := fun tree => match tree with Policy => [policy_entry] | _ => [] end.

Lemma sample_roots : roots_hold (reader sample_pages) [0; 0; 1; 0; 0] sample_held.
Proof.
  destruct sample_pages_hold as (_ & _ & _ & Hh). split; [done|]. intros [];
    (eexists; split; [reflexivity|]); [| |exact Hh|..]; reflexivity.
Qed.

Lemma sample_checkpoint : checkpoint_ok sample_genesis sample_manifest sample_held.
Proof.
  split; [|apply Forall_nil_2]. intros tree Ht. destruct tree; try (split; [apply Forall_nil_2|done]).
  split; [|by vm_compute]. constructor; [|constructor]. split; [exists 0; split; [reflexivity|reflexivity || done]|].
  unfold valid_value. cbn [snd policy_entry]. by rewrite (proj2 (LimitPolicy_decode_iff _ sample_policy)) by (split; [done|apply sample_policy_wf]).
Qed.

Lemma sample_store_holds : store_holds sample_store sample_held.
Proof.
  destruct sample_pages_hold as (Hwf & _). pose proof sample_roots as Hr. pose proof sample_checkpoint as Hc.
  split; [exact Hwf|exact Hr| |by exists sample_held]. split; [apply no_proofs_ok..|].
  apply (none_pending (reader sample_pages) sample_genesis _ _ sample_held [0; 0; 1; 0; 0]); [exact (proj1 Hwf)|exact Hr|exact Hr|exact Hc|reflexivity].
Qed.

Definition sample_change : Mutation := {| mutation_tree := Policy; mutation_key := be_bytes 8 1; mutation_value := Some [x07] |}.

(** ** The steps of a store *)
Section Steps.
Context `{Checksum}.

Inductive store_step (s : Store) : Store -> Prop :=
| step_apply changes : store_step s (fst (apply s changes))
| step_prepare sequence : sequence <= u64_max -> store_step s (fst (prepare_checkpoint s sequence)).

Inductive store_steps (s : Store) : Store -> Prop :=
| steps_refl : store_steps s s
| steps_more s1 s2 : store_steps s s1 -> store_step s1 s2 -> store_steps s s2.

Lemma latest_view s contents : store_holds s contents -> Represents (view s) contents.
Proof. intros [Hwf Hr _ _]. apply view_represents; [apply Hwf|exact Hr]. Qed.

Lemma store_step_holds s s' contents :
  store_holds s contents -> 0 <= manifest_checkpoint_sequence (store_manifest s) -> store_step s s' ->
  file_le (pages s) (pages s') /\ store_manifest s' = store_manifest s /\ exists contents', store_holds s' contents'.
Proof.
  intros Hh Hcp [changes|sequence Hmax].
  - pose proof (apply_spec s contents changes Hh) as Ha. destruct (apply s changes) as [s1 [?|?|]]; [| |done].
    + destruct Ha as (Hle & _ & _ & Hh' & _ & Hm). eauto.
    + destruct Ha as (Hle & Hh' & _ & Hm & _). eauto.
  - pose proof (prepare_spec s contents sequence Hh Hcp Hmax) as Hp. unfold preparation in Hp.
    destruct (prepare_checkpoint s sequence) as [s1 ?]. destruct Hp as (Hle & Hh' & _ & Hm & _). eauto.
Qed.

Lemma store_steps_hold s s' contents :
  store_holds s contents -> 0 <= manifest_checkpoint_sequence (store_manifest s) -> store_steps s s' ->
  file_le (pages s) (pages s') /\ store_manifest s' = store_manifest s /\ exists contents', store_holds s' contents'.
Proof.
  intros Hh Hcp. induction 1 as [|s1 s2 _ IH Hstep]; [split; [apply file_le_refl|by eauto]|].
  destruct IH as (Hle & Hm & contents1 & Hh1). destruct (store_step_holds s1 s2 contents1) as (Hle' & Hm' & Hc); [done|by rewrite Hm|done|].
  split; [by apply (file_le_trans _ _ _ (holds_file _ _ Hh) Hle)|]. split; [congruence|done].
Qed.
End Steps.

(** C18: a batch on a store is atomic: it installs every change and the new
    view answers for the changed maps, or it fails for one of the listed
    reasons, the view answers as before, and the store refuses further work
    when a page may have been lost.  It never panics. *)
Theorem batch_is_atomic `{Checksum} s contents changes :
  store_holds s contents ->
  let '(s', result) := apply s changes in
  match result with
  | Ok _ => forallb mutation_ok changes = true /\ store_holds s' (mutate changes contents) /\
      Represents (view s') (mutate changes contents)
  | Err error => store_holds s' contents /\ Represents (view s') contents /\
      (error = NeedsRecovery /\ s' = s \/ forallb mutation_ok changes = false /\ s' = s \/
       failed (pages s) error /\ store_poisoned s' = true)
  | Panic => False
  end.
Proof.
  intros Hh. pose proof (apply_spec s contents changes Hh) as Ha. destruct (apply s changes) as [s' [[]|error|]]; [| |done].
  - destruct Ha as (_ & Hok & _ & Hh' & _). split; [done|]. split; [done|]. by apply latest_view.
  - destruct Ha as (_ & Hh' & _ & _ & He). split; [done|]. split; [|done]. by apply latest_view.
Qed.

Lemma batch_is_atomic_witness :
  let '(s', result) := apply sample_store [sample_change] in
  match result with
  | Ok _ => forallb mutation_ok [sample_change] = true /\ store_holds s' (mutate [sample_change] sample_held) /\
      Represents (view s') (mutate [sample_change] sample_held)
  | Err error => store_holds s' sample_held /\ Represents (view s') sample_held /\
      (error = NeedsRecovery /\ s' = sample_store \/ forallb mutation_ok [sample_change] = false /\ s' = sample_store \/
       failed (pages sample_store) error /\ store_poisoned s' = true)
  | Panic => False
  end.
Proof. exact (batch_is_atomic sample_store sample_held [sample_change] sample_store_holds). Defined.

(** C19: snapshots are stable: after any batches and checkpoint preparations,
    failed ones included, a view pinned earlier still answers every read as
    the maps it pinned, while the newest view answers for the newest maps. *)
Theorem pinned_views_are_stable `{Checksum} s contents s' :
  store_holds s contents -> 0 <= manifest_checkpoint_sequence (store_manifest s) -> store_steps s s' ->
  Represents (pinned_view (view s) (pages s')) contents /\
  exists contents', Represents (view s') contents'.
Proof.
  intros Hh Hcp Hs. destruct (store_steps_hold s s' contents Hh Hcp Hs) as (Hle & _ & contents' & Hh').
  pose proof Hh as [Hwf Hr _ _]. split; [|exists contents'; by apply latest_view].
  apply view_represents; [by apply pinned_wf|].
  apply (roots_hold_le (reader (pages s))); [apply Hwf|by apply pinned_wf|by apply pinned_above|exact Hr].
Qed.

Lemma pinned_views_are_stable_witness :
  Represents (pinned_view (view sample_store) (pages (fst (apply sample_store [sample_change])))) sample_held /\
  exists contents', Represents (view (fst (apply sample_store [sample_change]))) contents'.
Proof.
  apply (pinned_views_are_stable sample_store sample_held); [exact sample_store_holds|discriminate|].
  apply (steps_more _ sample_store); [apply steps_refl|apply step_apply].
Defined.

(** C24: a prepared checkpoint holds exactly the entries at or below its
    sequence, keeps the cursors, leaves the live roots alone and carries true
    proofs, whether the deleted keys were the tracked ones or a full scan's;
    a failed preparation has one of the listed reasons. *)
Theorem checkpoint_excludes_later_entries `{Checksum} s contents sequence :
  store_holds s contents -> 0 <= manifest_checkpoint_sequence (store_manifest s) -> sequence <= u64_max ->
  let '(s', result) := prepare_checkpoint s sequence in
  store_holds s' contents /\ store_roots s' = store_roots s /\
  match result with
  | Ok view => manifest_checkpoint_sequence (store_manifest s) <= sequence < u64_max /\
      Represents view (upto sequence contents) /\ proofs_ok (view_reader view) (store_genesis s') (validation view)
  | Err error =>
      error = NeedsRecovery /\ store_poisoned s = true \/
      (sequence < manifest_checkpoint_sequence (store_manifest s) \/ sequence = u64_max) \/
      bad_entry contents error \/ failed (pages s) error /\ store_poisoned s' = true
  | Panic => False
  end.
Proof.
  intros Hh Hcp Hmax. pose proof (prepare_spec s contents sequence Hh Hcp Hmax) as Hp. unfold preparation in Hp.
  destruct (prepare_checkpoint s sequence) as [s' result]. destruct Hp as (_ & Hh' & Hr & _ & Hres). split; [done|]. split; [done|].
  destruct result as [view|error|]; [|done..]. destruct Hres as (Hrange & [Hv1 Hv2 Hv3]). split; [done|]. split; [|done].
  apply view_represents; [rewrite Hv1; apply Hh'|done].
Qed.

Lemma checkpoint_excludes_later_entries_witness :
  let '(s', result) := prepare_checkpoint sample_store 5 in
  store_holds s' sample_held /\ store_roots s' = store_roots sample_store /\
  match result with
  | Ok view => manifest_checkpoint_sequence (store_manifest sample_store) <= 5 < u64_max /\
      Represents view (upto 5 sample_held) /\ proofs_ok (view_reader view) (store_genesis s') (validation view)
  | Err error =>
      error = NeedsRecovery /\ store_poisoned sample_store = true \/
      (5 < manifest_checkpoint_sequence (store_manifest sample_store) \/ 5 = u64_max) \/
      bad_entry sample_held error \/ failed (pages sample_store) error /\ store_poisoned s' = true
  | Panic => False
  end.
Proof. apply (checkpoint_excludes_later_entries sample_store sample_held 5); [exact sample_store_holds|discriminate|discriminate]. Defined.

(** C25: validation is sound and may be reused: an accepted root set holds five
    maps whose entries decode, lie at or below the checkpoint and keep the
    genesis policy and the cursor rules, even where a proof kept by the owner
    replaced the walk, and the proofs returned are again true. *)
Theorem validation_accepts_valid_checkpoints `{Checksum} r manifest genesis proofs proofs' :
  reader_wf r -> Forall (fun root => 0 <= root) (manifest_roots manifest) -> length (manifest_roots manifest) = 5%nat ->
  0 <= manifest_checkpoint_sequence manifest -> proofs_ok r genesis proofs ->
  validate r manifest genesis proofs = Ok proofs' ->
  exists contents, roots_hold r (manifest_roots manifest) contents /\ checkpoint_ok genesis manifest contents /\
    proofs_ok r genesis proofs'.
Proof. apply validate_sound. Qed.

Definition sample_proofs : Proofs := [Some {| proof_root := 0; proof_sequence := 0 |}; None; Some {| proof_root := 1; proof_sequence := 0 |}; None].

Lemma validation_accepts_valid_checkpoints_witness :
  exists contents, roots_hold (reader sample_pages) (manifest_roots sample_manifest) contents /\
    checkpoint_ok sample_genesis sample_manifest contents /\
    proofs_ok (reader sample_pages) sample_genesis
      [Some {| proof_root := 0; proof_sequence := 0 |}; Some {| proof_root := 0; proof_sequence := 0 |};
       Some {| proof_root := 1; proof_sequence := 0 |}; Some {| proof_root := 0; proof_sequence := 0 |}].
Proof.
  pose proof sample_pages_hold as (Hwf & _). pose proof sample_roots as Hr. pose proof sample_checkpoint as [Hc _].
  apply (validation_accepts_valid_checkpoints (reader sample_pages) sample_manifest sample_genesis sample_proofs);
    [exact (proj1 Hwf)|repeat constructor; discriminate|reflexivity|discriminate| |vm_compute; reflexivity].
  split; [reflexivity|]. intros tree p Ht Hp. destruct (proj2 Hr tree) as (root & Hroot & Hh). exists (sample_held tree).
  assert (proof_root p = root /\ proof_sequence p = 0) as [-> ->]
    by (destruct tree; cbn in Hp, Hroot; try discriminate Hp; by injection Hp as <-; injection Hroot as <-).
  split; [exact Hh|]. exact (Hc tree Ht).
Defined.

(** C22: insertion and deletion refine the ordered map: the new root holds the
    map with the key inserted or removed, old pages keep their bytes, so the
    old root still holds the old map, and the only failures are those of the
    file: a poisoned file, a refused write, or no numbers left. *)
Theorem edits_refine_map `{Checksum} tree root key value m f :
  file_wf f -> tree_holds (reader f) tree root m -> len key <= MAX_KEY -> len value <= MAX_VALUE ->
  runs (put tree root key value) f (fun f' root' => tree_holds (reader f') tree root' (bt_insert key value m)) /\
  runs (tree_delete tree root key) f (fun f' root' => tree_holds (reader f') tree root' (bt_remove key m)) /\
  (forall f', file_wf f' -> file_le f f' -> tree_holds (reader f') tree root m).
Proof.
  intros Hwf Hh Hk Hv. split; [by apply (runs_put _ _ _ _ m)|]. split; [by apply (runs_delete _ _ _ m)|].
  intros f' Hwf' Hle. apply (tree_holds_le (reader f)); [apply Hwf|apply Hwf'|apply Hle|done].
Qed.

Lemma edits_refine_map_witness :
  runs (put Policy 1 (be_bytes 8 1) [x07]) sample_pages
    (fun f' root' => tree_holds (reader f') Policy root' (bt_insert (be_bytes 8 1) [x07] [policy_entry])) /\
  runs (tree_delete Policy 1 (be_bytes 8 1)) sample_pages
    (fun f' root' => tree_holds (reader f') Policy root' (bt_remove (be_bytes 8 1) [policy_entry])) /\
  (forall f', file_wf f' -> file_le sample_pages f' -> tree_holds (reader f') Policy 1 [policy_entry]).
Proof.
  pose proof sample_pages_hold as (Hwf & _ & _ & Hh).
  apply (edits_refine_map Policy 1 (be_bytes 8 1) [x07] [policy_entry] sample_pages Hwf Hh); discriminate.
Defined.

(** C23: reads of a tree agree with the map it holds: the point read, the
    successor seek, and the lazy scan of any bounds, in key order and without
    an error; and a root holds only one map. *)
Theorem reads_agree_with_map `{Checksum} r tree root m :
  reader_wf r -> tree_holds r tree root m ->
  (forall key, len key <= MAX_KEY ->
     get r tree root key = Ok (bt_get key m) /\ located r tree (seek r tree root key) (first_from key m)) /\
  (forall lower upper, bound_ok lower = true -> bound_ok upper = true ->
     exists s, scan r tree root lower upper = Ok s /\ scan_items s = map Ok (bt_range lower upper m)) /\
  (forall m', tree_holds r tree root m' -> m' = m).
Proof.
  intros Hwf Hh. split; [|split].
  - intros key Hk. split; [by apply tree_get_holds|by apply tree_seek_holds].
  - intros lower upper Hl Hu. by apply tree_scan_holds.
  - intros m' Hm'. by apply (tree_holds_unique r tree root).
Qed.

Lemma reads_agree_with_map_witness :
  get (reader sample_pages) Policy 1 (be_bytes 8 0) = Ok (bt_get (be_bytes 8 0) [policy_entry]) /\
  exists s, scan (reader sample_pages) Policy 1 Unbounded Unbounded = Ok s /\ scan_items s = map Ok (bt_range Unbounded Unbounded [policy_entry]).
Proof.
  pose proof sample_pages_hold as (Hwf & _ & _ & Hh).
  destruct (reads_agree_with_map (reader sample_pages) Policy 1 [policy_entry] (proj1 Hwf) Hh) as (Hg & Hs & _).
  split; [exact (proj1 (Hg (be_bytes 8 0) ltac:(discriminate)))|exact (Hs Unbounded Unbounded eq_refl eq_refl)].
Defined.

(** C29: a split is the most balanced one: [split_point] returns a cut whose
    halves fit a page, with the least difference of sizes among all cuts that
    fit, and fails only when none fits. *)
Theorem split_is_most_balanced (sizes : list Z) (internal : bool) :
  Forall (fun size => 0 <= size) sizes -> sum_Z sizes <= u32_max ->
  match split_point sizes internal with
  | Ok i => split_fits sizes internal i /\
      forall j, split_fits sizes internal j -> imbalance sizes internal i <= imbalance sizes internal j
  | Err error => error = InvalidInput "node cannot be split" /\ forall j, ~ split_fits sizes internal j
  | Panic => False
  end.
Proof. apply split_point_best. Qed.

Lemma split_is_most_balanced_witness :
  match split_point [9000; 4000; 3000; 8000] false with
  | Ok i => split_fits [9000; 4000; 3000; 8000] false i /\
      forall j, split_fits [9000; 4000; 3000; 8000] false j ->
        imbalance [9000; 4000; 3000; 8000] false i <= imbalance [9000; 4000; 3000; 8000] false j
  | Err error => error = InvalidInput "node cannot be split" /\ forall j, ~ split_fits [9000; 4000; 3000; 8000] false j
  | Panic => False
  end.
Proof. apply (split_is_most_balanced [9000; 4000; 3000; 8000] false); [repeat constructor; discriminate|discriminate]. Defined.

(** C28: node pages are canonical: a page reads as a node exactly when the node
    is well formed and the page is the node's encoding, numbered and
    checksummed; anything else is refused. *)
Theorem node_pages_are_canonical `{Checksum} r tree id node :
  reader_wf r -> 0 <= id ->
  read_node r tree id = Ok node <->
  0 < id < reader_count r /\ node_wf (reader_count r) node /\
  exists image page, encode_node tree node = Ok image /\
    (let* image := copy_at image 8 (le_bytes 8 id) in checksum image) = Ok page /\
    read_exact_at (reader_file r) (id * PAGE_SIZE) PAGE_SIZE = Ok (Some page).
Proof.
  intros Hwf Hid.
  assert (forall image, encode_node tree node = Ok image -> node_wf (reader_count r) node ->
    (let* image := copy_at image 8 (le_bytes 8 id) in checksum image) = Ok (node_page tree id node)) as Hplace.
  { intros image Hi Hn. rewrite (encode_node_image _ tree _ Hn) in Hi. apply ok_inj in Hi as <-.
    rewrite set_id. cbn [bindR]. apply checksum_image. }
  split.
  - intros (Hb & Hn & Hp)%read_node_inv; [|done..]. split; [done|]. split; [done|].
    pose proof (encode_node_image _ tree _ Hn) as Hi. eexists _, _. split; [exact Hi|]. split; [by apply Hplace|done].
  - intros (Hb & Hn & image & page & Hi & Hplaced & Hp). rewrite (Hplace image Hi Hn) in Hplaced. apply ok_inj in Hplaced as <-.
    by apply read_node_page.
Qed.

Lemma node_pages_are_canonical_witness :
  node_wf 2 (Leaf [{| cell_key := policy_entry.1; cell_value := Inline policy_entry.2 |}]).
Proof.
  pose proof sample_pages_hold as (Hwf & Hc & _).
  assert (read_node (reader sample_pages) Policy 1 = Ok (Leaf [{| cell_key := policy_entry.1; cell_value := Inline policy_entry.2 |}])) as Hr
    by (vm_compute; reflexivity).
  rewrite <-Hc. exact (proj1 (proj2 (proj1 (node_pages_are_canonical (reader sample_pages) Policy 1 _ (proj1 Hwf) ltac:(discriminate)) Hr))).
Defined.

(** Appended nodes and stored values read back: a well-formed node is read
    at the number returned, and a value of up to 128 MiB, inline or in an
    overflow chain, is read in full by every later reader. *)
Theorem written_pages_read_back `{Checksum} tree f :
  file_wf f ->
  (forall node, node_wf (page_count f) node ->
     runs (append_node tree node) f (fun f' id => page_count f <= id < page_count f' /\ read_node (reader f') tree id = Ok node)) /\
  (forall value, len value <= MAX_VALUE ->
     runs (store_value tree value) f (fun f' stored => read_value (reader f') tree stored = Ok value)).
Proof.
  intros Hwf. split.
  - intros node Hn. by apply runs_append_node.
  - intros value Hv. by apply runs_store_value.
Qed.

Lemma written_pages_read_back_witness :
  runs (store_value State (zeros 20000)) sample_pages (fun f' stored => read_value (reader f') State stored = Ok (zeros 20000)).
Proof.
  pose proof sample_pages_hold as (Hwf & _).
  exact (proj2 (written_pages_read_back State sample_pages Hwf) (zeros 20000) ltac:(discriminate)).
Defined.

(** C30: the metadata files are canonical: the genesis file, the manifest and
    CURRENT decode exactly from the encodings of their valid records, so each
    decoder inverts its encoder and refuses every other byte string. *)
Theorem metadata_files_are_canonical `{Checksum} data :
  (forall g, Genesis_decode data = Ok g <->
     Genesis_encode g = Ok data /\ len (genesis_database_id g) = 16 /\ policy_wf (initial_policy g)) /\
  (forall m, Manifest_decode data = Ok m <-> Manifest_encode m = Ok data /\ manifest_typed m) /\
  (forall c, Current_decode data = Ok c <-> Current_encode c = Ok data /\ current_typed c).
Proof.
  split; [intros g; apply genesis_decode_iff|]. split; [|intros c; apply current_decode_iff]. intros m. split.
  - intros Hd. by apply manifest_encode_decode in Hd as [? ?].
  - intros [He Ht]. by apply manifest_decode_encode.
Qed.
