(* ===== verification/Durable.v ===== *)
(** * What survives failures and crashes

    The properties of the log, of publications and of recovery, each with its
    witness on a store created in an empty directory. *)
From stdpp Require Import relations.
From S2P Require Import Prelude OrdMap Errors Reader Value Limits Operations Program Analysis Catalogue Outcome Administration Snapshots Installation Runtime Execution World Retained Command Bytes Storage Platform Page PageFacts NodeFacts FileFacts Metadata MetadataFacts Wal WalFacts LogFacts LogChains LogValidation Tree TreeFacts Checkpoint CheckpointFacts Store StoreFacts Directory Log Publication LogAppend LogRecovery LogSurvival LogExtension PublicationFacts History Lifecycle Engine Samples Physical.

(** ** The sample directory *)
#[program] Instance weighted : Sha256 :=
  { sha256 data := le_bytes 32 (fold_left (fun acc b => Z.land (acc * 257 + byte_Z b + 1) u32_max) data 0) }.
Next Obligation. intros data. apply len_le_bytes. Qed.

Definition empty_directory : Directory := {| entries := ∅; directory_answers := []; fresh := []; unsettled := ∅ |}.
Definition sample_created : Directory * Result StorageError Store := create (Ok tt) sample_genesis sample_id empty_directory.
Definition the_store (r : Result StorageError Store) : Store := match r with Ok store => store | _ => sample_store end.
Definition new_store : Store := the_store sample_created.2.
Definition new_system : System := {| sys_dir := sample_created.1; sys_store := new_store; sys_views := [view new_store] |}.

(** One record, a change of the limits, appended to the new store. *)
Definition sample_record : bytes :=
  record_image 1 3 (durable_digest (store_manifest new_store)) (LimitPolicy_encode sample_policy).
Definition sample_append := append_wal new_store [(1, sample_record)] sample_created.1.
Definition appended_store : Store := sample_append.2.1.

Definition sample_reopened := open_directory (Ok tt) false DiscardInvalid (closed sample_append.1 appended_store).

Definition sample_replay := recover (the_store sample_reopened.2) sample_reopened.1.

Lemma the_store_ok r : is_ok r = true -> r = Ok (the_store r).
Proof. by destruct r. Qed.

Lemma created_ok (r : Directory * Result StorageError Store) : is_ok r.2 = true -> r = (r.1, Ok (the_store r.2)).
Proof. by destruct r as [dir [store|error|]]. Qed.

Lemma sample_created_ok : sample_created = (sample_created.1, Ok new_store).
Proof. apply (created_ok sample_created). vm_compute. reflexivity. Qed.

Lemma new_sound : sound sample_created.1 new_store [] (created_contents sample_genesis) (created_contents sample_genesis).
Proof. apply (create_sound (Ok tt) sample_genesis sample_id empty_directory); [reflexivity|exact sample_policy_wf|reflexivity|exact sample_created_ok]. Qed.

Lemma system_holds `{Checksum} `{Sha256} dir store records contents saved :
  sound dir store records contents saved -> sys_holds {| sys_dir := dir; sys_store := store; sys_views := [view store] |} records saved.
Proof. intros Hs. split; [by exists contents|]. constructor; [|constructor]. exists contents. by eapply view_of_store, sound_store. Qed.

Lemma new_system_holds : sys_holds new_system [] (created_contents sample_genesis).
Proof. exact (system_holds _ _ _ _ _ new_sound). Qed.

Lemma append_ok (r : Directory * (Store * Result StorageError bytes)) :
  is_ok r.2.2 = true -> exists digest, r = (r.1, (r.2.1, Ok digest)).
Proof. destruct r as [dir [store [digest|error|]]]; [by exists digest|done..]. Qed.

(** ** A clean exit is a crash that loses nothing *)
Definition sizes_ok (dir : Directory) : bool := forallb (fun e => len (contents e.2) <=? u64_max) (map_to_list (entries dir)).

Lemma sizes_below_ok dir : sizes_ok dir = true -> forall name f, entries dir !! name = Some f -> len (contents f) <= u64_max.
Proof.
  intros Hs name f Hf. unfold sizes_ok in Hs. rewrite forallb_forall in Hs. specialize (Hs (name, f)). cbn in Hs.
  apply Z.leb_le, Hs, list_elem_of_In. by apply elem_of_map_to_list.
Qed.

Lemma log_sizes dir : sizes_ok dir = true -> forall id data, log_contents dir id = Some data -> len data <= u64_max.
Proof.
  intros Hs id data. unfold log_contents. destruct (entries dir !! log_file id) as [f|] eqn:E; [|done]. intros [= <-]. exact (sizes_below_ok _ Hs _ _ E).
Qed.

Definition settled_current (dir : Directory) : bool := match unsettled dir !! CURRENT with None => true | Some _ => false end.

Lemma clean_exit dir : settled_current dir = true -> sizes_ok dir = true -> crash dir dir.
Proof.
  unfold settled_current. intros Hc Hs. split.
  - intros name b Hb. exists b. split; [done|]. destruct b as [f|]; [apply survives_refl|done].
  - done.
  - unfold settled. by destruct (unsettled dir !! CURRENT).
  - exact (sizes_below_ok _ Hs).
Qed.

Lemma check_both {a b : bool} {P : Prop} : (b = true -> P) -> a && b = true -> a = true /\ P.
Proof. rewrite andb_true_iff. naive_solver. Qed.

(** What the witnesses ask of the appended record, its store after a restart
    and its recovery, evaluated once. *)
Definition sample_exit : Directory := closed sample_append.1 appended_store.
Definition append_checks : bool :=
  is_ok sample_append.2.2 && (sizes_ok sample_append.1 && (settled_current sample_exit && sizes_ok sample_exit &&
  (is_ok sample_reopened.2 && (is_ok sample_replay.2.2 &&
  (bool_decide (manifest_checkpoint_sequence (store_manifest (the_store sample_reopened.2)) = 0) &&
   bool_decide (durable_sequence (store_manifest sample_replay.2.1) = 1)))))).

Lemma append_checked :
  is_ok sample_append.2.2 = true /\ sizes_ok sample_append.1 = true
  /\ settled_current sample_exit && sizes_ok sample_exit = true
  /\ is_ok sample_reopened.2 = true /\ is_ok sample_replay.2.2 = true
  /\ bool_decide (manifest_checkpoint_sequence (store_manifest (the_store sample_reopened.2)) = 0) = true
  /\ bool_decide (durable_sequence (store_manifest sample_replay.2.1) = 1) = true.
Proof.
  assert (append_checks = true) as Hc by (vm_compute; reflexivity). unfold append_checks in Hc. revert Hc.
  exact (check_both (check_both (check_both (check_both (check_both (check_both id)))))).
Qed.

Lemma sample_append_ok : exists digest, sample_append = (sample_append.1, (appended_store, Ok digest)).
Proof. destruct append_checked as (Ha & _). exact (append_ok sample_append Ha). Qed.

Lemma sample_reopened_ok : sample_reopened = (sample_reopened.1, Ok (the_store sample_reopened.2)).
Proof. destruct append_checked as (_ & _ & _ & Ho & _). exact (created_ok sample_reopened Ho). Qed.

Lemma recovered_store (r : Directory * (Store * Result StorageError unit)) : is_ok r.2.2 = true -> r = (r.1, (r.2.1, Ok tt)).
Proof. destruct r as [dir [store [[]|error|]]]; done. Qed.

Lemma sample_replay_ok : sample_replay = (sample_replay.1, (sample_replay.2.1, Ok tt)).
Proof. destruct append_checked as (_ & _ & _ & _ & Hr & _). exact (recovered_store sample_replay Hr). Qed.

Lemma reopened_checkpoint : manifest_checkpoint_sequence (store_manifest (the_store sample_reopened.2)) = 0.
Proof. destruct append_checked as (_ & _ & _ & _ & _ & Hc & _). exact (bool_decide_eq_true_1 _ Hc). Qed.

Lemma replay_durable : durable_sequence (store_manifest sample_replay.2.1) = 1.
Proof. destruct append_checked as (_ & _ & _ & _ & _ & _ & Hd). exact (bool_decide_eq_true_1 _ Hd). Qed.

Lemma append_crash : crash sample_exit sample_exit.
Proof. destruct append_checked as (_ & _ & Hc & _). apply andb_true_iff in Hc as [H1 H2]. exact (clean_exit sample_exit H1 H2). Qed.

Lemma exit_current : held sample_exit CURRENT = held sample_append.1 CURRENT.
Proof. unfold held, sample_exit. rewrite closed_entries; [reflexivity|discriminate]. Qed.

(** C9: acknowledged records survive: once an append has succeeded, whatever
    batches, preparations, appends and publications follow, whichever of their
    operations fail, and however often the process crashes and the store is
    opened again, the log of the live manifest is a window of one history that
    has the acknowledged records in their place, up to the durable sequence.
    A crash ([crash]) drops of every file what was written since its last
    successful flush, and undoes any change of a name since the last successful
    flush of the directory; what is kept follows from the flushes of appends,
    publications and recovery.  After any of these steps, what a crash leaves
    still has a selected manifest with a valid log and its pages.
    Publications assume that no two records in the log files have one digest
    ([no_collision]). *)
Theorem acknowledged_records_survive `{Checksum} `{Sha256} sys records new dir' store' digest sys' :
  sys_sound sys records ->
  append_wal (sys_store sys) new (sys_dir sys) = (dir', (store', Ok digest)) ->
  rtc sys_step {| sys_dir := dir'; sys_store := store'; sys_views := sys_views sys |} sys' ->
  exists more, let history := records ++ map snd new ++ more in let m := store_manifest (sys_store sys') in
    durable_sequence m = len history /\ log_records (sys_dir sys') m (drop (Z.to_nat (log_floor m - 1)) history)
    /\ validate_manifest m = Ok tt /\ sys_sound sys' history
    /\ forall dir2, crash (closed (sys_dir sys') (sys_store sys')) dir2 -> exists chosen, intact dir2 (sys_store sys') chosen.
Proof.
  intros (saved & Hs) Ha Hsteps. pose proof (append_step_sound _ _ _ _ _ _ _ Hs Ha) as Hs1.
  destruct (sys_steps_sound _ _ _ Hsteps (ex_intro _ saved Hs1)) as (more & saved' & Hm). exists more. rewrite <-app_assoc in Hm.
  destruct Hm as ((contents & Hm) & Hv). pose proof (sound_history _ _ _ _ _ Hm) as [_ D2 D3 D4 _ _].
  split; [done|]. split; [exact D4|]. split; [done|]. split; [exists saved'; by split; [exists contents|]|].
  intros dir2. exact (crash_intact _ _ _ _ _ _ Hm).
Qed.

Lemma acknowledged_records_survive_witness :
  exists sys', rtc sys_step {| sys_dir := sample_append.1; sys_store := appended_store; sys_views := [view new_store] |} sys'
    /\ exists more, let history := [] ++ map snd [(1, sample_record)] ++ more in let m := store_manifest (sys_store sys') in
    durable_sequence m = len history /\ log_records (sys_dir sys') m (drop (Z.to_nat (log_floor m - 1)) history)
    /\ validate_manifest m = Ok tt /\ sys_sound sys' history
    /\ forall dir2, crash (closed (sys_dir sys') (sys_store sys')) dir2 -> exists chosen, intact dir2 (sys_store sys') chosen.
Proof.
  destruct sample_append_ok as [digest Ha].
  pose proof (append_step_sound new_system [(1, sample_record)] sample_append.1 appended_store (Ok digest) [] _ new_system_holds Ha) as ((contents & Hs) & _).
  set (sys' := {| sys_dir := sample_reopened.1; sys_store := the_store sample_reopened.2; sys_views := [] |}).
  assert (rtc sys_step {| sys_dir := sample_append.1; sys_store := appended_store; sys_views := [view new_store] |} sys') as Hsteps.
  { apply rtc_once. apply (sys_restart {| sys_dir := sample_append.1; sys_store := appended_store; sys_views := [view new_store] |}
      sample_exit (Ok tt) false DiscardInvalid).
    - exact append_crash.
    - exact sample_reopened_ok. }
  exists sys'. split; [exact Hsteps|].
  apply (acknowledged_records_survive new_system [] [(1, sample_record)] sample_append.1 appended_store digest sys');
    [exists (created_contents sample_genesis); exact new_system_holds|exact Ha|exact Hsteps].
Defined.

(** C10: a published checkpoint survives: once a publication has succeeded, the
    owner may go on with batches, preparations and appends, failing or not.  A
    crash ([crash]) drops what files and names had not been flushed; it leaves
    a selected manifest with a valid log and its pages, and the store that
    opens on it answers every read as the published view does, and has the
    history: the publication flushed its pages, its segments, its manifest,
    CURRENT and their names.  The publication assumes that no two records in
    the log files have one digest ([no_collision]). *)
Theorem published_checkpoint_survives `{Checksum} `{Sha256} sys records saved v given dir' store' sys' dir2 :
  sys_holds sys records saved -> v ∈ sys_views sys -> manifest_typed given -> no_collision (sys_dir sys) ->
  publish true (sys_store sys) v given (sys_dir sys) = (dir', (store', Ok tt)) ->
  rtc owner_step {| sys_dir := dir'; sys_store := store'; sys_views := sys_views sys |} sys' ->
  crash (closed (sys_dir sys') (sys_store sys')) dir2 ->
  (exists chosen, intact dir2 (sys_store sys') chosen) /\ forall lease attaching recovery dir3 store3,
  open_directory lease attaching recovery dir2 = (dir3, Ok store3) ->
  exists contents more, Represents v contents /\ Represents (view store3) contents /\ sound dir3 store3 (records ++ more) contents contents.
Proof.
  intros Hs Hin Tg Hno Hp Hsteps Hcr. destruct (publish_step_sound _ _ _ _ _ _ _ _ Hs Hin Tg Hno Hp) as (more & kept & saved' & [V1 _ _ V4] & Hkept & Hs1).
  destruct (Hkept eq_refl) as [-> Hset]. destruct (owner_steps_sound _ _ _ _ Hsteps Hs1) as [more1 Hs2].
  pose proof Hs2 as ((contents & Hs2') & _). split; [exact (crash_intact _ _ _ _ _ _ Hs2' Hcr)|]. intros lease attaching recovery dir3 store3 Ho.
  destruct (restart_step_sound _ _ _ _ _ _ _ _ _ Hs2 Hcr Ho) as (more2 & saved2 & Hs3 & Hsame).
  rewrite (Hsame (crash_keeps_current _ _ _ _ _ _ Hs2' (owner_steps_settled _ _ Hsteps Hset) Hcr)) in Hs3.
  exists kept, (more ++ more1 ++ more2). rewrite <-!app_assoc in Hs3.
  split; [by apply view_represents|]. split; [|done]. eapply latest_view, sound_store, Hs3.
Qed.

Definition sample_publication := publish true new_store (view new_store) (store_manifest new_store) sample_created.1.
Definition sample_restart := open_directory (Ok tt) false Strict (closed sample_publication.1 sample_publication.2.1).

Lemma publish_ok (r : Directory * (Store * Result StorageError unit)) : is_ok r.2.2 = true -> r = (r.1, (r.2.1, Ok tt)).
Proof. by destruct r as [dir [store [[]|error|]]]. Qed.

Definition no_logs (dir : Directory) : bool := forallb (fun e => match e.1 with log_file _ => false | _ => true end) (map_to_list (entries dir)).

Lemma no_logs_no_collision `{Sha256} dir : no_logs dir = true -> no_collision dir.
Proof.
  intros Hn m m' rs rs' Hr _ (r & r' & Hin & _). destruct Hr as (rss & H2 & ->). destruct (segments m) as [|s segs]; [inversion H2; subst; by apply not_elem_of_nil in Hin|].
  inversion H2 as [|? ? ? ? (file & Hf & _)]; subst. unfold log_contents in Hf. destruct (entries dir !! _) as [f|] eqn:E; [|done].
  unfold no_logs in Hn. rewrite forallb_forall in Hn. specialize (Hn (log_file (segment_id s), f)). cbn in Hn.
  by discriminate Hn; apply list_elem_of_In, elem_of_map_to_list.
Qed.

Definition publication_exit : Directory := closed sample_publication.1 sample_publication.2.1.
Definition publication_checks : bool :=
  is_ok sample_publication.2.2 && (settled_current publication_exit && (sizes_ok publication_exit && is_ok sample_restart.2)).

Lemma publication_checked :
  is_ok sample_publication.2.2 = true /\ settled_current publication_exit = true /\ sizes_ok publication_exit = true /\ is_ok sample_restart.2 = true.
Proof.
  assert (publication_checks = true) as Hc by (vm_compute; reflexivity). unfold publication_checks in Hc. revert Hc.
  exact (check_both (check_both (check_both id))).
Qed.

Lemma published_checkpoint_survives_witness :
  exists contents more, Represents (view new_store) contents /\ Represents (view (the_store sample_restart.2)) contents
    /\ sound sample_restart.1 (the_store sample_restart.2) ([] ++ more) contents contents.
Proof.
  destruct publication_checked as (Hpub & Hset & Hsize & Hopen). pose proof (publish_ok sample_publication Hpub) as Hp.
  assert (no_collision sample_created.1) as Hno by (apply no_logs_no_collision; vm_compute; reflexivity).
  assert (manifest_typed (store_manifest new_store)) as Tg by (eapply durable_typed, sound_history, new_sound).
  assert (view new_store ∈ sys_views new_system) as Hin by (apply list_elem_of_here).
  destruct (published_checkpoint_survives new_system [] _ (view new_store) (store_manifest new_store) sample_publication.1 sample_publication.2.1
    {| sys_dir := sample_publication.1; sys_store := sample_publication.2.1; sys_views := sys_views new_system |}
    publication_exit new_system_holds Hin Tg Hno Hp (rtc_refl _ _) (clean_exit publication_exit Hset Hsize)) as [_ Hs].
  exact (Hs (Ok tt) false Strict _ _ (created_ok sample_restart Hopen)).
Defined.

(** C11: a publication is atomic: whatever the operating system answers and
    whenever it fails, the directory selects the checkpoint it selected before
    or the new one, and the new one when the call succeeds; no log changes, no
    page the store can read changes, and a failure after the first write
    leaves the store refusing further work. *)
Theorem publication_is_atomic `{Checksum} `{Sha256} owner dir store contents v held given chosen :
  store_holds store contents -> manifest_typed (store_manifest store) -> view_ok store v held -> manifest_typed given -> selects dir chosen ->
  let '(dir', (store', r)) := publish owner store v given dir in
  (forall id, log_contents dir' id = log_contents dir id) /\ reader (pages store') = reader (pages store)
  /\ match r with
     | Ok _ => selects dir' (store_manifest store')
     | _ => dir' = dir /\ store' = store
            \/ store_poisoned store' = true /\ (selects dir' chosen \/ exists g, selects dir' (completed store v given g))
     end.
Proof.
  intros Hh T Hv Tg Hsel. destruct (publish owner store v given dir) as [dir' [store' r]] eqn:Hp.
  assert (forall g, is_u64 g -> manifest_typed (completed store v given g)) as Hty by (intros g Hg; eapply completed_typed; [apply Hh|done..]).
  pose proof (publish_pages _ _ _ _ _ _ _ _ (proj1 (typed_generation _ T)) Hty Hp) as [Er _].
  apply publish_inv in Hp as [(Hne & -> & ->)|(_ & Hnp & g & proofs & logs & f & _ & _ & Hatt & _ & Hst)]; [| |apply (typed_generation _ T)|done].
  { split; [done|]. split; [done|]. destruct r as [[]| |]; [done|by left..]. }
  split; [intros id; by eapply attempted_logs|]. split; [done|]. destruct r as [[]|error|]; [| |done]; subst store'.
  - by destruct (attempted_ok _ _ _ _ Hatt eq_refl) as (_ & ? & _).
  - right. split; [done|]. destruct (attempted_old _ _ _ _ Hatt chosen Hsel) as [Ho|Ho]; [by left|right; by exists g].
Qed.

Lemma publication_is_atomic_witness :
  exists chosen, selects sample_created.1 chosen /\
  let '(dir', (store', r)) := publish true new_store (view new_store) (store_manifest new_store) sample_created.1 in
  (forall id, log_contents dir' id = log_contents sample_created.1 id) /\ reader (pages store') = reader (pages new_store)
  /\ match r with
     | Ok _ => selects dir' (store_manifest store')
     | _ => dir' = sample_created.1 /\ store' = new_store
            \/ store_poisoned store' = true
               /\ (selects dir' chosen \/ exists g, selects dir' (completed new_store (view new_store) (store_manifest new_store) g))
     end.
Proof.
  pose proof new_sound as [[Hd Hh _ (chosen & Hsel & _)] _]. exists chosen. split; [exact Hsel|].
  exact (publication_is_atomic true sample_created.1 new_store _ (view new_store) _ (store_manifest new_store) chosen
    Hh (durable_typed _ _ _ Hd) (view_of_store _ _ Hh) (durable_typed _ _ _ Hd) Hsel).
Defined.

(** C12: an append is atomic: it extends the log of the manifest by exactly its
    records and returns the new end of the digest chain, or poisons the store
    and leaves the log, whatever part of a group reached the files.  It never
    panics. *)
Theorem append_extends_log `{Checksum} `{Sha256} store records dir rs :
  manifest_typed (store_manifest store) -> validate_manifest (store_manifest store) = Ok tt -> log_records dir (store_manifest store) rs ->
  let '(dir', (store', result)) := append_wal store records dir in
  log_records dir' (store_manifest store) rs
  /\ match result with
     | Ok digest =>
         let next := store_manifest store' in
         log_records dir' next (rs ++ map snd records) /\ durable_sequence next = durable_sequence (store_manifest store) + len records
         /\ digest = durable_digest next /\ log_floor next = log_floor (store_manifest store)
         /\ manifest_typed next /\ validate_manifest next = Ok tt /\ validate_logs (log_contents dir') next = Ok tt
     | Err _ => store' = poison store
     | Panic => False
     end.
Proof.
  intros T Hv Hr. pose proof (append_wal_spec store records dir rs T Hv Hr) as Hspec.
  destruct (append_wal store records dir) as [dir' [store' [digest|error|]]]; [|by destruct Hspec as (_ & ? & ?)..].
  destruct Hspec as (_ & Hr' & (TN & HvN & HrN & Hd & Hf & _) & ->). split; [done|]. do 4 (split; [done|]). split; [done|]. split; [done|].
  apply validate_logs_iff; [done|]. split; [done|]. destruct HrN as (rss & H2 & _). apply Forall_forall. intros s (i & Hi)%list_elem_of_lookup.
  destruct (Forall2_lookup_l _ _ _ _ _ H2 Hi) as (r & _ & Hh). by exists r.
Qed.

Lemma append_extends_log_witness :
  let '(dir', (store', result)) := append_wal new_store [(1, sample_record)] sample_created.1 in
  log_records dir' (store_manifest new_store) []
  /\ match result with
     | Ok digest =>
         let next := store_manifest store' in
         log_records dir' next ([] ++ map snd [(1, sample_record)])
         /\ durable_sequence next = durable_sequence (store_manifest new_store) + len [(1, sample_record)]
         /\ digest = durable_digest next /\ log_floor next = log_floor (store_manifest new_store)
         /\ manifest_typed next /\ validate_manifest next = Ok tt /\ validate_logs (log_contents dir') next = Ok tt
     | Err _ => store' = poison new_store
     | Panic => False
     end.
Proof.
  pose proof (sound_history _ _ _ _ _ new_sound) as [D1 D2 _ D4 _ _]. unfold window in D4. rewrite drop_nil in D4.
  exact (append_extends_log new_store [(1, sample_record)] sample_created.1 [] D1 D2 D4).
Defined.

(** C13: recovery finds the flushed records: starting from the selected
    manifest it never panics and leaves the selected log as it was; the
    manifest it returns is valid, differs from the selected one in the end of
    its log only, and its log has every record of any manifest that an owner
    reached from the selected one by flushed appends, then perhaps more. *)
Theorem recovery_finds_flushed_records `{Checksum} `{Sha256} m recovery dir rs :
  manifest_typed m -> validate_manifest m = Ok tt -> log_records dir m rs ->
  (forall id data, log_contents dir id = Some data -> len data <= u64_max) ->
  let '(dir', result) := recover_tail m recovery dir in
  result <> Panic /\ log_records dir' m rs
  /\ forall next, result = Ok next -> log_only m next /\ continues m next /\ manifest_typed next /\ validate_manifest next = Ok tt
       /\ (exists more, log_records dir' next (rs ++ more) /\ durable_sequence next = durable_sequence m + len more)
       /\ forall live found, manifest_typed live -> validate_manifest live = Ok tt -> log_records dir live found ->
            continues m live -> log_floor live = log_floor m -> exists more, log_records dir' next (found ++ more).
Proof.
  intros T Hv Hr Hmax. pose proof (recover_tail_no_panic m recovery dir rs T Hv Hr Hmax) as Hnp.
  destruct (recover_tail m recovery dir) as [dir' result] eqn:Hrec. destruct (recover_tail_spec _ _ _ _ _ _ T Hv Hr Hrec) as [Hm Hnext].
  split; [by destruct result|]. split; [done|]. intros next ->. destruct (Hnext _ eq_refl) as (more & TN & HvN & Hr' & Hd & _).
  destruct (recovery_continues _ _ _ _ _ _ T Hv Hr Hrec) as [Hlo Hc]. do 4 (split; [done|]). split; [by exists more|].
  intros live found Tl Hvl Hrl Hcl Hfl. exact (recovery_extends _ _ _ _ _ _ _ _ T Hv Hr Tl Hvl Hrl Hcl Hfl Hmax Hrec).
Qed.

Definition sample_recovery := recover_tail (store_manifest new_store) DiscardInvalid sample_append.1.

Lemma recovered_ok (r : Directory * Result StorageError Manifest) : is_ok r.2 = true -> exists next, r = (r.1, Ok next).
Proof. destruct r as [dir [next|error|]]; [by exists next|done..]. Qed.

Lemma recovery_finds_flushed_records_witness :
  exists dir' next more, recover_tail (store_manifest new_store) DiscardInvalid sample_append.1 = (dir', Ok next)
    /\ log_records dir' next ([sample_record] ++ more).
Proof.
  destruct sample_append_ok as [digest Ha]. pose proof new_sound as [[[D1 D2 _ D4 _ _] _ _ _] _]. unfold window in D4. rewrite drop_nil in D4.
  pose proof (append_wal_spec new_store [(1, sample_record)] sample_created.1 [] D1 D2 D4) as Hspec.
  unfold sample_append at 1 in Ha. rewrite Ha in Hspec.
  destruct Hspec as (_ & Hold & (TN & HvN & HrN & _ & Hf & _ & _ & _ & b & B & Happ) & _).
  destruct append_checked as (_ & Hs & _).
  pose proof (recovery_finds_flushed_records (store_manifest new_store) DiscardInvalid sample_append.1 [] D1 D2 Hold (log_sizes _ Hs)) as Hrec.
  assert (is_ok sample_recovery.2 = true) as Hok by (vm_compute; reflexivity). apply recovered_ok in Hok as [next Hok]. unfold sample_recovery at 1 in Hok.
  rewrite Hok in Hrec. destruct Hrec as (_ & _ & Hn). destruct (Hn next eq_refl) as (_ & _ & _ & _ & _ & Hl).
  destruct (Hl _ _ TN HvN HrN (appended_continues _ _ _ _ _ _ B Happ D1) Hf) as [more Hm]. exists sample_recovery.1, next, more. split; [exact Hok|exact Hm].
Defined.

(** C14: the committed prefix of a segment has one form: reading it yields
    records exactly when the descriptor is valid and the file begins with the
    segment header, its padding, and the images of groups that run from the
    descriptor's first record to its last, each record linked to the digest of
    the one before; then it yields those records.  Reading never panics. *)
Theorem segment_prefix_is_canonical `{Checksum} `{Sha256} file database s :
  descriptor_typed s -> len database = 16 ->
  no_panic (segment_records file database s)
  /\ forall records, segment_records file database s = Ok records <->
       validate_descriptor s = Ok tt /\ exists rs, segment_holds file database s rs /\ records = records_of (first_sequence s) rs.
Proof. intros T Hdb. split; [by apply segment_records_no_panic|]. intros records. by apply segment_records_iff. Qed.

Definition no_segment : SegmentDescriptor :=
  {| segment_id := 0; first_sequence := 0; last_sequence := 0; committed_bytes := 0; predecessor_digest := []; last_digest := [] |}.
Definition sample_segment : SegmentDescriptor := hd no_segment (segments (store_manifest appended_store)).
Definition sample_log : bytes := default [] (log_contents sample_append.1 1).

Lemma appended_holds : exists contents saved, sound sample_append.1 appended_store [sample_record] contents saved.
Proof.
  destruct sample_append_ok as [digest Ha].
  destruct (append_step_sound new_system [(1, sample_record)] sample_append.1 appended_store (Ok digest) [] _ new_system_holds Ha) as ((contents & Hs) & _).
  exists contents, (created_contents sample_genesis). exact Hs.
Qed.

Lemma appended_typed_manifest : manifest_typed (store_manifest appended_store).
Proof. destruct appended_holds as (contents & saved & Hs). exact (durable_typed _ _ _ (sound_history _ _ _ _ _ Hs)). Qed.

Lemma hd_typed (d : SegmentDescriptor) segs : bool_decide (segs = []) = false -> Forall descriptor_typed segs -> descriptor_typed (hd d segs).
Proof. intros Hne%bool_decide_eq_false_1 Hs. destruct Hs as [|s segs Hs _]; [done|exact Hs]. Qed.

Lemma sample_segment_typed : descriptor_typed sample_segment.
Proof. apply (hd_typed no_segment (segments (store_manifest appended_store))); [vm_compute; reflexivity|apply typed_segments, appended_typed_manifest]. Qed.

Lemma records_ok {E A} (r : Result E A) : is_ok r = true -> exists a, r = Ok a.
Proof. destruct r as [a|error|]; [by exists a|done..]. Qed.

Lemma unit_ok {E} (r : Result E unit) : is_ok r = true -> r = Ok tt.
Proof. by destruct r as [[]|error|]. Qed.

Lemma segment_prefix_is_canonical_witness : exists rs, segment_holds sample_log sample_id sample_segment rs.
Proof.
  assert (is_ok (segment_records sample_log sample_id sample_segment) = true) as Hok by (vm_compute; reflexivity).
  apply records_ok in Hok as [records Hok].
  destruct (proj1 (proj2 (segment_prefix_is_canonical sample_log sample_id sample_segment sample_segment_typed eq_refl) records) Hok) as (_ & rs & Hh & _).
  exists rs. exact Hh.
Defined.

(** C15: an accepted log is one chain: its segments hold consecutive records,
    each linked to the one before, from the floor to the durable frontier and
    digest; a log with its whole history starts at the genesis digest, one
    pruned to the checkpoint at the checkpoint digest, and the record of the
    checkpoint sequence has the checkpoint digest. *)
Theorem accepted_log_is_one_chain `{Checksum} `{Sha256} files m :
  manifest_typed m -> validate_logs files m = Ok tt -> segments m <> [] ->
  exists p rs, log_of files m rs /\ records_chain (log_floor m) p rs (durable_digest m)
    /\ log_floor m + len rs = durable_sequence m + 1
    /\ (log_floor m = 1 -> p = genesis_digest m)
    /\ (log_floor m <> 1 -> log_floor m = manifest_checkpoint_sequence m + 1 -> p = checkpoint_digest m)
    /\ Forall (agrees m) (records_of (log_floor m) rs).
Proof.
  intros T Hv Hne. destruct (logs_chain _ _ T Hv Hne) as (p & rss & H2 & Hrest). exists p, (concat rss). split; [by exists rss|exact Hrest].
Qed.

Lemma accepted_log_is_one_chain_witness :
  let m := store_manifest appended_store in
  exists p rs, log_of (log_contents sample_append.1) m rs /\ records_chain (log_floor m) p rs (durable_digest m)
    /\ log_floor m + len rs = durable_sequence m + 1
    /\ (log_floor m = 1 -> p = genesis_digest m)
    /\ (log_floor m <> 1 -> log_floor m = manifest_checkpoint_sequence m + 1 -> p = checkpoint_digest m)
    /\ Forall (agrees m) (records_of (log_floor m) rs).
Proof.
  apply (accepted_log_is_one_chain (log_contents sample_append.1) (store_manifest appended_store)).
  - exact appended_typed_manifest.
  - apply unit_ok. vm_compute. reflexivity.
  - assert (bool_decide (segments (store_manifest appended_store) = []) = false) as Hne by (vm_compute; reflexivity).
    exact (bool_decide_eq_false_1 _ Hne).
Defined.




(** C17: a new store is sound: [create] returns a store whose newest view shows
    the genesis policy and nothing else, with an empty history, in a directory
    whose files select it. *)
Theorem created_store_is_sound `{Checksum} `{Sha256} lease genesis namespace dir dir' store :
  len (genesis_database_id genesis) = 16 -> policy_wf (initial_policy genesis) -> len namespace = 16 ->
  create lease genesis namespace dir = (dir', Ok store) ->
  sys_sound {| sys_dir := dir'; sys_store := store; sys_views := [view store] |} []
  /\ Represents (view store) (created_contents genesis) /\ selects dir' (store_manifest store).
Proof.
  intros Hid Hpol Hns Hc. pose proof (create_sound _ _ _ _ _ _ Hid Hpol Hns Hc) as Hs. split; [eexists; by eapply system_holds|].
  split; [by eapply latest_view, sound_store|]. apply create_inv in Hc as (data & f & p & root & d & _ & _ & Hp & Hpub).
  apply create_pages_ok in Hp as (W & _ & Hroots); [|done].
  set (m := first_manifest genesis (sha256 data) namespace (page_count p) root) in *. assert (manifest_typed m) as T by (by eapply first_manifest_typed).
  pose proof (publish_files_spec (created_store genesis m p) m d T) as Hspec. rewrite Hpub in Hspec. destruct Hspec as (_ & Hatt & f' & -> & _).
  by destruct (attempted_ok _ _ _ _ Hatt eq_refl) as (_ & ? & _).
Qed.

Lemma created_store_is_sound_witness :
  sys_sound {| sys_dir := sample_created.1; sys_store := new_store; sys_views := [view new_store] |} []
  /\ Represents (view new_store) (created_contents sample_genesis) /\ selects sample_created.1 (store_manifest new_store).
Proof.
  apply (created_store_is_sound (Ok tt) sample_genesis sample_id empty_directory); [reflexivity|exact sample_policy_wf|reflexivity|exact sample_created_ok].
Defined.

(** * The engine

    Commits, and the replay of their records. *)
(** ** A sample commit *)
Definition sample_command : Command := Command_Catalogue (Create [x62; x61; x6c] Type_U64 Type_I64).
Definition sample_commit := commit sample_command new_store sample_created.1.
Definition committed_store : Store := sample_commit.2.1.
Definition no_receipt : Receipt := {| receipt_sequence := 0; receipt_outcome := Aborted {| reason := NameInUse; user_code := 0; instruction := 0; detail := 0 |} |}.
Definition receipt_of (r : Result DbError Receipt) : Receipt := match r with Ok receipt => receipt | _ => no_receipt end.
Definition sample_receipt : Receipt := receipt_of sample_commit.2.2.

Lemma commit_receipt (r : Directory * (Store * Result DbError Receipt)) : is_ok r.2.2 = true -> r = (r.1, (r.2.1, Ok (receipt_of r.2.2))).
Proof. by destruct r as [dir [store [receipt|error|]]]. Qed.

Definition sample_crashed : Directory := closed sample_commit.1 committed_store.
Definition commit_reopened := open_directory (Ok tt) false DiscardInvalid sample_crashed.
Definition commit_recovered := recover (the_store commit_reopened.2) commit_reopened.1.
Definition committed_history := validate_history (view committed_store) (store_manifest committed_store) sample_genesis.

(** What the witnesses ask of the commit and of what follows it, evaluated
    once. *)
Definition commit_checks : bool :=
  is_ok sample_commit.2.2 && (settled_current sample_crashed && (sizes_ok sample_crashed &&
  (is_ok commit_reopened.2 && (is_ok commit_recovered.2.2 && is_ok committed_history)))).

Lemma commit_checked :
  is_ok sample_commit.2.2 = true /\ settled_current sample_crashed = true /\ sizes_ok sample_crashed = true
  /\ is_ok commit_reopened.2 = true /\ is_ok commit_recovered.2.2 = true /\ is_ok committed_history = true.
Proof.
  assert (commit_checks = true) as Hc by (vm_compute; reflexivity). unfold commit_checks in Hc. revert Hc.
  exact (check_both (check_both (check_both (check_both (check_both id))))).
Qed.

Lemma sample_commit_ok : sample_commit = (sample_commit.1, (committed_store, Ok sample_receipt)).
Proof. destruct commit_checked as (Hc & _). exact (commit_receipt sample_commit Hc). Qed.

Lemma new_engine : engine_sound sample_created.1 new_store [] (created_contents sample_genesis) (created_contents sample_genesis).
Proof.
  split; [exact new_sound|]. assert (manifest_checkpoint_sequence (store_manifest new_store) = 0) as -> by (vm_compute; reflexivity).
  assert (durable_sequence (store_manifest new_store) = 0) as -> by (vm_compute; reflexivity). exact genesis_world.
Qed.

(** C4: a commit is logged before it runs and acknowledged after it is the
    checkpoint: what fails before the first write changes nothing; an
    acknowledged command is the next record of the history, run as that record
    over the newest maps, which become the selected checkpoint; a later
    failure is reported as uncertain, at the record's sequence, and leaves the
    history with or without that record.  Nothing before the publication
    panics. *)
Theorem commit_is_logged_then_run `{Checksum} `{Sha256} dir store records contents saved command :
  engine_sound dir store records contents saved -> command_valid command ->
  let '(dir', (store', r)) := commit command store dir in
  match prepare_commit store command with
  | Ok (sequence, _, data) =>
      match r with
      | Ok receipt => exists contents', commit_done dir' store' records contents command receipt data contents'
      | Err error => (exists source, error = uncertain sequence source) /\ uncertain_state dir' store' records contents saved data
      | Panic => uncertain_state dir' store' records contents saved data
      end
  | Err error => r = Err error /\ dir' = dir /\ store' = store
  | Panic => False
  end.
Proof. apply commit_sound. Qed.

Definition data_of {A B} (r : Result DbError (A * B * bytes)) : bytes := match r with Ok (_, _, data) => data | _ => [] end.
Definition sample_prepared : bytes := data_of (prepare_commit new_store sample_command).

Lemma prepared_ok {A B} (r : Result DbError (A * B * bytes)) : is_ok r = true -> exists a b, r = Ok (a, b, data_of r).
Proof. destruct r as [[[a b] data]|error|]; [by exists a, b|done..]. Qed.

Lemma prepared_unique {A B} (r : Result DbError (A * B * bytes)) a b data a' b' data' :
  r = Ok (a, b, data) -> r = Ok (a', b', data') -> data = data'.
Proof. intros -> [= _ _ ->]. done. Qed.

Lemma sample_prepared_ok : exists sequence c, prepare_commit new_store sample_command = Ok (sequence, c, sample_prepared).
Proof. unfold sample_prepared. apply prepared_ok. vm_compute. reflexivity. Qed.

Lemma sample_command_valid : command_valid sample_command.
Proof. repeat split; vm_compute; discriminate. Qed.

Lemma commit_is_logged_then_run_witness :
  exists contents', commit_done sample_commit.1 committed_store [] (created_contents sample_genesis) sample_command sample_receipt sample_prepared contents'.
Proof.
  pose proof (commit_is_logged_then_run sample_created.1 new_store [] _ _ sample_command new_engine sample_command_valid) as Hc.
  change (commit sample_command new_store sample_created.1) with sample_commit in Hc. rewrite sample_commit_ok in Hc.
  destruct sample_prepared_ok as (sequence & c & Hp). rewrite Hp in Hc. exact Hc.
Defined.

(** C5: an acknowledged commit survives: a crash ([crash]) drops of every file
    what was written since its last successful flush, and undoes any change of
    a name since the last successful flush of the directory.  Whatever it
    leaves has a selected manifest with a valid log and its pages, and a store
    that opens on it and recovers is sound again, has the command's record in
    its place of the history, shows the outcome that was acknowledged, and
    shows every snapshot up to it as the commit left it. *)
Theorem acknowledged_commit_survives `{Checksum} `{Sha256} dir store records contents saved command dir1 store1 receipt
    dir2 :
  engine_sound dir store records contents saved -> command_valid command ->
  commit command store dir = (dir1, (store1, Ok receipt)) ->
  crash (closed dir1 store1) dir2 ->
  (exists chosen, intact dir2 store1 chosen) /\ forall lease attaching recovery dir3 store3 dir4 store4,
  open_directory lease attaching recovery dir2 = (dir3, Ok store3) -> recover store3 dir3 = (dir4, (store4, Ok tt)) ->
  exists data contents1 more contents4, commit_done dir1 store1 records contents command receipt data contents1
    /\ engine_sound dir4 store4 (records ++ [data] ++ more) contents4 contents4
    /\ (forall s, s <= receipt_sequence receipt -> snapshot contents4 s ≡ snapshot contents1 s)
    /\ shows_outcome contents4 (operation_record (receipt_sequence receipt) (operation_of (sha256 data) command) (receipt_outcome receipt)).
Proof.
  intros He Hv Hc Hcr. destruct (commit_acknowledged _ _ _ _ _ _ _ _ _ He Hv Hc) as (data & contents1 & _ & Hdone).
  split; [exact (crash_intact _ _ _ _ _ _ (engine_store _ _ _ _ _ (done_sound _ _ _ _ _ _ _ _ Hdone)) Hcr)|]. intros lease attaching recovery dir3 store3 dir4 store4 Ho Hr.
  destruct (commit_survives _ _ _ _ _ _ _ _ _ _ _ _ _ _ _ _ Hdone Hcr Ho Hr) as (more & contents4 & H1 & H2 & H3). by exists data, contents1, more, contents4.
Qed.

Lemma acknowledged_commit_survives_witness :
  exists data contents1 more contents4, commit_done sample_commit.1 committed_store [] (created_contents sample_genesis) sample_command sample_receipt data contents1
    /\ engine_sound commit_recovered.1 commit_recovered.2.1 ([] ++ [data] ++ more) contents4 contents4
    /\ (forall s, s <= receipt_sequence sample_receipt -> snapshot contents4 s ≡ snapshot contents1 s)
    /\ shows_outcome contents4 (operation_record (receipt_sequence sample_receipt) (operation_of (sha256 data) sample_command) (receipt_outcome sample_receipt)).
Proof.
  destruct commit_checked as (_ & Hset & Hsize & Hopen & Hrec & _).
  destruct (acknowledged_commit_survives sample_created.1 new_store [] _ _ sample_command sample_commit.1 committed_store sample_receipt
    sample_crashed new_engine sample_command_valid sample_commit_ok (clean_exit sample_crashed Hset Hsize)) as [_ Hs].
  apply (Hs (Ok tt) false DiscardInvalid commit_reopened.1 (the_store commit_reopened.2) commit_recovered.1 commit_recovered.2.1).
  - exact (created_ok commit_reopened Hopen).
  - exact (recovered_store commit_recovered Hrec).
Defined.

(** C6: recovery replays the log: whatever a crash leaves of the files and
    names that were not flushed, a store that opens on it and recovers has an
    accepted checkpoint that is a well-typed database with the policy of the
    genesis file, the one that was selected before when the crash left CURRENT
    as it was, and its newest maps are
    those of running the records above the checkpoint over it in order, each
    as the next sequence; they are well typed and become the checkpoint.  A
    recovery that fails leaves a sound store with the same history. *)
Theorem recovery_replays_log `{Checksum} `{Sha256} dir store records contents saved dir2 lease attaching recovery dir3 store3 :
  sound dir store records contents saved -> crash (closed dir store) dir2 ->
  open_directory lease attaching recovery dir2 = (dir3, Ok store3) ->
  exists more saved2, (held dir2 CURRENT = held dir CURRENT -> saved2 = saved) /\ let history := records ++ more in let cp := manifest_checkpoint_sequence (store_manifest store3) in
  let '(dir4, (store4, r)) := recover store3 dir3 in
  match r with
  | Ok _ => world saved2 cp cp /\ policy_at (saved2 Policy) 0 = Some (initial_policy (store_genesis store3)) /\
      exists contents4, replayed saved2 cp (drop (Z.to_nat cp) history) contents4 /\
        engine_sound dir4 store4 history contents4 contents4 /\
        manifest_checkpoint_sequence (store_manifest store4) = durable_sequence (store_manifest store4)
  | _ => exists contents4 saved4, sound dir4 store4 history contents4 saved4 /\ (saved4 = saved2 \/ saved4 = contents4)
  end.
Proof.
  intros Hs Hcr Ho. destruct (open_sound _ _ _ _ _ _ _ _ _ _ _ Hs Hcr Ho) as (more & saved2 & Hs3 & Hsame). exists more, saved2. split; [exact Hsame|].
  exact (recover_sound _ _ _ _ Hs3 (opened_roots _ _ _ _ _ _ Ho)).
Qed.

(** The record of the change of the limits was appended and never run. *)
Lemma recovery_replays_log_witness :
  exists more contents4, replayed (created_contents sample_genesis) 0 ([sample_record] ++ more) contents4
    /\ engine_sound sample_replay.1 sample_replay.2.1 ([sample_record] ++ more) contents4 contents4.
Proof.
  destruct sample_append_ok as [digest Ha].
  destruct (append_step_sound new_system [(1, sample_record)] sample_append.1 appended_store (Ok digest) [] _ new_system_holds Ha) as ((contents & Hs) & _).
  destruct (recovery_replays_log sample_append.1 appended_store [sample_record] contents (created_contents sample_genesis)
    sample_exit (Ok tt) false DiscardInvalid sample_reopened.1 (the_store sample_reopened.2)) as (more & saved2 & Hsame & Hr).
  - exact Hs.
  - exact append_crash.
  - exact sample_reopened_ok.
  - pose proof sample_replay_ok as Hok.
    cbv zeta in Hr. unfold sample_replay at 1 in Hok. rewrite Hok in Hr. destruct Hr as (_ & _ & contents4 & Hrep & He & _).
    rewrite (Hsame exit_current) in Hrep.
    exists more, contents4. split; [|exact He].
    rewrite reopened_checkpoint in Hrep. exact Hrep.
Defined.

(** C7: replay is deterministic: the same records run over two well-typed
    databases whose newest snapshots show the same have the same outcomes and
    end in snapshots that show the same, whatever the files, the pages and the
    older versions of the two are. *)
Theorem replay_is_deterministic `{Checksum} `{Sha256} rs contents1 contents2 checkpoint1 checkpoint2 last outcomes1 outcomes2 contents1' contents2' :
  world contents1 checkpoint1 last -> world contents2 checkpoint2 last -> snapshot contents1 last ≡ snapshot contents2 last ->
  replay_outcomes contents1 last rs outcomes1 contents1' -> replay_outcomes contents2 last rs outcomes2 contents2' ->
  outcomes1 = outcomes2 /\ snapshot contents1' (last + len rs) ≡ snapshot contents2' (last + len rs).
Proof. apply replay_deterministic. Qed.

(** The commit and the recovery of one command over the new store. *)
Definition limits_command : Command := Command_Limits sample_policy.
Definition limits_commit := commit limits_command new_store sample_created.1.

Lemma limits_commit_ok : exists receipt, limits_commit = (limits_commit.1, (limits_commit.2.1, Ok receipt)).
Proof. eexists. apply commit_receipt. vm_compute. reflexivity. Qed.

Definition limits_data : bytes := data_of (prepare_commit new_store limits_command).

Lemma limits_prepared : exists sequence c, prepare_commit new_store limits_command = Ok (sequence, c, sample_record).
Proof.
  assert (limits_data = sample_record) as <- by (vm_compute; reflexivity). unfold limits_data. apply prepared_ok. vm_compute. reflexivity.
Qed.

(** What recovery makes of the record that was appended and never run. *)
Lemma sample_replayed : exists contents', replayed (created_contents sample_genesis) 0 [sample_record] contents'
  /\ engine_sound sample_replay.1 sample_replay.2.1 [sample_record] contents' contents'.
Proof.
  destruct sample_append_ok as [digest Ha].
  destruct (append_step_sound new_system [(1, sample_record)] sample_append.1 appended_store (Ok digest) [] _ new_system_holds Ha) as ((contents & Hs) & _).
  pose proof sample_reopened_ok as Ho.
  destruct (open_sound _ _ _ _ _ _ _ _ _ _ _ Hs append_crash Ho) as (more & saved2 & Hs3 & Hsame). rewrite (Hsame exit_current) in Hs3. pose proof (opened_roots _ _ _ _ _ _ Ho) as Hroots.
  pose proof (recover_sound _ _ _ _ Hs3 Hroots) as Hr. cbv zeta in Hr.
  pose proof sample_replay_ok as Hok.
  unfold sample_replay at 1 in Hok. rewrite Hok in Hr. destruct Hr as (_ & _ & contents' & Hrep & He & _).
  rewrite reopened_checkpoint in Hrep.
  pose proof (durable_length _ _ _ (sound_history _ _ _ _ _ (engine_store _ _ _ _ _ He))) as Hl. rewrite replay_durable in Hl.
  cbn [app map snd] in Hrep, He, Hl. destruct more as [|x more]; [exists contents'; split; [exact Hrep|exact He]|].
  exfalso. revert Hl. clear. rewrite !len_cons. pose proof (len_nonneg more). lia.
Qed.

Lemma replay_is_deterministic_witness :
  exists receipt contents1 contents2,
    commit_done limits_commit.1 limits_commit.2.1 [] (created_contents sample_genesis) limits_command receipt sample_record contents1
    /\ engine_sound sample_replay.1 sample_replay.2.1 [sample_record] contents2 contents2
    /\ snapshot contents1 (0 + len [sample_record]) ≡ snapshot contents2 (0 + len [sample_record]).
Proof.
  destruct limits_commit_ok as [receipt Hok].
  assert (command_valid limits_command) as Hv by exact sample_policy_wf.
  unfold limits_commit at 1 in Hok. destruct (commit_acknowledged _ _ _ _ _ _ _ _ _ new_engine Hv Hok) as (data & contents1 & (a & c & Hp) & Hdone).
  destruct limits_prepared as (a' & c' & Hp'). pose proof (prepared_unique _ _ _ _ _ _ _ Hp Hp') as ->. destruct sample_replayed as (contents2 & Hrep & He).
  apply replayed_outcomes in Hrep as [outcomes Hrep]. exists receipt, contents1, contents2. split; [exact Hdone|]. split; [exact He|].
  destruct Hdone as [_ _ Hstep _ _ _]. change (len []) with 0 in Hstep.
  apply (replay_is_deterministic [sample_record] (created_contents sample_genesis) (created_contents sample_genesis) 0 0 0 [receipt_outcome receipt] outcomes contents1 contents2);
    [exact genesis_world|exact genesis_world|reflexivity|exists contents1; by split|exact Hrep].
Defined.

(** C8: a checkpoint is read before it is trusted: when the validation of
    history accepts the maps of a view, they are a well-typed database at the
    checkpoint: every version is canonical and no newer than the checkpoint,
    tables keep their schemas, live names are unique, rows belong to their
    table's schema, every outcome above the history floor is present, and the
    policy at sequence zero is the genesis policy. *)
Theorem accepted_checkpoint_is_well_typed `{Storage View Cell} (view : View) contents manifest genesis history :
  Represents view contents -> 0 <= history_floor manifest -> validate_history view manifest genesis = Ok history ->
  world contents (history_floor manifest) (manifest_checkpoint_sequence manifest)
  /\ policy_at (contents Policy) 0 = Some (initial_policy genesis).
Proof.
  intros Hview Hf Hv. unfold validate_history in Hv. apply map_err_ok in Hv. by eapply validate_checkpoint_world.
Qed.

Lemma history_ok {E A} (r : Result E A) : is_ok r = true -> exists a, r = Ok a.
Proof. destruct r as [a|error|]; [by exists a|done..]. Qed.

Lemma accepted_checkpoint_is_well_typed_witness :
  exists contents', commit_done sample_commit.1 committed_store [] (created_contents sample_genesis) sample_command sample_receipt sample_prepared contents'
    /\ world contents' (history_floor (store_manifest committed_store)) (manifest_checkpoint_sequence (store_manifest committed_store)).
Proof.
  destruct (commit_acknowledged _ _ _ _ _ _ _ _ _ new_engine sample_command_valid sample_commit_ok) as (data & contents' & (a & c & Hp) & Hdone).
  destruct sample_prepared_ok as (a' & c' & Hp'). pose proof (prepared_unique _ _ _ _ _ _ _ Hp Hp') as ->. exists contents'. split; [exact Hdone|].
  destruct Hdone as [_ _ _ [Hs _] _ _]. destruct commit_checked as (_ & _ & _ & _ & _ & Hok). destruct (history_ok committed_history Hok) as [history Hh].
  apply (accepted_checkpoint_is_well_typed (view committed_store) contents' (store_manifest committed_store) sample_genesis history).
  - apply latest_view, (sound_store _ _ _ _ _ Hs).
  - assert (bool_decide (0 <= history_floor (store_manifest committed_store)) = true) as Hb by (vm_compute; reflexivity). exact (bool_decide_eq_true_1 _ Hb).
  - exact Hh.
Defined.
