(* ===== verification/Serial.v ===== *)
(** * What serial execution promises

    The properties of records executed one after the other: refinement of the
    abstract database, preservation of its invariant, termination of admitted
    programs, and the scopes that bound what they read and write. *)
From S2P Require Import Prelude OrdMap Errors Reader Value ValueFacts Encoding Limits Operations Program ProgramFacts Catalogue Access AccessFacts Analysis Storage Mvcc MvccFacts Overlay OverlayFacts Outcome OutcomeFacts Administration Snapshots Installation Runtime RuntimeFacts Frame Execution World Samples.

(** C1: executing a record at a sequence number either resolves exactly the
    next sequence, installing all of the computed outcome over the newest
    snapshot, changing no older snapshot and keeping the database well typed,
    or leaves the database as it was; it never panics, whatever the bytes of
    the program and its arguments. *)
Theorem execution_refines (sha256 : bytes -> bytes) `{StoreLaws Db View Cell} (store : Db) contents last sequence operation :
  holds store contents -> world contents (checkpoint_sequence store) last -> operation_ok operation ->
  0 <= sequence <= u64_max ->
  match execute_operation sha256 store sequence operation with
  | (store', Ok o) => sequence = last + 1 /\
      operation_outcome sha256 (store_view store) sequence operation = Ok o /\
      exists contents', holds store' contents' /\ world contents' (checkpoint_sequence store') sequence /\
        resolved (operation_record sequence operation o) (checkpoint_sequence store) last contents contents'
  | (store', Err _) => holds store' contents /\ world contents (checkpoint_sequence store') last
  | (_, Panic) => False
  end.
Proof.
  intros Hh Hw Hop Hs. pose proof (execute_operation_world sha256 store contents last sequence operation Hh Hw Hop Hs) as Hx.
  destruct (execute_operation _ _ _ _) as [store' [o|e|]]; [|tauto|done]. destruct Hx as (Es & Ho & _ & Hx). done.
Qed.

Lemma execution_refines_witness :
  match execute_operation sample_sha256 table_store 2 (deposit 7 30) with
  | (store', Ok o) => 2 = 1 + 1 /\ operation_outcome sample_sha256 (store_view table_store) 2 (deposit 7 30) = Ok o /\
      exists contents', holds store' contents' /\ world contents' (checkpoint_sequence store') 2 /\
        resolved (operation_record 2 (deposit 7 30) o) (checkpoint_sequence table_store) 1 (memory_contents table_store) contents'
  | (store', Err _) => holds store' (memory_contents table_store) /\
      world (memory_contents table_store) (checkpoint_sequence store') 1
  | (_, Panic) => False
  end.
Proof.
  apply (execution_refines sample_sha256 table_store (memory_contents table_store) 1 2 (deposit 7 30)).
  - apply table_world.
  - apply table_world.
  - apply deposit_ok.
  - split; vm_compute; discriminate.
Defined.

(** C2: every store reached from a well-typed database by any operations at
    any sequence numbers, failed ones included, holds a well-typed database:
    rows are canonical keys and values of their table's schema, a table never
    changes its schema, and no two live tables share a name. *)
Theorem reachable_in_world (sha256 : bytes -> bytes) `{StoreLaws Db View Cell} (start store : Db) :
  reaches sha256 start store -> in_world start -> in_world store.
Proof. apply reaches_world. Qed.

Lemma reachable_in_world_witness : in_world table_store.
Proof.
  apply (reachable_in_world sample_sha256 genesis_store).
  - eapply (reaches_step _ _ genesis_store 1 create_balances);
      [apply reaches_start|apply create_balances_ok|split; vm_compute; discriminate|apply surjective_pairing].
  - apply genesis_in_world.
Defined.

(** C3: an admitted program terminates: over a well-typed database its run
    produces an outcome within as many steps as it has instructions, never an
    error or a panic, and the outcome is a value of the result type with typed
    row effects in canonical order, or a well-formed abort. *)
Theorem admitted_run_terminates (sha256 : bytes -> bytes) `{Storage View Cell} (view : View) contents checkpoint last
    claims sequence prior program :
  Represents view contents -> world contents checkpoint last -> policy_wf claims ->
  prepared contents claims sequence prior program ->
  exists o, run sha256 view prior program claims = Ok o /\ outcome_wf o /\ canonical o /\
    Forall (typed_effect (snapshot contents prior)) (outcome_effects o).
Proof. intros Hv Hw Hc. by eapply run_outcome. Qed.

Lemma admitted_run_terminates_witness :
  exists o, run sample_sha256 (store_view balance_store) 2 decoded_deposit sample_policy = Ok o /\
    outcome_wf o /\ canonical o /\ Forall (typed_effect (snapshot (memory_contents balance_store) 2)) (outcome_effects o).
Proof.
  apply (admitted_run_terminates sample_sha256 (store_view balance_store) (memory_contents balance_store)
    (memory_checkpoint balance_store) 2 sample_policy 3 2).
  - apply holds_view, balance_world.
  - apply balance_world.
  - apply sample_policy_wf.
  - apply deposit_prepared.
Defined.

(** C20: a run depends on the database only through the rows its admitted
    manifest lets it read: two snapshots, of any stores, that agree on those
    rows give the same outcome. *)
Theorem run_depends_on_read_scopes (sha256 : bytes -> bytes) program claims argument_types constant_types required manifest
    `{S1 : Storage View1 Cell1} (view1 : View1) contents1 prior1
    `{S2 : Storage View2 Cell2} (view2 : View2) contents2 prior2 :
  policy_wf claims -> admitted program argument_types constant_types (prog_tables program) claims ->
  derive sha256 program = Ok required -> validate manifest required (prog_tables program) claims = Ok tt ->
  database_ok view1 contents1 prior1 program -> database_ok view2 contents2 prior2 program ->
  (forall table key, granted (entries manifest) table key 0 ->
     row (contents1 State) table key prior1 = row (contents2 State) table key prior2) ->
  run sha256 view1 prior1 program claims = run sha256 view2 prior2 program claims.
Proof.
  intros Hc Ha Hd Hv Hdb1 Hdb2 Hrows.
  exact (proj1 (run_frame sha256 program claims _ _ Hc Ha required manifest Hd Hv view1 contents1 prior1
    view2 contents2 prior2 Hdb1 Hdb2 Hrows)).
Qed.

(** The deposit reads key 7 only, which the later snapshot did not change. *)
Lemma deposit_rows_agree table key :
  granted (entries deposit_required) table key 0 ->
  row (memory_contents balance_store State) table key 2 = row (memory_contents other_store State) table key 3.
Proof.
  intros (scope & mode & Hin & Hs & _). unfold deposit_required in Hin. vm_compute in Hin.
  apply list_elem_of_singleton in Hin. injection Hin as -> ->. destruct Hs as [Hs|Hs]; [discriminate Hs|].
  injection Hs as <- <-. vm_compute. reflexivity.
Qed.

Lemma run_depends_on_read_scopes_witness :
  run sample_sha256 (store_view balance_store) 2 decoded_deposit sample_policy =
  run sample_sha256 (store_view other_store) 3 decoded_deposit sample_policy.
Proof.
  destruct deposit_admitted as (at_ & ct & Hadm).
  apply (run_depends_on_read_scopes sample_sha256 decoded_deposit sample_policy at_ ct deposit_required deposit_required
    (store_view balance_store) (memory_contents balance_store) 2 (store_view other_store) (memory_contents other_store) 3).
  - apply sample_policy_wf.
  - exact Hadm.
  - vm_compute. reflexivity.
  - vm_compute. reflexivity.
  - apply deposit_database.
  - apply other_database.
  - apply deposit_rows_agree.
Defined.

(** C21: every row a run writes or deletes lies in a scope its admitted
    manifest declares for writing. *)
Theorem run_writes_in_write_scopes (sha256 : bytes -> bytes) program claims argument_types constant_types required manifest
    `{S1 : Storage View1 Cell1} (view : View1) contents prior ty v effects :
  policy_wf claims -> admitted program argument_types constant_types (prog_tables program) claims ->
  derive sha256 program = Ok required -> validate manifest required (prog_tables program) claims = Ok tt ->
  database_ok view contents prior program ->
  run sha256 view prior program claims = Ok (Success ty v effects) ->
  Forall (fun e => granted (entries manifest) (effect_address e).1 (effect_address e).2 1) effects.
Proof.
  intros Hc Ha Hd Hv Hdb Hr.
  destruct (run_frame sha256 program claims _ _ Hc Ha required manifest Hd Hv view contents prior view contents prior Hdb Hdb)
    as [_ Hw]; [done|]. by eapply Hw.
Qed.

Lemma run_writes_in_write_scopes_witness :
  Forall (fun e => granted (entries deposit_required) (effect_address e).1 (effect_address e).2 1)
    [Effect_Put 1 (be_bytes 8 7) (le_bytes 8 42)].
Proof.
  destruct deposit_admitted as (at_ & ct & Hadm).
  apply (run_writes_in_write_scopes sample_sha256 decoded_deposit sample_policy at_ ct deposit_required deposit_required
    (store_view balance_store) (memory_contents balance_store) 2 Type_I64 (Value_I64 42)).
  - apply sample_policy_wf.
  - exact Hadm.
  - vm_compute. reflexivity.
  - vm_compute. reflexivity.
  - apply deposit_database.
  - vm_compute. reflexivity.
Defined.

(** Installing the record of the next sequence refines the abstract step:
    the newest snapshot is the previous one with the effects applied, older
    snapshots and the checkpoint do not move, and the stored outcome decodes
    to the record; when the store fails nothing changes. *)
Theorem install_applies_effects `{StoreLaws Db View Cell} (store : Db) contents last r :
  holds store contents -> history contents (checkpoint_sequence store) last -> record_wf r ->
  record_sequence r = last + 1 ->
  match install store (record_sequence r) (record_digest r) (record_kind r) (record_outcome r) with
  | (store', Ok _) => exists contents', holds store' contents' /\
      checkpoint_sequence store' = checkpoint_sequence store /\
      resolved r (checkpoint_sequence store) last contents contents'
  | (store', Err _) => holds store' contents /\ checkpoint_sequence store' = checkpoint_sequence store
  | (_, Panic) => False
  end.
Proof. apply install_refines. Qed.

Definition limits_record : OutcomeRecord :=
  {| record_sequence := 1; record_digest := sample_digest; record_kind := 3;
     record_outcome := database_limits sample_policy |}.

Lemma install_applies_effects_witness :
  match install genesis_store 1 sample_digest 3 (database_limits sample_policy) with
  | (store', Ok _) => exists contents', holds store' contents' /\
      checkpoint_sequence store' = checkpoint_sequence genesis_store /\
      resolved limits_record (checkpoint_sequence genesis_store) 0 genesis_contents contents'
  | (store', Err _) => holds store' genesis_contents /\ checkpoint_sequence store' = checkpoint_sequence genesis_store
  | (_, Panic) => False
  end.
Proof.
  apply (install_applies_effects genesis_store genesis_contents 0 limits_record).
  - apply genesis_holds.
  - apply genesis_world.
  - split; [split; vm_compute; discriminate|reflexivity|].
    split; [reflexivity|]. split; [reflexivity|]. constructor; [apply sample_policy_wf|constructor].
  - reflexivity.
Defined.

(** Exactly one sequence number can be executed: the one after the newest
    resolved record.  Reserved, checkpointed, replaced and skipped sequences
    are all refused, and the view is that of the latest roots. *)
Theorem only_next_sequence `{StoreLaws Db View Cell} (store : Db) contents last sequence view :
  holds store contents -> history contents (checkpoint_sequence store) last -> 0 <= sequence <= u64_max ->
  next_view store sequence = Ok view <-> sequence = last + 1 /\ sequence < u64_max /\ view = store_view store.
Proof. intros Hh Hist Hs. by apply (next_view_iff store contents last). Qed.

Lemma only_next_sequence_witness : next_view balance_store 3 = Ok (store_view balance_store).
Proof.
  apply (only_next_sequence balance_store (memory_contents balance_store) 2 3).
  - apply balance_world.
  - apply balance_world.
  - split; vm_compute; discriminate.
  - split; [reflexivity|]. split; [vm_compute; reflexivity|reflexivity].
Defined.

(** C32: a catalogue record computes the abstract change over the newest
    snapshot: it creates, renames or drops the table, or aborts because the
    name is taken by another live table or the table is not live, checking in
    that order of precedence. *)
Theorem catalogue_record_outcome `{Storage View Cell} (view : View) contents checkpoint last operation o :
  Represents view contents -> world contents checkpoint last -> operation_wf operation -> last + 1 < u64_max ->
  database_catalogue view (last + 1) operation = Ok o ->
  exists taken, (taken = true <-> name_taken (contents Catalogue) last (wanted_name operation) (ignored_table operation)) /\
    match catalogue_change (last + 1) operation
            (table_at (contents Catalogue) (changed_table (last + 1) operation) last) taken with
    | inl version => exists data,
        o = Success (catalogue_return (last + 1) operation).1 (catalogue_return (last + 1) operation).2
              [Effect_Catalogue (changed_table (last + 1) operation) data] /\
        decode_catalogue (changed_table (last + 1) operation) data = Ok version
    | inr reason => o = administrative_abort reason
    end.
Proof. intros Hv Hw Hop Hs. by eapply database_catalogue_spec. Qed.

Lemma catalogue_record_outcome_witness : exists taken,
  (taken = true <-> name_taken (genesis_contents Catalogue) 0 [x74] None) /\
  match catalogue_change 1 (Create [x74] Type_U64 Type_I64) (table_at (genesis_contents Catalogue) 1 0) taken with
  | inl version => exists data,
      Success Type_U64 (Value_U64 1)
        [Effect_Catalogue 1 [x01; x00; x01; x00; x01; x00; x00; x00; x74; x03; x00; x00; x00; x01; x00; x03;
                             x03; x00; x00; x00; x01; x00; x02]] =
      Success Type_U64 (Value_U64 1) [Effect_Catalogue 1 data] /\ decode_catalogue 1 data = Ok version
  | inr reason =>
      Success Type_U64 (Value_U64 1)
        [Effect_Catalogue 1 [x01; x00; x01; x00; x01; x00; x00; x00; x74; x03; x00; x00; x00; x01; x00; x03;
                             x03; x00; x00; x00; x01; x00; x02]] = administrative_abort reason
  end.
Proof.
  apply (catalogue_record_outcome (store_view genesis_store) genesis_contents 0 0 (Create [x74] Type_U64 Type_I64)).
  - apply holds_view, genesis_holds.
  - apply genesis_world.
  - repeat split; reflexivity.
  - vm_compute. reflexivity.
  - vm_compute. reflexivity.
Defined.

(** The historical reads return what the snapshot shows: the newest
    version of a table at or before the sequence, and the newest policy, which
    always exists; neither fails on a well-formed history. *)
Theorem historical_reads `{Storage View Cell} (view : View) contents last id sequence :
  Represents view contents -> versions_upto contents last -> 0 < id < u64_max -> 0 <= sequence < u64_max ->
  catalogue_version view id sequence = Ok (shown_table (snapshot contents sequence) id) /\
  exists policy, shown_policy (snapshot contents sequence) = Some policy /\ database_policy view sequence = Ok policy.
Proof.
  intros Hv Hup Hid Hs. split.
  - apply catalogue_version_at; try done. by eapply upto_catalogue_entries.
  - apply database_policy_at; try done; [by eapply upto_policy_entries|apply Hup].
Qed.

Lemma historical_reads_witness :
  catalogue_version (store_view balance_store) 1 0 = Ok (shown_table (snapshot (memory_contents balance_store) 0) 1) /\
  exists policy, shown_policy (snapshot (memory_contents balance_store) 0) = Some policy /\
    database_policy (store_view balance_store) 0 = Ok policy.
Proof.
  apply (historical_reads (store_view balance_store) (memory_contents balance_store) 2).
  - apply holds_view, balance_world.
  - apply balance_world.
  - split; vm_compute; reflexivity.
  - split; [vm_compute; discriminate|vm_compute; reflexivity].
Defined.

(** [name_in_use] answers whether a live table other than the excepted
    one has the name in the snapshot, and never fails on well-formed entries. *)
Theorem names_in_use `{Storage View Cell} (view : View) contents sequence wanted except :
  Represents view contents -> Forall catalogue_entry (contents Catalogue) ->
  exists used, name_in_use view sequence wanted except = Ok used /\
    (used = true <-> exists id version, shown_table (snapshot contents sequence) id = Some version /\
       live version = true /\ name version = wanted /\ except <> Some id).
Proof.
  intros Hv Hc. destruct (name_in_use_iff view contents Hv sequence wanted except Hc) as (b & Hb & Hiff).
  exists b. split; [done|]. rewrite Hiff. unfold name_taken, has_name.
  setoid_rewrite andb_true_iff. setoid_rewrite andb_true_iff. setoid_rewrite negb_true_iff.
  setoid_rewrite bool_decide_eq_true. setoid_rewrite bool_decide_eq_false. simpl. naive_solver.
Qed.

Lemma names_in_use_witness : exists used, name_in_use (store_view table_store) 1 [x62; x61; x6c] None = Ok used /\
  (used = true <-> exists id version, shown_table (snapshot (memory_contents table_store) 1) id = Some version /\
     live version = true /\ name version = [x62; x61; x6c] /\ None <> Some id).
Proof.
  apply (names_in_use (store_view table_store) (memory_contents table_store) 1 [x62; x61; x6c] None).
  - apply holds_view, table_world.
  - eapply upto_catalogue_entries, history_versions, world_history, table_world.
Defined.
