(* ===== verification/Programs.v ===== *)
(** * What admission and the interpreter promise

    The properties of the program reader, the static verifier, the operators
    and one step of the interpreter, and of the access manifest derived from a
    program. *)
From S2P Require Import Prelude OrdMap Errors Reader Value ValueFacts Encoding Limits Operations OperationsFacts Program Flow ProgramFacts Access AccessFacts Analysis AnalysisFacts Storage Mvcc MvccFacts Overlay OverlayFacts Outcome Runtime RuntimeFacts Frame Execution Samples.
From Stdlib Require Import Sorted.

(** C33: reading a program never panics on any bytes, and a program it
    accepts is verified: valid types, arguments and constants of their
    declared types, tables with strictly increasing valid identifiers, sizes
    within the claims. *)
Theorem program_reader program_bytes argument_bytes tables claims :
  no_panic (decode_program program_bytes argument_bytes tables claims) /\
  forall program, decode_program program_bytes argument_bytes tables claims = Ok program ->
    exists argument_types constant_types, admitted program argument_types constant_types tables claims.
Proof. split; [apply decode_program_total|apply decode_program_admitted]. Qed.

Lemma program_reader_witness : exists argument_types constant_types,
  admitted decoded_deposit argument_types constant_types [balances] sample_policy.
Proof.
  apply (proj2 (program_reader deposit_program (deposit_arguments 7 12) [balances] sample_policy)).
  vm_compute. reflexivity.
Defined.

(** C27: what the verifier's single pass establishes: an assignment of
    definitely initialised registers to every instruction, empty at the entry,
    under which each instruction checks, whose branches are all forward and in
    range, and in which the state before every successor is contained in the
    state after the instruction. *)
Theorem verifier_sound program argument_types constant_types claims :
  verify program argument_types constant_types claims = Ok tt ->
  exists ats, length ats = length (prog_instructions program) /\
    (exists a, ats !! 0%nat = Some a /\ forall i, ~ has_bit a i) /\
    forall k x, prog_instructions program !! k = Some x ->
      verified_at program argument_types constant_types claims ats k x.
Proof. apply verify_sound. Qed.

Lemma verifier_sound_witness : exists ats, length ats = length (prog_instructions decoded_deposit) /\
  (exists a, ats !! 0%nat = Some a /\ forall i, ~ has_bit a i) /\
  forall k x, prog_instructions decoded_deposit !! k = Some x ->
    verified_at decoded_deposit [Type_U64; Type_I64] [] sample_policy ats k x.
Proof. apply (verifier_sound decoded_deposit). vm_compute. reflexivity. Defined.

(** C34: the operators are sound for the types the verifier checks: on
    accepted, well-formed operands they never panic, and a result is a
    well-formed value of the destination's shape; overflow, division by zero,
    bad shifts and indices are the only other outcome, a semantic abort. *)
Theorem operators_sound (sha256 : bytes -> bytes) :
  (forall op destination left_ right_ a b,
     check_binary op destination left_ right_ = Ok tt ->
     accepts left_ a = true -> accepts right_ b = true -> value_wf a = true -> value_wf b = true ->
     sound_result destination (binary op a b destination)) /\
  (forall op destination source v,
     check_unary op destination source = Ok tt -> valid_type 1 source = true ->
     accepts source v = true -> value_wf v = true -> sound_result destination (unary sha256 op v)).
Proof. split; intros; [by eapply binary_sound|by eapply unary_sound]. Qed.

Lemma operators_sound_witness :
  sound_result Type_I64 (binary Add (Value_I64 1) (Value_I64 2) Type_I64) /\
  sound_result Type_U64 (unary sample_sha256 ByteLen (Value_Bytes [x01])).
Proof.
  split.
  - apply (proj1 (operators_sound sample_sha256) Add Type_I64 Type_I64 Type_I64); reflexivity.
  - apply (proj2 (operators_sound sample_sha256) ByteLen Type_U64 (Type_Bytes 4)); reflexivity.
Defined.

(** C26: one step of the interpreter on a checked instruction keeps the
    machine invariant (typed registers and overlay, exact resource counters
    within the claims), advances along a control-flow edge or returns an
    accepted value, or aborts with well-formed fields; it never fails or
    panics. *)
Theorem step_preserves_machine (sha256 : bytes -> bytes) `{Storage View Cell} (view : View) contents prior program claims
    argument_types constant_types x a d pc m :
  database_ok view contents prior program -> policy_wf claims ->
  admitted program argument_types constant_types (prog_tables program) claims ->
  prog_instructions program !! pc = Some x ->
  verify_instruction program argument_types constant_types claims x a = Ok d ->
  machine_ok program claims m -> (forall i, has_bit a i -> initialized (registers m) i) ->
  wp (step sha256 view prior program claims pc m) (stepped program claims x d pc m).
Proof. intros. by eapply step_wp. Qed.

Lemma step_preserves_machine_witness :
  wp (step sample_sha256 (store_view balance_store) 2 decoded_deposit sample_policy 0 (initial_machine decoded_deposit))
    (stepped decoded_deposit sample_policy (Arg 0 0) (Some 0%nat) 0 (initial_machine decoded_deposit)).
Proof.
  apply (step_preserves_machine sample_sha256 (store_view balance_store) (memory_contents balance_store) 2
    decoded_deposit sample_policy [Type_U64; Type_I64] [] (Arg 0 0) [0]).
  - apply deposit_database.
  - apply sample_policy_wf.
  - apply deposit_typed.
  - vm_compute. reflexivity.
  - vm_compute. reflexivity.
  - apply initial_machine_ok, sample_policy_wf.
  - intros i (w & Hw & Hb). destruct (i / 64)%nat; [|discriminate Hw]. injection Hw as <-.
    by rewrite Z.testbit_0_l in Hb.
Defined.

(** What the access analysis knows, the registers hold: evaluating an
    instruction leaves the registers as the analysis predicts, so the keys of
    the point scopes it derives are the keys the run touches. *)
Theorem analysis_predicts_registers (sha256 : bytes -> bytes) program claims `{Storage View Cell} (view : View) prior
    known known' x pc m u next m' :
  evaluate sha256 view prior program claims pc m u x = Ok (next, m') -> knows known (registers m) ->
  update_known sha256 program x known = Ok known' -> knows known' (registers m').
Proof. intros He Hk Hu. exact (evaluate_known sha256 program claims view prior known known' x pc m u (next, m') He Hk Hu). Qed.

Lemma analysis_predicts_registers_witness :
  knows {[0%nat := Value_U64 7]} [Some (Value_U64 7); None; None; None].
Proof.
  apply (analysis_predicts_registers sample_sha256 decoded_deposit sample_policy (store_view balance_store) 2
    ∅ {[0%nat := Value_U64 7]} (Arg 0 0) 0 (initial_machine decoded_deposit) Usage_default (Next 1)
    {| registers := [Some (Value_U64 7); None; None; None]; overlay := [];
       usage := {| used_instructions := 0; used_point_accesses := 0; addresses := ∅; used_register_bytes := 8;
                   used_range_rows := 0; used_range_bytes := 0; used_overlay_bytes := 0 |} |}).
  - rewrite decoded_deposit_eq. vm_compute. reflexivity.
  - intros i v Hv. by rewrite lookup_empty in Hv.
  - rewrite decoded_deposit_eq. vm_compute. reflexivity.
Defined.

(** Normalising an access manifest changes no grant: an address may be
    read or written under the manifest exactly when some declared scope
    allows it, and the entries are canonical: strictly ordered, with no key
    scope repeating what its table scope grants. *)
Theorem manifest_grants declared manifest :
  AccessManifest_new declared = Ok manifest ->
  normal (entries manifest) /\
  forall table key bit, 0 <= bit ->
    granted (entries manifest) table key bit <-> granted declared table key bit.
Proof. intros Hn. split; [by eapply new_normal|]. intros. by apply new_grants. Qed.

Definition sample_declared : list (Scope * AccessMode) :=
  [(Scope_Key 1 [x07], ReadWrite); (Scope_Table 1, Read); (Scope_Key 1 [x05], Read)].
Lemma manifest_grants_witness :
  normal [(Scope_Table 1, Read); (Scope_Key 1 [x07], Write)] /\
  forall table key bit, 0 <= bit ->
    granted [(Scope_Table 1, Read); (Scope_Key 1 [x07], Write)] table key bit <-> granted sample_declared table key bit.
Proof.
  apply (manifest_grants sample_declared {| entries := [(Scope_Table 1, Read); (Scope_Key 1 [x07], Write)] |}).
  vm_compute. reflexivity.
Defined.

(** C35: admission of a declared manifest: it grants every access the
    derived manifest requires. *)
Theorem admitted_manifest_covers manifest required tables claims table key bit :
  validate manifest required tables claims = Ok tt ->
  granted (entries required) table key bit -> granted (entries manifest) table key bit.
Proof. apply validate_grants. Qed.

Lemma admitted_manifest_covers_witness : granted [(Scope_Table 1, ReadWrite)] 1 (be_bytes 8 7) 1.
Proof.
  apply (admitted_manifest_covers {| entries := [(Scope_Table 1, ReadWrite)] |} deposit_required [balances] sample_policy).
  - vm_compute. reflexivity.
  - exists (Scope_Key 1 (be_bytes 8 7)), ReadWrite. split; [|split; [by right|reflexivity]].
    apply list_elem_of_In. vm_compute. left. reflexivity.
Defined.
