(* ===== verification/StateReads.v ===== *)
(** * What reads of versioned state promise

    The properties of state keys and values, of snapshot reads and scans, and
    of reads through a transaction's overlay. *)
From S2P Require Import Prelude OrdMap Errors Value Encoding EncodingFacts Storage Mvcc MvccFacts Overlay OverlayFacts Snapshots Installation Administration Execution World Samples.
From Stdlib Require Import Sorted.

(** State keys are canonical and ordered by table, then row key, then
    newest version first: decoding accepts exactly the encodings of valid
    keys, and the byte order of keys is that order. *)
Theorem state_key_codec encoded k :
  (StateKey_decode encoded = Ok k <-> StateKey_encode k = encoded /\ state_key_wf k) /\
  (state_key_wf k -> forall k', state_key_wf k' ->
     cmp (StateKey_encode k) (StateKey_encode k') =
     lex (cmp (state_table k) (state_table k'))
       (lex (cmp (state_key k) (state_key k')) (cmp (state_sequence k') (state_sequence k)))).
Proof.
  split; [apply StateKey_decode_iff|]. intros [? ? ?] k' [? ? ?]. apply cmp_seek_key; lia.
Qed.

Lemma state_key_codec_witness :
  StateKey_decode (seek_key 1 [x00; x07] 5) = Ok {| state_table := 1; state_key := [x00; x07]; state_sequence := 5 |} /\
  cmp (seek_key 1 [x00; x07] 5) (seek_key 1 [x00; x07] 4) = Lt.
Proof.
  split.
  - apply (proj1 (state_key_codec _ _)). split; [reflexivity|].
    split; simpl; [split; vm_compute; reflexivity|vm_compute; discriminate|split; vm_compute; reflexivity].
  - apply (proj2 (state_key_codec [] {| state_table := 1; state_key := [x00; x07]; state_sequence := 5 |})
      ltac:(split; simpl; [split; vm_compute; reflexivity|vm_compute; discriminate|split; vm_compute; reflexivity])
      {| state_table := 1; state_key := [x00; x07]; state_sequence := 4 |}).
    split; simpl; [split; vm_compute; reflexivity|vm_compute; discriminate|split; vm_compute; reflexivity].
Defined.

(** Stored values round trip: a payload is read from exactly the bytes
    that encode it, a deletion or at most 16 MiB of data. *)
Theorem state_value_codec encoded payload :
  value_payload encoded = Ok payload <-> StateValue_encode (state_value payload) = Ok encoded.
Proof. apply value_payload_iff. Qed.

(** A snapshot point read returns the newest version of the row at or
    before the sequence, a deletion as absence, and never fails on a
    well-formed state tree. *)
Theorem snapshot_get `{Storage View Cell} (view : View) contents table key sequence :
  Represents view contents -> Forall state_entry (contents State) ->
  0 < table < u64_max -> 0 <= sequence < u64_max -> len key <= MAX_KEY_BYTES ->
  mvcc_get view table key sequence = Ok (row (contents State) table key sequence).
Proof. intros Hv Hs Ht Hq Hk. by apply mvcc_get_row. Qed.

Lemma snapshot_get_witness :
  mvcc_get (store_view balance_store) 1 (be_bytes 8 7) 2 = Ok (row (memory_contents balance_store State) 1 (be_bytes 8 7) 2).
Proof.
  apply (snapshot_get (store_view balance_store) (memory_contents balance_store)).
  - apply holds_view, balance_world.
  - eapply upto_state_entries, history_versions, world_history, balance_world.
  - split; vm_compute; reflexivity.
  - split; [vm_compute; discriminate|vm_compute; reflexivity].
  - vm_compute. discriminate.
Defined.

(** A snapshot scan yields, in key order and without error, exactly the
    rows the snapshot shows within the range. *)
Theorem snapshot_scan `{Storage View Cell} (view : View) contents table sequence lower upper :
  Represents view contents -> Forall state_entry (contents State) ->
  0 < table < u64_max -> 0 <= sequence < u64_max ->
  check_user_bound lower = Ok tt -> check_user_bound upper = Ok tt ->
  exists rows, mvcc_scan view table sequence lower upper = Ok (map Ok rows) /\ bt_sorted rows /\
    forall key v, (key, v) ∈ rows <->
      in_range lower upper key = true /\ row (contents State) table key sequence = Some v.
Proof. intros Hv Hs Ht Hq Hl Hu. by apply mvcc_scan_rows. Qed.

Lemma snapshot_scan_witness :
  exists rows, mvcc_scan (store_view other_store) 1 3 Unbounded (Excluded (be_bytes 8 8)) = Ok (map Ok rows) /\
    bt_sorted rows /\ forall key v, (key, v) ∈ rows <->
      in_range Unbounded (Excluded (be_bytes 8 8)) key = true /\
      row (memory_contents other_store State) 1 key 3 = Some v.
Proof.
  apply (snapshot_scan (store_view other_store) (memory_contents other_store)).
  - apply holds_view, other_world.
  - eapply upto_state_entries, history_versions, world_history, other_world.
  - split; vm_compute; reflexivity.
  - split; [vm_compute; discriminate|vm_compute; reflexivity].
  - reflexivity.
  - reflexivity.
Defined.

(** C31: reads through an overlay see the transaction's own writes over the
    snapshot: a point read returns the pending value or the row, and a scan
    yields, in key order and without error, exactly the merged rows of the
    range. *)
Theorem overlay_reads `{Storage View Cell} (view : View) contents table sequence overlay lower upper :
  Represents view contents -> Forall state_entry (contents State) ->
  0 < table < u64_max -> 0 <= sequence < u64_max -> overlay_wf overlay ->
  check_user_bound lower = Ok tt -> check_user_bound upper = Ok tt -> range_panics lower upper = false ->
  (forall key, len key <= MAX_KEY_BYTES ->
     overlay_get view table key sequence overlay = Ok (merged (contents State) overlay table key sequence)) /\
  exists rows, overlay_scan view table sequence lower upper overlay = Ok (map Ok rows) /\ bt_sorted rows /\
    forall key v, (key, v) ∈ rows <->
      in_range lower upper key = true /\ merged (contents State) overlay table key sequence = Some v.
Proof.
  intros Hv Hs Ht Hq Ho Hl Hu Hr. split; [|by apply overlay_scan_rows].
  intros key Hk. by apply (overlay_get_merged view contents table sequence Hv Hs Ht Hq).
Qed.

Definition pending_overlay : Overlay := [((1, be_bytes 8 5), Some [x01]); ((1, be_bytes 8 7), None)].
Lemma overlay_reads_witness :
  (forall key, len key <= MAX_KEY_BYTES ->
     overlay_get (store_view other_store) 1 key 3 pending_overlay =
     Ok (merged (memory_contents other_store State) pending_overlay 1 key 3)) /\
  exists rows, overlay_scan (store_view other_store) 1 3 Unbounded Unbounded pending_overlay = Ok (map Ok rows) /\
    bt_sorted rows /\ forall key v, (key, v) ∈ rows <->
      in_range Unbounded Unbounded key = true /\
      merged (memory_contents other_store State) pending_overlay 1 key 3 = Some v.
Proof.
  apply (overlay_reads (store_view other_store) (memory_contents other_store)).
  - apply holds_view, other_world.
  - eapply upto_state_entries, history_versions, world_history, other_world.
  - split; vm_compute; reflexivity.
  - split; [vm_compute; discriminate|vm_compute; reflexivity].
  - split; [repeat constructor|repeat constructor; vm_compute; discriminate].
  - reflexivity.
  - reflexivity.
  - reflexivity.
Defined.
