(* ===== verification/Codecs.v ===== *)
(** * What the codecs promise

    The properties of descriptors, values, storage keys, limit policies and
    the commands of log records, with witnesses at concrete inputs. *)
From S2P Require Import Prelude OrdMap Errors Reader Value ValueFacts Encoding EncodingFacts Limits Operations Program Access AccessFacts Catalogue CatalogueFacts Storage Mvcc MvccFacts Outcome OutcomeFacts Administration Snapshots Installation Execution World Command Samples.

(** A sample type and value: a pair of an integer and a string. *)
Definition pair_type : Ty := Type_Tuple [Type_I64; Type_String 4].
Definition pair_value : Value := Value_Tuple [Value_I64 (-2); Value_String [x61; x00; x62]].
Definition pair_descriptor : bytes :=
  [x01; x00; x06; x02; x00; x02; x05; x04; x00; x00; x00].
Definition pair_data : bytes :=
  [xfe; xff; xff; xff; xff; xff; xff; xff; x03; x00; x00; x00; x61; x00; x62].
Definition pair_key : bytes :=
  [x7f; xff; xff; xff; xff; xff; xff; xfe; x61; x00; xff; x62; x00; x00].
Definition pair_schema : Schema :=
  schema_for pair_type (Node_Tuple [Node_I64; Node_String 4]) pair_descriptor.

(** The descriptor codec is a bijection: [Type::decode] accepts exactly
    the canonical descriptors of the valid types, and returns that type. *)
Theorem descriptor_codec data ty :
  decode data = Ok ty <->
  descriptor (E:=Error) ty = Ok data /\ valid_type 1 ty = true /\ len data <= MAX_DESCRIPTOR_BYTES.
Proof. apply decode_descriptor_iff. Qed.

(** C39: for a type read from a descriptor, [decode_value] accepts exactly the
    canonical encodings of the values the type accepts, and returns the value
    encoded: both round trips, and rejection of everything else. *)
Theorem value_codec descriptor ty data v :
  decode descriptor = Ok ty ->
  decode_value ty data = Ok v <->
  encode (E:=Error) v = Ok data /\ accepts ty v = true /\ value_wf v = true.
Proof. intros H%decode_valid. by eapply decode_value_iff. Qed.

Lemma value_codec_witness :
  decode pair_descriptor = Ok pair_type /\ decode_value pair_type pair_data = Ok pair_value.
Proof.
  assert (decode pair_descriptor = Ok pair_type) as H by (vm_compute; reflexivity).
  split; [exact H|]. apply (value_codec _ _ _ _ H). vm_compute. repeat split; reflexivity.
Defined.

(** C37: the storage key of a value is order preserving and prefix free: two
    values of one schema compare as their keys do as byte strings, and no key
    is a proper prefix of another. *)
Theorem key_order data ty schema b1 b2 v1 v2 k1 k2 :
  decode data = Ok ty -> Schema_decode data = Ok schema ->
  decode_value ty b1 = Ok v1 -> decode_value ty b2 = Ok v2 ->
  encode_key schema b1 = Ok k1 -> encode_key schema b2 = Ok k2 ->
  cmp k1 k2 = value_cmp v1 v2 /\ forall rest, k2 = k1 ++ rest -> rest = [].
Proof.
  intros Hd Hs Hv1 Hv2 Hk1 Hk2. pose proof (keys_ordered _ _ _ _ _ _ _ _ _ Hd Hs Hv1 Hv2 Hk1 Hk2) as Hc.
  split; [specialize (Hc [] []); rewrite !app_nil_r in Hc; by destruct (value_cmp v1 v2)|].
  intros rest Hr. specialize (Hc rest []). rewrite app_nil_r, Hr, cmp_refl in Hc.
  symmetry in Hc. apply lex_eq in Hc as [_ Hc]. by apply cmp_eq in Hc.
Qed.

Lemma key_order_witness :
  cmp pair_key pair_key = value_cmp pair_value pair_value /\
  (forall rest, pair_key = pair_key ++ rest -> rest = []).
Proof.
  apply (key_order pair_descriptor pair_type pair_schema pair_data pair_data);
    vm_compute; reflexivity.
Defined.

(** C38: the key codec is a bijection between encoded values and keys, both
    directions rejecting what the other cannot produce, and keys are within
    the bound the schema declares. *)
Theorem key_codec data schema value key :
  Schema_decode data = Ok schema ->
  (encode_key schema value = Ok key <-> decode_key schema key = Ok value) /\
  (encode_key schema value = Ok key -> len key <= schema_max_key_bytes schema <= MAX_KEY_BYTES).
Proof. intros H. eapply key_codec_iff. exact H. Qed.

Lemma key_codec_witness : Schema_decode pair_descriptor = Ok pair_schema /\
  decode_key pair_schema pair_key = Ok pair_data /\ len pair_key <= 1024.
Proof.
  assert (Schema_decode pair_descriptor = Ok pair_schema) as H by (vm_compute; reflexivity).
  split; [exact H|]. split; [|vm_compute; discriminate].
  apply (key_codec _ _ pair_data pair_key H). vm_compute. reflexivity.
Defined.

(** The two descriptor decoders agree: storage's [Schema::decode] accepts
    exactly the descriptors of the VM types without Rows and computes their
    value and key bounds, and storage then validates exactly the byte strings
    the VM decodes. *)
Theorem schema_agrees data schema :
  Schema_decode data = Ok schema <->
  exists ty node, decode data = Ok ty /\ node_of ty = Some node /\ schema = schema_for ty node data /\
    forall value, validate_value schema value = Ok tt <-> exists v, decode_value ty value = Ok v.
Proof.
  rewrite Schema_decode_iff. split; [|naive_solver].
  intros (ty & node & Hd & Hn & ->). exists ty, node. do 3 (split; [done|]).
  intros value. apply validate_value_iff; [by eapply decode_valid | done].
Qed.

(** Derived [Ord] for [Value] is a total order whose equality is
    structural equality: antisymmetric, transitive and total. *)
Theorem value_order_total a b c :
  (value_cmp a b = Eq <-> a = b) /\ value_cmp b a = CompOpp (value_cmp a b) /\
  (value_cmp a b = Lt -> value_cmp b c = Lt -> value_cmp a c = Lt).
Proof. split; [apply value_cmp_eq | split; [apply value_cmp_antisym | apply value_cmp_trans]]. Qed.

(** Size bounds: encoding a value of a decoded type never panics, produces
    exactly [encoded_len] bytes, at least the type's minimum (which the decoder
    checks before reading) and at most its declared maximum of 16 MiB. *)
Theorem value_size_bounds descriptor ty v :
  decode descriptor = Ok ty -> accepts ty v = true ->
  exists data, encode (E:=Error) v = Ok data /\ len data = encoded_len v /\
    min_value_bytes ty <= len data <= max_value_bytes ty /\ max_value_bytes ty <= MAX_VALUE_BYTES.
Proof.
  intros Hd%decode_valid Ha. destruct (encode_value_ok (E:=Error) ty 1 v Hd Ha) as [data He].
  exists data. pose proof (encode_value_len _ _ He) as Hl. split; [done|]. split; [done|].
  rewrite Hl. split; [split; [by eapply min_value_bytes_le | by eapply encoded_len_le]|].
  by eapply valid_type_max.
Qed.

Lemma value_size_bounds_witness :
  exists data, encode (E:=Error) pair_value = Ok data /\ len data = encoded_len pair_value /\
    min_value_bytes pair_type <= len data <= max_value_bytes pair_type /\
    max_value_bytes pair_type <= MAX_VALUE_BYTES.
Proof. apply (value_size_bounds pair_descriptor); vm_compute; reflexivity. Defined.

(** The limit policy codec is a bijection between 140-byte encodings and
    policies of seventeen limits, each at most its hard ceiling. *)
Theorem limit_policy_codec data policy :
  LimitPolicy_decode data = Ok policy <-> LimitPolicy_encode policy = data /\ policy_wf policy.
Proof. apply LimitPolicy_decode_iff. Qed.

(** Decoding untrusted bytes never panics, for descriptors of either
    decoder and for values at any type. *)
Theorem decoders_never_panic data ty :
  no_panic (decode data) /\ no_panic (Schema_decode data) /\ no_panic (decode_value ty data).
Proof. split; [apply decode_no_panic|]. split; [apply Schema_decode_no_panic | apply decode_value_no_panic]. Qed.

(** Catalogue versions round trip: the decoder accepts exactly the
    encodings of well-formed versions of the table, whose schemas storage
    accepts, and returns the version encoded. *)
Theorem catalogue_codec id data version :
  decode_catalogue id data = Ok version <->
  encode_catalogue version = Ok data /\ table_id (version_table version) = id /\ version_wf version.
Proof. apply decode_catalogue_iff. Qed.

(** Catalogue keys round trip for the versions a table can have, from
    its creation on, and order the versions of a table newest first. *)
Theorem catalogue_key_codec data id sequence :
  (decode_catalogue_key data = Ok (id, sequence) <->
   data = catalogue_key id sequence /\ 0 < id <= sequence /\ sequence < u64_max) /\
  (0 <= id <= u64_max -> 0 <= sequence <= u64_max -> forall id' sequence',
     0 <= id' <= u64_max -> 0 <= sequence' <= u64_max ->
     cmp (catalogue_key id sequence) (catalogue_key id' sequence') = lex (cmp id id') (cmp sequence' sequence)).
Proof. split; [apply decode_catalogue_key_iff|]. intros. by apply cmp_catalogue_key. Qed.

Lemma catalogue_key_codec_witness :
  decode_catalogue_key (catalogue_key 1 5) = Ok (1, 5) /\ cmp (catalogue_key 1 5) (catalogue_key 1 4) = Lt.
Proof.
  split.
  - apply (proj1 (catalogue_key_codec _ _ _)). split; [reflexivity|]. repeat split; vm_compute; congruence.
  - apply (proj2 (catalogue_key_codec [] 1 5)); split; vm_compute; discriminate.
Defined.

(** A stored outcome decodes to the record that was encoded, its effects
    in canonical address order; the encoder rejects what the decoder would. *)
Theorem outcome_encode_decode r data :
  record_wf r ->
  encode_outcome (record_sequence r) (record_digest r) (record_kind r) (record_outcome r) = Ok data ->
  decode_outcome data = Ok (canonical_record r).
Proof. apply encode_decode_outcome. Qed.

Definition sample_record : OutcomeRecord :=
  {| record_sequence := 2; record_digest := sample_digest; record_kind := 1;
     record_outcome := Success Type_U64 (Value_U64 9) [Effect_Delete 1 [x07]; Effect_Put 1 [x05] [x01; x02]] |}.
Definition sample_outcome : bytes :=
  match encode_outcome 2 sample_digest 1 (record_outcome sample_record) with Ok data => data | _ => [] end.

Lemma outcome_encode_decode_witness : decode_outcome sample_outcome = Ok (canonical_record sample_record).
Proof.
  apply outcome_encode_decode.
  - split; [split; vm_compute; discriminate|reflexivity|].
    split; [reflexivity|]. split; [reflexivity|]. repeat constructor; vm_compute; discriminate.
  - vm_compute. reflexivity.
Defined.

(** The outcome codec is canonical: bytes that decode are the encoding
    of the record they decode to, which is well formed with its effects
    strictly ordered by address. *)
Theorem outcome_decode_encode r data :
  decode_outcome data = Ok r ->
  encode_outcome (record_sequence r) (record_digest r) (record_kind r) (record_outcome r) = Ok data /\
  record_wf r /\ canonical (record_outcome r).
Proof. apply decode_encode_outcome. Qed.

Lemma outcome_decode_encode_witness :
  encode_outcome 2 sample_digest 1 (record_outcome (canonical_record sample_record)) = Ok sample_outcome /\
  record_wf (canonical_record sample_record) /\ canonical (record_outcome (canonical_record sample_record)).
Proof. apply (outcome_decode_encode (canonical_record sample_record)). vm_compute. reflexivity. Defined.

(** C40: no bytes in the trees make a reader of stored records panic, and the
    encoders panic on no value a Rust record can hold. *)
Theorem record_codecs_never_panic data id sequence digest kind o version :
  no_panic (decode_outcome data) /\ no_panic (decode_catalogue id data) /\ no_panic (decode_catalogue_key data) /\
  no_panic (LimitPolicy_decode data) /\ no_panic (encode_catalogue version) /\
  (outcome_wf o -> no_panic (encode_outcome sequence digest kind o)).
Proof.
  split; [apply decode_outcome_no_panic|]. split; [apply decode_catalogue_no_panic|].
  split; [apply decode_catalogue_key_no_panic|]. split; [apply LimitPolicy_decode_no_panic|].
  split; [apply encode_catalogue_no_panic|]. apply encode_outcome_no_panic.
Qed.

Lemma record_codecs_never_panic_witness : no_panic (encode_outcome 2 sample_digest 1 (record_outcome sample_record)).
Proof.
  apply (record_codecs_never_panic [] 1 2 sample_digest 1 (record_outcome sample_record)
    {| live := true; name := []; version_table := balances |}).
  split; [reflexivity|]. split; [reflexivity|]. repeat constructor; vm_compute; discriminate.
Defined.

(** Access manifests round trip: the decoder accepts exactly the
    encodings of normal manifests of at most 16,384 entries whose identifiers
    and keys are in range. *)
Theorem manifest_codec data manifest :
  AccessManifest_decode data = Ok manifest <->
  AccessManifest_encode manifest = Ok data /\ Forall entry_fits (entries manifest) /\ normal (entries manifest).
Proof. apply manifest_codec_iff. Qed.

(** C36: the body of a log record has one form: a decoder accepts exactly the
    body and the kind that encoding the command gives, for commands whose
    parts are within the formats' bounds, and never panics, whatever the kind
    and the bytes. *)
Theorem command_codec kind body command :
  no_panic (decode_command kind body) /\
  (decode_command kind body = Ok command <-> encode_command command = Ok (kind, body) /\ command_wf command).
Proof. split; [apply decode_command_no_panic|apply decode_command_iff]. Qed.
